(* ===== verification/_CoqProject ===== *)
-Q . S2P
Prelude.v
Crypto.v
Format.v
GovernedAction.v
GovernedRuntime.v
FencedRuntime.v
Easl.v
Decision.v
Epistemic.v
Temporal.v
Outcome.v
Evidence.v
KernelAbi.v
KernelFabric.v
Continuity.v
Json.v
Base64.v
Permit.v
HeadStore.v
Witness.v
Quorum.v
Rotation.v
Unmarshal.v
GoTime.v
JournalEntry.v
FileSystem.v
Journal.v
Ordered.v
WriteOrder.v
Ledger.v
MemoryFS.v
AppendOnly.v
JournalText.v
JournalRun.v
Document.v
Workload.v
Lifecycle.v
Recovery.v
Quarantine.v
RuntimeTrust.v
Indented.v
LifecycleText.v
Linux.v
Launcher.v
LifecycleStore.v
LifecycleSteps.v
LifecycleLaws.v
LifecycleRun.v
LaunchOrder.v
HostMemory.v
LifecycleExample.v
StrictJson.v
HashChain.v
CapabilityFence.v
CapabilityRecord.v
CapabilityRoot.v
CapabilityRootLaws.v
CapabilityExample.v
Replay.v
ReplayLaws.v
ReplayExample.v
AnyJson.v
Approval.v
Receipt.v
AnyValue.v
EvidencePipeline.v
CrmOutcome.v
CrmAttempt.v
CrmExecutor.v
CrmLaws.v
CrmCustody.v
CrmEvidence.v
CrmExample.v
