(* ===== verification/Prelude.v ===== *)
(** * Aegis EGE, modelled and verified

    Aegis EGE decides whether an agent's action may take effect, carries the
    decision to the place where the effect happens, and keeps evidence of both.
    This development models its core in Rocq and proves what makes it correct.

    ** The program and how its parts interact

    - A request is judged by the decision kernel ([internal/decision]) over
      evidence, under assumptions whose validity [internal/epistemic] and
      [internal/assurance] track; its outcomes are compared and counted by
      [internal/outcome].
    - An allowed action becomes a signed permit ([internal/ege]) with its
      evidence composition, its capability fence and its consequences; the
      server issues and claims capabilities once ([internal/server]).
    - At the effect, [governedaction] checks binding, validity, origin, approval,
      credentials and taint again, and its runtime runs the effect at most once
      under custody that a store fences by compare-and-swap.
    - On Linux [internal/kernelfabric] enforces decisions in the kernel (fences,
      capsules, taint), starts attested workloads under admission grants, and
      governs their lifecycle: exits, recovery, quarantine, runtime trust.
    - Everything is recorded in a hash-chained journal ([internal/journal]) whose
      head an external witness, or a quorum of witnesses that can be rotated,
      keeps from being rolled back.
    - A change of a customer's record goes all the way: the runtime event is
      compiled into an evidence packet ([internal/evidencepipeline]), a permit is
      bound to it, and [internal/eepcrm] executes the change under a durable
      attempt, observes what came of it, and reconciles or retires what is
      unresolved.

    ** Conventions

    Definitions keep the names of the source, with the receiver dropped or, where
    two would clash, before an underscore.  A method on a stateful object takes
    and returns the state; a program that reaches outside itself is a function of
    type [M W E A] ([W → A * W * list E]): it runs from a world [W], over which
    others act between two calls, and gives the calls it made, in order.  What
    the program is linked against (a store, a clock, a signer, the file system, an
    adapter) is a class or a record of functions over [W]; what a theorem needs of
    it is a class of laws.  Errors are values ([error]: a sentinel, [%w] wrapping,
    a typed field error) and [result] is the pair of a value and an error.
    Integers are [Z], wrapped at their width where they can overflow ([wrap_u64],
    [wrap_i64], [wrap_u32]).  A string is the list of its bytes.  An instant is the
    number of nanoseconds since the zero time of Go, a [time.Time] with its zone is
    [gotime].  A [nil] pointer, function or interface is [None].

    ** Which file models what

    Shared: [Prelude] (errors, results, programs and their traces, integers,
    time), [Crypto] (SHA-256 as a function, hexadecimal), [Format], [GoTime] (RFC
    3339), [Json], [Indented], [Unmarshal], [Base64] ([encoding/json],
    [encoding/base64] as the sources use them), [StrictJson] (a decoder that
    refuses unknown members), [AnyJson] (JSON read into a map of any values and
    written again), [AnyValue] (untyped values with their floating-point numbers,
    and canonical JSON), [HashChain] (records that name the hash of the one
    before), [FileSystem] ([os],
    [path/filepath], [bufio]), [Linux] (system calls, the identity of a process),
    [Ordered] (effects in order), [MemoryFS] and [HostMemory] (file systems and a
    host in memory, on which the examples run).

    - [governedaction/*.go]: [GovernedAction] (boundary relations, [Dispatch]);
      [governedaction/runtime]: [GovernedRuntime] ([Run], [Recover]) and
      [FencedRuntime] (reserve, execute, take over; interleavings over one store).
    - [internal/easlruntime], [internal/decision]: [Easl], [Decision].
      [internal/epistemic], [internal/assurance]: [Epistemic], [Temporal].
      [internal/outcome]: [Outcome].
    - [internal/ege]: [Evidence] (composition), [Permit] (permits, fences,
      consequences), [Approval] (the approvals of a permit), [Receipt] (receipts of
      outcomes and their seals).
    - [internal/kernelfabric], enforcement: [KernelAbi] (structures shared with the
      kernel), [KernelFabric] (leases, evaluation, installer), [Continuity].
    - [internal/kernelfabric], workloads: [Document] (the scheme of every signed
      document), [Workload] (admission), [Lifecycle], [Recovery], [Quarantine],
      [RuntimeTrust] (documents and evaluations), [LifecycleText] (the state file),
      [Launcher], [LifecycleStore] (the operations); their specification and
      theorems are [LifecycleSteps], [LifecycleLaws], [LifecycleRun],
      [LaunchOrder], applied in [LifecycleExample].
    - [internal/journal]: [HeadStore], [Witness], [Quorum], [Rotation];
      [JournalEntry], [Journal], with theorems in [WriteOrder], [Ledger],
      [JournalText], [JournalRun], [AppendOnly].
    - [internal/server]: [CapabilityFence] (the fence of a capability and the
      authority with an independent root), [CapabilityRecord] and [CapabilityRoot]
      (the root's ledger and its anchor in a head store), with theorems in
      [CapabilityRootLaws] and [CapabilityExample]; [Replay] (claims of
      authorizations), with theorems in [ReplayLaws] and [ReplayExample].
    - [internal/evidencepipeline]: [EvidencePipeline].  [internal/eepcrm]:
      [CrmOutcome] ([postcondition.go], the evidence of outcomes and closures),
      [CrmAttempt] ([attempt_store.go]), [CrmExecutor] ([executor.go],
      [recovery.go]), with theorems in [CrmLaws], [CrmCustody] and [CrmEvidence],
      applied in [CrmExample].

    ** What the theorems show

    - An effect runs at most once, under the custody that is stored at that
      moment, after every check passed, and what is reported of it is true
      ([FencedRuntime], [GovernedRuntime], [GovernedAction]); custody only moves
      forward.
    - The kernel allows exactly what its gates allow, acquires within its bounds,
      and an invalidated assumption brings down what depends on it, no more and no
      less ([Decision], [Epistemic]).
    - A permit that verifies was signed, for these claims; enough independent
      evidence is computed exactly ([Permit], [Evidence]).  The approvals of a
      permit are exactly those it names, and a permit issued on them verifies
      ([Approval]); a receipt that is built validates, and its seal determines
      what it says ([Receipt]).
    - A kernel allow never outlives its authority; installation fails closed; the
      kernel's structures and evidence counters are exact ([KernelFabric],
      [KernelAbi], [Continuity]).
    - One line of heads: advances over a quorum never overlap, a healthy quorum
      answers, a rotation never leaves two quorums ([Quorum], [Witness],
      [Rotation], [HeadStore]).
    - A journal that verifies as trusted extends every earlier one, whoever wrote
      its files; its operations refine an append-only ledger, and on files of its
      own it implements a list ([AppendOnly], [Ledger], [JournalRun]).
    - Workloads: every operation on a lifecycle, run among other processes, makes
      the move its document authorises; no document applies twice; a generation
      has one start, a grant one process, and no process is left behind; a state
      file stays readable; quarantine ends with a release ([LifecycleRun],
      [LaunchOrder]).
    - A capability that was superseded is refused for good, although the mutable
      authority and the root's ledger be restored; the ledger reads back what is
      appended ([CapabilityRootLaws]).  An authorization is claimed once, is
      completed after its claim and has one outcome ([ReplayLaws]).
    - An attempt at a change of a customer sends at most one request, only under
      the custody that the attempt, the journal and the authority give at that
      moment ([CrmCustody]); what is called a success was observed, and a recovery
      observes only ([CrmEvidence]).  A packet hides what is sensitive and holds
      the rest ([EvidencePipeline]).

    Theorems that are named by a claim ([C1], ...) are the development's
    properties; a theorem with hypotheses has a witness ([..._witness]) that
    applies it at a concrete input, with every parameter given by a function.
    Findings are theorems too: [evidence_digest_ambiguous],
    [unset_assurance_is_asserted], [corroborated_without_references],
    [accounting_overflow_accepted], [source_invalidation_never_decodes],
    [unbooted_fence_encodes], [revoke_scope_may_revoke_nothing],
    [appended_event_breaks_journal], [revoked_workload_never_quarantined],
    [broken_domain_bricks_root], [refused_abort_decides_outcome],
    [slash_key_loses_outcome], [customer_id_escaped_twice].

    ** Bounds and fuel

    Loops of the source are structural recursions, over the list they range over
    or over a counter that starts at the source's own bound.  Three need fuel: the
    propagation of [Epistemic] (as much as there are assumptions: each falls once,
    and [handle_brings_down_exactly] shows that the queue is empty at the end), the
    digits of a floating-point number in [AnyValue] (seventeen tell any two apart)
    and the parser of [Unmarshal] (the length of the text: every value it reads is a
    character shorter, and the round trips show that it is enough).  The
    interleavings of [Quorum] are step relations; [quorum_advance_succeeds] shows
    that every schedule ends.

    ** What is assumed

    SHA-256 is computed; a theorem that needs it to be injective concludes "or
    here is a collision".  Ed25519, EASL, Kubernetes, an HTTP client, [url.Parse] and
    the kernel's maps are
    parameters with the laws that their documentation states; the order in which
    Go ranges over a map is a parameter ([MapRange]), so that no theorem depends
    on it.  Concurrency is modelled at the calls that reach outside: two critical
    sections of one mutex do not overlap, and everything else interleaves between
    calls.  A timeout of a context is an answer that the context may give.

    ** Not modelled

    Parsers of third-party formats (TPM quotes, IMA and event logs, ELF and BPF
    objects) and what only wires them together, the command-line programs, HTTP
    servers around the handlers, the Kubernetes client, experiments, fixtures and
    tests.  [exec.CommandContext] kills a workload when its context ends; that
    later kill is left to [os/exec].  Of a [fmt] verb other than [%w] the text of
    an error keeps the argument only.  PROJECT.json lists every component with
    what is left out of it. *)

From stdpp Require Export prelude strings gmap sorting pretty.
From Stdlib Require Export ZArith Lia Ascii.

Declare Scope go_scope.
Delimit Scope go_scope with go.

(** * Go errors

    [nil] is [None]; a non-nil error is [Some e].  Sentinels are [ErrNew]
    values with the text of the source, [ErrWrap p e] is
    [fmt.Errorf("p: %w", e)] (a [%q] argument stands in [p] unquoted),
    [ErrDetail e d] is [fmt.Errorf("%w: d", e)],
    [ErrField f e] is a typed field error such as
    [&BindingError{Field: f, Cause: e}]. *)

Inductive error : Type :=
  | ErrNew (msg : string)
  | ErrWrap (prefix : string) (cause : error)
  | ErrDetail (cause : error) (detail : string)
  | ErrField (field : string) (cause : error).

#[export] Instance error_eq_dec : EqDecision error.
Proof. solve_decision. Defined.

(** [err.Error()]. *)
Fixpoint error_text (e : error) : string :=
  match e with
  | ErrNew msg => msg
  | ErrWrap p c | ErrField p c => p +:+ ": " +:+ error_text c
  | ErrDetail c d => error_text c +:+ ": " +:+ d
  end.

(** [errors.Is]: unwraps until the target is met. *)
Fixpoint errors_Is (e target : error) : bool :=
  bool_decide (e = target) ||
  match e with
  | ErrNew _ => false
  | ErrWrap _ c | ErrDetail c _ | ErrField _ c => errors_Is c target
  end.

(** Functions returning [(T, error)] where the value is meaningless on error. *)
Inductive result (A : Type) : Type :=
  | Ok (a : A)
  | Error (e : error).
Arguments Ok {A} _.
Arguments Error {A} _.

#[export] Instance result_ret : MRet result := λ A a, Ok a.
#[export] Instance result_bind : MBind result := λ A B f m,
  match m with Ok a => f a | Error e => Error e end.

Definition is_ok {A} (r : result A) : bool :=
  match r with Ok _ => true | Error _ => false end.

(** A guard clause [if c { return err }]. *)
Definition guard_err (c : bool) (e : error) : option error :=
  if c then Some e else None.

(** Sequencing of early returns: the first non-nil error wins. *)
Definition orelse (a b : option error) : option error :=
  match a with Some e => Some e | None => b end.
Notation "a ;;? b" := (orelse a b) (at level 100, right associativity) : go_scope.

Lemma orelse_None a b : orelse a b = None ↔ a = None ∧ b = None.
Proof. destruct a; naive_solver. Qed.

Lemma guard_err_None c e : guard_err c e = None ↔ c = false.
Proof. destruct c; naive_solver. Qed.

(** * Go strings *)

(** [strings.TrimSpace] removes the Unicode white space at both ends.  Strings
    are byte strings, so the non-ASCII white space characters appear as their
    UTF-8 encodings: U+0085 and U+00A0 (two bytes), U+1680, U+2000..U+200A,
    U+2028, U+2029, U+202F, U+205F and U+3000 (three bytes). *)
Definition byte_of (a : ascii) : N := N_of_ascii a.

Definition space1 (a : ascii) : bool := Ascii.is_space a.

Definition space2 (a b : ascii) : bool :=
  (byte_of a =? 0xC2)%N && ((byte_of b =? 0x85)%N || (byte_of b =? 0xA0)%N).

Definition space3 (a b c : ascii) : bool :=
  let x := byte_of a in let y := byte_of b in let z := byte_of c in
  ((x =? 0xE1)%N && (y =? 0x9A)%N && (z =? 0x80)%N) ||
  ((x =? 0xE2)%N && (y =? 0x80)%N &&
     (((0x80 <=? z)%N && (z <=? 0x8A)%N) || (z =? 0xA8)%N || (z =? 0xA9)%N || (z =? 0xAF)%N)) ||
  ((x =? 0xE2)%N && (y =? 0x81)%N && (z =? 0x9F)%N) ||
  ((x =? 0xE3)%N && (y =? 0x80)%N && (z =? 0x80)%N).

Fixpoint trim_left_with (s2 : ascii → ascii → bool) (s3 : ascii → ascii → ascii → bool)
    (l : list ascii) : list ascii :=
  match l with
  | [] => []
  | a :: l1 =>
      if space1 a then trim_left_with s2 s3 l1
      else match l1 with
           | [] => l
           | b :: l2 =>
               if s2 a b then trim_left_with s2 s3 l2
               else match l2 with
                    | [] => l
                    | c :: l3 => if s3 a b c then trim_left_with s2 s3 l3 else l
                    end
           end
  end.

(** The right end is the left end of the reversed bytes. *)
Definition trim_left : list ascii → list ascii := trim_left_with space2 space3.
Definition trim_right (l : list ascii) : list ascii :=
  reverse (trim_left_with (λ b a, space2 a b) (λ c b a, space3 a b c) (reverse l)).

Definition TrimSpace (s : string) : string :=
  String.string_of_list_ascii (trim_right (trim_left (String.list_ascii_of_string s))).

(** [strings.TrimSpace(s) == ""] *)
Definition blank (s : string) : bool := bool_decide (TrimSpace s = "").

Definition str_eqb (a b : string) : bool := bool_decide (a = b).
Arguments TrimSpace : simpl never.
Arguments blank : simpl never.
Arguments str_eqb : simpl never.

Lemma str_eqb_eq a b : str_eqb a b = true ↔ a = b.
Proof. apply bool_decide_eq_true. Qed.

Lemma str_eqb_neq a b : str_eqb a b = false ↔ a ≠ b.
Proof. apply bool_decide_eq_false. Qed.

Lemma str_eqb_refl a : str_eqb a a = true.
Proof. by apply str_eqb_eq. Qed.

Lemma blank_empty : blank "" = true.
Proof. reflexivity. Qed.

Lemma not_blank_nonempty s : blank s = false → s ≠ "".
Proof. by intros Hb ->. Qed.

(** [sort.Strings]: bytewise lexicographic order.  The order is total and
    antisymmetric, so the sorted sequence is unique and any sorting algorithm
    returns it; a merge sort stands for the one of the Go library. *)
Definition sort_strings (l : list string) : list string := merge_sort String.le l.

Lemma sort_strings_perm l : sort_strings l ≡ₚ l.
Proof. apply merge_sort_Permutation. Qed.

Lemma sort_strings_sorted l : Sorted String.le (sort_strings l).
Proof. apply Sorted_merge_sort, _. Qed.

Lemma sort_strings_unique l k :
  Sorted String.le k → k ≡ₚ l → sort_strings l = k.
Proof.
  intros Hs Hp. apply (Sorted_unique String.le); [apply sort_strings_sorted|done|].
  by rewrite sort_strings_perm.
Qed.

Lemma sort_strings_Permutation l k : l ≡ₚ k → sort_strings l = sort_strings k.
Proof.
  intros Hp. apply sort_strings_unique; [apply sort_strings_sorted|].
  by rewrite sort_strings_perm.
Qed.

#[export] Instance sort_strings_proper : Proper ((≡ₚ) ==> (=)) sort_strings.
Proof. intros l k. apply sort_strings_Permutation. Qed.

Lemma elem_of_sort_strings x l : x ∈ sort_strings l ↔ x ∈ l.
Proof. by rewrite sort_strings_perm. Qed.

(** [strings.Join]. *)
Fixpoint join (sep : string) (l : list string) : string :=
  match l with
  | [] => ""
  | [x] => x
  | x :: l' => x +:+ sep +:+ join sep l'
  end.

(** ** Trimming *)

Section Trim.
Context (s2 : ascii → ascii → bool) (s3 : ascii → ascii → ascii → bool).

Lemma trim_left_suffix l : trim_left_with s2 s3 l `suffix_of` l.
Proof.
  remember (length l) as n eqn:Hn. revert l Hn. induction (lt_wf n) as [n _ IH]. intros l ->.
  assert (Hs : ∀ k l', l = k ++ l' → k ≠ [] → trim_left_with s2 s3 l' `suffix_of` l).
  { intros k l' -> Hk. etrans; [eapply IH; [|done]|by apply suffix_app_r]. rewrite length_app. destruct k; [done|cbn; lia]. }
  destruct l as [|a l1]; [done|]. cbn [trim_left_with]. destruct (space1 a); [by apply (Hs [a])|].
  destruct l1 as [|b l2]; [done|]. destruct (s2 a b); [by apply (Hs [a; b])|].
  destruct l2 as [|c l3]; [done|]. destruct (s3 a b c); [by apply (Hs [a; b; c])|done].
Qed.

Lemma trim_left_idem l : trim_left_with s2 s3 (trim_left_with s2 s3 l) = trim_left_with s2 s3 l.
Proof.
  remember (length l) as n eqn:Hn. revert l Hn. induction (lt_wf n) as [n _ IH]. intros l ->.
  destruct l as [|a l1]; [done|]. cbn [trim_left_with]. destruct (space1 a) eqn:E1; [eapply IH; [|done]; cbn; lia|].
  destruct l1 as [|b l2]; [by cbn; rewrite E1|]. destruct (s2 a b) eqn:E2; [eapply IH; [|done]; cbn; lia|].
  destruct l2 as [|c l3]; [by cbn; rewrite E1, E2|]. destruct (s3 a b c) eqn:E3; [eapply IH; [|done]; cbn; lia|].
  cbn. by rewrite E1, E2, E3.
Qed.

(** What starts without white space does so when its end is cut off. *)
Lemma trim_left_prefix l k : trim_left_with s2 s3 l = l → k `prefix_of` l → trim_left_with s2 s3 k = k.
Proof.
  assert (Hlen : ∀ l, length (trim_left_with s2 s3 l) ≤ length l) by (intros; apply suffix_length, trim_left_suffix).
  intros Hl [m ->]. destruct k as [|a k1]; [done|]. cbn [trim_left_with app] in *. destruct (space1 a).
  { specialize (Hlen (k1 ++ m)). rewrite Hl in Hlen. cbn in Hlen. lia. }
  destruct k1 as [|b k2]; [done|]. cbn [app] in *. destruct (s2 a b).
  { specialize (Hlen (k2 ++ m)). rewrite Hl in Hlen. cbn in Hlen. lia. }
  destruct k2 as [|c k3]; [done|]. cbn [app] in *. destruct (s3 a b c); [|done].
  specialize (Hlen (k3 ++ m)). rewrite Hl in Hlen. cbn in Hlen. lia.
Qed.
End Trim.

Lemma trim_right_prefix l : trim_right l `prefix_of` l.
Proof.
  unfold trim_right. destruct (trim_left_suffix (λ b a, space2 a b) (λ c b a, space3 a b c) (reverse l)) as [k Hk].
  exists (reverse k). by rewrite <- reverse_app, <- Hk, reverse_involutive.
Qed.

Lemma trim_right_idem l : trim_right (trim_right l) = trim_right l.
Proof. unfold trim_right. by rewrite reverse_involutive, trim_left_idem. Qed.

Lemma TrimSpace_idem s : TrimSpace (TrimSpace s) = TrimSpace s.
Proof.
  unfold TrimSpace. rewrite String.list_ascii_of_string_of_list_ascii. f_equal. unfold trim_left.
  rewrite (trim_left_prefix _ _ (trim_left_with space2 space3 (String.list_ascii_of_string s))).
  - apply trim_right_idem.
  - apply trim_left_idem.
  - apply trim_right_prefix.
Qed.

(** * Counting *)

Fixpoint countb {A} (p : A → bool) (l : list A) : nat :=
  match l with
  | [] => 0
  | x :: l' => if p x then S (countb p l') else countb p l'
  end.

Lemma countb_app {A} (p : A → bool) l k : countb p (l ++ k) = countb p l + countb p k.
Proof. induction l as [|x l IH]; simpl; [done|]. destruct (p x); simpl; by rewrite IH. Qed.

Lemma countb_zero {A} (p : A → bool) l : countb p l = 0 ↔ Forall (λ x, p x = false) l.
Proof.
  induction l as [|x l IH]; simpl; [by split; [constructor|]|].
  rewrite Forall_cons, <- IH. destruct (p x); naive_solver.
Qed.

Lemma countb_le_length {A} (p : A → bool) l : countb p l ≤ length l.
Proof. induction l as [|x l IH]; simpl; [done|]. destruct (p x); lia. Qed.

Lemma existsb_perm {A} (p : A → bool) l k : l ≡ₚ k → existsb p l = existsb p k.
Proof.
  induction 1 as [|x l k _ IH|x y l|l k m _ IH1 _ IH2]; simpl; [done|by rewrite IH| |congruence].
  by destruct (p x), (p y).
Qed.

Lemma forallb_perm {A} (p : A → bool) l k : l ≡ₚ k → forallb p l = forallb p k.
Proof.
  induction 1 as [|x l k _ IH|x y l|l k m _ IH1 _ IH2]; simpl; [done|by rewrite IH| |congruence].
  by destruct (p x), (p y).
Qed.

(** * Machine integers *)

Definition MaxUint64 : Z := 2 ^ 64 - 1.
Definition MaxInt64 : Z := 2 ^ 63 - 1.
Definition MinInt64 : Z := - 2 ^ 63.

Definition wrap_u32 (z : Z) : Z := z mod 2 ^ 32.
Definition wrap_u64 (z : Z) : Z := z mod 2 ^ 64.
Definition wrap_i64 (z : Z) : Z := (z + 2 ^ 63) mod 2 ^ 64 - 2 ^ 63.

Definition is_u32 (z : Z) : Prop := (0 ≤ z < 2 ^ 32)%Z.
Definition is_u64 (z : Z) : Prop := (0 ≤ z < 2 ^ 64)%Z.
Definition is_i64 (z : Z) : Prop := (- 2 ^ 63 ≤ z < 2 ^ 63)%Z.

Lemma wrap_u64_small z : is_u64 z → wrap_u64 z = z.
Proof. unfold is_u64, wrap_u64. intros. by apply Z.mod_small. Qed.

Lemma wrap_u64_is_u64 z : is_u64 (wrap_u64 z).
Proof. unfold is_u64, wrap_u64. apply Z.mod_pos_bound. lia. Qed.

Lemma wrap_i64_small z : is_i64 z → wrap_i64 z = z.
Proof.
  unfold is_i64, wrap_i64. intros. rewrite Z.mod_small; lia.
Qed.

(** * Go time

    A [time.Time] is its instant: nanoseconds since the zero time (year 1 UTC),
    so [IsZero] is [t = 0], [UTC] is the identity, and [Before], [After] and
    [Equal] compare instants.  A [time.Duration] is an int64 of nanoseconds:
    [Sub] saturates at the int64 range and [Add] moves the instant. *)
Definition time : Type := Z.
Definition duration : Type := Z.

Definition IsZero (t : time) : bool := (t =? 0)%Z.
Definition Before (t u : time) : bool := (t <? u)%Z.
Definition After (t u : time) : bool := (u <? t)%Z.
Definition TimeEqual (t u : time) : bool := (t =? u)%Z.
Definition clamp_i64 (z : Z) : Z := Z.max MinInt64 (Z.min MaxInt64 z).
Definition Sub (t u : time) : duration := clamp_i64 (t - u).
Definition Add (t : time) (d : duration) : time := (t + d)%Z.

Lemma clamp_i64_is_i64 z : is_i64 (clamp_i64 z).
Proof. unfold is_i64, clamp_i64, MinInt64, MaxInt64. lia. Qed.

(** Saturation does not disturb comparison with an in-range duration. *)
Lemma Sub_gt t u d : is_i64 d → (d < Sub t u)%Z ↔ (d < MaxInt64 ∧ u + d < t)%Z.
Proof. unfold is_i64, Sub, clamp_i64, MinInt64, MaxInt64. lia. Qed.

(** * Effectful code

    Code that calls back into an adapter runs in a state monad over the
    adapter's world [W]; every call to a callback is recorded, with its result,
    in a trace of events [E]. *)
Definition M (W E A : Type) : Type := W → A * W * list E.

#[export] Instance M_ret W E : MRet (M W E) := λ A a w, (a, w, []).
#[export] Instance M_bind W E : MBind (M W E) := λ A B k m w,
  let '(a, w1, t1) := m w in
  let '(b, w2, t2) := k a w1 in
  (b, w2, t1 ++ t2).

(** Calling a callback records one event. *)
Definition call {W E A} (mk : A → E) (f : W → A * W) : M W E A := λ w,
  let '(a, w') := f w in (a, w', [mk a]).

(** * Tactics *)

Ltac split_Forall :=
  repeat match goal with H : Forall _ (_ :: _) |- _ => apply Forall_cons in H as [? H] | H : Forall _ [] |- _ => clear H end.

Ltac split_bool :=
  repeat match goal with
  | H : (_ && _) = true |- _ => apply andb_prop in H; destruct H
  | H : (_ || _) = false |- _ => apply orb_false_elim in H; destruct H
  | H : negb _ = true |- _ => apply negb_true_iff in H
  | H : negb _ = false |- _ => apply negb_false_iff in H
  | H : str_eqb _ _ = true |- _ => apply str_eqb_eq in H
  | H : str_eqb _ _ = false |- _ => apply str_eqb_neq in H
  | H : bool_decide _ = true |- _ => apply bool_decide_eq_true in H
  | H : bool_decide _ = false |- _ => apply bool_decide_eq_false in H
  | H : orelse _ _ = None |- _ => apply orelse_None in H; destruct H
  | H : guard_err _ _ = None |- _ => apply guard_err_None in H
  end.

Lemma bind_inv {W E A B} (k : A → M W E B) (m : M W E A) w b w' t :
  (m ≫= k) w = (b, w', t) →
  ∃ a w1 t1 t2, m w = (a, w1, t1) ∧ k a w1 = (b, w', t2) ∧ t = t1 ++ t2.
Proof.
  unfold mbind, M_bind. destruct (m w) as [[a w1] t1]. destruct (k a w1) as [[b' w2] t2] eqn:Hk.
  intros [= <- <- <-]. eauto 10.
Qed.

Lemma ret_inv {W E A} (a b : A) (w w' : W) (t : list E) :
  (mret a : M W E A) w = (b, w', t) → b = a ∧ w' = w ∧ t = [].
Proof. by intros [= -> -> ->]. Qed.

Lemma call_inv {W E A} (mk : A → E) (f : W → A * W) w a w' t :
  call mk f w = (a, w', t) → f w = (a, w') ∧ t = [mk a].
Proof. unfold call. destruct (f w). by intros [= <- <- <-]. Qed.

(** [emits m Q]: whatever world [m] runs in, its result and trace satisfy [Q]. *)
Definition emits {W E A} (m : M W E A) (Q : A → list E → Prop) : Prop :=
  ∀ w a w' t, m w = (a, w', t) → Q a t.

Lemma emits_call {W E A} (mk : A → E) (f : W → A * W) (Q : A → list E → Prop) :
  (∀ a, Q a [mk a]) → emits (call mk f) Q.
Proof. intros HQ w a w' t [_ ->]%call_inv. apply HQ. Qed.

Lemma emits_ret {W E A} (a : A) (Q : A → list E → Prop) : Q a [] → emits (mret a : M W E A) Q.
Proof. by intros HQ w b w' t (-> & -> & ->)%ret_inv. Qed.

Lemma emits_bind {W E A B} (m : M W E A) (k : A → M W E B) (P : A → list E → Prop) Q :
  emits m P → (∀ a t, P a t → emits (k a) (λ b t', Q b (t ++ t'))) → emits (m ≫= k) Q.
Proof.
  intros Hm Hk w b w' t (a & w1 & t1 & t2 & H1 & H2 & ->)%bind_inv.
  eapply Hk; [by eapply Hm|done].
Qed.

Lemma emits_impl {W E A} (m : M W E A) (P Q : A → list E → Prop) :
  emits m P → (∀ a t, P a t → Q a t) → emits m Q.
Proof. intros Hm HQ w a w' t H. by eapply HQ, Hm. Qed.

(** Run a monadic program symbolically, from its first action on: invert a
    bind, a return or a callback, and split on the guard at the head. *)
Ltac run_step :=
  match goal with
  | H : mbind _ _ _ = (_, _, _) |- _ =>
      let a := fresh "a" in let w := fresh "w" in let t1 := fresh "t" in let t2 := fresh "t" in
      let Hm := fresh "Hm" in let Hk := fresh "Hk" in let Ht := fresh "Ht" in
      apply bind_inv in H as (a & w & t1 & t2 & Hm & Hk & Ht); subst; cbn beta in Hk
  | H : mret _ _ = (_, _, _) |- _ => apply ret_inv in H as (? & ? & ?); subst
  | H : call _ _ _ = (_, _, _) |- _ =>
      let Hc := fresh "Hc" in apply call_inv in H as [Hc ?]; subst
  | H : ?f _ = (_, _, _) |- _ =>
      lazymatch f with
      | match ?e with _ => _ end =>
          lazymatch e with
          | (_, _) => progress (cbn beta iota in H)
          | _ => destruct e eqn:?
          end
      end
  end; simplify_eq/=.
Ltac run_monad := repeat run_step.

Create HintDb go discriminated.
#[export] Hint Resolve wrap_u64_is_u64 clamp_i64_is_i64 sort_strings_sorted sort_strings_perm : go.
