(* ===== verification/Crypto.v ===== *)
(** Digests as the program computes them: [crypto/sha256], [encoding/hex] and
    the big-endian length prefix of [encoding/binary], over byte strings.

    [sha256] is the FIPS 180-4 function itself, so digests evaluate.  Nothing
    is assumed of it: a theorem that needs two preimages of one digest to agree
    concludes "or here is a collision" with [sha256_collision]. *)

From S2P Require Import Prelude.

Local Open Scope N_scope.

(** * SHA-256 *)

Definition w32 (x : N) : N := N.land x 0xFFFFFFFF.
Definition add32 (x y : N) : N := w32 (x + y).
Definition rotr (n x : N) : N := N.lor (N.shiftr x n) (w32 (N.shiftl x (32 - n))).
Definition not32 (x : N) : N := N.lxor x 0xFFFFFFFF.

Definition Ch (x y z : N) : N := N.lxor (N.land x y) (N.land (not32 x) z).
Definition Maj (x y z : N) : N := N.lxor (N.lxor (N.land x y) (N.land x z)) (N.land y z).
Definition Sigma0 (x : N) : N := N.lxor (N.lxor (rotr 2 x) (rotr 13 x)) (rotr 22 x).
Definition Sigma1 (x : N) : N := N.lxor (N.lxor (rotr 6 x) (rotr 11 x)) (rotr 25 x).
Definition sigma0 (x : N) : N := N.lxor (N.lxor (rotr 7 x) (rotr 18 x)) (N.shiftr x 3).
Definition sigma1 (x : N) : N := N.lxor (N.lxor (rotr 17 x) (rotr 19 x)) (N.shiftr x 10).

(** The constants are, by definition, the first 32 bits of the fractional parts
    of the cube roots (rounds) and square roots (initial state) of the first
    primes. *)
Fixpoint cbrt_bits (n : nat) (x r : N) : N :=
  match n with
  | O => r
  | S m =>
      let c := N.setbit r (N.of_nat m) in
      cbrt_bits m x (if c * c * c <=? x then c else r)
  end.

Definition divides_none (l : list N) (p : N) : bool :=
  forallb (λ q, negb (p mod q =? 0)) l.

Fixpoint primes_from (fuel : nat) (p : N) (found : list N) : list N :=
  match fuel with
  | O => rev found
  | S m => primes_from m (p + 1) (if divides_none found p then p :: found else found)
  end.

Definition primes64 : list N := Eval vm_compute in primes_from 310 2 [].

Definition K256 : list N :=
  Eval vm_compute in ((λ p, w32 (cbrt_bits 40 (N.shiftl p 96) 0)) <$> primes64).

Definition H256 : list N :=
  Eval vm_compute in ((λ p, w32 (N.sqrt (N.shiftl p 64))) <$> take 8 primes64).

(** [n] bytes of [x], most significant first. *)
Fixpoint be_bytes (n : nat) (x : N) : list N :=
  match n with
  | O => []
  | S m => N.land (N.shiftr x (8 * N.of_nat m)) 255 :: be_bytes m x
  end.

Fixpoint words (l : list N) : list N :=
  match l with
  | a :: b :: c :: d :: l' =>
      N.lor (N.shiftl a 24) (N.lor (N.shiftl b 16) (N.lor (N.shiftl c 8) d)) :: words l'
  | _ => []
  end.

(** The message schedule, newest word first. *)
Fixpoint schedule (n : nat) (rw : list N) : list N :=
  match n with
  | O => rw
  | S m =>
      let w := add32 (add32 (sigma1 (nth 1 rw 0)) (nth 6 rw 0))
                     (add32 (sigma0 (nth 14 rw 0)) (nth 15 rw 0)) in
      schedule m (w :: rw)
  end.

Definition round (st : list N) (kw : N * N) : list N :=
  match st with
  | [a; b; c; d; e; f; g; h] =>
      let t1 := add32 (add32 h (Sigma1 e)) (add32 (Ch e f g) (add32 kw.1 kw.2)) in
      let t2 := add32 (Sigma0 a) (Maj a b c) in
      [add32 t1 t2; a; b; c; add32 d t1; e; f; g]
  | _ => st
  end.

Definition compress (st : list N) (block : list N) : list N :=
  let ws := rev (schedule 48 (rev (words block))) in
  zip_with add32 st (foldl round st (zip K256 ws)).

Fixpoint blocks (fuel : nat) (l : list N) : list (list N) :=
  match fuel with
  | O => []
  | S k => match l with [] => [] | _ => take 64 l :: blocks k (drop 64 l) end
  end.

Definition pad (m : list N) : list N :=
  let len := N.of_nat (length m) in
  m ++ [0x80] ++ replicate (N.to_nat ((119 - len mod 64) mod 64)) 0 ++ be_bytes 8 (8 * len).

Definition bytes_of_string (s : string) : list N :=
  N_of_ascii <$> String.list_ascii_of_string s.
Definition string_of_bytes (l : list N) : string :=
  String.string_of_list_ascii (ascii_of_N <$> l).

Definition sha256 (s : string) : string :=
  let p := pad (bytes_of_string s) in
  string_of_bytes (flat_map (be_bytes 4) (foldl compress H256 (blocks (length p) p))).

Definition sha256_collision (a b : string) : Prop := a ≠ b ∧ sha256 a = sha256 b.

(** * Hexadecimal *)

Definition hex_digit (n : N) : ascii :=
  ascii_of_N (if n <? 10 then 48 + n else 87 + n).

Fixpoint hex_encode (s : string) : string :=
  match s with
  | "" => ""
  | String a s' =>
      String (hex_digit (N_of_ascii a / 16)) (String (hex_digit (N_of_ascii a mod 16)) (hex_encode s'))
  end.

(** ["sha256:" + hex.EncodeToString(sha256.Sum256(payload))] *)
Definition sha256_digest (payload : string) : string :=
  "sha256:" +:+ hex_encode (sha256 payload).

Example sha256_abc :
  hex_encode (sha256 "abc") = "ba7816bf8f01cfea414140de5dae2223b00361a396177a9cb410ff61f20015ad".
Proof. vm_compute. reflexivity. Qed.

Example sha256_two_blocks :
  hex_encode (sha256 "abcdbcdecdefdefgefghfghighijhijkijkljklmklmnlmnomnopnopq")
  = "248d6a61d20638b8e5c026930c3e6039a33ce45964ff2167f6ecedd419db06c1".
Proof. vm_compute. reflexivity. Qed.

Example sha256_empty :
  hex_encode (sha256 "") = "e3b0c44298fc1c149afbf4c8996fb92427ae41e4649b934ca495991b7852b855".
Proof. vm_compute. reflexivity. Qed.

Arguments sha256 : simpl never.
Arguments sha256_digest : simpl never.

(** * Facts *)

Lemma hex_digit_inj n m : n < 16 → m < 16 → hex_digit n = hex_digit m → n = m.
Proof.
  unfold hex_digit. intros Hn Hm H.
  apply (f_equal N_of_ascii) in H. rewrite !N_ascii_embedding in H.
  - destruct (N.ltb_spec n 10), (N.ltb_spec m 10); lia.
  - destruct (N.ltb_spec m 10); lia.
  - destruct (N.ltb_spec n 10); lia.
Qed.

Lemma byte_lt_256 a : N_of_ascii a < 256.
Proof. apply N_ascii_bounded. Qed.

Lemma hex_encode_inj s t : hex_encode s = hex_encode t → s = t.
Proof.
  revert t. induction s as [|a s IH]; intros [|b t]; try done. simpl.
  intros H. injection H as H1 H2 H3.
  pose proof (byte_lt_256 a). pose proof (byte_lt_256 b).
  apply hex_digit_inj in H1; [|apply N.Div0.div_lt_upper_bound; lia..].
  apply hex_digit_inj in H2; [|apply N.mod_lt; lia..].
  f_equal; [|by apply IH].
  rewrite <- (ascii_N_embedding a), <- (ascii_N_embedding b). f_equal.
  rewrite (N.div_mod' (N_of_ascii a) 16), (N.div_mod' (N_of_ascii b) 16). congruence.
Qed.

Lemma string_app_inj_l (p s t : string) : p +:+ s = p +:+ t → s = t.
Proof. induction p as [|a p IH]; [done|]. intros H. injection H as H. auto. Qed.

(** Two payloads with one digest are equal or collide. *)
Lemma sha256_digest_eq a b :
  sha256_digest a = sha256_digest b → a = b ∨ sha256_collision a b.
Proof.
  intros H. apply string_app_inj_l, hex_encode_inj in H.
  destruct (decide (a = b)); [by left|]. right. by split.
Qed.

(** * Length-prefixed encoding

    [binary.BigEndian.PutUint64(size, uint64(len(part)))] then the bytes of the
    part, for every part: separators cannot be forged inside a part. *)
Definition be64 (n : N) : string := string_of_bytes (be_bytes 8 n).

Fixpoint encode_parts (parts : list string) : string :=
  match parts with
  | [] => ""
  | p :: rest => be64 (N.of_nat (String.length p)) +:+ p +:+ encode_parts rest
  end.

(** Go strings have an int length. *)
Definition fits (s : string) : Prop := (N.of_nat (String.length s) < 2 ^ 64)%N.

Lemma land_255 x : N.land x 255 = x mod 256.
Proof. apply (N.land_ones x 8). Qed.

Lemma be_bytes_mod n x y :
  be_bytes n x = be_bytes n y → x mod 2 ^ (8 * N.of_nat n) = y mod 2 ^ (8 * N.of_nat n).
Proof.
  induction n as [|n IH]; intros H; [by rewrite !N.mod_1_r|].
  simpl be_bytes in H. injection H as Hh Ht. apply IH in Ht.
  rewrite !land_255, !N.shiftr_div_pow2 in Hh.
  replace (8 * N.of_nat (S n)) with (8 * N.of_nat n + 8) by lia.
  rewrite N.pow_add_r, !N.Div0.mod_mul_r. change (2 ^ 8) with 256. congruence.
Qed.

Lemma be_bytes_byte n x : Forall (λ b, b < 256) (be_bytes n x).
Proof.
  induction n as [|n IH]; simpl; constructor; [|done].
  rewrite land_255. apply N.mod_lt. lia.
Qed.

Lemma length_be_bytes n x : length (be_bytes n x) = n.
Proof. induction n as [|n IH]; simpl; congruence. Qed.

Lemma string_of_bytes_inj l k :
  Forall (λ b, b < 256) l → Forall (λ b, b < 256) k → string_of_bytes l = string_of_bytes k → l = k.
Proof.
  intros Hl. revert k. induction Hl as [|b l Hb _ IH]; intros k Hk; destruct Hk as [|c k Hc Hk]; try done.
  cbn. intros H. injection H as H1 H2. f_equal; [|by apply IH].
  rewrite <- (N_ascii_embedding b Hb), <- (N_ascii_embedding c Hc). by f_equal.
Qed.

Lemma length_string_of_bytes l : String.length (string_of_bytes l) = length l.
Proof. induction l as [|b l IH]; [done|]. cbn. by f_equal. Qed.

Lemma be64_inj n m : n < 2 ^ 64 → m < 2 ^ 64 → be64 n = be64 m → n = m.
Proof.
  intros Hn Hm H. apply string_of_bytes_inj, (be_bytes_mod 8) in H; [|apply be_bytes_byte..].
  change (8 * N.of_nat 8) with 64 in H. by rewrite !N.mod_small in H.
Qed.

Lemma string_app_inj_length (s t u v : string) :
  String.length s = String.length t → s +:+ u = t +:+ v → s = t ∧ u = v.
Proof.
  revert t. induction s as [|a s IH]; intros [|b t]; try done.
  cbn. intros [= Hl] H. injection H as -> H. by destruct (IH t Hl H) as [-> ->].
Qed.

Lemma length_be64 n : String.length (be64 n) = 8%nat.
Proof. unfold be64. by rewrite length_string_of_bytes, length_be_bytes. Qed.

(** The encoding is injective: no two part lists share a preimage. *)
Lemma encode_parts_inj l k :
  Forall fits l → Forall fits k → encode_parts l = encode_parts k → l = k.
Proof.
  intros Hl. revert k. induction Hl as [|p l Hp _ IH]; intros k Hk; destruct Hk as [|q k Hq Hk].
  - done.
  - intros H. apply (f_equal String.length) in H. cbn [encode_parts] in H.
    destruct (be64 _) eqn:E; [|done]. pose proof (length_be64 (N.of_nat (String.length q))). by rewrite E in *.
  - intros H. apply (f_equal String.length) in H. cbn [encode_parts] in H.
    destruct (be64 _) eqn:E; [|done]. pose proof (length_be64 (N.of_nat (String.length p))). by rewrite E in *.
  - cbn [encode_parts]. intros H.
    apply string_app_inj_length in H as [Hlen H]; [|by rewrite !length_be64].
    apply be64_inj in Hlen; [|done..]. apply Nat2N.inj in Hlen.
    apply string_app_inj_length in H as [-> H]; [|done]. f_equal. by apply IH.
Qed.

(** [digest(parts...)] of governedaction/runtime. *)
Definition digest (parts : list string) : string := sha256_digest (encode_parts parts).

Lemma digest_inj l k :
  Forall fits l → Forall fits k → digest l = digest k →
  l = k ∨ sha256_collision (encode_parts l) (encode_parts k).
Proof.
  intros Hl Hk [H|H]%sha256_digest_eq; [left|by right]. by apply encode_parts_inj.
Qed.

(** A digest has 32 bytes. *)
Lemma round_length st kw : length (round st kw) = length st.
Proof. by do 9 (destruct st as [|? st]; [done|]). Qed.

Lemma compress_length st b : length st = 8%nat → length (compress st b) = 8%nat.
Proof.
  intros Hs. unfold compress. rewrite length_zip_with.
  assert (∀ l st', length st' = 8%nat → length (foldl round st' l) = 8%nat) as H.
  { induction l as [|x l IH]; intros st' Hst; simpl; [done|]. apply IH. by rewrite round_length. }
  rewrite H; [|done]. lia.
Qed.

Lemma sha256_length s : String.length (sha256 s) = 32%nat.
Proof.
  unfold sha256. rewrite length_string_of_bytes.
  assert (∀ bs st, length st = 8%nat → length (foldl compress st bs) = 8%nat) as H.
  { induction bs as [|b bs IH]; intros st Hst; simpl; [done|]. apply IH. by rewrite compress_length. }
  specialize (H (blocks (length (pad (bytes_of_string s))) (pad (bytes_of_string s))) H256 eq_refl).
  destruct (foldl _ _ _) as [|? l]; [done|]. do 8 (destruct l as [|? l]; [done|]). done.
Qed.
