(* ===== verification/Format.v ===== *)
(** Text formats of the Go standard library the sources rely on for their
    digests: [time.Format] with the RFC 3339 layout with nanoseconds. *)

From S2P Require Import Prelude.

Local Open Scope Z_scope.

(** * Calendar

    The proleptic Gregorian date of a day number, day 0 being 0001-01-01, by
    the computation on 400-year eras that start on March 1. *)
Definition civil_of_days (days : Z) : Z * Z * Z :=
  let z := days + 306 in
  let era := z / 146097 in
  let doe := z mod 146097 in
  let yoe := (doe - doe / 1460 + doe / 36524 - doe / 146096) / 365 in
  let doy := doe - (365 * yoe + yoe / 4 - yoe / 100) in
  let mp := (5 * doy + 2) / 153 in
  let d := doy - (153 * mp + 2) / 5 + 1 in
  let m := if mp <? 10 then mp + 3 else mp - 9 in
  let y := yoe + era * 400 + (if m <=? 2 then 1 else 0) in
  (y, m, d).

(** The inverse, from a date to its day number. *)
Definition days_of_civil (ymd : Z * Z * Z) : Z :=
  let '(y, m, d) := ymd in
  let y' := if m <=? 2 then y - 1 else y in
  let era := y' / 400 in
  let yoe := y' mod 400 in
  let mp := if m <=? 2 then m + 9 else m - 3 in
  let doy := (153 * mp + 2) / 5 + d - 1 in
  era * 146097 + (365 * yoe + yoe / 4 - yoe / 100 + doy) - 306.

Lemma yoe_bounds doe : 0 ≤ doe < 146097 →
  let yoe := (doe - doe / 1460 + doe / 36524 - doe / 146096) / 365 in
  0 ≤ yoe < 400 ∧ 0 ≤ doe - (365 * yoe + yoe / 4 - yoe / 100) < 366.
Proof. intros H yoe. subst yoe. Z.to_euclidean_division_equations. lia. Qed.

Lemma month_day doy : 0 ≤ doy < 366 →
  let mp := (5 * doy + 2) / 153 in
  0 ≤ mp < 12 ∧ 1 ≤ doy - (153 * mp + 2) / 5 + 1 ≤ 31.
Proof. intros H mp. subst mp. Z.to_euclidean_division_equations. lia. Qed.

Theorem days_of_civil_of_days days : days_of_civil (civil_of_days days) = days.
Proof.
  unfold civil_of_days. set (z := days + 306). set (era := z / 146097). set (doe := z mod 146097).
  assert (Hdoe : 0 ≤ doe < 146097) by (apply Z.mod_pos_bound; lia).
  assert (Hz : z = era * 146097 + doe) by (pose proof (Z.div_mod z 146097); lia).
  destruct (yoe_bounds doe Hdoe) as [Hy Hd]. revert Hy Hd.
  set (yoe := (doe - doe / 1460 + doe / 36524 - doe / 146096) / 365).
  set (doy := doe - (365 * yoe + yoe / 4 - yoe / 100)). intros Hy Hd.
  destruct (month_day doy Hd) as [Hm _]. revert Hm. set (mp := (5 * doy + 2) / 153). intros Hm.
  cbv zeta. unfold days_of_civil.
  set (y := yoe + era * 400).
  assert (Ht : (y + 0) / 400 = era ∧ (y + 0) mod 400 = yoe).
  { subst y. replace (yoe + era * 400 + 0) with (yoe + era * 400) by lia.
    rewrite Z.div_add, Z.mod_add by lia. split; [rewrite Z.div_small by lia; lia|apply Z.mod_small; lia]. }
  rewrite Z.add_0_r in Ht. destruct Ht as [He Hyoe].
  destruct (Z.ltb_spec mp 10).
  - destruct (Z.leb_spec (mp + 3) 2); [lia|]. rewrite Z.add_0_r, He, Hyoe.
    replace (mp + 3 - 3) with mp by lia. lia.
  - destruct (Z.leb_spec (mp - 9) 2); [|lia].
    replace (y + 1 - 1) with y by lia. rewrite He, Hyoe.
    replace (mp - 9 + 9) with mp by lia. lia.
Qed.

(** * Decimal fields *)

Definition digit (z : Z) : ascii := ascii_of_N (48 + Z.to_N (z mod 10)).

(** The last [w] decimal digits of [z]. *)
Fixpoint digits (w : nat) (z : Z) : string :=
  match w with
  | O => ""
  | S w' => digits w' (z / 10) +:+ String (digit z) ""
  end.

(** The fraction digits of [z] over [10 ^ w], trailing zeros removed. *)
Fixpoint frac_digits (w : nat) (z : Z) : string :=
  match w with
  | O => ""
  | S w' => if z mod 10 =? 0 then frac_digits w' (z / 10) else digits w z
  end.

Lemma string_app_cons c (s t : string) : String c s +:+ t = String c (s +:+ t).
Proof. reflexivity. Qed.

Lemma string_app_nil_r (s : string) : s +:+ "" = s.
Proof. induction s as [|c s IH]; [done|]. exact (f_equal (String _) IH). Qed.

Lemma string_app_assoc (a b c : string) : a +:+ (b +:+ c) = (a +:+ b) +:+ c.
Proof. induction a as [|x a IH]; [done|]. exact (f_equal (String _) IH). Qed.

Lemma string_app_inj a b c d :
  String.length a = String.length c → a +:+ b = c +:+ d → a = c ∧ b = d.
Proof.
  revert c; induction a as [|x a IH]; intros [|y c] Hl H; simpl in *; try done.
  injection H as -> H. injection Hl as Hl. by destruct (IH _ Hl H) as [-> ->].
Qed.

Lemma string_length_app a b : String.length (a +:+ b) = (String.length a + String.length b)%nat.
Proof. induction a; simpl; [done|by f_equal]. Qed.

Lemma string_app_inj_r a b c : a +:+ c = b +:+ c → a = b.
Proof.
  intros H. apply (string_app_inj _ c _ c); [|done].
  apply (f_equal String.length) in H. rewrite !string_length_app in H. lia.
Qed.

Lemma digits_length w z : String.length (digits w z) = w.
Proof. revert z; induction w as [|w IH]; intros z; simpl; [done|]. rewrite string_length_app, IH. simpl. lia. Qed.

Lemma digit_inj x y : digit x = digit y → x mod 10 = y mod 10.
Proof.
  unfold digit. intros H.
  assert (Hb : ∀ z, 0 ≤ z mod 10 < 10) by (intros; apply Z.mod_pos_bound; lia).
  pose proof (Hb x). pose proof (Hb y).
  apply (f_equal N_of_ascii) in H. rewrite !N_ascii_embedding in H by lia. lia.
Qed.

Lemma pow10_S w : 10 ^ Z.of_nat (S w) = 10 * 10 ^ Z.of_nat w.
Proof. rewrite Nat2Z.inj_succ, Z.pow_succ_r; lia. Qed.

Lemma digits_inj w x y :
  0 ≤ x < 10 ^ Z.of_nat w → 0 ≤ y < 10 ^ Z.of_nat w → digits w x = digits w y → x = y.
Proof.
  revert x y; induction w as [|w IH]; intros x y Hx Hy H; [simpl in *; lia|].
  rewrite pow10_S in *. simpl in H.
  apply string_app_inj in H as [H Hd]; [|by rewrite !digits_length].
  injection Hd as Hd. apply digit_inj in Hd.
  assert (x / 10 = y / 10).
  { apply IH; [| |done]; (split; [apply Z.div_pos; lia|apply Z.div_lt_upper_bound; lia]). }
  rewrite (Z.div_mod x 10), (Z.div_mod y 10) by lia. lia.
Qed.

(** A stripped fraction is a digit string of some length, and zeros beyond it. *)
Lemma frac_digits_spec w z : 0 ≤ z < 10 ^ Z.of_nat w →
  ∃ k, (k ≤ w)%nat ∧ frac_digits w z = digits (w - k) (z / 10 ^ Z.of_nat k) ∧
    z = 10 ^ Z.of_nat k * (z / 10 ^ Z.of_nat k) ∧
    0 ≤ z / 10 ^ Z.of_nat k < 10 ^ Z.of_nat (w - k).
Proof.
  revert z; induction w as [|w IH]; intros z Hz.
  { exists 0%nat. simpl in *. rewrite Z.div_1_r. split_and!; try done; lia. }
  cbn [frac_digits]. destruct (Z.eqb_spec (z mod 10) 0) as [H0|].
  2:{ exists 0%nat. rewrite Z.div_1_r, Nat.sub_0_r. split_and!; try done; try lia. }
  rewrite pow10_S in Hz.
  destruct (IH (z / 10)) as (k & Hk & He & Hv & Hb).
  { split; [apply Z.div_pos; lia|apply Z.div_lt_upper_bound; lia]. }
  exists (S k). rewrite pow10_S. rewrite Nat.sub_succ.
  rewrite <- (Z.div_div z 10) by lia. split_and!; try done; try lia.
  rewrite <- Z.mul_assoc, <- Hv. rewrite (Z.div_mod z 10) at 1 by lia. lia.
Qed.

Lemma frac_digits_inj w x y :
  0 ≤ x < 10 ^ Z.of_nat w → 0 ≤ y < 10 ^ Z.of_nat w → frac_digits w x = frac_digits w y → x = y.
Proof.
  intros Hx Hy H.
  destruct (frac_digits_spec w x Hx) as (k & Hk & Ek & Vk & Bk).
  destruct (frac_digits_spec w y Hy) as (j & Hj & Ej & Vj & Bj).
  rewrite Ek, Ej in H.
  assert (k = j) as <-.
  { apply (f_equal String.length) in H. rewrite !digits_length in H. lia. }
  apply digits_inj in H; [|done|done]. congruence.
Qed.

Lemma frac_digits_nil w z : 0 ≤ z < 10 ^ Z.of_nat w → frac_digits w z = "" → z = 0.
Proof.
  intros Hz H. apply (frac_digits_inj w z 0); [done|lia|]. rewrite H.
  clear. induction w; simpl; done.
Qed.

(** * RFC 3339 with nanoseconds, in UTC

    [t.UTC().Format("2006-01-02T15:04:05.999999999Z07:00")] *)

Definition day_ns : Z := 86400 * 10 ^ 9.

Definition year_string (y : Z) : string :=
  let pad y := if y <? 10000 then digits 4 y else pretty y in
  if y <? 0 then "-" +:+ pad (- y) else pad y.

(** The wall clock of [t], with the text of its zone. *)
Definition rfc3339_in (zone : string) (t : time) : string :=
  let '(y, m, d) := civil_of_days (t / day_ns) in
  let s := t mod day_ns / 10 ^ 9 in
  let ns := t mod 10 ^ 9 in
  year_string y +:+ "-" +:+ digits 2 m +:+ "-" +:+ digits 2 d +:+ "T" +:+
  digits 2 (s / 3600) +:+ ":" +:+ digits 2 (s / 60 mod 60) +:+ ":" +:+ digits 2 (s mod 60) +:+
  (if ns =? 0 then "" else "." +:+ frac_digits 9 ns) +:+ zone.

Definition rfc3339nano (t : time) : string := rfc3339_in "Z" t.

Example rfc3339nano_zero : rfc3339nano 0 = "0001-01-01T00:00:00Z".
Proof. vm_compute. reflexivity. Qed.
Example rfc3339nano_leap :
  rfc3339nano (days_of_civil (2024, 2, 29) * day_ns + (12 * 3600 + 5 * 60 + 9) * 10 ^ 9 + 120000000)
  = "2024-02-29T12:05:09.12Z".
Proof. vm_compute. reflexivity. Qed.

(** The years [time.MarshalJSON] accepts. *)
Definition year_of (t : time) : Z := (civil_of_days (t / day_ns)).1.1.
Definition four_digit_year (t : time) : Prop := 0 ≤ year_of t < 10000.

Lemma civil_bounds days : let '(y, m, d) := civil_of_days days in 1 ≤ m ≤ 12 ∧ 1 ≤ d ≤ 31.
Proof.
  unfold civil_of_days. set (doe := (days + 306) mod 146097).
  destruct (yoe_bounds doe) as [_ Hd]; [apply Z.mod_pos_bound; lia|].
  destruct (month_day _ Hd) as [Hm Hday]. revert Hm Hday.
  set (mp := (5 * _ + 2) / 153). intros Hm Hday. split; [|exact Hday].
  destruct (Z.ltb_spec mp 10); lia.
Qed.

Lemma frac_part_inj x y :
  0 ≤ x < 10 ^ 9 → 0 ≤ y < 10 ^ 9 →
  (if x =? 0 then "" else "." +:+ frac_digits 9 x) +:+ "Z" =
  (if y =? 0 then "" else "." +:+ frac_digits 9 y) +:+ "Z" → x = y.
Proof.
  intros Hx Hy H. apply string_app_inj_r in H.
  destruct (Z.eqb_spec x 0), (Z.eqb_spec y 0); try done; try lia.
  apply (string_app_inj "." _ ".") in H as [_ H]; [|done]. by apply (frac_digits_inj 9).
Qed.

(** Peel the next fixed-width field of an equality of two formatted times. *)
Ltac peel H :=
  apply string_app_inj in H as [?Hf H]; [|by rewrite ?digits_length].

(** The second of the day of an instant. *)
Definition second_of_day (t : time) : Z := t mod day_ns / 10 ^ 9.

Lemma second_of_day_bounds t : 0 ≤ second_of_day t < 86400.
Proof.
  unfold second_of_day. pose proof (Z.mod_pos_bound t day_ns ltac:(done)). unfold day_ns in *.
  split; [apply Z.div_pos; lia|apply Z.div_lt_upper_bound; lia].
Qed.

Lemma clock_bounds s : 0 ≤ s < 86400 →
  0 ≤ s / 3600 < 10 ^ Z.of_nat 2 ∧ 0 ≤ s / 60 mod 60 < 10 ^ Z.of_nat 2 ∧ 0 ≤ s mod 60 < 10 ^ Z.of_nat 2.
Proof. intros H. simpl. Z.to_euclidean_division_equations. lia. Qed.

Lemma clock_inj s s' : s / 3600 = s' / 3600 → s / 60 mod 60 = s' / 60 mod 60 → s mod 60 = s' mod 60 → s = s'.
Proof. intros. Z.to_euclidean_division_equations. lia. Qed.

Lemma instant_parts_inj t u :
  t / day_ns = u / day_ns → second_of_day t = second_of_day u → t mod 10 ^ 9 = u mod 10 ^ 9 → t = u.
Proof. unfold second_of_day, day_ns. intros. Z.to_euclidean_division_equations. lia. Qed.

Theorem rfc3339nano_inj t u :
  four_digit_year t → four_digit_year u → rfc3339nano t = rfc3339nano u → t = u.
Proof.
  unfold four_digit_year, year_of, rfc3339nano, rfc3339_in. intros Ht Hu H.
  pose proof (civil_bounds (t / day_ns)) as Bt. pose proof (civil_bounds (u / day_ns)) as Bu.
  destruct (civil_of_days (t / day_ns)) as [[y m] d] eqn:Et.
  destruct (civil_of_days (u / day_ns)) as [[y' m'] d'] eqn:Eu. simpl in Ht, Hu.
  assert (Hyear : ∀ y, 0 ≤ y < 10000 → year_string y = digits 4 y).
  { intros z Hz. unfold year_string. destruct (Z.ltb_spec z 0), (Z.ltb_spec z 10000); try done; lia. }
  rewrite !Hyear in H by done. fold (second_of_day t) (second_of_day u) in H.
  peel H. peel H. peel H. peel H. peel H. peel H. peel H. peel H. peel H. peel H. peel H.
  apply frac_part_inj in H; [|by apply Z.mod_pos_bound..].
  apply digits_inj in Hf; [|simpl; lia..]. apply digits_inj in Hf1; [|simpl; lia..].
  apply digits_inj in Hf3; [|simpl; lia..].
  destruct (clock_bounds _ (second_of_day_bounds t)) as (B1 & B2 & B3).
  destruct (clock_bounds _ (second_of_day_bounds u)) as (B1' & B2' & B3').
  apply digits_inj in Hf5; [|done..]. apply digits_inj in Hf7; [|done..]. apply digits_inj in Hf9; [|done..].
  apply instant_parts_inj; [|by apply clock_inj|done].
  rewrite <- (days_of_civil_of_days (t / day_ns)), <- (days_of_civil_of_days (u / day_ns)).
  rewrite Et, Eu. by subst.
Qed.

(** * Joining with a separator *)

Fixpoint free_of (c : ascii) (s : string) : bool :=
  match s with
  | "" => true
  | String a s' => negb (bool_decide (a = c)) && free_of c s'
  end%string.

Lemma free_of_app c s t : free_of c (s +:+ t) = free_of c s && free_of c t.
Proof. induction s as [|a s IH]; simpl; [done|]. by rewrite IH, andb_assoc. Qed.

Lemma free_of_split c x y r r' :
  free_of c x = true → free_of c y = true → x +:+ String c r = y +:+ String c r' → x = y ∧ r = r'.
Proof.
  revert y; induction x as [|a x IH]; intros [|b y] Hx Hy H; simpl in *; split_bool;
    injection H; intros; subst; try done; try (by rewrite bool_decide_true in * by done).
  by destruct (IH y) as [-> ->].
Qed.

Lemma free_of_no_split c x y r : free_of c y = true → x +:+ String c r ≠ y.
Proof.
  intros Hy <-. rewrite free_of_app in Hy. simpl in Hy. rewrite bool_decide_true in Hy by done.
  by rewrite andb_false_r in Hy.
Qed.

Lemma join_inj c l k :
  l ≠ [] → k ≠ [] → Forall (λ s, free_of c s = true) l → Forall (λ s, free_of c s = true) k →
  join (String c "") l = join (String c "") k → l = k.
Proof.
  revert k; induction l as [|x l IH]; intros [|y k] Hl Hk Fl Fk H; try done.
  apply Forall_cons in Fl as [Hx Fl]. apply Forall_cons in Fk as [Hy Fk].
  destruct l as [|x' l], k as [|y' k]; cbn [join] in H.
  - by subst.
  - by destruct (free_of_no_split c y x (join (String c "") (y' :: k))).
  - by destruct (free_of_no_split c x y (join (String c "") (x' :: l))).
  - apply free_of_split in H as [-> H]; [|done..]. f_equal. by apply IH.
Qed.

Lemma digit_range z : ∃ n, (48 ≤ n < 58)%N ∧ digit z = ascii_of_N n.
Proof.
  exists (48 + Z.to_N (z mod 10))%N. split; [|done].
  pose proof (Z.mod_pos_bound z 10 ltac:(done)). lia.
Qed.

Lemma digit_neq z c : (N_of_ascii c < 48)%N → digit z ≠ c.
Proof.
  intros Hc H. destruct (digit_range z) as (n & Hn & Hd). rewrite Hd in H. subst c.
  rewrite N_ascii_embedding in Hc by lia. lia.
Qed.

Lemma free_of_digits c w z : (N_of_ascii c < 48)%N → free_of c (digits w z) = true.
Proof.
  intros Hc. revert z; induction w as [|w IH]; intros z; simpl; [done|].
  rewrite free_of_app, IH. simpl. rewrite bool_decide_false by (by apply digit_neq). done.
Qed.

Lemma free_of_frac c w z : (N_of_ascii c < 48)%N → free_of c (frac_digits w z) = true.
Proof.
  intros Hc. revert z; induction w as [|w IH]; intros z; [done|]. cbn [frac_digits].
  destruct (_ =? _); [apply IH|by apply free_of_digits].
Qed.

(** A formatted time has no control character. *)
Lemma free_of_rfc3339nano c t :
  four_digit_year t → (N_of_ascii c < 32)%N → free_of c (rfc3339nano t) = true.
Proof.
  unfold four_digit_year, year_of, rfc3339nano, rfc3339_in. intros Ht Hc.
  destruct (civil_of_days (t / day_ns)) as [[y m] d]. simpl in Ht.
  assert (Hyear : year_string y = digits 4 y).
  { unfold year_string. destruct (Z.ltb_spec y 0), (Z.ltb_spec y 10000); try done; lia. }
  assert (Hlit : ∀ a, (32 ≤ N_of_ascii a)%N → free_of c (String a "") = true).
  { intros a Ha. simpl. rewrite bool_decide_false; [done|]. intros ->. lia. }
  assert (Hfrac : free_of c (if t mod 10 ^ 9 =? 0 then "" else "." +:+ frac_digits 9 (t mod 10 ^ 9)) = true).
  { destruct (_ =? _); [done|]. rewrite free_of_app, free_of_frac, Hlit; [done|vm_compute; done|lia]. }
  rewrite Hyear, !free_of_app, Hfrac, !free_of_digits, !Hlit by (lia || (vm_compute; done)). done.
Qed.
