(* ===== verification/GovernedAction.v ===== *)
(** The effect-boundary relations of package [governedaction]
    (src/governedaction/{boundary,origin,approval_use,credential_use,taint}.go):
    binding, validity, origin, approval, credential and taint checks, and the
    custody-then-effect sequencing of [PrepareEffect] and [Dispatch]. *)

From S2P Require Import Prelude.

Local Open Scope go_scope.

(** * Bindings (boundary.go) *)

Definition ErrMissingBinding : error := ErrNew "governed action binding is incomplete".
Definition ErrBindingChanged : error := ErrNew "governed action binding changed".
Definition ErrUnknownTime : error := ErrNew "boundary time is unknown".
Definition ErrMissingExpiry : error := ErrNew "authority has no finite expiry".
Definition ErrExpired : error := ErrNew "authority expired at the effect boundary".
Definition ErrMissingCheck : error := ErrNew "effect boundary check is required".
Definition ErrMissingCustody : error := ErrNew "durable custody recorder is required".
Definition ErrMissingEffect : error := ErrNew "effect callback is required".

Record Binding : Type := {
  bd_ActionRevision : string;
  bd_Target : string;
  bd_Profile : string;
}.

(** One row of the [fields] tables: name, admitted value, current value. *)
Record field : Type := Field { f_name : string; f_admitted : string; f_current : string }.

(** The loop every check runs over its table; [mk] builds the typed error. *)
Fixpoint check_fields (mk : string → error → error) (missing changed : error)
    (fields : list field) : option error :=
  match fields with
  | [] => None
  | f :: rest =>
      if blank (f_admitted f) || blank (f_current f) then Some (mk (f_name f) missing)
      else if negb (str_eqb (f_admitted f) (f_current f)) then Some (mk (f_name f) changed)
      else check_fields mk missing changed rest
  end.

Definition field_ok (f : field) : Prop :=
  blank (f_admitted f) = false ∧ f_admitted f = f_current f.

Lemma check_fields_None mk missing changed fields :
  check_fields mk missing changed fields = None ↔ Forall field_ok fields.
Proof.
  induction fields as [|f fs IH]; simpl; [by split; [constructor|]|].
  rewrite Forall_cons, <- IH. unfold field_ok.
  destruct (blank (f_admitted f)) eqn:Ha; simpl; [naive_solver|].
  destruct (blank (f_current f)) eqn:Hc; simpl.
  { split; [done|]. intros [[_ He] _]. congruence. }
  destruct (str_eqb (f_admitted f) (f_current f)) eqn:E; simpl; split_bool; naive_solver.
Qed.

(** The first offending row decides the error. *)
Lemma check_fields_Some mk missing changed fields e :
  check_fields mk missing changed fields = Some e →
  ∃ pre f post, fields = pre ++ f :: post ∧ Forall field_ok pre ∧ ¬ field_ok f ∧
    e = mk (f_name f) (if blank (f_admitted f) || blank (f_current f) then missing else changed).
Proof.
  induction fields as [|f fs IH]; simpl; [done|].
  destruct (blank (f_admitted f) || blank (f_current f)) eqn:Hb.
  { intros [= <-]. exists [], f, fs. rewrite Hb. split_and!; [done|constructor| |done].
    intros [Ha He]. rewrite <- He, Ha in Hb. done. }
  destruct (str_eqb (f_admitted f) (f_current f)) eqn:E; simpl; split_bool.
  - intros (pre & g & post & -> & Hp & Hg & He)%IH.
    exists (f :: pre), g, post. split_and!; [done| |done|done].
    constructor; [by split|done].
  - intros [= <-]. exists [], f, fs. rewrite H, H0. split_and!; [done|constructor| |done].
    by intros [_ ?].
Qed.

Definition binding_fields (admitted current : Binding) : list field :=
  [Field "action_revision" (bd_ActionRevision admitted) (bd_ActionRevision current);
   Field "target" (bd_Target admitted) (bd_Target current);
   Field "profile" (bd_Profile admitted) (bd_Profile current)].

Definition CheckBinding (admitted current : Binding) : option error :=
  check_fields ErrField ErrMissingBinding ErrBindingChanged (binding_fields admitted current).

Definition CheckValidity (until at_ : time) : option error :=
  guard_err (IsZero at_) ErrUnknownTime ;;?
  guard_err (IsZero until) ErrMissingExpiry ;;?
  guard_err (negb (Before at_ until)) ErrExpired.

Lemma CheckValidity_None until at_ :
  CheckValidity until at_ = None ↔ at_ ≠ 0%Z ∧ until ≠ 0%Z ∧ (at_ < until)%Z.
Proof.
  unfold CheckValidity, IsZero, Before.
  rewrite !orelse_None, !guard_err_None, negb_false_iff, Z.ltb_lt, !Z.eqb_neq. done.
Qed.

(** * Effect boundary (boundary.go) *)

(** Context polls and callback calls, each with its result ([None] is nil). *)
Inductive boundary_event (T : Type) : Type :=
  | ECtx (r : option error)
  | ECheck (r : option error)
  | ERetain (r : option error)
  | EEffect (r : T * option error).
Arguments ECtx {T} _.
Arguments ECheck {T} _.
Arguments ERetain {T} _.
Arguments EEffect {T} _.

Record Preparation : Type := { pr_CustodyRecorded : bool }.

Record DispatchResult (T : Type) : Type := {
  dr_CustodyRecorded : bool;
  dr_BoundaryEntered : bool;
  dr_Value : T;
}.
Arguments dr_CustodyRecorded {T} _.
Arguments dr_BoundaryEntered {T} _.
Arguments dr_Value {T} _.

Section Boundary.
Context {W E T : Type} (zero : T).
(** [ctx.Err()]: its answer may change from one call to the next. *)
Context (ctx_Err : M W E (option error)).

Abbreviation callback := (option (M W E (option error))).

(** [PrepareEffect] returns the preparation reached together with the error. *)
Definition PrepareEffect (check retain : callback) : M W E (Preparation * option error) :=
  let no := {| pr_CustodyRecorded := false |} in
  let yes := {| pr_CustodyRecorded := true |} in
  match check with
  | None => mret (no, Some ErrMissingCheck)
  | Some check =>
  match retain with
  | None => mret (no, Some ErrMissingCustody)
  | Some retain =>
    e ← ctx_Err;
    match e with Some e => mret (no, Some e) | None =>
    e ← check;
    match e with Some e => mret (no, Some (ErrWrap "before custody" e)) | None =>
    e ← ctx_Err;
    match e with Some e => mret (no, Some e) | None =>
    e ← retain;
    match e with Some e => mret (no, Some (ErrWrap "retain custody" e)) | None =>
    e ← ctx_Err;
    match e with Some e => mret (yes, Some e) | None =>
    e ← check;
    match e with Some e => mret (yes, Some (ErrWrap "after custody" e)) | None =>
    e ← ctx_Err;
    mret (yes, e)
    end end end end end end
  end end.

Definition Dispatch (check retain : callback) (effect : option (M W E (T * option error)))
    : M W E (DispatchResult T * option error) :=
  match effect with
  | None => mret ({| dr_CustodyRecorded := false; dr_BoundaryEntered := false; dr_Value := zero |},
                  Some ErrMissingEffect)
  | Some effect =>
    pe ← PrepareEffect check retain;
    let recorded := pr_CustodyRecorded pe.1 in
    let not_entered :=
      {| dr_CustodyRecorded := recorded; dr_BoundaryEntered := false; dr_Value := zero |} in
    match pe.2 with Some e => mret (not_entered, Some e) | None =>
    e ← ctx_Err;
    match e with Some e => mret (not_entered, Some e) | None =>
    v ← effect;
    mret ({| dr_CustodyRecorded := recorded; dr_BoundaryEntered := true; dr_Value := v.1 |}, v.2)
    end end
  end.
End Boundary.

(** [Dispatch] with every poll and callback observed. *)
Definition traced_Dispatch {W T} (zero : T) (ctx_Err : W → option error * W)
    (check retain : option (W → option error * W)) (effect : option (W → (T * option error) * W))
    : M W (boundary_event T) (DispatchResult T * option error) :=
  Dispatch zero (call ECtx ctx_Err) (call ECheck <$> check) (call ERetain <$> retain)
    (call EEffect <$> effect).

Definition is_effect {T} (e : boundary_event T) : bool :=
  match e with EEffect _ => true | _ => false end.

(** The only trace that reaches the effect: two passed admission checks around
    an acknowledged custody write, with a live context at every poll. *)
Definition crossing_trace {T} (r : T * option error) : list (boundary_event T) :=
  [ECtx None; ECheck None; ECtx None; ERetain None; ECtx None; ECheck None;
   ECtx None; ECtx None; EEffect r].

(** The interface [Dispatch] offers its callers: if a passed poll, check and
    custody write each leave a fixed trace, and calls otherwise leave only events
    in [P] (in [PF] while custody is not acknowledged), then either only such
    events happened, or the effect ran after the whole sequence. *)
Lemma Dispatch_spec {W E T} (P PF : E → Prop) (tx tc tr : list E)
    (te : T * option error → list E → Prop)
    (zero : T) (ctx check retain : M W E (option error)) effect :
  emits ctx (λ e t, Forall P t ∧ Forall PF t ∧ (e = None → t = tx)) →
  emits check (λ e t, Forall P t ∧ Forall PF t ∧ (e = None → t = tc)) →
  emits retain (λ e t, Forall P t ∧ (is_Some e → Forall PF t) ∧ (e = None → t = tr)) →
  emits effect te →
  emits (Dispatch zero ctx (Some check) (Some retain) (Some effect)) (λ d t,
    (dr_BoundaryEntered d.1 = false ∧ dr_Value d.1 = zero ∧ is_Some d.2 ∧ Forall P t ∧
       (dr_CustodyRecorded d.1 = true → ∃ t', t = tx ++ tc ++ tx ++ tr ++ t') ∧
       (dr_CustodyRecorded d.1 = false → Forall PF t)) ∨
    (dr_BoundaryEntered d.1 = true ∧ dr_CustodyRecorded d.1 = true ∧
       ∃ t', te (dr_Value d.1, d.2) t' ∧
         t = tx ++ tc ++ tx ++ tr ++ tx ++ tc ++ tx ++ tx ++ t')).
Proof.
  intros Hx Hc Hr He w [res err] w' t H. unfold Dispatch, PrepareEffect in H.
  run_monad;
    repeat match goal with
    | H : ctx _ = _ |- _ => apply Hx in H as (? & ? & ?)
    | H : check _ = _ |- _ => apply Hc in H as (? & ? & ?)
    | H : retain _ = _ |- _ => apply Hr in H as (? & ? & ?)
    | H : effect _ = (?v, _, _) |- _ => destruct v; apply He in H
    | H : None = None → _ |- _ => specialize (H eq_refl)
    | H : is_Some (Some _) → _ |- _ => specialize (H (mk_is_Some _ _ eq_refl))
    end; subst; rewrite ?app_nil_r;
    first [ right; split_and!; [done..|]; eexists; split; [eassumption|by rewrite <- ?app_assoc]
          | left; split_and!; try done; rewrite ?Forall_app; split_and?; try done;
            intros _; eexists; by rewrite <- ?app_assoc ].
Qed.

Lemma Dispatch_trace {W T} (zero : T) ctx_Err check retain effect (w w' : W) res err tr :
  traced_Dispatch zero ctx_Err check retain effect w = (res, err, w', tr) →
  (dr_BoundaryEntered res = true ∧ ∃ r, tr = crossing_trace r ∧ dr_Value res = r.1 ∧ err = r.2
     ∧ dr_CustodyRecorded res = true)
  ∨ (dr_BoundaryEntered res = false ∧ dr_Value res = zero ∧ is_Some err ∧
     Forall (λ e, is_effect e = false) tr ∧
     (dr_CustodyRecorded res = true ↔ ERetain None ∈ tr)).
Proof.
  unfold traced_Dispatch. destruct check as [check|], retain as [retain|], effect as [effect|]; simpl.
  { intros H.
    apply (Dispatch_spec (λ e, is_effect e = false) (λ e, e ≠ ERetain None) [ECtx None] [ECheck None]
      [ERetain None] (λ v t, t = [EEffect v])) in H; simpl in H.
    - destruct H as [(Hb & Hv & He & Hf & Hy & Hn)|(Hb & Hc & t' & -> & ->)]; [right|left].
      + split_and!; try done. destruct (dr_CustodyRecorded res).
        * split; [|done]. intros _. destruct (Hy eq_refl) as [t' ->]. set_solver.
        * split; [done|]. intros Hin. specialize (Hn eq_refl).
          rewrite Forall_forall in Hn. by destruct (Hn _ Hin).
      + split; [done|]. exists (dr_Value res, err). split_and!; done.
    - apply emits_call. intros a. split_and!; [by repeat constructor..|by intros ->].
    - apply emits_call. intros a. split_and!; [by repeat constructor..|by intros ->].
    - apply emits_call. intros a. split_and!; [by repeat constructor| |by intros ->].
      intros [e ->]. by repeat constructor.
    - by apply emits_call. }
  all: cbn; intros [= <- <- <- <-]; right; split_and!; first [done|by repeat constructor|set_solver].
Qed.

(** * Execution origins (origin.go) *)

Definition ErrMissingOrigin : error := ErrNew "execution origin binding is incomplete".
Definition ErrOriginChanged : error := ErrNew "execution origin binding changed".
Definition ErrOriginCapabilityExpanded : error := ErrNew "execution origin capability expanded".
Definition ErrUnknownOriginCapability : error := ErrNew "execution origin capability is unknown".

(** [OriginCapability] is a uint32 bit set. *)
Definition OriginSupplyInstructions : Z := Z.shiftl 1 0.
Definition OriginRegisterTools : Z := Z.shiftl 1 1.
Definition OriginRegisterConnectors : Z := Z.shiftl 1 2.
Definition OriginUseCredentialHandles : Z := Z.shiftl 1 3.
Definition OriginNetworkEgress : Z := Z.shiftl 1 4.

Definition knownOriginCapabilities : Z :=
  Z.lor OriginSupplyInstructions (Z.lor OriginRegisterTools (Z.lor OriginRegisterConnectors
    (Z.lor OriginUseCredentialHandles OriginNetworkEgress))).

Record OriginBinding : Type := {
  ob_OriginID : string;
  ob_OriginType : string;
  ob_SourceDigest : string;
  ob_TrustDomain : string;
  ob_TrustEpoch : string;
  ob_Capabilities : Z;
}.

Definition origin_fields (admitted current : OriginBinding) : list field :=
  [Field "origin_id" (ob_OriginID admitted) (ob_OriginID current);
   Field "origin_type" (ob_OriginType admitted) (ob_OriginType current);
   Field "source_digest" (ob_SourceDigest admitted) (ob_SourceDigest current);
   Field "trust_domain" (ob_TrustDomain admitted) (ob_TrustDomain current);
   Field "trust_epoch" (ob_TrustEpoch admitted) (ob_TrustEpoch current)].

(** [a &^ b] is [Z.ldiff a b]. *)
Definition CheckOrigin (admitted current : OriginBinding) : option error :=
  check_fields ErrField ErrMissingOrigin ErrOriginChanged (origin_fields admitted current) ;;?
  guard_err (negb (Z.ldiff (ob_Capabilities admitted) knownOriginCapabilities =? 0)%Z
             || negb (Z.ldiff (ob_Capabilities current) knownOriginCapabilities =? 0)%Z)
    (ErrField "capabilities" ErrUnknownOriginCapability) ;;?
  guard_err (negb (Z.ldiff (ob_Capabilities current) (ob_Capabilities admitted) =? 0)%Z)
    (ErrField "capabilities" ErrOriginCapabilityExpanded).

Definition caps_subset (a b : Z) : Prop := ∀ i, Z.testbit a i = true → Z.testbit b i = true.

Lemma ldiff_zero_iff a b : Z.ldiff a b = 0%Z ↔ caps_subset a b.
Proof.
  unfold caps_subset. split.
  - intros H i Ha. apply (f_equal (λ z, Z.testbit z i)) in H.
    rewrite Z.ldiff_spec, Z.bits_0, Ha in H. by destruct (Z.testbit b i).
  - intros H. apply Z.bits_inj. intros i. rewrite Z.ldiff_spec, Z.bits_0.
    specialize (H i). destruct (Z.testbit a i); [by rewrite H|done].
Qed.

Lemma CheckOrigin_None admitted current :
  CheckOrigin admitted current = None ↔
  Forall field_ok (origin_fields admitted current) ∧
  caps_subset (ob_Capabilities admitted) knownOriginCapabilities ∧
  caps_subset (ob_Capabilities current) (ob_Capabilities admitted).
Proof.
  unfold CheckOrigin.
  rewrite !orelse_None, !guard_err_None, orb_false_iff, !negb_false_iff, !Z.eqb_eq,
    !ldiff_zero_iff, check_fields_None.
  split; [naive_solver|]. unfold caps_subset. naive_solver.
Qed.

(** * Approval use (approval_use.go) *)

Definition ErrMissingApprovalBinding : error := ErrNew "approval use binding is incomplete".
Definition ErrApprovalBindingChanged : error := ErrNew "approval use binding changed".
Definition ErrApprovalEffectLimit : error := ErrNew "approval effect limit is invalid".
Definition ErrApprovalExhausted : error := ErrNew "approval effect limit exhausted".

Record ApprovalUseBinding : Type := {
  au_ApprovalRef : string;
  au_ActionRevision : string;
  au_EffectID : string;
  au_Target : string;
  au_Scope : string;
  au_Nonce : string;
  au_MaxEffects : Z;
  au_ValidUntil : time;
}.

Definition approval_fields (admitted current : ApprovalUseBinding) : list field :=
  [Field "approval_ref" (au_ApprovalRef admitted) (au_ApprovalRef current);
   Field "action_revision" (au_ActionRevision admitted) (au_ActionRevision current);
   Field "effect_id" (au_EffectID admitted) (au_EffectID current);
   Field "target" (au_Target admitted) (au_Target current);
   Field "scope" (au_Scope admitted) (au_Scope current);
   Field "nonce" (au_Nonce admitted) (au_Nonce current)].

Definition CheckApprovalUse (admitted current : ApprovalUseBinding) (at_ : time)
    (effectsUsed : Z) : option error :=
  check_fields ErrField ErrMissingApprovalBinding ErrApprovalBindingChanged
    (approval_fields admitted current) ;;?
  guard_err ((au_MaxEffects admitted =? 0)%Z || (au_MaxEffects current =? 0)%Z)
    (ErrField "max_effects" ErrApprovalEffectLimit) ;;?
  guard_err (negb (au_MaxEffects admitted =? au_MaxEffects current)%Z)
    (ErrField "max_effects" ErrApprovalBindingChanged) ;;?
  guard_err (IsZero (au_ValidUntil admitted) || IsZero (au_ValidUntil current))
    (ErrField "valid_until" ErrMissingApprovalBinding) ;;?
  guard_err (negb (TimeEqual (au_ValidUntil admitted) (au_ValidUntil current)))
    (ErrField "valid_until" ErrApprovalBindingChanged) ;;?
  match CheckValidity (au_ValidUntil admitted) at_ with
  | Some err => Some (ErrField "valid_until" err)
  | None => guard_err (au_MaxEffects admitted <=? effectsUsed)%Z
              (ErrField "max_effects" ErrApprovalExhausted)
  end.

Lemma CheckApprovalUse_None admitted current at_ used :
  CheckApprovalUse admitted current at_ used = None →
  Forall field_ok (approval_fields admitted current) ∧
  au_MaxEffects current = au_MaxEffects admitted ∧
  au_ValidUntil current = au_ValidUntil admitted ∧
  (at_ < au_ValidUntil admitted)%Z ∧ (used < au_MaxEffects admitted)%Z.
Proof.
  unfold CheckApprovalUse. intros H.
  destruct (CheckValidity _ _) eqn:Hv; split_bool; [done|].
  apply CheckValidity_None in Hv. apply check_fields_None in H.
  unfold TimeEqual in *. split_and!; try done; lia.
Qed.

(** The use accounting the approval asks of its caller: every accepted use is
    charged before the next one is checked. *)
Fixpoint approval_uses (admitted : ApprovalUseBinding) (used : Z)
    (attempts : list (ApprovalUseBinding * time)) : list bool :=
  match attempts with
  | [] => []
  | (current, at_) :: rest =>
      match CheckApprovalUse admitted current at_ used with
      | None => true :: approval_uses admitted (used + 1) rest
      | Some _ => false :: approval_uses admitted used rest
      end
  end.

Definition accepted (l : list bool) : Z := Z.of_nat (countb id l).

(** * Credential use (credential_use.go) *)

Definition ErrMissingCredentialBinding : error := ErrNew "credential use binding is incomplete".
Definition ErrCredentialBindingChanged : error := ErrNew "credential use binding changed".

Record CredentialUseBinding : Type := {
  cu_HandleID : string;
  cu_ActionRevision : string;
  cu_EffectID : string;
  cu_Audience : string;
  cu_Destination : string;
  cu_Scope : string;
  cu_TrustEpoch : string;
  cu_ValidUntil : time;
}.

Definition credential_fields (admitted current : CredentialUseBinding) : list field :=
  [Field "handle_id" (cu_HandleID admitted) (cu_HandleID current);
   Field "action_revision" (cu_ActionRevision admitted) (cu_ActionRevision current);
   Field "effect_id" (cu_EffectID admitted) (cu_EffectID current);
   Field "audience" (cu_Audience admitted) (cu_Audience current);
   Field "destination" (cu_Destination admitted) (cu_Destination current);
   Field "scope" (cu_Scope admitted) (cu_Scope current);
   Field "trust_epoch" (cu_TrustEpoch admitted) (cu_TrustEpoch current)].

Definition CheckCredentialUse (admitted current : CredentialUseBinding) (at_ : time)
    : option error :=
  check_fields ErrField ErrMissingCredentialBinding ErrCredentialBindingChanged
    (credential_fields admitted current) ;;?
  guard_err (IsZero (cu_ValidUntil admitted) || IsZero (cu_ValidUntil current))
    (ErrField "valid_until" ErrMissingCredentialBinding) ;;?
  guard_err (negb (TimeEqual (cu_ValidUntil admitted) (cu_ValidUntil current)))
    (ErrField "valid_until" ErrCredentialBindingChanged) ;;?
  match CheckValidity (cu_ValidUntil admitted) at_ with
  | Some err => Some (ErrField "valid_until" err)
  | None => None
  end.

(** * Taint egress (taint.go) *)

Definition ErrMissingTaintBinding : error := ErrNew "taint egress binding is incomplete".
Definition ErrTaintBindingChanged : error := ErrNew "taint egress binding changed".
Definition ErrInvalidTaintLabel : error := ErrNew "taint label is invalid".
Definition ErrTaintNotAuthorized : error := ErrNew "observed taint is not authorized for egress".

Record TaintEgressBinding : Type := {
  te_SubjectRef : string;
  te_MonitorRef : string;
  te_MonitorEpoch : string;
  te_AllowedLabels : list string;
}.

Record TaintEvidence : Type := {
  tv_SubjectRef : string;
  tv_MonitorRef : string;
  tv_MonitorEpoch : string;
  tv_Labels : list string;
}.

(** [strings.ContainsAny(label, "\r\n\t ")] *)
Definition contains_blank (s : string) : bool :=
  existsb (λ a, (byte_of a =? 13)%N || (byte_of a =? 10)%N || (byte_of a =? 9)%N || (byte_of a =? 32)%N)
    (String.list_ascii_of_string s).

Definition invalid_label (label : string) : bool :=
  str_eqb label "" || negb (str_eqb (TrimSpace label) label) || contains_blank label.

Fixpoint first_invalid (l : list string) : option string :=
  match l with
  | [] => None
  | x :: l' => if invalid_label x then Some x else first_invalid l'
  end.

(** [for i := 1; ...; if result[i] == result[i-1]] *)
Fixpoint first_repeat (l : list string) : option string :=
  match l with
  | x :: ((y :: _) as l') => if str_eqb y x then Some y else first_repeat l'
  | _ => None
  end.

Definition canonicalTaintLabels (labels : list string) : result (list string) :=
  match first_invalid labels with
  | Some label => Error (ErrWrap label ErrInvalidTaintLabel)
  | None =>
      let result := sort_strings labels in
      match first_repeat result with
      | Some label => Error (ErrWrap label ErrInvalidTaintLabel)
      | None => Ok result
      end
  end.

Definition taint_fields (admitted : TaintEgressBinding) (observed : TaintEvidence) : list field :=
  [Field "subject_ref" (te_SubjectRef admitted) (tv_SubjectRef observed);
   Field "monitor_ref" (te_MonitorRef admitted) (tv_MonitorRef observed);
   Field "monitor_epoch" (te_MonitorEpoch admitted) (tv_MonitorEpoch observed)].

Fixpoint first_unauthorized (allowedSet : gset string) (current : list string) : option error :=
  match current with
  | [] => None
  | label :: rest =>
      if bool_decide (label ∈ allowedSet) then first_unauthorized allowedSet rest
      else Some (ErrWrap label ErrTaintNotAuthorized)
  end.

Definition CheckTaintEgress (admitted : TaintEgressBinding) (observed : TaintEvidence)
    : option error :=
  check_fields ErrWrap ErrMissingTaintBinding ErrTaintBindingChanged
    (taint_fields admitted observed) ;;?
  match canonicalTaintLabels (te_AllowedLabels admitted) with
  | Error e => Some e
  | Ok allowed =>
      match canonicalTaintLabels (tv_Labels observed) with
      | Error e => Some e
      | Ok current => first_unauthorized (list_to_set allowed) current
      end
  end.

Definition label_ok (s : string) : Prop := invalid_label s = false.

Lemma first_invalid_None l : first_invalid l = None ↔ Forall label_ok l.
Proof.
  induction l as [|x l IH]; simpl; [by split; [constructor|]|].
  rewrite Forall_cons, <- IH. unfold label_ok. destruct (invalid_label x); naive_solver.
Qed.

Lemma first_repeat_None l : Sorted String.le l → first_repeat l = None ↔ NoDup l.
Proof.
  intros Hs. apply (Sorted_StronglySorted String.le) in Hs.
  induction Hs as [|x l Hs IH Hx]; [by split; [constructor|]|].
  destruct l as [|y l]; [split; [intros _; apply NoDup_singleton|done]|].
  change (first_repeat (x :: y :: l)) with (if str_eqb y x then Some y else first_repeat (y :: l)).
  rewrite NoDup_cons, <- IH.
  destruct (str_eqb y x) eqn:E; split_bool.
  { split; [done|]. intros [Hn _]. destruct Hn. rewrite E. by left. }
  split; [|by intros [_ ?]]. intros Hr. split; [|done]. intros Hin.
  apply Forall_cons in Hx as [Hxy _]. apply elem_of_cons in Hin as [->|Hin]; [done|].
  apply StronglySorted_inv in Hs as [_ Hy]. rewrite Forall_forall in Hy.
  apply E. by apply (anti_symm String.le); [apply Hy|].
Qed.

Lemma canonicalTaintLabels_Ok l k :
  canonicalTaintLabels l = Ok k ↔ k = sort_strings l ∧ Forall label_ok l ∧ NoDup l.
Proof.
  unfold canonicalTaintLabels.
  pose proof (first_repeat_None _ (sort_strings_sorted l)) as Hr.
  assert (NoDup (sort_strings l) ↔ NoDup l) as Hnd by (by rewrite sort_strings_perm).
  rewrite Hnd in Hr. pose proof (first_invalid_None l) as Hi.
  destruct (first_invalid l), (first_repeat (sort_strings l)); naive_solver.
Qed.

Lemma first_unauthorized_None s l : first_unauthorized s l = None ↔ Forall (λ x, x ∈ s) l.
Proof.
  induction l as [|x l IH]; simpl; [by split; [constructor|]|].
  rewrite Forall_cons, <- IH. case_bool_decide; naive_solver.
Qed.

(** * Properties *)

(** C7: [Dispatch] invokes the effect callback at most once, and only on the one
    path where the context was live at every poll, the admission check passed,
    custody was durably acknowledged and the admission check passed again after
    it; otherwise it reports an error, no effect ran, and [CustodyRecorded] says
    exactly whether the custody write was acknowledged. *)
Theorem dispatch_effect_boundary {W T} (zero : T) ctx_Err check retain effect (w w' : W) res err tr :
  traced_Dispatch zero ctx_Err check retain effect w = (res, err, w', tr) →
  countb is_effect tr = (if dr_BoundaryEntered res then 1 else 0) ∧
  (dr_BoundaryEntered res = true → ∃ r, tr = crossing_trace r ∧ dr_Value res = r.1 ∧ err = r.2) ∧
  (dr_BoundaryEntered res = false → is_Some err) ∧
  (dr_CustodyRecorded res = true ↔ ERetain None ∈ tr).
Proof.
  intros [(Hb & r & -> & Hv & He & Hc)|(Hb & Hv & He & Hf & Hc)]%Dispatch_trace; rewrite Hb.
  - split_and!; [done|eauto|done|]. split; [intros _; unfold crossing_trace; set_solver|done].
  - split_and!; [by apply countb_zero|done..].
Qed.

Example dispatch_effect_boundary_witness :
  traced_Dispatch (W := nat) 0 (λ w, (None, w)) (Some (λ w, (None, S w))) (Some (λ w, (None, S w)))
    (Some (λ w, (7, None, S w))) 0
  = ({| dr_CustodyRecorded := true; dr_BoundaryEntered := true; dr_Value := 7 |}, None, 4,
     crossing_trace (7, None)) ∧
  countb is_effect (crossing_trace (7, None)) = 1.
Proof.
  split; [reflexivity|].
  exact (proj1 (dispatch_effect_boundary (W := nat) 0 (λ w, (None, w)) (Some (λ w, (None, S w)))
    (Some (λ w, (None, S w))) (Some (λ w, (7, None, S w))) 0 4
    {| dr_CustodyRecorded := true; dr_BoundaryEntered := true; dr_Value := 7 |} None
    (crossing_trace (7, None)) eq_refl)).
Defined.

(** [CheckOrigin] is NO_SILENT_CAPABILITY_EXPANSION: it accepts exactly when
    every provenance field is present and unchanged, the admitted capabilities
    are known ones and the current capabilities are a subset of them; and
    re-admission along a chain of accepted checks cannot expand capabilities,
    because acceptance composes. *)
Theorem check_origin_no_silent_expansion admitted current :
  (CheckOrigin admitted current = None ↔
     Forall field_ok (origin_fields admitted current) ∧
     caps_subset (ob_Capabilities admitted) knownOriginCapabilities ∧
     caps_subset (ob_Capabilities current) (ob_Capabilities admitted)) ∧
  ∀ next, CheckOrigin admitted current = None → CheckOrigin current next = None →
    CheckOrigin admitted next = None.
Proof.
  split; [apply CheckOrigin_None|]. intros next.
  rewrite !CheckOrigin_None. unfold origin_fields, caps_subset, field_ok.
  rewrite !Forall_cons, !Forall_nil. simpl. intros. destruct_and!.
  split_and!; eauto; congruence.
Qed.

(** An approval is bounded: when the caller charges every accepted use,
    the number of accepted uses plus those already charged never exceeds
    [MaxEffects]; every accepted use matched the admitted binding and happened
    strictly before [ValidUntil]; and uses that only repeat the admitted binding
    in time are accepted until the limit is reached. *)
Theorem approval_replay_bounded admitted used attempts :
  (0 ≤ used ≤ au_MaxEffects admitted)%Z →
  (used + accepted (approval_uses admitted used attempts) ≤ au_MaxEffects admitted)%Z ∧
  Forall (λ a : bool * (ApprovalUseBinding * time),
      a.1 = true → Forall field_ok (approval_fields admitted a.2.1) ∧
                   (a.2.2 < au_ValidUntil admitted)%Z)
    (zip (approval_uses admitted used attempts) attempts) ∧
  ((∀ a u, a ∈ attempts → (u < au_MaxEffects admitted)%Z → CheckApprovalUse admitted a.1 a.2 u = None) →
    accepted (approval_uses admitted used attempts)
    = Z.min (au_MaxEffects admitted - used) (Z.of_nat (length attempts))).
Proof.
  unfold accepted. revert used.
  induction attempts as [|[current at_] rest IH]; intros used Hu; simpl.
  { split_and!; [lia|constructor|lia]. }
  destruct (CheckApprovalUse admitted current at_ used) eqn:E; simpl.
  - destruct (IH used Hu) as (H1 & H2 & H3). split_and!; [lia|by constructor|].
    intros Hall. destruct (decide (used < au_MaxEffects admitted)%Z) as [Hlt|].
    { specialize (Hall (current, at_) used ltac:(left) Hlt). simpl in Hall. congruence. }
    rewrite H3; [lia|]. intros a u Ha. apply Hall. by right.
  - destruct (CheckApprovalUse_None _ _ _ _ E) as (Hf & _ & _ & Ht & Hlt).
    destruct (IH (used + 1)%Z ltac:(lia)) as (H1 & H2 & H3). split_and!; [lia|by constructor|].
    intros Hall. rewrite Nat2Z.inj_succ, H3; [lia|]. intros a u Ha. apply Hall. by right.
Qed.

Definition sample_approval : ApprovalUseBinding := {|
  au_ApprovalRef := "sha256:aa"; au_ActionRevision := "rev-1"; au_EffectID := "effect-1";
  au_Target := "node/a"; au_Scope := "drain"; au_Nonce := "n-1";
  au_MaxEffects := 1%Z; au_ValidUntil := 100%Z |}.

Example approval_replay_bounded_witness :
  approval_uses sample_approval 0 [(sample_approval, 5%Z); (sample_approval, 6%Z)] = [true; false] ∧
  (0 + accepted [true; false] ≤ 1)%Z.
Proof.
  split; [reflexivity|].
  exact (proj1 (approval_replay_bounded sample_approval 0
    [(sample_approval, 5%Z); (sample_approval, 6%Z)] ltac:(simpl; lia))).
Defined.

(** taint egress is authorised exactly when the subject, monitor and epoch
    bindings match, the admitted and observed label lists are well formed and
    duplicate-free, and every observed label is admitted; the order in which
    either list presents its labels cannot change whether egress is allowed. *)
Theorem check_taint_egress_exact admitted observed :
  CheckTaintEgress admitted observed = None ↔
  Forall field_ok (taint_fields admitted observed) ∧
  (Forall label_ok (te_AllowedLabels admitted) ∧ NoDup (te_AllowedLabels admitted)) ∧
  (Forall label_ok (tv_Labels observed) ∧ NoDup (tv_Labels observed)) ∧
  tv_Labels observed ⊆ te_AllowedLabels admitted.
Proof.
  unfold CheckTaintEgress. rewrite orelse_None, check_fields_None.
  apply and_iff_compat_l.
  destruct (canonicalTaintLabels (te_AllowedLabels admitted)) as [allowed|e] eqn:Ea.
  - apply canonicalTaintLabels_Ok in Ea as (-> & Ha).
    destruct (canonicalTaintLabels (tv_Labels observed)) as [current|e] eqn:Ec.
    + apply canonicalTaintLabels_Ok in Ec as (-> & Hc).
      rewrite first_unauthorized_None, Forall_forall.
      setoid_rewrite elem_of_list_to_set. setoid_rewrite elem_of_sort_strings. naive_solver.
    + split; [done|]. intros (_ & Hc & _).
      by rewrite (proj2 (canonicalTaintLabels_Ok _ _) (conj eq_refl Hc)) in Ec.
  - split; [done|]. intros (Ha & _).
    by rewrite (proj2 (canonicalTaintLabels_Ok _ _) (conj eq_refl Ha)) in Ea.
Qed.

(** a credential handle is usable exactly when all seven material fields
    (handle, action, effect, audience, destination, scope, trust epoch) are
    present and unchanged, both sides carry the same finite expiry, and the
    boundary clock is known and strictly before it. *)
Theorem check_credential_use_exact admitted current at_ :
  CheckCredentialUse admitted current at_ = None ↔
  Forall field_ok (credential_fields admitted current) ∧
  cu_ValidUntil admitted ≠ 0%Z ∧ cu_ValidUntil current = cu_ValidUntil admitted ∧
  at_ ≠ 0%Z ∧ (at_ < cu_ValidUntil admitted)%Z.
Proof.
  unfold CheckCredentialUse, IsZero, TimeEqual.
  rewrite !orelse_None, !guard_err_None, check_fields_None, orb_false_iff, negb_false_iff,
    Z.eqb_eq, !Z.eqb_neq.
  pose proof (CheckValidity_None (cu_ValidUntil admitted) at_) as Hv.
  destruct (CheckValidity _ _) as [err|].
  - split; [by intros (_ & _ & _ & ?)|]. intros (_ & H1 & _ & H2 & H3).
    pose proof (proj2 Hv (conj H2 (conj H1 H3))). done.
  - destruct (proj1 Hv eq_refl) as (H1 & H2 & H3).
    split; [by intros (? & _ & <- & _)|]. by intros (? & _ & -> & _).
Qed.

(** [CheckBinding] accepts exactly when action revision, target and profile
    are all present and pairwise equal, and a refusal names the first field that
    is missing or changed. *)
Theorem check_binding_exact admitted current :
  (CheckBinding admitted current = None ↔ Forall field_ok (binding_fields admitted current)) ∧
  ∀ e, CheckBinding admitted current = Some e →
    ∃ pre f post, binding_fields admitted current = pre ++ f :: post ∧ Forall field_ok pre ∧
      ¬ field_ok f ∧
      e = ErrField (f_name f)
            (if blank (f_admitted f) || blank (f_current f) then ErrMissingBinding
             else ErrBindingChanged).
Proof.
  split; [apply check_fields_None|]. intros e. apply check_fields_Some.
Qed.
