(* ===== verification/GovernedRuntime.v ===== *)
(** The reference runtime of package [governedaction/runtime]
    (src/governedaction/runtime/{runtime,recovery}.go): the four primitive types,
    the digests that bind them, one bounded attempt [Run] and the
    observation-only continuation [Recover].

    The adapter is a record of functions over its own world [W]; each call is
    one event of the trace, so that the order of calls is part of the result. *)

From S2P Require Import Prelude Crypto GovernedAction.

Local Open Scope go_scope.

Definition ErrMissingAdapter : error := ErrNew "reference runtime adapter is required".
Definition ErrIncompleteRequest : error := ErrNew "reference runtime request is incomplete".
Definition ErrTransitionBinding : error :=
  ErrNew "transition is not bound to the exact current state".
Definition ErrAdmissionBinding : error :=
  ErrNew "admission attestation binding does not match the request".
Definition ErrStateChanged : error := ErrNew "current state changed at the effect boundary".
Definition ErrObservationBinding : error :=
  ErrNew "observation attestation binding does not match the observed state".
Definition ErrObservedStateMismatch : error :=
  ErrNew "trusted observation does not match the intended after-state".
Definition ErrIncompleteObservation : error := ErrNew "observation is incomplete".

(** * Primitive types *)

Record Identity : Type := { id_ID : string; id_Kind : string }.

Definition Identity_Complete (i : Identity) : bool :=
  negb (blank (id_ID i)) && negb (blank (id_Kind i)).

Definition Identity_Equal (i other : Identity) : bool :=
  str_eqb (id_ID i) (id_ID other) && str_eqb (id_Kind i) (id_Kind other).

Record State : Type := { st_Target : string; st_Revision : string; st_Digest : string }.

Definition State_Complete (s : State) : bool :=
  negb (blank (st_Target s)) && negb (blank (st_Revision s)) && negb (blank (st_Digest s)).

Definition State_Equal (s other : State) : bool :=
  str_eqb (st_Target s) (st_Target other) && str_eqb (st_Revision s) (st_Revision other)
  && str_eqb (st_Digest s) (st_Digest other).

Record Attestation : Type := {
  at_ID : string;
  at_Issuer : Identity;
  at_BindingDigest : string;
}.

Definition Attestation_Complete (a : Attestation) : bool :=
  negb (blank (at_ID a)) && Identity_Complete (at_Issuer a) && negb (blank (at_BindingDigest a)).

Record Transition : Type := { tn_Operation : string; tn_From : State; tn_To : State }.

Definition Transition_Complete (t : Transition) : bool :=
  negb (blank (tn_Operation t)) && State_Complete (tn_From t) && State_Complete (tn_To t).

Record Request : Type := {
  rq_Subject : Identity;
  rq_Executor : Identity;
  rq_Current : State;
  rq_Admission : Attestation;
  rq_Transition : Transition;
  rq_AttemptID : string;
}.

Record Custody : Type := {
  cy_EffectID : string;
  cy_AttemptID : string;
  cy_Target : string;
  cy_Owner : Identity;
}.

Record Acceptance : Type := { ac_Reference : string }.

Record Observation : Type := { ov_State : State; ov_Attestation : Attestation }.

(** The zero values of Go. *)
Definition zero_Identity : Identity := {| id_ID := ""; id_Kind := "" |}.
Definition zero_State : State := {| st_Target := ""; st_Revision := ""; st_Digest := "" |}.
Definition zero_Attestation : Attestation :=
  {| at_ID := ""; at_Issuer := zero_Identity; at_BindingDigest := "" |}.
Definition zero_Acceptance : Acceptance := {| ac_Reference := "" |}.
Definition zero_Observation : Observation :=
  {| ov_State := zero_State; ov_Attestation := zero_Attestation |}.

#[export] Instance Identity_eq_dec : EqDecision Identity.
Proof. solve_decision. Defined.
#[export] Instance State_eq_dec : EqDecision State.
Proof. solve_decision. Defined.
#[export] Instance Attestation_eq_dec : EqDecision Attestation.
Proof. solve_decision. Defined.

Lemma Identity_Equal_eq i j : Identity_Equal i j = true ↔ i = j.
Proof.
  unfold Identity_Equal. destruct i, j; simpl. rewrite andb_true_iff, !str_eqb_eq. naive_solver.
Qed.

Lemma State_Equal_eq s t : State_Equal s t = true ↔ s = t.
Proof.
  unfold State_Equal. destruct s, t; simpl. rewrite !andb_true_iff, !str_eqb_eq. naive_solver.
Qed.

Ltac rt_bool :=
  split_bool;
  repeat match goal with
  | H : State_Equal _ _ = true |- _ => apply State_Equal_eq in H; subst
  | H : Identity_Equal _ _ = true |- _ => apply Identity_Equal_eq in H; subst
  end.

(** * Bindings *)

Definition requestBinding (req : Request) (domain : string) : result string :=
  if negb (Identity_Complete (rq_Subject req)) || negb (State_Complete (rq_Current req))
     || negb (Transition_Complete (rq_Transition req))
     || negb (State_Equal (tn_From (rq_Transition req)) (rq_Current req))
     || negb (str_eqb (st_Target (tn_To (rq_Transition req))) (st_Target (rq_Current req)))
  then Error ErrTransitionBinding
  else Ok (digest
    [domain;
     id_ID (rq_Subject req); id_Kind (rq_Subject req);
     st_Target (rq_Current req); st_Revision (rq_Current req); st_Digest (rq_Current req);
     tn_Operation (rq_Transition req);
     st_Revision (tn_To (rq_Transition req)); st_Digest (tn_To (rq_Transition req))]).

Definition EffectIdentity (req : Request) : result string := requestBinding req "effect-v0".
Definition AdmissionBindingDigest (req : Request) : result string :=
  requestBinding req "admission-v0".

Definition ObservationBindingDigest (effectID : string) (observed : State) : string :=
  digest ["observation-v0"; effectID; st_Target observed; st_Revision observed; st_Digest observed].

Definition validateRequest (req : Request) : option error :=
  guard_err (negb (Identity_Complete (rq_Subject req)) || negb (Identity_Complete (rq_Executor req))
     || negb (State_Complete (rq_Current req)) || negb (Attestation_Complete (rq_Admission req))
     || negb (Transition_Complete (rq_Transition req)) || blank (rq_AttemptID req))
    ErrIncompleteRequest ;;?
  guard_err (negb (State_Equal (tn_From (rq_Transition req)) (rq_Current req))
     || negb (str_eqb (st_Target (tn_To (rq_Transition req))) (st_Target (rq_Current req))))
    ErrTransitionBinding ;;?
  match AdmissionBindingDigest req with
  | Error err => Some err
  | Ok expected =>
      guard_err (negb (str_eqb (at_BindingDigest (rq_Admission req)) expected)) ErrAdmissionBinding
  end.

Arguments requestBinding : simpl never.
Arguments EffectIdentity : simpl never.
Arguments AdmissionBindingDigest : simpl never.
Arguments ObservationBindingDigest : simpl never.
Arguments validateRequest : simpl never.
Arguments State_Complete : simpl never.
Arguments State_Equal : simpl never.
Arguments Attestation_Complete : simpl never.
Arguments Identity_Complete : simpl never.

(** * Fenced custody (fenced.go) *)

(** [CustodyPhase] is a string type; [OtherPhase] is any string that is none of
    the four constants. *)
Inductive CustodyPhase : Type :=
  | CustodyReserved
  | CustodyCrossing
  | CustodyUnknown
  | CustodyClosed
  | OtherPhase (s : string).

Record FencedCustody : Type := {
  fc_EffectID : string;
  fc_AttemptID : string;
  fc_Target : string;
  fc_Owner : Identity;
  fc_Generation : Z;
  fc_Phase : CustodyPhase;
}.

(** * Adapters *)

(** Calls to the adapter interfaces of the package, with arguments and results. *)
Inductive rt_event : Type :=
  | ECtxErr (r : option error)
  | ECurrentState (target : string) (r : result State)
  | EVerifyAttestation (a : Attestation) (binding : string) (r : option error)
  | ERetainCustody (c : Custody) (r : option error)
  | ELoadCustody (effectID attemptID : string) (r : result Custody)
  | EExecute (t : Transition) (c : Custody) (r : Acceptance * option error)
  | EObserve (t : Transition) (c : Custody) (r : Observation * option error)
  | EReserveFenced (c : FencedCustody) (r : option error)
  | ELoadFenced (effectID attemptID : string) (r : result FencedCustody)
  | ECAS (expected next : FencedCustody) (r : option error)
  | EExecuteFenced (t : Transition) (c : FencedCustody) (r : Acceptance * option error)
  | EObserveFenced (t : Transition) (c : FencedCustody) (r : Observation * option error).

Record Adapter (W : Type) : Type := {
  ad_CurrentState : string → W → result State * W;
  ad_VerifyAttestation : Attestation → string → W → option error * W;
  ad_RetainCustody : Custody → W → option error * W;
  ad_Execute : Transition → Custody → W → (Acceptance * option error) * W;
  ad_Observe : Transition → Custody → W → (Observation * option error) * W;
}.
Arguments ad_CurrentState {W} _.
Arguments ad_VerifyAttestation {W} _.
Arguments ad_RetainCustody {W} _.
Arguments ad_Execute {W} _.
Arguments ad_Observe {W} _.

(** [RecoveryAdapter] embeds [Adapter] and adds [LoadCustody]. *)
Record RecoveryAdapter (W : Type) : Type := {
  ra_Adapter : Adapter W;
  ra_LoadCustody : string → string → W → result Custody * W;
}.
Arguments ra_Adapter {W} _.
Arguments ra_LoadCustody {W} _.

Inductive Disposition : Type := DispositionRejected | DispositionUnknown | DispositionClosed.

Record Result : Type := {
  rs_Disposition : Disposition;
  rs_EffectID : string;
  rs_AttemptID : string;
  rs_CustodyRecorded : bool;
  rs_BoundaryEntered : bool;
  rs_Acceptance : Acceptance;
  rs_Observation : Observation;
  rs_Cause : option error;
  rs_EffectError : option error;
  rs_ObservationError : option error;
}.

(** * Run *)

Section Run.
Context {W : Type} (ctx_Err : W → option error * W).

Definition poll : M W rt_event (option error) := call ECtxErr ctx_Err.

(** The [check] closure of [Run]. *)
Definition check_request (adapter : Adapter W) (req : Request) : M W rt_event (option error) :=
  current ← call (ECurrentState (st_Target (rq_Current req)))
                 (ad_CurrentState adapter (st_Target (rq_Current req)));
  match current with
  | Error err => mret (Some err)
  | Ok current =>
    if negb (State_Equal current (rq_Current req)) then mret (Some ErrStateChanged)
    else match AdmissionBindingDigest req with
    | Error err => mret (Some err)
    | Ok expected =>
      if negb (str_eqb (at_BindingDigest (rq_Admission req)) expected)
      then mret (Some ErrAdmissionBinding)
      else call (EVerifyAttestation (rq_Admission req) expected)
                (ad_VerifyAttestation adapter (rq_Admission req) expected)
    end
  end.

Definition verifyObservation (effectID : string) (expected : State) (observation : Observation)
    (verify : Attestation → string → W → option error * W) : M W rt_event (option error) :=
  if negb (State_Complete (ov_State observation))
     || negb (Attestation_Complete (ov_Attestation observation))
  then mret (Some ErrIncompleteObservation)
  else
    let binding := ObservationBindingDigest effectID (ov_State observation) in
    if negb (str_eqb (at_BindingDigest (ov_Attestation observation)) binding)
    then mret (Some ErrObservationBinding)
    else
      e ← call (EVerifyAttestation (ov_Attestation observation) binding)
               (verify (ov_Attestation observation) binding);
      match e with
      | Some err => mret (Some err)
      | None =>
        mret (guard_err (negb (State_Equal (ov_State observation) expected)) ErrObservedStateMismatch)
      end.

(** The tail shared by [Run] and [Recover]: observe, verify, then UNKNOWN or
    CLOSED; [result] fills the fields already known. *)
Definition observe_and_close (effectID : string) (tr : Transition) (custody : Custody)
    (observe : W → (Observation * option error) * W)
    (verify : Attestation → string → W → option error * W)
    (result : Disposition → Observation → option error → option error → Result)
    : M W rt_event Result :=
  o ← call (EObserve tr custody) observe;
  let '(observation, observeErr) := o in
  match observeErr with
  | Some err => mret (result DispositionUnknown observation (Some err) observeErr)
  | None =>
    e ← verifyObservation effectID (tn_To tr) observation verify;
    match e with
    | Some err => mret (result DispositionUnknown observation (Some err) observeErr)
    | None => mret (result DispositionClosed observation None observeErr)
    end
  end.

(** A result that never entered the boundary. *)
Definition rejected (attemptID effectID : string) (cause : error) : Result := {|
  rs_Disposition := DispositionRejected; rs_EffectID := effectID; rs_AttemptID := attemptID;
  rs_CustodyRecorded := false; rs_BoundaryEntered := false;
  rs_Acceptance := zero_Acceptance; rs_Observation := zero_Observation;
  rs_Cause := Some cause; rs_EffectError := None; rs_ObservationError := None |}.

Definition Run (req : Request) (adapter : option (Adapter W)) : M W rt_event Result :=
  match adapter with
  | None => mret (rejected (rq_AttemptID req) "" ErrMissingAdapter)
  | Some adapter =>
  match validateRequest req with
  | Some err => mret (rejected (rq_AttemptID req) "" err)
  | None =>
  match EffectIdentity req with
  | Error err => mret (rejected (rq_AttemptID req) "" err)
  | Ok effectID =>
    let custody := {| cy_EffectID := effectID; cy_AttemptID := rq_AttemptID req;
                      cy_Target := st_Target (rq_Current req); cy_Owner := rq_Executor req |} in
    d ← Dispatch zero_Acceptance poll
          (Some (check_request adapter req))
          (Some (call (ERetainCustody custody) (ad_RetainCustody adapter custody)))
          (Some (call (EExecute (rq_Transition req) custody)
                      (ad_Execute adapter (rq_Transition req) custody)));
    let '(dispatch, dispatchErr) := d in
    let result disposition observation cause observationError := {|
      rs_Disposition := disposition; rs_EffectID := effectID; rs_AttemptID := rq_AttemptID req;
      rs_CustodyRecorded := dr_CustodyRecorded dispatch;
      rs_BoundaryEntered := dr_BoundaryEntered dispatch;
      rs_Acceptance := dr_Value dispatch; rs_Observation := observation;
      rs_Cause := cause; rs_EffectError := dispatchErr; rs_ObservationError := observationError |} in
    if negb (dr_BoundaryEntered dispatch)
    then mret (result DispositionRejected zero_Observation dispatchErr None)
    else
      observe_and_close effectID (rq_Transition req) custody
        (ad_Observe adapter (rq_Transition req) custody) (ad_VerifyAttestation adapter) result
  end end end.
End Run.

(** * Recover (recovery.go) *)

Definition ErrMissingRecoveryAdapter : error :=
  ErrNew "reference runtime recovery adapter is required".
Definition ErrMissingRecoveryCustody : error := ErrNew "recovery custody is unavailable".
Definition ErrRecoveryCustodyMismatch : error :=
  ErrNew "recovery custody does not match the exact effect attempt".
Definition ErrRecoveryBinding : error :=
  ErrNew "recovery attestation binding does not match the exact custody".
Definition ErrIncompleteRecoveryRequest : error := ErrNew "recovery request is incomplete".

Record RecoveryRequest : Type := {
  rr_Original : Request;
  rr_Recoverer : Identity;
  rr_RecoveryAuthorization : Attestation;
}.

Definition RecoveryBindingDigest (custody : Custody) (recoverer : Identity) : string :=
  digest ["recovery-v1"; cy_EffectID custody; cy_AttemptID custody; cy_Target custody;
          id_ID (cy_Owner custody); id_Kind (cy_Owner custody); id_ID recoverer; id_Kind recoverer].

Definition validateRecoveryRequest (req : RecoveryRequest) : option error :=
  validateRequest (rr_Original req) ;;?
  guard_err (negb (Identity_Complete (rr_Recoverer req))
             || negb (Attestation_Complete (rr_RecoveryAuthorization req)))
    ErrIncompleteRecoveryRequest.

Definition validateRecoveredCustody (original : Request) (effectID : string) (custody : Custody)
    : option error :=
  guard_err (blank (cy_EffectID custody) || blank (cy_AttemptID custody)
             || blank (cy_Target custody) || negb (Identity_Complete (cy_Owner custody)))
    ErrMissingRecoveryCustody ;;?
  guard_err (negb (str_eqb (cy_EffectID custody) effectID)
             || negb (str_eqb (cy_AttemptID custody) (rq_AttemptID original))
             || negb (str_eqb (cy_Target custody) (st_Target (rq_Current original)))
             || negb (Identity_Equal (cy_Owner custody) (rq_Executor original)))
    ErrRecoveryCustodyMismatch.

Section Recover.
Context {W : Type}.

Definition Recover (req : RecoveryRequest) (adapter : option (RecoveryAdapter W))
    : M W rt_event Result :=
  let attempt := rq_AttemptID (rr_Original req) in
  match adapter with
  | None => mret (rejected attempt "" ErrMissingRecoveryAdapter)
  | Some adapter =>
  match validateRecoveryRequest req with
  | Some err => mret (rejected attempt "" err)
  | None =>
  match EffectIdentity (rr_Original req) with
  | Error err => mret (rejected attempt "" err)
  | Ok effectID =>
    loaded ← call (ELoadCustody effectID attempt) (ra_LoadCustody adapter effectID attempt);
    match loaded with
    | Error err => mret (rejected attempt effectID err)
    | Ok custody =>
    match validateRecoveredCustody (rr_Original req) effectID custody with
    | Some err => mret (rejected attempt effectID err)
    | None =>
      let result disposition observation cause observationError := {|
        rs_Disposition := disposition; rs_EffectID := effectID; rs_AttemptID := attempt;
        rs_CustodyRecorded := true; rs_BoundaryEntered := false;
        rs_Acceptance := zero_Acceptance; rs_Observation := observation;
        rs_Cause := cause; rs_EffectError := None; rs_ObservationError := observationError |} in
      let expectedRecovery := RecoveryBindingDigest custody (rr_Recoverer req) in
      let auth := rr_RecoveryAuthorization req in
      if negb (str_eqb (at_BindingDigest auth) expectedRecovery)
      then mret (result DispositionRejected zero_Observation (Some ErrRecoveryBinding) None)
      else
        e ← call (EVerifyAttestation auth expectedRecovery)
                 (ad_VerifyAttestation (ra_Adapter adapter) auth expectedRecovery);
        match e with
        | Some err => mret (result DispositionRejected zero_Observation (Some err) None)
        | None =>
          let tr := rq_Transition (rr_Original req) in
          observe_and_close effectID tr custody (ad_Observe (ra_Adapter adapter) tr custody)
            (ad_VerifyAttestation (ra_Adapter adapter)) result
        end
    end end
  end end end.
End Recover.

(** * Trace specifications *)

Definition is_execute (e : rt_event) : bool := match e with EExecute _ _ _ => true | _ => false end.
Definition is_retain (e : rt_event) : bool := match e with ERetainCustody _ _ => true | _ => false end.

Definition custody_of (req : Request) (effectID : string) : Custody :=
  {| cy_EffectID := effectID; cy_AttemptID := rq_AttemptID req;
     cy_Target := st_Target (rq_Current req); cy_Owner := rq_Executor req |}.

(** A passed admission check: the adapter reported the exact current state and
    verified the admission attestation over the expected binding. *)
Definition admitted_events (req : Request) (expected : string) : list rt_event :=
  [ECurrentState (st_Target (rq_Current req)) (Ok (rq_Current req));
   EVerifyAttestation (rq_Admission req) expected None].

(** Everything that precedes and includes the effect. *)
Definition crossing_events (req : Request) (effectID expected : string)
    (r : Acceptance * option error) : list rt_event :=
  [ECtxErr None] ++ admitted_events req expected ++
  [ECtxErr None; ERetainCustody (custody_of req effectID) None; ECtxErr None] ++
  admitted_events req expected ++
  [ECtxErr None; ECtxErr None; EExecute (rq_Transition req) (custody_of req effectID) r].

(** Trusted closure: an observation of exactly the intended after-state whose
    attestation is bound to this effect and was verified. *)
Definition closing_events (tr : Transition) (c : Custody) (effectID : string) (o : Observation)
    : list rt_event :=
  [EObserve tr c (o, None);
   EVerifyAttestation (ov_Attestation o) (ObservationBindingDigest effectID (ov_State o)) None].

Definition closes (tr : Transition) (c : Custody) (effectID : string) (o : Observation)
    (tail : list rt_event) : Prop :=
  tail = closing_events tr c effectID o ∧ ov_State o = tn_To tr ∧
  at_BindingDigest (ov_Attestation o) = ObservationBindingDigest effectID (ov_State o).

(** Events that neither execute nor retain custody. *)
Definition passive (e : rt_event) : Prop := is_execute e = false ∧ is_retain e = false.

Lemma verifyObservation_spec {W} effectID expected o (verify : Attestation → string → W → option error * W) :
  emits (verifyObservation effectID expected o verify) (λ e t,
    Forall passive t ∧
    (e = None → ov_State o = expected ∧
       at_BindingDigest (ov_Attestation o) = ObservationBindingDigest effectID (ov_State o) ∧
       t = [EVerifyAttestation (ov_Attestation o) (ObservationBindingDigest effectID (ov_State o)) None])).
Proof.
  intros w e w' t H. unfold verifyObservation in H.
  run_monad; (split; [by repeat constructor|]); intros He; rt_bool; done.
Qed.

Lemma check_request_spec {W} (adapter : Adapter W) req expected :
  AdmissionBindingDigest req = Ok expected →
  emits (check_request adapter req) (λ e t,
    Forall passive t ∧ (e = None → t = admitted_events req expected)).
Proof.
  intros Hex w e w' t H. unfold check_request in H. rewrite Hex in H. unfold admitted_events.
  run_monad; (split; [by repeat constructor|]); intros He; rt_bool; simplify_eq; done.
Qed.

Lemma validateRequest_None req :
  validateRequest req = None →
  ∃ expected effectID, AdmissionBindingDigest req = Ok expected ∧ EffectIdentity req = Ok effectID ∧
    at_BindingDigest (rq_Admission req) = expected.
Proof.
  unfold validateRequest. destruct (AdmissionBindingDigest req) as [expected|e] eqn:E; intros H; split_bool; [|done].
  exists expected. unfold AdmissionBindingDigest, EffectIdentity, requestBinding in *.
  destruct (_ || _) in E |- *; [done|]. eauto.
Qed.

Lemma observe_and_close_spec {W} effectID tr c (obs : W → (Observation * option error) * W) verify result :
  emits (observe_and_close effectID tr c obs verify result) (λ res t,
    Forall passive t ∧
    ((∃ o err oe, res = result DispositionUnknown o (Some err) oe) ∨
     (∃ o, res = result DispositionClosed o None None ∧ closes tr c effectID o t))).
Proof.
  intros w res w' t H. unfold observe_and_close in H. run_monad; [split; [by repeat constructor|]; left; eauto|..];
    match goal with H : verifyObservation _ _ _ _ _ = _ |- _ =>
      apply verifyObservation_spec in H as [? Hv] end; rewrite app_nil_r.
  - split; [by constructor|]. left. eauto.
  - destruct (Hv eq_refl) as (? & ? & ->). split; [by constructor|].
    right. eexists. split; [done|]. by split.
Qed.

(** Every way a [Run] can end. *)
Lemma Run_spec {W} ctx_Err req (adapter : option (Adapter W)) :
  emits (Run ctx_Err req adapter) (λ res tr,
    (rs_Disposition res = DispositionRejected ∧ rs_BoundaryEntered res = false ∧
     is_Some (rs_Cause res) ∧ Forall (λ x, is_execute x = false) tr)
    ∨ ∃ effectID expected r tail,
        EffectIdentity req = Ok effectID ∧ AdmissionBindingDigest req = Ok expected ∧
        tr = crossing_events req effectID expected r ++ tail ∧ Forall passive tail ∧
        rs_BoundaryEntered res = true ∧ rs_CustodyRecorded res = true ∧
        rs_EffectID res = effectID ∧ rs_Acceptance res = r.1 ∧ rs_EffectError res = r.2 ∧
        ((rs_Disposition res = DispositionUnknown ∧ is_Some (rs_Cause res))
         ∨ (rs_Disposition res = DispositionClosed ∧ rs_Cause res = None ∧
            closes (rq_Transition req) (custody_of req effectID) effectID (rs_Observation res) tail))).
Proof.
  unfold Run. destruct adapter as [ad|]; [|apply emits_ret; left; by split_and!].
  destruct (validateRequest req) as [e|] eqn:Ev; [apply emits_ret; left; by split_and!|].
  destruct (validateRequest_None _ Ev) as (expected & effectID & Hex & Hid & _).
  rewrite Hid. eapply emits_bind.
  { apply (Dispatch_spec (λ x, is_execute x = false) (λ _, True) [ECtxErr None]
      (admitted_events req expected) [ERetainCustody (custody_of req effectID) None]
      (λ v t, t = [EExecute (rq_Transition req) (custody_of req effectID) v])).
    - apply emits_call. intros a. split_and!; [by repeat constructor..|by intros ->].
    - eapply emits_impl; [by apply check_request_spec|]. intros a t [Hp Ht].
      split_and!; [|by apply Forall_true|done]. eapply Forall_impl; [done|]. by intros ? [].
    - apply emits_call. intros a. split_and!; [by repeat constructor..|by intros ->].
    - by apply emits_call. }
  intros [d err] t [(Hb & Hv & He & Hf & _)|(Hb & Hc & t' & -> & ->)]; simpl in *; rewrite Hb; simpl.
  - apply emits_ret. left. rewrite app_nil_r. by split_and!.
  - eapply emits_impl; [apply observe_and_close_spec|].
    intros res tail (Hp & Hcase). right. exists effectID, expected, (dr_Value d, err), tail.
    split_and!; [done|done|done|done|..].
    all: destruct Hcase as [(o & e & oe & ->)|(o & -> & Hcl)]; simpl; try done.
    + left. split; [done|]. eauto.
    + right. by split_and!.
Qed.

Lemma validateRecoveredCustody_None original effectID c :
  validateRecoveredCustody original effectID c = None → c = custody_of original effectID.
Proof.
  unfold validateRecoveredCustody, custody_of. intros H. rt_bool.
  destruct c; simpl in *; subst. done.
Qed.

(** Every way a [Recover] can end. *)
Lemma Recover_spec {W} req (adapter : option (RecoveryAdapter W)) :
  emits (Recover req adapter) (λ res tr,
    Forall passive tr ∧ rs_BoundaryEntered res = false ∧
    ((rs_Disposition res = DispositionRejected ∧ is_Some (rs_Cause res)) ∨
     ∃ effectID tail, EffectIdentity (rr_Original req) = Ok effectID ∧
       let c := custody_of (rr_Original req) effectID in
       let auth := rr_RecoveryAuthorization req in
       at_BindingDigest auth = RecoveryBindingDigest c (rr_Recoverer req) ∧
       tr = [ELoadCustody effectID (rq_AttemptID (rr_Original req)) (Ok c);
             EVerifyAttestation auth (RecoveryBindingDigest c (rr_Recoverer req)) None] ++ tail ∧
       rs_CustodyRecorded res = true ∧
       ((rs_Disposition res = DispositionUnknown ∧ is_Some (rs_Cause res)) ∨
        (rs_Disposition res = DispositionClosed ∧ rs_Cause res = None ∧
         closes (rq_Transition (rr_Original req)) c effectID (rs_Observation res) tail)))).
Proof.
  unfold Recover. destruct adapter as [ad|]; [|apply emits_ret; split_and!; [constructor|done|left; eauto]].
  destruct (validateRecoveryRequest req); [apply emits_ret; split_and!; [constructor|done|left; eauto]|].
  destruct (EffectIdentity (rr_Original req)) as [effectID|] eqn:Hid;
    [|apply emits_ret; split_and!; [constructor|done|left; eauto]].
  intros w res w' t H. run_monad; try (split_and!; [by repeat constructor|done|left; eauto]).
  match goal with H : observe_and_close _ _ _ _ _ _ _ = _ |- _ =>
    apply observe_and_close_spec in H as [Hp Hcase] end.
  split_and!; [by repeat constructor| |right].
  { by destruct Hcase as [(o & e & oe & ->)|(o & -> & _)]. }
  match goal with H : validateRecoveredCustody _ _ ?c = None |- _ =>
    assert (c = custody_of (rr_Original req) effectID) as -> by
      (by apply validateRecoveredCustody_None) end.
  rt_bool. eexists effectID, _. split_and!; [done|done|done|..];
    destruct Hcase as [(o & e & oe & ->)|(o & -> & Hcl)]; simpl; try done; [left; eauto|by right].
Qed.

(** * Properties *)

(** C27: a [Run] calls the adapter's [Execute] at most once; when it does, the
    whole admission protocol came first in this exact order: live context,
    exact current state, verified admission, custody retained for this effect
    and owner, state and admission verified again.  A REJECTED run never called
    [Execute]. *)
Theorem run_executes_only_admitted {W} ctx_Err req (adapter : option (Adapter W)) w res w' tr :
  Run ctx_Err req adapter w = (res, w', tr) →
  countb is_execute tr = (if rs_BoundaryEntered res then 1 else 0) ∧
  (rs_Disposition res = DispositionRejected ↔ rs_BoundaryEntered res = false) ∧
  (rs_BoundaryEntered res = true →
     ∃ effectID expected r tail, EffectIdentity req = Ok effectID ∧
       AdmissionBindingDigest req = Ok expected ∧
       tr = crossing_events req effectID expected r ++ tail ∧ rs_EffectError res = r.2).
Proof.
  intros [(Hd & Hb & Hc & Hf)|(effectID & expected & r & tail & Hid & Hex & -> & Hp & Hb & Hc & _ & _ & He & Hcase)]%Run_spec;
    rewrite Hb.
  - split_and!; [by apply countb_zero|naive_solver|done].
  - split_and!; [|destruct Hcase as [[-> _]|[-> _]]; naive_solver|eauto 10].
    rewrite countb_app. replace (countb is_execute tail) with 0; [done|].
    symmetry. apply countb_zero. eapply Forall_impl; [done|]. by intros ? [].
Qed.


(** Recovery is observation-only: [Recover] never executes nor retains
    custody, never reports boundary entry, and leaves REJECTED only after the
    adapter returned exactly this attempt's custody (same effect, attempt,
    target and owner) and verified an authorization bound to that custody and
    recoverer; it closes only on the trusted after-state observation. *)
Theorem recover_is_observation_only {W} req (adapter : option (RecoveryAdapter W)) w res w' tr :
  Recover req adapter w = (res, w', tr) →
  countb is_execute tr = 0 ∧ countb is_retain tr = 0 ∧ rs_BoundaryEntered res = false ∧
  (rs_Disposition res ≠ DispositionRejected →
     ∃ effectID tail, EffectIdentity (rr_Original req) = Ok effectID ∧
       let c := custody_of (rr_Original req) effectID in
       let auth := rr_RecoveryAuthorization req in
       at_BindingDigest auth = RecoveryBindingDigest c (rr_Recoverer req) ∧
       tr = [ELoadCustody effectID (rq_AttemptID (rr_Original req)) (Ok c);
             EVerifyAttestation auth (RecoveryBindingDigest c (rr_Recoverer req)) None] ++ tail ∧
       (rs_Disposition res = DispositionClosed →
          closes (rq_Transition (rr_Original req)) c effectID (rs_Observation res) tail)).
Proof.
  intros (Hp & Hb & Hcase)%Recover_spec.
  split_and!; [apply countb_zero; eapply Forall_impl; [done|]; by intros ? []..|done|].
  intros Hnr. destruct Hcase as [[? _]|(effectID & tail & Hid & Hbd & -> & _ & Hc)]; [done|].
  exists effectID, tail. split; [done|]. intros c auth. split_and!; [done..|]. intros Hcl.
  destruct Hc as [[Hu _]|(_ & _ & ?)]; [by rewrite Hu in Hcl|done].
Qed.

Definition request_fits (req : Request) : Prop :=
  Forall fits [id_ID (rq_Subject req); id_Kind (rq_Subject req);
    st_Target (rq_Current req); st_Revision (rq_Current req); st_Digest (rq_Current req);
    tn_Operation (rq_Transition req);
    st_Revision (tn_To (rq_Transition req)); st_Digest (tn_To (rq_Transition req))].

Lemma requestBinding_Ok req domain h :
  requestBinding req domain = Ok h →
  tn_From (rq_Transition req) = rq_Current req ∧
  st_Target (tn_To (rq_Transition req)) = st_Target (rq_Current req) ∧
  h = digest
    [domain;
     id_ID (rq_Subject req); id_Kind (rq_Subject req);
     st_Target (rq_Current req); st_Revision (rq_Current req); st_Digest (rq_Current req);
     tn_Operation (rq_Transition req);
     st_Revision (tn_To (rq_Transition req)); st_Digest (tn_To (rq_Transition req))].
Proof.
  unfold requestBinding. destruct (_ || _) eqn:E; [done|]. intros [= <-].
  rt_bool. by rewrite H0.
Qed.

(** the request digests bind the exact request: if two requests have equal
    digests, in the same or in different domains, then the domains are equal and
    so are subject, current state and the complete transition; otherwise the two
    preimages are a SHA-256 collision.  In particular an effect identity cannot
    serve as an admission statement. *)
Theorem request_binding_exact req1 req2 d1 d2 h :
  request_fits req1 → request_fits req2 → fits d1 → fits d2 →
  requestBinding req1 d1 = Ok h → requestBinding req2 d2 = Ok h →
  (d1 = d2 ∧ rq_Subject req1 = rq_Subject req2 ∧ rq_Current req1 = rq_Current req2 ∧
   rq_Transition req1 = rq_Transition req2)
  ∨ ∃ a b, sha256_collision a b.
Proof.
  intros F1 F2 D1 D2 (Hf1 & Ht1 & ->)%requestBinding_Ok (Hf2 & Ht2 & H)%requestBinding_Ok.
  apply digest_inj in H as [H|H]; [left|right; eauto|by constructor..].
  injection H as -> H1 H2 H3 H4 H5 H6 H7 H8. split; [done|].
  assert (rq_Subject req1 = rq_Subject req2) as ->.
  { destruct (rq_Subject req1), (rq_Subject req2); simpl in *. congruence. }
  assert (rq_Current req1 = rq_Current req2) as Hcur.
  { destruct (rq_Current req1), (rq_Current req2); simpl in *. congruence. }
  split_and!; [done|done|].
  destruct (rq_Transition req1) as [o1 f1 [t1 r1 g1]], (rq_Transition req2) as [o2 f2 [t2 r2 g2]].
  simpl in *. subst. rewrite Hcur in *. by subst.
Qed.

(** * Witnesses *)

Definition sample_state (rev : string) : State :=
  {| st_Target := "crm/1"; st_Revision := rev; st_Digest := "d" +:+ rev |}.
Definition sample_transition : Transition :=
  {| tn_Operation := "update"; tn_From := sample_state "1"; tn_To := sample_state "2" |}.
Definition sample_request : Request :=
  let r := {| rq_Subject := {| id_ID := "alice"; id_Kind := "agent" |};
              rq_Executor := {| id_ID := "worker"; id_Kind := "service" |};
              rq_Current := sample_state "1";
              rq_Admission := {| at_ID := "adm"; at_Issuer := {| id_ID := "ca"; id_Kind := "issuer" |};
                                 at_BindingDigest := "" |};
              rq_Transition := sample_transition; rq_AttemptID := "attempt-1" |} in
  {| rq_Subject := rq_Subject r; rq_Executor := rq_Executor r; rq_Current := rq_Current r;
     rq_Admission := {| at_ID := "adm"; at_Issuer := {| id_ID := "ca"; id_Kind := "issuer" |};
        at_BindingDigest := match AdmissionBindingDigest r with Ok h => h | Error _ => "" end |};
     rq_Transition := rq_Transition r; rq_AttemptID := rq_AttemptID r |}.

Definition sample_effect : string :=
  match EffectIdentity sample_request with Ok h => h | Error _ => "" end.

Definition sample_observation : Observation := {|
  ov_State := sample_state "2";
  ov_Attestation := {| at_ID := "obs"; at_Issuer := {| id_ID := "ca"; id_Kind := "issuer" |};
    at_BindingDigest := ObservationBindingDigest sample_effect (sample_state "2") |} |}.

(** A target whose revision is the world. *)
Definition sample_adapter : Adapter string := {|
  ad_CurrentState _ w := (Ok (sample_state w), w);
  ad_VerifyAttestation _ _ w := (None, w);
  ad_RetainCustody _ w := (None, w);
  ad_Execute _ _ w := ({| ac_Reference := "ok" |}, None, "2");
  ad_Observe _ _ w := (sample_observation, None, w);
|}.
Definition sample_recovery : RecoveryAdapter string := {|
  ra_Adapter := sample_adapter;
  ra_LoadCustody _ _ w := (Ok (custody_of sample_request sample_effect), w);
|}.
Definition sample_recovery_request : RecoveryRequest := {|
  rr_Original := sample_request;
  rr_Recoverer := {| id_ID := "operator"; id_Kind := "human" |};
  rr_RecoveryAuthorization := {| at_ID := "rec"; at_Issuer := {| id_ID := "ca"; id_Kind := "issuer" |};
    at_BindingDigest := RecoveryBindingDigest (custody_of sample_request sample_effect)
      {| id_ID := "operator"; id_Kind := "human" |} |} |}.

Definition sample_run : Result * string * list rt_event :=
  Run (λ w, (None, w)) sample_request (Some sample_adapter) "1".
Definition sample_recover : Result * string * list rt_event :=
  Recover sample_recovery_request (Some sample_recovery) "2".

Lemma sample_run_eq : Run (λ w, (None, w)) sample_request (Some sample_adapter) "1"
  = (sample_run.1.1, sample_run.1.2, sample_run.2).
Proof. vm_compute. reflexivity. Qed.

Lemma sample_recover_eq : Recover sample_recovery_request (Some sample_recovery) "2"
  = (sample_recover.1.1, sample_recover.1.2, sample_recover.2).
Proof. vm_compute. reflexivity. Qed.

Example run_executes_only_admitted_witness :
  rs_Disposition sample_run.1.1 = DispositionClosed ∧
  countb is_execute sample_run.2 = (if rs_BoundaryEntered sample_run.1.1 then 1 else 0).
Proof.
  split; [vm_compute; reflexivity|].
  pose proof (run_executes_only_admitted _ _ _ _ _ _ _ sample_run_eq) as [H _]. exact H.
Defined.


Example recover_is_observation_only_witness :
  rs_Disposition sample_recover.1.1 = DispositionClosed ∧ countb is_execute sample_recover.2 = 0.
Proof.
  split; [vm_compute; reflexivity|].
  pose proof (recover_is_observation_only _ _ _ _ _ _ sample_recover_eq) as [H _]. exact H.
Defined.

Lemma sample_effect_eq : requestBinding sample_request "effect-v0" = Ok sample_effect.
Proof. vm_compute. reflexivity. Qed.

Lemma sample_request_fits : request_fits sample_request.
Proof. unfold request_fits, fits. repeat constructor. Qed.

Example request_binding_exact_witness :
  requestBinding sample_request "effect-v0" = Ok sample_effect ∧
  (("effect-v0" = "effect-v0" ∧ rq_Subject sample_request = rq_Subject sample_request ∧
    rq_Current sample_request = rq_Current sample_request ∧
    rq_Transition sample_request = rq_Transition sample_request)
   ∨ ∃ a b, sha256_collision a b).
Proof.
  split; [exact sample_effect_eq|].
  assert (fits "effect-v0") as F by done.
  exact (request_binding_exact _ _ _ _ _ sample_request_fits sample_request_fits F F
    sample_effect_eq sample_effect_eq).
Defined.
