(* ===== verification/FencedRuntime.v ===== *)
(** Fenced custody of package [governedaction/runtime]
    (src/governedaction/runtime/fenced.go): reservation, execution of one exact
    RESERVED record, atomic takeover, and the durable custody record they drive
    through compare-and-swap.

    The store is the adapter's; its documented contract is the transition
    system [store_step].  The safety theorem ranges over every interleaving of
    any number of calls, crashed or completed, that such a store can show. *)

From S2P Require Import Prelude Crypto GovernedAction GovernedRuntime.

Local Open Scope go_scope.

Definition ErrMissingFencedAdapter : error := ErrNew "fenced runtime adapter is required".
Definition ErrIncompleteFencedCustody : error := ErrNew "fenced custody is incomplete".
Definition ErrFencedCustodyMismatch : error :=
  ErrNew "fenced custody does not match the exact effect attempt".
Definition ErrCustodyNotReserved : error := ErrNew "custody is not in RESERVED phase".
Definition ErrTakeoverBinding : error :=
  ErrNew "takeover attestation binding does not match the exact custody transfer".
Definition ErrIncompleteTakeoverRequest : error := ErrNew "takeover request is incomplete".
Definition ErrFenceGenerationExhausted : error := ErrNew "custody fence generation is exhausted".

#[export] Instance CustodyPhase_eq_dec : EqDecision CustodyPhase.
Proof. solve_decision. Defined.
#[export] Instance FencedCustody_eq_dec : EqDecision FencedCustody.
Proof. solve_decision. Defined.

Definition phase_string (p : CustodyPhase) : string :=
  match p with
  | CustodyReserved => "RESERVED"
  | CustodyCrossing => "CROSSING"
  | CustodyUnknown => "UNKNOWN"
  | CustodyClosed => "CLOSED"
  | OtherPhase s => s
  end.

Definition validCustodyPhase (p : CustodyPhase) : bool :=
  match p with
  | CustodyReserved | CustodyCrossing | CustodyUnknown | CustodyClosed => true
  | OtherPhase _ => false
  end.

Definition FencedCustody_Complete (c : FencedCustody) : bool :=
  negb (blank (fc_EffectID c)) && negb (blank (fc_AttemptID c)) && negb (blank (fc_Target c))
  && Identity_Complete (fc_Owner c) && (0 <? fc_Generation c)%Z && validCustodyPhase (fc_Phase c).

Definition FencedCustody_Equal (c other : FencedCustody) : bool :=
  str_eqb (fc_EffectID c) (fc_EffectID other) && str_eqb (fc_AttemptID c) (fc_AttemptID other)
  && str_eqb (fc_Target c) (fc_Target other) && Identity_Equal (fc_Owner c) (fc_Owner other)
  && (fc_Generation c =? fc_Generation other)%Z && bool_decide (fc_Phase c = fc_Phase other).

Definition set_phase (c : FencedCustody) (p : CustodyPhase) : FencedCustody := {|
  fc_EffectID := fc_EffectID c; fc_AttemptID := fc_AttemptID c; fc_Target := fc_Target c;
  fc_Owner := fc_Owner c; fc_Generation := fc_Generation c; fc_Phase := p |}.

Definition zero_custody : FencedCustody := {|
  fc_EffectID := ""; fc_AttemptID := ""; fc_Target := ""; fc_Owner := zero_Identity;
  fc_Generation := 0; fc_Phase := OtherPhase "" |}.

Record FencedAdapter (W : Type) : Type := {
  fa_CurrentState : string → W → result State * W;
  fa_VerifyAttestation : Attestation → string → W → option error * W;
  fa_ReserveFencedCustody : FencedCustody → W → option error * W;
  fa_LoadFencedCustody : string → string → W → result FencedCustody * W;
  fa_TransitionFencedCustodyCAS : FencedCustody → FencedCustody → W → option error * W;
  fa_ExecuteFenced : Transition → FencedCustody → W → (Acceptance * option error) * W;
  fa_ObserveFenced : Transition → FencedCustody → W → (Observation * option error) * W;
}.
Arguments fa_CurrentState {W} _.
Arguments fa_VerifyAttestation {W} _.
Arguments fa_ReserveFencedCustody {W} _.
Arguments fa_LoadFencedCustody {W} _.
Arguments fa_TransitionFencedCustodyCAS {W} _.
Arguments fa_ExecuteFenced {W} _.
Arguments fa_ObserveFenced {W} _.

Record FencedPreparation : Type := { fp_Custody : FencedCustody; fp_CustodyRecorded : bool }.
Record FencedResult : Type := { fr_Result : Result; fr_Custody : FencedCustody }.

Record TakeoverRequest : Type := {
  tk_Original : Request;
  tk_NewOwner : Identity;
  tk_Authorization : Attestation;
}.
Record TakeoverResult : Type := { tr_Previous : FencedCustody; tr_Current : FencedCustody }.

(** [nextGeneration := current.Generation + 1] is uint64 arithmetic. *)
Definition TakeoverBindingDigest (current : FencedCustody) (newOwner : Identity) : string :=
  let nextGeneration := wrap_u64 (fc_Generation current + 1) in
  digest ["takeover-v1"; fc_EffectID current; fc_AttemptID current; fc_Target current;
    id_ID (fc_Owner current); id_Kind (fc_Owner current);
    pretty (fc_Generation current); phase_string (fc_Phase current);
    id_ID newOwner; id_Kind newOwner; pretty nextGeneration].

Definition validateFencedCustody (req : Request) (effectID : string) (custody : FencedCustody)
    : option error :=
  guard_err (negb (FencedCustody_Complete custody)) ErrIncompleteFencedCustody ;;?
  guard_err (negb (str_eqb (fc_EffectID custody) effectID)
             || negb (str_eqb (fc_AttemptID custody) (rq_AttemptID req))
             || negb (str_eqb (fc_Target custody) (st_Target (rq_Current req)))
             || negb (Identity_Equal (fc_Owner custody) (rq_Executor req)))
    ErrFencedCustodyMismatch.

Section Fenced.
Context {W : Type} (ctx_Err : W → option error * W).

Definition checkRequestAtBoundary (req : Request) (adapter : FencedAdapter W)
    : M W rt_event (option error) :=
  e ← poll ctx_Err;
  match e with
  | Some err => mret (Some err)
  | None =>
  current ← call (ECurrentState (st_Target (rq_Current req)))
                 (fa_CurrentState adapter (st_Target (rq_Current req)));
  match current with
  | Error err => mret (Some err)
  | Ok current =>
    if negb (State_Equal current (rq_Current req)) then mret (Some ErrStateChanged)
    else match AdmissionBindingDigest req with
    | Error err => mret (Some err)
    | Ok expected =>
      if negb (str_eqb (at_BindingDigest (rq_Admission req)) expected)
      then mret (Some ErrAdmissionBinding)
      else call (EVerifyAttestation (rq_Admission req) expected)
                (fa_VerifyAttestation adapter (rq_Admission req) expected)
    end
  end end.

Definition ReserveFenced (req : Request) (adapter : option (FencedAdapter W))
    : M W rt_event (FencedPreparation * option error) :=
  let no := {| fp_Custody := zero_custody; fp_CustodyRecorded := false |} in
  match adapter with
  | None => mret (no, Some ErrMissingFencedAdapter)
  | Some adapter =>
  match validateRequest req with
  | Some err => mret (no, Some err)
  | None =>
  e ← checkRequestAtBoundary req adapter;
  match e with
  | Some err => mret (no, Some (ErrWrap "before fenced custody" err))
  | None =>
  match EffectIdentity req with
  | Error err => mret (no, Some err)
  | Ok effectID =>
    let custody := {| fc_EffectID := effectID; fc_AttemptID := rq_AttemptID req;
      fc_Target := st_Target (rq_Current req); fc_Owner := rq_Executor req;
      fc_Generation := 1; fc_Phase := CustodyReserved |} in
    e ← call (EReserveFenced custody) (fa_ReserveFencedCustody adapter custody);
    match e with
    | Some err => mret (no, Some (ErrWrap "reserve fenced custody" err))
    | None =>
      let prep := {| fp_Custody := custody; fp_CustodyRecorded := true |} in
      e ← checkRequestAtBoundary req adapter;
      match e with
      | Some err => mret (prep, Some (ErrWrap "after fenced custody" err))
      | None => mret (prep, None)
      end
    end
  end end end end.

Definition ExecuteReservedFenced (req : Request) (custody : FencedCustody)
    (adapter : option (FencedAdapter W)) : M W rt_event FencedResult :=
  let rejects effectID cause c := {|
    fr_Result := {|
      rs_Disposition := DispositionRejected; rs_EffectID := effectID;
      rs_AttemptID := rq_AttemptID req; rs_CustodyRecorded := FencedCustody_Complete custody;
      rs_BoundaryEntered := false; rs_Acceptance := zero_Acceptance;
      rs_Observation := zero_Observation; rs_Cause := Some cause;
      rs_EffectError := None; rs_ObservationError := None |};
    fr_Custody := c |} in
  match adapter with
  | None => mret (rejects "" ErrMissingFencedAdapter custody)
  | Some adapter =>
  match validateRequest req with
  | Some err => mret (rejects "" err custody)
  | None =>
  match EffectIdentity req with
  | Error err => mret (rejects "" err custody)
  | Ok effectID =>
  match validateFencedCustody req effectID custody with
  | Some err => mret (rejects effectID err custody)
  | None =>
  if negb (bool_decide (fc_Phase custody = CustodyReserved))
  then mret (rejects effectID ErrCustodyNotReserved custody)
  else
  e ← checkRequestAtBoundary req adapter;
  match e with
  | Some err => mret (rejects effectID err custody)
  | None =>
  loaded ← call (ELoadFenced effectID (rq_AttemptID req))
                (fa_LoadFencedCustody adapter effectID (rq_AttemptID req));
  match loaded with
  | Error err => mret (rejects effectID err custody)
  | Ok current =>
  if negb (FencedCustody_Equal current custody)
  then mret (rejects effectID ErrFencedCustodyMismatch custody)
  else
  let crossing := set_phase custody CustodyCrossing in
  e ← call (ECAS custody crossing) (fa_TransitionFencedCustodyCAS adapter custody crossing);
  match e with
  | Some err => mret (rejects effectID err custody)
  | None =>
  e ← checkRequestAtBoundary req adapter;
  match e with
  | Some err => mret (rejects effectID (ErrWrap "after crossing custody" err) crossing)
  | None =>
  e ← poll ctx_Err;
  match e with
  | Some err => mret (rejects effectID err crossing)
  | None =>
  executed ← call (EExecuteFenced (rq_Transition req) crossing)
                  (fa_ExecuteFenced adapter (rq_Transition req) crossing);
  let '(acceptance, effectErr) := executed in
  let entered disposition observation cause observationErr c := {|
    fr_Result := {|
      rs_Disposition := disposition; rs_EffectID := effectID;
      rs_AttemptID := rq_AttemptID req; rs_CustodyRecorded := FencedCustody_Complete custody;
      rs_BoundaryEntered := true; rs_Acceptance := acceptance;
      rs_Observation := observation; rs_Cause := cause;
      rs_EffectError := effectErr; rs_ObservationError := observationErr |};
    fr_Custody := c |} in
  let unknown := set_phase crossing CustodyUnknown in
  e ← call (ECAS crossing unknown) (fa_TransitionFencedCustodyCAS adapter crossing unknown);
  match e with
  | Some err =>
      mret (entered DispositionUnknown zero_Observation
              (Some (ErrWrap "mark custody unknown" err)) None crossing)
  | None =>
  observed ← call (EObserveFenced (rq_Transition req) unknown)
                  (fa_ObserveFenced adapter (rq_Transition req) unknown);
  let '(observation, observeErr) := observed in
  match observeErr with
  | Some err => mret (entered DispositionUnknown observation (Some err) observeErr unknown)
  | None =>
  e ← verifyObservation effectID (tn_To (rq_Transition req)) observation
        (fa_VerifyAttestation adapter);
  match e with
  | Some err => mret (entered DispositionUnknown observation (Some err) observeErr unknown)
  | None =>
  let closed := set_phase unknown CustodyClosed in
  e ← call (ECAS unknown closed) (fa_TransitionFencedCustodyCAS adapter unknown closed);
  match e with
  | Some err =>
      mret (entered DispositionUnknown observation
              (Some (ErrWrap "close fenced custody" err)) observeErr unknown)
  | None => mret (entered DispositionClosed observation None observeErr closed)
  end end end end end end end end end end end end end.

Definition RunFenced (req : Request) (adapter : option (FencedAdapter W))
    : M W rt_event FencedResult :=
  prep ← ReserveFenced req adapter;
  let '(prep, err) := prep in
  match err with
  | Some err => mret {|
      fr_Result := {|
        rs_Disposition := DispositionRejected; rs_EffectID := "";
        rs_AttemptID := rq_AttemptID req; rs_CustodyRecorded := fp_CustodyRecorded prep;
        rs_BoundaryEntered := false; rs_Acceptance := zero_Acceptance;
        rs_Observation := zero_Observation; rs_Cause := Some err;
        rs_EffectError := None; rs_ObservationError := None |};
      fr_Custody := fp_Custody prep |}
  | None => ExecuteReservedFenced req (fp_Custody prep) adapter
  end.

(** [^uint64(0)] is [MaxUint64]. *)
Definition TakeoverReserved (req : TakeoverRequest) (adapter : option (FencedAdapter W))
    : M W rt_event (TakeoverResult * option error) :=
  let res previous current := {| tr_Previous := previous; tr_Current := current |} in
  let zero := zero_custody in
  match adapter with
  | None => mret (res zero zero, Some ErrMissingFencedAdapter)
  | Some adapter =>
  match validateRequest (tk_Original req) with
  | Some err => mret (res zero zero, Some err)
  | None =>
  if negb (Identity_Complete (tk_NewOwner req)) || negb (Attestation_Complete (tk_Authorization req))
  then mret (res zero zero, Some ErrIncompleteTakeoverRequest)
  else
  match EffectIdentity (tk_Original req) with
  | Error err => mret (res zero zero, Some err)
  | Ok effectID =>
  loaded ← call (ELoadFenced effectID (rq_AttemptID (tk_Original req)))
                (fa_LoadFencedCustody adapter effectID (rq_AttemptID (tk_Original req)));
  match loaded with
  | Error err => mret (res zero zero, Some err)
  | Ok current =>
  match validateFencedCustody (tk_Original req) effectID current with
  | Some err => mret (res current zero, Some err)
  | None =>
  if negb (bool_decide (fc_Phase current = CustodyReserved))
  then mret (res current zero, Some ErrCustodyNotReserved)
  else if (fc_Generation current =? MaxUint64)%Z
  then mret (res current zero, Some ErrFenceGenerationExhausted)
  else
  let expected := TakeoverBindingDigest current (tk_NewOwner req) in
  if negb (str_eqb (at_BindingDigest (tk_Authorization req)) expected)
  then mret (res current zero, Some ErrTakeoverBinding)
  else
  e ← call (EVerifyAttestation (tk_Authorization req) expected)
           (fa_VerifyAttestation adapter (tk_Authorization req) expected);
  match e with
  | Some err => mret (res current zero, Some err)
  | None =>
  let next := {| fc_EffectID := fc_EffectID current; fc_AttemptID := fc_AttemptID current;
    fc_Target := fc_Target current; fc_Owner := tk_NewOwner req;
    fc_Generation := wrap_u64 (fc_Generation current + 1); fc_Phase := fc_Phase current |} in
  e ← call (ECAS current next) (fa_TransitionFencedCustodyCAS adapter current next);
  match e with
  | Some err => mret (res current zero, Some err)
  | None => mret (res current next, None)
  end end end end end end end.
End Fenced.

(** * Trace specifications *)

Definition is_exec (e : rt_event) : bool := match e with EExecuteFenced _ _ _ => true | _ => false end.

(** Events that touch neither the custody store nor the effect. *)
Definition neutral (e : rt_event) : Prop :=
  match e with
  | EReserveFenced _ _ | ECAS _ _ _ | EExecuteFenced _ _ _ => False
  | _ => True
  end.

(** A passed [checkRequestAtBoundary]. *)
Definition boundary_events (req : Request) (expected : string) : list rt_event :=
  ECtxErr None :: admitted_events req expected.

Lemma FencedCustody_Equal_eq c d : FencedCustody_Equal c d = true ↔ c = d.
Proof.
  unfold FencedCustody_Equal. destruct c, d; simpl.
  rewrite !andb_true_iff, !str_eqb_eq, Identity_Equal_eq, Z.eqb_eq, bool_decide_eq_true. naive_solver.
Qed.

Lemma validateFencedCustody_None req effectID c :
  validateFencedCustody req effectID c = None →
  FencedCustody_Complete c = true ∧ fc_EffectID c = effectID ∧ fc_AttemptID c = rq_AttemptID req ∧
  fc_Target c = st_Target (rq_Current req) ∧ fc_Owner c = rq_Executor req.
Proof. unfold validateFencedCustody. intros H. rt_bool. by split_and!. Qed.

Lemma checkRequestAtBoundary_spec {W} ctx_Err req (adapter : FencedAdapter W) :
  emits (checkRequestAtBoundary ctx_Err req adapter) (λ e t,
    Forall neutral t ∧
    (e = None → ∃ expected, AdmissionBindingDigest req = Ok expected ∧ t = boundary_events req expected)).
Proof.
  intros w e w' t H. unfold checkRequestAtBoundary, poll in H. unfold boundary_events, admitted_events.
  run_monad; (split; [by repeat constructor|]); intros He; rt_bool; simplify_eq; eauto.
Qed.

Lemma verifyObservation_neutral {W} effectID expected o (verify : Attestation → string → W → option error * W) :
  emits (verifyObservation effectID expected o verify) (λ _ t, Forall neutral t).
Proof. intros w e w' t H. unfold verifyObservation in H. run_monad; by repeat constructor. Qed.

(** The protocol up to and including the effect. *)
Definition fenced_crossing (req : Request) (custody : FencedCustody) (expected : string)
    (r : Acceptance * option error) : list rt_event :=
  boundary_events req expected ++
  [ELoadFenced (fc_EffectID custody) (rq_AttemptID req) (Ok custody);
   ECAS custody (set_phase custody CustodyCrossing) None] ++
  boundary_events req expected ++
  [ECtxErr None; EExecuteFenced (rq_Transition req) (set_phase custody CustodyCrossing) r].

(** The protocol after an effect whose outcome was observed and trusted. *)
Definition fenced_closing (req : Request) (custody : FencedCustody) (o : Observation) : list rt_event :=
  [ECAS (set_phase custody CustodyCrossing) (set_phase custody CustodyUnknown) None;
   EObserveFenced (rq_Transition req) (set_phase custody CustodyUnknown) (o, None);
   EVerifyAttestation (ov_Attestation o)
     (ObservationBindingDigest (fc_EffectID custody) (ov_State o)) None;
   ECAS (set_phase custody CustodyUnknown) (set_phase custody CustodyClosed) None].

(** Endings of [ExecuteReservedFenced] before the effect. *)
Inductive fenced_refused (custody : FencedCustody) : FencedCustody → list rt_event → Prop :=
  | refused_reserved t : Forall neutral t → fenced_refused custody custody t
  | refused_cas t err : Forall neutral t →
      fenced_refused custody custody
        (t ++ [ECAS custody (set_phase custody CustodyCrossing) (Some err)])
  | refused_crossing t u : Forall neutral t → Forall neutral u →
      fenced_refused custody (set_phase custody CustodyCrossing)
        (t ++ [ECAS custody (set_phase custody CustodyCrossing) None] ++ u).

(** Endings after the effect that stay UNKNOWN. *)
Inductive fenced_unresolved (custody : FencedCustody) : FencedCustody → list rt_event → Prop :=
  | unresolved_crossing err :
      fenced_unresolved custody (set_phase custody CustodyCrossing)
        [ECAS (set_phase custody CustodyCrossing) (set_phase custody CustodyUnknown) (Some err)]
  | unresolved_observation t : Forall neutral t →
      fenced_unresolved custody (set_phase custody CustodyUnknown)
        (ECAS (set_phase custody CustodyCrossing) (set_phase custody CustodyUnknown) None :: t)
  | unresolved_close t err : Forall neutral t →
      fenced_unresolved custody (set_phase custody CustodyUnknown)
        (ECAS (set_phase custody CustodyCrossing) (set_phase custody CustodyUnknown) None :: t ++
         [ECAS (set_phase custody CustodyUnknown) (set_phase custody CustodyClosed) (Some err)]).

(** Every way an [ExecuteReservedFenced] can end. *)
Definition execute_outcome (req : Request) (custody : FencedCustody) (res : FencedResult)
    (tr : list rt_event) : Prop :=
  (rs_Disposition (fr_Result res) = DispositionRejected ∧
   rs_BoundaryEntered (fr_Result res) = false ∧ is_Some (rs_Cause (fr_Result res)) ∧
   fenced_refused custody (fr_Custody res) tr ∧
   (tr = [] ∨ fc_Phase custody = CustodyReserved))
  ∨ ∃ expected r tail,
      AdmissionBindingDigest req = Ok expected ∧ EffectIdentity req = Ok (fc_EffectID custody) ∧
      validateFencedCustody req (fc_EffectID custody) custody = None ∧
      fc_Phase custody = CustodyReserved ∧
      rs_BoundaryEntered (fr_Result res) = true ∧
      tr = fenced_crossing req custody expected r ++ tail ∧
      ((rs_Disposition (fr_Result res) = DispositionUnknown ∧ is_Some (rs_Cause (fr_Result res)) ∧
        fenced_unresolved custody (fr_Custody res) tail)
       ∨ ∃ o, rs_Disposition (fr_Result res) = DispositionClosed ∧ rs_Cause (fr_Result res) = None ∧
           rs_Observation (fr_Result res) = o ∧
           fr_Custody res = set_phase custody CustodyClosed ∧
           ov_State o = tn_To (rq_Transition req) ∧
           at_BindingDigest (ov_Attestation o)
             = ObservationBindingDigest (fc_EffectID custody) (ov_State o) ∧
           tail = fenced_closing req custody o).

(** Prove a list of events neutral. *)
Ltac neutral_events :=
  repeat first [assumption | apply Forall_nil_2 | apply Forall_cons_2; [exact I|] | apply Forall_app_2].

Lemma ExecuteReservedFenced_spec {W} ctx_Err req custody (adapter : option (FencedAdapter W)) :
  emits (ExecuteReservedFenced ctx_Err req custody adapter) (execute_outcome req custody).
Proof.
  assert (Hrej : ∀ res t, rs_Disposition (fr_Result res) = DispositionRejected →
    rs_BoundaryEntered (fr_Result res) = false → is_Some (rs_Cause (fr_Result res)) →
    fenced_refused custody (fr_Custody res) t → t = [] ∨ fc_Phase custody = CustodyReserved →
    execute_outcome req custody res t) by (intros; left; by split_and!).
  unfold ExecuteReservedFenced.
  destruct adapter as [ad|]; [|apply emits_ret, Hrej; eauto using refused_reserved].
  destruct (validateRequest req); [apply emits_ret, Hrej; eauto using refused_reserved|].
  destruct (EffectIdentity req) as [effectID|] eqn:Hid;
    [|apply emits_ret, Hrej; eauto using refused_reserved].
  destruct (validateFencedCustody req effectID custody) eqn:Hv;
    [apply emits_ret, Hrej; eauto using refused_reserved|].
  pose proof (validateFencedCustody_None _ _ _ Hv) as (_ & <- & _ & _ & _).
  case_bool_decide as Hph; simpl; [|apply emits_ret, Hrej; eauto using refused_reserved].
  intros w res w' t H.
  run_monad.
  all: repeat match goal with
    | H : checkRequestAtBoundary _ _ _ _ = _ |- _ => apply checkRequestAtBoundary_spec in H as [? ?]
    | H : verifyObservation _ _ _ _ _ = (_, _, _) |- _ =>
        pose proof (verifyObservation_neutral _ _ _ _ _ _ _ _ H);
        apply verifyObservation_spec in H as [_ ?]
    | H : poll _ _ = _ |- _ => apply call_inv in H as [_ ->]
    end; simplify_eq/=.
  all: repeat match goal with H : None = None → _ |- _ => specialize (H eq_refl) end; split_bool;
    repeat match goal with
    | H : ∃ _, _ |- _ => destruct H as (? & ? & ->)
    | H : _ ∧ _ ∧ _ = _ |- _ => destruct H as (? & ? & ->)
    | H : FencedCustody_Equal _ _ = true |- _ => apply FencedCustody_Equal_eq in H; subst
    | H : AdmissionBindingDigest _ = Ok ?x, K : AdmissionBindingDigest _ = Ok ?y |- _ =>
        assert (x = y) as -> by congruence; clear H
    end; simplify_eq.
  all: match goal with
    | |- execute_outcome _ _ {| fr_Result := {| rs_Disposition := DispositionRejected |} |} _ =>
        apply Hrej; [done|done|simpl; eauto| |by right]; simpl; rewrite ?app_nil_r
    | |- _ => right; do 3 eexists; split_and!; [done|done|done|done|done|
          unfold fenced_crossing, boundary_events, admitted_events; simpl; reflexivity|];
        first [left; split_and!; [done|eauto|]|right; eexists; by split_and!]
    end.
  all: cbn [fr_Custody]; change (set_phase (set_phase custody CustodyCrossing) CustodyUnknown)
    with (set_phase custody CustodyUnknown); rewrite ?app_nil_r;
    try change (set_phase (set_phase custody CustodyUnknown) CustodyClosed)
      with (set_phase custody CustodyClosed).
  all: first [apply refused_reserved; solve [neutral_events]
    |apply (refused_cas custody (boundary_events req _ ++ [_])); solve [neutral_events]
    |apply (refused_crossing custody (boundary_events req _ ++ [_])); solve [neutral_events]
    |apply unresolved_crossing
    |apply unresolved_observation; solve [neutral_events]
    |apply (unresolved_close custody [_; _]); solve [neutral_events]].
Qed.

(** The record [ReserveFenced] creates. *)
Definition initial_custody (req : Request) (effectID : string) : FencedCustody := {|
  fc_EffectID := effectID; fc_AttemptID := rq_AttemptID req;
  fc_Target := st_Target (rq_Current req); fc_Owner := rq_Executor req;
  fc_Generation := 1; fc_Phase := CustodyReserved |}.

Definition reserve_outcome (req : Request) (res : FencedPreparation * option error)
    (tr : list rt_event) : Prop :=
  (fp_CustodyRecorded res.1 = false ∧ is_Some res.2 ∧
   (Forall neutral tr ∨ ∃ effectID t err, Forall neutral t ∧ EffectIdentity req = Ok effectID ∧
      tr = t ++ [EReserveFenced (initial_custody req effectID) (Some err)]))
  ∨ (fp_CustodyRecorded res.1 = true ∧ ∃ effectID expected t,
      EffectIdentity req = Ok effectID ∧ AdmissionBindingDigest req = Ok expected ∧
      fp_Custody res.1 = initial_custody req effectID ∧ Forall neutral t ∧
      tr = boundary_events req expected ++ [EReserveFenced (initial_custody req effectID) None] ++ t ∧
      (res.2 = None → t = boundary_events req expected)).

Lemma ReserveFenced_spec {W} ctx_Err req (adapter : option (FencedAdapter W)) :
  emits (ReserveFenced ctx_Err req adapter) (reserve_outcome req).
Proof.
  unfold ReserveFenced.
  destruct adapter as [ad|]; [|apply emits_ret; left; split_and!; [done|eauto|left; done]].
  destruct (validateRequest req); [apply emits_ret; left; split_and!; [done|eauto|left; done]|].
  eapply emits_bind; [apply checkRequestAtBoundary_spec|].
  intros [err|] t [Hn Ht].
  { apply emits_ret. rewrite app_nil_r. left. simpl. eauto. }
  destruct (Ht eq_refl) as (expected & Hex & ->).
  destruct (EffectIdentity req) as [effectID|] eqn:Hid.
  2:{ apply emits_ret. rewrite app_nil_r. left. simpl. eauto. }
  eapply emits_bind; [by apply (emits_call _ _ (λ a t, t = [EReserveFenced (initial_custody req effectID) a]))|].
  intros [err|] ? ->.
  { apply emits_ret. left. simpl. split_and!; [done|eauto|]. right.
    exists effectID, (boundary_events req expected), err. by rewrite ?app_nil_r. }
  eapply emits_bind; [apply checkRequestAtBoundary_spec|].
  intros e t [Hnt Htt]. destruct e; apply emits_ret; right; (split; [done|]);
    exists effectID, expected, t; rewrite ?app_nil_r; split_and!; try done.
  intros _. destruct (Htt eq_refl) as (ex & Hex' & ->). congruence.
Qed.

(** The record a takeover installs: same effect, attempt and target, the new
    owner, the next generation. *)
Definition next_custody (c : FencedCustody) (owner : Identity) : FencedCustody := {|
  fc_EffectID := fc_EffectID c; fc_AttemptID := fc_AttemptID c; fc_Target := fc_Target c;
  fc_Owner := owner; fc_Generation := wrap_u64 (fc_Generation c + 1); fc_Phase := fc_Phase c |}.

Definition takeover_events (req : TakeoverRequest) (c : FencedCustody) (r : option error) : list rt_event :=
  [ELoadFenced (fc_EffectID c) (rq_AttemptID (tk_Original req)) (Ok c);
   EVerifyAttestation (tk_Authorization req) (TakeoverBindingDigest c (tk_NewOwner req)) None;
   ECAS c (next_custody c (tk_NewOwner req)) r].

Definition takeover_outcome (req : TakeoverRequest) (res : TakeoverResult * option error)
    (tr : list rt_event) : Prop :=
  (is_Some res.2 ∧ Forall neutral tr)
  ∨ ∃ c r, EffectIdentity (tk_Original req) = Ok (fc_EffectID c) ∧
      validateFencedCustody (tk_Original req) (fc_EffectID c) c = None ∧
      fc_Phase c = CustodyReserved ∧ fc_Generation c ≠ MaxUint64 ∧
      at_BindingDigest (tk_Authorization req) = TakeoverBindingDigest c (tk_NewOwner req) ∧
      tr = takeover_events req c r ∧ res.2 = r ∧
      (r = None → res.1 = {| tr_Previous := c; tr_Current := next_custody c (tk_NewOwner req) |}).

Lemma TakeoverReserved_spec {W} req (adapter : option (FencedAdapter W)) :
  emits (TakeoverReserved req adapter) (takeover_outcome req).
Proof.
  assert (Hrej : ∀ res t, is_Some res.2 → Forall neutral t → takeover_outcome req res t)
    by (intros; by left).
  unfold TakeoverReserved.
  destruct adapter as [ad|]; [|apply emits_ret, Hrej; eauto].
  destruct (validateRequest _); [apply emits_ret, Hrej; eauto|].
  destruct (_ || _); [apply emits_ret, Hrej; eauto|].
  destruct (EffectIdentity _) as [effectID|] eqn:Hid; [|apply emits_ret, Hrej; eauto].
  eapply emits_bind.
  { by apply (emits_call _ _ (λ a t, t = [ELoadFenced effectID (rq_AttemptID (tk_Original req)) a])). }
  intros [c|e] ? ->; [|apply emits_ret, Hrej; [eauto|neutral_events]].
  destruct (validateFencedCustody _ _ _) eqn:Hv; [apply emits_ret, Hrej; [eauto|neutral_events]|].
  case_bool_decide as Hp; simpl; [|apply emits_ret, Hrej; [eauto|neutral_events]].
  destruct (Z.eqb_spec (fc_Generation c) MaxUint64) as [|Hg]; [apply emits_ret, Hrej; [eauto|neutral_events]|].
  destruct (negb _) eqn:Hb; [apply emits_ret, Hrej; [eauto|neutral_events]|]. split_bool.
  eapply emits_bind.
  { by apply (emits_call _ _ (λ a t, t = [EVerifyAttestation (tk_Authorization req)
      (TakeoverBindingDigest c (tk_NewOwner req)) a])). }
  intros [e|] ? ->; [apply emits_ret, Hrej; [eauto|neutral_events]|].
  eapply emits_bind.
  { by apply (emits_call _ _ (λ a t, t = [ECAS c (next_custody c (tk_NewOwner req)) a])). }
  intros r ? ->. pose proof (validateFencedCustody_None _ _ _ Hv) as (_ & <- & _).
  destruct r; apply emits_ret; right; exists c; eexists; by split_and!.
Qed.

(** * Sessions and the durable store

    A session is the trace of one call of the package, or of the part of it
    that ran before its process was lost: any prefix. *)

Inductive session : list rt_event → Prop :=
  | session_reserve {W} ctx_Err req (adapter : option (FencedAdapter W)) w res w' tr :
      ReserveFenced ctx_Err req adapter w = (res, w', tr) → session tr
  | session_execute {W} ctx_Err req custody (adapter : option (FencedAdapter W)) w res w' tr :
      ExecuteReservedFenced ctx_Err req custody adapter w = (res, w', tr) → session tr
  | session_run {W} ctx_Err req (adapter : option (FencedAdapter W)) w res w' tr :
      RunFenced ctx_Err req adapter w = (res, w', tr) → session tr
  | session_takeover {W} req (adapter : option (FencedAdapter W)) w res w' tr :
      TakeoverReserved req adapter w = (res, w', tr) → session tr
  | session_crash tr tr' : session (tr ++ tr') → session tr.

(** The store is keyed by [LoadFencedCustody]'s two arguments. *)
Definition custody_key (c : FencedCustody) : string * string := (fc_EffectID c, fc_AttemptID c).
Abbreviation custody_store := (gmap (string * string) FencedCustody).

(** The contract of [FencedAdapter]: reservation creates only an absent record,
    a transition replaces exactly the expected record.  A call that reports
    failure may have taken effect or not; every other call leaves the store. *)
Inductive store_step (s : custody_store) : rt_event → custody_store → Prop :=
  | step_reserve c r : s !! custody_key c = None →
      store_step s (EReserveFenced c r) (<[custody_key c := c]> s)
  | step_cas c c' r : s !! custody_key c = Some c →
      store_step s (ECAS c c' r) (<[custody_key c := c']> s)
  | step_reserve_failed c err : store_step s (EReserveFenced c (Some err)) s
  | step_cas_failed c c' err : store_step s (ECAS c c' (Some err)) s
  | step_neutral e : neutral e → store_step s e s
  | step_execute t c r : store_step s (EExecuteFenced t c r) s.

(** A global history: events tagged by the session that performed them, in the
    order the store linearises them. *)
Abbreviation history := (list (nat * rt_event)).

Inductive store_run : custody_store → history → custody_store → Prop :=
  | run_nil s : store_run s [] s
  | run_snoc s h s1 e s2 : store_run s h s1 → store_step s1 e.2 s2 → store_run s (h ++ [e]) s2.

Definition of_session (i : nat) (h : history) : list rt_event :=
  (filter (λ e, e.1 = i) h).*2.

(** A history is an interleaving of sessions. *)
Definition interleaves (h : history) : Prop := ∀ i, session (of_session i h).

(** * What a session may emit *)

(** The only changes of a record that the package asks for. *)
Inductive allowed : FencedCustody → FencedCustody → Prop :=
  | allowed_cross c : fc_Phase c = CustodyReserved → allowed c (set_phase c CustodyCrossing)
  | allowed_unknown c : fc_Phase c = CustodyCrossing → allowed c (set_phase c CustodyUnknown)
  | allowed_close c : fc_Phase c = CustodyUnknown → allowed c (set_phase c CustodyClosed)
  | allowed_takeover c owner : fc_Phase c = CustodyReserved → fc_Generation c ≠ MaxUint64 →
      allowed c (next_custody c owner).

(** A successful transition of the record [k] from RESERVED to CROSSING, and an
    effect executed under the record [k]. *)
Definition crossing_of (k : string * string) (e : rt_event) : bool :=
  match e with
  | ECAS c c' None =>
      bool_decide (custody_key c = k ∧ fc_Phase c = CustodyReserved ∧ c' = set_phase c CustodyCrossing)
  | _ => false
  end.

Definition exec_of (k : string * string) (e : rt_event) : bool :=
  match e with EExecuteFenced _ c _ => bool_decide (custody_key c = k) | _ => false end.

(** Event [e] may follow the events [past] of its session. *)
Definition may_emit (past : list rt_event) (e : rt_event) : Prop :=
  match e with
  | EReserveFenced c _ => fc_Phase c = CustodyReserved ∧ fc_Generation c = 1%Z
  | ECAS c c' _ => allowed c c' ∧
      (fc_Phase c = CustodyCrossing → ∃ t r, EExecuteFenced t c r ∈ past)
  | EExecuteFenced _ c _ =>
      (∃ c0, fc_Phase c0 = CustodyReserved ∧ c = set_phase c0 CustodyCrossing ∧ ECAS c0 c None ∈ past)
      ∧ Forall (λ e, is_exec e = false) past
  | _ => True
  end.

Fixpoint licensed (past : list rt_event) (tr : list rt_event) : Prop :=
  match tr with
  | [] => True
  | e :: tr' => may_emit past e ∧ licensed (past ++ [e]) tr'
  end.

Lemma licensed_app past t u : licensed past (t ++ u) ↔ licensed past t ∧ licensed (past ++ t) u.
Proof.
  revert past; induction t as [|e t IH]; intros past; simpl; [by rewrite app_nil_r; naive_solver|].
  rewrite IH, <- app_assoc. naive_solver.
Qed.

Lemma licensed_neutral past t : Forall neutral t → licensed past t.
Proof.
  intros Ht; revert past; induction Ht as [|e t He Ht IH]; intros past; [done|]. split; [|apply IH].
  by destruct e.
Qed.

Lemma neutral_no_exec t : Forall neutral t → Forall (λ e, is_exec e = false) t.
Proof. intros H. eapply Forall_impl; [done|]. by intros []. Qed.

(** The exits that precede the effect are licensed, after any past. *)
Lemma refused_licensed custody c past t :
  fenced_refused custody c t → t = [] ∨ fc_Phase custody = CustodyReserved → licensed past t.
Proof.
  intros Ht Hp. destruct Ht; [by apply licensed_neutral|..];
    (destruct Hp as [Hnil|Hp]; [by apply app_eq_nil in Hnil as [_ ?]|]);
    rewrite !licensed_app; split_and!; try (by apply licensed_neutral); simpl;
    (split; [split; [by apply allowed_cross|by rewrite Hp]|done]).
Qed.

Lemma unresolved_licensed custody c past tail tn r :
  fenced_unresolved custody c tail →
  EExecuteFenced tn (set_phase custody CustodyCrossing) r ∈ past → licensed past tail.
Proof.
  intros Ht Hin.
  assert (Hu : ∀ r, may_emit past (ECAS (set_phase custody CustodyCrossing) (set_phase custody CustodyUnknown) r)).
  { intros r'. split; [by apply (allowed_unknown (set_phase custody CustodyCrossing))|eauto]. }
  destruct Ht; (split; [exact (Hu _)|]); [done|by apply licensed_neutral|].
  rewrite licensed_app. split; [by apply licensed_neutral|]. simpl.
  split; [|done]. split; [by apply (allowed_close (set_phase custody CustodyUnknown))|done].
Qed.

Lemma closing_licensed req custody o past tn r :
  EExecuteFenced tn (set_phase custody CustodyCrossing) r ∈ past →
  licensed past (fenced_closing req custody o).
Proof.
  intros Hin. simpl. split_and!; try done.
  - by apply (allowed_unknown (set_phase custody CustodyCrossing)).
  - eauto.
  - by apply (allowed_close (set_phase custody CustodyUnknown)).
Qed.

Lemma crossing_licensed req custody expected r past :
  fc_Phase custody = CustodyReserved → Forall (λ e, is_exec e = false) past →
  licensed past (fenced_crossing req custody expected r).
Proof.
  intros Hp Hpast. unfold fenced_crossing.
  rewrite !licensed_app. split_and!; try (apply licensed_neutral; solve [neutral_events]).
  - simpl. split_and!; try done; [by apply allowed_cross|by rewrite Hp].
  - simpl. split_and!; try done; [exists custody; split_and!; [done|done|set_solver]|].
    repeat apply Forall_app_2; try done; by repeat constructor.
Qed.

Lemma reserve_licensed req res past tr :
  reserve_outcome req res tr → licensed past tr ∧ Forall (λ e, is_exec e = false) tr.
Proof.
  intros [(_ & _ & [Hn|(eid & t & err & Hn & _ & ->)])|(_ & eid & ex & t & _ & _ & _ & Hn & -> & _)].
  - auto using licensed_neutral, neutral_no_exec.
  - rewrite licensed_app. split; [split; [by apply licensed_neutral|done]|].
    apply Forall_app_2; [by apply neutral_no_exec|by repeat constructor].
  - rewrite !licensed_app. split; [split_and!|].
    + apply licensed_neutral. neutral_events.
    + done.
    + by apply licensed_neutral.
    + repeat apply Forall_app_2; [|by repeat constructor|by apply neutral_no_exec].
      by repeat constructor.
Qed.

Lemma execute_licensed req custody res past tr :
  execute_outcome req custody res tr → Forall (λ e, is_exec e = false) past → licensed past tr.
Proof.
  intros [(_ & _ & _ & Hr & Hp)|(ex & r & tail & _ & _ & _ & Hp & _ & -> & Hcase)] Hpast.
  { by eapply refused_licensed. }
  rewrite licensed_app. split; [by apply crossing_licensed|].
  destruct Hcase as [(_ & _ & Hu)|(o & _ & _ & _ & _ & _ & _ & ->)].
  - eapply (unresolved_licensed _ _ _ _ (rq_Transition req) r); [done|]. unfold fenced_crossing. set_solver.
  - apply (closing_licensed _ _ _ _ (rq_Transition req) r). unfold fenced_crossing. set_solver.
Qed.

Lemma takeover_licensed req res tr : takeover_outcome req res tr → licensed [] tr.
Proof.
  intros [[_ Hn]|(c & r & _ & _ & Hp & Hg & _ & -> & _)]; [by apply licensed_neutral|].
  simpl. split_and!; try done; [by apply allowed_takeover|by rewrite Hp].
Qed.

(** Whatever the adapter answers and wherever it stops, a session is licensed. *)
Lemma session_licensed tr : session tr → licensed [] tr.
Proof.
  induction 1 as [W ctx req ad w res w' tr H|W ctx req c ad w res w' tr H
                 |W ctx req ad w res w' tr H|W req ad w res w' tr H|tr tr' H IH].
  - apply ReserveFenced_spec in H. by eapply reserve_licensed.
  - apply ExecuteReservedFenced_spec in H. by eapply execute_licensed.
  - unfold RunFenced in H. apply bind_inv in H as ([prep err] & w1 & t1 & t2 & H1 & H2 & ->).
    apply ReserveFenced_spec, (reserve_licensed _ _ []) in H1 as [Hl Hx].
    rewrite licensed_app. split; [done|]. destruct err.
    + by apply ret_inv in H2 as (_ & _ & ->).
    + apply ExecuteReservedFenced_spec in H2. by eapply execute_licensed.
  - by eapply takeover_licensed, TakeoverReserved_spec.
  - by apply licensed_app in IH as [? _].
Qed.

(** * Interleaved histories *)

Lemma of_session_snoc i h j e :
  of_session i (h ++ [(j, e)]) = of_session i h ++ (if decide (j = i) then [e] else []).
Proof.
  unfold of_session. rewrite filter_app, fmap_app. f_equal.
  rewrite filter_cons, filter_nil. simpl. by case_decide.
Qed.

Lemma elem_of_session i e h : e ∈ of_session i h ↔ (i, e) ∈ h.
Proof.
  unfold of_session. rewrite list_elem_of_fmap. split.
  - intros ([j e'] & -> & [Hj Hin]%list_elem_of_filter). simpl in *. by subst.
  - intros Hin. exists (i, e). split; [done|]. by apply list_elem_of_filter.
Qed.

Lemma interleaves_snoc h j e :
  interleaves (h ++ [(j, e)]) → interleaves h ∧ may_emit (of_session j h) e.
Proof.
  intros Hi. split.
  - intros i. specialize (Hi i). rewrite of_session_snoc in Hi. by eapply session_crash.
  - specialize (Hi j). rewrite of_session_snoc, decide_True in Hi by done.
    apply session_licensed, licensed_app in Hi as [_ [? _]]. done.
Qed.

Lemma store_run_snoc_inv s0 h e s :
  store_run s0 (h ++ [e]) s → ∃ s1, store_run s0 h s1 ∧ store_step s1 e.2 s.
Proof.
  remember (h ++ [e]) as h' eqn:Heq. destruct 1 as [s0|s0 h1 s1 e1 s2 Hr Hs]; [by destruct h|].
  apply app_inj_tail in Heq as [-> ->]. eauto.
Qed.

Lemma allowed_key c c' : allowed c c' → custody_key c' = custody_key c.
Proof. by destruct 1. Qed.

(** The record [k] can still be crossed. *)
Definition uncrossed (s : custody_store) (k : string * string) : bool :=
  match s !! k with
  | None => true
  | Some c => bool_decide (fc_Phase c = CustodyReserved)
  end.

Lemma uncrossed_insert s k c k' :
  uncrossed (<[k := c]> s) k' =
    (if decide (k = k') then bool_decide (fc_Phase c = CustodyReserved) else uncrossed s k').
Proof.
  unfold uncrossed. destruct (decide (k = k')) as [->|Hk];
    [by rewrite lookup_insert_eq|by rewrite lookup_insert_ne].
Qed.

(** A step never makes a record executable again, and a crossing closes it. *)
Lemma step_uncrossed past s e s' k :
  store_step s e s' → may_emit past e →
  (if uncrossed s' k then 1 else 0) + (if crossing_of k e then 1 else 0)
    ≤ (if uncrossed s k then 1 else 0).
Proof.
  intros Hs He.
  destruct Hs as [c r Hn|c c' r Hc|c err|c c' err|e Hn|t c r]; simpl; try (destruct (uncrossed s k); lia).
  - rewrite uncrossed_insert. case_decide as Hk; [subst|lia]. unfold uncrossed. rewrite Hn.
    case_bool_decide; lia.
  - destruct He as [Ha _]. rewrite uncrossed_insert. case_decide as Hk.
    + subst k. unfold uncrossed. rewrite Hc.
      destruct Ha as [c Hp|c Hp|c Hp|c o Hp]; simpl; rewrite Hp; simpl; repeat case_bool_decide;
        destruct r; try lia.
      all: exfalso; match goal with H : _ ∧ _ ∧ ?c1 = ?c2 |- _ =>
        destruct H as (_ & H1 & H2); apply (f_equal fc_Phase) in H2; simpl in H2; congruence end.
    + destruct r; [lia|]. rewrite bool_decide_false by naive_solver. lia.
  - destruct e; try done; destruct (uncrossed s k); simpl; lia.
Qed.

Lemma countb_In {A} (p : A → bool) l x : x ∈ l → p x = true → 1 ≤ countb p l.
Proof.
  induction 1 as [x l|x y l _ IH]; intros Hp; simpl; [rewrite Hp; lia|].
  specialize (IH Hp). destruct (p y); lia.
Qed.

Lemma countb_pos {A} (p : A → bool) l : 1 ≤ countb p l → ∃ x, x ∈ l ∧ p x = true.
Proof.
  induction l as [|y l IH]; simpl; [lia|]. destruct (p y) eqn:Hy.
  - intros _. exists y. split; [constructor|done].
  - intros (x & ? & ?)%IH. exists x. split; [by constructor|done].
Qed.

Lemma countb_unique {A} (p : A → bool) l x y :
  countb p l ≤ 1 → x ∈ l → y ∈ l → p x = true → p y = true → x = y.
Proof.
  induction l as [|z l IH]; simpl; intros Hc Hx Hy Px Py; [by apply elem_of_nil in Hx|].
  apply elem_of_cons in Hx as [->|Hx], Hy as [->|Hy]; [done| | |].
  - rewrite Px in Hc. apply (countb_In p) in Hy; [lia|done].
  - rewrite Py in Hc. apply (countb_In p) in Hx; [lia|done].
  - apply IH; try done. destruct (p z); lia.
Qed.

Definition crossings (k : string * string) (h : history) : nat := countb (λ e, crossing_of k e.2) h.
Definition executions (k : string * string) (h : history) : nat := countb (λ e, exec_of k e.2) h.

(** Each record is crossed at most once, and never if it starts past RESERVED. *)
Lemma crossings_bound s0 h s k :
  interleaves h → store_run s0 h s →
  crossings k h + (if uncrossed s k then 1 else 0) ≤ (if uncrossed s0 k then 1 else 0).
Proof.
  intros Hi Hr. induction Hr as [s0|s0 h s1 [j e] s2 Hr IH Hs]; [done|].
  apply interleaves_snoc in Hi as [Hi He]. specialize (IH Hi).
  pose proof (step_uncrossed _ _ _ _ k Hs He) as Hk. simpl in *.
  unfold crossings in *. rewrite countb_app. simpl. destruct (crossing_of k e); lia.
Qed.

Lemma crossings_le_1 s0 h s k : interleaves h → store_run s0 h s → crossings k h ≤ 1.
Proof. intros Hi Hr. pose proof (crossings_bound _ _ _ k Hi Hr). destruct (uncrossed s0 k); lia. Qed.

(** The crossing that a session's execution rests on. *)
Lemma exec_crossing past t c r :
  may_emit past (EExecuteFenced t c r) →
  fc_Phase c = CustodyCrossing ∧
  ∃ e, e ∈ past ∧ crossing_of (custody_key c) e = true ∧ ∃ c0, e = ECAS c0 c None.
Proof.
  intros [(c0 & Hp & -> & Hin) _]. split; [done|]. exists (ECAS c0 (set_phase c0 CustodyCrossing) None).
  split_and!; [done| |eauto]. simpl. by apply bool_decide_true.
Qed.

(** In a history, an execution under [k] has a crossing of [k] by its session. *)
Lemma exec_in_history h j t c r :
  interleaves h → (j, EExecuteFenced t c r) ∈ h →
  ∃ e, (j, e) ∈ h ∧ crossing_of (custody_key c) e = true ∧ ∃ c0, e = ECAS c0 c None.
Proof.
  induction h as [|[i e] h IH] using rev_ind; intros Hi Hin; [by apply elem_of_nil in Hin|].
  apply interleaves_snoc in Hi as [Hi He]. apply elem_of_app in Hin as [Hin|Hin%list_elem_of_singleton].
  - destruct (IH Hi Hin) as (e' & ? & ?). exists e'. split; [set_solver|done].
  - injection Hin as <- <-. apply exec_crossing in He as (_ & e & Hin & ?).
    exists e. split; [|done]. apply elem_of_session in Hin. set_solver.
Qed.

Lemma executions_le_crossings s0 h s k :
  interleaves h → store_run s0 h s → executions k h ≤ crossings k h.
Proof.
  intros Hi Hr. induction Hr as [s0|s0 h s1 [j e] s2 Hr IH Hs]; [done|].
  pose proof Hi as [Hi' He]%interleaves_snoc. specialize (IH Hi').
  unfold crossings, executions in *. rewrite !countb_app. simpl.
  destruct (exec_of k e) eqn:Hk; [|destruct (crossing_of k e); lia].
  destruct e as [| | | | | | | | | |t c r|]; try done. simpl in Hk. apply bool_decide_eq_true in Hk as <-.
  pose proof (exec_crossing _ _ _ _ He) as (_ & e & Hin%elem_of_session & Hc & _).
  destruct (decide (1 ≤ countb (λ e, exec_of (custody_key c) e.2) h)) as [Hpos|];
    [|apply (countb_In (λ e, crossing_of (custody_key c) e.2)) in Hin; [simpl in *; lia|done]].
  exfalso. apply countb_pos in Hpos as ([i e'] & Hin' & Hx). simpl in Hx.
  destruct e' as [| | | | | | | | | |t' c' r'|]; try done. simpl in Hx. apply bool_decide_eq_true in Hx.
  destruct (exec_in_history _ _ _ _ _ Hi' Hin') as (e'' & Hin'' & Hc'' & _). rewrite Hx in Hc''.
  pose proof (countb_unique _ _ _ _ (crossings_le_1 _ _ _ (custody_key c) Hi' Hr) Hin Hin'' Hc Hc'') as [= <- _].
  destruct He as [_ Hno]. rewrite Forall_forall in Hno.
  apply elem_of_session, Hno in Hin'. done.
Qed.

(** C1: at most one execution per effect attempt.  Take any interleaving of any
    number of calls of [ReserveFenced], [ExecuteReservedFenced], [RunFenced]
    and [TakeoverReserved], with any requests and any adapter answers, some of
    them crashed half-way, that a compare-and-swap store admits: each effect
    attempt enters the effect boundary at most once, and never if its record
    was already past RESERVED at the start. *)
Theorem at_most_one_execution s0 h s k :
  interleaves h → store_run s0 h s →
  executions k h ≤ 1 ∧ (uncrossed s0 k = false → executions k h = 0).
Proof.
  intros Hi Hr. pose proof (executions_le_crossings _ _ _ k Hi Hr).
  pose proof (crossings_bound _ _ _ k Hi Hr). destruct (uncrossed s0 k); split; (lia || done || intros; lia).
Qed.

(** A crossed record stays as its session left it until that session executes. *)
Lemma crossed_until_executed s0 h s j c0 c :
  interleaves h → store_run s0 h s →
  (j, ECAS c0 c None) ∈ h → crossing_of (custody_key c) (ECAS c0 c None) = true →
  Forall (λ e, is_exec e = false) (of_session j h) → s !! custody_key c = Some c.
Proof.
  intros Hi Hr. revert j c0 c.
  induction Hr as [s0|s0 h s1 [i e] s2 Hr IH Hs]; intros j c0 c Hin Hc Hno; [by apply elem_of_nil in Hin|].
  pose proof Hi as [Hi' He]%interleaves_snoc.
  assert (Hcross : crossings (custody_key c) (h ++ [(i, e)]) ≤ 1) by (eapply crossings_le_1; [done|by econstructor]).
  rewrite of_session_snoc in Hno. apply Forall_app in Hno as [Hno Hno'].
  simpl in Hs. apply elem_of_app in Hin as [Hin|Hin%list_elem_of_singleton].
  2:{ injection Hin as <- <-. inversion Hs; simplify_eq; [|done].
      destruct He as [<-%allowed_key _]. by rewrite lookup_insert_eq. }
  specialize (IH Hi' _ _ _ Hin Hc Hno).
  destruct Hs as [d r Hn|d d' r Hd|d err|d d' err|e Hn|t d r]; try done.
  - rewrite lookup_insert_ne; [done|]. intros Heq. congruence.
  - rewrite lookup_insert_ne; [done|]. intros Heq. rewrite Heq in Hd. assert (d = c) as -> by congruence.
    destruct He as [Ha Hx]. apply bool_decide_eq_true in Hc as (_ & Hc0 & Hcc).
    destruct Hx as (t & r' & Hex%elem_of_session); [by rewrite Hcc|].
    destruct (exec_in_history _ _ _ _ _ Hi' Hex) as (e'' & Hin'' & Hc'' & _).
    assert ((j, ECAS c0 c None) = (i, e'')) as [= -> <-].
    { eapply (countb_unique (λ e, crossing_of (custody_key c) e.2)); [by eapply crossings_le_1|done|done| |done].
      simpl. apply bool_decide_true. split_and!; [by rewrite Hcc|done|done]. }
    apply elem_of_session in Hex. rewrite Forall_forall in Hno. by apply Hno in Hex.
Qed.

(** C2: the fence is current at the boundary: whenever, in such a history, the
    effect is executed under a custody, that custody (owner, generation and
    phase CROSSING included) is exactly the record in the store at that moment.
    A former owner never executes after a takeover. *)
Theorem execution_holds_current_custody s0 h1 h2 j t c r s :
  interleaves (h1 ++ (j, EExecuteFenced t c r) :: h2) → store_run s0 h1 s →
  s !! custody_key c = Some c ∧ fc_Phase c = CustodyCrossing.
Proof.
  intros Hi Hr.
  assert (Hi' : interleaves (h1 ++ [(j, EExecuteFenced t c r)])).
  { rewrite cons_middle, app_assoc in Hi. induction h2 as [|[i e] h2 IH] using rev_ind.
    - by rewrite app_nil_r in Hi.
    - apply IH. rewrite app_assoc in Hi. by apply interleaves_snoc in Hi as [? _]. }
  apply interleaves_snoc in Hi' as [Hi1 He].
  pose proof (exec_crossing _ _ _ _ He) as (Hp & e & Hin%elem_of_session & Hc & c0 & ->).
  destruct He as [_ Hno]. split; [|done]. by eapply crossed_until_executed.
Qed.

(** * Records only move forward *)

Definition phase_rank (p : CustodyPhase) : nat :=
  match p with
  | CustodyReserved => 0 | CustodyCrossing => 1 | CustodyUnknown => 2 | CustodyClosed => 3
  | OtherPhase _ => 4
  end.

(** [c'] is [c] or a later record of the same attempt: a later generation
    reached while RESERVED, or the same owner and generation in a later phase. *)
Definition later (c c' : FencedCustody) : Prop :=
  custody_key c' = custody_key c ∧ fc_Target c' = fc_Target c ∧
  ((fc_Phase c = CustodyReserved ∧ (fc_Generation c < fc_Generation c')%Z) ∨
   (fc_Owner c' = fc_Owner c ∧ fc_Generation c' = fc_Generation c ∧
    phase_rank (fc_Phase c) ≤ phase_rank (fc_Phase c'))).

#[export] Instance later_preorder : PreOrder later.
Proof.
  split; [intros c; split_and!; [done|done|right; done]|].
  intros c d e (Hk & Ht & Hd) (Hk' & Ht' & He). split_and!; [congruence|congruence|].
  destruct Hd as [[? ?]|(Ho & Hg & Hr)], He as [[Hp ?]|(Ho' & Hg' & Hr')].
  - left. split; [done|lia].
  - left. split; [done|lia].
  - left. split; [|lia]. rewrite Hp in Hr. simpl in Hr.
    destruct (fc_Phase c); simpl in Hr; try lia; done.
  - right. split_and!; [congruence|congruence|lia].
Qed.

Definition store_wf (s : custody_store) : Prop :=
  ∀ k c, s !! k = Some c → custody_key c = k ∧ is_u64 (fc_Generation c).

Lemma allowed_later c c' : allowed c c' → is_u64 (fc_Generation c) →
  later c c' ∧ is_u64 (fc_Generation c').
Proof.
  intros Ha Hg.
  destruct Ha as [c Hp|c Hp|c Hp|c o Hp Hm]; try (split; [|done]; split_and!; [done|done|]; right; simpl;
    rewrite Hp; simpl; split_and!; (done || lia)).
  assert (Hw : wrap_u64 (fc_Generation c + 1) = (fc_Generation c + 1)%Z).
  { apply wrap_u64_small. unfold is_u64, MaxUint64 in *. lia. }
  split; [split_and!; [done|done|]; left|]; simpl; rewrite Hw; [split; [done|lia]|].
  unfold is_u64, MaxUint64 in *. lia.
Qed.

Lemma step_later past s e s' :
  store_step s e s' → may_emit past e → store_wf s →
  store_wf s' ∧ ∀ k c, s !! k = Some c → ∃ c', s' !! k = Some c' ∧ later c c'.
Proof.
  intros Hs He Hw. destruct Hs as [c r Hn|c c' r Hc|c err|c c' err|e Hn|t c r];
    try (split; [done|intros k d Hd; by exists d]).
  - split.
    + intros k d [[<- <-]|[_ Hd]]%lookup_insert_Some; [|by apply Hw].
      destruct He as [_ ->]. split; [done|unfold is_u64; lia].
    + intros k d Hd. exists d. split; [|done]. rewrite lookup_insert_ne; [done|]. intros Heq. congruence.
  - destruct He as [Ha _]. destruct (Hw _ _ Hc) as [_ Hu].
    destruct (allowed_later _ _ Ha Hu) as [Hl Hu']. split.
    + intros k d [[<- <-]|[_ Hd]]%lookup_insert_Some; [|by apply Hw]. split; [by apply allowed_key|done].
    + intros k d Hd. destruct (decide (custody_key c = k)) as [<-|Hk].
      * exists c'. rewrite lookup_insert_eq. assert (c = d) as <- by congruence. done.
      * exists d. by rewrite lookup_insert_ne.
Qed.

(** C30: custody is monotone: along every such history no record disappears, the
    generation never decreases (the uint64 increment cannot wrap), the owner
    changes only together with a generation increase out of RESERVED, and the
    phase never goes back under one owner and generation. *)
Theorem custody_is_monotone s0 h s :
  interleaves h → store_run s0 h s → store_wf s0 →
  store_wf s ∧ ∀ k c, s0 !! k = Some c → ∃ c', s !! k = Some c' ∧ later c c'.
Proof.
  intros Hi Hr Hw. induction Hr as [s0|s0 h s1 [j e] s2 Hr IH Hs]; [split; [done|]; intros; by eexists|].
  apply interleaves_snoc in Hi as [Hi He]. destruct (IH Hi Hw) as [Hw1 H1].
  destruct (step_later _ _ _ _ Hs He Hw1) as [Hw2 H2]. split; [done|].
  intros k c Hc. destruct (H1 k c Hc) as (d & Hd & Hl). destruct (H2 k d Hd) as (d' & Hd' & Hl').
  exists d'. split; [done|]. by etrans.
Qed.

(** Fenced outcomes are honest: REJECTED exactly when the effect boundary was not
    entered, and then no effect was executed; CLOSED exactly when there is no
    cause, and only after the durable CROSSING and UNKNOWN transitions, one
    execution, a verified observation of exactly [Transition.To] bound to this
    effect, and the final compare-and-swap to CLOSED, in this order. *)
Theorem fenced_outcomes_are_honest {W} ctx_Err req custody (adapter : option (FencedAdapter W)) w res w' tr :
  ExecuteReservedFenced ctx_Err req custody adapter w = (res, w', tr) →
  let r := fr_Result res in
  (rs_Disposition r = DispositionRejected ↔ rs_BoundaryEntered r = false) ∧
  countb is_exec tr = (if rs_BoundaryEntered r then 1 else 0) ∧
  (rs_Cause r = None ↔ rs_Disposition r = DispositionClosed) ∧
  (rs_Disposition r = DispositionClosed →
     fr_Custody res = set_phase custody CustodyClosed ∧
     ov_State (rs_Observation r) = tn_To (rq_Transition req) ∧
     at_BindingDigest (ov_Attestation (rs_Observation r))
       = ObservationBindingDigest (fc_EffectID custody) (ov_State (rs_Observation r)) ∧
     ∃ expected x, AdmissionBindingDigest req = Ok expected ∧
       tr = fenced_crossing req custody expected x ++ fenced_closing req custody (rs_Observation r)).
Proof.
  intros H%ExecuteReservedFenced_spec r.
  destruct H as [(Hd & Hb & [e He] & Hr & _)|(ex & x & tail & Hex & _ & _ & _ & Hb & -> & Hcase)];
    fold r in Hb.
  { fold r in Hd, He. rewrite Hd, Hb, He. split_and!; try naive_solver. apply countb_zero.
    destruct Hr; repeat apply Forall_app_2; eauto using neutral_no_exec; by repeat constructor. }
  assert (Htail : countb is_exec tail = 0).
  { apply countb_zero. destruct Hcase as [(_ & _ & Hu)|(o & _ & _ & _ & _ & _ & _ & ->)];
      [destruct Hu|]; repeat first [apply Forall_cons_2; [done|] | apply Forall_app_2 | apply Forall_nil_2
        | by apply neutral_no_exec]. }
  rewrite Hb, countb_app, Htail. split_and!.
  - destruct Hcase as [(Hd & _)|(o & Hd & _)]; fold r in Hd; rewrite Hd; naive_solver.
  - done.
  - destruct Hcase as [(Hd & [e He] & _)|(o & Hd & He & _)]; fold r in Hd, He; rewrite Hd, He; naive_solver.
  - intros Hcl. destruct Hcase as [(Hd & _)|(o & _ & _ & <- & Hc & Hs & Hbd & ->)]; [subst r; congruence|].
    split_and!; [done..|]. eauto.
Qed.

Definition custody_fits (c : FencedCustody) (owner : Identity) : Prop :=
  Forall fits [fc_EffectID c; fc_AttemptID c; fc_Target c; id_ID (fc_Owner c); id_Kind (fc_Owner c);
    pretty (fc_Generation c); phase_string (fc_Phase c); id_ID owner; id_Kind owner;
    pretty (wrap_u64 (fc_Generation c + 1))].

Lemma phase_string_inj p q :
  validCustodyPhase p = true → validCustodyPhase q = true → phase_string p = phase_string q → p = q.
Proof. by destruct p, q. Qed.

(** Takeover authority is for one exact transfer.  A takeover that succeeds
    made exactly three adapter calls, loading a complete RESERVED record owned
    by the request's executor, verifying the authorization over the transfer's
    binding, and replacing that record by the one with the new owner and the
    next generation, which did not wrap.  And the same authorization cannot
    authorize a different record or a different new owner: equal bindings mean
    the same transfer, or a SHA-256 collision. *)
Theorem takeover_is_exact {W} req (adapter : option (FencedAdapter W)) w res w' tr :
  TakeoverReserved req adapter w = ((res, None), w', tr) →
  let c := tr_Previous res in
  fc_Phase c = CustodyReserved ∧ fc_Owner c = rq_Executor (tk_Original req) ∧
  EffectIdentity (tk_Original req) = Ok (fc_EffectID c) ∧
  tr_Current res = next_custody c (tk_NewOwner req) ∧
  (is_u64 (fc_Generation c) → fc_Generation (tr_Current res) = (fc_Generation c + 1)%Z) ∧
  tr = takeover_events req c None ∧
  ∀ c2 owner2, at_BindingDigest (tk_Authorization req) = TakeoverBindingDigest c2 owner2 →
    validCustodyPhase (fc_Phase c2) = true →
    custody_fits c (tk_NewOwner req) → custody_fits c2 owner2 →
    (c2 = c ∧ owner2 = tk_NewOwner req) ∨ ∃ a b, sha256_collision a b.
Proof.
  intros [[[? ?] _]|(c & r & Hid & Hv & Hp & Hm & Hb & -> & Hr & Hres)]%TakeoverReserved_spec; [done|].
  simpl in Hr, Hres. subst r. rewrite (Hres eq_refl). simpl.
  pose proof (validateFencedCustody_None _ _ _ Hv) as (_ & _ & _ & _ & Ho).
  split_and!; try done.
  { intros Hu. apply wrap_u64_small. unfold is_u64, MaxUint64 in *. lia. }
  intros c2 o2 Hb2 Hp2 F1 F2. rewrite Hb in Hb2. unfold TakeoverBindingDigest in Hb2.
  apply digest_inj in Hb2 as [H|H]; [left|right; eauto|by constructor..].
  injection H as H1 H2 H3 H4 H5 H6 H7 H8 H9 H10.
  apply (inj pretty) in H6. apply phase_string_inj in H7; [|by rewrite Hp|done].
  destruct c as [? ? ? [? ?] ? ?], c2 as [? ? ? [? ?] ? ?], o2 as [? ?], (tk_NewOwner req) as [? ?].
  simpl in *. by subst.
Qed.

(** * Witnesses *)

(** An executable store: the successful mutations. *)
Definition exec_step (s : custody_store) (e : rt_event) : option custody_store :=
  match e with
  | EReserveFenced c None =>
      if decide (s !! custody_key c = None) then Some (<[custody_key c := c]> s) else None
  | ECAS c c' None =>
      if decide (s !! custody_key c = Some c) then Some (<[custody_key c := c']> s) else None
  | _ => Some s
  end.

Fixpoint exec_run (s : custody_store) (h : history) : option custody_store :=
  match h with
  | [] => Some s
  | e :: h' => s' ← exec_step s e.2; exec_run s' h'
  end.

Lemma exec_step_sound s e s' : exec_step s e = Some s' → store_step s e s'.
Proof.
  destruct e as [| | | | | | |c [?|]| |c c' [?|]| |]; simpl; intros H; simplify_option_eq;
    by constructor.
Qed.

Lemma store_run_app s h s1 h' s' : store_run s h s1 → store_run s1 h' s' → store_run s (h ++ h') s'.
Proof.
  intros H. induction 1 as [|s1 h' s2 e s3 Hr IH Hs]; [by rewrite app_nil_r|].
  rewrite app_assoc. econstructor; [by apply IH|done].
Qed.

Lemma exec_run_sound s h s' : exec_run s h = Some s' → store_run s h s'.
Proof.
  revert s; induction h as [|e h IH]; simpl; intros s H; [injection H as ->; constructor|].
  apply bind_Some in H as (s1 & H1%exec_step_sound & H2%IH).
  change (store_run s ([e] ++ h) s'). eapply store_run_app; [|done].
  eapply (run_snoc _ []); [constructor|done].
Qed.

(** A target whose revision and custody record are the world. *)
Definition fenced_world : Type := string * option FencedCustody.
Definition sample_fenced : FencedAdapter fenced_world := {|
  fa_CurrentState _ w := (Ok (sample_state w.1), w);
  fa_VerifyAttestation _ _ w := (None, w);
  fa_ReserveFencedCustody c w := (None, (w.1, Some c));
  fa_LoadFencedCustody _ _ w :=
    (match w.2 with Some c => Ok c | None => Error (ErrNew "absent") end, w);
  fa_TransitionFencedCustodyCAS c c' w :=
    if decide (w.2 = Some c) then (None, (w.1, Some c')) else (Some (ErrNew "stale"), w);
  fa_ExecuteFenced _ _ w := ({| ac_Reference := "ok" |}, None, ("2", w.2));
  fa_ObserveFenced _ _ w := (sample_observation, None, w);
|}.

Definition alive (w : fenced_world) : option error * fenced_world := (None, w).

(** One worker reserves; the record is taken over by [rescuer], who executes. *)
Definition sample_reserved : FencedPreparation * option error * fenced_world * list rt_event :=
  ReserveFenced alive sample_request (Some sample_fenced) ("1", None).
Definition rescuer : Identity := {| id_ID := "rescuer"; id_Kind := "service" |}.
Definition sample_takeover_request : TakeoverRequest := {|
  tk_Original := sample_request; tk_NewOwner := rescuer;
  tk_Authorization := {| at_ID := "tk"; at_Issuer := {| id_ID := "ca"; id_Kind := "issuer" |};
    at_BindingDigest := TakeoverBindingDigest (initial_custody sample_request sample_effect) rescuer |} |}.
Definition sample_takeover : TakeoverResult * option error * fenced_world * list rt_event :=
  TakeoverReserved sample_takeover_request (Some sample_fenced) sample_reserved.1.2.
Definition rescue_request : Request := {|
  rq_Subject := rq_Subject sample_request; rq_Executor := rescuer; rq_Current := rq_Current sample_request;
  rq_Admission := rq_Admission sample_request; rq_Transition := rq_Transition sample_request;
  rq_AttemptID := rq_AttemptID sample_request |}.
Definition sample_rescue : FencedResult * fenced_world * list rt_event :=
  ExecuteReservedFenced alive rescue_request (tr_Current sample_takeover.1.1.1) (Some sample_fenced)
    sample_takeover.1.2.

(** Three sessions: 0 reserves, 1 takes over, 2 executes. *)
Definition sample_history : history :=
  map (pair 0) sample_reserved.2 ++ map (pair 1) sample_takeover.2 ++ map (pair 2) sample_rescue.2.
Definition sample_key : string * string := (sample_effect, rq_AttemptID sample_request).

Lemma of_session_app i h h' : of_session i (h ++ h') = of_session i h ++ of_session i h'.
Proof. unfold of_session. by rewrite filter_app, fmap_app. Qed.

Lemma of_session_cons i j e h :
  of_session i ((j, e) :: h) = (if decide (j = i) then [e] else []) ++ of_session i h.
Proof. unfold of_session. rewrite filter_cons. simpl. by case_decide. Qed.

Lemma of_session_map i j t : of_session i (map (pair j) t) = if decide (j = i) then t else [].
Proof.
  induction t as [|e t IH]; [by case_decide|]. cbn [map]. rewrite of_session_cons, IH. by case_decide.
Qed.

Lemma surjective_pairing2 {A B C} (x : A * B * C) : x = (x.1.1, x.1.2, x.2).
Proof. by destruct x as [[? ?] ?]. Qed.

Lemma session_nil : session [].
Proof.
  apply (session_crash [] []), (session_reserve alive sample_request None ("", None)
    ({| fp_Custody := zero_custody; fp_CustodyRecorded := false |}, Some ErrMissingFencedAdapter) ("", None)).
  done.
Qed.

Lemma interleaves_three a b c : session a → session b → session c →
  interleaves (map (pair 0) a ++ map (pair 1) b ++ map (pair 2) c).
Proof.
  intros Ha Hb Hc i. rewrite !of_session_app, !of_session_map.
  destruct i as [|[|[|i]]]; simpl; rewrite ?app_nil_r; try done. apply session_nil.
Qed.

Lemma sample_reserved_eq : ReserveFenced alive sample_request (Some sample_fenced) ("1", None)
  = (sample_reserved.1.1, sample_reserved.1.2, sample_reserved.2).
Proof. vm_compute. reflexivity. Qed.

Lemma sample_takeover_eq :
  TakeoverReserved sample_takeover_request (Some sample_fenced) sample_reserved.1.2
  = ((sample_takeover.1.1.1, None), sample_takeover.1.2, sample_takeover.2).
Proof. vm_compute. reflexivity. Qed.

Lemma sample_rescue_eq :
  ExecuteReservedFenced alive rescue_request (tr_Current sample_takeover.1.1.1) (Some sample_fenced)
    sample_takeover.1.2 = (sample_rescue.1.1, sample_rescue.1.2, sample_rescue.2).
Proof. vm_compute. reflexivity. Qed.

Lemma sample_interleaves : interleaves sample_history.
Proof.
  apply interleaves_three.
  - exact (session_reserve _ _ _ _ _ _ _ sample_reserved_eq).
  - exact (session_takeover _ _ _ _ _ _ sample_takeover_eq).
  - exact (session_execute _ _ _ _ _ _ _ _ sample_rescue_eq).
Qed.

Definition sample_store : custody_store := default ∅ (exec_run ∅ sample_history).

Lemma exec_run_default h :
  match exec_run ∅ h with Some _ => true | None => false end = true → store_run ∅ h (default ∅ (exec_run ∅ h)).
Proof. intros H. apply exec_run_sound. by destruct (exec_run ∅ h). Qed.

Lemma sample_run_store : store_run ∅ sample_history sample_store.
Proof. apply exec_run_default. vm_compute. reflexivity. Qed.

Example at_most_one_execution_witness :
  executions sample_key sample_history = 1 ∧ executions sample_key sample_history ≤ 1.
Proof.
  split; [vm_compute; reflexivity|].
  exact (proj1 (at_most_one_execution _ _ _ sample_key sample_interleaves sample_run_store)).
Defined.

Definition sample_closed : FencedCustody := fr_Custody sample_rescue.1.1.
Definition sample_crossing : FencedCustody := set_phase sample_closed CustodyCrossing.

(** The history before the execution, and its store. *)
Definition sample_before : history :=
  map (pair 0) sample_reserved.2 ++ map (pair 1) sample_takeover.2 ++
  map (pair 2) (take 9 sample_rescue.2).
Definition sample_after : history := map (pair 2) (drop 10 sample_rescue.2).
Definition sample_mid_store : custody_store := default ∅ (exec_run ∅ sample_before).

Lemma sample_history_split : sample_history = sample_before ++
  (2, EExecuteFenced sample_transition sample_crossing ({| ac_Reference := "ok" |}, None)) :: sample_after.
Proof. vm_compute. reflexivity. Qed.

Lemma sample_mid_run : store_run ∅ sample_before sample_mid_store.
Proof. apply exec_run_default. vm_compute. reflexivity. Qed.

Lemma sample_interleaves_split : interleaves (sample_before ++
  (2, EExecuteFenced sample_transition sample_crossing ({| ac_Reference := "ok" |}, None)) :: sample_after).
Proof. rewrite <- sample_history_split. apply sample_interleaves. Qed.

Example execution_holds_current_custody_witness :
  fc_Owner sample_crossing = rescuer ∧ sample_mid_store !! custody_key sample_crossing = Some sample_crossing.
Proof.
  split; [vm_compute; reflexivity|].
  exact (proj1 (execution_holds_current_custody _ _ _ _ _ _ _ _ sample_interleaves_split sample_mid_run)).
Defined.

Lemma empty_store_wf : store_wf ∅.
Proof. by intros k c H. Qed.

Example custody_is_monotone_witness : sample_store !! sample_key = Some sample_closed ∧ store_wf sample_store.
Proof.
  split; [vm_compute; reflexivity|].
  exact (proj1 (custody_is_monotone _ _ _ sample_interleaves sample_run_store empty_store_wf)).
Defined.

Example fenced_outcomes_are_honest_witness :
  rs_Disposition (fr_Result sample_rescue.1.1) = DispositionClosed ∧
  countb is_exec sample_rescue.2 = (if rs_BoundaryEntered (fr_Result sample_rescue.1.1) then 1 else 0).
Proof.
  split; [vm_compute; reflexivity|].
  pose proof (fenced_outcomes_are_honest _ _ _ _ _ _ _ _ sample_rescue_eq) as (_ & H & _). exact H.
Defined.

Example takeover_is_exact_witness :
  fc_Generation (tr_Previous sample_takeover.1.1.1) = 1%Z ∧
  tr_Current sample_takeover.1.1.1 = next_custody (tr_Previous sample_takeover.1.1.1) rescuer.
Proof.
  split; [vm_compute; reflexivity|].
  pose proof (takeover_is_exact _ _ _ _ _ _ sample_takeover_eq) as (_ & _ & _ & H & _). exact H.
Defined.
