(* ===== verification/Easl.v ===== *)
(** The process-wide EASL runtime registry
    (src/internal/easlruntime/runtime.go).

    EASL itself is a third-party module: its runtime, its snapshots and its
    evaluator are the parameters of [Class EASL].  What the sources read of an
    evaluation (state, evidence status, invalidations) is the record
    [Evaluation]; constants of EASL the sources do not name are the [Other]
    constructors. *)

From S2P Require Import Prelude.

Inductive EvaluationState : Type := StateValid | StateDegraded | StateInvalid | OtherState (s : string).
Inductive EvidenceStatus : Type :=
  | EvidenceContradictory | EvidenceInsufficient | OtherEvidenceStatus (s : string).
Inductive InvalidationReason : Type :=
  | ReasonStaleEvidence
  | ReasonAssumptionExpired
  | ReasonDependencyInvalid
  | ReasonMissingEvidence
  | ReasonSubjectStateChanged
  | OtherReason (s : string).

#[export] Instance EvaluationState_eq_dec : EqDecision EvaluationState.
Proof. solve_decision. Defined.
#[export] Instance EvidenceStatus_eq_dec : EqDecision EvidenceStatus.
Proof. solve_decision. Defined.
#[export] Instance InvalidationReason_eq_dec : EqDecision InvalidationReason.
Proof. solve_decision. Defined.

Record Invalidation : Type := {
  iv_AssumptionID : string;
  iv_Reason : InvalidationReason;
  iv_StateBindingID : string;
}.

Record Evaluation : Type := {
  ev_State : EvaluationState;
  ev_EvidenceStatus : EvidenceStatus;
  ev_Invalidations : list Invalidation;
}.

(** The fields of [easl.StateBinding] and [easl.Assumption] the sources set. *)
Record StateBinding : Type := { sb_ID : string; sb_Expected : string; sb_Observed : string }.
Record EaslAssumption : Type := {
  ea_ID : string;
  ea_RequiresStateBindings : list string;
  ea_ValidUntil : option time;
}.

Class EASL : Type := {
  Snapshot : Type;
  Runtime : Type;
  RuntimeMetadata : Type;
  RuntimeMetadata_eq_dec :: EqDecision RuntimeMetadata;
  (** [easl.Snapshot{At: ..., StateBindings: ..., Assumptions: ...}] *)
  make_Snapshot : time → list StateBinding → list EaslAssumption → Snapshot;
  runtime_Metadata : Runtime → result RuntimeMetadata;
  runtime_Evaluate : Runtime → Snapshot → result Evaluation;
}.

Section Registry.
Context `{EASL}.

Definition ErrRuntimeUnavailable : error :=
  ErrNew "aegis-ege: Genesis-gated EASL runtime is unavailable".
Definition ErrRuntimeMismatch : error :=
  ErrNew "aegis-ege: a different Genesis-gated EASL runtime is already bound".

(** The registry holds the bound runtime and its metadata, or nothing. *)
Definition registry : Type := option (Runtime * RuntimeMetadata).

(** [fmt.Errorf("%w: %v", ErrRuntimeUnavailable, err)] wraps only the sentinel. *)
Definition Bind (runtime : option Runtime) (r : registry) : option error * registry :=
  match runtime with
  | None => (Some ErrRuntimeUnavailable, r)
  | Some runtime =>
    match runtime_Metadata runtime with
    | Error err => (Some (ErrDetail ErrRuntimeUnavailable (error_text err)), r)
    | Ok metadata =>
      match r with
      | None => (None, Some (runtime, metadata))
      | Some (_, bound) =>
        if negb (bool_decide (bound = metadata)) then (Some ErrRuntimeMismatch, r) else (None, r)
      end
    end
  end.

(** The evaluation returned next to [ErrRuntimeUnavailable] is INVALID. *)
Definition Evaluate (r : registry) (snapshot : Snapshot) : result Evaluation :=
  match r with
  | None => Error ErrRuntimeUnavailable
  | Some (runtime, _) => runtime_Evaluate runtime snapshot
  end.

Definition Metadata (r : registry) : result RuntimeMetadata :=
  match r with
  | None => Error ErrRuntimeUnavailable
  | Some (_, metadata) => Ok metadata
  end.

(** Any sequence of bindings. *)
Definition Bind_all (l : list (option Runtime)) (r : registry) : registry :=
  foldl (λ r rt, (Bind rt r).2) r l.

Lemma Bind_bound rt x r : r = Some x → (Bind rt r).2 = Some x.
Proof. intros ->. unfold Bind. repeat case_match; by simplify_eq/=. Qed.

Lemma Bind_all_bound l x : Bind_all l (Some x) = Some x.
Proof. unfold Bind_all. induction l as [|rt l IH]; simpl; [done|]. by rewrite (Bind_bound rt x). Qed.

(** the runtime is bound once.  Whatever is bound afterwards, the first
    successful binding stays in force and decides every evaluation; a second
    binding is accepted exactly for an equal Genesis identity; and without a
    binding every evaluation is refused. *)
Theorem easl_binds_once rt md l r :
  runtime_Metadata rt = Ok md → Bind (Some rt) None = (None, r) →
  (∀ s, Evaluate (Bind_all l r) s = runtime_Evaluate rt s) ∧
  (∀ rt', (Bind (Some rt') (Bind_all l r)).1 = None ↔ runtime_Metadata rt' = Ok md) ∧
  (∀ s, Evaluate None s = Error ErrRuntimeUnavailable).
Proof.
  intros Hmd. unfold Bind at 1. rewrite Hmd. intros [= <-]. rewrite Bind_all_bound.
  split_and!; [done| |done].
  intros rt'. unfold Bind. destruct (runtime_Metadata rt'); [|naive_solver].
  destruct (decide (md = a)) as [->|]; [rewrite bool_decide_true by done|rewrite bool_decide_false by done];
    simpl; naive_solver.
Qed.
End Registry.

Arguments registry {_}.

(** * An executable instance

    A runtime that evaluates state bindings and expiry times by their
    documented meaning, for the examples of the clients. *)
Definition toy_evaluate (s : time * list StateBinding * list EaslAssumption) : Evaluation :=
  let '(at_, bindings, assumptions) := s in
  let changed a := map (λ b, {| iv_AssumptionID := ea_ID a; iv_Reason := ReasonSubjectStateChanged;
                                iv_StateBindingID := sb_ID b |})
    (List.filter (λ b, existsb (str_eqb (sb_ID b)) (ea_RequiresStateBindings a)
                  && negb (str_eqb (sb_Expected b) (sb_Observed b))) bindings) in
  let expired a := match ea_ValidUntil a with
    | Some v => if After at_ v then [{| iv_AssumptionID := ea_ID a; iv_Reason := ReasonAssumptionExpired;
                                        iv_StateBindingID := "" |}] else []
    | None => []
    end in
  let l := flat_map (λ a, changed a ++ expired a) assumptions in
  {| ev_State := match l with [] => StateValid | _ => StateInvalid end;
     ev_EvidenceStatus := OtherEvidenceStatus "SUFFICIENT"; ev_Invalidations := l |}.

#[local] Instance toy_EASL : EASL := {|
  Snapshot := time * list StateBinding * list EaslAssumption;
  Runtime := string;
  RuntimeMetadata := string;
  make_Snapshot t b a := (t, b, a);
  runtime_Metadata rt := Ok rt;
  runtime_Evaluate _ s := Ok (toy_evaluate s);
|}.

Example easl_binds_once_witness :
  Evaluate (Bind_all [Some "other"; None] (Some ("genesis", "genesis"))) (0%Z, [], [])
    = Ok (toy_evaluate (0%Z, [], [])).
Proof.
  exact (proj1 (easl_binds_once "genesis" "genesis" [Some "other"; None] (Some ("genesis", "genesis"))
    eq_refl eq_refl) (0%Z, [], [])).
Defined.
