(* ===== verification/Decision.v ===== *)
(** The decision kernel (src/internal/decision): the evaluation of a request
    under hard evidence gates, the bounded acquisition of missing evidence, the
    reconciliation of contradictions, and the validation of a short-lived
    authorization at execution time. *)

From S2P Require Import Prelude Crypto Format GovernedAction Easl.

Local Open Scope go_scope.

(** * Types (types.go) *)

Inductive Verdict : Type := Allow | Block | Escalate.

Inductive ReasonCode : Type :=
  | EvidenceStale
  | EvidenceContradicted
  | InsufficientEvidence
  | BlastRadiusExceeded
  | InsufficientStateBinding
  | AuthorizationExpired
  | ResourceVersionChanged
  | ExecutionPlanChanged
  | ActionChanged
  | TargetChanged
  | AssumptionExpired
  | AssumptionInvalidated
  | AssumptionValidityUnknown.

#[export] Instance Verdict_eq_dec : EqDecision Verdict.
Proof. solve_decision. Defined.
#[export] Instance ReasonCode_eq_dec : EqDecision ReasonCode.
Proof. solve_decision. Defined.

Record EvidenceObservation : Type := {
  eo_Claim : string;
  eo_Source : string;
  eo_Value : string;
  eo_ObservedAt : time;
}.

Record Request `{EASL} : Type := {
  rq_ActionID : string;
  rq_Action : string;
  rq_Target : string;
  rq_ResourceVersion : string;
  rq_RequestedAt : time;
  rq_AuthorizationTTL : duration;
  rq_MaxEvidenceAge : duration;
  rq_RequiredSourceCount : Z;
  rq_BlastRadius : Z;
  rq_MaxBlastRadius : Z;
  rq_Evidence : list EvidenceObservation;
  rq_EpistemicSnapshot : option Snapshot;
}.

Record Authorization : Type := {
  az_ActionID : string;
  az_Action : string;
  az_Target : string;
  az_ResourceVersion : string;
  az_EvidenceDigest : string;
  az_PlanDigest : string;
  az_AuthorityDomain : string;
  az_AuthorityTerm : Z;
  az_DecisionEpoch : Z;
  az_RevocationEpoch : Z;
  az_TargetIdentity : string;
  az_StateBindingDigest : string;
  az_ValidUntil : time;
}.

Record Result : Type := {
  rs_Decision : Verdict;
  rs_ReasonCodes : list ReasonCode;
  rs_Authorization : option Authorization;
}.

Record ExecutionAttempt : Type := {
  xa_ActionID : string;
  xa_Action : string;
  xa_Target : string;
  xa_ResourceVersion : string;
  xa_PlanDigest : string;
  xa_Now : time;
}.

Record AuthorizationValidation : Type := {
  av_Valid : bool;
  av_ReasonCodes : list ReasonCode;
}.

(** * Evidence digest (authorization.go) *)

Definition unit_separator : string := String (ascii_of_nat 31) "".
Definition record_separator : string := String (ascii_of_nat 30) "".

Definition canonical_observation (o : EvidenceObservation) : string :=
  join unit_separator [eo_Claim o; eo_Source o; eo_Value o; rfc3339nano (eo_ObservedAt o)].

Definition DigestEvidence (evidence : list EvidenceObservation) : string :=
  sha256_digest (join record_separator (sort_strings (map canonical_observation evidence))).
Arguments DigestEvidence : simpl never.

(** * The EASL gate (easl_gate.go) *)

Definition reason_result (d : Verdict) (c : ReasonCode) : Result :=
  {| rs_Decision := d; rs_ReasonCodes := [c]; rs_Authorization := None |}.

Definition hasEASLInvalidationReason (e : Evaluation) (reason : InvalidationReason) : bool :=
  existsb (λ i, bool_decide (iv_Reason i = reason)) (ev_Invalidations e).

Section Decision.
Context `{EASL} (r : registry).

Definition evaluateEASL (snapshot : Snapshot) : option Result :=
  match Easl.Evaluate r snapshot with
  | Error _ => Some (reason_result Escalate AssumptionValidityUnknown)
  | Ok evaluation =>
    if bool_decide (ev_State evaluation = StateValid) then None
    else if bool_decide (ev_EvidenceStatus evaluation = EvidenceContradictory)
      then Some (reason_result Block EvidenceContradicted)
    else if hasEASLInvalidationReason evaluation ReasonStaleEvidence
      then Some (reason_result Block EvidenceStale)
    else if hasEASLInvalidationReason evaluation ReasonAssumptionExpired
      then Some (reason_result Block AssumptionExpired)
    else if hasEASLInvalidationReason evaluation ReasonDependencyInvalid
      then Some (reason_result Block AssumptionInvalidated)
    else if hasEASLInvalidationReason evaluation ReasonMissingEvidence
      then Some (reason_result Escalate InsufficientEvidence)
    else if bool_decide (ev_State evaluation = StateDegraded)
      then Some (reason_result Escalate EvidenceStale)
    else Some (reason_result Escalate AssumptionValidityUnknown)
  end.

(** * Evaluate (evaluator.go) *)

(** The loop over [valuesByClaim]: the first value of a claim is expected of
    every later observation of it. *)
Fixpoint contradicts (valuesByClaim : gmap string string) (l : list EvidenceObservation) : bool :=
  match l with
  | [] => false
  | o :: l' =>
    match valuesByClaim !! eo_Claim o with
    | None => contradicts (<[eo_Claim o := eo_Value o]> valuesByClaim) l'
    | Some expected => if negb (str_eqb (eo_Value o) expected) then true else contradicts valuesByClaim l'
    end
  end.

Definition stale (req : Request) (o : EvidenceObservation) : bool :=
  (rq_MaxEvidenceAge req <? Sub (rq_RequestedAt req) (eo_ObservedAt o))%Z.

Definition source_labels (l : list EvidenceObservation) : gset string :=
  foldl (λ sources o, if str_eqb (eo_Source o) "" then sources else {[eo_Source o]} ∪ sources) ∅ l.

Definition mint (req : Request) : Authorization := {|
  az_ActionID := rq_ActionID req;
  az_Action := rq_Action req;
  az_Target := rq_Target req;
  az_ResourceVersion := rq_ResourceVersion req;
  az_EvidenceDigest := DigestEvidence (rq_Evidence req);
  az_PlanDigest := "";
  az_AuthorityDomain := ""; az_AuthorityTerm := 0; az_DecisionEpoch := 0; az_RevocationEpoch := 0;
  az_TargetIdentity := ""; az_StateBindingDigest := "";
  az_ValidUntil := Add (rq_RequestedAt req) (rq_AuthorizationTTL req) |}.

Definition evaluate_gates (req : Request) : Result :=
  if existsb (stale req) (rq_Evidence req) then reason_result Block EvidenceStale
  else if contradicts ∅ (rq_Evidence req) then reason_result Block EvidenceContradicted
  else if (0 <? rq_MaxBlastRadius req)%Z && (rq_MaxBlastRadius req <? rq_BlastRadius req)%Z
    then reason_result Block BlastRadiusExceeded
  else if (0 <? rq_RequiredSourceCount req)%Z
       && (Z.of_nat (size (source_labels (rq_Evidence req))) <? rq_RequiredSourceCount req)%Z
    then reason_result Escalate InsufficientEvidence
  else if str_eqb (rq_Action req) "" || str_eqb (rq_Target req) ""
       || str_eqb (rq_ResourceVersion req) "" || (rq_AuthorizationTTL req <=? 0)%Z
    then reason_result Escalate InsufficientStateBinding
  else {| rs_Decision := Allow; rs_ReasonCodes := []; rs_Authorization := Some (mint req) |}.

Definition Evaluate (req : Request) : Result :=
  match rq_EpistemicSnapshot req with
  | Some snapshot =>
    match evaluateEASL snapshot with
    | Some gated => gated
    | None => evaluate_gates req
    end
  | None => evaluate_gates req
  end.

(** * Acquisition (acquisition.go) *)

Inductive ProbeSafetyClass : Type := ProbeReadOnly | OtherSafetyClass (s : string).

Record ProbeOutcome : Type := { po_Evidence : list EvidenceObservation; po_ResourceVersion : string }.

Record EvidenceProbe (W : Type) : Type := {
  pb_Name : W → string * W;
  pb_SafetyClass : W → ProbeSafetyClass * W;
  pb_Supports : Request → Result → W → bool * W;
  pb_Acquire : Request → W → result ProbeOutcome * W;
}.
Arguments pb_Name {W} _.
Arguments pb_SafetyClass {W} _.
Arguments pb_Supports {W} _.
Arguments pb_Acquire {W} _.

Record ProbeAttempt : Type := {
  pa_ProbeName : string;
  pa_SafetyClass : ProbeSafetyClass;
  pa_ObservationCount : Z;
  pa_ResourceVersion : string;
  pa_Error : string;
  pa_Skipped : bool;
}.

Record AcquisitionResult : Type := {
  ar_Initial : Result;
  ar_Final : Result;
  ar_EffectiveRequest : Request;
  ar_Attempts : list ProbeAttempt;
}.

(** Calls to the probes (by position) and to the context. *)
Inductive probe_event : Type :=
  | EName (i : nat) (r : string)
  | ESafetyClass (i : nat) (r : ProbeSafetyClass)
  | ESupports (i : nat) (r : bool)
  | EAcquire (i : nat) (req : Request) (r : result ProbeOutcome)
  | EContextErr (r : option error).

Definition read_only (c : ProbeSafetyClass) : bool :=
  match c with ProbeReadOnly => true | OtherSafetyClass _ => false end.

Definition needsEvidence (result : Result) : bool :=
  bool_decide (rs_Decision result = Escalate)
  && existsb (λ c, bool_decide (c = InsufficientEvidence)) (rs_ReasonCodes result).

Definition latestObservationTime (current : time) (evidence : list EvidenceObservation) : time :=
  foldl (λ latest o, if After (eo_ObservedAt o) latest then eo_ObservedAt o else latest) current evidence.

(** The error names the position [i] of the observation. *)
Fixpoint validate_observations (i : nat) (l : list EvidenceObservation) : option error :=
  match l with
  | [] => None
  | o :: l' =>
    let at_ s := ErrNew ("probe observation " +:+ pretty i +:+ " has " +:+ s) in
    guard_err (str_eqb (eo_Claim o) "") (at_ "empty claim") ;;?
    guard_err (str_eqb (eo_Source o) "") (at_ "empty source") ;;?
    guard_err (IsZero (eo_ObservedAt o)) (at_ "zero observed time") ;;?
    validate_observations (S i) l'
  end.

Definition validateProbeOutcome (outcome : ProbeOutcome) : option error :=
  validate_observations 0 (po_Evidence outcome).

(** [cloneRequest] copies the evidence slice, so that appending to the copy
    leaves the caller's request alone: values are never shared here. *)
Definition cloneRequest (req : Request) : Request := req.

Definition set_evidence (req : Request) (evidence : list EvidenceObservation)
    (version : string) (requestedAt : time) : Request := {|
  rq_ActionID := rq_ActionID req; rq_Action := rq_Action req; rq_Target := rq_Target req;
  rq_ResourceVersion := version; rq_RequestedAt := requestedAt;
  rq_AuthorizationTTL := rq_AuthorizationTTL req; rq_MaxEvidenceAge := rq_MaxEvidenceAge req;
  rq_RequiredSourceCount := rq_RequiredSourceCount req; rq_BlastRadius := rq_BlastRadius req;
  rq_MaxBlastRadius := rq_MaxBlastRadius req; rq_Evidence := evidence;
  rq_EpistemicSnapshot := rq_EpistemicSnapshot req |}.

(** The request enriched with an accepted outcome. *)
Definition absorb (req : Request) (outcome : ProbeOutcome) : Request :=
  set_evidence req (rq_Evidence req ++ po_Evidence outcome)
    (if str_eqb (po_ResourceVersion outcome) "" then rq_ResourceVersion req else po_ResourceVersion outcome)
    (latestObservationTime (rq_RequestedAt req) (po_Evidence outcome)).

Definition add_attempt (a : ProbeAttempt) (res : AcquisitionResult) : AcquisitionResult := {|
  ar_Initial := ar_Initial res; ar_Final := ar_Final res;
  ar_EffectiveRequest := ar_EffectiveRequest res; ar_Attempts := ar_Attempts res ++ [a] |}.

(** The probe loop shared by [ResolveUnknown] and [ReconcileContradiction]; they
    differ only in the verdict that ends it, [stop].  [attempts] counts the
    calls of [Acquire]; [i] is the position of the next probe. *)
Fixpoint probe_loop {W} (ctx_Err : W → option error * W) (stop : Result → bool) (maxAttempts : Z)
    (i : nat) (probes : list (option (EvidenceProbe W))) (attempts : Z) (result : AcquisitionResult)
    : M W probe_event AcquisitionResult :=
  match probes with
  | [] => mret result
  | None :: probes' => probe_loop ctx_Err stop maxAttempts (S i) probes' attempts result
  | Some probe :: probes' =>
    name ← call (EName i) (pb_Name probe);
    class ← call (ESafetyClass i) (pb_SafetyClass probe);
    let attempt count version err skipped := {|
      pa_ProbeName := name; pa_SafetyClass := class; pa_ObservationCount := count;
      pa_ResourceVersion := version; pa_Error := err; pa_Skipped := skipped |} in
    checked ← call (ESafetyClass i) (pb_SafetyClass probe);
    if negb (read_only checked) then
      probe_loop ctx_Err stop maxAttempts (S i) probes' attempts
        (add_attempt (attempt 0%Z "" "probe safety class is not READ_ONLY" true) result)
    else
    supports ← call (ESupports i) (pb_Supports probe (ar_EffectiveRequest result) (ar_Final result));
    if negb supports then
      probe_loop ctx_Err stop maxAttempts (S i) probes' attempts
        (add_attempt (attempt 0%Z "" "" true) result)
    else if (maxAttempts <=? attempts)%Z then mret result
    else
    acquired ← call (EAcquire i (ar_EffectiveRequest result)) (pb_Acquire probe (ar_EffectiveRequest result));
    match acquired with
    | Error err =>
      let result := add_attempt (attempt 0%Z "" (error_text err) false) result in
      e ← call EContextErr ctx_Err;
      match e with
      | Some _ => mret result
      | None => probe_loop ctx_Err stop maxAttempts (S i) probes' (attempts + 1)%Z result
      end
    | Ok outcome =>
      match validateProbeOutcome outcome with
      | Some err =>
        probe_loop ctx_Err stop maxAttempts (S i) probes' (attempts + 1)%Z
          (add_attempt (attempt 0%Z "" (error_text err) false) result)
      | None =>
        let result := add_attempt (attempt (Z.of_nat (length (po_Evidence outcome)))
                                     (po_ResourceVersion outcome) "" false) result in
        if (length (po_Evidence outcome) =? 0)%nat && str_eqb (po_ResourceVersion outcome) "" then
          probe_loop ctx_Err stop maxAttempts (S i) probes' (attempts + 1)%Z result
        else
          let effective := absorb (ar_EffectiveRequest result) outcome in
          let final := Evaluate effective in
          let result := {| ar_Initial := ar_Initial result; ar_Final := final;
            ar_EffectiveRequest := effective; ar_Attempts := ar_Attempts result |} in
          if stop final then mret result
          else probe_loop ctx_Err stop maxAttempts (S i) probes' (attempts + 1)%Z result
      end
    end
  end.

Definition ResolveUnknown {W} (ctx_Err : W → option error * W) (req : Request)
    (probes : list (option (EvidenceProbe W))) (maxAttempts : Z) : M W probe_event AcquisitionResult :=
  let initial := Evaluate req in
  let result := {| ar_Initial := initial; ar_Final := initial;
                   ar_EffectiveRequest := cloneRequest req; ar_Attempts := [] |} in
  if negb (needsEvidence initial) || (maxAttempts <=? 0)%Z then mret result
  else probe_loop ctx_Err (λ final, negb (needsEvidence final)) maxAttempts 0 probes 0%Z result.

(** * Reconciliation (reconciliation.go) *)

Definition isContradicted (result : Result) : bool :=
  bool_decide (rs_Decision result = Block)
  && existsb (λ c, bool_decide (c = EvidenceContradicted)) (rs_ReasonCodes result).

Definition ReconcileContradiction {W} (ctx_Err : W → option error * W) (req : Request)
    (probes : list (option (EvidenceProbe W))) (maxAttempts : Z) : M W probe_event AcquisitionResult :=
  let initial := Evaluate req in
  if negb (isContradicted initial) || (maxAttempts <=? 0)%Z then
    mret {| ar_Initial := initial; ar_Final := initial;
            ar_EffectiveRequest := cloneRequest req; ar_Attempts := [] |}
  else
    let fresh := set_evidence (cloneRequest req) [] (rq_ResourceVersion req) (rq_RequestedAt req) in
    probe_loop ctx_Err
      (λ final, bool_decide (rs_Decision final = Allow) || bool_decide (rs_Decision final = Block))
      maxAttempts 0 probes 0%Z
      {| ar_Initial := initial; ar_Final := Evaluate fresh;
         ar_EffectiveRequest := fresh; ar_Attempts := [] |}.

(** * Authorization (authorization.go) *)

Definition authorizationResourceVersionBinding : string := "authorization-resource-version".
Definition authorizationPlanDigestBinding : string := "authorization-plan-digest".
Definition authorizationStateAssumption : string := "authorization-subject-state-unchanged".

(** Each of the two comparisons yields a state binding when both sides are
    known, and otherwise a mismatch found without consulting EASL, or nothing. *)
Definition version_binding (auth : Authorization) (attempt : ExecutionAttempt)
    : list StateBinding * list ReasonCode :=
  if negb (str_eqb (az_ResourceVersion auth) "") && negb (str_eqb (xa_ResourceVersion attempt) "")
  then ([{| sb_ID := authorizationResourceVersionBinding;
            sb_Expected := az_ResourceVersion auth; sb_Observed := xa_ResourceVersion attempt |}], [])
  else if negb (str_eqb (az_ResourceVersion auth) (xa_ResourceVersion attempt))
  then ([], [ResourceVersionChanged])
  else ([], []).

Definition plan_binding (auth : Authorization) (attempt : ExecutionAttempt)
    : list StateBinding * list ReasonCode :=
  if negb (str_eqb (az_PlanDigest auth) "")
  then if negb (str_eqb (xa_PlanDigest attempt) "")
       then ([{| sb_ID := authorizationPlanDigestBinding;
                 sb_Expected := az_PlanDigest auth; sb_Observed := xa_PlanDigest attempt |}], [])
       else ([], [ExecutionPlanChanged])
  else ([], []).

Definition authorization_bindings (auth : Authorization) (attempt : ExecutionAttempt)
    : list StateBinding * list ReasonCode :=
  ((version_binding auth attempt).1 ++ (plan_binding auth attempt).1,
   (version_binding auth attempt).2 ++ (plan_binding auth attempt).2).

Definition invalidation_reasons (l : list Invalidation) : list ReasonCode :=
  flat_map (λ i,
    if negb (str_eqb (iv_AssumptionID i) authorizationStateAssumption)
       || negb (bool_decide (iv_Reason i = ReasonSubjectStateChanged)) then []
    else if str_eqb (iv_StateBindingID i) authorizationResourceVersionBinding then [ResourceVersionChanged]
    else if str_eqb (iv_StateBindingID i) authorizationPlanDigestBinding then [ExecutionPlanChanged]
    else [InsufficientStateBinding]) l.

Definition validateAuthorizationStateBindings (auth : Authorization) (attempt : ExecutionAttempt)
    : list ReasonCode :=
  let '(bindings, reasons) := authorization_bindings auth attempt in
  match bindings with
  | [] => reasons
  | _ =>
    match Easl.Evaluate r (make_Snapshot (xa_Now attempt) bindings
            [{| ea_ID := authorizationStateAssumption;
                ea_RequiresStateBindings := map sb_ID bindings; ea_ValidUntil := None |}]) with
    | Error _ => reasons ++ [InsufficientStateBinding]
    | Ok evaluation => reasons ++ invalidation_reasons (ev_Invalidations evaluation)
    end
  end.

Definition ValidateAuthorization (auth : Authorization) (attempt : ExecutionAttempt)
    : AuthorizationValidation :=
  let reasons :=
    (match CheckValidity (az_ValidUntil auth) (xa_Now attempt) with
     | Some _ => [AuthorizationExpired] | None => [] end) ++
    validateAuthorizationStateBindings auth attempt ++
    (if negb (str_eqb (xa_Action attempt) (az_Action auth))
        || negb (str_eqb (xa_ActionID attempt) (az_ActionID auth)) then [ActionChanged] else []) ++
    (if negb (str_eqb (xa_Target attempt) (az_Target auth)) then [TargetChanged] else []) in
  {| av_Valid := (length reasons =? 0)%nat; av_ReasonCodes := reasons |}.

(** * Facts about the gates *)

Definition consistent (l : list EvidenceObservation) : Prop :=
  ∀ o o', o ∈ l → o' ∈ l → eo_Claim o = eo_Claim o' → eo_Value o = eo_Value o'.

Lemma contradicts_false m l :
  contradicts m l = false ↔
  (∀ o v, o ∈ l → m !! eo_Claim o = Some v → eo_Value o = v) ∧ consistent l.
Proof.
  revert m; induction l as [|x l IH]; intros m; simpl.
  { split; [|done]. intros _. split; [by intros ?? ?%elem_of_nil|by intros ?? ?%elem_of_nil]. }
  destruct (m !! eo_Claim x) as [v|] eqn:Hm.
  - destruct (str_eqb (eo_Value x) v) eqn:Hv; split_bool; simpl.
    + rewrite IH. split.
      * intros [H1 H2]. split.
        { intros o v' [->|Ho]%elem_of_cons Hv'; [congruence|by eapply H1]. }
        intros o o' [->|Ho]%elem_of_cons [->|Ho']%elem_of_cons Hc; try done.
        -- rewrite Hv. symmetry. eapply H1; [done|]. congruence.
        -- rewrite Hv. eapply H1; [done|]. congruence.
        -- by apply H2.
      * intros [H1 H2]. split; [intros; eapply H1; [by constructor|done]|].
        intros o o' ??. apply H2; by constructor.
    + split; [done|]. intros [H1 _]. destruct Hv. eapply H1; [by constructor|done].
  - rewrite IH. split.
    + intros [H1 H2].
      assert (Hx : ∀ o, o ∈ l → eo_Claim o = eo_Claim x → eo_Value o = eo_Value x).
      { intros o Ho Hc. eapply H1; [done|]. by rewrite Hc, lookup_insert_eq. }
      split.
      * intros o v [->|Ho]%elem_of_cons Hv; [congruence|]. eapply H1; [done|].
        rewrite lookup_insert_ne; [done|]. congruence.
      * intros o o' [->|Ho]%elem_of_cons [->|Ho']%elem_of_cons Hc; try done; [|by apply Hx|by apply H2].
        symmetry. by apply Hx.
    + intros [H1 H2]. split.
      * intros o v Ho [[Hc <-]|[_ Hv]]%lookup_insert_Some; [|eapply H1; [by constructor|done]].
        apply H2; [by constructor|by constructor|done].
      * intros o o' ??. apply H2; by constructor.
Qed.

Lemma contradicts_empty l : contradicts ∅ l = false ↔ consistent l.
Proof.
  rewrite contradicts_false. split; [by intros [_ ?]|]. intros H'. split; [|done].
  intros o v _ Hv. by rewrite lookup_empty in Hv.
Qed.

Lemma elem_of_source_labels s l :
  s ∈ source_labels l ↔ s ≠ "" ∧ ∃ o, o ∈ l ∧ eo_Source o = s.
Proof.
  unfold source_labels.
  assert (Hgen : ∀ X : gset string,
    s ∈ foldl (λ sources o, if str_eqb (eo_Source o) "" then sources else {[eo_Source o]} ∪ sources) X l
    ↔ s ∈ X ∨ (s ≠ "" ∧ ∃ o, o ∈ l ∧ eo_Source o = s)); [|rewrite Hgen; set_solver].
  induction l as [|x l IH]; intros X; simpl.
  { split; [by left|]. intros [?|(_ & o & ?%elem_of_nil & _)]; done. }
  rewrite IH. destruct (str_eqb (eo_Source x) "") eqn:Hx; split_bool.
  - split; (intros [?|(Hs & o & Ho & Heq)]; [by left|right; split; [done|]]).
    + exists o. split; [by constructor|done].
    + apply elem_of_cons in Ho as [->|Ho]; [congruence|eauto].
  - rewrite elem_of_union, elem_of_singleton. split.
    + intros [[->|?]|(Hs & o & Ho & Heq)]; [right|by left|right].
      * split; [done|]. exists x. split; [by constructor|done].
      * split; [done|]. exists o. split; [by constructor|done].
    + intros [?|(Hs & o & Ho & Heq)]; [by left; right|].
      apply elem_of_cons in Ho as [->|Ho]; [left; by left|right; eauto].
Qed.

Lemma source_labels_perm l k : l ≡ₚ k → source_labels l = source_labels k.
Proof.
  intros Hp. apply set_eq. intros s. rewrite !elem_of_source_labels.
  split; intros (? & o & ? & ?); (split; [done|]); exists o; split; try done;
    eapply elem_of_Permutation_proper; try done; by symmetry.
Qed.

Lemma consistent_perm l k : l ≡ₚ k → consistent l → consistent k.
Proof. intros Hp Hl o o' Ho Ho'. apply Hl; by rewrite Hp. Qed.

Lemma contradicts_perm l k : l ≡ₚ k → contradicts ∅ l = contradicts ∅ k.
Proof.
  intros Hp. pose proof (consistent_perm _ _ Hp). pose proof (consistent_perm _ _ (symmetry Hp)).
  pose proof (contradicts_empty l). pose proof (contradicts_empty k).
  destruct (contradicts ∅ l), (contradicts ∅ k); naive_solver.
Qed.

Lemma DigestEvidence_perm l k : l ≡ₚ k → DigestEvidence l = DigestEvidence k.
Proof. intros Hp. unfold DigestEvidence. by rewrite (sort_strings_Permutation _ _ (Permutation_map _ Hp)). Qed.

(** What the hard gates ask of a request. *)
Definition admissible (req : Request) : Prop :=
  (∀ o, o ∈ rq_Evidence req → (Sub (rq_RequestedAt req) (eo_ObservedAt o) ≤ rq_MaxEvidenceAge req)%Z) ∧
  consistent (rq_Evidence req) ∧
  (0 < rq_MaxBlastRadius req → rq_BlastRadius req ≤ rq_MaxBlastRadius req)%Z ∧
  (0 < rq_RequiredSourceCount req →
     rq_RequiredSourceCount req ≤ Z.of_nat (size (source_labels (rq_Evidence req))))%Z ∧
  rq_Action req ≠ "" ∧ rq_Target req ≠ "" ∧ rq_ResourceVersion req ≠ "" ∧
  (0 < rq_AuthorizationTTL req)%Z.

(** The epistemic snapshot, when there is one, is VALID for the bound runtime. *)
Definition epistemically_valid (req : Request) : Prop :=
  match rq_EpistemicSnapshot req with
  | None => True
  | Some s => ∃ e, Easl.Evaluate r s = Ok e ∧ ev_State e = StateValid
  end.

Lemma existsb_stale req :
  existsb (stale req) (rq_Evidence req) = false ↔
  ∀ o, o ∈ rq_Evidence req → (Sub (rq_RequestedAt req) (eo_ObservedAt o) ≤ rq_MaxEvidenceAge req)%Z.
Proof.
  rewrite <- not_true_iff_false, existsb_exists. split.
  - intros Hn o Ho. destruct (Z.le_gt_cases (Sub (rq_RequestedAt req) (eo_ObservedAt o)) (rq_MaxEvidenceAge req)); [done|].
    destruct Hn. exists o. split; [by apply list_elem_of_In|]. by apply Z.ltb_lt.
  - intros H' (o & Ho & Hs%Z.ltb_lt). apply list_elem_of_In, H' in Ho. lia.
Qed.

Lemma evaluate_gates_Allow req : rs_Decision (evaluate_gates req) = Allow ↔ admissible req.
Proof.
  unfold evaluate_gates, admissible. rewrite <- existsb_stale, <- contradicts_empty.
  destruct (existsb _ _); [naive_solver|]. destruct (contradicts _ _); [naive_solver|].
  destruct (Z.ltb_spec 0 (rq_MaxBlastRadius req)), (Z.ltb_spec (rq_MaxBlastRadius req) (rq_BlastRadius req));
    simpl; try (split; [done|intros (_ & _ & ? & _); lia]).
  all: destruct (Z.ltb_spec 0 (rq_RequiredSourceCount req)),
    (Z.ltb_spec (Z.of_nat (size (source_labels (rq_Evidence req)))) (rq_RequiredSourceCount req));
    simpl; try (split; [done|intros (_ & _ & _ & ? & _); lia]).
  all: destruct (str_eqb (rq_Action req) "") eqn:E1, (str_eqb (rq_Target req) "") eqn:E2,
    (str_eqb (rq_ResourceVersion req) "") eqn:E3, (Z.leb_spec (rq_AuthorizationTTL req) 0); split_bool;
    simpl; split; intros; destruct_and?; try done; repeat split; (done || lia).
Qed.

Lemma evaluate_gates_authorization req :
  rs_Authorization (evaluate_gates req) =
    if decide (rs_Decision (evaluate_gates req) = Allow) then Some (mint req) else None.
Proof. unfold evaluate_gates. by repeat case_match. Qed.

Lemma evaluateEASL_None s :
  evaluateEASL s = None ↔ ∃ e, Easl.Evaluate r s = Ok e ∧ ev_State e = StateValid.
Proof.
  unfold evaluateEASL. destruct (Easl.Evaluate r s) as [e|e]; [|naive_solver].
  case_bool_decide as Hv; [naive_solver|]. repeat case_match; naive_solver.
Qed.

Lemma evaluateEASL_Some s g :
  evaluateEASL s = Some g → rs_Decision g ≠ Allow ∧ rs_Authorization g = None.
Proof.
  unfold evaluateEASL. destruct (Easl.Evaluate r s); [|naive_solver].
  repeat case_match; naive_solver.
Qed.

(** C25: ALLOW is exact.  A request is allowed if and only if its epistemic
    snapshot (when present) is VALID, no observation is older than the maximum
    age, no two observations of a claim differ, the blast radius is within its
    hard limit, enough distinct non-empty source labels are present and the
    state binding is complete; and an authorization is minted exactly with
    ALLOW, bound to the request's action, target, version, evidence and expiry. *)
Theorem evaluate_allows_exactly req :
  (rs_Decision (Evaluate req) = Allow ↔ epistemically_valid req ∧ admissible req) ∧
  rs_Authorization (Evaluate req) =
    if decide (rs_Decision (Evaluate req) = Allow) then Some (mint req) else None.
Proof.
  unfold Evaluate, epistemically_valid. destruct (rq_EpistemicSnapshot req) as [s|].
  - destruct (evaluateEASL s) as [g|] eqn:Hs.
    + destruct (evaluateEASL_Some _ _ Hs) as [Hd Ha]. rewrite decide_False, Ha by done.
      split; [|done]. split; [done|]. intros [Hv _]. apply evaluateEASL_None in Hv. congruence.
    + split; [rewrite evaluate_gates_Allow|apply evaluate_gates_authorization].
      apply evaluateEASL_None in Hs. naive_solver.
  - split; [rewrite evaluate_gates_Allow; naive_solver|apply evaluate_gates_authorization].
Qed.

(** evidence order is irrelevant.  Permuting the observations changes neither the
    verdict, nor its reasons, nor the minted authorization. *)
Theorem evaluate_order_irrelevant req evidence :
  rq_Evidence req ≡ₚ evidence →
  Evaluate (set_evidence req evidence (rq_ResourceVersion req) (rq_RequestedAt req)) = Evaluate req.
Proof.
  intros Hp. unfold Evaluate. simpl.
  assert (He : evaluate_gates (set_evidence req evidence (rq_ResourceVersion req) (rq_RequestedAt req))
    = evaluate_gates req); [|by rewrite He].
  unfold evaluate_gates, mint. simpl.
  rewrite (source_labels_perm _ _ Hp), (DigestEvidence_perm _ _ Hp).
  rewrite (contradicts_perm _ _ Hp), (existsb_perm _ _ _ Hp). done.
Qed.

(** * Facts about acquisition *)

Definition acquired_at (e : probe_event) : option nat :=
  match e with EAcquire i _ _ => Some i | _ => None end.
Definition acquisitions (tr : list probe_event) : list nat := omap acquired_at tr.

(** The outcomes that passed [validateProbeOutcome]. *)
Definition accepted_outcome (e : probe_event) : option ProbeOutcome :=
  match e with
  | EAcquire _ _ (Ok o) => match validateProbeOutcome o with None => Some o | Some _ => None end
  | _ => None
  end.
Definition accepted (tr : list probe_event) : list ProbeOutcome := omap accepted_outcome tr.

(** Every acquisition follows directly the probe's READ_ONLY declaration and its
    acceptance of the request. *)
Definition disciplined (tr : list probe_event) : Prop :=
  ∀ t1 i q x t2, tr = t1 ++ EAcquire i q x :: t2 →
    ∃ t0, t1 = t0 ++ [ESafetyClass i ProbeReadOnly; ESupports i true].

Lemma disciplined_app t u : disciplined t → disciplined u → disciplined (t ++ u).
Proof.
  intros Ht Hu t1 i q x t2 H'.
  apply app_eq_inv in H' as [(k & -> & Hk)|(k & -> & Hk)].
  - destruct k as [|e k]; simpl in Hk.
    + destruct (Hu [] i q x t2) as (t0 & H0); [done|]. by destruct t0.
    + injection Hk as <- ->. by eapply Ht.
  - destruct (Hu k i q x t2 Hk) as (t0 & ->). exists (t ++ t0). by rewrite app_assoc.
Qed.

Lemma disciplined_none t : Forall (λ e, acquired_at e = None) t → disciplined t.
Proof. intros Ht t1 i q x t2 ->. apply Forall_app in Ht as [_ Ht]. by apply Forall_cons in Ht as [? _]. Qed.

Definition same_request (a b : AcquisitionResult) : Prop :=
  ar_Initial a = ar_Initial b ∧ ar_Final a = ar_Final b ∧ ar_EffectiveRequest a = ar_EffectiveRequest b.

Record loop_ok (maxAttempts : Z) (i : nat) (attempts : Z) (start res : AcquisitionResult)
    (tr : list probe_event) : Prop := {
  ok_bound : (attempts + Z.of_nat (length (acquisitions tr)) ≤ maxAttempts)%Z;
  ok_disciplined : disciplined tr;
  ok_positions : Forall (λ j, i ≤ j) (acquisitions tr);
  ok_once : NoDup (acquisitions tr);
  ok_effective : ar_EffectiveRequest res = foldl absorb (ar_EffectiveRequest start) (accepted tr);
  ok_final : ar_Final res = Evaluate (ar_EffectiveRequest res);
  ok_initial : ar_Initial res = ar_Initial start;
}.

Lemma acquisitions_app t u : acquisitions (t ++ u) = acquisitions t ++ acquisitions u.
Proof. apply omap_app. Qed.
Lemma accepted_app t u : accepted (t ++ u) = accepted t ++ accepted u.
Proof. apply omap_app. Qed.

Lemma no_acquisitions t :
  Forall (λ e, acquired_at e = None) t → acquisitions t = [] ∧ accepted t = [].
Proof.
  unfold acquisitions, accepted. induction 1 as [|e t He Ht [IH1 IH2]]; [done|].
  simpl. rewrite He. split; [done|]. by destruct e.
Qed.

Lemma loop_ok_skip m i j a start start' res pre tail :
  i ≤ j → loop_ok m j a start' res tail → same_request start' start →
  Forall (λ e, acquired_at e = None) pre → loop_ok m i a start res (pre ++ tail).
Proof.
  intros Hij [] (H1 & H2 & H3) Hpre. destruct (no_acquisitions _ Hpre) as [Ha Hc].
  split; rewrite ?acquisitions_app, ?accepted_app, ?Ha, ?Hc, ?app_nil_l; try done; try congruence.
  - apply disciplined_app; [by apply disciplined_none|done].
  - eapply Forall_impl; [done|]. intros; simpl in *; lia.
Qed.

Lemma loop_ok_stop m i a start res pre :
  (a ≤ m)%Z → same_request res start → ar_Final start = Evaluate (ar_EffectiveRequest start) →
  Forall (λ e, acquired_at e = None) pre → loop_ok m i a start res pre.
Proof.
  intros Hm (H1 & H2 & H3) Hf Hpre. destruct (no_acquisitions _ Hpre) as [Ha Hc].
  split; rewrite ?Ha, ?Hc; simpl; try done; try congruence; [lia|by apply disciplined_none|constructor].
Qed.

(** The events of one probe up to and including its acquisition. *)
Definition acquiring (i : nat) (name : string) (class : ProbeSafetyClass) (q : Request)
    (x : result ProbeOutcome) : list probe_event :=
  [EName i name; ESafetyClass i class; ESafetyClass i ProbeReadOnly; ESupports i true; EAcquire i q x].

Lemma loop_ok_acquire m i a start start' res name class q x tail :
  loop_ok m (S i) (a + 1) start' res tail → ar_Initial start' = ar_Initial start →
  ar_EffectiveRequest start' = foldl absorb (ar_EffectiveRequest start) (accepted [EAcquire i q x]) →
  loop_ok m i a start res (acquiring i name class q x ++ tail).
Proof.
  intros [Hb Hd Hp Ho He Hf Hi] H1 H2.
  assert (Hacq : acquisitions (acquiring i name class q x ++ tail) = i :: acquisitions tail) by done.
  assert (Hacc : accepted (acquiring i name class q x ++ tail) = accepted [EAcquire i q x] ++ accepted tail).
  { unfold accepted. simpl. by destruct (match x with Ok _ => _ | _ => _ end). }
  split; rewrite ?Hacq, ?Hacc; try done; try congruence.
  - cbn [length]. lia.
  - apply disciplined_app; [|done]. intros t1 j q' x' t2 H'. unfold acquiring in H'.
    do 4 (destruct t1 as [|? t1]; [done|]; injection H' as <- H').
    destruct t1 as [|? t1]; [|injection H' as <- H'; by destruct t1].
    injection H' as <- <- <-. by exists [EName i name; ESafetyClass i class].
  - constructor; [done|]. eapply Forall_impl; [done|]. intros; simpl in *; lia.
  - constructor; [|done]. intros Hin. rewrite Forall_forall in Hp. apply Hp in Hin. lia.
  - rewrite foldl_app, <- H2. done.
Qed.

Lemma emits_event {W A} (mk : A → probe_event) (f : W → A * W) :
  emits (call mk f) (λ a t, t = [mk a]).
Proof. by apply emits_call. Qed.

Lemma absorb_nothing q o :
  length (po_Evidence o) = 0 → po_ResourceVersion o = "" → absorb q o = q.
Proof.
  destruct o as [[|? ?] rv]; simpl; [|done]. intros _ ->. unfold absorb. simpl.
  rewrite app_nil_r. by destruct q.
Qed.

Section Loop.
Context {W : Type} (ctx_Err : W → option error * W) (stop : Result → bool) (maxAttempts : Z).

Lemma probe_loop_spec i probes attempts start :
  (attempts ≤ maxAttempts)%Z → ar_Final start = Evaluate (ar_EffectiveRequest start) →
  emits (probe_loop ctx_Err stop maxAttempts i probes attempts start)
    (loop_ok maxAttempts i attempts start).
Proof.
  revert i attempts start; induction probes as [|[p|] probes IH]; intros i attempts start Hm Hf.
  { apply emits_ret. by apply loop_ok_stop. }
  2:{ simpl. eapply emits_impl; [by apply IH|]. intros res t Ht.
      by apply (loop_ok_skip _ i (S i) _ _ _ _ [] _ ltac:(lia) Ht). }
  simpl. eapply emits_bind; [apply emits_event|]. intros name ? ->.
  eapply emits_bind; [apply emits_event|]. intros class ? ->.
  eapply emits_bind; [apply emits_event|]. intros checked ? ->.
  destruct checked; simpl.
  2:{ eapply emits_impl; [by apply IH|]. intros res t Ht.
      apply (loop_ok_skip _ i (S i) _ _ _ _ [_; _; _] _ ltac:(lia) Ht); [done|by repeat constructor]. }
  eapply emits_bind; [apply emits_event|]. intros supports ? ->.
  destruct supports; simpl.
  2:{ eapply emits_impl; [by apply IH|]. intros res t Ht.
      apply (loop_ok_skip _ i (S i) _ _ _ _ [_; _; _; _] _ ltac:(lia) Ht); [done|by repeat constructor]. }
  destruct (Z.leb_spec maxAttempts attempts).
  { apply emits_ret. apply (loop_ok_stop _ _ _ _ _ [_; _; _; _]); by repeat constructor. }
  eapply emits_bind; [apply emits_event|]. intros [outcome|err] ? ->.
  - destruct (validateProbeOutcome outcome) as [err|] eqn:Hv.
    { eapply emits_impl; [apply IH; [lia|done]|]. intros res t Ht.
      eapply (loop_ok_acquire _ _ _ _ _ _ name class _ _ _ Ht); [done|].
      unfold accepted. simpl. by rewrite Hv. }
    assert (Hacc : accepted [EAcquire i (ar_EffectiveRequest start) (Ok outcome)] = [outcome])
      by (unfold accepted; simpl; by rewrite Hv).
    destruct (_ && _) eqn:Hempty.
    { apply andb_true_iff in Hempty as [Hl%Nat.eqb_eq Hr%str_eqb_eq]. eapply emits_impl; [apply IH; [lia|done]|]. intros res t Ht.
      eapply (loop_ok_acquire _ _ _ _ _ _ name class _ _ _ Ht); [done|].
      rewrite Hacc. simpl. by rewrite absorb_nothing. }
    set (start' := {| ar_Initial := _ |}). destruct (stop _).
    { apply emits_ret. rewrite <- (app_nil_r (_ ++ _)), <- !app_assoc.
      apply (loop_ok_acquire _ _ _ _ start' _ name class); [|done|by rewrite Hacc].
      apply loop_ok_stop; [lia|done|done|constructor]. }
    eapply emits_impl; [apply IH; [lia|done]|]. intros res t Ht.
    by apply (loop_ok_acquire _ _ _ _ _ _ name class _ _ _ Ht); [|rewrite Hacc].
  - eapply emits_bind; [apply emits_event|]. intros [e|] ? ->.
    + apply emits_ret. rewrite app_nil_r.
      apply (loop_ok_acquire _ _ _ _ start _ name class _ _ [_]); [|done|done].
      apply loop_ok_stop; [lia|done|done|by repeat constructor].
    + eapply emits_impl; [apply IH; [lia|done]|]. intros res t Ht.
      eapply (loop_ok_acquire _ _ _ _ start _ name class _ _ ([_] ++ t)); [|done|done].
      apply (loop_ok_skip _ (S i) (S i) _ _ _ _ [_] _ ltac:(lia) Ht); [done|by repeat constructor].
Qed.
End Loop.

Lemma foldl_absorb_evidence q os :
  rq_Evidence (foldl absorb q os) = rq_Evidence q ++ concat (map po_Evidence os).
Proof.
  revert q; induction os as [|o os IH]; intros q; simpl; [by rewrite app_nil_r|].
  by rewrite IH, app_assoc.
Qed.

Lemma latestObservationTime_spec t l :
  (t ≤ latestObservationTime t l)%Z ∧ ∀ o, o ∈ l → (eo_ObservedAt o ≤ latestObservationTime t l)%Z.
Proof.
  unfold latestObservationTime, After. revert t; induction l as [|x l IH]; intros t; simpl.
  { split; [lia|]. by intros o ?%elem_of_nil. }
  destruct (Z.ltb_spec t (eo_ObservedAt x)).
  - destruct (IH (eo_ObservedAt x)) as [H1 H2]. split; [lia|]. intros o [->|Ho]%elem_of_cons; auto.
  - destruct (IH t) as [H1 H2]. split; [lia|]. intros o [->|Ho]%elem_of_cons; [lia|auto].
Qed.

(** The request of record: only evidence, version and clock move; the clock is
    never behind what was absorbed. *)
Lemma foldl_absorb_frame q os :
  let q' := foldl absorb q os in
  rq_Action q' = rq_Action q ∧ rq_ActionID q' = rq_ActionID q ∧ rq_Target q' = rq_Target q ∧
  rq_MaxEvidenceAge q' = rq_MaxEvidenceAge q ∧ rq_RequiredSourceCount q' = rq_RequiredSourceCount q ∧
  rq_BlastRadius q' = rq_BlastRadius q ∧ rq_MaxBlastRadius q' = rq_MaxBlastRadius q ∧
  (rq_RequestedAt q ≤ rq_RequestedAt q')%Z ∧
  ∀ p o, p ∈ os → o ∈ po_Evidence p → (eo_ObservedAt o ≤ rq_RequestedAt q')%Z.
Proof.
  revert q; induction os as [|x os IH]; intros q; simpl.
  { split_and!; try done. by intros p o ?%elem_of_nil. }
  destruct (IH (absorb q x)) as (H1 & H2 & H3 & H4 & H5 & H6 & H7 & H8 & H9). simpl in *.
  destruct (latestObservationTime_spec (rq_RequestedAt q) (po_Evidence x)) as [Ha Hb].
  split_and!; try done; [lia|]. intros p o [->|Hp]%elem_of_cons Ho; [specialize (Hb _ Ho); lia|eauto].
Qed.

(** Acquisition is bounded, read-only and honest.  Whatever the probes answer, [ResolveUnknown]
    acquires at most [maxAttempts] times, from each probe at most once, and
    only directly after that probe declared itself READ_ONLY and supported the
    request; the effective request is the original one extended by exactly the
    validated outcomes, its limits and identity untouched; the final verdict is
    the evaluation of that request; and nothing is called unless evidence was
    missing. *)
Theorem resolve_unknown_is_bounded {W} (ctx_Err : W → option error * W) req probes maxAttempts w res w' tr :
  ResolveUnknown ctx_Err req probes maxAttempts w = (res, w', tr) →
  (Z.of_nat (length (acquisitions tr)) ≤ Z.max 0 maxAttempts)%Z ∧
  NoDup (acquisitions tr) ∧ disciplined tr ∧
  ar_EffectiveRequest res = foldl absorb req (accepted tr) ∧
  rq_Evidence (ar_EffectiveRequest res) = rq_Evidence req ++ concat (map po_Evidence (accepted tr)) ∧
  rq_MaxBlastRadius (ar_EffectiveRequest res) = rq_MaxBlastRadius req ∧
  rq_RequiredSourceCount (ar_EffectiveRequest res) = rq_RequiredSourceCount req ∧
  ar_Initial res = Evaluate req ∧
  ar_Final res = Evaluate (ar_EffectiveRequest res) ∧
  (needsEvidence (Evaluate req) = false → tr = []).
Proof.
  intros Hrun. assert (Hok : loop_ok (Z.max 0 maxAttempts) 0 0
      {| ar_Initial := Evaluate req; ar_Final := Evaluate req; ar_EffectiveRequest := req; ar_Attempts := [] |}
      res tr ∧ (needsEvidence (Evaluate req) = false → tr = [])).
  { unfold ResolveUnknown in Hrun. destruct (_ || _) eqn:Hg.
    - apply ret_inv in Hrun as (-> & _ & ->). split; [|done]. by apply loop_ok_stop; [lia|..|constructor].
    - apply orb_false_iff in Hg as [Hn%negb_false_iff Hm%Z.leb_gt].
      apply probe_loop_spec in Hrun; [|lia|done]. split; [|congruence].
      by replace (Z.max 0 maxAttempts) with maxAttempts by lia. }
  destruct Hok as [[Hb Hd _ Ho He Hf Hi] Hnil]. simpl in He.
  destruct (foldl_absorb_frame req (accepted tr)) as (_ & _ & _ & _ & H5 & _ & H7 & _).
  split_and!; try done; rewrite He; [apply foldl_absorb_evidence|done|done].
Qed.

(** A contradiction is never outvoted.  When the evaluation is blocked by contradictory
    evidence, [ReconcileContradiction] decides on fresh evidence alone: the
    effective evidence is exactly what at most [maxAttempts] READ_ONLY
    acquisitions returned, so an ALLOW needs them to be consistent, fresh and
    from enough sources by themselves; any other request is returned as it was. *)
Theorem reconcile_uses_fresh_evidence {W} (ctx_Err : W → option error * W) req probes maxAttempts w res w' tr :
  ReconcileContradiction ctx_Err req probes maxAttempts w = (res, w', tr) →
  ar_Initial res = Evaluate req ∧ disciplined tr ∧ NoDup (acquisitions tr) ∧
  (Z.of_nat (length (acquisitions tr)) ≤ Z.max 0 maxAttempts)%Z ∧
  ar_Final res = Evaluate (ar_EffectiveRequest res) ∧
  (isContradicted (Evaluate req) = false → ar_EffectiveRequest res = req ∧ tr = []) ∧
  (isContradicted (Evaluate req) = true → (0 < maxAttempts)%Z →
     rq_Evidence (ar_EffectiveRequest res) = concat (map po_Evidence (accepted tr)) ∧
     (rs_Decision (ar_Final res) = Allow →
        consistent (concat (map po_Evidence (accepted tr))) ∧
        (0 < rq_RequiredSourceCount req →
           rq_RequiredSourceCount req
             ≤ Z.of_nat (size (source_labels (concat (map po_Evidence (accepted tr))))))%Z)).
Proof.
  intros Hrun. unfold ReconcileContradiction in Hrun.
  destruct (isContradicted (Evaluate req)) eqn:Hc; simpl in Hrun.
  2:{ apply ret_inv in Hrun as (-> & _ & ->).
      split_and!; try done; [by apply disciplined_none|constructor|simpl; lia]. }
  destruct (Z.leb_spec maxAttempts 0).
  { apply ret_inv in Hrun as (-> & _ & ->).
    split_and!; try done; [by apply disciplined_none|constructor|simpl; lia|lia]. }
  apply probe_loop_spec in Hrun as [Hb Hd _ Ho He Hf Hi]; [|lia|done]. simpl in He.
  assert (Hev : rq_Evidence (ar_EffectiveRequest res) = concat (map po_Evidence (accepted tr))).
  { rewrite He. apply foldl_absorb_evidence. }
  split_and!; try done; [lia|]. intros _ _. split; [done|]. intros Ha. rewrite Hf in Ha.
  assert (Hadm : admissible (ar_EffectiveRequest res)).
  { revert Ha. unfold Evaluate. destruct (rq_EpistemicSnapshot _) as [s|]; [|by rewrite evaluate_gates_Allow].
    destruct (evaluateEASL s) as [g|] eqn:Hs; [|by rewrite evaluate_gates_Allow].
    by destruct (evaluateEASL_Some _ _ Hs). }
  destruct Hadm as (_ & Hcons & _ & Hsrc & _). rewrite Hev in Hcons, Hsrc. split; [done|].
  assert (Hrs : rq_RequiredSourceCount (ar_EffectiveRequest res) = rq_RequiredSourceCount req).
  { rewrite He. destruct (foldl_absorb_frame
      (set_evidence req [] (rq_ResourceVersion req) (rq_RequestedAt req)) (accepted tr))
      as (_ & _ & _ & _ & Hrs & _). exact Hrs. }
  by rewrite Hrs in Hsrc.
Qed.

(** * Facts about authorization *)

(** The documented meaning of EASL state bindings: an assumption that requires
    bindings is invalidated as SUBJECT_STATE_CHANGED by exactly those whose
    observed side differs from the expected one. *)
Definition state_binding_law : Prop :=
  ∀ at_ bindings a, NoDup (map sb_ID bindings) →
    ∃ e, Easl.Evaluate r (make_Snapshot at_ bindings
           [{| ea_ID := a; ea_RequiresStateBindings := map sb_ID bindings; ea_ValidUntil := None |}]) = Ok e ∧
      ∀ id, (∃ i, i ∈ ev_Invalidations e ∧ iv_AssumptionID i = a ∧
                  iv_Reason i = ReasonSubjectStateChanged ∧ iv_StateBindingID i = id) ↔
            (∃ b, b ∈ bindings ∧ sb_ID b = id ∧ sb_Expected b ≠ sb_Observed b).

Definition settled (p : list StateBinding * list ReasonCode) : Prop :=
  p.2 = [] ∧ Forall (λ b, sb_Expected b = sb_Observed b) p.1.

Lemma version_binding_settled auth attempt :
  settled (version_binding auth attempt) ↔ xa_ResourceVersion attempt = az_ResourceVersion auth.
Proof.
  unfold settled, version_binding.
  destruct (str_eqb (az_ResourceVersion auth) "") eqn:E1, (str_eqb (xa_ResourceVersion attempt) "") eqn:E2,
    (str_eqb (az_ResourceVersion auth) (xa_ResourceVersion attempt)) eqn:E3;
    split_bool; simpl; rewrite ?Forall_singleton; simpl; split; intros; destruct_and?;
    try congruence; split; (done || by constructor).
Qed.

Lemma plan_binding_settled auth attempt :
  settled (plan_binding auth attempt) ↔ (az_PlanDigest auth ≠ "" → xa_PlanDigest attempt = az_PlanDigest auth).
Proof.
  unfold settled, plan_binding.
  destruct (str_eqb (az_PlanDigest auth) "") eqn:E1, (str_eqb (xa_PlanDigest attempt) "") eqn:E2;
    split_bool; simpl; rewrite ?Forall_singleton; simpl; split; intros; destruct_and?;
    try congruence; try (split; (done || by constructor)).
  - naive_solver congruence.
  - split; [done|]. symmetry. auto.
Qed.

Lemma authorization_bindings_settled auth attempt :
  settled (authorization_bindings auth attempt) ↔
  settled (version_binding auth attempt) ∧ settled (plan_binding auth attempt).
Proof.
  unfold settled, authorization_bindings. simpl. rewrite Forall_app, app_nil. naive_solver.
Qed.

Lemma authorization_bindings_NoDup auth attempt :
  NoDup (map sb_ID (authorization_bindings auth attempt).1).
Proof.
  unfold authorization_bindings, version_binding, plan_binding.
  repeat case_match; simpl; repeat constructor; set_solver.
Qed.

(** Every binding carries one of the two identifiers of the package. *)
Lemma authorization_bindings_ids auth attempt b :
  b ∈ (authorization_bindings auth attempt).1 →
  sb_ID b = authorizationResourceVersionBinding ∨ sb_ID b = authorizationPlanDigestBinding.
Proof.
  unfold authorization_bindings, version_binding, plan_binding.
  repeat case_match; simpl; set_solver.
Qed.

Lemma invalidation_reasons_nil l :
  invalidation_reasons l = [] ↔
  ¬ ∃ i, i ∈ l ∧ iv_AssumptionID i = authorizationStateAssumption ∧ iv_Reason i = ReasonSubjectStateChanged.
Proof.
  unfold invalidation_reasons. induction l as [|i l IH]; simpl.
  { split; [|done]. intros _ (i & ?%elem_of_nil & _). done. }
  rewrite app_nil, IH. destruct (_ || _) eqn:E.
  - apply orb_true_iff in E. split.
    + intros [_ Hn] (j & [->|Hj]%elem_of_cons & Ha & Hr); [|naive_solver].
      rewrite Ha, Hr, str_eqb_refl, bool_decide_true in E by done. naive_solver.
    + intros Hn. split; [done|]. intros (j & Hj & ?). destruct Hn. exists j. split; [by constructor|done].
  - split_bool. split; [by repeat case_match; intros []|]. intros Hn. destruct Hn.
    exists i. split; [by constructor|done].
Qed.

Lemma validateAuthorizationStateBindings_nil auth attempt :
  state_binding_law →
  validateAuthorizationStateBindings auth attempt = [] ↔ settled (authorization_bindings auth attempt).
Proof.
  intros Hlaw. unfold validateAuthorizationStateBindings, settled.
  pose proof (authorization_bindings_NoDup auth attempt) as Hnd.
  destruct (authorization_bindings auth attempt) as [bindings reasons]. simpl in *.
  destruct bindings as [|b0 bs]; [split; [done|naive_solver]|].
  destruct (Hlaw (xa_Now attempt) (b0 :: bs) authorizationStateAssumption Hnd) as (e & -> & He).
  rewrite app_nil, invalidation_reasons_nil. split; intros [-> H2]; (split; [done|]).
  - apply Forall_forall. intros b Hb. apply dec_stable. intros Hne. destruct H2.
    destruct (proj2 (He (sb_ID b))) as (i & Hi & Ha & Hr & _); [by exists b|]. by exists i.
  - intros (i & Hi & Ha & Hr). rewrite Forall_forall in H2.
    destruct (proj1 (He (iv_StateBindingID i))) as (b & Hb & _ & Hne); [by exists i|]. by apply H2 in Hb.
Qed.

(** An authorization is valid for exactly the attempt it binds.  Under the documented
    meaning of state bindings it is accepted if and only if the time is known
    and before the expiry, and action, action id, target, resource version and
    (when bound) plan digest are the authorized ones; and when the EASL runtime
    is not bound, an authorization with any state binding is refused. *)
Theorem validate_authorization_exact auth attempt :
  (state_binding_law →
   av_Valid (ValidateAuthorization auth attempt) = true ↔
     xa_Now attempt ≠ 0%Z ∧ az_ValidUntil auth ≠ 0%Z ∧ (xa_Now attempt < az_ValidUntil auth)%Z ∧
     xa_Action attempt = az_Action auth ∧ xa_ActionID attempt = az_ActionID auth ∧
     xa_Target attempt = az_Target auth ∧ xa_ResourceVersion attempt = az_ResourceVersion auth ∧
     (az_PlanDigest auth ≠ "" → xa_PlanDigest attempt = az_PlanDigest auth)) ∧
  (r = None → az_ResourceVersion auth ≠ "" ∨ az_PlanDigest auth ≠ "" →
   av_Valid (ValidateAuthorization auth attempt) = false).
Proof.
  unfold ValidateAuthorization. simpl. split.
  - intros Hlaw. rewrite Nat.eqb_eq, length_zero_iff_nil, !app_nil, validateAuthorizationStateBindings_nil,
      authorization_bindings_settled, version_binding_settled, plan_binding_settled by done.
    pose proof (CheckValidity_None (az_ValidUntil auth) (xa_Now attempt)) as Hv.
    destruct (CheckValidity _ _); [naive_solver|].
    destruct (str_eqb (xa_Action attempt) _) eqn:E1, (str_eqb (xa_ActionID attempt) _) eqn:E2,
      (str_eqb (xa_Target attempt) _) eqn:E3; split_bool; naive_solver.
  - intros Hr Hbound. apply Nat.eqb_neq. intros Hnil%length_zero_iff_nil.
    apply app_nil in Hnil as [_ [Hnil _]%app_nil].
    unfold validateAuthorizationStateBindings, authorization_bindings, version_binding, plan_binding in Hnil.
    rewrite Hr in Hnil. simpl in Hnil.
    destruct (str_eqb (az_ResourceVersion auth) "") eqn:E1, (str_eqb (xa_ResourceVersion attempt) "") eqn:E2,
      (str_eqb (az_ResourceVersion auth) (xa_ResourceVersion attempt)) eqn:E3,
      (str_eqb (az_PlanDigest auth) "") eqn:E4, (str_eqb (xa_PlanDigest attempt) "") eqn:E5;
      split_bool; simpl in Hnil; try done; naive_solver congruence.
Qed.
End Decision.

(** * The evidence digest *)

Definition separator_free (o : EvidenceObservation) : Prop :=
  Forall (λ s, free_of (ascii_of_nat 31) s && free_of (ascii_of_nat 30) s = true)
    [eo_Claim o; eo_Source o; eo_Value o] ∧ four_digit_year (eo_ObservedAt o).

Lemma canonical_observation_fields o : separator_free o →
  Forall (λ s, free_of (ascii_of_nat 31) s = true)
    [eo_Claim o; eo_Source o; eo_Value o; rfc3339nano (eo_ObservedAt o)].
Proof.
  intros [Hf Hy]. apply Forall_app with (l1 := [_; _; _]). split.
  - eapply Forall_impl; [done|]. intros s Hs. by apply andb_true_iff in Hs as [? _].
  - repeat constructor. by apply free_of_rfc3339nano.
Qed.

Lemma canonical_observation_inj o o' :
  separator_free o → separator_free o' → canonical_observation o = canonical_observation o' → o = o'.
Proof.
  intros Ho Ho' H. apply join_inj in H; [|done|done|by apply canonical_observation_fields..].
  injection H as H1 H2 H3 H4. apply rfc3339nano_inj in H4; [|apply Ho|apply Ho'].
  destruct o, o'; simpl in *; congruence.
Qed.

Lemma canonical_observation_free o :
  separator_free o → free_of (ascii_of_nat 30) (canonical_observation o) = true.
Proof.
  intros [Hf Hy]. apply Forall_cons in Hf as [[_ H1]%andb_true_iff Hf].
  apply Forall_cons in Hf as [[_ H2]%andb_true_iff Hf]. apply Forall_cons in Hf as [[_ H3]%andb_true_iff _].
  pose proof (free_of_rfc3339nano (ascii_of_nat 30) _ Hy ltac:(done)) as H4.
  unfold canonical_observation, join, unit_separator. by rewrite !free_of_app, H1, H2, H3, H4.
Qed.

Lemma canonical_observation_nonempty o : canonical_observation o ≠ "".
Proof. unfold canonical_observation. simpl. by destruct (eo_Claim o). Qed.

Lemma map_inj_on {A B} (f : A → B) (P : A → Prop) l k :
  (∀ x y, P x → P y → f x = f y → x = y) → Forall P l → Forall P k → map f l = map f k → l = k.
Proof.
  intros Hf Hl. revert k; induction Hl as [|x l Hx Hl IH]; intros k Hk H.
  - by destruct k.
  - destruct Hk as [|y k Hy Hk]; [done|]. simpl in H. injection H as H1 H2. f_equal; auto.
Qed.

Lemma join_records_inj l k :
  Forall separator_free l → Forall separator_free k →
  join record_separator (sort_strings (map canonical_observation l))
    = join record_separator (sort_strings (map canonical_observation k)) → l ≡ₚ k.
Proof.
  intros Hl Hk H.
  assert (Hfree : ∀ l, Forall separator_free l → Forall (λ s, free_of (ascii_of_nat 30) s = true)
    (sort_strings (map canonical_observation l))).
  { clear. intros l Hl. apply Forall_forall. intros s Hs.
    rewrite elem_of_sort_strings in Hs. apply list_elem_of_fmap in Hs as (o & -> & Ho). rewrite Forall_forall in Hl.
    by apply canonical_observation_free, Hl. }
  assert (Hempty : ∀ l, l ≠ [] → sort_strings (map canonical_observation l) ≠ []
    ∧ join record_separator (sort_strings (map canonical_observation l)) ≠ "").
  { clear. intros l Hl. destruct (sort_strings _) as [|s ss] eqn:E.
    - pose proof (sort_strings_perm (map canonical_observation l)) as Hp. rewrite E in Hp.
      apply Permutation_nil in Hp. by destruct l.
    - split; [done|]. assert (Hs : s ∈ sort_strings (map canonical_observation l)) by (rewrite E; by constructor).
      rewrite elem_of_sort_strings in Hs. apply list_elem_of_fmap in Hs as (o & -> & _).
      pose proof (canonical_observation_nonempty o). destruct ss; cbn [join]; [done|].
      by destruct (canonical_observation o). }
  assert (Hsort : sort_strings (map canonical_observation l) = sort_strings (map canonical_observation k)).
  { destruct l as [|x l], k as [|y k].
    - done.
    - destruct (Hempty (y :: k)) as [_ Hn]; [done|]. by rewrite <- H in Hn.
    - destruct (Hempty (x :: l)) as [_ Hn]; [done|]. by rewrite H in Hn.
    - apply join_inj in H; [done|by apply Hempty|by apply Hempty|by apply Hfree|by apply Hfree]. }
  assert (Hp : map canonical_observation l ≡ₚ map canonical_observation k).
  { rewrite <- (sort_strings_perm (map _ l)), Hsort. apply sort_strings_perm. }
  apply Permutation_map_inv in Hp as (l3 & Heq & Hp3). rewrite Hp3.
  assert (l = l3) as ->; [|done].
  eapply map_inj_on; [|exact Hl| |exact Heq]; [by apply canonical_observation_inj|].
  by rewrite <- Hp3.
Qed.

(** The evidence digest binds the evidence: it ignores the order of the observations, and two
    sets of observations with the same digest are permutations of each other,
    unless a field holds one of the two separator bytes or SHA-256 collides. *)
Theorem evidence_digest_binds l k :
  (l ≡ₚ k → DigestEvidence l = DigestEvidence k) ∧
  (Forall separator_free l → Forall separator_free k → DigestEvidence l = DigestEvidence k →
   l ≡ₚ k ∨ ∃ a b, sha256_collision a b).
Proof.
  split; [apply DigestEvidence_perm|]. intros Hl Hk [H|H]%sha256_digest_eq; [left|by eauto].
  by apply join_records_inj.
Qed.

(** Fields that hold the unit separator are not told apart. *)
Definition ambiguous (claim source value : string) : EvidenceObservation :=
  {| eo_Claim := claim; eo_Source := source; eo_Value := value; eo_ObservedAt := 0%Z |}.

Lemma evidence_digest_ambiguous :
  let a := ambiguous ("ready" +:+ unit_separator +:+ "kubelet") "probe" "true" in
  let b := ambiguous "ready" ("kubelet" +:+ unit_separator +:+ "probe") "true" in
  a ≠ b ∧ DigestEvidence [a] = DigestEvidence [b].
Proof. split; [done|]. vm_compute. reflexivity. Qed.

(** * Witnesses

    The bound runtime is the example instance of EASL. *)

#[local] Existing Instance toy_EASL.

Definition sample_registry : registry := Some ("genesis", "genesis").
Definition minute : Z := (60 * 10 ^ 9)%Z.
Definition sample_now : time := (days_of_civil (2026, 9, 23) * day_ns)%Z.

Definition observe (source value : string) (t : time) : EvidenceObservation :=
  {| eo_Claim := "node.ready"; eo_Source := source; eo_Value := value; eo_ObservedAt := t |}.

Definition sample_request (evidence : list EvidenceObservation) : Request := {|
  rq_ActionID := "a1"; rq_Action := "drain"; rq_Target := "node/1"; rq_ResourceVersion := "7";
  rq_RequestedAt := sample_now; rq_AuthorizationTTL := minute; rq_MaxEvidenceAge := minute;
  rq_RequiredSourceCount := 2; rq_BlastRadius := 1; rq_MaxBlastRadius := 3;
  rq_Evidence := evidence; rq_EpistemicSnapshot := None |}.

Definition sample_evidence : list EvidenceObservation :=
  [observe "api" "true" sample_now; observe "prom" "true" (sample_now - minute)%Z].

(** A probe that always answers [o], and one that is not READ_ONLY. *)
Definition sample_probe (class : ProbeSafetyClass) (o : EvidenceObservation) : option (EvidenceProbe unit) :=
  Some {| pb_Name w := ("probe", w); pb_SafetyClass w := (class, w); pb_Supports _ _ w := (true, w);
          pb_Acquire _ w := (Ok {| po_Evidence := [o]; po_ResourceVersion := "" |}, w) |}.
Definition sample_probes : list (option (EvidenceProbe unit)) :=
  [None; sample_probe (OtherSafetyClass "WRITES") (observe "x" "true" sample_now);
   sample_probe ProbeReadOnly (observe "api" "true" sample_now);
   sample_probe ProbeReadOnly (observe "prom" "true" sample_now)].

Definition sample_resolution :=
  ResolveUnknown sample_registry (λ w, (None, w)) (sample_request [observe "api" "true" sample_now])
    sample_probes 3 tt.
Definition sample_reconciliation :=
  ReconcileContradiction sample_registry (λ w, (None, w))
    (sample_request [observe "api" "true" sample_now; observe "prom" "false" sample_now])
    sample_probes 3 tt.

Lemma sample_resolution_eq :
  ResolveUnknown sample_registry (λ w, (None, w)) (sample_request [observe "api" "true" sample_now])
    sample_probes 3 tt = (sample_resolution.1.1, sample_resolution.1.2, sample_resolution.2).
Proof. vm_compute. reflexivity. Qed.

Lemma sample_reconciliation_eq :
  ReconcileContradiction sample_registry (λ w, (None, w))
    (sample_request [observe "api" "true" sample_now; observe "prom" "false" sample_now])
    sample_probes 3 tt = (sample_reconciliation.1.1, sample_reconciliation.1.2, sample_reconciliation.2).
Proof. vm_compute. reflexivity. Qed.

Example evaluate_order_irrelevant_witness :
  rs_Decision (Evaluate sample_registry (sample_request sample_evidence)) = Allow ∧
  Evaluate sample_registry (sample_request (reverse sample_evidence))
    = Evaluate sample_registry (sample_request sample_evidence).
Proof.
  split; [vm_compute; reflexivity|].
  exact (evaluate_order_irrelevant sample_registry (sample_request sample_evidence) (reverse sample_evidence)
    (symmetry (reverse_Permutation sample_evidence))).
Defined.

Example resolve_unknown_is_bounded_witness :
  acquisitions sample_resolution.2 = [2; 3] ∧
  rs_Decision (ar_Final sample_resolution.1.1) = Allow ∧ NoDup (acquisitions sample_resolution.2).
Proof.
  split; [vm_compute; reflexivity|]. split; [vm_compute; reflexivity|].
  pose proof (resolve_unknown_is_bounded _ _ _ _ _ _ _ _ _ sample_resolution_eq) as (_ & H & _). exact H.
Defined.

Example reconcile_uses_fresh_evidence_witness :
  rs_Decision (ar_Final sample_reconciliation.1.1) = Allow ∧ NoDup (acquisitions sample_reconciliation.2).
Proof.
  split; [vm_compute; reflexivity|].
  pose proof (reconcile_uses_fresh_evidence _ _ _ _ _ _ _ _ _ sample_reconciliation_eq) as (_ & _ & H & _).
  exact H.
Defined.

(** The example runtime satisfies the law of state bindings. *)
Lemma toy_state_binding_law : state_binding_law sample_registry.
Proof.
  intros at_ bindings a _. eexists. split; [reflexivity|]. intros id. simpl. rewrite app_nil_r, app_nil_r.
  split.
  - intros (i & Hi & _ & _ & <-). apply list_elem_of_fmap in Hi as (b & -> & Hb).
    apply list_elem_of_In, filter_In in Hb as [Hb Hne]. exists b. split_bool.
    split_and!; [by apply list_elem_of_In|done|done].
  - intros (b & Hb & <- & Hne).
    exists {| iv_AssumptionID := a; iv_Reason := ReasonSubjectStateChanged; iv_StateBindingID := sb_ID b |}.
    split_and!; try done. apply list_elem_of_fmap. exists b. split; [done|].
    apply list_elem_of_In, filter_In. split; [by apply list_elem_of_In|].
    rewrite andb_true_iff, negb_true_iff, str_eqb_neq. split; [|done].
    apply existsb_exists. exists (sb_ID b). split; [|apply str_eqb_refl].
    apply in_map. by apply list_elem_of_In.
Qed.

Definition sample_attempt (version : string) : ExecutionAttempt := {|
  xa_ActionID := "a1"; xa_Action := "drain"; xa_Target := "node/1"; xa_ResourceVersion := version;
  xa_PlanDigest := ""; xa_Now := (sample_now + 5)%Z |}.

Example validate_authorization_exact_witness :
  av_ReasonCodes (ValidateAuthorization sample_registry (mint (sample_request sample_evidence))
    (sample_attempt "8")) = [ResourceVersionChanged] ∧
  av_Valid (ValidateAuthorization sample_registry (mint (sample_request sample_evidence))
    (sample_attempt "7")) = true.
Proof.
  split; [vm_compute; reflexivity|].
  apply (proj1 (validate_authorization_exact sample_registry (mint (sample_request sample_evidence))
    (sample_attempt "7")) toy_state_binding_law).
  split_and!; try reflexivity; (discriminate || vm_compute; congruence).
Defined.

Lemma sample_evidence_separator_free : Forall separator_free sample_evidence.
Proof.
  unfold separator_free, four_digit_year. repeat constructor; vm_compute; congruence.
Qed.

Example evidence_digest_binds_witness :
  DigestEvidence sample_evidence = DigestEvidence sample_evidence ∧
  (sample_evidence ≡ₚ sample_evidence ∨ ∃ a b, sha256_collision a b).
Proof.
  split; [reflexivity|].
  exact (proj2 (evidence_digest_binds _ _) sample_evidence_separator_free sample_evidence_separator_free eq_refl).
Defined.
