(* ===== verification/Epistemic.v ===== *)
(** The assumption tracker (src/internal/epistemic/tracker.go): assumptions with
    their resource and assumption dependencies, the two reverse indexes, and the
    propagation of an invalidating resource event through the dependency graph.

    Every method holds the tracker's mutex from its first to its last line, so
    each is one atomic step on the state [Tracker]. *)

From S2P Require Import Prelude.

Inductive AssumptionStatus : Type :=
  | AssumptionSupported | AssumptionInvalidated | OtherStatus (s : string).

#[export] Instance AssumptionStatus_eq_dec : EqDecision AssumptionStatus.
Proof. solve_decision. Defined.

Definition CauseResourceVersionChanged : string := "RESOURCE_VERSION_CHANGED".
Definition CauseResourceDeleted : string := "RESOURCE_DELETED".
Definition CauseResourceUIDChanged : string := "RESOURCE_UID_CHANGED".
Definition CauseUpstreamAssumptionInvalidated : string := "UPSTREAM_ASSUMPTION_INVALIDATED".

Record ResourceRef : Type := {
  rr_APIVersion : string;
  rr_Kind : string;
  rr_Namespace : string;
  rr_Name : string;
  rr_UID : string;
  rr_ResourceVersion : string;
}.

Definition Key (r : ResourceRef) : string :=
  rr_APIVersion r +:+ "/" +:+ rr_Kind r +:+ "/" +:+ rr_Namespace r +:+ "/" +:+ rr_Name r.

Record Invalidation : Type := {
  in_Cause : string;
  in_DependencyKey : string;
  in_RootDependencyKey : string;
  in_UpstreamAssumptionID : string;
  in_OldResourceVersion : string;
  in_NewResourceVersion : string;
  in_EventType : string;
}.

Record Assumption : Type := {
  as_ID : string;
  as_Statement : string;
  as_Status : AssumptionStatus;
  as_Dependencies : list ResourceRef;
  as_AssumptionDependencies : list string;
  as_EvaluatedAt : time;
  as_InvalidatedAt : option time;
  as_Invalidation : option Invalidation;
}.

Record ResourceEvent : Type := { re_Type : string; re_Resource : ResourceRef; re_At : time }.

Record Result : Type := { rs_Assumption : Assumption; rs_Changed : bool }.

Abbreviation index := (gmap string (gset string)).
Abbreviation assumption_map := (gmap string Assumption).

Record Tracker : Type := {
  tk_assumptions : assumption_map;
  tk_reverseResources : index;
  tk_reverseAssumptions : index;
}.

Definition NewTracker : Tracker :=
  {| tk_assumptions := ∅; tk_reverseResources := ∅; tk_reverseAssumptions := ∅ |}.

(** Indexing a Go map yields the zero value at an absent key. *)
Definition zero_Assumption : Assumption := {|
  as_ID := ""; as_Statement := ""; as_Status := OtherStatus ""; as_Dependencies := [];
  as_AssumptionDependencies := []; as_EvaluatedAt := 0%Z; as_InvalidatedAt := None;
  as_Invalidation := None |}.
Definition at_id (m : assumption_map) (id : string) : Assumption := default zero_Assumption (m !! id).
Definition at_key (m : index) (key : string) : gset string := default ∅ (m !! key).

Definition addReverseEdge (m : index) (key assumptionID : string) : index :=
  <[key := {[assumptionID]} ∪ at_key m key]> m.

Definition removeReverseEdge (m : index) (key assumptionID : string) : index :=
  let ids := at_key m key ∖ {[assumptionID]} in
  if decide (ids = ∅) then delete key m else <[key := ids]> m.

Definition sortedIDs (ids : gset string) : list string := sort_strings (elements ids).

Definition add_edges (id : string) (keys : list string) (m : index) : index :=
  foldl (λ m key, addReverseEdge m key id) m keys.
Definition remove_edges (id : string) (keys : list string) (m : index) : index :=
  foldl (λ m key, removeReverseEdge m key id) m keys.

Definition PutAssumption (a : Assumption) (t : Tracker) : Tracker :=
  let '(resources, assumptions) :=
    match tk_assumptions t !! as_ID a with
    | Some previous =>
      (remove_edges (as_ID a) (map Key (as_Dependencies previous)) (tk_reverseResources t),
       remove_edges (as_ID a) (as_AssumptionDependencies previous) (tk_reverseAssumptions t))
    | None => (tk_reverseResources t, tk_reverseAssumptions t)
    end in
  {| tk_assumptions := <[as_ID a := a]> (tk_assumptions t);
     tk_reverseResources := add_edges (as_ID a) (map Key (as_Dependencies a)) resources;
     tk_reverseAssumptions := add_edges (as_ID a) (as_AssumptionDependencies a) assumptions |}.

Definition GetAssumption (id : string) (t : Tracker) : Assumption * bool :=
  match tk_assumptions t !! id with
  | Some a => (a, true)
  | None => (zero_Assumption, false)
  end.

Definition invalidateAssumption (a : Assumption) (at_ : time) (i : Invalidation) : Assumption := {|
  as_ID := as_ID a; as_Statement := as_Statement a; as_Status := AssumptionInvalidated;
  as_Dependencies := as_Dependencies a; as_AssumptionDependencies := as_AssumptionDependencies a;
  as_EvaluatedAt := as_EvaluatedAt a; as_InvalidatedAt := Some at_; as_Invalidation := Some i |}.

Definition matchingDependency (dependencies : list ResourceRef) (key : string) : option ResourceRef :=
  List.find (λ dep, str_eqb (Key dep) key) dependencies.

Definition resourceInvalidationCause (dep : ResourceRef) (event : ResourceEvent) : string :=
  if str_eqb (re_Type event) "DELETED" then CauseResourceDeleted
  else if negb (str_eqb (rr_UID dep) "") && negb (str_eqb (rr_UID (re_Resource event)) "")
       && negb (str_eqb (rr_UID dep) (rr_UID (re_Resource event))) then CauseResourceUIDChanged
  else if negb (str_eqb (rr_ResourceVersion dep) (rr_ResourceVersion (re_Resource event)))
  then CauseResourceVersionChanged
  else "".

Definition is_invalidated (a : Assumption) : bool := bool_decide (as_Status a = AssumptionInvalidated).

(** The variables of [Handle]: the assumption map, [results] and [queue]. *)
Record wave : Type := { wv_assumptions : assumption_map; wv_results : list Result; wv_queue : list string }.

Definition note (a : Assumption) (w : wave) : wave := {|
  wv_assumptions := wv_assumptions w;
  wv_results := wv_results w ++ [{| rs_Assumption := a; rs_Changed := false |}];
  wv_queue := wv_queue w |}.

Definition strike (id : string) (a : Assumption) (w : wave) : wave := {|
  wv_assumptions := <[id := a]> (wv_assumptions w);
  wv_results := wv_results w ++ [{| rs_Assumption := a; rs_Changed := true |}];
  wv_queue := wv_queue w ++ [id] |}.

Section Handle.
Context (event : ResourceEvent).
Let rootKey := Key (re_Resource event).

(** The invalidation of an assumption by the event itself. *)
Definition direct_invalidation (dep : ResourceRef) (cause : string) : Invalidation := {|
  in_Cause := cause; in_DependencyKey := Key dep; in_RootDependencyKey := rootKey;
  in_UpstreamAssumptionID := ""; in_OldResourceVersion := rr_ResourceVersion dep;
  in_NewResourceVersion := rr_ResourceVersion (re_Resource event); in_EventType := re_Type event |}.

Definition handle_direct (w : wave) (id : string) : wave :=
  let a := at_id (wv_assumptions w) id in
  if is_invalidated a then note a w
  else match matchingDependency (as_Dependencies a) rootKey with
  | None => w
  | Some dep =>
    let cause := resourceInvalidationCause dep event in
    if str_eqb cause "" then note a w
    else strike id (invalidateAssumption a (re_At event) (direct_invalidation dep cause)) w
  end.

(** The invalidation of a dependent of [upstream]. *)
Definition upstream_invalidation (upstream : string) (root : option Invalidation) : Invalidation :=
  let or_else s d := if negb (str_eqb s "") then s else d in
  {| in_Cause := CauseUpstreamAssumptionInvalidated;
     in_DependencyKey := "assumption/" +:+ upstream;
     in_RootDependencyKey :=
       match root with Some i => or_else (in_RootDependencyKey i) rootKey | None => rootKey end;
     in_UpstreamAssumptionID := upstream;
     in_OldResourceVersion := match root with Some i => in_OldResourceVersion i | None => "" end;
     in_NewResourceVersion := match root with Some i => in_NewResourceVersion i | None => "" end;
     in_EventType :=
       match root with Some i => or_else (in_EventType i) (re_Type event) | None => re_Type event end |}.

Definition handle_dependent (upstream : string) (w : wave) (id : string) : wave :=
  let a := at_id (wv_assumptions w) id in
  if is_invalidated a then w
  else strike id (invalidateAssumption a (re_At event)
         (upstream_invalidation upstream (as_Invalidation (at_id (wv_assumptions w) upstream)))) w.

(** The loop over the queue, one iteration per unit of fuel. *)
Fixpoint propagate (reverse : index) (fuel : nat) (w : wave) : option wave :=
  match wv_queue w with
  | [] => Some w
  | upstream :: queue =>
    match fuel with
    | O => None
    | S fuel =>
      propagate reverse fuel
        (foldl (handle_dependent upstream)
           {| wv_assumptions := wv_assumptions w; wv_results := wv_results w; wv_queue := queue |}
           (sortedIDs (at_key reverse upstream)))
    end
  end.

Definition handle_directs (t : Tracker) : wave :=
  foldl handle_direct {| wv_assumptions := tk_assumptions t; wv_results := []; wv_queue := [] |}
    (sortedIDs (at_key (tk_reverseResources t) rootKey)).

(** Every assumption is queued at most once, so the number of assumptions is
    enough fuel ([handle_terminates]). *)
Definition Handle (t : Tracker) : option (Tracker * list Result) :=
  w ← propagate (tk_reverseAssumptions t) (size (tk_assumptions t)) (handle_directs t);
  Some ({| tk_assumptions := wv_assumptions w; tk_reverseResources := tk_reverseResources t;
           tk_reverseAssumptions := tk_reverseAssumptions t |}, wv_results w).
End Handle.

(** * The reverse indexes *)

Definition no_empty_entry (m : index) : Prop := ∀ key ids, m !! key = Some ids → ids ≠ ∅.

Lemma elem_of_add m key id key' id' :
  id' ∈ at_key (addReverseEdge m key id) key' ↔ id' ∈ at_key m key' ∨ (key' = key ∧ id' = id).
Proof.
  unfold addReverseEdge, at_key at 1. destruct (decide (key' = key)) as [->|Hk].
  - rewrite lookup_insert_eq. simpl. set_solver.
  - rewrite lookup_insert_ne by done. fold (at_key m key'). naive_solver.
Qed.

Lemma elem_of_remove m key id key' id' :
  id' ∈ at_key (removeReverseEdge m key id) key' ↔ id' ∈ at_key m key' ∧ ¬ (key' = key ∧ id' = id).
Proof.
  unfold removeReverseEdge. destruct (decide (key' = key)) as [->|Hk].
  - case_decide as He.
    + unfold at_key at 1. rewrite lookup_delete_eq. simpl. set_solver.
    + unfold at_key at 1. rewrite lookup_insert_eq. simpl. set_solver.
  - assert (Hne : at_key (if decide (at_key m key ∖ {[id]} = ∅) then delete key m
        else <[key:=at_key m key ∖ {[id]}]> m) key' = at_key m key').
    { case_decide; unfold at_key; [by rewrite lookup_delete_ne|by rewrite lookup_insert_ne]. }
    rewrite Hne. naive_solver.
Qed.

Lemma elem_of_add_edges id keys m key' id' :
  id' ∈ at_key (add_edges id keys m) key' ↔ id' ∈ at_key m key' ∨ (key' ∈ keys ∧ id' = id).
Proof.
  unfold add_edges. revert m; induction keys as [|k keys IH]; intros m; simpl; [set_solver|].
  rewrite IH, elem_of_add. set_solver.
Qed.

Lemma elem_of_remove_edges id keys m key' id' :
  id' ∈ at_key (remove_edges id keys m) key' ↔ id' ∈ at_key m key' ∧ ¬ (key' ∈ keys ∧ id' = id).
Proof.
  unfold remove_edges. revert m; induction keys as [|k keys IH]; intros m; simpl; [set_solver|].
  rewrite IH, elem_of_remove. set_solver.
Qed.

Lemma no_empty_add_edges id keys m : no_empty_entry m → no_empty_entry (add_edges id keys m).
Proof.
  unfold add_edges. revert m; induction keys as [|k keys IH]; intros m Hm; simpl; [done|].
  apply IH. unfold addReverseEdge. intros key ids [[<- <-]|[_ ?]]%lookup_insert_Some; [set_solver|by eapply Hm].
Qed.

Lemma no_empty_remove_edges id keys m : no_empty_entry m → no_empty_entry (remove_edges id keys m).
Proof.
  unfold remove_edges. revert m; induction keys as [|k keys IH]; intros m Hm; simpl; [done|].
  apply IH. unfold removeReverseEdge. intros key ids. case_decide.
  - intros [_ ?]%lookup_delete_Some. by eapply Hm.
  - intros [[<- <-]|[_ ?]]%lookup_insert_Some; [done|by eapply Hm].
Qed.

(** [m] is the reverse of the edges [keys_of] of the assumptions, without dead
    entries. *)
Definition reverses (m : index) (assumptions : assumption_map) (keys_of : Assumption → list string) : Prop :=
  (∀ key id, id ∈ at_key m key ↔ ∃ a, assumptions !! id = Some a ∧ key ∈ keys_of a) ∧ no_empty_entry m.

Definition resource_keys (a : Assumption) : list string := map Key (as_Dependencies a).

Record tracker_ok (t : Tracker) : Prop := {
  ok_ids : ∀ id a, tk_assumptions t !! id = Some a → as_ID a = id;
  ok_resources : reverses (tk_reverseResources t) (tk_assumptions t) resource_keys;
  ok_assumptions : reverses (tk_reverseAssumptions t) (tk_assumptions t) as_AssumptionDependencies;
}.

Lemma reverses_put m assumptions keys_of a :
  reverses m assumptions keys_of →
  reverses (add_edges (as_ID a) (keys_of a)
      (match assumptions !! as_ID a with Some p => remove_edges (as_ID a) (keys_of p) m | None => m end))
    (<[as_ID a := a]> assumptions) keys_of.
Proof.
  intros [Hm He]. split.
  - intros key id. rewrite elem_of_add_edges. destruct (decide (id = as_ID a)) as [->|Hid].
    + rewrite lookup_insert_eq. destruct (assumptions !! as_ID a) as [p|] eqn:Hp.
      * rewrite elem_of_remove_edges, Hm, Hp. naive_solver.
      * rewrite Hm, Hp. naive_solver.
    + rewrite lookup_insert_ne by done. destruct (assumptions !! as_ID a);
        rewrite ?elem_of_remove_edges, Hm; naive_solver.
  - apply no_empty_add_edges. case_match; [by apply no_empty_remove_edges|done].
Qed.

Lemma new_tracker_ok : tracker_ok NewTracker.
Proof.
  split; simpl.
  - by intros id a ?.
  - split; [|by intros ?? ?]. intros key id. unfold at_key. rewrite !lookup_empty. simpl. set_solver.
  - split; [|by intros ?? ?]. intros key id. unfold at_key. rewrite !lookup_empty. simpl. set_solver.
Qed.

Lemma put_tracker_ok a t : tracker_ok t → tracker_ok (PutAssumption a t).
Proof.
  intros [Hi Hr Ha]. pose proof (reverses_put _ _ _ a Hr) as Hr'. pose proof (reverses_put _ _ _ a Ha) as Ha'.
  unfold PutAssumption. destruct (tk_assumptions t !! as_ID a) as [p|] eqn:Hp; simpl; (split; simpl; [|done|done]);
    intros id b [[<- <-]|[_ ?]]%lookup_insert_Some; eauto.
Qed.

(** * Propagation *)

Lemma elem_of_sortedIDs id s : id ∈ sortedIDs s ↔ id ∈ s.
Proof. unfold sortedIDs. by rewrite elem_of_sort_strings, elem_of_elements. Qed.

Lemma NoDup_sortedIDs s : NoDup (sortedIDs s).
Proof. unfold sortedIDs. rewrite sort_strings_perm. apply NoDup_elements. Qed.

Definition down (m : assumption_map) (id : string) : bool := is_invalidated (at_id m id).

Definition changed_ids (l : list Result) : list string :=
  omap (λ r, if rs_Changed r then Some (as_ID (rs_Assumption r)) else None) l.

Lemma changed_ids_app l k : changed_ids (l ++ k) = changed_ids l ++ changed_ids k.
Proof. apply omap_app. Qed.

Section Propagation.
Context (event : ResourceEvent) (t : Tracker) (Hok : tracker_ok t).
Let m0 := tk_assumptions t.
Let rootKey := Key (re_Resource event).

(** The assumptions the event brings down: those it invalidates directly, and
    the standing dependents of an assumption that falls. *)
Inductive falls : string → Prop :=
  | falls_direct id a dep :
      m0 !! id = Some a → is_invalidated a = false → rootKey ∈ resource_keys a →
      matchingDependency (as_Dependencies a) rootKey = Some dep →
      resourceInvalidationCause dep event ≠ "" → falls id
  | falls_upstream u id a :
      falls u → m0 !! id = Some a → is_invalidated a = false →
      u ∈ as_AssumptionDependencies a → falls id.

(** The invalidation recorded on a fallen assumption names its cause. *)
Definition explained (id : string) (a : Assumption) : Prop :=
  ∃ a0 i, m0 !! id = Some a0 ∧ a = invalidateAssumption a0 (re_At event) i ∧
    ((∃ dep, matchingDependency (as_Dependencies a0) rootKey = Some dep ∧
        resourceInvalidationCause dep event ≠ "" ∧
        i = direct_invalidation event dep (resourceInvalidationCause dep event)) ∨
     (in_Cause i = CauseUpstreamAssumptionInvalidated ∧ falls (in_UpstreamAssumptionID i) ∧
      in_UpstreamAssumptionID i ∈ as_AssumptionDependencies a0)).

(** The state of [Handle] when the ids [visited] have left the queue and the
    dependents of [closed] have been dealt with. *)
Record wave_ok (closed visited : list string) (w : wave) : Prop := {
  wok_struck : changed_ids (wv_results w) = visited ++ wv_queue w;
  wok_once : NoDup (visited ++ wv_queue w);
  wok_fallen : ∀ id, id ∈ visited ++ wv_queue w →
    falls id ∧ ∃ a, wv_assumptions w !! id = Some a ∧ explained id a;
  wok_other : ∀ id, id ∉ visited ++ wv_queue w → wv_assumptions w !! id = m0 !! id;
  wok_closed : ∀ u id a, u ∈ closed → m0 !! id = Some a → u ∈ as_AssumptionDependencies a →
    is_invalidated a = false → id ∈ visited ++ wv_queue w;
}.

Lemma falls_standing id : falls id → ∃ a, m0 !! id = Some a ∧ is_invalidated a = false.
Proof. destruct 1; eauto. Qed.

Lemma explained_down id a : explained id a → is_invalidated a = true.
Proof. intros (a0 & i & _ & -> & _). done. Qed.

Lemma explained_id id a : explained id a → as_ID a = id.
Proof. intros (a0 & i & Ha & -> & _). simpl. by eapply (ok_ids t Hok). Qed.

(** What the map holds at [id]: a standing assumption is the original one. *)
Lemma wave_lookup closed visited w id a :
  wave_ok closed visited w → m0 !! id = Some a →
  (id ∈ (visited ++ wv_queue w) ∧ is_invalidated (at_id (wv_assumptions w) id) = true) ∨
  (id ∉ (visited ++ wv_queue w) ∧ at_id (wv_assumptions w) id = a).
Proof.
  intros Hw Ha. destruct (decide (id ∈ visited ++ wv_queue w)) as [Hin|Hin].
  - left. split; [done|]. destruct (wok_fallen _ _ _ Hw _ Hin) as (_ & b & Hb & Hx).
    unfold at_id. rewrite Hb. by eapply explained_down.
  - right. split; [done|]. unfold at_id. by rewrite (wok_other _ _ _ Hw _ Hin), Ha.
Qed.

Lemma wave_ok_note closed visited w a : wave_ok closed visited w → wave_ok closed visited (note a w).
Proof. intros []. split; try done. simpl. rewrite changed_ids_app. simpl. by rewrite app_nil_r. Qed.

Lemma wave_ok_strike closed visited w id a :
  wave_ok closed visited w → id ∉ visited ++ wv_queue w → falls id → explained id a →
  wave_ok closed visited (strike id a w).
Proof.
  intros [Hs Ho Hf Hot Hc] Hid Hfall Hx. split; simpl; rewrite ?app_assoc.
  - rewrite changed_ids_app, Hs. simpl. by rewrite (explained_id id).
  - apply NoDup_app. split_and!; [done| |apply NoDup_singleton]. set_solver.
  - intros id' [Hin|Hs'%list_elem_of_singleton]%elem_of_app; [|subst id'].
    + destruct (Hf _ Hin) as (? & b & Hb & ?). split; [done|]. exists b. split; [|done].
      rewrite lookup_insert_ne; [done|]. by intros ->.
    + split; [done|]. exists a. by rewrite lookup_insert_eq.
  - intros id' Hin. rewrite lookup_insert_ne by set_solver. apply Hot. set_solver.
  - intros u id' a' Hu Ha' Hd Hi. apply elem_of_app. left. by eapply Hc.
Qed.

(** The direct phase. *)
Definition direct_ok (seen : list string) (w : wave) : Prop :=
  wave_ok [] [] w ∧ (∀ id, id ∈ wv_queue w → id ∈ seen) ∧
  ∀ id a dep, id ∈ seen → m0 !! id = Some a → is_invalidated a = false →
    matchingDependency (as_Dependencies a) rootKey = Some dep →
    resourceInvalidationCause dep event ≠ "" → id ∈ wv_queue w.

Lemma handle_direct_ok seen w id :
  direct_ok seen w → id ∉ seen → id ∈ at_key (tk_reverseResources t) rootKey →
  direct_ok (seen ++ [id]) (handle_direct event w id).
Proof.
  intros (Hw & Hq & Hall) Hnew Hid. apply (proj1 (ok_resources t Hok)) in Hid as (a & Ha & Hk).
  change (m0 !! id = Some a) in Ha.
  destruct (wave_lookup _ _ _ _ _ Hw Ha) as [[Hin _]|[Hnin Hat]]; [by apply Hq in Hin|].
  unfold handle_direct. rewrite Hat. fold rootKey.
  assert (Hstay : ∀ w', wv_queue w' = wv_queue w → wave_ok [] [] w' →
    (is_invalidated a = false → ∀ dep, matchingDependency (as_Dependencies a) rootKey = Some dep →
       resourceInvalidationCause dep event = "") → direct_ok (seen ++ [id]) w').
  { intros w' Hq' Hw' Hno. split; [done|]. rewrite Hq'. split; [set_solver|].
    intros id' a' dep [Hin|Hs'%list_elem_of_singleton]%elem_of_app Ha' Hi Hd Hc; [by eapply Hall|subst id'].
    assert (a' = a) as -> by congruence. by destruct Hc; apply Hno. }
  destruct (is_invalidated a) eqn:Hi; [apply Hstay; [done|by apply wave_ok_note|done]|].
  destruct (matchingDependency _ _) as [dep|] eqn:Hd; [|by apply Hstay].
  destruct (str_eqb _ "") eqn:Hc; split_bool.
  { apply Hstay; [done|by apply wave_ok_note|]. intros _ dep' [= <-]. done. }
  split; [|split].
  - apply wave_ok_strike; [done|done|by eapply falls_direct|].
    exists a, (direct_invalidation event dep (resourceInvalidationCause dep event)).
    split_and!; [done|done|]. left. eauto.
  - simpl. set_solver.
  - simpl. intros id' a' dep' [Hin|Hs'%list_elem_of_singleton]%elem_of_app Ha' Hi' Hd' Hc';
      apply elem_of_app; [left; by eapply Hall|right; subst; by constructor].
Qed.

Lemma handle_directs_fold ids seen w :
  direct_ok seen w → NoDup (seen ++ ids) →
  (∀ id, id ∈ ids → id ∈ at_key (tk_reverseResources t) rootKey) →
  direct_ok (seen ++ ids) (foldl (handle_direct event) w ids).
Proof.
  revert seen w; induction ids as [|id ids IH]; intros seen w Hd Hnd Hin; simpl.
  { by rewrite app_nil_r. }
  rewrite cons_middle, app_assoc. apply IH; [|by rewrite <- app_assoc|set_solver].
  apply handle_direct_ok; [done| |set_solver].
  apply NoDup_app in Hnd as (_ & Hnd & _). intros Hs. by apply (Hnd id); [|constructor].
Qed.

Lemma handle_directs_ok :
  direct_ok (sortedIDs (at_key (tk_reverseResources t) rootKey)) (handle_directs event t).
Proof.
  unfold handle_directs. apply (handle_directs_fold (sortedIDs (at_key (tk_reverseResources t) rootKey)) []); [|apply NoDup_sortedIDs|].
  - split; [split; simpl|split]; try (by intros; set_solver); try done. constructor.
  - intros id. by rewrite elem_of_sortedIDs.
Qed.

(** The dependents of one queued assumption: [wave_ok] of everything but the
    closure of [upstream], which holds for the dependents already seen. *)
Lemma handle_dependent_ok closed visited upstream w id :
  wave_ok closed visited w → upstream ∈ visited ++ wv_queue w →
  id ∈ at_key (tk_reverseAssumptions t) upstream →
  let w' := handle_dependent event upstream w id in
  wave_ok closed visited w' ∧ (∀ id', id' ∈ visited ++ wv_queue w → id' ∈ visited ++ wv_queue w') ∧
  (∀ a, m0 !! id = Some a → is_invalidated a = false → id ∈ visited ++ wv_queue w').
Proof.
  intros Hw Hup Hid w'. subst w'. unfold handle_dependent.
  apply (proj1 (ok_assumptions t Hok)) in Hid as (a & Ha & Hk). change (m0 !! id = Some a) in Ha.
  destruct (wave_lookup _ _ _ _ _ Hw Ha) as [[Hin Hd]|[Hnin Hat]].
  - rewrite Hd. split_and!; [done|done|]. done.
  - rewrite Hat. destruct (is_invalidated a) eqn:Hi.
    + split_and!; [done|done|]. intros a' Ha'. assert (a' = a) as -> by congruence. congruence.
    + split_and!.
      * destruct (wok_fallen _ _ _ Hw _ Hup) as [Hf _].
        apply wave_ok_strike; [done|done|by eapply falls_upstream|].
        eexists a, _. split_and!; [done|done|]. right. by split_and!.
      * simpl. set_solver.
      * intros _ _ _. simpl. set_solver.
Qed.

Lemma handle_dependents_ok closed visited upstream ids w :
  wave_ok closed visited w → upstream ∈ visited ++ wv_queue w →
  (∀ id, id ∈ ids → id ∈ at_key (tk_reverseAssumptions t) upstream) →
  let w' := foldl (handle_dependent event upstream) w ids in
  wave_ok closed visited w' ∧ (∀ id', id' ∈ visited ++ wv_queue w → id' ∈ visited ++ wv_queue w') ∧
  (∀ id a, id ∈ ids → m0 !! id = Some a → is_invalidated a = false → id ∈ visited ++ wv_queue w').
Proof.
  revert w; induction ids as [|id ids IH]; intros w Hw Hup Hin; simpl.
  { split_and!; [done|done|]. by intros id a ?%elem_of_nil. }
  destruct (handle_dependent_ok _ _ _ _ _ Hw Hup (Hin id ltac:(by constructor))) as (Hw1 & Hm1 & Hi1).
  destruct (IH (handle_dependent event upstream w id)) as (Hw2 & Hm2 & Hi2); [done|by apply Hm1|set_solver|].
  split_and!; [done|auto|]. intros id' a [->|Hid']%elem_of_cons Ha Hi; [by eapply Hm2, Hi1|by eapply Hi2].
Qed.

(** At most as many assumptions fall as there are. *)
Lemma fallen_bound closed visited w :
  wave_ok closed visited w → length (visited ++ wv_queue w) ≤ size m0.
Proof.
  intros Hw. rewrite <- size_dom.
  rewrite <- (size_list_to_set (C := gset string) (visited ++ wv_queue w)) by apply Hw.
  apply subseteq_size. intros id Hid%elem_of_list_to_set.
  destruct (wok_fallen _ _ _ Hw _ Hid) as [(a & Ha & _)%falls_standing _]. by apply elem_of_dom.
Qed.

(** One iteration: the head of the queue is visited and its dependents fall. *)
Lemma iteration_ok visited m res u queue :
  wave_ok visited visited {| wv_assumptions := m; wv_results := res; wv_queue := u :: queue |} →
  let w' := foldl (handle_dependent event u)
    {| wv_assumptions := m; wv_results := res; wv_queue := queue |}
    (sortedIDs (at_key (tk_reverseAssumptions t) u)) in
  wave_ok (visited ++ [u]) (visited ++ [u]) w' ∧
  ∀ id, id ∈ visited ++ u :: queue → id ∈ (visited ++ [u]) ++ wv_queue w'.
Proof.
  intros [Hs Ho Hf Hot Hc]. simpl in *.
  assert (Heq : visited ++ u :: queue = (visited ++ [u]) ++ queue) by (by rewrite <- app_assoc).
  rewrite Heq in Hs, Ho, Hf, Hot, Hc.
  destruct (handle_dependents_ok visited (visited ++ [u]) u (sortedIDs (at_key (tk_reverseAssumptions t) u))
    {| wv_assumptions := m; wv_results := res; wv_queue := queue |}) as ([Hs2 Ho2 Hf2 Hot2 Hc2] & Hm2 & Hi2);
    [by split|set_solver|intros id; by rewrite elem_of_sortedIDs|].
  split; [|intros id; rewrite Heq; apply Hm2].
  split; try done. intros v id a [Hv|Hv%list_elem_of_singleton]%elem_of_app Ha Hd Hi; [by eapply Hc2|subst v].
  eapply Hi2; [|done|done]. rewrite elem_of_sortedIDs. apply (proj1 (ok_assumptions t Hok)). eauto.
Qed.

Lemma propagate_ok fuel visited w :
  wave_ok visited visited w → size m0 ≤ fuel + length visited →
  ∃ visited' w', propagate event (tk_reverseAssumptions t) fuel w = Some w' ∧
    wv_queue w' = [] ∧ wave_ok visited' visited' w' ∧
    ∀ id, id ∈ visited ++ wv_queue w → id ∈ visited'.
Proof.
  revert visited w; induction fuel as [|fuel IH]; intros visited [m res [|u queue]] Hw Hfuel;
    cbn [propagate wv_queue].
  1,3: exists visited; eexists; split_and!; [done|done|done|]; intros id; by rewrite app_nil_r.
  { pose proof (fallen_bound _ _ _ Hw) as Hb. rewrite length_app in Hb. simpl in Hb. lia. }
  destruct (iteration_ok _ _ _ _ _ Hw) as [Hw2 Hm2].
  destruct (IH _ _ Hw2) as (visited' & w' & Hp & Hq & Hw' & Hsub); [rewrite length_app; simpl; lia|].
  exists visited', w'. split_and!; [done|done|done|]. auto.
Qed.

Lemma handle_run :
  ∃ w, propagate event (tk_reverseAssumptions t) (size (tk_assumptions t)) (handle_directs event t) = Some w ∧
    wv_queue w = [] ∧ ∃ fallen, wave_ok fallen fallen w ∧ ∀ id, id ∈ fallen ↔ falls id.
Proof.
  destruct handle_directs_ok as (Hw & _ & Hall).
  destruct (propagate_ok (size m0) [] (handle_directs event t) Hw) as (fallen & w & Hp & Hq & Hw' & Hsub);
    [simpl; lia|].
  exists w. split_and!; [done|done|]. exists fallen. split; [done|]. intros id. split.
  - intros Hid. apply (wok_fallen _ _ _ Hw'). set_solver.
  - induction 1 as [id a dep Ha Hi Hk Hd Hc|u id a Hu IH Ha Hi Hd].
    + apply Hsub. simpl. eapply Hall; [|done..]. rewrite elem_of_sortedIDs.
      apply (proj1 (ok_resources t Hok)). eauto.
    + pose proof (wok_closed _ _ _ Hw' _ _ _ IH Ha Hd Hi) as Hin. by rewrite Hq, app_nil_r in Hin.
Qed.
End Propagation.

Lemma reverses_same m assumptions assumptions' keys_of :
  reverses m assumptions keys_of →
  (∀ id, keys_of <$> assumptions' !! id = keys_of <$> assumptions !! id) → reverses m assumptions' keys_of.
Proof.
  intros [Hm He] Hsame. split; [|done]. intros key id. rewrite Hm. specialize (Hsame id).
  destruct (assumptions !! id), (assumptions' !! id); simplify_eq/=; naive_solver congruence.
Qed.

(** the reverse indexes are exact: they mirror the dependencies of the stored
    assumptions, with no dead entry, from the empty tracker on and after every
    [PutAssumption], replacement of an assumption included. *)
Theorem put_keeps_indexes_exact a t :
  tracker_ok NewTracker ∧ (tracker_ok t → tracker_ok (PutAssumption a t)).
Proof. split; [apply new_tracker_ok|apply put_tracker_ok]. Qed.

(** C34: an event brings down exactly what depends on it.  [Handle] terminates; it
    invalidates each assumption that [falls] once, with the invalidation that
    explains it, and reports each exactly once as changed; it leaves every
    other assumption as it was, and keeps the indexes exact. *)
Theorem handle_brings_down_exactly event t :
  tracker_ok t →
  ∃ t' results, Handle event t = Some (t', results) ∧ tracker_ok t' ∧
    NoDup (changed_ids results) ∧
    (∀ id, id ∈ changed_ids results ↔ falls event t id) ∧
    (∀ id, falls event t id →
       ∃ a, tk_assumptions t' !! id = Some a ∧ explained event t id a) ∧
    (∀ id, ¬ falls event t id → tk_assumptions t' !! id = tk_assumptions t !! id).
Proof.
  intros Hok. destruct (handle_run event t Hok) as (w & Hp & Hq & fallen & Hw & Hf).
  unfold Handle. rewrite Hp. simpl. eexists _, _. split; [done|].
  destruct Hw as [Hs Ho Hfa Hot _]. rewrite Hq, app_nil_r in *.
  assert (Hsame : ∀ {A} (f : Assumption → A), (∀ a at_ i, f (invalidateAssumption a at_ i) = f a) →
    ∀ id, f <$> wv_assumptions w !! id = f <$> tk_assumptions t !! id).
  { intros A f Hinv id. destruct (decide (id ∈ fallen)) as [Hin|Hin]; [|by rewrite Hot].
    destruct (Hfa _ Hin) as (_ & a & -> & a0 & i & -> & -> & _). simpl. by rewrite Hinv. }
  destruct Hok as [Hi Hr Ha]. split_and!.
  - split; simpl.
    + intros id a Hid. pose proof (Hsame _ as_ID ltac:(done) id) as Hx. rewrite Hid in Hx.
      destruct (tk_assumptions t !! id) as [b|] eqn:Hb; [|done]. injection Hx as ->. by apply Hi.
    + eapply reverses_same; [done|]. by apply Hsame.
    + eapply reverses_same; [done|]. by apply Hsame.
  - by rewrite Hs.
  - intros id. rewrite Hs. apply Hf.
  - intros id Hid. simpl. by apply Hfa, Hf.
  - intros id Hid. simpl. apply Hot. by rewrite Hf.
Qed.

(** * Witnesses *)

Definition sample_resource (version : string) : ResourceRef := {|
  rr_APIVersion := "v1"; rr_Kind := "Node"; rr_Namespace := ""; rr_Name := "n1";
  rr_UID := "u1"; rr_ResourceVersion := version |}.
Definition sample_assumption (id : string) (resources : list ResourceRef) (upstream : list string) : Assumption := {|
  as_ID := id; as_Statement := "s"; as_Status := AssumptionSupported; as_Dependencies := resources;
  as_AssumptionDependencies := upstream; as_EvaluatedAt := 1%Z; as_InvalidatedAt := None;
  as_Invalidation := None |}.

(** [B] and [C] depend on each other and on [A]; [D] stands apart. *)
Definition sample_tracker : Tracker :=
  foldr PutAssumption NewTracker
    [sample_assumption "A" [sample_resource "7"] []; sample_assumption "B" [] ["A"; "C"];
     sample_assumption "C" [] ["B"]; sample_assumption "D" [] []].
Definition sample_event : ResourceEvent :=
  {| re_Type := "MODIFIED"; re_Resource := sample_resource "8"; re_At := 5%Z |}.

Lemma sample_tracker_ok : tracker_ok sample_tracker.
Proof. do 4 apply put_tracker_ok. apply new_tracker_ok. Qed.

Example put_keeps_indexes_exact_witness :
  tracker_ok sample_tracker ∧ tracker_ok (PutAssumption (sample_assumption "B" [] []) sample_tracker).
Proof.
  split; [exact sample_tracker_ok|].
  exact (proj2 (put_keeps_indexes_exact (sample_assumption "B" [] []) sample_tracker) sample_tracker_ok).
Defined.

Example handle_brings_down_exactly_witness :
  (changed_ids ∘ snd <$> Handle sample_event sample_tracker) = Some ["A"; "B"; "C"] ∧
  ∃ t' results, Handle sample_event sample_tracker = Some (t', results) ∧ tracker_ok t'.
Proof.
  split; [vm_compute; reflexivity|].
  destruct (handle_brings_down_exactly sample_event sample_tracker sample_tracker_ok)
    as (t' & results & H1 & H2 & _). exists t', results. split; assumption.
Defined.
