(* ===== verification/Temporal.v ===== *)
(** Temporal validity of assumptions (src/internal/epistemic/temporal.go) and the
    gate that puts it before the decision kernel
    (src/internal/assurance/temporal_gate.go). *)

From S2P Require Import Prelude Easl Decision Epistemic.

Local Open Scope Z_scope.

(** A string type: [OtherSensitivity] is any other string. *)
Inductive ActionSensitivity : Type :=
  | SensitivityLow | SensitivityMedium | SensitivityHigh | SensitivityCritical
  | OtherSensitivity (s : string).

Inductive TemporalValidity : Type :=
  ValidityValid | ValidityExpired | ValidityInvalidated | ValidityUnknown.

#[export] Instance TemporalValidity_eq_dec : EqDecision TemporalValidity.
Proof. solve_decision. Defined.

Definition TemporalReasonWithinWindow : string := "WITHIN_VALIDITY_WINDOW".
Definition TemporalReasonAgeExceeded : string := "ASSUMPTION_AGE_EXCEEDED".
Definition TemporalReasonEventInvalidated : string := "EVENT_INVALIDATED".
Definition TemporalReasonMissingTimestamp : string := "MISSING_EVALUATED_AT".
Definition TemporalReasonClockSkew : string := "CLOCK_SKEW".
Definition TemporalReasonUndefinedPolicy : string := "UNDEFINED_TEMPORAL_POLICY".
Definition TemporalReasonEpistemicEvaluationError : string := "EPISTEMIC_EVALUATION_ERROR".

Record TemporalPolicy : Type := {
  tp_LowMaxAge : duration;
  tp_MediumMaxAge : duration;
  tp_HighMaxAge : duration;
  tp_CriticalMaxAge : duration;
}.

Definition MaxAgeFor (p : TemporalPolicy) (sensitivity : ActionSensitivity) : duration :=
  match sensitivity with
  | SensitivityLow => tp_LowMaxAge p
  | SensitivityMedium => tp_MediumMaxAge p
  | SensitivityHigh => tp_HighMaxAge p
  | SensitivityCritical => tp_CriticalMaxAge p
  | OtherSensitivity _ => 0
  end.

Record TemporalAssessment : Type := {
  ta_Validity : TemporalValidity;
  ta_Reason : string;
  ta_Sensitivity : ActionSensitivity;
  ta_Age : duration;
  ta_MaxAge : duration;
  ta_Assumption : string;
}.

Record FixedTTLAssessment : Type := {
  ft_Valid : bool;
  ft_Age : duration;
  ft_MaxAge : duration;
  ft_Reason : string;
}.

Record TemporalGateResult : Type := {
  tg_Decision : Decision.Result;
  tg_Assessment : TemporalAssessment;
}.

Section Temporal.
Context `{EASL} (r : registry).

Definition assumptionExpiredByEASL (assumptionID : string) (evaluatedAt now : time) (maxAge : duration)
    : result bool :=
  let validUntil := Add evaluatedAt maxAge in
  match Easl.Evaluate r (make_Snapshot now []
          [{| ea_ID := assumptionID; ea_RequiresStateBindings := []; ea_ValidUntil := Some validUntil |}]) with
  | Error err => Error err
  | Ok evaluation =>
    Ok (existsb (λ i, str_eqb (iv_AssumptionID i) assumptionID
                      && bool_decide (iv_Reason i = ReasonAssumptionExpired))
         (ev_Invalidations evaluation))
  end.

Definition AssessTemporalValidity (assumption : Assumption) (now : time)
    (sensitivity : ActionSensitivity) (policy : TemporalPolicy) : TemporalAssessment :=
  let assessed v reason age maxAge := {|
    ta_Validity := v; ta_Reason := reason; ta_Sensitivity := sensitivity; ta_Age := age;
    ta_MaxAge := maxAge; ta_Assumption := as_ID assumption |} in
  if is_invalidated assumption then assessed ValidityInvalidated TemporalReasonEventInvalidated 0 0
  else if IsZero (as_EvaluatedAt assumption)
  then assessed ValidityUnknown TemporalReasonMissingTimestamp 0 0
  else
  let maxAge := MaxAgeFor policy sensitivity in
  if maxAge <=? 0 then assessed ValidityUnknown TemporalReasonUndefinedPolicy 0 maxAge
  else
  let age := Sub now (as_EvaluatedAt assumption) in
  if age <? 0 then assessed ValidityUnknown TemporalReasonClockSkew age maxAge
  else match assumptionExpiredByEASL (as_ID assumption) (as_EvaluatedAt assumption) now maxAge with
  | Error _ => assessed ValidityUnknown TemporalReasonEpistemicEvaluationError age maxAge
  | Ok true => assessed ValidityExpired TemporalReasonAgeExceeded age maxAge
  | Ok false => assessed ValidityValid TemporalReasonWithinWindow age maxAge
  end.

Definition AssessFixedTTL (assumption : Assumption) (now : time) (maxAge : duration) : FixedTTLAssessment :=
  let assessed v age reason := {| ft_Valid := v; ft_Age := age; ft_MaxAge := maxAge; ft_Reason := reason |} in
  if is_invalidated assumption then assessed false 0 TemporalReasonEventInvalidated
  else if IsZero (as_EvaluatedAt assumption) || (maxAge <=? 0)
  then assessed false 0 TemporalReasonUndefinedPolicy
  else
  let age := Sub now (as_EvaluatedAt assumption) in
  if age <? 0 then assessed false age TemporalReasonClockSkew
  else match assumptionExpiredByEASL (as_ID assumption) (as_EvaluatedAt assumption) now maxAge with
  | Error _ => assessed false age TemporalReasonEpistemicEvaluationError
  | Ok true => assessed false age TemporalReasonAgeExceeded
  | Ok false => assessed true age TemporalReasonWithinWindow
  end.

Definition EvaluateWithTemporalAssumption (req : Request) (assumption : Assumption) (now : time)
    (sensitivity : ActionSensitivity) (policy : TemporalPolicy) : TemporalGateResult :=
  let assessment := AssessTemporalValidity assumption now sensitivity policy in
  {| tg_Decision :=
       match ta_Validity assessment with
       | ValidityValid => Decision.Evaluate r req
       | ValidityExpired => reason_result Block AssumptionExpired
       | ValidityInvalidated => reason_result Block Decision.AssumptionInvalidated
       | ValidityUnknown => reason_result Escalate AssumptionValidityUnknown
       end;
     tg_Assessment := assessment |}.

(** The documented meaning of [ValidUntil]: an assumption is reported expired
    after it, and is not before it; nothing is asked of the instant itself. *)
Definition expiry_law : Prop :=
  ∀ now id v, ∃ e,
    Easl.Evaluate r (make_Snapshot now []
      [{| ea_ID := id; ea_RequiresStateBindings := []; ea_ValidUntil := Some v |}]) = Ok e ∧
    let expired := ∃ i, i ∈ ev_Invalidations e ∧ iv_AssumptionID i = id ∧
                        iv_Reason i = ReasonAssumptionExpired in
    (v < now → expired) ∧ (now < v → ¬ expired).

Lemma Sub_negative t u : (Sub t u <? 0) = true ↔ t < u.
Proof. unfold Sub, clamp_i64, MinInt64, MaxInt64. rewrite Z.ltb_lt. lia. Qed.

Lemma assumptionExpired_spec id evaluatedAt now maxAge :
  expiry_law →
  ∃ b, assumptionExpiredByEASL id evaluatedAt now maxAge = Ok b ∧
    (evaluatedAt + maxAge < now → b = true) ∧ (now < evaluatedAt + maxAge → b = false).
Proof.
  intros Hlaw. unfold assumptionExpiredByEASL, Add.
  destruct (Hlaw now id (evaluatedAt + maxAge)) as (e & -> & Hafter & Hbefore).
  eexists. split; [done|]. split.
  - intros Hlt. apply existsb_exists. destruct (Hafter Hlt) as (i & Hi & Ha & Hr).
    exists i. split; [by apply list_elem_of_In|]. by rewrite Ha, Hr, str_eqb_refl.
  - intros Hlt. apply not_true_iff_false. intros (i & Hi & Hb)%existsb_exists. split_bool.
    apply (Hbefore Hlt). exists i. split; [by apply list_elem_of_In|done].
Qed.

(** The window of an assumption for a sensitivity. *)
Definition standing (assumption : Assumption) (maxAge : duration) : Prop :=
  as_Status assumption ≠ AssumptionInvalidated ∧ as_EvaluatedAt assumption ≠ 0 ∧ 0 < maxAge.

Lemma assessed_valid a now s p :
  expiry_law →
  (ta_Validity (AssessTemporalValidity a now s p) = ValidityValid →
     standing a (MaxAgeFor p s) ∧ as_EvaluatedAt a ≤ now ≤ as_EvaluatedAt a + MaxAgeFor p s) ∧
  (standing a (MaxAgeFor p s) ∧ as_EvaluatedAt a ≤ now < as_EvaluatedAt a + MaxAgeFor p s →
     ta_Validity (AssessTemporalValidity a now s p) = ValidityValid).
Proof.
  intros Hlaw. unfold AssessTemporalValidity, standing, is_invalidated, IsZero.
  case_bool_decide as Hi; [split; [done|naive_solver]|].
  destruct (Z.eqb_spec (as_EvaluatedAt a) 0); [split; [done|naive_solver]|].
  destruct (Z.leb_spec (MaxAgeFor p s) 0); [split; [done|intros ((_ & _ & ?) & _); lia]|].
  pose proof (Sub_negative now (as_EvaluatedAt a)) as Hneg.
  destruct (Sub now (as_EvaluatedAt a) <? 0).
  { pose proof (proj1 Hneg eq_refl). split; [done|]. intros [_ ?]. lia. }
  assert (as_EvaluatedAt a ≤ now) by (apply Z.nlt_ge; intros Hlt; by apply Hneg in Hlt).
  destruct (assumptionExpired_spec (as_ID a) (as_EvaluatedAt a) now (MaxAgeFor p s) Hlaw)
    as (b & -> & Hafter & Hbefore).
  destruct b; simpl.
  - split; [done|]. intros [_ [_ Hlt]]. by apply Hbefore in Hlt.
  - split; [|done]. intros _. split_and!; try done.
    apply Z.nlt_ge. intros Hlt. by apply Hafter in Hlt.
Qed.

(** only a currently justified assumption lets a request through.  The temporal gate answers
    ALLOW exactly when the assumption is assessed VALID and the decision kernel
    allows the request, and never mints an authorization otherwise; under the
    documented meaning of [ValidUntil], VALID means not invalidated, with a
    known evaluation time, a positive maximum age for this sensitivity, and a
    current time inside the window (never before it), and every such
    assumption strictly inside its window is VALID. *)
Theorem temporal_gate_is_exact req a now s p :
  let g := EvaluateWithTemporalAssumption req a now s p in
  (rs_Decision (tg_Decision g) = Allow ↔
     ta_Validity (tg_Assessment g) = ValidityValid ∧ rs_Decision (Decision.Evaluate r req) = Allow) ∧
  (ta_Validity (tg_Assessment g) ≠ ValidityValid → rs_Authorization (tg_Decision g) = None) ∧
  (expiry_law →
     (ta_Validity (tg_Assessment g) = ValidityValid →
        standing a (MaxAgeFor p s) ∧ as_EvaluatedAt a ≤ now ≤ as_EvaluatedAt a + MaxAgeFor p s) ∧
     (standing a (MaxAgeFor p s) ∧ as_EvaluatedAt a ≤ now < as_EvaluatedAt a + MaxAgeFor p s →
        ta_Validity (tg_Assessment g) = ValidityValid)).
Proof.
  unfold EvaluateWithTemporalAssumption. simpl. split_and!.
  - destruct (ta_Validity _); simpl; naive_solver.
  - destruct (ta_Validity _); simpl; naive_solver.
  - apply assessed_valid.
Qed.

(** the two assessments agree: for a request whose sensitivity has the maximum age [maxAge],
    the fixed-TTL baseline accepts an assumption exactly when the
    sensitivity-aware assessment finds it VALID. *)
Theorem fixed_ttl_agrees a now s p :
  ft_Valid (AssessFixedTTL a now (MaxAgeFor p s)) =
    bool_decide (ta_Validity (AssessTemporalValidity a now s p) = ValidityValid).
Proof.
  unfold AssessFixedTTL, AssessTemporalValidity.
  destruct (is_invalidated a); simpl; [done|]. destruct (IsZero (as_EvaluatedAt a)); simpl; [done|].
  destruct (MaxAgeFor p s <=? 0); simpl; [done|]. destruct (Sub _ _ <? 0); simpl; [done|].
  by destruct (assumptionExpiredByEASL _ _ _ _) as [[]|].
Qed.
End Temporal.

(** * Witnesses *)

#[local] Existing Instance toy_EASL.

Lemma toy_expiry_law : expiry_law sample_registry.
Proof.
  intros now id v. eexists. split; [reflexivity|]. simpl. rewrite app_nil_r. unfold After.
  destruct (Z.ltb_spec v now); split; intros; try lia.
  - eexists. split; [by left|done].
  - intros (i & Hi & _). by apply elem_of_nil in Hi.
Qed.

Definition sample_policy : TemporalPolicy := {|
  tp_LowMaxAge := 60 * 10 ^ 9; tp_MediumMaxAge := 30 * 10 ^ 9; tp_HighMaxAge := 10 * 10 ^ 9;
  tp_CriticalMaxAge := 5 * 10 ^ 9 |}.
Definition evaluated (t : time) : Assumption := {|
  as_ID := "A-HEALTH"; as_Statement := ""; as_Status := AssumptionSupported; as_Dependencies := [];
  as_AssumptionDependencies := []; as_EvaluatedAt := t; as_InvalidatedAt := None; as_Invalidation := None |}.

Example temporal_gate_is_exact_witness :
  ta_Validity (AssessTemporalValidity sample_registry (evaluated sample_now) (sample_now + 20 * 10 ^ 9)
    SensitivityCritical sample_policy) = ValidityExpired ∧
  ta_Validity (tg_Assessment (EvaluateWithTemporalAssumption sample_registry (sample_request sample_evidence)
    (evaluated sample_now) (sample_now + 20 * 10 ^ 9) SensitivityLow sample_policy)) = ValidityValid.
Proof.
  split; [vm_compute; reflexivity|].
  apply (proj2 (proj2 (temporal_gate_is_exact sample_registry (sample_request sample_evidence)
    (evaluated sample_now) (sample_now + 20 * 10 ^ 9) SensitivityLow sample_policy)) toy_expiry_law).
  unfold standing. split_and!; vm_compute; congruence.
Defined.
