(* ===== verification/Outcome.v ===== *)
(** Outcome comparison and the reliability ledger
    (src/internal/outcome/outcome.go).

    Maps of facts are finite maps; a nil map reads as an empty one.  The rates
    are binary64 numbers, computed by the specification floats of the standard
    library; the counters are Go ints that count records and are not wrapped. *)

From S2P Require Import Prelude.
From Stdlib Require Import SpecFloat.

Inductive Verdict : Type := Match | Diverged | Unknown | OtherVerdict (s : string).
Inductive ContributorKind : Type :=
  | ContributorSource | ContributorAssumption | OtherKind (s : string).
Inductive Attribution : Type :=
  | AttributionUnattributed | AttributionContributors | OtherAttribution (s : string).

#[export] Instance Verdict_eq_dec : EqDecision Verdict.
Proof. solve_decision. Defined.
#[export] Instance Attribution_eq_dec : EqDecision Attribution.
Proof. solve_decision. Defined.

Record Contributor : Type := { ct_Kind : ContributorKind; ct_ID : string }.

Definition kind_string (k : ContributorKind) : string :=
  match k with
  | ContributorSource => "SOURCE"
  | ContributorAssumption => "ASSUMPTION"
  | OtherKind s => s
  end.

Definition Key (c : Contributor) : string := kind_string (ct_Kind c) +:+ "/" +:+ ct_ID c.

Abbreviation facts := (gmap string string).

Record OutcomeRecord : Type := {
  oc_ActionID : string;
  oc_EvidenceDigest : string;
  oc_PlanDigest : string;
  oc_Expected : facts;
  oc_Observed : facts;
  oc_Verdict : Verdict;
  oc_Contributors : list Contributor;
  oc_Attribution : Attribution;
  oc_ObservedAt : time;
  oc_Detail : string;
}.

(** * Compare *)

(** The loop over the sorted keys of [expected]. *)
Fixpoint compare_keys (expected observed : facts) (keys : list string) : Verdict * string :=
  match keys with
  | [] => (Match, "")
  | key :: keys' =>
    let want := default "" (expected !! key) in
    match observed !! key with
    | None => (Unknown, "missing observed fact: " +:+ key)
    | Some got =>
      if negb (str_eqb got want)
      then (Diverged, "fact diverged: " +:+ key +:+ " expected=" +:+ want +:+ " observed=" +:+ got)
      else compare_keys expected observed keys'
    end
  end.

Definition sorted_keys (expected : facts) : list string :=
  sort_strings (map fst (map_to_list expected)).

Definition Compare (actionID evidenceDigest planDigest : string) (expected observed : facts)
    (contributors : list Contributor) (observedAt : time) : OutcomeRecord :=
  let '(verdict, detail) := compare_keys expected observed (sorted_keys expected) in
  {| oc_ActionID := actionID; oc_EvidenceDigest := evidenceDigest; oc_PlanDigest := planDigest;
     oc_Expected := expected; oc_Observed := observed; oc_Verdict := verdict;
     oc_Contributors := contributors; oc_Attribution := OtherAttribution "";
     oc_ObservedAt := observedAt; oc_Detail := detail |}.

(** * The ledger *)

Inductive AdvisoryStatus : Type :=
  AdvisoryInsufficientHistory | AdvisoryHealthy | AdvisoryDegraded.

Definition float64 : Type := spec_float.
Definition float_of_int (z : Z) : float64 := binary_normalize 53 1024 z 0 false.
Definition float_div (x y : float64) : float64 := SFdiv 53 1024 x y.
Definition float_sub (x y : float64) : float64 := SFsub 53 1024 x y.
Definition float_gt (x y : float64) : bool := SFltb y x.

Record AdvisoryPolicy : Type := { ap_MinResolvedSamples : Z; ap_MaxDivergenceRate : float64 }.

Record ReliabilitySnapshot : Type := {
  rb_Contributor : Contributor;
  rb_Matches : Z;
  rb_Divergences : Z;
  rb_Unknowns : Z;
  rb_Unattributed : Z;
  rb_ResolvedSamples : Z;
  rb_DivergenceRate : float64;
  rb_Reliability : float64;
  rb_Status : AdvisoryStatus;
}.

Record counters : Type := {
  cn_matches : Z; cn_divergences : Z; cn_unknowns : Z; cn_unattributed : Z }.
Definition zero_counters : counters :=
  {| cn_matches := 0; cn_divergences := 0; cn_unknowns := 0; cn_unattributed := 0 |}.

Record Ledger : Type := {
  lg_policy : AdvisoryPolicy;
  lg_records : list OutcomeRecord;
  lg_counts : gmap string counters;
  lg_refs : gmap string Contributor;
}.

Definition NewLedger (policy : AdvisoryPolicy) : Ledger :=
  {| lg_policy := policy; lg_records := []; lg_counts := ∅; lg_refs := ∅ |}.

Definition count_at (m : gmap string counters) (key : string) : counters :=
  default zero_counters (m !! key).

(** The increment of one contributor of a record. *)
Definition bump (record : OutcomeRecord) (c : counters) : counters :=
  let '(Build_counters m d u un) := c in
  if negb (bool_decide (oc_Attribution record = AttributionContributors))
  then {| cn_matches := m; cn_divergences := d; cn_unknowns := u; cn_unattributed := un + 1 |}
  else match oc_Verdict record with
  | Match => {| cn_matches := m + 1; cn_divergences := d; cn_unknowns := u; cn_unattributed := un |}
  | Diverged => {| cn_matches := m; cn_divergences := d + 1; cn_unknowns := u; cn_unattributed := un |}
  | _ => {| cn_matches := m; cn_divergences := d; cn_unknowns := u + 1; cn_unattributed := un |}
  end.

(** The loop over the contributors, with the [seen] set. *)
Fixpoint count_contributors (record : OutcomeRecord) (l : list Contributor) (seen : gset string)
    (counts : gmap string counters) (refs : gmap string Contributor)
    : gmap string counters * gmap string Contributor :=
  match l with
  | [] => (counts, refs)
  | contributor :: l' =>
    if str_eqb (ct_ID contributor) "" then count_contributors record l' seen counts refs
    else
      let key := Key contributor in
      if bool_decide (key ∈ seen) then count_contributors record l' seen counts refs
      else count_contributors record l' ({[key]} ∪ seen)
             (<[key := bump record (count_at counts key)]> counts) (<[key := contributor]> refs)
  end.

Definition Record_ (record : OutcomeRecord) (l : Ledger) : Ledger :=
  let '(counts, refs) :=
    count_contributors record (oc_Contributors record) ∅ (lg_counts l) (lg_refs l) in
  {| lg_policy := lg_policy l; lg_records := lg_records l ++ [record];
     lg_counts := counts; lg_refs := refs |}.

Definition Snapshot (contributor : Contributor) (l : Ledger) : ReliabilitySnapshot :=
  let count := count_at (lg_counts l) (Key contributor) in
  let resolved := (cn_matches count + cn_divergences count)%Z in
  let rate := if (0 <? resolved)%Z
    then float_div (float_of_int (cn_divergences count)) (float_of_int resolved)
    else float_of_int 0 in
  let reliability := if (0 <? resolved)%Z then float_sub (float_of_int 1) rate else float_of_int 0 in
  {| rb_Contributor := contributor; rb_Matches := cn_matches count;
     rb_Divergences := cn_divergences count; rb_Unknowns := cn_unknowns count;
     rb_Unattributed := cn_unattributed count; rb_ResolvedSamples := resolved;
     rb_DivergenceRate := rate; rb_Reliability := reliability;
     rb_Status :=
       if (ap_MinResolvedSamples (lg_policy l) <=? 0)%Z
          || (resolved <? ap_MinResolvedSamples (lg_policy l))%Z then AdvisoryInsufficientHistory
       else if float_gt rate (ap_MaxDivergenceRate (lg_policy l)) then AdvisoryDegraded
       else AdvisoryHealthy |}.

Definition Records (l : Ledger) : list OutcomeRecord := lg_records l.

(** * Facts about comparison *)

Definition agrees (observed : facts) (key want : string) : Prop := observed !! key = Some want.

Lemma compare_keys_spec expected observed keys :
  (∀ k, k ∈ keys → is_Some (expected !! k)) →
  match (compare_keys expected observed keys).1 with
  | Match => ∀ k v, k ∈ keys → expected !! k = Some v → agrees observed k v
  | Unknown => ∃ k pre post, keys = pre ++ k :: post ∧ observed !! k = None ∧
      ∀ k' v, k' ∈ pre → expected !! k' = Some v → agrees observed k' v
  | Diverged => ∃ k pre post want got, keys = pre ++ k :: post ∧ expected !! k = Some want ∧
      observed !! k = Some got ∧ got ≠ want ∧
      ∀ k' v, k' ∈ pre → expected !! k' = Some v → agrees observed k' v
  | OtherVerdict _ => False
  end.
Proof.
  induction keys as [|key keys IH]; intros Hin; cbn [compare_keys fst].
  { by intros k v ?%elem_of_nil. }
  destruct (Hin key) as [want Hwant]; [by constructor|]. rewrite Hwant. simpl.
  destruct (observed !! key) as [got|] eqn:Hgot.
  2:{ exists key, [], keys. split_and!; [done|done|]. by intros k' v ?%elem_of_nil. }
  destruct (str_eqb got want) eqn:Heq; split_bool; simpl.
  2:{ exists key, [], keys, want, got. split_and!; try done. by intros k' v ?%elem_of_nil. }
  subst got. specialize (IH ltac:(intros k Hk; apply Hin; by constructor)).
  assert (Hkey : ∀ v, expected !! key = Some v → agrees observed key v) by (unfold agrees; congruence).
  destruct (compare_keys expected observed keys).1.
  - intros k v [->|Hk]%elem_of_cons; auto.
  - destruct IH as (k & pre & post & w & g & -> & H1 & H2 & H3 & H4).
    exists k, (key :: pre), post, w, g. split_and!; try done. intros k' v [->|?]%elem_of_cons; auto.
  - destruct IH as (k & pre & post & -> & H1 & H2).
    exists k, (key :: pre), post. split_and!; try done. intros k' v [->|?]%elem_of_cons; auto.
  - done.
Qed.

Lemma elem_of_sorted_keys k m : k ∈ sorted_keys m ↔ is_Some (m !! k).
Proof.
  unfold sorted_keys. rewrite elem_of_sort_strings, list_elem_of_fmap. split.
  - intros ([k' v] & -> & Hv%elem_of_map_to_list). by exists v.
  - intros [v Hv]. exists (k, v). split; [done|]. by apply elem_of_map_to_list.
Qed.

Lemma Sorted_after {A} (R : A → A → Prop) `{!Transitive R} pre x post y :
  Sorted R (pre ++ x :: post) → y ∈ post → R x y.
Proof.
  intros Hs%Sorted_StronglySorted; [|done]. induction pre as [|z pre IH]; simpl in Hs;
    apply StronglySorted_inv in Hs as [Hs Hz]; [|by apply IH].
  rewrite Forall_forall in Hz. apply Hz.
Qed.

(** [k] is the first expected key that is not observed as expected. *)
Definition first_bad (expected observed : facts) (k : string) : Prop :=
  ∀ k' v, String.le k' k → k' ≠ k → expected !! k' = Some v → agrees observed k' v.

Lemma first_bad_intro expected observed k pre post :
  sorted_keys expected = pre ++ k :: post →
  (∀ k' v, k' ∈ pre → expected !! k' = Some v → agrees observed k' v) → first_bad expected observed k.
Proof.
  intros Heq Hpre k' v Hle Hne Hk'.
  assert (Hin : k' ∈ sorted_keys expected) by (rewrite elem_of_sorted_keys; eauto).
  pose proof (sort_strings_sorted (map fst (map_to_list expected))) as Hs. fold (sorted_keys expected) in Hs.
  rewrite Heq in Hin, Hs. apply elem_of_app in Hin as [Hin|[Hin|Hin]%elem_of_cons]; [exact (Hpre _ _ Hin Hk')|done|].
  destruct Hne. apply (anti_symm String.le); [done|]. by apply (Sorted_after String.le _ _ _ _ Hs).
Qed.

Lemma compare_match_iff expected observed :
  (compare_keys expected observed (sorted_keys expected)).1 = Match ↔ expected ⊆ observed.
Proof.
  pose proof (compare_keys_spec expected observed (sorted_keys expected)
    ltac:(intros k; by rewrite elem_of_sorted_keys)) as Hspec.
  rewrite map_subseteq_spec. destruct (compare_keys _ _ _).1; split; try done.
  - intros _ k v Hk. apply Hspec; [|done]. rewrite elem_of_sorted_keys. eauto.
  - intros Hsub. destruct Hspec as (k & _ & _ & want & got & _ & Hw & Hg & Hne & _).
    apply Hsub in Hw. congruence.
  - intros Hsub. destruct Hspec as (k & pre & post & Heq & Hn & _).
    assert (Hk : k ∈ sorted_keys expected) by (rewrite Heq; set_solver).
    rewrite elem_of_sorted_keys in Hk. destruct Hk as [v Hv]. apply Hsub in Hv. congruence.
Qed.

(** the verdict is decided by the facts.  MATCH means that every expected
    fact was observed with its expected value; UNKNOWN that the first expected
    key, in byte order, that does not match is missing; DIVERGED that it was
    observed with another value.  Facts that were not expected never matter,
    and the rest of the record is the input. *)
Theorem compare_verdict_exact a e p expected observed cs t :
  let r := Compare a e p expected observed cs t in
  (oc_Verdict r = Match ↔ expected ⊆ observed) ∧
  (oc_Verdict r = Unknown → ∃ k, is_Some (expected !! k) ∧ observed !! k = None ∧
     first_bad expected observed k) ∧
  (oc_Verdict r = Diverged → ∃ k want got, expected !! k = Some want ∧ observed !! k = Some got ∧
     got ≠ want ∧ first_bad expected observed k) ∧
  (oc_Expected r = expected ∧ oc_Observed r = observed ∧ oc_Contributors r = cs).
Proof.
  intros r.
  assert (Hr : oc_Verdict r = (compare_keys expected observed (sorted_keys expected)).1
    ∧ oc_Expected r = expected ∧ oc_Observed r = observed ∧ oc_Contributors r = cs).
  { unfold r, Compare. by destruct (compare_keys _ _ _). }
  destruct Hr as (-> & Hrest).
  pose proof (compare_keys_spec expected observed (sorted_keys expected)
    ltac:(intros k; by rewrite elem_of_sorted_keys)) as Hspec.
  split_and!; [apply compare_match_iff| | |apply Hrest..].
  - intros Hv. rewrite Hv in Hspec. destruct Hspec as (k & pre & post & Heq & Hn & Hpre).
    exists k. split_and!; [|done|by eapply first_bad_intro].
    rewrite <- elem_of_sorted_keys, Heq. set_solver.
  - intros Hv. rewrite Hv in Hspec. destruct Hspec as (k & pre & post & want & got & Heq & Hw & Hg & Hne & Hpre).
    exists k, want, got. split_and!; try done. by eapply first_bad_intro.
Qed.

(** * Facts about the ledger *)

Definition counts_of (m d u un : nat) : counters :=
  {| cn_matches := Z.of_nat m; cn_divergences := Z.of_nat d;
     cn_unknowns := Z.of_nat u; cn_unattributed := Z.of_nat un |}.

(** The record names the contributor [key], with a non-empty id. *)
Definition names (key : string) (r : OutcomeRecord) : bool :=
  existsb (λ c, negb (str_eqb (ct_ID c) "") && str_eqb (Key c) key) (oc_Contributors r).
Definition attributed (r : OutcomeRecord) : bool := bool_decide (oc_Attribution r = AttributionContributors).
Definition has_verdict (v : Verdict) (r : OutcomeRecord) : bool := bool_decide (oc_Verdict r = v).

(** The reference counts: how many records name the contributor, by kind. *)
Definition reference_counts (key : string) (rs : list OutcomeRecord) : counters :=
  counts_of
    (countb (λ r, names key r && attributed r && has_verdict Match r) rs)
    (countb (λ r, names key r && attributed r && has_verdict Diverged r) rs)
    (countb (λ r, names key r && attributed r && negb (has_verdict Match r) && negb (has_verdict Diverged r)) rs)
    (countb (λ r, names key r && negb (attributed r)) rs).

Lemma reference_counts_snoc key rs r :
  reference_counts key (rs ++ [r]) =
    if names key r then bump r (reference_counts key rs) else reference_counts key rs.
Proof.
  unfold reference_counts, counts_of, bump, attributed, has_verdict. rewrite !countb_app. simpl.
  destruct (names key r); simpl; rewrite ?Nat.add_0_r; [|done].
  destruct (bool_decide (oc_Attribution r = AttributionContributors)); simpl; rewrite ?Nat.add_0_r.
  - destruct (oc_Verdict r); simpl; rewrite ?Nat.add_0_r; f_equal; lia.
  - f_equal; lia.
Qed.

Lemma count_contributors_spec record l seen counts refs key :
  count_at (count_contributors record l seen counts refs).1 key =
    if existsb (λ c, negb (str_eqb (ct_ID c) "") && str_eqb (Key c) key) l
       && negb (bool_decide (key ∈ seen))
    then bump record (count_at counts key) else count_at counts key.
Proof.
  revert seen counts refs; induction l as [|c l IH]; intros seen counts refs; [done|].
  cbn [count_contributors existsb]. destruct (str_eqb (ct_ID c) "") eqn:Hid; cbn [negb andb orb].
  { apply IH. }
  destruct (str_eqb (Key c) key) eqn:Hk; split_bool; cbn [orb andb].
  - subst key. case_bool_decide as Hs; simpl.
    + rewrite IH, bool_decide_true by done. by rewrite andb_false_r.
    + rewrite IH, bool_decide_true by set_solver. rewrite andb_false_r.
      unfold count_at at 1. by rewrite lookup_insert_eq.
  - case_bool_decide as Hs; simpl; rewrite IH.
    + done.
    + replace (count_at (<[Key c:=bump record (count_at counts (Key c))]> counts) key)
        with (count_at counts key) by (unfold count_at; by rewrite lookup_insert_ne).
      replace (bool_decide (key ∈ {[Key c]} ∪ seen)) with (bool_decide (key ∈ seen)); [done|].
      apply bool_decide_ext. set_solver.
Qed.

(** The ledger counts each record once per contributor.  After any sequence
    of records, the counters of a contributor are the numbers of records that
    name it with an attributed MATCH, an attributed DIVERGED, any other
    attributed verdict, and no attribution, however often a record lists it;
    the status is advisory only when the policy's minimum of resolved samples
    is positive and reached, and unattributed or unknown outcomes never count
    towards it. *)
Theorem ledger_counts_exactly policy rs c :
  let l := foldl (λ l r, Record_ r l) (NewLedger policy) rs in
  let s := Snapshot c l in
  let ref := reference_counts (Key c) rs in
  Records l = rs ∧
  rb_Matches s = cn_matches ref ∧ rb_Divergences s = cn_divergences ref ∧
  rb_Unknowns s = cn_unknowns ref ∧ rb_Unattributed s = cn_unattributed ref ∧
  rb_ResolvedSamples s = (cn_matches ref + cn_divergences ref)%Z ∧
  (rb_Status s ≠ AdvisoryInsufficientHistory ↔
     (0 < ap_MinResolvedSamples policy ≤ rb_ResolvedSamples s)%Z).
Proof.
  intros l s ref.
  assert (Hl : lg_records l = rs ∧ lg_policy l = policy ∧ count_at (lg_counts l) (Key c) = ref).
  { unfold l, ref. clear. induction rs as [|r rs IH] using rev_ind; [done|].
    destruct IH as (H1 & H2 & H3). rewrite foldl_app. simpl. set (l := foldl _ _ rs) in *.
    unfold Record_. pose proof (count_contributors_spec r (oc_Contributors r) ∅ (lg_counts l) (lg_refs l) (Key c)) as Hc.
    destruct (count_contributors _ _ _ _ _) as [counts refs]. simpl in *. split_and!; [congruence|done|].
    rewrite Hc, reference_counts_snoc, bool_decide_false by set_solver. simpl. by rewrite andb_true_r, H3. }
  destruct Hl as (H1 & H2 & H3). unfold s, Snapshot, Records. rewrite H3, H2. clear H3. clearbody ref. simpl.
  split_and!; try done.
  destruct (Z.leb_spec (ap_MinResolvedSamples policy) 0); simpl; [split; [intros Hx; by destruct Hx|lia]|].
  destruct (Z.ltb_spec (cn_matches ref + cn_divergences ref) (ap_MinResolvedSamples policy)); simpl;
    [split; [intros Hx; by destruct Hx|lia]|]. split; [lia|]. intros _. by destruct (float_gt _ _).
Qed.
