(* ===== verification/Evidence.v ===== *)
(** Evidence composition (src/internal/ege/evidence_composition.go and the policy
    side of src/internal/server/ege_evidence_composition.go): the pairwise
    independence assessment of declared evidence sources and the search for the
    largest set of pairwise independent sources. *)

From S2P Require Import Prelude Format.

(** * Data (permit.go) *)

(** String types; the last constructor is any other string, the zero value
    [""] included. *)
Inductive EvidenceDeclarationAssurance : Type :=
  | EvidenceDeclarationUnknown
  | EvidenceDeclarationAsserted
  | EvidenceDeclarationCorroborated
  | OtherAssurance (s : string).

Inductive EvidenceIndependenceStatus : Type :=
  | EvidenceIndependenceUnknown
  | EvidenceIndependenceDependent
  | EvidenceIndependenceAsserted
  | EvidenceIndependenceCorroborated
  | OtherIndependence (s : string).

#[export] Instance EvidenceDeclarationAssurance_eq_dec : EqDecision EvidenceDeclarationAssurance.
Proof. solve_decision. Defined.
#[export] Instance EvidenceIndependenceStatus_eq_dec : EqDecision EvidenceIndependenceStatus.
Proof. solve_decision. Defined.

Record EvidenceDependency : Type := { dp_Kind : string; dp_ID : string; dp_Material : bool }.

Record EvidenceSourceDeclaration : Type := {
  dc_ProducerID : string;
  dc_Subject : string;
  dc_ObservationPath : string;
  dc_DependencyCoverage : list string;
  dc_Dependencies : list EvidenceDependency;
  dc_Assurance : EvidenceDeclarationAssurance;
  dc_CorroborationRefs : list string;
}.

Record EvidenceSource : Type := {
  es_Name : string;
  es_TrustDomain : string;
  es_Digest : string;
  es_ObservedAt : time;
  es_Classes : list string;
  es_Declaration : option EvidenceSourceDeclaration;
}.

Record EvidencePairAssessment : Type := {
  pr_LeftSource : string;
  pr_RightSource : string;
  pr_Status : EvidenceIndependenceStatus;
  pr_SharedDependencies : list EvidenceDependency;
  pr_ReasonCodes : list string;
}.

Record EvidenceCompositionAssessment : Type := {
  ca_ProfileVersion : string;
  ca_RequiredIndependence : EvidenceIndependenceStatus;
  ca_IndependentSourceCount : Z;
  ca_OverallIndependence : EvidenceIndependenceStatus;
  ca_PairAssessments : list EvidencePairAssessment;
}.

Record EvidenceIndependenceRequirement : Type := {
  eq_RequiredIndependence : EvidenceIndependenceStatus;
  eq_MinIndependentSources : Z;
  eq_RequiredDependencyKinds : list string;
}.

Definition EvidenceCompositionProfileVersion : string := "aegis.ege/evidence-composition/v1".

(** * Pairs *)

Definition nul : string := String (ascii_of_nat 0) "".

Definition dependency_key (d : EvidenceDependency) : string := dp_Kind d +:+ nul +:+ dp_ID d.

Definition dependency_le (a b : EvidenceDependency) : Prop :=
  if decide (dp_Kind a = dp_Kind b) then String.le (dp_ID a) (dp_ID b)
  else String.le (dp_Kind a) (dp_Kind b).
#[export] Instance dependency_le_dec : RelDecision dependency_le.
Proof. intros a b. unfold dependency_le. case_decide; apply _. Defined.

(** The loop over [left]: material dependencies whose key is in [rightSet],
    each key once. *)
Fixpoint shared_loop (rightSet : gset string) (left : list EvidenceDependency) (seen : gset string)
    : list EvidenceDependency :=
  match left with
  | [] => []
  | d :: left' =>
    if negb (dp_Material d) then shared_loop rightSet left' seen
    else if negb (bool_decide (dependency_key d ∈ rightSet)) then shared_loop rightSet left' seen
    else if bool_decide (dependency_key d ∈ seen) then shared_loop rightSet left' seen
    else d :: shared_loop rightSet left' ({[dependency_key d]} ∪ seen)
  end.

Definition material_keys (l : list EvidenceDependency) : gset string :=
  list_to_set (map dependency_key (List.filter dp_Material l)).

Definition sharedMaterialDependencies (left right : list EvidenceDependency) : list EvidenceDependency :=
  merge_sort dependency_le (shared_loop (material_keys right) left ∅).

Definition declarationCovers (declaration : option EvidenceSourceDeclaration)
    (requiredDependencyKinds : list string) : bool :=
  match declaration with
  | None => false
  | Some d =>
    negb (blank (dc_ProducerID d) || blank (dc_Subject d) || blank (dc_ObservationPath d))
    && forallb (λ kind, existsb (str_eqb kind) (dc_DependencyCoverage d)) requiredDependencyKinds
  end.

Definition assessEvidencePair (left right : EvidenceSource) (requiredDependencyKinds : list string)
    : EvidencePairAssessment :=
  let assessed status shared reasons := {|
    pr_LeftSource := es_Name left; pr_RightSource := es_Name right; pr_Status := status;
    pr_SharedDependencies := shared; pr_ReasonCodes := reasons |} in
  match es_Declaration left, es_Declaration right with
  | Some l, Some r =>
    if negb (str_eqb (dc_Subject l) (dc_Subject r))
    then assessed EvidenceIndependenceUnknown [] ["SUBJECT_MISMATCH"]
    else if negb (declarationCovers (Some l) requiredDependencyKinds)
         || negb (declarationCovers (Some r) requiredDependencyKinds)
    then assessed EvidenceIndependenceUnknown [] ["DEPENDENCY_COVERAGE_UNKNOWN"]
    else if str_eqb (dc_ProducerID l) (dc_ProducerID r)
    then assessed EvidenceIndependenceDependent [] ["SHARED_PRODUCER"]
    else if str_eqb (dc_ObservationPath l) (dc_ObservationPath r)
    then assessed EvidenceIndependenceDependent [] ["SHARED_OBSERVATION_PATH"]
    else
    let shared := sharedMaterialDependencies (dc_Dependencies l) (dc_Dependencies r) in
    if (0 <? length shared)%nat
    then assessed EvidenceIndependenceDependent shared ["SHARED_MATERIAL_DEPENDENCY"]
    else if bool_decide (dc_Assurance l = EvidenceDeclarationUnknown)
         || bool_decide (dc_Assurance r = EvidenceDeclarationUnknown)
    then assessed EvidenceIndependenceUnknown [] ["DECLARATION_ASSURANCE_UNKNOWN"]
    else if bool_decide (dc_Assurance l = EvidenceDeclarationCorroborated)
         && bool_decide (dc_Assurance r = EvidenceDeclarationCorroborated)
    then assessed EvidenceIndependenceCorroborated [] []
    else assessed EvidenceIndependenceAsserted [] []
  | _, _ => assessed EvidenceIndependenceUnknown [] ["MISSING_DECLARATION"]
  end.

(** The pairs [(i, j)] with [i < j], in the order of the nested loops. *)
Fixpoint ordered_pairs {A} (l : list A) : list (A * A) :=
  match l with
  | [] => []
  | x :: l' => map (pair x) l' ++ ordered_pairs l'
  end.

Definition pair_assessments (sources : list EvidenceSource) (kinds : list string)
    : list EvidencePairAssessment :=
  map (λ p, assessEvidencePair p.1 p.2 kinds) (ordered_pairs sources).

(** The double loop of [overallEvidenceIndependence] over the pair statuses. *)
Fixpoint overall_loop (status : EvidenceIndependenceStatus) (l : list EvidencePairAssessment)
    : EvidenceIndependenceStatus :=
  match l with
  | [] => status
  | p :: l' =>
    match pr_Status p with
    | EvidenceIndependenceDependent => EvidenceIndependenceDependent
    | EvidenceIndependenceUnknown => overall_loop EvidenceIndependenceUnknown l'
    | EvidenceIndependenceAsserted =>
        overall_loop (if bool_decide (status = EvidenceIndependenceCorroborated)
                      then EvidenceIndependenceAsserted else status) l'
    | _ => overall_loop status l'
    end
  end.

Definition overallEvidenceIndependence (sources : list EvidenceSource) (kinds : list string)
    : EvidenceIndependenceStatus :=
  if (length sources <? 2)%nat then EvidenceIndependenceUnknown
  else overall_loop EvidenceIndependenceCorroborated (pair_assessments sources kinds).

Definition independenceMeets (actual required : EvidenceIndependenceStatus) : bool :=
  match required with
  | EvidenceIndependenceAsserted =>
      bool_decide (actual = EvidenceIndependenceAsserted)
      || bool_decide (actual = EvidenceIndependenceCorroborated)
  | EvidenceIndependenceCorroborated => bool_decide (actual = EvidenceIndependenceCorroborated)
  | _ => false
  end.

Definition pairKey (l r : string) : string :=
  let '(l, r) := if decide (String.le l r) then (l, r) else (r, l) in
  l +:+ nul +:+ r.

Definition pair_status (pairs : list EvidencePairAssessment) : gmap string EvidenceIndependenceStatus :=
  foldl (λ m p, <[pairKey (pr_LeftSource p) (pr_RightSource p) := pr_Status p]> m) ∅ pairs.

(** The recursive [search], with the variable [best] threaded through: the
    sources still to consider and the selected ones.  [append(selected, next)]
    writes past the end of [selected] only, so no caller sees it. *)
Section Search.
Context (qualifies : EvidenceSource → EvidenceSource → bool).

Fixpoint search (rest selected : list EvidenceSource) (best : nat) : nat :=
  if (length selected + length rest <=? best)%nat then best
  else match rest with
  | [] => if (best <? length selected)%nat then length selected else best
  | next :: rest' =>
    let best := if forallb (λ existing, qualifies existing next) selected
                then search rest' (selected ++ [next]) best else best in
    search rest' selected best
  end.
End Search.

Definition pair_qualifies (pairs : list EvidencePairAssessment) (required : EvidenceIndependenceStatus)
    (existing next : EvidenceSource) : bool :=
  independenceMeets
    (default (OtherIndependence "") (pair_status pairs !! pairKey (es_Name existing) (es_Name next)))
    required.

Definition maxQualifyingIndependentSourceCount (sources : list EvidenceSource)
    (pairs : list EvidencePairAssessment) (required : EvidenceIndependenceStatus) : nat :=
  if (length sources =? 0)%nat then 0
  else if (length sources =? 1)%nat then 1
  else search (pair_qualifies pairs required) sources [] 0.

Definition AssessEvidenceIndependence (sources : list EvidenceSource)
    (requirement : EvidenceIndependenceRequirement) : EvidenceCompositionAssessment :=
  let kinds := eq_RequiredDependencyKinds requirement in
  let pairs := pair_assessments sources kinds in
  {| ca_ProfileVersion := EvidenceCompositionProfileVersion;
     ca_RequiredIndependence :=
       if bool_decide (eq_RequiredIndependence requirement = OtherIndependence "")
       then EvidenceIndependenceUnknown else eq_RequiredIndependence requirement;
     ca_IndependentSourceCount :=
       if (0 <? eq_MinIndependentSources requirement)%Z
       then Z.of_nat (maxQualifyingIndependentSourceCount sources pairs (eq_RequiredIndependence requirement))
       else 0;
     ca_OverallIndependence := overallEvidenceIndependence sources kinds;
     ca_PairAssessments := pairs |}.

Definition EvidenceIndependenceSatisfied (assessment : EvidenceCompositionAssessment)
    (requirement : EvidenceIndependenceRequirement) : bool :=
  if (eq_MinIndependentSources requirement <=? 0)%Z then true
  else match eq_RequiredIndependence requirement with
  | EvidenceIndependenceAsserted | EvidenceIndependenceCorroborated =>
      (eq_MinIndependentSources requirement <=? ca_IndependentSourceCount assessment)%Z
  | _ => false
  end.

(** * Facts about pairs *)

Lemma shared_loop_nil rightSet l seen :
  (∀ d, d ∈ l → dp_Material d = true → dependency_key d ∉ seen) →
  shared_loop rightSet l seen = [] ↔
  ∀ d, d ∈ l → dp_Material d = true → dependency_key d ∉ rightSet.
Proof.
  induction l as [|x l IH]; intros Hseen; cbn [shared_loop].
  { split; [|done]. by intros _ d ?%elem_of_nil. }
  assert (IH' : shared_loop rightSet l seen = [] ↔
    ∀ d, d ∈ l → dp_Material d = true → dependency_key d ∉ rightSet).
  { apply IH. intros d Hd. apply Hseen. by constructor. }
  destruct (dp_Material x) eqn:Hm; simpl.
  - case_bool_decide as Hin; simpl.
    + rewrite bool_decide_false by (apply Hseen; [by constructor|done]).
      split; [done|]. intros Hall. by destruct (Hall x); [constructor| |].
    + rewrite IH'. split; [|intros Hall d Hd; apply Hall; by constructor].
      intros Hall d [->|Hd]%elem_of_cons; [done|by apply Hall].
  - rewrite IH'. split; [|intros Hall d Hd; apply Hall; by constructor].
    intros Hall d [->|Hd]%elem_of_cons; [congruence|by apply Hall].
Qed.

Definition disjoint_dependencies (l r : list EvidenceDependency) : Prop :=
  ∀ a b, a ∈ l → b ∈ r → dp_Material a = true → dp_Material b = true →
    dependency_key a ≠ dependency_key b.

Lemma elem_of_material_keys k l :
  k ∈ material_keys l ↔ ∃ d, d ∈ l ∧ dp_Material d = true ∧ dependency_key d = k.
Proof.
  unfold material_keys. rewrite elem_of_list_to_set, list_elem_of_fmap. split.
  - intros (d & -> & Hd%list_elem_of_In). apply filter_In in Hd as [Hd Hm].
    exists d. split_and!; [by apply list_elem_of_In|done|done].
  - intros (d & Hd & Hm & <-). exists d. split; [done|].
    apply list_elem_of_In, filter_In. split; [by apply list_elem_of_In|done].
Qed.

Lemma sharedMaterialDependencies_nil l r :
  length (sharedMaterialDependencies l r) = 0 ↔ disjoint_dependencies l r.
Proof.
  unfold sharedMaterialDependencies. rewrite (Permutation_length (merge_sort_Permutation _ _)), length_zero_iff_nil.
  rewrite shared_loop_nil by set_solver. unfold disjoint_dependencies. split.
  - intros Hn a b Ha Hb Hma Hmb Heq. apply (Hn a Ha Hma). apply elem_of_material_keys. eauto.
  - intros Hd a Ha Hma (b & Hb & Hmb & Heq)%elem_of_material_keys. by apply (Hd a b).
Qed.

(** The declared independence of two sources for the required dependency kinds. *)
Record independent (kinds : list string) (a b : EvidenceSourceDeclaration) : Prop := {
  ind_subject : dc_Subject a = dc_Subject b;
  ind_covers_left : declarationCovers (Some a) kinds = true;
  ind_covers_right : declarationCovers (Some b) kinds = true;
  ind_producer : dc_ProducerID a ≠ dc_ProducerID b;
  ind_path : dc_ObservationPath a ≠ dc_ObservationPath b;
  ind_dependencies : disjoint_dependencies (dc_Dependencies a) (dc_Dependencies b);
  ind_assurance_left : dc_Assurance a ≠ EvidenceDeclarationUnknown;
  ind_assurance_right : dc_Assurance b ≠ EvidenceDeclarationUnknown;
}.

(** Independence of sources at a required status. *)
Definition independent_at (required : EvidenceIndependenceStatus) (kinds : list string)
    (l r : EvidenceSource) : Prop :=
  ∃ a b, es_Declaration l = Some a ∧ es_Declaration r = Some b ∧ independent kinds a b ∧
    match required with
    | EvidenceIndependenceAsserted => True
    | EvidenceIndependenceCorroborated =>
        dc_Assurance a = EvidenceDeclarationCorroborated ∧ dc_Assurance b = EvidenceDeclarationCorroborated
    | _ => False
    end.

Lemma meets_below required st :
  st = EvidenceIndependenceUnknown ∨ st = EvidenceIndependenceDependent → independenceMeets st required = false.
Proof. intros [-> | ->]; by destruct required. Qed.

(** The status of two declared sources. *)
Definition declared_status (kinds : list string) (a b : EvidenceSourceDeclaration)
    (st : EvidenceIndependenceStatus) : Prop :=
  (¬ independent kinds a b ∧ (st = EvidenceIndependenceUnknown ∨ st = EvidenceIndependenceDependent))
  ∨ (independent kinds a b ∧
     st = if decide (dc_Assurance a = EvidenceDeclarationCorroborated ∧
                     dc_Assurance b = EvidenceDeclarationCorroborated)
          then EvidenceIndependenceCorroborated else EvidenceIndependenceAsserted).

Lemma assessEvidencePair_declared kinds l r a b :
  es_Declaration l = Some a → es_Declaration r = Some b →
  declared_status kinds a b (pr_Status (assessEvidencePair l r kinds)).
Proof.
  intros Ha Hb. unfold assessEvidencePair. rewrite Ha, Hb.
  destruct (str_eqb (dc_Subject a) (dc_Subject b)) eqn:E1; cbn [negb];
    [apply str_eqb_eq in E1|apply str_eqb_neq in E1; left; split; [by intros []|by left]].
  destruct (declarationCovers (Some a) kinds) eqn:E2; cbn [negb orb];
    [|left; split; [intros []; congruence|by left]].
  destruct (declarationCovers (Some b) kinds) eqn:E3; cbn [negb];
    [|left; split; [intros []; congruence|by left]].
  destruct (str_eqb (dc_ProducerID a) (dc_ProducerID b)) eqn:E4;
    [apply str_eqb_eq in E4; left; split; [by intros []|by right]|apply str_eqb_neq in E4].
  destruct (str_eqb (dc_ObservationPath a) (dc_ObservationPath b)) eqn:E5;
    [apply str_eqb_eq in E5; left; split; [by intros []|by right]|apply str_eqb_neq in E5].
  pose proof (sharedMaterialDependencies_nil (dc_Dependencies a) (dc_Dependencies b)) as Hs.
  destruct (Nat.ltb_spec 0 (length (sharedMaterialDependencies (dc_Dependencies a) (dc_Dependencies b)))).
  { left. split; [|by right]. intros []. apply Hs in ind_dependencies0. lia. }
  assert (Hd : disjoint_dependencies (dc_Dependencies a) (dc_Dependencies b)) by (apply Hs; lia).
  case_bool_decide as E6; cbn [orb]; [left; split; [by intros []|by left]|].
  case_bool_decide as E7; cbn [orb]; [left; split; [by intros []|by left]|].
  right. split; [by split|]. repeat case_bool_decide; case_decide; cbn [andb pr_Status]; (done || naive_solver).
Qed.

Lemma assessEvidencePair_meets required kinds l r :
  independenceMeets (pr_Status (assessEvidencePair l r kinds)) required = true ↔
  independent_at required kinds l r.
Proof.
  unfold independent_at.
  destruct (es_Declaration l) as [a|] eqn:Ha; [destruct (es_Declaration r) as [b|] eqn:Hb|].
  2:{ unfold assessEvidencePair. rewrite Ha, Hb. cbn [pr_Status]. rewrite meets_below by (by left).
      split; [done|naive_solver]. }
  2:{ unfold assessEvidencePair. rewrite Ha. cbn [pr_Status]. rewrite meets_below by (by left).
      split; [done|naive_solver]. }
  destruct (assessEvidencePair_declared kinds l r a b Ha Hb) as [[Hn Hst]|[Hi Hst]].
  - rewrite meets_below by done. split; [done|]. intros (a' & b' & [= <-] & [= <-] & Hi & _). done.
  - rewrite Hst. split.
    + intros Hm. exists a, b. split; [done|]. split; [done|]. split; [done|].
      case_decide; by destruct required.
    + intros (a' & b' & [= <-] & [= <-] & _ & Hr). case_decide; destruct required; done.
Qed.

(** * Facts about the search *)

Section SearchFacts.
Context (qualifies : EvidenceSource → EvidenceSource → bool).

(** [sub] extends [sel] one qualifying source at a time. *)
Fixpoint extends (sel sub : list EvidenceSource) : Prop :=
  match sub with
  | [] => True
  | s :: sub' => Forall (λ e, qualifies e s = true) sel ∧ extends (sel ++ [s]) sub'
  end.

Lemma search_spec rest sel best :
  let r := search qualifies rest sel best in
  best ≤ r ∧
  (∀ sub, sub `sublist_of` rest → extends sel sub → length sel + length sub ≤ r) ∧
  (r = best ∨ ∃ sub, sub `sublist_of` rest ∧ extends sel sub ∧ r = length sel + length sub).
Proof.
  revert sel best; induction rest as [|s rest IH]; intros sel best; cbn [search].
  - destruct (Nat.leb_spec (length sel + length (@nil EvidenceSource)) best) as [Hle|Hgt]; simpl in *.
    + split_and!; [done| |by left]. intros sub ->%sublist_nil_r _. simpl. lia.
    + destruct (Nat.ltb_spec best (length sel)); [|lia]. split_and!; [lia| |].
      * intros sub ->%sublist_nil_r _. simpl. lia.
      * right. exists []. split_and!; [done|done|simpl; lia].
  - destruct (Nat.leb_spec (length sel + length (s :: rest)) best) as [Hle|Hgt].
    + split_and!; [done| |by left]. intros sub Hsub%sublist_length _. lia.
    + set (best1 := if forallb _ sel then _ else best).
      assert (H1 : best ≤ best1 ∧
        (∀ sub, sub `sublist_of` rest → Forall (λ e, qualifies e s = true) sel → extends (sel ++ [s]) sub →
           length sel + S (length sub) ≤ best1) ∧
        (best1 = best ∨ ∃ sub, sub `sublist_of` s :: rest ∧ extends sel sub ∧ best1 = length sel + length sub)).
      { subst best1. destruct (forallb _ sel) eqn:Hq.
        - destruct (IH (sel ++ [s]) best) as (Ha & Hb & Hc). rewrite length_app in *. simpl in *. split_and!; [done| |].
          + intros sub Hs _ He. specialize (Hb _ Hs He). lia.
          + destruct Hc as [->|(sub & Hs & He & ->)]; [by left|right]. exists (s :: sub).
            split_and!; [by constructor|split; [|done]|simpl; lia].
            rewrite forallb_forall in Hq. apply Forall_forall. intros e He'. apply Hq. by apply list_elem_of_In.
        - split_and!; [done| |by left]. intros sub _ Hall _. exfalso.
          rewrite (proj2 (forallb_forall _ _)) in Hq; [done|].
          intros e He%list_elem_of_In. rewrite Forall_forall in Hall. by apply Hall. }
      destruct H1 as (Ha1 & Hb1 & Hc1). destruct (IH sel best1) as (Ha2 & Hb2 & Hc2). split_and!; [lia| |].
      * intros sub Hs He. apply sublist_cons_r in Hs as [Hs|(sub' & -> & Hs)]; [by apply Hb2|].
        destruct He as [Hall He]. specialize (Hb1 _ Hs Hall He). simpl. lia.
      * destruct Hc2 as [->|(sub & Hs & He & ->)]; [done|right].
        exists sub. split_and!; [by constructor|done|done].
Qed.

(** From nothing selected, extending means qualifying pairwise, in order. *)
Lemma extends_pairs sel sub :
  extends sel sub ↔ (∀ e s, e ∈ sel → s ∈ sub → qualifies e s = true) ∧
    (∀ p, p ∈ ordered_pairs sub → qualifies p.1 p.2 = true).
Proof.
  revert sel; induction sub as [|s sub IH]; intros sel; simpl.
  { split; [|done]. intros _. split; [by intros ? ? ? ?%elem_of_nil|by intros ? ?%elem_of_nil]. }
  rewrite IH, Forall_forall. split.
  - intros (Hs & He & Hp). split.
    + intros e x Hin [->|Hx]%elem_of_cons; [by apply Hs|]. apply He; [set_solver|done].
    + intros p [(x & -> & Hx)%list_elem_of_fmap|Hp']%elem_of_app; [simpl|by apply Hp].
      apply He; [set_solver|done].
  - intros (He & Hp). split_and!.
    + intros e Hin. apply He; [done|by constructor].
    + intros e x [Hin|Heq%list_elem_of_singleton]%elem_of_app Hx; [apply He; [done|by constructor]|subst e].
      apply (Hp (s, x)). apply elem_of_app. left. apply list_elem_of_fmap. by exists x.
    + intros p Hp'. apply Hp. apply elem_of_app. by right.
Qed.
End SearchFacts.

(** * The pair table *)

Definition nul_free (s : EvidenceSource) : Prop := free_of (ascii_of_nat 0) (es_Name s) = true.

Lemma pairKey_inj a b c d :
  free_of (ascii_of_nat 0) a = true → free_of (ascii_of_nat 0) b = true →
  free_of (ascii_of_nat 0) c = true → free_of (ascii_of_nat 0) d = true →
  pairKey a b = pairKey c d → (a = c ∧ b = d) ∨ (a = d ∧ b = c).
Proof.
  intros Fa Fb Fc Fd. unfold pairKey, nul.
  destruct (decide (String.le a b)), (decide (String.le c d)); intros H;
    apply (free_of_split (ascii_of_nat 0)) in H as [-> H]; try done; subst; auto.
Qed.

Lemma ordered_pairs_in {A} (l : list A) a b : (a, b) ∈ ordered_pairs l → a ∈ l ∧ b ∈ l.
Proof.
  induction l as [|x l IH]; cbn [ordered_pairs]; [by intros ?%elem_of_nil|].
  intros [(y & [= -> ->] & Hy)%list_elem_of_fmap|[? ?]%IH]%elem_of_app; split; by constructor.
Qed.

(** With distinct names, the unordered pair of names determines the pair. *)
Lemma ordered_pairs_names l a b c d :
  NoDup (map es_Name l) → (a, b) ∈ ordered_pairs l → (c, d) ∈ ordered_pairs l →
  (es_Name a = es_Name c ∧ es_Name b = es_Name d) ∨ (es_Name a = es_Name d ∧ es_Name b = es_Name c) →
  a = c ∧ b = d.
Proof.
  assert (Hinj : ∀ l x y, NoDup (map es_Name l) → x ∈ l → y ∈ l → es_Name x = es_Name y → x = y).
  { clear. induction l as [|z l IH]; intros x y Hnd Hx Hy Heq; [by apply elem_of_nil in Hx|].
    simpl in Hnd. apply NoDup_cons in Hnd as [Hz Hnd].
    apply elem_of_cons in Hx as [->|Hx], Hy as [->|Hy]; [done| | |by apply IH];
      destruct Hz; [rewrite Heq|rewrite <- Heq]; apply list_elem_of_fmap; eauto. }
  induction l as [|x l IH]; intros Hnd Hab Hcd Heq; cbn [ordered_pairs] in *; [by apply elem_of_nil in Hab|].
  pose proof Hnd as Hnd'. simpl in Hnd'. apply NoDup_cons in Hnd' as [Hx Hnd'].
  assert (Hno : ∀ y, y ∈ l → es_Name x ≠ es_Name y).
  { intros y Hy He. apply Hx. rewrite He. apply list_elem_of_fmap. eauto. }
  apply elem_of_app in Hab as [(y & [= -> ->] & Hy)%list_elem_of_fmap|Hab],
    Hcd as [(z & [= -> ->] & Hz)%list_elem_of_fmap|Hcd].
  - destruct Heq as [[_ He]|[He _]]; [split; [done|]; by apply (Hinj l)|by destruct (Hno _ Hz)].
  - apply ordered_pairs_in in Hcd as [Hc Hd]. destruct Heq as [[He _]|[He _]]; by apply Hno in He.
  - apply ordered_pairs_in in Hab as [Ha Hb]. destruct Heq as [[He _]|[_ He]]; symmetry in He; by apply Hno in He.
  - by apply IH.
Qed.

Lemma foldl_insert_lookup {A} `{Countable K} {V} (key : A → K) (val : A → V) (l : list A) (m : gmap K V) x :
  x ∈ l → (∀ y, y ∈ l → key y = key x → val y = val x) →
  foldl (λ m y, <[key y := val y]> m) m l !! key x = Some (val x).
Proof.
  revert m; induction l as [|y l IH] using rev_ind; intros m Hx Hu; [by apply elem_of_nil in Hx|].
  rewrite foldl_app. simpl. destruct (decide (key y = key x)) as [Heq|Hne].
  - rewrite Heq, lookup_insert_eq. f_equal. apply Hu; [set_solver|done].
  - rewrite lookup_insert_ne by done. apply IH; [|intros z Hz; apply Hu; set_solver].
    apply elem_of_app in Hx as [Hx|Hx%list_elem_of_singleton]; [done|congruence].
Qed.

Lemma pair_status_lookup sources kinds a b :
  NoDup (map es_Name sources) → Forall nul_free sources → (a, b) ∈ ordered_pairs sources →
  pair_status (pair_assessments sources kinds) !! pairKey (es_Name a) (es_Name b)
    = Some (pr_Status (assessEvidencePair a b kinds)).
Proof.
  intros Hnd Hf Hab.
  assert (Hnames : ∀ l r, pr_LeftSource (assessEvidencePair l r kinds) = es_Name l
    ∧ pr_RightSource (assessEvidencePair l r kinds) = es_Name r).
  { intros l r. unfold assessEvidencePair. by repeat case_match. }
  assert (Hkey : ∀ l r, pairKey (pr_LeftSource (assessEvidencePair l r kinds))
    (pr_RightSource (assessEvidencePair l r kinds)) = pairKey (es_Name l) (es_Name r)).
  { intros l r. by destruct (Hnames l r) as [-> ->]. }
  unfold pair_status, pair_assessments. rewrite <- Hkey.
  apply (foldl_insert_lookup (λ p, pairKey (pr_LeftSource p) (pr_RightSource p)) pr_Status).
  - apply list_elem_of_fmap. by exists (a, b).
  - intros p ([c d] & -> & Hcd)%list_elem_of_fmap. simpl. rewrite !Hkey. intros Hk.
    rewrite Forall_forall in Hf. destruct (ordered_pairs_in _ _ _ Hab) as [Ha Hb].
    destruct (ordered_pairs_in _ _ _ Hcd) as [Hc Hd].
    apply pairKey_inj in Hk; [|by apply Hf..].
    by destruct (ordered_pairs_names sources c d a b Hnd Hcd Hab) as [-> ->].
Qed.

Lemma ordered_pairs_sublist {A} (l k : list A) p : l `sublist_of` k → p ∈ ordered_pairs l → p ∈ ordered_pairs k.
Proof.
  induction 1 as [|x l k Hs IH|x l k Hs IH]; cbn [ordered_pairs]; [done| |].
  - intros [(y & -> & Hy)%list_elem_of_fmap|Hp]%elem_of_app; apply elem_of_app; [left|right; auto].
    apply list_elem_of_fmap. exists y. split; [done|]. by eapply sublist_subseteq.
  - intros Hp. apply elem_of_app. right. auto.
Qed.

(** The sets of sources that count: pairwise independent at the required status. *)
Definition qualifying (required : EvidenceIndependenceStatus) (kinds : list string)
    (set : list EvidenceSource) : Prop :=
  ∀ p, p ∈ ordered_pairs set → independent_at required kinds p.1 p.2.

Lemma qualifying_extends sources required kinds sub :
  NoDup (map es_Name sources) → Forall nul_free sources → sub `sublist_of` sources →
  extends (pair_qualifies (pair_assessments sources kinds) required) [] sub ↔ qualifying required kinds sub.
Proof.
  intros Hnd Hf Hsub. rewrite extends_pairs.
  assert (Hq : ∀ p, p ∈ ordered_pairs sub →
    (pair_qualifies (pair_assessments sources kinds) required p.1 p.2 = true ↔
     independent_at required kinds p.1 p.2)).
  { intros [a b] Hp. apply (ordered_pairs_sublist _ _ _ Hsub) in Hp. unfold pair_qualifies. simpl.
    by rewrite (pair_status_lookup _ _ _ _ Hnd Hf Hp), <- assessEvidencePair_meets. }
  unfold qualifying. split.
  - intros [_ Hall] p Hp. by apply Hq, Hall.
  - intros Hall. split; [by intros ? ? ?%elem_of_nil|]. intros p Hp. apply Hq; auto.
Qed.

Lemma qualifying_singleton required kinds s : qualifying required kinds [s].
Proof. by intros p ?%elem_of_nil. Qed.

Lemma max_count_spec sources required kinds :
  NoDup (map es_Name sources) → Forall nul_free sources →
  let n := maxQualifyingIndependentSourceCount sources (pair_assessments sources kinds) required in
  (∃ set, set `sublist_of` sources ∧ qualifying required kinds set ∧ length set = n) ∧
  (∀ set, set `sublist_of` sources → qualifying required kinds set → length set ≤ n).
Proof.
  intros Hnd Hf. unfold maxQualifyingIndependentSourceCount.
  destruct (Nat.eqb_spec (length sources) 0) as [H0|H0].
  { destruct sources; [|done]. split; [exists []; split_and!; [done|by intros p ?%elem_of_nil|done]|].
    by intros set ->%sublist_nil_r _. }
  destruct (Nat.eqb_spec (length sources) 1) as [H1|H1].
  { destruct sources as [|s [|]]; try done. split; [exists [s]; split_and!; [done|apply qualifying_singleton|done]|].
    intros set Hs _. by apply sublist_length in Hs. }
  destruct (search_spec (pair_qualifies (pair_assessments sources kinds) required) sources [] 0) as (_ & Hub & Hex).
  split.
  - destruct Hex as [Hz|(sub & Hs & He & Hn)].
    + exists []. split_and!; [apply sublist_nil_l|by intros p ?%elem_of_nil|by rewrite Hz].
    + exists sub. split_and!; [done|by apply (qualifying_extends sources)|by rewrite Hn].
  - intros set Hs Hq. apply (Hub set Hs). by apply qualifying_extends.
Qed.


(** A satisfied requirement means independent sources.  When the assessment of
    distinctly named sources satisfies a positive requirement, there are that
    many of them that pairwise have declarations of the same subject, cover
    every required dependency kind, and share neither producer, nor
    observation path, nor a material dependency; labels play no part. *)
Theorem satisfied_means_independent sources requirement :
  NoDup (map es_Name sources) → Forall nul_free sources →
  (0 < eq_MinIndependentSources requirement)%Z →
  EvidenceIndependenceSatisfied (AssessEvidenceIndependence sources requirement) requirement = true →
  ∃ set, set `sublist_of` sources ∧ (eq_MinIndependentSources requirement ≤ Z.of_nat (length set))%Z ∧
    ∀ l r, (l, r) ∈ ordered_pairs set →
      ∃ a b, es_Declaration l = Some a ∧ es_Declaration r = Some b ∧
        dc_Subject a = dc_Subject b ∧ dc_ProducerID a ≠ dc_ProducerID b ∧
        dc_ObservationPath a ≠ dc_ObservationPath b ∧
        disjoint_dependencies (dc_Dependencies a) (dc_Dependencies b) ∧
        (eq_RequiredIndependence requirement = EvidenceIndependenceCorroborated →
           dc_Assurance a = EvidenceDeclarationCorroborated ∧ dc_Assurance b = EvidenceDeclarationCorroborated).
Proof.
  intros Hnd Hf Hmin Hsat. unfold EvidenceIndependenceSatisfied, AssessEvidenceIndependence in Hsat.
  destruct (Z.leb_spec (eq_MinIndependentSources requirement) 0); [lia|].
  cbn [ca_IndependentSourceCount] in Hsat.
  destruct (Z.ltb_spec 0 (eq_MinIndependentSources requirement)); [|lia].
  destruct (max_count_spec sources (eq_RequiredIndependence requirement)
    (eq_RequiredDependencyKinds requirement) Hnd Hf) as [(set & Hs & Hq & Hn) _].
  exists set. rewrite Hn. split_and!; [done|by destruct (eq_RequiredIndependence requirement); try done; apply Z.leb_le|].
  intros l r Hp. destruct (Hq _ Hp) as (a & b & Ha & Hb & [] & Hr).
  exists a, b. split_and!; try done; intros Hreq; by rewrite Hreq in Hr.
Qed.

(** * Examples and witnesses *)

Definition declared (producer path : string) (deps : list EvidenceDependency)
    (assurance : EvidenceDeclarationAssurance) : option EvidenceSourceDeclaration := Some {|
  dc_ProducerID := producer; dc_Subject := "kubernetes.node/n1"; dc_ObservationPath := path;
  dc_DependencyCoverage := ["upstream"]; dc_Dependencies := deps; dc_Assurance := assurance;
  dc_CorroborationRefs := [] |}.
Definition source (name : string) (d : option EvidenceSourceDeclaration) : EvidenceSource := {|
  es_Name := name; es_TrustDomain := name; es_Digest := "d"; es_ObservedAt := 1%Z;
  es_Classes := ["health"]; es_Declaration := d |}.
Definition upstream (id : string) (material : bool) : EvidenceDependency :=
  {| dp_Kind := "upstream"; dp_ID := id; dp_Material := material |}.

(** Two sources share a material upstream; the third is independent of both. *)
Definition sample_sources : list EvidenceSource :=
  [source "kubelet" (declared "k" "api" [upstream "api" true] EvidenceDeclarationAsserted);
   source "lease" (declared "l" "watch" [upstream "api" true] EvidenceDeclarationAsserted);
   source "prometheus" (declared "p" "scrape" [upstream "store" true; upstream "api" false] EvidenceDeclarationAsserted)].
Definition sample_requirement (n : Z) : EvidenceIndependenceRequirement := {|
  eq_RequiredIndependence := EvidenceIndependenceAsserted; eq_MinIndependentSources := n;
  eq_RequiredDependencyKinds := ["upstream"] |}.

Lemma sample_sources_distinct : NoDup (map es_Name sample_sources).
Proof. simpl. repeat constructor; set_solver. Qed.

Lemma sample_sources_nul_free : Forall nul_free sample_sources.
Proof. by repeat constructor. Qed.


Example satisfied_means_independent_witness :
  EvidenceIndependenceSatisfied (AssessEvidenceIndependence sample_sources (sample_requirement 3))
    (sample_requirement 3) = false ∧
  ∃ set, set `sublist_of` sample_sources ∧ (2 ≤ Z.of_nat (length set))%Z.
Proof.
  split; [vm_compute; reflexivity|].
  destruct (satisfied_means_independent sample_sources (sample_requirement 2)
    sample_sources_distinct sample_sources_nul_free eq_refl ltac:(vm_compute; reflexivity))
    as (set & H1 & H2 & _).
  exists set. split; assumption.
Defined.

(** A declaration whose assurance was never set counts as ASSERTED. *)
Lemma unset_assurance_is_asserted :
  pr_Status (assessEvidencePair
    (source "a" (declared "a" "x" [] (OtherAssurance "")))
    (source "b" (declared "b" "y" [] (OtherAssurance ""))) ["upstream"]) = EvidenceIndependenceAsserted.
Proof. vm_compute. reflexivity. Qed.

(** Two declarations without any corroboration reference can be CORROBORATED. *)
Lemma corroborated_without_references :
  pr_Status (assessEvidencePair
    (source "a" (declared "a" "x" [] EvidenceDeclarationCorroborated))
    (source "b" (declared "b" "y" [] EvidenceDeclarationCorroborated)) ["upstream"])
    = EvidenceIndependenceCorroborated.
Proof. vm_compute. reflexivity. Qed.
