(* ===== verification/KernelAbi.v ===== *)
(** * Kernel ABI of the enforcement fabric

    Models [internal/kernelfabric/abi.go], [encoding.go], [taint_abi.go] and
    [taint_encoding.go]: the fixed-size little-endian structures shared with the
    BPF programs, their validation, the scope keys of the kernel maps, digests
    and taint labels.  A byte array [[n]byte] is a string of length [n]; the
    integers are [Z], and [c_valid] of a structure's codec says that every field
    has its width, which Go's types guarantee. *)

From S2P Require Import Prelude Crypto Format GovernedAction.
Local Open Scope Z_scope.

(** * [binary.Write] and [binary.Read] on fixed-size structures

    A codec is the layout of a type: its size, the values of the type, and the
    two directions.  [c_get] also returns the bytes it has not consumed. *)
Record codec (A : Type) : Type := {
  c_size : nat; c_valid : A → Prop; c_put : A → string; c_get : string → A * string }.
Arguments c_size {A} _.
Arguments c_valid {A} _ _.
Arguments c_put {A} _ _.
Arguments c_get {A} _ _.

Class Lawful {A} (c : codec A) : Prop := {
  put_length a : c_valid c a → String.length (c_put c a) = c_size c;
  get_put a rest : c_valid c a → c_get c (c_put c a +:+ rest) = (a, rest);
  get_valid s : (c_size c ≤ String.length s)%nat → c_valid c (c_get c s).1;
  put_get s : (c_size c ≤ String.length s)%nat → c_put c (c_get c s).1 +:+ (c_get c s).2 = s }.

Fixpoint le_put (n : nat) (z : Z) : string :=
  match n with
  | O => ""
  | S k => String (ascii_of_N (Z.to_N (z mod 256))) (le_put k (z / 256))
  end.

Fixpoint le_get (n : nat) (s : string) : Z * string :=
  match n, s with
  | S k, String a s' => let '(z, rest) := le_get k s' in (Z.of_N (N_of_ascii a) + 256 * z, rest)
  | _, _ => (0, s)
  end.

Fixpoint split_at (n : nat) (s : string) : string * string :=
  match n, s with
  | S k, String a s' => let '(l, rest) := split_at k s' in (String a l, rest)
  | _, _ => ("", s)
  end.

Definition le_codec (n : nat) : codec Z := {|
  c_size := n; c_valid z := 0 ≤ z < 256 ^ Z.of_nat n; c_put := le_put n; c_get := le_get n |}.

Definition u32 : codec Z := le_codec 4.
Definition u64 : codec Z := le_codec 8.

Definition bytes (n : nat) : codec string := {|
  c_size := n; c_valid s := String.length s = n; c_put s := s; c_get := split_at n |}.

(** Consecutive fields, without padding. *)
Definition pair_codec {A B} (a : codec A) (b : codec B) : codec (A * B) := {|
  c_size := (c_size a + c_size b)%nat;
  c_valid p := c_valid a p.1 ∧ c_valid b p.2;
  c_put p := c_put a p.1 +:+ c_put b p.2;
  c_get s := let '(x, s1) := c_get a s in let '(y, s2) := c_get b s1 in ((x, y), s2) |}.
Infix "⋅" := pair_codec (at level 50, left associativity) : go_scope.

(** A structure is laid out as the tuple of its fields. *)
Definition struct {A B} (to : A → B) (from : B → A) (c : codec B) : codec A := {|
  c_size := c_size c; c_valid a := c_valid c (to a);
  c_put a := c_put c (to a); c_get s := let '(b, rest) := c_get c s in (from b, rest) |}.

(** [encoding/binary] finds the layout of a value from its type. *)
Class Fixed (A : Type) := fixed : codec A.

Definition ErrUnexpectedEOF : error := ErrNew "unexpected EOF".

Definition binary_Read {A} `{Fixed A} (payload : string) : result A :=
  if (String.length payload <? c_size fixed)%nat then Error ErrUnexpectedEOF
  else Ok (c_get fixed payload).1.

Definition size_mismatch (what : string) (got want : nat) : error :=
  ErrNew (what +:+ " size mismatch: got " +:+ pretty got +:+ " want " +:+ pretty want).

Definition marshalFixed {A} `{Fixed A} (value : A) (want : nat) : result string :=
  let buf := c_put fixed value in
  if (String.length buf =? want)%nat then Ok buf
  else Error (size_mismatch "kernel ABI" (String.length buf) want).

Definition zeros (n : nat) : string := String.string_of_list_ascii (replicate n "000"%char).

(** ** The layouts are lawful *)

Lemma le_get_spec n s : (n ≤ String.length s)%nat →
  0 ≤ (le_get n s).1 < 256 ^ Z.of_nat n ∧ le_put n (le_get n s).1 +:+ (le_get n s).2 = s.
Proof.
  revert s. induction n as [|n IH]; intros s Hn; [by split; [simpl; lia|]|].
  destruct s as [|a s]; [simpl in Hn; lia|]. cbn [le_get].
  destruct (IH s) as [Hz Hp]; [simpl in Hn; lia|]. destruct (le_get n s) as [z rest]. simpl in *.
  pose proof (byte_lt_256 a) as Ha. rewrite Nat2Z.inj_succ, Z.pow_succ_r by lia. split; [lia|].
  rewrite (Z.mul_comm 256 z), Z_mod_plus_full, Z.mod_small, N2Z.id, ascii_N_embedding by lia.
  rewrite Z.div_add, Z.div_small, Z.add_0_l, string_app_cons by lia. by f_equal.
Qed.

Lemma le_put_length n z : String.length (le_put n z) = n.
Proof. revert z. induction n as [|n IH]; intros z; simpl; [done|]. by rewrite IH. Qed.

Lemma le_get_put n z rest : 0 ≤ z < 256 ^ Z.of_nat n → le_get n (le_put n z +:+ rest) = (z, rest).
Proof.
  revert z. induction n as [|n IH]; intros z Hz; [simpl in *; f_equal; lia|].
  rewrite Nat2Z.inj_succ, Z.pow_succ_r in Hz by lia. cbn [le_put]. rewrite string_app_cons. cbn [le_get].
  pose proof (Z.mod_pos_bound z 256 ltac:(lia)) as Hm. pose proof (Z.div_mod z 256 ltac:(lia)) as Hd.
  rewrite IH by (split; [apply Z.div_pos; lia|apply Z.div_lt_upper_bound; lia]).
  rewrite N_ascii_embedding by lia. f_equal. rewrite Z2N.id by lia. lia.
Qed.

#[export] Instance le_lawful n : Lawful (le_codec n).
Proof.
  split; simpl.
  - intros z _. apply le_put_length.
  - intros z rest. apply le_get_put.
  - intros s. apply le_get_spec.
  - intros s. apply le_get_spec.
Qed.
#[export] Instance u32_lawful : Lawful u32 := le_lawful 4.
#[export] Instance u64_lawful : Lawful u64 := le_lawful 8.

Lemma split_at_app s rest : split_at (String.length s) (s +:+ rest) = (s, rest).
Proof. induction s as [|c s IH]; [by destruct rest|]. rewrite string_app_cons. simpl. by rewrite IH. Qed.

Lemma split_at_spec n s : (n ≤ String.length s)%nat →
  String.length (split_at n s).1 = n ∧ (split_at n s).1 +:+ (split_at n s).2 = s.
Proof.
  revert s. induction n as [|n IH]; intros s Hn; [by destruct s|].
  destruct s as [|a s]; simpl in *; [lia|]. destruct (IH s) as [H1 H2]; [lia|].
  destruct (split_at n s). simpl in *. by rewrite string_app_cons, H1, H2.
Qed.

#[export] Instance bytes_lawful n : Lawful (bytes n).
Proof.
  split; simpl.
  - done.
  - intros s rest <-. apply split_at_app.
  - intros s. apply split_at_spec.
  - intros s. apply split_at_spec.
Qed.

(** What a read of a long enough payload gives. *)
Lemma get_spec {A} (c : codec A) `{!Lawful c} s : (c_size c ≤ String.length s)%nat →
  ∃ a rest, c_get c s = (a, rest) ∧ c_valid c a ∧ s = c_put c a +:+ rest ∧
    String.length s = (c_size c + String.length rest)%nat.
Proof.
  intros Hs. pose proof (get_valid (c := c) s Hs) as Hv. pose proof (put_get (c := c) s Hs) as Hp.
  destruct (c_get c s) as [a rest]. simpl in *. exists a, rest. split_and!; [done..|].
  by rewrite <- Hp, string_length_app, put_length.
Qed.

#[export] Instance pair_lawful {A B} (a : codec A) (b : codec B) :
  Lawful a → Lawful b → Lawful (pair_codec a b).
Proof.
  intros La Lb. split; simpl.
  - intros [x y] [Hx Hy]. by rewrite string_length_app, !put_length.
  - intros [x y] rest [Hx Hy]. simpl in *. by rewrite <- string_app_assoc, !get_put.
  - intros s Hs. destruct (get_spec a s) as (x & s1 & -> & Hx & _ & Hl); [lia|].
    by destruct (get_spec b s1) as (y & s2 & -> & Hy & _); [lia|].
  - intros s Hs. destruct (get_spec a s) as (x & s1 & -> & Hx & -> & Hl); [lia|].
    destruct (get_spec b s1) as (y & s2 & -> & Hy & -> & _); [lia|]. simpl. by rewrite <- string_app_assoc.
Qed.

Lemma struct_lawful {A B} (to : A → B) (from : B → A) c :
  Lawful c → (∀ a, from (to a) = a) → (∀ b, to (from b) = b) → Lawful (struct to from c).
Proof.
  intros L Hft Htf. split; simpl.
  - intros a. apply put_length.
  - intros a rest Ha. by rewrite get_put, Hft.
  - intros s Hs. pose proof (get_valid s Hs). destruct (c_get c s). simpl in *. by rewrite Htf.
  - intros s Hs. pose proof (put_get s Hs). destruct (c_get c s). simpl in *. by rewrite Htf.
Qed.

(** Discharges the two inverse laws of a structure. *)
Ltac solve_struct :=
  apply struct_lawful;
  [apply _ | intros []; reflexivity | intros; repeat match goal with p : _ * _ |- _ => destruct p end; reflexivity].

(** * [abi.go]: constants and structures *)

Definition ABIVersion : Z := 1.
Definition ActionClassNetworkConnect : Z := 1.
Definition KernelDecisionBlock : Z := 0.
Definition KernelDecisionAllow : Z := 1.
Definition AddressFamilyWildcard : Z := 0.
Definition AddressFamilyIPv4 : Z := 2.
Definition AddressFamilyIPv6 : Z := 10.
Definition EvidenceEventVersion : Z := 1.
Definition EvidenceEventEnforcement : Z := 1.
Definition EvidenceVerdictDeny : Z := 0.
Definition EvidenceVerdictAllow : Z := 1.
Definition ScopeKeySize : nat := 40.
Definition ScopeFenceKeySize : nat := 16.
Definition ScopeFenceStateSize : nat := 56.
Definition DecisionCapsuleSize : nat := 240.
Definition EvidenceEventSize : nat := 128.
Definition EvidenceAccountingSize : nat := 24.

Definition ErrInvalidScope : error := ErrNew "invalid kernel enforcement scope".
Definition ErrInvalidDigest : error := ErrNew "invalid sha256 digest".
Definition ErrInvalidCapsule : error := ErrNew "invalid decision capsule".
Definition ErrLeaseExpired : error := ErrNew "decision lease is expired".
Definition ErrLeaseInvalid : error := ErrNew "decision lease is invalid".

Record ScopeKey : Type := {
  sk_CgroupID : Z; sk_ActionClass : Z; sk_AddressFamily : Z; sk_DestinationAddr : string;
  sk_DestinationPort : Z; sk_Protocol : Z }.

Record ScopeFenceKey : Type := { fk_CgroupID : Z; fk_ActionClass : Z; fk_Reserved : Z }.

Record ScopeFenceState : Type := {
  fs_BootIDHash : string; fs_AuthorityTerm : Z; fs_DecisionEpoch : Z; fs_RevocationEpoch : Z }.

Record DecisionCapsule : Type := {
  dc_DecisionIDHash : string; dc_SubjectHash : string; dc_ActionHash : string;
  dc_PolicyHash : string; dc_EvidenceHash : string; dc_BootIDHash : string;
  dc_AuthorityTerm : Z; dc_DecisionEpoch : Z; dc_RevocationEpoch : Z;
  dc_InstalledAtMonoNS : Z; dc_DeadlineMonoNS : Z; dc_Decision : Z; dc_Constraints : Z }.

Record EvidenceEvent : Type := {
  ee_Sequence : Z; ee_ObservedAtMonoNS : Z; ee_CgroupID : Z; ee_AuthorityTerm : Z;
  ee_DecisionEpoch : Z; ee_RevocationEpoch : Z; ee_DecisionIDHash : string; ee_ActionClass : Z;
  ee_Verdict : Z; ee_Reason : Z; ee_AddressFamily : Z; ee_DestinationAddr : string;
  ee_DestinationPort : Z; ee_Protocol : Z; ee_ABIVersion : Z; ee_EventType : Z }.

Record EvidenceAccounting : Type := { ea_Sequence : Z; ea_Emitted : Z; ea_Lost : Z }.

#[export] Instance ScopeKey_eq_dec : EqDecision ScopeKey.
Proof. solve_decision. Defined.
#[export] Instance ScopeFenceKey_eq_dec : EqDecision ScopeFenceKey.
Proof. solve_decision. Defined.
#[export] Instance ScopeFenceState_eq_dec : EqDecision ScopeFenceState.
Proof. solve_decision. Defined.
#[export] Instance DecisionCapsule_eq_dec : EqDecision DecisionCapsule.
Proof. solve_decision. Defined.

#[export] Instance ScopeKey_countable : Countable ScopeKey.
Proof.
  apply (inj_countable'
    (λ '(Build_ScopeKey a b c d e f), (a, b, c, d, e, f))
    (λ '(a, b, c, d, e, f), Build_ScopeKey a b c d e f)). by intros [].
Defined.
#[export] Instance ScopeFenceKey_countable : Countable ScopeFenceKey.
Proof.
  apply (inj_countable' (λ '(Build_ScopeFenceKey a b c), (a, b, c))
    (λ '(a, b, c), Build_ScopeFenceKey a b c)). by intros [].
Defined.

Local Open Scope go_scope.

#[export] Instance ScopeKey_fixed : Fixed ScopeKey :=
  struct (λ '(Build_ScopeKey a b c d e f), (a, b, c, d, e, f))
    (λ '(a, b, c, d, e, f), Build_ScopeKey a b c d e f)
    (u64 ⋅ u32 ⋅ u32 ⋅ bytes 16 ⋅ u32 ⋅ u32).
#[export] Instance ScopeFenceKey_fixed : Fixed ScopeFenceKey :=
  struct (λ '(Build_ScopeFenceKey a b c), (a, b, c)) (λ '(a, b, c), Build_ScopeFenceKey a b c)
    (u64 ⋅ u32 ⋅ u32).
#[export] Instance ScopeFenceState_fixed : Fixed ScopeFenceState :=
  struct (λ '(Build_ScopeFenceState a b c d), (a, b, c, d))
    (λ '(a, b, c, d), Build_ScopeFenceState a b c d) (bytes 32 ⋅ u64 ⋅ u64 ⋅ u64).
#[export] Instance DecisionCapsule_fixed : Fixed DecisionCapsule :=
  struct (λ '(Build_DecisionCapsule a b c d e f g h i j k l m), (a, b, c, d, e, f, g, h, i, j, k, l, m))
    (λ '(a, b, c, d, e, f, g, h, i, j, k, l, m), Build_DecisionCapsule a b c d e f g h i j k l m)
    (bytes 32 ⋅ bytes 32 ⋅ bytes 32 ⋅ bytes 32 ⋅ bytes 32 ⋅ bytes 32 ⋅
     u64 ⋅ u64 ⋅ u64 ⋅ u64 ⋅ u64 ⋅ u32 ⋅ u32).
#[export] Instance EvidenceEvent_fixed : Fixed EvidenceEvent :=
  struct (λ '(Build_EvidenceEvent a b c d e f g h i j k l m n o p),
            (a, b, c, d, e, f, g, h, i, j, k, l, m, n, o, p))
    (λ '(a, b, c, d, e, f, g, h, i, j, k, l, m, n, o, p),
       Build_EvidenceEvent a b c d e f g h i j k l m n o p)
    (u64 ⋅ u64 ⋅ u64 ⋅ u64 ⋅ u64 ⋅ u64 ⋅ bytes 32 ⋅ u32 ⋅ u32 ⋅ u32 ⋅ u32 ⋅ bytes 16 ⋅
     u32 ⋅ u32 ⋅ u32 ⋅ u32).
#[export] Instance EvidenceAccounting_fixed : Fixed EvidenceAccounting :=
  struct (λ '(Build_EvidenceAccounting a b c), (a, b, c)) (λ '(a, b, c), Build_EvidenceAccounting a b c)
    (u64 ⋅ u64 ⋅ u64).

#[export] Instance ScopeKey_lawful : Lawful ScopeKey_fixed.
Proof. solve_struct. Qed.
#[export] Instance ScopeFenceKey_lawful : Lawful ScopeFenceKey_fixed.
Proof. solve_struct. Qed.
#[export] Instance ScopeFenceState_lawful : Lawful ScopeFenceState_fixed.
Proof. solve_struct. Qed.
#[export] Instance DecisionCapsule_lawful : Lawful DecisionCapsule_fixed.
Proof. solve_struct. Qed.
#[export] Instance EvidenceEvent_lawful : Lawful EvidenceEvent_fixed.
Proof. solve_struct. Qed.
#[export] Instance EvidenceAccounting_lawful : Lawful EvidenceAccounting_fixed.
Proof. solve_struct. Qed.

(** * [abi.go]: keys, digests and capsules *)

(** [net/netip.Addr]: the zero value, an IPv4 address of 4 bytes, or an IPv6
    address of 16 bytes with its zone (IPv4-mapped addresses are IPv6). *)
Inductive Addr : Type :=
  | AddrZero
  | AddrV4 (a : string)
  | AddrV6 (a : string) (zone : string).

Definition Addr_wf (a : Addr) : Prop :=
  match a with AddrZero => True | AddrV4 b => String.length b = 4%nat | AddrV6 b _ => String.length b = 16%nat end.

Record NetworkScope : Type := {
  ns_CgroupID : Z; ns_Destination : Addr; ns_Port : Z; ns_Protocol : Z }.

(** [copy(key.DestinationAddr[:4], v4[:])] leaves the other 12 bytes zero. *)
Definition ExactKey (s : NetworkScope) : result ScopeKey :=
  if ns_CgroupID s =? 0 then Error (ErrDetail ErrInvalidScope "cgroup id must be non-zero")
  else match ns_Destination s with
  | AddrZero => Error (ErrDetail ErrInvalidScope "destination address is required")
  | destination =>
      if ns_Port s =? 0 then Error (ErrDetail ErrInvalidScope "destination port must be non-zero")
      else if ns_Protocol s =? 0 then Error (ErrDetail ErrInvalidScope "protocol must be non-zero")
      else
        let key family addr := Ok {|
          sk_CgroupID := ns_CgroupID s; sk_ActionClass := ActionClassNetworkConnect;
          sk_AddressFamily := family; sk_DestinationAddr := addr;
          sk_DestinationPort := ns_Port s; sk_Protocol := ns_Protocol s |} in
        match destination with
        | AddrV4 v4 => key AddressFamilyIPv4 (v4 +:+ zeros 12)
        | AddrV6 v6 _ => key AddressFamilyIPv6 v6
        | AddrZero => Error (ErrDetail ErrInvalidScope "unsupported address family")
        end
  end.

Definition WildcardNetworkKey (cgroupID : Z) : result ScopeKey :=
  if cgroupID =? 0 then Error (ErrDetail ErrInvalidScope "cgroup id must be non-zero")
  else Ok {| sk_CgroupID := cgroupID; sk_ActionClass := ActionClassNetworkConnect;
             sk_AddressFamily := 0; sk_DestinationAddr := zeros 16;
             sk_DestinationPort := 0; sk_Protocol := 0 |}.

Definition FenceKey (cgroupID actionClass : Z) : result ScopeFenceKey :=
  if (cgroupID =? 0) || (actionClass =? 0)
  then Error (ErrDetail ErrInvalidScope "cgroup id and action class must be non-zero")
  else Ok {| fk_CgroupID := cgroupID; fk_ActionClass := actionClass; fk_Reserved := 0 |}.

Definition HashOpaque (value : string) : result string :=
  let value := TrimSpace value in
  if str_eqb value "" then Error (ErrNew "value is required") else Ok (sha256 value).

(** [hex.DecodeString]: both cases of the letters are accepted. *)
Definition hex_value (a : ascii) : option N :=
  let n := N_of_ascii a in
  if ((48 <=? n) && (n <=? 57))%N then Some (n - 48)%N
  else if ((97 <=? n) && (n <=? 102))%N then Some (n - 87)%N
  else if ((65 <=? n) && (n <=? 70))%N then Some (n - 55)%N
  else None.

(** [hex.InvalidByteError(b).Error()], with the [%#U] form of the byte. *)
Definition hex_upper (n : N) : ascii := ascii_of_N (if (n <? 10)%N then 48 + n else 55 + n).
Definition IsPrint (n : N) : bool :=
  ((32 <=? n) && (n <=? 126) || (161 <=? n) && negb (n =? 173))%N.
Definition utf8 (n : N) : string :=
  if (n <? 128)%N then String (ascii_of_N n) ""
  else String (ascii_of_N (192 + n / 64)) (String (ascii_of_N (128 + n mod 64)) "").
Definition InvalidByteError (a : ascii) : error :=
  let n := N_of_ascii a in
  ErrNew ("encoding/hex: invalid byte: U+00" +:+
          String (hex_upper (n / 16)) (String (hex_upper (n mod 16)) "") +:+
          (if IsPrint n then " '" +:+ utf8 n +:+ "'" else "")).
Definition ErrLength : error := ErrNew "encoding/hex: odd length hex string".

Fixpoint hex_DecodeString (s : string) : result string :=
  match s with
  | "" => Ok ""
  | String a "" => match hex_value a with None => Error (InvalidByteError a) | Some _ => Error ErrLength end
  | String a (String b s') =>
      match hex_value a, hex_value b with
      | None, _ => Error (InvalidByteError a)
      | _, None => Error (InvalidByteError b)
      | Some x, Some y =>
          rest ← hex_DecodeString s'; Ok (String (ascii_of_N (16 * x + y)) rest)
      end
  end.

Fixpoint strip_prefix (p s : string) : option string :=
  match p, s with
  | "", _ => Some s
  | String a p', String b s' => if Ascii.eqb a b then strip_prefix p' s' else None
  | _, _ => None
  end.

Definition ParseSHA256Digest (value : string) : result string :=
  match strip_prefix "sha256:" (TrimSpace value) with
  | None => Error (ErrDetail ErrInvalidDigest "expected sha256: prefix")
  | Some raw =>
      if negb (String.length raw =? 64)%nat
      then Error (ErrDetail ErrInvalidDigest "expected 64 hex characters")
      else match hex_DecodeString raw with
           | Error err => Error (ErrDetail ErrInvalidDigest (error_text err))
           | Ok decoded => Ok decoded
           end
  end.

Definition ValidateCapsule (c : DecisionCapsule) : option error :=
  if dc_AuthorityTerm c =? 0 then Some (ErrDetail ErrInvalidCapsule "authority term must be non-zero")
  else if dc_DecisionEpoch c =? 0 then Some (ErrDetail ErrInvalidCapsule "decision epoch must be non-zero")
  else if dc_DeadlineMonoNS c =? 0 then Some (ErrDetail ErrInvalidCapsule "monotonic deadline must be non-zero")
  else if dc_DeadlineMonoNS c <=? dc_InstalledAtMonoNS c
    then Some (ErrDetail ErrInvalidCapsule "monotonic deadline must follow installation")
  else if negb (dc_Decision c =? KernelDecisionAllow) && negb (dc_Decision c =? KernelDecisionBlock)
    then Some (ErrDetail ErrInvalidCapsule ("unsupported decision " +:+ pretty (dc_Decision c)))
  else None.

(** [installer.go] *)
Definition validateScopeKey (key : ScopeKey) : option error :=
  if (sk_CgroupID key =? 0) || (sk_ActionClass key =? 0)
  then Some (ErrDetail ErrInvalidScope "cgroup id and action class must be non-zero")
  else if sk_AddressFamily key =? AddressFamilyWildcard then
    if negb (sk_DestinationPort key =? 0) || negb (sk_Protocol key =? 0) ||
       negb (str_eqb (sk_DestinationAddr key) (zeros 16))
    then Some (ErrDetail ErrInvalidScope "wildcard scope cannot contain destination fields")
    else None
  else if (sk_AddressFamily key =? AddressFamilyIPv4) || (sk_AddressFamily key =? AddressFamilyIPv6) then
    if (sk_DestinationPort key =? 0) || (sk_Protocol key =? 0)
    then Some (ErrDetail ErrInvalidScope "exact network scope requires port and protocol")
    else None
  else Some (ErrDetail ErrInvalidScope ("unsupported address family " +:+ pretty (sk_AddressFamily key))).

(** * [encoding.go] *)

Definition ABI_unsupported (what : string) (n : Z) : error := ErrNew ("unsupported " +:+ what +:+ " " +:+ pretty n).

Definition MarshalScopeKey (key : ScopeKey) : result string :=
  match validateScopeKey key with
  | Some err => Error err
  | None => marshalFixed key ScopeKeySize
  end.

Definition MarshalScopeFenceKey (key : ScopeFenceKey) : result string :=
  if (fk_CgroupID key =? 0) || (fk_ActionClass key =? 0) then Error ErrInvalidScope
  else marshalFixed key ScopeFenceKeySize.

Definition MarshalScopeFenceState (state : ScopeFenceState) : result string :=
  if (fs_AuthorityTerm state =? 0) || (fs_DecisionEpoch state =? 0)
  then Error (ErrDetail ErrInvalidCapsule "invalid scope fence state")
  else marshalFixed state ScopeFenceStateSize.

Definition DecodeScopeFenceState (payload : string) : result ScopeFenceState :=
  if negb (String.length payload =? ScopeFenceStateSize)%nat
  then Error (size_mismatch "scope fence state" (String.length payload) ScopeFenceStateSize)
  else match binary_Read payload with
  | Error err => Error (ErrWrap "decode scope fence state" err)
  | Ok state =>
      if (fs_AuthorityTerm state =? 0) || (fs_DecisionEpoch state =? 0)
      then Error (ErrDetail ErrInvalidCapsule "invalid scope fence state")
      else if str_eqb (fs_BootIDHash state) (zeros 32)
      then Error (ErrDetail ErrInvalidCapsule "scope fence boot id hash is required")
      else Ok state
  end.

Definition MarshalDecisionCapsule (capsule : DecisionCapsule) : result string :=
  match ValidateCapsule capsule with
  | Some err => Error err
  | None => marshalFixed capsule DecisionCapsuleSize
  end.

Definition MarshalEvidenceEvent (event : EvidenceEvent) : result string :=
  if negb (ee_ABIVersion event =? EvidenceEventVersion)
  then Error (ABI_unsupported "evidence event ABI version" (ee_ABIVersion event))
  else if negb (ee_EventType event =? EvidenceEventEnforcement)
  then Error (ABI_unsupported "evidence event type" (ee_EventType event))
  else if ee_Sequence event =? 0 then Error (ErrNew "evidence event sequence must be non-zero")
  else marshalFixed event EvidenceEventSize.

Definition DecodeEvidenceEvent (payload : string) : result EvidenceEvent :=
  if negb (String.length payload =? EvidenceEventSize)%nat
  then Error (size_mismatch "kernel evidence event" (String.length payload) EvidenceEventSize)
  else match binary_Read payload with
  | Error err => Error (ErrWrap "decode kernel evidence event" err)
  | Ok event =>
      if negb (ee_ABIVersion event =? EvidenceEventVersion)
      then Error (ABI_unsupported "evidence event ABI version" (ee_ABIVersion event))
      else if negb (ee_EventType event =? EvidenceEventEnforcement)
      then Error (ABI_unsupported "evidence event type" (ee_EventType event))
      else if ee_Sequence event =? 0 then Error (ErrNew "kernel evidence event has zero sequence")
      else Ok event
  end.

Definition MarshalEvidenceAccounting (accounting : EvidenceAccounting) : result string :=
  marshalFixed accounting EvidenceAccountingSize.

(** ["emitted=%d lost=%d sequence=%d"] *)
Definition counters_text (emitted lost sequence : Z) : string :=
  "emitted=" +:+ pretty emitted +:+ " lost=" +:+ pretty lost +:+ " sequence=" +:+ pretty sequence.

(** [Emitted+Lost > Sequence], with the wrap-around of uint64. *)
Definition counters_inconsistent (emitted lost sequence : Z) : bool := sequence <? wrap_u64 (emitted + lost).

Definition DecodeEvidenceAccounting (payload : string) : result EvidenceAccounting :=
  if negb (String.length payload =? EvidenceAccountingSize)%nat
  then Error (size_mismatch "kernel evidence accounting" (String.length payload) EvidenceAccountingSize)
  else match binary_Read payload with
  | Error err => Error (ErrWrap "decode kernel evidence accounting" err)
  | Ok accounting =>
      if counters_inconsistent (ea_Emitted accounting) (ea_Lost accounting) (ea_Sequence accounting)
      then Error (ErrNew ("kernel evidence accounting is inconsistent: " +:+
             counters_text (ea_Emitted accounting) (ea_Lost accounting) (ea_Sequence accounting)))
      else Ok accounting
  end.

(** * [taint_abi.go] and [taint_encoding.go] *)

Definition TaintABIVersion : Z := 1.
Definition TaintOperationRead : Z := 1.
Definition TaintOperationWrite : Z := 2.
Definition TaintOperationFork : Z := 3.
Definition TaintOperationConnect : Z := 4.
Definition TaintOperationIdentityChange : Z := 5.
Definition TaintEventSourceRead : Z := 1.
Definition TaintEventPropagatedRead : Z := 2.
Definition TaintEventPropagatedWrite : Z := 3.
Definition TaintEventForkPropagation : Z := 4.
Definition TaintEventPropagationFailure : Z := 5.
Definition TaintEventEgressAllow : Z := 6.
Definition TaintEventEgressDeny : Z := 7.
Definition TaintEventFileReadObserved : Z := 8.
Definition TaintEventSourceInvalidated : Z := 9.
Definition TaintFileKeySize : nat := 16.
Definition TaintEventSize : nat := 72.
Definition TaintAccountingSize : nat := 24.

Definition ErrTaintABIInvalid : error := ErrNew "kernel taint ABI value is invalid".
Definition ErrTaintLabelUnmapped : error := ErrNew "kernel taint label bit is unmapped".
Definition ErrTaintLabelMapInvalid : error := ErrNew "kernel taint label registry is invalid".

Record TaintFileKey : Type := { tk_Device : Z; tk_Inode : Z }.

Record TaintEvent : Type := {
  tn_Sequence : Z; tn_ObservedAtMonoNS : Z; tn_CgroupID : Z; tn_FileDevice : Z; tn_FileInode : Z;
  tn_Labels : Z; tn_TGID : Z; tn_RelatedTGID : Z; tn_EventType : Z; tn_Operation : Z;
  tn_ABIVersion : Z; tn_Reserved : Z }.

Record TaintAccounting : Type := { ta_Sequence : Z; ta_Emitted : Z; ta_Lost : Z }.

#[export] Instance TaintFileKey_fixed : Fixed TaintFileKey :=
  struct (λ '(Build_TaintFileKey a b), (a, b)) (λ '(a, b), Build_TaintFileKey a b) (u64 ⋅ u64).
#[export] Instance TaintEvent_fixed : Fixed TaintEvent :=
  struct (λ '(Build_TaintEvent a b c d e f g h i j k l), (a, b, c, d, e, f, g, h, i, j, k, l))
    (λ '(a, b, c, d, e, f, g, h, i, j, k, l), Build_TaintEvent a b c d e f g h i j k l)
    (u64 ⋅ u64 ⋅ u64 ⋅ u64 ⋅ u64 ⋅ u64 ⋅ u32 ⋅ u32 ⋅ u32 ⋅ u32 ⋅ u32 ⋅ u32).
#[export] Instance TaintAccounting_fixed : Fixed TaintAccounting :=
  struct (λ '(Build_TaintAccounting a b c), (a, b, c)) (λ '(a, b, c), Build_TaintAccounting a b c)
    (u64 ⋅ u64 ⋅ u64).

#[export] Instance TaintFileKey_lawful : Lawful TaintFileKey_fixed.
Proof. solve_struct. Qed.
#[export] Instance TaintEvent_lawful : Lawful TaintEvent_fixed.
Proof. solve_struct. Qed.
#[export] Instance TaintAccounting_lawful : Lawful TaintAccounting_fixed.
Proof. solve_struct. Qed.

Definition MarshalTaintFileKey (key : TaintFileKey) : result string :=
  if (tk_Device key =? 0) || (tk_Inode key =? 0)
  then Error (ErrDetail ErrTaintABIInvalid "taint file identity is incomplete")
  else marshalFixed key TaintFileKeySize.

Definition DecodeTaintEvent (payload : string) : result TaintEvent :=
  if negb (String.length payload =? TaintEventSize)%nat
  then Error (size_mismatch "kernel taint event" (String.length payload) TaintEventSize)
  else match binary_Read payload with
  | Error err => Error (ErrWrap "decode kernel taint event" err)
  | Ok event =>
      let invalid detail := Error (ErrDetail ErrTaintABIInvalid detail) in
      if negb (tn_ABIVersion event =? TaintABIVersion)
      then invalid ("unsupported taint ABI version " +:+ pretty (tn_ABIVersion event))
      else if (tn_Sequence event =? 0) || (tn_CgroupID event =? 0) || (tn_TGID event =? 0)
      then invalid "taint event identity is incomplete"
      else if (tn_EventType event <? TaintEventSourceRead) || (TaintEventFileReadObserved <? tn_EventType event)
      then invalid ("unsupported event type " +:+ pretty (tn_EventType event))
      else if (tn_Operation event <? TaintOperationRead) || (TaintOperationConnect <? tn_Operation event)
      then invalid ("unsupported operation " +:+ pretty (tn_Operation event))
      else if negb (tn_Reserved event =? 0) then invalid "reserved field is non-zero"
      else Ok event
  end.

Definition MarshalTaintAccounting (accounting : TaintAccounting) : result string :=
  if counters_inconsistent (ta_Emitted accounting) (ta_Lost accounting) (ta_Sequence accounting)
  then Error (ErrDetail ErrTaintABIInvalid "taint accounting is inconsistent")
  else marshalFixed accounting TaintAccountingSize.

Definition DecodeTaintAccounting (payload : string) : result TaintAccounting :=
  if negb (String.length payload =? TaintAccountingSize)%nat
  then Error (size_mismatch "kernel taint accounting" (String.length payload) TaintAccountingSize)
  else match binary_Read payload with
  | Error err => Error (ErrWrap "decode kernel taint accounting" err)
  | Ok accounting =>
      if counters_inconsistent (ta_Emitted accounting) (ta_Lost accounting) (ta_Sequence accounting)
      then Error (ErrDetail ErrTaintABIInvalid
             (counters_text (ta_Emitted accounting) (ta_Lost accounting) (ta_Sequence accounting)))
      else Ok accounting
  end.

(** ** Labels *)

(** [for bit, label := range labelByBit]: Go visits the entries in any order. *)
Fixpoint registry_loop (entries : list (Z * string)) (seenLabels : gset string) : option error :=
  match entries with
  | [] => None
  | (bit, label) :: rest =>
      if 64 <=? bit then Some (ErrDetail ErrTaintLabelMapInvalid ("bit " +:+ pretty bit))
      else if invalid_label label then Some (ErrDetail ErrTaintLabelMapInvalid ("label " +:+ label))
      else if bool_decide (label ∈ seenLabels)
      then Some (ErrDetail ErrTaintLabelMapInvalid ("duplicate label " +:+ label))
      else registry_loop rest ({[label]} ∪ seenLabels)
  end.

(** [for bit := uint8(0); bit < 64; bit++] over the bits still to come. *)
Fixpoint bits_loop (bits : Z) (labelByBit : gmap Z string) (todo : list Z) (labels : list string)
    : result (list string) :=
  match todo with
  | [] => Ok labels
  | bit :: todo' =>
      if Z.land bits (Z.shiftl 1 bit) =? 0 then bits_loop bits labelByBit todo' labels
      else match labelByBit !! bit with
           | None => Error (ErrDetail ErrTaintLabelUnmapped ("bit " +:+ pretty bit))
           | Some label => bits_loop bits labelByBit todo' (labels ++ [label])
           end
  end.

Definition DecodeTaintLabels (range : gmap Z string → list (Z * string)) (bits : Z)
    (labelByBit : gmap Z string) : result (list string) :=
  if bits =? 0 then Ok []
  else if (size labelByBit =? 0)%nat then Error ErrTaintLabelUnmapped
  else match registry_loop (range labelByBit) ∅ with
  | Some err => Error err
  | None => labels ← bits_loop bits labelByBit (seqZ 0 64) []; Ok (sort_strings labels)
  end.

Definition BuildTaintEvidence (range : gmap Z string → list (Z * string))
    (subjectRef monitorRef monitorEpoch : string) (bits : Z) (labelByBit : gmap Z string)
    : result TaintEvidence :=
  if blank subjectRef || blank monitorRef || blank monitorEpoch
  then Error (ErrDetail ErrTaintABIInvalid "evidence provenance is incomplete")
  else
    labels ← DecodeTaintLabels range bits labelByBit;
    Ok {| tv_SubjectRef := subjectRef; tv_MonitorRef := monitorRef;
          tv_MonitorEpoch := monitorEpoch; tv_Labels := labels |}.

(** * Facts *)

Section Codecs.
Context {A : Type} `{F : Fixed A} `{!Lawful F}.

(** [a] is a value of its Go type: every field has its width. *)
Definition typed (a : A) : Prop := c_valid F a.

Lemma marshalFixed_typed a n : typed a → c_size F = n → marshalFixed a n = Ok (c_put F a).
Proof.
  intros Ha <-. unfold marshalFixed, fixed. rewrite put_length by done. by rewrite Nat.eqb_refl.
Qed.

Lemma binary_Read_exact p a : String.length p = c_size F →
  binary_Read p = Ok a ↔ typed a ∧ c_put F a = p.
Proof.
  intros Hl. unfold binary_Read, fixed. rewrite Hl, Nat.ltb_irrefl.
  destruct (get_spec F p) as (b & rest & Hg & Hb & Hp & Hr); [lia|].
  assert (rest = "") as -> by (destruct rest; [done|simpl in Hr; lia]).
  rewrite Hg, string_app_nil_r in *. simpl. split.
  - by intros [= ->].
  - intros [Ha Hpa]. f_equal. pose proof (get_put (c := F) a "" Ha) as H.
    rewrite string_app_nil_r, Hpa, Hg in H. by injection H.
Qed.

Lemma binary_Read_long p e : String.length p = c_size F → binary_Read p ≠ Error e.
Proof. intros Hl. unfold binary_Read, fixed. by rewrite Hl, Nat.ltb_irrefl. Qed.

(** A decoder that checks the size, reads the structure and runs [check]
    inverts an encoder that runs the same check. *)
Lemma decode_exact (n : nat) (check : A → option error) (wrap : error → error) short p a :
  c_size F = n →
  (if negb (String.length p =? n)%nat then Error short
   else match binary_Read p with
        | Error e => Error (wrap e)
        | Ok x => match check x with Some e => Error e | None => Ok x end
        end) = Ok a ↔ typed a ∧ check a = None ∧ marshalFixed a n = Ok p.
Proof.
  intros Hn. destruct (String.length p =? n)%nat eqn:Hl; simpl.
  - apply Nat.eqb_eq in Hl. rewrite <- Hn in Hl. pose proof (binary_Read_exact p a Hl) as He.
    destruct (binary_Read p) as [x|e] eqn:Hr; [|by destruct (binary_Read_long p e)].
    split.
    + destruct (check x) eqn:Hc; [done|]. intros [= ->]. destruct (proj1 He eq_refl) as [Ht <-].
      split_and!; [done..|]. by apply marshalFixed_typed.
    + intros (Ht & Hc & Hm). rewrite marshalFixed_typed in Hm by done. injection Hm as Hm.
      pose proof (proj2 He (conj Ht Hm)) as [= ->]. by rewrite Hc.
  - split; [done|]. intros (Ht & _ & Hm). rewrite marshalFixed_typed in Hm by done.
    injection Hm as <-. rewrite put_length, Hn, Nat.eqb_refl in Hl by done. done.
Qed.

Lemma marshal_inj n a b p : c_size F = n → typed a → typed b →
  marshalFixed a n = Ok p → marshalFixed b n = Ok p → a = b.
Proof.
  intros Hn Ha Hb. rewrite !marshalFixed_typed by done. intros [= <-] [= Hp].
  pose proof (get_put (c := F) a "" Ha) as H. pose proof (get_put (c := F) b "" Hb) as H'.
  rewrite Hp, H in H'. by injection H'.
Qed.
End Codecs.

(** Case analysis on the conditions of the goal. *)
Ltac split_ifs := repeat match goal with |- context [if ?b then _ else _] => destruct b eqn:? end.

(** The checks of the encoders, and of the decoders, as options. *)
Definition fence_state_check (s : ScopeFenceState) : option error :=
  if (fs_AuthorityTerm s =? 0) || (fs_DecisionEpoch s =? 0)
  then Some (ErrDetail ErrInvalidCapsule "invalid scope fence state")
  else if str_eqb (fs_BootIDHash s) (zeros 32)
  then Some (ErrDetail ErrInvalidCapsule "scope fence boot id hash is required") else None.

Lemma DecodeScopeFenceState_exact p s :
  DecodeScopeFenceState p = Ok s ↔
  typed s ∧ fs_BootIDHash s ≠ zeros 32 ∧ MarshalScopeFenceState s = Ok p.
Proof.
  pose proof (decode_exact 56 fence_state_check (ErrWrap "decode scope fence state")
    (size_mismatch "scope fence state" (String.length p) ScopeFenceStateSize) p s eq_refl) as H.
  transitivity (typed s ∧ fence_state_check s = None ∧ marshalFixed s 56 = Ok p).
  - rewrite <- H. unfold DecodeScopeFenceState, fence_state_check, ScopeFenceStateSize.
    destruct (negb _); [done|]. destruct (binary_Read p) as [x|e]; [|done].
    destruct (_ || _); [done|]. by destruct (str_eqb _ _).
  - unfold fence_state_check, MarshalScopeFenceState. destruct (_ || _); [intuition congruence|].
    destruct (str_eqb _ _) eqn:E; split_bool; intuition congruence.
Qed.

Definition event_check (zero : error) (e : EvidenceEvent) : option error :=
  if negb (ee_ABIVersion e =? EvidenceEventVersion)
  then Some (ABI_unsupported "evidence event ABI version" (ee_ABIVersion e))
  else if negb (ee_EventType e =? EvidenceEventEnforcement)
  then Some (ABI_unsupported "evidence event type" (ee_EventType e))
  else if ee_Sequence e =? 0 then Some zero else None.

Lemma DecodeEvidenceEvent_exact p e :
  DecodeEvidenceEvent p = Ok e ↔ typed e ∧ MarshalEvidenceEvent e = Ok p.
Proof.
  pose proof (decode_exact 128 (event_check (ErrNew "kernel evidence event has zero sequence"))
    (ErrWrap "decode kernel evidence event")
    (size_mismatch "kernel evidence event" (String.length p) EvidenceEventSize) p e eq_refl) as H.
  etransitivity; [etransitivity; [|exact H]|].
  - unfold DecodeEvidenceEvent, event_check, EvidenceEventSize. destruct (negb _); [done|].
    destruct (binary_Read p) as [x|err]; [|done]. by split_ifs.
  - unfold event_check, MarshalEvidenceEvent. split_ifs; intuition congruence.
Qed.

Lemma DecodeEvidenceAccounting_exact p a :
  DecodeEvidenceAccounting p = Ok a ↔
  typed a ∧ counters_inconsistent (ea_Emitted a) (ea_Lost a) (ea_Sequence a) = false ∧
  MarshalEvidenceAccounting a = Ok p.
Proof.
  unfold MarshalEvidenceAccounting, DecodeEvidenceAccounting, EvidenceAccountingSize.
  pose proof (decode_exact 24 (λ a : EvidenceAccounting,
    guard_err (counters_inconsistent (ea_Emitted a) (ea_Lost a) (ea_Sequence a))
      (ErrNew ("kernel evidence accounting is inconsistent: " +:+
         counters_text (ea_Emitted a) (ea_Lost a) (ea_Sequence a))))
    (ErrWrap "decode kernel evidence accounting")
    (size_mismatch "kernel evidence accounting" (String.length p) 24) p a eq_refl) as H.
  rewrite guard_err_None in H. rewrite <- H. destruct (negb _); [done|].
  destruct (binary_Read p) as [x|e]; [|done]. unfold guard_err. by destruct (counters_inconsistent _ _ _).
Qed.

Lemma DecodeTaintAccounting_exact p a :
  DecodeTaintAccounting p = Ok a ↔ typed a ∧ MarshalTaintAccounting a = Ok p.
Proof.
  unfold MarshalTaintAccounting, DecodeTaintAccounting, TaintAccountingSize.
  pose proof (decode_exact 24 (λ a : TaintAccounting,
    guard_err (counters_inconsistent (ta_Emitted a) (ta_Lost a) (ta_Sequence a))
      (ErrDetail ErrTaintABIInvalid (counters_text (ta_Emitted a) (ta_Lost a) (ta_Sequence a))))
    (ErrWrap "decode kernel taint accounting")
    (size_mismatch "kernel taint accounting" (String.length p) 24) p a eq_refl) as H.
  etransitivity; [etransitivity; [|exact H]|].
  - destruct (negb _); [done|]. destruct (binary_Read p) as [x|e]; [|done].
    unfold guard_err. by destruct (counters_inconsistent _ _ _).
  - unfold guard_err. destruct (counters_inconsistent _ _ _); intuition congruence.
Qed.

(** ** Digests *)

Definition lower_digit (a : ascii) : ascii :=
  let n := N_of_ascii a in if ((65 <=? n) && (n <=? 70))%N then ascii_of_N (n + 32) else a.

(** Hexadecimal text with its letters A to F in lower case. *)
Fixpoint hex_lower (s : string) : string :=
  match s with "" => "" | String a s' => String (lower_digit a) (hex_lower s') end.

Definition hex_value_agrees (a : ascii) : bool :=
  match hex_value a with
  | Some x => ((x <? 16)%N && bool_decide (lower_digit a = hex_digit x))
  | None => forallb (λ n, negb (bool_decide (lower_digit a = hex_digit (N.of_nat n)))) (seq 0 16)
  end.

Lemma all_bytes (f : ascii → bool) :
  forallb (λ n, f (ascii_of_nat n)) (seq 0 256) = true → ∀ a, f a = true.
Proof.
  intros H a. rewrite forallb_forall in H. rewrite <- (ascii_nat_embedding a). apply H, in_seq.
  pose proof (nat_ascii_bounded a). lia.
Qed.

Lemma hex_value_spec a x : hex_value a = Some x ↔ (x < 16)%N ∧ lower_digit a = hex_digit x.
Proof.
  assert (hex_value_agrees a = true) as H by (revert a; apply all_bytes; vm_compute; reflexivity).
  unfold hex_value_agrees in H. destruct (hex_value a) as [y|].
  - apply andb_prop in H as [Hy%N.ltb_lt Hd%bool_decide_eq_true]. split; [by intros [= ->]|].
    intros [Hx Hl]. f_equal. apply hex_digit_inj; [done..|congruence].
  - split; [done|]. intros [Hx Hl]. rewrite forallb_forall in H.
    specialize (H (N.to_nat x)). rewrite N2Nat.id, in_seq, Hl, bool_decide_true in H by done.
    discriminate H. lia.
Qed.

Lemma string_pair_ind (P : string → Prop) :
  P "" → (∀ a, P (String a "")) → (∀ a b s, P s → P (String a (String b s))) → ∀ s, P s.
Proof.
  intros H0 H1 H2 s. enough (P s ∧ ∀ a, P (String a s)) as [? _] by done.
  induction s as [|a s [IH1 IH2]]; [by split|]. split; [apply IH2|]. intros b. by apply H2.
Qed.

Lemma byte_split a : ascii_of_N (16 * (N_of_ascii a / 16) + N_of_ascii a mod 16) = a.
Proof. rewrite <- N.div_mod by done. apply ascii_N_embedding. Qed.

Lemma hex_decode_exact raw d : hex_DecodeString raw = Ok d ↔ hex_lower raw = hex_encode d.
Proof.
  revert d. induction raw as [|a|a b raw IH] using string_pair_ind; intros d.
  - destruct d; simpl; naive_solver.
  - simpl. split; [by destruct (hex_value a)|]. by destruct d.
  - cbn [hex_DecodeString hex_lower].
    pose proof (hex_value_spec a) as Ha. pose proof (hex_value_spec b) as Hb.
    destruct d as [|c d].
    { simpl. split; [|done]. destruct (hex_value a), (hex_value b); [|done..].
      unfold mbind, result_bind. by destruct (hex_DecodeString raw). }
    cbn [hex_encode]. pose proof (byte_lt_256 c) as Hc.
    assert (N_of_ascii c / 16 < 16)%N as Hh by (apply N.Div0.div_lt_upper_bound; lia).
    assert (N_of_ascii c mod 16 < 16)%N as Hm by (by apply N.mod_lt).
    split.
    + destruct (hex_value a) as [x|], (hex_value b) as [y|]; try done.
      destruct (proj1 (Ha x) eq_refl) as [Hx Hxa]. destruct (proj1 (Hb y) eq_refl) as [Hy Hyb].
      unfold mbind, result_bind. destruct (hex_DecodeString raw) as [d'|]; [|done].
      intros [= Hcc ->]. rewrite (proj1 (IH d) eq_refl), Hxa, Hyb.
      assert (N_of_ascii c = 16 * x + y)%N as -> by (rewrite <- Hcc; apply N_ascii_embedding; lia).
      rewrite N.mul_comm, N.div_add_l, (N.div_small y 16), N.add_0_r by done.
      by rewrite N.add_comm, N.Div0.mod_add, N.mod_small.
    + intros [= Hxa Hyb Hr]. rewrite (proj2 (Ha _) (conj Hh Hxa)), (proj2 (Hb _) (conj Hm Hyb)).
      rewrite (proj2 (IH d) Hr). unfold mbind, result_bind. by rewrite byte_split.
Qed.

Lemma strip_prefix_spec p s raw : strip_prefix p s = Some raw ↔ s = p +:+ raw.
Proof.
  revert s. induction p as [|a p IH]; intros s; simpl.
  - split; [by intros [= ->]|by intros ->].
  - destruct s as [|b s]; [done|]. rewrite string_app_cons. destruct (Ascii.eqb a b) eqn:E.
    + apply Ascii.eqb_eq in E as ->. rewrite IH. naive_solver.
    + apply Ascii.eqb_neq in E. naive_solver.
Qed.

Lemma hex_encode_length s : String.length (hex_encode s) = (2 * String.length s)%nat.
Proof. induction s as [|c s IH]; simpl; [done|]. rewrite IH. simpl. lia. Qed.

Lemma hex_lower_length s : String.length (hex_lower s) = String.length s.
Proof. induction s as [|c s IH]; simpl; [done|]. by rewrite IH. Qed.

(** Visible ASCII text has nothing to trim. *)
Definition visible (a : ascii) : Prop := (33 ≤ N_of_ascii a ≤ 126)%N.

Lemma trim_visible s2 s3 l :
  (∀ a b, visible a → s2 a b = false) → (∀ a b c, visible a → s3 a b c = false) →
  Forall visible l → trim_left_with s2 s3 l = l.
Proof.
  intros H2 H3 Hl. destruct Hl as [|a l Ha Hl]; [done|]. simpl.
  assert (space1 a = false) as ->.
  { assert (negb (space1 a) || (N_of_ascii a <=? 32)%N = true) as H.
    { revert a Ha. intros a _. revert a. apply all_bytes. vm_compute. reflexivity. }
    apply orb_prop in H as [?|?%N.leb_le]; [by apply negb_true_iff|]. unfold visible in Ha. lia. }
  destruct l as [|b l]; [done|]. rewrite H2 by done. destruct l as [|c l]; [done|]. by rewrite H3.
Qed.

Lemma TrimSpace_visible s : Forall visible (String.list_ascii_of_string s) → TrimSpace s = s.
Proof.
  intros Hs. unfold TrimSpace, trim_left, trim_right.
  assert (∀ a, visible a → (33 ≤ byte_of a ≤ 126)%N) as Hv by (intros a Ha; exact Ha).
  rewrite (trim_visible space2 space3); [|..|done].
  2:{ intros a b Ha%Hv. unfold space2. apply andb_false_iff. left. apply N.eqb_neq. lia. }
  2:{ intros a b c Ha%Hv. unfold space3. repeat rewrite (proj2 (N.eqb_neq (byte_of a) _)) by lia. done. }
  rewrite trim_visible; [|..|by apply Forall_reverse].
  2:{ intros a b Ha%Hv. unfold space2. rewrite !(proj2 (N.eqb_neq (byte_of a) _)) by lia.
      by rewrite andb_false_r. }
  2:{ intros a b c Ha%Hv. unfold space3.
      rewrite !(proj2 (N.eqb_neq (byte_of a) _)) by lia.
      rewrite (proj2 (N.leb_gt 0x80 (byte_of a))) by lia. by rewrite !andb_false_r. }
  by rewrite reverse_involutive, String.string_of_list_ascii_of_string.
Qed.

Lemma list_ascii_app s t :
  String.list_ascii_of_string (s +:+ t) = String.list_ascii_of_string s ++ String.list_ascii_of_string t.
Proof. induction s as [|c s IH]; [done|]. rewrite string_app_cons. simpl. by rewrite IH. Qed.

Lemma hex_visible s : Forall visible (String.list_ascii_of_string (hex_encode s)).
Proof.
  assert (∀ n, (n < 16)%N → visible (hex_digit n)) as H.
  { intros n Hn. assert (n ∈ N.of_nat <$> seq 0 16) as Hin.
    { apply list_elem_of_fmap. exists (N.to_nat n). rewrite N2Nat.id. split; [done|].
      apply elem_of_seq. lia. }
    assert (Forall (λ m, visible (hex_digit m)) (N.of_nat <$> seq 0 16)) as Hf
      by (simpl; repeat constructor; unfold visible; vm_compute; done).
    rewrite Forall_forall in Hf. by apply Hf. }
  induction s as [|c s IH]; simpl; [constructor|]. pose proof (byte_lt_256 c).
  constructor; [apply H, N.Div0.div_lt_upper_bound; lia|].
  constructor; [apply H, N.mod_lt; done|done].
Qed.

Lemma TrimSpace_digest d : TrimSpace ("sha256:" +:+ hex_encode d) = "sha256:" +:+ hex_encode d.
Proof.
  apply TrimSpace_visible. rewrite list_ascii_app. apply Forall_app. split; [|apply hex_visible].
  repeat constructor; unfold visible; vm_compute; done.
Qed.

Lemma hex_lower_encode s : hex_lower (hex_encode s) = hex_encode s.
Proof.
  induction s as [|c s IH]; [done|]. cbn [hex_encode hex_lower]. rewrite IH.
  assert (bool_decide (lower_digit (hex_digit (N_of_ascii c / 16)) = hex_digit (N_of_ascii c / 16)) &&
          bool_decide (lower_digit (hex_digit (N_of_ascii c mod 16)) = hex_digit (N_of_ascii c mod 16)) = true)
    as [->%bool_decide_eq_true ->%bool_decide_eq_true]%andb_prop; [|done].
  revert c. apply (all_bytes (λ c,
    bool_decide (lower_digit (hex_digit (N_of_ascii c / 16)) = hex_digit (N_of_ascii c / 16)) &&
    bool_decide (lower_digit (hex_digit (N_of_ascii c mod 16)) = hex_digit (N_of_ascii c mod 16)))).
  vm_compute. reflexivity.
Qed.

(** ** Scope keys *)

Definition scope_typed (s : NetworkScope) : Prop :=
  is_u64 (ns_CgroupID s) ∧ 0 ≤ ns_Port s < 2 ^ 16 ∧ 0 ≤ ns_Protocol s < 2 ^ 8 ∧
  Addr_wf (ns_Destination s).

(** A destination up to the IPv6 zone, which the kernel key does not carry. *)
Definition unzoned (a : Addr) : Addr := match a with AddrV6 b _ => AddrV6 b "" | _ => a end.

Definition same_destination (s t : NetworkScope) : Prop :=
  ns_CgroupID s = ns_CgroupID t ∧ unzoned (ns_Destination s) = unzoned (ns_Destination t) ∧
  ns_Port s = ns_Port t ∧ ns_Protocol s = ns_Protocol t.

Lemma ExactKey_inv s k : ExactKey s = Ok k →
  ns_CgroupID s ≠ 0 ∧ ns_Port s ≠ 0 ∧ ns_Protocol s ≠ 0 ∧
  ∃ family addr,
    k = {| sk_CgroupID := ns_CgroupID s; sk_ActionClass := ActionClassNetworkConnect;
           sk_AddressFamily := family; sk_DestinationAddr := addr;
           sk_DestinationPort := ns_Port s; sk_Protocol := ns_Protocol s |} ∧
    match ns_Destination s with
    | AddrZero => False
    | AddrV4 v4 => family = AddressFamilyIPv4 ∧ addr = v4 +:+ zeros 12
    | AddrV6 v6 _ => family = AddressFamilyIPv6 ∧ addr = v6
    end.
Proof.
  unfold ExactKey. destruct (ns_CgroupID s =? 0) eqn:Hc; [done|].
  destruct (ns_Destination s); [done|..];
    (destruct (ns_Port s =? 0) eqn:Hp; [done|]; destruct (ns_Protocol s =? 0) eqn:Hr; [done|];
     intros [= <-]; apply Z.eqb_neq in Hc, Hp, Hr; split_and!; eauto 10).
Qed.

Lemma ExactKey_typed s k : scope_typed s → ExactKey s = Ok k → typed k ∧ validateScopeKey k = None.
Proof.
  intros (Hc & Hp & Hr & Ha) (H1 & H2 & H3 & family & addr & -> & Hd)%ExactKey_inv.
  apply Z.eqb_neq in H1, H2, H3.
  assert (String.length addr = 16%nat ∧ (family = AddressFamilyIPv4 ∨ family = AddressFamilyIPv6)) as [Hl Hf].
  { destruct (ns_Destination s); [done|..]; destruct Hd as [-> ->]; [|by auto].
    rewrite string_length_app. simpl in Ha. rewrite Ha. by auto. }
  split.
  - unfold is_u64 in Hc. change (2 ^ 16) with 65536 in Hp. change (2 ^ 8) with 256 in Hr.
    unfold typed. simpl. destruct Hf as [-> | ->]; unfold ActionClassNetworkConnect, AddressFamilyIPv4, AddressFamilyIPv6; lia.
  - unfold validateScopeKey. simpl. rewrite H1, H2, H3. by destruct Hf as [-> | ->].
Qed.

(** ** Labels *)

Definition registry_valid (m : gmap Z string) : Prop :=
  (∀ bit label, m !! bit = Some label → bit < 64 ∧ label_ok label) ∧
  (∀ b1 b2 label, m !! b1 = Some label → m !! b2 = Some label → b1 = b2).

Lemma registry_loop_None entries seen :
  registry_loop entries seen = None ↔
  Forall (λ '(bit, label), bit < 64 ∧ label_ok label ∧ label ∉ seen) entries ∧ NoDup entries.*2.
Proof.
  revert seen. induction entries as [|[bit label] l IH]; intros seen.
  { simpl. split; [|done]. intros _. split; constructor. }
  rewrite fmap_cons, Forall_cons, NoDup_cons. cbn [registry_loop snd].
  destruct (64 <=? bit) eqn:Hb; [apply Z.leb_le in Hb; split; [done|]; intros [[[? _] _] _]; lia|].
  apply Z.leb_gt in Hb. unfold label_ok. destruct (invalid_label label); [naive_solver|].
  case_bool_decide as Hin; [naive_solver|]. rewrite IH.
  assert (Forall (λ '(b, x), b < 64 ∧ invalid_label x = false ∧ x ∉ ({[label]} ∪ seen : gset string)) l ↔
    Forall (λ '(b, x), b < 64 ∧ invalid_label x = false ∧ x ∉ seen) l ∧ label ∉ l.*2) as ->; [|naive_solver].
  rewrite !Forall_forall, list_elem_of_fmap. split.
  - intros H. split; [|intros ([b x] & -> & Hx%H); set_solver]. intros [b x] Hx%H. set_solver.
  - intros [H Hn] [b x] Hx. destruct (H _ Hx) as (? & ? & ?). split_and!; [done..|].
    intros [->%elem_of_singleton|]%elem_of_union; [|done]. apply Hn. by exists (b, label).
Qed.

Lemma bits_loop_Ok bits m todo acc labels :
  bits_loop bits m todo acc = Ok labels ↔
  (∀ b, b ∈ todo → Z.land bits (Z.shiftl 1 b) ≠ 0 → is_Some (m !! b)) ∧
  labels = acc ++ omap (λ b, m !! b) (filter (λ b, Z.land bits (Z.shiftl 1 b) ≠ 0) todo).
Proof.
  revert acc. induction todo as [|b todo IH]; intros acc.
  { simpl. rewrite app_nil_r. split; [|by intros [_ ->]]. intros [= ->]. split; [|done].
    intros b Hb. by apply elem_of_nil in Hb. }
  cbn [bits_loop]. setoid_rewrite elem_of_cons. rewrite filter_cons.
  destruct (Z.land bits (Z.shiftl 1 b) =? 0) eqn:Hb.
  - apply Z.eqb_eq in Hb. rewrite decide_False by auto. rewrite IH. naive_solver.
  - apply Z.eqb_neq in Hb. rewrite decide_True by done. cbn [omap list_omap].
    destruct (m !! b) as [x|] eqn:Hm; [|split; [done|intros [H _]; destruct (H b) as [? ?]; eauto; congruence]].
    rewrite IH, <- app_assoc. simpl. split; [|naive_solver]. intros [H1 ->]. split; [|done].
    intros b' [->|Hin] Hb'; eauto.
Qed.

Lemma bit_set bits b : 0 ≤ b → Z.land bits (Z.shiftl 1 b) ≠ 0 ↔ Z.testbit bits b = true.
Proof.
  intros Hb. rewrite Z.shiftl_1_l. split.
  - intros H. destruct (Z.testbit bits b) eqn:E; [done|]. destruct H. apply Z.bits_inj'. intros n Hn.
    rewrite Z.land_spec, Z.pow2_bits_eqb, Z.bits_0 by done.
    destruct (Z.eqb_spec b n) as [->|]; [by rewrite E|apply andb_false_r].
  - intros E H. apply (f_equal (λ z, Z.testbit z b)) in H.
    by rewrite Z.land_spec, Z.pow2_bits_true, E, Z.bits_0 in H.
Qed.

(** The labels of the set bits, lowest bit first. *)
Definition observed_labels (bits : Z) (m : gmap Z string) : list string :=
  omap (λ b, m !! b) (filter (λ b, Z.land bits (Z.shiftl 1 b) ≠ 0) (seqZ 0 64)).

Section Labels.
Context (range : gmap Z string → list (Z * string)).
(** Ranging over a map visits each entry once, in some order. *)
Context (range_entries : ∀ m, range m ≡ₚ map_to_list m).

Lemma registry_valid_loop m : registry_loop (range m) ∅ = None ↔ registry_valid m.
Proof.
  rewrite registry_loop_None, (range_entries m), Forall_forall. unfold registry_valid.
  assert (NoDup (map_to_list m).*2 ↔ ∀ b1 b2 l, m !! b1 = Some l → m !! b2 = Some l → b1 = b2) as ->.
  { pose proof (NoDup_map_to_list m) as Hnd. split.
    - intros Hd b1 b2 l H1%elem_of_map_to_list H2%elem_of_map_to_list.
      apply list_elem_of_lookup in H1 as [i Hi], H2 as [j Hj].
      assert (i = j) as ->; [|congruence].
      apply (NoDup_lookup _ _ _ l Hd); rewrite list_lookup_fmap; [by rewrite Hi|by rewrite Hj].
    - intros Hinj. apply NoDup_fmap_2_strong; [|done].
      intros [b1 l1] [b2 l2] H1%elem_of_map_to_list H2%elem_of_map_to_list ?. simpl in *. subst l2.
      f_equal. eauto. }
  apply and_iff_compat_r. split.
  - intros H b l Hbl%elem_of_map_to_list. specialize (H _ Hbl). naive_solver.
  - intros H [b l] Hbl%elem_of_map_to_list. destruct (H _ _ Hbl). split_and!; [done..|set_solver].
Qed.

Lemma DecodeTaintLabels_Ok bits m labels :
  DecodeTaintLabels range bits m = Ok labels ↔
  (bits = 0 ∧ labels = []) ∨
  (bits ≠ 0 ∧ m ≠ ∅ ∧ registry_valid m ∧
   (∀ b, 0 ≤ b < 64 → Z.testbit bits b = true → is_Some (m !! b)) ∧
   labels = sort_strings (observed_labels bits m)).
Proof.
  unfold DecodeTaintLabels. destruct (Z.eqb_spec bits 0) as [->|Hb]; [naive_solver|].
  destruct (size m =? 0)%nat eqn:Hs.
  { apply Nat.eqb_eq, map_size_empty_iff in Hs. naive_solver. }
  apply Nat.eqb_neq in Hs. rewrite map_size_empty_iff in Hs.
  pose proof (registry_valid_loop m) as Hv. destruct (registry_loop (range m) ∅); [naive_solver|].
  assert ((∀ b, 0 ≤ b < 64 → Z.testbit bits b = true → is_Some (m !! b)) ↔
    ∀ b, b ∈ seqZ 0 64 → Z.land bits (Z.shiftl 1 b) ≠ 0 → is_Some (m !! b)) as Hc.
  { split; intros H b Hr Ht; [apply elem_of_seqZ in Hr|]; apply bit_set in Ht; try lia; apply H;
      [lia|done|apply elem_of_seqZ; lia|done]. }
  pose proof (bits_loop_Ok bits m (seqZ 0 64) []) as Hl. unfold mbind, result_bind.
  destruct (bits_loop _ _ _ _) as [ls|e].
  - destruct (proj1 (Hl ls) eq_refl) as [H1 ->]. simpl. unfold observed_labels. naive_solver.
  - split; [done|]. intros [[? _]|(_ & _ & _ & H & _)]; [done|].
    by specialize (proj2 (Hl _) (conj (proj1 Hc H) eq_refl)).
Qed.
End Labels.

Lemma NoDup_omap_inj {A B} (f : A → option B) l :
  (∀ x y b, f x = Some b → f y = Some b → x = y) → NoDup l → NoDup (omap f l).
Proof.
  intros Hf. induction 1 as [|x l Hx _ IH]; [constructor|]. simpl. destruct (f x) as [b|] eqn:Hb; [|done].
  constructor; [|done]. intros (y & Hy & Hfy)%list_elem_of_omap. apply Hx. by rewrite (Hf x y b).
Qed.

Lemma labels_of_bits bits m : is_u64 bits → registry_valid m →
  (∀ b, 0 ≤ b < 64 → Z.testbit bits b = true → is_Some (m !! b)) →
  NoDup (observed_labels bits m) ∧ Forall label_ok (observed_labels bits m) ∧
  ∀ l, l ∈ observed_labels bits m ↔ ∃ b, Z.testbit bits b = true ∧ m !! b = Some l.
Proof.
  intros Hu [Hok Hinj] Hc.
  assert (∀ l, l ∈ observed_labels bits m ↔ ∃ b, Z.testbit bits b = true ∧ m !! b = Some l) as Hin.
  { intros l. unfold observed_labels. rewrite list_elem_of_omap. setoid_rewrite list_elem_of_filter.
    setoid_rewrite elem_of_seqZ. split.
    - intros (b & [Hb Hr] & Hl). apply bit_set in Hb; [|lia]. eauto.
    - intros (b & Hb & Hl).
      assert (0 ≤ b) by (destruct (Z.neg_nonneg_cases b); [by rewrite Z.testbit_neg_r in Hb|done]).
      destruct (Hok _ _ Hl) as [? _]. exists b. split_and!; [by apply bit_set|lia|lia|done]. }
  split_and!; [|apply Forall_forall; intros l (b & _ & Hl)%Hin; by apply (Hok b)|done].
  apply NoDup_omap_inj; [apply Hinj|apply NoDup_filter, NoDup_seqZ].
Qed.

Lemma CheckTaintEgress_canonical admitted ev :
  canonicalTaintLabels (tv_Labels ev) = Ok (tv_Labels ev) →
  CheckTaintEgress admitted ev = None ↔
  Forall field_ok (taint_fields admitted ev) ∧
  (Forall label_ok (te_AllowedLabels admitted) ∧ NoDup (te_AllowedLabels admitted)) ∧
  ∀ l, l ∈ tv_Labels ev → l ∈ te_AllowedLabels admitted.
Proof.
  intros Hev. unfold CheckTaintEgress. rewrite orelse_None, check_fields_None, Hev.
  apply and_iff_compat_l.
  destruct (canonicalTaintLabels (te_AllowedLabels admitted)) as [allowed|e] eqn:Ha.
  - apply canonicalTaintLabels_Ok in Ha as (-> & Ha). rewrite first_unauthorized_None, Forall_forall.
    setoid_rewrite elem_of_list_to_set. setoid_rewrite elem_of_sort_strings. naive_solver.
  - split; [done|]. intros [Hc _].
    by rewrite (proj2 (canonicalTaintLabels_Ok _ _) (conj eq_refl Hc)) in Ha.
Qed.

(** * Properties *)

(** Decoding inverts encoding, and accepts nothing else.  A payload decodes
    to a fence state, an evidence event or an accounting exactly when that value
    is typed, passes the decoder's checks and encodes to that payload; every
    encoded scope key, fence key, fence state and capsule has its ABI size. *)
Theorem kernel_structures_roundtrip p :
  (∀ s, DecodeScopeFenceState p = Ok s ↔
     typed s ∧ fs_BootIDHash s ≠ zeros 32 ∧ MarshalScopeFenceState s = Ok p) ∧
  (∀ e, DecodeEvidenceEvent p = Ok e ↔ typed e ∧ MarshalEvidenceEvent e = Ok p) ∧
  (∀ a, DecodeEvidenceAccounting p = Ok a ↔
     typed a ∧ wrap_u64 (ea_Emitted a + ea_Lost a) ≤ ea_Sequence a ∧ MarshalEvidenceAccounting a = Ok p) ∧
  (∀ a, DecodeTaintAccounting p = Ok a ↔ typed a ∧ MarshalTaintAccounting a = Ok p) ∧
  (∀ k, typed k → validateScopeKey k = None → ∃ q, MarshalScopeKey k = Ok q ∧ String.length q = 40%nat) ∧
  (∀ c, typed c → ValidateCapsule c = None →
     ∃ q, MarshalDecisionCapsule c = Ok q ∧ String.length q = 240%nat).
Proof.
  split_and!.
  - apply DecodeScopeFenceState_exact.
  - apply DecodeEvidenceEvent_exact.
  - intros a. rewrite DecodeEvidenceAccounting_exact. unfold counters_inconsistent. by rewrite Z.ltb_ge.
  - apply DecodeTaintAccounting_exact.
  - intros k Hk Hv. unfold MarshalScopeKey. rewrite Hv, marshalFixed_typed by done.
    eexists. split; [done|]. by rewrite put_length.
  - intros c Hc Hv. unfold MarshalDecisionCapsule. rewrite Hv, marshalFixed_typed by done.
    eexists. split; [done|]. by rewrite put_length.
Qed.

(** two well-typed network scopes are looked up under the same bytes in the
    kernel map exactly when they name the same cgroup, address, port and
    protocol, and every exact key is a valid key that encodes. *)
Theorem exact_key_identifies s t ks kt :
  scope_typed s → scope_typed t → ExactKey s = Ok ks → ExactKey t = Ok kt →
  ∃ ps pt, MarshalScopeKey ks = Ok ps ∧ MarshalScopeKey kt = Ok pt ∧ (ps = pt ↔ same_destination s t).
Proof.
  intros Hs Ht Hks Hkt. pose proof (ExactKey_typed _ _ Hs Hks) as [Hts Hvs].
  pose proof (ExactKey_typed _ _ Ht Hkt) as [Htt Hvt]. unfold MarshalScopeKey. rewrite Hvs, Hvt.
  rewrite !marshalFixed_typed by done. eexists _, _. split_and!; [done..|].
  assert (c_put ScopeKey_fixed ks = c_put ScopeKey_fixed kt ↔ ks = kt) as ->.
  { split; [|by intros ->]. intros Hp. apply (marshal_inj 40 ks kt (c_put ScopeKey_fixed ks)); try done.
    - by rewrite marshalFixed_typed.
    - by rewrite Hp, marshalFixed_typed. }
  apply ExactKey_inv in Hks as (_ & _ & _ & f & a & -> & Hd), Hkt as (_ & _ & _ & f' & a' & -> & Hd').
  destruct Hs as (_ & _ & _ & Ha), Ht as (_ & _ & _ & Ha'). unfold same_destination, AddressFamilyIPv4, AddressFamilyIPv6 in *.
  destruct (ns_Destination s), (ns_Destination t); try done; destruct Hd as [-> ->], Hd' as [-> ->];
    simpl in *; (split; [intros Hk; try discriminate Hk|intros (-> & Hd & -> & ->); by simplify_eq]).
  - injection Hk as -> Hk -> ->. by apply string_app_inj_r in Hk as ->.
  - by injection Hk as -> -> -> ->.
Qed.

(** [ParseSHA256Digest] accepts exactly [sha256:] and 64 hexadecimal digits
    of either case, with surrounding white space, and returns their 32 bytes; it
    reads back every digest the program prints. *)
Theorem digest_parse_exact value d :
  (ParseSHA256Digest value = Ok d ↔
   ∃ raw, TrimSpace value = "sha256:" +:+ raw ∧ hex_lower raw = hex_encode d ∧ String.length d = 32%nat) ∧
  (∀ payload, ParseSHA256Digest (sha256_digest payload) = Ok (sha256 payload)).
Proof.
  assert (∀ v x, ParseSHA256Digest v = Ok x ↔ ∃ raw, TrimSpace v = "sha256:" +:+ raw ∧
    hex_lower raw = hex_encode x ∧ String.length x = 32%nat) as H.
  { intros v x. unfold ParseSHA256Digest. destruct (strip_prefix "sha256:" (TrimSpace v)) as [raw|] eqn:Hp.
    - apply strip_prefix_spec in Hp as ->. pose proof (hex_decode_exact raw x) as Hx.
      pose proof (hex_lower_length raw) as Hr. pose proof (hex_encode_length x) as Hl.
      destruct (String.length raw =? 64)%nat eqn:E; simpl.
      + apply Nat.eqb_eq in E. split.
        * destruct (hex_DecodeString raw) as [y|]; [|done]. intros [= ->]. exists raw.
          pose proof (proj1 Hx eq_refl) as Hxx. split_and!; [done..|]. rewrite <- Hxx in Hl. lia.
        * intros (raw' & <-%string_app_inj_l & Hxx%Hx & _). by rewrite Hxx.
      + apply Nat.eqb_neq in E. split; [done|]. intros (raw' & <-%string_app_inj_l & Hxx & ?).
        rewrite Hxx in Hr. lia.
    - split; [done|]. intros (raw & Ht%strip_prefix_spec & _). congruence. }
  split; [apply H|]. intros payload. apply H. exists (hex_encode (sha256 payload)).
  split_and!; [apply TrimSpace_digest| |apply sha256_length].
  apply hex_lower_encode.
Qed.

(** Taint evidence is complete and fails closed.  When a kernel bitset is
    turned into evidence, every set bit has a registered label, the evidence
    carries exactly those labels once each and in canonical order, and the egress
    check accepts it exactly when the provenance fields match, the admitted label
    list is well formed and every set bit's label is admitted. *)
Theorem taint_evidence_complete range subjectRef monitorRef monitorEpoch bits m ev :
  (∀ m, range m ≡ₚ map_to_list m) → is_u64 bits →
  BuildTaintEvidence range subjectRef monitorRef monitorEpoch bits m = Ok ev →
  (∀ b, Z.testbit bits b = true → is_Some (m !! b)) ∧
  (∀ l, l ∈ tv_Labels ev ↔ ∃ b, Z.testbit bits b = true ∧ m !! b = Some l) ∧
  canonicalTaintLabels (tv_Labels ev) = Ok (tv_Labels ev) ∧
  (∀ admitted, CheckTaintEgress admitted ev = None ↔
     Forall field_ok (taint_fields admitted ev) ∧
     (Forall label_ok (te_AllowedLabels admitted) ∧ NoDup (te_AllowedLabels admitted)) ∧
     (∀ b, Z.testbit bits b = true → ∃ l, m !! b = Some l ∧ l ∈ te_AllowedLabels admitted)).
Proof.
  intros Hrange Hu. unfold BuildTaintEvidence. destruct (_ || _); [done|]. unfold mbind, result_bind.
  destruct (DecodeTaintLabels range bits m) as [labels|] eqn:Hd; [|done]. intros [= <-]. simpl.
  apply (DecodeTaintLabels_Ok range Hrange) in Hd.
  assert ((∀ b, Z.testbit bits b = true → is_Some (m !! b)) ∧
    (∀ l, l ∈ labels ↔ ∃ b, Z.testbit bits b = true ∧ m !! b = Some l) ∧
    canonicalTaintLabels labels = Ok labels) as (Hs & Hl & Hcan).
  { destruct Hd as [[-> ->]|(_ & _ & Hv & Hc & ->)].
    - split_and!; [intros b; by rewrite Z.bits_0| |done]. intros l. split; [by intros ?%elem_of_nil|].
      intros (b & Hb & _). by rewrite Z.bits_0 in Hb.
    - destruct (labels_of_bits bits m Hu Hv Hc) as (Hnd & Hok & Hin).
      split_and!; [|intros l; by rewrite elem_of_sort_strings|].
      + intros b Hb. apply Hc; [|done].
        destruct (Z.neg_nonneg_cases b); [by rewrite Z.testbit_neg_r in Hb|]. split; [done|].
        destruct (Z.lt_ge_cases b 64); [done|]. rewrite Z.bits_above_log2 in Hb; [done|apply Hu|].
        destruct (Z.eq_dec bits 0) as [->|]; [simpl; lia|]. apply Z.log2_lt_pow2; [unfold is_u64 in Hu; lia|].
        eapply Z.lt_le_trans; [apply Hu|]. by apply Z.pow_le_mono_r.
      + apply canonicalTaintLabels_Ok. split; [symmetry; apply sort_strings_Permutation, sort_strings_perm|].
        by rewrite !sort_strings_perm. }
  split_and!; [done..|]. intros admitted. rewrite CheckTaintEgress_canonical by done. simpl.
  apply and_iff_compat_l, and_iff_compat_l. setoid_rewrite Hl. split.
  - intros H b Hb. destruct (Hs b Hb) as [l Hml]. exists l. split; [done|]. eauto.
  - intros H l (b & Hb & Hml). destruct (H b Hb) as (l' & ? & ?). by simplify_eq.
Qed.

(** * Witnesses *)

Definition sample_scope (cgroup port : Z) : NetworkScope := {|
  ns_CgroupID := cgroup; ns_Destination := AddrV4 "abcd"; ns_Port := port; ns_Protocol := 6 |}.
Definition sample_scope_v6 : NetworkScope := {|
  ns_CgroupID := 7; ns_Destination := AddrV6 "0123456789abcdef" "eth0"; ns_Port := 443; ns_Protocol := 6 |}.

Lemma sample_scope_typed : scope_typed (sample_scope 7 443) ∧ scope_typed sample_scope_v6.
Proof. unfold scope_typed, is_u64. simpl. split_and!; lia || done. Qed.

Example exact_key_identifies_witness :
  ∃ ks kt ps pt, ExactKey (sample_scope 7 443) = Ok ks ∧ ExactKey sample_scope_v6 = Ok kt ∧
    MarshalScopeKey ks = Ok ps ∧ MarshalScopeKey kt = Ok pt ∧
    (ps = pt ↔ same_destination (sample_scope 7 443) sample_scope_v6).
Proof.
  destruct sample_scope_typed as [Hs Ht].
  pose proof (exact_key_identifies (sample_scope 7 443) sample_scope_v6 _ _ Hs Ht eq_refl eq_refl)
    as (ps & pt & H1 & H2 & H3).
  eexists _, _, ps, pt. split; [reflexivity|]. split; [reflexivity|]. exact (conj H1 (conj H2 H3)).
Defined.

Definition sample_registry : gmap Z string := <[0 := "secret"]> (<[3 := "pii"]> ∅).
Definition sample_evidence : TaintEvidence := {|
  tv_SubjectRef := "process:1"; tv_MonitorRef := "bpf"; tv_MonitorEpoch := "1"; tv_Labels := ["pii"; "secret"] |}.

Lemma sample_evidence_built :
  BuildTaintEvidence map_to_list "process:1" "bpf" "1" 9 sample_registry = Ok sample_evidence.
Proof. vm_compute. reflexivity. Qed.

Example taint_evidence_complete_witness :
  canonicalTaintLabels (tv_Labels sample_evidence) = Ok (tv_Labels sample_evidence).
Proof.
  assert (is_u64 9) as Hu by (unfold is_u64; lia).
  destruct (taint_evidence_complete map_to_list "process:1" "bpf" "1" 9 sample_registry sample_evidence
    (λ m, reflexivity _) Hu sample_evidence_built) as (_ & _ & H & _). exact H.
Defined.

(** An unmapped bit fails closed. *)
Example unmapped_bit : is_ok (DecodeTaintLabels map_to_list 5 sample_registry) = false.
Proof. vm_compute. reflexivity. Qed.

(** * Divergences *)

(** The uint64 sum [Emitted+Lost] wraps: an accounting whose counters exceed the
    sequence by far is accepted as consistent. *)
Lemma accounting_overflow_accepted :
  let a := {| ea_Sequence := 10; ea_Emitted := MaxUint64; ea_Lost := 1 |} in
  ea_Sequence a < ea_Emitted a + ea_Lost a ∧
  ∃ p, MarshalEvidenceAccounting a = Ok p ∧ DecodeEvidenceAccounting p = Ok a.
Proof.
  intros a. split; [done|]. exists (c_put EvidenceAccounting_fixed a). split; vm_compute; reflexivity.
Qed.

(** The kernel reports a replaced taint source as event type 9 with operation 5;
    both are declared in [taint_abi.go], and no payload decodes to either. *)
Lemma source_invalidation_never_decodes p e :
  DecodeTaintEvent p = Ok e →
  tn_EventType e ≠ TaintEventSourceInvalidated ∧ tn_Operation e ≠ TaintOperationIdentityChange.
Proof.
  unfold DecodeTaintEvent. destruct (negb _); [done|]. destruct (binary_Read p) as [x|err]; [|done].
  destruct (negb _); [done|]. destruct (_ || _ || _); [done|].
  destruct (_ || _) eqn:Ht; [done|]. destruct (_ <? _) eqn:H1 in |- *; simpl; [done|].
  destruct (_ <? _) eqn:H2 in |- *; [done|]. destruct (negb _); [done|]. intros [= ->].
  apply orb_false_elim in Ht as [_ Ht%Z.ltb_ge]. apply Z.ltb_ge in H2.
  unfold TaintEventFileReadObserved, TaintOperationConnect, TaintEventSourceInvalidated,
    TaintOperationIdentityChange in *. lia.
Qed.

(** A fence state without boot identity encodes, and its encoding is refused by
    the decoder that reads it back from the kernel map. *)
Lemma unbooted_fence_encodes :
  let s := {| fs_BootIDHash := zeros 32; fs_AuthorityTerm := 1; fs_DecisionEpoch := 1; fs_RevocationEpoch := 0 |} in
  ∃ p, MarshalScopeFenceState s = Ok p ∧ is_ok (DecodeScopeFenceState p) = false.
Proof. intros s. exists (c_put ScopeFenceState_fixed s). split; vm_compute; reflexivity. Qed.
