(* ===== verification/KernelFabric.v ===== *)
(** * Kernel leases, reference evaluation and installation

    Models [internal/kernelfabric/lease.go], [evaluator.go] and [installer.go]:
    binding a wall-clock lease to the monotonic clock, the reference evaluation
    of a decision capsule against its scope fence, and the installer that writes
    fences and capsules through a kernel store.  The store is an interface: its
    operations are arguments, and [KernelStoreLaws] states what the installer's
    guarantees need of it. *)

From S2P Require Import Prelude Crypto KernelAbi.
Local Open Scope Z_scope.

(** * [lease.go] *)

Record ExternalLease : Type := { el_IssuedAt : time; el_NotAfter : time; el_MaxLifetime : duration }.
Record ClockSnapshot : Type := { cs_WallNow : time; cs_MonoNowNS : Z; cs_BootIDHash : string }.
Record LocalLease : Type := { ll_InstalledAtMonoNS : Z; ll_DeadlineMonoNS : Z; ll_BootIDHash : string }.

Definition BindExternalLease (lease : ExternalLease) (clock : ClockSnapshot) : result LocalLease :=
  if IsZero (cs_WallNow clock) then Error (ErrDetail ErrLeaseInvalid "wall clock snapshot is required")
  else if IsZero (el_NotAfter lease) then Error (ErrDetail ErrLeaseInvalid "not_after is required")
  else if el_MaxLifetime lease <=? 0 then Error (ErrDetail ErrLeaseInvalid "max lifetime must be positive")
  else if negb (IsZero (el_IssuedAt lease)) && After (el_IssuedAt lease) (el_NotAfter lease)
  then Error (ErrDetail ErrLeaseInvalid "issued_at is after not_after")
  else
    let remaining := Sub (el_NotAfter lease) (cs_WallNow clock) in
    if remaining <=? 0 then Error ErrLeaseExpired
    else
      let remaining := if el_MaxLifetime lease <? remaining then el_MaxLifetime lease else remaining in
      let ns := remaining in
      if ns <=? 0 then Error ErrLeaseExpired
      else if wrap_u64 (MaxUint64 - cs_MonoNowNS clock) <? wrap_u64 ns
      then Error (ErrDetail ErrLeaseInvalid "monotonic deadline overflow")
      else Ok {| ll_InstalledAtMonoNS := cs_MonoNowNS clock;
                 ll_DeadlineMonoNS := wrap_u64 (cs_MonoNowNS clock + wrap_u64 ns);
                 ll_BootIDHash := cs_BootIDHash clock |}.

Definition AdvanceClockSnapshot (base current : ClockSnapshot) : result ClockSnapshot :=
  if IsZero (cs_WallNow base) || (cs_MonoNowNS base =? 0) || str_eqb (cs_BootIDHash base) (zeros 32) ||
     (cs_MonoNowNS current =? 0) || str_eqb (cs_BootIDHash current) (zeros 32)
  then Error (ErrDetail ErrLeaseInvalid "clock snapshot is incomplete")
  else if negb (str_eqb (cs_BootIDHash base) (cs_BootIDHash current))
  then Error (ErrDetail ErrLeaseInvalid "boot identity changed")
  else if cs_MonoNowNS current <? cs_MonoNowNS base
  then Error (ErrDetail ErrLeaseInvalid "monotonic clock moved backwards")
  else
    let delta := wrap_u64 (cs_MonoNowNS current - cs_MonoNowNS base) in
    if MaxInt64 <? delta
    then Error (ErrDetail ErrLeaseInvalid "monotonic elapsed duration overflow")
    else Ok {| cs_WallNow := Add (cs_WallNow base) (wrap_i64 delta);
               cs_MonoNowNS := cs_MonoNowNS current; cs_BootIDHash := cs_BootIDHash current |}.

(** [ReadBootIDHash] after [os.ReadFile]: the content of the file, or its error. *)
Definition ReadBootIDHash (file : result string) : result string :=
  match file with
  | Error err => Error (ErrWrap "read boot id" err)
  | Ok payload =>
      let bootID := TrimSpace payload in
      if str_eqb bootID "" then Error (ErrNew "boot id is empty") else Ok (sha256 bootID)
  end.

(** * [evaluator.go] *)

Inductive KernelVerdict : Type := VerdictDeny | VerdictAllow.

Inductive DenyReason : Type :=
  | DenyNone | DenyMissingFence | DenyMissingCapsule | DenyBootMismatch | DenyAuthorityTermMismatch
  | DenyDecisionSuperseded | DenyRevoked | DenyExpired | DenyBlocked.

#[export] Instance KernelVerdict_eq_dec : EqDecision KernelVerdict.
Proof. solve_decision. Defined.
#[export] Instance DenyReason_eq_dec : EqDecision DenyReason.
Proof. solve_decision. Defined.

Record Evaluation : Type := { ev_Verdict : KernelVerdict; ev_Reason : DenyReason }.

Definition deny (reason : DenyReason) : Evaluation := {| ev_Verdict := VerdictDeny; ev_Reason := reason |}.

Definition EvaluateReference (capsule : option DecisionCapsule) (fence : option ScopeFenceState)
    (nowMonoNS : Z) : Evaluation :=
  match fence with
  | None => deny DenyMissingFence
  | Some fence =>
      match capsule with
      | None => deny DenyMissingCapsule
      | Some capsule =>
          if negb (str_eqb (dc_BootIDHash capsule) (fs_BootIDHash fence)) then deny DenyBootMismatch
          else if negb (dc_AuthorityTerm capsule =? fs_AuthorityTerm fence) then deny DenyAuthorityTermMismatch
          else if negb (dc_DecisionEpoch capsule =? fs_DecisionEpoch fence) then deny DenyDecisionSuperseded
          else if negb (dc_RevocationEpoch capsule =? fs_RevocationEpoch fence) then deny DenyRevoked
          else if (dc_DeadlineMonoNS capsule =? 0) || (dc_DeadlineMonoNS capsule <? nowMonoNS) then deny DenyExpired
          else if negb (dc_Decision capsule =? KernelDecisionAllow) then deny DenyBlocked
          else {| ev_Verdict := VerdictAllow; ev_Reason := DenyNone |}
      end
  end.

(** * [installer.go] *)

Definition ErrKernelStoreUnavailable : error := ErrNew "kernel enforcement store unavailable".

(** The context the installer was called with, or [context.WithoutCancel] of it. *)
Inductive Ctx : Type := CtxCaller | CtxWithoutCancel.

(** The store's methods over its world [W].  [GetFence] is [None] when the store
    does not implement [KernelFenceReader]. *)
Record KernelStore (W : Type) : Type := {
  st_PutFence : Ctx → ScopeFenceKey → ScopeFenceState → W → option error * W;
  st_PutCapsule : Ctx → ScopeKey → DecisionCapsule → W → option error * W;
  st_DeleteCapsule : Ctx → ScopeKey → W → option error * W;
  st_GetFence : option (Ctx → ScopeFenceKey → W → result ScopeFenceState * W) }.
Arguments st_PutFence {W} _.
Arguments st_PutCapsule {W} _.
Arguments st_DeleteCapsule {W} _.
Arguments st_GetFence {W} _.

(** The calls an installer makes, with their results. *)
Inductive StoreCall : Type :=
  | CPutFence (key : ScopeFenceKey) (state : ScopeFenceState) (err : option error)
  | CPutCapsule (key : ScopeKey) (capsule : DecisionCapsule) (err : option error)
  | CDeleteCapsule (ctx : Ctx) (key : ScopeKey) (err : option error)
  | CGetFence (key : ScopeFenceKey) (res : result ScopeFenceState).

Record InstallRequest : Type := {
  ir_Scope : ScopeKey; ir_DecisionID : string; ir_Subject : string; ir_Action : string;
  ir_PolicyDigest : string; ir_EvidenceDigest : string; ir_AuthorityTerm : Z; ir_DecisionEpoch : Z;
  ir_RevocationEpoch : Z; ir_Decision : Z; ir_Constraints : Z; ir_Lease : ExternalLease }.

Record InstallResult : Type := {
  is_FenceKey : ScopeFenceKey; is_Fence : ScopeFenceState; is_Scope : ScopeKey; is_Capsule : DecisionCapsule }.

Definition wrap_err {A} (prefix : string) (r : result A) : result A :=
  match r with Ok a => Ok a | Error err => Error (ErrWrap prefix err) end.

(** [Install] up to the first write: everything is validated and hashed first. *)
Definition prepare_install (req : InstallRequest) (clock : ClockSnapshot) : result InstallResult :=
  match validateScopeKey (ir_Scope req) with
  | Some err => Error err
  | None =>
      if (ir_AuthorityTerm req =? 0) || (ir_DecisionEpoch req =? 0)
      then Error (ErrDetail ErrInvalidCapsule "authority term and decision epoch are required")
      else
        localLease ← BindExternalLease (ir_Lease req) clock;
        decisionIDHash ← wrap_err "decision id" (HashOpaque (ir_DecisionID req));
        subjectHash ← wrap_err "subject" (HashOpaque (ir_Subject req));
        actionHash ← wrap_err "action" (HashOpaque (ir_Action req));
        policyHash ← wrap_err "policy digest" (ParseSHA256Digest (ir_PolicyDigest req));
        evidenceHash ← wrap_err "evidence digest" (ParseSHA256Digest (ir_EvidenceDigest req));
        fenceKey ← FenceKey (sk_CgroupID (ir_Scope req)) (sk_ActionClass (ir_Scope req));
        let fence := {|
          fs_BootIDHash := ll_BootIDHash localLease; fs_AuthorityTerm := ir_AuthorityTerm req;
          fs_DecisionEpoch := ir_DecisionEpoch req; fs_RevocationEpoch := ir_RevocationEpoch req |} in
        let capsule := {|
          dc_DecisionIDHash := decisionIDHash; dc_SubjectHash := subjectHash; dc_ActionHash := actionHash;
          dc_PolicyHash := policyHash; dc_EvidenceHash := evidenceHash; dc_BootIDHash := ll_BootIDHash localLease;
          dc_AuthorityTerm := ir_AuthorityTerm req; dc_DecisionEpoch := ir_DecisionEpoch req;
          dc_RevocationEpoch := ir_RevocationEpoch req; dc_InstalledAtMonoNS := ll_InstalledAtMonoNS localLease;
          dc_DeadlineMonoNS := ll_DeadlineMonoNS localLease; dc_Decision := ir_Decision req;
          dc_Constraints := ir_Constraints req |} in
        match ValidateCapsule capsule with
        | Some err => Error err
        | None => Ok {| is_FenceKey := fenceKey; is_Fence := fence; is_Scope := ir_Scope req; is_Capsule := capsule |}
        end
  end.

Section Installer.
Context {W : Type}.
Local Abbreviation SM := (M W StoreCall).

(** [i.Store == nil] is [None]. *)
Implicit Types store : option (KernelStore W).

Definition Install store (req : InstallRequest) (clock : ClockSnapshot) : SM (result InstallResult) :=
  match store with
  | None => mret (Error ErrKernelStoreUnavailable)
  | Some st =>
      match prepare_install req clock with
      | Error err => mret (Error err)
      | Ok r =>
          err ← call (CPutFence (is_FenceKey r) (is_Fence r)) (st_PutFence st CtxCaller (is_FenceKey r) (is_Fence r));
          match err with
          | Some err => mret (Error (ErrWrap "install kernel scope fence" err))
          | None =>
              err ← call (CPutCapsule (is_Scope r) (is_Capsule r))
                      (st_PutCapsule st CtxCaller (is_Scope r) (is_Capsule r));
              match err with
              | Some err =>
                  _ ← call (CDeleteCapsule CtxWithoutCancel (is_Scope r))
                        (st_DeleteCapsule st CtxWithoutCancel (is_Scope r));
                  mret (Error (ErrWrap "install kernel decision capsule after fence" err))
              | None => mret (Ok r)
              end
          end
      end
  end.

Definition RevokeScope store (key : ScopeFenceKey) (next : ScopeFenceState) : SM (option error) :=
  match store with
  | None => mret (Some ErrKernelStoreUnavailable)
  | Some st =>
      if (fk_CgroupID key =? 0) || (fk_ActionClass key =? 0) then mret (Some ErrInvalidScope)
      else if (fs_AuthorityTerm next =? 0) || (fs_DecisionEpoch next =? 0)
      then mret (Some (ErrDetail ErrInvalidCapsule "authority term and decision epoch are required"))
      else if str_eqb (fs_BootIDHash next) (zeros 32)
      then mret (Some (ErrDetail ErrInvalidCapsule "boot id hash is required"))
      else call (CPutFence key next) (st_PutFence st CtxCaller key next)
  end.

Definition next_epoch (current : ScopeFenceState) : ScopeFenceState := {|
  fs_BootIDHash := fs_BootIDHash current; fs_AuthorityTerm := fs_AuthorityTerm current;
  fs_DecisionEpoch := fs_DecisionEpoch current; fs_RevocationEpoch := wrap_u64 (fs_RevocationEpoch current + 1) |}.

Definition revokeCurrentScope store (key : ScopeFenceKey) (expectedBootIDHash : option string)
    : SM (result ScopeFenceState) :=
  match store with
  | None => mret (Error ErrKernelStoreUnavailable)
  | Some st =>
      match st_GetFence st with
      | None => mret (Error (ErrNew "kernel enforcement store cannot read current scope fence"))
      | Some get =>
          res ← call (CGetFence key) (get CtxCaller key);
          match res with
          | Error err => mret (Error (ErrWrap "read current kernel scope fence" err))
          | Ok current =>
              if match expectedBootIDHash with
                 | Some expected => negb (str_eqb (fs_BootIDHash current) expected)
                 | None => false
                 end
              then mret (Error (ErrDetail ErrLeaseInvalid "kernel scope fence boot identity mismatch"))
              else if fs_RevocationEpoch current =? MaxUint64
              then mret (Error (ErrNew "kernel scope revocation epoch exhausted"))
              else
                err ← RevokeScope (Some st) key (next_epoch current);
                match err with
                | Some err => mret (Error err)
                | None => mret (Ok (next_epoch current))
                end
          end
      end
  end.

Definition RevokeCurrentScope store (key : ScopeFenceKey) : SM (result ScopeFenceState) :=
  revokeCurrentScope store key None.

Definition RevokeCurrentScopeForBoot store (key : ScopeFenceKey) (expectedBootIDHash : string)
    : SM (result ScopeFenceState) :=
  if str_eqb expectedBootIDHash (zeros 32)
  then mret (Error (ErrDetail ErrInvalidCapsule "expected boot id hash is required"))
  else revokeCurrentScope store key (Some expectedBootIDHash).
End Installer.

(** * Contract of a kernel store

    A store holds a fence per scope and a capsule per key.  A write that reports
    success has happened; a failed write may or may not have; no operation
    touches another entry. *)
Class KernelStoreLaws {W} (st : KernelStore W) (fence_of : W → ScopeFenceKey → option ScopeFenceState)
    (capsule_of : W → ScopeKey → option DecisionCapsule) : Prop := {
  put_fence ctx k s w e w' : st_PutFence st ctx k s w = (e, w') →
    (∀ k', k' ≠ k → fence_of w' k' = fence_of w k') ∧ (∀ k', capsule_of w' k' = capsule_of w k') ∧
    (e = None → fence_of w' k = Some s) ∧ (fence_of w' k = Some s ∨ fence_of w' k = fence_of w k);
  put_capsule ctx k c w e w' : st_PutCapsule st ctx k c w = (e, w') →
    (∀ k', fence_of w' k' = fence_of w k') ∧ (∀ k', k' ≠ k → capsule_of w' k' = capsule_of w k') ∧
    (e = None → capsule_of w' k = Some c) ∧ (capsule_of w' k = Some c ∨ capsule_of w' k = capsule_of w k);
  delete_capsule ctx k w e w' : st_DeleteCapsule st ctx k w = (e, w') →
    (∀ k', fence_of w' k' = fence_of w k') ∧ (∀ k', k' ≠ k → capsule_of w' k' = capsule_of w k') ∧
    (e = None → capsule_of w' k = None) ∧ (capsule_of w' k = None ∨ capsule_of w' k = capsule_of w k);
  get_fence get ctx k w r w' : st_GetFence st = Some get → get ctx k w = (r, w') →
    (∀ k', fence_of w' k' = fence_of w k') ∧ (∀ k', capsule_of w' k' = capsule_of w k') ∧
    (∀ s, r = Ok s → fence_of w k = Some s) }.

(** The fence a scope key is evaluated against. *)
Definition scope_fence (k : ScopeKey) : ScopeFenceKey := {|
  fk_CgroupID := sk_CgroupID k; fk_ActionClass := sk_ActionClass k; fk_Reserved := 0 |}.

(** * Facts *)

(** A guard that refuses contradicts a later bound. *)
Ltac refuse := split; [done|intros; destruct_and?; lia].

Lemma evaluate_allows c f now : ev_Verdict (EvaluateReference (Some c) (Some f) now) = VerdictAllow ↔
  dc_BootIDHash c = fs_BootIDHash f ∧ dc_AuthorityTerm c = fs_AuthorityTerm f ∧
  dc_DecisionEpoch c = fs_DecisionEpoch f ∧ dc_RevocationEpoch c = fs_RevocationEpoch f ∧
  dc_DeadlineMonoNS c ≠ 0 ∧ now ≤ dc_DeadlineMonoNS c ∧ dc_Decision c = KernelDecisionAllow.
Proof.
  unfold EvaluateReference. destruct (str_eqb _ _) eqn:Hb; split_bool; simpl; [|naive_solver].
  destruct (Z.eqb_spec (dc_AuthorityTerm c) (fs_AuthorityTerm f)); simpl; [|naive_solver].
  destruct (Z.eqb_spec (dc_DecisionEpoch c) (fs_DecisionEpoch f)); simpl; [|naive_solver].
  destruct (Z.eqb_spec (dc_RevocationEpoch c) (fs_RevocationEpoch f)); simpl; [|naive_solver].
  destruct (Z.eqb_spec (dc_DeadlineMonoNS c) 0); simpl; [naive_solver|].
  destruct (Z.ltb_spec (dc_DeadlineMonoNS c) now); simpl; [refuse|].
  destruct (Z.eqb_spec (dc_Decision c) KernelDecisionAllow); simpl; naive_solver.
Qed.

Lemma Sub_sign t u : 0 < Sub t u ↔ u < t.
Proof. unfold Sub, clamp_i64, MinInt64, MaxInt64. lia. Qed.

Lemma Sub_min t u m : u < t → is_i64 m → Z.min (Sub t u) m = Z.min (t - u) m.
Proof. unfold is_i64, Sub, clamp_i64, MinInt64, MaxInt64. lia. Qed.

Lemma BindExternalLease_Ok lease clock l :
  is_u64 (cs_MonoNowNS clock) → is_i64 (el_MaxLifetime lease) →
  BindExternalLease lease clock = Ok l ↔
  cs_WallNow clock ≠ 0 ∧ el_NotAfter lease ≠ 0 ∧ 0 < el_MaxLifetime lease ∧
  (el_IssuedAt lease = 0 ∨ el_IssuedAt lease ≤ el_NotAfter lease) ∧
  cs_WallNow clock < el_NotAfter lease ∧
  cs_MonoNowNS clock + Z.min (el_NotAfter lease - cs_WallNow clock) (el_MaxLifetime lease) < 2 ^ 64 ∧
  l = {| ll_InstalledAtMonoNS := cs_MonoNowNS clock;
         ll_DeadlineMonoNS := cs_MonoNowNS clock +
           Z.min (el_NotAfter lease - cs_WallNow clock) (el_MaxLifetime lease);
         ll_BootIDHash := cs_BootIDHash clock |}.
Proof.
  unfold is_u64, is_i64. intros Hm Hl. unfold BindExternalLease, IsZero, After.
  destruct (Z.eqb_spec (cs_WallNow clock) 0); [naive_solver|].
  destruct (Z.eqb_spec (el_NotAfter lease) 0); [naive_solver|].
  destruct (Z.leb_spec (el_MaxLifetime lease) 0); [refuse|].
  destruct (Z.eqb_spec (el_IssuedAt lease) 0) as [Hi|Hi]; cbn [negb andb];
    [|destruct (Z.ltb_spec (el_NotAfter lease) (el_IssuedAt lease)); [refuse|]].
  all: pose proof (Sub_sign (el_NotAfter lease) (cs_WallNow clock)) as Hs;
    pose proof (Sub_min (el_NotAfter lease) (cs_WallNow clock) (el_MaxLifetime lease)) as Hr;
    set (r := Sub (el_NotAfter lease) (cs_WallNow clock)) in *;
    destruct (Z.leb_spec r 0); [refuse|];
    specialize (Hr ltac:(lia) ltac:(unfold is_i64; lia)).
  all: assert ((if el_MaxLifetime lease <? r then el_MaxLifetime lease else r) = Z.min r (el_MaxLifetime lease))
      as -> by (destruct (Z.ltb_spec (el_MaxLifetime lease) r); lia); rewrite Hr;
    set (span := Z.min (el_NotAfter lease - cs_WallNow clock) (el_MaxLifetime lease)) in *;
    assert (0 < span < 2 ^ 63) by lia;
    destruct (Z.leb_spec span 0); [lia|];
    rewrite (wrap_u64_small span) by (unfold is_u64; lia);
    rewrite (wrap_u64_small (MaxUint64 - _)) by (unfold is_u64, MaxUint64; lia);
    destruct (Z.ltb_spec (MaxUint64 - cs_MonoNowNS clock) span) as [Ho|Ho]; unfold MaxUint64 in Ho;
    [refuse|rewrite wrap_u64_small by (unfold is_u64; lia)].
  all: split; [intros [= <-]; split_and!; auto; lia|intros (_ & _ & _ & _ & _ & _ & ->); done].
Qed.

Lemma AdvanceClockSnapshot_Ok base current now :
  is_u64 (cs_MonoNowNS base) → is_u64 (cs_MonoNowNS current) →
  AdvanceClockSnapshot base current = Ok now →
  cs_BootIDHash base = cs_BootIDHash current ∧
  0 ≤ cs_MonoNowNS current - cs_MonoNowNS base < 2 ^ 63 ∧
  now = {| cs_WallNow := cs_WallNow base + (cs_MonoNowNS current - cs_MonoNowNS base);
           cs_MonoNowNS := cs_MonoNowNS current; cs_BootIDHash := cs_BootIDHash current |}.
Proof.
  unfold is_u64. intros Hb Hc. unfold AdvanceClockSnapshot. destruct (_ || _); [done|].
  destruct (str_eqb (cs_BootIDHash base) (cs_BootIDHash current)) eqn:He; split_bool; simpl; [|done].
  destruct (Z.ltb_spec (cs_MonoNowNS current) (cs_MonoNowNS base)); [done|].
  rewrite wrap_u64_small by (unfold is_u64; lia).
  destruct (Z.ltb_spec MaxInt64 (cs_MonoNowNS current - cs_MonoNowNS base)) as [|Hd]; [done|].
  unfold MaxInt64 in Hd. rewrite wrap_i64_small by (unfold is_i64; lia).
  intros [= <-]. split_and!; [done|lia..|done].
Qed.

Section InstallerFacts.
Context {W : Type} (st : KernelStore W) (fence_of : W → ScopeFenceKey → option ScopeFenceState)
  (capsule_of : W → ScopeKey → option DecisionCapsule) `{!KernelStoreLaws st fence_of capsule_of}.

(** What the kernel answers for a scope key at a monotonic instant. *)
Definition kernel_eval (w : W) (k : ScopeKey) (now : Z) : Evaluation :=
  EvaluateReference (capsule_of w k) (fence_of w (scope_fence k)) now.

Definition allows (w : W) (k : ScopeKey) (now : Z) : Prop := ev_Verdict (kernel_eval w k now) = VerdictAllow.

(** The capsule [c] was issued under the epochs of [f]. *)
Definition carries (c : DecisionCapsule) (f : ScopeFenceState) : Prop :=
  dc_BootIDHash c = fs_BootIDHash f ∧ dc_AuthorityTerm c = fs_AuthorityTerm f ∧
  dc_DecisionEpoch c = fs_DecisionEpoch f ∧ dc_RevocationEpoch c = fs_RevocationEpoch f.

Lemma allows_inv w k now : allows w k now ↔
  ∃ c f, capsule_of w k = Some c ∧ fence_of w (scope_fence k) = Some f ∧ carries c f ∧
    dc_DeadlineMonoNS c ≠ 0 ∧ now ≤ dc_DeadlineMonoNS c ∧ dc_Decision c = KernelDecisionAllow.
Proof.
  unfold allows, kernel_eval, carries. split.
  - destruct (fence_of w (scope_fence k)) as [f|]; [|done]. destruct (capsule_of w k) as [c|]; [|done].
    intros H%evaluate_allows. exists c, f. tauto.
  - intros (c & f & -> & -> & H). apply evaluate_allows. tauto.
Qed.

Lemma kernel_eval_same w w' k now :
  capsule_of w' k = capsule_of w k → fence_of w' (scope_fence k) = fence_of w (scope_fence k) →
  kernel_eval w' k now = kernel_eval w k now.
Proof. unfold kernel_eval. by intros -> ->. Qed.

Lemma prepare_install_Ok req clock r : prepare_install req clock = Ok r →
  is_Scope r = ir_Scope req ∧ is_FenceKey r = scope_fence (ir_Scope req) ∧ carries (is_Capsule r) (is_Fence r) ∧
  dc_Decision (is_Capsule r) = ir_Decision req ∧ ValidateCapsule (is_Capsule r) = None ∧
  fs_AuthorityTerm (is_Fence r) = ir_AuthorityTerm req ∧ fs_DecisionEpoch (is_Fence r) = ir_DecisionEpoch req ∧
  fs_RevocationEpoch (is_Fence r) = ir_RevocationEpoch req ∧
  ∃ l, BindExternalLease (ir_Lease req) clock = Ok l ∧ dc_DeadlineMonoNS (is_Capsule r) = ll_DeadlineMonoNS l ∧
    fs_BootIDHash (is_Fence r) = ll_BootIDHash l.
Proof.
  unfold prepare_install. destruct (validateScopeKey _); [done|]. destruct (_ || _); [done|].
  unfold mbind, result_bind. destruct (BindExternalLease _ _) as [l|]; [|done].
  do 5 (destruct (wrap_err _ _); [|done]). unfold FenceKey. destruct (_ || _); [done|].
  destruct (ValidateCapsule _) eqn:Hv; [done|]. intros [= <-]. simpl. split_and!; try done. by exists l.
Qed.

Definition other_scope (req : InstallRequest) (k : ScopeKey) : Prop :=
  scope_fence k ≠ scope_fence (ir_Scope req).

(** Every way an installation can end. *)
Lemma Install_cases req clock w res w' t : Install (Some st) req clock w = (res, w', t) →
  (∃ err, prepare_install req clock = Error err ∧ res = Error err ∧ w' = w ∧ t = []) ∨
  ∃ r, prepare_install req clock = Ok r ∧
    ((∃ err w1, st_PutFence st CtxCaller (is_FenceKey r) (is_Fence r) w = (Some err, w') ∧ w1 = w' ∧
        is_ok res = false ∧ t = [CPutFence (is_FenceKey r) (is_Fence r) (Some err)]) ∨
     (∃ w1, st_PutFence st CtxCaller (is_FenceKey r) (is_Fence r) w = (None, w1) ∧
        ((∃ err err' w2, st_PutCapsule st CtxCaller (is_Scope r) (is_Capsule r) w1 = (Some err, w2) ∧
            st_DeleteCapsule st CtxWithoutCancel (is_Scope r) w2 = (err', w') ∧ is_ok res = false ∧
            t = [CPutFence (is_FenceKey r) (is_Fence r) None;
                 CPutCapsule (is_Scope r) (is_Capsule r) (Some err);
                 CDeleteCapsule CtxWithoutCancel (is_Scope r) err']) ∨
         (st_PutCapsule st CtxCaller (is_Scope r) (is_Capsule r) w1 = (None, w') ∧ res = Ok r ∧
            t = [CPutFence (is_FenceKey r) (is_Fence r) None;
                 CPutCapsule (is_Scope r) (is_Capsule r) None])))).
Proof.
  unfold Install. destruct (prepare_install req clock) as [r|err] eqn:Hp.
  - intros H. right. exists r. split; [done|]. run_monad; naive_solver.
  - intros [-> [-> ->]]%ret_inv. left. by exists err.
Qed.
End InstallerFacts.

(** The epochs and the boot an installation is for. *)
Definition of_request (req : InstallRequest) (clock : ClockSnapshot) (c : DecisionCapsule) : Prop :=
  dc_BootIDHash c = cs_BootIDHash clock ∧ dc_AuthorityTerm c = ir_AuthorityTerm req ∧
  dc_DecisionEpoch c = ir_DecisionEpoch req ∧ dc_RevocationEpoch c = ir_RevocationEpoch req.

Lemma BindExternalLease_boot lease clock l :
  BindExternalLease lease clock = Ok l → ll_BootIDHash l = cs_BootIDHash clock.
Proof. unfold BindExternalLease. split_ifs; by intros [= <-]. Qed.

Lemma carries_of_request req clock r c :
  prepare_install req clock = Ok r → carries c (is_Fence r) → of_request req clock c.
Proof.
  intros (_ & _ & _ & _ & _ & H1 & H2 & H3 & l & Hl%BindExternalLease_boot & _ & Hb)%prepare_install_Ok.
  unfold carries, of_request. intuition congruence.
Qed.

(** * Properties *)


(** Revoking the current scope takes every allow under it away.  When
    [RevokeCurrentScope] or [RevokeCurrentScopeForBoot] succeeds, the fence it
    read, of the expected boot if one is given, has moved to the next
    revocation epoch and to nothing else; whatever the kernel allowed under the
    scope is now denied as revoked, and what it allows carries the new epoch;
    scopes under another fence are untouched, whatever the outcome. *)
Theorem revoke_denies_scope {W} (st : KernelStore W) fence_of capsule_of
    `{!KernelStoreLaws st fence_of capsule_of} key expected w res w' t :
  (∀ k f, fence_of w k = Some f → is_u64 (fs_RevocationEpoch f)) →
  revokeCurrentScope (Some st) key expected w = (res, w', t) →
  (∀ k now, scope_fence k ≠ key → kernel_eval fence_of capsule_of w' k now = kernel_eval fence_of capsule_of w k now) ∧
  (∀ next, res = Ok next → ∃ cur,
     fence_of w key = Some cur ∧ fence_of w' key = Some next ∧ from_option (eq (fs_BootIDHash cur)) True expected ∧
     fs_BootIDHash next = fs_BootIDHash cur ∧
     fs_AuthorityTerm next = fs_AuthorityTerm cur ∧ fs_DecisionEpoch next = fs_DecisionEpoch cur ∧
     fs_RevocationEpoch next = fs_RevocationEpoch cur + 1 ∧
     ∀ k now, scope_fence k = key →
       (allows fence_of capsule_of w k now → kernel_eval fence_of capsule_of w' k now = deny DenyRevoked) ∧
       (allows fence_of capsule_of w' k now → ∃ c, capsule_of w k = Some c ∧
          dc_RevocationEpoch c = fs_RevocationEpoch cur + 1)).
Proof.
  intros Hty. unfold revokeCurrentScope, RevokeScope.
  destruct (st_GetFence st) as [get|] eqn:Hget; [|intros (-> & -> & ->)%ret_inv; done].
  intros H. apply bind_inv in H as (r & w1 & t1 & t2 & Hg & H & ->). apply call_inv in Hg as [Hg ->].
  destruct (get_fence _ _ _ _ _ _ Hget Hg) as (Hf1 & Hc1 & Hr).
  destruct r as [cur|err]; [|apply ret_inv in H as (-> & -> & ->); split; [intros; by apply kernel_eval_same|done]].
  specialize (Hr _ eq_refl).
  destruct (match expected with Some _ => _ | None => _ end) eqn:Hexp;
    [apply ret_inv in H as (-> & -> & ->); split; [intros; by apply kernel_eval_same|done]|].
  destruct (Z.eqb_spec (fs_RevocationEpoch cur) MaxUint64) as [|Hmax];
    [apply ret_inv in H as (-> & -> & ->); split; [intros; by apply kernel_eval_same|done]|].
  assert (fs_RevocationEpoch (next_epoch cur) = fs_RevocationEpoch cur + 1) as Hnext.
  { apply wrap_u64_small. pose proof (Hty _ _ Hr). unfold is_u64, MaxUint64 in *. lia. }
  apply bind_inv in H as (e & w2 & t3 & t4 & Hp & H & ->).
  repeat match type of Hp with (if ?b then _ else _) _ = _ => destruct b end;
    [apply ret_inv in Hp as (-> & -> & ->); apply ret_inv in H as (-> & -> & ->);
     split; [intros; by apply kernel_eval_same|done]..|].
  apply call_inv in Hp as [Hp ->]. destruct (put_fence _ _ _ _ _ _ Hp) as (Hf2 & Hc2 & Hset & _).
  assert (w' = w2 ∧ (e = None ∧ res = Ok (next_epoch cur) ∨ is_ok res = false)) as [-> Hres]
    by (destruct e; apply ret_inv in H as (-> & -> & ->); auto).
  split; [intros k now Hk; apply kernel_eval_same; [by rewrite Hc2, Hc1|by rewrite Hf2, Hf1]|].
  intros next ->. destruct Hres as [[-> [= ->]]|]; [|done]. specialize (Hset eq_refl).
  exists cur. split_and!; [done..| | | | | |]; try done.
  { destruct expected; [by split_bool|done]. }
  intros k now Hk. split.
  - intros (c & f & Hc & Hf & (Hb & Ht & Hd & Hre) & _)%allows_inv. rewrite Hk, Hr in Hf. simplify_eq.
    unfold kernel_eval. rewrite Hc2, Hc1, Hc, Hset. unfold EvaluateReference.
    rewrite Hnext, Hre, Hb, Ht, Hd, str_eqb_refl, !Z.eqb_refl. simpl.
    by rewrite (proj2 (Z.eqb_neq (fs_RevocationEpoch f) (fs_RevocationEpoch f + 1))) by lia.
  - intros (c & f & Hc & Hf & (_ & _ & _ & Hre) & _)%allows_inv. rewrite Hk, Hset in Hf. simplify_eq.
    exists c. by rewrite <- Hc1, <- Hc2, Hre, Hnext.
Qed.

(** C40: a kernel allow never outlives the external lease.  Binding a lease gives
    a monotonic deadline after the installation, without wrap-around, at exactly
    the smaller of the remaining wall time and the maximal lifetime; and as long
    as a capsule with that deadline is allowed, the wall clock derived from the
    monotonic clock is at most [NotAfter] and within [MaxLifetime] of the
    binding. *)
Theorem lease_never_outlives_authority lease clock l current now c f :
  is_u64 (cs_MonoNowNS clock) → is_i64 (el_MaxLifetime lease) → is_u64 (cs_MonoNowNS current) →
  BindExternalLease lease clock = Ok l → AdvanceClockSnapshot clock current = Ok now →
  dc_DeadlineMonoNS c = ll_DeadlineMonoNS l →
  (is_u64 (ll_DeadlineMonoNS l) ∧ ll_InstalledAtMonoNS l < ll_DeadlineMonoNS l ∧
   ll_DeadlineMonoNS l = cs_MonoNowNS clock +
     Z.min (el_NotAfter lease - cs_WallNow clock) (el_MaxLifetime lease)) ∧
  (ev_Verdict (EvaluateReference (Some c) f (cs_MonoNowNS now)) = VerdictAllow →
   cs_WallNow now ≤ el_NotAfter lease ∧ cs_WallNow now - cs_WallNow clock ≤ el_MaxLifetime lease).
Proof.
  intros Hm Hl Hc Hbind Hadv Hd. apply BindExternalLease_Ok in Hbind as (H1 & H2 & H3 & H4 & H5 & H6 & ->); [|done..].
  apply AdvanceClockSnapshot_Ok in Hadv as (_ & Hdelta & ->); [|done..]. unfold is_u64, is_i64 in *. simpl in *.
  split; [lia|]. destruct f as [f|]; [|done]. intros (_ & _ & _ & _ & _ & Hnow & _)%evaluate_allows. lia.
Qed.

(** the reference evaluation allows exactly an ALLOW capsule of the fence's
    boot, term and epochs at or before its non-zero deadline, gives the reason
    [DenyNone] exactly then, and an allow only ever ends as time passes. *)
Theorem evaluate_reference_exact capsule fence now :
  (ev_Verdict (EvaluateReference capsule fence now) = VerdictAllow ↔
   ∃ c f, capsule = Some c ∧ fence = Some f ∧ carries c f ∧ dc_DeadlineMonoNS c ≠ 0 ∧
     now ≤ dc_DeadlineMonoNS c ∧ dc_Decision c = KernelDecisionAllow) ∧
  (ev_Reason (EvaluateReference capsule fence now) = DenyNone ↔
   ev_Verdict (EvaluateReference capsule fence now) = VerdictAllow) ∧
  (∀ earlier, earlier ≤ now → ev_Verdict (EvaluateReference capsule fence now) = VerdictAllow →
   ev_Verdict (EvaluateReference capsule fence earlier) = VerdictAllow).
Proof.
  assert (∀ n, ev_Verdict (EvaluateReference capsule fence n) = VerdictAllow ↔
   ∃ c f, capsule = Some c ∧ fence = Some f ∧ carries c f ∧ dc_DeadlineMonoNS c ≠ 0 ∧
     n ≤ dc_DeadlineMonoNS c ∧ dc_Decision c = KernelDecisionAllow) as H.
  { intros n. unfold carries. destruct fence as [f|]; [|split; [done|naive_solver]].
    destruct capsule as [c|]; [|split; [done|naive_solver]]. rewrite evaluate_allows. split.
    - intros Ha. exists c, f. tauto.
    - intros (c' & f' & [= <-] & [= <-] & Ha). tauto. }
  split_and!; [apply H| |].
  - unfold EvaluateReference. destruct fence; [|done]. destruct capsule; [|done]. by split_ifs.
  - intros earlier He. rewrite !H. intros (c & f & ? & ? & ? & ? & ? & ?). exists c, f. split_and!; [done..|lia|done].
Qed.

(** * Witnesses *)

Lemma triple_eta {A B C} (p : A * B * C) : p = (p.1.1, p.1.2, p.2).
Proof. by destruct p as [[? ?] ?]. Qed.

(** A store whose two maps are exactly the kernel's; its writes fail on demand. *)
Record toy_world : Type := {
  tw_fences : gmap ScopeFenceKey ScopeFenceState; tw_capsules : gmap ScopeKey DecisionCapsule; tw_broken : bool }.

Definition toy_write (w : toy_world) (w' : toy_world) : option error * toy_world :=
  if tw_broken w then (Some (ErrNew "store is read only"), w) else (None, w').

Definition toy_store : KernelStore toy_world := {|
  st_PutFence _ k s w := toy_write w
    {| tw_fences := <[k := s]> (tw_fences w); tw_capsules := tw_capsules w; tw_broken := tw_broken w |};
  st_PutCapsule _ k c w := toy_write w
    {| tw_fences := tw_fences w; tw_capsules := <[k := c]> (tw_capsules w); tw_broken := tw_broken w |};
  st_DeleteCapsule _ k w := toy_write w
    {| tw_fences := tw_fences w; tw_capsules := delete k (tw_capsules w); tw_broken := tw_broken w |};
  st_GetFence := Some (λ _ k w,
    (match tw_fences w !! k with Some s => Ok s | None => Error (ErrNew "no such fence") end, w)) |}.

Definition toy_fence (w : toy_world) (k : ScopeFenceKey) := tw_fences w !! k.
Definition toy_capsule (w : toy_world) (k : ScopeKey) := tw_capsules w !! k.

#[local] Instance toy_store_laws : KernelStoreLaws toy_store toy_fence toy_capsule.
Proof.
  split; simpl; unfold toy_write, toy_fence, toy_capsule.
  - intros ctx k s w e w' H. destruct (tw_broken w); injection H as <- <-; simpl; [by split_and!; auto|].
    split_and!; intros; rewrite ?lookup_insert_eq; auto. by rewrite lookup_insert_ne.
  - intros ctx k c w e w' H. destruct (tw_broken w); injection H as <- <-; simpl; [by split_and!; auto|].
    split_and!; intros; rewrite ?lookup_insert_eq; auto. by rewrite lookup_insert_ne.
  - intros ctx k w e w' H. destruct (tw_broken w); injection H as <- <-; simpl; [by split_and!; auto|].
    split_and!; intros; rewrite ?lookup_delete_eq; auto. by rewrite lookup_delete_ne.
  - intros get ctx k w r w' [= <-] [= <- <-]. split_and!; [done..|]. intros s. destruct (tw_fences w !! k); [by intros [= ->]|done].
Qed.

Definition toy_empty : toy_world := {| tw_fences := ∅; tw_capsules := ∅; tw_broken := false |}.
Definition sample_clock (mono : Z) : ClockSnapshot := {|
  cs_WallNow := 1000; cs_MonoNowNS := mono; cs_BootIDHash := "0123456789abcdef0123456789abcdef" |}.
Definition sample_lease : ExternalLease := {| el_IssuedAt := 900; el_NotAfter := 1500; el_MaxLifetime := 300 |}.
Definition sample_key : ScopeKey := {|
  sk_CgroupID := 7; sk_ActionClass := 1; sk_AddressFamily := 0; sk_DestinationAddr := zeros 16;
  sk_DestinationPort := 0; sk_Protocol := 0 |}.
Definition sample_install (decision : Z) : InstallRequest := {|
  ir_Scope := sample_key; ir_DecisionID := "d"; ir_Subject := "s"; ir_Action := "connect";
  ir_PolicyDigest := sha256_digest "policy"; ir_EvidenceDigest := sha256_digest "evidence";
  ir_AuthorityTerm := 1; ir_DecisionEpoch := 4; ir_RevocationEpoch := 2; ir_Decision := decision;
  ir_Constraints := 0; ir_Lease := sample_lease |}.

(** The installed scope is allowed until its deadline and then expires; after a
    revocation it is denied. *)
Definition toy_install := Install (Some toy_store) (sample_install 1) (sample_clock 50) toy_empty.
Definition toy_installed : toy_world := toy_install.1.2.
Definition toy_revoke := revokeCurrentScope (Some toy_store) (scope_fence sample_key) None toy_installed.

Lemma toy_install_ok : is_ok toy_install.1.1 = true ∧
  match toy_capsule toy_installed sample_key with Some c => dc_DeadlineMonoNS c =? 350 | None => false end = true.
Proof. split; vm_compute; reflexivity. Qed.

Lemma toy_revoke_eval : ev_Reason (kernel_eval toy_fence toy_capsule toy_revoke.1.2 sample_key 60) = DenyRevoked.
Proof. vm_compute. reflexivity. Qed.


Lemma toy_epochs_typed k f : toy_fence toy_installed k = Some f → is_u64 (fs_RevocationEpoch f).
Proof.
  assert (map_to_list (tw_fences toy_installed) = [(scope_fence sample_key,
    {| fs_BootIDHash := cs_BootIDHash (sample_clock 50); fs_AuthorityTerm := 1; fs_DecisionEpoch := 4;
       fs_RevocationEpoch := 2 |})]) as Hl by (vm_compute; reflexivity).
  unfold toy_fence. intros Hf%elem_of_map_to_list. rewrite Hl in Hf.
  apply list_elem_of_singleton in Hf as [= -> ->]. unfold is_u64. simpl. lia.
Qed.

Lemma toy_revoke_ok : is_ok toy_revoke.1.1 = true.
Proof. vm_compute. reflexivity. Qed.

Lemma toy_allowed : ev_Verdict (kernel_eval toy_fence toy_capsule toy_installed sample_key 60) = VerdictAllow.
Proof. vm_compute. reflexivity. Qed.

Example revoke_denies_scope_witness :
  kernel_eval toy_fence toy_capsule toy_revoke.1.2 sample_key 60 = deny DenyRevoked.
Proof.
  destruct (revoke_denies_scope toy_store toy_fence toy_capsule (scope_fence sample_key) None toy_installed
    toy_revoke.1.1 toy_revoke.1.2 toy_revoke.2 toy_epochs_typed) as [_ H].
  { exact (triple_eta toy_revoke). }
  pose proof toy_revoke_ok as Hok. destruct toy_revoke.1.1 as [next|]; [|discriminate Hok].
  destruct (H next eq_refl) as (cur & _ & _ & _ & _ & _ & _ & _ & Hk).
  exact (proj1 (Hk sample_key 60 eq_refl) toy_allowed).
Defined.

Example lease_never_outlives_authority_witness :
  ∃ l now, BindExternalLease sample_lease (sample_clock 50) = Ok l ∧
    AdvanceClockSnapshot (sample_clock 50) (sample_clock 350) = Ok now ∧
    ll_DeadlineMonoNS l = 50 + Z.min (1500 - 1000) 300.
Proof.
  eexists _, _. split; [reflexivity|]. split; [vm_compute; reflexivity|].
  refine (proj2 (proj2 (proj1 (lease_never_outlives_authority sample_lease (sample_clock 50) _ (sample_clock 350) _
    {| dc_DecisionIDHash := ""; dc_SubjectHash := ""; dc_ActionHash := ""; dc_PolicyHash := ""; dc_EvidenceHash := "";
       dc_BootIDHash := ""; dc_AuthorityTerm := 1; dc_DecisionEpoch := 1; dc_RevocationEpoch := 0;
       dc_InstalledAtMonoNS := 50; dc_DeadlineMonoNS := 350; dc_Decision := 1; dc_Constraints := 0 |}
    None _ _ _ eq_refl eq_refl eq_refl)))); unfold is_u64, is_i64; simpl; lia.
Defined.

(** * Divergences *)

(** [RevokeScope] is described as a write that invalidates every capsule of the
    scope, but a next state that repeats the current epochs is accepted and
    denies nothing. *)
Lemma revoke_scope_may_revoke_nothing :
  let same := from_option id {| fs_BootIDHash := ""; fs_AuthorityTerm := 0; fs_DecisionEpoch := 0; fs_RevocationEpoch := 0 |}
    (toy_fence toy_installed (scope_fence sample_key)) in
  let '(err, w', _) := RevokeScope (Some toy_store) (scope_fence sample_key) same toy_installed in
  bool_decide (err = None) && bool_decide (ev_Verdict (kernel_eval toy_fence toy_capsule w' sample_key 60) = VerdictAllow) = true.
Proof. vm_compute. reflexivity. Qed.
