(* ===== verification/Continuity.v ===== *)
(** * Continuity of kernel evidence

    Models [internal/kernelfabric/continuity.go] and [taint_continuity.go]: the
    trackers that follow the sequence numbers of the events read from the kernel
    and compare the kernel's loss counter with a baseline.  The two files hold
    the same code for two event types; [Tracked] is what differs. *)

From S2P Require Import Prelude KernelAbi.
Local Open Scope Z_scope.

Inductive EvidenceContinuityStatus : Type := EvidenceContinuityIntact | EvidenceContinuityDegraded.

Definition ContinuityReasonRingBufferLoss : string := "KERNEL_RINGBUF_OVERFLOW".
Definition ContinuityReasonSequenceGap : string := "KERNEL_EVIDENCE_SEQUENCE_GAP".

Definition ErrEvidenceSequenceInvalid : error := ErrNew "kernel evidence sequence is invalid".
Definition ErrEvidenceCounterReset : error := ErrNew "kernel evidence accounting counter reset".

Record ContinuityAssessment : Type := {
  cy_Status : EvidenceContinuityStatus; cy_LastSequence : Z; cy_KernelSequence : Z; cy_EmittedEvents : Z;
  cy_LostEventsTotal : Z; cy_LostSinceBaseline : Z; cy_SequenceGaps : Z; cy_ReasonCodes : list string }.

(** [ContinuityTracker] and [TaintContinuityTracker] have the same fields. *)
Record Tracker : Type := { tr_baselineLost : Z; tr_lastSequence : Z; tr_sequenceGaps : Z }.

(** What a tracker reads of an event and of an accounting, and the words of its
    messages. *)
Class Tracked (E A : Type) : Type := {
  accepted : E → bool;
  event_sequence : E → Z;
  acct_sequence : A → Z;
  acct_emitted : A → Z;
  acct_lost : A → Z;
  subject : string;   (* "evidence" or "taint", the kind of the accounting *)
  prefix : string     (* "" or "taint ", before "sequence" and "continuity" *) }.

#[export] Instance evidence_tracked : Tracked EvidenceEvent EvidenceAccounting := {|
  accepted e := (ee_ABIVersion e =? EvidenceEventVersion) && (ee_EventType e =? EvidenceEventEnforcement) &&
                negb (ee_Sequence e =? 0);
  event_sequence := ee_Sequence;
  acct_sequence := ea_Sequence; acct_emitted := ea_Emitted; acct_lost := ea_Lost;
  subject := "evidence"; prefix := "" |}.

#[export] Instance taint_tracked : Tracked TaintEvent TaintAccounting := {|
  accepted e := (tn_ABIVersion e =? TaintABIVersion) && negb (tn_Sequence e =? 0) &&
                (TaintEventSourceRead <=? tn_EventType e) && (tn_EventType e <=? TaintEventFileReadObserved) &&
                (TaintOperationRead <=? tn_Operation e) && (tn_Operation e <=? TaintOperationConnect);
  event_sequence := tn_Sequence;
  acct_sequence := ta_Sequence; acct_emitted := ta_Emitted; acct_lost := ta_Lost;
  subject := "taint"; prefix := "taint " |}.

Section Trackers.
Context {E A : Type} `{T : !Tracked E A}.
Implicit Types (event : E) (accounting : A).

Definition inconsistent accounting : bool :=
  counters_inconsistent (acct_emitted accounting) (acct_lost accounting) (acct_sequence accounting).

Definition inconsistent_error (what : string) accounting : error :=
  ErrNew (what +:+ subject +:+ " accounting: " +:+
    counters_text (acct_emitted accounting) (acct_lost accounting) (acct_sequence accounting)).

Definition NewContinuityTracker (initial : A) : result Tracker :=
  if inconsistent initial then Error (inconsistent_error "invalid initial " initial)
  else Ok {| tr_baselineLost := acct_lost initial; tr_lastSequence := 0; tr_sequenceGaps := 0 |}.

Definition nil_tracker : error := ErrNew (prefix +:+ "continuity tracker is nil").

(** The receiver is a pointer: [None] is nil.  The result is the error and the
    tracker after the call. *)
Definition Observe (t : option Tracker) event : option error * option Tracker :=
  match t with
  | None => (Some nil_tracker, None)
  | Some tr =>
      if negb (accepted event) then (Some ErrEvidenceSequenceInvalid, t)
      else if negb (tr_lastSequence tr =? 0) && (event_sequence event <=? tr_lastSequence tr)
      then (Some (ErrDetail ErrEvidenceSequenceInvalid
              ("non-monotonic " +:+ prefix +:+ "sequence " +:+ pretty (event_sequence event) +:+
               " after " +:+ pretty (tr_lastSequence tr))), t)
      else
        let gaps :=
          if negb (tr_lastSequence tr =? 0) && (wrap_u64 (tr_lastSequence tr + 1) <? event_sequence event)
          then wrap_u64 (tr_sequenceGaps tr + wrap_u64 (event_sequence event - tr_lastSequence tr - 1))
          else tr_sequenceGaps tr in
        (None, Some {| tr_baselineLost := tr_baselineLost tr; tr_lastSequence := event_sequence event;
                       tr_sequenceGaps := gaps |})
  end.

Definition Assess (t : option Tracker) accounting : result ContinuityAssessment :=
  match t with
  | None => Error nil_tracker
  | Some tr =>
      if inconsistent accounting then Error (inconsistent_error "invalid " accounting)
      else if acct_lost accounting <? tr_baselineLost tr then Error ErrEvidenceCounterReset
      else if acct_sequence accounting <? tr_lastSequence tr
      then Error (ErrDetail ErrEvidenceSequenceInvalid
             ("observed " +:+ prefix +:+ "sequence " +:+ pretty (tr_lastSequence tr) +:+
              " exceeds kernel sequence " +:+ pretty (acct_sequence accounting)))
      else
        let lost := wrap_u64 (acct_lost accounting - tr_baselineLost tr) in
        let ring := 0 <? lost in
        let gap := 0 <? tr_sequenceGaps tr in
        Ok {| cy_Status := if ring || gap then EvidenceContinuityDegraded else EvidenceContinuityIntact;
              cy_LastSequence := tr_lastSequence tr; cy_KernelSequence := acct_sequence accounting;
              cy_EmittedEvents := acct_emitted accounting; cy_LostEventsTotal := acct_lost accounting;
              cy_LostSinceBaseline := lost; cy_SequenceGaps := tr_sequenceGaps tr;
              cy_ReasonCodes := (if ring then [ContinuityReasonRingBufferLoss] else []) ++
                                (if gap then [ContinuityReasonSequenceGap] else []) |}
  end.

Definition Checkpoint (t : option Tracker) accounting : option error * option Tracker :=
  match t with
  | None => (Some nil_tracker, None)
  | Some tr =>
      if acct_lost accounting <? tr_baselineLost tr then (Some ErrEvidenceCounterReset, t)
      else (None, Some {| tr_baselineLost := acct_lost accounting; tr_lastSequence := tr_lastSequence tr;
                          tr_sequenceGaps := 0 |})
  end.

(** A reader hands the tracker one event after another and stops at an error. *)
Fixpoint observe_all (t : option Tracker) (events : list E) : option error * option Tracker :=
  match events with
  | [] => (None, t)
  | e :: rest =>
      match Observe t e with
      | (Some err, t') => (Some err, t')
      | (None, t') => observe_all t' rest
      end
  end.
End Trackers.

(** The methods of the two trackers of the source. *)
Definition ContinuityTracker_Observe := Observe (T := evidence_tracked).
Definition TaintContinuityTracker_New := NewContinuityTracker (T := taint_tracked).
Definition TaintContinuityTracker_Observe := Observe (T := taint_tracked).
Definition TaintContinuityTracker_Assess := Assess (T := taint_tracked).
Definition TaintContinuityTracker_Checkpoint := Checkpoint (T := taint_tracked).

(** * Facts *)

(** No tracked event has sequence 0. *)
Class TrackedLaws {E A} (T : Tracked E A) : Prop :=
  accepted_nonzero e : accepted e = true → event_sequence e ≠ 0.

#[export] Instance evidence_tracked_laws : TrackedLaws evidence_tracked.
Proof. intros e. simpl. intros H. split_bool. by apply Z.eqb_neq. Qed.

#[export] Instance taint_tracked_laws : TrackedLaws taint_tracked.
Proof. intros e. simpl. intros H. split_bool. by apply Z.eqb_neq. Qed.

Section TrackerFacts.
Context {E A : Type} {T : Tracked E A} `{!TrackedLaws T}.
Implicit Types (e : E) (l : list E) (tr : Tracker).

(** Every sequence number is the successor of the one before; a tracker that
    has seen nothing starts at the first event. *)
Fixpoint contiguous (d : Z) l : Prop :=
  match l with
  | [] => True
  | e :: rest => (d = 0 ∨ event_sequence e = d + 1) ∧ contiguous (event_sequence e) rest
  end.

(** The number of sequence numbers skipped after [d]. *)
Fixpoint missing (d : Z) l : Z :=
  match l with
  | [] => 0
  | e :: rest => (if d =? 0 then 0 else event_sequence e - d - 1) + missing (event_sequence e) rest
  end.

Fixpoint increasing (d : Z) l : Prop :=
  match l with
  | [] => True
  | e :: rest => d < event_sequence e ∧ increasing (event_sequence e) rest
  end.

Definition tracker_ok tr : Prop :=
  is_u64 (tr_baselineLost tr) ∧ is_u64 (tr_lastSequence tr) ∧ 0 ≤ tr_sequenceGaps tr ≤ tr_lastSequence tr.

Lemma missing_nonneg d l : increasing d l → 0 ≤ missing d l.
Proof.
  revert d. induction l as [|e l IH]; intros d; simpl; [lia|]. intros [Hd Hl]. specialize (IH _ Hl).
  destruct (Z.eqb_spec d 0); lia.
Qed.

Lemma contiguous_missing d l : 0 ≤ d → increasing d l → contiguous d l ↔ missing d l = 0.
Proof.
  revert d. induction l as [|e l IH]; intros d Hd0; simpl; [done|]. intros [Hd Hl].
  rewrite IH by (done || lia). pose proof (missing_nonneg _ _ Hl). destruct (Z.eqb_spec d 0); lia.
Qed.

Lemma Observe_Some tr e t' : tracker_ok tr → is_u64 (event_sequence e) →
  Observe (Some tr) e = (None, t') →
  tr_lastSequence tr < event_sequence e ∧ ∃ tr', t' = Some tr' ∧ tracker_ok tr' ∧
    tr_baselineLost tr' = tr_baselineLost tr ∧ tr_lastSequence tr' = event_sequence e ∧
    tr_sequenceGaps tr' = tr_sequenceGaps tr + missing (tr_lastSequence tr) [e].
Proof.
  unfold is_u64. intros (Hb & Hl & Hg) He. unfold is_u64 in *. cbn [Observe missing].
  destruct (accepted e) eqn:Ha; [|done]. apply accepted_nonzero in Ha. cbn [negb].
  destruct (Z.eqb_spec (tr_lastSequence tr) 0) as [H0|H0]; cbn [negb andb].
  - intros [= <-]. split; [lia|]. eexists. split; [done|]. unfold tracker_ok, is_u64. simpl. lia.
  - destruct (Z.leb_spec (event_sequence e) (tr_lastSequence tr)); [done|]. intros [= <-]. split; [lia|].
    eexists. split; [done|]. unfold tracker_ok, is_u64. cbn [tr_baselineLost tr_lastSequence tr_sequenceGaps].
    rewrite (wrap_u64_small (tr_lastSequence tr + 1)) by (unfold is_u64; lia).
    rewrite (wrap_u64_small (event_sequence e - _ - 1)) by (unfold is_u64; lia).
    rewrite wrap_u64_small by (unfold is_u64; lia).
    destruct (Z.ltb_spec (tr_lastSequence tr + 1) (event_sequence e)); lia.
Qed.

Lemma observe_all_Some tr l t' : tracker_ok tr → Forall (λ e, is_u64 (event_sequence e)) l →
  observe_all (Some tr) l = (None, t') →
  increasing (tr_lastSequence tr) l ∧ ∃ tr', t' = Some tr' ∧ tracker_ok tr' ∧
    tr_baselineLost tr' = tr_baselineLost tr ∧
    tr_sequenceGaps tr' = tr_sequenceGaps tr + missing (tr_lastSequence tr) l.
Proof.
  revert tr. induction l as [|e l IH]; intros tr Hok Hty; cbn [observe_all increasing missing].
  { intros [= <-]. split; [done|]. exists tr. split_and!; [done..|lia]. }
  apply Forall_cons in Hty as [He Hty]. destruct (Observe (Some tr) e) as [[err|] t1] eqn:Ho; [done|].
  destruct (Observe_Some tr e t1 Hok He Ho) as (Hlt & tr1 & -> & Hok1 & Hb1 & Hl1 & Hg1). intros H.
  destruct (IH tr1 Hok1 Hty H) as (Hinc & tr' & -> & Hok' & Hb' & Hg'). rewrite Hl1 in *.
  split; [done|]. exists tr'. split_and!; [done..|congruence|]. simpl in Hg1. lia.
Qed.
End TrackerFacts.

(** * Properties *)

(** The continuity verdict is exact.  Take a tracker that starts afresh or
    from a checkpoint, let it accept any sequence of events, and assess it: the
    observed sequence numbers strictly increase, [SequenceGaps] is the exact
    number of skipped ones, [LostSinceBaseline] the exact increase of the loss
    counter, neither wrapping, and the status is INTACT exactly when nothing was
    lost and the observed numbers are contiguous.  This holds of the evidence
    tracker and of the taint tracker. *)
Theorem continuity_is_exact {E A} (T : Tracked E A) `{!TrackedLaws T} (i a : A) tr0 events t asm :
  is_u64 (acct_lost i) → is_u64 (acct_lost a) → Forall (λ e, is_u64 (event_sequence e)) events →
  (NewContinuityTracker i = Ok tr0 ∨
   ∃ tr, tracker_ok tr ∧ Checkpoint (Some tr) i = (None, Some tr0)) →
  observe_all (Some tr0) events = (None, t) → Assess t a = Ok asm →
  increasing (tr_lastSequence tr0) events ∧
  cy_SequenceGaps asm = missing (tr_lastSequence tr0) events ∧
  cy_LostSinceBaseline asm = acct_lost a - acct_lost i ∧ 0 ≤ cy_LostSinceBaseline asm ∧
  (cy_Status asm = EvidenceContinuityIntact ↔
   acct_lost a = acct_lost i ∧ contiguous (tr_lastSequence tr0) events) ∧
  (cy_Status asm = EvidenceContinuityIntact ↔ cy_ReasonCodes asm = []).
Proof.
  intros Hi Ha Hev Hstart Hobs Has.
  assert (tracker_ok tr0 ∧ tr_baselineLost tr0 = acct_lost i ∧ tr_sequenceGaps tr0 = 0) as (Hok0 & Hb0 & Hg0).
  { destruct Hstart as [H|(tr & (? & ? & ?) & H)]; revert H.
    - unfold NewContinuityTracker. destruct (inconsistent i); [done|]. intros [= <-]. unfold tracker_ok, is_u64 in *. simpl. lia.
    - simpl. destruct (acct_lost i <? _); [done|]. intros [= <-]. unfold tracker_ok, is_u64 in *. simpl. lia. }
  destruct (observe_all_Some tr0 events t Hok0 Hev Hobs) as (Hinc & tr' & -> & (Hb & Hl & _) & Hb' & Hg').
  rewrite Hg0, Z.add_0_l in Hg'. rewrite Hb0 in Hb'.
  assert (0 ≤ tr_lastSequence tr0) as Hl0 by apply Hok0.
  pose proof (missing_nonneg _ _ Hinc) as Hm. rewrite (contiguous_missing _ _ Hl0 Hinc).
  revert Has. unfold Assess. destruct (inconsistent a); [done|].
  destruct (Z.ltb_spec (acct_lost a) (tr_baselineLost tr')); [done|].
  destruct (acct_sequence a <? _); [done|]. intros [= <-]. simpl. unfold is_u64 in *.
  rewrite wrap_u64_small, Hb', Hg' by (unfold is_u64; lia).
  destruct (Z.ltb_spec 0 (acct_lost a - acct_lost i)), (Z.ltb_spec 0 (missing (tr_lastSequence tr0) events)); simpl;
    split_and!; try done; try lia; split; done || (intros [? ?]; lia) || (intros; split; lia).
Qed.

(** * Witness *)

Definition sample_event (n : Z) : TaintEvent := {|
  tn_Sequence := n; tn_ObservedAtMonoNS := 0; tn_CgroupID := 1; tn_FileDevice := 0; tn_FileInode := 0;
  tn_Labels := 1; tn_TGID := 9; tn_RelatedTGID := 0; tn_EventType := 1; tn_Operation := 1;
  tn_ABIVersion := 1; tn_Reserved := 0 |}.
Definition sample_accounting (s e l : Z) : TaintAccounting := {| ta_Sequence := s; ta_Emitted := e; ta_Lost := l |}.
Definition sample_events : list TaintEvent := sample_event <$> [4; 5; 8].
Definition sample_tracker : Tracker := {| tr_baselineLost := 1; tr_lastSequence := 0; tr_sequenceGaps := 0 |}.

Example continuity_is_exact_witness :
  match Assess (observe_all (Some sample_tracker) sample_events).2 (sample_accounting 9 8 1) with
  | Ok asm => cy_SequenceGaps asm = 2 ∧ cy_Status asm ≠ EvidenceContinuityIntact
  | Error _ => False
  end.
Proof.
  destruct (Assess _ _) as [asm|] eqn:Has; [|vm_compute in Has; discriminate Has].
  destruct (continuity_is_exact taint_tracked (sample_accounting 3 2 1) (sample_accounting 9 8 1) sample_tracker
    sample_events (observe_all (Some sample_tracker) sample_events).2 asm) as (_ & Hg & _ & _ & Hs & _).
  - unfold is_u64. simpl. lia.
  - unfold is_u64. simpl. lia.
  - repeat constructor; unfold is_u64; simpl; lia.
  - left. vm_compute. reflexivity.
  - vm_compute. reflexivity.
  - exact Has.
  - split; [rewrite Hg; vm_compute; reflexivity|]. intros Hi. apply Hs in Hi as [_ (_ & _ & [H|H] & _)]; simpl in H; lia.
Defined.
