(* ===== verification/Json.v ===== *)
(** * JSON encoding

    What the source uses of [json.Marshal]: the text of null, booleans, integers,
    strings, arrays and objects.  Strings are escaped as Go does by default:
    control characters, the quote and the backslash, the HTML characters, U+2028
    and U+2029, and U+FFFD for every byte that is not part of valid UTF-8.

    The digests and signatures of the program are computed over such texts, so
    what matters is that the text determines the value: [encode_inj]. *)

From S2P Require Import Prelude Crypto Format.

#[warnings="-register-all"]
Inductive json : Type :=
  | JNull
  | JBool (b : bool)
  | JInt (z : Z)
  | JString (s : string)
  | JArray (l : list json)
  | JObject (fields : list (string * json)).

(** * Strings *)

Definition quote : ascii := "034".
Definition backslash : ascii := "092".

Definition quoted (s : string) : string := String quote (s +:+ String quote "").

Definition in_range (lo : N) (a : ascii) (hi : N) : bool :=
  (lo <=? N_of_ascii a)%N && (N_of_ascii a <=? hi)%N.

Definition continuation (a : ascii) : bool := in_range 0x80 a 0xBF.

(** The well-formed UTF-8 sequences of two, three and four bytes. *)
Definition seq2 (a b : ascii) : bool := in_range 0xC2 a 0xDF && continuation b.

Definition seq3 (a b c : ascii) : bool :=
  (in_range 0xE0 a 0xE0 && in_range 0xA0 b 0xBF ||
   in_range 0xE1 a 0xEC && continuation b ||
   in_range 0xED a 0xED && in_range 0x80 b 0x9F ||
   in_range 0xEE a 0xEF && continuation b) && continuation c.

Definition seq4 (a b c d : ascii) : bool :=
  (in_range 0xF0 a 0xF0 && in_range 0x90 b 0xBF ||
   in_range 0xF1 a 0xF3 && continuation b ||
   in_range 0xF4 a 0xF4 && in_range 0x80 b 0x8F) && continuation c && continuation d.

(** The ASCII characters [json.Marshal] copies. *)
Definition plain (a : ascii) : bool :=
  in_range 0x20 a 0x7F &&
  negb (Ascii.eqb a quote || Ascii.eqb a backslash || Ascii.eqb a "<" || Ascii.eqb a ">" || Ascii.eqb a "&").

Definition esc (a : ascii) (rest : string) : string := String backslash (String a rest).

Definition escape_unicode (hi lo : N) (rest : string) : string :=
  esc "u" ("00" +:+ String (hex_digit hi) (String (hex_digit lo) rest)).

Definition escape_ascii (a : ascii) (rest : string) : string :=
  if plain a then String a rest
  else if Ascii.eqb a quote || Ascii.eqb a backslash then esc a rest
  else if Ascii.eqb a "008" then esc "b" rest
  else if Ascii.eqb a "012" then esc "f" rest
  else if Ascii.eqb a "010" then esc "n" rest
  else if Ascii.eqb a "013" then esc "r" rest
  else if Ascii.eqb a "009" then esc "t" rest
  else escape_unicode (N_of_ascii a / 16) (N_of_ascii a mod 16) rest.

Definition replacement (rest : string) : string := esc "u" ("fffd" +:+ rest).

(** U+2028 and U+2029 are E2 80 A8 and E2 80 A9. *)
Definition line_separator (a b c : ascii) : bool :=
  Ascii.eqb a "226" && Ascii.eqb b "128" && (Ascii.eqb c "168" || Ascii.eqb c "169").

Fixpoint escape (s : string) : string :=
  match s with
  | "" => ""
  | String a s1 =>
      if (N_of_ascii a <? 0x80)%N then escape_ascii a (escape s1)
      else match s1 with
      | "" => replacement (escape s1)
      | String b s2 =>
          if seq2 a b then String a (String b (escape s2))
          else match s2 with
          | "" => replacement (escape s1)
          | String c s3 =>
              if line_separator a b c
              then esc "u" ("202" +:+ String (if Ascii.eqb c "168" then "8"%char else "9"%char) (escape s3))
              else if seq3 a b c then String a (String b (String c (escape s3)))
              else match s3 with
              | "" => replacement (escape s1)
              | String d s4 =>
                  if seq4 a b c d then String a (String b (String c (String d (escape s4))))
                  else replacement (escape s1)
              end
          end
      end
  end.

(** [utf8.ValidString]. *)
Fixpoint utf8_valid (s : string) : bool :=
  match s with
  | "" => true
  | String a s1 =>
      if (N_of_ascii a <? 0x80)%N then utf8_valid s1
      else match s1 with
      | "" => false
      | String b s2 =>
          if seq2 a b then utf8_valid s2
          else match s2 with
          | "" => false
          | String c s3 =>
              if seq3 a b c then utf8_valid s3
              else match s3 with
              | "" => false
              | String d s4 => seq4 a b c d && utf8_valid s4
              end
          end
      end
  end.

(** * Values *)

(** The elements of an array and the members of an object, separated by commas. *)
Section Sequences.
Context (enc : json → string).

Fixpoint elements (l : list json) : string :=
  match l with
  | [] => ""
  | [v] => enc v
  | v :: l' => enc v +:+ String "," (elements l')
  end.

Fixpoint members (l : list (string * json)) : string :=
  match l with
  | [] => ""
  | [(k, v)] => quoted (escape k) +:+ String ":" (enc v)
  | (k, v) :: l' => quoted (escape k) +:+ String ":" (enc v +:+ String "," (members l'))
  end.
End Sequences.

Fixpoint encode (v : json) : string :=
  match v with
  | JNull => "null"
  | JBool b => if b then "true" else "false"
  | JInt z => pretty z
  | JString s => quoted (escape s)
  | JArray l => String "[" (elements encode l +:+ String "]" "")
  | JObject fields => String "{" (members encode fields +:+ String "}" "")
  end.

Example encode_sample :
  encode (JObject [("a", JString ("<x" +:+ String "010" "é")); ("n", JArray [JInt (-12); JNull; JBool true])]) =
  "{" +:+ quoted "a" +:+ ":" +:+ quoted ("\u003cx\n" +:+ "é") +:+ "," +:+ quoted "n" +:+ ":[-12,null,true]}".
Proof. vm_compute. reflexivity. Qed.

(** Every string of the value is valid UTF-8. *)
Fixpoint utf8_json (v : json) : bool :=
  match v with
  | JString s => utf8_valid s
  | JArray l => forallb utf8_json l
  | JObject fields => forallb (λ '(k, v), utf8_valid k && utf8_json v) fields
  | _ => true
  end.

(** * Reading an escaped string back *)

Definition unescape_char (e : ascii) : ascii :=
  if Ascii.eqb e "b" then "008" else if Ascii.eqb e "f" then "012" else if Ascii.eqb e "n" then "010"
  else if Ascii.eqb e "r" then "013" else if Ascii.eqb e "t" then "009" else e.

Definition digit_value (a : ascii) : N :=
  let n := N_of_ascii a in if (n <? 58)%N then (n - 48)%N else (n - 87)%N.

(** The bytes of the [\u] escapes that encoding valid text produces. *)
Definition unicode_bytes (h1 h3 h4 : ascii) (rest : string) : string :=
  if Ascii.eqb h1 "0" then String (ascii_of_N (16 * digit_value h3 + digit_value h4)) rest
  else String "226" (String "128" (String (if Ascii.eqb h4 "8" then "168" else "169")%char rest)).

(** The text up to the closing quote, and what follows it. *)
Fixpoint unescape (s : string) : option (string * string) :=
  match s with
  | "" => None
  | String a s1 =>
      if Ascii.eqb a quote then Some ("", s1)
      else if Ascii.eqb a backslash then
        match s1 with
        | String e s2 =>
            if Ascii.eqb e "u" then
              match s2 with
              | String h1 (String _ (String h3 (String h4 s3))) =>
                  '(t, r) ← unescape s3; Some (unicode_bytes h1 h3 h4 t, r)
              | _ => None
              end
            else '(t, r) ← unescape s2; Some (String (unescape_char e) t, r)
        | "" => None
        end
      else '(t, r) ← unescape s1; Some (String a t, r)
  end.

(** One more byte at the front of what was read. *)
Definition push (a : ascii) (o : option (string * string)) : option (string * string) :=
  '(t, r) ← o; Some (String a t, r).

Lemma escape_ascii_app a s t : escape_ascii a s +:+ t = escape_ascii a (s +:+ t).
Proof. unfold escape_ascii, escape_unicode, esc. repeat (destruct (_ : bool); [reflexivity|]). reflexivity. Qed.

Lemma unescape_ascii a rest : (N_of_ascii a < 0x80)%N → unescape (escape_ascii a rest) = push a (unescape rest).
Proof.
  destruct a as [[] [] [] [] [] [] [] []]; intros H; first [reflexivity | (exfalso; vm_compute in H; discriminate H)].
Qed.

Lemma unescape_copy a rest : (0x80 ≤ N_of_ascii a)%N → unescape (String a rest) = push a (unescape rest).
Proof.
  destruct a as [[] [] [] [] [] [] [] []]; intros H; first [reflexivity | (exfalso; vm_compute in H; by apply H)].
Qed.

Lemma in_range_high lo a hi : in_range lo a hi = true → (0x80 ≤ lo)%N → (0x80 ≤ N_of_ascii a)%N.
Proof. intros [H%N.leb_le _]%andb_prop. lia. Qed.

Lemma continuation_high a : continuation a = true → (0x80 ≤ N_of_ascii a)%N.
Proof. intros H. by eapply in_range_high. Qed.

(** Every branch of a sequence check bounds each byte from below. *)
Ltac high_bytes :=
  repeat match goal with
  | H : (_ && _) = true |- _ => apply andb_prop in H as [? ?]
  | H : (_ || _) = true |- _ => apply orb_prop in H as [?|?]
  | H : continuation _ = true |- _ => apply continuation_high in H
  | H : in_range _ _ _ = true |- _ => apply in_range_high in H; [|lia]
  end; auto.

Lemma seq2_high a b : seq2 a b = true → (0x80 ≤ N_of_ascii a)%N ∧ (0x80 ≤ N_of_ascii b)%N.
Proof. unfold seq2. intros H. high_bytes. Qed.

Lemma seq3_high a b c : seq3 a b c = true →
  (0x80 ≤ N_of_ascii a)%N ∧ (0x80 ≤ N_of_ascii b)%N ∧ (0x80 ≤ N_of_ascii c)%N.
Proof. unfold seq3. intros H. high_bytes. Qed.

Lemma seq4_high a b c d : seq4 a b c d = true →
  (0x80 ≤ N_of_ascii a)%N ∧ (0x80 ≤ N_of_ascii b)%N ∧ (0x80 ≤ N_of_ascii c)%N ∧ (0x80 ≤ N_of_ascii d)%N.
Proof. unfold seq4. intros H. high_bytes; split_and!; auto. Qed.

(** Induction along the sequences of a valid text. *)
Lemma utf8_ind (P : string → Prop) :
  P "" →
  (∀ a s, (N_of_ascii a < 0x80)%N → P s → P (String a s)) →
  (∀ a b s, seq2 a b = true → P s → P (String a (String b s))) →
  (∀ a b c s, seq2 a b = false → seq3 a b c = true → P s → P (String a (String b (String c s)))) →
  (∀ a b c d s, seq2 a b = false → seq3 a b c = false → seq4 a b c d = true → P s →
     P (String a (String b (String c (String d s))))) →
  ∀ s, utf8_valid s = true → P s.
Proof.
  intros H0 H1 H2 H3 H4 s. remember (String.length s) as n eqn:Hn. revert s Hn.
  induction (lt_wf n) as [n _ IH]. intros s ->. destruct s as [|a s1]; [done|]. cbn [utf8_valid].
  destruct (N_of_ascii a <? 0x80)%N eqn:Ea.
  { intros Hv. apply H1; [by apply N.ltb_lt|]. eapply IH; [|done|done]. simpl. lia. }
  destruct s1 as [|b s2]; [done|]. destruct (seq2 a b) eqn:E2.
  { intros Hv. apply H2; [done|]. eapply IH; [|done|done]. simpl. lia. }
  destruct s2 as [|c s3]; [done|]. destruct (seq3 a b c) eqn:E3.
  { intros Hv. apply H3; [done..|]. eapply IH; [|done|done]. simpl. lia. }
  destruct s3 as [|d s4]; [done|]. intros [E4 Hv]%andb_prop. apply H4; [done..|].
  eapply IH; [|done|done]. simpl. lia.
Qed.

Lemma high_not_ascii a : (0x80 ≤ N_of_ascii a)%N → (N_of_ascii a <? 0x80)%N = false.
Proof. apply N.ltb_ge. Qed.

Lemma line_separator_eq a b c : line_separator a b c = true →
  a = "226"%char ∧ b = "128"%char ∧ (c = "168"%char ∨ c = "169"%char).
Proof.
  unfold line_separator. intros [[->%Ascii.eqb_eq ->%Ascii.eqb_eq]%andb_prop Hc]%andb_prop.
  split_and!; [done..|]. apply orb_prop in Hc as [?%Ascii.eqb_eq|?%Ascii.eqb_eq]; auto.
Qed.

Lemma seq4_not_separator a b c d : seq4 a b c d = true → line_separator a b c = false.
Proof.
  intros H. destruct (line_separator a b c) eqn:E; [|done].
  apply line_separator_eq in E as (-> & -> & _). discriminate H.
Qed.

Lemma unescape_separator h s r : unescape (escape s +:+ String quote r) = Some (s, r) →
  unescape (esc "u" ("202" +:+ String h (escape s)) +:+ String quote r) = Some (unicode_bytes "2" "2" h s, r).
Proof.
  intros IH. transitivity ('(t, r') ← unescape (escape s +:+ String quote r); Some (unicode_bytes "2" "2" h t, r')).
  - reflexivity.
  - by rewrite IH.
Qed.

Lemma unescape_escape s r : utf8_valid s = true →
  unescape (escape s +:+ String quote r) = Some (s, r).
Proof.
  intros Hs. pattern s. revert s Hs. apply utf8_ind.
  - reflexivity.
  - intros a s Ha IH. cbn [escape]. rewrite (proj2 (N.ltb_lt _ _) Ha), escape_ascii_app, unescape_ascii by done.
    by rewrite IH.
  - intros a b s H2 IH. cbn [escape]. destruct (seq2_high _ _ H2) as [Ha Hb].
    rewrite high_not_ascii, H2 by done. rewrite !string_app_cons, !unescape_copy, IH by done. reflexivity.
  - intros a b c s H2 H3 IH. cbn [escape]. destruct (seq3_high _ _ _ H3) as (Ha & Hb & Hc).
    rewrite high_not_ascii, H2 by done. destruct (line_separator a b c) eqn:El.
    + apply line_separator_eq in El as (-> & -> & [-> | ->]).
      * exact (unescape_separator "8" _ _ IH).
      * exact (unescape_separator "9" _ _ IH).
    + rewrite H3, !string_app_cons, !unescape_copy, IH by done. reflexivity.
  - intros a b c d s H2 H3 H4 IH. cbn [escape]. destruct (seq4_high _ _ _ _ H4) as (Ha & Hb & Hc & Hd).
    rewrite high_not_ascii, H2, (seq4_not_separator _ _ _ _ H4), H3, H4 by done.
    rewrite !string_app_cons, !unescape_copy, IH by done. reflexivity.
Qed.

Lemma quoted_inj s t r r' : utf8_valid s = true → utf8_valid t = true →
  quoted (escape s) +:+ r = quoted (escape t) +:+ r' → s = t ∧ r = r'.
Proof.
  intros Hs Ht. unfold quoted. rewrite !string_app_cons, <- !string_app_assoc, !string_app_cons.
  change ("" +:+ r) with r. change ("" +:+ r') with r'. intros [= H].
  pose proof (unescape_escape s r Hs) as Hu. rewrite H, (unescape_escape t r' Ht) in Hu. by injection Hu.
Qed.

(** * Numbers *)

Definition number_char (a : ascii) : bool := in_range 48 a 57 || Ascii.eqb a "-".

Fixpoint all_chars (p : ascii → bool) (s : string) : bool :=
  match s with "" => true | String a s' => p a && all_chars p s' end.

(** A text that does not go on with a number. *)
Definition delimited (r : string) : bool :=
  match r with "" => true | String a _ => negb (number_char a) end.

Lemma span_inj s t r r' : all_chars number_char s = true → all_chars number_char t = true →
  delimited r = true → delimited r' = true → s +:+ r = t +:+ r' → s = t ∧ r = r'.
Proof.
  revert t. induction s as [|a s IH]; intros [|b t] Hs Ht Hr Hr'; cbn [all_chars] in *; split_bool.
  - done.
  - rewrite string_app_cons. change ("" +:+ r) with r. intros ->. simpl in Hr. split_bool. congruence.
  - rewrite string_app_cons. change ("" +:+ r') with r'. intros <-. simpl in Hr'. split_bool. congruence.
  - rewrite !string_app_cons. intros [= -> Heq]. destruct (IH t) as [-> ->]; done.
Qed.

Lemma pretty_N_go_chars x s : all_chars number_char s = true → all_chars number_char (pretty_N_go x s) = true.
Proof.
  revert s. induction (N.lt_wf_0 x) as [x _ IH]. intros s Hs.
  destruct (decide (x = 0)%N) as [->|]; [by rewrite pretty_N_go_0|].
  rewrite pretty_N_go_step by lia. apply IH; [apply N.div_lt; lia|]. cbn [all_chars]. rewrite Hs, andb_true_r.
  assert (x `mod` 10 < 10)%N as Hm by (apply N.mod_lt; lia). revert Hm. generalize (x `mod` 10)%N. clear.
  intros n Hn.
  assert (n = 0 ∨ n = 1 ∨ n = 2 ∨ n = 3 ∨ n = 4 ∨ n = 5 ∨ n = 6 ∨ n = 7 ∨ n = 8 ∨ n = 9)%N as Hcases by lia.
  by destruct_or! Hcases; subst.
Qed.

Lemma pretty_Z_chars (z : Z) : all_chars number_char (pretty z) = true.
Proof.
  assert (∀ n : N, all_chars number_char (pretty n) = true) as H.
  { intros n. unfold pretty, pretty_N. destruct (decide _); [done|]. by apply pretty_N_go_chars. }
  destruct z as [|p|p]; [done|apply (H (Npos p))|]. exact (H (Npos p)).
Qed.

Lemma pretty_N_go_length x s : String.length s ≤ String.length (pretty_N_go x s).
Proof.
  revert s. induction (N.lt_wf_0 x) as [x _ IH]. intros s.
  destruct (decide (x = 0)%N) as [->|]; [by rewrite pretty_N_go_0|]. rewrite pretty_N_go_step by lia.
  etransitivity; [|apply IH, N.div_lt; lia]. simpl. lia.
Qed.

Lemma pretty_Z_head (z : Z) : ∃ a s, pretty z = String a s ∧ number_char a = true.
Proof.
  pose proof (pretty_Z_chars z) as Hc. assert (pretty z ≠ "") as Hn.
  { assert (∀ p, pretty (Npos p) ≠ "") as H.
    { intros p Hp. unfold pretty, pretty_N in Hp. destruct (decide _); [done|].
      rewrite pretty_N_go_step in Hp by lia.
      pose proof (pretty_N_go_length (N.pos p `div` 10) (String (pretty_N_char (N.pos p `mod` 10)) "")) as Hl.
      rewrite Hp in Hl. simpl in Hl. lia. }
    destruct z as [|p|p]; [done|apply (H p)|done]. }
  destruct (pretty z) as [|a s]; [done|]. exists a, s. by apply andb_prop in Hc as [-> _].
Qed.

(** * Values *)

(** Induction over a value and the values inside it. *)
Section Induction.
Context (P : json → Prop).
Context (Pnull : P JNull) (Pbool : ∀ b, P (JBool b)) (Pint : ∀ z, P (JInt z)) (Pstring : ∀ s, P (JString s)).
Context (Parray : ∀ l, Forall P l → P (JArray l)).
Context (Pobject : ∀ l, Forall (λ kv, P kv.2) l → P (JObject l)).

Fixpoint json_nested (v : json) : P v :=
  match v with
  | JNull => Pnull
  | JBool b => Pbool b
  | JInt z => Pint z
  | JString s => Pstring s
  | JArray l =>
      Parray l ((fix go l : Forall P l :=
        match l with
        | [] => @Forall_nil_2 _ P
        | v :: l' => Forall_cons_2 P v l' (json_nested v) (go l')
        end) l)
  | JObject l =>
      Pobject l ((fix go l : Forall (λ kv, P kv.2) l :=
        match l with
        | [] => @Forall_nil_2 _ (λ kv, P kv.2)
        | kv :: l' => Forall_cons_2 (λ kv, P kv.2) kv l' (json_nested kv.2) (go l')
        end) l)
  end.
End Induction.

(** The first character tells the constructor. *)
Definition head_ok (v : json) (a : ascii) : bool :=
  match v with
  | JNull => Ascii.eqb a "n"
  | JBool true => Ascii.eqb a "t"
  | JBool false => Ascii.eqb a "f"
  | JInt _ => number_char a
  | JString _ => Ascii.eqb a quote
  | JArray _ => Ascii.eqb a "["
  | JObject _ => Ascii.eqb a "{"
  end.

Lemma encode_head v : ∃ a s, encode v = String a s ∧ head_ok v a = true.
Proof.
  destruct v as [|[]|z|s|l|l]; try (by eexists _, _). apply pretty_Z_head.
Qed.

Definition kind (v : json) : nat :=
  match v with
  | JNull => 0 | JBool true => 1 | JBool false => 2 | JInt _ => 3 | JString _ => 4 | JArray _ => 5 | JObject _ => 6
  end.

(** Two values whose first characters agree are of the same kind. *)
Lemma heads_agree v w r r' : encode v +:+ r = encode w +:+ r' → kind v = kind w.
Proof.
  destruct (encode_head v) as (a & s & -> & Ha), (encode_head w) as (b & t & -> & Hb).
  rewrite !string_app_cons. intros [= -> _].
  destruct v as [|[]| | | |], w as [|[]| | | |]; try reflexivity; cbn [head_ok] in Ha, Hb;
    first [apply Ascii.eqb_eq in Ha as ->; discriminate Hb | apply Ascii.eqb_eq in Hb as ->; discriminate Ha].
Qed.

(** The text of a value ends where the value ends: what follows is read apart. *)
Definition prefix_free (v : json) : Prop := ∀ w r r',
  utf8_json v = true → utf8_json w = true → delimited r = true → delimited r' = true →
  encode v +:+ r = encode w +:+ r' → v = w ∧ r = r'.

Lemma elements_cons enc v l rest :
  elements enc (v :: l) +:+ String "]" rest =
  enc v +:+ match l with [] => String "]" rest | _ => String "," (elements enc l +:+ String "]" rest) end.
Proof. destruct l; [done|]. cbn [elements]. by rewrite <- string_app_assoc, string_app_cons. Qed.

Lemma members_cons enc k v l rest :
  members enc ((k, v) :: l) +:+ String "}" rest =
  quoted (escape k) +:+ String ":" (enc v +:+
    match l with [] => String "}" rest | _ => String "," (members enc l +:+ String "}" rest) end).
Proof.
  destruct l; cbn [members]; rewrite <- !string_app_assoc, !string_app_cons; [done|].
  by rewrite <- !string_app_assoc, string_app_cons.
Qed.

Lemma elements_prefix_free l k r r' : Forall prefix_free l →
  forallb utf8_json l = true → forallb utf8_json k = true →
  elements encode l +:+ String "]" r = elements encode k +:+ String "]" r' → l = k ∧ r = r'.
Proof.
  intros Hl. revert k. induction Hl as [|v l Hv Hl IH]; intros [|w k] Hul Huk H; cbn [forallb] in *.
  - by injection H.
  - exfalso. rewrite elements_cons in H. destruct (encode_head w) as (a & s & Hw & Ha). rewrite Hw, string_app_cons in H.
    injection H as <- _. destruct w as [|[]| | | |]; discriminate Ha.
  - exfalso. rewrite elements_cons in H. destruct (encode_head v) as (a & s & Hw & Ha). rewrite Hw, string_app_cons in H.
    injection H as -> _. destruct v as [|[]| | | |]; discriminate Ha.
  - apply andb_prop in Hul as [Huv Hul], Huk as [Huw Huk]. rewrite !elements_cons in H.
    apply Hv in H as [-> H]; [|by repeat first [done|case_match]..].
    destruct l as [|v' l], k as [|w' k]; try discriminate H; [by injection H as ->|].
    injection H as H. by destruct (IH (w' :: k)) as [-> ->].
Qed.

Lemma members_prefix_free l k r r' : Forall (λ kv, prefix_free kv.2) l →
  forallb (λ '(k, v), utf8_valid k && utf8_json v) l = true →
  forallb (λ '(k, v), utf8_valid k && utf8_json v) k = true →
  members encode l +:+ String "}" r = members encode k +:+ String "}" r' → l = k ∧ r = r'.
Proof.
  intros Hl. revert k. induction Hl as [|[n v] l Hv Hl IH]; intros [|[m w] k] Hul Huk H; cbn [forallb] in *.
  - by injection H.
  - exfalso. rewrite members_cons in H. discriminate H.
  - exfalso. rewrite members_cons in H. discriminate H.
  - apply andb_prop in Hul as [[Hun Huv]%andb_prop Hul], Huk as [[Hum Huw]%andb_prop Huk].
    cbn [snd] in Hv. rewrite !members_cons in H. apply quoted_inj in H as [-> H]; [|done..]. injection H as H.
    apply Hv in H as [-> H]; [|by repeat first [done|case_match]..].
    destruct l as [|[n' v'] l], k as [|[m' w'] k]; try discriminate H; [by injection H as ->|].
    injection H as H. by destruct (IH ((m', w') :: k)) as [-> ->].
Qed.

Lemma encode_prefix_free v : prefix_free v.
Proof.
  induction v as [|b|z|s|l Hl|l Hl] using json_nested; intros w r r' Hv Hw Hr Hr' H;
    pose proof (heads_agree _ _ _ _ H) as Hk; try destruct b;
    destruct w as [|[]|z'|t|k|k]; try discriminate Hk; cbn [encode] in H.
  1-3: by apply string_app_inj_l in H.
  - apply span_inj in H as [Hz ->]; [|by try apply pretty_Z_chars..]. split; [|done]. f_equal. by apply (inj pretty).
  - by apply quoted_inj in H as [-> ->].
  - rewrite !string_app_cons, <- !string_app_assoc in H. injection H as H.
    by apply elements_prefix_free in H as [-> ->].
  - rewrite !string_app_cons, <- !string_app_assoc in H. injection H as H.
    by apply members_prefix_free in H as [-> ->].
Qed.

(** Texts of valid UTF-8 values are equal only if the values are. *)
Theorem encode_inj v w : utf8_json v = true → utf8_json w = true → encode v = encode w → v = w.
Proof.
  intros Hv Hw H. apply (encode_prefix_free v w "" ""); [done..|]. by rewrite H.
Qed.

(** * Times

    [time.Time] is marshalled as its quoted RFC 3339 form, which is ASCII. *)
Definition ascii_only (s : string) : bool := all_chars (λ a, (N_of_ascii a <? 0x80)%N) s.

Lemma all_chars_app p s t : all_chars p (s +:+ t) = all_chars p s && all_chars p t.
Proof. induction s as [|a s IH]; [done|]. rewrite string_app_cons. cbn [all_chars]. by rewrite IH, andb_assoc. Qed.

Lemma ascii_only_app s t : ascii_only (s +:+ t) = ascii_only s && ascii_only t.
Proof. apply all_chars_app. Qed.

Lemma ascii_utf8 s : ascii_only s = true → utf8_valid s = true.
Proof.
  induction s as [|a s IH]; [done|]. unfold ascii_only in *. cbn [all_chars utf8_valid].
  intros [-> Hs]%andb_prop. by apply IH.
Qed.

Lemma ascii_digits w z : ascii_only (digits w z) = true.
Proof.
  revert z. induction w as [|w IH]; intros z; [done|]. cbn [digits]. rewrite ascii_only_app, IH.
  destruct (digit_range z) as (n & Hn & ->). unfold ascii_only. cbn [all_chars].
  rewrite N_ascii_embedding by lia. rewrite (proj2 (N.ltb_lt n _)) by lia. done.
Qed.

Lemma ascii_frac w z : ascii_only (frac_digits w z) = true.
Proof.
  revert z. induction w as [|w IH]; intros z; [done|]. cbn [frac_digits].
  destruct (_ =? _)%Z; [apply IH|apply ascii_digits].
Qed.

Lemma rfc3339nano_utf8 t : four_digit_year t → utf8_valid (rfc3339nano t) = true.
Proof.
  unfold four_digit_year, year_of, rfc3339nano, rfc3339_in. intros Ht. apply ascii_utf8.
  destruct (civil_of_days (t / day_ns)) as [[y m] d]. cbn [fst] in Ht. unfold year_string.
  rewrite (proj2 (Z.ltb_ge y 0)), (proj2 (Z.ltb_lt y 10000)) by lia.
  rewrite !ascii_only_app, !ascii_digits. destruct (_ =? 0)%Z; [done|].
  by rewrite ascii_only_app, ascii_frac.
Qed.
