(* ===== verification/Base64.v ===== *)
(** * Base64

    The encodings of [encoding/base64] that signatures, policies and store
    versions travel in: the padded standard alphabet, its decoder, and the
    unpadded URL alphabet. *)

From S2P Require Import Prelude Crypto.
Local Open Scope Z_scope.

(** * [base64.StdEncoding] *)

Definition b64_char (n : N) : ascii :=
  ascii_of_N (if n <? 26 then 65 + n else if n <? 52 then 71 + n else if n <? 62 then n - 4
              else if n =? 62 then 43 else 47)%N.

Definition b64_value (a : ascii) : option N :=
  let n := N_of_ascii a in
  if ((65 <=? n) && (n <=? 90))%N then Some (n - 65)%N
  else if ((97 <=? n) && (n <=? 122))%N then Some (n - 71)%N
  else if ((48 <=? n) && (n <=? 57))%N then Some (n + 4)%N
  else if (n =? 43)%N then Some 62%N
  else if (n =? 47)%N then Some 63%N
  else None.

Definition pad : ascii := "=".

Fixpoint base64_encode (s : string) : string :=
  match s with
  | "" => ""
  | String a "" =>
      let x := N_of_ascii a in
      String (b64_char (x / 4)) (String (b64_char (x mod 4 * 16)) (String pad (String pad "")))
  | String a (String b "") =>
      let x := N_of_ascii a in let y := N_of_ascii b in
      String (b64_char (x / 4)) (String (b64_char (x mod 4 * 16 + y / 16))
        (String (b64_char (y mod 16 * 4)) (String pad "")))
  | String a (String b (String c s')) =>
      let x := N_of_ascii a in let y := N_of_ascii b in let z := N_of_ascii c in
      String (b64_char (x / 4)) (String (b64_char (x mod 4 * 16 + y / 16))
        (String (b64_char (y mod 16 * 4 + z / 64)) (String (b64_char (z mod 64)) (base64_encode s'))))
  end.

(** The decoder skips carriage returns and line feeds wherever they stand. *)
Fixpoint drop_newlines (s : string) : string :=
  match s with
  | "" => ""
  | String a s' => if Ascii.eqb a "010" || Ascii.eqb a "013" then drop_newlines s' else String a (drop_newlines s')
  end.

(** Groups of four characters; only the last may be padded. *)
Fixpoint base64_groups (s : string) : option string :=
  match s with
  | "" => Some ""
  | String a (String b (String c (String d s'))) =>
      x ← b64_value a; y ← b64_value b;
      if Ascii.eqb c pad then
        if Ascii.eqb d pad && str_eqb s' "" then Some (String (ascii_of_N (x * 4 + y / 16)) "") else None
      else
        z ← b64_value c;
        if Ascii.eqb d pad then
          if str_eqb s' ""
          then Some (String (ascii_of_N (x * 4 + y / 16)) (String (ascii_of_N (y mod 16 * 16 + z / 4)) ""))
          else None
        else
          v ← b64_value d; rest ← base64_groups s';
          Some (String (ascii_of_N (x * 4 + y / 16)) (String (ascii_of_N (y mod 16 * 16 + z / 4))
                 (String (ascii_of_N (z mod 4 * 64 + v)) rest)))
  | _ => None
  end.

(** [CorruptInputError], without the offset its text ends with. *)
Definition ErrBase64 : error := ErrNew "illegal base64 data at input byte".

Definition base64_decode (s : string) : result string :=
  match base64_groups (drop_newlines s) with Some d => Ok d | None => Error ErrBase64 end.

(** [base64.RawURLEncoding]: the URL alphabet, without padding. *)
Fixpoint url_alphabet (s : string) : string :=
  match s with
  | "" => ""
  | String a s =>
      if Ascii.eqb a pad then url_alphabet s
      else String (if Ascii.eqb a "+" then "-" else if Ascii.eqb a "/" then "_" else a) (url_alphabet s)
  end.

Definition base64_rawurl_encode (s : string) : string := url_alphabet (base64_encode s).

Example rawurl_sample : base64_rawurl_encode ("~~" +:+ String "255" "?") = "fn7_Pw".
Proof. vm_compute. reflexivity. Qed.

(** * Decoding what was encoded *)

Lemma b64_char_spec n : (n < 64)%N →
  b64_value (b64_char n) = Some n ∧ Ascii.eqb (b64_char n) pad = false ∧
  (Ascii.eqb (b64_char n) "010" || Ascii.eqb (b64_char n) "013") = false.
Proof.
  intros Hn.
  assert (forallb (λ i, let n := N.of_nat i in
    bool_decide (b64_value (b64_char n) = Some n) && negb (Ascii.eqb (b64_char n) pad) &&
    negb (Ascii.eqb (b64_char n) "010" || Ascii.eqb (b64_char n) "013")) (seq 0 64) = true) as H
    by (vm_compute; reflexivity).
  rewrite forallb_forall in H. specialize (H (N.to_nat n)). rewrite N2Nat.id, in_seq in H.
  cbv zeta in H. assert (0 ≤ N.to_nat n < 0 + 64)%nat as Hr by lia.
  apply H in Hr. apply andb_prop in Hr as [[H1 H2]%andb_prop H3].
  split_and!; [by apply bool_decide_eq_true in H1|by apply negb_true_iff..].
Qed.

Lemma string_triple_ind (P : string → Prop) :
  P "" → (∀ a, P (String a "")) → (∀ a b, P (String a (String b ""))) →
  (∀ a b c s, P s → P (String a (String b (String c s)))) → ∀ s, P s.
Proof.
  intros H0 H1 H2 H3 s. enough (P s ∧ (∀ a, P (String a s)) ∧ ∀ a b, P (String a (String b s))) by tauto.
  induction s as [|a s (IH0 & IH1 & IH2)]; [by auto|]. split_and!; [apply IH1|intros; apply IH2|intros; by apply H3].
Qed.

(** The six-bit groups of three bytes, and back. *)
Lemma sextets x y z : (x < 256)%N → (y < 256)%N → (z < 256)%N →
  (x / 4 < 64 ∧ x mod 4 * 16 + y / 16 < 64 ∧ y mod 16 * 4 + z / 64 < 64 ∧ z mod 64 < 64 ∧
   x / 4 * 4 + (x mod 4 * 16 + y / 16) / 16 = x ∧
   (x mod 4 * 16 + y / 16) mod 16 * 16 + (y mod 16 * 4 + z / 64) / 4 = y ∧
   (y mod 16 * 4 + z / 64) mod 4 * 64 + z mod 64 = z)%N.
Proof.
  intros Hx Hy Hz.
  assert (∀ a b n, n ≠ 0 → b < n → (a * n + b) / n = a ∧ (a * n + b) mod n = b)%N as H.
  { intros a b n Hn Hb. rewrite N.div_add_l, N.div_small, N.add_0_r by done.
    by rewrite N.add_comm, N.Div0.mod_add, N.mod_small. }
  pose proof (N.div_mod x 4 ltac:(done)) as Ex. pose proof (N.mod_lt x 4 ltac:(done)) as Lx.
  pose proof (N.div_mod y 16 ltac:(done)) as Ey. pose proof (N.mod_lt y 16 ltac:(done)) as Ly.
  pose proof (N.div_mod z 64 ltac:(done)) as Ez. pose proof (N.mod_lt z 64 ltac:(done)) as Lz.
  revert Ex Ey Ez Lx Ly Lz. generalize (x / 4)%N, (x mod 4)%N, (y / 16)%N, (y mod 16)%N, (z / 64)%N, (z mod 64)%N.
  intros q r s t u v Ex Ey Ez Lx Ly Lz.
  destruct (H r s 16%N) as [-> ->]; [done|lia|]. destruct (H t u 4%N) as [-> ->]; [done|lia|].
  split_and!; lia.
Qed.

Lemma groups_cons x y z v s : (x < 64)%N → (y < 64)%N → (z < 64)%N → (v < 64)%N →
  base64_groups (String (b64_char x) (String (b64_char y) (String (b64_char z) (String (b64_char v) s)))) =
  (rest ← base64_groups s;
   Some (String (ascii_of_N (x * 4 + y / 16)) (String (ascii_of_N (y mod 16 * 16 + z / 4))
          (String (ascii_of_N (z mod 4 * 64 + v)) rest)))).
Proof.
  intros Hx Hy Hz Hv. cbn [base64_groups].
  destruct (b64_char_spec x Hx) as (-> & _), (b64_char_spec y Hy) as (-> & _),
    (b64_char_spec z Hz) as (-> & -> & _), (b64_char_spec v Hv) as (-> & -> & _). reflexivity.
Qed.

Lemma base64_groups_encode s : base64_groups (base64_encode s) = Some s.
Proof.
  induction s as [|a|a b|a b c s IH] using string_triple_ind; [done|..].
  - destruct (sextets (N_of_ascii a) 0 0) as (Hx & Hy & _ & _ & E & _); [apply byte_lt_256|done..|].
    rewrite N.Div0.div_0_l, N.add_0_r in Hy, E. cbn [base64_encode base64_groups].
    destruct (b64_char_spec _ Hx) as (-> & _), (b64_char_spec _ Hy) as (-> & _).
    change (Ascii.eqb pad pad) with true. cbn -[N.div N.modulo N.mul N.add]. by rewrite E, ascii_N_embedding.
  - destruct (sextets (N_of_ascii a) (N_of_ascii b) 0) as (Hx & Hy & Hz & _ & E & F & _); [apply byte_lt_256..|done|].
    rewrite N.Div0.div_0_l, N.add_0_r in Hz, F. cbn [base64_encode base64_groups].
    destruct (b64_char_spec _ Hx) as (-> & _), (b64_char_spec _ Hy) as (-> & _), (b64_char_spec _ Hz) as (-> & -> & _).
    change (Ascii.eqb pad pad) with true. cbn -[N.div N.modulo N.mul N.add]. by rewrite E, F, !ascii_N_embedding.
  - destruct (sextets (N_of_ascii a) (N_of_ascii b) (N_of_ascii c)) as (Hx & Hy & Hz & Hv & E & F & G);
      [apply byte_lt_256..|].
    cbn [base64_encode]. rewrite groups_cons, IH by done. cbn -[N.div N.modulo N.mul N.add].
    by rewrite E, F, G, !ascii_N_embedding.
Qed.

Lemma base64_encode_newlines s : drop_newlines (base64_encode s) = base64_encode s.
Proof.
  assert (∀ n r, (n < 64)%N → drop_newlines (String (b64_char n) r) = String (b64_char n) (drop_newlines r)) as H.
  { intros n r Hn. cbn [drop_newlines]. by destruct (b64_char_spec n Hn) as (_ & _ & ->). }
  induction s as [|a|a b|a b c s IH] using string_triple_ind; [done|..]; cbn [base64_encode].
  - destruct (sextets (N_of_ascii a) 0 0) as (Hx & Hy & _); [apply byte_lt_256|done..|].
    rewrite N.Div0.div_0_l, N.add_0_r in Hy. by rewrite !H.
  - destruct (sextets (N_of_ascii a) (N_of_ascii b) 0) as (Hx & Hy & Hz & _); [apply byte_lt_256..|done|].
    rewrite N.Div0.div_0_l, N.add_0_r in Hz. by rewrite !H.
  - destruct (sextets (N_of_ascii a) (N_of_ascii b) (N_of_ascii c)) as (Hx & Hy & Hz & Hv & _); [apply byte_lt_256..|].
    by rewrite !H, IH.
Qed.

Lemma base64_decode_encode s : base64_decode (base64_encode s) = Ok s.
Proof. unfold base64_decode. by rewrite base64_encode_newlines, base64_groups_encode. Qed.
