(* ===== verification/Permit.v ===== *)
(** * Permits, capability fences and consequence admission

    Models [internal/ege/capability.go], [consequence.go] and the permit half of
    [permit.go]: the canonical payload a permit is signed over, signing and
    verification against an authority, the fence that binds a permit to an
    authority term, its epochs and the state of its target, and the admission
    of an action's consequences.  Digests are SHA-256 over JSON texts. *)

From S2P Require Import Prelude Crypto Format Json Base64 Evidence.
Local Open Scope Z_scope.

(** * What [json.Marshal] makes of a structure *)

(** The members of a structure in field order; an omitted one is [None]. *)
Definition object (fields : list (string * option json)) : json :=
  JObject (omap (λ '(k, v), pair k <$> v) fields).

(** The value under [omitempty]: a string, a slice, a pointer. *)
Definition omit_string (s : string) : option json := if str_eqb s "" then None else Some (JString s).
Definition omit_strings (l : list string) : option json :=
  match l with [] => None | _ => Some (JArray (JString <$> l)) end.

(** [append([]string(nil), values...)] of no value is the nil slice. *)
Definition copied_strings (l : list string) : json :=
  match l with [] => JNull | _ => JArray (JString <$> l) end.

Definition ErrYearRange : error :=
  ErrNew "json: error calling MarshalJSON for type time.Time: Time.MarshalJSON: year outside of range [0,9999]".

(** A UTC [time.Time]. *)
Definition time_json (t : time) : result json :=
  if bool_decide (four_digit_year t) then Ok (JString (rfc3339nano t)) else Error ErrYearRange.

Definition json_digest (v : json) : string := sha256_digest (encode v).

Record Target : Type := { tg_Type : string; tg_Name : string }.

#[export] Instance Target_eq_dec : EqDecision Target.
Proof. solve_decision. Defined.

Definition target_json (t : Target) : json :=
  object [("type", Some (JString (tg_Type t))); ("name", Some (JString (tg_Name t)))].

(** * [capability.go] *)

Definition CapabilityFenceVersion : string := "aegis.ege/capability-fence/v0alpha1".

Definition ErrCapabilityFenceInvalid : error := ErrNew "capability fence is invalid".
Definition ErrCapabilityAuthorityChanged : error := ErrNew "capability authority term changed".
Definition ErrCapabilityDecisionSuperseded : error := ErrNew "capability decision epoch was superseded".
Definition ErrCapabilityRevoked : error := ErrNew "capability revocation epoch changed".
Definition ErrCapabilityTargetChanged : error := ErrNew "capability target identity changed".
Definition ErrCapabilityStateChanged : error := ErrNew "capability state binding changed".

Record CapabilityFenceClaims : Type := {
  cf_Version : string; cf_AuthorityDomain : string; cf_AuthorityTerm : Z; cf_DecisionEpoch : Z;
  cf_RevocationEpoch : Z; cf_TargetIdentity : string; cf_StateBindingDigest : string }.

Record CapabilityAuthoritySnapshot : Type := {
  cu_AuthorityDomain : string; cu_AuthorityTerm : Z; cu_DecisionEpoch : Z; cu_RevocationEpoch : Z }.

Record CapabilityStateBinding : Type := {
  sb_Target : Target; sb_TargetIdentity : string; sb_ResourceVersion : string; sb_PlanDigest : string }.

(** The binding with white space trimmed from every field. *)
Definition trim_binding (b : CapabilityStateBinding) : CapabilityStateBinding := {|
  sb_Target := {| tg_Type := TrimSpace (tg_Type (sb_Target b)); tg_Name := TrimSpace (tg_Name (sb_Target b)) |};
  sb_TargetIdentity := TrimSpace (sb_TargetIdentity b); sb_ResourceVersion := TrimSpace (sb_ResourceVersion b);
  sb_PlanDigest := TrimSpace (sb_PlanDigest b) |}.

Definition binding_json (b : CapabilityStateBinding) : json :=
  object [("target", Some (target_json (sb_Target b)));
          ("target_identity", Some (JString (sb_TargetIdentity b)));
          ("resource_version", Some (JString (sb_ResourceVersion b)));
          ("plan_digest", Some (JString (sb_PlanDigest b)))].

Definition fence_invalid (detail : string) : error := ErrDetail ErrCapabilityFenceInvalid detail.

Definition DigestCapabilityStateBinding (binding : CapabilityStateBinding) : result string :=
  let binding := trim_binding binding in
  if str_eqb (tg_Type (sb_Target binding)) "" || str_eqb (tg_Name (sb_Target binding)) ""
  then Error (fence_invalid "target is required")
  else if str_eqb (sb_TargetIdentity binding) "" then Error (fence_invalid "target identity is required")
  else if str_eqb (sb_ResourceVersion binding) "" then Error (fence_invalid "resource version is required")
  else if str_eqb (sb_PlanDigest binding) "" then Error (fence_invalid "plan digest is required")
  else Ok (json_digest (binding_json binding)).

Definition ValidateCapabilityFenceClaims (claims : CapabilityFenceClaims) : option error :=
  if negb (str_eqb (cf_Version claims) CapabilityFenceVersion)
  then Some (fence_invalid ("unsupported version " +:+ cf_Version claims))
  else if blank (cf_AuthorityDomain claims) then Some (fence_invalid "authority domain is required")
  else if cf_AuthorityTerm claims =? 0 then Some (fence_invalid "authority term must be non-zero")
  else if cf_DecisionEpoch claims =? 0 then Some (fence_invalid "decision epoch must be non-zero")
  else if str_eqb (cf_TargetIdentity claims) "" then Some (fence_invalid "target identity is required")
  else if str_eqb (cf_StateBindingDigest claims) "" then Some (fence_invalid "state binding digest is required")
  else None.

Definition ValidateCapabilityFence (claims : CapabilityFenceClaims) (current : CapabilityAuthoritySnapshot)
    (state : CapabilityStateBinding) : option error :=
  match ValidateCapabilityFenceClaims claims with
  | Some err => Some err
  | None =>
      if blank (cu_AuthorityDomain current) || (cu_AuthorityTerm current =? 0) || (cu_DecisionEpoch current =? 0)
      then Some (fence_invalid "current authority snapshot is incomplete")
      else if negb (str_eqb (cf_AuthorityDomain claims) (cu_AuthorityDomain current)) ||
              negb (cf_AuthorityTerm claims =? cu_AuthorityTerm current)
      then Some ErrCapabilityAuthorityChanged
      else if negb (cf_DecisionEpoch claims =? cu_DecisionEpoch current) then Some ErrCapabilityDecisionSuperseded
      else if negb (cf_RevocationEpoch claims =? cu_RevocationEpoch current) then Some ErrCapabilityRevoked
      else if negb (str_eqb (cf_TargetIdentity claims) (TrimSpace (sb_TargetIdentity state)))
      then Some ErrCapabilityTargetChanged
      else match DigestCapabilityStateBinding state with
           | Error err => Some err
           | Ok digest =>
               guard_err (negb (str_eqb (cf_StateBindingDigest claims) digest)) ErrCapabilityStateChanged
           end
  end.

(** * [permit.go] *)

Definition PermitVersion : string := "aegis.ege/permit/v0alpha1".

Record ExecutionBindingClaims : Type := {
  eb_DestinationID : string; eb_AccountID : string; eb_Endpoint : string; eb_AdapterProfile : string;
  eb_ExpectedResourceVersion : string }.

Record PermitClaims : Type := {
  pc_IntentID : string; pc_Kind : string; pc_Target : Target; pc_Action : string; pc_ResourceVersion : string;
  pc_EvidenceDigest : string; pc_EvidenceManifestDigest : string; pc_EvidencePacketDigest : string;
  pc_PlanDigest : string; pc_ApprovalRefs : list string; pc_ExecutionBinding : option ExecutionBindingClaims;
  pc_EBAContextProfile : string; pc_EBATraceID : string; pc_EBAAudience : string; pc_EBANamespace : string;
  pc_EBAAssumptionRefs : list string; pc_EBAAuthorityRef : string;
  pc_CapabilityFence : option CapabilityFenceClaims; pc_ValidUntil : time }.

Record Permit : Type := { pm_APIVersion : string; pm_KeyID : string; pm_Claims : PermitClaims; pm_Signature : string }.

Definition execution_json (b : ExecutionBindingClaims) : json :=
  object [("destination_id", Some (JString (eb_DestinationID b))); ("account_id", Some (JString (eb_AccountID b)));
          ("endpoint", Some (JString (eb_Endpoint b))); ("adapter_profile", Some (JString (eb_AdapterProfile b)));
          ("expected_resource_version", Some (JString (eb_ExpectedResourceVersion b)))].

Definition fence_json (c : CapabilityFenceClaims) : json :=
  object [("version", Some (JString (cf_Version c))); ("authority_domain", Some (JString (cf_AuthorityDomain c)));
          ("authority_term", Some (JInt (cf_AuthorityTerm c))); ("decision_epoch", Some (JInt (cf_DecisionEpoch c)));
          ("revocation_epoch", Some (JInt (cf_RevocationEpoch c)));
          ("target_identity", Some (JString (cf_TargetIdentity c)));
          ("state_binding_digest", Some (JString (cf_StateBindingDigest c)))].

Definition claims_fields (c : PermitClaims) (valid_until : json) : list (string * option json) :=
  [("intent_id", Some (JString (pc_IntentID c))); ("kind", Some (JString (pc_Kind c)));
   ("target", Some (target_json (pc_Target c))); ("action", Some (JString (pc_Action c)));
   ("resource_version", Some (JString (pc_ResourceVersion c)));
   ("evidence_digest", Some (JString (pc_EvidenceDigest c)));
   ("evidence_manifest_digest", Some (JString (pc_EvidenceManifestDigest c)));
   ("evidence_packet_digest", omit_string (pc_EvidencePacketDigest c));
   ("plan_digest", Some (JString (pc_PlanDigest c))); ("approval_refs", omit_strings (pc_ApprovalRefs c));
   ("execution_binding", execution_json <$> pc_ExecutionBinding c);
   ("eba_context_profile", omit_string (pc_EBAContextProfile c)); ("eba_trace_id", omit_string (pc_EBATraceID c));
   ("eba_audience", omit_string (pc_EBAAudience c)); ("eba_namespace", omit_string (pc_EBANamespace c));
   ("eba_assumption_refs", omit_strings (pc_EBAAssumptionRefs c));
   ("eba_authority_ref", omit_string (pc_EBAAuthorityRef c));
   ("capability_fence", fence_json <$> pc_CapabilityFence c); ("valid_until", Some valid_until)].

(** The claims with their reference lists sorted. *)
Definition canonical_claims (c : PermitClaims) : PermitClaims := {|
  pc_IntentID := pc_IntentID c; pc_Kind := pc_Kind c; pc_Target := pc_Target c; pc_Action := pc_Action c;
  pc_ResourceVersion := pc_ResourceVersion c; pc_EvidenceDigest := pc_EvidenceDigest c;
  pc_EvidenceManifestDigest := pc_EvidenceManifestDigest c; pc_EvidencePacketDigest := pc_EvidencePacketDigest c;
  pc_PlanDigest := pc_PlanDigest c; pc_ApprovalRefs := sort_strings (pc_ApprovalRefs c);
  pc_ExecutionBinding := pc_ExecutionBinding c; pc_EBAContextProfile := pc_EBAContextProfile c;
  pc_EBATraceID := pc_EBATraceID c; pc_EBAAudience := pc_EBAAudience c; pc_EBANamespace := pc_EBANamespace c;
  pc_EBAAssumptionRefs := sort_strings (pc_EBAAssumptionRefs c); pc_EBAAuthorityRef := pc_EBAAuthorityRef c;
  pc_CapabilityFence := pc_CapabilityFence c; pc_ValidUntil := pc_ValidUntil c |}.

Definition permit_domain : string := "aegis-ege/execution-permit/v0alpha1" +:+ nul.

Definition canonicalPermitPayload (claims : PermitClaims) : result string :=
  let claims := canonical_claims claims in
  match time_json (pc_ValidUntil claims) with
  | Error err => Error (ErrWrap "marshal EGE permit claims" err)
  | Ok valid_until => Ok (permit_domain +:+ encode (object (claims_fields claims valid_until)))
  end.

(** ** Signing and verification *)

Section Authority.
Context {W : Type}.

(** [PermitAuthority]; its verification half alone is [SignatureVerifier]. *)
Record SignatureVerifier : Type := { sv_Verify : string → string → string → W → option error * W }.
Record PermitAuthority : Type := {
  pa_Sign : string → W → result (string * string) * W;
  pa_Verifier : SignatureVerifier }.

Inductive authority_event : Type :=
  | ESign (payload : string) (res : result (string * string))
  | EVerify (keyID payload signature : string) (err : option error).

Definition SignPermit (authority : option PermitAuthority) (claims : PermitClaims)
    : M W authority_event (result Permit) :=
  match authority with
  | None => mret (Error (ErrNew "EGE permit authority is required"))
  | Some authority =>
      match canonicalPermitPayload claims with
      | Error err => mret (Error err)
      | Ok payload =>
          signed ← call (ESign payload) (pa_Sign authority payload);
          match signed with
          | Error err => mret (Error (ErrWrap "sign EGE permit" err))
          | Ok (keyID, signature) =>
              mret (Ok {| pm_APIVersion := PermitVersion; pm_KeyID := keyID; pm_Claims := claims;
                          pm_Signature := base64_encode signature |})
          end
      end
  end.

Definition VerifyPermit (authority : option SignatureVerifier) (permit : Permit)
    : M W authority_event (option error) :=
  match authority with
  | None => mret (Some (ErrNew "EGE permit authority is required"))
  | Some authority =>
      if negb (str_eqb (pm_APIVersion permit) PermitVersion)
      then mret (Some (ErrNew ("unsupported EGE permit version " +:+ pm_APIVersion permit)))
      else if str_eqb (pm_KeyID permit) "" || str_eqb (pm_Signature permit) ""
      then mret (Some (ErrNew "EGE permit key_id and signature are required"))
      else match base64_decode (pm_Signature permit) with
      | Error err => mret (Some (ErrWrap "decode EGE permit signature" err))
      | Ok signature =>
          match canonicalPermitPayload (pm_Claims permit) with
          | Error err => mret (Some err)
          | Ok payload =>
              call (EVerify (pm_KeyID permit) payload signature)
                   (sv_Verify authority (pm_KeyID permit) payload signature)
          end
      end
  end.
End Authority.
Arguments SignatureVerifier W : clear implicits.
Arguments PermitAuthority W : clear implicits.

(** * [consequence.go] *)

Definition ConsequenceAdmissionVersion : string := "aegis.ege/consequence/v0alpha2".
Definition ConsequenceDecisionAdmissible : string := "ADMISSIBLE".
Definition ConsequenceDecisionBlocked : string := "BLOCKED".
Definition ConsequenceClassOperationalStateChange : string := "operational_state_change".

Record ConsequencePolicy : Type := {
  cp_Ref : string; cp_Version : string; cp_Owner : string; cp_ConsequenceClass : string;
  cp_AllowedKinds : list string; cp_AllowedActions : list string; cp_AllowedTargetTypes : list string;
  cp_MaxEvidenceAge : duration }.

Record ConsequenceAdmission : Type := {
  ca_APIVersion : string; ca_Decision : string; ca_ConsequenceClass : string;
  ca_AdmissibilityPolicyRef : string; ca_PolicyVersion : string; ca_PolicyHash : string;
  ca_PolicyOwner : string; ca_EvaluatedAt : time; ca_ActionScopeDigest : string }.

Definition zero_Admission : ConsequenceAdmission := {|
  ca_APIVersion := ""; ca_Decision := ""; ca_ConsequenceClass := ""; ca_AdmissibilityPolicyRef := "";
  ca_PolicyVersion := ""; ca_PolicyHash := ""; ca_PolicyOwner := ""; ca_EvaluatedAt := 0;
  ca_ActionScopeDigest := "" |}.

(** [EvidenceManifest] of permit.go. *)
Record EvidenceManifest : Type := {
  em_APIVersion : string; em_IntentID : string; em_Kind : string; em_Target : Target; em_ResourceVersion : string;
  em_EvidenceDigest : string; em_PlanDigest : string; em_ObservedAt : time; em_EvidenceClasses : list string;
  em_Sources : list EvidenceSource; em_Composition : option EvidenceCompositionAssessment }.

Definition KubernetesNodeDrainConsequencePolicy (maxEvidenceAge : duration) : ConsequencePolicy := {|
  cp_Ref := "aegis-ege/policy/kubernetes-node-drain-consequence"; cp_Version := "v1"; cp_Owner := "aegis-ege";
  cp_ConsequenceClass := ConsequenceClassOperationalStateChange; cp_AllowedKinds := ["kubernetes.node_drain"];
  cp_AllowedActions := ["drain"]; cp_AllowedTargetTypes := ["kubernetes.node"];
  cp_MaxEvidenceAge := maxEvidenceAge |}.

Definition ValidateConsequencePolicy (policy : ConsequencePolicy) : option error :=
  if str_eqb (cp_Ref policy) "" || str_eqb (cp_Version policy) "" || str_eqb (cp_Owner policy) "" ||
     str_eqb (cp_ConsequenceClass policy) ""
  then Some (ErrNew "CONSEQUENCE_POLICY_IDENTITY_INVALID")
  else if (length (cp_AllowedKinds policy) =? 0)%nat || (length (cp_AllowedActions policy) =? 0)%nat ||
          (length (cp_AllowedTargetTypes policy) =? 0)%nat
  then Some (ErrNew "CONSEQUENCE_POLICY_SCOPE_EMPTY")
  else if cp_MaxEvidenceAge policy <? 0 then Some (ErrNew "CONSEQUENCE_POLICY_MAX_EVIDENCE_AGE_INVALID")
  else None.

Definition sortedConsequenceValues (values : list string) : json := copied_strings (sort_strings values).

Definition containsConsequenceValue (values : list string) (expected : string) : bool :=
  existsb (str_eqb expected) values.

Definition policy_json (p : ConsequencePolicy) : json :=
  object [("ref", Some (JString (cp_Ref p))); ("version", Some (JString (cp_Version p)));
          ("owner", Some (JString (cp_Owner p))); ("consequence_class", Some (JString (cp_ConsequenceClass p)));
          ("allowed_kinds", Some (sortedConsequenceValues (cp_AllowedKinds p)));
          ("allowed_actions", Some (sortedConsequenceValues (cp_AllowedActions p)));
          ("allowed_target_types", Some (sortedConsequenceValues (cp_AllowedTargetTypes p)));
          ("max_evidence_age_ns", Some (JInt (cp_MaxEvidenceAge p)))].

Definition consequencePolicyHash (policy : ConsequencePolicy) : string := json_digest (policy_json policy).

Definition scope_json (c : PermitClaims) : json :=
  object [("intent_id", Some (JString (pc_IntentID c))); ("kind", Some (JString (pc_Kind c)));
          ("target", Some (target_json (pc_Target c))); ("action", Some (JString (pc_Action c)));
          ("resource_version", Some (JString (pc_ResourceVersion c)));
          ("plan_digest", Some (JString (pc_PlanDigest c)))].

Definition consequenceActionScopeDigest (claims : PermitClaims) : string := json_digest (scope_json claims).

(** The guards of the admission, after the digests. *)
Definition admission_refusal (policy : ConsequencePolicy) (claims : PermitClaims) (manifest : EvidenceManifest)
    (now : time) : option error :=
  if negb (containsConsequenceValue (cp_AllowedKinds policy) (pc_Kind claims))
  then Some (ErrNew ("CONSEQUENCE_KIND_NOT_ADMISSIBLE:" +:+ pc_Kind claims))
  else if negb (containsConsequenceValue (cp_AllowedActions policy) (pc_Action claims))
  then Some (ErrNew ("CONSEQUENCE_ACTION_NOT_ADMISSIBLE:" +:+ pc_Action claims))
  else if negb (containsConsequenceValue (cp_AllowedTargetTypes policy) (tg_Type (pc_Target claims)))
  then Some (ErrNew ("CONSEQUENCE_TARGET_NOT_ADMISSIBLE:" +:+ tg_Type (pc_Target claims)))
  else if IsZero (pc_ValidUntil claims) || After now (pc_ValidUntil claims)
  then Some (ErrNew "CONSEQUENCE_PERMIT_EXPIRED")
  else if negb (str_eqb (em_IntentID manifest) (pc_IntentID claims)) ||
          negb (str_eqb (em_Kind manifest) (pc_Kind claims)) ||
          negb (bool_decide (em_Target manifest = pc_Target claims)) ||
          negb (str_eqb (em_ResourceVersion manifest) (pc_ResourceVersion claims)) ||
          negb (str_eqb (em_EvidenceDigest manifest) (pc_EvidenceDigest claims)) ||
          negb (str_eqb (em_PlanDigest manifest) (pc_PlanDigest claims))
  then Some (ErrNew "CONSEQUENCE_EVIDENCE_BINDING_MISMATCH")
  else if IsZero (em_ObservedAt manifest) then Some (ErrNew "CONSEQUENCE_EVIDENCE_TIME_MISSING")
  else if After (em_ObservedAt manifest) now then Some (ErrNew "CONSEQUENCE_EVIDENCE_FROM_FUTURE")
  else if (0 <? cp_MaxEvidenceAge policy) && (cp_MaxEvidenceAge policy <? Sub now (em_ObservedAt manifest))
  then Some (ErrNew "CONSEQUENCE_EVIDENCE_STALE")
  else None.

Definition EvaluateConsequenceAdmission (policy : ConsequencePolicy) (claims : PermitClaims)
    (manifest : EvidenceManifest) (now : time) : ConsequenceAdmission * option error :=
  match ValidateConsequencePolicy policy with
  | Some err => (zero_Admission, Some err)
  | None =>
      if IsZero now then (zero_Admission, Some (ErrNew "CONSEQUENCE_EVALUATION_TIME_REQUIRED"))
      else
        let admission decision := {|
          ca_APIVersion := ConsequenceAdmissionVersion; ca_Decision := decision;
          ca_ConsequenceClass := cp_ConsequenceClass policy; ca_AdmissibilityPolicyRef := cp_Ref policy;
          ca_PolicyVersion := cp_Version policy; ca_PolicyHash := consequencePolicyHash policy;
          ca_PolicyOwner := cp_Owner policy; ca_EvaluatedAt := now;
          ca_ActionScopeDigest := consequenceActionScopeDigest claims |} in
        match admission_refusal policy claims manifest now with
        | Some err => (admission ConsequenceDecisionBlocked, Some err)
        | None => (admission ConsequenceDecisionAdmissible, None)
        end
  end.

Definition ValidateConsequenceAdmission (admission : ConsequenceAdmission) : option error :=
  if negb (str_eqb (ca_APIVersion admission) ConsequenceAdmissionVersion)
  then Some (ErrNew "CONSEQUENCE_ADMISSION_VERSION_INVALID")
  else if negb (str_eqb (ca_Decision admission) ConsequenceDecisionAdmissible) &&
          negb (str_eqb (ca_Decision admission) ConsequenceDecisionBlocked)
  then Some (ErrNew "CONSEQUENCE_ADMISSION_DECISION_INVALID")
  else if str_eqb (ca_ConsequenceClass admission) "" || str_eqb (ca_AdmissibilityPolicyRef admission) "" ||
          str_eqb (ca_PolicyVersion admission) "" || str_eqb (ca_PolicyHash admission) "" ||
          str_eqb (ca_PolicyOwner admission) "" || str_eqb (ca_ActionScopeDigest admission) "" ||
          IsZero (ca_EvaluatedAt admission)
  then Some (ErrNew "CONSEQUENCE_ADMISSION_INCOMPLETE")
  else None.

(** * Facts *)

(** ** Structures are determined by their JSON *)

Definition kept (l : list (string * option json)) : list (string * json) := omap (λ '(k, v), pair k <$> v) l.

Lemma elem_of_kept n v l : (n, v) ∈ kept l → n ∈ l.*1.
Proof.
  intros ([x [y|]] & Hx & [= <- <-])%list_elem_of_omap.
  change x with (fst (x, Some y)). by apply list_elem_of_fmap_2.
Qed.

Lemma kept_inj l k : NoDup l.*1 → l.*1 = k.*1 → kept l = kept k → l = k.
Proof.
  revert k. induction l as [|[n o] l IH]; intros [|[m p] k] Hnd Hk H; try done.
  simpl in Hnd, Hk. apply NoDup_cons in Hnd as [Hn Hnd]. injection Hk as -> Hk.
  change (kept ((m, o) :: l)) with (match pair m <$> o with Some q => q :: kept l | None => kept l end) in H.
  change (kept ((m, p) :: k)) with (match pair m <$> p with Some q => q :: kept k | None => kept k end) in H.
  destruct o as [v|], p as [w|]; simpl in H.
  - injection H as -> H. f_equal. by apply IH.
  - destruct Hn. rewrite Hk. apply (elem_of_kept m v). rewrite <- H. left.
  - destruct Hn. apply (elem_of_kept m w). rewrite H. left.
  - f_equal. by apply IH.
Qed.

Lemma object_inj l k : l.*1 = k.*1 → NoDup l.*1 → object l = object k → l = k.
Proof. intros Hk Hnd [= H]. by apply kept_inj. Qed.

Definition utf8_opt (o : option json) : bool := match o with Some v => utf8_json v | None => true end.

Lemma utf8_object l : forallb (λ '(k, v), utf8_valid k && utf8_opt v) l = true → utf8_json (object l) = true.
Proof.
  change (utf8_json (object l)) with (forallb (λ '(k, v), utf8_valid k && utf8_json v) (kept l)).
  induction l as [|[k o] l IH]; [done|]. cbn [forallb]. intros [[Hk Ho]%andb_prop Hl]%andb_prop.
  change (kept ((k, o) :: l)) with (match pair k <$> o with Some q => q :: kept l | None => kept l end).
  destruct o as [v|]; simpl in *; [|by apply IH]. by rewrite Hk, Ho, IH.
Qed.

Lemma strings_json_inj (l k : list string) : JString <$> l = JString <$> k → l = k.
Proof. apply list_fmap_eq_inj. by intros ?? [=]. Qed.

Lemma utf8_strings (l : list string) : forallb utf8_json (JString <$> l) = forallb utf8_valid l.
Proof. induction l as [|x l IH]; [done|]. simpl. f_equal. exact IH. Qed.

Lemma omit_string_inj s t : omit_string s = omit_string t → s = t.
Proof. unfold omit_string. destruct (str_eqb s "") eqn:Hs, (str_eqb t "") eqn:Ht; intros [=]; split_bool; congruence. Qed.

Lemma omit_strings_inj l k : omit_strings l = omit_strings k → l = k.
Proof.
  destruct l as [|x l], k as [|y k]; try done. unfold omit_strings. intros [= -> H]. f_equal. by apply strings_json_inj.
Qed.

(** Equal objects with the same member names have equal members. *)
Ltac object_fields H :=
  apply object_inj in H; [|reflexivity|apply (bool_decide_unpack _); vm_compute; reflexivity];
  injection H as H.

Lemma target_json_inj s t : target_json s = target_json t → s = t.
Proof. destruct s, t. unfold target_json. simpl. intros H. object_fields H. by subst. Qed.

Lemma execution_json_inj a b : execution_json a = execution_json b → a = b.
Proof. destruct a, b. unfold execution_json. simpl. intros H. object_fields H. by subst. Qed.

Lemma fence_json_inj a b : fence_json a = fence_json b → a = b.
Proof. destruct a, b. unfold fence_json. simpl. intros H. object_fields H. by subst. Qed.

Lemma binding_json_inj a b : binding_json a = binding_json b → a = b.
Proof.
  destruct a as [[] ? ? ?], b as [[] ? ? ?]. unfold binding_json. simpl. intros H. object_fields H. by subst.
Qed.

Lemma scope_json_inj a b : scope_json a = scope_json b →
  pc_IntentID a = pc_IntentID b ∧ pc_Kind a = pc_Kind b ∧ pc_Target a = pc_Target b ∧ pc_Action a = pc_Action b ∧
  pc_ResourceVersion a = pc_ResourceVersion b ∧ pc_PlanDigest a = pc_PlanDigest b.
Proof. 
  unfold scope_json. intros H. destruct (pc_Target a), (pc_Target b). object_fields H. by subst.
Qed.

#[local] Instance execution_json_Inj : Inj (=) (=) execution_json.
Proof. intros a b. apply execution_json_inj. Qed.
#[local] Instance fence_json_Inj : Inj (=) (=) fence_json.
Proof. intros a b. apply fence_json_inj. Qed.

Lemma claims_fields_inj a b t u : object (claims_fields a t) = object (claims_fields b u) →
  t = u ∧ (pc_ValidUntil a = pc_ValidUntil b → a = b).
Proof.
  destruct a as [? ? [] ? ? ? ? ? ? ? ? ? ? ? ? ? ? ? ?], b as [? ? [] ? ? ? ? ? ? ? ? ? ? ? ? ? ? ? ?].
  unfold claims_fields. simpl. intros H. object_fields H.
  repeat match goal with
  | Hx : omit_string _ = omit_string _ |- _ => apply omit_string_inj in Hx
  | Hx : omit_strings _ = omit_strings _ |- _ => apply omit_strings_inj in Hx
  | Hx : execution_json <$> _ = _ |- _ => apply (inj (fmap execution_json)) in Hx
  | Hx : fence_json <$> _ = _ |- _ => apply (inj (fmap fence_json)) in Hx
  end.
  subst. split; [done|]. by intros ->.
Qed.

(** Every string of the claims is valid UTF-8. *)
Definition claims_utf8 (c : PermitClaims) : bool :=
  forallb (λ '(k, v), utf8_valid k && utf8_opt v) (claims_fields c JNull).

Lemma claims_utf8_object c t : claims_utf8 c = true → utf8_json t = true →
  utf8_json (object (claims_fields c t)) = true.
Proof.
  intros Hc Ht. apply utf8_object. revert Hc. unfold claims_utf8, claims_fields. cbn [forallb utf8_opt].
  by rewrite Ht.
Qed.

Lemma claims_utf8_canonical c : claims_utf8 c = true → claims_utf8 (canonical_claims c) = true.
Proof.
  assert (∀ l, utf8_opt (omit_strings l) = forallb utf8_valid l) as Hl.
  { intros [|x l]; [done|]. unfold omit_strings. cbn [utf8_opt utf8_json]. apply (utf8_strings (x :: l)). }
  assert (∀ l, forallb utf8_valid (sort_strings l) = forallb utf8_valid l) as Hs.
  { intros l. apply forallb_perm, sort_strings_perm. }
  unfold claims_utf8, claims_fields, canonical_claims. cbn [forallb pc_ApprovalRefs pc_EBAAssumptionRefs].
  by rewrite !Hl, !Hs.
Qed.

Lemma time_json_Ok t v : time_json t = Ok v → four_digit_year t ∧ v = JString (rfc3339nano t).
Proof. unfold time_json. case_bool_decide; [by intros [= <-]|done]. Qed.

Lemma Ok_inj {A} (a b : A) : Ok a = Ok b → a = b.
Proof. by intros [=]. Qed.

(** The payload determines the claims up to the order of the reference lists. *)
Lemma payload_inj a b p : claims_utf8 a = true → claims_utf8 b = true →
  canonicalPermitPayload a = Ok p → canonicalPermitPayload b = Ok p → canonical_claims a = canonical_claims b.
Proof.
  intros Ha%claims_utf8_canonical Hb%claims_utf8_canonical. unfold canonicalPermitPayload.
  change (pc_ValidUntil (canonical_claims a)) with (pc_ValidUntil a).
  change (pc_ValidUntil (canonical_claims b)) with (pc_ValidUntil b).
  destruct (time_json (pc_ValidUntil a)) as [t|] eqn:Hta; [|done].
  destruct (time_json (pc_ValidUntil b)) as [u|] eqn:Htb; [|done].
  apply time_json_Ok in Hta as [Hya ->], Htb as [Hyb ->].
  intros <- Hp%Ok_inj%string_app_inj_l. apply encode_inj in Hp; [|by apply claims_utf8_object, rfc3339nano_utf8..].
  apply claims_fields_inj in Hp as [[= Ht] Hc]. symmetry. apply Hc. simpl. by apply rfc3339nano_inj.
Qed.

(** ** The guards *)

Lemma containsConsequenceValue_true l x : containsConsequenceValue l x = true ↔ x ∈ l.
Proof.
  unfold containsConsequenceValue. rewrite existsb_exists, list_elem_of_In. split.
  - by intros (y & Hy & ->%str_eqb_eq).
  - intros Hx. exists x. by rewrite str_eqb_refl.
Qed.

(** The manifest is about the permitted action. *)
Definition bound_to (m : EvidenceManifest) (c : PermitClaims) : Prop :=
  em_IntentID m = pc_IntentID c ∧ em_Kind m = pc_Kind c ∧ em_Target m = pc_Target c ∧
  em_ResourceVersion m = pc_ResourceVersion c ∧ em_EvidenceDigest m = pc_EvidenceDigest c ∧
  em_PlanDigest m = pc_PlanDigest c.

Lemma admission_refusal_None p c m now : is_i64 (cp_MaxEvidenceAge p) →
  admission_refusal p c m now = None ↔
  pc_Kind c ∈ cp_AllowedKinds p ∧ pc_Action c ∈ cp_AllowedActions p ∧
  tg_Type (pc_Target c) ∈ cp_AllowedTargetTypes p ∧ (pc_ValidUntil c ≠ 0 ∧ now ≤ pc_ValidUntil c) ∧
  bound_to m c ∧ (em_ObservedAt m ≠ 0 ∧ em_ObservedAt m ≤ now) ∧
  (0 < cp_MaxEvidenceAge p → now - em_ObservedAt m ≤ cp_MaxEvidenceAge p ∨ cp_MaxEvidenceAge p = MaxInt64).
Proof.
  intros Hage. unfold admission_refusal, bound_to, IsZero, After.
  rewrite <- !containsConsequenceValue_true.
  destruct (containsConsequenceValue (cp_AllowedKinds p) _); [|naive_solver].
  destruct (containsConsequenceValue (cp_AllowedActions p) _); [|naive_solver].
  destruct (containsConsequenceValue (cp_AllowedTargetTypes p) _); [|naive_solver]. cbn [negb].
  destruct (Z.eqb_spec (pc_ValidUntil c) 0); [naive_solver|].
  destruct (Z.ltb_spec (pc_ValidUntil c) now); [split; [done|]; intros; destruct_and?; lia|]. cbn [orb].
  destruct (str_eqb (em_IntentID m) _) eqn:E1; split_bool; [|naive_solver].
  destruct (str_eqb (em_Kind m) _) eqn:E2; split_bool; [|naive_solver].
  case_bool_decide as E3; [|naive_solver].
  destruct (str_eqb (em_ResourceVersion m) _) eqn:E4; split_bool; [|naive_solver].
  destruct (str_eqb (em_EvidenceDigest m) _) eqn:E5; split_bool; [|naive_solver].
  destruct (str_eqb (em_PlanDigest m) _) eqn:E6; split_bool; [|naive_solver]. cbn [negb orb].
  destruct (Z.eqb_spec (em_ObservedAt m) 0); [naive_solver|].
  destruct (Z.ltb_spec now (em_ObservedAt m)); [split; [done|]; intros; destruct_and?; lia|].
  pose proof (Sub_gt now (em_ObservedAt m) _ Hage) as Hsub. unfold is_i64, MaxInt64 in *.
  destruct (Z.ltb_spec 0 (cp_MaxEvidenceAge p)); cbn [andb];
    [|split; [intros _; split_and!; done || lia|done]].
  destruct (Z.ltb_spec (cp_MaxEvidenceAge p) (Sub now (em_ObservedAt m))) as [Hs|Hs].
  - apply Hsub in Hs. split; [done|]. intros; destruct_and?. lia.
  - split; [|done]. intros _. split_and!; done || lia.
Qed.

Lemma ValidateCapabilityFenceClaims_None c : ValidateCapabilityFenceClaims c = None ↔
  cf_Version c = CapabilityFenceVersion ∧ blank (cf_AuthorityDomain c) = false ∧ cf_AuthorityTerm c ≠ 0 ∧
  cf_DecisionEpoch c ≠ 0 ∧ cf_TargetIdentity c ≠ "" ∧ cf_StateBindingDigest c ≠ "".
Proof.
  unfold ValidateCapabilityFenceClaims.
  destruct (str_eqb (cf_Version c) _) eqn:E1; split_bool; simpl; [|naive_solver].
  destruct (blank (cf_AuthorityDomain c)); [naive_solver|].
  destruct (Z.eqb_spec (cf_AuthorityTerm c) 0); [naive_solver|].
  destruct (Z.eqb_spec (cf_DecisionEpoch c) 0); [naive_solver|].
  destruct (str_eqb (cf_TargetIdentity c) "") eqn:E2; split_bool; [naive_solver|].
  destruct (str_eqb (cf_StateBindingDigest c) "") eqn:E3; split_bool; naive_solver.
Qed.

Definition complete_binding (b : CapabilityStateBinding) : Prop :=
  TrimSpace (tg_Type (sb_Target b)) ≠ "" ∧ TrimSpace (tg_Name (sb_Target b)) ≠ "" ∧
  TrimSpace (sb_TargetIdentity b) ≠ "" ∧ TrimSpace (sb_ResourceVersion b) ≠ "" ∧ TrimSpace (sb_PlanDigest b) ≠ "".

Lemma DigestCapabilityStateBinding_Ok b d : DigestCapabilityStateBinding b = Ok d ↔
  complete_binding b ∧ d = json_digest (binding_json (trim_binding b)).
Proof.
  unfold DigestCapabilityStateBinding, complete_binding. cbn [trim_binding sb_Target tg_Type tg_Name sb_TargetIdentity
    sb_ResourceVersion sb_PlanDigest].
  destruct (str_eqb (TrimSpace (tg_Type _)) "") eqn:E1; split_bool; [naive_solver|].
  destruct (str_eqb (TrimSpace (tg_Name _)) "") eqn:E2; split_bool; [naive_solver|].
  destruct (str_eqb (TrimSpace (sb_TargetIdentity b)) "") eqn:E3; split_bool; [naive_solver|].
  destruct (str_eqb (TrimSpace (sb_ResourceVersion b)) "") eqn:E4; split_bool; [naive_solver|].
  destruct (str_eqb (TrimSpace (sb_PlanDigest b)) "") eqn:E5; split_bool; [naive_solver|]. simpl.
  split; [intros <-%Ok_inj; by split_and!|]. by intros [_ ->].
Qed.

Definition binding_utf8 (b : CapabilityStateBinding) : bool :=
  utf8_valid (tg_Type (sb_Target b)) && utf8_valid (tg_Name (sb_Target b)) &&
  utf8_valid (sb_TargetIdentity b) && utf8_valid (sb_ResourceVersion b) && utf8_valid (sb_PlanDigest b).

Lemma binding_utf8_json b : binding_utf8 b = true → utf8_json (binding_json b) = true.
Proof.
  unfold binding_utf8. intros H. repeat apply andb_prop in H as [H ?]. apply utf8_object. simpl.
  by rewrite H, H0, H1, H2, H3.
Qed.

(** Equal digests of valid texts mean equal values, or a collision of SHA-256. *)
Lemma json_digest_inj v w : utf8_json v = true → utf8_json w = true → json_digest v = json_digest w →
  v = w ∨ sha256_collision (encode v) (encode w).
Proof. intros Hv Hw [H|H]%sha256_digest_eq; [left; by apply encode_inj|by right]. Qed.

Lemma fence_None claims current state : ValidateCapabilityFence claims current state = None ↔
  ValidateCapabilityFenceClaims claims = None ∧ blank (cu_AuthorityDomain current) = false ∧
  cu_AuthorityDomain current = cf_AuthorityDomain claims ∧ cu_AuthorityTerm current = cf_AuthorityTerm claims ∧
  cu_DecisionEpoch current = cf_DecisionEpoch claims ∧ cu_RevocationEpoch current = cf_RevocationEpoch claims ∧
  TrimSpace (sb_TargetIdentity state) = cf_TargetIdentity claims ∧ complete_binding state ∧
  cf_StateBindingDigest claims = json_digest (binding_json (trim_binding state)).
Proof.
  unfold ValidateCapabilityFence.
  destruct (ValidateCapabilityFenceClaims claims) eqn:Hc; [naive_solver|].
  apply ValidateCapabilityFenceClaims_None in Hc as (_ & _ & Ht & He & _).
  destruct (blank (cu_AuthorityDomain current)); [naive_solver|].
  destruct (Z.eqb_spec (cu_AuthorityTerm current) 0); [split; [done|intros (? & ? & ? & ? & ? & ?); congruence]|].
  destruct (Z.eqb_spec (cu_DecisionEpoch current) 0); [split; [done|intros (? & ? & ? & ? & ? & ?); congruence]|]. cbn [orb].
  destruct (str_eqb (cf_AuthorityDomain claims) _) eqn:E1; split_bool; cbn [negb orb]; [|naive_solver].
  destruct (Z.eqb_spec (cf_AuthorityTerm claims) (cu_AuthorityTerm current)); cbn [negb]; [|naive_solver].
  destruct (Z.eqb_spec (cf_DecisionEpoch claims) (cu_DecisionEpoch current)); cbn [negb]; [|naive_solver].
  destruct (Z.eqb_spec (cf_RevocationEpoch claims) (cu_RevocationEpoch current)); cbn [negb]; [|naive_solver].
  destruct (str_eqb (cf_TargetIdentity claims) _) eqn:E2; split_bool; cbn [negb]; [|naive_solver].
  pose proof (DigestCapabilityStateBinding_Ok state) as Hd.
  destruct (DigestCapabilityStateBinding state) as [dg|er].
  - destruct (proj1 (Hd dg) eq_refl) as [Hb ->]. rewrite guard_err_None, negb_false_iff, str_eqb_eq. naive_solver.
  - split; [done|]. intros (_ & _ & _ & _ & _ & _ & _ & Hb & _).
    discriminate (proj2 (Hd _) (conj Hb eq_refl)).
Qed.

Lemma digest_nonempty s : str_eqb (sha256_digest s) "" = false.
Proof. by apply str_eqb_neq. Qed.

Lemma admission_record_valid p c now d : ValidateConsequencePolicy p = None → now ≠ 0 →
  d = ConsequenceDecisionAdmissible ∨ d = ConsequenceDecisionBlocked →
  ValidateConsequenceAdmission {| ca_APIVersion := ConsequenceAdmissionVersion; ca_Decision := d;
    ca_ConsequenceClass := cp_ConsequenceClass p; ca_AdmissibilityPolicyRef := cp_Ref p;
    ca_PolicyVersion := cp_Version p; ca_PolicyHash := consequencePolicyHash p;
    ca_PolicyOwner := cp_Owner p; ca_EvaluatedAt := now;
    ca_ActionScopeDigest := consequenceActionScopeDigest c |} = None.
Proof.
  unfold ValidateConsequencePolicy. intros Hp Hn Hd.
  destruct (str_eqb (cp_Ref p) "") eqn:E1, (str_eqb (cp_Version p) "") eqn:E2, (str_eqb (cp_Owner p) "") eqn:E3,
    (str_eqb (cp_ConsequenceClass p) "") eqn:E4; try discriminate Hp.
  unfold ValidateConsequenceAdmission, consequencePolicyHash, consequenceActionScopeDigest, json_digest, IsZero.
  cbn [ca_APIVersion ca_Decision ca_ConsequenceClass ca_AdmissibilityPolicyRef ca_PolicyVersion ca_PolicyHash
    ca_PolicyOwner ca_EvaluatedAt ca_ActionScopeDigest].
  rewrite E1, E2, E3, E4. apply Z.eqb_neq in Hn as ->.
  rewrite !digest_nonempty.
  by destruct Hd as [->| ->].
Qed.

Lemma policy_json_perm p kinds actions types : kinds ≡ₚ cp_AllowedKinds p → actions ≡ₚ cp_AllowedActions p →
  types ≡ₚ cp_AllowedTargetTypes p →
  policy_json {| cp_Ref := cp_Ref p; cp_Version := cp_Version p; cp_Owner := cp_Owner p;
    cp_ConsequenceClass := cp_ConsequenceClass p; cp_AllowedKinds := kinds; cp_AllowedActions := actions;
    cp_AllowedTargetTypes := types; cp_MaxEvidenceAge := cp_MaxEvidenceAge p |} = policy_json p.
Proof.
  intros Hk Ha Ht. unfold policy_json, sortedConsequenceValues.
  cbn [cp_Ref cp_Version cp_Owner cp_ConsequenceClass cp_AllowedKinds cp_AllowedActions cp_AllowedTargetTypes
    cp_MaxEvidenceAge].
  rewrite (sort_strings_Permutation _ _ Hk), (sort_strings_Permutation _ _ Ha), (sort_strings_Permutation _ _ Ht).
  reflexivity.
Qed.

#[local] Opaque json_digest.

(** * Properties *)

(** C31: [VerifyPermit] accepts only what the authority signed: if the authority
    accepts no signature over a payload it did not sign, an accepted permit's
    key signed the permit's canonical payload, which was checked exactly once;
    and any claims with that payload are the permit's claims, up to the order
    of their reference lists. *)
Theorem verified_permit_was_signed {W} (signed : string → string → Prop) (authority : SignatureVerifier W)
    (Hunforgeable : ∀ k p s w w', sv_Verify authority k p s w = (None, w') → signed k p) permit w w' t :
  VerifyPermit (Some authority) permit w = (None, w', t) →
  ∃ payload signature, canonicalPermitPayload (pm_Claims permit) = Ok payload ∧
    base64_decode (pm_Signature permit) = Ok signature ∧
    t = [EVerify (pm_KeyID permit) payload signature None] ∧ signed (pm_KeyID permit) payload ∧
    ∀ c, claims_utf8 c = true → claims_utf8 (pm_Claims permit) = true → canonicalPermitPayload c = Ok payload →
      canonical_claims c = canonical_claims (pm_Claims permit).
Proof.
  unfold VerifyPermit. intros H. run_monad.
  match goal with Hc : sv_Verify _ _ ?p ?s _ = _ |- _ => exists p, s; apply Hunforgeable in Hc end.
  split_and!; [done..|]. intros c Hu Hp E. by eapply payload_inj.
Qed.

(** What [SignPermit] issues verifies: at an authority that accepts its own
    signatures, and gives a non-empty key and signature, an issued permit is
    accepted, and so is the permit with its reference lists in another order. *)
Theorem signed_permit_verifies {W} (authority : PermitAuthority W)
    (Haccepts : ∀ p w k s w', pa_Sign authority p w = (Ok (k, s), w') →
      k ≠ "" ∧ s ≠ "" ∧ ∀ w1, (sv_Verify (pa_Verifier authority) k p s w1).1 = None) claims permit w w' t :
  SignPermit (Some authority) claims w = (Ok permit, w', t) →
  pm_Claims permit = claims ∧ (∃ payload signed, canonicalPermitPayload claims = Ok payload ∧ t = [ESign payload signed]) ∧
  ∀ c w1, canonical_claims c = canonical_claims claims →
    (VerifyPermit (Some (pa_Verifier authority)) {| pm_APIVersion := pm_APIVersion permit; pm_KeyID := pm_KeyID permit;
       pm_Claims := c; pm_Signature := pm_Signature permit |} w1).1.1 = None.
Proof.
  unfold SignPermit. intros H. run_monad.
  match goal with Hc : pa_Sign _ _ _ = (Ok (?k, ?s), _) |- _ => rename k into key, s into sig; apply Haccepts in Hc as (Hk & Hs & Hv) end.
  split_and!; [done|by eauto|]. intros c w1 Hcc. unfold VerifyPermit. cbn.
  apply str_eqb_neq in Hk. rewrite Hk.
  assert (base64_encode sig ≠ "") as Hb%str_eqb_neq by (by destruct sig as [|? [|? [|? ?]]]).
  rewrite Hb, base64_decode_encode. cbn.
  match goal with Hp : canonicalPermitPayload claims = Ok ?p |- _ =>
    assert (canonicalPermitPayload c = Ok p) as -> by (rewrite <- Hp; unfold canonicalPermitPayload; by rewrite Hcc);
    specialize (Hv w1); unfold call; by destruct (sv_Verify _ _ _ _ _)
  end.
Qed.

(** A capability fence holds exactly when its claims are complete and the
    current snapshot, the target and the digest of the state are the claimed
    ones; two states it holds for are the same up to white space, or exhibit a
    collision of SHA-256. *)
Theorem capability_fence_exact claims current state :
  (ValidateCapabilityFence claims current state = None ↔
   ValidateCapabilityFenceClaims claims = None ∧ blank (cu_AuthorityDomain current) = false ∧
   cu_AuthorityDomain current = cf_AuthorityDomain claims ∧ cu_AuthorityTerm current = cf_AuthorityTerm claims ∧
   cu_DecisionEpoch current = cf_DecisionEpoch claims ∧ cu_RevocationEpoch current = cf_RevocationEpoch claims ∧
   TrimSpace (sb_TargetIdentity state) = cf_TargetIdentity claims ∧ complete_binding state ∧
   cf_StateBindingDigest claims = json_digest (binding_json (trim_binding state))) ∧
  ∀ current' state', ValidateCapabilityFence claims current state = None →
    ValidateCapabilityFence claims current' state' = None →
    binding_utf8 (trim_binding state) = true → binding_utf8 (trim_binding state') = true →
    trim_binding state = trim_binding state' ∨
    sha256_collision (encode (binding_json (trim_binding state))) (encode (binding_json (trim_binding state'))).
Proof.
  split; [apply fence_None|]. intros current' state' H1 H2 U1 U2.
  apply fence_None in H1 as (_ & _ & _ & _ & _ & _ & _ & _ & H1), H2 as (_ & _ & _ & _ & _ & _ & _ & _ & H2).
  rewrite H1 in H2. apply json_digest_inj in H2; [|by apply binding_utf8_json..].
  destruct H2 as [H2|H2]; [left; by apply binding_json_inj|by right].
Qed.

(** An action's consequences are admitted exactly when the policy is valid,
    allows its kind, action and target type, the permit has not expired, and
    the evidence is about this very action, not from the future and not older
    than the policy allows.  An error comes exactly with a decision other than
    ADMISSIBLE, every decision taken is a valid admission record, and the
    policy hash does not depend on the order of the policy's lists. *)
Theorem consequence_admissible_exact p c m now (Hage : is_i64 (cp_MaxEvidenceAge p)) :
  let '(a, err) := EvaluateConsequenceAdmission p c m now in
  (ca_Decision a = ConsequenceDecisionAdmissible ↔
   ValidateConsequencePolicy p = None ∧ now ≠ 0 ∧
   pc_Kind c ∈ cp_AllowedKinds p ∧ pc_Action c ∈ cp_AllowedActions p ∧
   tg_Type (pc_Target c) ∈ cp_AllowedTargetTypes p ∧ (pc_ValidUntil c ≠ 0 ∧ now ≤ pc_ValidUntil c) ∧
   bound_to m c ∧ (em_ObservedAt m ≠ 0 ∧ em_ObservedAt m ≤ now) ∧
   (0 < cp_MaxEvidenceAge p → now - em_ObservedAt m ≤ cp_MaxEvidenceAge p ∨ cp_MaxEvidenceAge p = MaxInt64)) ∧
  (err = None ↔ ca_Decision a = ConsequenceDecisionAdmissible) ∧
  (ca_Decision a ≠ "" → ValidateConsequenceAdmission a = None ∧ ca_EvaluatedAt a = now ∧
     ca_ActionScopeDigest a = consequenceActionScopeDigest c) ∧
  (∀ kinds actions types, kinds ≡ₚ cp_AllowedKinds p → actions ≡ₚ cp_AllowedActions p →
     types ≡ₚ cp_AllowedTargetTypes p →
     consequencePolicyHash {| cp_Ref := cp_Ref p; cp_Version := cp_Version p; cp_Owner := cp_Owner p;
       cp_ConsequenceClass := cp_ConsequenceClass p; cp_AllowedKinds := kinds; cp_AllowedActions := actions;
       cp_AllowedTargetTypes := types; cp_MaxEvidenceAge := cp_MaxEvidenceAge p |} = consequencePolicyHash p).
Proof.
  pose proof (admission_refusal_None p c m now Hage) as Href. revert Href. unfold EvaluateConsequenceAdmission.
  assert (∀ kinds actions types, kinds ≡ₚ cp_AllowedKinds p → actions ≡ₚ cp_AllowedActions p →
     types ≡ₚ cp_AllowedTargetTypes p →
     consequencePolicyHash {| cp_Ref := cp_Ref p; cp_Version := cp_Version p; cp_Owner := cp_Owner p;
       cp_ConsequenceClass := cp_ConsequenceClass p; cp_AllowedKinds := kinds; cp_AllowedActions := actions;
       cp_AllowedTargetTypes := types; cp_MaxEvidenceAge := cp_MaxEvidenceAge p |} = consequencePolicyHash p) as Hhash.
  { intros. unfold consequencePolicyHash. by rewrite policy_json_perm. }
  destruct (ValidateConsequencePolicy p) eqn:Hp.
  { intros _. split; [by split; [|intros [? _]]|]. by split. }
  unfold IsZero. destruct (Z.eqb_spec now 0) as [Hn|Hn].
  { intros _. split; [by split; [|intros (_ & ? & _)]|]. by split. }
  pose proof (admission_record_valid p c now) as Hv.
  destruct (admission_refusal p c m now) eqn:Hr; cbn beta zeta; cbn [ca_Decision]; intros Href.
  - split; [split; [done|]; intros (_ & _ & Hx); discriminate (proj2 Href Hx)|].
    split; [done|]. split; [|done]. intros _. split; [by apply Hv; [| |right]|done].
  - split; [split; [intros _; do 2 (split; [done|]); by apply Href|done]|].
    split; [done|]. split; [|done]. intros _. split; [by apply Hv; [| |left]|done].
Qed.

(** * Witnesses *)

Definition toy_authority : PermitAuthority unit := {|
  pa_Sign := λ p w, (Ok ("k", "s" +:+ p), w);
  pa_Verifier := {| sv_Verify := λ k p s w,
    (guard_err (negb (str_eqb k "k" && str_eqb s ("s" +:+ p))) (ErrNew "signature verification failed"), w) |} |}.

Definition sample_claims : PermitClaims := {|
  pc_IntentID := "i1"; pc_Kind := "kubernetes.node_drain"; pc_Target := {| tg_Type := "kubernetes.node"; tg_Name := "n1" |};
  pc_Action := "drain"; pc_ResourceVersion := "7"; pc_EvidenceDigest := "e"; pc_EvidenceManifestDigest := "m";
  pc_EvidencePacketDigest := ""; pc_PlanDigest := "p"; pc_ApprovalRefs := ["b"; "a"]; pc_ExecutionBinding := None;
  pc_EBAContextProfile := ""; pc_EBATraceID := ""; pc_EBAAudience := ""; pc_EBANamespace := "";
  pc_EBAAssumptionRefs := []; pc_EBAAuthorityRef := ""; pc_CapabilityFence := None; pc_ValidUntil := 1000 |}.

Definition sample_permit : Permit :=
  match (SignPermit (Some toy_authority) sample_claims tt).1.1 with
  | Ok p => p
  | Error _ => {| pm_APIVersion := ""; pm_KeyID := ""; pm_Claims := sample_claims; pm_Signature := "" |}
  end.

Definition sample_payload : string :=
  match canonicalPermitPayload sample_claims with Ok p => p | Error _ => "" end.

Lemma sample_signed : SignPermit (Some toy_authority) sample_claims tt =
  (Ok sample_permit, tt, [ESign sample_payload (Ok ("k", "s" +:+ sample_payload))]).
Proof. vm_compute. reflexivity. Qed.

Lemma sample_verified : VerifyPermit (Some (pa_Verifier toy_authority)) sample_permit tt =
  (None, tt, [EVerify "k" sample_payload ("s" +:+ sample_payload) None]).
Proof. vm_compute. reflexivity. Qed.

Example verified_permit_was_signed_witness :
  ∃ payload signature, canonicalPermitPayload (pm_Claims sample_permit) = Ok payload ∧
    base64_decode (pm_Signature sample_permit) = Ok signature ∧
    [EVerify "k" sample_payload ("s" +:+ sample_payload) None] = [EVerify (pm_KeyID sample_permit) payload signature None] ∧
    pm_KeyID sample_permit = "k" ∧
    ∀ c, claims_utf8 c = true → claims_utf8 (pm_Claims sample_permit) = true → canonicalPermitPayload c = Ok payload →
      canonical_claims c = canonical_claims (pm_Claims sample_permit).
Proof.
  eapply (verified_permit_was_signed (λ k _, k = "k") (pa_Verifier toy_authority)); [|exact sample_verified].
  intros k p s w w'. simpl. destruct (str_eqb k "k") eqn:Hk; [intros _; by apply str_eqb_eq|done].
Defined.

Example signed_permit_verifies_witness :
  pm_Claims sample_permit = sample_claims ∧
  (∃ payload signed, canonicalPermitPayload sample_claims = Ok payload ∧
     [ESign sample_payload (Ok ("k", "s" +:+ sample_payload))] = [ESign payload signed]) ∧
  ∀ c w1, canonical_claims c = canonical_claims sample_claims →
    (VerifyPermit (Some (pa_Verifier toy_authority)) {| pm_APIVersion := pm_APIVersion sample_permit;
       pm_KeyID := pm_KeyID sample_permit; pm_Claims := c; pm_Signature := pm_Signature sample_permit |} w1).1.1 = None.
Proof.
  eapply (signed_permit_verifies toy_authority); [|exact sample_signed].
  intros p w k s w' [= <- <- <-]. split_and!; [done..|]. intros w1. simpl. by rewrite !str_eqb_refl.
Defined.

Definition sample_state : CapabilityStateBinding := {|
  sb_Target := {| tg_Type := "kubernetes.node"; tg_Name := " n1" |}; sb_TargetIdentity := "uid"; sb_ResourceVersion := "7";
  sb_PlanDigest := "p" |}.

Definition sample_fence : CapabilityFenceClaims := {|
  cf_Version := CapabilityFenceVersion; cf_AuthorityDomain := "d"; cf_AuthorityTerm := 1; cf_DecisionEpoch := 2;
  cf_RevocationEpoch := 0; cf_TargetIdentity := "uid";
  cf_StateBindingDigest := json_digest (binding_json (trim_binding sample_state)) |}.

Definition sample_snapshot (revocation : Z) : CapabilityAuthoritySnapshot :=
  {| cu_AuthorityDomain := "d"; cu_AuthorityTerm := 1; cu_DecisionEpoch := 2; cu_RevocationEpoch := revocation |}.

Example fence_accepts : ValidateCapabilityFence sample_fence (sample_snapshot 0) sample_state = None.
Proof. vm_compute. reflexivity. Qed.

Example fence_revoked : ValidateCapabilityFence sample_fence (sample_snapshot 1) sample_state = Some ErrCapabilityRevoked.
Proof. vm_compute. reflexivity. Qed.

Example sample_policy_fresh : is_i64 (cp_MaxEvidenceAge (KubernetesNodeDrainConsequencePolicy 50)).
Proof. unfold is_i64. simpl. lia. Qed.

Definition sample_manifest (observed : time) : EvidenceManifest := {|
  em_APIVersion := ""; em_IntentID := "i1"; em_Kind := "kubernetes.node_drain";
  em_Target := {| tg_Type := "kubernetes.node"; tg_Name := "n1" |}; em_ResourceVersion := "7";
  em_EvidenceDigest := "e"; em_PlanDigest := "p"; em_ObservedAt := observed; em_EvidenceClasses := [];
  em_Sources := []; em_Composition := None |}.

Example consequence_verdicts : (λ observed, (EvaluateConsequenceAdmission (KubernetesNodeDrainConsequencePolicy 50)
    sample_claims (sample_manifest observed) 900).2) <$> [850; 849; 901] =
  [None; Some (ErrNew "CONSEQUENCE_EVIDENCE_STALE"); Some (ErrNew "CONSEQUENCE_EVIDENCE_FROM_FUTURE")].
Proof. vm_compute. reflexivity. Qed.

Example consequence_admissible_exact_witness :
  let p := KubernetesNodeDrainConsequencePolicy 50 in
  ca_Decision (EvaluateConsequenceAdmission p sample_claims (sample_manifest 850) 900).1 = ConsequenceDecisionAdmissible ∧
  is_i64 (cp_MaxEvidenceAge p).
Proof.
  split; [|exact sample_policy_fresh].
  pose proof (consequence_admissible_exact (KubernetesNodeDrainConsequencePolicy 50) sample_claims (sample_manifest 850)
    900 sample_policy_fresh) as H.
  destruct (EvaluateConsequenceAdmission _ _ _ _) as [a err]. apply (proj2 (proj1 H)). unfold bound_to.
  repeat first [split | apply (bool_decide_unpack _); vm_compute; exact I | intros; left; vm_compute; done].
Defined.
