(* ===== verification/HeadStore.v ===== *)
(** * External journal heads and the in-memory head store

    Models [internal/journal/security.go]: the head an external witness keeps
    for a journal, the [ExternalHeadStore] interface that [quorum_head_store.go]
    and the journal use, and [MemoryHeadStore].  The mutex of the store makes
    each of its methods one step.  The store implements an append-only log of
    heads per journal, and it satisfies the laws the quorum needs of a member. *)

From S2P Require Import Prelude.
Local Open Scope Z_scope.

Definition ErrExternalHeadNotFound : error := ErrNew "external journal head not found".
Definition ErrExternalHeadConflict : error := ErrNew "external journal head conflict".

Record ExternalHead : Type := {
  eh_JournalID : string; eh_Sequence : Z; eh_HeadHash : string; eh_KeyID : string; eh_StoreVersion : string }.

#[export] Instance ExternalHead_eq_dec : EqDecision ExternalHead.
Proof. solve_decision. Defined.

Definition zero_Head : ExternalHead :=
  {| eh_JournalID := ""; eh_Sequence := 0; eh_HeadHash := ""; eh_KeyID := ""; eh_StoreVersion := "" |}.

(** ** The interface *)

(** A store that other clients may use between two calls of ours. *)
Class ExternalHeadStore (W : Type) : Type := {
  Load : string → W → result ExternalHead * W;
  CompareAndAdvance : ExternalHead → ExternalHead → W → result ExternalHead * W }.

(** [quorumSemanticHead]: a head without the version its store gave it. *)
Record quorumSemanticHead : Type := {
  qh_JournalID : string; qh_Sequence : Z; qh_HeadHash : string; qh_KeyID : string }.

#[export] Instance quorumSemanticHead_eq_dec : EqDecision quorumSemanticHead.
Proof. solve_decision. Defined.

Definition semanticExternalHead (head : ExternalHead) : quorumSemanticHead := {|
  qh_JournalID := eh_JournalID head; qh_Sequence := eh_Sequence head;
  qh_HeadHash := eh_HeadHash head; qh_KeyID := eh_KeyID head |}.

Definition sameSemanticHead (left right : ExternalHead) : bool :=
  bool_decide (semanticExternalHead left = semanticExternalHead right).

(** The recorded head a compare-and-advance may replace, and by what. *)
Definition extends (current : option quorumSemanticHead) (previous next : quorumSemanticHead) : Prop :=
  match current with
  | None => qh_Sequence previous = 0 ∧ qh_HeadHash previous = "" ∧ qh_Sequence next = 0
  | Some c =>
      qh_Sequence c = qh_Sequence previous ∧ qh_HeadHash c = qh_HeadHash previous ∧ qh_KeyID c = qh_KeyID previous ∧
      qh_Sequence c ≤ qh_Sequence next ∧
      (qh_Sequence next = qh_Sequence c → qh_HeadHash next = qh_HeadHash c ∧ qh_KeyID next = qh_KeyID c)
  end.

(** What a witness promises: a load reports the recorded head; a
    compare-and-advance either leaves the record alone and fails, or replaces
    the expected head by one that extends it -- and may still fail, when the
    reply is lost. *)
Class HeadStoreLaws (W : Type) `{!ExternalHeadStore W} : Type := {
  recorded : W → gmap string quorumSemanticHead;
  load_recorded id w r w' : Load id w = (r, w') → recorded w' = recorded w ∧
    match r with
    | Ok h => recorded w !! id = Some (semanticExternalHead h)
    | Error e => errors_Is e ErrExternalHeadNotFound = true → recorded w !! id = None
    end;
  advance_recorded p n w r w' : CompareAndAdvance p n w = (r, w') →
    (recorded w' = recorded w ∧ is_ok r = false) ∨
    (extends (recorded w !! eh_JournalID n) (semanticExternalHead p) (semanticExternalHead n) ∧
     recorded w' = <[eh_JournalID n := semanticExternalHead n]> (recorded w) ∧
     match r with Ok h => semanticExternalHead h = semanticExternalHead n | Error _ => True end) }.

(** ** [MemoryHeadStore] *)

Abbreviation MemoryHeadStore := (gmap string ExternalHead).

Definition NewMemoryHeadStore : MemoryHeadStore := ∅.

Definition MemoryHeadStore_Load (journalID : string) (s : MemoryHeadStore) : result ExternalHead :=
  match s !! journalID with
  | None => Error ErrExternalHeadNotFound
  | Some head => Ok head
  end.

Definition MemoryHeadStore_CompareAndAdvance (previous next : ExternalHead) (s : MemoryHeadStore)
    : result ExternalHead * MemoryHeadStore :=
  match s !! eh_JournalID next with
  | None =>
      if negb (eh_Sequence previous =? 0) || negb (str_eqb (eh_HeadHash previous) "")
      then (Error ErrExternalHeadConflict, s)
      else if negb (eh_Sequence next =? 0) then (Error ErrExternalHeadConflict, s)
      else (Ok next, <[eh_JournalID next := next]> s)
  | Some current =>
      if negb (eh_Sequence current =? eh_Sequence previous) ||
         negb (str_eqb (eh_HeadHash current) (eh_HeadHash previous)) ||
         negb (str_eqb (eh_KeyID current) (eh_KeyID previous))
      then (Error ErrExternalHeadConflict, s)
      else if eh_Sequence next <? eh_Sequence current then (Error ErrExternalHeadConflict, s)
      else if (eh_Sequence next =? eh_Sequence current) &&
              (negb (str_eqb (eh_HeadHash next) (eh_HeadHash current)) ||
               negb (str_eqb (eh_KeyID next) (eh_KeyID current)))
      then (Error ErrExternalHeadConflict, s)
      else (Ok next, <[eh_JournalID next := next]> s)
  end.

#[export] Instance MemoryHeadStore_ops : ExternalHeadStore MemoryHeadStore := {|
  Load := λ id s, (MemoryHeadStore_Load id s, s);
  CompareAndAdvance := MemoryHeadStore_CompareAndAdvance |}.

(** * Facts *)

Lemma sameSemanticHead_true a b : sameSemanticHead a b = true ↔ semanticExternalHead a = semanticExternalHead b.
Proof. apply bool_decide_eq_true. Qed.

#[export] Instance extends_dec current p n : Decision (extends current p n).
Proof. destruct current; simpl; apply _. Defined.

(** The store accepts exactly the heads that extend the recorded one. *)
Lemma MemoryHeadStore_advance p n s :
  MemoryHeadStore_CompareAndAdvance p n s =
  if decide (extends (semanticExternalHead <$> s !! eh_JournalID n) (semanticExternalHead p) (semanticExternalHead n))
  then (Ok n, <[eh_JournalID n := n]> s) else (Error ErrExternalHeadConflict, s).
Proof.
  unfold MemoryHeadStore_CompareAndAdvance. destruct (s !! eh_JournalID n) as [c|]; case_decide as E; simpl in E.
  - destruct E as (E1 & E2 & E3 & E4 & E5). rewrite E1, E2, E3, Z.eqb_refl, !str_eqb_refl in *. cbn [negb orb].
    destruct (Z.ltb_spec (eh_Sequence n) (eh_Sequence p)); [lia|].
    destruct (Z.eqb_spec (eh_Sequence n) (eh_Sequence p)) as [Hs|]; [|done].
    destruct (E5 Hs) as [-> ->]. by rewrite !str_eqb_refl.
  - destruct (Z.eqb_spec (eh_Sequence c) (eh_Sequence p)); [|done].
    destruct (str_eqb (eh_HeadHash c) (eh_HeadHash p)) eqn:E1; split_bool; [|done].
    destruct (str_eqb (eh_KeyID c) (eh_KeyID p)) eqn:E2; split_bool; [|done]. cbn [negb orb].
    destruct (Z.ltb_spec (eh_Sequence n) (eh_Sequence c)); [done|].
    destruct (Z.eqb_spec (eh_Sequence n) (eh_Sequence c)); [|destruct E; by split_and!].
    destruct (str_eqb (eh_HeadHash n) (eh_HeadHash c)) eqn:E3; split_bool; [|done].
    destruct (str_eqb (eh_KeyID n) (eh_KeyID c)) eqn:E4; split_bool; [|done]. destruct E. by split_and!.
  - destruct E as (-> & -> & ->). by rewrite str_eqb_refl.
  - destruct (Z.eqb_spec (eh_Sequence p) 0); [|done].
    destruct (str_eqb (eh_HeadHash p) "") eqn:E1; split_bool; [|done]. cbn [negb orb].
    destruct (Z.eqb_spec (eh_Sequence n) 0); [|done]. destruct E. by split_and!.
Qed.

#[export] Program Instance MemoryHeadStore_laws : HeadStoreLaws MemoryHeadStore :=
  {| recorded := λ s, semanticExternalHead <$> s |}.
Next Obligation.
  intros id s r s' [= <- <-]. split; [done|]. unfold MemoryHeadStore_Load. rewrite lookup_fmap.
  by destruct (s !! id).
Qed.
Next Obligation.
  intros p n s r s'. simpl. rewrite MemoryHeadStore_advance, lookup_fmap. case_decide as E.
  - intros [= <- <-]. right. by rewrite fmap_insert.
  - intros [= <- <-]. by left.
Qed.

Lemma extends_le c p n : extends (Some c) p n → qh_Sequence p = qh_Sequence c ∧ qh_Sequence c ≤ qh_Sequence n.
Proof. intros (? & ? & ? & ? & ?). lia. Qed.

(** ** The append-only log the store implements

    One list of heads per journal, newest first.  A head is appended when it
    extends the newest one, and the newest one is what a load reports. *)

Inductive head_call : Type :=
  | CallLoad (journalID : string)
  | CallAdvance (previous next : ExternalHead).

Definition store_step (c : head_call) (s : MemoryHeadStore) : result ExternalHead * MemoryHeadStore :=
  match c with
  | CallLoad id => Load id s
  | CallAdvance p n => CompareAndAdvance p n s
  end.

Abbreviation head_log := (gmap string (list ExternalHead)).

Definition newest (l : head_log) (id : string) : option ExternalHead := l !! id ≫= head.

Definition log_step (c : head_call) (l : head_log) : result ExternalHead * head_log :=
  match c with
  | CallLoad id => (match newest l id with Some h => Ok h | None => Error ErrExternalHeadNotFound end, l)
  | CallAdvance p n =>
      if decide (extends (semanticExternalHead <$> newest l (eh_JournalID n)) (semanticExternalHead p) (semanticExternalHead n))
      then (Ok n, <[eh_JournalID n := n :: default [] (l !! eh_JournalID n)]> l)
      else (Error ErrExternalHeadConflict, l)
  end.

Fixpoint run_calls {S} (step : head_call → S → result ExternalHead * S) (cs : list head_call) (s : S)
    : list (result ExternalHead) * S :=
  match cs with
  | [] => ([], s)
  | c :: cs => let '(r, s) := step c s in let '(rs, s) := run_calls step cs s in (r :: rs, s)
  end.

(** A history newest first: the oldest head is at sequence 0, and each head
    keeps or raises the sequence number, keeping hash and key with it. *)
Fixpoint chained (l : list ExternalHead) : Prop :=
  match l with
  | [] => True
  | [h] => eh_Sequence h = 0
  | n :: (c :: _) as l =>
      eh_Sequence c ≤ eh_Sequence n ∧
      (eh_Sequence n = eh_Sequence c → eh_HeadHash n = eh_HeadHash c ∧ eh_KeyID n = eh_KeyID c) ∧ chained l
  end.

Lemma chained_le n l h : chained (n :: l) → h ∈ l → eh_Sequence h ≤ eh_Sequence n.
Proof.
  revert n. induction l as [|c l IH]; intros n; [by intros _ ?%not_elem_of_nil|].
  intros (Hle & _ & Hc) [->|Hh]%elem_of_cons; [done|]. specialize (IH c Hc Hh). lia.
Qed.

Lemma chained_unique l a b : chained l → a ∈ l → b ∈ l → eh_Sequence a = eh_Sequence b →
  eh_HeadHash a = eh_HeadHash b ∧ eh_KeyID a = eh_KeyID b.
Proof.
  assert (∀ n l h, chained (n :: l) → h ∈ l → eh_Sequence h = eh_Sequence n →
    eh_HeadHash h = eh_HeadHash n ∧ eh_KeyID h = eh_KeyID n) as Hn.
  { clear. intros n l. revert n. induction l as [|c l IH]; intros n h; [by intros _ ?%not_elem_of_nil|].
    intros (Hle & Hc & Hl) Hh Hs. assert (eh_Sequence h ≤ eh_Sequence c).
    { apply elem_of_cons in Hh as [->|Hh]; [done|]. by apply (chained_le c l). }
    destruct Hc as [-> ->]; [lia|]. apply elem_of_cons in Hh as [->|Hh]; [done|]. apply IH; [done..|lia]. }
  induction l as [|n l IH]; [by intros _ ?%not_elem_of_nil|]. intros Hl Ha Hb Hs.
  apply elem_of_cons in Ha as [->|Ha], Hb as [->|Hb].
  - done.
  - destruct (Hn n l b) as [-> ->]; auto.
  - destruct (Hn n l a) as [-> ->]; auto.
  - apply IH; try done. destruct l; [by apply not_elem_of_nil in Ha|]. by destruct Hl as (_ & _ & ?).
Qed.

Definition well_formed_log (l : head_log) : Prop :=
  ∀ id hist, l !! id = Some hist → hist ≠ [] ∧ chained hist ∧ Forall (λ h, eh_JournalID h = id) hist.

Lemma log_step_wf c l r l' : log_step c l = (r, l') → well_formed_log l → well_formed_log l'.
Proof.
  destruct c as [id|p n]; simpl; [by intros [= _ <-]|]. case_decide as E; intros [= _ <-]; [|done].
  intros Hl id hist. destruct (decide (eh_JournalID n = id)) as [<-|Hne]; [|rewrite lookup_insert_ne by done; apply Hl].
  rewrite lookup_insert_eq. intros [= <-]. unfold newest in E.
  destruct (l !! eh_JournalID n) as [[|c hist]|] eqn:Hc.
  - by apply Hl in Hc as [? _].
  - apply Hl in Hc as (_ & Hc & Hid). destruct E as (_ & _ & _ & H1 & H2). simpl in *.
    by split_and!; [..|constructor].
  - destruct E as (_ & _ & E). split_and!; [done..|]. by constructor.
Qed.

Lemma store_step_log c s l : (∀ id, s !! id = newest l id) →
  let '(r, s') := store_step c s in let '(r', l') := log_step c l in r = r' ∧ ∀ id, s' !! id = newest l' id.
Proof.
  intros Hs. destruct c as [id|p n]; simpl.
  - split; [|done]. unfold MemoryHeadStore_Load. rewrite Hs. by destruct (newest l id).
  - rewrite MemoryHeadStore_advance, Hs. case_decide; [|done]. split; [done|]. intros id. unfold newest.
    destruct (decide (eh_JournalID n = id)) as [<-|Hne]; [by rewrite !lookup_insert_eq|].
    rewrite !lookup_insert_ne by done. apply Hs.
Qed.

Lemma run_calls_log cs s l : (∀ id, s !! id = newest l id) → well_formed_log l →
  let '(rs, s') := run_calls store_step cs s in let '(rs', l') := run_calls log_step cs l in
  rs = rs' ∧ (∀ id, s' !! id = newest l' id) ∧ well_formed_log l'.
Proof.
  revert s l. induction cs as [|c cs IH]; intros s l Hs Hl; simpl; [done|].
  pose proof (store_step_log c s l Hs) as Hc. pose proof (log_step_wf c l) as Hw.
  destruct (store_step c s) as [r s1], (log_step c l) as [r' l1]. destruct Hc as [-> Hs1].
  specialize (IH s1 l1 Hs1 (Hw _ _ eq_refl Hl)).
  destruct (run_calls store_step cs s1), (run_calls log_step cs l1). naive_solver.
Qed.

(** * Properties *)

(** [MemoryHeadStore] refines an append-only log per journal: over any calls it
    gives the results of the log and holds its newest heads.  The log starts at
    sequence 0, never goes back, and holds one hash and one key per sequence
    number, so no journal has two histories. *)
Theorem memory_store_refines_log cs :
  let '(rs, s) := run_calls store_step cs NewMemoryHeadStore in let '(rs', l) := run_calls log_step cs ∅ in
  rs = rs' ∧ (∀ id, s !! id = newest l id) ∧
  ∀ id hist, l !! id = Some hist → chained hist ∧
    ∀ a b, a ∈ hist → b ∈ hist → eh_Sequence a = eh_Sequence b →
      eh_HeadHash a = eh_HeadHash b ∧ eh_KeyID a = eh_KeyID b.
Proof.
  pose proof (run_calls_log cs NewMemoryHeadStore ∅) as H.
  destruct (run_calls store_step cs _) as [rs s], (run_calls log_step cs ∅) as [rs' l].
  destruct H as (-> & Hs & Hl); [done..|]. split_and!; [done..|]. intros id hist Hid.
  apply Hl in Hid as (_ & Hc & _). split; [done|]. intros a b. by apply chained_unique.
Qed.

Definition sample_head (seq : Z) (hash : string) : ExternalHead :=
  {| eh_JournalID := "j"; eh_Sequence := seq; eh_HeadHash := hash; eh_KeyID := "k"; eh_StoreVersion := "" |}.

Example store_refuses_a_fork : (run_calls store_step
    [CallAdvance zero_Head (sample_head 0 ""); CallAdvance (sample_head 0 "") (sample_head 1 "a");
     CallAdvance (sample_head 0 "") (sample_head 1 "b"); CallLoad "j"] NewMemoryHeadStore).1 =
  [Ok (sample_head 0 ""); Ok (sample_head 1 "a"); Error ErrExternalHeadConflict; Ok (sample_head 1 "a")].
Proof. vm_compute. reflexivity. Qed.
