(* ===== verification/Witness.v ===== *)
(** * The governed witness

    Models the witness side of the external journal heads: the quorum policy a
    witness obeys and its transitions ([internal/journal/quorum_rotation.go]),
    the witness's state and its Kubernetes store
    ([governed_witness_state_store.go]), and the HTTP handlers that load and
    advance heads and move the policy ([remote_witness_policy_protocol.go]).
    A handler loads the state, decides, and writes it back with a
    compare-and-swap; handlers of one witness run concurrently.  An HTTP request
    stands as it is decoded, and a stored JSON text as what it decodes to. *)

From S2P Require Import Prelude Crypto HeadStore KernelAbi.
Local Open Scope Z_scope.

(** * Quorum policies *)

Definition QuorumPolicyPhaseActive : string := "ACTIVE".
Definition QuorumPolicyPhaseJoint : string := "JOINT_FROZEN".

Definition ErrQuorumPolicyMismatch : error := ErrNew "quorum witness policy mismatch".
Definition ErrQuorumRotationUnsafe : error := ErrNew "quorum rotation is not safety-preserving".
Definition ErrQuorumRotationAmbiguous : error := ErrNew "quorum rotation is in an ambiguous mixed state".
Definition ErrQuorumRotationContinuity : error := ErrNew "quorum rotation head continuity failed".

Record QuorumPolicyState : Type := {
  qp_Phase : string; qp_GenesisEpoch : Z; qp_PolicyHash : string; qp_FromPolicyHash : string; qp_ToPolicyHash : string }.

#[export] Instance QuorumPolicyState_eq_dec : EqDecision QuorumPolicyState.
Proof. solve_decision. Defined.

(** [hex.DecodeString] accepts either case. *)
Definition validSHA256Digest (value : string) : bool :=
  (String.length value =? 71)%nat &&
  match strip_prefix "sha256:" value with Some raw => is_ok (hex_DecodeString raw) | None => false end.

Definition validateQuorumPolicyState (state : QuorumPolicyState) : option error :=
  if qp_GenesisEpoch state =? 0 then Some (ErrNew "quorum policy Genesis epoch must be positive")
  else if negb (validSHA256Digest (qp_PolicyHash state)) then Some (ErrNew "quorum policy hash must be sha256")
  else if str_eqb (qp_Phase state) QuorumPolicyPhaseActive
  then guard_err (negb (str_eqb (qp_FromPolicyHash state) "") || negb (str_eqb (qp_ToPolicyHash state) ""))
         (ErrNew "active quorum policy cannot carry transition endpoints")
  else if str_eqb (qp_Phase state) QuorumPolicyPhaseJoint
  then guard_err (negb (validSHA256Digest (qp_FromPolicyHash state)) || negb (validSHA256Digest (qp_ToPolicyHash state)))
         (ErrNew "joint quorum policy must bind old and new policy hashes")
  else Some (ErrNew ("unsupported quorum policy phase " +:+ qp_Phase state)).

Definition ValidateQuorumPolicyTransition (current next : QuorumPolicyState) : option error :=
  if bool_decide (current = next) then None
  else match validateQuorumPolicyState current with
  | Some err => Some (ErrWrap "current quorum policy" err)
  | None =>
  match validateQuorumPolicyState next with
  | Some err => Some (ErrWrap "next quorum policy" err)
  | None =>
      if str_eqb (qp_Phase current) QuorumPolicyPhaseActive && str_eqb (qp_Phase next) QuorumPolicyPhaseJoint then
        if qp_GenesisEpoch next <=? qp_GenesisEpoch current
        then Some (ErrNew "joint transition must advance Genesis epoch")
        else guard_err (negb (str_eqb (qp_FromPolicyHash next) (qp_PolicyHash current)))
               (ErrNew "joint transition does not bind current policy")
      else if str_eqb (qp_Phase current) QuorumPolicyPhaseJoint && str_eqb (qp_Phase next) QuorumPolicyPhaseActive then
        if negb (qp_GenesisEpoch next =? qp_GenesisEpoch current)
        then Some (ErrNew "joint activation must stay in the target Genesis epoch")
        else guard_err (negb (str_eqb (qp_PolicyHash next) (qp_ToPolicyHash current)))
               (ErrNew "joint activation does not match committed target policy")
      else Some (ErrNew "direct or rollback quorum policy transition is forbidden")
  end end.

(** * The state of a witness and its store *)

Definition GovernedWitnessStateVersion : string := "aegis-ege/governed-witness-state/v1".

Definition ErrGovernedWitnessStateNotFound : error := ErrNew "governed witness state not found".
Definition ErrGovernedWitnessStateConflict : error := ErrNew "governed witness state conflict".

Record GovernedWitnessState : Type := {
  ws_Protocol : string; ws_Policy : QuorumPolicyState; ws_Heads : gmap string ExternalHead; ws_StoreVersion : string }.

(** The heads with [StoreVersion] set to [v]. *)
Definition with_version (v : string) (h : ExternalHead) : ExternalHead := {|
  eh_JournalID := eh_JournalID h; eh_Sequence := eh_Sequence h; eh_HeadHash := eh_HeadHash h;
  eh_KeyID := eh_KeyID h; eh_StoreVersion := v |}.

Definition stamp (v : string) (s : GovernedWitnessState) : GovernedWitnessState := {|
  ws_Protocol := ws_Protocol s; ws_Policy := ws_Policy s; ws_Heads := with_version v <$> ws_Heads s;
  ws_StoreVersion := v |}.

(** The range over [Heads] stops at the first bad key it meets. *)
Definition bad_head (kv : string * ExternalHead) : bool :=
  let id := TrimSpace kv.1 in str_eqb id "" || negb (str_eqb (eh_JournalID kv.2) id).

Definition validateGovernedWitnessState (state : GovernedWitnessState) : option error :=
  if negb (str_eqb (ws_Protocol state) GovernedWitnessStateVersion)
  then Some (ErrNew ("governed witness state protocol mismatch: got " +:+ ws_Protocol state +:+ " want " +:+
                     GovernedWitnessStateVersion))
  else match validateQuorumPolicyState (ws_Policy state) with
  | Some err => Some (ErrWrap "governed witness policy" err)
  | None =>
      match filter (λ kv, bad_head kv = true) (map_to_list (ws_Heads state)) with
      | [] => None
      | (id, head) :: _ =>
          Some (ErrNew ("governed witness head key " +:+ TrimSpace id +:+ " does not match journal id " +:+
                        eh_JournalID head))
      end
  end.

(** [GovernedWitnessStateStore]. *)
Class GovernedWitnessStateStore (W : Type) : Type := {
  ws_Load : W → result GovernedWitnessState * W;
  ws_CompareAndSwap : string → GovernedWitnessState → W → result GovernedWitnessState * W }.

(** What the handlers rely on: the store keeps the states it was given, newest
    first, each under a version of its own; a load reads the newest one; a
    compare-and-swap adds a state exactly on top of the expected version, or
    changes nothing and fails -- and may also fail after the write, when the
    reply is lost. *)
Class WitnessStoreLaws (W : Type) `{!GovernedWitnessStateStore W} : Type := {
  history : W → list GovernedWitnessState;
  history_versions w : NoDup (ws_StoreVersion <$> history w);
  load_newest w r w' : ws_Load w = (r, w') → history w' = history w ∧
    match r with Ok s => head (history w) = Some s | Error _ => True end;
  swap_on_top v s w r w' : ws_CompareAndSwap v s w = (r, w') →
    (history w' = history w ∧ is_ok r = false) ∨
    ∃ saved, history w' = saved :: history w ∧ saved = stamp (ws_StoreVersion saved) saved ∧
      ws_Policy saved = ws_Policy s ∧ (semanticExternalHead <$> ws_Heads saved) = (semanticExternalHead <$> ws_Heads s) ∧
      match head (history w) with Some c => ws_StoreVersion c = v | None => blank v = true end ∧
      match r with Ok s' => s' = saved | Error _ => True end }.

Definition InitializeGovernedWitnessState {W} `{!GovernedWitnessStateStore W} (initialPolicy : QuorumPolicyState) (w : W)
    : result GovernedWitnessState * W :=
  match validateQuorumPolicyState initialPolicy with
  | Some err => (Error err, w)
  | None =>
      if negb (str_eqb (qp_Phase initialPolicy) QuorumPolicyPhaseActive)
      then (Error (ErrNew "initial governed witness policy must be ACTIVE"), w)
      else let '(loaded, w) := ws_Load w in
      match loaded with
      | Ok state =>
          if negb (bool_decide (ws_Policy state = initialPolicy))
          then (Error (ErrDetail ErrQuorumPolicyMismatch "persisted policy differs from startup policy"), w)
          else (Ok state, w)
      | Error err =>
          if negb (errors_Is err ErrGovernedWitnessStateNotFound) then (Error err, w)
          else ws_CompareAndSwap "" {| ws_Protocol := GovernedWitnessStateVersion; ws_Policy := initialPolicy;
                                       ws_Heads := ∅; ws_StoreVersion := "" |} w
      end
  end.

(** ** The store in a Kubernetes ConfigMap *)

Inductive api_error : Type :=
  | ApiNotFound
  | ApiAlreadyExists
  | ApiConflict
  | ApiOther (e : error).

Definition api_cause (e : api_error) : error :=
  match e with
  | ApiNotFound => ErrNew "not found"
  | ApiAlreadyExists => ErrNew "already exists"
  | ApiConflict => ErrNew "conflict"
  | ApiOther e => e
  end.

(** [Data["state.json"]] stands as what it decodes to, if it is there at all. *)
Record ConfigMap : Type := { cm_ResourceVersion : string; cm_State : option (result GovernedWitnessState) }.

(** The client of the API server, for the one ConfigMap the store keeps. *)
Class ConfigMapClient (C : Type) : Type := {
  cm_Get : C → (api_error + ConfigMap) * C;
  cm_Create : GovernedWitnessState → C → (api_error + string) * C;
  cm_Update : string → GovernedWitnessState → C → (api_error + string) * C }.

Section Kubernetes.
Context {C : Type} `{!ConfigMapClient C}.

Definition KubernetesGovernedWitnessStateStore_Load (c : C) : result GovernedWitnessState * C :=
  let '(got, c) := cm_Get c in
  match got with
  | inl ApiNotFound => (Error ErrGovernedWitnessStateNotFound, c)
  | inl err => (Error (ErrWrap "get governed witness state" (api_cause err)), c)
  | inr configMap =>
      match cm_State configMap with
      | None => (Error (ErrNew "governed witness state is missing state.json"), c)
      | Some (Error err) => (Error (ErrWrap "decode governed witness state" err), c)
      | Some (Ok state) =>
          match validateGovernedWitnessState state with
          | Some err => (Error err, c)
          | None => (Ok (stamp (cm_ResourceVersion configMap) state), c)
          end
      end
  end.

Definition KubernetesGovernedWitnessStateStore_CompareAndSwap (expectedVersion : string)
    (next : GovernedWitnessState) (c : C) : result GovernedWitnessState * C :=
  let next := stamp "" {| ws_Protocol := GovernedWitnessStateVersion; ws_Policy := ws_Policy next;
                          ws_Heads := ws_Heads next; ws_StoreVersion := "" |} in
  match validateGovernedWitnessState next with
  | Some err => (Error err, c)
  | None =>
      let create := blank expectedVersion in
      let '(saved, c) := if create then cm_Create next c else cm_Update expectedVersion next c in
      match saved with
      | inr version => (Ok (stamp version next), c)
      | inl err =>
          let conflict := match err with
                          | ApiAlreadyExists => create
                          | ApiConflict | ApiNotFound => negb create
                          | ApiOther _ => false
                          end in
          (Error (if conflict then ErrGovernedWitnessStateConflict
                  else ErrWrap "write governed witness state" (api_cause err)), c)
      end
  end.

#[export] Instance KubernetesGovernedWitnessStateStore : GovernedWitnessStateStore C := {|
  ws_Load := KubernetesGovernedWitnessStateStore_Load;
  ws_CompareAndSwap := KubernetesGovernedWitnessStateStore_CompareAndSwap |}.
End Kubernetes.

(** * The handlers *)

(** [remoteHeadWire] has the fields of [ExternalHead]; the conversions copy them. *)
Abbreviation remoteHeadWire := ExternalHead.

Definition remoteWitnessProtocolV1 : string := "aegis-ege/external-witness/v1".

Record remoteAdvanceRequest : Type := { ra_Protocol : string; ra_Expected : remoteHeadWire; ra_Next : remoteHeadWire }.

Record remotePolicyTransitionRequest : Type := {
  rt_Protocol : string; rt_Expected : QuorumPolicyState; rt_Next : QuorumPolicyState; rt_JournalID : string;
  rt_ExpectedHead : remoteHeadWire }.

Definition remoteHeadWireIsZero (head : remoteHeadWire) : bool := bool_decide (head = zero_Head).

(** The requests that reach a handler: the policy header and the body as they
    are decoded, and the journal id of the path. *)
Inductive witness_request : Type :=
  | HeadLoad (journalID : string) (policy : result QuorumPolicyState)
  | RotationObserve (journalID : string)
  | HeadAdvance (journalID : string) (policy : result QuorumPolicyState) (body : result remoteAdvanceRequest)
  | CurrentPolicy
  | PolicyTransition (body : result remotePolicyTransitionRequest).

Inductive witness_reply : Type :=
  | HttpError (status : Z) (text : string)
  | HeadReply (operation : string) (head : ExternalHead) (policy : QuorumPolicyState)
  | PolicyReply (operation : string) (policy : QuorumPolicyState).

Definition http_error (status : Z) (err : error) : witness_reply := HttpError status (error_text err).
Definition http_NotFound : witness_reply := HttpError 404 "404 page not found".

Definition writeStateError (err : error) : witness_reply :=
  if errors_Is err ErrGovernedWitnessStateNotFound then http_error 503 err
  else if errors_Is err ErrGovernedWitnessStateConflict || errors_Is err ErrExternalHeadConflict
  then http_error 409 err
  else http_error 500 err.

(** What [handleHeadAdvance] makes of the loaded state. *)
Definition advance_state (policy : QuorumPolicyState) (journalID : string) (request : remoteAdvanceRequest)
    (state : GovernedWitnessState) : witness_reply + GovernedWitnessState :=
  let next := with_version "" (ra_Next request) in
  let advanced := {| ws_Protocol := ws_Protocol state; ws_Policy := ws_Policy state;
                     ws_Heads := <[journalID := next]> (ws_Heads state); ws_StoreVersion := ws_StoreVersion state |} in
  if negb (bool_decide (ws_Policy state = policy)) || negb (str_eqb (qp_Phase policy) QuorumPolicyPhaseActive)
  then inl (http_error 412 ErrQuorumPolicyMismatch)
  else match ws_Heads state !! journalID with
  | Some current =>
      if negb (str_eqb (eh_StoreVersion (ra_Expected request)) (ws_StoreVersion state)) ||
         negb (sameSemanticHead (ra_Expected request) current)
      then inl (http_error 409 ErrExternalHeadConflict)
      else if (eh_Sequence next <? eh_Sequence current) ||
              ((eh_Sequence next =? eh_Sequence current) && negb (sameSemanticHead next current))
      then inl (http_error 409 ErrExternalHeadConflict)
      else inr advanced
  | None =>
      if negb (remoteHeadWireIsZero (ra_Expected request)) then inl (http_error 409 ErrExternalHeadConflict)
      else if negb (eh_Sequence next =? 0) then inl (http_error 409 ErrExternalHeadConflict)
      else inr advanced
  end.

(** What [handlePolicyTransition] makes of the loaded state. *)
Definition transition_state (request : remotePolicyTransitionRequest) (state : GovernedWitnessState)
    : witness_reply + GovernedWitnessState :=
  if negb (bool_decide (ws_Policy state = rt_Expected request)) then inl (http_error 412 ErrQuorumPolicyMismatch)
  else match ValidateQuorumPolicyTransition (rt_Expected request) (rt_Next request) with
  | Some err => inl (http_error 412 err)
  | None =>
      match ws_Heads state !! TrimSpace (rt_JournalID request) with
      | None => inl http_NotFound
      | Some head =>
          if negb (str_eqb (eh_StoreVersion (rt_ExpectedHead request)) (ws_StoreVersion state)) ||
             negb (sameSemanticHead (rt_ExpectedHead request) head)
          then inl (http_error 409 ErrQuorumRotationContinuity)
          else inr {| ws_Protocol := ws_Protocol state; ws_Policy := rt_Next request;
                      ws_Heads := ws_Heads state; ws_StoreVersion := ws_StoreVersion state |}
      end
  end.

(** A handler up to its load: refuse the request, or go on to read the state. *)
Definition before_load (request : witness_request) : option witness_reply :=
  match request with
  | HeadLoad _ (Error err) | HeadAdvance _ (Error err) _ => Some (http_error 428 err)
  | HeadAdvance _ _ (Error err) | PolicyTransition (Error err) => Some (http_error 400 err)
  | HeadLoad _ (Ok _) | RotationObserve _ | CurrentPolicy => None
  | HeadAdvance journalID (Ok _) (Ok body) =>
      if negb (str_eqb (ra_Protocol body) remoteWitnessProtocolV1)
      then Some (HttpError 400 "remote witness protocol mismatch")
      else if negb (str_eqb (eh_JournalID (ra_Next body)) journalID)
      then Some (HttpError 400 "journal id mismatch")
      else None
  | PolicyTransition (Ok body) =>
      if negb (str_eqb (rt_Protocol body) remoteWitnessProtocolV1)
      then Some (HttpError 400 "remote witness protocol mismatch")
      else if str_eqb (TrimSpace (rt_JournalID body)) "" ||
              negb (str_eqb (eh_JournalID (rt_ExpectedHead body)) (TrimSpace (rt_JournalID body)))
      then Some (HttpError 400 "transition journal id mismatch")
      else None
  end.

(** After the load: answer, or write a new state and answer from what is saved. *)
Definition decide_request (request : witness_request) (state : GovernedWitnessState)
    : witness_reply + GovernedWitnessState :=
  let head_reply operation journalID :=
    match ws_Heads state !! journalID with
    | None => http_NotFound
    | Some head => HeadReply operation (with_version (ws_StoreVersion state) head) (ws_Policy state)
    end in
  match request with
  | HeadLoad journalID (Ok policy) =>
      if negb (bool_decide (ws_Policy state = policy)) || negb (str_eqb (qp_Phase policy) QuorumPolicyPhaseActive)
      then inl (http_error 412 ErrQuorumPolicyMismatch)
      else inl (head_reply "load" journalID)
  | RotationObserve journalID => inl (head_reply "rotation-observe" journalID)
  | CurrentPolicy => inl (PolicyReply "policy-current" (ws_Policy state))
  | HeadAdvance journalID (Ok policy) (Ok body) => advance_state policy journalID body state
  | PolicyTransition (Ok body) => transition_state body state
  | HeadLoad _ (Error err) | HeadAdvance _ (Error err) _ | HeadAdvance _ _ (Error err) | PolicyTransition (Error err) =>
      inl (http_error 400 err)
  end.

Definition saved_reply (request : witness_request) (saved : GovernedWitnessState) : witness_reply :=
  match request with
  | HeadAdvance journalID _ _ =>
      HeadReply "advance" (with_version (ws_StoreVersion saved) (default zero_Head (ws_Heads saved !! journalID)))
        (ws_Policy saved)
  | _ => PolicyReply "policy-transition" (ws_Policy saved)
  end.

(** [ServeHTTP] on a request with a nonce and a known path. *)
Definition ServeHTTP {W} `{!GovernedWitnessStateStore W} (request : witness_request) (w : W) : witness_reply * W :=
  match before_load request with
  | Some refused => (refused, w)
  | None =>
      let '(loaded, w) := ws_Load w in
      match loaded with
      | Error err => (writeStateError err, w)
      | Ok state =>
          match decide_request request state with
          | inl reply => (reply, w)
          | inr next =>
              let '(saved, w) := ws_CompareAndSwap (ws_StoreVersion state) next w in
              match saved with
              | Error err => (writeStateError err, w)
              | Ok saved => (saved_reply request saved, w)
              end
          end
      end
  end.

(** * Facts *)

(** ** The Kubernetes store keeps the laws *)

(** Optimistic concurrency of the API server: every write gives the object a
    version of its own, an update needs the current version, a create an absent
    object; a write that reports an error may have happened or not. *)
Class ConfigMapLaws (C : Type) `{!ConfigMapClient C} : Type := {
  cm_history : C → list (string * GovernedWitnessState);
  cm_versions c : NoDup (cm_history c).*1;
  cm_get_newest c r c' : cm_Get c = (r, c') → cm_history c' = cm_history c ∧
    match r with
    | inr m => ∃ s, head (cm_history c) = Some (cm_ResourceVersion m, s) ∧ cm_State m = Some (Ok s)
    | inl _ => True
    end;
  cm_create_new s c r c' : cm_Create s c = (r, c') →
    (cm_history c' = cm_history c ∧ ∃ e, r = inl e) ∨
    ∃ v, cm_history c' = (v, s) :: cm_history c ∧ cm_history c = [] ∧ match r with inr v' => v' = v | inl _ => True end;
  cm_update_current v s c r c' : cm_Update v s c = (r, c') →
    (cm_history c' = cm_history c ∧ ∃ e, r = inl e) ∨
    ∃ v', cm_history c' = (v', s) :: cm_history c ∧ fst <$> head (cm_history c) = Some v ∧
          match r with inr v'' => v'' = v' | inl _ => True end }.

Lemma semantic_with_version v h : semanticExternalHead (with_version v h) = semanticExternalHead h.
Proof. done. Qed.

Lemma semantic_heads_stamp v s : semanticExternalHead <$> ws_Heads (stamp v s) = semanticExternalHead <$> ws_Heads s.
Proof.
  apply map_eq. intros i. rewrite !lookup_fmap. cbn [stamp ws_Heads]. rewrite lookup_fmap. by destruct (ws_Heads s !! i).
Qed.

Lemma stamp_stamp v w s : stamp v (stamp w s) = stamp v s.
Proof.
  unfold stamp. cbn [ws_Protocol ws_Policy ws_Heads]. f_equal. apply map_eq. intros i. rewrite !lookup_fmap.
  by destruct (ws_Heads s !! i).
Qed.

#[export] Program Instance Kubernetes_store_laws C `{!ConfigMapClient C, !ConfigMapLaws C} : WitnessStoreLaws C :=
  {| history c := (λ vs, stamp vs.1 vs.2) <$> cm_history c |}.
Next Obligation.
  intros C ? ? c. generalize (cm_versions c). cbv beta. generalize (cm_history c). intros l.
  assert (l.*1 = ws_StoreVersion <$> ((λ vs, stamp vs.1 vs.2) <$> l)) as ->; [|done].
  induction l as [|vs l IH]; [done|]. simpl. by f_equal.
Qed.
Next Obligation.
  intros C ? ? c r c'. cbn [ws_Load KubernetesGovernedWitnessStateStore]. unfold KubernetesGovernedWitnessStateStore_Load.
  destruct (cm_Get c) as [got c1] eqn:Hg. apply cm_get_newest in Hg as [Hh Hg]. destruct got as [err|m].
  - by destruct err; intros [= <- <-]; rewrite Hh.
  - destruct Hg as (s & Hs & ->). destruct (validateGovernedWitnessState s); intros [= <- <-]; rewrite Hh; [done|].
    split; [done|]. destruct (cm_history c) as [|[v s'] l]; [done|]. by injection Hs as -> ->.
Qed.
Next Obligation.
  intros C ? ? v s c r c'. cbn [ws_CompareAndSwap KubernetesGovernedWitnessStateStore].
  unfold KubernetesGovernedWitnessStateStore_CompareAndSwap.
  set (next := stamp "" _). destruct (validateGovernedWitnessState next); [intros [= <- <-]; by left|].
  assert (ws_Policy next = ws_Policy s ∧ semanticExternalHead <$> ws_Heads next = semanticExternalHead <$> ws_Heads s)
    as [Hp Hh] by (split; [done|exact (semantic_heads_stamp "" _)]).
  assert (∀ u, stamp u next = stamp (ws_StoreVersion (stamp u next)) (stamp u next)) as Hst.
  { intros u. by rewrite stamp_stamp. }
  destruct (blank v) eqn:Hv.
  - destruct (cm_Create next c) as [saved c1] eqn:Hc. apply cm_create_new in Hc as [[Hh1 [e ->]]|(u & Hu & Hn & Hr)].
    + intros [= <- <-]. left. by rewrite Hh1.
    + destruct saved as [e|u']; intros [= <- <-]; right; exists (stamp u next); rewrite Hu, Hn;
        (split_and!; [done|done|done|exact (eq_trans (semantic_heads_stamp _ next) Hh)|done|by subst]).
  - destruct (cm_Update v next c) as [saved c1] eqn:Hc. apply cm_update_current in Hc as [[Hh1 [e ->]]|(u & Hu & Hn & Hr)].
    + intros [= <- <-]. left. by rewrite Hh1.
    + destruct (cm_history c) as [|[v' s'] l]; [done|]. injection Hn as ->.
      destruct saved as [e|u']; intros [= <- <-]; right; exists (stamp u next); rewrite Hu;
        (split_and!; [done|done|done|exact (eq_trans (semantic_heads_stamp _ next) Hh)|done|by subst]).
Qed.

(** ** Policies only move forward *)

(** An ACTIVE policy of an epoch comes after the JOINT policy that opens it. *)
Definition policy_rank (p : QuorumPolicyState) : Z :=
  2 * qp_GenesisEpoch p + if str_eqb (qp_Phase p) QuorumPolicyPhaseActive then 1 else 0.

Lemma transition_advances p q : ValidateQuorumPolicyTransition p q = None →
  q = p ∨ policy_rank p < policy_rank q.
Proof.
  unfold ValidateQuorumPolicyTransition, policy_rank. case_bool_decide; [by left|].
  destruct (validateQuorumPolicyState p); [done|]. destruct (validateQuorumPolicyState q); [done|]. intros H1. right.
  destruct (str_eqb (qp_Phase p) QuorumPolicyPhaseActive) eqn:Hpa; split_bool;
    destruct (str_eqb (qp_Phase q) QuorumPolicyPhaseJoint) eqn:Hqj; split_bool; cbn [andb] in H1.
  - destruct (Z.leb_spec (qp_GenesisEpoch q) (qp_GenesisEpoch p)); [done|].
    rewrite Hqj. change (str_eqb QuorumPolicyPhaseJoint QuorumPolicyPhaseActive) with false. cbv iota. lia.
  - by rewrite Hpa in H1.
  - rewrite Hqj in H1. destruct (str_eqb (qp_Phase p) QuorumPolicyPhaseJoint); done.
  - destruct (str_eqb (qp_Phase p) QuorumPolicyPhaseJoint); [|done].
    destruct (str_eqb (qp_Phase q) QuorumPolicyPhaseActive) eqn:Hqa; [|done]. cbn [andb] in H1.
    destruct (Z.eqb_spec (qp_GenesisEpoch q) (qp_GenesisEpoch p)); [|done]. cbv iota. lia.
Qed.

(** ** How the state of a witness evolves *)

Definition head_le (h h' : quorumSemanticHead) : Prop :=
  qh_Sequence h ≤ qh_Sequence h' ∧
  (qh_Sequence h = qh_Sequence h' → qh_HeadHash h = qh_HeadHash h' ∧ qh_KeyID h = qh_KeyID h').

Abbreviation semantic_heads s := (semanticExternalHead <$> ws_Heads s).

(** [a] is the older state: the policy is the same or a later one, no head is
    lost or goes back, and outside ACTIVE no head moves under one policy. *)
Definition evolves (a b : GovernedWitnessState) : Prop :=
  (ws_Policy b = ws_Policy a ∨ policy_rank (ws_Policy a) < policy_rank (ws_Policy b)) ∧
  (∀ id h, semantic_heads a !! id = Some h → ∃ h', semantic_heads b !! id = Some h' ∧ head_le h h') ∧
  (qp_Phase (ws_Policy a) ≠ QuorumPolicyPhaseActive → ws_Policy b = ws_Policy a → semantic_heads b = semantic_heads a).

#[export] Instance head_le_preorder : PreOrder head_le.
Proof.
  unfold head_le. split; [done|]. intros a b c [L1 S1] [L2 S2]. split; [lia|]. intros E.
  destruct S1 as [-> ->]; [lia|]. apply S2. lia.
Qed.

#[export] Instance evolves_preorder : PreOrder evolves.
Proof.
  split; [intros a; split_and!; [by left|intros id h Hh; by exists h|done]|].
  intros a b c (P1 & H1 & F1) (P2 & H2 & F2). split_and!.
  - destruct P1 as [E1|], P2 as [E2|]; [left; congruence|right; congruence|right; congruence|right; lia].
  - intros id h (h' & Hb & Hle)%H1. apply H2 in Hb as (h'' & Hc & Hle'). exists h''. split; [done|]. by etransitivity.
  - intros Ha Hc. assert (ws_Policy b = ws_Policy a) as Hb.
    { destruct P1 as [|P1]; [done|]. destruct P2 as [P2|P2]; [congruence|]. rewrite Hc in P2. lia. }
    rewrite F2, F1; [done|..]; congruence.
Qed.

(** One accepted write, up to the versions the store stamps. *)
Definition witness_step (a b : GovernedWitnessState) : Prop :=
  ∃ request next, before_load request = None ∧ decide_request request a = inr next ∧
    ws_Policy b = ws_Policy next ∧ semantic_heads b = semantic_heads next.

Lemma advance_state_extends policy id r s next : advance_state policy id r s = inr next →
  ws_Policy s = policy ∧ qp_Phase policy = QuorumPolicyPhaseActive ∧ ws_Policy next = ws_Policy s ∧
  ws_Heads next = <[id := with_version "" (ra_Next r)]> (ws_Heads s) ∧
  extends (semantic_heads s !! id) (semanticExternalHead (ra_Expected r)) (semanticExternalHead (ra_Next r)).
Proof.
  unfold advance_state. rewrite lookup_fmap. case_bool_decide as Hp; [|done]. cbn [negb orb].
  destruct (str_eqb (qp_Phase policy) _) eqn:Ha; split_bool; [|done]. cbn [negb].
  destruct (ws_Heads s !! id) as [c|]; simpl.
  - destruct (str_eqb (eh_StoreVersion _) _); [|done]. cbn [negb orb].
    destruct (sameSemanticHead (ra_Expected r) c) eqn:Hs; [|done]. apply sameSemanticHead_true in Hs. cbn [negb].
    destruct (Z.ltb_spec (eh_Sequence (ra_Next r)) (eh_Sequence c)); [done|]. cbn [orb].
    destruct (Z.eqb_spec (eh_Sequence (ra_Next r)) (eh_Sequence c)) as [Heq|Hne]; cbn [andb].
    + destruct (sameSemanticHead _ c) eqn:Hn; [|done]. apply sameSemanticHead_true in Hn. intros [= <-].
      injection Hs as ? ? ? ?. injection Hn as ? ? ? ?. split_and!; done || lia.
    + intros [= <-]. injection Hs as ? ? ? ?. split_and!; done || lia.
  - unfold remoteHeadWireIsZero. case_bool_decide as Hz; [|done]. cbn [negb].
    destruct (Z.eqb_spec (eh_Sequence (ra_Next r)) 0); [|done]. intros [= <-]. rewrite Hz. by split_and!.
Qed.

Lemma witness_step_evolves a b : witness_step a b → evolves a b.
Proof.
  intros (req & next & _ & Hd & Hp & Hh).
  destruct req as [?[?|?]|?|id [policy|?] [r|?]| |[r|?]]; try discriminate Hd; simpl in Hd;
    [by destruct (negb _ || negb _)|..].
  - apply advance_state_extends in Hd as (Hpol & Hact & Hnp & Hnh & Hext). unfold evolves. rewrite Hp, Hnp, Hh, Hnh.
    split_and!; [by left| |congruence]. intros id' h Hid. rewrite fmap_insert.
    destruct (decide (id = id')) as [<-|Hne]; [|rewrite lookup_insert_ne by done; by exists h].
    rewrite lookup_insert_eq. eexists. split; [done|]. rewrite Hid in Hext. destruct Hext as (? & ? & ? & ? & Hs).
    split; [done|]. intros E. by destruct Hs.
  - unfold transition_state in Hd. case_bool_decide as He; [|done]. cbn [negb] in Hd.
    destruct (ValidateQuorumPolicyTransition _ _) eqn:Ht; [done|]. destruct (ws_Heads a !! _); [|done].
    destruct (_ || _); [done|]. injection Hd as <-. simpl in *. rewrite <- He in Ht.
    apply transition_advances in Ht. unfold evolves. rewrite Hp, Hh. split_and!; [done| |done]. intros id h Hid. by exists h.
Qed.

(** * Concurrent handlers

    Each handler reads the state once and writes it at most once; between the
    two, other handlers run, the process may die, and a reply may be lost. *)

Section Concurrency.
Context {W : Type} `{!GovernedWitnessStateStore W, !WitnessStoreLaws W}.

(** A handler between its load and its write: the request, the loaded state and
    the state to write. *)
Record witness_system : Type := {
  sy_World : W;
  sy_Pending : gmap nat (witness_request * GovernedWitnessState * GovernedWitnessState) }.

Inductive system_step : witness_system → witness_system → Prop :=
  | step_answer w w' r pending : ws_Load w = (r, w') →
      system_step {| sy_World := w; sy_Pending := pending |} {| sy_World := w'; sy_Pending := pending |}
  | step_load w w' i request state next pending :
      before_load request = None → ws_Load w = (Ok state, w') → decide_request request state = inr next →
      pending !! i = None →
      system_step {| sy_World := w; sy_Pending := pending |}
                  {| sy_World := w'; sy_Pending := <[i := (request, state, next)]> pending |}
  | step_swap w w' r i request state next pending :
      pending !! i = Some (request, state, next) → ws_CompareAndSwap (ws_StoreVersion state) next w = (r, w') →
      system_step {| sy_World := w; sy_Pending := pending |} {| sy_World := w'; sy_Pending := delete i pending |}
  | step_die w i pending :
      system_step {| sy_World := w; sy_Pending := pending |} {| sy_World := w; sy_Pending := delete i pending |}.

(** A whole request served without interruption is steps of the system. *)
Lemma ServeHTTP_steps request w reply w' i pending : ServeHTTP request w = (reply, w') → pending !! i = None →
  rtc system_step {| sy_World := w; sy_Pending := pending |} {| sy_World := w'; sy_Pending := pending |}.
Proof.
  intros H Hi. unfold ServeHTTP in H. destruct (before_load request) eqn:Ha; [injection H as <- <-; reflexivity|].
  destruct (ws_Load w) as [loaded w1] eqn:Hl.
  assert (system_step {| sy_World := w; sy_Pending := pending |} {| sy_World := w1; sy_Pending := pending |}) as Hans
    by by eapply step_answer.
  destruct loaded as [state|err]; [|injection H as <- <-; by apply rtc_once].
  destruct (decide_request request state) as [r|next] eqn:Hd; [injection H as <- <-; by apply rtc_once|].
  destruct (ws_CompareAndSwap _ next w1) as [saved w2] eqn:Hs.
  assert (w2 = w') as -> by (destruct saved; by injection H).
  eapply rtc_l; [by eapply (step_load _ _ i)|]. eapply rtc_l; [|reflexivity].
  rewrite <- (delete_insert_id pending i (request, state, next) Hi) at 2.
  eapply step_swap; [by apply lookup_insert_eq|done].
Qed.

(** Neighbours in the history are one accepted write apart. *)
Fixpoint stepwise (l : list GovernedWitnessState) : Prop :=
  match l with
  | b :: (a :: _) as l => witness_step a b ∧ stepwise l
  | _ => True
  end.

Lemma stepwise_cons b a l : head l = Some a → witness_step a b → stepwise l → stepwise (b :: l).
Proof. destruct l; [done|]. by intros [= ->]. Qed.

Lemma stepwise_evolves l1 b l2 a l3 : stepwise (l1 ++ b :: l2 ++ a :: l3) → evolves a b.
Proof.
  intros H. assert (stepwise (b :: l2 ++ a :: l3)) as Hb.
  { induction l1 as [|x l1 IH]; [done|]. apply IH. simpl in H. by destruct l1; destruct H. }
  clear H. revert b Hb. induction l2 as [|x l2 IH]; intros b [Hs Hb]; [by apply witness_step_evolves|].
  transitivity x; [by apply IH|by apply witness_step_evolves].
Qed.

(** Every pending write was decided on a recorded state. *)
Definition system_inv (s : witness_system) : Prop :=
  stepwise (history (sy_World s)) ∧
  ∀ i request state next, sy_Pending s !! i = Some (request, state, next) →
    state ∈ history (sy_World s) ∧ before_load request = None ∧ decide_request request state = inr next.

Lemma same_version w a b : a ∈ history w → b ∈ history w → ws_StoreVersion a = ws_StoreVersion b → a = b.
Proof.
  intros [i Ha]%list_elem_of_lookup [j Hb]%list_elem_of_lookup Hv.
  assert (i = j) as ->; [|congruence].
  eapply (NoDup_lookup (ws_StoreVersion <$> history w)); [apply history_versions|..]; rewrite list_lookup_fmap.
  - by rewrite Ha.
  - rewrite Hb. simpl. by rewrite Hv.
Qed.

(** A write on top of the version it was decided on is one accepted write. *)
Lemma swap_inv w request state next r w' : state ∈ history w → before_load request = None →
  decide_request request state = inr next → ws_CompareAndSwap (ws_StoreVersion state) next w = (r, w') →
  history w' = history w ∨ ∃ saved, history w' = saved :: history w ∧ head (history w) = Some state ∧ witness_step state saved.
Proof.
  intros Hst Ha Hd [[Hw _]|(saved & Hw & _ & Hp & Hh & Hv & _)]%swap_on_top; [by left|right].
  exists saved. split; [done|]. assert (head (history w) = Some state) as Hhead.
  { destruct (history w) as [|c l] eqn:Hc; [by apply not_elem_of_nil in Hst|]. simpl in *. f_equal.
    apply (same_version w); rewrite ?Hc; [left|done|done]. }
  split; [done|]. by exists request, next.
Qed.

Lemma system_step_inv s s' : system_step s s' → system_inv s → system_inv s' ∧
  ∃ recent, history (sy_World s') = recent ++ history (sy_World s).
Proof.
  intros Hs [Hh Hp]. destruct Hs as [w w' r pending Hl|w w' i req st next pending Ha Hl Hd Hi
                                    |w w' r i req st next pending Hi Hw|w i pending]; simpl in *.
  - apply load_newest in Hl as [Hw _]. unfold system_inv. simpl. rewrite Hw. split; [done|by exists []].
  - apply load_newest in Hl as [Hw Hn]. unfold system_inv. simpl. rewrite Hw. split; [|by exists []].
    split; [done|]. intros j q st' nx. destruct (decide (i = j)) as [<-|Hne]; [|rewrite lookup_insert_ne by done; apply Hp].
    rewrite lookup_insert_eq. intros [= <- <- <-]. split; [|done].
    destruct (history w); [done|]. injection Hn as ->. left.
  - destruct (Hp _ _ _ _ Hi) as (Hst & Ha & Hd).
    destruct (swap_inv _ _ _ _ _ _ Hst Ha Hd Hw) as [Hw'|(saved & Hw' & Hn & Hstep)];
      unfold system_inv; simpl; rewrite Hw'; (split; [split|]).
    + done.
    + intros j q st' nx [_ Hj]%lookup_delete_Some. by apply (Hp j).
    + by exists [].
    + by apply (stepwise_cons _ st).
    + intros j q st' nx [_ Hj]%lookup_delete_Some. destruct (Hp _ _ _ _ Hj) as (? & ? & ?).
      split_and!; [by right|done..].
    + by exists [saved].
  - split; [|by exists []]. unfold system_inv. simpl. split; [done|]. intros j q st' nx [_ Hj]%lookup_delete_Some.
    by apply (Hp j).
Qed.

Lemma system_reachable_inv s s' : rtc system_step s s' → system_inv s → system_inv s' ∧
  ∃ recent, history (sy_World s') = recent ++ history (sy_World s).
Proof.
  induction 1 as [s|s1 s2 s3 Hs _ IH]; [by intros; split; [|exists []]|]. intros Hi.
  destruct (system_step_inv _ _ Hs Hi) as [Hi2 [l1 Hl1]]. destruct (IH Hi2) as [Hi3 [l2 Hl2]].
  split; [done|]. exists (l2 ++ l1). by rewrite Hl2, Hl1, app_assoc.
Qed.

(** ** What a reply says of the history before and after *)

Definition truthful (h h' : list GovernedWitnessState) (request : witness_request) (reply : witness_reply) : Prop :=
  match reply with
  | HttpError _ _ => h' = h ∨ ∃ s, h' = s :: h
  | HeadReply op hd p =>
      match request with
      | HeadLoad id (Ok policy) =>
          op = "load" ∧ p = policy ∧ qp_Phase policy = QuorumPolicyPhaseActive ∧ h' = h ∧
          ∃ s, head h = Some s ∧ ws_Policy s = policy ∧ eh_StoreVersion hd = ws_StoreVersion s ∧
               semantic_heads s !! id = Some (semanticExternalHead hd)
      | RotationObserve id =>
          op = "rotation-observe" ∧ h' = h ∧
          ∃ s, head h = Some s ∧ ws_Policy s = p ∧ eh_StoreVersion hd = ws_StoreVersion s ∧
               semantic_heads s !! id = Some (semanticExternalHead hd)
      | HeadAdvance id (Ok policy) (Ok body) =>
          op = "advance" ∧ p = policy ∧ qp_Phase policy = QuorumPolicyPhaseActive ∧
          semanticExternalHead hd = semanticExternalHead (ra_Next body) ∧
          ∃ s s', head h = Some s ∧ h' = s' :: h ∧ ws_Policy s = policy ∧ ws_Policy s' = policy ∧
            eh_StoreVersion hd = ws_StoreVersion s' ∧
            semantic_heads s' = <[id := semanticExternalHead hd]> (semantic_heads s) ∧
            extends (semantic_heads s !! id) (semanticExternalHead (ra_Expected body)) (semanticExternalHead hd)
      | _ => False
      end
  | PolicyReply op p =>
      match request with
      | CurrentPolicy => op = "policy-current" ∧ h' = h ∧ ∃ s, head h = Some s ∧ ws_Policy s = p
      | PolicyTransition (Ok body) =>
          op = "policy-transition" ∧ p = rt_Next body ∧ ValidateQuorumPolicyTransition (rt_Expected body) p = None ∧
          ∃ s s', head h = Some s ∧ h' = s' :: h ∧ ws_Policy s = rt_Expected body ∧ ws_Policy s' = p ∧
            semantic_heads s' = semantic_heads s ∧
            semantic_heads s !! TrimSpace (rt_JournalID body) = Some (semanticExternalHead (rt_ExpectedHead body))
      | _ => False
      end
  end.

Lemma admit_refuses request reply : before_load request = Some reply → ∃ status text, reply = HttpError status text.
Proof.
  unfold before_load, http_error. destruct request as [? []| |? [] []| |[]]; repeat case_match; intros; simplify_eq; eauto.
Qed.

Lemma truthful_error h h' request err : (h' = h ∨ ∃ s, h' = s :: h) → truthful h h' request (writeStateError err).
Proof. intros. unfold writeStateError, http_error. by repeat case_match. Qed.

Lemma advance_state_error policy id body s r : advance_state policy id body s = inl r → ∃ status text, r = HttpError status text.
Proof. unfold advance_state, http_error. repeat case_match; intros; simplify_eq; eauto. Qed.

Lemma transition_state_error body s r : transition_state body s = inl r → ∃ status text, r = HttpError status text.
Proof. unfold transition_state, http_error, http_NotFound. repeat case_match; intros; simplify_eq; eauto. Qed.

Lemma decided_reply s h request reply : head h = Some s → before_load request = None →
  decide_request request s = inl reply → truthful h h request reply.
Proof.
  intros Hn Ha Hd. destruct request as [id [policy|]|id|id [policy|] [body|]| |[body|]]; try discriminate Ha; simpl in Hd.
  - case_bool_decide as Hp; [|injection Hd as <-; by left].
    destruct (str_eqb (qp_Phase policy) _) eqn:Hact; [|injection Hd as <-; by left]. split_bool. injection Hd as <-.
    destruct (ws_Heads s !! id) as [hd|] eqn:Hid; [|by left]. simpl. split_and!; [done..|].
    exists s. rewrite lookup_fmap, Hid. by split_and!.
  - injection Hd as <-. destruct (ws_Heads s !! id) as [hd|] eqn:Hid; [|by left]. simpl. split_and!; [done..|].
    exists s. rewrite lookup_fmap, Hid. by split_and!.
  - apply advance_state_error in Hd as (? & ? & ->). by left.
  - injection Hd as <-. simpl. split_and!; [done..|]. by exists s.
  - apply transition_state_error in Hd as (? & ? & ->). by left.
Qed.

Lemma saved_reply_true s saved next h request : head h = Some s → before_load request = None →
  decide_request request s = inr next → ws_Policy saved = ws_Policy next → semantic_heads saved = semantic_heads next →
  truthful h (saved :: h) request (saved_reply request saved).
Proof.
  intros Hn Ha Hd Hp Hh. destruct request as [id [policy|]|id|id [policy|] [body|]| |[body|]]; try discriminate Ha;
    simpl in Hd; [by destruct (negb _ || negb _)|done| |done|].
  - apply advance_state_extends in Hd as (Hpol & Hact & Hnp & Hnh & Hext).
    assert (ws_Heads saved !! id ≠ None) as Hs.
    { intros E. assert (semantic_heads saved !! id = None) as E' by (by rewrite lookup_fmap, E).
      rewrite Hh, Hnh, lookup_fmap, lookup_insert_eq in E'. done. }
    destruct (ws_Heads saved !! id) as [hd|] eqn:Hid; [|done].
    assert (semanticExternalHead hd = semanticExternalHead (ra_Next body)) as Hsem.
    { assert (semantic_heads saved !! id = Some (semanticExternalHead hd)) as E' by (by rewrite lookup_fmap, Hid).
      rewrite Hh, Hnh, lookup_fmap, lookup_insert_eq in E'. symmetry. exact (inj Some _ _ E'). }
    cbn [truthful saved_reply]. rewrite Hid. change (from_option Datatypes.id zero_Head (Some hd)) with hd. rewrite Hp, Hnp, Hpol, semantic_with_version. split_and!; [done..|]. exists s, saved.
    rewrite Hh, Hnh, fmap_insert, Hsem. split_and!; try done; congruence.
  - unfold transition_state in Hd. case_bool_decide as He; [|done]. cbn [negb] in Hd.
    destruct (ValidateQuorumPolicyTransition _ _) eqn:Ht; [done|]. destruct (ws_Heads s !! _) as [hd|] eqn:Hid; [|done].
    destruct (str_eqb _ _); [|done]. destruct (sameSemanticHead _ _) eqn:Hs; [|done].
    apply sameSemanticHead_true in Hs. injection Hd as <-. simpl in *. rewrite Hp. split_and!; [done..|].
    exists s, saved. rewrite lookup_fmap, Hid, Hs. by split_and!.
Qed.

(** * Properties *)

(** C28: However the handlers of a witness interleave, die or lose replies, the
    states it records form one history: it only grows, neighbours are one
    accepted request apart, and from any recorded state to any later one the
    policy is the same or a strictly later one, no journal loses its head or
    moves it back or sideways, and no head moves while one policy that is not
    ACTIVE stands. *)
Theorem witness_history_is_linear w s : stepwise (history w) →
  rtc system_step {| sy_World := w; sy_Pending := ∅ |} s →
  (∃ recent, history (sy_World s) = recent ++ history w) ∧ stepwise (history (sy_World s)) ∧
  ∀ l1 b l2 a l3, history (sy_World s) = l1 ++ b :: l2 ++ a :: l3 → evolves a b.
Proof.
  intros Hw Hs. apply system_reachable_inv in Hs as [[Hh _] Hr]; [|by split].
  split_and!; [done..|]. intros l1 b l2 a l3 Hl. rewrite Hl in Hh. by eapply stepwise_evolves.
Qed.

(** A reply never lies ([truthful]): a served load or observation reports
    the head the newest state records, a load only under the ACTIVE policy the
    client named; a served advance under the client's ACTIVE policy replaced the
    newest head by one that extends it, and its reply carries that head and the
    version of the new state; a served transition moved the expected policy to
    the next one over unchanged heads; and an error leaves the history alone,
    or comes after the one write, when the store lost its reply. *)
Theorem witness_replies_are_true request w reply w' : ServeHTTP request w = (reply, w') →
  truthful (history w) (history w') request reply.
Proof.
  unfold ServeHTTP. destruct (before_load request) as [refused|] eqn:Ha.
  { intros [= <- <-]. apply admit_refuses in Ha as (? & ? & ->). by left. }
  destruct (ws_Load w) as [loaded w1] eqn:Hl. apply load_newest in Hl as [Hw Hn]. rewrite <- Hw in Hn |- *.
  destruct loaded as [st|err]; [|intros [= <- <-]; by apply truthful_error; left].
  destruct (decide_request request st) as [r|next] eqn:Hd.
  - intros [= <- <-]. by apply (decided_reply st).
  - destruct (ws_CompareAndSwap _ next w1) as [saved w2] eqn:Hs. intros H.
    assert (w2 = w') as -> by (destruct saved; by injection H).
    apply swap_on_top in Hs as [[Hw' Hf]|(s & Hw' & _ & Hp & Hh & _ & Hr)]; destruct saved as [s'|err].
    + done.
    + injection H as <-. apply truthful_error. by left.
    + subst s'. injection H as <-. rewrite Hw'. by apply (saved_reply_true st s next).
    + injection H as <-. apply truthful_error. right. by exists s.
Qed.
End Concurrency.

(** * Witnesses *)

(** An API server that keeps every state it was given; the position of a state
    is its version. *)
Fixpoint versioned (l : list GovernedWitnessState) : list (string * GovernedWitnessState) :=
  match l with
  | [] => []
  | s :: l => (pretty (length l), s) :: versioned l
  end.

Record memory_server : Type := { ms_States : list GovernedWitnessState }.

Definition memory_write (s : GovernedWitnessState) (c : memory_server) : (api_error + string) * memory_server :=
  (inr (pretty (length (ms_States c))), {| ms_States := s :: ms_States c |}).

#[export] Instance memory_client : ConfigMapClient memory_server := {|
  cm_Get c := (match versioned (ms_States c) with
               | [] => inl ApiNotFound
               | (v, s) :: _ => inr {| cm_ResourceVersion := v; cm_State := Some (Ok s) |}
               end, c);
  cm_Create s c := match ms_States c with [] => memory_write s c | _ => (inl ApiAlreadyExists, c) end;
  cm_Update v s c := match versioned (ms_States c) with
                     | (v', _) :: _ => if str_eqb v v' then memory_write s c else (inl ApiConflict, c)
                     | [] => (inl ApiNotFound, c)
                     end |}.

Lemma versioned_fst l v : v ∈ (versioned l).*1 → ∃ n : nat, (n < length l)%nat ∧ v = pretty n.
Proof.
  induction l as [|s l IH]; simpl; [by intros ?%not_elem_of_nil|].
  intros [->|(n & Hn & ->)%IH]%elem_of_cons; [exists (length l)|exists n]; (split; [lia|done]).
Qed.

#[export] Program Instance memory_client_laws : ConfigMapLaws memory_server := {| cm_history c := versioned (ms_States c) |}.
Next Obligation.
  intros [l]. simpl. induction l as [|s l IH]; simpl; constructor; [|done].
  intros (n & Hn & Hv)%versioned_fst. apply (inj pretty) in Hv. lia.
Qed.
Next Obligation.
  intros [l] r c'. simpl. intros [= <- <-]. split; [done|]. destruct l as [|s l]; [done|]. by exists s.
Qed.
Next Obligation.
  intros s [l] r c'. simpl. destruct l as [|x l]; intros [= <- <-]; [right|left; split; [done|by eexists]].
  by exists (pretty 0%nat).
Qed.
Next Obligation.
  intros v s [l] r c'. simpl. destruct l as [|x l]; simpl; [intros [= <- <-]; left; split; [done|by eexists]|].
  destruct (str_eqb v _) eqn:Hv; split_bool; intros [= <- <-]; [right|left; split; [done|by eexists]].
  exists (pretty (S (length l))). by subst.
Qed.

Definition sample_digest (c : ascii) : string := "sha256:" +:+ string_of_bytes (replicate 64 (N_of_ascii c)).

Definition sample_policy (phase : string) (epoch : Z) (hash from to : string) : QuorumPolicyState := {|
  qp_Phase := phase; qp_GenesisEpoch := epoch; qp_PolicyHash := hash; qp_FromPolicyHash := from; qp_ToPolicyHash := to |}.

Definition policy_one : QuorumPolicyState := sample_policy "ACTIVE" 1 (sample_digest "a") "" "".
Definition policy_joint : QuorumPolicyState :=
  sample_policy "JOINT_FROZEN" 2 (sample_digest "c") (sample_digest "a") (sample_digest "b").

Definition sample_witness : memory_server := (InitializeGovernedWitnessState policy_one {| ms_States := [] |}).2.

Definition enroll : witness_request := HeadAdvance "j" (Ok policy_one)
  (Ok {| ra_Protocol := remoteWitnessProtocolV1; ra_Expected := zero_Head;
         ra_Next := {| eh_JournalID := "j"; eh_Sequence := 0; eh_HeadHash := ""; eh_KeyID := "k"; eh_StoreVersion := "" |} |}).

Definition freeze : witness_request := PolicyTransition (Ok {|
  rt_Protocol := remoteWitnessProtocolV1; rt_Expected := policy_one; rt_Next := policy_joint; rt_JournalID := "j";
  rt_ExpectedHead := {| eh_JournalID := "j"; eh_Sequence := 0; eh_HeadHash := ""; eh_KeyID := "k"; eh_StoreVersion := "1" |} |}).

Lemma frozen_witness_refuses :
  let w := (ServeHTTP freeze (ServeHTTP enroll sample_witness).2).2 in
  (ServeHTTP CurrentPolicy w).1 = PolicyReply "policy-current" policy_joint ∧
  (ServeHTTP (HeadLoad "j" (Ok policy_one)) w).1 = http_error 412 ErrQuorumPolicyMismatch.
Proof. vm_compute. done. Qed.

Lemma sample_advance : ServeHTTP enroll sample_witness =
  (HeadReply "advance" {| eh_JournalID := "j"; eh_Sequence := 0; eh_HeadHash := ""; eh_KeyID := "k"; eh_StoreVersion := "1" |}
     policy_one, (ServeHTTP enroll sample_witness).2).
Proof. vm_compute. reflexivity. Qed.

Example witness_history_is_linear_witness :
  let w := (ServeHTTP enroll sample_witness).2 in
  (∃ recent, history w = recent ++ history sample_witness) ∧ stepwise (history w).
Proof.
  destruct (witness_history_is_linear sample_witness
    {| sy_World := (ServeHTTP enroll sample_witness).2; sy_Pending := ∅ |}) as (H1 & H2 & _).
  - exact I.
  - by apply (ServeHTTP_steps enroll _ _ _ 0%nat ∅ sample_advance).
  - by split.
Defined.

Example witness_replies_are_true_witness :
  ∃ op hd p, (ServeHTTP enroll sample_witness).1 = HeadReply op hd p ∧
    truthful (history sample_witness) (history (ServeHTTP enroll sample_witness).2) enroll (HeadReply op hd p).
Proof.
  do 3 eexists. split; [rewrite sample_advance; reflexivity|].
  apply (witness_replies_are_true enroll sample_witness _ _ sample_advance).
Defined.
