(* ===== verification/Quorum.v ===== *)
(** * The quorum of witnesses

    Models [internal/journal/quorum_head_store.go] and the binding it is built
    from ([quorum_genesis_binding.go]): a head is read from, and advanced at, a
    strict majority of witnesses.  Loads and advances of the members run in
    goroutines whose answers arrive in any order; several clients may run
    advances at once, and an advance that has returned leaves its goroutines
    running.  A call is a state machine over the members' stores. *)

From S2P Require Import Prelude Format Json Base64 HeadStore Witness.
Local Open Scope Z_scope.

Definition ErrExternalHeadQuorum : error := ErrNew "external journal head quorum unavailable".

(** * The governed binding *)

Definition QuorumTrustPolicyVersion : string := "aegis-ege/quorum-trust-policy/v1".

Record QuorumTrustPolicyMember : Type := { tm_ID : string; tm_TrustManifestHash : string }.

Record QuorumTrustPolicy : Type := {
  tp_Protocol : string; tp_Threshold : Z; tp_Members : list QuorumTrustPolicyMember }.

Record GenesisQuorumBinding : Type := {
  gb_capabilityEnvelopeHash : string; gb_policyHash : string; gb_threshold : Z; gb_members : gmap string string }.

Definition validateGenesisQuorumBinding (binding : GenesisQuorumBinding) : option error :=
  let n := Z.of_nat (size (gb_members binding)) in
  guard_err ((n =? 0) || (gb_threshold binding <=? n ÷ 2) || (n <? gb_threshold binding) ||
             negb (validSHA256Digest (gb_policyHash binding)) ||
             negb (validSHA256Digest (gb_capabilityEnvelopeHash binding)))
    (ErrNew "valid Genesis quorum binding is required").

(** The loop of [normalizeQuorumTrustPolicy] over the members. *)
Fixpoint normalize_members (ms : list QuorumTrustPolicyMember) (seen : gset string) : result (list QuorumTrustPolicyMember) :=
  match ms with
  | [] => Ok []
  | m :: ms =>
      let id := TrimSpace (tm_ID m) in
      let hash := TrimSpace (tm_TrustManifestHash m) in
      if str_eqb id "" then Error (ErrNew "external witness quorum member id is required")
      else if negb (validSHA256Digest hash)
      then Error (ErrNew ("external witness quorum member " +:+ id +:+ " trust manifest hash must be sha256"))
      else if bool_decide (id ∈ seen)
      then Error (ErrNew ("duplicate external witness quorum member id " +:+ id))
      else ms ← normalize_members ms ({[id]} ∪ seen); Ok ({| tm_ID := id; tm_TrustManifestHash := hash |} :: ms)
  end.

Definition member_le (a b : QuorumTrustPolicyMember) : Prop := String.le (tm_ID a) (tm_ID b).
#[export] Instance member_le_dec a b : Decision (member_le a b).
Proof. unfold member_le. apply _. Defined.

(** [sort.Slice] by the ids, which the loop has made distinct. *)
Definition normalizeQuorumTrustPolicy (policy : QuorumTrustPolicy) : result QuorumTrustPolicy :=
  let n := Z.of_nat (length (tp_Members policy)) in
  if negb (str_eqb (tp_Protocol policy) QuorumTrustPolicyVersion)
  then Error (ErrNew ("external witness quorum protocol mismatch: got " +:+ tp_Protocol policy +:+ " want " +:+
                      QuorumTrustPolicyVersion))
  else if n =? 0 then Error (ErrNew "external witness quorum requires members")
  else if (tp_Threshold policy <=? n ÷ 2) || (n <? tp_Threshold policy)
  then Error (ErrNew ("external witness quorum threshold must be a strict majority: members=" +:+ pretty n +:+
                      " threshold=" +:+ pretty (tp_Threshold policy)))
  else members ← normalize_members (tp_Members policy) ∅;
       Ok {| tp_Protocol := tp_Protocol policy; tp_Threshold := tp_Threshold policy;
             tp_Members := merge_sort member_le members |}.

(** * The store *)

(** A configured store: the trust identity it exposes, if it does, and whether
    it enforces policy epochs. *)
Record member_handle : Type := { mh_TrustManifestHash : option string; mh_Fenced : bool }.

Record QuorumHeadMember : Type := { qm_ID : string; qm_Store : option member_handle }.

Record QuorumHeadStore : Type := {
  qs_members : list QuorumHeadMember; qs_threshold : Z; qs_policyHash : string;
  qs_capabilityEnvelopeHash : string; qs_governedPolicy : option QuorumPolicyState }.

Fixpoint check_members (ms : list QuorumHeadMember) (governed : gmap string string) (seen : gset string)
    : result (list QuorumHeadMember) :=
  match ms with
  | [] => Ok []
  | m :: ms =>
      let id := TrimSpace (qm_ID m) in
      if str_eqb id "" then Error (ErrNew "quorum witness member id is required")
      else match qm_Store m with
      | None => Error (ErrNew ("quorum witness " +:+ id +:+ " store is required"))
      | Some store =>
          if bool_decide (id ∈ seen) then Error (ErrNew ("duplicate quorum witness member id " +:+ id))
          else match governed !! id with
          | None => Error (ErrNew ("quorum witness " +:+ id +:+ " is not authorized by Genesis binding"))
          | Some want =>
              match mh_TrustManifestHash store with
              | None => Error (ErrNew ("quorum witness " +:+ id +:+ " store does not expose a governed trust identity"))
              | Some actual =>
                  if negb (str_eqb (TrimSpace actual) want)
                  then Error (ErrNew ("quorum witness " +:+ id +:+ " store trust manifest hash " +:+ TrimSpace actual +:+
                                      " does not match Genesis binding " +:+ want))
                  else ms ← check_members ms governed ({[id]} ∪ seen);
                       Ok ({| qm_ID := id; qm_Store := Some store |} :: ms)
              end
          end
      end
  end.

Definition quorum_member_le (a b : QuorumHeadMember) : Prop := String.le (qm_ID a) (qm_ID b).
#[export] Instance quorum_member_le_dec a b : Decision (quorum_member_le a b).
Proof. unfold quorum_member_le. apply _. Defined.

Definition NewQuorumHeadStore (members : list QuorumHeadMember) (binding : GenesisQuorumBinding) : result QuorumHeadStore :=
  match validateGenesisQuorumBinding binding with
  | Some err => Error err
  | None =>
      if negb (length members =? size (gb_members binding))%nat
      then Error (ErrNew ("quorum membership does not match Genesis binding: configured=" +:+
                          pretty (length members) +:+ " governed=" +:+ pretty (size (gb_members binding))))
      else copied ← check_members members (gb_members binding) ∅;
           Ok {| qs_members := merge_sort quorum_member_le copied; qs_threshold := gb_threshold binding;
                 qs_policyHash := gb_policyHash binding; qs_capabilityEnvelopeHash := gb_capabilityEnvelopeHash binding;
                 qs_governedPolicy := None |}
  end.

Definition is_fenced (m : QuorumHeadMember) : bool :=
  match qm_Store m with Some store => mh_Fenced store | None => false end.

Definition NewGovernedQuorumHeadStore (members : list QuorumHeadMember) (binding : GenesisQuorumBinding)
    (genesisEpoch : Z) : result QuorumHeadStore :=
  store ← NewQuorumHeadStore members binding;
  let policy := {| qp_Phase := QuorumPolicyPhaseActive; qp_GenesisEpoch := genesisEpoch;
                   qp_PolicyHash := gb_policyHash binding; qp_FromPolicyHash := ""; qp_ToPolicyHash := "" |} in
  match validateQuorumPolicyState policy with
  | Some err => Error err
  | None =>
      match filter (λ m, is_fenced m = false) (qs_members store) with
      | m :: _ => Error (ErrNew ("quorum witness " +:+ qm_ID m +:+ " does not enforce governed policy epochs"))
      | [] => Ok {| qs_members := qs_members store; qs_threshold := qs_threshold store;
                    qs_policyHash := qs_policyHash store; qs_capabilityEnvelopeHash := qs_capabilityEnvelopeHash store;
                    qs_governedPolicy := Some policy |}
      end
  end.

(** [QuorumPolicyFencedStore], over [ExternalHeadStore]. *)
Class QuorumPolicyFencedStore (W : Type) : Type := {
  LoadForQuorum : string → QuorumPolicyState → W → result ExternalHead * W;
  CompareAndAdvanceForQuorum : QuorumPolicyState → ExternalHead → ExternalHead → W → result ExternalHead * W;
  CurrentQuorumPolicy : W → result QuorumPolicyState * W;
  ObserveQuorumRotationHead : string → W → result ExternalHead * W;
  CompareAndTransitionQuorumPolicy :
    QuorumPolicyState → QuorumPolicyState → string → ExternalHead → W → option error * W }.

(** The fenced operations keep the promises of the plain ones. *)
Class FencedStoreLaws (W : Type) `{!ExternalHeadStore W, !HeadStoreLaws W, !QuorumPolicyFencedStore W} : Type := {
  fenced_load_recorded id policy w r w' : LoadForQuorum id policy w = (r, w') → recorded w' = recorded w ∧
    match r with
    | Ok h => recorded w !! id = Some (semanticExternalHead h)
    | Error e => errors_Is e ErrExternalHeadNotFound = true → recorded w !! id = None
    end;
  fenced_advance_recorded policy p n w r w' : CompareAndAdvanceForQuorum policy p n w = (r, w') →
    (recorded w' = recorded w ∧ is_ok r = false) ∨
    (extends (recorded w !! eh_JournalID n) (semanticExternalHead p) (semanticExternalHead n) ∧
     recorded w' = <[eh_JournalID n := semanticExternalHead n]> (recorded w) ∧
     match r with Ok h => semanticExternalHead h = semanticExternalHead n | Error _ => True end) }.

Record quorumMemberObservation : Type := {
  ob_member : QuorumHeadMember; ob_head : ExternalHead; ob_err : option error; ob_notFound : bool }.

Definition ob_id (ob : quorumMemberObservation) : string := qm_ID (ob_member ob).

Definition observationMatchesExpected (observation : quorumMemberObservation) (expected : ExternalHead) : bool :=
  if str_eqb (eh_JournalID expected) "" then ob_notFound observation
  else match ob_err observation with
       | Some _ => false
       | None => negb (ob_notFound observation) && sameSemanticHead (ob_head observation) expected
       end.

(** [encodeQuorumStoreVersion]: the versions of the distinct members, by id. *)
Fixpoint member_versions (obs : list quorumMemberObservation) (seen : gset string) : list (string * string) :=
  match obs with
  | [] => []
  | ob :: obs =>
      if bool_decide (ob_id ob ∈ seen) then member_versions obs seen
      else (ob_id ob, eh_StoreVersion (ob_head ob)) :: member_versions obs ({[ob_id ob]} ∪ seen)
  end.

Definition version_le (a b : string * string) : Prop := String.le a.1 b.1.
#[export] Instance version_le_dec a b : Decision (version_le a b).
Proof. unfold version_le. apply _. Defined.

Definition quorumHeadStoreVersion : string := "aegis-ege/quorum-head-store/v1".

Definition encodeQuorumStoreVersion (observations : list quorumMemberObservation) (threshold : Z) (policyHash : string)
    : string :=
  let members := merge_sort version_le (member_versions observations ∅) in
  let payload := JObject [("protocol", JString quorumHeadStoreVersion); ("policy_hash", JString policyHash);
    ("threshold", JInt threshold);
    ("members", JArray ((λ m, JObject [("member_id", JString m.1); ("store_version", JString m.2)]) <$> members))] in
  quorumHeadStoreVersion +:+ ":" +:+ base64_rawurl_encode (encode payload).

Definition aggregateQuorumHead (semantic : quorumSemanticHead) (observations : list quorumMemberObservation)
    (threshold : Z) (policyHash : string) : result ExternalHead :=
  if Z.of_nat (length observations) <? threshold then Error ErrExternalHeadQuorum
  else Ok {| eh_JournalID := qh_JournalID semantic; eh_Sequence := qh_Sequence semantic;
             eh_HeadHash := qh_HeadHash semantic; eh_KeyID := qh_KeyID semantic;
             eh_StoreVersion := encodeQuorumStoreVersion observations threshold policyHash |}.

(** ** [Load] *)

(** What one turn of a [select] loop receives: an answer, or the end of the
    context. *)
Inductive arrival (A : Type) : Type :=
  | Arrived (a : A)
  | Cancelled.
Arguments Arrived {A} _.
Arguments Cancelled {A}.

Definition context_done : error := ErrDetail ErrExternalHeadQuorum "context done".

(** [groups] holds, newest first, the observations with an answer for the
    journal; the group of a head are those with that head. *)
Fixpoint load_loop (s : QuorumHeadStore) (journalID : string) (arrivals : list (arrival quorumMemberObservation))
    (groups : list quorumMemberObservation) (notFound : Z) : result ExternalHead :=
  match arrivals with
  | [] => Error ErrExternalHeadQuorum
  | Cancelled :: _ => Error context_done
  | Arrived ob :: arrivals =>
      if ob_notFound ob then
        if qs_threshold s <=? notFound + 1 then Error ErrExternalHeadNotFound
        else load_loop s journalID arrivals groups (notFound + 1)
      else match ob_err ob with
      | Some _ => load_loop s journalID arrivals groups notFound
      | None =>
          let semantic := semanticExternalHead (ob_head ob) in
          if negb (str_eqb (qh_JournalID semantic) journalID) then load_loop s journalID arrivals groups notFound
          else
            let groups := ob :: groups in
            let group := filter (λ o, semanticExternalHead (ob_head o) = semantic) groups in
            if qs_threshold s <=? Z.of_nat (length group)
            then aggregateQuorumHead semantic (reverse group) (qs_threshold s) (qs_policyHash s)
            else load_loop s journalID arrivals groups notFound
      end
  end.

(** The answers of the members, in the order in which they arrive. *)
Definition QuorumHeadStore_Load (s : QuorumHeadStore) (journalID : string)
    (arrivals : list (arrival quorumMemberObservation)) : result ExternalHead :=
  if (length (qs_members s) =? 0)%nat then Error ErrExternalHeadQuorum
  else if blank journalID then Error (ErrNew "journal id is required")
  else load_loop s (TrimSpace journalID) arrivals [] 0.

(** ** [CompareAndAdvance] *)

(** The checks before the members are asked; the expected head, normalized. *)
Definition advance_expected (s : QuorumHeadStore) (previous next : ExternalHead) : result ExternalHead :=
  if (length (qs_members s) =? 0)%nat then Error ErrExternalHeadQuorum
  else if blank (eh_JournalID next) then Error (ErrNew "journal id is required")
  else if negb (str_eqb (eh_JournalID previous) "") && negb (str_eqb (eh_JournalID previous) (eh_JournalID next))
  then Error ErrExternalHeadConflict
  else
    let previous :=
      if negb (str_eqb (eh_JournalID previous) "") && (eh_Sequence previous =? 0) &&
         str_eqb (eh_HeadHash previous) "" && str_eqb (eh_KeyID previous) "" && str_eqb (eh_StoreVersion previous) ""
      then zero_Head else previous in
    if str_eqb (eh_JournalID previous) "" then
      if negb (bool_decide (previous = zero_Head)) || negb (eh_Sequence next =? 0)
      then Error ErrExternalHeadConflict else Ok previous
    else if eh_Sequence next <? eh_Sequence previous then Error ErrExternalHeadConflict
    else if (eh_Sequence next =? eh_Sequence previous) &&
            (negb (str_eqb (eh_HeadHash next) (eh_HeadHash previous)) ||
             negb (str_eqb (eh_KeyID next) (eh_KeyID previous)))
    then Error ErrExternalHeadConflict
    else Ok previous.

(** A call in progress: the loads that run, the answers in the two channels,
    the local variables of the loop, the advances that run, and the result. *)
Record advance_call : Type := {
  ac_loading : list QuorumHeadMember; ac_loadResults : list quorumMemberObservation;
  ac_candidates : list quorumMemberObservation; ac_launched : list string;
  ac_running : list quorumMemberObservation; ac_advanceResults : list (QuorumHeadMember * result ExternalHead);
  ac_successes : list quorumMemberObservation; ac_loadReturned : nat; ac_advancePending : nat;
  ac_quorumEstablished : bool; ac_result : option (result ExternalHead) }.

Definition new_call (s : QuorumHeadStore) : advance_call := {|
  ac_loading := qs_members s; ac_loadResults := []; ac_candidates := []; ac_launched := []; ac_running := [];
  ac_advanceResults := []; ac_successes := []; ac_loadReturned := 0; ac_advancePending := 0;
  ac_quorumEstablished := false; ac_result := None |}.

(** A member is advanced at most once per call. *)
Definition launch (c : advance_call) (ob : quorumMemberObservation) : advance_call :=
  if bool_decide (ob_id ob ∈ ac_launched c) then c
  else {| ac_loading := ac_loading c; ac_loadResults := ac_loadResults c; ac_candidates := ac_candidates c;
          ac_launched := ob_id ob :: ac_launched c; ac_running := ob :: ac_running c;
          ac_advanceResults := ac_advanceResults c; ac_successes := ac_successes c;
          ac_loadReturned := ac_loadReturned c; ac_advancePending := S (ac_advancePending c);
          ac_quorumEstablished := ac_quorumEstablished c; ac_result := ac_result c |}.

Definition mark_established (c : advance_call) : advance_call := {|
  ac_loading := ac_loading c; ac_loadResults := ac_loadResults c; ac_candidates := ac_candidates c;
  ac_launched := ac_launched c; ac_running := ac_running c; ac_advanceResults := ac_advanceResults c;
  ac_successes := ac_successes c; ac_loadReturned := ac_loadReturned c; ac_advancePending := ac_advancePending c;
  ac_quorumEstablished := true; ac_result := ac_result c |}.

Definition establish (c : advance_call) : advance_call := foldl launch (mark_established c) (ac_candidates c).

Definition return_with (r : result ExternalHead) (c : advance_call) : advance_call := {|
  ac_loading := ac_loading c; ac_loadResults := ac_loadResults c; ac_candidates := ac_candidates c;
  ac_launched := ac_launched c; ac_running := ac_running c; ac_advanceResults := ac_advanceResults c;
  ac_successes := ac_successes c; ac_loadReturned := ac_loadReturned c; ac_advancePending := ac_advancePending c;
  ac_quorumEstablished := ac_quorumEstablished c; ac_result := Some r |}.

(** [case observation := <-loadResults], which leaves [rest] in the channel. *)
Definition take_load (observation : quorumMemberObservation) (candidate : bool) (rest : list quorumMemberObservation)
    (c : advance_call) : advance_call := {|
  ac_loading := ac_loading c; ac_loadResults := rest;
  ac_candidates := if candidate then ac_candidates c ++ [observation] else ac_candidates c;
  ac_launched := ac_launched c; ac_running := ac_running c; ac_advanceResults := ac_advanceResults c;
  ac_successes := ac_successes c; ac_loadReturned := S (ac_loadReturned c);
  ac_advancePending := ac_advancePending c; ac_quorumEstablished := ac_quorumEstablished c;
  ac_result := ac_result c |}.

Definition no_quorum_possible (s : QuorumHeadStore) (c : advance_call) : bool :=
  negb (ac_quorumEstablished c) &&
  (Z.of_nat (length (ac_candidates c)) + (Z.of_nat (length (qs_members s)) - Z.of_nat (ac_loadReturned c))
     <? qs_threshold s).

Definition receive_load (s : QuorumHeadStore) (previous : ExternalHead) (observation : quorumMemberObservation)
    (rest : list quorumMemberObservation) (c : advance_call) : advance_call :=
  let matches := observationMatchesExpected observation previous in
  let c := take_load observation matches rest c in
  let c := if negb matches then c
           else if ac_quorumEstablished c then launch c observation
           else if qs_threshold s <=? Z.of_nat (length (ac_candidates c)) then establish c
           else c in
  if no_quorum_possible s c then return_with (Error ErrExternalHeadConflict) c else c.

(** [case result := <-advanceResults], which leaves [rest] in the channel. *)
Definition receive_advance (next : ExternalHead) (answer : QuorumHeadMember * result ExternalHead)
    (rest : list (QuorumHeadMember * result ExternalHead)) (c : advance_call) : advance_call := {|
  ac_loading := ac_loading c; ac_loadResults := ac_loadResults c; ac_candidates := ac_candidates c;
  ac_launched := ac_launched c; ac_running := ac_running c; ac_advanceResults := rest;
  ac_successes :=
    match answer.2 with
    | Error _ => ac_successes c
    | Ok head =>
        if sameSemanticHead head next
        then ac_successes c ++ [{| ob_member := answer.1; ob_head := head; ob_err := None; ob_notFound := false |}]
        else ac_successes c
    end;
  ac_loadReturned := ac_loadReturned c; ac_advancePending := pred (ac_advancePending c);
  ac_quorumEstablished := ac_quorumEstablished c; ac_result := ac_result c |}.

(** The top of the loop: the value it returns, if it does. *)
Definition loop_returns (s : QuorumHeadStore) (next : ExternalHead) (c : advance_call) : option (result ExternalHead) :=
  if qs_threshold s <=? Z.of_nat (length (ac_successes c))
  then Some (aggregateQuorumHead (semanticExternalHead next) (ac_successes c) (qs_threshold s) (qs_policyHash s))
  else if (ac_loadReturned c =? length (qs_members s))%nat && (ac_advancePending c =? 0)%nat
  then Some (Error (if ac_quorumEstablished c then ErrExternalHeadQuorum else ErrExternalHeadConflict))
  else None.

Section Members.
Context {W : Type} `{!ExternalHeadStore W, !QuorumPolicyFencedStore W}.

Definition loadMember (s : QuorumHeadStore) (member : QuorumHeadMember) (journalID : string) (w : W)
    : result ExternalHead * W :=
  match qs_governedPolicy s with
  | Some policy => if is_fenced member then LoadForQuorum journalID policy w else (Error ErrQuorumPolicyMismatch, w)
  | None => Load journalID w
  end.

Definition compareAndAdvanceMember (s : QuorumHeadStore) (member : QuorumHeadMember) (previous next : ExternalHead) (w : W)
    : result ExternalHead * W :=
  match qs_governedPolicy s with
  | Some policy =>
      if is_fenced member then CompareAndAdvanceForQuorum policy previous next w else (Error ErrQuorumPolicyMismatch, w)
  | None => CompareAndAdvance previous next w
  end.

(** What a load goroutine sends. *)
Definition observation_of (member : QuorumHeadMember) (loaded : result ExternalHead) : quorumMemberObservation :=
  match loaded with
  | Ok head => {| ob_member := member; ob_head := head; ob_err := None; ob_notFound := false |}
  | Error err => {| ob_member := member; ob_head := zero_Head; ob_err := Some err;
                    ob_notFound := errors_Is err ErrExternalHeadNotFound |}
  end.

Definition member_previous (ob : quorumMemberObservation) : ExternalHead :=
  if ob_notFound ob then zero_Head else ob_head ob.

(** The members' stores, by member id: distinct members are distinct witnesses. *)
Abbreviation witnesses := (gmap string W).

(** One step of a call, and the advance it made at a member, if one succeeded. *)
Inductive call_step (s : QuorumHeadStore) (previous next : ExternalHead) :
    witnesses * advance_call → option string → witnesses * advance_call → Prop :=
  | cs_load ws c l1 m l2 w r w' :
      ac_loading c = l1 ++ m :: l2 → ws !! qm_ID m = Some w → loadMember s m (eh_JournalID next) w = (r, w') →
      call_step s previous next (ws, c) None (<[qm_ID m := w']> ws,
        {| ac_loading := l1 ++ l2; ac_loadResults := ac_loadResults c ++ [observation_of m r];
           ac_candidates := ac_candidates c; ac_launched := ac_launched c; ac_running := ac_running c;
           ac_advanceResults := ac_advanceResults c; ac_successes := ac_successes c;
           ac_loadReturned := ac_loadReturned c; ac_advancePending := ac_advancePending c;
           ac_quorumEstablished := ac_quorumEstablished c; ac_result := ac_result c |})
  | cs_receive_load ws c l1 ob l2 : ac_result c = None → loop_returns s next c = None →
      ac_loadResults c = l1 ++ ob :: l2 →
      call_step s previous next (ws, c) None (ws, receive_load s previous ob (l1 ++ l2) c)
  | cs_advance ws c l1 ob l2 w r w' : ac_running c = l1 ++ ob :: l2 → ws !! ob_id ob = Some w →
      compareAndAdvanceMember s (ob_member ob) (member_previous ob) (with_version "" next) w = (r, w') →
      call_step s previous next (ws, c) (if is_ok r then Some (ob_id ob) else None) (<[ob_id ob := w']> ws,
        {| ac_loading := ac_loading c; ac_loadResults := ac_loadResults c; ac_candidates := ac_candidates c;
           ac_launched := ac_launched c; ac_running := l1 ++ l2;
           ac_advanceResults := ac_advanceResults c ++ [(ob_member ob, r)]; ac_successes := ac_successes c;
           ac_loadReturned := ac_loadReturned c; ac_advancePending := ac_advancePending c;
           ac_quorumEstablished := ac_quorumEstablished c; ac_result := ac_result c |})
  | cs_receive_advance ws c l1 a l2 : ac_result c = None → loop_returns s next c = None →
      ac_advanceResults c = l1 ++ a :: l2 →
      call_step s previous next (ws, c) None (ws, receive_advance next a (l1 ++ l2) c)
  | cs_return ws c r : ac_result c = None → loop_returns s next c = Some r →
      call_step s previous next (ws, c) None (ws, return_with r c)
  | cs_cancel ws c : ac_result c = None → loop_returns s next c = None →
      call_step s previous next (ws, c) None (ws, return_with (Error context_done) c).
End Members.

(** * Facts *)

(** ** A governed store is a strict majority of distinct members *)

Definition member_ids (s : QuorumHeadStore) : list string := qm_ID <$> qs_members s.

Definition governed_store (s : QuorumHeadStore) : Prop :=
  NoDup (member_ids s) ∧ Z.of_nat (length (qs_members s)) < 2 * qs_threshold s ∧
  0 < qs_threshold s ≤ Z.of_nat (length (qs_members s)).

Lemma check_members_ok ms governed seen copied : check_members ms governed seen = Ok copied →
  NoDup (qm_ID <$> copied) ∧ length copied = length ms ∧ ∀ id, id ∈ qm_ID <$> copied → id ∉ seen.
Proof.
  revert seen copied. induction ms as [|m ms IH]; intros seen copied; simpl.
  { intros [= <-]. split_and!; [constructor|done|]. by intros ? ?%not_elem_of_nil. }
  destruct (str_eqb (TrimSpace (qm_ID m)) ""); [done|]. destruct (qm_Store m) as [store|]; [|done].
  case_bool_decide as Hseen; [done|]. destruct (governed !! _); [|done].
  destruct (mh_TrustManifestHash store); [|done]. destruct (negb _); [done|].
  destruct (check_members ms governed _) as [c|] eqn:Hc; [|done]. intros [= <-].
  apply IH in Hc as (Hn & Hl & Hs). simpl. split_and!.
  - constructor; [|done]. intros Hin%Hs. set_solver.
  - by rewrite Hl.
  - intros id [->|Hin]%elem_of_cons; [done|]. apply Hs in Hin. set_solver.
Qed.

Lemma NewQuorumHeadStore_governed ms binding s : NewQuorumHeadStore ms binding = Ok s → governed_store s.
Proof.
  unfold NewQuorumHeadStore. destruct (validateGenesisQuorumBinding binding) eqn:Hv; [done|].
  unfold validateGenesisQuorumBinding in Hv. apply guard_err_None in Hv. split_bool.
  destruct (Nat.eqb_spec (length ms) (size (gb_members binding))) as [Hlen|]; [|done]. cbn [negb].
  destruct (check_members ms _ _) as [copied|] eqn:Hc; [|done]. intros [= <-].
  apply check_members_ok in Hc as (Hn & Hl & _). unfold governed_store, member_ids. cbn [qs_members qs_threshold].
  assert (merge_sort quorum_member_le copied ≡ₚ copied) as Hperm by apply merge_sort_Permutation.
  rewrite Hperm. split; [done|]. rewrite <- Hlen, <- Hl in *.
  match goal with
  | H1 : (_ <=? _) = false, H2 : (_ <? _) = false |- _ => apply Z.leb_gt in H1; apply Z.ltb_ge in H2
  end.
  pose proof (Z.quot_rem (Z.of_nat (length copied)) 2 ltac:(done)) as Hq.
  pose proof (Z.rem_bound_pos (Z.of_nat (length copied)) 2 ltac:(lia) ltac:(lia)) as Hr. lia.
Qed.

Lemma NewGovernedQuorumHeadStore_governed ms binding epoch s :
  NewGovernedQuorumHeadStore ms binding epoch = Ok s → governed_store s.
Proof.
  unfold NewGovernedQuorumHeadStore. destruct (NewQuorumHeadStore ms binding) as [s'|] eqn:Hs; [|done].
  apply NewQuorumHeadStore_governed in Hs. simpl. destruct (validateQuorumPolicyState _); [done|].
  destruct (filter _ _); [|done]. by intros [= <-].
Qed.

(** A store that one of the constructors made. *)
Definition configured (s : QuorumHeadStore) : Prop :=
  ∃ members binding, NewQuorumHeadStore members binding = Ok s ∨
    ∃ epoch, NewGovernedQuorumHeadStore members binding epoch = Ok s.

Lemma configured_governed s : configured s → governed_store s.
Proof.
  intros (ms & b & [H|[e H]]); [by eapply NewQuorumHeadStore_governed|by eapply NewGovernedQuorumHeadStore_governed].
Qed.

(** Two majorities of one membership share a member. *)
Lemma majority_intersect (l k m : list string) : NoDup l → NoDup k → l ⊆ m → k ⊆ m → (length m < length l + length k)%nat →
  ∃ x, x ∈ l ∧ x ∈ k.
Proof.
  intros Hl Hk Hlm Hkm Hlen. destruct (decide (Exists (λ x, x ∈ k) l)) as [H|H].
  { apply Exists_exists in H as (x & ? & ?). by exists x. }
  exfalso. assert (NoDup (l ++ k)) as Hnd.
  { apply NoDup_app. split_and!; [done| |done]. intros x Hx Hxk. apply H, Exists_exists. by exists x. }
  assert (l ++ k ⊆+ m) as Hsub%submseteq_length.
  { apply NoDup_submseteq; [done|]. intros x [?|?]%elem_of_app; auto. }
  rewrite length_app in Hsub. lia.
Qed.

(** ** What a member records *)

Section Proofs.
Context {W : Type} `{!ExternalHeadStore W, !HeadStoreLaws W, !QuorumPolicyFencedStore W, !FencedStoreLaws W}.

(** Another client of a witness, or the witness itself: no head goes back. *)
Definition store_le (w w' : W) : Prop :=
  ∀ id h, recorded w !! id = Some h → ∃ h', recorded w' !! id = Some h' ∧ head_le h h'.

Lemma store_le_same w w' : recorded w' = recorded w → store_le w w'.
Proof. intros Hr id h Hh. rewrite Hr. by exists h. Qed.

Lemma extends_store_le w w' p n id : extends (recorded w !! id) p n → recorded w' = <[id := n]> (recorded w) → store_le w w'.
Proof.
  intros He Hr id' h Hh. rewrite Hr. destruct (decide (id = id')) as [<-|Hne]; [|rewrite lookup_insert_ne by done; by exists h].
  rewrite lookup_insert_eq. exists n. split; [done|]. rewrite Hh in He. destruct He as (? & ? & ? & ? & Hs).
  split; [done|]. intros E. by destruct Hs.
Qed.

Lemma loadMember_recorded s m id w r w' : loadMember s m id w = (r, w') → recorded w' = recorded w ∧
  match r with
  | Ok h => recorded w !! id = Some (semanticExternalHead h)
  | Error e => errors_Is e ErrExternalHeadNotFound = true → recorded w !! id = None
  end.
Proof.
  unfold loadMember. destruct (qs_governedPolicy s); [|apply load_recorded].
  destruct (is_fenced m); [apply fenced_load_recorded|]. by intros [= <- <-].
Qed.

Lemma advanceMember_recorded s m p n w r w' : compareAndAdvanceMember s m p n w = (r, w') →
  (recorded w' = recorded w ∧ is_ok r = false) ∨
  (extends (recorded w !! eh_JournalID n) (semanticExternalHead p) (semanticExternalHead n) ∧
   recorded w' = <[eh_JournalID n := semanticExternalHead n]> (recorded w) ∧
   match r with Ok h => semanticExternalHead h = semanticExternalHead n | Error _ => True end).
Proof.
  unfold compareAndAdvanceMember. destruct (qs_governedPolicy s); [|apply advance_recorded].
  destruct (is_fenced m); [apply fenced_advance_recorded|]. intros [= <- <-]. by left.
Qed.

(** * Many clients of one quorum *)

(** [qy_Accepted] is a history variable: the advances that succeeded at a
    member, newest first. *)
Record accepted_advance : Type := {
  aa_call : nat; aa_member : string; aa_previous : quorumSemanticHead; aa_next : quorumSemanticHead }.

Record quorum_system : Type := {
  qy_Stores : gmap string W;
  qy_Calls : gmap nat (ExternalHead * ExternalHead * advance_call);
  qy_Accepted : list accepted_advance }.

Inductive quorum_step (s : QuorumHeadStore) : quorum_system → quorum_system → Prop :=
  | qs_start ws calls acc i previous expected next : calls !! i = None → advance_expected s previous next = Ok expected →
      quorum_step s {| qy_Stores := ws; qy_Calls := calls; qy_Accepted := acc |}
        {| qy_Stores := ws; qy_Calls := <[i := (expected, next, new_call s)]> calls; qy_Accepted := acc |}
  | qs_call ws ws' calls acc i p n c c' o : calls !! i = Some (p, n, c) → call_step s p n (ws, c) o (ws', c') →
      quorum_step s {| qy_Stores := ws; qy_Calls := calls; qy_Accepted := acc |}
        {| qy_Stores := ws'; qy_Calls := <[i := (p, n, c')]> calls;
           qy_Accepted := match o with
             | Some m => {| aa_call := i; aa_member := m; aa_previous := semanticExternalHead p;
                            aa_next := semanticExternalHead n |} :: acc
             | None => acc
             end |}
  | qs_other ws calls acc m w w' : ws !! m = Some w → store_le w w' →
      quorum_step s {| qy_Stores := ws; qy_Calls := calls; qy_Accepted := acc |}
        {| qy_Stores := <[m := w']> ws; qy_Calls := calls; qy_Accepted := acc |}.

(** ** What the members have accepted *)

Definition journal_of (e : accepted_advance) : string := qh_JournalID (aa_next e).

(** The newer advance of two at one member starts where the older one ended, or later. *)
Fixpoint in_sequence (acc : list accepted_advance) : Prop :=
  match acc with
  | [] => True
  | e :: acc =>
      (∀ e', e' ∈ acc → aa_member e' = aa_member e → journal_of e' = journal_of e →
        qh_Sequence (aa_next e') ≤ qh_Sequence (aa_previous e)) ∧ in_sequence acc
  end.

Definition recorded_past (ws : gmap string W) (e : accepted_advance) : Prop :=
  ∃ w h, ws !! aa_member e = Some w ∧ recorded w !! journal_of e = Some h ∧ qh_Sequence (aa_next e) ≤ qh_Sequence h.

Lemma in_sequence_two acc e e' : in_sequence acc → e ∈ acc → e' ∈ acc → e ≠ e' → aa_member e = aa_member e' →
  journal_of e = journal_of e' →
  qh_Sequence (aa_next e) ≤ qh_Sequence (aa_previous e') ∨ qh_Sequence (aa_next e') ≤ qh_Sequence (aa_previous e).
Proof.
  induction acc as [|x acc IH]; [by intros _ ?%not_elem_of_nil|]. intros [Hx Hs] He He' Hne Hm Hj.
  apply elem_of_cons in He as [->|He], He' as [->|He']; [done|right|left|auto]; apply Hx; congruence.
Qed.

Lemma recorded_past_le ws m w w' e : ws !! m = Some w → store_le w w' → recorded_past ws e → recorded_past (<[m := w']> ws) e.
Proof.
  intros Hm Hle (w1 & h & Hw1 & Hh & Hs). unfold recorded_past.
  destruct (decide (m = aa_member e)) as [->|Hne].
  - rewrite lookup_insert_eq. rewrite Hm in Hw1. injection Hw1 as <-. apply Hle in Hh as (h' & Hh' & [Hs' _]).
    exists w', h'. split_and!; [done..|lia].
  - rewrite lookup_insert_ne by done. by exists w1, h.
Qed.

(** ** The invariant of a call *)

Definition entry (i : nat) (p n : ExternalHead) (m : string) : accepted_advance :=
  {| aa_call := i; aa_member := m; aa_previous := semanticExternalHead p; aa_next := semanticExternalHead n |}.

(** The members with an advance in flight or done, by the place of the answer. *)
Definition engaged (c : advance_call) : list string :=
  (ob_id <$> ac_running c) ++ ((λ a, qm_ID a.1) <$> ac_advanceResults c) ++ (ob_id <$> ac_successes c).

Record call_inv (s : QuorumHeadStore) (i : nat) (p n : ExternalHead) (acc : list accepted_advance) (c : advance_call)
    : Prop := {
  ci_expected : eh_JournalID p = "" → p = zero_Head;
  ci_loading : qm_ID <$> ac_loading c ⊆ member_ids s;
  ci_observed ob : ob ∈ ac_loadResults c → ob_id ob ∈ member_ids s;
  ci_candidates ob : ob ∈ ac_candidates c ++ ac_running c → ob_id ob ∈ member_ids s ∧ observationMatchesExpected ob p = true;
  ci_engaged : NoDup (engaged c);
  ci_launched : engaged c ⊆ ac_launched c;
  ci_members : engaged c ⊆ member_ids s;
  ci_answers m h : (m, Ok h) ∈ ac_advanceResults c → entry i p n (qm_ID m) ∈ acc;
  ci_successes ob : ob ∈ ac_successes c → entry i p n (ob_id ob) ∈ acc;
  ci_result h : ac_result c = Some (Ok h) →
    qs_threshold s ≤ Z.of_nat (length (ac_successes c)) ∧ semanticExternalHead h = semanticExternalHead n }.

(** A member is asked to replace the head the call expects. *)
Lemma expected_previous p ob : (eh_JournalID p = "" → p = zero_Head) → observationMatchesExpected ob p = true →
  semanticExternalHead (member_previous ob) = semanticExternalHead p.
Proof.
  intros Hp. unfold observationMatchesExpected, member_previous.
  destruct (str_eqb (eh_JournalID p) "") eqn:Hj; split_bool; [intros ->; by rewrite Hp|].
  destruct (ob_err ob); [done|]. destruct (ob_notFound ob); [done|]. apply sameSemanticHead_true.
Qed.

Lemma advance_expected_zero s p n e : advance_expected s p n = Ok e → eh_JournalID e = "" → e = zero_Head.
Proof.
  unfold advance_expected. destruct (_ =? 0)%nat; [done|]. destruct (blank _); [done|].
  destruct (negb _ && negb _); [done|]. cbv zeta.
  match goal with |- context [if ?b then zero_Head else p] => generalize (if b then zero_Head else p) as q end.
  intros q. destruct (str_eqb (eh_JournalID q) "") eqn:Hj; split_bool.
  - case_bool_decide as Hz; [|done]. cbn [negb orb]. destruct (negb _); [done|]. by intros [= <-].
  - destruct (_ <? _); [done|]. destruct (_ && _); [done|]. by intros [= <-].
Qed.

Lemma new_call_inv s i p n acc : (eh_JournalID p = "" → p = zero_Head) → call_inv s i p n acc (new_call s).
Proof.
  intros Hp. split; simpl; try done; try (by intros ? ?%not_elem_of_nil); try (by intros ? ? ?%not_elem_of_nil); constructor.
Qed.

Lemma call_inv_mono s i p n acc acc' c : acc ⊆ acc' → call_inv s i p n acc c → call_inv s i p n acc' c.
Proof. intros Hs []. split; auto; intros; apply Hs; eauto. Qed.

Lemma launch_inv s i p n acc c ob : ob_id ob ∈ member_ids s → observationMatchesExpected ob p = true →
  call_inv s i p n acc c → call_inv s i p n acc (launch c ob).
Proof.
  intros Hid Hob []. unfold launch. case_bool_decide as Hl; [by split|]. unfold engaged in *.
  split; unfold engaged; simpl; try done.
  - intros ob' [Hc|[->|Hc]%elem_of_cons]%elem_of_app; [|done|]; apply ci_candidates0; set_solver.
  - constructor; [|done]. intros Hin. apply Hl. by apply ci_launched0.
  - intros x [->|Hx]%elem_of_cons; [left|right; by apply ci_launched0].
  - intros x [->|Hx]%elem_of_cons; [done|by apply ci_members0].
Qed.

Lemma foldl_launch_inv s i p n acc l c :
  (∀ ob, ob ∈ l → ob_id ob ∈ member_ids s ∧ observationMatchesExpected ob p = true) →
  call_inv s i p n acc c → call_inv s i p n acc (foldl launch c l).
Proof.
  revert c. induction l as [|ob l IH]; [done|]. intros c Hl Hc. simpl. apply IH; [set_solver|].
  destruct (Hl ob) as [? ?]; [left|]. by apply launch_inv.
Qed.

Lemma return_inv s i p n acc c r :
  (∀ h, r = Ok h → qs_threshold s ≤ Z.of_nat (length (ac_successes c)) ∧ semanticExternalHead h = semanticExternalHead n) →
  call_inv s i p n acc c → call_inv s i p n acc (return_with r c).
Proof. intros Hr []. split; try done. simpl. intros h [= ->]. by apply Hr. Qed.

Lemma launch_result c ob : ac_result (launch c ob) = ac_result c.
Proof. unfold launch. by case_bool_decide. Qed.

Lemma establish_result c : ac_result (establish c) = ac_result c.
Proof.
  unfold establish. change (ac_result c) with (ac_result (mark_established c)). generalize (mark_established c) as c1.
  generalize (ac_candidates c) as l. intros l. induction l as [|ob l IH]; [done|]. intros c1. simpl.
  by rewrite IH, launch_result.
Qed.

Lemma establish_inv s i p n acc c : call_inv s i p n acc c → call_inv s i p n acc (establish c).
Proof.
  intros Hc. unfold establish. apply foldl_launch_inv; [|by destruct Hc].
  intros ob Hin. apply (ci_candidates _ _ _ _ _ _ Hc). set_solver.
Qed.

Lemma take_load_inv s i p n acc c ob l1 l2 : ac_loadResults c = l1 ++ ob :: l2 → call_inv s i p n acc c →
  call_inv s i p n acc (take_load ob (observationMatchesExpected ob p) (l1 ++ l2) c).
Proof.
  intros Hl []. split; try done; simpl.
  - intros ob' Hin. apply ci_observed0. rewrite Hl. set_solver.
  - intros ob' Hin. destruct (observationMatchesExpected ob p) eqn:Hm; [|by apply ci_candidates0].
    rewrite <- app_assoc in Hin. apply elem_of_app in Hin as [Hin|[->|Hin]%elem_of_cons]; [|split; [|done]|];
      [apply ci_candidates0; set_solver|apply ci_observed0; rewrite Hl; set_solver|apply ci_candidates0; set_solver].
Qed.

Lemma receive_load_inv s i p n acc c ob l1 l2 : ac_loadResults c = l1 ++ ob :: l2 →
  call_inv s i p n acc c → call_inv s i p n acc (receive_load s p ob (l1 ++ l2) c).
Proof.
  intros Hl Hc. assert (ob_id ob ∈ member_ids s) as Hob.
  { apply (ci_observed _ _ _ _ _ _ Hc). rewrite Hl. set_solver. }
  pose proof (take_load_inv _ _ _ _ _ _ _ _ _ Hl Hc) as Hc1. unfold receive_load. cbv zeta.
  set (c1 := take_load _ _ _ c) in *. clearbody c1.
  assert (∀ c2, call_inv s i p n acc c2 →
    call_inv s i p n acc (if no_quorum_possible s c2 then return_with (Error ErrExternalHeadConflict) c2 else c2)) as Hlast.
  { intros c2 Hc2. destruct (no_quorum_possible s c2); [|done]. by apply return_inv. }
  destruct (observationMatchesExpected ob p) eqn:Hm; cbn [negb]; [|by apply Hlast].
  apply Hlast. destruct (ac_quorumEstablished c1); [by apply launch_inv|].
  destruct (_ <=? _); [by apply establish_inv|done].
Qed.

Lemma engaged_receive n a l1 l2 c : ac_advanceResults c = l1 ++ a :: l2 →
  ∃ l, engaged c ≡ₚ l ++ engaged (receive_advance n a (l1 ++ l2) c).
Proof.
  intros Hl. unfold engaged, receive_advance. cbn [ac_running ac_advanceResults ac_successes]. rewrite Hl.
  rewrite !fmap_app. simpl. destruct a as [m [h|]]; simpl; [destruct (sameSemanticHead h n)|].
  - exists []. rewrite fmap_app. simpl. solve_Permutation.
  - exists [qm_ID m]. simpl. solve_Permutation.
  - exists [qm_ID m]. simpl. solve_Permutation.
Qed.

Lemma receive_advance_inv s i p n acc c a l1 l2 : ac_advanceResults c = l1 ++ a :: l2 → ac_result c = None →
  call_inv s i p n acc c → call_inv s i p n acc (receive_advance n a (l1 ++ l2) c).
Proof.
  intros Hl Hr []. destruct (engaged_receive n a l1 l2 c Hl) as [l Hperm]. rewrite Hperm in ci_engaged0.
  apply NoDup_app in ci_engaged0 as (_ & _ & Hn).
  assert (engaged (receive_advance n a (l1 ++ l2) c) ⊆ engaged c) as Hsub.
  { intros x Hx. rewrite Hperm. set_solver. }
  split; try done.
  - by transitivity (engaged c).
  - by transitivity (engaged c).
  - intros m h Hin. apply (ci_answers0 m h). rewrite Hl. simpl in Hin. set_solver.
  - intros ob Hin. simpl in Hin. destruct a as [m [h|]]; [|by apply ci_successes0]. simpl in Hin.
    destruct (sameSemanticHead h n); [|by apply ci_successes0].
    apply elem_of_app in Hin as [Hin| ->%list_elem_of_singleton]; [by apply ci_successes0|].
    apply (ci_answers0 m h). rewrite Hl. set_solver.
  - simpl. congruence.
Qed.

Lemma aggregate_Ok sem obs t policy h : aggregateQuorumHead sem obs t policy = Ok h →
  t ≤ Z.of_nat (length obs) ∧ semanticExternalHead h = sem.
Proof.
  unfold aggregateQuorumHead. destruct (Z.ltb_spec (Z.of_nat (length obs)) t); [done|]. intros [= <-].
  split; [done|]. by destruct sem.
Qed.

Lemma loop_returns_Ok s n c h : loop_returns s n c = Some (Ok h) →
  qs_threshold s ≤ Z.of_nat (length (ac_successes c)) ∧ semanticExternalHead h = semanticExternalHead n.
Proof.
  unfold loop_returns. destruct (_ <=? _); [intros [= H]; by apply aggregate_Ok in H|]. by destruct (_ && _).
Qed.

Definition accepted_after (i : nat) (p n : ExternalHead) (acc : list accepted_advance) (o : option string) :=
  match o with Some m => entry i p n m :: acc | None => acc end.

Lemma call_step_inv s i p n acc ws c o ws' c' : call_step s p n (ws, c) o (ws', c') → call_inv s i p n acc c →
  call_inv s i p n (accepted_after i p n acc o) c'.
Proof.
  intros Hs Hc. inversion Hs as [ws1 c1 l1 m l2 w r w' Hl Hw Hm|ws1 c1 l1 ob l2 Hr Hloop Hl
    |ws1 c1 l1 ob l2 w r w' Hl Hw Hm|ws1 c1 l1 a l2 Hr Hloop Hl|ws1 c1 r Hr Hloop|ws1 c1 Hr Hloop]; subst; simpl.
  - destruct Hc. rewrite Hl, fmap_app in ci_loading0. simpl in ci_loading0. split; try done; simpl.
    + rewrite fmap_app. set_solver.
    + intros ob [Hin| ->%list_elem_of_singleton]%elem_of_app; [by apply ci_observed0|].
      apply ci_loading0. destruct r; simpl; unfold ob_id; simpl; set_solver.
  - by apply receive_load_inv.
  - assert (ob_id ob ∈ member_ids s ∧ observationMatchesExpected ob p = true) as [_ Hob].
    { apply (ci_candidates _ _ _ _ _ _ Hc). rewrite Hl. set_solver. }
    apply (call_inv_mono _ _ _ _ _ (accepted_after i p n acc (if is_ok r then Some (ob_id ob) else None))) in Hc;
      [|destruct r; simpl; set_solver].
    assert (∀ h, r = Ok h → entry i p n (ob_id ob) ∈ accepted_after i p n acc (if is_ok r then Some (ob_id ob) else None))
      as Hentry by (intros h ->; left).
    revert Hc Hentry. generalize (accepted_after i p n acc (if is_ok r then Some (ob_id ob) else None)).
    intros acc' [] Hentry. unfold engaged in *. rewrite Hl in *.
    assert ((ob_id <$> l1 ++ ob :: l2) ++ ((λ a, qm_ID a.1) <$> ac_advanceResults c) ++ (ob_id <$> ac_successes c) ≡ₚ
      (ob_id <$> l1 ++ l2) ++ ((λ a, qm_ID a.1) <$> ac_advanceResults c ++ [(ob_member ob, r)]) ++ (ob_id <$> ac_successes c))
      as Hperm by (rewrite !fmap_app; simpl; unfold ob_id; solve_Permutation).
    rewrite Hperm in ci_engaged0. split; try done; unfold engaged; simpl.
    + intros ob' Hin. apply ci_candidates0. set_solver.
    + intros x Hx. apply ci_launched0. by rewrite Hperm.
    + intros x Hx. apply ci_members0. by rewrite Hperm.
    + intros m h [Hin|Hin%list_elem_of_singleton]%elem_of_app; [by apply (ci_answers0 m h)|].
      injection Hin as -> <-. by apply (Hentry h).
  - by apply receive_advance_inv.
  - apply return_inv; [|done]. intros h ->. by apply loop_returns_Ok.
  - by apply return_inv.
Qed.

(** What a step of a call does to the stores. *)
Lemma call_step_stores s i p n acc ws c o ws' c' : call_step s p n (ws, c) o (ws', c') → call_inv s i p n acc c →
  (o = None ∧ (ws' = ws ∨ ∃ m w w', ws !! m = Some w ∧ ws' = <[m := w']> ws ∧ store_le w w')) ∨
  ∃ m w w', o = Some m ∧ ws !! m = Some w ∧ ws' = <[m := w']> ws ∧
    extends (recorded w !! eh_JournalID n) (semanticExternalHead p) (semanticExternalHead n) ∧
    recorded w' = <[eh_JournalID n := semanticExternalHead n]> (recorded w).
Proof.
  intros Hs Hc. inversion Hs as [ws1 c1 l1 m l2 w r w' Hl Hw Hm|ws1 c1 l1 ob l2 Hr Hloop Hl
    |ws1 c1 l1 ob l2 w r w' Hl Hw Hm|ws1 c1 l1 a l2 Hr Hloop Hl|ws1 c1 r Hr Hloop|ws1 c1 Hr Hloop]; subst;
    try (left; split; [done|by left]).
  - left. split; [done|right]. exists (qm_ID m), w, w'. split_and!; [done..|].
    apply store_le_same. by apply loadMember_recorded in Hm as [? _].
  - assert (ob_id ob ∈ member_ids s ∧ observationMatchesExpected ob p = true) as [_ Hob].
    { apply (ci_candidates _ _ _ _ _ _ Hc). rewrite Hl. set_solver. }
    apply expected_previous in Hob; [|by apply (ci_expected _ _ _ _ _ _ Hc)].
    apply advanceMember_recorded in Hm as [[Hm Hr]|(He & Hm & Hr)].
    + rewrite Hr. left. split; [done|right]. exists (ob_id ob), w, w'. split_and!; [done..|]. by apply store_le_same.
    + rewrite Hob in He. destruct r as [h|err]; simpl.
      * right. by exists (ob_id ob), w, w'.
      * left. split; [done|right]. exists (ob_id ob), w, w'. split_and!; [done..|]. by eapply extends_store_le.
Qed.

(** * The invariant of the system *)

Record system_inv (s : QuorumHeadStore) (sy : quorum_system) : Prop := {
  si_calls i p n c : qy_Calls sy !! i = Some (p, n, c) → call_inv s i p n (qy_Accepted sy) c;
  si_recorded e : e ∈ qy_Accepted sy → recorded_past (qy_Stores sy) e;
  si_sequence : in_sequence (qy_Accepted sy) }.

Lemma accept_in_sequence ws acc i p n m w : (∀ e, e ∈ acc → recorded_past ws e) → in_sequence acc → ws !! m = Some w →
  extends (recorded w !! eh_JournalID n) (semanticExternalHead p) (semanticExternalHead n) →
  in_sequence (entry i p n m :: acc).
Proof.
  intros Hrec Hseq Hw He. split; [|done]. intros e' Hin Hm Hj.
  destruct (Hrec e' Hin) as (w' & h & Hw' & Hh & Hle). simpl in Hm. rewrite Hm, Hw in Hw'. injection Hw' as <-.
  rewrite Hj in Hh. change (journal_of (entry i p n m)) with (eh_JournalID n) in Hh. rewrite Hh in He.
  apply extends_le in He as [E _]. simpl in *. lia.
Qed.

Lemma quorum_step_inv s sy sy' : quorum_step s sy sy' → system_inv s sy → system_inv s sy'.
Proof.
  intros Hs []. destruct Hs as [ws calls acc i prev p n Hi Hp|ws ws' calls acc i p n c c' o Hi Hs|ws calls acc m w w' Hm Hle];
    simpl in *.
  - split; simpl; [|done..]. intros j p' n' c'. destruct (decide (i = j)) as [<-|Hne];
      [|rewrite lookup_insert_ne by done; apply si_calls0].
    rewrite lookup_insert_eq. intros [= <- <- <-]. apply new_call_inv. by eapply advance_expected_zero.
  - pose proof (call_step_inv _ i _ _ acc _ _ _ _ _ Hs (si_calls0 _ _ _ _ Hi)) as Hc'.
    apply (call_step_stores _ i _ _ acc) in Hs; [|by apply si_calls0].
    change (match o with Some m => _ | None => _ end) with (accepted_after i p n acc o).
    assert (acc ⊆ accepted_after i p n acc o) as Hacc by (destruct o; set_solver).
    assert (∀ j p' n' c2, <[i:=(p, n, c')]> calls !! j = Some (p', n', c2) →
      call_inv s j p' n' (accepted_after i p n acc o) c2) as Hcalls.
    { intros j p' n' c2. destruct (decide (i = j)) as [<-|Hne];
        [rewrite lookup_insert_eq; by intros [= <- <- <-]|rewrite lookup_insert_ne by done].
      intros Hj%si_calls0. by apply (call_inv_mono _ _ _ _ acc). }
    destruct Hs as [[-> Hws]|(m & w & w' & -> & Hm & -> & He & Hw')].
    + split; simpl in *; [done| |done]. intros e Hin. destruct Hws as [->|(m & w & w' & Hm & -> & Hle)]; [by apply si_recorded0|].
      by apply (recorded_past_le _ _ w); [..|apply si_recorded0].
    + split; simpl in *; [done| |by apply (accept_in_sequence ws _ _ _ _ _ w)].
      intros e [->|Hin]%elem_of_cons.
      * exists w', (semanticExternalHead n). rewrite lookup_insert_eq. split_and!; [done| |done].
        change (journal_of (entry i p n m)) with (eh_JournalID n). by rewrite Hw', lookup_insert_eq.
      * apply (recorded_past_le _ _ w); [done| |by apply si_recorded0]. by eapply extends_store_le.
  - split; simpl; [done| |done]. intros e Hin. by apply (recorded_past_le _ _ w); [..|apply si_recorded0].
Qed.

Definition initial_system (ws : gmap string W) : quorum_system :=
  {| qy_Stores := ws; qy_Calls := ∅; qy_Accepted := [] |}.

Lemma quorum_reachable_inv s ws sy : rtc (quorum_step s) (initial_system ws) sy → system_inv s sy.
Proof.
  assert (system_inv s (initial_system ws)) as H0.
  { split; simpl; [by intros ? ? ? ?; rewrite lookup_empty|by intros ? ?%not_elem_of_nil|done]. }
  revert H0. generalize (initial_system ws). intros sy0 H0 H. induction H as [|x y z Hs _ IH]; [done|].
  by apply IH, (quorum_step_inv _ x).
Qed.

(** A call that returned a head advanced a quorum of distinct members. *)
Definition won (sy : quorum_system) (i : nat) (p n : ExternalHead) : Prop :=
  ∃ c h, qy_Calls sy !! i = Some (p, n, c) ∧ ac_result c = Some (Ok h).

Lemma won_quorum s sy i p n : system_inv s sy → won sy i p n →
  ∃ ids, NoDup ids ∧ ids ⊆ member_ids s ∧ qs_threshold s ≤ Z.of_nat (length ids) ∧
    ∀ m, m ∈ ids → entry i p n m ∈ qy_Accepted sy.
Proof.
  intros [] (c & h & Hc & Hr). apply si_calls0 in Hc as []. exists (ob_id <$> ac_successes c).
  unfold engaged in *. apply NoDup_app in ci_engaged0 as (_ & _ & Hn). apply NoDup_app in Hn as (_ & _ & Hn).
  split_and!; [done|set_solver| |].
  - rewrite length_fmap. by apply ci_result0 in Hr as [? _].
  - intros m (ob & -> & Hob)%list_elem_of_fmap. by apply ci_successes0.
Qed.

(** ** A schedule

    One order of the steps, as a function: answers are taken first, then the
    loads and the advances run, first come first served. *)

Definition loaded_call (c : advance_call) (loading : list QuorumHeadMember) (ob : quorumMemberObservation) : advance_call :=
  {| ac_loading := loading; ac_loadResults := ac_loadResults c ++ [ob];
     ac_candidates := ac_candidates c; ac_launched := ac_launched c; ac_running := ac_running c;
     ac_advanceResults := ac_advanceResults c; ac_successes := ac_successes c;
     ac_loadReturned := ac_loadReturned c; ac_advancePending := ac_advancePending c;
     ac_quorumEstablished := ac_quorumEstablished c; ac_result := ac_result c |}.

Definition advanced_call (c : advance_call) (running : list quorumMemberObservation) (m : QuorumHeadMember)
    (r : result ExternalHead) : advance_call :=
  {| ac_loading := ac_loading c; ac_loadResults := ac_loadResults c; ac_candidates := ac_candidates c;
     ac_launched := ac_launched c; ac_running := running;
     ac_advanceResults := ac_advanceResults c ++ [(m, r)]; ac_successes := ac_successes c;
     ac_loadReturned := ac_loadReturned c; ac_advancePending := ac_advancePending c;
     ac_quorumEstablished := ac_quorumEstablished c; ac_result := ac_result c |}.

Definition scheduled_step (s : QuorumHeadStore) (p n : ExternalHead) (ws : gmap string W) (c : advance_call)
    : option (option string * gmap string W * advance_call) :=
  match ac_result c with
  | Some _ => None
  | None =>
      match loop_returns s n c with
      | Some r => Some (None, ws, return_with r c)
      | None =>
          match ac_loadResults c, ac_advanceResults c, ac_loading c, ac_running c with
          | ob :: rest, _, _, _ => Some (None, ws, receive_load s p ob rest c)
          | [], a :: rest, _, _ => Some (None, ws, receive_advance n a rest c)
          | [], [], m :: rest, _ =>
              w ← ws !! qm_ID m;
              let '(r, w') := loadMember s m (eh_JournalID n) w in
              Some (None, <[qm_ID m := w']> ws, loaded_call c rest (observation_of m r))
          | [], [], [], ob :: rest =>
              w ← ws !! ob_id ob;
              let '(r, w') := compareAndAdvanceMember s (ob_member ob) (member_previous ob) (with_version "" n) w in
              Some (if is_ok r then Some (ob_id ob) else None, <[ob_id ob := w']> ws,
                    advanced_call c rest (ob_member ob) r)
          | [], [], [], [] => None
          end
      end
  end.

Lemma scheduled_step_ok s p n ws c o ws' c' : scheduled_step s p n ws c = Some (o, ws', c') →
  call_step s p n (ws, c) o (ws', c').
Proof.
  unfold scheduled_step. destruct (ac_result c) eqn:Hr; [done|]. destruct (loop_returns s n c) eqn:Hl.
  { intros [= <- <- <-]. by apply cs_return. }
  destruct (ac_loadResults c) as [|ob rest] eqn:H1; [|intros [= <- <- <-]; by apply (cs_receive_load _ _ _ _ _ [])].
  destruct (ac_advanceResults c) as [|a rest] eqn:H2; [|intros [= <- <- <-]; by apply (cs_receive_advance _ _ _ _ _ [])].
  destruct (ac_loading c) as [|m rest] eqn:H3.
  - destruct (ac_running c) as [|ob rest] eqn:H4; [done|]. destruct (ws !! ob_id ob) as [w|] eqn:Hw; [|done]. simpl.
    destruct (compareAndAdvanceMember s _ _ _ w) as [r w'] eqn:Hm. intros [= <- <- <-].
    by apply (cs_advance _ _ _ _ _ [] _ rest w).
  - destruct (ws !! qm_ID m) as [w|] eqn:Hw; [|done]. simpl.
    destruct (loadMember s m (eh_JournalID n) w) as [r w'] eqn:Hm. intros [= <- <- <-].
    by apply (cs_load _ _ _ _ _ [] _ rest w).
Qed.

(** Call [i] of a system, run by the schedule. *)
Fixpoint run_scheduled (s : QuorumHeadStore) (i : nat) (fuel : nat) (sy : quorum_system) : quorum_system :=
  match fuel with
  | O => sy
  | S fuel =>
      match qy_Calls sy !! i with
      | None => sy
      | Some (p, n, c) =>
          match scheduled_step s p n (qy_Stores sy) c with
          | None => sy
          | Some (o, ws', c') =>
              run_scheduled s i fuel {| qy_Stores := ws'; qy_Calls := <[i := (p, n, c')]> (qy_Calls sy);
                qy_Accepted := accepted_after i p n (qy_Accepted sy) o |}
          end
      end
  end.

Lemma run_scheduled_reachable s i fuel sy : rtc (quorum_step s) sy (run_scheduled s i fuel sy).
Proof.
  revert sy. induction fuel as [|fuel IH]; intros [ws calls acc]; [done|]. simpl.
  destruct (calls !! i) as [[[p n] c]|] eqn:Hi; [|done].
  destruct (scheduled_step s p n ws c) as [[[o ws'] c']|] eqn:Hs; [|done].
  eapply rtc_l; [|apply IH]. by apply (qs_call _ _ _ _ _ _ _ _ c), scheduled_step_ok.
Qed.

(** Start a call and run it. *)
Definition client_call (s : QuorumHeadStore) (i : nat) (previous next : ExternalHead) (fuel : nat) (sy : quorum_system)
    : quorum_system :=
  match advance_expected s previous next, qy_Calls sy !! i with
  | Ok expected, None =>
      run_scheduled s i fuel {| qy_Stores := qy_Stores sy; qy_Calls := <[i := (expected, next, new_call s)]> (qy_Calls sy);
                                qy_Accepted := qy_Accepted sy |}
  | _, _ => sy
  end.

Lemma client_call_reachable s i previous next fuel sy : rtc (quorum_step s) sy (client_call s i previous next fuel sy).
Proof.
  unfold client_call. destruct (advance_expected s previous next) as [e|] eqn:He; [|done].
  destruct sy as [ws calls acc]. simpl. destruct (calls !! i) eqn:Hi; [done|].
  eapply rtc_l; [by eapply qs_start|]. apply run_scheduled_reachable.
Qed.

Definition result_of (i : nat) (sy : quorum_system) : option (result ExternalHead) :=
  match qy_Calls sy !! i with Some (_, _, c) => ac_result c | None => None end.

(** * An uncontended call succeeds

    A call that runs alone, while a quorum of healthy members holds the expected
    head; the other members may answer anything. *)

(** One step of the call while its context lasts. *)
Definition lasting_step (s : QuorumHeadStore) (p n : ExternalHead) (a b : gmap string W * advance_call) : Prop :=
  ∃ o, call_step s p n a o b ∧ ac_result b.2 ≠ Some (Error context_done).

(** The member would now accept the advance, on the strength of [ob]. *)
Definition ready (s : QuorumHeadStore) (n : ExternalHead) (ob : quorumMemberObservation) (w : W) : Prop :=
  ∃ h w', compareAndAdvanceMember s (ob_member ob) (member_previous ob) (with_version "" n) w = (Ok h, w') ∧
          sameSemanticHead h n = true.

(** The member holds the expected head and serves a load, then the advance. *)
Definition healthy (s : QuorumHeadStore) (p n : ExternalHead) (m : QuorumHeadMember) (w : W) : Prop :=
  ∃ r w', loadMember s m (eh_JournalID n) w = (r, w') ∧
    observationMatchesExpected (observation_of m r) p = true ∧ ready s n (observation_of m r) w'.

(** How far a healthy member has come in the call. *)
Inductive progress (s : QuorumHeadStore) (p n : ExternalHead) (ws : gmap string W) (c : advance_call)
    (m : QuorumHeadMember) : Prop :=
  | at_load w : m ∈ ac_loading c → ws !! qm_ID m = Some w → healthy s p n m w → progress s p n ws c m
  | at_loaded ob w : ob ∈ ac_loadResults c → ob_member ob = m → observationMatchesExpected ob p = true →
      ws !! qm_ID m = Some w → ready s n ob w → progress s p n ws c m
  | at_candidate ob w : ob ∈ ac_candidates c → ob_member ob = m → ac_quorumEstablished c = false →
      ws !! qm_ID m = Some w → ready s n ob w → progress s p n ws c m
  | at_advance ob w : ob ∈ ac_running c → ob_member ob = m → ws !! qm_ID m = Some w → ready s n ob w → progress s p n ws c m
  | at_answer h : (m, Ok h) ∈ ac_advanceResults c → sameSemanticHead h n = true → progress s p n ws c m
  | at_success ob : ob ∈ ac_successes c → ob_member ob = m → progress s p n ws c m.

Definition unasked (c : advance_call) : list string :=
  (qm_ID <$> ac_loading c) ++ (ob_id <$> ac_loadResults c) ++ (ob_id <$> ac_candidates c).

(** The bookkeeping of the loop. *)
Record live_core (s : QuorumHeadStore) (n : ExternalHead) (ws : gmap string W) (c : advance_call) : Prop := {
  li_loads : (length (ac_loading c) + length (ac_loadResults c) + ac_loadReturned c = length (qs_members s))%nat;
  li_advances : (length (ac_running c) + length (ac_advanceResults c) = ac_advancePending c)%nat;
  li_unasked : NoDup (unasked c);
  li_running : NoDup (ob_id <$> ac_running c);
  li_asked : engaged c ⊆ ac_launched c;
  li_launched : ac_launched c ⊆ ob_id <$> ac_candidates c;
  li_launched_nodup : NoDup (ac_launched c);
  li_stores m : m ∈ member_ids s → is_Some (ws !! m);
  li_asks : unasked c ⊆ member_ids s;
  li_result r : ac_result c = Some r → ∃ h, r = Ok h ∧ semanticExternalHead h = semanticExternalHead n }.

Definition waiting (s : QuorumHeadStore) (c : advance_call) : Prop :=
  ac_quorumEstablished c = false → Z.of_nat (length (ac_candidates c)) < qs_threshold s ∧ ac_launched c = [].

Record live_inv (s : QuorumHeadStore) (p n : ExternalHead) (H : list QuorumHeadMember) (ws : gmap string W) (c : advance_call)
    : Prop := {
  li_core : live_core s n ws c;
  li_waiting : waiting s c;
  li_progress m : m ∈ H → progress s p n ws c m }.

Definition call_measure (c : advance_call) : nat :=
  (5 * length (ac_loading c) + 4 * length (ac_loadResults c) +
   2 * (length (ac_candidates c) - length (ac_launched c)) + 2 * length (ac_running c) +
   length (ac_advanceResults c) + (if ac_result c then 0 else 1))%nat.

(** ** Launching *)

(** A candidate is launched once: it runs, or it has been launched before. *)
Lemma launch_running c ob : ac_running (launch c ob) = (if bool_decide (ob_id ob ∈ ac_launched c) then [] else [ob]) ++ ac_running c.
Proof. unfold launch. by case_bool_decide. Qed.

Lemma launch_launched c ob :
  ac_launched (launch c ob) = (if bool_decide (ob_id ob ∈ ac_launched c) then [] else [ob_id ob]) ++ ac_launched c.
Proof. unfold launch. by case_bool_decide. Qed.

(** What launching leaves alone. *)
Definition same_but_launched (c c' : advance_call) : Prop :=
  ac_loading c' = ac_loading c ∧ ac_loadResults c' = ac_loadResults c ∧ ac_candidates c' = ac_candidates c ∧
  ac_advanceResults c' = ac_advanceResults c ∧ ac_successes c' = ac_successes c ∧
  ac_loadReturned c' = ac_loadReturned c ∧ ac_quorumEstablished c' = ac_quorumEstablished c ∧ ac_result c' = ac_result c.

Lemma launch_same c ob : same_but_launched c (launch c ob).
Proof. unfold launch. by case_bool_decide. Qed.

(** Launching distinct members none of which has been launched. *)
Lemma launch_all l c : NoDup (ob_id <$> l) → (∀ ob, ob ∈ l → ob_id ob ∉ ac_launched c) →
  let c' := foldl launch c l in
  same_but_launched c c' ∧ ac_running c' = reverse l ++ ac_running c ∧
  ac_launched c' = reverse (ob_id <$> l) ++ ac_launched c ∧
  ac_advancePending c' = (length l + ac_advancePending c)%nat.
Proof.
  revert c. induction l as [|ob l IH]; [done|]. intros c [Hob Hnd]%NoDup_cons Hl. simpl.
  assert (ob_id ob ∉ ac_launched c) as Hn by (apply Hl; left).
  destruct (IH (launch c ob)) as (Hs & Hr & Hla & Hp); [done| |].
  { intros ob' Hin. rewrite launch_launched, bool_decide_eq_false_2 by done. simpl.
    intros [Heq|Hin']%elem_of_cons; [|by apply (Hl ob'); [right|]]. apply Hob. rewrite <- Heq. by apply list_elem_of_fmap_2. }
  rewrite Hr, Hla, Hp, launch_running, launch_launched, bool_decide_eq_false_2, !reverse_cons by done.
  split_and!; [|by rewrite <- app_assoc..|].
  - unfold same_but_launched in *. destruct (launch_same c ob) as (?&?&?&?&?&?&?&?). destruct Hs as (?&?&?&?&?&?&?&?).
    split_and!; congruence.
  - unfold launch. rewrite bool_decide_eq_false_2 by done. simpl. lia.
Qed.

Lemma establish_spec c : NoDup (ob_id <$> ac_candidates c) → ac_launched c = [] →
  let c' := establish c in
  same_but_launched (mark_established c) c' ∧ ac_running c' = reverse (ac_candidates c) ++ ac_running c ∧
  ac_launched c' = reverse (ob_id <$> ac_candidates c) ∧
  ac_advancePending c' = (length (ac_candidates c) + ac_advancePending c)%nat.
Proof.
  intros Hnd Hl. destruct (launch_all (ac_candidates c) (mark_established c)) as (Hs & Hr & Hla & Hp); [done| |].
  { intros ob _. simpl. rewrite Hl. by apply not_elem_of_nil. }
  simpl in *. rewrite Hl, app_nil_r in Hla. done.
Qed.

(** ** An answer to a load *)

Lemma take_load_core s n ws c ob b l1 l2 : ac_loadResults c = l1 ++ ob :: l2 → ac_result c = None →
  live_core s n ws c → let c1 := take_load ob b (l1 ++ l2) c in
  live_core s n ws c1 ∧ ob_id ob ∉ ac_launched c1 ∧
  (b = true → (call_measure c1 + 2 = call_measure c)%nat) ∧ (b = false → (call_measure c1 < call_measure c)%nat).
Proof.
  intros Hl Hr []. cbv zeta.
  assert (unasked c ≡ₚ ob_id ob :: (qm_ID <$> ac_loading c) ++ (ob_id <$> (l1 ++ l2)) ++ (ob_id <$> ac_candidates c)) as Hperm.
  { unfold unasked. rewrite Hl, !fmap_app. simpl. solve_Permutation. }
  assert (∀ x, x ∈ unasked (take_load ob b (l1 ++ l2) c) → x ∈ unasked c) as Hsub.
  { intros x. rewrite Hperm. unfold unasked. simpl. destruct b; rewrite !fmap_app; simpl; set_solver. }
  rewrite Hperm in li_unasked0. apply NoDup_cons in li_unasked0 as [Hob Hun].
  assert (ob_id ob ∉ ac_launched c) as Hnl by (intros Hin%li_launched0; set_solver).
  assert (length (ac_launched c) ≤ length (ac_candidates c))%nat as Hlen.
  { rewrite <- (length_fmap ob_id (ac_candidates c)). by apply submseteq_length, NoDup_submseteq. }
  split_and!; [split; try done|done| |]; simpl.
  - rewrite Hl, length_app in li_loads0. simpl in li_loads0. rewrite length_app. lia.
  - unfold unasked. simpl. destruct b; [|done]. rewrite (fmap_app _ (ac_candidates c)). simpl.
    rewrite !app_assoc, <- (Permutation_cons_append _ (ob_id ob)), <- app_assoc. by constructor.
  - destruct b; [|done]. rewrite fmap_app. set_solver.
  - intros x Hx. by apply li_asks0, Hsub.
  - intros ->. unfold call_measure. simpl. rewrite Hr, Hl, !length_app. simpl. lia.
  - intros ->. unfold call_measure. simpl. rewrite Hr, Hl, !length_app. simpl. lia.
Qed.

(** The member whose answer was taken is a candidate now; the others stand
    where they stood. *)
Lemma take_load_progress s p n ws c ob l1 l2 m : ac_loadResults c = l1 ++ ob :: l2 → progress s p n ws c m →
  let b := observationMatchesExpected ob p in let c1 := take_load ob b (l1 ++ l2) c in
  (b = true ∧ ob_member ob = m ∧ ∃ w, ws !! qm_ID m = Some w ∧ ready s n ob w) ∨ progress s p n ws c1 m.
Proof.
  intros Hl Hp. cbv zeta. destruct Hp as [w|ob' w Hin' Hid Hmt|ob' w Hin'|ob' w|h|ob'].
  - right. by eapply at_load.
  - assert (ob' = ob ∨ ob' ∈ l1 ++ l2) as [->|Hin] by (rewrite Hl in Hin'; set_solver);
      [left; split_and!; [done..|by exists w]|right].
    by eapply (at_loaded _ _ _ _ _ _ ob').
  - right. eapply (at_candidate _ _ _ _ _ _ ob'); try done. simpl. destruct (observationMatchesExpected ob p); set_solver.
  - right. by eapply at_advance.
  - right. by eapply at_answer.
  - right. by eapply at_success.
Qed.

(** Launching moves candidates to the running advances. *)
Lemma launched_core s n ws c c' l : same_but_launched c c' → ac_running c' = l ++ ac_running c →
  ac_launched c' = (ob_id <$> l) ++ ac_launched c → ac_advancePending c' = (length l + ac_advancePending c)%nat →
  NoDup (ac_launched c') → (∀ ob, ob ∈ l → ob ∈ ac_candidates c) → live_core s n ws c →
  live_core s n ws c' ∧ call_measure c' = call_measure c.
Proof.
  intros (E1 & E2 & E3 & E4 & E5 & E6 & E7 & E8) E9 E10 E11 Hnd Hl [].
  assert (ac_launched c' ⊆ ob_id <$> ac_candidates c') as Hla.
  { rewrite E10, E3. intros x [(ob & -> & Hin)%list_elem_of_fmap|Hin]%elem_of_app; [|by apply li_launched0].
    apply list_elem_of_fmap_2. by apply Hl. }
  assert (length (ac_launched c') ≤ length (ac_candidates c'))%nat as Hlen.
  { rewrite <- (length_fmap ob_id (ac_candidates c')). by apply submseteq_length, NoDup_submseteq. }
  split.
  - split; try done.
    + by rewrite E1, E2, E6.
    + rewrite E9, E11, E4, length_app. lia.
    + unfold unasked. by rewrite E1, E2, E3.
    + rewrite E9, fmap_app. rewrite E10 in Hnd. apply NoDup_app in Hnd as (? & Hd & ?). apply NoDup_app.
      split_and!; [done| |done]. intros x Hx Hx'. apply (Hd x), li_asked0; [done|]. unfold engaged. set_solver.
    + unfold engaged in *. rewrite E4, E5, E9, E10, fmap_app. set_solver.
    + unfold unasked. by rewrite E1, E2, E3.
    + by rewrite E8.
  - unfold call_measure. rewrite E3, E10, length_app, length_fmap in Hlen.
    rewrite E1, E2, E3, E4, E8, E9, E10, !length_app, length_fmap. lia.
Qed.

Lemma launched_progress s p n ws c c' l m : ac_loading c' = ac_loading c → ac_loadResults c' = ac_loadResults c →
  ac_advanceResults c' = ac_advanceResults c → ac_successes c' = ac_successes c → ac_running c' = l ++ ac_running c →
  progress s p n ws c m → ac_quorumEstablished c = true ∨ l ≡ₚ ac_candidates c → progress s p n ws c' m.
Proof.
  intros E1 E2 E4 E5 E9 Hp He. destruct Hp as [w|ob' w|ob' w Hin ? Hest|ob' w|h|ob'].
  - eapply at_load; try done. by rewrite E1.
  - eapply (at_loaded _ _ _ _ _ _ ob'); try done. by rewrite E2.
  - destruct He as [He|He]; [congruence|]. eapply (at_advance _ _ _ _ _ _ ob'); try done.
    rewrite E9. apply elem_of_app. left. by rewrite He.
  - eapply (at_advance _ _ _ _ _ _ ob'); try done. rewrite E9. apply elem_of_app. by right.
  - eapply at_answer; try done. by rewrite E4.
  - eapply at_success; try done. by rewrite E5.
Qed.

Lemma unasked_candidates c : NoDup (unasked c) → NoDup (ob_id <$> ac_candidates c).
Proof. intros (_ & _ & H)%NoDup_app. by apply NoDup_app in H as (_ & _ & ?). Qed.

(** The loop body on an answer, before it gives up for want of candidates. *)
Definition body_load (s : QuorumHeadStore) (p : ExternalHead) (ob : quorumMemberObservation) (c1 : advance_call) : advance_call :=
  if negb (observationMatchesExpected ob p) then c1
  else if ac_quorumEstablished c1 then launch c1 ob
  else if qs_threshold s <=? Z.of_nat (length (ac_candidates c1)) then establish c1 else c1.

Lemma established_live s p n H ws c1 : live_core s n ws c1 → ac_launched c1 = [] → ac_result c1 = None →
  (∀ m, m ∈ H → (∃ ob w, ob ∈ ac_candidates c1 ∧ ob_member ob = m ∧ ws !! qm_ID m = Some w ∧ ready s n ob w) ∨
                progress s p n ws c1 m) →
  live_inv s p n H ws (establish c1) ∧ call_measure (establish c1) = call_measure c1.
Proof.
  intros Hcore Hla Hr Hprog. pose proof (unasked_candidates _ (li_unasked _ _ _ _ Hcore)) as Hnd.
  destruct (establish_spec c1 Hnd Hla) as (Hs & E9 & E10 & E11).
  rewrite <- fmap_reverse in E10. rewrite <- length_reverse in E11.
  destruct (launched_core s n ws (mark_established c1) (establish c1) (reverse (ac_candidates c1))) as [Hc2 Hm]; try done.
  - rewrite E10. simpl. by rewrite Hla, app_nil_r.
  - rewrite E10, fmap_reverse. by rewrite reverse_Permutation.
  - intros ob Hob. rewrite elem_of_reverse in Hob. exact Hob.
  - by destruct Hcore.
  - split; [|by rewrite Hm]. split; [done| |].
    + intros He. destruct Hs as (_ & _ & _ & _ & _ & _ & E7 & _). by rewrite E7 in He.
    + intros m [(ob & w & Hin & Hid & Hw & Hrd)|Hp]%Hprog.
      * eapply (at_advance _ _ _ _ _ _ ob); try done. rewrite E9. apply elem_of_app. left. by apply elem_of_reverse.
      * destruct Hs as (F1 & F2 & _ & F4 & F5 & _ & _ & _).
        by apply (launched_progress _ _ _ _ c1 _ (reverse (ac_candidates c1))); [..|right; apply reverse_Permutation].
Qed.

Lemma launched_one_live s p n H ws c1 ob : live_core s n ws c1 → ob_id ob ∉ ac_launched c1 → ob ∈ ac_candidates c1 →
  ac_quorumEstablished c1 = true →
  (∀ m, m ∈ H → (ob_member ob = m ∧ ∃ w, ws !! qm_ID m = Some w ∧ ready s n ob w) ∨ progress s p n ws c1 m) →
  live_inv s p n H ws (launch c1 ob) ∧ call_measure (launch c1 ob) = call_measure c1.
Proof.
  intros Hcore Hn Hob Hest Hprog. pose proof (launch_same c1 ob) as Hs.
  pose proof (launch_running c1 ob) as E9. pose proof (launch_launched c1 ob) as E10.
  rewrite bool_decide_eq_false_2 in E9, E10 by done.
  destruct (launched_core s n ws c1 (launch c1 ob) [ob]) as [Hc2 Hm]; try done.
  - unfold launch. by rewrite bool_decide_eq_false_2.
  - rewrite E10. constructor; [done|]. by destruct Hcore.
  - by intros ob' ->%list_elem_of_singleton.
  - destruct Hs as (F1 & F2 & F3 & F4 & F5 & F6 & F7 & F8). split; [|done]. split; [done| |].
    + intros He. congruence.
    + intros m [(Hid & w & Hw & Hrd)|Hp]%Hprog.
      * eapply (at_advance _ _ _ _ _ _ ob); try done. rewrite E9. left.
      * by apply (launched_progress _ _ _ _ c1 _ [ob]); [..|left].
Qed.

Lemma receive_load_live s p n H ws c ob l1 l2 : ac_loadResults c = l1 ++ ob :: l2 → ac_result c = None →
  live_inv s p n H ws c →
  let c2 := body_load s p ob (take_load ob (observationMatchesExpected ob p) (l1 ++ l2) c) in
  live_inv s p n H ws c2 ∧ (call_measure c2 < call_measure c)%nat.
Proof.
  intros Hl Hr [Hcore Hwait Hprog]. cbv zeta.
  pose proof (λ m Hin, take_load_progress _ _ _ _ _ _ _ _ m Hl (Hprog m Hin)) as Hp. cbv zeta in Hp.
  destruct (take_load_core _ _ _ _ _ (observationMatchesExpected ob p) _ _ Hl Hr Hcore) as (Hc1 & Hn & Hm1 & Hm2).
  assert (ac_result (take_load ob (observationMatchesExpected ob p) (l1 ++ l2) c) = None) as Hr1 by done.
  assert (observationMatchesExpected ob p = true →
    ob ∈ ac_candidates (take_load ob (observationMatchesExpected ob p) (l1 ++ l2) c)) as Hcand.
  { intros ->. simpl. set_solver. }
  assert (ac_launched (take_load ob (observationMatchesExpected ob p) (l1 ++ l2) c) = ac_launched c) as Hla by done.
  assert (observationMatchesExpected ob p = false →
    waiting s (take_load ob (observationMatchesExpected ob p) (l1 ++ l2) c)) as Hwf by (by intros ->).
  assert (ac_quorumEstablished (take_load ob (observationMatchesExpected ob p) (l1 ++ l2) c) = ac_quorumEstablished c)
    as Hest by done.
  revert Hp Hc1 Hn Hm1 Hm2 Hr1 Hcand Hla Hwf Hest.
  generalize (take_load ob (observationMatchesExpected ob p) (l1 ++ l2) c) as c1.
  intros c1 Hp Hc1 Hn Hm1 Hm2 Hr1 Hcand Hla Hwf Hest. unfold body_load.
  destruct (observationMatchesExpected ob p); cbn [negb].
  2: { split; [|by apply Hm2]. split; [done|by apply Hwf|]. intros m [[? _]|?]%Hp; done. }
  specialize (Hm1 eq_refl). specialize (Hcand eq_refl).
  destruct (ac_quorumEstablished c1) eqn:He; [|destruct (Z.leb_spec (qs_threshold s) (Z.of_nat (length (ac_candidates c1))))].
  - destruct (launched_one_live s p n H ws c1 ob) as [? ?]; [done..| |split; [done|lia]].
    intros m [(_ & Hid & Hw)|?]%Hp; [by left|by right].
  - destruct (established_live s p n H ws c1) as [? ?]; [done|by rewrite Hla; apply Hwait|done| |split; [done|lia]].
    intros m [(_ & Hid & w & Hw & Hrd)|?]%Hp; [left; by exists ob, w|by right].
  - split; [|lia]. split; [done| |].
    + intros _. split; [done|]. rewrite Hla. by apply Hwait.
    + intros m [(_ & Hid & w & Hw & Hrd)|?]%Hp; [|done]. by eapply (at_candidate _ _ _ _ _ _ ob).
Qed.

(** ** The other steps *)

Lemma unasked_parts c : NoDup (unasked c) →
  NoDup (qm_ID <$> ac_loading c) ∧
  (∀ m, m ∈ ac_loading c → qm_ID m ∉ ob_id <$> ac_loadResults c ∧ qm_ID m ∉ ob_id <$> ac_candidates c) ∧
  (∀ ob, ob ∈ ac_loadResults c → ob_id ob ∉ ob_id <$> ac_candidates c).
Proof.
  unfold unasked. intros (Hl & Hd & H)%NoDup_app. apply NoDup_app in H as (_ & Hd' & _). split_and!; [done| |].
  - intros m Hm%(list_elem_of_fmap_2 qm_ID)%Hd. set_solver.
  - intros ob Hob%(list_elem_of_fmap_2 ob_id). by apply Hd'.
Qed.

Lemma fmap_NoDup_inj {A B} (f : A → B) (l : list A) x y : NoDup (f <$> l) → x ∈ l → y ∈ l → f x = f y → x = y.
Proof.
  intros Hn [i Hi]%list_elem_of_lookup [j Hj]%list_elem_of_lookup Hf.
  assert (i = j) as ->; [|congruence].
  eapply (NoDup_lookup (f <$> l)); [done|rewrite list_lookup_fmap, Hi; reflexivity|].
  rewrite list_lookup_fmap, Hj. simpl. by rewrite Hf.
Qed.

(** The store of one member changes; the others' progress does not. *)
Lemma progress_other_store s p n ws c m id w' : id ≠ qm_ID m → progress s p n ws c m → progress s p n (<[id := w']> ws) c m.
Proof.
  intros Hne [w ? Hw ?|ob w ? ? ? Hw ?|ob w ? ? ? Hw ?|ob w ? ? Hw ?|h|ob];
    [eapply at_load|eapply (at_loaded _ _ _ _ _ _ ob)|eapply (at_candidate _ _ _ _ _ _ ob)|
     eapply (at_advance _ _ _ _ _ _ ob)|eapply at_answer|eapply at_success]; try done; by rewrite lookup_insert_ne.
Qed.

Lemma stores_insert s (ws : gmap string W) id w' : (∀ m, m ∈ member_ids s → is_Some (ws !! m)) →
  ∀ m, m ∈ member_ids s → is_Some (<[id := w']> ws !! m).
Proof. intros H m Hm. apply lookup_insert_is_Some'. right. by apply H. Qed.

Lemma observation_member m r : ob_member (observation_of m r) = m.
Proof. by destruct r. Qed.

Lemma load_live s p n H ws c l1 m l2 w r w' : ac_loading c = l1 ++ m :: l2 → ws !! qm_ID m = Some w →
  loadMember s m (eh_JournalID n) w = (r, w') → live_inv s p n H ws c →
  live_inv s p n H (<[qm_ID m := w']> ws) (loaded_call c (l1 ++ l2) (observation_of m r)) ∧
  (call_measure (loaded_call c (l1 ++ l2) (observation_of m r)) < call_measure c)%nat.
Proof.
  intros Hl Hw Hm [[] Hwait Hprog]. assert (m ∈ ac_loading c) as Hin by (rewrite Hl; set_solver).
  destruct (unasked_parts c li_unasked0) as (Hnd & Hload & _). destruct (Hload m Hin) as [Hnr Hnc].
  assert (unasked (loaded_call c (l1 ++ l2) (observation_of m r)) ≡ₚ unasked c) as Hperm.
  { unfold unasked, loaded_call. simpl. rewrite Hl, !fmap_app. simpl. unfold ob_id at 2. rewrite observation_member.
    solve_Permutation. }
  split; [split; [split; try done|done|]|unfold call_measure; simpl; rewrite Hl, !length_app; simpl; lia].
  - simpl. rewrite Hl, !length_app in *. simpl in *. lia.
  - by rewrite Hperm.
  - by apply stores_insert.
  - intros x. rewrite Hperm. apply li_asks0.
  - intros m' Hin'. destruct (decide (qm_ID m = qm_ID m')) as [Hid|Hne].
    + destruct (Hprog m' Hin') as [w1 Hm' Hw1 (r1 & w2 & Hlm & Hmt & Hrd)|ob w1 Ho Hom|ob w1 Ho Hom|ob w1 Ho Hom|h Ho|ob Ho Hom].
      * assert (m' = m) as -> by by apply (fmap_NoDup_inj qm_ID (ac_loading c)).
        rewrite Hw in Hw1. injection Hw1 as <-. rewrite Hm in Hlm. injection Hlm as <- <-.
        apply (at_loaded _ _ _ _ _ _ (observation_of m r) w'); try done; [simpl; set_solver|apply observation_member|].
        by rewrite lookup_insert_eq.
      * exfalso. apply Hnr. rewrite Hid, <- Hom. by apply (list_elem_of_fmap_2 ob_id).
      * exfalso. apply Hnc. rewrite Hid, <- Hom. by apply (list_elem_of_fmap_2 ob_id).
      * exfalso. apply Hnc, li_launched0, li_asked0. unfold engaged. rewrite Hid, <- Hom. apply elem_of_app. left.
        by apply (list_elem_of_fmap_2 ob_id).
      * by eapply at_answer.
      * by eapply at_success.
    + apply progress_other_store; [done|].
      destruct (Hprog m' Hin') as [w1 Hm' ? ?|ob w1|ob w1|ob w1|h|ob].
      * eapply at_load; try done. simpl. rewrite Hl in Hm'. assert (m' ≠ m) by congruence. set_solver.
      * eapply (at_loaded _ _ _ _ _ _ ob); try done. simpl. set_solver.
      * by eapply (at_candidate _ _ _ _ _ _ ob).
      * by eapply (at_advance _ _ _ _ _ _ ob).
      * by eapply at_answer.
      * by eapply at_success.
Qed.

Lemma advance_live s p n H ws c l1 ob l2 w r w' : ac_running c = l1 ++ ob :: l2 → ws !! ob_id ob = Some w →
  compareAndAdvanceMember s (ob_member ob) (member_previous ob) (with_version "" n) w = (r, w') → live_inv s p n H ws c →
  live_inv s p n H (<[ob_id ob := w']> ws) (advanced_call c (l1 ++ l2) (ob_member ob) r) ∧
  (call_measure (advanced_call c (l1 ++ l2) (ob_member ob) r) < call_measure c)%nat.
Proof.
  intros Hl Hw Hm [[] Hwait Hprog]. assert (ob ∈ ac_running c) as Hin by (rewrite Hl; set_solver).
  destruct (unasked_parts c li_unasked0) as (_ & Hload & Hloaded).
  assert (ob_id ob ∈ ac_launched c) as Hla.
  { apply li_asked0. unfold engaged. apply elem_of_app. left. by apply list_elem_of_fmap_2. }
  pose proof (li_launched0 _ Hla) as Hcand.
  assert (engaged (advanced_call c (l1 ++ l2) (ob_member ob) r) ≡ₚ engaged c) as Hperm.
  { unfold engaged, advanced_call. simpl. rewrite Hl, !fmap_app. simpl. unfold ob_id. solve_Permutation. }
  split; [split; [split; try done|done|]|unfold call_measure; simpl; rewrite Hl, !length_app; simpl; lia].
  - simpl. rewrite Hl, !length_app in *. simpl in *. lia.
  - simpl. rewrite Hl, fmap_app in li_running0. simpl in li_running0. rewrite fmap_app.
    rewrite <- Permutation_middle in li_running0. by apply NoDup_cons in li_running0 as [_ ?].
  - intros x. rewrite Hperm. apply li_asked0.
  - by apply stores_insert.
  - intros m' Hin'. destruct (decide (ob_id ob = qm_ID m')) as [Hid|Hne].
    + destruct (Hprog m' Hin') as [w1 Hm' Hw1|ob' w1 Ho Hom|ob' w1 Ho Hom He|ob' w1 Ho Hom Hw1 (h & w2 & Hadv & Hs)|h Ho|ob' Ho Hom].
      * exfalso. rewrite Hid in Hcand. by destruct (Hload m' Hm') as [_ ?].
      * exfalso. apply (Hloaded ob' Ho). unfold ob_id at 1. by rewrite Hom, <- Hid.
      * exfalso. destruct (Hwait He) as [_ Hnil]. rewrite Hnil in Hla. by apply not_elem_of_nil in Hla.
      * assert (ob' = ob) as ->.
        { apply (fmap_NoDup_inj ob_id (ac_running c)); [done..|]. unfold ob_id at 1. by rewrite Hom. }
        rewrite <- Hid, Hw in Hw1. injection Hw1 as <-. rewrite Hm in Hadv. injection Hadv as -> <-.
        apply (at_answer _ _ _ _ _ _ h); [simpl; rewrite Hom; set_solver|done].
      * eapply at_answer; [|done]. simpl. set_solver.
      * by eapply at_success.
    + apply progress_other_store; [done|].
      destruct (Hprog m' Hin') as [w1 Hm' ? ?|ob' w1|ob' w1|ob' w1 Ho Hom ? ?|h|ob'].
      * by eapply at_load.
      * by eapply (at_loaded _ _ _ _ _ _ ob').
      * by eapply (at_candidate _ _ _ _ _ _ ob').
      * eapply (at_advance _ _ _ _ _ _ ob'); try done. simpl. rewrite Hl in Ho.
        assert (ob' ≠ ob) by (intros ->; apply Hne; unfold ob_id; congruence). set_solver.
      * eapply at_answer; [|done]. simpl. set_solver.
      * by eapply at_success.
Qed.

Lemma receive_advance_live s p n H ws c a l1 l2 : ac_advanceResults c = l1 ++ a :: l2 → ac_result c = None →
  live_inv s p n H ws c →
  live_inv s p n H ws (receive_advance n a (l1 ++ l2) c) ∧ (call_measure (receive_advance n a (l1 ++ l2) c) < call_measure c)%nat.
Proof.
  intros Hl Hr [[] Hwait Hprog]. destruct (engaged_receive n a l1 l2 c Hl) as [l Hperm].
  split; [split; [split; try done|done|]|unfold call_measure; simpl; rewrite Hr, Hl, !length_app; simpl; lia].
  - simpl. rewrite Hl, length_app in li_advances0. simpl in li_advances0. rewrite length_app, <- li_advances0. lia.
  - transitivity (engaged c); [|done]. intros x Hx. rewrite Hperm. set_solver.
  - intros m Hin. destruct (Hprog m Hin) as [w|ob w|ob w|ob w|h Ho|ob Ho].
    + by eapply at_load.
    + by eapply (at_loaded _ _ _ _ _ _ ob).
    + by eapply (at_candidate _ _ _ _ _ _ ob).
    + by eapply (at_advance _ _ _ _ _ _ ob).
    + assert (a = (m, Ok h) ∨ (m, Ok h) ∈ l1 ++ l2) as [->|Hin'] by (rewrite Hl in Ho; set_solver).
      * eapply (at_success _ _ _ _ _ _ {| ob_member := m; ob_head := h; ob_err := None; ob_notFound := false |}); [|done].
        simpl. match goal with Hs : sameSemanticHead h n = true |- _ => rewrite Hs end. set_solver.
      * by eapply at_answer.
    + eapply (at_success _ _ _ _ _ _ ob); [|done]. simpl. destruct a as [? [h|]]; simpl; [|done].
      destruct (sameSemanticHead h n); [|done]. set_solver.
Qed.

(** A quorum of members each of which is one of [l]. *)
Lemma quorum_in s (H : list QuorumHeadMember) (l : list string) : NoDup (qm_ID <$> H) →
  qs_threshold s ≤ Z.of_nat (length H) → (∀ m, m ∈ H → qm_ID m ∈ l) → qs_threshold s ≤ Z.of_nat (length l).
Proof.
  intros Hnd Ht Hin. assert (qm_ID <$> H ⊆+ l) as Hs%submseteq_length.
  { apply NoDup_submseteq; [done|]. intros x (m & -> & Hm)%list_elem_of_fmap. by apply Hin. }
  rewrite length_fmap in Hs. lia.
Qed.

(** Before the quorum is established a healthy member is still a possible candidate. *)
Lemma not_established s p n H ws c m : live_inv s p n H ws c → ac_quorumEstablished c = false → m ∈ H → qm_ID m ∈ unasked c.
Proof.
  intros [[] Hwait Hprog] He Hin. destruct (Hwait He) as [_ Hla]. unfold unasked.
  assert (∀ x, x ∈ engaged c → False) as Hno by (intros x Hx%li_asked0; rewrite Hla in Hx; by apply not_elem_of_nil in Hx).
  unfold engaged in Hno.
  destruct (Hprog m Hin) as [w ?|ob w Ho Hom|ob w Ho Hom|ob w Ho Hom|h Ho|ob Ho Hom].
  - apply elem_of_app. left. by apply list_elem_of_fmap_2.
  - apply elem_of_app. right. apply elem_of_app. left. rewrite <- Hom. by apply (list_elem_of_fmap_2 ob_id).
  - apply elem_of_app. right. apply elem_of_app. right. rewrite <- Hom. by apply (list_elem_of_fmap_2 ob_id).
  - destruct (Hno (ob_id ob)). apply elem_of_app. left. by apply list_elem_of_fmap_2.
  - destruct (Hno (qm_ID m)). apply elem_of_app. right. apply elem_of_app. left.
    by apply (list_elem_of_fmap_2 (λ a : QuorumHeadMember * result ExternalHead, qm_ID a.1) _ (m, Ok h)).
  - destruct (Hno (ob_id ob)). apply elem_of_app. right. apply elem_of_app. right. by apply list_elem_of_fmap_2.
Qed.

Section Healthy.
Context (s : QuorumHeadStore) (p n : ExternalHead) (H : list QuorumHeadMember)
  (Hnodup : NoDup (qm_ID <$> H)) (Hquorum : qs_threshold s ≤ Z.of_nat (length H)).

Lemma quorum_possible ws c : live_inv s p n H ws c → no_quorum_possible s c = false.
Proof.
  intros Hl. unfold no_quorum_possible. destruct (ac_quorumEstablished c) eqn:He; [done|]. cbn [negb andb].
  apply Z.ltb_ge. pose proof (quorum_in s H (unasked c) Hnodup Hquorum) as Hq.
  specialize (Hq (λ m Hm, not_established _ _ _ _ _ _ m Hl He Hm)).
  unfold unasked in Hq. rewrite !length_app, !length_fmap in Hq. destruct Hl as [[] _ _]. lia.
Qed.

(** The loop returns the new head or goes on. *)
Lemma loop_succeeds ws c r : live_inv s p n H ws c → loop_returns s n c = Some r →
  ∃ h, r = Ok h ∧ semanticExternalHead h = semanticExternalHead n.
Proof.
  intros Hl. unfold loop_returns. destruct (Z.leb_spec (qs_threshold s) (Z.of_nat (length (ac_successes c)))) as [Hle|Hlt].
  - unfold aggregateQuorumHead. apply Z.ltb_ge in Hle. rewrite Hle. intros [= <-]. by eexists.
  - destruct (Nat.eqb_spec (ac_loadReturned c) (length (qs_members s))) as [Hret|]; [|done].
    destruct (Nat.eqb_spec (ac_advancePending c) 0) as [Hp|]; [|done]. cbn [andb]. intros _. exfalso.
    pose proof Hl as [[] Hwait Hprog].
    assert (ac_loading c = [] ∧ ac_loadResults c = []) as [H1 H2] by (split; apply nil_length_inv; lia).
    assert (ac_running c = [] ∧ ac_advanceResults c = []) as [H3 H4] by (split; apply nil_length_inv; lia).
    destruct (ac_quorumEstablished c) eqn:He.
    + assert (qs_threshold s ≤ Z.of_nat (length (ob_id <$> ac_successes c))) as Hq; [|rewrite length_fmap in Hq; lia].
      apply (quorum_in s H); [done..|]. intros m Hm.
      destruct (Hprog m Hm) as [w Ho|ob w Ho|ob w Ho ? He'|ob w Ho|h Ho|ob Ho Hom];
        try (rewrite ?H1, ?H2, ?H3, ?H4 in Ho; by apply not_elem_of_nil in Ho); [congruence|].
      rewrite <- Hom. by apply (list_elem_of_fmap_2 ob_id).
    + pose proof (quorum_in s H (unasked c) Hnodup Hquorum (λ m Hm, not_established _ _ _ _ _ _ m Hl He Hm)) as Hq.
      unfold unasked in Hq. rewrite H1, H2 in Hq. simpl in Hq. rewrite length_fmap in Hq. apply Hwait in He as [? _]. lia.
Qed.

Lemma return_live ws c r h : r = Ok h → semanticExternalHead h = semanticExternalHead n → ac_result c = None →
  live_inv s p n H ws c → live_inv s p n H ws (return_with r c) ∧ (call_measure (return_with r c) < call_measure c)%nat.
Proof.
  intros -> Hh Hr [[] Hwait Hprog]. split; [split; [split; try done|done|]|].
  - intros r' [= <-]. by exists h.
  - intros m Hm. destruct (Hprog m Hm) as [w|ob w|ob w|ob w|h' Ho|ob Ho];
      [by eapply at_load|by eapply (at_loaded _ _ _ _ _ _ ob)|by eapply (at_candidate _ _ _ _ _ _ ob)|
       by eapply (at_advance _ _ _ _ _ _ ob)|by eapply at_answer|by eapply at_success].
  - unfold call_measure. simpl. rewrite Hr. lia.
Qed.

Lemma lasting_step_live ws c ws' c' : lasting_step s p n (ws, c) (ws', c') → live_inv s p n H ws c →
  live_inv s p n H ws' c' ∧ (call_measure c' < call_measure c)%nat.
Proof.
  intros (o & Hs & Hlast) Hl. inversion Hs as [ws1 c1 l1 m l2 w r w' Hld Hw Hm|ws1 c1 l1 ob l2 Hr Hloop Hld
    |ws1 c1 l1 ob l2 w r w' Hld Hw Hm|ws1 c1 l1 a l2 Hr Hloop Hld|ws1 c1 r Hr Hloop|ws1 c1 Hr Hloop]; subst.
  - by eapply load_live.
  - destruct (receive_load_live s p n H ws' c ob l1 l2 Hld Hr Hl) as [Hl2 Hm2]. unfold receive_load.
    change (if negb _ then _ else _) with (body_load s p ob (take_load ob (observationMatchesExpected ob p) (l1 ++ l2) c)).
    cbv zeta in *. by rewrite (quorum_possible _ _ Hl2).
  - by eapply advance_live.
  - by apply receive_advance_live.
  - destruct (loop_succeeds _ _ _ Hl Hloop) as (h & ? & ?). by eapply return_live.
  - done.
Qed.

(** A call that has not returned can go on. *)
Lemma lasting_step_possible ws c : live_inv s p n H ws c → ac_result c = None → ∃ b, lasting_step s p n (ws, c) b.
Proof.
  intros Hl Hr. pose proof Hl as [[] _ _]. unfold lasting_step. unfold unasked in li_asks0.
  destruct (loop_returns s n c) as [r|] eqn:Hloop.
  { destruct (loop_succeeds _ _ _ Hl Hloop) as (h & -> & _). exists (ws, return_with (Ok h) c), None.
    split; [by apply cs_return|done]. }
  destruct (ac_loadResults c) as [|ob l] eqn:H2.
  2: { exists (ws, receive_load s p ob ([] ++ l) c), None. split; [by apply (cs_receive_load _ _ _ _ _ [])|].
       assert (ac_result (receive_load s p ob ([] ++ l) c) = None ∨
               ac_result (receive_load s p ob ([] ++ l) c) = Some (Error ErrExternalHeadConflict)) as HE;
         [|cbn [snd]; by destruct HE as [-> | ->]].
       unfold receive_load. cbv zeta. destruct (no_quorum_possible _ _); [by right|left].
       destruct (negb _); [done|]. destruct (ac_quorumEstablished _); [by rewrite launch_result|].
       destruct (_ <=? _); [by rewrite establish_result|done]. }
  destruct (ac_advanceResults c) as [|a l] eqn:H4.
  2: { exists (ws, receive_advance n a ([] ++ l) c), None. split; [by apply (cs_receive_advance _ _ _ _ _ [])|].
       simpl. by rewrite Hr. }
  destruct (ac_loading c) as [|m l] eqn:H1.
  2: { destruct (li_stores0 (qm_ID m)) as [w Hw]; [apply li_asks0; set_solver|].
       destruct (loadMember s m (eh_JournalID n) w) as [r w'] eqn:Hm. do 2 eexists.
       split; [by eapply (cs_load _ _ _ _ _ [])|]. simpl. by rewrite Hr. }
  destruct (ac_running c) as [|ob l] eqn:H3.
  2: { destruct (li_stores0 (ob_id ob)) as [w Hw].
       { apply li_asks0. apply li_launched0, li_asked0. unfold engaged. rewrite H3. simpl. left. }
       destruct (compareAndAdvanceMember s (ob_member ob) (member_previous ob) (with_version "" n) w) as [r w'] eqn:Hm.
       do 2 eexists. split; [by eapply (cs_advance _ _ _ _ _ [])|]. simpl. by rewrite Hr. }
  exfalso. unfold loop_returns in Hloop. destruct (_ <=? _); [done|]. simpl in *.
  rewrite <- li_loads0, <- li_advances0 in Hloop. by rewrite Nat.eqb_refl in Hloop.
Qed.
End Healthy.

(** * Properties *)

(** C8: Advances that a quorum accepted never overlap.  Let any number of
    clients advance the heads of a configured quorum, with their goroutines, the
    other clients of the witnesses, lost replies and cancelled contexts
    interleaved in any way.  Of two calls that returned a head of one journal,
    one starts at or after the sequence number where the other ends: no two
    calls fork a journal from one expected head.  And from the moment a call
    has returned, no older head is held by a quorum. *)
Theorem quorum_advances_never_overlap s ws sy : configured s → rtc (quorum_step s) (initial_system ws) sy →
  (∀ i j p1 n1 p2 n2, i ≠ j → won sy i p1 n1 → won sy j p2 n2 → eh_JournalID n1 = eh_JournalID n2 →
     eh_Sequence n1 ≤ eh_Sequence p2 ∨ eh_Sequence n2 ≤ eh_Sequence p1) ∧
  (∀ i p n ids h, won sy i p n → NoDup ids → ids ⊆ member_ids s → qs_threshold s ≤ Z.of_nat (length ids) →
     (∀ m, m ∈ ids → ∃ w, qy_Stores sy !! m = Some w ∧ recorded w !! eh_JournalID n = Some h) →
     eh_Sequence n ≤ qh_Sequence h).
Proof.
  intros (Hnd & Hmaj & _)%configured_governed Hr%quorum_reachable_inv. split.
  - intros i j p1 n1 p2 n2 Hij H1 H2 Hj.
    destruct (won_quorum s sy i p1 n1 Hr H1) as (l1 & Hn1 & Hs1 & Ht1 & He1).
    destruct (won_quorum s sy j p2 n2 Hr H2) as (l2 & Hn2 & Hs2 & Ht2 & He2).
    destruct (majority_intersect l1 l2 (member_ids s)) as (m & Hm1 & Hm2); [done..|unfold member_ids; rewrite length_fmap; lia|].
    apply (in_sequence_two (qy_Accepted sy) (entry i p1 n1 m) (entry j p2 n2 m)); [by destruct Hr|by apply He1|by apply He2|
      by intros [=]|done|done].
  - intros i p n ids h Hw Hn Hs Ht Hh.
    destruct (won_quorum s sy i p n Hr Hw) as (l & Hnl & Hsl & Htl & He).
    destruct (majority_intersect l ids (member_ids s)) as (m & Hm1 & Hm2); [done..|unfold member_ids; rewrite length_fmap; lia|].
    destruct (si_recorded _ _ Hr _ (He m Hm1)) as (w & h' & Hw' & Hh' & Hle).
    destruct (Hh m Hm2) as (w2 & Hw2 & Hr2). simpl in Hw'. rewrite Hw' in Hw2. injection Hw2 as <-.
    unfold journal_of in Hh'. simpl in Hh', Hle. rewrite Hr2 in Hh'. by injection Hh' as <-.
Qed.

(** C29: An uncontended call succeeds.  Let a quorum of healthy members hold the
    expected head, and the other members answer anything, in any order.  While
    the context lasts, the call takes at most [5 n + 1] steps over [n] members,
    can always take one until it returns, and what it returns is the new head. *)
Theorem quorum_advance_succeeds s p n (H : list QuorumHeadMember) ws k ws' c :
  configured s → (∀ m, m ∈ member_ids s → is_Some (ws !! m)) →
  NoDup (qm_ID <$> H) → H ⊆ qs_members s → qs_threshold s ≤ Z.of_nat (length H) →
  (∀ m, m ∈ H → ∃ w, ws !! qm_ID m = Some w ∧ healthy s p n m w) →
  nsteps (lasting_step s p n) k (ws, new_call s) (ws', c) →
  (k ≤ 5 * length (qs_members s) + 1)%nat ∧
  (ac_result c = None → ∃ b, lasting_step s p n (ws', c) b) ∧
  (∀ r, ac_result c = Some r → ∃ h, r = Ok h ∧ semanticExternalHead h = semanticExternalHead n).
Proof.
  intros Hgov%configured_governed Hws Hnd Hsub Ht Hh Hk.
  assert (live_inv s p n H ws (new_call s)) as H0.
  { split; [split; simpl; try done; try constructor| |].
    - rewrite !Nat.add_0_r. done.
    - unfold unasked. simpl. rewrite app_nil_r. apply Hgov.
    - unfold unasked. simpl. by rewrite app_nil_r.
    - intros _. simpl. split; [|done]. destruct Hgov as (_ & _ & ? & _). lia.
    - intros m Hm. destruct (Hh m Hm) as (w & Hw & Hhm). apply (at_load _ _ _ _ _ _ w); [by apply Hsub|done..]. }
  assert (∀ a b j, nsteps (lasting_step s p n) j a b → live_inv s p n H a.1 a.2 →
    live_inv s p n H b.1 b.2 ∧ (j + call_measure b.2 ≤ call_measure a.2)%nat) as Hrun.
  { clear - Hnd Ht. intros a b j Hj. induction Hj as [a|j a b' b Hs Hj IH]; [done|]. intros Ha.
    destruct a as [ws1 c1], b' as [ws2 c2]. simpl in *.
    destruct (lasting_step_live s p n H Hnd Ht _ _ _ _ Hs Ha) as [H2 Hm]. destruct (IH H2) as [H3 Hm3]. split; [done|lia]. }
  destruct (Hrun _ _ _ Hk H0) as [Hc Hm]. simpl in Hc, Hm. split_and!.
  - unfold call_measure in Hm at 2. simpl in Hm. lia.
  - by apply (lasting_step_possible s p n H Hnd Ht).
  - apply (li_result _ _ _ _ (li_core _ _ _ _ _ _ Hc)).
Qed.
End Proofs.

(** ** Reading from the quorum *)

Section Reading.
Context (s : QuorumHeadStore) (j : string).

(** The member answered with this head, for this journal. *)
Definition answers (h : quorumSemanticHead) (ob : quorumMemberObservation) : bool :=
  negb (ob_notFound ob) && match ob_err ob with Some _ => false | None => true end &&
  str_eqb (qh_JournalID h) j && bool_decide (semanticExternalHead (ob_head ob) = h).

Definition arrivals (obs : list quorumMemberObservation) : list (arrival quorumMemberObservation) := Arrived <$> obs.

(** What the loop has counted when it returns. *)
Definition counted (obs groups : list quorumMemberObservation) (nf : Z) (r : result ExternalHead) : Prop :=
  match r with
  | Ok h => qs_threshold s ≤ Z.of_nat (countb (answers (semanticExternalHead h)) (obs ++ groups))
  | Error e =>
      (e = ErrExternalHeadNotFound ∧ qs_threshold s ≤ nf + Z.of_nat (countb ob_notFound obs)) ∨
      (e = ErrExternalHeadQuorum ∧ nf + Z.of_nat (countb ob_notFound obs) < qs_threshold s ∧
       ∀ h, Z.of_nat (countb (answers h) (obs ++ groups)) < qs_threshold s)
  end.

Lemma answers_self ob : answers (semanticExternalHead (ob_head ob)) ob =
  negb (ob_notFound ob) && match ob_err ob with Some _ => false | None => true end && str_eqb (eh_JournalID (ob_head ob)) j.
Proof. unfold answers. rewrite bool_decide_eq_true_2 by done. by rewrite andb_true_r. Qed.

Lemma answers_other h ob : semanticExternalHead (ob_head ob) ≠ h → answers h ob = false.
Proof. intros. unfold answers. rewrite bool_decide_eq_false_2 by done. apply andb_false_r. Qed.

Lemma filter_answers h (l : list quorumMemberObservation) : Forall (λ o, answers (semanticExternalHead (ob_head o)) o = true) l →
  length (filter (λ o, semanticExternalHead (ob_head o) = h) l) = countb (answers h) l.
Proof.
  induction 1 as [|o l Ho Hl IH]; [done|]. rewrite filter_cons. cbn [countb]. case_decide as Hd.
  - rewrite Hd in Ho. rewrite Ho. simpl. by rewrite IH.
  - by rewrite answers_other.
Qed.

Lemma answers_nothing h ob : answers (semanticExternalHead (ob_head ob)) ob = false → answers h ob = false.
Proof.
  destruct (decide (semanticExternalHead (ob_head ob) = h)) as [<-|Hne]; [done|]. intros _. by apply answers_other.
Qed.

(** An observation that answers nothing only counts when it is a not-found. *)
Lemma counted_skip ob obs groups nf r : answers (semanticExternalHead (ob_head ob)) ob = false →
  counted obs groups (nf + if ob_notFound ob then 1 else 0) r → counted (ob :: obs) groups nf r.
Proof.
  intros Ha. assert (∀ h, countb (answers h) ((ob :: obs) ++ groups) = countb (answers h) (obs ++ groups)) as Hc.
  { intros h. simpl. by rewrite answers_nothing. }
  unfold counted. destruct r as [h|e]; [by rewrite Hc|]. cbn [countb].
  assert (Z.of_nat (if ob_notFound ob then S (countb ob_notFound obs) else countb ob_notFound obs) =
    (if ob_notFound ob then 1 else 0) + Z.of_nat (countb ob_notFound obs)) as -> by (destruct (ob_notFound ob); lia).
  rewrite Z.add_assoc. intros [?|(? & ? & Hh)]; [by left|right]. split_and!; [done..|]. intros h. by rewrite Hc.
Qed.

(** An observation that answers moves to the groups. *)
Lemma counted_move ob obs groups nf r : ob_notFound ob = false → counted obs (ob :: groups) nf r → counted (ob :: obs) groups nf r.
Proof.
  intros Hn. assert (∀ h, countb (answers h) ((ob :: obs) ++ groups) = countb (answers h) (obs ++ ob :: groups)) as Hc.
  { intros h. rewrite !countb_app. simpl. destruct (answers h ob); lia. }
  unfold counted. destruct r as [h|e]; [by rewrite Hc|]. cbn [countb]. rewrite Hn.
  intros [?|(? & ? & Hh)]; [by left|right]. split_and!; [done..|]. intros h. by rewrite Hc.
Qed.

Lemma load_loop_counts obs groups nf :
  Forall (λ o, answers (semanticExternalHead (ob_head o)) o = true) groups →
  (∀ h, Z.of_nat (countb (answers h) groups) < qs_threshold s) → 0 ≤ nf < qs_threshold s →
  counted obs groups nf (load_loop s j (arrivals obs) groups nf).
Proof.
  revert groups nf. induction obs as [|ob obs IH]; intros groups nf Hg Hlt Hnf.
  { simpl. right. split_and!; [done|simpl; lia|done]. }
  change (arrivals (ob :: obs)) with (Arrived ob :: arrivals obs). cbn [load_loop].
  pose proof (answers_self ob) as Ha. destruct (ob_notFound ob) eqn:Hn.
  { destruct (Z.leb_spec (qs_threshold s) (nf + 1)); [left; split; [done|simpl; rewrite Hn; lia]|].
    apply counted_skip; [done|]. rewrite Hn. apply IH; [done..|lia]. }
  assert (∀ r, counted obs groups nf r → answers (semanticExternalHead (ob_head ob)) ob = false →
    counted (ob :: obs) groups nf r) as Hskip.
  { intros r Hr Hf. apply counted_skip; [done|]. by rewrite Hn, Z.add_0_r. }
  destruct (ob_err ob) eqn:He; [apply Hskip; [by apply IH|done]|].
  change (qh_JournalID (semanticExternalHead (ob_head ob))) with (eh_JournalID (ob_head ob)).
  destruct (str_eqb (eh_JournalID (ob_head ob)) j) eqn:Hj; cbn [negb]; [|apply Hskip; [by apply IH|done]].
  apply counted_move; [done|]. assert (Forall (λ o, answers (semanticExternalHead (ob_head o)) o = true) (ob :: groups))
    as Hg' by (by constructor).
  apply str_eqb_eq in Hj. pose proof (filter_answers (semanticExternalHead (ob_head ob)) (ob :: groups) Hg') as Hf.
  rewrite Hf. destruct (Z.leb_spec (qs_threshold s)
    (Z.of_nat (countb (answers (semanticExternalHead (ob_head ob))) (ob :: groups)))) as [Hle|Hgt].
  - unfold aggregateQuorumHead. rewrite length_reverse, Hf. destruct (Z.ltb_spec
      (Z.of_nat (countb (answers (semanticExternalHead (ob_head ob))) (ob :: groups))) (qs_threshold s)); [lia|].
    unfold counted. rewrite countb_app. change (semanticExternalHead {| eh_JournalID := _ |}) with (semanticExternalHead (ob_head ob)). lia.
  - apply IH; [done| |done]. intros h. destruct (decide (semanticExternalHead (ob_head ob) = h)) as [<-|Hne]; [done|].
    cbn [countb]. rewrite answers_other by done. apply Hlt.
Qed.
End Reading.

Lemma countb_perm {A} (p : A → bool) l k : l ≡ₚ k → countb p l = countb p k.
Proof.
  induction 1 as [|x l k _ IH|x y l|l k m _ IH1 _ IH2]; simpl; [done|by rewrite IH| |congruence].
  by destruct (p x), (p y).
Qed.

Lemma countb_disjoint {A} (p q : A → bool) l : (∀ x, p x = true → q x = true → False) →
  (countb p l + countb q l ≤ length l)%nat.
Proof.
  intros H. induction l as [|x l IH]; [done|]. simpl.
  pose proof (H x) as Hx. destruct (p x), (q x); simpl; try lia.
Qed.

(** The order in which the members answer a load does not matter: with
    every member heard once, two orders give the same error or heads that agree
    in everything but the store version, which records the members heard; and a
    loaded head was reported by a quorum. *)
Theorem quorum_load_order_irrelevant s journalID obs obs' :
  configured s → obs ≡ₚ obs' → NoDup (ob_id <$> obs) → (ob_id <$> obs) ⊆ member_ids s →
  match QuorumHeadStore_Load s journalID (arrivals obs), QuorumHeadStore_Load s journalID (arrivals obs') with
  | Ok h, Ok h' => semanticExternalHead h = semanticExternalHead h' ∧
      qs_threshold s ≤ Z.of_nat (countb (answers (TrimSpace journalID) (semanticExternalHead h)) obs)
  | Error e, Error e' => e = e'
  | _, _ => False
  end.
Proof.
  intros (_ & Hmaj & Ht)%configured_governed Hp Hnd Hsub. unfold QuorumHeadStore_Load.
  destruct (_ =? 0)%nat; [done|]. destruct (blank journalID); [done|]. set (j := TrimSpace journalID).
  assert (length obs ≤ length (qs_members s))%nat as Hlen.
  { rewrite <- (length_fmap ob_id obs), <- (length_fmap qm_ID (qs_members s)). by apply submseteq_length, NoDup_submseteq. }
  pose proof (load_loop_counts s j obs [] 0 ltac:(constructor) ltac:(simpl; lia) ltac:(lia)) as H1.
  pose proof (load_loop_counts s j obs' [] 0 ltac:(constructor) ltac:(simpl; lia) ltac:(lia)) as H2.
  unfold counted in H1, H2. rewrite app_nil_r in H1, H2.
  assert (∀ p, countb p obs' = countb p obs) as Hc by (intros p; by rewrite (countb_perm p obs obs' Hp)).
  assert (∀ p q, (∀ x, p x = true → q x = true → False) → qs_threshold s ≤ Z.of_nat (countb p obs) →
    qs_threshold s ≤ Z.of_nat (countb q obs) → False) as Hboth.
  { intros p q Hpq ? ?. pose proof (countb_disjoint p q obs Hpq). lia. }
  assert (∀ h, qs_threshold s ≤ Z.of_nat (countb (answers j h) obs) → qs_threshold s ≤ Z.of_nat (countb ob_notFound obs) →
    False) as Hnf.
  { intros h. apply Hboth. intros x Hx. unfold answers in Hx. by destruct (ob_notFound x). }
  destruct (load_loop s j (arrivals obs) [] 0) as [h|e], (load_loop s j (arrivals obs') [] 0) as [h'|e'];
    rewrite ?Hc in H2.
  - split; [|done]. destruct (decide (semanticExternalHead h = semanticExternalHead h')) as [|Hne]; [done|exfalso].
    apply (Hboth (answers j (semanticExternalHead h)) (answers j (semanticExternalHead h'))); [|done|done].
    intros x Hx Hx'. apply Hne.
    assert (∀ y, answers j y x = true → semanticExternalHead (ob_head x) = y) as Ha.
    { intros y. unfold answers. case_bool_decide; [done|]. by rewrite andb_false_r. }
    by rewrite <- (Ha _ Hx), <- (Ha _ Hx').
  - destruct H2 as [[_ H2]|(_ & _ & H2)]; [by apply (Hnf _ H1)|]. specialize (H2 (semanticExternalHead h)).
    rewrite ?app_nil_r, ?Hc in H2. lia.
  - destruct H1 as [[_ H1]|(_ & _ & H1)]; [by apply (Hnf _ H2)|]. specialize (H1 (semanticExternalHead h')).
    rewrite ?app_nil_r in H1. lia.
  - rewrite ?Hc in H2. destruct H1 as [[-> H1]|(-> & H1 & _)], H2 as [[-> H2]|(-> & H2 & _)]; try done; lia.
Qed.

(** * Witnesses *)

(** The in-memory store, as a member that ignores policies. *)
#[local] Instance memory_fenced : QuorumPolicyFencedStore MemoryHeadStore := {|
  LoadForQuorum id _ w := Load id w;
  CompareAndAdvanceForQuorum _ p n w := CompareAndAdvance p n w;
  CurrentQuorumPolicy w := (Error ErrQuorumPolicyMismatch, w);
  ObserveQuorumRotationHead id w := Load id w;
  CompareAndTransitionQuorumPolicy _ _ _ _ w := (Some ErrQuorumPolicyMismatch, w) |}.

#[local] Program Instance memory_fenced_laws : FencedStoreLaws MemoryHeadStore.
Next Obligation. intros id policy w r w'. apply load_recorded. Qed.
Next Obligation. intros policy p n w r w'. apply advance_recorded. Qed.

Definition sample_member (id : string) : QuorumHeadMember :=
  {| qm_ID := id; qm_Store := Some {| mh_TrustManifestHash := Some "t"; mh_Fenced := false |} |}.

Definition sample_binding : GenesisQuorumBinding := {|
  gb_capabilityEnvelopeHash := sample_digest "e"; gb_policyHash := sample_digest "f"; gb_threshold := 2;
  gb_members := {["a" := "t"; "b" := "t"; "c" := "t"]} |}.

Definition sample_store : QuorumHeadStore := {|
  qs_members := [sample_member "a"; sample_member "b"; sample_member "c"]; qs_threshold := 2;
  qs_policyHash := sample_digest "f"; qs_capabilityEnvelopeHash := sample_digest "e"; qs_governedPolicy := None |}.

Lemma sample_configured : configured sample_store.
Proof.
  exists [sample_member "c"; sample_member "a"; sample_member "b"], sample_binding. left. vm_compute. reflexivity.
Qed.

Definition sample_heads : gmap string MemoryHeadStore :=
  {["a" := {["j" := sample_head 0 ""]}; "b" := {["j" := sample_head 0 ""]}; "c" := ∅]}.

(** Two clients advance from sequence 0 one after the other; the second from
    the same expected head loses, a third from the new head wins. *)
Definition sample_run : quorum_system :=
  client_call sample_store 2 (sample_head 1 "x") (sample_head 2 "z") 30
    (client_call sample_store 1 (sample_head 0 "") (sample_head 1 "y") 30
       (client_call sample_store 0 (sample_head 0 "") (sample_head 1 "x") 30 (initial_system sample_heads))).

Example sample_run_results :
  (is_ok <$> result_of 0 sample_run, result_of 1 sample_run, is_ok <$> result_of 2 sample_run) =
  (Some true, Some (Error ErrExternalHeadConflict), Some true).
Proof. vm_compute. reflexivity. Qed.

Lemma sample_run_reachable : rtc (quorum_step sample_store) (initial_system sample_heads) sample_run.
Proof.
  unfold sample_run. etrans; [apply client_call_reachable|]. etrans; [apply client_call_reachable|].
  apply client_call_reachable.
Qed.

Lemma sample_won i p n : result_of i sample_run ≠ None →
  bool_decide (qy_Calls sample_run !! i ≫= (λ '(p', n', _), Some (p', n')) = Some (p, n)) = true →
  match result_of i sample_run with Some (Ok _) => true | _ => false end = true → won sample_run i p n.
Proof.
  unfold result_of, won. destruct (qy_Calls sample_run !! i) as [[[p' n'] c]|]; [|done].
  intros _ Hpn%bool_decide_eq_true Hr. injection Hpn as -> ->. destruct (ac_result c) as [[h|]|] eqn:Hc; try done. by exists c, h.
Qed.

Lemma first_won : won sample_run 0 (sample_head 0 "") (sample_head 1 "x").
Proof. apply sample_won; vm_compute; done. Qed.

Lemma third_won : won sample_run 2 (sample_head 1 "x") (sample_head 2 "z").
Proof. apply sample_won; vm_compute; done. Qed.

Example quorum_advances_never_overlap_witness :
  eh_Sequence (sample_head 1 "x") ≤ eh_Sequence (sample_head 1 "x") ∨
  eh_Sequence (sample_head 2 "z") ≤ eh_Sequence (sample_head 0 "").
Proof.
  exact (proj1 (quorum_advances_never_overlap sample_store sample_heads sample_run sample_configured sample_run_reachable)
    0%nat 2%nat _ _ _ _ ltac:(done) first_won third_won eq_refl).
Defined.

Lemma sample_healthy m : m ∈ [sample_member "a"; sample_member "b"] → ∃ w, sample_heads !! qm_ID m = Some w ∧
  healthy sample_store (sample_head 0 "") (sample_head 1 "x") m w.
Proof.
  intros Hm. exists {["j" := sample_head 0 ""]}.
  apply elem_of_cons in Hm as [->|Hm]; [|apply list_elem_of_singleton in Hm as ->];
    (split; [vm_compute; reflexivity|]; exists (Ok (sample_head 0 "")), {["j" := sample_head 0 ""]};
     split_and!; [vm_compute; reflexivity|vm_compute; reflexivity|
       exists (sample_head 1 "x"), {["j" := sample_head 1 "x"]}; split; vm_compute; reflexivity]).
Qed.

Lemma sample_stores m : m ∈ member_ids sample_store → is_Some (sample_heads !! m).
Proof.
  unfold member_ids. simpl. rewrite !elem_of_cons. intros H. destruct H as [->|[->|[->|H]]]; [vm_compute; by eexists..|].
  by apply not_elem_of_nil in H.
Qed.

Example quorum_advance_succeeds_witness :
  ∃ b, lasting_step sample_store (sample_head 0 "") (sample_head 1 "x") (sample_heads, new_call sample_store) b.
Proof.
  destruct (quorum_advance_succeeds sample_store (sample_head 0 "") (sample_head 1 "x") [sample_member "a"; sample_member "b"]
    sample_heads 0 sample_heads (new_call sample_store) sample_configured sample_stores) as (_ & H & _).
  - apply (bool_decide_unpack _). vm_compute. reflexivity.
  - intros m. simpl. rewrite !elem_of_cons. intuition.
  - simpl. lia.
  - exact sample_healthy.
  - constructor.
  - by apply H.
Defined.

Definition sample_answers : list quorumMemberObservation :=
  [observation_of (sample_member "a") (Ok (sample_head 1 "x")); observation_of (sample_member "c") (Error ErrExternalHeadNotFound);
   observation_of (sample_member "b") (Ok (sample_head 1 "x"))].

Example sample_load : semanticExternalHead <$> match QuorumHeadStore_Load sample_store "j" (arrivals sample_answers) with Ok h => Some h | Error _ => None end
  = Some (semanticExternalHead (sample_head 1 "x")).
Proof. vm_compute. reflexivity. Qed.

Example quorum_load_order_irrelevant_witness :
  is_ok (QuorumHeadStore_Load sample_store "j" (arrivals (reverse sample_answers))) =
  is_ok (QuorumHeadStore_Load sample_store "j" (arrivals sample_answers)).
Proof.
  pose proof (quorum_load_order_irrelevant sample_store "j" (reverse sample_answers) sample_answers sample_configured
    (reverse_Permutation _)) as H.
  assert (NoDup (ob_id <$> reverse sample_answers)) as H1 by (apply (bool_decide_unpack _); vm_compute; reflexivity).
  assert ((ob_id <$> reverse sample_answers) ⊆ member_ids sample_store) as H2.
  { intros x. change (ob_id <$> reverse sample_answers) with ["b"; "c"; "a"]. unfold member_ids. simpl.
    rewrite !elem_of_cons. intuition. }
  specialize (H H1 H2). destruct (QuorumHeadStore_Load sample_store "j" (arrivals (reverse sample_answers))),
    (QuorumHeadStore_Load sample_store "j" (arrivals sample_answers)); done.
Defined.
