(* ===== verification/Rotation.v ===== *)
(** * Rotating the quorum

    Models [internal/journal/quorum_rotation.go]: the plan that moves a journal
    from the witnesses of one governed Genesis epoch to those of the next, and
    its execution, which freezes every shared witness into a joint policy before
    it activates the first one under the new policy.  Other coordinators may run
    the same rotation at the same time; a coordinator may stop anywhere. *)

From S2P Require Import Prelude Crypto Json HeadStore Witness Quorum.
Local Open Scope Z_scope.

Definition QuorumRotationVersion : string := "aegis-ege/quorum-rotation/v1".

(** * Epochs and plans *)

Record GovernedQuorumEpoch : Type := {
  ge_genesisEpoch : Z; ge_genesisManifestHash : string; ge_binding : GenesisQuorumBinding }.

Definition NewGovernedQuorumEpoch (binding : GenesisQuorumBinding) (genesisEpoch : Z) (genesisManifestHash : string)
    : result GovernedQuorumEpoch :=
  if genesisEpoch =? 0 then Error (ErrNew "Genesis epoch must be positive")
  else if negb (validSHA256Digest genesisManifestHash) then Error (ErrNew "Genesis manifest hash must be sha256")
  else match validateGenesisQuorumBinding binding with
  | Some err => Error err
  | None => Ok {| ge_genesisEpoch := genesisEpoch; ge_genesisManifestHash := genesisManifestHash; ge_binding := binding |}
  end.

Definition activePolicy (e : GovernedQuorumEpoch) : QuorumPolicyState := {|
  qp_Phase := QuorumPolicyPhaseActive; qp_GenesisEpoch := ge_genesisEpoch e;
  qp_PolicyHash := gb_policyHash (ge_binding e); qp_FromPolicyHash := ""; qp_ToPolicyHash := "" |}.

Record QuorumRotationPlan : Type := {
  rp_oldEpoch : GovernedQuorumEpoch; rp_newEpoch : GovernedQuorumEpoch; rp_sharedWitnesses : list string;
  rp_oldBlockingCount : Z; rp_newBlockingCount : Z }.

(** The witnesses both epochs name with one trust identity. *)
Definition shared_witnesses (old new : gmap string string) : list string :=
  sort_strings (filter (λ kv : string * string, new !! kv.1 = Some kv.2) (map_to_list old)).*1.

Definition blocking_count (b : GenesisQuorumBinding) : Z := Z.of_nat (size (gb_members b)) - gb_threshold b + 1.

Definition NewQuorumRotationPlan (oldEpoch newEpoch : GovernedQuorumEpoch) : result QuorumRotationPlan :=
  match validateGenesisQuorumBinding (ge_binding oldEpoch) with
  | Some err => Error (ErrWrap "old quorum binding" err)
  | None =>
  match validateGenesisQuorumBinding (ge_binding newEpoch) with
  | Some err => Error (ErrWrap "new quorum binding" err)
  | None =>
      if (ge_genesisEpoch oldEpoch =? 0) || (ge_genesisEpoch newEpoch =? 0)
      then Error (ErrNew "both governed Genesis epochs are required")
      else if ge_genesisEpoch newEpoch <=? ge_genesisEpoch oldEpoch
      then Error (ErrDetail ErrQuorumRotationUnsafe ("Genesis epoch must advance: old=" +:+
                    pretty (ge_genesisEpoch oldEpoch) +:+ " new=" +:+ pretty (ge_genesisEpoch newEpoch)))
      else
        let shared := shared_witnesses (gb_members (ge_binding oldEpoch)) (gb_members (ge_binding newEpoch)) in
        let oldBlocking := blocking_count (ge_binding oldEpoch) in
        let newBlocking := blocking_count (ge_binding newEpoch) in
        let n := Z.of_nat (length shared) in
        if (n <? oldBlocking) || (n <? newBlocking) || (n <? gb_threshold (ge_binding newEpoch))
        then Error (ErrDetail ErrQuorumRotationUnsafe ("stable shared witnesses=" +:+ pretty n))
        else Ok {| rp_oldEpoch := oldEpoch; rp_newEpoch := newEpoch; rp_sharedWitnesses := shared;
                   rp_oldBlockingCount := oldBlocking; rp_newBlockingCount := newBlocking |}
  end end.

(** [quorumRotationCommitment] *)
Definition commitment_json (p : QuorumRotationPlan) (journalID : string) (head : ExternalHead) : json :=
  let old := rp_oldEpoch p in let new := rp_newEpoch p in
  JObject [("version", JString QuorumRotationVersion); ("journal_id", JString journalID);
    ("sequence", JInt (eh_Sequence head)); ("head_hash", JString (eh_HeadHash head)); ("key_id", JString (eh_KeyID head));
    ("old_genesis_epoch", JInt (ge_genesisEpoch old)); ("old_genesis_manifest_hash", JString (ge_genesisManifestHash old));
    ("old_policy_hash", JString (gb_policyHash (ge_binding old)));
    ("new_genesis_epoch", JInt (ge_genesisEpoch new)); ("new_genesis_manifest_hash", JString (ge_genesisManifestHash new));
    ("new_policy_hash", JString (gb_policyHash (ge_binding new)));
    ("shared_witnesses", match rp_sharedWitnesses p with [] => JNull | l => JArray (JString <$> l) end)].

(** [github.com/ucarion/jcs] is a third-party package: [jcs] is the canonical
    text, or the error, it gives for the JSON value. *)
Definition jointPolicy (jcs : json → result string) (p : QuorumRotationPlan) (journalID : string) (head : ExternalHead)
    : result (QuorumPolicyState * string) :=
  canonical ← jcs (commitment_json p journalID head);
  let transitionHash := sha256_digest canonical in
  Ok ({| qp_Phase := QuorumPolicyPhaseJoint; qp_GenesisEpoch := ge_genesisEpoch (rp_newEpoch p);
         qp_PolicyHash := transitionHash; qp_FromPolicyHash := gb_policyHash (ge_binding (rp_oldEpoch p));
         qp_ToPolicyHash := gb_policyHash (ge_binding (rp_newEpoch p)) |}, transitionHash).

(** * Execution *)

(** A shared witness is reached through a handle of the old store and one of
    the new store. *)
Inductive side : Type := OldHandle | NewHandle.

(** The operations of the witnesses' handles, and what the members of a store
    answer to a load, over a world that others change between two calls. *)
Class RotationWorld (X : Type) : Type := {
  rw_CurrentPolicy : side → string → X → result QuorumPolicyState * X;
  rw_ObserveHead : side → string → string → X → result ExternalHead * X;
  rw_Transition : side → string → QuorumPolicyState → QuorumPolicyState → string → ExternalHead → X → option error * X;
  rw_Answers : side → string → X → list (arrival quorumMemberObservation) * X }.

(** Calls in sequence; the first error returns. *)
Definition Go (X A : Type) : Type := X → result A * X.

#[export] Instance Go_ret X : MRet (Go X) := λ A a x, (Ok a, x).
#[export] Instance Go_bind X : MBind (Go X) := λ A B k m x,
  match m x with
  | (Ok a, x) => k a x
  | (Error err, x) => (Error err, x)
  end.

Definition fail {X A} (err : error) : Go X A := λ x, (Error err, x).
Definition from_result {X A} (r : result A) : Go X A := λ x, (r, x).

(** An error of a call, with the context its caller adds. *)
Definition wrap_error {X A} (f : error → error) (m : Go X A) : Go X A := λ x,
  match m x with
  | (Ok a, x) => (Ok a, x)
  | (Error err, x) => (Error (f err), x)
  end.

Definition from_option_error {X} (m : X → option error * X) : Go X unit := λ x,
  match m x with
  | (None, x) => (Ok tt, x)
  | (Some err, x) => (Error err, x)
  end.

Record QuorumRotationResult : Type := { rr_Head : ExternalHead; rr_TransitionHash : string; rr_SharedWitnesses : list string }.

Section Execute.
Context {X : Type} `{!RotationWorld X} (jcs : json → result string).

Definition find_member (s : QuorumHeadStore) (id : string) : option QuorumHeadMember :=
  list_find (λ m, qm_ID m = id) (qs_members s) ≫= λ im, Some im.2.

Definition handle_of (m : QuorumHeadMember) : member_handle :=
  default {| mh_TrustManifestHash := None; mh_Fenced := false |} (qm_Store m).

(** [QuorumTrustManifestHash()] of a fenced store. *)
Definition trust_hash (m : QuorumHeadMember) : string := default "" (mh_TrustManifestHash (handle_of m)).

Fixpoint sharedPolicyStores (ids : list string) (oldStore newStore : QuorumHeadStore) : result unit :=
  match ids with
  | [] => Ok tt
  | id :: ids =>
      match find_member oldStore id with
      | None => Error (ErrNew ("old quorum store is missing shared witness " +:+ id))
      | Some oldMember =>
      match find_member newStore id with
      | None => Error (ErrNew ("new quorum store is missing shared witness " +:+ id))
      | Some newMember =>
          if negb (is_fenced oldMember) then Error (ErrNew ("old shared witness " +:+ id +:+ " is not policy fenced"))
          else if negb (is_fenced newMember) then Error (ErrNew ("new shared witness " +:+ id +:+ " is not policy fenced"))
          else if negb (str_eqb (trust_hash oldMember) (trust_hash newMember))
          then Error (ErrNew ("shared witness " +:+ id +:+ " resolves to different trust identities"))
          else sharedPolicyStores ids oldStore newStore
      end end
  end.

Definition sharedPolicyState (id : string) : Go X QuorumPolicyState :=
  oldState ← wrap_error (ErrWrap ("read old handle policy for witness " +:+ id)) (rw_CurrentPolicy OldHandle id);
  newState ← wrap_error (ErrWrap ("read new handle policy for witness " +:+ id)) (rw_CurrentPolicy NewHandle id);
  if negb (bool_decide (oldState = newState))
  then fail (ErrDetail ErrQuorumRotationAmbiguous ("shared witness " +:+ id +:+ " old/new handles disagree"))
  else mret oldState.

Definition observeSharedHandleHead (id journalID : string) : Go X ExternalHead :=
  oldHead ← wrap_error (ErrWrap ("observe old handle for shared witness " +:+ id)) (rw_ObserveHead OldHandle id journalID);
  newHead ← wrap_error (ErrWrap ("observe new handle for shared witness " +:+ id)) (rw_ObserveHead NewHandle id journalID);
  if negb (sameSemanticHead oldHead newHead)
  then fail (ErrDetail ErrQuorumRotationContinuity ("shared witness " +:+ id +:+ " old/new handles disagree on head"))
  else mret oldHead.

Definition requireSharedHandleConvergence (id : string) (expectedPolicy : QuorumPolicyState) (journalID : string)
    (expectedHead : ExternalHead) : Go X unit :=
  state ← sharedPolicyState id;
  if negb (bool_decide (state = expectedPolicy))
  then fail (ErrDetail ErrQuorumRotationAmbiguous ("shared witness " +:+ id +:+ " did not converge to expected policy"))
  else
    head ← observeSharedHandleHead id journalID;
    if negb (sameSemanticHead head expectedHead)
    then fail (ErrDetail ErrQuorumRotationContinuity ("shared witness " +:+ id +:+ " changed head during policy transition"))
    else mret tt.

(** The loop of [observeSharedRotationHead], with the head seen first. *)
Fixpoint observe_loop (ids : list string) (journalID : string) (frozen : option ExternalHead) : Go X ExternalHead :=
  match ids with
  | [] =>
      match frozen with
      | Some head => mret head
      | None => fail (ErrDetail ErrQuorumRotationContinuity "no shared witness head is available")
      end
  | id :: ids =>
      head ← observeSharedHandleHead id journalID;
      match frozen with
      | None => observe_loop ids journalID (Some head)
      | Some first =>
          if negb (sameSemanticHead first head)
          then fail (ErrDetail ErrQuorumRotationContinuity ("shared witness " +:+ id +:+ " has divergent head"))
          else observe_loop ids journalID frozen
      end
  end.

Definition observeSharedRotationHead (ids : list string) (journalID : string) : Go X ExternalHead :=
  observe_loop (sort_strings ids) journalID None.

Fixpoint classify_loop (ids : list string) (oldPolicy joint newPolicy : QuorumPolicyState) (counts : nat * nat * nat)
    : Go X (nat * nat * nat) :=
  match ids with
  | [] => mret counts
  | id :: ids =>
      current ← sharedPolicyState id;
      let '(o, j, n) := counts in
      if bool_decide (current = oldPolicy) then classify_loop ids oldPolicy joint newPolicy (S o, j, n)
      else if bool_decide (current = joint) then classify_loop ids oldPolicy joint newPolicy (o, S j, n)
      else if bool_decide (current = newPolicy) then classify_loop ids oldPolicy joint newPolicy (o, j, S n)
      else fail (ErrDetail ErrQuorumRotationAmbiguous ("witness " +:+ id +:+ " has unrelated policy"))
  end.

Definition classifyRotationPolicies (ids : list string) (oldPolicy joint newPolicy : QuorumPolicyState)
    : Go X (nat * nat * nat) :=
  classify_loop (sort_strings ids) oldPolicy joint newPolicy (0, 0, 0)%nat.

(** Phase 1: OLD to JOINT, witness by witness. *)
Fixpoint freeze_loop (ids : list string) (oldPolicy joint : QuorumPolicyState) (journalID : string) (head : ExternalHead)
    : Go X unit :=
  match ids with
  | [] => mret tt
  | id :: ids =>
      current ← sharedPolicyState id;
      _ ← (if bool_decide (current = oldPolicy) then
             _ ← wrap_error (ErrWrap ("freeze witness " +:+ id +:+ " into joint policy"))
                   (from_option_error (rw_Transition OldHandle id oldPolicy joint journalID head));
             requireSharedHandleConvergence id joint journalID head
           else if bool_decide (current = joint) then requireSharedHandleConvergence id joint journalID head
           else fail (ErrDetail ErrQuorumRotationAmbiguous ("witness " +:+ id +:+ " has unexpected phase-1 policy")));
      freeze_loop ids oldPolicy joint journalID head
  end.

(** Phase 2: JOINT to NEW, witness by witness. *)
Fixpoint activate_loop (ids : list string) (joint newPolicy : QuorumPolicyState) (journalID : string) (head : ExternalHead)
    : Go X unit :=
  match ids with
  | [] => mret tt
  | id :: ids =>
      current ← sharedPolicyState id;
      _ ← (if bool_decide (current = joint) then
             _ ← wrap_error (ErrWrap ("activate witness " +:+ id +:+ " into new policy"))
                   (from_option_error (rw_Transition OldHandle id joint newPolicy journalID head));
             requireSharedHandleConvergence id newPolicy journalID head
           else if bool_decide (current = newPolicy) then requireSharedHandleConvergence id newPolicy journalID head
           else fail (ErrDetail ErrQuorumRotationAmbiguous ("witness " +:+ id +:+ " has unexpected phase-2 policy")));
      activate_loop ids joint newPolicy journalID head
  end.

(** [Load] of one of the two stores, on the answers of its members. *)
Definition store_load (which : side) (s : QuorumHeadStore) (journalID : string) : Go X ExternalHead := λ x,
  let '(answers, x) := rw_Answers which journalID x in (QuorumHeadStore_Load s journalID answers, x).

Definition ExecuteQuorumRotation (plan : QuorumRotationPlan) (oldStore newStore : QuorumHeadStore) (journalID : string)
    : Go X QuorumRotationResult :=
  let journalID := TrimSpace journalID in
  let oldPolicy := activePolicy (rp_oldEpoch plan) in
  let newPolicy := activePolicy (rp_newEpoch plan) in
  let shared := rp_sharedWitnesses plan in
  if str_eqb journalID "" then fail (ErrNew "journal id is required")
  else if negb (bool_decide (qs_governedPolicy oldStore = Some oldPolicy))
  then fail (ErrDetail ErrQuorumPolicyMismatch "old quorum store is not bound to planned Genesis policy")
  else if negb (bool_decide (qs_governedPolicy newStore = Some newPolicy))
  then fail (ErrDetail ErrQuorumPolicyMismatch "new quorum store is not bound to planned Genesis policy")
  else
  _ ← from_result (sharedPolicyStores shared oldStore newStore);
  head ← observeSharedRotationHead shared journalID;
  jt ← from_result (jointPolicy jcs plan journalID head);
  let '(joint, transitionHash) := jt in
  counts ← classifyRotationPolicies shared oldPolicy joint newPolicy;
  let '(oldCount, jointCount, newCount) := counts in
  if (0 <? oldCount)%nat && (0 <? newCount)%nat
  then fail (ErrDetail ErrQuorumRotationAmbiguous "shared witnesses span OLD and NEW before OLD is fully fenced")
  else
  _ ← (if (oldCount =? length shared)%nat then
         oldHead ← wrap_error (ErrWrap "fresh rotation cannot establish old quorum truth")
                     (store_load OldHandle oldStore journalID);
         if negb (sameSemanticHead oldHead head)
         then fail (ErrDetail ErrQuorumRotationContinuity "shared witness head differs from old quorum truth")
         else mret tt
       else mret tt);
  counts ← (if (0 <? oldCount)%nat then
              _ ← freeze_loop shared oldPolicy joint journalID head;
              classifyRotationPolicies shared oldPolicy joint newPolicy
            else mret (oldCount, jointCount, newCount));
  let '(oldCount, jointCount, newCount) := counts in
  if negb (oldCount =? 0)%nat
  then fail (ErrDetail ErrQuorumRotationUnsafe "old quorum still has shared witnesses after freeze")
  else if negb (jointCount + newCount =? length shared)%nat
  then fail (ErrDetail ErrQuorumRotationAmbiguous "shared witness state is incomplete after freeze")
  else
  _ ← activate_loop shared joint newPolicy journalID head;
  newHead ← wrap_error (λ err, ErrDetail ErrQuorumRotationContinuity ("new quorum did not become readable: " +:+ error_text err))
              (store_load NewHandle newStore journalID);
  if negb (sameSemanticHead newHead head)
  then fail (ErrDetail ErrQuorumRotationContinuity "new quorum head differs from frozen old head")
  else λ x,
    match store_load OldHandle oldStore journalID x with
    | (Ok _, x) => (Error (ErrDetail ErrQuorumRotationUnsafe "retired old quorum still reads authoritative head"), x)
    | (Error _, x) => (Ok {| rr_Head := newHead; rr_TransitionHash := transitionHash; rr_SharedWitnesses := shared |}, x)
    end.
End Execute.

(** * What the witnesses go through *)

(** The policy each witness holds, by its trust identity. *)
Abbreviation policy_view := (gmap string QuorumPolicyState).

Section Safety.
Variables (plan : QuorumRotationPlan) (ident : side → string → string).

Definition old_policy : QuorumPolicyState := activePolicy (rp_oldEpoch plan).
Definition new_policy : QuorumPolicyState := activePolicy (rp_newEpoch plan).

Definition shared_identities : list string := ident OldHandle <$> rp_sharedWitnesses plan.

(** A witness that holds a policy of a later epoch than the old one. *)
Definition retired (i : string) (v : policy_view) : Prop :=
  ∃ q, v !! i = Some q ∧ ge_genesisEpoch (rp_oldEpoch plan) < qp_GenesisEpoch q.

Definition all_retired (v : policy_view) : Prop := ∀ i, i ∈ shared_identities → retired i v.

(** The moves the coordinators and the witnesses are to make: a shared witness
    only follows a valid transition, and none is put under the new policy while
    another may still serve the old one.  The other witnesses are free. *)
Inductive rotation_step (v : policy_view) : policy_view → Prop :=
  | witness_moves i current next :
      v !! i = Some current → ValidateQuorumPolicyTransition current next = None →
      (i ∈ shared_identities → next = new_policy → all_retired v) →
      rotation_step v (<[i := next]> v)
  | others_move v' :
      (∀ i, i ∈ shared_identities → v' !! i = v !! i) → rotation_step v v'.

(** The quorum of an epoch can act: enough of its members hold its policy. *)
Definition live (which : side) (e : GovernedQuorumEpoch) (v : policy_view) : Prop :=
  gb_threshold (ge_binding e) ≤
  Z.of_nat (length (filter (λ id, v !! ident which id = Some (activePolicy e)) (map_to_list (gb_members (ge_binding e))).*1)).

(** No shared witness has seen the new policy yet. *)
Definition fresh (v : policy_view) : Prop := ∀ i, i ∈ shared_identities → v !! i ≠ Some new_policy.

Definition stable (P : policy_view → Prop) : Prop := ∀ v v', P v → rotation_step v v' → P v'.

Lemma stable_rtc P v v' : stable P → P v → rtc rotation_step v v' → P v'.
Proof. intros HP Hv. induction 1; eauto. Qed.

Lemma transition_epoch p q : ValidateQuorumPolicyTransition p q = None → qp_GenesisEpoch p ≤ qp_GenesisEpoch q.
Proof.
  intros [->|H]%transition_advances; [lia|]. unfold policy_rank in H.
  destruct (str_eqb (qp_Phase p) _), (str_eqb (qp_Phase q) _); lia.
Qed.

Lemma retired_stable i : i ∈ shared_identities → stable (retired i).
Proof.
  intros Hi v v' (q & Hq & Hlt) Hstep. destruct Hstep as [j c n Hc Ht _|v' Hsame].
  - destruct (decide (j = i)) as [->|Hne].
    + simplify_eq. exists n. rewrite lookup_insert_eq. split; [done|]. apply transition_epoch in Ht. lia.
    + exists q. by rewrite lookup_insert_ne.
  - exists q. by rewrite Hsame.
Qed.

Lemma all_retired_stable : stable all_retired.
Proof. intros v v' H Hstep i Hi. eapply retired_stable; eauto. Qed.

(** Either no shared witness serves the new policy, or none can serve the old
    one any more. *)
Definition exclusive (v : policy_view) : Prop := fresh v ∨ all_retired v.

Lemma exclusive_stable : stable exclusive.
Proof.
  intros v v' [Hf|Hr] Hstep; [|right; by eapply all_retired_stable].
  destruct Hstep as [i c n Hc Ht Hg|v' Hsame].
  - destruct (decide (i ∈ shared_identities ∧ n = new_policy)) as [[Hi Hn]|Hno].
    + right. eapply all_retired_stable; [by apply Hg|]. by econstructor.
    + left. intros j Hj. destruct (decide (j = i)) as [->|Hne].
      * rewrite lookup_insert_eq. intros [= ->]. tauto.
      * rewrite lookup_insert_ne by done. by apply Hf.
  - left. intros j Hj. rewrite Hsame by done. by apply Hf.
Qed.

Lemma retired_not_old i v : retired i v → v !! i ≠ Some old_policy.
Proof. intros (q & Hq & Hlt) Heq. rewrite Hq in Heq. injection Heq as ->. simpl in Hlt. lia. Qed.
End Safety.

(** ** The plan *)

Record sound_plan (plan : QuorumRotationPlan) : Prop := {
  sp_epochs : ge_genesisEpoch (rp_oldEpoch plan) < ge_genesisEpoch (rp_newEpoch plan);
  sp_nodup : NoDup (rp_sharedWitnesses plan);
  sp_old : ∀ id, id ∈ rp_sharedWitnesses plan → id ∈ (map_to_list (gb_members (ge_binding (rp_oldEpoch plan)))).*1;
  sp_new : ∀ id, id ∈ rp_sharedWitnesses plan → id ∈ (map_to_list (gb_members (ge_binding (rp_newEpoch plan)))).*1;
  sp_old_blocking : blocking_count (ge_binding (rp_oldEpoch plan)) ≤ Z.of_nat (length (rp_sharedWitnesses plan));
  sp_new_blocking : blocking_count (ge_binding (rp_newEpoch plan)) ≤ Z.of_nat (length (rp_sharedWitnesses plan)) }.

Lemma elem_of_shared_witnesses id (old new : gmap string string) :
  id ∈ shared_witnesses old new ↔ ∃ h, old !! id = Some h ∧ new !! id = Some h.
Proof.
  unfold shared_witnesses. rewrite sort_strings_perm, list_elem_of_fmap. split.
  - intros ([i h] & -> & [Hn Ho%elem_of_map_to_list]%list_elem_of_filter). eauto.
  - intros (h & Ho & Hn). exists (id, h). split; [done|]. apply list_elem_of_filter. by rewrite elem_of_map_to_list.
Qed.

Lemma shared_witnesses_NoDup old new : NoDup (shared_witnesses old new).
Proof.
  unfold shared_witnesses. rewrite sort_strings_perm.
  assert (Hsub : (filter (λ kv : string * string, new !! kv.1 = Some kv.2) (map_to_list old)).*1 `sublist_of` (map_to_list old).*1).
  { apply fmap_sublist, sublist_filter. }
  exact (sublist_NoDup _ _ (NoDup_fst_map_to_list old) Hsub).
Qed.

Lemma NewQuorumRotationPlan_sound old new plan : NewQuorumRotationPlan old new = Ok plan →
  rp_oldEpoch plan = old ∧ rp_newEpoch plan = new ∧ sound_plan plan.
Proof.
  unfold NewQuorumRotationPlan. destruct (validateGenesisQuorumBinding (ge_binding old)); [done|].
  destruct (validateGenesisQuorumBinding (ge_binding new)); [done|].
  case_match eqn:H0; [done|]. case_match eqn:H1; [done|]. case_match eqn:H2; [done|].
  intros [= <-]. split; [done|]. split; [done|]. apply Z.leb_gt in H1. rewrite !orb_false_iff, !Z.ltb_ge in H2.
  destruct H2 as [[H2 H3] _]. split; cbn [rp_oldEpoch rp_newEpoch rp_sharedWitnesses]; try done.
  - apply shared_witnesses_NoDup.
  - intros id (h & Ho & _)%elem_of_shared_witnesses. apply list_elem_of_fmap. exists (id, h). by rewrite elem_of_map_to_list.
  - intros id (h & _ & Hn)%elem_of_shared_witnesses. apply list_elem_of_fmap. exists (id, h). by rewrite elem_of_map_to_list.
Qed.

(** Members outside a set that meets every quorum are no quorum. *)
Lemma blocked (b : GenesisQuorumBinding) (shared : list string) (P : string → Prop) `{!∀ id, Decision (P id)} :
  NoDup shared → (∀ id, id ∈ shared → id ∈ (map_to_list (gb_members b)).*1) → (∀ id, id ∈ shared → ¬ P id) →
  blocking_count b ≤ Z.of_nat (length shared) →
  Z.of_nat (length (filter P (map_to_list (gb_members b)).*1)) < gb_threshold b.
Proof.
  intros Hnd Hin Hno Hb. unfold blocking_count in Hb. rewrite <- length_map_to_list in Hb.
  set (l := (map_to_list (gb_members b)).*1) in *.
  assert (Hl : length (map_to_list (gb_members b)) = length l) by (unfold l; by rewrite length_fmap). rewrite Hl in Hb.
  pose proof (NoDup_fst_map_to_list (gb_members b)) as Hndl. fold l in Hndl.
  enough (length (shared ++ filter P l) ≤ length l)%nat by (rewrite length_app in *; lia).
  apply submseteq_length, NoDup_submseteq.
  - apply NoDup_app. split; [done|]. split; [|by apply NoDup_filter].
    intros id Hid [HP _]%list_elem_of_filter. by apply (Hno id).
  - intros id [Hid|[_ Hid]%list_elem_of_filter]%elem_of_app; eauto.
Qed.

(** * A coordinator among others *)

(** What the handles do to the policies of the witnesses, while others move them
    by [R] before and after every call: a read answers what the witness held at
    some moment; a transition is applied by the witness to the policy it
    expects, or was applied already, or fails — and may be applied although its
    answer is lost. *)
Class RotationLaws (X : Type) `{!RotationWorld X} (ident : side → string → string) (R : policy_view → policy_view → Prop) : Type := {
  rotation_view : X → policy_view;
  rw_CurrentPolicy_law : ∀ which id x r x', rw_CurrentPolicy which id x = (r, x') →
    ∃ v, rtc R (rotation_view x) v ∧ rtc R v (rotation_view x') ∧ ∀ q, r = Ok q → v !! ident which id = Some q;
  rw_ObserveHead_law : ∀ which id j x r x', rw_ObserveHead which id j x = (r, x') →
    rtc R (rotation_view x) (rotation_view x');
  rw_Transition_law : ∀ which id current next j head x r x',
    rw_Transition which id current next j head x = (r, x') →
    ∃ v v', rtc R (rotation_view x) v ∧ rtc R v' (rotation_view x') ∧
      (v' = v ∨ v !! ident which id = Some current ∧ ValidateQuorumPolicyTransition current next = None ∧
                v' = <[ident which id := next]> v);
  rw_Answers_law : ∀ which j x r x', rw_Answers which j x = (r, x') → rtc R (rotation_view x) (rotation_view x') }.

Section Triples.
Context {X : Type} `{!RotationWorld X}.
Variables (plan : QuorumRotationPlan) (ident : side → string → string).
Abbreviation R := (rotation_step plan ident).
Context `{!RotationLaws X ident R}.

(** From a view with [P], [m] only makes moves of the rotation, and a value it
    returns has [Q]. *)
Definition triple {A} (P : policy_view → Prop) (m : Go X A) (Q : A → policy_view → Prop) : Prop := ∀ x r x',
  m x = (r, x') → P (rotation_view x) →
  rtc R (rotation_view x) (rotation_view x') ∧ ∀ a, r = Ok a → Q a (rotation_view x').

Lemma triple_ret {A} (P : policy_view → Prop) (a : A) : triple P (mret a) (λ b v, b = a ∧ P v).
Proof. intros x r x' [= <- <-] HP. split; [done|]. by intros ? [= ->]. Qed.

Lemma triple_fail {A} P err (Q : A → policy_view → Prop) : triple P (fail err) Q.
Proof. intros x r x' [= <- <-] HP. by split. Qed.

Lemma triple_from_result {A} P (r : result A) : triple P (from_result r) (λ a v, r = Ok a ∧ P v).
Proof. intros x ? x' [= <- <-] HP. by split. Qed.

(** A fact that does not depend on the view is a hypothesis. *)
Lemma triple_pure {A} (φ : Prop) P (m : Go X A) Q : (φ → triple P m Q) → triple (λ v, φ ∧ P v) m Q.
Proof. intros Hm x r x' Hx [Hφ HP]. by apply (Hm Hφ). Qed.

Lemma triple_bind {A B} P (m : Go X A) Q (k : A → Go X B) T :
  triple P m Q → (∀ a, triple (Q a) (k a) T) → triple P (m ≫= k) T.
Proof.
  intros Hm Hk x r x' Hx HP. unfold mbind, Go_bind in Hx. destruct (m x) as [[a|err] x1] eqn:Hmx;
    destruct (Hm _ _ _ Hmx HP) as [H1 HQ].
  - destruct (Hk a _ _ _ Hx (HQ a eq_refl)) as [H2 HT]. split; [by etrans|done].
  - simplify_eq. by split.
Qed.

Lemma triple_wrap {A} P f (m : Go X A) Q : triple P m Q → triple P (wrap_error f m) Q.
Proof.
  intros Hm x r x' Hx HP. unfold wrap_error in Hx. destruct (m x) as [[a|err] x1] eqn:Hmx;
    destruct (Hm _ _ _ Hmx HP) as [H1 HQ]; simplify_eq; by split.
Qed.

Lemma triple_conseq {A} (P P' : policy_view → Prop) (m : Go X A) (Q Q' : A → policy_view → Prop) :
  triple P m Q → (∀ v, P' v → P v) → (∀ a v, Q a v → Q' a v) → triple P' m Q'.
Proof. intros Hm HP HQ x r x' Hx HP'. destruct (Hm _ _ _ Hx (HP _ HP')) as [H1 H2]. eauto. Qed.

Lemma triple_pre {A} (P P' : policy_view → Prop) (m : Go X A) Q : triple P m Q → (∀ v, P' v → P v) → triple P' m Q.
Proof. intros Hm HP. by eapply triple_conseq. Qed.

(** What the others cannot undo is kept across a call. *)
Lemma triple_frame {A} (F P : policy_view → Prop) (m : Go X A) Q :
  stable plan ident F → triple P m Q → triple (λ v, F v ∧ P v) m (λ a v, F v ∧ Q a v).
Proof.
  intros HF Hm x r x' Hx [HFx HP]. destruct (Hm _ _ _ Hx HP) as [H1 H2]. split; [done|].
  intros a Ha. split; [by eapply stable_rtc|by apply H2].
Qed.

Definition any (v : policy_view) : Prop := True.

Lemma triple_keep {A} (F : policy_view → Prop) (m : Go X A) :
  stable plan ident F → triple any m (λ _, any) → triple F m (λ _, F).
Proof.
  intros HF Hm. eapply triple_conseq; [exact (triple_frame F any m _ HF Hm)|by split|]. by intros a v [H _].
Qed.
End Triples.

(** A check whose failure returns an error. *)
Ltac check_fails := match goal with |- triple _ _ _ (if ?b then _ else _) _ => destruct b; [apply triple_fail|] end.

Section Guarantee.
Context {X : Type} `{!RotationWorld X} (jcs : json → result string).
Variables (plan : QuorumRotationPlan) (ident : side → string → string).
Abbreviation R := (rotation_step plan ident).
Context `{!RotationLaws X ident R}.
Hypothesis plan_sound : sound_plan plan.
Abbreviation shared := (rp_sharedWitnesses plan).
Abbreviation old_policy := (old_policy plan).
Abbreviation new_policy := (new_policy plan).
Abbreviation retired := (retired plan).
Abbreviation all_retired := (all_retired plan ident).

(** The two handles of every shared witness verify the same identity. *)
Hypothesis same_identity : ∀ id, id ∈ shared → ident NewHandle id = ident OldHandle id.

Lemma current_policy_triple which id : id ∈ shared →
  triple plan ident any (rw_CurrentPolicy which id)
    (λ q v, ge_genesisEpoch (rp_oldEpoch plan) < qp_GenesisEpoch q → retired (ident OldHandle id) v).
Proof.
  intros Hid x r x' Hx _. apply rw_CurrentPolicy_law in Hx as (v & H1 & H2 & Hq). split; [by etrans|].
  intros q -> Hlt.
  assert (Hi : ident which id = ident OldHandle id) by (destruct which; [done|by apply same_identity]).
  eapply (stable_rtc plan ident); [apply retired_stable|exists q; split; [|done]|exact H2].
  - unfold shared_identities. apply list_elem_of_fmap. eauto.
  - rewrite <- Hi. by apply Hq.
Qed.

Lemma call_any {A} (m : Go X A) :
  (∀ x r x', m x = (r, x') → rtc R (rotation_view x) (rotation_view x')) → triple plan ident any m (λ _, any).
Proof. intros Hm x r x' Hx _. split; [by eapply Hm|done]. Qed.

Lemma policy_state_triple id : id ∈ shared →
  triple plan ident any (sharedPolicyState id)
    (λ q v, ge_genesisEpoch (rp_oldEpoch plan) < qp_GenesisEpoch q → retired (ident OldHandle id) v).
Proof.
  intros Hid. unfold sharedPolicyState. eapply triple_bind; [apply triple_wrap; by apply current_policy_triple|].
  intros q. cbv beta. eapply triple_bind; [apply triple_keep; [|apply triple_wrap]|].
  - intros v v' Hv Hs Hlt. eapply retired_stable; [|by apply Hv|done]. unfold shared_identities. apply list_elem_of_fmap. eauto.
  - eapply triple_conseq; [by apply current_policy_triple|done|done].
  - intros q'. cbv beta. check_fails. eapply triple_conseq; [apply triple_ret|intros v Hv; exact Hv|]. by intros a v [-> H].
Qed.

Lemma any_stable : stable plan ident any.
Proof. done. Qed.

(** A call that may end with any value keeps what is stable. *)
Lemma triple_seq {A B} (F : policy_view → Prop) (m : Go X A) (k : A → Go X B) T :
  stable plan ident F → triple plan ident any m (λ _, any) → (∀ a, triple plan ident F (k a) T) →
  triple plan ident F (m ≫= k) T.
Proof. intros HF Hm Hk. eapply triple_bind; [by apply triple_keep|done]. Qed.

Lemma weaken {A} (m : Go X A) Q : triple plan ident any m Q → triple plan ident any m (λ _, any).
Proof. intros Hm. by eapply triple_conseq. Qed.

Lemma observe_any id j : triple plan ident any (observeSharedHandleHead id j) (λ _, any).
Proof.
  unfold observeSharedHandleHead.
  apply triple_seq; [done|apply triple_wrap, call_any; intros; by eapply rw_ObserveHead_law|intros h].
  apply triple_seq; [done|apply triple_wrap, call_any; intros; by eapply rw_ObserveHead_law|intros h'].
  check_fails. eapply weaken, triple_ret.
Qed.

Lemma convergence_any id q j h : id ∈ shared → triple plan ident any (requireSharedHandleConvergence id q j h) (λ _, any).
Proof.
  intros Hid. unfold requireSharedHandleConvergence.
  apply triple_seq; [done|eapply weaken; by apply policy_state_triple|intros s].
  check_fails. apply triple_seq; [done|apply observe_any|intros h'].
  check_fails. eapply weaken, triple_ret.
Qed.

Lemma observe_loop_any ids j f : triple plan ident any (observe_loop ids j f) (λ _, any).
Proof.
  revert f. induction ids as [|id ids IH]; intros f; simpl.
  { destruct f; [eapply weaken, triple_ret|apply triple_fail]. }
  apply triple_seq; [done|apply observe_any|intros h]. destruct f as [first|]; [|done].
  check_fails. done.
Qed.

Lemma joint_epoch j h joint t : jointPolicy jcs plan j h = Ok (joint, t) →
  ge_genesisEpoch (rp_oldEpoch plan) < qp_GenesisEpoch joint ∧ joint ≠ new_policy.
Proof.
  unfold jointPolicy. destruct (jcs _); [|done]. simpl. intros [= <- _]. split; [by destruct plan_sound|].
  by intros [= ? ?].
Qed.

Lemma new_epoch : ge_genesisEpoch (rp_oldEpoch plan) < qp_GenesisEpoch new_policy.
Proof. by destruct plan_sound. Qed.

Lemma retired_keep id : id ∈ shared → stable plan ident (retired (ident OldHandle id)).
Proof. intros Hid. apply retired_stable. unfold shared_identities. apply list_elem_of_fmap. eauto. Qed.

Lemma classify_triple joint ids c : (∀ id, id ∈ ids → id ∈ shared) →
  ge_genesisEpoch (rp_oldEpoch plan) < qp_GenesisEpoch joint →
  triple plan ident any (classify_loop ids old_policy joint new_policy c)
    (λ c' v, (c.1.1 ≤ c'.1.1)%nat ∧ (c'.1.1 = c.1.1 → ∀ id, id ∈ ids → retired (ident OldHandle id) v)).
Proof.
  intros Hids Hj. revert c. induction ids as [|id ids IH]; intros c; simpl.
  { eapply triple_conseq; [apply triple_ret|intros v Hv; exact Hv|]. intros a v [-> _]. split; [lia|]. intros _ id Hid. set_solver. }
  assert (Hid : id ∈ shared) by set_solver.
  eapply triple_bind; [by apply policy_state_triple|]. intros q. cbv beta. destruct c as [[o jn] n].
  assert (Hnext : ∀ c, c.1.1 = o → ge_genesisEpoch (rp_oldEpoch plan) < qp_GenesisEpoch q →
    triple plan ident (λ v, ge_genesisEpoch (rp_oldEpoch plan) < qp_GenesisEpoch q → retired (ident OldHandle id) v)
      (classify_loop ids old_policy joint new_policy c)
      (λ c' v, (o ≤ c'.1.1)%nat ∧ (c'.1.1 = o → ∀ id', id' ∈ id :: ids → retired (ident OldHandle id') v))).
  { intros c Hc Hlt. eapply triple_conseq.
    - eapply (triple_frame plan ident (retired (ident OldHandle id)) any); [by apply retired_keep|apply IH; set_solver].
    - intros v Hv. split; [by apply Hv|done].
    - intros c' v [Hr [Hle Hall]]. rewrite Hc in *. split; [done|]. intros Heq id' [->|Hin]%elem_of_cons; eauto. }
  case_bool_decide as Ho; [|case_bool_decide as Hq; [|case_bool_decide as Hn]].
  - eapply triple_conseq; [apply (IH ltac:(set_solver))|done|]. intros c' v [Hle _]. simpl in *. split; lia.
  - apply Hnext; [done|by rewrite Hq].
  - apply Hnext; [done|rewrite Hn; apply new_epoch].
  - apply triple_fail.
Qed.

Lemma classify_rotation_triple joint : ge_genesisEpoch (rp_oldEpoch plan) < qp_GenesisEpoch joint →
  triple plan ident any (classifyRotationPolicies shared old_policy joint new_policy)
    (λ c v, c.1.1 = 0%nat → all_retired v).
Proof.
  intros Hj. unfold classifyRotationPolicies. eapply triple_conseq.
  - apply (classify_triple joint (sort_strings shared)); [|done]. intros id. by rewrite sort_strings_perm.
  - done.
  - intros c v [_ Hall] H0 i (id & -> & Hid)%list_elem_of_fmap. apply Hall; [done|]. by rewrite sort_strings_perm.
Qed.

(** A transition is a move of the rotation when it is not to the new policy, or
    nobody can serve the old one. *)
Lemma transition_triple F which id current next j h : stable plan ident F →
  (next = new_policy → ∀ v, F v → all_retired v) →
  triple plan ident F (from_option_error (rw_Transition which id current next j h)) (λ _, F).
Proof.
  intros HF Hg x r x' Hx HP. unfold from_option_error in Hx.
  assert (∃ o, rw_Transition which id current next j h x = (o, x')) as [o Ho].
  { destruct (rw_Transition _ _ _ _ _ _ x) as [[e|] y]; simplify_eq; eauto. }
  apply rw_Transition_law in Ho as (v & v' & H1 & H2 & Hv).
  assert (HFv : F v) by exact (stable_rtc plan ident F _ _ HF HP H1).
  assert (Hsteps : rtc R (rotation_view x) (rotation_view x')).
  { etrans; [done|]. destruct Hv as [->|(Hc & Ht & ->)]; [done|]. eapply rtc_l; [|done].
    apply (witness_moves plan ident v _ _ _ Hc Ht). intros _ Hn. by apply Hg. }
  split; [done|]. intros a _. exact (stable_rtc plan ident F _ _ HF HP Hsteps).
Qed.

Lemma freeze_any joint j h ids : (∀ id, id ∈ ids → id ∈ shared) → joint ≠ new_policy →
  triple plan ident any (freeze_loop ids old_policy joint j h) (λ _, any).
Proof.
  intros Hids Hj. induction ids as [|id ids IH]; simpl; [eapply weaken, triple_ret|].
  assert (Hid : id ∈ shared) by set_solver.
  apply triple_seq; [done|eapply weaken; by apply policy_state_triple|intros q].
  apply triple_seq; [done| |intros _; apply IH; set_solver].
  case_bool_decide; [|case_bool_decide; [by apply convergence_any|apply triple_fail]].
  apply triple_seq; [done| |intros _; by apply convergence_any]. apply triple_wrap. by apply transition_triple.
Qed.

Lemma activate_triple joint j h ids : (∀ id, id ∈ ids → id ∈ shared) →
  triple plan ident all_retired (activate_loop ids joint new_policy j h) (λ _, all_retired).
Proof.
  intros Hids. pose proof (all_retired_stable plan ident) as HF. induction ids as [|id ids IH]; simpl.
  { eapply triple_conseq; [apply triple_ret|intros v Hv; exact Hv|]. by intros a v [_ H]. }
  assert (Hid : id ∈ shared) by set_solver.
  apply triple_seq; [done|eapply weaken; by apply policy_state_triple|intros q].
  eapply triple_bind with (Q := λ _, all_retired); [|intros _; apply IH; set_solver].
  case_bool_decide; [|case_bool_decide; [apply triple_keep; [done|by apply convergence_any]|apply triple_fail]].
  eapply triple_bind with (Q := λ _, all_retired); [|intros _; apply triple_keep; [done|by apply convergence_any]].
  apply triple_wrap, transition_triple; [done|]. by intros.
Qed.

Lemma load_any which s j : triple plan ident any (store_load which s j) (λ h v, ∃ answers, QuorumHeadStore_Load s j answers = Ok h).
Proof.
  intros x r x' Hx _. unfold store_load in Hx. destruct (rw_Answers which j x) as [answers y] eqn:Ha.
  injection Hx as <- <-. split; [by eapply rw_Answers_law|]. eauto.
Qed.
End Guarantee.

(** The handles of a store reach the witnesses whose identity they verify. *)
Definition verifies (ident : side → string → string) (which : side) (s : QuorumHeadStore) : Prop :=
  ∀ id m, find_member s id = Some m → ident which id = trust_hash m.

Lemma sharedPolicyStores_same ident ids oldStore newStore : sharedPolicyStores ids oldStore newStore = Ok tt →
  verifies ident OldHandle oldStore → verifies ident NewHandle newStore →
  ∀ id, id ∈ ids → ident NewHandle id = ident OldHandle id.
Proof.
  intros Hs Ho Hn. induction ids as [|i ids IH]; [set_solver|]. simpl in Hs.
  destruct (find_member oldStore i) as [m|] eqn:Hm; [|done]. destruct (find_member newStore i) as [m'|] eqn:Hm'; [|done].
  destruct (negb _); [done|]. destruct (negb _); [done|]. destruct (str_eqb _ _) eqn:Heq; [|done]. split_bool.
  intros id [->|Hid]%elem_of_cons; [|by apply IH]. by rewrite (Ho _ _ Hm), (Hn _ _ Hm').
Qed.

Section Rotations.
Context {X : Type} `{!RotationWorld X} (jcs : json → result string).
Variables (plan : QuorumRotationPlan) (ident : side → string → string).
Context `{!RotationLaws X ident (rotation_step plan ident)}.
Hypothesis plan_sound : sound_plan plan.
Variables (oldStore newStore : QuorumHeadStore) (journalID : string).
Hypotheses (old_handles : verifies ident OldHandle oldStore) (new_handles : verifies ident NewHandle newStore).

Definition rotated (rr : QuorumRotationResult) (v : policy_view) : Prop :=
  all_retired plan ident v ∧ rr_SharedWitnesses rr = rp_sharedWitnesses plan ∧
  ∃ read unread err, QuorumHeadStore_Load newStore (TrimSpace journalID) read = Ok (rr_Head rr) ∧
    QuorumHeadStore_Load oldStore (TrimSpace journalID) unread = Error err.

Lemma retire_triple (newHead : ExternalHead) (t : string) :
  triple plan ident (λ v, (∃ read, QuorumHeadStore_Load newStore (TrimSpace journalID) read = Ok newHead) ∧ all_retired plan ident v)
    (λ x, match store_load OldHandle oldStore (TrimSpace journalID) x with
          | (Ok _, x) => (Error (ErrDetail ErrQuorumRotationUnsafe "retired old quorum still reads authoritative head"), x)
          | (Error _, x) => (Ok {| rr_Head := newHead; rr_TransitionHash := t;
                                   rr_SharedWitnesses := rp_sharedWitnesses plan |}, x)
          end) rotated.
Proof.
  intros x r x' Hx [[read Hread] Hall]. unfold store_load in Hx.
  destruct (rw_Answers OldHandle _ x) as [answers y] eqn:Ha. apply rw_Answers_law in Ha.
  destruct (QuorumHeadStore_Load oldStore _ answers) as [h|err] eqn:Hl; injection Hx as <- <-; (split; [done|]); [done|].
  intros ? [= <-]. split; [by eapply (stable_rtc plan ident); [apply all_retired_stable| |]|]. split; [done|].
  exists read, answers, err. by split.
Qed.

Lemma execute_triple : triple plan ident any (ExecuteQuorumRotation jcs plan oldStore newStore journalID) rotated.
Proof.
  unfold ExecuteQuorumRotation. do 3 check_fails.
  eapply triple_bind; [apply triple_from_result|]. intros []. apply triple_pure. intros Hs.
  pose proof (sharedPolicyStores_same ident _ _ _ Hs old_handles new_handles) as Hsame.
  apply triple_seq; [done|by apply observe_loop_any|intros head].
  eapply triple_bind; [apply triple_from_result|]. intros [joint t]. apply triple_pure. intros Hj.
  apply joint_epoch in Hj as [Hjoint Hne]; [|done].
  assert (Hclass := classify_rotation_triple plan ident plan_sound Hsame joint Hjoint).
  eapply triple_bind; [exact Hclass|]. intros [[o jn] n]. cbv beta. cbn [fst snd].
  check_fails.
  assert (Hkeep : stable plan ident (λ v, o = 0%nat → all_retired plan ident v)).
  { intros v v1 Hv Hstep Hz. eapply all_retired_stable; [by apply Hv|done]. }
  apply triple_seq; [done| |intros _].
  { destruct (_ =? _)%nat; [|eapply weaken, triple_ret]. apply triple_seq; [done|apply triple_wrap; eapply weaken, load_any|].
    intros h. check_fails. eapply weaken, triple_ret. }
  eapply triple_bind with (Q := λ c v, c.1.1 = 0%nat → all_retired plan ident v).
  { destruct (Nat.ltb_spec 0 o).
    - eapply (triple_pre plan ident any); [|done]. apply triple_seq; [done|by apply freeze_any|intros _; exact Hclass].
    - eapply triple_conseq; [apply triple_ret|intros v Hv; exact Hv|]. by intros ? v [-> Hv]. }
  intros [[o' jn'] n']. cbn [fst snd]. destruct (o' =? 0)%nat eqn:Ho; cbn [negb]; [|apply triple_fail]. apply Nat.eqb_eq in Ho.
  check_fails.
  eapply (triple_pre plan ident (all_retired plan ident)); [|intros v Hv; by apply Hv].
  eapply triple_bind; [by apply activate_triple|intros u; cbv beta].
  eapply triple_bind; [apply triple_wrap; eapply triple_pre|].
  { apply (triple_frame plan ident (all_retired plan ident) any); [apply all_retired_stable|apply load_any]. }
  { intros v Hv. by split. }
  intros newHead. cbv beta. check_fails.
  eapply triple_pre; [apply retire_triple|intros v [? ?]; by split].
Qed.
End Rotations.

(** * The properties of a rotation *)

(** C10: Whatever a coordinator meets — other coordinators between any two of
    its calls, errors, lost answers, a stop at any call — the execution of a
    sound plan only makes moves of the rotation: it never puts a shared witness
    under the new policy while another may still serve the old one. *)
Theorem rotation_moves_are_safe (X : Type) `{!RotationWorld X} jcs old new plan ident
    `{!RotationLaws X ident (rotation_step plan ident)} oldStore newStore journalID (x x' : X) r :
  NewQuorumRotationPlan old new = Ok plan → verifies ident OldHandle oldStore → verifies ident NewHandle newStore →
  ExecuteQuorumRotation jcs plan oldStore newStore journalID x = (r, x') →
  rtc (rotation_step plan ident) (rotation_view x) (rotation_view x').
Proof.
  intros (_ & _ & Hsound)%NewQuorumRotationPlan_sound Ho Hn Hx.
  by destruct (execute_triple jcs plan ident Hsound oldStore newStore journalID Ho Hn _ _ _ Hx I) as [H _].
Qed.

(** C9: From a state where no shared witness has seen the new policy, no
    sequence of moves of the rotation reaches one where enough old members
    serve the old policy for an old quorum and enough new members the new
    policy for a new quorum: the journal never has two authorities. *)
Theorem rotation_never_two_quorums old new plan ident oldStore newStore v v' :
  NewQuorumRotationPlan old new = Ok plan → sharedPolicyStores (rp_sharedWitnesses plan) oldStore newStore = Ok tt →
  verifies ident OldHandle oldStore → verifies ident NewHandle newStore →
  fresh plan ident v → rtc (rotation_step plan ident) v v' →
  ¬ (live ident OldHandle old v' ∧ live ident NewHandle new v').
Proof.
  intros (<- & <- & Hsound)%NewQuorumRotationPlan_sound Hs Ho Hn Hf Hrtc [Hlo Hln].
  pose proof (sharedPolicyStores_same ident _ _ _ Hs Ho Hn) as Hsame.
  destruct (stable_rtc plan ident _ _ _ (exclusive_stable plan ident) (or_introl Hf) Hrtc) as [Hfresh|Hret].
  - apply (Z.lt_irrefl (gb_threshold (ge_binding (rp_newEpoch plan)))). eapply Z.le_lt_trans; [exact Hln|].
    eapply blocked; [apply Hsound|apply Hsound| |apply Hsound].
    intros id Hid. rewrite Hsame by done. apply Hfresh, list_elem_of_fmap. eauto.
  - apply (Z.lt_irrefl (gb_threshold (ge_binding (rp_oldEpoch plan)))). eapply Z.le_lt_trans; [exact Hlo|].
    eapply blocked; [apply Hsound|apply Hsound| |apply Hsound].
    intros id Hid. apply retired_not_old, Hret, list_elem_of_fmap. eauto.
Qed.

(** An execution that succeeds has retired the old quorum for good: the
    head it returns was read from a quorum of the new store, the old store no
    longer gave one, and after any further moves the old policy never has a
    quorum again. *)
Theorem rotation_retires_old_quorum (X : Type) `{!RotationWorld X} jcs old new plan ident
    `{!RotationLaws X ident (rotation_step plan ident)} oldStore newStore journalID (x x' : X) rr v :
  NewQuorumRotationPlan old new = Ok plan → verifies ident OldHandle oldStore → verifies ident NewHandle newStore →
  ExecuteQuorumRotation jcs plan oldStore newStore journalID x = (Ok rr, x') →
  rtc (rotation_step plan ident) (rotation_view x') v →
  ¬ live ident OldHandle old v ∧ rr_SharedWitnesses rr = rp_sharedWitnesses plan ∧
  ∃ read unread err, QuorumHeadStore_Load newStore (TrimSpace journalID) read = Ok (rr_Head rr) ∧
    QuorumHeadStore_Load oldStore (TrimSpace journalID) unread = Error err.
Proof.
  intros (<- & _ & Hsound)%NewQuorumRotationPlan_sound Ho Hn Hx Hrtc.
  destruct (execute_triple jcs plan ident Hsound oldStore newStore journalID Ho Hn _ _ _ Hx I) as [_ Hpost].
  destruct (Hpost _ eq_refl) as (Hret & Hshared & Hread). split; [|by split]. intros Hlo.
  pose proof (stable_rtc plan ident _ _ _ (all_retired_stable plan ident) Hret Hrtc) as Hv.
  apply (Z.lt_irrefl (gb_threshold (ge_binding (rp_oldEpoch plan)))). eapply Z.le_lt_trans; [exact Hlo|].
  eapply blocked; [apply Hsound|apply Hsound| |apply Hsound].
  intros id Hid. apply retired_not_old, Hv, list_elem_of_fmap. eauto.
Qed.

(** * Witnesses *)

Section Sample.
Definition epoch_of (epoch : Z) (policy : ascii) (members : gmap string string) : GovernedQuorumEpoch := {|
  ge_genesisEpoch := epoch; ge_genesisManifestHash := sample_digest "9";
  ge_binding := {| gb_capabilityEnvelopeHash := sample_digest "e"; gb_policyHash := sample_digest policy; gb_threshold := 2;
                   gb_members := members |} |}.

Definition epoch_one : GovernedQuorumEpoch := epoch_of 1 "a" {["a" := "ta"; "b" := "tb"; "c" := "tc"]}.
Definition epoch_two : GovernedQuorumEpoch := epoch_of 2 "b" {["a" := "ta"; "b" := "tb"; "d" := "td"]}.

Definition sample_plan : QuorumRotationPlan := {|
  rp_oldEpoch := epoch_one; rp_newEpoch := epoch_two; rp_sharedWitnesses := ["a"; "b"];
  rp_oldBlockingCount := 2; rp_newBlockingCount := 2 |}.

Lemma sample_plan_ok : NewQuorumRotationPlan epoch_one epoch_two = Ok sample_plan.
Proof. vm_compute. reflexivity. Qed.

Definition fenced_member (id : string) : QuorumHeadMember :=
  {| qm_ID := id; qm_Store := Some {| mh_TrustManifestHash := Some ("t" +:+ id); mh_Fenced := true |} |}.

Definition store_of (e : GovernedQuorumEpoch) (ids : list string) : QuorumHeadStore := {|
  qs_members := fenced_member <$> ids; qs_threshold := 2; qs_policyHash := gb_policyHash (ge_binding e);
  qs_capabilityEnvelopeHash := sample_digest "e"; qs_governedPolicy := Some (activePolicy e) |}.

Definition store_one : QuorumHeadStore := store_of epoch_one ["a"; "b"; "c"].
Definition store_two : QuorumHeadStore := store_of epoch_two ["a"; "b"; "d"].

(** Witnesses that nobody else touches, all at one head: a member answers a
    load when it holds the policy of the store. *)
Definition quiet_answers (which : side) (v : policy_view) : list (arrival quorumMemberObservation) :=
  let s := match which with OldHandle => store_one | NewHandle => store_two end in
  (λ m, Arrived (observation_of m
     (if bool_decide (v !! trust_hash m = qs_governedPolicy s) then Ok (sample_head 3 "x") else Error ErrQuorumPolicyMismatch)))
    <$> qs_members s.

Definition quiet_transition (i : string) (current next : QuorumPolicyState) (v : policy_view) : option error * policy_view :=
  if bool_decide (v !! i = Some current) then
    match ValidateQuorumPolicyTransition current next with
    | None => (None, <[i := next]> v)
    | Some err => (Some err, v)
    end
  else (Some ErrQuorumPolicyMismatch, v).

#[export] Instance quiet_world : RotationWorld policy_view := {|
  rw_CurrentPolicy _ id v := (match v !! ("t" +:+ id) with Some q => Ok q | None => Error ErrGovernedWitnessStateNotFound end, v);
  rw_ObserveHead _ _ _ v := (Ok (sample_head 3 "x"), v);
  rw_Transition _ id current next _ _ v := quiet_transition ("t" +:+ id) current next v;
  rw_Answers which _ v := (quiet_answers which v, v) |}.

Definition quiet_ident (_ : side) (id : string) : string := "t" +:+ id.

#[export] Instance quiet_laws R : RotationLaws policy_view quiet_ident R.
Proof.
  refine {| rotation_view := id |}.
  - intros which i x r x' [= <- <-]. exists x. split; [done|]. split; [done|]. intros q.
    unfold quiet_ident. destruct (x !! _); by intros [= ->].
  - by intros which i j x r x' [= <- <-].
  - intros which i c n j h x r x' Hx. simpl in Hx. unfold quiet_transition in Hx. case_bool_decide as Hc.
    + destruct (ValidateQuorumPolicyTransition c n) eqn:Ht; injection Hx as <- <-; eexists x, _; (split; [done|]);
        (split; [done|]); [by left|right; by split].
    + injection Hx as <- <-. exists x, x. split; [done|]. split; [done|]. by left.
  - by intros which j x r x' [= <- <-].
Defined.

Lemma sample_verifies which e ids : verifies quiet_ident which (store_of e ids).
Proof.
  intros id m Hm. unfold find_member in Hm. destruct (list_find _ _) as [[i m']|] eqn:Hf; [|done]. injection Hm as <-.
  apply list_find_Some in Hf as (Hl & <- & _). unfold store_of in Hl. cbn [qs_members] in Hl.
  rewrite list_lookup_fmap in Hl. destruct (ids !! i) as [k|]; [|done]. by injection Hl as <-.
Qed.

Definition plain_jcs (j : json) : result string := Ok "{}".

Definition sample_view : policy_view := let q := activePolicy epoch_one in {["ta" := q; "tb" := q; "tc" := q]}.

Definition sample_rotation : result QuorumRotationResult * policy_view :=
  ExecuteQuorumRotation plain_jcs sample_plan store_one store_two "j" sample_view.

Definition rotated_view : policy_view :=
  let q := activePolicy epoch_one in let q' := activePolicy epoch_two in {["ta" := q'; "tb" := q'; "tc" := q]}.

Lemma sample_rotation_ends : (is_ok sample_rotation.1, bool_decide (sample_rotation.2 = rotated_view)) = (true, true).
Proof. vm_compute. reflexivity. Qed.

Lemma sample_rotated : ∃ rr, sample_rotation = (Ok rr, rotated_view).
Proof.
  pose proof sample_rotation_ends as H. destruct sample_rotation as [[rr|] v]; cbn [fst snd is_ok] in H; [|done].
  exists rr. case_bool_decide as Hv; [by rewrite Hv|done].
Qed.

Example rotation_moves_are_safe_witness : rtc (rotation_step sample_plan quiet_ident) sample_view rotated_view.
Proof.
  destruct sample_rotated as [rr Hrr].
  exact (rotation_moves_are_safe policy_view plain_jcs _ _ _ quiet_ident store_one store_two "j" sample_view rotated_view _
    sample_plan_ok (sample_verifies _ _ _) (sample_verifies _ _ _) Hrr).
Defined.

Lemma sample_fresh : fresh sample_plan quiet_ident sample_view.
Proof.
  intros i Hi. assert (i = "ta" ∨ i = "tb") as [->| ->].
  { unfold shared_identities in Hi. simpl in Hi. rewrite !elem_of_cons in Hi. destruct Hi as [->|[->|Hi]]; [by left|by right|set_solver]. }
  all: by vm_compute.
Qed.

Lemma sample_reaches : rtc (rotation_step sample_plan quiet_ident) sample_view rotated_view.
Proof.
  destruct sample_rotated as [rr Hrr]. assert (sound_plan sample_plan) as Hs.
  { apply (NewQuorumRotationPlan_sound _ _ _ sample_plan_ok). }
  by destruct (execute_triple plain_jcs sample_plan quiet_ident Hs store_one store_two "j"
    (sample_verifies _ _ _) (sample_verifies _ _ _) _ _ _ Hrr I) as [H _].
Qed.

Example rotation_never_two_quorums_witness : ¬ (live quiet_ident OldHandle epoch_one rotated_view ∧
  live quiet_ident NewHandle epoch_two rotated_view).
Proof.
  exact (rotation_never_two_quorums _ _ _ quiet_ident store_one store_two sample_view rotated_view sample_plan_ok eq_refl
    (sample_verifies _ _ _) (sample_verifies _ _ _) sample_fresh sample_reaches).
Defined.

Example rotation_retires_old_quorum_witness : ¬ live quiet_ident OldHandle epoch_one rotated_view.
Proof.
  destruct sample_rotated as [rr Hrr].
  assert (Hv : rtc (rotation_step sample_plan quiet_ident) rotated_view rotated_view) by constructor.
  pose proof (rotation_retires_old_quorum policy_view plain_jcs _ _ _ quiet_ident store_one store_two "j" sample_view
    rotated_view _ rotated_view sample_plan_ok (sample_verifies _ _ _) (sample_verifies _ _ _) Hrr) as H.
  exact (proj1 (H Hv)).
Defined.
End Sample.
