(* ===== verification/Unmarshal.v ===== *)
(** * JSON decoding

    What the source uses of [json.Unmarshal]: the grammar of JSON texts, the
    strings with their escapes, and the way an object fills a structure -- field
    names match without case, unknown members are skipped, [null] leaves a field
    alone, the last of several members wins, and the first error is reported
    after the rest was decoded.

    Decoding reads back what [Json.encode] writes, with the bytes that are not
    UTF-8 replaced: [parse_encode]. *)

From S2P Require Import Prelude Crypto Format Json.

(** * Strings *)

Definition hex_value (a : ascii) : option N :=
  if in_range 48 a 57 then Some (N_of_ascii a - 48)%N
  else if in_range 97 a 102 then Some (N_of_ascii a - 87)%N
  else if in_range 65 a 70 then Some (N_of_ascii a - 55)%N
  else None.

(** [getu4], on the four characters after the escape. *)
Definition hex4 (a b c d : ascii) : option N :=
  a ← hex_value a; b ← hex_value b; c ← hex_value c; d ← hex_value d;
  Some (4096 * a + 256 * b + 16 * c + d)%N.

Definition byte (n : N) : ascii := ascii_of_N n.

(** The replacement character U+FFFD. *)
Definition rune_error (rest : string) : string := String "239" (String "191" (String "189" rest)).

Definition surrogate (n : N) : bool := (0xD800 <=? n)%N && (n <? 0xE000)%N.

(** [utf8.EncodeRune]; the code points of this file are at most U+10FFFF. *)
Definition encode_rune (n : N) (rest : string) : string :=
  if (n <? 0x80)%N then String (byte n) rest
  else if (n <? 0x800)%N then String (byte (0xC0 + n / 64)) (String (byte (0x80 + n mod 64)) rest)
  else if surrogate n then rune_error rest
  else if (n <? 0x10000)%N
  then String (byte (0xE0 + n / 4096)) (String (byte (0x80 + n / 64 mod 64)) (String (byte (0x80 + n mod 64)) rest))
  else String (byte (0xF0 + n / 262144)) (String (byte (0x80 + n / 4096 mod 64))
         (String (byte (0x80 + n / 64 mod 64)) (String (byte (0x80 + n mod 64)) rest))).

(** [utf16.DecodeRune]. *)
Definition surrogate_pair (hi lo : N) : option N :=
  if ((0xD800 <=? hi) && (hi <? 0xDC00) && (0xDC00 <=? lo) && (lo <? 0xE000))%N
  then Some ((hi - 0xD800) * 1024 + (lo - 0xDC00) + 0x10000)%N
  else None.

Definition simple_escape (e : ascii) : option ascii :=
  if Ascii.eqb e quote || Ascii.eqb e backslash || Ascii.eqb e "/" then Some e
  else if Ascii.eqb e "b" then Some "008"%char else if Ascii.eqb e "f" then Some "012"%char
  else if Ascii.eqb e "n" then Some "010"%char else if Ascii.eqb e "r" then Some "013"%char
  else if Ascii.eqb e "t" then Some "009"%char else None.

(** The value of a string literal up to its closing quote, whether the literal
    is its value byte for byte, and what follows. *)
Abbreviation string_read := (option (string * bool * string)).

Definition then_bytes (f : string → string) (verbatim : bool) (o : string_read) : string_read :=
  '(t, v, r) ← o; Some (f t, verbatim && v, r).

Fixpoint parse_string (s : string) : string_read :=
  match s with
  | "" => None
  | String a s1 =>
      if Ascii.eqb a quote then Some ("", true, s1)
      else if Ascii.eqb a backslash then
        match s1 with
        | "" => None
        | String e s2 =>
            if Ascii.eqb e "u" then
              match s2 with
              | String h1 (String h2 (String h3 (String h4 s3))) =>
                  match hex4 h1 h2 h3 h4 with
                  | None => None
                  | Some n =>
                      match s3 with
                      | String b (String u (String l1 (String l2 (String l3 (String l4 s4))))) =>
                          match (if Ascii.eqb b backslash && Ascii.eqb u "u" then hex4 l1 l2 l3 l4 else None) ≫=
                                surrogate_pair n with
                          | Some m => then_bytes (encode_rune m) false (parse_string s4)
                          | None => then_bytes (encode_rune n) false (parse_string s3)
                          end
                      | _ => then_bytes (encode_rune n) false (parse_string s3)
                      end
                  end
              | _ => None
              end
            else match simple_escape e with
            | Some c => then_bytes (String c) false (parse_string s2)
            | None => None
            end
        end
      else if (N_of_ascii a <? 0x20)%N then None
      else if (N_of_ascii a <? 0x80)%N then then_bytes (String a) true (parse_string s1)
      else match s1 with
      | "" => None
      | String b s2 =>
          if seq2 a b then then_bytes (λ t, String a (String b t)) true (parse_string s2)
          else match s2 with
          | "" => then_bytes rune_error false (parse_string s1)
          | String c s3 =>
              if seq3 a b c then then_bytes (λ t, String a (String b (String c t))) true (parse_string s3)
              else match s3 with
              | "" => then_bytes rune_error false (parse_string s1)
              | String d s4 =>
                  if seq4 a b c d then then_bytes (λ t, String a (String b (String c (String d t)))) true (parse_string s4)
                  else then_bytes rune_error false (parse_string s1)
              end
          end
      end
  end.

(** * Numbers *)

Definition is_digit (a : ascii) : bool := in_range 48 a 57.

(** The leading digits and the rest. *)
Fixpoint take_digits (s : string) : string * string :=
  match s with
  | String a s1 => if is_digit a then let '(d, r) := take_digits s1 in (String a d, r) else ("", s)
  | "" => ("", "")
  end.

Definition nonempty (s : string) : bool := match s with "" => false | _ => true end.

(** A zero, or digits that do not start with one. *)
Definition parse_integer (s : string) : option (string * string) :=
  match s with
  | String a s1 =>
      if Ascii.eqb a "0" then Some ("0", s1)
      else let '(d, r) := take_digits s in if nonempty d then Some (d, r) else None
  | "" => None
  end.

Definition parse_fraction (s : string) : option (string * string) :=
  match s with
  | String a s1 =>
      if Ascii.eqb a "." then
        let '(d, r) := take_digits s1 in if nonempty d then Some (String a d, r) else None
      else Some ("", s)
  | "" => Some ("", "")
  end.

Definition parse_exponent (s : string) : option (string * string) :=
  match s with
  | String a s1 =>
      if Ascii.eqb a "e" || Ascii.eqb a "E" then
        let '(sign, s2) := match s1 with
                           | String c s2 => if Ascii.eqb c "+" || Ascii.eqb c "-" then (String c "", s2) else ("", s1)
                           | "" => ("", s1)
                           end in
        let '(d, r) := take_digits s2 in if nonempty d then Some (String a (sign +:+ d), r) else None
      else Some ("", s)
  | "" => Some ("", "")
  end.

Definition parse_number (s : string) : option (string * string) :=
  let '(sign, s) := match s with
                    | String a s1 => if Ascii.eqb a "-" then ("-", s1) else ("", s)
                    | "" => ("", s)
                    end in
  '(i, s) ← parse_integer s; '(f, s) ← parse_fraction s; '(e, s) ← parse_exponent s;
  Some (sign +:+ i +:+ f +:+ e, s).

(** * Values *)

(** A parsed text: numbers keep their literal, strings whether the literal was
    their value byte for byte. *)
#[warnings="-register-all"]
Inductive jvalue : Type :=
  | VNull
  | VBool (b : bool)
  | VNumber (literal : string)
  | VString (verbatim : bool) (s : string)
  | VArray (l : list jvalue)
  | VObject (members : list (string * jvalue)).

Definition json_space (a : ascii) : bool :=
  Ascii.eqb a " " || Ascii.eqb a "009" || Ascii.eqb a "010" || Ascii.eqb a "013".

Fixpoint skip_space (s : string) : string :=
  match s with
  | String a s1 => if json_space a then skip_space s1 else s
  | "" => ""
  end.

Definition literal (s : string) : option (jvalue * string) :=
  match s with
  | String "n" (String "u" (String "l" (String "l" r))) => Some (VNull, r)
  | String "t" (String "r" (String "u" (String "e" r))) => Some (VBool true, r)
  | String "f" (String "a" (String "l" (String "s" (String "e" r)))) => Some (VBool false, r)
  | _ => '(n, r) ← parse_number s; Some (VNumber n, r)
  end.

(** [maxNestingDepth] of the decoder. *)
Definition max_depth : N := 10000.

(** A value at the head of the text; the elements of an array up to its closing
    bracket; the members of an object up to its closing brace.  Every turn
    spends one unit of fuel; two for each byte are enough. *)
Fixpoint parse_value (fuel : nat) (depth : N) (s : string) : option (jvalue * string) :=
  match fuel with O => None | S fuel =>
  match s with
  | "" => None
  | String a s1 =>
      if Ascii.eqb a quote then '(t, v, r) ← parse_string s1; Some (VString v t, r)
      else if Ascii.eqb a "[" then
        if (depth =? 0)%N then None
        else match skip_space s1 with
        | "" => None
        | String c s2 =>
            if Ascii.eqb c "]" then Some (VArray [], s2)
            else '(l, r) ← parse_elements fuel (depth - 1) (String c s2); Some (VArray l, r)
        end
      else if Ascii.eqb a "{" then
        if (depth =? 0)%N then None
        else match skip_space s1 with
        | "" => None
        | String c s2 =>
            if Ascii.eqb c "}" then Some (VObject [], s2)
            else '(l, r) ← parse_members fuel (depth - 1) (String c s2); Some (VObject l, r)
        end
      else literal s
  end end
with parse_elements (fuel : nat) (depth : N) (s : string) : option (list jvalue * string) :=
  match fuel with O => None | S fuel =>
  '(v, r) ← parse_value fuel depth s;
  match skip_space r with
  | "" => None
  | String a r =>
      if Ascii.eqb a "]" then Some ([v], r)
      else if Ascii.eqb a "," then '(l, r) ← parse_elements fuel depth (skip_space r); Some (v :: l, r)
      else None
  end end
with parse_members (fuel : nat) (depth : N) (s : string) : option (list (string * jvalue) * string) :=
  match fuel with O => None | S fuel =>
  match s with
  | "" => None
  | String a s1 =>
      if negb (Ascii.eqb a quote) then None
      else '(k, _, r) ← parse_string s1;
      match skip_space r with
      | "" => None
      | String c r =>
          if negb (Ascii.eqb c ":") then None
          else '(v, r) ← parse_value fuel depth (skip_space r);
          match skip_space r with
          | "" => None
          | String a r =>
              if Ascii.eqb a "}" then Some ([(k, v)], r)
              else if Ascii.eqb a "," then '(l, r) ← parse_members fuel depth (skip_space r); Some ((k, v) :: l, r)
              else None
          end
      end
  end end.

Definition ErrSyntax : error := ErrNew "invalid JSON text".

Definition parse_json (s : string) : result jvalue :=
  match parse_value (2 * String.length s + 2) max_depth (skip_space s) with
  | Some (v, r) => match skip_space r with "" => Ok v | _ => Error ErrSyntax end
  | None => Error ErrSyntax
  end.

Example parse_sample :
  parse_json (" {" +:+ quoted "a" +:+ " : [1.5e3, -0 ,true,null], " +:+ quoted "\u00e9\ud83d\ude00\ud83d" +:+ ":" +:+
              quoted "x" +:+ "}" +:+ String "010" "") =
  Ok (VObject [("a", VArray [VNumber "1.5e3"; VNumber "-0"; VBool true; VNull]);
               ("é😀" +:+ rune_error "", VString true "x")]).
Proof. vm_compute. reflexivity. Qed.

Example parse_refusals :
  (λ s, is_ok (parse_json s)) <$> ["01"; "[1,]"; "{} x"; quoted "\x"; quoted (String "009" ""); "-"; "nul"; "[1"; "1."] =
  replicate 9 false.
Proof. vm_compute. reflexivity. Qed.

(** * What decoding makes of an encoded string *)

(** The text with U+FFFD for every byte that is not part of valid UTF-8. *)
Fixpoint coerce (s : string) : string :=
  match s with
  | "" => ""
  | String a s1 =>
      if (N_of_ascii a <? 0x80)%N then String a (coerce s1)
      else match s1 with
      | "" => rune_error (coerce s1)
      | String b s2 =>
          if seq2 a b then String a (String b (coerce s2))
          else match s2 with
          | "" => rune_error (coerce s1)
          | String c s3 =>
              if seq3 a b c then String a (String b (String c (coerce s3)))
              else match s3 with
              | "" => rune_error (coerce s1)
              | String d s4 =>
                  if seq4 a b c d then String a (String b (String c (String d (coerce s4))))
                  else rune_error (coerce s1)
              end
          end
      end
  end.

(** Induction along the sequences and the stray bytes of any text. *)
Lemma text_ind (P : string → Prop) :
  P "" →
  (∀ a s, (N_of_ascii a < 0x80)%N → P s → P (String a s)) →
  (∀ a b s, seq2 a b = true → P s → P (String a (String b s))) →
  (∀ a b c s, seq2 a b = false → seq3 a b c = true → P s → P (String a (String b (String c s)))) →
  (∀ a b c d s, seq2 a b = false → seq3 a b c = false → seq4 a b c d = true → P s →
     P (String a (String b (String c (String d s))))) →
  (∀ a s, (N_of_ascii a <? 0x80)%N = false → coerce (String a s) = rune_error (coerce s) →
     escape (String a s) = replacement (escape s) → utf8_valid (String a s) = false → P s → P (String a s)) →
  ∀ s, P s.
Proof.
  intros H0 H1 H2 H3 H4 H5 s. remember (String.length s) as n eqn:Hn. revert s Hn.
  induction (lt_wf n) as [n _ IH]. intros s ->.
  assert (Hs : ∀ a t, s = String a t → P t) by (intros a t ->; eapply IH; [|done]; simpl; lia).
  destruct s as [|a s1]; [done|]. specialize (Hs a s1 eq_refl).
  destruct (N_of_ascii a <? 0x80)%N eqn:Ea.
  { apply H1; [by apply N.ltb_lt|done]. }
  destruct s1 as [|b s2]; [apply H5; cbn [coerce escape utf8_valid]; rewrite ?Ea; done|]. destruct (seq2 a b) eqn:E2.
  { apply H2; [done|]. eapply IH; [|done]. simpl. lia. }
  destruct s2 as [|c s3]; [apply H5; cbn [coerce escape utf8_valid]; rewrite ?Ea, ?E2; done|].
  destruct (seq3 a b c) eqn:E3.
  { apply H3; [done..|]. eapply IH; [|done]. simpl. lia. }
  assert (El : line_separator a b c = false).
  { destruct (line_separator a b c) eqn:El; [|done].
    by apply line_separator_eq in El as (-> & -> & [-> | ->]). }
  destruct s3 as [|d s4]; [apply H5; cbn [coerce escape utf8_valid]; rewrite ?Ea, ?E2, ?El, ?E3; done|].
  destruct (seq4 a b c d) eqn:E4.
  { apply H4; [done..|]. eapply IH; [|done]. simpl. lia. }
  apply H5; [done| | | |done].
  - change (coerce (String a (String b (String c (String d s4))))) with
      (if (N_of_ascii a <? 0x80)%N then String a (coerce (String b (String c (String d s4)))) else
       if seq2 a b then String a (String b (coerce (String c (String d s4)))) else
       if seq3 a b c then String a (String b (String c (coerce (String d s4)))) else
       if seq4 a b c d then String a (String b (String c (String d (coerce s4)))) else
       rune_error (coerce (String b (String c (String d s4))))).
    by rewrite Ea, E2, E3, E4.
  - change (escape (String a (String b (String c (String d s4))))) with
      (if (N_of_ascii a <? 0x80)%N then escape_ascii a (escape (String b (String c (String d s4)))) else
       if seq2 a b then String a (String b (escape (String c (String d s4)))) else
       if line_separator a b c
       then esc "u" ("202" +:+ String (if Ascii.eqb c "168" then "8"%char else "9"%char) (escape (String d s4))) else
       if seq3 a b c then String a (String b (String c (escape (String d s4)))) else
       if seq4 a b c d then String a (String b (String c (String d (escape s4)))) else
       replacement (escape (String b (String c (String d s4))))).
    by rewrite Ea, E2, El, E3, E4.
  - cbn [utf8_valid]. by rewrite Ea, E2, E3, E4.
Qed.

Lemma coerce_utf8 s : utf8_valid s = true → coerce s = s.
Proof.
  pattern s. revert s. apply text_ind; cbn [coerce utf8_valid].
  - done.
  - intros a s Ha IH. rewrite (proj2 (N.ltb_lt _ _) Ha). intros H. by rewrite IH.
  - intros a b s H2 IH. destruct (seq2_high _ _ H2) as [Ha _]. rewrite high_not_ascii, H2 by done. intros H. by rewrite IH.
  - intros a b c s H2 H3 IH. destruct (seq3_high _ _ _ H3) as [Ha _]. rewrite high_not_ascii, H2, H3 by done.
    intros H. by rewrite IH.
  - intros a b c d s H2 H3 H4 IH. destruct (seq4_high _ _ _ _ H4) as [Ha _]. rewrite high_not_ascii, H2, H3, H4 by done.
    intros H. by rewrite IH.
  - intros a s Ha _ _ Hv IH H. congruence.
Qed.

(** ** [\u] escapes *)

Lemma surrogate_pair_None n m : surrogate n = false → surrogate_pair n m = None.
Proof.
  unfold surrogate, surrogate_pair. intros H.
  destruct (N.leb_spec 0xD800 n), (N.ltb_spec n 0xDC00), (N.ltb_spec n 0xE000); cbn in *; try done; lia.
Qed.

Lemma parse_unicode h1 h2 h3 h4 n rest : hex4 h1 h2 h3 h4 = Some n → surrogate n = false →
  parse_string (esc "u" (String h1 (String h2 (String h3 (String h4 rest))))) =
  then_bytes (encode_rune n) false (parse_string rest).
Proof.
  intros Hh Hn. unfold esc. set (body := String h1 _). set (k := then_bytes _ _ _).
  change (parse_string (String backslash (String "u" body))) with
    (match hex4 h1 h2 h3 h4 with
     | None => None
     | Some n =>
         match rest with
         | String b (String u (String l1 (String l2 (String l3 (String l4 s4))))) =>
             match (if Ascii.eqb b backslash && Ascii.eqb u "u" then hex4 l1 l2 l3 l4 else None) ≫= surrogate_pair n with
             | Some m => then_bytes (encode_rune m) false (parse_string s4)
             | None => then_bytes (encode_rune n) false (parse_string rest)
             end
         | _ => then_bytes (encode_rune n) false (parse_string rest)
         end
     end).
  rewrite Hh. destruct rest as [|b [|u [|l1 [|l2 [|l3 [|l4 s4]]]]]]; try reflexivity.
  destruct (Ascii.eqb b backslash && Ascii.eqb u "u"); [|reflexivity].
  destruct (hex4 l1 l2 l3 l4) as [m|]; [|reflexivity]. cbn [mbind option_bind]. by rewrite surrogate_pair_None.
Qed.

Lemma parse_ascii a rest : (N_of_ascii a < 0x80)%N →
  parse_string (escape_ascii a rest) = then_bytes (String a) (plain a) (parse_string rest).
Proof.
  intros Ha. unfold escape_ascii. destruct (plain a) eqn:Hp.
  { destruct a as [[] [] [] [] [] [] [] []]; first [reflexivity|discriminate Hp]. }
  destruct a as [[] [] [] [] [] [] [] []]; try discriminate Hp; try discriminate Ha; try reflexivity.
  all: match goal with |- parse_string ?x = _ =>
    let y := eval cbv in x in
    match y with String _ (String _ (String ?h1 (String ?h2 (String ?h3 (String ?h4 ?t))))) =>
      exact (parse_unicode h1 h2 h3 h4 _ t eq_refl eq_refl)
    end end.
Qed.

Lemma then_bytes_Some f v t w r : then_bytes f v (Some (t, w, r)) = Some (f t, v && w, r).
Proof. reflexivity. Qed.

Lemma parse_high a : (0x80 ≤ N_of_ascii a)%N →
  Ascii.eqb a quote = false ∧ Ascii.eqb a backslash = false ∧ (N_of_ascii a <? 0x20)%N = false ∧ (N_of_ascii a <? 0x80)%N = false.
Proof.
  intros H. destruct a as [[] [] [] [] [] [] [] []]; first [by split_and! | exfalso; vm_compute in H; by apply H].
Qed.

Lemma parse_escape_some s : ∃ v, ∀ r, parse_string (escape s +:+ String quote r) = Some (coerce s, v, r).
Proof.
  pattern s. revert s. apply text_ind.
  - by exists true.
  - intros a s Ha [v IH]; eexists; intros r. cbn [escape coerce]. rewrite (proj2 (N.ltb_lt _ _) Ha), escape_ascii_app, parse_ascii, IH by done. reflexivity.
  - intros a b s H2 [v IH]; eexists; intros r. cbn [escape coerce]. destruct (seq2_high _ _ H2) as [Ha Hb].
    destruct (parse_high _ Ha) as (E1 & E2 & E3 & E4). rewrite E4, H2, !string_app_cons.
    cbn [parse_string]. rewrite E1, E2, E3, E4, H2, IH. reflexivity.
  - intros a b c s H2 H3 [v IH]. cbn [escape coerce]. destruct (seq3_high _ _ _ H3) as (Ha & _).
    destruct (parse_high _ Ha) as (E1 & E2 & E3 & E4). rewrite E4, H2, H3. destruct (line_separator a b c) eqn:El.
    + apply line_separator_eq in El as (-> & -> & [-> | ->]).
      * eexists; intros r. change (esc "u" ("202" +:+ String (if Ascii.eqb "168" "168" then "8" else "9")%char (escape s)) +:+ String quote r)
          with (esc "u" (String "2" (String "0" (String "2" (String "8" (escape s +:+ String quote r)))))).
        rewrite (parse_unicode _ _ _ _ 0x2028%N) by done. rewrite IH. reflexivity.
      * eexists; intros r. change (esc "u" ("202" +:+ String (if Ascii.eqb "169" "168" then "8" else "9")%char (escape s)) +:+ String quote r)
          with (esc "u" (String "2" (String "0" (String "2" (String "9" (escape s +:+ String quote r)))))).
        rewrite (parse_unicode _ _ _ _ 0x2029%N) by done. rewrite IH. reflexivity.
    + eexists; intros r. rewrite !string_app_cons. cbn [parse_string]. rewrite E1, E2, E3, E4, H2, H3, IH. reflexivity.
  - intros a b c d s H2 H3 H4 [v IH]; eexists; intros r. cbn [escape coerce]. destruct (seq4_high _ _ _ _ H4) as (Ha & _).
    destruct (parse_high _ Ha) as (E1 & E2 & E3 & E4).
    rewrite E4, H2, (seq4_not_separator _ _ _ _ H4), H3, H4, !string_app_cons.
    cbn [parse_string]. rewrite E1, E2, E3, E4, H2, H3, H4, IH. reflexivity.
  - intros a s Ha Hc He _ [v IH]; eexists; intros r. rewrite He, Hc.
    change (replacement (escape s) +:+ String quote r)
      with (esc "u" (String "f" (String "f" (String "f" (String "d" (escape s +:+ String quote r)))))).
    rewrite (parse_unicode _ _ _ _ 0xFFFD%N) by done. rewrite IH. reflexivity.
Qed.

(** Whether the literal of a string is the string byte for byte. *)
Definition verbatim (s : string) : bool :=
  match parse_string (escape s +:+ String quote "") with Some (_, v, _) => v | None => false end.

Lemma parse_escape s r : parse_string (escape s +:+ String quote r) = Some (coerce s, verbatim s, r).
Proof. destruct (parse_escape_some s) as [v H]. unfold verbatim. by rewrite !H. Qed.

(** The texts [json.Marshal] copies. *)
Lemma plain_text s : all_chars plain s = true → escape s = s ∧ coerce s = s ∧ verbatim s = true.
Proof.
  intros Hs. assert (escape s = s ∧ coerce s = s ∧ parse_string (s +:+ String quote "") = Some (s, true, "")) as (He & Hc & Hp).
  { induction s as [|a s IH]; [done|]. cbn [all_chars] in Hs. split_bool. destruct (IH H0) as (IH1 & IH2 & IH3).
    assert (Ha : (N_of_ascii a < 0x80)%N).
    { unfold plain, in_range in H. split_bool. match goal with H : (_ <=? 0x7F)%N = true |- _ => apply N.leb_le in H end. lia. }
    cbn [escape coerce]. rewrite (proj2 (N.ltb_lt _ _) Ha), IH1, IH2. unfold escape_ascii. rewrite H. split_and!; [done..|].
    pose proof (parse_ascii a (s +:+ String quote "") Ha) as Hp. unfold escape_ascii in Hp. rewrite H, IH3 in Hp. exact Hp. }
  split_and!; [done..|]. unfold verbatim. by rewrite He, Hp.
Qed.

(** ** Decoded strings are valid UTF-8 *)

Ltac div_lia := zify; Z.to_euclidean_division_equations; lia.

Lemma N_of_byte n : (n < 256)%N → N_of_ascii (byte n) = n.
Proof. apply N_ascii_embedding. Qed.

Lemma in_range_byte lo n hi : (n < 256)%N → (lo ≤ n ≤ hi)%N → in_range lo (byte n) hi = true.
Proof. intros Hn [? ?]. unfold in_range. rewrite N_of_byte by done. apply andb_true_intro. by rewrite !N.leb_le. Qed.

Lemma continuation_byte n : (n < 64)%N → continuation (byte (0x80 + n)) = true.
Proof. intros Hn. apply in_range_byte; lia. Qed.

Lemma utf8_two a b t : seq2 a b = true → utf8_valid t = true → utf8_valid (String a (String b t)) = true.
Proof. intros H Ht. cbn [utf8_valid]. destruct (seq2_high _ _ H) as [Ha _]. by rewrite high_not_ascii, H. Qed.

Lemma seq2_seq3 a b c : seq3 a b c = true → seq2 a b = false.
Proof.
  unfold seq3, seq2, in_range. intros [H _]%andb_prop. apply not_true_is_false. intros [[_ E]%andb_prop _]%andb_prop. apply N.leb_le in E.
  repeat (apply orb_prop in H as [H|H]); apply andb_prop in H as [[H _]%andb_prop _]; apply N.leb_le in H; lia.
Qed.

Lemma seq3_seq4 a b c d : seq4 a b c d = true → seq2 a b = false ∧ seq3 a b c = false.
Proof.
  unfold seq4. intros [[H _]%andb_prop _]%andb_prop.
  assert (0xF0 ≤ N_of_ascii a)%N as Ha.
  { repeat (apply orb_prop in H as [H|H]); apply andb_prop in H as [[H _]%andb_prop _]; apply N.leb_le in H; lia. }
  unfold seq2, seq3, in_range. clear H.
  assert (Hle : ∀ k, (k < 0xF0)%N → (N_of_ascii a <=? k)%N = false) by (intros; apply N.leb_gt; lia).
  rewrite !Hle, !andb_false_r by done. done.
Qed.

Lemma utf8_three a b c t : seq3 a b c = true → utf8_valid t = true → utf8_valid (String a (String b (String c t))) = true.
Proof.
  intros H Ht. cbn [utf8_valid]. destruct (seq3_high _ _ _ H) as [Ha _].
  by rewrite high_not_ascii, (seq2_seq3 _ _ _ H), H.
Qed.

Lemma utf8_four a b c d t : seq4 a b c d = true → utf8_valid t = true →
  utf8_valid (String a (String b (String c (String d t)))) = true.
Proof.
  intros H Ht. cbn [utf8_valid]. destruct (seq4_high _ _ _ _ H) as [Ha _]. destruct (seq3_seq4 _ _ _ _ H) as [H2 H3].
  by rewrite high_not_ascii, H2, H3, H.
Qed.

Lemma utf8_rune_error t : utf8_valid t = true → utf8_valid (rune_error t) = true.
Proof. intros H. by apply utf8_three. Qed.

Lemma utf8_encode_rune n t : (n < 0x110000)%N → utf8_valid t = true → utf8_valid (encode_rune n t) = true.
Proof.
  intros Hn Ht. unfold encode_rune. destruct (N.ltb_spec n 0x80).
  { cbn [utf8_valid]. rewrite N_of_byte by lia. by rewrite (proj2 (N.ltb_lt _ _)). }
  destruct (N.ltb_spec n 0x800).
  { apply utf8_two; [|done]. unfold seq2. rewrite in_range_byte; [apply continuation_byte|..];
      div_lia. }
  destruct (surrogate n) eqn:Hs; [by apply utf8_rune_error|].
  unfold surrogate in Hs. apply andb_false_iff in Hs. rewrite N.leb_gt, N.ltb_ge in Hs.
  assert (Hmod : ∀ m, (m mod 64 < 64)%N) by (intros; apply N.mod_lt; lia).
  destruct (N.ltb_spec n 0x10000).
  - apply utf8_three; [|done]. unfold seq3. rewrite !continuation_byte, !andb_true_r by apply Hmod.
    assert (n / 4096 = 0 ∨ 1 ≤ n / 4096 ≤ 12 ∨ n / 4096 = 13 ∨ 14 ≤ n / 4096 ≤ 15)%N as [H3|[H3|[H3|H3]]]
      by (div_lia).
    + rewrite H3. rewrite (in_range_byte 0xA0); [done| |]; div_lia.
    + rewrite (in_range_byte 0xE1 _ 0xEC); [by rewrite ?orb_true_r|lia|lia].
    + rewrite H3. rewrite (in_range_byte 0x80 _ 0x9F); [done| |]; div_lia.
    + rewrite (in_range_byte 0xEE _ 0xEF); [by rewrite ?orb_true_r|lia|lia].
  - apply utf8_four; [|done]. unfold seq4. rewrite !continuation_byte, !andb_true_r by apply Hmod.
    assert (n / 262144 = 0 ∨ 1 ≤ n / 262144 ≤ 3 ∨ n / 262144 = 4)%N as [H4|[H4|H4]]
      by (div_lia).
    + rewrite H4. rewrite (in_range_byte 0x90); [done| |]; div_lia.
    + rewrite (in_range_byte 0xF1 _ 0xF3); [by rewrite ?orb_true_r|lia|lia].
    + rewrite H4. rewrite (in_range_byte 0x80 _ 0x8F); [done| |]; div_lia.
Qed.

Lemma hex_value_lt a n : hex_value a = Some n → (n < 16)%N.
Proof. destruct a as [[] [] [] [] [] [] [] []]; vm_compute; intros [= <-]; done. Qed.

Lemma hex4_lt a b c d n : hex4 a b c d = Some n → (n < 0x10000)%N.
Proof.
  unfold hex4. destruct (hex_value a) eqn:Ha, (hex_value b) eqn:Hb, (hex_value c) eqn:Hc, (hex_value d) eqn:Hd; try done.
  intros [= <-]. apply hex_value_lt in Ha, Hb, Hc, Hd. lia.
Qed.

Lemma surrogate_pair_lt n m k : surrogate_pair n m = Some k → (k < 0x110000)%N.
Proof.
  unfold surrogate_pair. destruct (N.leb_spec 0xD800 n), (N.ltb_spec n 0xDC00), (N.leb_spec 0xDC00 m), (N.ltb_spec m 0xE000);
    try done. intros [= <-]. lia.
Qed.

(** A parsed literal is valid UTF-8, and shorter than the text. *)
Definition string_ok (s : string) (o : string_read) : Prop :=
  ∀ t v r, o = Some (t, v, r) → utf8_valid t = true ∧ (String.length r < String.length s)%nat.

Lemma string_ok_then f v s s' o : string_ok s o → (String.length s ≤ String.length s')%nat →
  (∀ t, utf8_valid t = true → utf8_valid (f t) = true) → string_ok s' (then_bytes f v o).
Proof.
  intros Ho Hl Hf t w r. destruct o as [[[t' v'] r']|]; [|done]. intros [= <- <- <-].
  destruct (Ho _ _ _ eq_refl). split; [by apply Hf|lia].
Qed.

Lemma parse_string_ok s : string_ok s (parse_string s).
Proof.
  remember (String.length s) as n eqn:Hn. revert s Hn. induction (lt_wf n) as [n _ IH]. intros s ->.
  assert (Hrec : ∀ s1 f v, (String.length s1 < String.length s)%nat →
    (∀ t, utf8_valid t = true → utf8_valid (f t) = true) → string_ok s (then_bytes f v (parse_string s1))).
  { intros s1 f v Hl Hf. eapply string_ok_then; [by eapply IH|lia|done]. }
  clear IH. destruct s as [|a s1]; [done|]. cbn [parse_string]. destruct (Ascii.eqb a quote).
  { intros t v r [= <- <- <-]. split; [done|simpl; lia]. }
  destruct (Ascii.eqb a backslash).
  { destruct s1 as [|e s2]; [done|]. destruct (Ascii.eqb e "u").
    - destruct s2 as [|h1 [|h2 [|h3 [|h4 s3]]]]; try done. destruct (hex4 h1 h2 h3 h4) as [n|] eqn:Hh; [|done].
      assert (Hone : string_ok (String a (String e (String h1 (String h2 (String h3 (String h4 s3))))))
        (then_bytes (encode_rune n) false (parse_string s3))).
      { apply Hrec; [simpl; lia|]. intros t. apply utf8_encode_rune. apply hex4_lt in Hh. lia. }
      destruct s3 as [|b [|u [|l1 [|l2 [|l3 [|l4 s4]]]]]]; try exact Hone.
      case_match eqn:Hm; [|exact Hone]. apply Hrec; [simpl; lia|]. intros t. apply utf8_encode_rune.
      apply bind_Some in Hm as (k & _ & Hm). by apply surrogate_pair_lt in Hm.
    - destruct (simple_escape e) as [c|] eqn:Hc; [|done]. apply Hrec; [simpl; lia|]. intros t Ht. cbn [utf8_valid].
      assert ((N_of_ascii c <? 0x80)%N = true) as ->; [|done].
      destruct e as [[] [] [] [] [] [] [] []]; vm_compute in Hc; try discriminate Hc; by injection Hc as <-. }
  destruct (N_of_ascii a <? 0x20)%N; [done|]. destruct (N_of_ascii a <? 0x80)%N eqn:Ha.
  { apply Hrec; [simpl; lia|]. intros t Ht. cbn [utf8_valid]. by rewrite Ha. }
  destruct s1 as [|b s2]; [done|]. destruct (seq2 a b) eqn:E2.
  { apply Hrec; [simpl; lia|]. intros t. by apply utf8_two. }
  destruct s2 as [|c s3]; [apply Hrec; [simpl; lia|by apply utf8_rune_error]|]. destruct (seq3 a b c) eqn:E3.
  { apply Hrec; [simpl; lia|]. intros t. by apply utf8_three. }
  destruct s3 as [|d s4]; [apply Hrec; [simpl; lia|by apply utf8_rune_error]|]. destruct (seq4 a b c d) eqn:E4.
  { apply Hrec; [simpl; lia|]. intros t. by apply utf8_four. }
  apply Hrec; [simpl; lia|by apply utf8_rune_error].
Qed.

(** * Numbers *)

(** The number of a string of digits, after [acc]. *)
Fixpoint dec_go (acc : N) (s : string) : N :=
  match s with
  | "" => acc
  | String a s1 => dec_go (10 * acc + (N_of_ascii a - 48)) s1
  end.

(** [strconv.ParseUint] and [ParseInt] of a number literal, in base 10. *)
Definition parse_uint64 (lit : string) : option Z :=
  if nonempty lit && all_chars is_digit lit then
    let n := Z.of_N (dec_go 0 lit) in if (n <? 2 ^ 64)%Z then Some n else None
  else None.

Definition parse_int64 (lit : string) : option Z :=
  let '(negative, s) := match lit with
                        | String a s => if Ascii.eqb a "-" then (true, s) else (false, lit)
                        | "" => (false, "")
                        end in
  if nonempty s && all_chars is_digit s then
    let n := Z.of_N (dec_go 0 s) in
    if negative then if (n <=? 2 ^ 63)%Z then Some (- n)%Z else None
    else if (n <? 2 ^ 63)%Z then Some n else None
  else None.

Lemma pretty_char_digit n : (n < 10)%N → is_digit (pretty_N_char n) = true ∧ (N_of_ascii (pretty_N_char n) - 48 = n)%N ∧
  (n ≠ 0%N → Ascii.eqb (pretty_N_char n) "0" = false).
Proof.
  intros Hn. assert (n ∈ (N.of_nat <$> seq 0 10)) as Hin.
  { apply list_elem_of_fmap. exists (N.to_nat n). rewrite N2Nat.id. split; [done|]. apply elem_of_seq. lia. }
  vm_compute in Hin. repeat (apply elem_of_cons in Hin as [->|Hin]; [by vm_compute; split_and!|]). by apply not_elem_of_nil in Hin.
Qed.

Lemma pretty_go_ind (P : N → string → Prop) :
  (∀ s, P 0%N s) → (∀ x s, (0 < x)%N → P (x / 10)%N (String (pretty_N_char (x mod 10)) s) → P x s) → ∀ x s, P x s.
Proof.
  intros H0 Hs x. induction (N.lt_wf_0 x) as [x _ IH]. intros s. destruct (decide (x = 0)%N) as [->|Hx]; [done|].
  apply Hs; [lia|]. apply IH. apply N.div_lt; lia.
Qed.

Lemma mod_10 x : (x mod 10 < 10)%N.
Proof. by apply N.mod_lt. Qed.

Lemma dec_pretty_go x s : dec_go 0 (pretty_N_go x s) = dec_go x s.
Proof.
  revert x s. apply pretty_go_ind; [intros s; by rewrite pretty_N_go_0|]. intros x s Hx IH.
  rewrite pretty_N_go_step by lia. rewrite IH. cbn [dec_go]. destruct (pretty_char_digit _ (mod_10 x)) as (_ & -> & _).
  f_equal. pose proof (N.div_mod x 10 ltac:(done)). lia.
Qed.

Lemma pretty_go_digits x s : all_chars is_digit s = true → all_chars is_digit (pretty_N_go x s) = true.
Proof.
  revert x s. apply (pretty_go_ind (λ x s, all_chars is_digit s = true → all_chars is_digit (pretty_N_go x s) = true)).
  - intros s. by rewrite pretty_N_go_0.
  - intros x s Hx IH Hs. rewrite pretty_N_go_step by lia. apply IH. cbn [all_chars].
    destruct (pretty_char_digit _ (mod_10 x)) as (-> & _). done.
Qed.

Lemma pretty_go_head x s : (0 < x)%N → ∃ a t, pretty_N_go x s = String a t ∧ Ascii.eqb a "0" = false.
Proof.
  revert x s. apply (pretty_go_ind (λ x s, (0 < x)%N → ∃ a t, pretty_N_go x s = String a t ∧ Ascii.eqb a "0" = false)).
  - intros s H. lia.
  - intros x s Hx IH _. rewrite pretty_N_go_step by lia. destruct (decide (x / 10 = 0)%N) as [H0|H0].
    + rewrite H0, pretty_N_go_0. eexists _, s. split; [done|].
      destruct (pretty_char_digit _ (mod_10 x)) as (_ & _ & H). apply H. pose proof (N.div_mod x 10 ltac:(done)). lia.
    + by apply IH, N.neq_0_lt_0.
Qed.

Lemma pretty_N_eq (p : positive) : pretty (N.pos p) = pretty_N_go (N.pos p) "".
Proof. reflexivity. Qed.

Lemma pretty_N_literal (n : N) : all_chars is_digit (pretty n) = true ∧ dec_go 0 (pretty n) = n ∧
  ∃ a t, pretty n = String a t ∧ (Ascii.eqb a "0" = true → t = "").
Proof.
  destruct n as [|p]; [split; [done|]; split; [done|]; by exists "0"%char, ""|]. rewrite pretty_N_eq.
  split; [by apply pretty_go_digits|]. split; [by rewrite dec_pretty_go|].
  destruct (pretty_go_head (N.pos p) "" eq_refl) as (a & t & -> & Ha). exists a, t. split; [done|]. congruence.
Qed.

(** A text that does not go on with a number literal. *)
Definition number_end (r : string) : bool :=
  match r with
  | "" => true
  | String a _ => negb (is_digit a || Ascii.eqb a "." || Ascii.eqb a "e" || Ascii.eqb a "E")
  end.

Lemma take_digits_app s r : all_chars is_digit s = true → number_end r = true → take_digits (s +:+ r) = (s, r).
Proof.
  intros Hs Hr. induction s as [|a s IH].
  - change ("" +:+ r) with r. destruct r as [|a r]; [done|]. cbn [take_digits number_end] in *. split_bool.
    by destruct (is_digit a).
  - rewrite string_app_cons. cbn [all_chars take_digits] in *. split_bool. rewrite H. by rewrite IH.
Qed.

Lemma parse_integer_pretty (n : N) r : number_end r = true → parse_integer (pretty n +:+ r) = Some (pretty n, r).
Proof.
  intros Hr. destruct (pretty_N_literal n) as (Hd & _ & a & t & Hn & H0). rewrite Hn in *.
  pose proof (take_digits_app _ _ Hd Hr) as Ht. rewrite string_app_cons in *. unfold parse_integer.
  destruct (Ascii.eqb a "0") eqn:Ha; [|by rewrite Ht].
  apply Ascii.eqb_eq in Ha as ->. by rewrite H0.
Qed.

Lemma parse_end r : number_end r = true → parse_fraction r = Some ("", r) ∧ parse_exponent r = Some ("", r).
Proof.
  destruct r as [|a r]; [done|]. unfold number_end, parse_fraction, parse_exponent.
  rewrite negb_true_iff, !orb_false_iff. by intros [[[_ ->] ->] ->].
Qed.

Lemma parse_number_pretty (z : Z) r : number_end r = true → parse_number (pretty z +:+ r) = Some (pretty z, r).
Proof.
  intros Hr. destruct (parse_end _ Hr) as [Hf He].
  assert (Habs : ∀ n : N, parse_number (pretty n +:+ r) = Some (pretty n, r) ∧
    parse_number (String "-" (pretty n +:+ r)) = Some (String "-" (pretty n), r)).
  { intros n. pose proof (parse_integer_pretty n r Hr) as Hi. unfold parse_number. split.
    - destruct (pretty_N_literal n) as (Hd & _ & a & t & Hn & _). rewrite Hn in Hd, Hi |- *. rewrite string_app_cons in *.
      destruct (Ascii.eqb a "-") eqn:Ha; [by apply Ascii.eqb_eq in Ha as ->|].
      rewrite Hi. cbn [mbind option_bind]. rewrite Hf. cbn [mbind option_bind]. rewrite He. cbn [mbind option_bind].
      by rewrite !string_app_nil_r.
    - cbn [Ascii.eqb Bool.eqb]. rewrite Hi. cbn [mbind option_bind]. rewrite Hf. cbn [mbind option_bind]. rewrite He.
      cbn [mbind option_bind]. by rewrite !string_app_nil_r. }
  destruct z as [|p|p]; [apply (Habs 0%N)|apply (Habs (N.pos p))|apply (Habs (N.pos p))].
Qed.

Lemma parse_uint64_pretty (z : Z) : is_u64 z → parse_uint64 (pretty z) = Some z.
Proof.
  intros [H0 H1]. assert (∃ n : N, z = Z.of_N n ∧ pretty z = pretty n) as (n & -> & ->).
  { destruct z as [|p|p]; [by exists 0%N|by exists (N.pos p)|lia]. }
  destruct (pretty_N_literal n) as (Hd & Hv & a & t & Hn & _). unfold parse_uint64.
  rewrite Hd, Hv, (proj2 (Z.ltb_lt _ _) H1). by rewrite Hn.
Qed.

(** * Values *)

(** The value a text is read as. *)
Fixpoint embed (v : json) : jvalue :=
  match v with
  | JNull => VNull
  | JBool b => VBool b
  | JInt z => VNumber (pretty z)
  | JString s => VString (verbatim s) (coerce s)
  | JArray l => VArray (embed <$> l)
  | JObject fields => VObject ((λ '(k, v), (coerce k, embed v)) <$> fields)
  end.

Fixpoint json_depth (v : json) : N :=
  match v with
  | JArray l => N.succ (foldr (λ v d, N.max (json_depth v) d) 0%N l)
  | JObject fields => N.succ (foldr (λ kv d, N.max (json_depth kv.2) d) 0%N fields)
  | _ => 0%N
  end.

(** ** Decoding reads back what encoding writes *)

Definition reads_back (v : json) : Prop := ∀ fuel d r,
  number_end r = true → (json_depth v ≤ d)%N → (2 * String.length (encode v) ≤ fuel)%nat →
  parse_value fuel d (encode v +:+ r) = Some (embed v, r).

Lemma skip_encode v r : skip_space (encode v +:+ r) = encode v +:+ r.
Proof.
  destruct (encode_head v) as (a & s & -> & Ha). rewrite string_app_cons. cbn [skip_space].
  assert (json_space a = false) as ->; [|done].
  destruct v as [|[]| | | |]; cbn [head_ok] in Ha; try by apply Ascii.eqb_eq in Ha as ->.
  destruct a as [[] [] [] [] [] [] [] []]; first [reflexivity|discriminate Ha].
Qed.

Lemma encode_length v : (1 ≤ String.length (encode v))%nat.
Proof. destruct (encode_head v) as (a & s & -> & _). simpl. lia. Qed.

Lemma literal_int (z : Z) r : number_end r = true → literal (pretty z +:+ r) = Some (VNumber (pretty z), r).
Proof.
  intros Hr. pose proof (parse_number_pretty z r Hr) as Hp. destruct (pretty_Z_head z) as (a & s & Hz & Ha).
  rewrite Hz in *. rewrite string_app_cons in *.
  transitivity ('(n, t) ← parse_number (String a (s +:+ r)); Some (VNumber n, t)); [|by rewrite Hp].
  destruct a as [[] [] [] [] [] [] [] []]; first [discriminate Ha|reflexivity].
Qed.

Lemma parse_value_int fuel d (z : Z) r : number_end r = true →
  parse_value (S fuel) d (pretty z +:+ r) = Some (VNumber (pretty z), r).
Proof.
  intros Hr. rewrite <- (literal_int z r Hr). destruct (pretty_Z_head z) as (a & s & -> & Ha). rewrite string_app_cons.
  destruct a as [[] [] [] [] [] [] [] []]; first [discriminate Ha|reflexivity].
Qed.

Lemma parse_value_string fuel d s r :
  parse_value (S fuel) d (quoted (escape s) +:+ r) = Some (VString (verbatim s) (coerce s), r).
Proof.
  unfold quoted. rewrite string_app_cons, <- string_app_assoc, string_app_cons. change ("" +:+ r) with r.
  change (parse_value (S fuel) d (String quote (escape s +:+ String quote r))) with
    ('(t, v, r) ← parse_string (escape s +:+ String quote r); Some (VString v t, r)).
  by rewrite parse_escape.
Qed.

Lemma depth_in (l : list json) v : v ∈ l → (json_depth v ≤ foldr (λ v d, N.max (json_depth v) d) 0 l)%N.
Proof. induction l as [|w l IH]; [by intros ?%not_elem_of_nil|]. intros [->|H]%elem_of_cons; simpl; [lia|]. apply IH in H. lia. Qed.

Lemma parse_elements_step fuel d s : parse_elements (S fuel) d s =
  '(v, r) ← parse_value fuel d s;
  match skip_space r with
  | "" => None
  | String a r =>
      if Ascii.eqb a "]" then Some ([v], r)
      else if Ascii.eqb a "," then '(l, r) ← parse_elements fuel d (skip_space r); Some (v :: l, r)
      else None
  end.
Proof. reflexivity. Qed.

Lemma parse_members_unfold fuel d s : parse_members (S fuel) d s =
  match s with
  | "" => None
  | String a s1 =>
      if negb (Ascii.eqb a quote) then None
      else '(k, _, r) ← parse_string s1;
      match skip_space r with
      | "" => None
      | String c r =>
          if negb (Ascii.eqb c ":") then None
          else '(v, r) ← parse_value fuel d (skip_space r);
          match skip_space r with
          | "" => None
          | String a r =>
              if Ascii.eqb a "}" then Some ([(k, v)], r)
              else if Ascii.eqb a "," then '(l, r) ← parse_members fuel d (skip_space r); Some ((k, v) :: l, r)
              else None
          end
      end
  end.
Proof. reflexivity. Qed.

Lemma parse_members_step fuel d k r : parse_members (S fuel) d (quoted (escape k) +:+ String ":" r) =
  '(v, r) ← parse_value fuel d (skip_space r);
  match skip_space r with
  | "" => None
  | String a r =>
      if Ascii.eqb a "}" then Some ([(coerce k, v)], r)
      else if Ascii.eqb a "," then '(l, r) ← parse_members fuel d (skip_space r); Some ((coerce k, v) :: l, r)
      else None
  end.
Proof.
  unfold quoted. rewrite string_app_cons, <- string_app_assoc, string_app_cons. change ("" +:+ String ":" r) with (String ":" r).
  rewrite parse_members_unfold. cbn [Ascii.eqb Bool.eqb quote negb]. by rewrite parse_escape.
Qed.

Lemma elements_read l : Forall reads_back l → l ≠ [] → ∀ fuel d r,
  (foldr (λ v d, N.max (json_depth v) d) 0 l ≤ d)%N → (2 * String.length (elements encode l) < fuel)%nat →
  parse_elements fuel d (elements encode l +:+ String "]" r) = Some (embed <$> l, r).
Proof.
  intros Hl. induction Hl as [|v l Hv Hl IH]; [done|]. intros _ fuel d r Hd Hf. cbn [foldr] in Hd. apply N.max_lub_iff in Hd as [Hd1 Hd2].
  destruct fuel as [|fuel]; [lia|]. rewrite elements_cons, parse_elements_step.
  destruct l as [|w l].
  - cbn [elements] in Hf. rewrite Hv; [done|done|lia|lia].
  - change (elements encode (v :: w :: l)) with (encode v +:+ String "," (elements encode (w :: l))) in Hf.
    rewrite string_length_app in Hf. cbn [String.length] in Hf. rewrite Hv; [|done|lia|lia].
    cbn [mbind option_bind skip_space json_space Ascii.eqb Bool.eqb orb].
    rewrite elements_cons, skip_encode, <- elements_cons, IH; [done|done|lia|lia].
Qed.

Lemma members_read l : Forall (λ kv, reads_back kv.2) l → l ≠ [] → ∀ fuel d r,
  (foldr (λ kv d, N.max (json_depth kv.2) d) 0 l ≤ d)%N → (2 * String.length (members encode l) < fuel)%nat →
  parse_members fuel d (members encode l +:+ String "}" r) = Some ((λ '(k, v), (coerce k, embed v)) <$> l, r).
Proof.
  intros Hl. induction Hl as [|[k v] l Hv Hl IH]; [done|]. intros _ fuel d r Hd Hf. cbn [foldr] in Hd. apply N.max_lub_iff in Hd as [Hd1 Hd2].
  destruct fuel as [|fuel]; [lia|]. rewrite members_cons, parse_members_step, skip_encode. cbn [snd] in *.
  destruct l as [|[k' w] l].
  - cbn [members] in Hf. rewrite string_length_app in Hf. cbn [String.length] in Hf. rewrite Hv; [done|done|lia|lia].
  - change (members encode ((k, v) :: (k', w) :: l)) with
      (quoted (escape k) +:+ String ":" (encode v +:+ String "," (members encode ((k', w) :: l)))) in Hf.
    rewrite string_length_app in Hf. cbn [String.length] in Hf. rewrite string_length_app in Hf. cbn [String.length] in Hf.
    rewrite Hv; [|done|lia|lia]. cbn [mbind option_bind skip_space json_space Ascii.eqb Bool.eqb orb].
    rewrite members_cons. change (skip_space (quoted (escape k') +:+ ?x)) with (quoted (escape k') +:+ x).
    rewrite <- members_cons, IH; [done|done|lia|lia].
Qed.

Lemma parse_value_open fuel d c s : (d ≠ 0)%N → c = "["%char ∨ c = "{"%char → parse_value (S fuel) d (String c s) =
  match skip_space s with
  | "" => None
  | String a s' =>
      if Ascii.eqb c "[" then
        if Ascii.eqb a "]" then Some (VArray [], s')
        else '(l, r) ← parse_elements fuel (d - 1) (String a s'); Some (VArray l, r)
      else
        if Ascii.eqb a "}" then Some (VObject [], s')
        else '(l, r) ← parse_members fuel (d - 1) (String a s'); Some (VObject l, r)
  end.
Proof.
  intros Hd [-> | ->]; cbn [parse_value Ascii.eqb Bool.eqb quote]; by rewrite (proj2 (N.eqb_neq _ _) Hd).
Qed.

Lemma members_head k v l : ∃ s, members encode ((k, v) :: l) = String quote s.
Proof. destruct l; cbn [members]; unfold quoted; rewrite string_app_cons; eauto. Qed.

Lemma elements_head v l : ∃ a s, elements encode (v :: l) = String a s ∧ json_space a = false ∧ Ascii.eqb a "]" = false.
Proof.
  destruct (encode_head v) as (a & s & Hv & Ha).
  assert (∃ t, elements encode (v :: l) = String a t) as [t Ht].
  { destruct l; cbn [elements]; rewrite Hv; [eauto|rewrite string_app_cons; eauto]. }
  exists a, t. split; [done|]. destruct v as [|[]| | | |]; cbn [head_ok] in Ha; try by apply Ascii.eqb_eq in Ha as ->.
  destruct a as [[] [] [] [] [] [] [] []]; first [by split|discriminate Ha].
Qed.

Lemma parse_encode_value v : reads_back v.
Proof.
  induction v as [| | | |l IH|l IH] using json_nested; intros fuel d r Hr Hd Hf;
    (destruct fuel as [|fuel]; [match type of Hf with (2 * String.length (encode ?v) ≤ _)%nat => pose proof (encode_length v) end; lia|]).
  - reflexivity.
  - destruct b; reflexivity.
  - by apply parse_value_int.
  - apply parse_value_string.
  - cbn [encode embed json_depth] in *. rewrite string_app_cons, <- string_app_assoc, string_app_cons. change ("" +:+ r) with r.
    rewrite parse_value_open; [|lia|by left]. cbn [String.length] in Hf. rewrite string_length_app in Hf. cbn [String.length] in Hf.
    destruct l as [|v l]; [done|]. destruct (elements_head v l) as (a & s & He & Ha & Hb).
    pose proof (elements_read (v :: l) IH ltac:(done) fuel (d - 1)%N r ltac:(lia) ltac:(lia)) as Hread.
    rewrite He in Hread |- *. rewrite string_app_cons in *. cbn [skip_space]. rewrite Ha. cbn [Ascii.eqb Bool.eqb].
    by rewrite Hb, Hread.
  - cbn [encode embed json_depth] in *. rewrite string_app_cons, <- string_app_assoc, string_app_cons. change ("" +:+ r) with r.
    rewrite parse_value_open; [|lia|by right]. cbn [String.length] in Hf. rewrite string_length_app in Hf. cbn [String.length] in Hf.
    destruct l as [|[k v] l]; [done|]. destruct (members_head k v l) as (s & He).
    pose proof (members_read ((k, v) :: l) IH ltac:(done) fuel (d - 1)%N r ltac:(lia) ltac:(lia)) as Hread.
    rewrite He in Hread |- *. rewrite string_app_cons in *.
    change (skip_space (String quote ?t)) with (String quote t). cbn [Ascii.eqb Bool.eqb quote].
    change (String "034" ?t) with (String quote t). by rewrite Hread.
Qed.

(** A text [encode] wrote is read as its value, with invalid UTF-8 replaced,
    whatever space follows it. *)
Theorem parse_encode_space v r : (json_depth v ≤ max_depth)%N → skip_space r = "" →
  parse_json (encode v +:+ r) = Ok (embed v).
Proof.
  intros Hd Hr. unfold parse_json. rewrite skip_encode, parse_encode_value; [by rewrite Hr| |done|rewrite string_length_app; lia].
  destruct r as [|a r]; [done|]. cbn [skip_space number_end] in *. destruct (json_space a) eqn:Ha; [|done].
  clear - Ha. destruct a as [[] [] [] [] [] [] [] []]; first [reflexivity|discriminate Ha].
Qed.

Lemma parse_encode v : (json_depth v ≤ max_depth)%N → parse_json (encode v) = Ok (embed v).
Proof. intros Hd. rewrite <- (string_app_nil_r (encode v)). by apply parse_encode_space. Qed.

(** ** The fuel is enough *)

Lemma skip_space_length s : (String.length (skip_space s) ≤ String.length s)%nat.
Proof. induction s as [|a s IH]; simpl; [done|]. destruct (json_space a); simpl; lia. Qed.

Lemma take_digits_length s d r : take_digits s = (d, r) → String.length s = (String.length d + String.length r)%nat.
Proof.
  revert d r. induction s as [|a s IH]; intros d r; cbn [take_digits]; [by intros [= <- <-]|].
  destruct (is_digit a); [|by intros [= <- <-]]. destruct (take_digits s) as [d' r'].
  intros [= <- <-]. simpl. by rewrite (IH _ _ eq_refl).
Qed.

Lemma parse_integer_length s i r : parse_integer s = Some (i, r) → (String.length r < String.length s)%nat.
Proof.
  unfold parse_integer. destruct s as [|a s]; [done|]. destruct (Ascii.eqb a "0"); [intros [= <- <-]; simpl; lia|].
  destruct (take_digits (String a s)) as [d t] eqn:Ht. apply take_digits_length in Ht.
  destruct d; [done|]. intros [= <- <-]. simpl in Ht |- *. lia.
Qed.

Lemma parse_fraction_length s i r : parse_fraction s = Some (i, r) → (String.length r ≤ String.length s)%nat.
Proof.
  unfold parse_fraction. destruct s as [|a s]; [by intros [= <- <-]|]. destruct (Ascii.eqb a "."); [|by intros [= <- <-]].
  destruct (take_digits s) as [d t] eqn:Ht. apply take_digits_length in Ht. destruct (nonempty d); [|done].
  intros [= <- <-]. simpl. lia.
Qed.

Lemma parse_exponent_length s i r : parse_exponent s = Some (i, r) → (String.length r ≤ String.length s)%nat.
Proof.
  unfold parse_exponent. destruct s as [|a s]; [by intros [= <- <-]|]. destruct (_ || _); [|by intros [= <- <-]].
  set (p := match s with "" => _ | _ => _ end). assert (String.length p.2 ≤ String.length s)%nat as Hp.
  { destruct s as [|c s]; [done|]. subst p. cbv zeta. destruct (_ || _); simpl; lia. }
  destruct p as [sign s2]. simpl in Hp. destruct (take_digits s2) as [d t] eqn:Ht. apply take_digits_length in Ht.
  destruct (nonempty d); [|done]. intros [= <- <-]. simpl. lia.
Qed.

Lemma parse_number_length s i r : parse_number s = Some (i, r) → (String.length r < String.length s)%nat.
Proof.
  unfold parse_number. set (p := match s with "" => _ | _ => _ end).
  assert (String.length p.2 ≤ String.length s)%nat as Hp.
  { destruct s as [|c s]; [done|]. subst p. cbv zeta. destruct (Ascii.eqb c "-"); simpl; lia. }
  destruct p as [sign s1]. simpl in Hp. cbn [mbind option_bind].
  destruct (parse_integer s1) as [[i1 s2]|] eqn:H1; [|done]. apply parse_integer_length in H1. cbn [mbind option_bind].
  destruct (parse_fraction s2) as [[i2 s3]|] eqn:H2; [|done]. apply parse_fraction_length in H2. cbn [mbind option_bind].
  destruct (parse_exponent s3) as [[i3 s4]|] eqn:H3; [|done]. apply parse_exponent_length in H3. cbn [mbind option_bind].
  intros [= <- <-]. lia.
Qed.

Lemma literal_length s v r : literal s = Some (v, r) → (String.length r < String.length s)%nat.
Proof.
  assert (Hn : ∀ s v r, ('(n, r) ← parse_number s; Some (VNumber n, r)) = Some (v, r) → (String.length r < String.length s)%nat).
  { intros s' v' r'. destruct (parse_number s') as [[n t]|] eqn:Hp; [|done]. intros [= <- <-]. by apply parse_number_length in Hp. }
  unfold literal. intros H. revert H. repeat case_match; subst; intros Hl;
    first [by apply Hn in Hl | (injection Hl as <- <-; simpl; lia)].
Qed.

(** Every parser consumes some of its text. *)
Definition consumes {A} (s : string) (o : option (A * string)) : Prop :=
  ∀ x r, o = Some (x, r) → (String.length r < String.length s)%nat.

Lemma consumes_map {A B} (f : A → B) s s' (o : option (A * string)) : consumes s o →
  (String.length s ≤ String.length s')%nat → consumes s' ('(a, r) ← o; Some (f a, r)).
Proof. intros H Hl x r. destruct o as [[a t]|]; [|done]. intros [= <- <-]. specialize (H _ _ eq_refl). lia. Qed.

Lemma parse_consumes fuel : ∀ d s,
  consumes s (parse_value fuel d s) ∧ consumes s (parse_elements fuel d s) ∧ consumes s (parse_members fuel d s).
Proof.
  induction fuel as [|fuel IH]; [done|]. intros d s. split_and!.
  - destruct s as [|a s]; [done|]. cbn [parse_value]. destruct (Ascii.eqb a quote).
    { pose proof (parse_string_ok s) as Hs. destruct (parse_string s) as [[[t v] r]|]; [|done].
      intros x r' [= <- <-]. destruct (Hs _ _ _ eq_refl). simpl. lia. }
    assert (Hskip := skip_space_length s).
    destruct (Ascii.eqb a "["); [|destruct (Ascii.eqb a "{"); [|intros x r; apply literal_length]];
      (destruct (d =? 0)%N; [done|]); destruct (skip_space s) as [|c s']; try done;
      (destruct (Ascii.eqb c _); [intros x r [= <- <-]; simpl in *; lia|]).
    + apply (consumes_map VArray (String c s')); [apply IH|simpl in *; lia].
    + apply (consumes_map VObject (String c s')); [apply IH|simpl in *; lia].
  - intros x r. rewrite parse_elements_step. destruct (parse_value fuel d s) as [[v t]|] eqn:Hv; [|done].
    apply IH in Hv. cbn [mbind option_bind]. assert (Hskip := skip_space_length t).
    destruct (skip_space t) as [|a t']; [done|]. simpl in Hskip. destruct (Ascii.eqb a "]"); [intros [= <- <-]; lia|].
    destruct (Ascii.eqb a ","); [|done]. assert (Hskip' := skip_space_length t').
    destruct (parse_elements fuel d (skip_space t')) as [[l u]|] eqn:Hl; [|done]. apply IH in Hl. intros [= <- <-]. lia.
  - intros x r. destruct s as [|a s]; [done|]. cbn [parse_members]. destruct (negb _); [done|].
    pose proof (parse_string_ok s) as Hs. destruct (parse_string s) as [[[k v] r1]|]; [|done].
    destruct (Hs _ _ _ eq_refl) as [_ Hl]. cbn [mbind option_bind]. assert (Hskip := skip_space_length r1).
    destruct (skip_space r1) as [|c r2]; [done|]. simpl in Hskip. destruct (negb _); [done|].
    assert (Hskip2 := skip_space_length r2).
    destruct (parse_value fuel d (skip_space r2)) as [[w t]|] eqn:Hv; [|done]. apply IH in Hv. cbn [mbind option_bind].
    assert (Hskip3 := skip_space_length t). destruct (skip_space t) as [|b t']; [done|]. simpl in Hskip3.
    destruct (Ascii.eqb b "}"); [intros [= <- <-]; simpl; lia|]. destruct (Ascii.eqb b ","); [|done].
    assert (Hskip4 := skip_space_length t').
    destruct (parse_members fuel d (skip_space t')) as [[l u]|] eqn:Hm; [|done]. apply IH in Hm. intros [= <- <-]. simpl. lia.
Qed.

(** With two units for each byte, one more changes nothing. *)
Lemma fuel_enough fuel : ∀ d s,
  ((2 * String.length s + 1 ≤ fuel)%nat → parse_value (S fuel) d s = parse_value fuel d s) ∧
  ((2 * String.length s + 2 ≤ fuel)%nat → parse_elements (S fuel) d s = parse_elements fuel d s) ∧
  ((2 * String.length s + 2 ≤ fuel)%nat → parse_members (S fuel) d s = parse_members fuel d s).
Proof.
  induction fuel as [|fuel IH]; [intros d s; split_and!; lia|]. intros d s. split_and!; intros Hf.
  - destruct s as [|a s]; [done|]. simpl in Hf. assert (Hskip := skip_space_length s). cbn [parse_value].
    destruct (Ascii.eqb a quote); [done|].
    destruct (Ascii.eqb a "["); [|destruct (Ascii.eqb a "{"); [|done]]; (destruct (d =? 0)%N; [done|]);
      destruct (skip_space s) as [|c s']; try done; (destruct (Ascii.eqb c _); [done|]); simpl in Hskip.
    + by rewrite (proj1 (proj2 (IH (d - 1)%N (String c s')))) by (simpl; lia).
    + by rewrite (proj2 (proj2 (IH (d - 1)%N (String c s')))) by (simpl; lia).
  - rewrite (parse_elements_step (S fuel)), (parse_elements_step fuel), (proj1 (IH d s)) by lia.
    destruct (parse_value fuel d s) as [[v t]|] eqn:Hv; [|done]. apply parse_consumes in Hv. cbn [mbind option_bind].
    assert (Hskip := skip_space_length t). destruct (skip_space t) as [|a t']; [done|]. simpl in Hskip.
    assert (Hskip' := skip_space_length t'). by rewrite (proj1 (proj2 (IH d (skip_space t')))) by lia.
  - rewrite (parse_members_unfold (S fuel)), (parse_members_unfold fuel). destruct s as [|a s]; [done|]. simpl in Hf. destruct (negb _); [done|].
    pose proof (parse_string_ok s) as Hs. destruct (parse_string s) as [[[k v] r1]|]; [|done].
    destruct (Hs _ _ _ eq_refl) as [_ Hl]. cbn [mbind option_bind]. assert (Hskip := skip_space_length r1).
    destruct (skip_space r1) as [|c r2]; [done|]. simpl in Hskip. destruct (negb _); [done|].
    assert (Hskip2 := skip_space_length r2). rewrite (proj1 (IH d (skip_space r2))) by lia.
    destruct (parse_value fuel d (skip_space r2)) as [[w t]|] eqn:Hv; [|done]. apply parse_consumes in Hv. cbn [mbind option_bind].
    assert (Hskip3 := skip_space_length t). destruct (skip_space t) as [|b t']; [done|]. simpl in Hskip3.
    assert (Hskip4 := skip_space_length t'). by rewrite (proj2 (proj2 (IH d (skip_space t')))) by lia.
Qed.

(** So [parse_json] refuses a text for its form only, never for want of fuel. *)
Theorem parse_json_fuel n s : (2 * String.length s + 2 ≤ n)%nat → parse_json s =
  match parse_value n max_depth (skip_space s) with
  | Some (v, r) => match skip_space r with "" => Ok v | _ => Error ErrSyntax end
  | None => Error ErrSyntax
  end.
Proof.
  intros Hn. unfold parse_json. pose proof (skip_space_length s).
  assert (Heq : parse_value n max_depth (skip_space s) = parse_value (2 * String.length s + 2) max_depth (skip_space s)).
  { induction Hn as [|n Hn IH]; [done|]. rewrite <- IH. apply fuel_enough. lia. }
  by rewrite Heq.
Qed.

(** ** Every string of a decoded value is valid UTF-8 *)

Fixpoint utf8_value (v : jvalue) : bool :=
  match v with
  | VString _ s => utf8_valid s
  | VArray l => forallb utf8_value l
  | VObject members => forallb (λ kv, utf8_valid kv.1 && utf8_value kv.2) members
  | _ => true
  end.

Lemma parse_utf8 fuel : ∀ d s,
  (∀ v r, parse_value fuel d s = Some (v, r) → utf8_value v = true) ∧
  (∀ l r, parse_elements fuel d s = Some (l, r) → forallb utf8_value l = true) ∧
  (∀ l r, parse_members fuel d s = Some (l, r) → forallb (λ kv, utf8_valid kv.1 && utf8_value kv.2) l = true).
Proof.
  induction fuel as [|fuel IH]; [done|]. intros d s. split_and!.
  - intros v r. destruct s as [|a s]; [done|]. cbn [parse_value]. destruct (Ascii.eqb a quote).
    { pose proof (parse_string_ok s) as Hs. destruct (parse_string s) as [[[t w] r']|]; [|done].
      intros [= <- <-]. by destruct (Hs _ _ _ eq_refl). }
    destruct (Ascii.eqb a "["); [|destruct (Ascii.eqb a "{")].
    + destruct (d =? 0)%N; [done|]. destruct (skip_space s) as [|c s']; [done|].
      destruct (Ascii.eqb c "]"); [by intros [= <- <-]|].
      destruct (parse_elements fuel (d - 1) (String c s')) as [[l t]|] eqn:Hl; [|done]. apply IH in Hl. by intros [= <- <-].
    + destruct (d =? 0)%N; [done|]. destruct (skip_space s) as [|c s']; [done|].
      destruct (Ascii.eqb c "}"); [by intros [= <- <-]|].
      destruct (parse_members fuel (d - 1) (String c s')) as [[l t]|] eqn:Hl; [|done]. apply IH in Hl. by intros [= <- <-].
    + unfold literal. intros H. revert H. repeat case_match; subst; try (intros Hl; injection Hl as <- <-; done);
        (destruct (parse_number _) as [[n t]|]; [|done]; intros Hl; by injection Hl as <- <-).
  - intros l r. rewrite parse_elements_step. destruct (parse_value fuel d s) as [[v t]|] eqn:Hv; [|done].
    apply IH in Hv. cbn [mbind option_bind]. destruct (skip_space t) as [|a t']; [done|].
    destruct (Ascii.eqb a "]"); [intros [= <- <-]; cbn [forallb]; by rewrite Hv|]. destruct (Ascii.eqb a ","); [|done].
    destruct (parse_elements fuel d (skip_space t')) as [[k u]|] eqn:Hk; [|done]. apply IH in Hk.
    intros [= <- <-]. cbn [forallb]. by rewrite Hv.
  - intros l r. rewrite parse_members_unfold. destruct s as [|a s]; [done|]. destruct (negb _); [done|].
    pose proof (parse_string_ok s) as Hs. destruct (parse_string s) as [[[k w] r1]|]; [|done].
    destruct (Hs _ _ _ eq_refl) as [Hk _]. cbn [mbind option_bind]. destruct (skip_space r1) as [|c r2]; [done|].
    destruct (negb _); [done|]. destruct (parse_value fuel d (skip_space r2)) as [[v t]|] eqn:Hv; [|done].
    apply IH in Hv. cbn [mbind option_bind]. destruct (skip_space t) as [|b t']; [done|].
    destruct (Ascii.eqb b "}"); [intros [= <- <-]; cbn [forallb fst snd]; by rewrite Hk, Hv|]. destruct (Ascii.eqb b ","); [|done].
    destruct (parse_members fuel d (skip_space t')) as [[l' u]|] eqn:Hm; [|done]. apply IH in Hm.
    intros [= <- <-]. cbn [forallb fst snd]. by rewrite Hk, Hv.
Qed.

Lemma parse_json_utf8 s v : parse_json s = Ok v → utf8_value v = true.
Proof.
  unfold parse_json. destruct (parse_value _ _ _) as [[w r]|] eqn:H; [|done]. apply parse_utf8 in H.
  destruct (skip_space r); [|done]. by intros [= <-].
Qed.

(** * Filling a structure *)

Definition upper (a : ascii) : ascii := if in_range 97 a 122 then ascii_of_N (N_of_ascii a - 32) else a.

(** [foldName], for names of ASCII letters: the Kelvin sign folds to K and the
    long s to S. *)
Fixpoint fold_name (s : string) : string :=
  match s with
  | "" => ""
  | String a s1 =>
      match s1 with
      | String b s2 =>
          if Ascii.eqb a "197" && Ascii.eqb b "191" then String "S" (fold_name s2)
          else match s2 with
          | String c s3 =>
              if Ascii.eqb a "226" && Ascii.eqb b "132" && Ascii.eqb c "170" then String "K" (fold_name s3)
              else String (upper a) (fold_name s1)
          | "" => String (upper a) (fold_name s1)
          end
      | "" => String (upper a) ""
      end
  end.

Definition ErrUnmarshalType : error := ErrNew "json: cannot unmarshal value into Go struct field".

(** What a decoder makes of a value and the current content of its target. *)
Abbreviation decoder A := (jvalue → A → A * option error).

Record struct_field (S : Type) : Type := { sf_name : string; sf_set : decoder S }.
Arguments sf_name {_} _.
Arguments sf_set {_} _.

Section Struct.
Context {S : Type} (fields : list (struct_field S)).

(** An exact name first, then one that folds to the same. *)
Definition find_field (key : string) : option (struct_field S) :=
  match list_find (λ f, sf_name f = key) fields with
  | Some (_, f) => Some f
  | None => snd <$> list_find (λ f, fold_name (sf_name f) = fold_name key) fields
  end.

(** The first error is kept; decoding goes on. *)
Definition save_error (err err' : option error) : option error := match err with Some _ => err | None => err' end.

Fixpoint decode_members (members : list (string * jvalue)) (s : S) (err : option error) : S * option error :=
  match members with
  | [] => (s, err)
  | (key, v) :: members =>
      match find_field key with
      | None => decode_members members s err
      | Some f => let '(s, err') := sf_set f v s in decode_members members s (save_error err err')
      end
  end.

Definition decode_struct : decoder S := λ v s,
  match v with
  | VNull => (s, None)
  | VObject members => decode_members members s None
  | _ => (s, Some ErrUnmarshalType)
  end.

(** [json.Unmarshal] into a fresh structure. *)
Definition Unmarshal (zero : S) (text : string) : result S :=
  match parse_json text with
  | Error err => Error err
  | Ok v => match decode_struct v zero with
            | (_, Some err) => Error err
            | (s, None) => Ok s
            end
  end.
End Struct.

(** A field of a structure, through its projection and its update. *)
Definition on_field {S A} (name : string) (get : S → A) (set : A → S → S) (d : decoder A) : struct_field S :=
  {| sf_name := name; sf_set := λ v s, let '(a, err) := d v (get s) in (set a s, err) |}.

Definition decode_string : decoder string := λ v s,
  match v with VNull => (s, None) | VString _ t => (t, None) | _ => (s, Some ErrUnmarshalType) end.

Definition decode_number (parse : string → option Z) : decoder Z := λ v z,
  match v with
  | VNull => (z, None)
  | VNumber lit => match parse lit with Some n => (n, None) | None => (z, Some ErrUnmarshalType) end
  | _ => (z, Some ErrUnmarshalType)
  end.

Definition decode_uint64 : decoder Z := decode_number parse_uint64.
Definition decode_int : decoder Z := decode_number parse_int64.

(** The elements of a slice: [null] keeps the element a shorter list of an
    earlier member left, or the zero value. *)
Fixpoint decode_elements {A} (d : decoder A) (zero : A) (l : list jvalue) (old : list A) : list A * option error :=
  match l with
  | [] => ([], None)
  | v :: l =>
      let '(a, err) := d v (default zero (head old)) in
      let '(t, err') := decode_elements d zero l (tail old) in
      (a :: t, save_error err err')
  end.

Definition decode_slice {A} (d : decoder A) (zero : A) : decoder (list A) := λ v l,
  match v with
  | VNull => ([], None)
  | VArray vs => decode_elements d zero vs l
  | _ => (l, Some ErrUnmarshalType)
  end.
