(* ===== verification/GoTime.v ===== *)
(** * Times with a zone

    What the source uses of [time.Time] in JSON: a time is an instant and the
    offset of its zone, it is written in RFC 3339 with nanoseconds, and read by
    the strict RFC 3339 parser.  Reading gives back what was written
    ([parse_time_text]), so the text determines the time ([time_text_inj]). *)

From S2P Require Import Prelude Format Json Unmarshal.
Local Open Scope Z_scope.

(** An instant, and the offset of the zone it is seen in, in seconds. *)
Record gotime : Type := { gt_instant : time; gt_offset : Z }.

#[export] Instance gotime_eq_dec : EqDecision gotime.
Proof. solve_decision. Defined.

(** [UTC] and [IsZero]. *)
Definition UTC (t : gotime) : gotime := {| gt_instant := gt_instant t; gt_offset := 0 |}.
Definition utc (t : time) : gotime := {| gt_instant := t; gt_offset := 0 |}.
Definition gt_IsZero (t : gotime) : bool := IsZero (gt_instant t).

(** * Writing *)

Definition second_ns : Z := 10 ^ 9.

(** The wall clock of the zone. *)
Definition wall (t : gotime) : time := gt_instant t + gt_offset t * second_ns.

Definition zone_text (offset : Z) : string :=
  let m := Z.abs offset / 60 in
  if offset =? 0 then "Z"
  else (if offset <? 0 then "-" else "+") +:+ digits 2 (m / 60) +:+ ":" +:+ digits 2 (m mod 60).

Definition ErrYear : error :=
  ErrNew "json: error calling MarshalJSON for type time.Time: Time.MarshalJSON: year outside of range [0,9999]".
Definition ErrZoneHour : error :=
  ErrNew "json: error calling MarshalJSON for type time.Time: Time.MarshalJSON: timezone hour outside of range [0,23]".

Definition time_text (t : gotime) : string := rfc3339_in (zone_text (gt_offset t)) (wall t).

(** [MarshalJSON]. *)
Definition gotime_json (t : gotime) : result json :=
  if negb (bool_decide (four_digit_year (wall t))) then Error ErrYear
  else if 24 <=? Z.abs (gt_offset t) / 3600 then Error ErrZoneHour
  else Ok (JString (time_text t)).

(** * Reading *)

(** Exactly [w] digits. *)
Fixpoint parse_num (w : nat) (acc : Z) (s : string) : option (Z * string) :=
  match w with
  | O => Some (acc, s)
  | S w =>
      match s with
      | String a s => if is_digit a then parse_num w (10 * acc + (Z.of_N (N_of_ascii a) - 48)) s else None
      | "" => None
      end
  end.

(** Two digits in a range. *)
Definition parse_field (lo hi : Z) (s : string) : option (Z * string) :=
  '(n, s) ← parse_num 2 0 s; if (lo <=? n) && (n <=? hi) then Some (n, s) else None.

Definition expect (c : ascii) (s : string) : option string :=
  match s with String a s => if Ascii.eqb a c then Some s else None | "" => None end.

Definition leap_year (y : Z) : bool := (y mod 4 =? 0) && (negb (y mod 100 =? 0) || (y mod 400 =? 0)).

Definition days_in (m y : Z) : Z :=
  if m =? 2 then if leap_year y then 29 else 28
  else if (m =? 4) || (m =? 6) || (m =? 9) || (m =? 11) then 30 else 31.

(** The first [w] digits of a fraction, as if it had as many. *)
Fixpoint frac_value (w : nat) (acc : Z) (s : string) : Z :=
  match w with
  | O => acc
  | S w =>
      match s with
      | String a s => frac_value w (10 * acc + (Z.of_N (N_of_ascii a) - 48)) s
      | "" => frac_value w (10 * acc) ""
      end
  end.

(** An optional fraction: digits beyond the nanoseconds are dropped. *)
Definition parse_frac (s : string) : Z * string :=
  match s with
  | String a s1 =>
      if Ascii.eqb a "." then
        let '(d, r) := take_digits s1 in if nonempty d then (frac_value 9 0 d, r) else (0, s)
      else (0, s)
  | "" => (0, "")
  end.

Definition parse_zone (s : string) : option Z :=
  match s with
  | String a s =>
      if Ascii.eqb a "Z" then match s with "" => Some 0 | _ => None end
      else if Ascii.eqb a "+" || Ascii.eqb a "-" then
        '(h, s) ← parse_field 0 23 s; s ← expect ":" s; '(m, s) ← parse_field 0 59 s;
        match s with "" => Some ((if Ascii.eqb a "-" then -1 else 1) * ((h * 60 + m) * 60)) | _ => None end
      else None
  | "" => None
  end.

(** The strict parser of [UnmarshalJSON]. *)
Definition parse_rfc3339 (s : string) : option gotime :=
  '(y, s) ← parse_num 4 0 s; s ← expect "-" s; '(m, s) ← parse_field 1 12 s; s ← expect "-" s;
  '(d, s) ← parse_field 1 (days_in m y) s; s ← expect "T" s;
  '(h, s) ← parse_field 0 23 s; s ← expect ":" s; '(mi, s) ← parse_field 0 59 s; s ← expect ":" s;
  '(sec, s) ← parse_field 0 59 s;
  let '(ns, s) := parse_frac s in
  offset ← parse_zone s;
  Some {| gt_instant := days_of_civil (y, m, d) * day_ns + (h * 3600 + mi * 60 + sec) * second_ns + ns - offset * second_ns;
          gt_offset := offset |}.

Example parse_rfc3339_samples :
  (time_text <$> parse_rfc3339 "2024-02-29T12:05:09.120+05:30", parse_rfc3339 "2023-02-29T00:00:00Z",
   gt_instant <$> parse_rfc3339 "0001-01-01T00:00:00Z", parse_rfc3339 "2024-01-01T1:00:00Z",
   time_text <$> parse_rfc3339 "2024-12-31T23:59:59.9999999999-00:00") =
  (Some "2024-02-29T12:05:09.12+05:30", None, Some 0, None, Some "2024-12-31T23:59:59.999999999Z").
Proof. vm_compute. reflexivity. Qed.

(** * Reading back *)

Fixpoint zdec (acc : Z) (s : string) : Z :=
  match s with
  | "" => acc
  | String a s => zdec (10 * acc + (Z.of_N (N_of_ascii a) - 48)) s
  end.

Lemma zdec_app acc s t : zdec acc (s +:+ t) = zdec (zdec acc s) t.
Proof. revert acc. induction s as [|a s IH]; intros acc; [done|]. rewrite string_app_cons. apply IH. Qed.

Lemma digit_code z : Z.of_N (N_of_ascii (digit z)) - 48 = z mod 10 ∧ is_digit (digit z) = true.
Proof.
  pose proof (Z.mod_pos_bound z 10 ltac:(done)). unfold digit, is_digit, in_range.
  rewrite N_ascii_embedding by lia. split; [lia|]. apply andb_true_intro. rewrite !N.leb_le. lia.
Qed.

Lemma zdec_digits w acc z : 0 ≤ z < 10 ^ Z.of_nat w → zdec acc (digits w z) = acc * 10 ^ Z.of_nat w + z.
Proof.
  revert acc z. induction w as [|w IH]; intros acc z Hz; [simpl in *; lia|]. rewrite pow10_S in *. cbn [digits].
  rewrite zdec_app, IH by (split; [apply Z.div_pos; lia|apply Z.div_lt_upper_bound; lia]).
  cbn [zdec]. rewrite (proj1 (digit_code z)). pose proof (Z.div_mod z 10 ltac:(done)). lia.
Qed.

Lemma digits_all w z : all_chars is_digit (digits w z) = true.
Proof.
  revert z. induction w as [|w IH]; intros z; [done|]. cbn [digits].
  assert (Happ : ∀ s t, all_chars is_digit (s +:+ t) = all_chars is_digit s && all_chars is_digit t).
  { intros s t. induction s as [|a s IHs]; [done|]. rewrite string_app_cons. cbn [all_chars]. by rewrite IHs, andb_assoc. }
  rewrite Happ, IH. cbn [all_chars]. by rewrite (proj2 (digit_code z)).
Qed.

Lemma parse_num_app s acc r : all_chars is_digit s = true →
  parse_num (String.length s) acc (s +:+ r) = Some (zdec acc s, r).
Proof.
  revert acc. induction s as [|a s IH]; intros acc Hs; [done|]. rewrite string_app_cons. cbn [all_chars] in Hs. split_bool.
  cbn [String.length parse_num zdec]. rewrite H. by apply IH.
Qed.

Lemma parse_num_digits w z r : 0 ≤ z < 10 ^ Z.of_nat w → parse_num w 0 (digits w z +:+ r) = Some (z, r).
Proof.
  intros Hz. pose proof (parse_num_app (digits w z) 0 r (digits_all w z)) as H.
  rewrite digits_length, zdec_digits in H by done. by rewrite H.
Qed.

Lemma parse_field_digits lo hi z r : lo ≤ z ≤ hi → 0 ≤ z < 100 → parse_field lo hi (digits 2 z +:+ r) = Some (z, r).
Proof.
  intros Hr Hz. unfold parse_field. rewrite parse_num_digits by done. cbn [mbind option_bind].
  by rewrite (proj2 (Z.leb_le _ _) (proj1 Hr)), (proj2 (Z.leb_le _ _) (proj2 Hr)).
Qed.

Lemma frac_value_pad k acc s : frac_value (String.length s + k) acc s = zdec acc s * 10 ^ Z.of_nat k.
Proof.
  revert acc. induction s as [|a s IH]; intros acc; [|apply IH]. cbn [String.length Nat.add zdec].
  revert acc. induction k as [|k IH]; intros acc; [simpl; lia|]. cbn [frac_value]. rewrite IH, pow10_S. lia.
Qed.

Lemma parse_frac_text ns r : 0 ≤ ns < 10 ^ 9 → number_end r = true →
  parse_frac ((if ns =? 0 then "" else "." +:+ frac_digits 9 ns) +:+ r) = (ns, r).
Proof.
  intros Hns Hr. destruct (Z.eqb_spec ns 0) as [->|Hne].
  - change ("" +:+ r) with r. destruct r as [|a r]; [done|]. unfold parse_frac, number_end in *.
    rewrite negb_true_iff, !orb_false_iff in Hr. destruct Hr as [[[_ Hr] _] _]. by rewrite Hr.
  - destruct (frac_digits_spec 9 ns Hns) as (k & Hk & He & Hv & Hb). rewrite He.
    set (w := (9 - k)%nat) in *. set (v := ns / 10 ^ Z.of_nat k) in *.
    rewrite <- string_app_assoc, string_app_cons. change ("" +:+ (digits w v +:+ r)) with (digits w v +:+ r).
    unfold parse_frac. cbn [Ascii.eqb Bool.eqb]. rewrite take_digits_app by (apply digits_all || done).
    assert (nonempty (digits w v) = true) as ->.
    { destruct (digits w v) eqn:Hd; [|done]. exfalso. apply (f_equal String.length) in Hd. rewrite digits_length in Hd.
      simpl in Hd. rewrite Hd in Hb. simpl in Hb. assert (v = 0) as Hv0 by lia. rewrite Hv0 in Hv. lia. }
    f_equal. replace 9%nat with (String.length (digits w v) + k)%nat by (rewrite digits_length; lia).
    rewrite frac_value_pad, zdec_digits by done. lia.
Qed.

Lemma number_end_zone o : number_end (zone_text o) = true.
Proof. unfold zone_text. destruct (o =? 0); [done|]. by destruct (o <? 0). Qed.

(** The offsets a zone can be written with, and reading gives. *)
Definition written_offset (o : Z) : Prop := o mod 60 = 0 ∧ Z.abs o < 86400.

Lemma parse_zone_text o : written_offset o → parse_zone (zone_text o) = Some o.
Proof.
  intros [Hm Hb]. unfold zone_text. destruct (Z.eqb_spec o 0) as [->|Hne]; [done|].
  assert (Hfields : 0 ≤ Z.abs o / 60 / 60 ≤ 23 ∧ 0 ≤ Z.abs o / 60 mod 60 ≤ 59) by (Z.to_euclidean_division_equations; lia).
  destruct Hfields as [Hh Hmi].
  assert (Hread : ∀ sign : ascii, Ascii.eqb sign "Z" = false → Ascii.eqb sign "+" || Ascii.eqb sign "-" = true →
    parse_zone (String sign (digits 2 (Z.abs o / 60 / 60) +:+ ":" +:+ digits 2 (Z.abs o / 60 mod 60))) =
    Some ((if Ascii.eqb sign "-" then -1 else 1) * ((Z.abs o / 60 / 60 * 60 + Z.abs o / 60 mod 60) * 60))).
  { intros sign H1 H2. unfold parse_zone. rewrite H1, H2, parse_field_digits by lia. cbn [mbind option_bind].
    change (expect ":" (":" +:+ ?x)) with (Some x). cbn [mbind option_bind].
    rewrite <- (string_app_nil_r (digits 2 (Z.abs o / 60 mod 60))), parse_field_digits by lia. done. }
  destruct (Z.ltb_spec o 0).
  - change ("-" +:+ ?x) with (String "-" x). rewrite Hread by done. cbn [Ascii.eqb Bool.eqb].
    f_equal. Z.to_euclidean_division_equations; lia.
  - change ("+" +:+ ?x) with (String "+" x). rewrite Hread by done. cbn [Ascii.eqb Bool.eqb].
    f_equal. Z.to_euclidean_division_equations; lia.
Qed.

(** ** The calendar *)

(** The day of the month, the month, and the year in its era of the day [doe]
    of an era, as [civil_of_days] computes them. *)
Definition era_date (doe : Z) : Z * Z * Z :=
  let yoe := (doe - doe / 1460 + doe / 36524 - doe / 146096) / 365 in
  let doy := doe - (365 * yoe + yoe / 4 - yoe / 100) in
  let mp := (5 * doy + 2) / 153 in
  let m := if mp <? 10 then mp + 3 else mp - 9 in
  (yoe + (if m <=? 2 then 1 else 0), m, doy - (153 * mp + 2) / 5 + 1).

Definition era_date_ok (doe : Z) : bool := let '(y, m, d) := era_date doe in d <=? days_in m y.

Definition year_of_era (doe : Z) : Z := (doe - doe / 1460 + doe / 36524 - doe / 146096) / 365.
Definition first_day (yoe : Z) : Z := 365 * yoe + yoe / 4 - yoe / 100.

(** The months but February have their days; in February only the last day of
    the longest years is a 29th. *)
Definition month_ok (doy : Z) : bool :=
  let mp := (5 * doy + 2) / 153 in
  let m := if mp <? 10 then mp + 3 else mp - 9 in
  let d := doy - (153 * mp + 2) / 5 + 1 in
  if m =? 2 then (d <=? 28) || (d =? 29) && (doy =? 365) else d <=? days_in m 1.

(** A year of 366 days ends in the February of a leap year. *)
Definition last_day_ok (yoe : Z) : bool :=
  negb (year_of_era (first_day yoe + 365) =? yoe) || leap_year (yoe + 1).

Lemma months_ok : forallb month_ok (seqZ 0 366) = true.
Proof. vm_compute. reflexivity. Qed.

Lemma last_days_ok : forallb last_day_ok (seqZ 0 400) = true.
Proof. vm_compute. reflexivity. Qed.

Lemma forallb_seqZ (p : Z → bool) n k : forallb p (seqZ 0 n) = true → 0 ≤ k < n → p k = true.
Proof. intros Hp Hk. apply (proj1 (forallb_forall p _) Hp), list_elem_of_In, elem_of_seqZ. lia. Qed.

Lemma era_dates_ok doe : 0 ≤ doe < 146097 → era_date_ok doe = true.
Proof.
  intros Hdoe. destruct (yoe_bounds doe Hdoe) as [Hy Hd]. unfold era_date_ok, era_date.
  change ((doe - doe / 1460 + doe / 36524 - doe / 146096) / 365) with (year_of_era doe) in *.
  change (365 * year_of_era doe + year_of_era doe / 4 - year_of_era doe / 100) with (first_day (year_of_era doe)) in *.
  set (doy := doe - first_day (year_of_era doe)) in *.
  pose proof (forallb_seqZ _ _ doy months_ok Hd) as Hmonth. unfold month_ok in Hmonth. cbv zeta in Hmonth |- *.
  set (mp := (5 * doy + 2) / 153) in *. set (m := if mp <? 10 then _ else _) in *. unfold days_in in *.
  destruct (Z.eqb_spec m 2) as [Hm|Hm]; [|exact Hmonth]. apply orb_prop in Hmonth as [H28|[H29 H365]%andb_prop].
  - apply Z.leb_le in H28. apply Z.leb_le. destruct (leap_year _); lia.
  - apply Z.eqb_eq in H29, H365. pose proof (forallb_seqZ _ _ (year_of_era doe) last_days_ok Hy) as Hlast.
    unfold last_day_ok in Hlast. replace (first_day (year_of_era doe) + 365) with doe in Hlast by lia.
    rewrite Z.eqb_refl in Hlast. cbn [negb orb] in Hlast. rewrite Hm, H29. change (2 <=? 2) with true. cbv iota. by rewrite Hlast.
Qed.

Lemma leap_year_era y e : leap_year (y + e * 400) = leap_year y.
Proof.
  unfold leap_year. assert (H : ∀ k, 0 < k → 400 mod k = 0 → (y + e * 400) mod k = y mod k).
  { intros k Hk Hz. rewrite Z.add_mod, Z.mul_mod, Hz, Z.mul_0_r, Z.mod_0_l, Z.add_0_r, Z.mod_mod by lia. done. }
  by rewrite !H by done.
Qed.

Lemma civil_days_in days : let '(y, m, d) := civil_of_days days in 1 ≤ d ≤ days_in m y.
Proof.
  pose proof (civil_bounds days) as Hb. unfold civil_of_days in *. set (z := days + 306) in *.
  pose proof (era_dates_ok (z mod 146097) ltac:(by apply Z.mod_pos_bound)) as Hok. unfold era_date_ok, era_date in Hok.
  revert Hb Hok. set (doe := z mod 146097). set (yoe := _ / 365). set (doy := doe - _). set (mp := (5 * doy + 2) / 153).
  set (m := if mp <? 10 then _ else _). cbv zeta. intros [_ Hd] Hok. apply Z.leb_le in Hok. split; [lia|].
  unfold days_in in *. replace (yoe + z / 146097 * 400 + (if m <=? 2 then 1 else 0))
    with (yoe + (if m <=? 2 then 1 else 0) + z / 146097 * 400) by lia. by rewrite leap_year_era.
Qed.

(** ** The round trip *)

(** The times that can be written. *)
Definition written_time (t : gotime) : Prop := four_digit_year (wall t) ∧ written_offset (gt_offset t).

Lemma clock_sum t : (second_of_day t / 3600 * 3600 + second_of_day t / 60 mod 60 * 60 + second_of_day t mod 60) * second_ns +
  t mod second_ns + t / day_ns * day_ns = t.
Proof. unfold second_of_day, second_ns, day_ns. Z.to_euclidean_division_equations. lia. Qed.

Lemma parse_time_text t : written_time t → parse_rfc3339 (time_text t) = Some t.
Proof.
  unfold written_time, time_text, four_digit_year, year_of, rfc3339_in. intros [Hy Ho]. set (w := wall t) in *.
  pose proof (civil_bounds (w / day_ns)) as Hb. pose proof (civil_days_in (w / day_ns)) as Hdays.
  pose proof (days_of_civil_of_days (w / day_ns)) as Hback.
  destruct (civil_of_days (w / day_ns)) as [[y m] d]. cbn [fst] in Hy.
  assert (year_string y = digits 4 y) as ->.
  { unfold year_string. destruct (Z.ltb_spec y 0), (Z.ltb_spec y 10000); try done; lia. }
  fold (second_of_day w). assert (Hs : 0 ≤ second_of_day w < 86400) by apply second_of_day_bounds.
  assert (Hns : 0 ≤ w mod 10 ^ 9 < 10 ^ 9) by (by apply Z.mod_pos_bound).
  set (s := second_of_day w) in *.
  assert (Hclock : 0 ≤ s / 3600 ≤ 23 ∧ 0 ≤ s / 60 mod 60 ≤ 59 ∧ 0 ≤ s mod 60 ≤ 59) by (Z.to_euclidean_division_equations; lia).
  destruct Hclock as (Hh & Hm & Hsec). unfold parse_rfc3339. rewrite parse_num_digits by (simpl; lia). cbn [mbind option_bind].
  change (expect "-" ("-" +:+ ?x)) with (Some x). cbn [mbind option_bind].
  rewrite parse_field_digits by lia. cbn [mbind option_bind].
  change (expect "-" ("-" +:+ ?x)) with (Some x). cbn [mbind option_bind].
  rewrite (parse_field_digits 1 (days_in m y)) by lia. cbn [mbind option_bind].
  change (expect "T" ("T" +:+ ?x)) with (Some x). cbn [mbind option_bind].
  rewrite parse_field_digits by lia. cbn [mbind option_bind].
  change (expect ":" (":" +:+ ?x)) with (Some x). cbn [mbind option_bind].
  rewrite parse_field_digits by lia. cbn [mbind option_bind].
  change (expect ":" (":" +:+ ?x)) with (Some x). cbn [mbind option_bind].
  rewrite parse_field_digits by lia. cbn [mbind option_bind].
  rewrite parse_frac_text by (done || apply number_end_zone). rewrite parse_zone_text by done. cbn [mbind option_bind].
  rewrite Hback. destruct t as [i o]. cbn [gt_offset gt_instant] in *. do 2 f_equal.
  pose proof (clock_sum w) as Hsum. fold s in Hsum. change (10 ^ 9) with second_ns.
  subst w. unfold wall in *. cbn [gt_offset gt_instant] in *. lia.
Qed.

(** The text determines the time. *)
Lemma time_text_inj t u : written_time t → written_time u → time_text t = time_text u → t = u.
Proof. intros Ht Hu H. apply (f_equal parse_rfc3339) in H. rewrite !parse_time_text in H by done. by injection H. Qed.

Definition ErrTimeFormat : error := ErrNew "Time.UnmarshalJSON: input is not a JSON string or not RFC 3339".

(** [UnmarshalJSON] looks at the literal itself, escapes and all. *)
Definition decode_time : decoder gotime := λ v t,
  match v with
  | VNull => (t, None)
  | VString true s => match parse_rfc3339 s with Some u => (u, None) | None => (t, Some ErrTimeFormat) end
  | _ => (t, Some ErrTimeFormat)
  end.

(** A read offset is a whole number of minutes, of less than a day. *)
Lemma parse_field_bounds lo hi s n r : parse_field lo hi s = Some (n, r) → lo ≤ n ≤ hi.
Proof.
  unfold parse_field. destruct (parse_num 2 0 s) as [[m t]|]; [|done]. cbn [mbind option_bind].
  destruct ((lo <=? m) && (m <=? hi)) eqn:H; [|done]. intros [= -> ->]. apply andb_prop in H as [?%Z.leb_le ?%Z.leb_le]. lia.
Qed.

Lemma parse_zone_written s o : parse_zone s = Some o → written_offset o.
Proof.
  unfold parse_zone, written_offset. destruct s as [|a s]; [done|].
  destruct (Ascii.eqb a "Z"); [destruct s; [by intros [= <-]|done]|]. destruct (_ || _); [|done].
  destruct (parse_field 0 23 s) as [[h t]|] eqn:Hh; [|done]. cbn [mbind option_bind].
  destruct (expect ":" t) as [t'|]; [|done]. cbn [mbind option_bind].
  destruct (parse_field 0 59 t') as [[m u]|] eqn:Hm; [|done]. cbn [mbind option_bind].
  apply parse_field_bounds in Hh, Hm. destruct u; [|done]. intros [= <-].
  rewrite (Z.mul_comm (_ + _)), Z.mul_assoc, (Z.mul_comm _ 60), <- Z.mul_assoc, Z.mul_comm, Z.mod_mul by lia.
  split; [done|]. destruct (Ascii.eqb a "-"); lia.
Qed.

Lemma parse_rfc3339_written s t : parse_rfc3339 s = Some t → written_offset (gt_offset t).
Proof.
  unfold parse_rfc3339.
  repeat match goal with
  | |- (?m ≫= _) = Some _ → _ => destruct m as [?|] eqn:?; [cbn [mbind option_bind]|done]
  | |- (let '(_, _) := ?p in _) = Some _ → _ => destruct p
  end.
  intros [= <-]. eauto using parse_zone_written.
Qed.

Lemma decode_time_written v t u err : decode_time v t = (u, err) → written_offset (gt_offset t) → written_offset (gt_offset u).
Proof.
  unfold decode_time. destruct v as [| | |[] s| |]; try by intros [= <- <-].
  destruct (parse_rfc3339 s) eqn:Hp; intros [= <- <-] Ho; [by eapply parse_rfc3339_written|done].
Qed.

(** A written text is plain: it is its own literal. *)
Lemma plain_app s t : all_chars plain (s +:+ t) = all_chars plain s && all_chars plain t.
Proof. induction s as [|a s IH]; [done|]. rewrite string_app_cons. cbn [all_chars]. by rewrite IH, andb_assoc. Qed.

Lemma plain_digits s : all_chars is_digit s = true → all_chars plain s = true.
Proof.
  induction s as [|a s IH]; [done|]. cbn [all_chars]. intros [Ha Hs]%andb_prop. rewrite IH, andb_true_r by done. clear - Ha.
  destruct a as [[] [] [] [] [] [] [] []]; first [reflexivity|discriminate Ha].
Qed.

Lemma plain_digits_text w z : all_chars plain (digits w z) = true.
Proof. apply plain_digits, digits_all. Qed.

Lemma plain_frac w z : all_chars plain (frac_digits w z) = true.
Proof. revert z. induction w as [|w IH]; intros z; [done|]. cbn [frac_digits]. destruct (_ =? _); [apply IH|apply plain_digits_text]. Qed.

Lemma plain_time_text t : written_time t → all_chars plain (time_text t) = true.
Proof.
  unfold written_time, time_text, four_digit_year, year_of, rfc3339_in. intros [Hy _].
  destruct (civil_of_days _) as [[y m] d]. cbn [fst] in Hy.
  assert (year_string y = digits 4 y) as ->.
  { unfold year_string. destruct (Z.ltb_spec y 0), (Z.ltb_spec y 10000); try done; lia. }
  assert (all_chars plain (zone_text (gt_offset t)) = true) as Hz.
  { unfold zone_text. destruct (_ =? 0); [done|]. rewrite !plain_app, !plain_digits_text. by destruct (_ <? 0). }
  rewrite !plain_app, !plain_digits_text, Hz. destruct (_ =? 0); [done|]. by rewrite plain_app, plain_frac.
Qed.

(** A marshalled time is read back. *)
Lemma decode_gotime t u v : gotime_json t = Ok v → written_offset (gt_offset t) → decode_time (embed v) u = (t, None).
Proof.
  unfold gotime_json. case_bool_decide as Hy; [|done]. cbn [negb]. destruct (24 <=? _); [done|]. intros [= <-] Ho.
  assert (Hw : written_time t) by (by split). destruct (plain_text _ (plain_time_text t Hw)) as (_ & Hc & Hv).
  cbn [embed decode_time]. rewrite Hv, Hc, parse_time_text by done. done.
Qed.
