(* ===== verification/JournalEntry.v ===== *)
(** * Journal entries

    Models the data of [internal/journal/journal.go]: events, entries and signed
    anchors, their JSON text, the hash of an entry, and the chain an entry forms
    with the one before it.  A chain is determined by its last hash, unless two
    different payloads have the same SHA-256 ([chain_determined]). *)

From S2P Require Import Prelude Crypto Format Json Unmarshal GoTime Permit.
Local Open Scope Z_scope.

Definition formatVersion : Z := 2.

Definition EventAuthorization : string := "AUTHORIZATION".
Definition EventExecution : string := "EXECUTION".
Definition EventOutcome : string := "OUTCOME".
Definition EventDecision : string := "DECISION".

Record Event : Type := {
  ev_Type : string; ev_ActionID : string; ev_Target : string; ev_Decision : string; ev_ReasonCodes : list string;
  ev_EvidenceDigest : string; ev_EvidencePacketDigest : string; ev_PlanDigest : string; ev_AttemptID : string;
  ev_DestinationID : string; ev_AccountID : string; ev_ObservationHandle : string; ev_AttemptState : string;
  ev_OutcomeVerdict : string; ev_PayloadDigest : string; ev_OccurredAt : gotime }.

Record Entry : Type := {
  en_Version : Z; en_JournalID : string; en_Sequence : Z; en_PrevHash : string; en_Event : Event; en_EntryHash : string }.

Record Anchor : Type := {
  an_Version : Z; an_JournalID : string; an_Sequence : Z; an_HeadHash : string; an_KeyID : string;
  an_UpdatedAt : gotime; an_Signature : string }.

#[export] Instance Event_eq_dec : EqDecision Event.
Proof. solve_decision. Defined.
#[export] Instance Entry_eq_dec : EqDecision Entry.
Proof. solve_decision. Defined.

Definition zero_Event : Event := Build_Event "" "" "" "" [] "" "" "" "" "" "" "" "" "" "" (utc 0).
Definition zero_Entry : Entry := Build_Entry 0 "" 0 "" zero_Event "".
Definition zero_Anchor : Anchor := Build_Anchor 0 "" 0 "" "" (utc 0) "".

(** * JSON texts *)

Definition event_fields (e : Event) (occurred : json) : list (string * option json) :=
  [("type", Some (JString (ev_Type e))); ("action_id", omit_string (ev_ActionID e)); ("target", omit_string (ev_Target e));
   ("decision", omit_string (ev_Decision e)); ("reason_codes", omit_strings (ev_ReasonCodes e));
   ("evidence_digest", omit_string (ev_EvidenceDigest e));
   ("evidence_packet_digest", omit_string (ev_EvidencePacketDigest e)); ("plan_digest", omit_string (ev_PlanDigest e));
   ("attempt_id", omit_string (ev_AttemptID e)); ("destination_id", omit_string (ev_DestinationID e));
   ("account_id", omit_string (ev_AccountID e)); ("observation_handle", omit_string (ev_ObservationHandle e));
   ("attempt_state", omit_string (ev_AttemptState e)); ("outcome_verdict", omit_string (ev_OutcomeVerdict e));
   ("payload_digest", omit_string (ev_PayloadDigest e)); ("occurred_at", Some occurred)].

Definition entry_fields (e : Entry) (occurred : json) : list (string * option json) :=
  [("version", Some (JInt (en_Version e))); ("journal_id", Some (JString (en_JournalID e)));
   ("sequence", Some (JInt (en_Sequence e))); ("prev_hash", Some (JString (en_PrevHash e)));
   ("event", Some (object (event_fields (en_Event e) occurred))); ("entry_hash", Some (JString (en_EntryHash e)))].

(** [json.Marshal] of an entry and of an anchor. *)
Definition marshal_entry (e : Entry) : result string :=
  occurred ← gotime_json (ev_OccurredAt (en_Event e)); Ok (encode (object (entry_fields e occurred))).

Definition anchor_fields (a : Anchor) (updated : json) : list (string * option json) :=
  [("version", Some (JInt (an_Version a))); ("journal_id", Some (JString (an_JournalID a)));
   ("sequence", Some (JInt (an_Sequence a))); ("head_hash", Some (JString (an_HeadHash a)));
   ("key_id", Some (JString (an_KeyID a))); ("updated_at", Some updated); ("signature", Some (JString (an_Signature a)))].

Definition marshal_anchor (a : Anchor) : result string :=
  updated ← gotime_json (an_UpdatedAt a); Ok (encode (object (anchor_fields a updated))).

Definition with_EntryHash (h : string) (e : Entry) : Entry := {|
  en_Version := en_Version e; en_JournalID := en_JournalID e; en_Sequence := en_Sequence e; en_PrevHash := en_PrevHash e;
  en_Event := en_Event e; en_EntryHash := h |}.

Definition with_Signature (s : string) (a : Anchor) : Anchor := {|
  an_Version := an_Version a; an_JournalID := an_JournalID a; an_Sequence := an_Sequence a; an_HeadHash := an_HeadHash a;
  an_KeyID := an_KeyID a; an_UpdatedAt := an_UpdatedAt a; an_Signature := s |}.

Definition with_KeyID (k : string) (a : Anchor) : Anchor := {|
  an_Version := an_Version a; an_JournalID := an_JournalID a; an_Sequence := an_Sequence a; an_HeadHash := an_HeadHash a;
  an_KeyID := k; an_UpdatedAt := an_UpdatedAt a; an_Signature := an_Signature a |}.

(** What the hash of an entry is computed over. *)
Definition hash_payload (e : Entry) : result string := marshal_entry (with_EntryHash "" e).

Definition hashEntry (e : Entry) : result string :=
  match hash_payload e with
  | Error err => Error (ErrWrap "marshal entry for hash" err)
  | Ok payload => Ok (sha256_digest payload)
  end.

Definition anchorSigningPayload (a : Anchor) : result string :=
  match marshal_anchor (with_Signature "" a) with
  | Error err => Error (ErrWrap "marshal anchor payload" err)
  | Ok payload => Ok payload
  end.

(** * Reading them *)

Section Setters.
Context (e : Event).
Definition set_Type x := let '(Build_Event _ b c d f g h i j k l m n o p q) := e in Build_Event x b c d f g h i j k l m n o p q.
Definition set_ActionID x := let '(Build_Event a _ c d f g h i j k l m n o p q) := e in Build_Event a x c d f g h i j k l m n o p q.
Definition set_Target x := let '(Build_Event a b _ d f g h i j k l m n o p q) := e in Build_Event a b x d f g h i j k l m n o p q.
Definition set_Decision x := let '(Build_Event a b c _ f g h i j k l m n o p q) := e in Build_Event a b c x f g h i j k l m n o p q.
Definition set_ReasonCodes x := let '(Build_Event a b c d _ g h i j k l m n o p q) := e in Build_Event a b c d x g h i j k l m n o p q.
Definition set_EvidenceDigest x := let '(Build_Event a b c d f _ h i j k l m n o p q) := e in Build_Event a b c d f x h i j k l m n o p q.
Definition set_EvidencePacketDigest x := let '(Build_Event a b c d f g _ i j k l m n o p q) := e in Build_Event a b c d f g x i j k l m n o p q.
Definition set_PlanDigest x := let '(Build_Event a b c d f g h _ j k l m n o p q) := e in Build_Event a b c d f g h x j k l m n o p q.
Definition set_AttemptID x := let '(Build_Event a b c d f g h i _ k l m n o p q) := e in Build_Event a b c d f g h i x k l m n o p q.
Definition set_DestinationID x := let '(Build_Event a b c d f g h i j _ l m n o p q) := e in Build_Event a b c d f g h i j x l m n o p q.
Definition set_AccountID x := let '(Build_Event a b c d f g h i j k _ m n o p q) := e in Build_Event a b c d f g h i j k x m n o p q.
Definition set_ObservationHandle x := let '(Build_Event a b c d f g h i j k l _ n o p q) := e in Build_Event a b c d f g h i j k l x n o p q.
Definition set_AttemptState x := let '(Build_Event a b c d f g h i j k l m _ o p q) := e in Build_Event a b c d f g h i j k l m x o p q.
Definition set_OutcomeVerdict x := let '(Build_Event a b c d f g h i j k l m n _ p q) := e in Build_Event a b c d f g h i j k l m n x p q.
Definition set_PayloadDigest x := let '(Build_Event a b c d f g h i j k l m n o _ q) := e in Build_Event a b c d f g h i j k l m n o x q.
Definition set_OccurredAt x := let '(Build_Event a b c d f g h i j k l m n o p _) := e in Build_Event a b c d f g h i j k l m n o p x.
End Setters.

Section EntrySetters.
Context (r : Entry).
Definition set_entry_Version x := let '(Build_Entry _ b c d f g) := r in Build_Entry x b c d f g.
Definition set_entry_JournalID x := let '(Build_Entry a _ c d f g) := r in Build_Entry a x c d f g.
Definition set_entry_Sequence x := let '(Build_Entry a b _ d f g) := r in Build_Entry a b x d f g.
Definition set_entry_PrevHash x := let '(Build_Entry a b c _ f g) := r in Build_Entry a b c x f g.
Definition set_entry_Event x := let '(Build_Entry a b c d _ g) := r in Build_Entry a b c d x g.
Definition set_entry_EntryHash x := let '(Build_Entry a b c d f _) := r in Build_Entry a b c d f x.
End EntrySetters.

Section AnchorSetters.
Context (r : Anchor).
Definition set_anchor_Version x := let '(Build_Anchor _ b c d f g h) := r in Build_Anchor x b c d f g h.
Definition set_anchor_JournalID x := let '(Build_Anchor a _ c d f g h) := r in Build_Anchor a x c d f g h.
Definition set_anchor_Sequence x := let '(Build_Anchor a b _ d f g h) := r in Build_Anchor a b x d f g h.
Definition set_anchor_HeadHash x := let '(Build_Anchor a b c _ f g h) := r in Build_Anchor a b c x f g h.
Definition set_anchor_KeyID x := let '(Build_Anchor a b c d _ g h) := r in Build_Anchor a b c d x g h.
Definition set_anchor_UpdatedAt x := let '(Build_Anchor a b c d f _ h) := r in Build_Anchor a b c d f x h.
Definition set_anchor_Signature x := let '(Build_Anchor a b c d f g _) := r in Build_Anchor a b c d f g x.
End AnchorSetters.

Definition event_struct : list (struct_field Event) :=
  let str name get (set : Event → string → Event) := on_field name get (λ x e, set e x) decode_string in
  [str "type" ev_Type set_Type; str "action_id" ev_ActionID set_ActionID; str "target" ev_Target set_Target;
   str "decision" ev_Decision set_Decision;
   on_field "reason_codes" ev_ReasonCodes (λ x e, set_ReasonCodes e x) (decode_slice decode_string "");
   str "evidence_digest" ev_EvidenceDigest set_EvidenceDigest;
   str "evidence_packet_digest" ev_EvidencePacketDigest set_EvidencePacketDigest;
   str "plan_digest" ev_PlanDigest set_PlanDigest; str "attempt_id" ev_AttemptID set_AttemptID;
   str "destination_id" ev_DestinationID set_DestinationID; str "account_id" ev_AccountID set_AccountID;
   str "observation_handle" ev_ObservationHandle set_ObservationHandle; str "attempt_state" ev_AttemptState set_AttemptState;
   str "outcome_verdict" ev_OutcomeVerdict set_OutcomeVerdict; str "payload_digest" ev_PayloadDigest set_PayloadDigest;
   on_field "occurred_at" ev_OccurredAt (λ x e, set_OccurredAt e x) decode_time].

Definition entry_struct : list (struct_field Entry) :=
  [on_field "version" en_Version (λ x r, set_entry_Version r x) decode_int;
   on_field "journal_id" en_JournalID (λ x r, set_entry_JournalID r x) decode_string;
   on_field "sequence" en_Sequence (λ x r, set_entry_Sequence r x) decode_uint64;
   on_field "prev_hash" en_PrevHash (λ x r, set_entry_PrevHash r x) decode_string;
   on_field "event" en_Event (λ x r, set_entry_Event r x) (decode_struct event_struct);
   on_field "entry_hash" en_EntryHash (λ x r, set_entry_EntryHash r x) decode_string].

Definition anchor_struct : list (struct_field Anchor) :=
  [on_field "version" an_Version (λ x r, set_anchor_Version r x) decode_int;
   on_field "journal_id" an_JournalID (λ x r, set_anchor_JournalID r x) decode_string;
   on_field "sequence" an_Sequence (λ x r, set_anchor_Sequence r x) decode_uint64;
   on_field "head_hash" an_HeadHash (λ x r, set_anchor_HeadHash r x) decode_string;
   on_field "key_id" an_KeyID (λ x r, set_anchor_KeyID r x) decode_string;
   on_field "updated_at" an_UpdatedAt (λ x r, set_anchor_UpdatedAt r x) decode_time;
   on_field "signature" an_Signature (λ x r, set_anchor_Signature r x) decode_string].

(** [json.Unmarshal] into an entry and into an anchor. *)
Definition decode_entry : string → result Entry := Unmarshal entry_struct zero_Entry.
Definition decode_anchor : string → result Anchor := Unmarshal anchor_struct zero_Anchor.

Definition sample_event : Event :=
  Build_Event EventExecution "act" "node/a" "" ["R1"; "<R2>"] "" "" "" "" "" "" "" "" "" "sha256:00" (utc (63000000000 * second_ns)).

Definition sample_entry : Entry := Build_Entry 2 "j" 1 "" sample_event "sha256:11".

Example decode_entry_sample :
  match marshal_entry sample_entry with Ok s => decode_entry s | Error err => Error err end = Ok sample_entry.
Proof. vm_compute. reflexivity. Qed.

(** * Reading back *)

(** The members of an object whose fields were written with [object]. *)
Definition written (fields : list (string * option json)) : list (string * jvalue) :=
  (λ '(k, v), (coerce k, embed v)) <$> omap (λ '(k, v), pair k <$> v) fields.

Lemma embed_object fields : embed (object fields) = VObject (written fields).
Proof. reflexivity. Qed.

Section Written.
Context {S : Type} (fs : list (struct_field S)).

(** A field that was written is set. *)
Lemma decode_written k (v : json) rest s f t : find_field fs k = Some f → coerce k = k → sf_set f (embed v) s = (t, None) →
  decode_members fs (written ((k, Some v) :: rest)) s None = decode_members fs (written rest) t None.
Proof. intros Hf Hk Hs. cbn. by rewrite Hk, Hf, Hs. Qed.

(** One that may have been omitted is set too, when it was the zero value. *)
Lemma decode_omitted_string k x rest s f t : find_field fs k = Some f → coerce k = k →
  (∀ v, sf_set f (VString v (coerce x)) s = (t, None)) → (x = "" → t = s) →
  decode_members fs (written ((k, omit_string x) :: rest)) s None = decode_members fs (written rest) t None.
Proof.
  intros Hf Hk Hs H0. unfold omit_string. destruct (str_eqb x "") eqn:Hx; split_bool.
  - by rewrite H0.
  - eapply decode_written; [done|done|apply Hs].
Qed.

Lemma decode_omitted_strings k x rest s f t : find_field fs k = Some f → coerce k = k →
  sf_set f (VArray (embed <$> (JString <$> x))) s = (t, None) → (x = [] → t = s) →
  decode_members fs (written ((k, omit_strings x) :: rest)) s None = decode_members fs (written rest) t None.
Proof. intros Hf Hk Hs H0. destruct x as [|a x]; [by rewrite H0|]. by eapply decode_written. Qed.
End Written.

Lemma decode_strings l : decode_elements decode_string "" (embed <$> (JString <$> l)) [] = (coerce <$> l, None).
Proof. induction l as [|a l IH]; [done|]. cbn. cbn in IH. by rewrite IH. Qed.

(** An event and an entry with the bytes that are not UTF-8 replaced. *)
Definition coerce_event (e : Event) : Event := {|
  ev_Type := coerce (ev_Type e); ev_ActionID := coerce (ev_ActionID e); ev_Target := coerce (ev_Target e);
  ev_Decision := coerce (ev_Decision e); ev_ReasonCodes := coerce <$> ev_ReasonCodes e;
  ev_EvidenceDigest := coerce (ev_EvidenceDigest e); ev_EvidencePacketDigest := coerce (ev_EvidencePacketDigest e);
  ev_PlanDigest := coerce (ev_PlanDigest e); ev_AttemptID := coerce (ev_AttemptID e);
  ev_DestinationID := coerce (ev_DestinationID e); ev_AccountID := coerce (ev_AccountID e);
  ev_ObservationHandle := coerce (ev_ObservationHandle e); ev_AttemptState := coerce (ev_AttemptState e);
  ev_OutcomeVerdict := coerce (ev_OutcomeVerdict e); ev_PayloadDigest := coerce (ev_PayloadDigest e);
  ev_OccurredAt := ev_OccurredAt e |}.

Definition coerce_entry (e : Entry) : Entry := {|
  en_Version := en_Version e; en_JournalID := coerce (en_JournalID e); en_Sequence := en_Sequence e;
  en_PrevHash := coerce (en_PrevHash e); en_Event := coerce_event (en_Event e); en_EntryHash := coerce (en_EntryHash e) |}.

(** The next field of a structure: it is set to what it was written from. *)
Ltac eval_setters :=
  match goal with |- decode_members _ _ ?s _ = _ =>
    let s' := eval cbv [set_Type set_ActionID set_Target set_Decision set_ReasonCodes set_EvidenceDigest
      set_EvidencePacketDigest set_PlanDigest set_AttemptID set_DestinationID set_AccountID set_ObservationHandle
      set_AttemptState set_OutcomeVerdict set_PayloadDigest set_OccurredAt
      set_entry_Version set_entry_JournalID set_entry_Sequence set_entry_PrevHash set_entry_Event set_entry_EntryHash zero_Entry
      set_anchor_Version set_anchor_JournalID set_anchor_Sequence set_anchor_HeadHash set_anchor_KeyID set_anchor_UpdatedAt
      set_anchor_Signature zero_Anchor] in s in
    change s with s'
  end.

Ltac next_field :=
  eval_setters;
  first [ erewrite decode_omitted_string; [|reflexivity|reflexivity|intros ?; reflexivity|by intros ->]
        | erewrite decode_omitted_strings; [|reflexivity|reflexivity|cbn; rewrite decode_strings; reflexivity|by intros ->]
        | erewrite decode_written; [|reflexivity|reflexivity|reflexivity] ].

Lemma decode_event e occurred : gotime_json (ev_OccurredAt e) = Ok occurred → written_offset (gt_offset (ev_OccurredAt e)) →
  decode_members event_struct (written (event_fields e occurred)) zero_Event None = (coerce_event e, None).
Proof.
  intros Ht Ho. unfold event_fields. do 15 next_field.
  erewrite decode_written; [|reflexivity|reflexivity|cbn; rewrite (decode_gotime _ _ _ Ht Ho); reflexivity]. reflexivity.
Qed.

Lemma decode_event_struct e occurred : gotime_json (ev_OccurredAt e) = Ok occurred → written_offset (gt_offset (ev_OccurredAt e)) →
  decode_struct event_struct (embed (object (event_fields e occurred))) zero_Event = (coerce_event e, None).
Proof. intros. rewrite embed_object. by apply decode_event. Qed.

Definition int_range (z : Z) : Prop := MinInt64 ≤ z ≤ MaxInt64.

Lemma parse_int64_pretty z : int_range z → parse_int64 (pretty z) = Some z.
Proof.
  unfold int_range, MinInt64, MaxInt64. intros Hz.
  assert (Hpos : ∀ n : N, parse_int64 (pretty n) = if (Z.of_N n <? 2 ^ 63) then Some (Z.of_N n) else None).
  { intros n. destruct (pretty_N_literal n) as (Hd & Hv & a & t & Hn & _). unfold parse_int64. rewrite Hn in *.
    destruct (Ascii.eqb a "-") eqn:Ha; [by apply Ascii.eqb_eq in Ha as ->|]. rewrite Hd, Hv. done. }
  destruct z as [|p|p]; [done| |].
  - change (pretty (Z.pos p)) with (pretty (N.pos p)). rewrite Hpos. by rewrite (proj2 (Z.ltb_lt _ _)) by lia.
  - change (pretty (Z.neg p)) with (String "-" (pretty (N.pos p))).
    destruct (pretty_N_literal (N.pos p)) as (Hd & Hv & a & t & Hn & _). unfold parse_int64. cbn [Ascii.eqb Bool.eqb].
    rewrite Hd, Hv. rewrite Hn. cbn [nonempty andb]. by rewrite (proj2 (Z.leb_le _ _)) by lia.
Qed.

(** An entry that can be read back: the numbers fit, the time has a zone that
    is written. *)
Definition readable (e : Entry) : Prop :=
  int_range (en_Version e) ∧ is_u64 (en_Sequence e) ∧ written_offset (gt_offset (ev_OccurredAt (en_Event e))).

(** Objects nest as deep as their fields. *)
Definition shallow (d : N) (kv : string * option json) : Prop :=
  match kv.2 with None => True | Some v => (json_depth v ≤ d)%N end.

Lemma object_depth d fields : Forall (shallow d) fields → (json_depth (object fields) ≤ N.succ d)%N.
Proof.
  intros H. unfold object. cbn [json_depth]. apply (proj1 (N.succ_le_mono _ _)).
  induction H as [|[k [v|]] fields Hv H IH]; [apply N.le_0_l| |exact IH].
  change (omap (λ '(k, v), pair k <$> v) ((k, Some v) :: fields)) with ((k, v) :: omap (λ '(k, v), pair k <$> v) fields).
  cbn [foldr snd]. unfold shallow in Hv. cbn [snd] in Hv. lia.
Qed.

Lemma shallow_string k x : shallow 1 (k, omit_string x).
Proof. unfold shallow, omit_string. cbn [snd]. destruct (str_eqb x ""); [done|]. simpl. lia. Qed.

Lemma shallow_strings k x : shallow 1 (k, omit_strings x).
Proof.
  unfold shallow, omit_strings. cbn [snd]. destruct x as [|a x]; [done|]. generalize (a :: x). intros l.
  cbn [json_depth]. apply (proj1 (N.succ_le_mono _ 0)). induction l as [|b l IH]; [done|].
  rewrite fmap_cons. cbn [foldr json_depth]. by apply N.max_lub.
Qed.

Lemma gotime_json_string t v : gotime_json t = Ok v → ∃ s, v = JString s.
Proof. unfold gotime_json. case_match; [done|]. case_match; [done|]. intros [= <-]. eauto. Qed.

Lemma entry_depth e t v : gotime_json t = Ok v → (json_depth (object (entry_fields e v)) ≤ max_depth)%N.
Proof.
  intros [s ->]%gotime_json_string. apply N.le_trans with 3%N; [|done]. apply (object_depth 2).
  unfold entry_fields. do 4 (apply Forall_cons_2; [apply N.le_0_l|]). apply Forall_cons_2; [|apply Forall_cons_2; [apply N.le_0_l|constructor]].
  apply (object_depth 1). unfold event_fields.
  repeat (apply Forall_cons_2; [first [apply shallow_string|apply shallow_strings|apply N.le_0_l]|]). constructor.
Qed.

Lemma set_event_field e occurred r : gotime_json (ev_OccurredAt e) = Ok occurred → written_offset (gt_offset (ev_OccurredAt e)) →
  en_Event r = zero_Event →
  sf_set (on_field "event" en_Event (λ x r, set_entry_Event r x) (decode_struct event_struct))
    (embed (object (event_fields e occurred))) r = (set_entry_Event r (coerce_event e), None).
Proof. intros Ht Ho Hr. cbn [sf_set on_field]. by rewrite Hr, decode_event_struct. Qed.

Lemma decode_marshal_entry e s : marshal_entry e = Ok s → readable e → decode_entry s = Ok (coerce_entry e).
Proof.
  unfold marshal_entry. intros Hm (Hv & Hs & Ho). destruct (gotime_json _) as [occurred|] eqn:Ht; [|done].
  change (Ok (encode (object (entry_fields e occurred))) = Ok s) in Hm.
  assert (s = encode (object (entry_fields e occurred))) as -> by congruence. clear Hm.
  unfold decode_entry, Unmarshal. rewrite parse_encode by (by eapply entry_depth). rewrite embed_object.
  assert (decode_members entry_struct (written (entry_fields e occurred)) zero_Entry None = (coerce_entry e, None)) as Hd.
  { unfold entry_fields.
    eval_setters. erewrite decode_written; [|reflexivity|reflexivity|].
    2:{ cbn. unfold decode_int, decode_number. rewrite parse_int64_pretty by done. reflexivity. }
    next_field.
    eval_setters. erewrite decode_written; [|reflexivity|reflexivity|].
    2:{ cbn. unfold decode_uint64, decode_number. rewrite parse_uint64_pretty by done. reflexivity. }
    next_field.
    eval_setters. erewrite decode_written; [|reflexivity|reflexivity|].
    2:{ match goal with |- sf_set _ _ ?s = _ => exact (set_event_field _ _ s Ht Ho eq_refl) end. }
    next_field. reflexivity. }
  cbn [decode_struct]. by rewrite Hd.
Qed.

(** ** Anchors *)

Definition coerce_anchor (a : Anchor) : Anchor := {|
  an_Version := an_Version a; an_JournalID := coerce (an_JournalID a); an_Sequence := an_Sequence a;
  an_HeadHash := coerce (an_HeadHash a); an_KeyID := coerce (an_KeyID a); an_UpdatedAt := an_UpdatedAt a;
  an_Signature := coerce (an_Signature a) |}.

Lemma decode_marshal_anchor a s r : marshal_anchor a = Ok s → int_range (an_Version a) → is_u64 (an_Sequence a) →
  written_offset (gt_offset (an_UpdatedAt a)) → skip_space r = "" → decode_anchor (s +:+ r) = Ok (coerce_anchor a).
Proof.
  unfold marshal_anchor. intros Hm Hv Hs Ho Hr. destruct (gotime_json _) as [updated|] eqn:Ht; [|done].
  change (Ok (encode (object (anchor_fields a updated))) = Ok s) in Hm.
  assert (s = encode (object (anchor_fields a updated))) as -> by congruence. clear Hm.
  unfold decode_anchor, Unmarshal. rewrite parse_encode_space; [|by destruct (gotime_json_string _ _ Ht) as [t ->]|done].
  rewrite embed_object.
  assert (decode_members anchor_struct (written (anchor_fields a updated)) zero_Anchor None = (coerce_anchor a, None)) as Hd.
  { unfold anchor_fields. eval_setters. erewrite decode_written; [|reflexivity|reflexivity|].
    2:{ cbn. unfold decode_int, decode_number. rewrite parse_int64_pretty by done. reflexivity. }
    next_field. eval_setters. erewrite decode_written; [|reflexivity|reflexivity|].
    2:{ cbn. unfold decode_uint64, decode_number. rewrite parse_uint64_pretty by done. reflexivity. }
    next_field. next_field. eval_setters.
    erewrite decode_written; [|reflexivity|reflexivity|cbn; rewrite (decode_gotime _ _ _ Ht Ho); reflexivity].
    next_field. reflexivity. }
  cbn [decode_struct]. by rewrite Hd.
Qed.

(** ** What is read is well formed *)

Lemma decode_members_inv {S} (fs : list (struct_field S)) (P : S → Prop) :
  (∀ f v s, f ∈ fs → utf8_value v = true → P s → P (sf_set f v s).1) →
  ∀ members s err, forallb (λ kv, utf8_valid kv.1 && utf8_value kv.2) members = true → P s → P (decode_members fs members s err).1.
Proof.
  intros Hf members. induction members as [|[k v] members IH]; intros s err Hm Hs; [done|]. cbn [forallb fst snd] in Hm.
  apply andb_prop in Hm as [[Hk Hv]%andb_prop Hm]. cbn [decode_members].
  assert (Hin : ∀ f, find_field fs k = Some f → f ∈ fs).
  { intros f. unfold find_field. destruct (list_find _ fs) as [[i g]|] eqn:Hl.
    - intros [= <-]. apply list_find_Some in Hl as (Hl & _). by eapply list_elem_of_lookup_2.
    - clear Hl. destruct (list_find _ fs) as [[i g]|] eqn:Hl; [|done]. intros [= <-].
      apply list_find_Some in Hl as (Hl & _). by eapply list_elem_of_lookup_2. }
  destruct (find_field fs k) as [f|]; [|by apply IH]. pose proof (Hf f v s (Hin f eq_refl) Hv Hs) as Ht.
  destruct (sf_set f v s) as [t err']. by apply IH.
Qed.

Lemma decode_string_utf8 v s : utf8_value v = true → utf8_valid s = true → utf8_valid (decode_string v s).1 = true.
Proof. by destruct v. Qed.

Lemma decode_elements_utf8 vs : forallb utf8_value vs = true → ∀ old, forallb utf8_valid old = true →
  forallb utf8_valid (decode_elements decode_string "" vs old).1 = true.
Proof.
  induction vs as [|v vs IH]; [done|]. cbn [forallb]. intros [Hv Hvs]%andb_prop old Ho.
  cbn [decode_elements]. assert (utf8_valid (default "" (head old)) = true) as Hh.
  { destruct old as [|a old]; [done|]. by apply andb_prop in Ho as [? _]. }
  pose proof (decode_string_utf8 v _ Hv Hh) as Hs. destruct (decode_string v _) as [a err].
  assert (forallb utf8_valid (tail old) = true) as Ht by (destruct old; [done|by apply andb_prop in Ho as [_ ?]]).
  specialize (IH Hvs _ Ht). destruct (decode_elements _ _ vs _) as [t err']. cbn in *. by rewrite Hs, IH.
Qed.

Definition event_strings (e : Event) : list string :=
  [ev_Type e; ev_ActionID e; ev_Target e; ev_Decision e; ev_EvidenceDigest e; ev_EvidencePacketDigest e; ev_PlanDigest e;
   ev_AttemptID e; ev_DestinationID e; ev_AccountID e; ev_ObservationHandle e; ev_AttemptState e; ev_OutcomeVerdict e;
   ev_PayloadDigest e] ++ ev_ReasonCodes e.

Definition sound_event (e : Event) : Prop :=
  forallb utf8_valid (event_strings e) = true ∧ written_offset (gt_offset (ev_OccurredAt e)).

Definition entry_strings (e : Entry) : list string := [en_JournalID e; en_PrevHash e; en_EntryHash e].

(** An entry that decoding can give. *)
Definition sound_entry (e : Entry) : Prop :=
  int_range (en_Version e) ∧ is_u64 (en_Sequence e) ∧ forallb utf8_valid (entry_strings e) = true ∧ sound_event (en_Event e).

Lemma coerce_sound_event e : forallb utf8_valid (event_strings e) = true → coerce_event e = e.
Proof.
  destruct e. unfold event_strings, coerce_event. cbn. intros H.
  repeat match goal with H : _ && _ = true |- _ => apply andb_prop in H as [? H] end.
  rewrite !coerce_utf8 by done. f_equal. 
  induction ev_ReasonCodes0 as [|a l IH]; [done|]. apply andb_prop in H as [Ha H]. cbn. by rewrite coerce_utf8, IH.
Qed.

Lemma coerce_sound e : sound_entry e → coerce_entry e = e.
Proof.
  intros (_ & _ & H & Hev & _). unfold coerce_entry. rewrite (coerce_sound_event _ Hev). clear Hev.
  destruct e. cbn in *. repeat match goal with H : _ && _ = true |- _ => apply andb_prop in H as [? H] end.
  by rewrite !coerce_utf8.
Qed.

Lemma sound_readable e : sound_entry e → readable e.
Proof. by intros (? & ? & _ & _ & ?). Qed.
(** One goal per field of a structure. *)
Ltac each_field H := repeat (apply elem_of_cons in H as [->|H]); [..|by apply not_elem_of_nil in H].

(** A string field keeps an event of valid strings so. *)
Lemma decode_event_sound f v e : f ∈ event_struct → utf8_value v = true → sound_event e → sound_event (sf_set f v e).1.
Proof.
  intros Hf Hv [Hs Ho]. assert (Hstr : ∀ s, utf8_valid s = true → utf8_valid (decode_string v s).1 = true)
    by (intros; by apply decode_string_utf8).
  assert (Hslice : ∀ l, forallb utf8_valid l = true → forallb utf8_valid (decode_slice decode_string "" v l).1 = true).
  { intros l Hl. unfold decode_slice. destruct v; try done. by apply decode_elements_utf8. }
  destruct e. unfold sound_event, event_strings in *. cbn in Hs, Ho.
  repeat match goal with H : _ && _ = true |- _ => apply andb_prop in H as [? H] end.
  each_field Hf; cbn [on_field sf_set ev_Type ev_ActionID ev_Target ev_Decision ev_ReasonCodes ev_EvidenceDigest
    ev_EvidencePacketDigest ev_PlanDigest ev_AttemptID ev_DestinationID ev_AccountID ev_ObservationHandle ev_AttemptState
    ev_OutcomeVerdict ev_PayloadDigest ev_OccurredAt];
  match goal with
  | |- context [decode_string v ?s] =>
      specialize (Hstr s); destruct (decode_string v s) as [t err]; cbn in Hstr |- *; rewrite Hstr by done;
      split; [repeat (apply andb_true_intro; split; [done|])|done]; done
  | |- context [decode_slice decode_string "" v ?l] =>
      specialize (Hslice l); destruct (decode_slice decode_string "" v l) as [t err]; cbn in Hslice |- *; rewrite Hslice by done;
      split; [repeat (apply andb_true_intro; split; [done|])|done]; done
  | |- context [decode_time v ?t] =>
      destruct (decode_time v t) as [u err] eqn:Hu; apply decode_time_written in Hu; [|done]; cbn;
      split; [repeat (apply andb_true_intro; split; [done|])|done]; done
  end.
Qed.

Lemma decode_number_bounds parse (P : Z → Prop) v z : (∀ s n, parse s = Some n → P n) → P z → P (decode_number parse v z).1.
Proof. intros Hp Hz. destruct v; try done. unfold decode_number. destruct (parse _) eqn:Hn; [by eapply Hp|done]. Qed.

Lemma parse_uint64_bounds s n : parse_uint64 s = Some n → is_u64 n.
Proof.
  unfold parse_uint64, is_u64. case_match; [|done]. cbv zeta. case_match eqn:Hn; [|done]. intros [= <-].
  apply Z.ltb_lt in Hn. lia.
Qed.

Lemma parse_int64_bounds s n : parse_int64 s = Some n → int_range n.
Proof.
  unfold parse_int64, int_range, MinInt64, MaxInt64. destruct (match s with "" => _ | _ => _ end) as [negative t].
  case_match; [|done]. cbv zeta. destruct negative; case_match eqn:Hn; try done; intros [= <-].
  - apply Z.leb_le in Hn. lia.
  - apply Z.ltb_lt in Hn. lia.
Qed.

Lemma decode_struct_sound v e : utf8_value v = true → sound_event e → sound_event (decode_struct event_struct v e).1.
Proof.
  intros Hv He. destruct v as [| | | | |members]; try done. cbn [decode_struct].
  apply decode_members_inv; [|done..]. intros f v. apply decode_event_sound.
Qed.

Lemma decode_entry_sound s e : decode_entry s = Ok e → sound_entry e.
Proof.
  unfold decode_entry, Unmarshal. destruct (parse_json s) as [v|] eqn:Hp; [|done]. apply parse_json_utf8 in Hp.
  assert (sound_entry (decode_struct entry_struct v zero_Entry).1) as H.
  { assert (H0 : sound_entry zero_Entry) by (unfold sound_entry, int_range, MinInt64, MaxInt64, is_u64; cbn; split_and!; try done; lia).
    destruct v as [| | | | |members]; try done. cbn [decode_struct]. apply decode_members_inv; [|done..].
    clear s e Hp H0 members. intros f v r Hf Hv (Hver & Hseq & Hstr & Hev).
    pose proof (decode_number_bounds parse_int64 int_range v (en_Version r) parse_int64_bounds Hver) as Hver'.
    pose proof (decode_number_bounds parse_uint64 is_u64 v (en_Sequence r) parse_uint64_bounds Hseq) as Hseq'.
    pose proof (decode_struct_sound v (en_Event r) Hv Hev) as Hev'.
    assert (Hstr' : ∀ s, utf8_valid s = true → utf8_valid (decode_string v s).1 = true) by (intros; by apply decode_string_utf8).
    destruct r as [ver id seq prev ev hash]. unfold entry_strings in Hstr. cbn in Hver, Hseq, Hstr, Hev, Hver', Hseq', Hev'.
    repeat match goal with H : _ && _ = true |- _ => apply andb_prop in H as [? H] end.
    each_field Hf; cbn [on_field sf_set en_Version en_JournalID en_Sequence en_PrevHash en_Event en_EntryHash];
      [unfold decode_int; destruct (decode_number _ v ver) | specialize (Hstr' id); destruct (decode_string v id)
      |unfold decode_uint64; destruct (decode_number _ v seq) | specialize (Hstr' prev); destruct (decode_string v prev)
      |destruct (decode_struct _ v ev) | specialize (Hstr' hash); destruct (decode_string v hash)];
      cbn in *; split_and!; try done; repeat (apply andb_true_intro; split; try done); auto. }
  destruct (decode_struct _ v _) as [r [err|]]; [done|]. by intros [= <-].
Qed.

(** * Chains of entries *)

(** An entry that links to the hash [prev] as number [seq], a uint64. *)
Definition links (id : string) (seq : Z) (prev : string) (e : Entry) : Prop :=
  en_Version e = formatVersion ∧ en_JournalID e = id ∧ en_Sequence e = wrap_u64 seq ∧ en_PrevHash e = prev ∧
  hashEntry e = Ok (en_EntryHash e).

Fixpoint chain (id : string) (seq : Z) (prev : string) (es : list Entry) : Prop :=
  match es with
  | [] => True
  | e :: es => links id seq prev e ∧ chain id (seq + 1) (en_EntryHash e) es
  end.

(** The hash the next entry links to. *)
Definition head_hash (prev : string) (es : list Entry) : string := default prev (en_EntryHash <$> last es).

Lemma head_hash_cons prev e es : head_hash prev (e :: es) = head_hash (en_EntryHash e) es.
Proof. unfold head_hash. rewrite last_cons. by destruct (last es). Qed.

Lemma head_hash_app prev es fs : head_hash prev (es ++ fs) = head_hash (head_hash prev es) fs.
Proof. unfold head_hash. rewrite last_app. by destruct (last fs). Qed.

Lemma chain_app id seq prev es fs :
  chain id seq prev (es ++ fs) ↔ chain id seq prev es ∧ chain id (seq + Z.of_nat (length es)) (head_hash prev es) fs.
Proof.
  revert seq prev. induction es as [|e es IH]; intros seq prev; simpl.
  - rewrite Z.add_0_r. unfold head_hash. simpl. tauto.
  - rewrite IH, head_hash_cons. replace (seq + 1 + Z.of_nat (length es)) with (seq + Z.of_nat (S (length es))) by lia. tauto.
Qed.

Lemma hash_payload_inj e f p : hash_payload e = Ok p → hash_payload f = Ok p → readable e → readable f →
  coerce_entry (with_EntryHash "" e) = coerce_entry (with_EntryHash "" f).
Proof.
  unfold hash_payload. intros He Hf Hre Hrf. apply decode_marshal_entry in He; [|done].
  apply decode_marshal_entry in Hf; [|done]. congruence.
Qed.

(** Two entries whose payloads have one SHA-256. *)
Definition entry_collision (e f : Entry) : Prop :=
  ∃ p q, hash_payload e = Ok p ∧ hash_payload f = Ok q ∧ sha256_collision p q.

Lemma hashEntry_payload e h : hashEntry e = Ok h → ∃ p, hash_payload e = Ok p ∧ h = sha256_digest p.
Proof. unfold hashEntry. destruct (hash_payload e) as [p|]; [|done]. intros [= <-]. eauto. Qed.

(** A hash determines its entry. *)
Lemma links_determined id seq prev id' seq' prev' e f : links id seq prev e → links id' seq' prev' f → readable e → readable f →
  en_EntryHash e = en_EntryHash f → coerce_entry e = coerce_entry f ∨ entry_collision e f.
Proof.
  intros (_ & _ & _ & _ & He) (_ & _ & _ & _ & Hf) Hre Hrf Heq.
  apply hashEntry_payload in He as (p & He & Hp), Hf as (q & Hf & Hq).
  destruct (sha256_digest_eq p q) as [<-|]; [congruence| |right; by exists p, q].
  left. pose proof (hash_payload_inj _ _ _ He Hf Hre Hrf) as H. destruct e, f. cbn in *. unfold coerce_entry in *. cbn in *. congruence.
Qed.

Lemma coerce_PrevHash e f : coerce_entry e = coerce_entry f → coerce (en_PrevHash e) = coerce (en_PrevHash f).
Proof. destruct e, f. unfold coerce_entry. cbn. congruence. Qed.

Lemma hex_plain s : all_chars plain (hex_encode s) = true.
Proof.
  induction s as [|a s IH]; [done|]. cbn [hex_encode all_chars]. rewrite IH, andb_true_r.
  assert (∀ n, (n < 16)%N → plain (hex_digit n) = true) as H.
  { intros n Hn. assert (n ∈ List.map N.of_nat (List.seq 0 16)) as Hin.
    { apply list_elem_of_In, in_map_iff. exists (N.to_nat n). split; [lia|]. apply in_seq. lia. }
    revert Hin. cbn. rewrite !elem_of_cons, elem_of_nil. naive_solver. }
  pose proof (byte_lt_256 a). rewrite !H; [done|apply N.mod_lt; lia|apply N.Div0.div_lt_upper_bound; lia].
Qed.

Lemma ascii_hex t : ascii_only (hex_encode t) = true.
Proof.
  induction t as [|a t IH]; [done|]. cbn [hex_encode]. unfold ascii_only in *. cbn [all_chars]. rewrite IH.
  assert (Hh : ∀ n, (n < 16)%N → (N_of_ascii (hex_digit n) <? 0x80)%N = true).
  { intros n Hn. unfold hex_digit. rewrite N_ascii_embedding by (destruct (N.ltb_spec n 10); lia).
    apply N.ltb_lt. destruct (N.ltb_spec n 10); lia. }
  rewrite !Hh; [done|apply N.mod_lt; lia|].
  apply N.Div0.div_lt_upper_bound. pose proof (N_ascii_bounded a). lia.
Qed.

Lemma utf8_digest_text t : utf8_valid ("sha256:" +:+ hex_encode t) = true.
Proof. apply ascii_utf8. by rewrite ascii_only_app, ascii_hex. Qed.

Lemma digest_utf8 p : utf8_valid (sha256_digest p) = true.
Proof. apply utf8_digest_text. Qed.

Lemma digest_plain p : coerce (sha256_digest p) = sha256_digest p.
Proof.
  apply plain_text. unfold sha256_digest. rewrite plain_app, hex_plain. done.
Qed.

Lemma chain_hash id seq prev es : chain id seq prev es → es ≠ [] → ∃ p, head_hash prev es = sha256_digest p.
Proof.
  destruct es as [|e es _] using rev_ind; [done|]. rewrite chain_app. intros [_ [(_ & _ & _ & _ & He) _]] _.
  rewrite head_hash_app. unfold head_hash. cbn. apply hashEntry_payload in He as (p & _ & ->). eauto.
Qed.

Lemma chain_hash_nonempty id seq es : chain id seq "" es → head_hash "" es = "" → es = [].
Proof.
  intros Hc Hh. destruct (decide (es = [])) as [|Hne]; [done|]. destruct (chain_hash _ _ _ _ Hc Hne) as [p Hp].
  rewrite Hp in Hh. by pose proof (proj1 (str_eqb_neq _ _) (digest_nonempty p)).
Qed.

Lemma chain_hash_plain id seq es : chain id seq "" es → coerce (head_hash "" es) = head_hash "" es.
Proof.
  intros Hc. destruct (decide (es = [])) as [->|Hne]; [done|]. destruct (chain_hash _ _ _ _ Hc Hne) as [p ->].
  apply digest_plain.
Qed.

(** The last hash of a chain determines its entries, their number included. *)
Lemma chain_determined id id' seq seq' es : ∀ fs,
  chain id seq "" es → chain id' seq' "" fs → Forall readable es → Forall readable fs → head_hash "" es = head_hash "" fs →
  coerce_entry <$> es = coerce_entry <$> fs ∨ ∃ e f, e ∈ es ∧ f ∈ fs ∧ entry_collision e f.
Proof.
  induction es as [|e es IH] using rev_ind; intros fs.
  { intros _ Hfs _ _ Hh. apply eq_sym, (chain_hash_nonempty _ _ _ Hfs) in Hh as ->. by left. }
  intros Hes0. destruct fs as [|f fs _] using rev_ind.
  { intros _ _ _ Hh. apply (chain_hash_nonempty _ _ _ Hes0) in Hh. by destruct es. }
  revert Hes0. rewrite !chain_app, !Forall_app, !head_hash_app. unfold head_hash at 3 4.
  cbn [last fmap option_fmap option_map default].
  intros [Hes [He _]] [Hfs [Hf _]] [Res [Re _]%Forall_cons] [Rfs [Rf _]%Forall_cons] Hh.
  destruct (links_determined _ _ _ _ _ _ _ _ He Hf Re Rf Hh) as [Hef|Hc].
  2:{ right. exists e, f. rewrite !elem_of_app, !list_elem_of_singleton. auto. }
  assert (head_hash "" es = head_hash "" fs) as Hp.
  { apply coerce_PrevHash in Hef. destruct He as (_ & _ & _ & Hpe & _), Hf as (_ & _ & _ & Hpf & _).
    rewrite Hpe, Hpf in Hef. by erewrite !chain_hash_plain in Hef. }
  destruct (IH fs Hes Hfs Res Rfs Hp) as [Heq|(a & b & Ha & Hb & Hc)].
  - left. by rewrite !fmap_app, Heq, !fmap_cons, Hef.
  - right. exists a, b. rewrite !elem_of_app. auto.
Qed.

Lemma coerce_sound_list es : Forall sound_entry es → coerce_entry <$> es = es.
Proof. induction 1 as [|e es He Hes IH]; [done|]. by rewrite fmap_cons, coerce_sound, IH. Qed.
