(* ===== verification/FileSystem.v ===== *)
(** * Files, lines and effects

    What [internal/journal] and the workload launcher of [internal/kernelfabric]
    use of the Go library around them: [context],
    [time.Now], [crypto/rand], [os], [path/filepath] and [bufio].  Calls that
    reach outside are operations of a world, which other processes change
    between two calls; every call to the file system is recorded, with its
    result, in a trace.  [filepath.Dir] and the line scanner are defined here,
    and an in-memory file system implements the interface. *)

From stdpp Require Import stringmap.
From S2P Require Import Prelude Crypto Format Json KernelAbi KernelFabric.
Local Open Scope Z_scope.

(** * Interfaces *)

(** An open file: its descriptor and the name it was opened with. *)
Record file : Type := { file_fd : Z; file_Name : string }.

Inductive open_flags : Type :=
  | CreateExclusive (** [O_CREATE|O_EXCL|O_WRONLY] *)
  | AppendOnly (** [O_WRONLY|O_APPEND] *)
  | ReadOnly
  | LockFile. (** [O_RDWR|O_CREATE] *)

(** The context, the clock and the random source. *)
Class GoWorld (X : Type) : Type := {
  ctx_Err : X → option error * X;
  time_Now : X → time * X;
  rand_Read : nat → X → result string * X }.

(** [os] and the methods of its files.  [file_Read] reads up to the end, and
    gives the error that stopped it, if not the end. *)
Class FileSystem (X : Type) : Type := {
  os_IsNotExist : error → bool;
  os_Stat : string → X → option error * X;
  os_MkdirAll : string → X → option error * X;
  os_OpenFile : string → open_flags → X → result file * X;
  os_CreateTemp : string → string → X → result file * X; (** in a directory, with a pattern *)
  os_ReadFile : string → X → result string * X;
  os_Rename : string → string → X → option error * X;
  os_Remove : string → X → option error * X;
  file_Write : file → string → X → option error * X;
  file_Sync : file → X → option error * X;
  file_Chmod : file → X → option error * X;
  file_Close : file → X → option error * X;
  file_Read : file → X → (string * option error) * X }.

(** A process to start: its executable, arguments, directory and environment,
    the descriptor of its cgroup and the host user of its user namespace. *)
Record command : Type := {
  cm_Path : string; cm_Args : list string; cm_Dir : string; cm_Env : list string; cm_CgroupFD : Z; cm_Isolation : option (Z * Z) }.

(** What the workload launcher does besides. *)
Inductive host_event : Type :=
  | EvChmodPath (path : string) (r : option error)
  | EvLock (f : file) (r : option error)
  | EvUnlock (f : file) (r : option error)
  | EvOpenDirectory (path : string) (r : result Z)
  | EvCloseDirectory (fd : Z) (r : option error)
  | EvStart (c : command) (r : result Z)
  | EvKill (pid : Z) (r : option error)
  | EvWait (pid : Z) (r : option Z * option error)
  | EvStore (c : StoreCall). (** a call to the kernel's enforcement store *)

(** What a run did, in order. *)
Inductive io_event : Type :=
  | EvStat (path : string) (r : option error)
  | EvMkdirAll (path : string) (r : option error)
  | EvOpenFile (path : string) (flags : open_flags) (r : result file)
  | EvCreateTemp (dir : string) (r : result file)
  | EvReadFile (path : string) (r : result string)
  | EvRename (from to : string) (r : option error)
  | EvRemove (path : string) (r : option error)
  | EvWrite (f : file) (data : string) (r : option error)
  | EvSync (f : file) (r : option error)
  | EvChmod (f : file) (r : option error)
  | EvClose (f : file) (r : option error)
  | EvRead (f : file) (r : string * option error)
  | EvSign (payload : string) (r : result string)
  | EvVerify (keyID payload signature : string) (r : option error)
  | EvLoad (journalID : string) (r : option error)
  | EvAdvance (journalID : string) (r : option error)
  | EvHost (e : host_event).

(** A call that leaves no trace. *)
Definition silent {W E A} (f : W → A * W) : M W E A := λ w, let '(a, w') := f w in (a, w', []).

Lemma silent_inv {W E A} (f : W → A * W) w a w' (t : list E) : silent f w = (a, w', t) → f w = (a, w') ∧ t = [].
Proof. unfold silent. destruct (f w). by intros [= <- <- <-]. Qed.

(** [if err := m; err != nil { return ..., wrap(err) }] *)
Definition check {W E A} (m : M W E (option error)) (wrap : error → error) (k : M W E (result A)) : M W E (result A) :=
  err ← m; match err with Some err => mret (Error (wrap err)) | None => k end.

(** [v, err := m; if err != nil { return ..., wrap(err) }] *)
Definition try {W E A B} (m : M W E (result A)) (wrap : error → error) (k : A → M W E (result B)) : M W E (result B) :=
  r ← m; match r with Error err => mret (Error (wrap err)) | Ok a => k a end.

Definition unwrapped (err : error) : error := err.

Definition Now {X E} `{!GoWorld X} : M X E time := silent time_Now.

Section Effects.
Context {X : Type} `{!GoWorld X, !FileSystem X}.

Abbreviation IO A := (M X io_event A).

Definition ctxErr : IO (option error) := silent ctx_Err.
Definition Stat (path : string) : IO (option error) := call (EvStat path) (os_Stat path).
Definition MkdirAll (path : string) : IO (option error) := call (EvMkdirAll path) (os_MkdirAll path).
Definition OpenFile (path : string) (flags : open_flags) : IO (result file) :=
  call (EvOpenFile path flags) (os_OpenFile path flags).
Definition CreateTemp (dir pattern : string) : IO (result file) := call (EvCreateTemp dir) (os_CreateTemp dir pattern).
Definition ReadFile (path : string) : IO (result string) := call (EvReadFile path) (os_ReadFile path).
Definition Rename (from to : string) : IO (option error) := call (EvRename from to) (os_Rename from to).
Definition Remove (path : string) : IO (option error) := call (EvRemove path) (os_Remove path).
Definition Write (f : file) (data : string) : IO (option error) := call (EvWrite f data) (file_Write f data).
Definition Sync (f : file) : IO (option error) := call (EvSync f) (file_Sync f).
Definition Chmod (f : file) : IO (option error) := call (EvChmod f) (file_Chmod f).
Definition Close (f : file) : IO (option error) := call (EvClose f) (file_Close f).
Definition Read (f : file) : IO (string * option error) := call (EvRead f) (file_Read f).

(** The same, where the file is closed before the error returns. *)
Definition check_close {A} (f : file) (m : IO (option error)) (wrap : error → error) (k : IO (result A)) : IO (result A) :=
  err ← m; match err with Some err => _ ← Close f; mret (Error (wrap err)) | None => k end.

End Effects.
Abbreviation IO X A := (M X io_event A).

(** * What a run does to the world *)

(** The runs of a checked call: it failed and its error was returned, or the rest ran. *)
Lemma check_inv {W E A} (m : M W E (option error)) wrap (k : M W E (result A)) w r w' t : check m wrap k w = (r, w', t) →
  (∃ err, m w = (Some err, w', t) ∧ r = Error (wrap err)) ∨
  (∃ w1 t1 t2, m w = (None, w1, t1) ∧ k w1 = (r, w', t2) ∧ t = t1 ++ t2).
Proof.
  intros ([err|] & w1 & t1 & t2 & Hm & Hk & ->)%bind_inv; [left|right; by exists w1, t1, t2].
  apply ret_inv in Hk as (-> & -> & ->). exists err. by rewrite app_nil_r.
Qed.

Lemma try_inv {W E A B} (m : M W E (result A)) wrap (k : A → M W E (result B)) w r w' t : try m wrap k w = (r, w', t) →
  (∃ err, m w = (Error err, w', t) ∧ r = Error (wrap err)) ∨
  (∃ a w1 t1 t2, m w = (Ok a, w1, t1) ∧ k a w1 = (r, w', t2) ∧ t = t1 ++ t2).
Proof.
  intros ([a|err] & w1 & t1 & t2 & Hm & Hk & ->)%bind_inv; [right; by exists a, w1, t1, t2|left].
  apply ret_inv in Hk as (-> & -> & ->). exists err. by rewrite app_nil_r.
Qed.

Lemma check_close_inv {X} `{!FileSystem X} {A} f (m : IO X (option error)) wrap (k : IO X (result A)) x r x' t :
  check_close f m wrap k x = (r, x', t) →
  (∃ err x1 t1 c t2, m x = (Some err, x1, t1) ∧ Close f x1 = (c, x', t2) ∧ r = Error (wrap err) ∧ t = t1 ++ t2) ∨
  (∃ x1 t1 t2, m x = (None, x1, t1) ∧ k x1 = (r, x', t2) ∧ t = t1 ++ t2).
Proof.
  intros ([err|] & x1 & t1 & t2 & Hm & Hk & ->)%bind_inv; [left|right; by exists x1, t1, t2].
  apply bind_inv in Hk as (c & x2 & t3 & t4 & Hc & (-> & -> & ->)%ret_inv & ->). exists err, x1, t1, c, t3. by rewrite app_nil_r.
Qed.

(** Every run of [m] leads to a world that [R] relates to the first. *)
Definition respects {W E A} (R : W → W → Prop) (m : M W E A) : Prop := ∀ w a w' t, m w = (a, w', t) → R w w'.

Section Respects.
Context {W E : Type} (R : W → W → Prop) `{!PreOrder R}.

Lemma respects_ret {A} (a : A) : respects R (mret a : M W E A).
Proof. intros w b w' t (-> & -> & ->)%ret_inv. reflexivity. Qed.

Lemma respects_bind {A B} (m : M W E A) (k : A → M W E B) : respects R m → (∀ a, respects R (k a)) → respects R (m ≫= k).
Proof. intros Hm Hk w b w' t (a & w1 & t1 & t2 & H1 & H2 & ->)%bind_inv. etrans; [by eapply Hm|by eapply Hk]. Qed.

Lemma respects_call {A} (mk : A → E) f : (∀ w a w', f w = (a, w') → R w w') → respects R (call mk f).
Proof. intros Hf w a w' t [Hc ->]%call_inv. by eapply Hf. Qed.

Lemma respects_silent {A} (f : W → A * W) : (∀ w a w', f w = (a, w') → R w w') → respects R (silent f : M W E A).
Proof. intros Hf w a w' t [Hc ->]%silent_inv. by eapply Hf. Qed.

Lemma respects_check {A} (m : M W E (option error)) wrap (k : M W E (result A)) : respects R m → respects R k → respects R (check m wrap k).
Proof. intros Hm Hk. apply respects_bind; [done|]. intros [err|]; [apply respects_ret|done]. Qed.

Lemma respects_try {A B} (m : M W E (result A)) wrap (k : A → M W E (result B)) :
  respects R m → (∀ a, respects R (k a)) → respects R (try m wrap k).
Proof. intros Hm Hk. apply respects_bind; [done|]. intros [a|err]; [done|apply respects_ret]. Qed.
End Respects.

Lemma respects_check_close {X} `{!FileSystem X} (R : X → X → Prop) `{!PreOrder R} {A} f (m : IO X (option error)) wrap (k : IO X (result A)) :
  respects R (Close f) → respects R m → respects R k → respects R (check_close f m wrap k).
Proof.
  intros Hc Hm Hk. apply respects_bind; [done..|]. intros [err|]; [|done]. apply respects_bind; [done..|]. intros _.
  by apply respects_ret.
Qed.

(** * Paths *)

(** The parts of a path between its separators. *)
Fixpoint path_parts (s : string) : list string :=
  match s with
  | "" => [""]
  | String a s =>
      if Ascii.eqb a "/" then "" :: path_parts s
      else match path_parts s with
           | part :: parts => String a part :: parts
           | [] => [String a ""]
           end
  end.

Definition rooted (s : string) : bool := match s with String a _ => Ascii.eqb a "/" | "" => false end.

(** [Clean]: the parts kept, innermost first. *)
Fixpoint clean_parts (root : bool) (parts kept : list string) : list string :=
  match parts with
  | [] => kept
  | part :: parts =>
      if str_eqb part "" || str_eqb part "." then clean_parts root parts kept
      else if str_eqb part ".." then
        match kept with
        | last :: rest => if str_eqb last ".." then clean_parts root parts (".." :: kept) else clean_parts root parts rest
        | [] => clean_parts root parts (if root then [] else [".."])
        end
      else clean_parts root parts (part :: kept)
  end.

Definition filepath_Clean (path : string) : string :=
  let root := rooted path in
  let cleaned := (if root then "/" else "") +:+ join "/" (reverse (clean_parts root (path_parts path) [])) in
  if str_eqb cleaned "" then "." else cleaned.

(** [filepath.Dir]: what stands before the last separator, cleaned. *)
Definition filepath_Dir (path : string) : string :=
  match reverse (path_parts path) with
  | _ :: (_ :: _) as dirs => filepath_Clean (join "/" (reverse dirs) +:+ "/")
  | _ => "."
  end.

Example filepath_Dir_examples :
  filepath_Dir <$> ["/var/lib/aegis/journal.jsonl"; "journal.jsonl"; "/a"; "a//b/../c/./d"; "../x/y"; "/../x"; "a/"; ""] =
  ["/var/lib/aegis"; "."; "/"; "a/c"; "../x"; "/"; "a"; "."].
Proof. vm_compute. reflexivity. Qed.

(** * Lines *)

Definition newline : ascii := "010".
Definition carriage_return : ascii := "013".

(** The text up to each newline, and what is left after the last one. *)
Fixpoint split_lines (s : string) : list string * string :=
  match s with
  | "" => ([], "")
  | String a s =>
      let '(lines, rest) := split_lines s in
      if Ascii.eqb a newline then ("" :: lines, rest)
      else match lines with
           | line :: lines => (String a line :: lines, rest)
           | [] => ([], String a rest)
           end
  end.

Definition tokens (s : string) : list string :=
  let '(lines, rest) := split_lines s in if str_eqb rest "" then lines else lines ++ [rest].

(** [dropCR] *)
Fixpoint drop_cr (s : string) : string :=
  match s with
  | "" => ""
  | String a "" => if Ascii.eqb a carriage_return then "" else s
  | String a s => String a (drop_cr s)
  end.

Definition ErrTooLong : error := ErrNew "bufio.Scanner: token too long".

(** [bufio.ScanLines] with a buffer of at most [max] bytes: the lines before the
    first that does not fit, and whether there was one. *)
Fixpoint scan_tokens (max : N) (l : list string) : list string * option error :=
  match l with
  | [] => ([], None)
  | line :: l =>
      if (max <=? N.of_nat (String.length line))%N then ([], Some ErrTooLong)
      else let '(lines, err) := scan_tokens max l in (drop_cr line :: lines, err)
  end.

(** The lines of what was read, and the error that ended the scan. *)
Definition scan_within (max : N) (read : string * option error) : list string * option error :=
  let '(lines, err) := scan_tokens max (tokens read.1) in
  (lines, match err with Some _ => err | None => read.2 end).

(** The buffer of the journal. *)
Definition max_token : N := 4194304.
Definition scan : string * option error → list string * option error := scan_within max_token.

Definition nl : string := String newline "".

Example scan_example :
  scan ("a" +:+ nl +:+ nl +:+ "b" +:+ String carriage_return nl +:+ "c", None) = (["a"; ""; "b"; "c"], None).
Proof. vm_compute. reflexivity. Qed.
