(* ===== verification/Journal.v ===== *)
(** * The file journal

    Models [internal/journal/journal.go], [anchored_file.go] and the Ed25519
    half of [security.go]: a journal is a file of hash-chained entries, a signed
    anchor next to it that names its last entry, and a head recorded by an
    external witness.  Every operation is a program over a world that holds the
    files, the clock, the keys and the witness, and that other processes change
    between two calls. *)

From S2P Require Import Prelude Crypto Format Json Base64 Unmarshal GoTime Permit HeadStore JournalEntry FileSystem.
Local Open Scope Z_scope.

(** * Signers *)

(** [crypto/ed25519]. *)
Class Ed25519 : Type := {
  ed25519_Sign : string → string → string;
  ed25519_Verify : string → string → string → bool }.

Definition PrivateKeySize : nat := 64.
Definition PublicKeySize : nat := 32.

(** [PrivateKey.Public]: the second half of the key. *)
Definition ed25519_Public (privateKey : string) : string := String.substring 32 PublicKeySize privateKey.

(** [AnchorSigner] and [AnchorVerifier]. *)
Record AnchorSigner (X : Type) : Type := { KeyID : string; Sign : string → X → result string * X }.
Record AnchorVerifier (X : Type) : Type := { av_Verify : string → string → string → X → option error * X }.
Arguments KeyID {X} _.
Arguments Sign {X} _.
Arguments av_Verify {X} _.

Record Ed25519Signer : Type := { es_keyID : string; es_privateKey : string; es_publicKey : string }.

Definition Ed25519KeyID (publicKey : string) : string :=
  "ed25519:" +:+ hex_encode (String.substring 0 12 (sha256 publicKey)).

Definition NewEd25519Signer (keyID privateKey : string) : result Ed25519Signer :=
  if negb (String.length privateKey =? PrivateKeySize)%nat
  then Error (ErrNew ("invalid Ed25519 private key length: " +:+ pretty (Z.of_nat (String.length privateKey))))
  else
    let publicKey := ed25519_Public privateKey in
    let keyID := if str_eqb keyID "" then Ed25519KeyID publicKey else keyID in
    Ok {| es_keyID := keyID; es_privateKey := privateKey; es_publicKey := publicKey |}.

Abbreviation Ed25519Keyring := (gmap string string).

Definition NewEd25519Keyring : Ed25519Keyring := ∅.

Definition Ed25519Keyring_Add (keyID publicKey : string) (k : Ed25519Keyring) : result Ed25519Keyring :=
  if str_eqb keyID "" then Error (ErrNew "key id is required")
  else if negb (String.length publicKey =? PublicKeySize)%nat
  then Error (ErrNew ("invalid Ed25519 public key length: " +:+ pretty (Z.of_nat (String.length publicKey))))
  else Ok (<[keyID := publicKey]> k).

Section Ed25519.
Context {X : Type} `{!GoWorld X, !Ed25519}.

Definition Ed25519Signer_Sign (s : Ed25519Signer) (payload : string) (x : X) : result string * X :=
  match ctx_Err x with
  | (Some err, x) => (Error err, x)
  | (None, x) => (Ok (ed25519_Sign (es_privateKey s) payload), x)
  end.

Definition Ed25519Keyring_Verify (k : Ed25519Keyring) (keyID payload signature : string) (x : X) : option error * X :=
  match ctx_Err x with
  | (Some err, x) => (Some err, x)
  | (None, x) =>
      match k !! keyID with
      | None => (Some (ErrNew ("unknown journal signing key " +:+ keyID)), x)
      | Some publicKey =>
          if negb (ed25519_Verify publicKey payload signature)
          then (Some (ErrNew "journal anchor signature verification failed"), x)
          else (None, x)
      end
  end.

Definition Ed25519Signer_signer (s : Ed25519Signer) : AnchorSigner X :=
  {| KeyID := es_keyID s; Sign := Ed25519Signer_Sign s |}.
Definition Ed25519Keyring_verifier (k : Ed25519Keyring) : AnchorVerifier X := {| av_Verify := Ed25519Keyring_Verify k |}.
End Ed25519.

Definition encodeSignature (signature : string) : string := base64_encode signature.

Definition decodeSignature (encoded : string) : result string :=
  match base64_decode encoded with
  | Error err => Error (ErrWrap "decode anchor signature" err)
  | Ok signature => Ok signature
  end.

(** * The journal *)

Definition HistoryTrusted : string := "TRUSTED_HISTORY".
Definition HistoryUntrusted : string := "UNTRUSTED_HISTORY".
Definition HistoryUnverified : string := "UNVERIFIED_HISTORY".

Definition ErrJournalIdentityRequired : error :=
  ErrNew "anchored journal requires a trusted identity pin and explicit create or open".
Definition ErrJournalAlreadyExists : error := ErrNew "anchored journal history already exists".
Definition ErrJournalHistoryUnavailable : error := ErrNew "anchored journal history is unavailable or untrusted".

Record Verification : Type := {
  vf_Valid : bool; vf_EntryCount : Z; vf_HeadHash : string; vf_Error : string; vf_HistoricalTrust : string }.

Definition rejected (err : string) : Verification :=
  {| vf_Valid := false; vf_EntryCount := 0; vf_HeadHash := ""; vf_Error := err; vf_HistoricalTrust := "" |}.

Definition rejected_at (count : Z) (head : string) (err : string) : Verification :=
  {| vf_Valid := false; vf_EntryCount := count; vf_HeadHash := head; vf_Error := err; vf_HistoricalTrust := "" |}.

Definition with_HistoricalTrust (trust : string) (v : Verification) : Verification := {|
  vf_Valid := vf_Valid v; vf_EntryCount := vf_EntryCount v; vf_HeadHash := vf_HeadHash v; vf_Error := vf_Error v;
  vf_HistoricalTrust := trust |}.

(** [externalHead] says whether the journal has a witness: the head store of the
    world.  [now] is the clock of the world. *)
Record FileJournal (X : Type) : Type := {
  fj_path : string; fj_anchorPath : string; fj_signer : option (AnchorSigner X); fj_verifier : option (AnchorVerifier X);
  fj_externalHead : bool; fj_expectedJournalID : string; fj_publicKey : string }.
Arguments fj_path {X} _.
Arguments fj_anchorPath {X} _.
Arguments fj_signer {X} _.
Arguments fj_verifier {X} _.
Arguments fj_externalHead {X} _.
Arguments fj_expectedJournalID {X} _.
Arguments fj_publicKey {X} _.

Definition externalHeadFromAnchor (a : Anchor) : ExternalHead := {|
  eh_JournalID := an_JournalID a; eh_Sequence := an_Sequence a; eh_HeadHash := an_HeadHash a; eh_KeyID := an_KeyID a;
  eh_StoreVersion := "" |}.

(** One line of the journal after another.  [sequence], [previous] and [count]
    are the loop's variables. *)
Fixpoint scan_entries (journalID : string) (lines : list string) (sequence : Z) (previous : string) (count : Z)
    : Verification + (string * Z) :=
  match lines with
  | [] => inr (previous, count)
  | line :: lines =>
      let line := TrimSpace line in
      if str_eqb line "" then scan_entries journalID lines sequence previous count
      else match decode_entry line with
      | Error err => inl (rejected ("decode entry " +:+ pretty sequence +:+ ": " +:+ error_text err))
      | Ok entry =>
          if negb (en_Version entry =? formatVersion)
          then inl (rejected ("entry " +:+ pretty sequence +:+ " has unsupported version " +:+ pretty (en_Version entry)))
          else if negb (str_eqb (en_JournalID entry) journalID)
          then inl (rejected ("entry " +:+ pretty sequence +:+ " journal id mismatch"))
          else if negb (en_Sequence entry =? sequence)
          then inl (rejected ("sequence mismatch: expected " +:+ pretty sequence +:+ " got " +:+ pretty (en_Sequence entry)))
          else if negb (str_eqb (en_PrevHash entry) previous)
          then inl (rejected ("entry " +:+ pretty (en_Sequence entry) +:+ " previous hash mismatch"))
          else match hashEntry entry with
          | Error err => inl (rejected ("hash entry " +:+ pretty (en_Sequence entry) +:+ ": " +:+ error_text err))
          | Ok wantHash =>
              if negb (str_eqb (en_EntryHash entry) wantHash)
              then inl (rejected ("entry " +:+ pretty (en_Sequence entry) +:+ " hash mismatch"))
              else scan_entries journalID lines (wrap_u64 (sequence + 1)) (en_EntryHash entry) (wrap_u64 (count + 1))
          end
      end
  end.

Section Journal.
Context {X : Type} `{!GoWorld X, !FileSystem X, !ExternalHeadStore X}.
Implicit Types (j : FileJournal X).

Definition LoadHead (journalID : string) : IO X (result ExternalHead) :=
  call (λ r, EvLoad journalID (match r with Ok _ => None | Error e => Some e end)) (Load journalID).

Definition AdvanceHead (previous next : ExternalHead) : IO X (result ExternalHead) :=
  call (λ r, EvAdvance (eh_JournalID next) (match r with Ok _ => None | Error e => Some e end)) (CompareAndAdvance previous next).

(** ** Anchors *)

Definition readAnchor (path : string) : IO X (result Anchor) :=
  try (ReadFile path) (ErrWrap "read signed anchor") (λ data,
  match decode_anchor data with
  | Error err => mret (Error (ErrWrap "decode signed anchor" err))
  | Ok anchor => mret (Ok anchor)
  end).

Definition verifyAnchor (anchor : Anchor) (verifier : option (AnchorVerifier X)) : IO X (option error) :=
  match verifier with
  | None => mret (Some (ErrNew "journal verifier is not configured"))
  | Some verifier =>
      if str_eqb (an_KeyID anchor) "" then mret (Some (ErrNew "journal anchor key id is missing"))
      else match decodeSignature (an_Signature anchor) with
      | Error err => mret (Some err)
      | Ok signature =>
          match anchorSigningPayload anchor with
          | Error err => mret (Some err)
          | Ok payload =>
              call (EvVerify (an_KeyID anchor) payload signature) (av_Verify verifier (an_KeyID anchor) payload signature)
          end
      end
  end.

Definition signAnchor (anchor : Anchor) (signer : option (AnchorSigner X)) : IO X (result Anchor) :=
  match signer with
  | None => mret (Error (ErrNew "journal signer is not configured"))
  | Some signer =>
      let anchor := if str_eqb (an_KeyID anchor) "" then with_KeyID (KeyID signer) anchor else anchor in
      if negb (str_eqb (an_KeyID anchor) (KeyID signer))
      then mret (Error (ErrNew ("anchor key id " +:+ an_KeyID anchor +:+ " does not match signer " +:+ KeyID signer)))
      else match anchorSigningPayload anchor with
      | Error err => mret (Error err)
      | Ok payload =>
          try (call (EvSign payload) (Sign signer payload)) (ErrWrap "sign journal anchor") (λ signature,
          mret (Ok (with_Signature (encodeSignature signature) anchor)))
      end
  end.

(** The body of [writeAnchorAtomic] after the temporary file exists; the file is
    removed, under its name, when the body returns. *)
Definition write_temp (path : string) (data : string) (temp : file) : IO X (result unit) :=
  check_close temp (Chmod temp) (ErrWrap "chmod temporary anchor") (
  check_close temp (Write temp (data +:+ nl)) (ErrWrap "write temporary anchor") (
  check_close temp (Sync temp) (ErrWrap "fsync temporary anchor") (
  check (Close temp) (ErrWrap "close temporary anchor") (
  check (Rename (file_Name temp) path) (ErrWrap "replace signed anchor") (
  mret (Ok tt)))))).

Definition writeAnchorAtomic (path : string) (anchor : Anchor) : IO X (result unit) :=
  match marshal_anchor anchor with
  | Error err => mret (Error (ErrWrap "marshal signed anchor" err))
  | Ok data =>
      let dir := filepath_Dir path in
      check (MkdirAll dir) (ErrWrap "create anchor directory") (
      try (CreateTemp dir ".anchor-*") (ErrWrap "create temporary anchor") (λ temp,
      r ← write_temp path data temp; _ ← Remove (file_Name temp); mret r))
  end.

Definition pathExists (path : string) : IO X (result bool) :=
  err ← Stat path;
  match err with
  | None => mret (Ok true)
  | Some err => if os_IsNotExist err then mret (Ok false) else mret (Error err)
  end.

Definition randomID : IO X (result string) :=
  try (silent (rand_Read 16)) (ErrWrap "generate journal id") (λ raw, mret (Ok (hex_encode raw))).

(** ** Verification *)

Definition head_mismatch (external local : ExternalHead) : string :=
  "external journal head mismatch: external sequence=" +:+ pretty (eh_Sequence external) +:+ " hash=" +:+ eh_HeadHash external +:+
  " key=" +:+ eh_KeyID external +:+ " local sequence=" +:+ pretty (eh_Sequence local) +:+ " hash=" +:+ eh_HeadHash local +:+
  " key=" +:+ eh_KeyID local.

(** From the open file on: its entries, the anchor against them, and the
    witness against the anchor. *)
Definition verify_file (j : FileJournal X) (anchor : Anchor) (f : file) : IO X Verification :=
  content ← Read f;
  let '(lines, scanErr) := scan content in
  match scan_entries (an_JournalID anchor) lines 1 "" 0 with
  | inl v => mret v
  | inr (previousHash, entryCount) =>
      match scanErr with
      | Some err => mret (rejected ("scan journal: " +:+ error_text err))
      | None =>
          if negb (an_Sequence anchor =? entryCount)
          then mret (rejected_at entryCount previousHash
            ("signed anchor sequence=" +:+ pretty (an_Sequence anchor) +:+ " journal entries=" +:+ pretty entryCount))
          else if negb (str_eqb (an_HeadHash anchor) previousHash)
          then mret (rejected_at entryCount previousHash "signed anchor head hash does not match journal")
          else
            let valid := {| vf_Valid := true; vf_EntryCount := entryCount; vf_HeadHash := previousHash; vf_Error := "";
                            vf_HistoricalTrust := "" |} in
            if fj_externalHead j then
              r ← LoadHead (an_JournalID anchor);
              match r with
              | Error err =>
                  mret (rejected_at entryCount previousHash ("external journal head unavailable: " +:+ error_text err))
              | Ok external =>
                  let local := externalHeadFromAnchor anchor in
                  if negb (str_eqb (eh_JournalID external) (eh_JournalID local)) ||
                     negb (eh_Sequence external =? eh_Sequence local) ||
                     negb (str_eqb (eh_HeadHash external) (eh_HeadHash local)) ||
                     negb (str_eqb (eh_KeyID external) (eh_KeyID local))
                  then mret (rejected_at entryCount previousHash (head_mismatch external local))
                  else mret valid
              end
            else mret valid
      end
  end.

Definition verifyIntegrityAndHead (j : FileJournal X) : IO X Verification :=
  r ← readAnchor (fj_anchorPath j);
  match r with
  | Error err => mret (rejected (error_text err))
  | Ok anchor =>
      if negb (an_Version anchor =? formatVersion)
      then mret (rejected ("unsupported anchor version " +:+ pretty (an_Version anchor)))
      else if negb (str_eqb (fj_expectedJournalID j) "") && negb (str_eqb (an_JournalID anchor) (fj_expectedJournalID j))
      then mret (rejected ("journal identity mismatch: got " +:+ an_JournalID anchor +:+ " want " +:+ fj_expectedJournalID j))
      else match fj_verifier j with
      | None => mret (rejected "journal anchor verifier is not configured")
      | Some _ =>
          err ← verifyAnchor anchor (fj_verifier j);
          match err with
          | Some err => mret (rejected ("signed anchor verification failed: " +:+ error_text err))
          | None =>
              r ← OpenFile (fj_path j) ReadOnly;
              match r with
              | Error err => mret (rejected ("open journal: " +:+ error_text err))
              | Ok f => v ← verify_file j anchor f; _ ← Close f; mret v
              end
          end
      end
  end.

Definition verifyUnlocked (j : FileJournal X) : IO X Verification :=
  verification ← verifyIntegrityAndHead j;
  mret (with_HistoricalTrust
    (if vf_Valid verification
     then if negb (str_eqb (fj_expectedJournalID j) "") && fj_externalHead j then HistoryTrusted else HistoryUnverified
     else HistoryUntrusted) verification).

Definition Verify (j : FileJournal X) : IO X Verification :=
  err ← ctxErr;
  match err with
  | Some err => mret (with_HistoricalTrust HistoryUntrusted (rejected (error_text err)))
  | None => verifyUnlocked j
  end.

(** ** Writing *)

(** [Append] after the checks: the entry is written and synced, then the anchor
    replaced, then the witness advanced. *)
Definition event_at (occurred : gotime) (e : Event) : Event := set_OccurredAt e occurred.

Definition append_line (path : string) (line : string) : IO X (result unit) :=
  try (OpenFile path AppendOnly) (ErrWrap "open journal for append") (λ f,
  check_close f (Write f (line +:+ nl)) (ErrWrap "append journal entry") (
  check_close f (Sync f) (ErrWrap "fsync journal entry") (
  check (Close f) (ErrWrap "close journal file") (mret (Ok tt))))).

(** [j.signer.KeyID()]: a nil interface panics; every journal that is appended
    to has a signer. *)
Definition signer_KeyID (j : FileJournal X) : string := default "" (KeyID <$> fj_signer j).

Definition Append (j : FileJournal X) (event : Event) : IO X (result Entry) :=
  check ctxErr unwrapped (
  verification ← verifyUnlocked j;
  if negb (vf_Valid verification)
  then mret (Error (ErrNew ("refusing append to unverifiable journal: " +:+ vf_Error verification)))
  else
    try (readAnchor (fj_anchorPath j)) unwrapped (λ anchor,
    occurred ← (if IsZero (gt_instant (ev_OccurredAt event)) then (now ← Now; mret (utc now))
                else mret (utc (gt_instant (ev_OccurredAt event))));
    let entry := {| en_Version := formatVersion; en_JournalID := an_JournalID anchor;
                    en_Sequence := wrap_u64 (an_Sequence anchor + 1); en_PrevHash := an_HeadHash anchor;
                    en_Event := event_at occurred event; en_EntryHash := "" |} in
    match hashEntry entry with
    | Error err => mret (Error err)
    | Ok hash =>
        let entry := with_EntryHash hash entry in
        match marshal_entry entry with
        | Error err => mret (Error (ErrWrap "marshal journal entry" err))
        | Ok line =>
            try (append_line (fj_path j) line) unwrapped (λ _,
            now ← Now;
            let newAnchor := {| an_Version := formatVersion; an_JournalID := an_JournalID anchor;
                                an_Sequence := en_Sequence entry; an_HeadHash := en_EntryHash entry;
                                an_KeyID := signer_KeyID j; an_UpdatedAt := utc now; an_Signature := "" |} in
            try (signAnchor newAnchor (fj_signer j)) unwrapped (λ newAnchor,
            try (writeAnchorAtomic (fj_anchorPath j) newAnchor) unwrapped (λ _,
            if fj_externalHead j then
              try (AdvanceHead (externalHeadFromAnchor anchor) (externalHeadFromAnchor newAnchor))
                (ErrWrap "advance external journal head") (λ _, mret (Ok entry))
            else mret (Ok entry))))
        end
    end)).

Definition initialize (j : FileJournal X) : IO X (result unit) :=
  try (pathExists (fj_path j)) unwrapped (λ journalExists,
  try (pathExists (fj_anchorPath j)) unwrapped (λ anchorExists,
  if journalExists && anchorExists then mret (Ok tt)
  else if negb (Bool.eqb journalExists anchorExists)
  then mret (Error (ErrNew "journal and signed anchor must either both exist or both be absent"))
  else
    check (MkdirAll (filepath_Dir (fj_path j))) (ErrWrap "create journal directory") (
    check (MkdirAll (filepath_Dir (fj_anchorPath j))) (ErrWrap "create anchor directory") (
    try (if str_eqb (fj_expectedJournalID j) "" then randomID else mret (Ok (fj_expectedJournalID j))) unwrapped (λ journalID,
    try (OpenFile (fj_path j) CreateExclusive) (ErrWrap "create journal file") (λ f,
    check_close f (Sync f) (ErrWrap "fsync empty journal") (
    check (Close f) (ErrWrap "close empty journal") (
    now ← Now;
    let anchor := {| an_Version := formatVersion; an_JournalID := journalID; an_Sequence := 0; an_HeadHash := "";
                     an_KeyID := signer_KeyID j; an_UpdatedAt := utc now; an_Signature := "" |} in
    try (signAnchor anchor (fj_signer j)) unwrapped (λ anchor,
    try (writeAnchorAtomic (fj_anchorPath j) anchor) unwrapped (λ _,
    if fj_externalHead j then
      try (AdvanceHead {| eh_JournalID := journalID; eh_Sequence := 0; eh_HeadHash := ""; eh_KeyID := ""; eh_StoreVersion := "" |}
                       (externalHeadFromAnchor anchor))
        (ErrWrap "initialize external journal head") (λ _, mret (Ok tt))
    else mret (Ok tt))))))))))).

(** ** Opening *)

Definition newFileJournal (path anchorPath : string) (signer : option (AnchorSigner X)) (verifier : option (AnchorVerifier X))
    : result (FileJournal X) :=
  match signer with
  | None => Error (ErrNew "journal signer is required")
  | Some s =>
      if str_eqb (KeyID s) "" then Error (ErrNew "journal signer key id is required")
      else match verifier with
      | None => Error (ErrNew "journal anchor verifier is required")
      | Some _ => Ok {| fj_path := path; fj_anchorPath := anchorPath; fj_signer := signer; fj_verifier := verifier;
                        fj_externalHead := false; fj_expectedJournalID := ""; fj_publicKey := "" |}
      end
  end.

Definition NewFileJournalWithSecurity (path anchorPath : string) (signer : option (AnchorSigner X))
    (verifier : option (AnchorVerifier X)) (externalHead : bool) : IO X (result (FileJournal X)) :=
  if externalHead then mret (Error ErrJournalIdentityRequired)
  else match newFileJournal path anchorPath signer verifier with
  | Error err => mret (Error err)
  | Ok j =>
      try (initialize j) unwrapped (λ _,
      verification ← verifyUnlocked j;
      if negb (vf_Valid verification)
      then mret (Error (ErrNew ("journal verification failed during open: " +:+ vf_Error verification)))
      else mret (Ok j))
  end.

Definition with_publicKey (publicKey : string) (j : FileJournal X) : FileJournal X := {|
  fj_path := fj_path j; fj_anchorPath := fj_anchorPath j; fj_signer := fj_signer j; fj_verifier := fj_verifier j;
  fj_externalHead := fj_externalHead j; fj_expectedJournalID := fj_expectedJournalID j; fj_publicKey := publicKey |}.

Definition NewFileJournal `{!Ed25519} (path anchorPath privateKey : string) : IO X (result (FileJournal X)) :=
  match NewEd25519Signer "" privateKey with
  | Error err => mret (Error err)
  | Ok signer =>
      match Ed25519Keyring_Add (es_keyID signer) (es_publicKey signer) NewEd25519Keyring with
      | Error err => mret (Error err)
      | Ok keyring =>
          try (NewFileJournalWithSecurity path anchorPath (Some (Ed25519Signer_signer signer))
                 (Some (Ed25519Keyring_verifier keyring)) false) unwrapped (λ j,
          mret (Ok (with_publicKey (es_publicKey signer) j)))
      end
  end.

Definition VerifyFiles `{!Ed25519} (path anchorPath publicKey : string) : IO X Verification :=
  if negb (String.length publicKey =? PublicKeySize)%nat
  then mret (with_HistoricalTrust HistoryUntrusted (rejected "invalid Ed25519 public key"))
  else match Ed25519Keyring_Add (Ed25519KeyID publicKey) publicKey NewEd25519Keyring with
  | Error err => mret (with_HistoricalTrust HistoryUntrusted (rejected (error_text err)))
  | Ok keyring =>
      verifyUnlocked {| fj_path := path; fj_anchorPath := anchorPath; fj_signer := None;
                        fj_verifier := Some (Ed25519Keyring_verifier keyring); fj_externalHead := false;
                        fj_expectedJournalID := ""; fj_publicKey := publicKey |}
  end.

(** *** [anchored_file.go] *)

Definition newAnchoredFileJournal (path anchorPath journalID : string) (signer : option (AnchorSigner X))
    (verifier : option (AnchorVerifier X)) (externalHead : bool) : result (FileJournal X) :=
  if str_eqb (TrimSpace journalID) "" || negb (str_eqb journalID (TrimSpace journalID)) then Error ErrJournalIdentityRequired
  else if negb externalHead then Error (ErrNew "anchored journal requires an external continuity witness")
  else match newFileJournal path anchorPath signer verifier with
  | Error err => Error err
  | Ok j => Ok {| fj_path := fj_path j; fj_anchorPath := fj_anchorPath j; fj_signer := fj_signer j;
                  fj_verifier := fj_verifier j; fj_externalHead := externalHead; fj_expectedJournalID := journalID;
                  fj_publicKey := fj_publicKey j |}
  end.

(** No local path may exist yet. *)
Fixpoint none_exist (paths : list string) : IO X (result unit) :=
  match paths with
  | [] => mret (Ok tt)
  | path :: paths =>
      try (pathExists path) unwrapped (λ found,
      if (found : bool) then mret (Error ErrJournalAlreadyExists) else none_exist paths)
  end.

Definition CreateAnchoredFileJournal (path anchorPath journalID : string) (signer : option (AnchorSigner X))
    (verifier : option (AnchorVerifier X)) (externalHead : bool) : IO X (result (FileJournal X)) :=
  check ctxErr unwrapped (
  match newAnchoredFileJournal path anchorPath journalID signer verifier externalHead with
  | Error err => mret (Error err)
  | Ok j =>
      try (none_exist [path; anchorPath]) unwrapped (λ _,
      r ← LoadHead journalID;
      match r with
      | Ok _ => mret (Error ErrJournalAlreadyExists)
      | Error err =>
          if negb (errors_Is err ErrExternalHeadNotFound) then mret (Error (ErrWrap "check journal creation witness" err))
          else
            check ctxErr unwrapped (
            try (initialize j) unwrapped (λ _,
            verification ← verifyUnlocked j;
            if negb (vf_Valid verification)
            then mret (Error (ErrDetail ErrJournalHistoryUnavailable (vf_Error verification)))
            else mret (Ok j)))
      end)
  end).

Definition OpenAnchoredFileJournal (path anchorPath expectedJournalID : string) (signer : option (AnchorSigner X))
    (verifier : option (AnchorVerifier X)) (externalHead : bool) : IO X (result (FileJournal X)) :=
  check ctxErr unwrapped (
  match newAnchoredFileJournal path anchorPath expectedJournalID signer verifier externalHead with
  | Error err => mret (Error err)
  | Ok j =>
      verification ← verifyUnlocked j;
      if negb (vf_Valid verification)
      then mret (Error (ErrDetail ErrJournalHistoryUnavailable (vf_Error verification)))
      else mret (Ok j)
  end).

End Journal.

(** * Facts *)

(** The lines that are not blank hold these entries. *)
Definition entries_of (lines : list string) (es : list Entry) : Prop :=
  Forall2 (λ line e, decode_entry line = Ok e) (filter (λ line, line ≠ "") (TrimSpace <$> lines)) es.

Lemma entries_of_cons line lines es : entries_of (line :: lines) es ↔
  (TrimSpace line = "" ∧ entries_of lines es) ∨
  (TrimSpace line ≠ "" ∧ ∃ e es', es = e :: es' ∧ decode_entry (TrimSpace line) = Ok e ∧ entries_of lines es').
Proof.
  unfold entries_of. rewrite fmap_cons, filter_cons. destruct (decide (TrimSpace line = "")) as [E|E].
  - rewrite decide_False by (by intros ?). naive_solver.
  - rewrite decide_True by done. split.
    + intros H. right. split; [done|]. inversion H; subst. eauto.
    + intros [[? _]|(_ & e & es' & -> & He & Hes)]; [done|]. by constructor.
Qed.

Lemma entries_sound lines es : entries_of lines es → Forall sound_entry es.
Proof. unfold entries_of. induction 1; constructor; [by eapply decode_entry_sound|done]. Qed.

Lemma wrap_u64_succ z : wrap_u64 (wrap_u64 z + 1) = wrap_u64 (z + 1).
Proof. unfold wrap_u64. by rewrite Z.add_mod_idemp_l. Qed.

(** A check of the loop that fails. *)
Ltac refuted := split; [done|intros (? & _ & (? & ? & ? & ? & ?) & _); congruence].

(** The loop accepts the lines of a chain, and returns its end. *)
Lemma scan_entries_chain id lines : ∀ seq prev count head n,
  scan_entries id lines (wrap_u64 seq) prev (wrap_u64 count) = inr (head, n) ↔
  ∃ es, entries_of lines es ∧ chain id seq prev es ∧ head = head_hash prev es ∧ n = wrap_u64 (count + Z.of_nat (length es)).
Proof.
  induction lines as [|line lines IH]; intros seq prev count head n; cbn [scan_entries].
  { split.
    - intros [= <- <-]. exists []. split_and!; try done; [constructor|]. simpl. by rewrite Z.add_0_r.
    - intros (es & Hes & _ & -> & ->). inversion Hes; subst. simpl. by rewrite Z.add_0_r. }
  setoid_rewrite entries_of_cons. cbv zeta. destruct (str_eqb (TrimSpace line) "") eqn:Hb; split_bool.
  { rewrite IH. naive_solver. }
  destruct (decode_entry (TrimSpace line)) as [e|] eqn:Hd; [|split; [done|naive_solver]].
  assert ((∃ es, ((TrimSpace line = "" ∧ entries_of lines es) ∨ (TrimSpace line ≠ "" ∧ ∃ e0 es', es = e0 :: es' ∧
      Ok e = Ok e0 ∧ entries_of lines es')) ∧ chain id seq prev es ∧ head = head_hash prev es ∧
      n = wrap_u64 (count + Z.of_nat (length es))) ↔
    ∃ es, entries_of lines es ∧ links id seq prev e ∧ chain id (seq + 1) (en_EntryHash e) es ∧
      head = head_hash (en_EntryHash e) es ∧ n = wrap_u64 (count + 1 + Z.of_nat (length es))) as Hstep.
  { split.
    - intros (es & [[? _]|(_ & e0 & es' & -> & [= <-] & Hes)] & Hc & -> & ->); [done|]. destruct Hc as [Hl Hc]. exists es'.
      rewrite head_hash_cons. split_and!; try done. cbn [length]. f_equal. lia.
    - intros (es & Hes & Hl & Hc & -> & ->). exists (e :: es). rewrite head_hash_cons. split_and!; try done.
      + right. split; [done|]. eauto.
      + cbn [length]. f_equal. lia. }
  rewrite Hstep. clear Hstep. unfold links.
  destruct (Z.eqb_spec (en_Version e) formatVersion); [|refuted].
  destruct (str_eqb (en_JournalID e) id) eqn:H1; split_bool; [|refuted].
  destruct (Z.eqb_spec (en_Sequence e) (wrap_u64 seq)) as [Hseq|]; [|refuted].
  destruct (str_eqb (en_PrevHash e) prev) eqn:H2; split_bool; [|refuted]. cbn [negb].
  destruct (hashEntry e) as [h|] eqn:Hh; [|refuted].
  destruct (str_eqb (en_EntryHash e) h) eqn:H3; split_bool; [|refuted]. cbn [negb].
  rewrite !wrap_u64_succ, IH. subst. naive_solver.
Qed.
