(* ===== verification/Ordered.v ===== *)
(** * Effects in order

    Some of the calls of a run change something: a view picks them out of the
    trace, each with whether it succeeded.  A program carries out a plan when it
    attempts the plan's effects in order, each only after those before it
    succeeded, and all of them when it returns a value. *)

From S2P Require Import Prelude Crypto FileSystem.
Local Open Scope Z_scope.

Definition none {A} (o : option A) : bool := match o with None => true | Some _ => false end.

(** The attempts of a plan: each after those before it succeeded. *)
Inductive in_order {Eff} : list Eff → list (Eff * bool) → Prop :=
  | order_stop plan : in_order plan []
  | order_done step plan l : in_order plan l → in_order (step :: plan) ((step, true) :: l)
  | order_failed step plan : in_order (step :: plan) [(step, false)].

Definition complete {Eff} (plan : list Eff) : list (Eff * bool) := (λ s, (s, true)) <$> plan.

(** Closing a file is no effect. *)
Class HidesClose {Eff} (view : io_event → option (Eff * bool)) : Prop := view_hides_close f r : view (EvClose f r) = None.

Section Order.
Context {X : Type} `{!FileSystem X} {Eff : Type} {view : io_event → option (Eff * bool)} `{!HidesClose view}.

(** The effects of a run: what it attempted to change, and whether that succeeded. *)
Definition effects (t : list io_event) : list (Eff * bool) := omap view t.

(** A program that attempts nothing. *)
Definition passive {A} (m : IO X A) : Prop := emits m (λ _ t, effects t = []).

Lemma passive_ret {A} (a : A) : passive (mret a).
Proof. by apply emits_ret. Qed.

Lemma passive_bind {A B} (m : IO X A) (k : A → IO X B) : passive m → (∀ a, passive (k a)) → passive (m ≫= k).
Proof.
  intros Hm Hk. eapply emits_bind; [exact Hm|]. intros a t Ht. eapply emits_impl; [apply Hk|]. intros b t' Ht'.
  unfold effects in *. by rewrite omap_app, Ht, Ht'.
Qed.

Lemma passive_silent {A} (f : X → A * X) : passive (silent f).
Proof. by intros x a x' t [_ ->]%silent_inv. Qed.

Lemma passive_call {A} (mk : A → io_event) f : (∀ a, view (mk a) = None) → passive (call mk f).
Proof. intros Hv. apply emits_call. intros a. cbn. by rewrite Hv. Qed.

Lemma passive_check {A} (m : IO X (option error)) wrap (k : IO X (result A)) : passive m → passive k → passive (check m wrap k).
Proof. intros Hm Hk. apply passive_bind; [done|]. intros [err|]; [apply passive_ret|done]. Qed.

Lemma passive_try {A B} (m : IO X (result A)) wrap (k : A → IO X (result B)) :
  passive m → (∀ a, passive (k a)) → passive (try m wrap k).
Proof. intros Hm Hk. apply passive_bind; [done|]. intros [a|err]; [done|apply passive_ret]. Qed.

Lemma passive_Close f : passive (Close f).
Proof. apply passive_call. intros r. apply view_hides_close. Qed.

(** A program that carries out a plan in order, and completely when it returns a
    value; [Ret] relates the plan to the value. *)
Definition carries_out {A} (Plan : list Eff → Prop) (Ret : list Eff → A → Prop) (m : IO X (result A)) : Prop :=
  emits m (λ r t, ∃ plan, Plan plan ∧ in_order plan (effects t) ∧
    ∀ a, r = Ok a → effects t = complete plan ∧ Ret plan a).

Definition possible (Plan : list Eff → Prop) : Prop := ∃ plan, Plan plan.

(** What is left of a plan after its first steps. *)
Definition after {A} (steps : list Eff) (P : list Eff → A) : list Eff → A := λ plan, P (steps ++ plan).

Lemma carries_error {A} Plan Ret err : possible Plan → carries_out Plan Ret (mret (Error err) : IO X (result A)).
Proof. intros [plan Hp]. apply emits_ret. exists plan. by split_and!; [|constructor|]. Qed.

Lemma carries_ok {A} (Plan : list Eff → Prop) (Ret : list Eff → A → Prop) a : Plan [] → Ret [] a →
  carries_out Plan Ret (mret (Ok a)).
Proof. intros Hp Hr. apply emits_ret. exists []. split_and!; [done|constructor|]. by intros b [= <-]. Qed.

Lemma carries_passive {A B} Plan Ret (m : IO X A) (k : A → IO X (result B)) :
  passive m → (∀ a, carries_out Plan Ret (k a)) → carries_out Plan Ret (m ≫= k).
Proof.
  intros Hm Hk. eapply emits_bind; [exact Hm|]. intros a t Ht. eapply emits_impl; [apply Hk|]. intros b t' H.
  unfold effects in *. by rewrite omap_app, Ht.
Qed.

Lemma in_order_complete (steps plan : list Eff) l : in_order plan l → in_order (steps ++ plan) (complete steps ++ l).
Proof. intros H. induction steps as [|s steps IH]; [done|]. by constructor. Qed.

Lemma in_order_app (plan plan' : list Eff) l : in_order plan l → in_order (plan ++ plan') l.
Proof. induction 1; by constructor. Qed.

Lemma carries_effect {A B} Plan Ret (mk : A → io_event) f (ok : A → bool) step (k : A → IO X (result B)) :
  possible (after [step] Plan) → (∀ a, view (mk a) = Some (step, ok a)) →
  (∀ a, ok a = true → carries_out (after [step] Plan) (after [step] Ret) (k a)) →
  (∀ a, ok a = false → emits (k a) (λ r t, effects t = [] ∧ is_ok r = false)) → carries_out Plan Ret (call mk f ≫= k).
Proof.
  intros [plan0 Hp0] He Hok Hbad. apply (emits_bind _ _ (λ a t, t = [mk a])); [by apply emits_call|].
  intros a t ->. destruct (ok a) eqn:Ho.
  - eapply emits_impl; [by apply Hok|]. intros r t (plan & Hp & Hin & Hc). exists (step :: plan). cbn. rewrite He, Ho.
    split_and!; [done|by constructor|]. intros b Hr. destruct (Hc b Hr) as [Ht Hb]. split; [|done].
    unfold complete. cbn. by f_equal.
  - eapply emits_impl; [by apply Hbad|]. intros r t (Ht & Hr). exists (step :: plan0). cbn. rewrite He, Ho.
    fold (effects t). rewrite Ht. split_and!; [done|constructor|]. by intros b ->.
Qed.

Lemma bad_error {A} err : emits (mret (Error err) : IO X (result A)) (λ r t, effects t = [] ∧ is_ok r = false).
Proof. by apply emits_ret. Qed.

Lemma bad_close {A} f err : emits (_ ← Close f; mret (Error err) : IO X (result A)) (λ r t, effects t = [] ∧ is_ok r = false).
Proof. eapply emits_bind; [apply passive_Close|]. intros a t Ht. apply emits_ret. by rewrite app_nil_r. Qed.

Lemma carries_check {A} Plan Ret mk f step wrap (k : IO X (result A)) :
  possible (after [step] Plan) → (∀ a, view (mk a) = Some (step, none a)) →
  carries_out (after [step] Plan) (after [step] Ret) k → carries_out Plan Ret (check (call mk f) wrap k).
Proof. intros Hp He Hk. apply (carries_effect _ _ _ _ none step); try done; intros [err|]; try done. intros _. apply bad_error. Qed.

Lemma carries_check_close {A} Plan Ret mk f step g wrap (k : IO X (result A)) :
  possible (after [step] Plan) → (∀ a, view (mk a) = Some (step, none a)) →
  carries_out (after [step] Plan) (after [step] Ret) k → carries_out Plan Ret (check_close g (call mk f) wrap k).
Proof. intros Hp He Hk. apply (carries_effect _ _ _ _ none step); try done; intros [err|]; try done. intros _. apply bad_close. Qed.

Lemma carries_try {A B} Plan Ret mk f step wrap (k : A → IO X (result B)) :
  possible (after [step] Plan) → (∀ a, view (mk a) = Some (step, is_ok a)) →
  (∀ a, carries_out (after [step] Plan) (after [step] Ret) (k a)) → carries_out Plan Ret (try (call mk f) wrap k).
Proof. intros Hp He Hk. apply (carries_effect _ _ _ _ is_ok step); try done; intros [a|err]; try done. intros _. apply bad_error. Qed.

Lemma carries_check_passive {A} Plan Ret (m : IO X (option error)) wrap (k : IO X (result A)) : possible Plan → passive m →
  carries_out Plan Ret k → carries_out Plan Ret (check m wrap k).
Proof. intros Hp Hm Hk. apply carries_passive; [done|]. intros [err|]; [by apply carries_error|done]. Qed.

Lemma carries_check_close_passive {A} Plan Ret g (m : IO X (option error)) wrap (k : IO X (result A)) : possible Plan → passive m →
  carries_out Plan Ret k → carries_out Plan Ret (check_close g m wrap k).
Proof.
  intros Hp Hm Hk. apply carries_passive; [done|]. intros [err|]; [|done].
  apply carries_passive; [apply passive_Close|]. intros c. by apply carries_error.
Qed.

Lemma carries_try_passive {A B} Plan Ret (m : IO X (result A)) wrap (k : A → IO X (result B)) : possible Plan → passive m →
  (∀ a, carries_out Plan Ret (k a)) → carries_out Plan Ret (try m wrap k).
Proof. intros Hp Hm Hk. apply carries_passive; [done|]. intros [a|err]; [done|by apply carries_error]. Qed.

(** One program after another. *)
Lemma carries_try_seq {A B} (Plan1 : list Eff → Prop) Ret1 Plan Ret (m : IO X (result A)) wrap (k : A → IO X (result B)) :
  carries_out Plan1 Ret1 m → (∀ plan, Plan1 plan → possible (after plan Plan)) →
  (∀ plan a, Plan1 plan → Ret1 plan a → carries_out (after plan Plan) (after plan Ret) (k a)) →
  carries_out Plan Ret (try m wrap k).
Proof.
  intros Hm Hp Hk. eapply emits_bind; [exact Hm|]. intros r t (plan & Hplan & Hin & Hc). destruct r as [a|err].
  - destruct (Hc a eq_refl) as [Ht Hr]. eapply emits_impl; [by eapply Hk|]. intros r t' (plan' & Hplan' & Hin' & Hc').
    exists (plan ++ plan'). unfold effects in *. rewrite omap_app, Ht. split_and!; [done|by apply in_order_complete|].
    intros b Hb. destruct (Hc' b Hb) as [-> Hret]. split; [|done]. unfold complete. by rewrite fmap_app.
  - destruct (Hp plan Hplan) as [plan' Hplan']. apply emits_ret. rewrite app_nil_r. exists (plan ++ plan').
    split_and!; [done|by apply in_order_app|done].
Qed.

Lemma carries_then {A B} Plan Ret (m : IO X (result A)) (c : IO X B) : carries_out Plan Ret m → passive c →
  carries_out Plan Ret (r ← m; _ ← c; mret r).
Proof.
  intros Hm Hc. eapply emits_bind; [exact Hm|]. intros r t (plan & Hplan & Hin & Hr).
  eapply emits_bind; [exact Hc|]. intros b t' Ht'. apply emits_ret. rewrite app_nil_r. exists plan.
  unfold effects in *. rewrite omap_app, Ht', app_nil_r. done.
Qed.
End Order.
Arguments effects {Eff} view t.
Arguments passive {X Eff} view {A} m.
Arguments carries_out {X Eff} view {A} Plan Ret m.

(** A plan that says nothing of the value. *)
Definition any_value {Eff A} (plan : list Eff) (a : A) : Prop := True.

(** Passivity of a program, by its structure. *)
Ltac passive_step :=
  match goal with
  | |- ∀ _, _ => intros ?
  | |- passive _ (let '(_, _) := ?p in _) => destruct p
  | |- passive _ (match ?x with _ => _ end) => destruct x
  | |- passive _ (let _ := _ in _) => cbv zeta
  | |- passive _ (mret _) => apply passive_ret
  | |- passive _ (check _ _ _) => apply passive_check
  | |- passive _ (try _ _ _) => apply passive_try
  | |- passive _ (_ ≫= _) => apply passive_bind
  | |- passive _ (silent _) => apply passive_silent
  | |- passive _ (call _ _) => apply passive_call; done
  | |- passive ?v ?m => first [solve [eauto] | let m' := eval red in m in change (passive v m')]
  end.
Ltac passive_tac := repeat passive_step.
