(* ===== verification/WriteOrder.v ===== *)
(** * The order of an append's effects

    [Append] of [Journal.v] writes and syncs the journal line, then has the new
    anchor signed, then replaces the anchor file by a synced temporary file, and
    advances the witness last.  Each effect is attempted only when those before it
    succeeded, so a crash or a failure leaves one of few states. *)

From S2P Require Import Prelude Crypto Format Json Base64 Unmarshal GoTime Permit HeadStore JournalEntry FileSystem Journal Ordered.
Local Open Scope Z_scope.

(** What an append attempts to change. *)
Inductive effect : Type :=
  | EffWrite (f : file) (data : string)
  | EffSync (f : file)
  | EffSign (payload : string)
  | EffRename (from to : string)
  | EffAdvance (journalID : string).

Definition effect_of (ev : io_event) : option (effect * bool) :=
  match ev with
  | EvWrite f data r => Some (EffWrite f data, none r)
  | EvSync f r => Some (EffSync f, none r)
  | EvSign payload r => Some (EffSign payload, is_ok r)
  | EvRename from to r => Some (EffRename from to, none r)
  | EvAdvance id r => Some (EffAdvance id, none r)
  | _ => None
  end.

Abbreviation effects := (Ordered.effects effect_of).
Abbreviation passive := (Ordered.passive effect_of).
Abbreviation carries_out := (Ordered.carries_out effect_of).

#[export] Instance effect_of_hides_close : HidesClose effect_of.
Proof. done. Qed.

Section Order.
Context {X : Type} `{!GoWorld X, !FileSystem X, !ExternalHeadStore X}.

Lemma passive_readAnchor path : passive (readAnchor path).
Proof. unfold readAnchor. passive_tac. Qed.

Lemma passive_verifyUnlocked j : passive (verifyUnlocked j).
Proof. pose proof (passive_readAnchor (fj_anchorPath j)). unfold verifyUnlocked, verifyIntegrityAndHead. passive_tac. Qed.

(** ** The plan of an append *)

Definition no_file : file := {| file_fd := 0; file_Name := "" |}.

Definition line_plan (line : string) (plan : list effect) : Prop :=
  ∃ f, plan = [EffWrite f (line +:+ nl); EffSync f].

Definition anchor_plan (path : string) (anchor : Anchor) (plan : list effect) : Prop :=
  ∃ temp data, (∀ d, marshal_anchor anchor = Ok d → data = d) ∧
    plan = [EffWrite temp (data +:+ nl); EffSync temp; EffRename (file_Name temp) path].

(** The journal line and its sync, the signature, the anchor, the witness. *)
Definition append_plan (j : FileJournal X) (plan : list effect) : Prop :=
  ∃ f line payload temp data id,
    plan = [EffWrite f (line +:+ nl); EffSync f; EffSign payload;
            EffWrite temp (data +:+ nl); EffSync temp; EffRename (file_Name temp) (fj_anchorPath j)] ++
           (if fj_externalHead j then [EffAdvance id] else []).

(** What the plan wrote, when the entry is returned. *)
Definition wrote_entry (plan : list effect) (e : Entry) : Prop :=
  ∃ f line rest, marshal_entry e = Ok line ∧ plan = EffWrite f (line +:+ nl) :: EffSync f :: rest.

Lemma carries_append_line path line : carries_out (line_plan line) any_value (append_line path line).
Proof.
  unfold append_line. apply carries_try_passive; [eexists; by exists no_file|by apply passive_call|].
  intros f. apply (carries_check_close _ _ _ _ (EffWrite f (line +:+ nl))); [by exists [EffSync f], f|done|].
  apply (carries_check_close _ _ _ _ (EffSync f)); [by exists [], f|done|].
  apply carries_check_passive; [by exists [], f|apply passive_Close|]. apply carries_ok; [by exists f|done].
Qed.

Lemma carries_writeAnchor path anchor : carries_out (anchor_plan path anchor) any_value (writeAnchorAtomic path anchor).
Proof.
  assert (possible (anchor_plan path anchor)) as Hany.
  { destruct (marshal_anchor anchor) as [data|] eqn:Hm; [|eexists; exists no_file, ""];
      [eexists; exists no_file, data|]; split; try reflexivity; rewrite Hm; congruence. }
  unfold writeAnchorAtomic. destruct (marshal_anchor anchor) as [data|] eqn:Hm; [|by apply carries_error]. cbv zeta.
  apply carries_check_passive; [done|by apply passive_call|].
  apply carries_try_passive; [done|by apply passive_call|]. intros temp. apply carries_then; [|by apply passive_call].
  assert (anchor_plan path anchor [EffWrite temp (data +:+ nl); EffSync temp; EffRename (file_Name temp) path]) as Hplan.
  { exists temp, data. split; [congruence|done]. }
  unfold write_temp. apply carries_check_close_passive; [eexists; exact Hplan|by apply passive_call|].
  apply (carries_check_close _ _ _ _ (EffWrite temp (data +:+ nl))); [eexists; exact Hplan|done|].
  apply (carries_check_close _ _ _ _ (EffSync temp)); [eexists; exact Hplan|done|].
  apply carries_check_passive; [eexists; exact Hplan|apply passive_Close|].
  apply (carries_check _ _ _ _ (EffRename (file_Name temp) path)); [eexists; exact Hplan|done|]. by apply carries_ok.
Qed.

Lemma carries_sign anchor signer : carries_out (λ plan, ∃ payload, plan = [EffSign payload]) any_value (signAnchor anchor signer : IO X _).
Proof.
  assert (possible (λ plan, ∃ payload, plan = [EffSign payload])) as Hany by (by exists [EffSign ""], "").
  unfold signAnchor. destruct signer as [s|]; [|by apply carries_error]. cbv zeta.
  destruct (negb _); [by apply carries_error|]. destruct (anchorSigningPayload _) as [payload|]; [|by apply carries_error].
  apply (carries_try _ _ _ _ (EffSign payload)); [by exists [], payload|done|]. intros signature.
  apply carries_ok; [by exists payload|done].
Qed.

Lemma append_plan_possible j : possible (append_plan j).
Proof. eexists. exists no_file, "", "", no_file, "", "". reflexivity. Qed.

Lemma carries_Append j ev : carries_out (append_plan j) wrote_entry (Append j ev).
Proof.
  pose proof (append_plan_possible j) as Hany. unfold Append.
  apply carries_check_passive; [done|apply passive_silent|]. apply carries_passive; [apply passive_verifyUnlocked|]. intros v.
  destruct (negb _); [by apply carries_error|]. apply carries_try_passive; [done|apply passive_readAnchor|]. intros a.
  apply carries_passive; [destruct (IsZero _); passive_tac|]. intros occurred. cbv zeta.
  destruct (hashEntry _) as [hash|]; [|by apply carries_error]. set (entry := with_EntryHash hash _).
  destruct (marshal_entry entry) as [line|] eqn:Hline; [|by apply carries_error].
  eapply carries_try_seq; [apply carries_append_line| |]; intros plan1.
  { intros [f ->]. eexists. exists f, line, "", no_file, "", "". reflexivity. }
  intros [] [f ->] _. apply carries_passive; [passive_tac|]. intros now.
  eapply carries_try_seq; [apply carries_sign| |]; intros plan2.
  { intros [payload ->]. eexists. exists f, line, payload, no_file, "", "". reflexivity. }
  intros b [payload ->] _.
  eapply carries_try_seq; [apply carries_writeAnchor| |]; intros plan3.
  { intros (temp & data & _ & ->). eexists. exists f, line, payload, temp, data, "". reflexivity. }
  intros [] (temp & data & _ & ->) _.
  assert (∀ id plan, plan = (if fj_externalHead j then [EffAdvance id] else []) →
    append_plan j ([EffWrite f (line +:+ nl); EffSync f] ++ [EffSign payload] ++
      [EffWrite temp (data +:+ nl); EffSync temp; EffRename (file_Name temp) (fj_anchorPath j)] ++ plan)) as Hplan.
  { intros id plan ->. by exists f, line, payload, temp, data, id. }
  destruct (fj_externalHead j).
  - apply (carries_try _ _ _ _ (EffAdvance (an_JournalID b))).
    + exists []. by apply (Hplan (an_JournalID b)).
    + by intros [].
    + intros head. apply carries_ok; [by apply (Hplan (an_JournalID b))|]. by eexists f, line, _.
  - apply carries_ok; [by apply (Hplan "")|]. by eexists f, line, _.
Qed.
End Order.
