(* ===== verification/Ledger.v ===== *)
(** * The journal against its witness

    What a file journal promises while other processes, and whoever can write
    its files, act between any two of its calls.  The specification is a ledger:
    per journal, an append-only list of entries and the key of the last writer.
    The witness records its heads ([heads_of]).  A world obeys [JournalLaws] when
    its calls move the recorded heads as ledger steps do; [Append] then moves them
    so itself, and a trusted verification reads the ledger's own list. *)

From S2P Require Import Prelude Crypto Format Json Base64 Unmarshal GoTime Permit HeadStore JournalEntry FileSystem Journal.
Local Open Scope Z_scope.

(** * Ledgers *)

Abbreviation heads := (gmap string quorumSemanticHead).
Abbreviation ledger := (gmap string (string * list Entry)).

Definition head_of (id : string) (l : string * list Entry) : quorumSemanticHead := {|
  qh_JournalID := id; qh_Sequence := Z.of_nat (length l.2); qh_HeadHash := head_hash "" l.2; qh_KeyID := l.1 |}.

Definition heads_of (L : ledger) : heads := map_imap (λ id l, Some (head_of id l)) L.

(** A journal is enrolled empty; an entry that links to its head is appended. *)
Inductive ledger_step : ledger → ledger → Prop :=
  | enroll L id key : L !! id = None → ledger_step L (<[id := (key, [])]> L)
  | append L id key es e key' : L !! id = Some (key, es) → readable e →
      links id (Z.of_nat (length es) + 1) (head_hash "" es) e → ledger_step L (<[id := (key', es ++ [e])]> L).

Abbreviation ledger_steps := (rtc ledger_step).

(** The ledgers that heads stand for evolve by steps. *)
Definition moves (h h' : heads) : Prop := ∀ L, h = heads_of L → ∃ L', ledger_steps L L' ∧ h' = heads_of L'.

#[export] Instance moves_preorder : PreOrder moves.
Proof.
  split.
  - intros h L ->. by exists L.
  - intros h1 h2 h3 H12 H23 L ->. destruct (H12 L) as (L2 & HL2 & ->); [done|]. destruct (H23 L2) as (L3 & HL3 & ->); [done|].
    exists L3. split; [by transitivity L2|done].
Qed.

(** Every list of a ledger is a chain from the start. *)
Definition ledger_ok (L : ledger) : Prop := map_Forall (λ id l, chain id 1 "" l.2 ∧ Forall readable l.2) L.

Lemma lookup_heads_of L id : heads_of L !! id = head_of id <$> L !! id.
Proof. unfold heads_of. rewrite map_lookup_imap. by destruct (L !! id). Qed.

Lemma heads_of_insert L id l : heads_of (<[id := l]> L) = <[id := head_of id l]> (heads_of L).
Proof.
  apply map_eq. intros i. destruct (decide (id = i)) as [<-|Hne].
  - by rewrite lookup_heads_of, !lookup_insert_eq.
  - by rewrite lookup_heads_of, !lookup_insert_ne, lookup_heads_of by done.
Qed.

Lemma ledger_step_ok L L' : ledger_step L L' → ledger_ok L → ledger_ok L'.
Proof.
  intros [? id key Hid|? id key es e key' Hid Hr Hl] Hok; apply map_Forall_insert_2; try done; cbn beta delta [snd] iota.
  destruct (Hok id (key, es) Hid) as [Hc Hes]. cbn [snd] in *.
  rewrite chain_app, Forall_app, Forall_singleton. split_and!; try done.
  replace (1 + Z.of_nat (length es)) with (Z.of_nat (length es) + 1) by lia. done.
Qed.

Lemma ledger_steps_ok L L' : ledger_steps L L' → ledger_ok L → ledger_ok L'.
Proof. induction 1; eauto using ledger_step_ok. Qed.

(** Lists only grow. *)
Lemma ledger_steps_grow L L' : ledger_steps L L' → ∀ id key es, L !! id = Some (key, es) →
  ∃ key' fs, L' !! id = Some (key', es ++ fs).
Proof.
  induction 1 as [L|L1 L2 L3 Hs _ IH]; intros id key es Hid.
  { exists key, []. by rewrite app_nil_r. }
  assert (∃ key' fs, L2 !! id = Some (key', es ++ fs)) as (key' & fs & H2).
  { destruct Hs as [L i k Hi|L i k es' e k' Hi _ _]; destruct (decide (i = id)) as [<-|Hne].
    - congruence.
    - exists key, []. by rewrite lookup_insert_ne, app_nil_r by done.
    - assert (es' = es) as -> by congruence. exists k', [e]. by rewrite lookup_insert_eq.
    - exists key, []. by rewrite lookup_insert_ne, app_nil_r by done. }
  destruct (IH _ _ _ H2) as (key'' & gs & H3). exists key'', (fs ++ gs). by rewrite app_assoc.
Qed.

(** * The rules of the world *)

(** A call during which the heads move by ledger steps. *)
Definition keeps {X A} (witness : X → heads) (f : X → A * X) : Prop :=
  ∀ x a x', f x = (a, x') → moves (witness x) (witness x').

(** Others act during any call, by ledger steps too.  The witness answers a load
    with the head it held at some moment of the call, and a compare-and-advance
    either does nothing or replaces, at one moment, the head it expects by one
    that extends it.  An error may come with or without the effect. *)
Class JournalLaws (X : Type) `{!GoWorld X, !FileSystem X, !ExternalHeadStore X} : Type := {
  witness : X → heads;
  ctx_Err_keeps : keeps witness ctx_Err;
  time_Now_keeps : keeps witness time_Now;
  rand_Read_keeps n : keeps witness (rand_Read n);
  os_Stat_keeps path : keeps witness (os_Stat path);
  os_MkdirAll_keeps path : keeps witness (os_MkdirAll path);
  os_OpenFile_keeps path flags : keeps witness (os_OpenFile path flags);
  os_CreateTemp_keeps dir pattern : keeps witness (os_CreateTemp dir pattern);
  os_ReadFile_keeps path : keeps witness (os_ReadFile path);
  os_Rename_keeps from to : keeps witness (os_Rename from to);
  os_Remove_keeps path : keeps witness (os_Remove path);
  file_Write_keeps f data : keeps witness (file_Write f data);
  file_Sync_keeps f : keeps witness (file_Sync f);
  file_Chmod_keeps f : keeps witness (file_Chmod f);
  file_Close_keeps f : keeps witness (file_Close f);
  file_Read_keeps f : keeps witness (file_Read f);
  Load_law id x r x' : Load id x = (r, x') → ∃ h, moves (witness x) h ∧ moves h (witness x') ∧
    match r with Ok head => h !! id = Some (semanticExternalHead head) | Error _ => True end;
  Advance_law p n x r x' : CompareAndAdvance p n x = (r, x') → ∃ h h', moves (witness x) h ∧ moves h' (witness x') ∧
    ((h' = h ∧ is_ok r = false) ∨
     (extends (h !! eh_JournalID n) (semanticExternalHead p) (semanticExternalHead n) ∧
      h' = <[eh_JournalID n := semanticExternalHead n]> h)) }.

Section Laws.
Context {X : Type} `{!GoWorld X, !FileSystem X, !ExternalHeadStore X, !JournalLaws X}.

(** The keys are reached without moving heads. *)
Definition quiet_keys (j : FileJournal X) : Prop :=
  (∀ s p, fj_signer j = Some s → keeps witness (Sign s p)) ∧
  (∀ v k p sig, fj_verifier j = Some v → keeps witness (av_Verify v k p sig)).

(** A program during which the heads move by ledger steps. *)
Definition steady {A} : IO X A → Prop := respects (λ x x', moves (witness x) (witness x')).

#[local] Instance moves_between_preorder : PreOrder (λ x x', moves (witness x) (witness x')).
Proof. split; [intros x; reflexivity|intros x y z ? ?; by etrans]. Qed.

Lemma steady_ret {A} (a : A) : steady (mret a).
Proof. apply respects_ret, _. Qed.

Lemma steady_run {A} (m : IO X A) x : steady m → moves (witness x) (witness (m x).1.2).
Proof. intros Hm. destruct (m x) as [[a x'] t] eqn:H. by eapply Hm. Qed.

Lemma steady_bind {A B} (m : IO X A) (k : A → IO X B) : steady m → (∀ a, steady (k a)) → steady (m ≫= k).
Proof. apply respects_bind, _. Qed.

Lemma steady_call {A} (mk : A → io_event) f : keeps witness f → steady (call mk f).
Proof. apply respects_call. Qed.

Lemma steady_silent {A} (f : X → A * X) : keeps witness f → steady (silent f).
Proof. apply respects_silent. Qed.

Lemma steady_check {A} (m : IO X (option error)) wrap (k : IO X (result A)) : steady m → steady k → steady (check m wrap k).
Proof. apply respects_check, _. Qed.

Lemma steady_try {A B} (m : IO X (result A)) wrap (k : A → IO X (result B)) :
  steady m → (∀ a, steady (k a)) → steady (try m wrap k).
Proof. apply respects_try, _. Qed.

Lemma steady_Close f : steady (Close f).
Proof. apply steady_call, file_Close_keeps. Qed.

Lemma steady_check_close {A} f (m : IO X (option error)) wrap (k : IO X (result A)) :
  steady m → steady k → steady (check_close f m wrap k).
Proof. apply respects_check_close, steady_Close. apply _. Qed.

Lemma Load_keeps id : keeps witness (Load id).
Proof. intros x r x' (h & H1 & H2 & _)%Load_law. by etrans. Qed.

(** Steadiness of a program, by its structure. *)
Ltac steady_step :=
  match goal with
  | |- ∀ _, _ => intros ?
  | |- steady (let '(_, _) := ?p in _) => destruct p
  | |- steady (match ?x with _ => _ end) => destruct x
  | |- steady (let _ := _ in _) => cbv zeta
  | |- steady (mret _) => apply steady_ret
  | |- steady (check _ _ _) => apply steady_check
  | |- steady (check_close _ _ _ _) => apply steady_check_close
  | |- steady (try _ _ _) => apply steady_try
  | |- steady (_ ≫= _) => apply steady_bind
  | |- steady (Close _) => apply steady_Close
  | |- steady (silent _) => apply steady_silent
  | |- steady (call _ _) => apply steady_call
  | |- keeps _ _ => solve [eauto using ctx_Err_keeps, time_Now_keeps, rand_Read_keeps, os_Stat_keeps, os_MkdirAll_keeps,
      os_OpenFile_keeps, os_CreateTemp_keeps, os_ReadFile_keeps, os_Rename_keeps, os_Remove_keeps, file_Write_keeps,
      file_Sync_keeps, file_Chmod_keeps, file_Close_keeps, file_Read_keeps, Load_keeps]
  | |- steady ?m => first [solve [eauto] | let m' := eval red in m in change (steady m')]
  end.
Ltac steady_tac := repeat steady_step.

Lemma steady_readAnchor path : steady (readAnchor path).
Proof. unfold readAnchor. steady_tac. Qed.

Lemma steady_verifyAnchor anchor verifier : (∀ v k p sig, verifier = Some v → keeps witness (av_Verify v k p sig)) →
  steady (verifyAnchor anchor verifier).
Proof. intros Hv. unfold verifyAnchor. destruct verifier as [v|]; steady_tac. Qed.

Lemma steady_signAnchor anchor signer : (∀ s p, signer = Some s → keeps witness (Sign s p)) → steady (signAnchor anchor signer).
Proof. intros Hs. unfold signAnchor. destruct signer as [s|]; steady_tac. Qed.

Lemma steady_writeAnchorAtomic path anchor : steady (writeAnchorAtomic path anchor).
Proof. unfold writeAnchorAtomic. steady_tac. Qed.

Lemma steady_verifyIntegrityAndHead j : quiet_keys j → steady (verifyIntegrityAndHead j).
Proof.
  intros [_ Hv]. unfold verifyIntegrityAndHead. apply steady_bind; [apply steady_readAnchor|].
  intros [anchor|]; [|steady_tac]. pose proof (steady_verifyAnchor anchor (fj_verifier j)). steady_tac.
Qed.

Lemma steady_verifyUnlocked j : quiet_keys j → steady (verifyUnlocked j).
Proof. intros Hj. apply steady_bind; [by apply steady_verifyIntegrityAndHead|]. intros v. apply steady_ret. Qed.

Lemma steady_append_line path line : steady (append_line path line).
Proof. unfold append_line. steady_tac. Qed.

Lemma steady_pathExists path : steady (pathExists path).
Proof. unfold pathExists. steady_tac. Qed.

Lemma steady_randomID : steady randomID.
Proof. unfold randomID. steady_tac. Qed.

(** ** What a verification reads *)

(** The run read a file that holds these entries, a chain of the journal. *)
Definition read_entries (id : string) (t : list io_event) (es : list Entry) : Prop :=
  ∃ f content lines, EvRead f (content, None) ∈ t ∧ scan (content, None) = (lines, None) ∧ entries_of lines es ∧
    chain id 1 "" es.

Definition head_of_entries (id key : string) (es : list Entry) : quorumSemanticHead := {|
  qh_JournalID := id; qh_Sequence := wrap_u64 (Z.of_nat (length es)); qh_HeadHash := head_hash "" es; qh_KeyID := key |}.

Lemma read_entries_mono id t t1 t2 es : read_entries id t es → read_entries id (t1 ++ t ++ t2) es.
Proof. intros (f & c & lines & Hin & H). exists f, c, lines. rewrite !elem_of_app. auto. Qed.

Lemma read_entries_sound id t es : read_entries id t es → chain id 1 "" es ∧ Forall sound_entry es.
Proof. intros (f & c & lines & _ & _ & H & Hc). eauto using entries_sound. Qed.

Lemma verify_file_spec j anchor f x v x' t : verify_file j anchor f x = (v, x', t) → vf_Valid v = true →
  ∃ es, read_entries (an_JournalID anchor) t es ∧ an_Sequence anchor = wrap_u64 (Z.of_nat (length es)) ∧
    an_HeadHash anchor = head_hash "" es ∧ vf_EntryCount v = an_Sequence anchor ∧ vf_HeadHash v = an_HeadHash anchor ∧
    (fj_externalHead j = true → ∃ h, moves (witness x) h ∧ moves h (witness x') ∧
      h !! an_JournalID anchor = Some (semanticExternalHead (externalHeadFromAnchor anchor))).
Proof.
  unfold verify_file. intros (content & x1 & t1 & t2 & [Hread ->]%call_inv & H & ->)%bind_inv Hv.
  destruct (scan content) as [lines scanErr] eqn:Hscan.
  destruct (scan_entries _ _ _ _ _) as [u|[head n]] eqn:Hs.
  { apply ret_inv in H as (-> & _ & _). exfalso. clear -Hs Hv. revert Hs Hv.
    generalize 1, "", 0. induction lines as [|line lines IH]; [done|]. intros z s z'. cbn [scan_entries]. cbv zeta.
    repeat case_match; try by intros [= <-]. all: apply IH. }
  destruct scanErr; [by apply ret_inv in H as (-> & _ & _)|].
  apply (scan_entries_chain _ _ 1 "" 0) in Hs as (es & Hes & Hc & -> & ->). rewrite Z.add_0_l in H.
  destruct (Z.eqb_spec (an_Sequence anchor) (wrap_u64 (Z.of_nat (length es)))) as [Hseq|]; [|by apply ret_inv in H as (-> & _ & _)].
  destruct (str_eqb (an_HeadHash anchor) _) eqn:Hh; split_bool; [|by apply ret_inv in H as (-> & _ & _)]. cbn [negb] in H.
  assert (read_entries (an_JournalID anchor) ([EvRead f content] ++ t2) es) as Hre.
  { destruct content as [c [err|]].
    - unfold scan, scan_within in Hscan. destruct (scan_tokens _ _) as [? []]; simpl in Hscan; congruence.
    - exists f, c, lines. split_and!; try done. rewrite elem_of_app, list_elem_of_singleton. by left. }
  exists es. destruct (fj_externalHead j).
  - apply bind_inv in H as (r & x2 & t3 & t4 & [Hload ->]%call_inv & H & ->).
    destruct r as [external|err]; [|by apply ret_inv in H as (-> & _ & _)].
    destruct (_ || _) eqn:Hne; [by apply ret_inv in H as (-> & _ & _)|]. apply ret_inv in H as (-> & -> & ->).
    cbn [externalHeadFromAnchor eh_JournalID eh_Sequence eh_HeadHash eh_KeyID] in Hne. split_bool.
    repeat match goal with H : (_ =? _) = true |- _ => apply Z.eqb_eq in H end.
    split_and!; try done; cbn [vf_EntryCount vf_HeadHash]; [congruence..|]. intros _.
    apply Load_law in Hload as (h & Hm1 & Hm2 & Hr). exists h.
    split; [etrans; [by eapply file_Read_keeps|done]|]. split; [done|]. rewrite Hr.
    unfold semanticExternalHead, externalHeadFromAnchor. cbn. congruence.
  - apply ret_inv in H as (-> & -> & ->). split_and!; try done; cbn; congruence.
Qed.

(** A run in which a valid journal was read. *)
Record verified (j : FileJournal X) (x : X) (v : Verification) (x' : X) (t : list io_event) (anchor : Anchor) (es : list Entry)
    : Prop := {
  vd_pinned : fj_expectedJournalID j ≠ "" → an_JournalID anchor = fj_expectedJournalID j;
  vd_signed : ∃ payload signature, anchorSigningPayload anchor = Ok payload ∧
    EvVerify (an_KeyID anchor) payload signature None ∈ t;
  vd_entries : read_entries (an_JournalID anchor) t es;
  vd_sequence : an_Sequence anchor = wrap_u64 (Z.of_nat (length es));
  vd_head : an_HeadHash anchor = head_hash "" es;
  vd_count : vf_EntryCount v = an_Sequence anchor;
  vd_hash : vf_HeadHash v = an_HeadHash anchor;
  vd_witness : fj_externalHead j = true → ∃ h, moves (witness x) h ∧ moves h (witness x') ∧
    h !! an_JournalID anchor = Some (semanticExternalHead (externalHeadFromAnchor anchor)) }.

Lemma verifyAnchor_signed anchor (verifier : option (AnchorVerifier X)) x x' t : verifyAnchor anchor verifier x = (None, x', t) →
  ∃ payload signature, anchorSigningPayload anchor = Ok payload ∧ EvVerify (an_KeyID anchor) payload signature None ∈ t.
Proof.
  unfold verifyAnchor. destruct verifier as [verifier|]; [|done]. case_match; [done|].
  destruct (decodeSignature _) as [signature|]; [|done]. destruct (anchorSigningPayload anchor) as [payload|]; [|done].
  intros [_ ->]%call_inv. exists payload, signature. rewrite list_elem_of_singleton. done.
Qed.

Lemma verifyIntegrityAndHead_spec j x v x' t : quiet_keys j → verifyIntegrityAndHead j x = (v, x', t) → vf_Valid v = true →
  ∃ anchor es, verified j x v x' t anchor es.
Proof.
  intros Hj H Hv. unfold verifyIntegrityAndHead in H.
  apply bind_inv in H as (r & x1 & t1 & t2 & Hread & H & ->). apply steady_readAnchor in Hread.
  destruct r as [anchor|]; [|by apply ret_inv in H as (-> & _ & _)].
  destruct (negb _); [by apply ret_inv in H as (-> & _ & _)|].
  destruct (_ && _) eqn:Hid; [by apply ret_inv in H as (-> & _ & _)|].
  destruct (fj_verifier j) as [verifier|] eqn:Hver; [|by apply ret_inv in H as (-> & _ & _)].
  apply bind_inv in H as (err & x2 & t3 & t4 & Hva & H & ->).
  destruct err as [err|]; [by apply ret_inv in H as (-> & _ & _)|].
  pose proof (verifyAnchor_signed _ _ _ _ _ Hva) as (payload & signature & Hp & Hsig).
  apply steady_verifyAnchor in Hva; [|intros w k p sig [= <-]; by apply (proj2 Hj)].
  apply bind_inv in H as (f & x3 & t5 & t6 & Hopen & H & ->).
  assert (moves (witness x2) (witness x3)) as Hm3 by (eapply (steady_call _ _ (os_OpenFile_keeps _ _)), Hopen).
  destruct f as [f|]; [|by apply ret_inv in H as (-> & _ & _)].
  apply bind_inv in H as (w & x4 & t7 & t8 & Hfile & H & ->).
  apply bind_inv in H as (c & x5 & t9 & t10 & Hclose & (-> & -> & ->)%ret_inv & ->).
  apply steady_Close in Hclose.
  apply verify_file_spec in Hfile as (es & Hes & Hs & Hh & Hc & Hhash & Hw); [|done].
  exists anchor, es. split; try done.
  - intros He. rewrite (proj2 (str_eqb_neq _ _)) in Hid by done. cbn [negb andb] in Hid. by split_bool.
  - exists payload, signature. rewrite !elem_of_app. auto.
  - replace (t1 ++ t3 ++ t5 ++ t7 ++ t9 ++ []) with ((t1 ++ t3 ++ t5) ++ t7 ++ (t9 ++ [])) by by rewrite !app_assoc.
    by apply read_entries_mono.
  - intros Hx. destruct (Hw Hx) as (h & Hm1 & Hm2 & Hl). exists h. split; [|split; [by etrans|done]].
    etrans; [exact Hread|]. etrans; [exact Hva|]. etrans; [exact Hm3|exact Hm1].
Qed.

Lemma verifyUnlocked_spec j x v x' t : quiet_keys j → verifyUnlocked j x = (v, x', t) → vf_Valid v = true →
  ∃ anchor es, verified j x v x' t anchor es.
Proof.
  intros Hj (u & x1 & t1 & t2 & H & (-> & -> & ->)%ret_inv & ->)%bind_inv Hv. rewrite app_nil_r.
  apply verifyIntegrityAndHead_spec in H as (anchor & es & H); [|done..]. exists anchor, es. by destruct H.
Qed.

Lemma trusted_valid j x v x' t : verifyUnlocked j x = (v, x', t) → vf_HistoricalTrust v = HistoryTrusted →
  vf_Valid v = true ∧ fj_expectedJournalID j ≠ "" ∧ fj_externalHead j = true.
Proof.
  intros (u & x1 & t1 & t2 & _ & (-> & -> & ->)%ret_inv & ->)%bind_inv. cbn.
  destruct (vf_Valid u); [|done]. destruct (_ && _) eqn:Ht; [|done]. by split_bool.
Qed.

(** The ledger's list is the one that was read, unless two of their entries
    have payloads with one SHA-256. *)
Definition agree (log es : list Entry) : Prop :=
  coerce_entry <$> log = es ∨ ∃ e f, e ∈ log ∧ f ∈ es ∧ entry_collision e f.

Lemma read_agrees id t es L hd : read_entries id t es → heads_of L !! id = Some hd → qh_HeadHash hd = head_hash "" es →
  ledger_ok L → ∃ key log, L !! id = Some (key, log) ∧ agree log es.
Proof.
  intros Hes Hw Hh Hok. rewrite lookup_heads_of in Hw. destruct (L !! id) as [[key log]|] eqn:HL; [|done].
  injection Hw as <-. exists key, log. split; [done|]. destruct (Hok _ _ HL) as [Hc Hr].
  apply read_entries_sound in Hes as [Hce Hse]. destruct (chain_determined _ _ _ _ log es Hc Hce) as [Heq|Hcol]; try done.
  - eapply Forall_impl; [exact Hse|]. apply sound_readable.
  - left. by rewrite Heq, coerce_sound_list.
  - by right.
Qed.

(** ** What a writer adds *)

(** At one moment the entry became the newest of its journal. *)
Definition appended (e : Entry) (h h' : heads) : Prop := ∀ L, h = heads_of L → ∃ L1 key es key' L',
  ledger_steps L L1 ∧ L1 !! en_JournalID e = Some (key, es) ∧
  let L2 := <[en_JournalID e := (key', es ++ [e])]> L1 in ledger_step L1 L2 ∧ ledger_steps L2 L' ∧ h' = heads_of L'.

Lemma appended_before e h1 h2 h3 : moves h1 h2 → appended e h2 h3 → appended e h1 h3.
Proof.
  intros Hm Ha L ->. destruct (Hm L eq_refl) as (L0 & H0 & ->).
  destruct (Ha L0 eq_refl) as (L1 & key & es & key' & L' & H1 & H). exists L1, key, es, key', L'.
  split; [by etrans|done].
Qed.

Lemma appended_moves e h h' : appended e h h' → moves h h'.
Proof.
  intros Ha L ->. destruct (Ha L eq_refl) as (L1 & key & es & key' & L' & H1 & _ & Hs & H2 & ->). exists L'. split; [|done].
  etrans; [done|]. etrans; [by apply rtc_once|done].
Qed.

(** A program that returns an entry of which [P] holds, and has recorded it when
    [external]. *)
Definition writes (external : bool) (P : Entry → Prop) (m : IO X (result Entry)) : Prop := ∀ x r x' t, m x = (r, x', t) →
  moves (witness x) (witness x') ∧
  ∀ e, r = Ok e → P e ∧ (external = true → appended e (witness x) (witness x')).

Lemma writes_run external P (m : IO X (result Entry)) x : writes external P m → moves (witness x) (witness (m x).1.2).
Proof. intros Hm. destruct (m x) as [[a x'] t] eqn:H. by eapply Hm. Qed.

Lemma writes_error external P err : writes external P (mret (Error err)).
Proof. intros x r x' t (-> & -> & _)%ret_inv. done. Qed.

Lemma writes_bind {A} external P (m : IO X A) (Q : A → Prop) k : steady m → (∀ x a x' t, m x = (a, x', t) → Q a) →
  (∀ a, Q a → writes external P (k a)) → writes external P (m ≫= k).
Proof.
  intros Hm HQ Hk x r x' t (a & x1 & t1 & t2 & H1 & H2 & ->)%bind_inv. pose proof (Hm _ _ _ _ H1) as Hs. cbn beta in Hs.
  apply Hk in H2 as [Hmv He]; [|by eapply HQ]. split; [by etrans|]. intros e Hr. destruct (He e Hr) as [HP Ha].
  split; [done|]. intros Hx. by eapply appended_before, Ha.
Qed.

Lemma writes_try {A} external P (m : IO X (result A)) (Q : A → Prop) wrap k : steady m →
  (∀ x a x' t, m x = (Ok a, x', t) → Q a) → (∀ a, Q a → writes external P (k a)) → writes external P (try m wrap k).
Proof.
  intros Hm HQ Hk. apply (writes_bind _ _ _ (λ r, ∀ a, r = Ok a → Q a)); [done| |].
  - intros x r x' t H a ->. by eapply HQ.
  - intros [a|err] H; [apply Hk; by apply H|apply writes_error].
Qed.

Lemma writes_check external P (m : IO X (option error)) wrap k : steady m → writes external P k →
  writes external P (check m wrap k).
Proof. intros Hm Hk. apply (writes_bind _ _ _ (λ _, True)); [done..|]. intros [err|] _; [apply writes_error|done]. Qed.

(** The step of the writer itself. *)
Lemma advance_appends a e key' x r x' : is_u64 (an_Sequence a) → readable e →
  links (an_JournalID a) (an_Sequence a + 1) (an_HeadHash a) e →
  CompareAndAdvance (externalHeadFromAnchor a) {| eh_JournalID := an_JournalID a; eh_Sequence := en_Sequence e;
    eh_HeadHash := en_EntryHash e; eh_KeyID := key'; eh_StoreVersion := "" |} x = (r, x') →
  moves (witness x) (witness x') ∧ (is_ok r = true → appended e (witness x) (witness x')).
Proof.
  intros Hu Hr Hl Hc. apply Advance_law in Hc as (h & h' & Hm1 & Hm2 & Hs). cbn [eh_JournalID] in Hs.
  destruct Hs as [[-> Hbad]|[Hx ->]]; [split; [by etrans|by rewrite Hbad]|].
  enough (appended e (witness x) (witness x')) as H by (split; [by eapply appended_moves|done]).
  eapply appended_before; [exact Hm1|]. intros L ->. destruct Hl as (Hv & Hid & Hseq & Hprev & Hhash). 
  unfold is_u64 in Hu. rewrite lookup_heads_of in Hx.
  destruct (L !! an_JournalID a) as [[key es]|] eqn:HL; cbn in Hx.
  2:{ destruct Hx as (Hs0 & _ & Hn). rewrite Hs0 in Hseq. unfold wrap_u64 in Hseq. rewrite Z.mod_small in Hseq by lia. lia. }
  destruct Hx as (Hs & Hh & _ & Hle & _).
  assert (en_Sequence e = an_Sequence a + 1) as Hseq'.
  { rewrite Hseq. unfold wrap_u64 in *. destruct (decide (an_Sequence a + 1 = 2 ^ 64)) as [E|].
    - rewrite E, Z.mod_same in Hseq by lia. lia.
    - apply Z.mod_small. lia. }
  destruct (Hm2 (<[an_JournalID a := (key', es ++ [e])]> L)) as (L' & HL' & ->).
  { rewrite heads_of_insert. f_equal. unfold head_of, semanticExternalHead.
    cbn [fst snd eh_JournalID eh_Sequence eh_HeadHash eh_KeyID]. rewrite length_app, head_hash_app, Hseq'.
    f_equal. simpl. lia. }
  exists L, key, es, key', L'. rewrite Hid. split; [done|]. split; [done|]. cbv zeta. split; [|done].
  apply (append _ _ key); [done..|]. unfold head_hash. by rewrite Hs, Hh.
Qed.

Lemma decode_anchor_u64 s a : decode_anchor s = Ok a → is_u64 (an_Sequence a).
Proof.
  unfold decode_anchor, Unmarshal. destruct (parse_json s) as [v|] eqn:Hp; [|done]. apply parse_json_utf8 in Hp.
  assert (is_u64 (an_Sequence (decode_struct anchor_struct v zero_Anchor).1)) as H.
  { assert (is_u64 (an_Sequence zero_Anchor)) by (unfold is_u64; cbn; lia).
    destruct v as [| | | | |members]; try done. cbn [decode_struct].
    apply (decode_members_inv _ (λ a, is_u64 (an_Sequence a))); [|done..]. intros f v r Hf _ Hr.
    pose proof (decode_number_bounds parse_uint64 is_u64 v _ parse_uint64_bounds Hr) as Hseq.
    destruct r as [a1 a2 a3 a4 a5 a6 a7]. cbn in Hr, Hseq.
    each_field Hf; cbn [on_field sf_set an_Sequence an_Version an_JournalID an_HeadHash an_KeyID an_UpdatedAt an_Signature];
      try (match goal with |- context [let '(_, _) := ?d in _] => destruct d end; cbn in *; done).
    unfold decode_uint64. destruct (decode_number _ _ _). done. }
  destruct (decode_struct _ v _) as [r [err|]]; [done|]. by intros [= <-].
Qed.

Lemma readAnchor_u64 path (x : X) a x' t : readAnchor path x = (Ok a, x', t) → is_u64 (an_Sequence a).
Proof.
  unfold readAnchor, try. intros (data & x1 & t1 & t2 & _ & H & ->)%bind_inv. destruct data as [data|]; [|by apply ret_inv in H as [? _]].
  destruct (decode_anchor data) eqn:Hd; apply ret_inv in H as [Ha _]; [|done]. injection Ha as ->. by eapply decode_anchor_u64.
Qed.

Lemma signAnchor_fields a signer (x : X) b x' t : signAnchor a signer x = (Ok b, x', t) →
  externalHeadFromAnchor b = {| eh_JournalID := an_JournalID a; eh_Sequence := an_Sequence a; eh_HeadHash := an_HeadHash a;
    eh_KeyID := an_KeyID b; eh_StoreVersion := "" |}.
Proof.
  unfold signAnchor, try. destruct signer as [s|]; [|by intros [? _]%ret_inv]. cbv zeta.
  destruct (negb _); [by intros [? _]%ret_inv|]. destruct (anchorSigningPayload _); [|by intros [? _]%ret_inv].
  intros (sig & x1 & t1 & t2 & _ & H & ->)%bind_inv. destruct sig; apply ret_inv in H as [H _]; [|done].
  injection H as ->. unfold externalHeadFromAnchor. by destruct (str_eqb (an_KeyID a) "").
Qed.

(** The entry that [Append] makes of an event. *)
Definition made_from (ev : Event) (e : Entry) : Prop :=
  ∃ t, en_Event e = set_OccurredAt ev (utc t) ∧ (gt_instant (ev_OccurredAt ev) ≠ 0 → t = gt_instant (ev_OccurredAt ev)).

Lemma event_at_spec ev t : ev_OccurredAt (event_at t ev) = t ∧ ∀ u, event_at u (event_at t ev) = event_at u ev.
Proof. by destruct ev. Qed.

Lemma occurred_spec ev (x : X) occurred x' t :
  (if IsZero (gt_instant (ev_OccurredAt ev)) then (now ← Now (E := io_event); mret (utc now))
   else mret (utc (gt_instant (ev_OccurredAt ev)))) x = (occurred, x', t) →
  ∃ u, occurred = utc u ∧ (gt_instant (ev_OccurredAt ev) ≠ 0 → u = gt_instant (ev_OccurredAt ev)).
Proof.
  unfold IsZero. destruct (Z.eqb_spec (gt_instant (ev_OccurredAt ev)) 0).
  - intros (now & x1 & t1 & t2 & _ & (-> & _)%ret_inv & _)%bind_inv. by exists now.
  - intros (-> & _)%ret_inv. eauto.
Qed.

Lemma Append_writes j ev : quiet_keys j → writes (fj_externalHead j) (made_from ev) (Append j ev).
Proof.
  intros Hj. unfold Append. apply writes_check; [steady_tac|].
  apply (writes_bind _ _ _ (λ _, True)); [by apply steady_verifyUnlocked|done|]. intros v _.
  destruct (negb _); [apply writes_error|].
  apply (writes_try _ _ _ (λ a, is_u64 (an_Sequence a))); [apply steady_readAnchor|apply readAnchor_u64|]. intros a Ha.
  eapply writes_bind; [destruct (IsZero _); steady_tac|intros ????; apply occurred_spec|]. cbn beta.
  intros occurred (u & -> & Hu). cbv zeta. destruct (hashEntry _) as [hash|] eqn:Hhash; [|apply writes_error].
  set (entry := with_EntryHash hash _). destruct (marshal_entry entry) as [line|]; [|apply writes_error].
  apply (writes_try _ _ _ (λ _, True)); [apply steady_append_line|done|]. intros _ _.
  apply (writes_bind _ _ _ (λ _, True)); [steady_tac|done|]. intros now _.
  eapply writes_try; [apply steady_signAnchor; intros s p Hs; by apply (proj1 Hj)|intros ????; apply signAnchor_fields|].
  cbn beta. intros b Hb. cbn [an_JournalID an_Sequence an_HeadHash] in Hb.
  apply (writes_try _ _ _ (λ _, True)); [apply steady_writeAnchorAtomic|done|]. intros _ _.
  assert (made_from ev entry) as Hmade by (by exists u).
  assert (readable entry ∧ links (an_JournalID a) (an_Sequence a + 1) (an_HeadHash a) entry) as [Hr Hl].
  { split.
    - split_and!; [change (MinInt64 ≤ 2 ≤ MaxInt64); unfold MinInt64, MaxInt64; lia|apply wrap_u64_is_u64|].
      destruct ev. by split.
    - by split_and!. }
  destruct (fj_externalHead j); [|by intros x r x' t (-> & -> & _)%ret_inv; split; [|intros e [= <-]]].
  intros x r x' t (c & x1 & t1 & t2 & [Hc ->]%call_inv & H & ->)%bind_inv. rewrite Hb in Hc.
  apply (advance_appends a entry) in Hc as [Hm Hap]; [|done..].
  destruct c as [head|err]; apply ret_inv in H as (-> & -> & _); split; try done.
  intros e [= <-]. split; [done|]. intros _. by apply Hap.
Qed.

(** ** Creation *)

Lemma advance_enrolls id key x r x' :
  CompareAndAdvance {| eh_JournalID := id; eh_Sequence := 0; eh_HeadHash := ""; eh_KeyID := ""; eh_StoreVersion := "" |}
    {| eh_JournalID := id; eh_Sequence := 0; eh_HeadHash := ""; eh_KeyID := key; eh_StoreVersion := "" |} x = (r, x') →
  moves (witness x) (witness x').
Proof.
  intros (h & h' & Hm1 & Hm2 & Hs)%Advance_law. etrans; [exact Hm1|]. etrans; [|exact Hm2]. clear Hm1 Hm2.
  destruct Hs as [[-> _]|[Hx ->]]; [done|]. cbn [eh_JournalID] in *. intros L ->. rewrite lookup_heads_of in Hx.
  destruct (L !! id) as [[k es]|] eqn:HL; cbn in Hx.
  - destruct Hx as (Hs & _ & Hk & _ & Hsame). destruct (Hsame (eq_sym Hs)) as [_ ->]. destruct es; [|cbn in Hs; lia].
    exists L. split; [done|]. apply map_eq. intros i. destruct (decide (id = i)) as [<-|Hne].
    + by rewrite lookup_insert_eq, lookup_heads_of, HL.
    + by rewrite lookup_insert_ne.
  - exists (<[id := (key, [])]> L). split; [by apply rtc_once, enroll|]. by rewrite heads_of_insert.
Qed.

Lemma steady_try_with {A B} (m : IO X (result A)) (Q : A → Prop) wrap (k : A → IO X (result B)) :
  steady m → (∀ x a x' t, m x = (Ok a, x', t) → Q a) → (∀ a, Q a → steady (k a)) → steady (try m wrap k).
Proof.
  intros Hm HQ Hk x b x' t (r & x1 & t1 & t2 & H1 & H2 & ->)%bind_inv. etrans; [by eapply Hm|].
  destruct r as [a|err]; [eapply Hk, H2; by eapply HQ|]. by apply ret_inv in H2 as (_ & -> & _).
Qed.

Lemma steady_initialize j : quiet_keys j → steady (initialize j).
Proof.
  intros Hj. unfold initialize.
  apply steady_try; [apply steady_pathExists|intros b1]. apply steady_try; [apply steady_pathExists|intros b2].
  destruct (b1 && b2); [steady_tac|]. destruct (negb _); [steady_tac|].
  do 2 (apply steady_check; [steady_tac|]).
  apply steady_try; [destruct (str_eqb _ _); [apply steady_randomID|steady_tac]|]. intros id.
  apply steady_try; [steady_tac|]. intros f. apply steady_check_close; [steady_tac|]. apply steady_check; [steady_tac|].
  apply steady_bind; [steady_tac|]. intros now. cbv zeta.
  eapply steady_try_with; [apply steady_signAnchor; intros s p Hs; by apply (proj1 Hj)|intros ????; apply signAnchor_fields|].
  intros b Hb. cbn [an_JournalID an_Sequence an_HeadHash] in Hb. apply steady_try; [apply steady_writeAnchorAtomic|].
  intros _. destruct (fj_externalHead j); [|steady_tac]. rewrite Hb. apply steady_try; [|steady_tac].
  apply steady_call. intros x r x'. apply advance_enrolls.
Qed.

Lemma newFileJournal_keys path anchorPath signer verifier j : newFileJournal path anchorPath signer verifier = Ok j →
  fj_signer (X := X) j = signer ∧ fj_verifier j = verifier.
Proof. unfold newFileJournal. destruct signer; [|done]. case_match; [done|]. destruct verifier; [|done]. by intros [= <-]. Qed.

Lemma newAnchored_fields path anchorPath id signer verifier external j :
  newAnchoredFileJournal path anchorPath id signer verifier external = Ok j →
  fj_signer (X := X) j = signer ∧ fj_verifier j = verifier ∧ fj_externalHead j = true ∧ fj_expectedJournalID j = id ∧ id ≠ "".
Proof.
  unfold newAnchoredFileJournal. destruct (_ || _) eqn:Hid; [done|]. destruct external; [|done]. cbn [negb].
  destruct (newFileJournal _ _ _ _) eqn:Hn; [|done]. intros [= <-]. apply newFileJournal_keys in Hn as [<- <-].
  split_and!; try done. split_bool. by intros ->.
Qed.

(** The keys a journal is given. *)
Definition quiet_args (signer : option (AnchorSigner X)) (verifier : option (AnchorVerifier X)) : Prop :=
  (∀ s p, signer = Some s → keeps witness (Sign s p)) ∧ (∀ v k p sig, verifier = Some v → keeps witness (av_Verify v k p sig)).

Lemma steady_Create path anchorPath id signer verifier external : quiet_args signer verifier →
  steady (CreateAnchoredFileJournal path anchorPath id signer verifier external).
Proof.
  intros Hq. unfold CreateAnchoredFileJournal. apply steady_check; [steady_tac|].
  destruct (newAnchoredFileJournal _ _ _ _ _ _) as [j|] eqn:Hj; [|steady_tac].
  apply newAnchored_fields in Hj as (Hs & Hv & _). assert (quiet_keys j) as Hk by (unfold quiet_keys; by rewrite Hs, Hv).
  apply steady_try; [cbn [none_exist]; repeat (apply steady_try; [apply steady_pathExists|intros []; [steady_tac|]]); steady_tac|].
  intros _. apply steady_bind; [steady_tac|]. intros [h|err]; [steady_tac|]. destruct (negb _); [steady_tac|].
  apply steady_check; [steady_tac|]. apply steady_try; [by apply steady_initialize|]. intros _.
  apply steady_bind; [by apply steady_verifyUnlocked|]. intros v. steady_tac.
Qed.

Lemma steady_Open path anchorPath id signer verifier external : quiet_args signer verifier →
  steady (OpenAnchoredFileJournal path anchorPath id signer verifier external).
Proof.
  intros Hq. unfold OpenAnchoredFileJournal. apply steady_check; [steady_tac|].
  destruct (newAnchoredFileJournal _ _ _ _ _ _) as [j|] eqn:Hj; [|steady_tac].
  apply newAnchored_fields in Hj as (Hs & Hv & _). apply steady_bind; [|intros v; steady_tac].
  apply steady_verifyUnlocked. unfold quiet_keys. by rewrite Hs, Hv.
Qed.

Lemma steady_Verify j : quiet_keys j → steady (Verify j).
Proof.
  intros Hj. unfold Verify. apply steady_bind; [steady_tac|]. intros [err|]; [steady_tac|]. by apply steady_verifyUnlocked.
Qed.

Lemma Verify_unlocked j x v x' t : Verify j x = (v, x', t) → vf_Valid v = true → ∃ x1, moves (witness x) (witness x1) ∧
  verifyUnlocked j x1 = (v, x', t).
Proof.
  unfold Verify. intros (err & x1 & t1 & t2 & [Hc ->]%silent_inv & H & ->)%bind_inv Hv. exists x1.
  split; [by eapply ctx_Err_keeps|]. destruct err; [by apply ret_inv in H as (-> & _)|done].
Qed.

(** A trusted verification read the entries below a head that the witness held
    during the call. *)
Lemma Verify_trusted j x v x' t : quiet_keys j → Verify j x = (v, x', t) → vf_HistoricalTrust v = HistoryTrusted →
  let id := fj_expectedJournalID j in
  ∃ es h hd, read_entries id t es ∧ vf_EntryCount v = wrap_u64 (Z.of_nat (length es)) ∧ vf_HeadHash v = head_hash "" es ∧
    moves (witness x) h ∧ moves h (witness x') ∧ h !! id = Some hd ∧ qh_HeadHash hd = head_hash "" es.
Proof.
  intros Hj H Ht. unfold Verify in H. apply bind_inv in H as (err & x1 & t1 & t2 & [Hc ->]%silent_inv & H & ->).
  destruct err; [by apply ret_inv in H as (-> & _)|]. pose proof (trusted_valid _ _ _ _ _ H Ht) as (Hv & Hid & Hx).
  destruct (verifyUnlocked_spec _ _ _ _ _ Hj H Hv) as (a & es & Hver).
  pose proof (vd_pinned _ _ _ _ _ _ _ Hver Hid) as <-. destruct (vd_witness _ _ _ _ _ _ _ Hver Hx) as (h & Hm1 & Hm2 & Hh).
  destruct Hver as [_ _ Hes Hs Hhash Hcount Hhead _]. exists es, h, (semanticExternalHead (externalHeadFromAnchor a)).
  split_and!; try done; try congruence. etrans; [by eapply ctx_Err_keeps|done].
Qed.

(** The anchor of a verification: signed, and naming what was read. *)
Definition names_history (a : Anchor) (v : Verification) (t : list io_event) (es : list Entry) : Prop :=
  (∃ payload signature, anchorSigningPayload a = Ok payload ∧ EvVerify (an_KeyID a) payload signature None ∈ t) ∧
  an_Sequence a = wrap_u64 (Z.of_nat (length es)) ∧ an_HeadHash a = head_hash "" es ∧ vf_EntryCount v = an_Sequence a ∧
  head_hash "" es = vf_HeadHash v ∧ chain (an_JournalID a) 1 "" es.

Lemma Verify_names j x v x' t : quiet_keys j → Verify j x = (v, x', t) → vf_Valid v = true →
  ∃ a es, read_entries (an_JournalID a) t es ∧ names_history a v t es.
Proof.
  intros Hj H Hv. unfold Verify in H. apply bind_inv in H as (err & x1 & t1 & t2 & [Hc ->]%silent_inv & H & ->).
  destruct err; [by apply ret_inv in H as (-> & _)|].
  destruct (verifyUnlocked_spec _ _ _ _ _ Hj H Hv) as (a & es & [_ Hs Hes Hn Hh Hcount Hhash _]). exists a, es.
  split; [done|]. split_and!; try done; [congruence|]. by destruct (read_entries_sound _ _ _ Hes).
Qed.
End Laws.
