(* ===== verification/MemoryFS.v ===== *)
(** * A file system in memory

    An implementation of the interfaces of [FileSystem.v] and of the head store
    interface, in which nothing else happens between two calls: files by path,
    open descriptors, a clock that stands still, and a head store [W].  With a
    store that keeps the laws of [HeadStore.v] it keeps those of the journal. *)

From stdpp Require Import stringmap.
From S2P Require Import Prelude Crypto Format Json HeadStore JournalEntry FileSystem Journal Ledger.
Local Open Scope Z_scope.

Record mem (W : Type) : Type := {
  mem_files : stringmap string; mem_open : gmap Z string; mem_next : Z; mem_clock : time; mem_heads : W }.
Arguments Build_mem {W} _ _ _ _ _.
Arguments mem_files {W} _.
Arguments mem_open {W} _.
Arguments mem_next {W} _.
Arguments mem_clock {W} _.
Arguments mem_heads {W} _.

Definition ErrNotExist : error := ErrNew "file does not exist".
Definition ErrExist : error := ErrNew "file already exists".
Definition ErrClosed : error := ErrNew "file already closed".

Section Memory.
Context {W : Type}.
Implicit Types (m : mem W).

Definition set_files (files : stringmap string) m : mem W :=
  {| mem_files := files; mem_open := mem_open m; mem_next := mem_next m; mem_clock := mem_clock m; mem_heads := mem_heads m |}.

Definition set_open (fds : gmap Z string) m : mem W :=
  {| mem_files := mem_files m; mem_open := fds; mem_next := mem_next m; mem_clock := mem_clock m; mem_heads := mem_heads m |}.

Definition set_heads (heads : W) m : mem W :=
  {| mem_files := mem_files m; mem_open := mem_open m; mem_next := mem_next m; mem_clock := mem_clock m; mem_heads := heads |}.

(** A new descriptor for a path. *)
Definition open_at (path : string) m : result file * mem W :=
  (Ok {| file_fd := mem_next m; file_Name := path |},
   {| mem_files := mem_files m; mem_open := <[mem_next m := path]> (mem_open m); mem_next := mem_next m + 1;
      mem_clock := mem_clock m; mem_heads := mem_heads m |}).

Definition mem_Stat (path : string) m : option error * mem W :=
  (match mem_files m !! path with Some _ => None | None => Some ErrNotExist end, m).

Definition mem_OpenFile (path : string) (flags : open_flags) m : result file * mem W :=
  match flags, mem_files m !! path with
  | CreateExclusive, None => open_at path (set_files (<[path := ""]> (mem_files m)) m)
  | CreateExclusive, Some _ => (Error ErrExist, m)
  | LockFile, None => open_at path (set_files (<[path := ""]> (mem_files m)) m)
  | _, None => (Error ErrNotExist, m)
  | _, Some _ => open_at path m
  end.

(** The part of a pattern before its star. *)
Fixpoint temp_prefix (pattern : string) : string :=
  match pattern with
  | "" => ""
  | String a pattern => if Ascii.eqb a "*" then "" else String a (temp_prefix pattern)
  end.

Definition mem_CreateTemp (dir pattern : string) m : result file * mem W :=
  let path := fresh_string (dir +:+ "/" +:+ temp_prefix pattern) (mem_files m) in
  open_at path (set_files (<[path := ""]> (mem_files m)) m).

Definition mem_ReadFile (path : string) m : result string * mem W :=
  (match mem_files m !! path with Some data => Ok data | None => Error ErrNotExist end, m).

Definition mem_Rename (from to : string) m : option error * mem W :=
  match mem_files m !! from with
  | None => (Some ErrNotExist, m)
  | Some data => (None, set_files (<[to := data]> (delete from (mem_files m))) m)
  end.

Definition mem_Remove (path : string) m : option error * mem W :=
  match mem_files m !! path with
  | None => (Some ErrNotExist, m)
  | Some _ => (None, set_files (delete path (mem_files m)) m)
  end.

(** The path an open file stands for. *)
Definition at_path {A} (f : file) (closed : A) (k : string → A * mem W) m : A * mem W :=
  match mem_open m !! file_fd f with Some path => k path | None => (closed, m) end.

Definition mem_Write (f : file) (data : string) m : option error * mem W :=
  at_path f (Some ErrClosed) (λ path, (None, set_files (alter (λ old, old +:+ data) path (mem_files m)) m)) m.

Definition mem_Sync (f : file) m : option error * mem W := at_path f (Some ErrClosed) (λ _, (None, m)) m.

Definition mem_Close (f : file) m : option error * mem W :=
  at_path f (Some ErrClosed) (λ _, (None, set_open (delete (file_fd f) (mem_open m)) m)) m.

Definition mem_Read (f : file) m : (string * option error) * mem W :=
  at_path f ("", Some ErrClosed) (λ path, ((default "" (mem_files m !! path), None), m)) m.

#[export] Instance mem_world : GoWorld (mem W) := {|
  ctx_Err := λ m, (None, m);
  time_Now := λ m, (mem_clock m, m);
  rand_Read := λ n m, (Ok (string_of_bytes (repeat 0%N n)), m) |}.

#[export] Instance mem_file_system : FileSystem (mem W) := {|
  os_IsNotExist := λ err, bool_decide (err = ErrNotExist);
  os_Stat := mem_Stat;
  os_MkdirAll := λ _ m, (None, m);
  os_OpenFile := mem_OpenFile;
  os_CreateTemp := mem_CreateTemp;
  os_ReadFile := mem_ReadFile;
  os_Rename := mem_Rename;
  os_Remove := mem_Remove;
  file_Write := mem_Write;
  file_Sync := mem_Sync;
  file_Chmod := mem_Sync;
  file_Close := mem_Close;
  file_Read := mem_Read |}.

#[export] Instance mem_head_store `{!ExternalHeadStore W} : ExternalHeadStore (mem W) := {|
  Load := λ id m, let '(r, heads) := Load id (mem_heads m) in (r, set_heads heads m);
  CompareAndAdvance := λ previous next m,
    let '(r, heads) := CompareAndAdvance previous next (mem_heads m) in (r, set_heads heads m) |}.

Definition empty_mem (clock : time) (heads : W) : mem W :=
  {| mem_files := ∅; mem_open := ∅; mem_next := 3; mem_clock := clock; mem_heads := heads |}.
End Memory.

(** * It keeps the laws *)

Section MemoryLaws.
Context {W : Type} `{!ExternalHeadStore W, !HeadStoreLaws W}.

(** A call that leaves the witness alone. *)
Lemma keeps_heads {A} (f : mem W → A * mem W) : (∀ m, mem_heads (f m).2 = mem_heads m) →
  keeps (λ m, recorded (mem_heads m)) f.
Proof. intros Hf m a m' Hm. specialize (Hf m). rewrite Hm in Hf. cbn in Hf. rewrite Hf. reflexivity. Qed.

Lemma at_path_heads {A} (f : file) (closed : A) (k : string → A * mem W) m :
  (∀ path, mem_heads (k path).2 = mem_heads m) → mem_heads (at_path f closed k m).2 = mem_heads m.
Proof. intros Hk. unfold at_path. by destruct (_ !! _). Qed.

#[export] Program Instance mem_laws : JournalLaws (mem W) := {| witness := λ m, recorded (mem_heads m) |}.
Solve All Obligations with
  (try (intros; apply keeps_heads; intros m; cbn;
    unfold mem_OpenFile, mem_Rename, mem_Remove, mem_Write, mem_Sync, mem_Close, mem_Read;
    first [by apply at_path_heads | by repeat case_match])).
Next Obligation.
  intros id m r m'. cbn. destruct (Load id (mem_heads m)) as [r0 w] eqn:H. intros [= <- <-]. cbn.
  apply load_recorded in H as [Hw Hr]. exists (recorded (mem_heads m)). rewrite Hw. split; [done|]. split; [done|].
  by destruct r0.
Qed.
Next Obligation.
  intros p n m r m'. cbn. destruct (CompareAndAdvance p n (mem_heads m)) as [r0 w] eqn:H. intros [= <- <-]. cbn.
  apply advance_recorded in H as [[Hw Hr]|(Hx & Hw & _)].
  - exists (recorded (mem_heads m)), (recorded (mem_heads m)). rewrite Hw. split_and!; [done..|by left].
  - exists (recorded (mem_heads m)), (recorded w). split_and!; [done..|by right].
Qed.
End MemoryLaws.
