(* ===== verification/AppendOnly.v ===== *)
(** * The journal's guarantees

    The properties of [Journal.v]: its operations keep the ledger of
    [Ledger.v], a trusted history is an extension of every earlier one, and a
    valid journal is named by its anchor.  They hold for any world that keeps
    [JournalLaws]; the examples run in the memory of [MemoryFS.v]. *)

From stdpp Require Import stringmap.
From S2P Require Import Prelude Crypto Format Json Base64 Unmarshal GoTime Permit HeadStore JournalEntry FileSystem Journal Ordered WriteOrder Ledger MemoryFS.
Local Open Scope Z_scope.

(** * A sample world *)

Abbreviation sample_world := (mem MemoryHeadStore).

Definition sample_signer : AnchorSigner sample_world := {| KeyID := "k"; Sign := λ p x, (Ok (sha256 p), x) |}.

Definition sample_verifier : AnchorVerifier sample_world := {|
  av_Verify := λ _ p s x, (if str_eqb s (sha256 p) then None else Some (ErrNew "bad signature"), x) |}.

Definition sample_journal : FileJournal sample_world := {|
  fj_path := "/d/journal"; fj_anchorPath := "/d/anchor"; fj_signer := Some sample_signer; fj_verifier := Some sample_verifier;
  fj_externalHead := true; fj_expectedJournalID := "j"; fj_publicKey := "" |}.

Definition sample_start : sample_world := empty_mem (63000000000 * second_ns) NewMemoryHeadStore.

Definition sample_create : result (FileJournal sample_world) * sample_world * list io_event :=
  CreateAnchoredFileJournal "/d/journal" "/d/anchor" "j" (Some sample_signer) (Some sample_verifier) true sample_start.

(** The journal is created, verified, appended to and verified again. *)
Definition sample_created : sample_world := sample_create.1.2.
Definition sample_verify : Verification * sample_world * list io_event := Verify sample_journal sample_created.
Definition sample_append : result Entry * sample_world * list io_event := Append sample_journal sample_event sample_verify.1.2.
Definition sample_again : Verification * sample_world * list io_event := Verify sample_journal sample_append.1.2.

Lemma sample_quiet : quiet_keys sample_journal.
Proof. split; [intros s p [= <-]|intros v k p sig [= <-]]; by apply keeps_heads. Qed.

Lemma sample_quiet_args : quiet_args (Some sample_signer) (Some sample_verifier).
Proof. split; [intros s p [= <-]|intros v k p sig [= <-]]; by apply keeps_heads. Qed.

Lemma sample_appends : ∃ e, sample_append.1.1 = Ok e ∧ en_Sequence e = 1.
Proof. eexists. vm_compute. split; reflexivity. Qed.

Lemma sample_trusted : vf_HistoricalTrust sample_verify.1.1 = HistoryTrusted ∧ vf_EntryCount sample_verify.1.1 = 0 ∧
  vf_HistoricalTrust sample_again.1.1 = HistoryTrusted ∧ vf_EntryCount sample_again.1.1 = 1.
Proof. vm_compute. done. Qed.

Lemma sample_start_witness : witness sample_start = ∅.
Proof. vm_compute. reflexivity. Qed.

Lemma sample_created_moves : moves ∅ (witness sample_created).
Proof. rewrite <- sample_start_witness. exact (steady_run _ _ (steady_Create _ _ _ _ _ _ sample_quiet_args)). Qed.

Lemma sample_append_moves : moves (witness sample_verify.1.2) (witness sample_append.1.2).
Proof. exact (writes_run _ _ _ _ (Append_writes _ _ sample_quiet)). Qed.

Lemma sample_again_valid : vf_Valid sample_verify.1.1 = true ∧ vf_Valid sample_again.1.1 = true.
Proof. vm_compute. done. Qed.

Lemma unpair {A B C} (p : A * B * C) : p = (p.1.1, p.1.2, p.2).
Proof. by destruct p as [[]]. Qed.

(** * Properties *)

Section Guarantees.
Context {X : Type} `{!GoWorld X, !FileSystem X, !ExternalHeadStore X, !JournalLaws X}.

(** C12: Every operation of the journal moves the recorded heads only as the
    ledger does -- enrolling a journal, or appending one entry that links to its
    head -- whatever other processes, and the files, do meanwhile.  An [Append]
    that returns an entry made it of the event, and with a witness the entry was at
    one moment the newest of the ledger. *)
Theorem journal_refines_ledger (j : FileJournal X) (Hj : quiet_keys j) :
  (∀ ev x r x' t, Append j ev x = (r, x', t) → moves (witness x) (witness x') ∧
     ∀ e, r = Ok e → made_from ev e ∧ (fj_externalHead j = true → appended e (witness x) (witness x'))) ∧
  (∀ x v x' t, Verify j x = (v, x', t) → moves (witness x) (witness x')) ∧
  (∀ path anchorPath id signer verifier external, quiet_args signer verifier → ∀ x r x' t,
     CreateAnchoredFileJournal path anchorPath id signer verifier external x = (r, x', t) ∨
     OpenAnchoredFileJournal path anchorPath id signer verifier external x = (r, x', t) → moves (witness x) (witness x')).
Proof.
  split_and!.
  - intros ev x r x' t H. by eapply Append_writes.
  - intros x v x' t H. by eapply steady_Verify.
  - intros path anchorPath id signer verifier external Hq x r x' t [H|H].
    + by eapply steady_Create.
    + by eapply steady_Open.
Qed.

(** C11: Two verifications that report trusted history, the second after the
    first, for one journal identity: the entries the first one read are a prefix of
    those the second one read, whoever wrote the files, or an entry of either
    collides in SHA-256 with an entry that was appended. *)
Theorem trusted_history_append_only (j1 j2 : FileJournal X) x1 v1 x1' t1 x2 v2 x2' t2
    (Hj1 : quiet_keys j1) (Hj2 : quiet_keys j2) (Hid : fj_expectedJournalID j1 = fj_expectedJournalID j2)
    (Hstart : moves ∅ (witness x1)) (Hv1 : Verify j1 x1 = (v1, x1', t1)) (Ht1 : vf_HistoricalTrust v1 = HistoryTrusted)
    (Hbetween : moves (witness x1') (witness x2))
    (Hv2 : Verify j2 x2 = (v2, x2', t2)) (Ht2 : vf_HistoricalTrust v2 = HistoryTrusted) :
  let id := fj_expectedJournalID j1 in
  ∃ es1 es2 L key log, read_entries id t1 es1 ∧ read_entries id t2 es2 ∧
    vf_EntryCount v1 = wrap_u64 (Z.of_nat (length es1)) ∧ vf_HeadHash v1 = head_hash "" es1 ∧
    vf_EntryCount v2 = wrap_u64 (Z.of_nat (length es2)) ∧ vf_HeadHash v2 = head_hash "" es2 ∧
    ledger_steps ∅ L ∧ L !! id = Some (key, log) ∧
    (es1 `prefix_of` es2 ∨ ∃ e f, e ∈ log ∧ f ∈ es1 ++ es2 ∧ entry_collision e f).
Proof.
  cbv zeta.
  destruct (Verify_trusted _ _ _ _ _ Hj1 Hv1 Ht1) as (es1 & h1 & hd1 & R1 & C1 & D1 & M1 & N1 & W1 & H1).
  destruct (Verify_trusted _ _ _ _ _ Hj2 Hv2 Ht2) as (es2 & h2 & hd2 & R2 & C2 & D2 & M2 & N2 & W2 & H2).
  rewrite <- Hid in *.
  assert (moves ∅ h1) as Hh1 by (by etrans). assert (moves h1 h2) as Hh2 by (etrans; [exact N1|by etrans]).
  destruct (Hh1 ∅) as (L1 & HL1 & ->); [done|]. destruct (Hh2 L1) as (L2 & HL2 & ->); [done|].
  assert (ledger_ok L1) as Hok1 by (eapply ledger_steps_ok; [exact HL1|apply map_Forall_empty]).
  destruct (read_agrees _ _ _ _ _ R1 W1 H1 Hok1) as (key1 & log1 & Hlog1 & A1).
  destruct (read_agrees _ _ _ _ _ R2 W2 H2 (ledger_steps_ok _ _ HL2 Hok1)) as (key2 & log2 & Hlog2 & A2).
  destruct (ledger_steps_grow _ _ HL2 _ _ _ Hlog1) as (key3 & fs & Hgrow). rewrite Hlog2 in Hgrow. injection Hgrow as <- ->.
  exists es1, es2, L2, key2, (log1 ++ fs). split_and!; try done; [by etrans|].
  destruct A1 as [<-|(e & f & He & Hf & Hc)].
  2:{ right. exists e, f. rewrite !elem_of_app. auto. }
  destruct A2 as [<-|(e & f & He & Hf & Hc)].
  - left. rewrite fmap_app. by apply prefix_app_r.
  - right. exists e, f. split; [done|]. rewrite elem_of_app. auto.
Qed.

(** Two valid verifications with one head hash, of journals with or without a
    witness, read the same entries, or two of those entries collide in SHA-256; and
    in each a verifier accepted a signature over an anchor that names the head and
    the number of entries. *)
Theorem head_hash_names_one_history (j1 j2 : FileJournal X) x1 v1 x1' t1 x2 v2 x2' t2
    (Hj1 : quiet_keys j1) (Hj2 : quiet_keys j2)
    (Hv1 : Verify j1 x1 = (v1, x1', t1)) (Hok1 : vf_Valid v1 = true)
    (Hv2 : Verify j2 x2 = (v2, x2', t2)) (Hok2 : vf_Valid v2 = true) (Hhead : vf_HeadHash v1 = vf_HeadHash v2) :
  ∃ a1 es1 a2 es2, read_entries (an_JournalID a1) t1 es1 ∧ read_entries (an_JournalID a2) t2 es2 ∧
    names_history a1 v1 t1 es1 ∧ names_history a2 v2 t2 es2 ∧
    (es1 = es2 ∨ ∃ e f, e ∈ es1 ∧ f ∈ es2 ∧ entry_collision e f).
Proof.
  destruct (Verify_names _ _ _ _ _ Hj1 Hv1 Hok1) as (a1 & es1 & R1 & N1).
  destruct (Verify_names _ _ _ _ _ Hj2 Hv2 Hok2) as (a2 & es2 & R2 & N2).
  exists a1, es1, a2, es2. split_and!; try done. apply read_entries_sound in R1 as [C1 S1], R2 as [C2 S2].
  destruct (chain_determined _ _ _ _ es1 es2 C1 C2) as [Heq|Hcol]; [| | |left|by right].
  - eapply Forall_impl; [exact S1|]. apply sound_readable.
  - eapply Forall_impl; [exact S2|]. apply sound_readable.
  - destruct N1 as (_ & _ & _ & _ & E1 & _), N2 as (_ & _ & _ & _ & E2 & _). congruence.
  - by rewrite !coerce_sound_list in Heq.
Qed.
End Guarantees.

Example journal_refines_ledger_witness : ∃ e, sample_append.1.1 = Ok e ∧ made_from sample_event e ∧
  appended e (witness sample_verify.1.2) (witness sample_append.1.2).
Proof.
  destruct sample_appends as (e & He & _). exists e. split; [exact He|].
  destruct (journal_refines_ledger sample_journal sample_quiet) as [Happend _].
  destruct (Happend _ _ _ _ _ (unpair sample_append)) as [_ H]. destruct (H e He) as [Hm Ha].
  split; [exact Hm|]. apply Ha. reflexivity.
Defined.

Example trusted_history_append_only_witness : ∃ es1 es2 L key log,
  read_entries "j" sample_verify.2 es1 ∧ read_entries "j" sample_again.2 es2 ∧ ledger_steps ∅ L ∧ L !! "j" = Some (key, log) ∧
  (es1 `prefix_of` es2 ∨ ∃ e f, e ∈ log ∧ f ∈ es1 ++ es2 ∧ entry_collision e f).
Proof.
  destruct sample_trusted as (H1 & _ & H2 & _).
  destruct (trusted_history_append_only sample_journal sample_journal _ _ _ _ _ _ _ _ sample_quiet sample_quiet eq_refl
    sample_created_moves (unpair sample_verify) H1 sample_append_moves (unpair sample_again) H2)
    as (es1 & es2 & L & key & log & R1 & R2 & _ & _ & _ & _ & HL & Hlog & H).
  exists es1, es2, L, key, log. split; [exact R1|]. split; [exact R2|]. split; [exact HL|]. split; [exact Hlog|exact H].
Defined.

Example head_hash_names_one_history_witness : ∃ a1 es1 a2 es2,
  read_entries (an_JournalID a1) sample_again.2 es1 ∧ read_entries (an_JournalID a2) sample_again.2 es2 ∧
  names_history a1 sample_again.1.1 sample_again.2 es1 ∧ names_history a2 sample_again.1.1 sample_again.2 es2 ∧
  (es1 = es2 ∨ ∃ e f, e ∈ es1 ∧ f ∈ es2 ∧ entry_collision e f).
Proof.
  destruct sample_again_valid as [_ H]. exact (head_hash_names_one_history sample_journal sample_journal _ _ _ _ _ _ _ _
    sample_quiet sample_quiet (unpair sample_again) H (unpair sample_again) H eq_refl).
Defined.

(** An append attempts its effects in one order -- the journal line is written
    and synced, the anchor is signed, written to a temporary file, synced and renamed
    into place, and only then the witness advances -- each only when those before it
    succeeded.  An entry is returned only when all of them did, and the line written
    is that entry's. *)
Theorem append_write_order {X} `{!GoWorld X, !FileSystem X, !ExternalHeadStore X} (j : FileJournal X) ev x r x' t
    (H : Append j ev x = (r, x', t)) :
  ∃ plan, append_plan j plan ∧ in_order plan (effects t) ∧
    ∀ e, r = Ok e → effects t = complete plan ∧ wrote_entry plan e.
Proof. by eapply carries_Append. Qed.

Example append_write_order_witness : ∃ e plan, sample_append.1.1 = Ok e ∧ append_plan sample_journal plan ∧
  in_order plan (effects sample_append.2) ∧ effects sample_append.2 = complete plan ∧ wrote_entry plan e.
Proof.
  destruct sample_appends as (e & He & _).
  destruct (append_write_order _ _ _ _ _ _ (unpair sample_append)) as (plan & Hp & Ho & Hr).
  exists e, plan. destruct (Hr e He) as [Hc Hw]. split; [exact He|]. split; [exact Hp|]. split; [exact Ho|]. split; [exact Hc|exact Hw].
Defined.

(** An event that is not UTF-8 is appended and then makes the journal invalid for
    good: the line holds the escaped replacement character, which a reader decodes
    and marshals again as the character itself, so the hash of the entry differs. *)
Definition broken_append : result Entry * sample_world * list io_event :=
  Append sample_journal (set_ActionID sample_event (String "255" "")) sample_verify.1.2.

Example appended_event_breaks_journal :
  (match broken_append.1.1 with Ok _ => true | Error _ => false end) = true ∧
  (let v := (Verify sample_journal broken_append.1.2).1.1 in (vf_Valid v, vf_Error v)) = (false, "entry 1 hash mismatch").
Proof. split; vm_compute; reflexivity. Qed.
