(* ===== verification/JournalText.v ===== *)
(** * The text of a journal

    A journal that holds entries is their lines, one after another: the JSON of an
    entry has no line break in it and neither begins nor ends with white space, so
    scanning the text gives the entries back. *)

From S2P Require Import Prelude Crypto Format Json Base64 Unmarshal GoTime Permit HeadStore JournalEntry FileSystem Journal.
Local Open Scope Z_scope.

(** * Marshalled text is printable *)

Definition printable (a : ascii) : bool := (0x20 <=? N_of_ascii a)%N.

Lemma all_chars_impl (p q : ascii → bool) s : (∀ a, p a = true → q a = true) → all_chars p s = true → all_chars q s = true.
Proof.
  intros H. induction s as [|a s IH]; [done|]. cbn [all_chars]. intros [Ha Hs]%andb_prop. by rewrite (H a Ha), IH.
Qed.

Lemma high_printable a : (0x80 ≤ N_of_ascii a)%N → printable a = true.
Proof. intros H. apply N.leb_le. lia. Qed.

Lemma hex_digit_printable n : (n < 16)%N → printable (hex_digit n) = true.
Proof.
  intros Hn. unfold printable, hex_digit. apply N.leb_le. rewrite N_ascii_embedding; destruct (N.ltb_spec n 10); lia.
Qed.

Lemma escape_ascii_printable a s : all_chars printable s = true → all_chars printable (escape_ascii a s) = true.
Proof.
  intros Hs. unfold escape_ascii. destruct (plain a) eqn:Hp.
  { cbn [all_chars]. rewrite Hs, andb_true_r. unfold plain, in_range in Hp. split_bool. by unfold printable. }
  repeat (case_match; [cbn [esc all_chars]; rewrite ?Hs; try done|]).
  { match goal with H : _ || _ = true |- _ => apply orb_prop in H as [H|H]; apply Ascii.eqb_eq in H as -> end; done. }
  change (all_chars printable (String (hex_digit (N_of_ascii a / 16)) (String (hex_digit (N_of_ascii a mod 16)) s)) = true).
  cbn [all_chars]. pose proof (byte_lt_256 a). rewrite !hex_digit_printable, Hs; [done|apply N.mod_lt; lia|apply N.Div0.div_lt_upper_bound; lia].
Qed.

Lemma escape_printable s : all_chars printable (escape s) = true.
Proof.
  pattern s. revert s. apply text_ind.
  - done.
  - intros a s Ha IH. cbn [escape]. rewrite (proj2 (N.ltb_lt _ _) Ha). by apply escape_ascii_printable.
  - intros a b s H2 IH. cbn [escape]. destruct (seq2_high _ _ H2) as [Ha Hb]. rewrite high_not_ascii, H2 by done.
    cbn [all_chars]. by rewrite !high_printable, IH.
  - intros a b c s H2 H3 IH. cbn [escape]. destruct (seq3_high _ _ _ H3) as (Ha & Hb & Hc). rewrite high_not_ascii, H2, H3 by done.
    destruct (line_separator a b c).
    + change (all_chars printable (String (if Ascii.eqb c "168" then "8" else "9")%char (escape s)) = true).
      cbn [all_chars]. rewrite IH. by destruct (Ascii.eqb c "168").
    + cbn [all_chars]. by rewrite !high_printable, IH.
  - intros a b c d s H2 H3 H4 IH. cbn [escape]. destruct (seq4_high _ _ _ _ H4) as (Ha & Hb & Hc & Hd).
    rewrite high_not_ascii, H2, (seq4_not_separator _ _ _ _ H4), H3, H4 by done.
    cbn [all_chars]. by rewrite !high_printable, IH.
  - intros a s Ha _ He _ IH. by rewrite He.
Qed.

Lemma quoted_printable s : all_chars printable (quoted (escape s)) = true.
Proof. unfold quoted. cbn [all_chars]. by rewrite all_chars_app, escape_printable. Qed.

Lemma encode_printable v : all_chars printable (encode v) = true.
Proof.
  induction v as [|[]|z|s|l Hl|l Hl] using json_nested; cbn [encode]; try done.
  - eapply all_chars_impl, pretty_Z_chars. intros a. unfold number_char, in_range, printable.
    intros [[H%N.leb_le _]%andb_prop|H%Ascii.eqb_eq]%orb_prop; [apply N.leb_le; lia|by subst].
  - apply quoted_printable.
  - cbn [all_chars]. rewrite all_chars_app. cbn [all_chars]. rewrite andb_true_r. cbn.
    induction Hl as [|v l Hv Hl IH]; [done|]. cbn [elements]. destruct l as [|w l]; [done|].
    rewrite all_chars_app, Hv. cbn [all_chars]. exact IH.
  - cbn [all_chars]. rewrite all_chars_app. cbn [all_chars]. rewrite andb_true_r. cbn.
    induction Hl as [|[k v] l Hv Hl IH]; [done|]. cbn [snd] in Hv. cbn [members]. destruct l as [|w l].
    + rewrite all_chars_app, quoted_printable. cbn [all_chars]. exact Hv.
    + rewrite all_chars_app, quoted_printable. cbn [all_chars]. rewrite all_chars_app, Hv. cbn [all_chars]. exact IH.
Qed.

(** * Lines *)

(** The text that lines make. *)
Fixpoint text_of (lines : list string) : string :=
  match lines with [] => "" | line :: lines => line +:+ String newline (text_of lines) end.

Lemma text_of_snoc lines line : text_of (lines ++ [line]) = text_of lines +:+ (line +:+ nl).
Proof. induction lines as [|l lines IH]; [done|]. cbn [app text_of]. by rewrite IH, <- string_app_assoc, string_app_cons. Qed.

Lemma split_lines_line line s : all_chars printable line = true →
  split_lines (line +:+ String newline s) = (line :: (split_lines s).1, (split_lines s).2).
Proof.
  induction line as [|a line IH]; intros Hl.
  - change ("" +:+ ?x) with x. cbn [split_lines]. rewrite Ascii.eqb_refl. by destruct (split_lines s).
  - cbn [all_chars] in Hl. apply andb_prop in Hl as [Ha Hl]. rewrite string_app_cons. cbn [split_lines]. rewrite IH by done.
    assert (Ascii.eqb a newline = false) as -> by (apply Ascii.eqb_neq; by intros ->). done.
Qed.

Lemma tokens_text lines : Forall (λ line, all_chars printable line = true) lines → tokens (text_of lines) = lines.
Proof.
  intros Hl. unfold tokens. assert (split_lines (text_of lines) = (lines, "")) as ->; [|done].
  induction Hl as [|line lines Hline Hl IH]; [done|]. cbn [text_of]. by rewrite split_lines_line, IH by done.
Qed.

Lemma drop_cr_printable line : all_chars printable line = true → drop_cr line = line.
Proof.
  induction line as [|a line IH]; [done|]. cbn [all_chars drop_cr]. intros [Ha Hl]%andb_prop. destruct line as [|b line].
  - assert (Ascii.eqb a carriage_return = false) as -> by (apply Ascii.eqb_neq; by intros ->). done.
  - by rewrite IH.
Qed.

Lemma scan_within_text max lines : Forall (λ line, all_chars printable line = true) lines →
  Forall (λ line, (N.of_nat (String.length line) < max)%N) lines → scan_within max (text_of lines, None) = (lines, None).
Proof.
  intros Hl Hf. unfold scan_within. cbn [fst snd]. rewrite tokens_text by done.
  assert (scan_tokens max lines = (lines, None)) as ->; [|done].
  induction Hl as [|line lines Hline Hl IH]; [done|]. apply Forall_cons in Hf as [Hn Hf]. cbn [scan_tokens].
  by rewrite (proj2 (N.leb_gt _ _)), IH, drop_cr_printable by done.
Qed.

(** A line the scanner of the journal reads whole. *)
Definition fits_scanner (line : string) : Prop := (N.of_nat (String.length line) < max_token)%N.

Lemma scan_text lines : Forall (λ line, all_chars printable line = true) lines → Forall fits_scanner lines →
  scan (text_of lines, None) = (lines, None).
Proof. apply scan_within_text. Qed.

(** An object has no white space at its ends. *)
Lemma trim_left_brace s2 s3 l : (∀ b, s2 "{"%char b = false) → (∀ b c, s3 "{"%char b c = false) →
  trim_left_with s2 s3 ("{"%char :: l) = "{"%char :: l.
Proof. intros H2 H3. destruct l as [|b [|c l]]; cbn; rewrite ?H2, ?H3; done. Qed.

Lemma trim_left_close s2 s3 l : (∀ b, s2 "}"%char b = false) → (∀ b c, s3 "}"%char b c = false) →
  trim_left_with s2 s3 ("}"%char :: l) = "}"%char :: l.
Proof. intros H2 H3. destruct l as [|b [|c l]]; cbn; rewrite ?H2, ?H3; done. Qed.

Lemma list_ascii_append s t :
  String.list_ascii_of_string (s +:+ t) = String.list_ascii_of_string s ++ String.list_ascii_of_string t.
Proof. induction s as [|c s IH]; [done|]. rewrite string_app_cons. simpl. by rewrite IH. Qed.

Lemma TrimSpace_braces m : TrimSpace (String "{" (m +:+ "}")) = String "{" (m +:+ "}").
Proof.
  unfold TrimSpace, trim_left, trim_right. cbn [String.list_ascii_of_string]. rewrite trim_left_brace by done.
  rewrite list_ascii_append, app_comm_cons, reverse_app. cbn [String.list_ascii_of_string]. change (reverse ["}"%char]) with ["}"%char].
  cbn [app]. rewrite trim_left_close.
  - rewrite reverse_cons, reverse_involutive, <- app_comm_cons.
    change ["}"%char] with (String.list_ascii_of_string "}"). rewrite <- list_ascii_append.
    cbn [String.string_of_list_ascii]. by rewrite String.string_of_list_ascii_of_string.
  - intros b. unfold space2. by rewrite andb_false_r.
  - intros b c. unfold space3. cbn. by rewrite !andb_false_r.
Qed.

Lemma marshal_entry_braces e line : marshal_entry e = Ok line →
  all_chars printable line = true ∧ TrimSpace line = line ∧ line ≠ "".
Proof.
  unfold marshal_entry. destruct (gotime_json _) as [occurred|]; [|done].
  intros H. assert (line = encode (object (entry_fields e occurred))) as ->.
  { change (Ok (encode (object (entry_fields e occurred))) = Ok line) in H. congruence. }
  split; [apply encode_printable|]. unfold object. cbn [encode]. split; [apply TrimSpace_braces|done].
Qed.

(** * Entries and their lines *)

(** An entry that is stored as this line and read back from it. *)
Definition stored (line : string) (e : Entry) : Prop :=
  marshal_entry e = Ok line ∧ readable e ∧ coerce_entry e = e ∧ fits_scanner line.

Lemma stored_lines lines es : Forall2 stored lines es →
  scan (text_of lines, None) = (lines, None) ∧ entries_of lines es.
Proof.
  intros H. split.
  - apply scan_text; eapply Forall2_Forall_l; try exact H; apply Forall_true; intros e line.
    + intros (Hm & _). by apply marshal_entry_braces in Hm as [? _].
    + by intros (_ & _ & _ & ?).
  - unfold entries_of. induction H as [|line e lines es (Hm & Hr & Hc & _) H IH]; [constructor|].
    pose proof (marshal_entry_braces _ _ Hm) as (_ & Ht & Hne). rewrite fmap_cons, Ht, filter_cons, decide_True by done.
    constructor; [|done]. rewrite <- Hc. by apply decode_marshal_entry.
Qed.
