(* ===== verification/JournalRun.v ===== *)
(** * The journal on a file system of its own

    In the memory of [MemoryFS.v], where nothing fails and nobody else writes, the
    file journal implements a list of events: what is created and appended to is
    exactly what a pure list would hold ([ideal_run]), and verifies as trusted. *)

From stdpp Require Import stringmap.
From S2P Require Import Prelude Crypto Format Json Base64 Unmarshal GoTime Permit HeadStore JournalEntry FileSystem Journal JournalText Ledger MemoryFS.
Local Open Scope Z_scope.

(** * The list a journal implements *)

Definition ideal_occurred (clock : time) (ev : Event) : gotime :=
  utc (if IsZero (gt_instant (ev_OccurredAt ev)) then clock else gt_instant (ev_OccurredAt ev)).

Definition utf8_event (e : Event) : bool := forallb utf8_valid (event_strings e).

(** The next entry of a list, with its line; none if the event cannot be
    stored. *)
Definition ideal_append (id : string) (clock : time) (es : list Entry) (ev : Event) : option (string * Entry) :=
  let entry := {| en_Version := formatVersion; en_JournalID := id; en_Sequence := Z.of_nat (length es) + 1;
                  en_PrevHash := head_hash "" es; en_Event := event_at (ideal_occurred clock ev) ev; en_EntryHash := "" |} in
  match hashEntry entry with
  | Error _ => None
  | Ok hash =>
      let entry := with_EntryHash hash entry in
      match marshal_entry entry with
      | Error _ => None
      | Ok line =>
          if utf8_event ev && (N.of_nat (String.length line) <? max_token)%N && (Z.of_nat (length es) + 1 <? 2 ^ 64)
          then Some (line, entry) else None
      end
  end.

Fixpoint ideal_run (id : string) (clock : time) (es : list Entry) (evs : list Event) : option (list Entry) :=
  match evs with
  | [] => Some es
  | ev :: evs => '(_, e) ← ideal_append id clock es ev; ideal_run id clock (es ++ [e]) evs
  end.

(** * Running programs *)

Section Runs.
Context {X : Type}.

Definition runs {A} (m : IO X A) (x : X) (a : A) (x' : X) : Prop := ∃ t, m x = (a, x', t).

Lemma runs_ret {A} (a : A) x : runs (mret a) x a x.
Proof. by exists []. Qed.

Lemma runs_bind {A B} (m : IO X A) (k : A → IO X B) x a x1 b x2 : runs m x a x1 → runs (k a) x1 b x2 → runs (m ≫= k) x b x2.
Proof. intros [t1 H1] [t2 H2]. exists (t1 ++ t2). unfold mbind, M_bind. by rewrite H1, H2. Qed.

Lemma runs_call {A} (mk : A → io_event) f x a x' : f x = (a, x') → runs (call mk f) x a x'.
Proof. intros H. exists [mk a]. unfold call. by rewrite H. Qed.

Lemma runs_silent {A} (f : X → A * X) x a x' : f x = (a, x') → runs (silent f) x a x'.
Proof. intros H. exists []. unfold silent. by rewrite H. Qed.

Lemma runs_try {A B} (m : IO X (result A)) wrap (k : A → IO X (result B)) x a x1 r x2 :
  runs m x (Ok a) x1 → runs (k a) x1 r x2 → runs (try m wrap k) x r x2.
Proof. intros H1 H2. by eapply runs_bind. Qed.

Lemma runs_fun {A} (m : IO X A) x a x' b x'' t : runs m x a x' → m x = (b, x'', t) → a = b ∧ x' = x''.
Proof. intros [t' ->]. by intros [= -> -> _]. Qed.
End Runs.

Section RunsFiles.
Context {X : Type} `{!FileSystem X}.

Lemma runs_check {A} (m : IO X (option error)) wrap (k : IO X (result A)) x x1 r x2 :
  runs m x None x1 → runs k x1 r x2 → runs (check m wrap k) x r x2.
Proof. intros H1 H2. by eapply runs_bind. Qed.

Lemma runs_check_close {A} f (m : IO X (option error)) wrap (k : IO X (result A)) x x1 r x2 :
  runs m x None x1 → runs k x1 r x2 → runs (check_close f m wrap k) x r x2.
Proof. intros H1 H2. by eapply runs_bind. Qed.
End RunsFiles.

(** * Files in memory *)

Abbreviation world := (mem MemoryHeadStore).

Section Memory.
Implicit Types (m : world).

(** Descriptors apart, nothing but the files changed. *)
Definition rewrote (files : stringmap string) (m m' : world) : Prop :=
  mem_files m' = files ∧ mem_clock m' = mem_clock m ∧ mem_heads m' = mem_heads m.

Lemma rewrote_trans F G m1 m2 m3 : rewrote F m1 m2 → rewrote G m2 m3 → rewrote G m1 m3.
Proof. intros (_ & H1 & H2) (? & H3 & H4). split_and!; congruence. Qed.

Lemma runs_open m path flags old : mem_files m !! path = Some old → flags ≠ CreateExclusive →
  ∃ f m', runs (OpenFile path flags) m (Ok f) m' ∧ rewrote (mem_files m) m m' ∧ mem_open m' !! file_fd f = Some path.
Proof.
  intros Hp Hf. eexists _, _. split; [|split].
  - apply runs_call. cbn. unfold mem_OpenFile. rewrite Hp. by destruct flags.
  - done.
  - cbn. by rewrite lookup_insert_eq.
Qed.

Lemma runs_write m f path old data : mem_open m !! file_fd f = Some path → mem_files m !! path = Some old →
  ∃ m', runs (Write f data) m None m' ∧ rewrote (<[path := old +:+ data]> (mem_files m)) m m' ∧ mem_open m' = mem_open m.
Proof.
  intros Hf Hp. eexists. split; [|split].
  - apply runs_call. cbn. unfold mem_Write, at_path. by rewrite Hf.
  - split_and!; try done. cbn. apply map_eq. intros i. destruct (decide (path = i)) as [<-|Hne].
    + by rewrite lookup_alter_eq, lookup_insert_eq, Hp.
    + by rewrite lookup_alter_ne, lookup_insert_ne.
  - done.
Qed.

Lemma runs_sync m f path : mem_open m !! file_fd f = Some path → runs (Sync f) m None m ∧ runs (Chmod f) m None m.
Proof. intros Hf. split; apply runs_call; cbn; unfold mem_Sync, at_path; by rewrite Hf. Qed.

Lemma runs_close m f path : mem_open m !! file_fd f = Some path → ∃ m', runs (Close f) m None m' ∧ rewrote (mem_files m) m m'.
Proof.
  intros Hf. eexists. split; [|split].
  - apply runs_call. cbn. unfold mem_Close, at_path. by rewrite Hf.
  - done.
  - done.
Qed.

Lemma runs_append_line m path old line : mem_files m !! path = Some old →
  ∃ m', runs (append_line path line) m (Ok tt) m' ∧ rewrote (<[path := old +:+ (line +:+ nl)]> (mem_files m)) m m'.
Proof.
  intros Hp. destruct (runs_open m path AppendOnly old Hp) as (f & m1 & R1 & C1 & O1); [done|].
  assert (mem_files m1 !! path = Some old) as Hp1 by (destruct C1 as [-> _]; done).
  destruct (runs_write m1 f path old (line +:+ nl) O1 Hp1) as (m2 & R2 & C2 & O2). rewrite <- O2 in O1.
  destruct (runs_sync m2 f path O1) as [R3 _]. destruct (runs_close m2 f path O1) as (m3 & R4 & C4).
  exists m3. split.
  - eapply runs_try; [exact R1|]. eapply runs_check_close; [exact R2|]. eapply runs_check_close; [exact R3|].
    eapply runs_check; [exact R4|]. apply runs_ret.
  - destruct C1 as [E1 C1], C2 as [E2 C2]. rewrite E1 in E2. rewrite E2 in C4. 
    destruct C1, C2, C4 as (? & ? & ?). split_and!; congruence.
Qed.

Lemma runs_write_anchor m path a data : marshal_anchor a = Ok data →
  fresh_string (filepath_Dir path +:+ "/.anchor-") (mem_files m) ≠ path →
  ∃ m', runs (writeAnchorAtomic path a) m (Ok tt) m' ∧ rewrote (<[path := data +:+ nl]> (mem_files m)) m m'.
Proof.
  intros Hd Hne. set (temp := fresh_string _ _) in Hne. pose proof (fresh_string_fresh (mem_files m) (filepath_Dir path +:+ "/.anchor-")) as Hfresh.
  fold temp in Hfresh.
  unfold writeAnchorAtomic. rewrite Hd. cbv zeta.
  destruct (mem_CreateTemp (filepath_Dir path) ".anchor-*" m) as [r m1] eqn:Hc. assert (Hc' := Hc).
  unfold mem_CreateTemp in Hc'. change (filepath_Dir path +:+ "/" +:+ temp_prefix ".anchor-*") with (filepath_Dir path +:+ "/.anchor-") in Hc'. fold temp in Hc'. cbn in Hc'. injection Hc' as <- Hm1.
  set (f := {| file_fd := mem_next m; file_Name := temp |}) in *.
  assert (mem_files m1 = <[temp := ""]> (mem_files m)) as F1 by by subst m1.
  assert (mem_open m1 !! file_fd f = Some temp) as O1 by (subst m1; cbn; by rewrite lookup_insert_eq).
  destruct (runs_sync m1 f temp O1) as [_ R2].
  destruct (runs_write m1 f temp "" (data +:+ nl) O1) as (m2 & R3 & C3 & O2); [by rewrite F1, lookup_insert_eq|].
  rewrite <- O2 in O1. destruct (runs_sync m2 f temp O1) as [R4 _]. destruct (runs_close m2 f temp O1) as (m3 & R5 & C5).
  assert (mem_files m3 = <[temp := data +:+ nl]> (mem_files m)) as F3.
  { destruct C5 as [-> _], C3 as [-> _]. rewrite F1. by rewrite insert_insert_eq. }
  set (m4 := set_files (<[path := data +:+ nl]> (mem_files m)) m3).
  exists m4. split.
  - eapply runs_check; [by apply runs_call|]. eapply runs_try; [by apply runs_call, Hc|].
    eapply runs_bind; [|eapply runs_bind; [|apply runs_ret]].
    + unfold write_temp. eapply runs_check_close; [exact R2|]. eapply runs_check_close; [exact R3|].
      eapply runs_check_close; [exact R4|]. eapply runs_check; [exact R5|].
      eapply runs_check; [|apply runs_ret]. apply runs_call. cbn. unfold mem_Rename. rewrite F3, lookup_insert_eq.
      rewrite delete_insert_id by done. reflexivity.
    + apply runs_call. cbn. unfold mem_Remove, m4. cbn. rewrite lookup_insert_ne, Hfresh by done. reflexivity.
  - unfold m4. destruct C5 as (_ & E1 & E2), C3 as (_ & E3 & E4). split_and!; cbn; [done|..]; rewrite ?E1, ?E2, ?E3, ?E4; by subst m1.
Qed.
End Memory.

(** * Signatures are plain text *)

Lemma b64_char_plain n : (n < 64)%N → plain (b64_char n) = true.
Proof.
  intros Hn. assert (n ∈ List.map N.of_nat (List.seq 0 64)) as Hin.
  { apply list_elem_of_In, in_map_iff. exists (N.to_nat n). split; [lia|]. apply in_seq. lia. }
  assert (Forall (λ m, plain (b64_char m) = true) (List.map N.of_nat (List.seq 0 64))) as Hf by (cbn; repeat constructor).
  rewrite Forall_forall in Hf. by apply Hf.
Qed.

Lemma base64_plain s : all_chars plain (base64_encode s) = true.
Proof.
  induction s as [|a|a b|a b c s IH] using string_triple_ind; [done|..]; cbn [base64_encode all_chars]; cbv zeta.
  - destruct (sextets (N_of_ascii a) 0 0) as (H1 & H2 & _); [apply byte_lt_256|done..|].
    change (0 / 16)%N with 0%N in H2. rewrite N.add_0_r in H2. by rewrite !b64_char_plain.
  - destruct (sextets (N_of_ascii a) (N_of_ascii b) 0) as (H1 & H2 & H3 & _); [apply byte_lt_256..|done|].
    change (0 / 64)%N with 0%N in H3. rewrite N.add_0_r in H3. by rewrite !b64_char_plain.
  - destruct (sextets (N_of_ascii a) (N_of_ascii b) (N_of_ascii c)) as (H1 & H2 & H3 & H4 & _); [apply byte_lt_256..|].
    by rewrite !b64_char_plain, IH.
Qed.

(** * The journal in its memory *)

Section Journal.
Context (key id path anchorPath : string) (sign : string → string) (verifier : AnchorVerifier world).
Context (Hkey : key ≠ "" ∧ utf8_valid key = true) (Hid : TrimSpace id = id ∧ id ≠ "" ∧ utf8_valid id = true).
Context (Hpaths : path ≠ anchorPath) (Hverify : ∀ p x, av_Verify verifier key p (sign p) x = (None, x)).
Implicit Types (m : world).

Definition own_signer : AnchorSigner world := {| KeyID := key; Sign := λ p x, (Ok (sign p), x) |}.

Definition own_journal : FileJournal world := {|
  fj_path := path; fj_anchorPath := anchorPath; fj_signer := Some own_signer; fj_verifier := Some verifier;
  fj_externalHead := true; fj_expectedJournalID := id; fj_publicKey := "" |}.

Definition anchor_at (clock : time) (es : list Entry) (signature : string) : Anchor := {|
  an_Version := formatVersion; an_JournalID := id; an_Sequence := Z.of_nat (length es); an_HeadHash := head_hash "" es;
  an_KeyID := key; an_UpdatedAt := utc clock; an_Signature := signature |}.

(** The memory holds these entries: in the file, below the anchor, and the
    witness has their head. *)
Record holds (m : world) (es : list Entry) : Prop := {
  h_lines : ∃ lines, mem_files m !! path = Some (text_of lines) ∧ Forall2 stored lines es;
  h_chain : chain id 1 "" es;
  h_length : Z.of_nat (length es) < 2 ^ 64;
  h_anchor : ∃ payload data, let a := anchor_at (mem_clock m) es (encodeSignature (sign payload)) in
    anchorSigningPayload a = Ok payload ∧ marshal_anchor a = Ok data ∧ mem_files m !! anchorPath = Some (data +:+ nl);
  h_head : semanticExternalHead <$> mem_heads m !! id =
    Some {| qh_JournalID := id; qh_Sequence := Z.of_nat (length es); qh_HeadHash := head_hash "" es; qh_KeyID := key |} }.

Lemma anchor_coerce clock es s : chain id 1 "" es → coerce_anchor (anchor_at clock es (encodeSignature s)) = anchor_at clock es (encodeSignature s).
Proof.
  intros Hc. unfold coerce_anchor, anchor_at. cbn. f_equal.
  - apply coerce_utf8, Hid.
  - by eapply chain_hash_plain.
  - apply coerce_utf8, Hkey.
  - apply plain_text, base64_plain.
Qed.

Lemma runs_readAnchor m es : holds m es → ∃ payload, let a := anchor_at (mem_clock m) es (encodeSignature (sign payload)) in
  anchorSigningPayload a = Ok payload ∧ runs (readAnchor anchorPath) m (Ok a) m.
Proof.
  intros [_ Hc Hl (payload & data & Hp & Hm & Hf) _]. exists payload. split; [done|].
  eapply runs_try; [apply runs_call; cbn; unfold mem_ReadFile; by rewrite Hf|]. cbn beta.
  rewrite (decode_marshal_anchor _ _ nl Hm); [rewrite anchor_coerce by done; apply runs_ret|..]; cbn.
  - unfold int_range, MinInt64, MaxInt64, formatVersion. lia.
  - unfold is_u64. lia.
  - by split.
  - done.
Qed.

Lemma signature_decodes s : decodeSignature (encodeSignature s) = Ok s.
Proof. unfold decodeSignature, encodeSignature. by rewrite base64_decode_encode. Qed.

Lemma runs_verifyAnchor m clock es payload : anchorSigningPayload (anchor_at clock es (encodeSignature (sign payload))) = Ok payload →
  runs (verifyAnchor (anchor_at clock es (encodeSignature (sign payload))) (Some verifier)) m None m.
Proof.
  intros Hp. unfold verifyAnchor. rewrite (proj2 (str_eqb_neq _ _)) by (cbn; tauto).
  cbn [an_Signature anchor_at]. rewrite signature_decodes, Hp. apply runs_call. apply Hverify.
Qed.

Definition trusted_at (es : list Entry) (v : Verification) : Prop :=
  vf_Valid v = true ∧ vf_HistoricalTrust v = HistoryTrusted ∧ vf_EntryCount v = Z.of_nat (length es) ∧
  vf_HeadHash v = head_hash "" es.

Lemma runs_verify m es : holds m es → ∃ v m', runs (verifyUnlocked own_journal) m v m' ∧ rewrote (mem_files m) m m' ∧ trusted_at es v.
Proof.
  intros Hh. destruct (runs_readAnchor m es Hh) as (payload & Hp & Hread). destruct Hh as [(lines & Hf & Hs) Hc Hl _ Hhead].
  set (a := anchor_at _ _ _) in *. destruct (runs_open m path ReadOnly _ Hf) as (f & m1 & Ropen & C1 & O1); [done|].
  destruct (stored_lines _ _ Hs) as [Hscan Hes].
  assert (runs (Read f) m1 (text_of lines, None) m1) as Rread.
  { apply runs_call. cbn. unfold mem_Read, at_path. rewrite O1. destruct C1 as [-> _]. by rewrite Hf. }
  assert (∃ head, runs (LoadHead id) m1 (Ok head) m1 ∧ semanticExternalHead head = semanticExternalHead (externalHeadFromAnchor a)) as (head & Rload & Eh).
  { destruct C1 as (_ & _ & C1). destruct (mem_heads m !! id) as [head|] eqn:Hm; [|done]. apply (inj Some) in Hhead. exists head. split; [|exact Hhead].
    apply runs_call. cbn. unfold MemoryHeadStore_Load. rewrite C1, Hm. unfold set_heads. rewrite <- C1. by destruct m1. }
  destruct (runs_close m1 f path O1) as (m2 & Rclose & C2).
  eexists _, m2. split; [|split; [destruct C1 as (E1 & E2 & E3); rewrite E1 in C2; destruct C2 as (? & ? & ?); split_and!; congruence|]].
  - eapply runs_bind; [|apply runs_ret]. eapply runs_bind; [exact Hread|]. cbn beta iota.
    change (negb (an_Version a =? formatVersion)) with false. cbn [own_journal fj_expectedJournalID fj_verifier]. cbv iota.
    change (an_JournalID a) with id. rewrite str_eqb_refl, andb_false_r.
    eapply runs_bind; [by apply runs_verifyAnchor|]. eapply runs_bind; [exact Ropen|]. eapply runs_bind; [|eapply runs_bind; [exact Rclose|apply runs_ret]].
    eapply runs_bind; [exact Rread|]. rewrite Hscan.
    assert (scan_entries id lines 1 "" 0 = inr (head_hash "" es, Z.of_nat (length es))) as Hse.
    { apply (scan_entries_chain _ _ 1 "" 0). exists es. split_and!; try done. rewrite Z.add_0_l, wrap_u64_small; [done|]. unfold is_u64. lia. }
    change (an_JournalID a) with id. rewrite Hse. change (an_Sequence a) with (Z.of_nat (length es)). rewrite Z.eqb_refl.
    change (an_HeadHash a) with (head_hash "" es). rewrite str_eqb_refl. cbn [negb fj_externalHead].
    eapply runs_bind; [exact Rload|]. cbv zeta. cbn beta iota.
    assert (eh_JournalID head = id ∧ eh_Sequence head = Z.of_nat (length es) ∧ eh_HeadHash head = head_hash "" es ∧ eh_KeyID head = key) as (E1 & E2 & E3 & E4).
    { unfold semanticExternalHead in Eh. cbn in Eh. by injection Eh. }
    cbn [externalHeadFromAnchor eh_JournalID eh_Sequence eh_HeadHash eh_KeyID a anchor_at an_JournalID an_Sequence an_HeadHash an_KeyID].
    rewrite E1, E2, E3, E4, !str_eqb_refl, Z.eqb_refl. apply runs_ret.
  - unfold trusted_at. cbn. rewrite (proj2 (str_eqb_neq _ _)) by tauto. done.
Qed.

(** ** Appending *)

Lemma marshal_anchor_ok a v : gotime_json (an_UpdatedAt a) = Ok v → marshal_anchor a = Ok (encode (object (anchor_fields a v))).
Proof. unfold marshal_anchor. by intros ->. Qed.

Lemma marshal_anchor_time a data : marshal_anchor a = Ok data → ∃ v, gotime_json (an_UpdatedAt a) = Ok v.
Proof. unfold marshal_anchor. destruct (gotime_json _) as [v|]; [by exists v|done]. Qed.

(** Another anchor of the same time can be signed and written too. *)
Lemma next_anchor clock es fs s data : marshal_anchor (anchor_at clock es s) = Ok data →
  ∃ payload data', anchorSigningPayload (anchor_at clock fs "") = Ok payload ∧
    ∀ sig, anchorSigningPayload (anchor_at clock fs sig) = Ok payload ∧
      marshal_anchor (anchor_at clock fs sig) = Ok (data' sig).
Proof.
  intros [v Hv]%marshal_anchor_time. cbn [an_UpdatedAt anchor_at] in Hv.
  exists (encode (object (anchor_fields (anchor_at clock fs "") v))), (λ sig, encode (object (anchor_fields (anchor_at clock fs sig) v))).
  assert (∀ sig, anchorSigningPayload (anchor_at clock fs sig) = Ok (encode (object (anchor_fields (anchor_at clock fs "") v)))) as Hp.
  { intros sig. unfold anchorSigningPayload. change (with_Signature "" (anchor_at clock fs sig)) with (anchor_at clock fs "").
    rewrite (marshal_anchor_ok (anchor_at clock fs "") v Hv). reflexivity. }
  split; [exact (Hp "")|]. intros sig. split; [exact (Hp sig)|]. exact (marshal_anchor_ok (anchor_at clock fs sig) v Hv).
Qed.

Lemma ideal_append_spec clock es ev line e : chain id 1 "" es → ideal_append id clock es ev = Some (line, e) →
  stored line e ∧ links id (Z.of_nat (length es) + 1) (head_hash "" es) e ∧ Z.of_nat (length es) + 1 < 2 ^ 64 ∧
  en_Sequence e = Z.of_nat (length es) + 1.
Proof.
  intros Hc. unfold ideal_append. cbv zeta. set (e0 := {| en_Version := _ |}). destruct (hashEntry e0) as [hash|] eqn:Hh; [|done].
  destruct (marshal_entry (with_EntryHash hash e0)) as [l|] eqn:Hm; [|done]. destruct (_ && _) eqn:Hg; [|done].
  intros [= <- <-]. apply andb_prop in Hg as [[Hu Hf%N.ltb_lt]%andb_prop Hl%Z.ltb_lt].
  destruct (event_at_spec ev (ideal_occurred clock ev)) as [Ht _].
  assert (readable (with_EntryHash hash e0)) as Hr.
  { split_and!; [change (MinInt64 ≤ 2 ≤ MaxInt64); unfold MinInt64, MaxInt64; lia|unfold is_u64; cbn; lia|].
    cbn [en_Event with_EntryHash e0]. rewrite Ht. by split. }
  assert (hashEntry (with_EntryHash hash e0) = Ok hash) as Hhash by exact Hh.
  split_and!; [split_and!|..]; try done.
  - unfold coerce_entry, with_EntryHash, e0. cbn. f_equal.
    + apply coerce_utf8, Hid.
    + by eapply chain_hash_plain.
    + apply coerce_sound_event. destruct ev. exact Hu.
    + apply hashEntry_payload in Hh as (p & _ & ->). apply digest_plain.
  - unfold links. cbn. rewrite wrap_u64_small by (unfold is_u64; lia). done.
Qed.

Lemma ideal_event clock ev : ∀ m, mem_clock m = clock →
  runs (if IsZero (gt_instant (ev_OccurredAt ev)) then (now ← Now; mret (utc now))
        else mret (utc (gt_instant (ev_OccurredAt ev)))) m (ideal_occurred clock ev) m.
Proof.
  intros m <-. unfold ideal_occurred. destruct (IsZero _); [|apply runs_ret].
  eapply runs_bind; [by apply runs_silent|apply runs_ret].
Qed.

Lemma runs_signAnchor m a payload : an_KeyID a = key → anchorSigningPayload a = Ok payload →
  runs (signAnchor a (Some own_signer)) m (Ok (with_Signature (encodeSignature (sign payload)) a)) m.
Proof.
  intros Hk Hp. unfold signAnchor. cbv zeta. rewrite Hk, (proj2 (str_eqb_neq key "")) by tauto.
  rewrite Hk. cbn [own_signer KeyID]. rewrite str_eqb_refl. cbn [negb]. rewrite Hp.
  eapply runs_try; [by apply runs_call|apply runs_ret].
Qed.

Lemma runs_advance m (p n : ExternalHead) : eh_JournalID p = id → eh_JournalID n = id →
  semanticExternalHead <$> mem_heads m !! id = Some (semanticExternalHead p) → eh_Sequence p < eh_Sequence n →
  ∃ m', runs (AdvanceHead p n) m (Ok n) m' ∧ mem_files m' = mem_files m ∧ mem_clock m' = mem_clock m ∧
    mem_heads m' !! id = Some n.
Proof.
  intros Hp Hn Hm Hs. eexists. split; [|split; [|split]].
  - apply runs_call. cbn. rewrite MemoryHeadStore_advance, Hn, Hm, decide_True; [reflexivity|]. 
    cbn. split_and!; try done; [lia|]. intros E. lia.
  - done.
  - done.
  - cbn. by rewrite lookup_insert_eq.
Qed.

Lemma holds_same m m' es : rewrote (mem_files m) m m' → holds m es → holds m' es.
Proof. intros (Hf & Hc & Hh) [H1 H2 H3 H4 H5]. split; try done; rewrite ?Hf, ?Hc, ?Hh; done. Qed.

(** The entry that [Append] makes is the ideal one. *)
Lemma runs_append m es ev line e : holds m es → ideal_append id (mem_clock m) es ev = Some (line, e) →
  ∃ m', runs (Append own_journal ev) m (Ok e) m' ∧ holds m' (es ++ [e]) ∧ mem_clock m' = mem_clock m.
Proof.
  intros Hh Hi. destruct (runs_verify m es Hh) as (v & m1 & Rv & C1 & (Hvalid & _)).
  apply (holds_same _ m1) in Hh; [|done]. rewrite <- (proj1 (proj2 C1)) in Hi |- *. clear C1.
  destruct (ideal_append_spec _ _ _ _ _ (h_chain _ _ Hh) Hi) as (Hst & Hl & Hlen & Hseq).
  destruct (runs_readAnchor m1 es Hh) as (payload & _ & Rread). cbv zeta in Rread.
  destruct Hh as [(lines & Hf & Hs) Hc _ (pay0 & data0 & _ & Hm0 & Hfa) Hhead].
  destruct (runs_append_line m1 path _ line Hf) as (m2 & R2 & F2 & K2 & W2).
  destruct (next_anchor _ _ (es ++ [e]) _ _ Hm0) as (payload' & data' & Hp' & Hall).
  set (b := anchor_at (mem_clock m1) (es ++ [e]) "") in *.
  assert (with_Signature (encodeSignature (sign payload')) b = anchor_at (mem_clock m1) (es ++ [e]) (encodeSignature (sign payload'))) as Hb by done.
  destruct (Hall (encodeSignature (sign payload'))) as [Hpb Hmb]. rewrite <- Hb in Hpb, Hmb.
  assert (fresh_string (filepath_Dir anchorPath +:+ "/.anchor-") (mem_files m2) ≠ anchorPath) as Hne.
  { intros E. pose proof (fresh_string_fresh (mem_files m2) (filepath_Dir anchorPath +:+ "/.anchor-")) as Hn.
    rewrite E, F2, lookup_insert_ne, Hfa in Hn by done. done. }
  destruct (runs_write_anchor m2 anchorPath _ _ Hmb Hne) as (m3 & R3 & F3 & K3 & W3).
  set (a := anchor_at (mem_clock m1) es (encodeSignature (sign payload))) in *.
  assert (eh_Sequence (externalHeadFromAnchor a) = Z.of_nat (length es)) as Ha by done.
  assert (Z.of_nat (length (es ++ [e])) = Z.of_nat (length es) + 1) as Hlen' by (rewrite length_app; simpl; lia).
  destruct (runs_advance m3 (externalHeadFromAnchor a) (externalHeadFromAnchor (with_Signature (encodeSignature (sign payload')) b)))
    as (m4 & R4 & F4 & K4 & W4); [done|done|by rewrite W3, W2, Hhead| |].
  { rewrite Ha. cbn. lia. }
  exists m4. split; [|split; [|congruence]].
  - eapply runs_check; [by apply runs_silent|]. eapply runs_bind; [exact Rv|]. rewrite Hvalid. cbn [negb].
    eapply runs_try; [exact Rread|]. eapply runs_bind; [by apply (ideal_event (mem_clock m1))|]. cbv zeta.
    revert Hi. unfold ideal_append. cbv zeta. change (an_JournalID a) with id. change (an_HeadHash a) with (head_hash "" es).
    change (an_Sequence a) with (Z.of_nat (length es)). rewrite wrap_u64_small by (unfold is_u64; lia).
    set (e0 := {| en_Version := _ |}). destruct (hashEntry e0) as [hash|] eqn:Hhash; [|done].
    destruct (marshal_entry (with_EntryHash hash e0)) as [l|] eqn:Hml; [|done]. destruct (_ && _); [|done]. intros [= -> He].
    eapply runs_try; [exact R2|]. eapply runs_bind; [by apply runs_silent|]. cbn [negb].
    assert (Hb0 : {| an_Version := formatVersion; an_JournalID := id; an_Sequence := en_Sequence (with_EntryHash hash e0);
      an_HeadHash := en_EntryHash (with_EntryHash hash e0); an_KeyID := signer_KeyID own_journal; an_UpdatedAt := utc (mem_clock m2);
      an_Signature := "" |} = b).
    { unfold b, anchor_at. rewrite head_hash_app, He, Hseq, Hlen', K2. done. }
    rewrite Hb0. eapply runs_try; [by apply runs_signAnchor|]. eapply runs_try; [exact R3|]. cbn [own_journal fj_externalHead].
    eapply runs_try; [exact R4|]. rewrite He. apply runs_ret.
  - split.
    + exists (lines ++ [line]). rewrite F4, F3, F2, lookup_insert_ne, lookup_insert_eq, text_of_snoc by done.
      split; [done|]. by apply Forall2_app; [|constructor].
    + rewrite chain_app. split; [done|]. split; [|done]. by rewrite Z.add_comm.
    + lia.
    + exists payload', (data' (encodeSignature (sign payload'))). cbv zeta. rewrite K4, K3, K2, F4, F3, lookup_insert_eq.
      rewrite <- Hb. done.
    + rewrite W4. cbn. done.
Qed.

(** ** Creating, opening, and a whole run *)

Lemma own_journal_made : newAnchoredFileJournal path anchorPath id (Some own_signer) (Some verifier) true = Ok own_journal.
Proof.
  destruct Hid as (Ht & Hne & _), Hkey as (Hk & _). unfold newAnchoredFileJournal. rewrite Ht, str_eqb_refl.
  rewrite (proj2 (str_eqb_neq id "")) by done. cbn [negb orb newFileJournal own_signer KeyID].
  by rewrite (proj2 (str_eqb_neq key "")).
Qed.

(** Nothing of the journal exists, and the time can be written. *)
Record untouched (m : world) : Prop := {
  u_path : mem_files m !! path = None;
  u_anchor : mem_files m !! anchorPath = None;
  u_head : mem_heads m !! id = None;
  u_clock : is_ok (gotime_json (utc (mem_clock m))) = true;
  u_temp : fresh_string (filepath_Dir anchorPath +:+ "/.anchor-") (<[path := ""]> (mem_files m)) ≠ anchorPath }.

Lemma runs_pathExists m p : mem_files m !! p = None → runs (pathExists p) m (Ok false) m.
Proof.
  intros Hp. eapply runs_bind; [apply runs_call; cbn; unfold mem_Stat; by rewrite Hp|]. cbn. apply runs_ret.
Qed.

Lemma runs_create_file m p : mem_files m !! p = None → ∃ f m',
  runs (OpenFile p CreateExclusive) m (Ok f) m' ∧ rewrote (<[p := ""]> (mem_files m)) m m' ∧ mem_open m' !! file_fd f = Some p.
Proof.
  intros Hp. eexists _, _. split; [|split].
  - apply runs_call. cbn. unfold mem_OpenFile. rewrite Hp. reflexivity.
  - done.
  - cbn. by rewrite lookup_insert_eq.
Qed.

Lemma runs_enroll m key' : mem_heads m !! id = None → let n := {| eh_JournalID := id; eh_Sequence := 0; eh_HeadHash := "";
    eh_KeyID := key'; eh_StoreVersion := "" |} in
  ∃ m', runs (AdvanceHead {| eh_JournalID := id; eh_Sequence := 0; eh_HeadHash := ""; eh_KeyID := ""; eh_StoreVersion := "" |} n)
    m (Ok n) m' ∧ mem_files m' = mem_files m ∧ mem_clock m' = mem_clock m ∧ mem_heads m' !! id = Some n.
Proof.
  intros Hm n. eexists. split; [|split; [|split]].
  - apply runs_call. cbn. rewrite MemoryHeadStore_advance. cbn [n eh_JournalID]. rewrite Hm, decide_True by done. reflexivity.
  - done.
  - done.
  - cbn. by rewrite lookup_insert_eq.
Qed.

Lemma runs_initialize m : untouched m → ∃ m', runs (initialize own_journal) m (Ok tt) m' ∧ holds m' [] ∧ mem_clock m' = mem_clock m.
Proof.
  intros [Hp Ha Hh Ht Htemp]. destruct (gotime_json (utc (mem_clock m))) as [now|] eqn:Hnow; [|done]. clear Ht.
  destruct (runs_create_file m path Hp) as (f & m1 & R1 & (F1 & K1 & W1) & O1).
  destruct (runs_sync m1 f path O1) as [R2 _]. destruct (runs_close m1 f path O1) as (m2 & R3 & F3 & K3 & W3).
  set (b := anchor_at (mem_clock m) [] ""). destruct (next_anchor (mem_clock m) [] [] "" _ (marshal_anchor_ok b now Hnow)) as (payload & data & _ & Hall).
  destruct (Hall "") as [Hpb _]. destruct (Hall (encodeSignature (sign payload))) as [Hps Hms]. fold b in Hpb.
  destruct (runs_write_anchor m2 anchorPath _ _ Hms) as (m3 & R4 & F4 & K4 & W4); [by rewrite F3, F1|].
  destruct (runs_enroll m3 key) as (m4 & R5 & F5 & K5 & W5); [by rewrite W4, W3, W1|]. cbv zeta in R5.
  exists m4. split; [|split; [|congruence]].
  - eapply runs_try; [by apply runs_pathExists|]. eapply runs_try; [by apply runs_pathExists|]. cbn [andb negb Bool.eqb own_journal fj_path fj_anchorPath].
    eapply runs_check; [by apply runs_call|]. eapply runs_check; [by apply runs_call|]. change (fj_expectedJournalID own_journal) with id.
    eapply runs_try; [rewrite (proj2 (str_eqb_neq id "")) by tauto; apply runs_ret|].
    eapply runs_try; [exact R1|]. eapply runs_check_close; [exact R2|]. eapply runs_check; [exact R3|].
    eapply runs_bind; [by apply runs_silent|]. cbv zeta.
    assert (Hb : {| an_Version := formatVersion; an_JournalID := id; an_Sequence := 0; an_HeadHash := ""; an_KeyID := signer_KeyID own_journal;
      an_UpdatedAt := utc (mem_clock m2); an_Signature := "" |} = b) by (unfold b, anchor_at; rewrite K3, K1; done).
    rewrite Hb. eapply runs_try; [by apply (runs_signAnchor _ _ payload)|]. eapply runs_try; [exact R4|]. cbn [fj_externalHead].
    eapply runs_try; [exact R5|]. apply runs_ret.
  - split.
    + exists []. rewrite F5, F4, lookup_insert_ne, F3, F1, lookup_insert_eq by done. by split.
    + done.
    + cbn. lia.
    + exists payload, (data (encodeSignature (sign payload))). cbv zeta. rewrite K5, K4, K3, K1, F5, F4, lookup_insert_eq. done.
    + rewrite W5. done.
Qed.

Lemma runs_create m : untouched m → ∃ m',
  runs (CreateAnchoredFileJournal path anchorPath id (Some own_signer) (Some verifier) true) m (Ok own_journal) m' ∧
  holds m' [] ∧ mem_clock m' = mem_clock m.
Proof.
  intros Hu. destruct (runs_initialize m Hu) as (m1 & R1 & H1 & K1).
  destruct (runs_verify m1 [] H1) as (v & m2 & R2 & F2 & (Hv & _)). exists m2.
  split; [|split; [by eapply holds_same|destruct F2 as (_ & -> & _); done]].
  eapply runs_check; [by apply runs_silent|]. rewrite own_journal_made. destruct Hu as [Hp Ha Hh _ _].
  eapply runs_try.
  { eapply runs_try; [by apply runs_pathExists|]. eapply runs_try; [by apply runs_pathExists|]. apply runs_ret. }
  eapply runs_bind; [apply runs_call; cbn; unfold MemoryHeadStore_Load; rewrite Hh; reflexivity|]. cbn [negb].
  change (errors_Is ErrExternalHeadNotFound ErrExternalHeadNotFound) with true. cbn [negb].
  eapply runs_check; [by apply runs_silent|].
  assert (set_heads (mem_heads m) m = m) as -> by by destruct m.
  eapply runs_try; [exact R1|]. eapply runs_bind; [exact R2|]. rewrite Hv. apply runs_ret.
Qed.

Lemma runs_open_journal m es : holds m es → ∃ m',
  runs (OpenAnchoredFileJournal path anchorPath id (Some own_signer) (Some verifier) true) m (Ok own_journal) m'.
Proof.
  intros Hh. destruct (runs_verify m es Hh) as (v & m1 & R & _ & (Hv & _)). exists m1.
  eapply runs_check; [by apply runs_silent|]. rewrite own_journal_made. eapply runs_bind; [exact R|]. rewrite Hv. apply runs_ret.
Qed.

(** Events one after the other. *)
Fixpoint append_all (j : FileJournal world) (evs : list Event) : IO world (result (list Entry)) :=
  match evs with
  | [] => mret (Ok [])
  | ev :: evs => try (Append j ev) unwrapped (λ e, try (append_all j evs) unwrapped (λ es, mret (Ok (e :: es))))
  end.

Lemma runs_append_all clock evs : ∀ m es fs, holds m es → mem_clock m = clock → ideal_run id clock es evs = Some fs → ∃ gs m',
  fs = es ++ gs ∧ runs (append_all own_journal evs) m (Ok gs) m' ∧ holds m' fs.
Proof.
  induction evs as [|ev evs IH]; intros m es fs Hh Hc; cbn [ideal_run append_all].
  { intros [= <-]. exists [], m. rewrite app_nil_r. split_and!; try done. apply runs_ret. }
  destruct (ideal_append id clock es ev) as [[line e]|] eqn:Hi; [|done]. cbn [mbind option_bind]. intros Hr. subst clock.
  destruct (runs_append m es ev line e Hh Hi) as (m1 & R1 & H1 & K1).
  destruct (IH m1 (es ++ [e]) fs H1 K1 Hr) as (gs & m2 & -> & R2 & H2). exists (e :: gs), m2.
  rewrite <- app_assoc. split_and!; [done| |by rewrite <- app_assoc in H2]. eapply runs_try; [exact R1|]. eapply runs_try; [exact R2|apply runs_ret].
Qed.

(** C13: On files, clock and witness of its own the journal implements a list: after
    creation, appending events returns exactly the entries of the pure list, in
    order; the file then holds those entries, a verification reports them as trusted
    history with their number and head, and the journal can be opened again. *)
Theorem journal_implements_list m evs es (Hm : untouched m) (Hes : ideal_run id (mem_clock m) [] evs = Some es) :
  ∃ m1 m2 m3 m4 v, runs (CreateAnchoredFileJournal path anchorPath id (Some own_signer) (Some verifier) true) m (Ok own_journal) m1 ∧
    runs (append_all own_journal evs) m1 (Ok es) m2 ∧
    runs (Verify own_journal) m2 v m3 ∧ trusted_at es v ∧
    runs (OpenAnchoredFileJournal path anchorPath id (Some own_signer) (Some verifier) true) m3 (Ok own_journal) m4 ∧
    ∃ lines, mem_files m3 !! path = Some (text_of lines) ∧ entries_of lines es.
Proof.
  destruct (runs_create m Hm) as (m1 & R1 & H1 & K1).
  destruct (runs_append_all _ evs m1 [] es H1 K1 Hes) as (gs & m2 & -> & R2 & H2). cbn [app] in *.
  destruct (runs_verify m2 gs H2) as (v & m3 & R3 & F3 & Hv). pose proof (holds_same _ _ _ F3 H2) as H3.
  destruct (runs_open_journal m3 gs H3) as (m4 & R4). exists m1, m2, m3, m4, v. split_and!; try done.
  - eapply runs_bind; [by apply runs_silent|exact R3].
  - destruct (h_lines _ _ H3) as (lines & Hf & Hs). exists lines. split; [done|]. by apply stored_lines.
Qed.
End Journal.

(** ** A run *)

Definition run_verifier : AnchorVerifier world := {|
  av_Verify := λ _ p s x, (if str_eqb s (sha256 p) then None else Some (ErrNew "bad signature"), x) |}.

Definition run_start : world := empty_mem (63000000000 * second_ns) NewMemoryHeadStore.

Definition run_events : list Event := [sample_event; set_ActionID sample_event "two"].

Lemma run_untouched : untouched "j" "/d/journal" "/d/anchor" run_start.
Proof. split; vm_compute; done. Qed.

Lemma run_ideal : ∃ es, ideal_run "j" (mem_clock run_start) [] run_events = Some es ∧ length es = 2%nat.
Proof. eexists. vm_compute. split; reflexivity. Qed.

Example journal_implements_list_witness : ∃ es m1 m2 m3 v, length es = 2%nat ∧
  runs (append_all (own_journal "k" "j" "/d/journal" "/d/anchor" sha256 run_verifier) run_events) m1 (Ok es) m2 ∧
  runs (Verify (own_journal "k" "j" "/d/journal" "/d/anchor" sha256 run_verifier)) m2 v m3 ∧ trusted_at es v.
Proof.
  destruct run_ideal as (es & Hes & Hl).
  destruct (journal_implements_list "k" "j" "/d/journal" "/d/anchor" sha256 run_verifier) with (m := run_start) (evs := run_events) (es := es)
    as (m1 & m2 & m3 & m4 & v & _ & R2 & R3 & Hv & _).
  - split; [discriminate|reflexivity].
  - split; [vm_compute; reflexivity|split; [discriminate|reflexivity]].
  - discriminate.
  - intros p x. cbn. rewrite str_eqb_refl. reflexivity.
  - exact run_untouched.
  - exact Hes.
  - exists es, m1, m2, m3, v. split; [exact Hl|]. split; [exact R2|]. split; [exact R3|exact Hv].
Defined.
