(* ===== verification/Document.v ===== *)
(** * Signed documents

    The documents by which [internal/kernelfabric] admits, restarts, recovers and
    releases workloads share one scheme: a structure is validated, its canonical
    form is marshalled behind a domain, signed with Ed25519 and stored with the
    identity of the key; a signed document is named by the SHA-256 of its JSON
    text behind another domain.  A document gives what is its own as an instance
    of [Document], and each function of the source is [sign_document],
    [verify_document] or [digest_document] at its instance. *)

From S2P Require Import Prelude Crypto Format Json Base64 Unmarshal GoTime Permit FileSystem Journal KernelAbi.
Local Open Scope Z_scope.

(** * Signing keys *)

Definition ErrBootstrapSignatureInvalid : error := ErrNew "BPF bootstrap signature is invalid".

Definition BootstrapKeyID (publicKey : string) : result string :=
  if negb (String.length publicKey =? PublicKeySize)%nat
  then Error (ErrNew ("invalid Ed25519 public key length " +:+ pretty (Z.of_nat (String.length publicKey))))
  else Ok ("ed25519:" +:+ hex_encode (String.substring 0 12 (sha256 publicKey))).

Definition is_public_key (publicKey : string) : bool := (String.length publicKey =? PublicKeySize)%nat.
Definition is_private_key (privateKey : string) : bool := (String.length privateKey =? PrivateKeySize)%nat.

(** [publicKeysEqual] of two Ed25519 keys: their DER forms are equal exactly if
    the keys are. *)
Definition publicKeysEqual (a b : string) : bool := str_eqb a b.

Definition randomToken {X E} `{!GoWorld X} (size : nat) : M X E (result string) :=
  try (silent (rand_Read size)) unwrapped (λ raw, mret (Ok (base64_rawurl_encode raw))).

(** * Digest fields *)

(** Go ranges over a map in an order of its own: [map_range]. *)
Class MapRange : Type := {
  map_range : list (string * string) → list (string * string);
  map_range_perm l : map_range l ≡ₚ l }.

(** [for field, digest := range ... { if _, err := ParseSHA256Digest(digest) ... }] *)
Fixpoint first_bad_digest (fields : list (string * string)) : option error :=
  match fields with
  | [] => None
  | (field, digest) :: fields =>
      match ParseSHA256Digest digest with
      | Error err => Some (ErrWrap field err)
      | Ok _ => first_bad_digest fields
      end
  end.

Definition check_digests `{!MapRange} (fields : list (string * string)) : option error := first_bad_digest (map_range fields).

(** A single field: [fmt.Errorf("...: %w", err)]. *)
Definition check_digest (wrap : error → error) (digest : string) : option error :=
  match ParseSHA256Digest digest with Error err => Some (wrap err) | Ok _ => None end.

Definition is_digest (digest : string) : bool := is_ok (ParseSHA256Digest digest).

Lemma check_digest_None wrap d : check_digest wrap d = None ↔ is_digest d = true.
Proof. unfold check_digest, is_digest. destruct (ParseSHA256Digest d); naive_solver. Qed.

Lemma first_bad_digest_None l : first_bad_digest l = None ↔ Forall (λ kv, is_digest kv.2 = true) l.
Proof.
  induction l as [|[field d] l IH]; cbn [first_bad_digest]; [by split|]. rewrite Forall_cons, <- IH. unfold is_digest. cbn [snd].
  destruct (ParseSHA256Digest d); naive_solver.
Qed.

(** Whether the check passes does not depend on the order. *)
Lemma check_digests_None `{!MapRange} l : check_digests l = None ↔ Forall (λ kv, is_digest kv.2 = true) l.
Proof. unfold check_digests. by rewrite first_bad_digest_None, map_range_perm. Qed.

Lemma is_digest_sha256 payload : is_digest (sha256_digest payload) = true.
Proof. unfold is_digest. by rewrite (proj2 (digest_parse_exact "" "") payload). Qed.

(** * Documents *)

Class Document (D : Type) : Type := {
  doc_json : D → result json; (** what [json.Marshal] encodes *)
  doc_normalize : D → D;
  doc_domain : D → string; (** the domain of the signed payload, with its NUL *)
  doc_payload_error : error → error;
  doc_field : string; (** the name of the document in its signed form *)
  doc_signed_domain : string; (** the domain of the digest, with its NUL *)
  doc_incomplete : string;
  doc_digest_error : error → error }.

Record Signed (D : Type) : Type := { sg_Document : D; sg_KeyID : string; sg_Signature : string }.
Arguments Build_Signed {D} _ _ _.
Arguments sg_Document {D} _.
Arguments sg_KeyID {D} _.
Arguments sg_Signature {D} _.

Section Documents.
Context {D : Type} `{!Document D, !Ed25519}.
Implicit Types (d : D) (signed : Signed D).

Definition canonical_payload (d : D) : result string :=
  match doc_json (doc_normalize d) with
  | Error err => Error (doc_payload_error err)
  | Ok body => Ok (doc_domain d +:+ encode body)
  end.

(** Signing a document that passed [valid], [stored] as the signed one. *)
Definition sign_document (valid : option error) (key_error : string) (d stored : D) (privateKey : string) : result (Signed D) :=
  match valid with
  | Some err => Error err
  | None =>
      if negb (is_private_key privateKey) then Error (ErrNew key_error)
      else
        payload ← canonical_payload d;
        keyID ← BootstrapKeyID (ed25519_Public privateKey);
        Ok {| sg_Document := stored; sg_KeyID := keyID; sg_Signature := base64_encode (ed25519_Sign privateKey payload) |}
  end.

(** The checks of a signature that every verification ends with. *)
Definition verify_signature (signed : Signed D) (publicKey : string) : option error :=
  match BootstrapKeyID publicKey with
  | Error err => Some err
  | Ok keyID =>
      if negb (str_eqb (sg_KeyID signed) keyID) then Some ErrBootstrapSignatureInvalid
      else match base64_decode (sg_Signature signed) with
      | Error _ => Some ErrBootstrapSignatureInvalid
      | Ok signature =>
          match canonical_payload (sg_Document signed) with
          | Error err => Some err
          | Ok payload => guard_err (negb (ed25519_Verify publicKey payload signature)) ErrBootstrapSignatureInvalid
          end
      end
  end.

Definition verify_document (key_error : string) (valid : option error) (signed : Signed D) (publicKey : string) : option error :=
  if negb (is_public_key publicKey) then Some (ErrNew key_error)
  else match valid with Some err => Some err | None => verify_signature signed publicKey end.

Definition signed_fields (signed : Signed D) (body : json) : list (string * option json) :=
  [(doc_field, Some body); ("key_id", Some (JString (sg_KeyID signed))); ("signature", Some (JString (sg_Signature signed)))].

Definition digest_document (signed : Signed D) : result string :=
  if blank (sg_KeyID signed) || blank (sg_Signature signed) then Error (ErrNew doc_incomplete)
  else match doc_json (sg_Document signed) with
  | Error err => Error (doc_digest_error err)
  | Ok body => Ok (sha256_digest (doc_signed_domain +:+ encode (object (signed_fields signed body))))
  end.
End Documents.

(** Keys whose signatures verify, as [crypto/ed25519] documents. *)
Class Ed25519Laws `{!Ed25519} : Prop :=
  ed25519_sign_verify privateKey payload : is_private_key privateKey = true →
    ed25519_Verify (ed25519_Public privateKey) payload (ed25519_Sign privateKey payload) = true.

(** * Lemmas *)

Section Facts.
Context {D : Type} `{!Document D, !Ed25519}.
Implicit Types (d : D) (signed : Signed D).

Lemma Ed25519_public_size privateKey : is_private_key privateKey = true → is_public_key (ed25519_Public privateKey) = true.
Proof.
  unfold is_private_key, is_public_key, ed25519_Public, PublicKeySize, PrivateKeySize. intros Hl%Nat.eqb_eq. apply Nat.eqb_eq.
  do 64 (destruct privateKey as [|? privateKey]; [discriminate Hl|]). destruct privateKey; [reflexivity|discriminate Hl].
Qed.

(** What a signed document carries. *)
Lemma sign_document_Ok valid key_error d stored privateKey signed : sign_document valid key_error d stored privateKey = Ok signed →
  valid = None ∧ is_private_key privateKey = true ∧ sg_Document signed = stored ∧
  BootstrapKeyID (ed25519_Public privateKey) = Ok (sg_KeyID signed) ∧
  ∃ payload, canonical_payload d = Ok payload ∧ sg_Signature signed = base64_encode (ed25519_Sign privateKey payload).
Proof.
  unfold sign_document. destruct valid; [done|]. destruct (is_private_key privateKey); [|done]. cbn [negb].
  destruct (canonical_payload d) as [payload|]; [|done]. cbn. destruct (BootstrapKeyID _) as [keyID|]; [|done]. cbn.
  intros [= <-]. split_and!; try done. by exists payload.
Qed.

(** A signature that verifies was made over the canonical form of the document. *)
Lemma verify_signature_None signed publicKey : verify_signature signed publicKey = None ↔
  BootstrapKeyID publicKey = Ok (sg_KeyID signed) ∧ ∃ payload signature, canonical_payload (sg_Document signed) = Ok payload ∧
    base64_decode (sg_Signature signed) = Ok signature ∧ ed25519_Verify publicKey payload signature = true.
Proof.
  unfold verify_signature. destruct (BootstrapKeyID publicKey) as [keyID|]; [|naive_solver].
  destruct (str_eqb _ keyID) eqn:Hk; split_bool; cbn [negb]; [|naive_solver]. subst keyID.
  destruct (base64_decode _) as [signature|]; [|naive_solver].
  destruct (canonical_payload _) as [payload|]; [|naive_solver]. rewrite guard_err_None, negb_false_iff. naive_solver.
Qed.

Lemma verify_document_None key_error valid signed publicKey : verify_document key_error valid signed publicKey = None ↔
  is_public_key publicKey = true ∧ valid = None ∧ verify_signature signed publicKey = None.
Proof. unfold verify_document. destruct (is_public_key publicKey), valid; naive_solver. Qed.

(** What is signed verifies, as long as what is stored has the same payload. *)
Lemma sign_verify `{!Ed25519Laws} valid key_error d stored privateKey signed :
  sign_document valid key_error d stored privateKey = Ok signed → canonical_payload stored = canonical_payload d →
  verify_signature signed (ed25519_Public privateKey) = None ∧ is_public_key (ed25519_Public privateKey) = true.
Proof.
  intros (_ & Hk & Hd & Hid & payload & Hp & Hs)%sign_document_Ok Hc. split; [|by apply Ed25519_public_size].
  apply verify_signature_None. split; [done|]. exists payload, (ed25519_Sign privateKey payload).
  rewrite Hd, Hc, Hs, base64_decode_encode. split_and!; [done|done|by apply ed25519_sign_verify].
Qed.

Lemma digest_document_Ok signed h : digest_document signed = Ok h → ∃ body, doc_json (sg_Document signed) = Ok body ∧
  h = sha256_digest (doc_signed_domain (D := D) +:+ encode (object (signed_fields signed body))).
Proof.
  unfold digest_document. destruct (_ || _); [done|]. destruct (doc_json _) as [body|]; [|done]. intros [= <-]. by exists body.
Qed.

Lemma digest_document_digest signed h : digest_document signed = Ok h → is_digest h = true.
Proof. intros (body & _ & ->)%digest_document_Ok. apply is_digest_sha256. Qed.
End Facts.

(** The digest names the signed document: two with one digest are equal or exhibit
    a collision of SHA-256. *)
Class InjectiveDocument (D : Type) `{!Document D} : Type := {
  doc_sound : D → bool; (** valid UTF-8, offsets in whole minutes: what JSON can carry *)
  doc_json_utf8 d body : doc_sound d = true → doc_json d = Ok body → utf8_json body = true;
  doc_json_inj d d' body : doc_sound d = true → doc_sound d' = true → doc_json d = Ok body → doc_json d' = Ok body → d = d';
  doc_field_utf8 : utf8_valid doc_field = true;
  doc_field_own : NoDup [doc_field; "key_id"; "signature"] }.

Definition sound_signed {D} `{InjectiveDocument D} (signed : Signed D) : Prop :=
  doc_sound (sg_Document signed) = true ∧ utf8_valid (sg_KeyID signed) = true ∧ utf8_valid (sg_Signature signed) = true.

Definition collision : Prop := ∃ a b, sha256_collision a b.

Lemma digest_document_inj {D} `{InjectiveDocument D} (signed signed' : Signed D) h : sound_signed signed → sound_signed signed' →
  digest_document signed = Ok h → digest_document signed' = Ok h → signed = signed' ∨ collision.
Proof.
  intros (Hd & Hk & Hs) (Hd' & Hk' & Hs') (body & Hb & ->)%digest_document_Ok (body' & Hb' & Hh)%digest_document_Ok.
  apply sha256_digest_eq in Hh as [Hp|Hc]; [|right; by eexists _, _]. left. apply string_app_inj_l in Hp.
  assert (Hu : ∀ (sg : Signed D) b, doc_sound (sg_Document sg) = true → utf8_valid (sg_KeyID sg) = true → utf8_valid (sg_Signature sg) = true →
    doc_json (sg_Document sg) = Ok b → utf8_json (object (signed_fields sg b)) = true).
  { intros sg b H2 H3 H4 Hj. apply utf8_object. unfold signed_fields. cbn [forallb utf8_opt utf8_json].
    rewrite doc_field_utf8, (doc_json_utf8 (sg_Document sg) b H2 Hj), H3, H4. reflexivity. }
  apply encode_inj in Hp; [|by apply Hu..]. apply object_inj in Hp; [|done|apply doc_field_own].
  injection Hp as -> Hk2 Hs2. destruct signed as [d k s], signed' as [d' k' s']. cbn in *. subst.
  by rewrite (doc_json_inj d d' body').
Qed.
