(* ===== verification/Workload.v ===== *)
(** * Workload admission

    Models [internal/kernelfabric/workload_admission.go] and, of
    [remote_attestation.go], the signed decision of the remote verifier: launch
    specifications, admission requests and grants, activation receipts. *)

From S2P Require Import Prelude Crypto Format Json Base64 Unmarshal GoTime Permit FileSystem Journal KernelAbi KernelFabric Evidence Document.
Local Open Scope Z_scope.
Local Open Scope go_scope.

Definition WorkloadAdmissionRequestVersion : string := "aegis.ege/workload-admission-request/v1".
Definition WorkloadAdmissionGrantVersion : string := "aegis.ege/workload-admission-grant/v1".
Definition WorkloadActivationReceiptVersion : string := "aegis.ege/workload-activation-receipt/v1".
Definition WorkloadActivationReceiptVersionV2 : string := "aegis.ege/workload-activation-receipt/v2".

Definition seconds (n : Z) : duration := n * second_ns.

Definition DefaultAdmissionAttestationMaxAge : duration := seconds 120.
Definition DefaultAdmissionGrantTTL : duration := seconds 30.
Definition DefaultAdmissionClockSkew : duration := seconds 5.

Definition ErrAdmissionRemoteDecisionRejected : error := ErrNew "remote attestation decision does not authorize workload admission".
Definition ErrAdmissionRemoteDecisionStale : error := ErrNew "remote attestation decision is stale".
Definition ErrAdmissionBindingMismatch : error := ErrNew "workload admission binding mismatch".
Definition ErrAdmissionGrantExpired : error := ErrNew "workload admission grant expired".
Definition ErrAdmissionGrantReplay : error := ErrNew "workload admission grant already consumed".

(** [if d <= 0 { d = default }] *)
Definition or_default (d default : duration) : duration := if d <=? 0 then default else d.

(** A field under [omitempty] of a number type or a pointer type. *)
Definition omit_number (z : Z) : option json := if z =? 0 then None else Some (JInt z).
Definition string_field (name value : string) : string * option json := (name, Some (JString value)).
Definition number_field (name : string) (value : Z) : string * option json := (name, Some (JInt value)).

(** * Launch specifications *)

Record WorkloadEnvironmentVariable : Type := { wv_Name : string; wv_Value : string }.

Definition LinuxWorkloadIsolationUserNamespaceV1 : string := "user-namespace-v1".

Record LinuxWorkloadIsolationSpec : Type := { li_Mode : string; li_HostUID : Z; li_HostGID : Z }.

Definition LinuxWorkloadIsolationSpec_Validate (s : LinuxWorkloadIsolationSpec) : option error :=
  if negb (str_eqb (TrimSpace (li_Mode s)) LinuxWorkloadIsolationUserNamespaceV1)
  then Some (ErrNew ("unsupported linux workload isolation mode " +:+ li_Mode s))
  else guard_err ((li_HostUID s =? 0) || (li_HostGID s =? 0)) (ErrNew "linux workload isolation host uid/gid must be non-root").

Record WorkloadLaunchSpec : Type := {
  sp_Executable : string; sp_Args : list string; sp_WorkingDir : string; sp_Environment : list WorkloadEnvironmentVariable;
  sp_LinuxIsolation : option LinuxWorkloadIsolationSpec }.

Definition absolute (path : string) : bool := negb (str_eqb path ".") && rooted path.

Fixpoint environment_invalid (seen : list string) (env : list WorkloadEnvironmentVariable) : option error :=
  match env with
  | [] => None
  | v :: env =>
      let name := TrimSpace (wv_Name v) in
      if str_eqb name "" || existsb (Ascii.eqb "=") (String.list_ascii_of_string name)
      then Some (ErrNew ("invalid workload environment variable name " +:+ wv_Name v))
      else if bool_decide (name ∈ seen) then Some (ErrNew ("duplicate workload environment variable " +:+ name))
      else environment_invalid (name :: seen) env
  end.

Definition WorkloadLaunchSpec_Validate (s : WorkloadLaunchSpec) : option error :=
  guard_err (negb (absolute (filepath_Clean (TrimSpace (sp_Executable s))))) (ErrNew "workload executable must be an absolute path") ;;?
  guard_err (negb (str_eqb (sp_WorkingDir s) "") && negb (absolute (filepath_Clean (TrimSpace (sp_WorkingDir s)))))
    (ErrNew "workload working_dir must be absolute when set") ;;?
  match sp_LinuxIsolation s with Some isolation => LinuxWorkloadIsolationSpec_Validate isolation | None => None end ;;?
  environment_invalid [] (sp_Environment s).

Definition environment_le (a b : WorkloadEnvironmentVariable) : Prop :=
  if str_eqb (wv_Name a) (wv_Name b) then String.le (wv_Value a) (wv_Value b) else String.le (wv_Name a) (wv_Name b).

#[export] Instance environment_le_dec : RelDecision environment_le.
Proof. intros a b. unfold environment_le. destruct (str_eqb _ _); apply _. Defined.

Definition environment_json (v : WorkloadEnvironmentVariable) : json :=
  object [string_field "name" (wv_Name v); string_field "value" (wv_Value v)].

Definition isolation_json (s : LinuxWorkloadIsolationSpec) : json :=
  object [string_field "mode" (li_Mode s); number_field "host_uid" (li_HostUID s); number_field "host_gid" (li_HostGID s)].

Definition spec_json (s : WorkloadLaunchSpec) : json :=
  object [string_field "executable" (sp_Executable s); ("args", omit_strings (sp_Args s)); ("working_dir", omit_string (sp_WorkingDir s));
          ("environment", match sp_Environment s with [] => None | env => Some (JArray (environment_json <$> env)) end);
          ("linux_isolation", isolation_json <$> sp_LinuxIsolation s)].

(** The environment is sorted by name and value. *)
Definition normalized_spec (s : WorkloadLaunchSpec) : WorkloadLaunchSpec := {|
  sp_Executable := filepath_Clean (sp_Executable s); sp_Args := sp_Args s;
  sp_WorkingDir := (if str_eqb (sp_WorkingDir s) "" then "" else filepath_Clean (sp_WorkingDir s));
  sp_Environment := merge_sort environment_le (sp_Environment s); sp_LinuxIsolation := sp_LinuxIsolation s |}.

Definition WorkloadLaunchSpecDigest (spec : WorkloadLaunchSpec) : result string :=
  match WorkloadLaunchSpec_Validate spec with
  | Some err => Error err
  | None => Ok (sha256_digest ("aegis-ege/workload-launch-spec/v1" +:+ nul +:+ encode (spec_json (normalized_spec spec))))
  end.

(** * The decision of the remote verifier *)

Record RemoteAttestationDecision : Type := {
  ra_Version : string; ra_DecisionID : string; ra_ChallengeID : string; ra_DeviceID : string; ra_Decision : string;
  ra_ReasonCodes : list string; ra_BootstrapDigest : string; ra_AKPublicSHA256 : string; ra_PCR10SHA256 : string;
  ra_IMAReplaySHA256 : string; ra_VerifiedAt : gotime; ra_VerifierID : string }.

Definition remote_decision_json (d : RemoteAttestationDecision) : result json :=
  verified ← gotime_json (ra_VerifiedAt d);
  Ok (object [string_field "version" (ra_Version d); string_field "decision_id" (ra_DecisionID d);
    string_field "challenge_id" (ra_ChallengeID d); string_field "device_id" (ra_DeviceID d); string_field "decision" (ra_Decision d);
    ("reason_codes", omit_strings (ra_ReasonCodes d)); string_field "bootstrap_digest" (ra_BootstrapDigest d);
    string_field "ak_public_sha256" (ra_AKPublicSHA256 d); ("pcr10_sha256", omit_string (ra_PCR10SHA256 d));
    ("ima_replay_sha256", omit_string (ra_IMAReplaySHA256 d)); ("verified_at", Some verified); string_field "verifier_id" (ra_VerifierID d)]).

Definition normalized_remote_decision (d : RemoteAttestationDecision) : RemoteAttestationDecision := {|
  ra_Version := ra_Version d; ra_DecisionID := ra_DecisionID d; ra_ChallengeID := ra_ChallengeID d; ra_DeviceID := ra_DeviceID d;
  ra_Decision := ra_Decision d; ra_ReasonCodes := sort_strings (ra_ReasonCodes d); ra_BootstrapDigest := ra_BootstrapDigest d;
  ra_AKPublicSHA256 := ra_AKPublicSHA256 d; ra_PCR10SHA256 := ra_PCR10SHA256 d; ra_IMAReplaySHA256 := ra_IMAReplaySHA256 d;
  ra_VerifiedAt := UTC (ra_VerifiedAt d); ra_VerifierID := ra_VerifierID d |}.

#[export] Instance RemoteAttestationDecision_document : Document RemoteAttestationDecision := {
  doc_json := remote_decision_json;
  doc_normalize := normalized_remote_decision;
  doc_domain _ := "aegis-ege/remote-attestation-decision/v1" +:+ nul;
  doc_payload_error := unwrapped;
  doc_field := "decision";
  doc_signed_domain := "aegis-ege/signed-remote-attestation-decision/v1" +:+ nul;
  doc_incomplete := "signed remote attestation decision is incomplete";
  doc_digest_error := ErrWrap "marshal signed remote decision" }.

Abbreviation SignedRemoteAttestationDecision := (Signed RemoteAttestationDecision).

Definition VerifySignedRemoteAttestationDecision `{!Ed25519} (signed : SignedRemoteAttestationDecision) (publicKey : string) : option error :=
  verify_signature signed publicKey.

Definition SignedRemoteAttestationDecisionDigest (decision : SignedRemoteAttestationDecision) : result string := digest_document decision.

(** [signRemoteDecision], after the decision was made. *)
Definition signRemoteDecision `{!Ed25519} (decision : RemoteAttestationDecision) (VerifierKey VerifierID : string)
    : result SignedRemoteAttestationDecision :=
  let verifierID := TrimSpace VerifierID in
  let d := {| ra_Version := ra_Version decision; ra_DecisionID := ra_DecisionID decision; ra_ChallengeID := ra_ChallengeID decision;
    ra_DeviceID := ra_DeviceID decision; ra_Decision := ra_Decision decision; ra_ReasonCodes := ra_ReasonCodes decision;
    ra_BootstrapDigest := ra_BootstrapDigest decision; ra_AKPublicSHA256 := ra_AKPublicSHA256 decision;
    ra_PCR10SHA256 := ra_PCR10SHA256 decision; ra_IMAReplaySHA256 := ra_IMAReplaySHA256 decision;
    ra_VerifiedAt := ra_VerifiedAt decision; ra_VerifierID := verifierID |} in
  sign_document
    (guard_err (negb (is_private_key VerifierKey)) (ErrNew "remote attestation verifier signing key is required") ;;?
     guard_err (str_eqb verifierID "") (ErrNew "remote attestation verifier id is required"))
    "remote attestation verifier signing key is required" d d VerifierKey.

(** * Admission requests *)

Record WorkloadAdmissionRequest : Type := {
  ar_Version : string; ar_RequestID : string; ar_DeviceID : string; ar_WorkloadID : string; ar_WorkloadSpecDigest : string;
  ar_TargetCgroup : string; ar_TargetCgroupID : Z; ar_BootstrapDigest : string; ar_RequestedAt : gotime }.

(** [now := time.Now().UTC()] where no time was given. *)
Definition now_or {X E} `{!GoWorld X} (now : time) : M X E time := if IsZero now then Now else mret now.

Definition NewWorkloadAdmissionRequest {X} `{!GoWorld X} (deviceID workloadID : string) (spec : WorkloadLaunchSpec)
    (targetCgroup : string) (targetCgroupID : Z) (bootstrapDigest : string) (now : time) : IO X (result WorkloadAdmissionRequest) :=
  let deviceID := TrimSpace deviceID in
  let workloadID := TrimSpace workloadID in
  let targetCgroup := filepath_Clean (TrimSpace targetCgroup) in
  if str_eqb deviceID "" || str_eqb workloadID "" then mret (Error (ErrNew "device_id and workload_id are required"))
  else if negb (absolute targetCgroup) then mret (Error (ErrNew "target_cgroup must be an absolute path"))
  else if targetCgroupID =? 0 then mret (Error (ErrNew "target_cgroup_id must be non-zero"))
  else match check_digest (ErrWrap "bootstrap digest") bootstrapDigest with
  | Some err => mret (Error err)
  | None =>
      match WorkloadLaunchSpecDigest spec with
      | Error err => mret (Error err)
      | Ok specDigest =>
          try (randomToken 24) unwrapped (λ requestID,
          now ← now_or now;
          mret (Ok {| ar_Version := WorkloadAdmissionRequestVersion; ar_RequestID := requestID; ar_DeviceID := deviceID;
            ar_WorkloadID := workloadID; ar_WorkloadSpecDigest := specDigest; ar_TargetCgroup := targetCgroup;
            ar_TargetCgroupID := targetCgroupID; ar_BootstrapDigest := bootstrapDigest; ar_RequestedAt := utc now |}))
      end
  end.

Definition ValidateWorkloadAdmissionRequest (req : WorkloadAdmissionRequest) : option error :=
  guard_err (negb (str_eqb (ar_Version req) WorkloadAdmissionRequestVersion))
    (ErrNew ("unsupported workload admission request version " +:+ ar_Version req)) ;;?
  guard_err (blank (ar_RequestID req) || blank (ar_DeviceID req) || blank (ar_WorkloadID req))
    (ErrNew "workload admission request identity fields are required") ;;?
  check_digest (ErrWrap "workload spec digest") (ar_WorkloadSpecDigest req) ;;?
  check_digest (ErrWrap "bootstrap digest") (ar_BootstrapDigest req) ;;?
  guard_err (negb (absolute (filepath_Clean (TrimSpace (ar_TargetCgroup req))))) (ErrNew "workload admission target_cgroup must be absolute") ;;?
  guard_err (ar_TargetCgroupID req =? 0) (ErrNew "workload admission target_cgroup_id must be non-zero") ;;?
  guard_err (gt_IsZero (ar_RequestedAt req)) (ErrNew "workload admission requested_at is required").

(** * Grants *)

Record WorkloadAdmissionGrant : Type := {
  gr_Version : string; gr_GrantID : string; gr_RequestID : string; gr_DeviceID : string; gr_WorkloadID : string;
  gr_WorkloadSpecDigest : string; gr_TargetCgroup : string; gr_TargetCgroupID : Z; gr_BootstrapDigest : string;
  gr_RemoteDecisionID : string; gr_RemoteDecisionDigest : string; gr_IssuerID : string; gr_NotBefore : gotime; gr_ExpiresAt : gotime }.

Definition grant_json (g : WorkloadAdmissionGrant) : result json :=
  not_before ← gotime_json (gr_NotBefore g); expires ← gotime_json (gr_ExpiresAt g);
  Ok (object [string_field "version" (gr_Version g); string_field "grant_id" (gr_GrantID g); string_field "request_id" (gr_RequestID g);
    string_field "device_id" (gr_DeviceID g); string_field "workload_id" (gr_WorkloadID g);
    string_field "workload_spec_digest" (gr_WorkloadSpecDigest g); string_field "target_cgroup" (gr_TargetCgroup g);
    number_field "target_cgroup_id" (gr_TargetCgroupID g); string_field "bootstrap_digest" (gr_BootstrapDigest g);
    string_field "remote_decision_id" (gr_RemoteDecisionID g); string_field "remote_decision_digest" (gr_RemoteDecisionDigest g);
    string_field "issuer_id" (gr_IssuerID g); ("not_before", Some not_before); ("expires_at", Some expires)]).

Definition normalized_grant (g : WorkloadAdmissionGrant) : WorkloadAdmissionGrant := {|
  gr_Version := gr_Version g; gr_GrantID := gr_GrantID g; gr_RequestID := gr_RequestID g; gr_DeviceID := gr_DeviceID g;
  gr_WorkloadID := gr_WorkloadID g; gr_WorkloadSpecDigest := gr_WorkloadSpecDigest g;
  gr_TargetCgroup := filepath_Clean (gr_TargetCgroup g); gr_TargetCgroupID := gr_TargetCgroupID g;
  gr_BootstrapDigest := gr_BootstrapDigest g; gr_RemoteDecisionID := gr_RemoteDecisionID g;
  gr_RemoteDecisionDigest := gr_RemoteDecisionDigest g; gr_IssuerID := gr_IssuerID g; gr_NotBefore := UTC (gr_NotBefore g);
  gr_ExpiresAt := UTC (gr_ExpiresAt g) |}.

#[export] Instance WorkloadAdmissionGrant_document : Document WorkloadAdmissionGrant := {
  doc_json := grant_json;
  doc_normalize := normalized_grant;
  doc_domain _ := "aegis-ege/workload-admission-grant/v1" +:+ nul;
  doc_payload_error := ErrWrap "marshal workload admission grant";
  doc_field := "grant";
  doc_signed_domain := "aegis-ege/signed-workload-admission-grant/v1" +:+ nul;
  doc_incomplete := "signed workload admission grant is incomplete";
  doc_digest_error := unwrapped }.

Abbreviation SignedWorkloadAdmissionGrant := (Signed WorkloadAdmissionGrant).

(** A time in a window that is closed at its start and open at its end; a zero
    time is not checked. *)
Definition check_window (now start finish : time) (early late : error) : option error :=
  if IsZero now then None
  else guard_err (Before now start) early ;;? guard_err (negb (Before now finish)) late.

(** A window that is not empty. *)
Definition window (start finish : gotime) : bool :=
  negb (gt_IsZero start) && negb (gt_IsZero finish) && After (gt_instant finish) (gt_instant start).

Section Grants.
Context `{!MapRange, !Ed25519}.

Definition ValidateWorkloadAdmissionGrant (grant : WorkloadAdmissionGrant) (now : time) : option error :=
  guard_err (negb (str_eqb (gr_Version grant) WorkloadAdmissionGrantVersion))
    (ErrNew ("unsupported workload admission grant version " +:+ gr_Version grant)) ;;?
  guard_err (blank (gr_GrantID grant) || blank (gr_RequestID grant) || blank (gr_DeviceID grant) || blank (gr_WorkloadID grant) ||
             blank (gr_RemoteDecisionID grant) || blank (gr_IssuerID grant))
    (ErrNew "workload admission grant identity fields are required") ;;?
  check_digests [("workload_spec_digest", gr_WorkloadSpecDigest grant); ("bootstrap_digest", gr_BootstrapDigest grant);
                 ("remote_decision_digest", gr_RemoteDecisionDigest grant)] ;;?
  guard_err (negb (absolute (filepath_Clean (TrimSpace (gr_TargetCgroup grant)))))
    (ErrNew "workload admission grant target_cgroup must be absolute") ;;?
  guard_err (gr_TargetCgroupID grant =? 0) (ErrNew "workload admission grant target_cgroup_id must be non-zero") ;;?
  guard_err (negb (window (gr_NotBefore grant) (gr_ExpiresAt grant))) (ErrNew "workload admission grant validity window is invalid") ;;?
  check_window now (gt_instant (gr_NotBefore grant)) (gt_instant (gr_ExpiresAt grant))
    (ErrNew "workload admission grant is not yet valid") ErrAdmissionGrantExpired.

Definition SignWorkloadAdmissionGrant (grant : WorkloadAdmissionGrant) (privateKey : string) : result SignedWorkloadAdmissionGrant :=
  sign_document (ValidateWorkloadAdmissionGrant grant 0) "invalid admission issuer private key" grant grant privateKey.

Definition VerifySignedWorkloadAdmissionGrant (signed : SignedWorkloadAdmissionGrant) (publicKey : string) (now : time) : option error :=
  verify_document "admission issuer public key is invalid" (ValidateWorkloadAdmissionGrant (sg_Document signed) now) signed publicKey.

Definition SignedWorkloadAdmissionGrantDigest (grant : SignedWorkloadAdmissionGrant) : result string := digest_document grant.
End Grants.

(** A policy's clock: [time.Now] is read first, and replaced where the policy has
    a clock of its own. *)
Definition policy_now {X E} `{!GoWorld X} (clock : option (X → time * X)) : M X E time :=
  now ← Now; match clock with None => mret now | Some f => silent f end.

Record WorkloadAdmissionPolicy (X : Type) : Type := {
  ap_RemoteVerifierPublicKey : string; ap_AdmissionIssuerKey : string; ap_AdmissionIssuerID : string;
  ap_MaxAttestationAge : duration; ap_GrantTTL : duration; ap_MaxClockSkew : duration; ap_Now : option (X → time * X) }.
Arguments ap_RemoteVerifierPublicKey {X} _.
Arguments ap_AdmissionIssuerKey {X} _.
Arguments ap_AdmissionIssuerID {X} _.
Arguments ap_MaxAttestationAge {X} _.
Arguments ap_GrantTTL {X} _.
Arguments ap_MaxClockSkew {X} _.
Arguments ap_Now {X} _.

(** The checks that need no clock. *)
Definition admission_refused `{!Ed25519} {X} (req : WorkloadAdmissionRequest) (decision : SignedRemoteAttestationDecision)
    (policy : WorkloadAdmissionPolicy X) : option error :=
  ValidateWorkloadAdmissionRequest req ;;?
  guard_err (negb (is_public_key (ap_RemoteVerifierPublicKey policy))) (ErrNew "trusted remote verifier public key is required") ;;?
  guard_err (negb (is_private_key (ap_AdmissionIssuerKey policy))) (ErrNew "admission issuer private key is required") ;;?
  guard_err (blank (ap_AdmissionIssuerID policy)) (ErrNew "admission issuer id is required") ;;?
  match VerifySignedRemoteAttestationDecision decision (ap_RemoteVerifierPublicKey policy) with
  | Some err => Some (ErrDetail ErrAdmissionRemoteDecisionRejected (error_text err))
  | None => None
  end ;;?
  guard_err (negb (str_eqb (ra_Decision (sg_Document decision)) "ALLOW")) ErrAdmissionRemoteDecisionRejected ;;?
  guard_err (negb (str_eqb (ra_DeviceID (sg_Document decision)) (ar_DeviceID req)) ||
             negb (str_eqb (ra_BootstrapDigest (sg_Document decision)) (ar_BootstrapDigest req))) ErrAdmissionBindingMismatch.

(** Until when a grant holds: its lifetime, and no longer than the attestation. *)
Definition grant_expiry (now : time) (verifiedAt : gotime) (maxAge ttl skew : duration) : result time :=
  if gt_IsZero verifiedAt then Error ErrAdmissionRemoteDecisionRejected
  else if After (gt_instant verifiedAt) (Add now skew)
  then Error (ErrDetail ErrAdmissionRemoteDecisionStale "verifier timestamp is in the future")
  else
    let attestationDeadline := Add (gt_instant verifiedAt) maxAge in
    if negb (Before now attestationDeadline) then Error ErrAdmissionRemoteDecisionStale
    else
      let expiresAt := Add now ttl in
      let expiresAt := if After expiresAt attestationDeadline then attestationDeadline else expiresAt in
      if negb (After expiresAt now) then Error ErrAdmissionRemoteDecisionStale else Ok expiresAt.

Section Issue.
Context `{!MapRange, !Ed25519} {X : Type} `{!GoWorld X}.

Definition IssueWorkloadAdmissionGrant (req : WorkloadAdmissionRequest) (decision : SignedRemoteAttestationDecision)
    (policy : WorkloadAdmissionPolicy X) : IO X (result SignedWorkloadAdmissionGrant) :=
  match admission_refused req decision policy with
  | Some err => mret (Error err)
  | None =>
      now ← policy_now (ap_Now policy);
      match grant_expiry now (ra_VerifiedAt (sg_Document decision))
              (or_default (ap_MaxAttestationAge policy) DefaultAdmissionAttestationMaxAge)
              (or_default (ap_GrantTTL policy) DefaultAdmissionGrantTTL)
              (or_default (ap_MaxClockSkew policy) DefaultAdmissionClockSkew) with
      | Error err => mret (Error err)
      | Ok expiresAt =>
          match SignedRemoteAttestationDecisionDigest decision with
          | Error err => mret (Error err)
          | Ok decisionDigest =>
              try (randomToken 24) unwrapped (λ grantID,
              mret (SignWorkloadAdmissionGrant {|
                gr_Version := WorkloadAdmissionGrantVersion; gr_GrantID := grantID; gr_RequestID := ar_RequestID req;
                gr_DeviceID := ar_DeviceID req; gr_WorkloadID := ar_WorkloadID req;
                gr_WorkloadSpecDigest := ar_WorkloadSpecDigest req; gr_TargetCgroup := filepath_Clean (ar_TargetCgroup req);
                gr_TargetCgroupID := ar_TargetCgroupID req; gr_BootstrapDigest := ar_BootstrapDigest req;
                gr_RemoteDecisionID := ra_DecisionID (sg_Document decision); gr_RemoteDecisionDigest := decisionDigest;
                gr_IssuerID := TrimSpace (ap_AdmissionIssuerID policy); gr_NotBefore := utc now; gr_ExpiresAt := utc expiresAt |}
                (ap_AdmissionIssuerKey policy)))
          end
      end
  end.
End Issue.

(** * Activation receipts *)

Record LinuxProcessIdentity : Type := {
  pi_BootIDHash : string; pi_ProcessStartTimeTicks : Z; pi_ExecutableDevice : Z; pi_ExecutableInode : Z }.

#[export] Instance LinuxProcessIdentity_eq_dec : EqDecision LinuxProcessIdentity.
Proof. solve_decision. Defined.

Definition ValidateLinuxProcessIdentity (identity : LinuxProcessIdentity) : option error :=
  check_digest (ErrWrap "process boot id hash") (pi_BootIDHash identity) ;;?
  guard_err ((pi_ProcessStartTimeTicks identity =? 0) || (pi_ExecutableDevice identity =? 0) || (pi_ExecutableInode identity =? 0))
    (ErrNew "linux process identity is incomplete").

Definition identity_json (i : LinuxProcessIdentity) : json :=
  object [string_field "boot_id_hash" (pi_BootIDHash i); number_field "process_start_time_ticks" (pi_ProcessStartTimeTicks i);
          number_field "executable_device" (pi_ExecutableDevice i); number_field "executable_inode" (pi_ExecutableInode i)].

Record WorkloadActivationReceipt : Type := {
  ac_Version : string; ac_ActivationID : string; ac_GrantID : string; ac_GrantDigest : string; ac_DeviceID : string;
  ac_WorkloadID : string; ac_WorkloadSpecDigest : string; ac_TargetCgroup : string; ac_TargetCgroupID : Z; ac_ProcessID : Z;
  ac_ProcessIdentity : option LinuxProcessIdentity; ac_StartedAt : gotime }.

Definition activation_json (r : WorkloadActivationReceipt) : result json :=
  started ← gotime_json (ac_StartedAt r);
  Ok (object [string_field "version" (ac_Version r); string_field "activation_id" (ac_ActivationID r); string_field "grant_id" (ac_GrantID r);
    string_field "grant_digest" (ac_GrantDigest r); string_field "device_id" (ac_DeviceID r); string_field "workload_id" (ac_WorkloadID r);
    string_field "workload_spec_digest" (ac_WorkloadSpecDigest r); string_field "target_cgroup" (ac_TargetCgroup r);
    number_field "target_cgroup_id" (ac_TargetCgroupID r); number_field "process_id" (ac_ProcessID r);
    ("process_identity", identity_json <$> ac_ProcessIdentity r); ("started_at", Some started)]).

Definition normalized_activation (r : WorkloadActivationReceipt) : WorkloadActivationReceipt := {|
  ac_Version := ac_Version r; ac_ActivationID := ac_ActivationID r; ac_GrantID := ac_GrantID r; ac_GrantDigest := ac_GrantDigest r;
  ac_DeviceID := ac_DeviceID r; ac_WorkloadID := ac_WorkloadID r; ac_WorkloadSpecDigest := ac_WorkloadSpecDigest r;
  ac_TargetCgroup := ac_TargetCgroup r; ac_TargetCgroupID := ac_TargetCgroupID r; ac_ProcessID := ac_ProcessID r;
  ac_ProcessIdentity := ac_ProcessIdentity r; ac_StartedAt := UTC (ac_StartedAt r) |}.

#[export] Instance WorkloadActivationReceipt_document : Document WorkloadActivationReceipt := {
  doc_json := activation_json;
  doc_normalize := normalized_activation;
  doc_domain r := (if str_eqb (ac_Version r) WorkloadActivationReceiptVersionV2 then "aegis-ege/workload-activation-receipt/v2"
                   else "aegis-ege/workload-activation-receipt/v1") +:+ nul;
  doc_payload_error := unwrapped;
  doc_field := "receipt";
  doc_signed_domain := "aegis-ege/signed-workload-activation-receipt/v1" +:+ nul;
  doc_incomplete := "signed workload activation receipt is incomplete";
  doc_digest_error := unwrapped }.

Abbreviation SignedWorkloadActivationReceipt := (Signed WorkloadActivationReceipt).

Definition is_v2 (r : WorkloadActivationReceipt) : bool := str_eqb (ac_Version r) WorkloadActivationReceiptVersionV2.

Definition ValidateWorkloadActivationReceipt (receipt : WorkloadActivationReceipt) : option error :=
  guard_err (negb (str_eqb (ac_Version receipt) WorkloadActivationReceiptVersion) && negb (is_v2 receipt))
    (ErrNew ("unsupported workload activation receipt version " +:+ ac_Version receipt)) ;;?
  guard_err (blank (ac_ActivationID receipt) || blank (ac_GrantID receipt) || blank (ac_DeviceID receipt) || blank (ac_WorkloadID receipt) ||
             (ac_TargetCgroupID receipt =? 0) || (ac_ProcessID receipt <=? 0) || gt_IsZero (ac_StartedAt receipt))
    (ErrNew "workload activation receipt is incomplete") ;;?
  check_digest (ErrWrap "grant digest") (ac_GrantDigest receipt) ;;?
  check_digest (ErrWrap "workload spec digest") (ac_WorkloadSpecDigest receipt) ;;?
  if is_v2 receipt then
    match ac_ProcessIdentity receipt with
    | None => Some (ErrNew "workload activation receipt v2 requires linux process identity")
    | Some identity => ValidateLinuxProcessIdentity identity
    end
  else None.

(** The signed receipt holds the receipt with its time in UTC. *)
Definition SignWorkloadActivationReceipt `{!Ed25519} (receipt : WorkloadActivationReceipt) (privateKey : string)
    : result SignedWorkloadActivationReceipt :=
  sign_document (ValidateWorkloadActivationReceipt receipt) "host activation attestor private key is invalid"
    receipt (normalized_activation receipt) privateKey.

Definition VerifySignedWorkloadActivationReceipt `{!Ed25519} (signed : SignedWorkloadActivationReceipt) (publicKey : string) : option error :=
  verify_document "host activation attestor public key is invalid" (ValidateWorkloadActivationReceipt (sg_Document signed)) signed publicKey.

Definition SignedWorkloadActivationReceiptDigest (signed : SignedWorkloadActivationReceipt) : result string := digest_document signed.
