(* ===== verification/Lifecycle.v ===== *)
(** * The workload lifecycle

    Models [internal/kernelfabric/workload_lifecycle.go]: exit receipts, the
    state a lifecycle is kept in, the evaluation of a restart with its budget and
    backoff, and the check of a restart decision against the state. *)

From S2P Require Import Prelude Crypto Format Json Base64 Unmarshal GoTime Permit FileSystem Journal KernelAbi KernelFabric Evidence Document Workload.
Local Open Scope Z_scope.
Local Open Scope go_scope.

Definition WorkloadExitReceiptVersion : string := "aegis.ege/workload-exit-receipt/v1".
Definition WorkloadRestartDecisionVersion : string := "aegis.ege/workload-restart-decision/v1".
Definition WorkloadLifecycleStateVersion : string := "aegis.ege/workload-lifecycle-state/v1".

Definition RestartOutcomeBlock : string := "BLOCK".
Definition RestartOutcomeRequireFreshGrant : string := "REQUIRE_FRESH_GRANT".
Definition RestartOutcomeRequireReattestation : string := "REQUIRE_REATTESTATION".

Definition ExitClassClean : string := "CLEAN".
Definition ExitClassNonZero : string := "NONZERO".
Definition ExitClassSignal : string := "SIGNAL".

Definition LifecycleStateRunning : string := "RUNNING".
Definition LifecycleStateExited : string := "EXITED".
Definition LifecycleStateExitedUnknown : string := "EXITED_UNKNOWN".
Definition LifecycleStateQuarantined : string := "QUARANTINED".

Definition ErrLifecycleInvalidLineage : error := ErrNew "workload lifecycle lineage is invalid".
Definition ErrLifecycleAlreadyRunning : error := ErrNew "workload lifecycle is already running".
Definition ErrRestartBudgetExhausted : error := ErrNew "workload restart budget exhausted".
Definition ErrRestartDecisionRejected : error := ErrNew "workload restart decision does not authorize restart".

(** Two values that a lineage check compares. *)
Definition differ (a b : string) : bool := negb (str_eqb a b).

(** * Exit receipts *)

Record WorkloadExitReceipt : Type := {
  ex_Version : string; ex_ExitID : string; ex_ActivationID : string; ex_ActivationDigest : string; ex_GrantID : string;
  ex_GrantDigest : string; ex_DeviceID : string; ex_WorkloadID : string; ex_WorkloadSpecDigest : string; ex_TargetCgroup : string;
  ex_TargetCgroupID : Z; ex_ProcessID : Z; ex_ExitClass : string; ex_ExitCode : Z; ex_Signal : Z; ex_StartedAt : gotime;
  ex_ExitedAt : gotime }.

Definition exit_json (r : WorkloadExitReceipt) : result json :=
  started ← gotime_json (ex_StartedAt r); exited ← gotime_json (ex_ExitedAt r);
  Ok (object [string_field "version" (ex_Version r); string_field "exit_id" (ex_ExitID r); string_field "activation_id" (ex_ActivationID r);
    string_field "activation_digest" (ex_ActivationDigest r); string_field "grant_id" (ex_GrantID r);
    string_field "grant_digest" (ex_GrantDigest r); string_field "device_id" (ex_DeviceID r); string_field "workload_id" (ex_WorkloadID r);
    string_field "workload_spec_digest" (ex_WorkloadSpecDigest r); string_field "target_cgroup" (ex_TargetCgroup r);
    number_field "target_cgroup_id" (ex_TargetCgroupID r); number_field "process_id" (ex_ProcessID r);
    string_field "exit_class" (ex_ExitClass r); number_field "exit_code" (ex_ExitCode r); ("signal", omit_number (ex_Signal r));
    ("started_at", Some started); ("exited_at", Some exited)]).

Definition normalized_exit (r : WorkloadExitReceipt) : WorkloadExitReceipt := {|
  ex_Version := ex_Version r; ex_ExitID := ex_ExitID r; ex_ActivationID := ex_ActivationID r; ex_ActivationDigest := ex_ActivationDigest r;
  ex_GrantID := ex_GrantID r; ex_GrantDigest := ex_GrantDigest r; ex_DeviceID := ex_DeviceID r; ex_WorkloadID := ex_WorkloadID r;
  ex_WorkloadSpecDigest := ex_WorkloadSpecDigest r; ex_TargetCgroup := ex_TargetCgroup r; ex_TargetCgroupID := ex_TargetCgroupID r;
  ex_ProcessID := ex_ProcessID r; ex_ExitClass := ex_ExitClass r; ex_ExitCode := ex_ExitCode r; ex_Signal := ex_Signal r;
  ex_StartedAt := UTC (ex_StartedAt r); ex_ExitedAt := UTC (ex_ExitedAt r) |}.

#[export] Instance WorkloadExitReceipt_document : Document WorkloadExitReceipt := {
  doc_json := exit_json;
  doc_normalize := normalized_exit;
  doc_domain _ := "aegis-ege/workload-exit-receipt/v1" +:+ nul;
  doc_payload_error := unwrapped;
  doc_field := "receipt";
  doc_signed_domain := "aegis-ege/signed-workload-exit-receipt/v1" +:+ nul;
  doc_incomplete := "signed workload exit receipt is incomplete";
  doc_digest_error := unwrapped }.

Abbreviation SignedWorkloadExitReceipt := (Signed WorkloadExitReceipt).

Definition exit_class_invalid (receipt : WorkloadExitReceipt) : option error :=
  if str_eqb (ex_ExitClass receipt) ExitClassClean then
    guard_err (negb (ex_ExitCode receipt =? 0) || negb (ex_Signal receipt =? 0)) (ErrNew "clean exit must have code 0 and no signal")
  else if str_eqb (ex_ExitClass receipt) ExitClassNonZero then
    guard_err ((ex_ExitCode receipt =? 0) || negb (ex_Signal receipt =? 0)) (ErrNew "nonzero exit must have nonzero code and no signal")
  else if str_eqb (ex_ExitClass receipt) ExitClassSignal then
    guard_err (ex_Signal receipt <=? 0) (ErrNew "signaled exit must include signal")
  else Some (ErrNew ("unsupported exit class " +:+ ex_ExitClass receipt)).

Section Exit.
Context `{!MapRange, !Ed25519}.

Definition ValidateWorkloadExitReceipt (receipt : WorkloadExitReceipt) : option error :=
  guard_err (negb (str_eqb (ex_Version receipt) WorkloadExitReceiptVersion) || blank (ex_ExitID receipt) || blank (ex_ActivationID receipt) ||
             blank (ex_GrantID receipt) || blank (ex_DeviceID receipt) || blank (ex_WorkloadID receipt) ||
             (ex_TargetCgroupID receipt =? 0) || (ex_ProcessID receipt <=? 0) || gt_IsZero (ex_StartedAt receipt) ||
             gt_IsZero (ex_ExitedAt receipt) || Before (gt_instant (ex_ExitedAt receipt)) (gt_instant (ex_StartedAt receipt)))
    (ErrNew "workload exit receipt is incomplete") ;;?
  check_digests [("activation_digest", ex_ActivationDigest receipt); ("grant_digest", ex_GrantDigest receipt);
                 ("workload_spec_digest", ex_WorkloadSpecDigest receipt)] ;;?
  exit_class_invalid receipt.

Definition SignWorkloadExitReceipt (receipt : WorkloadExitReceipt) (privateKey : string) : result SignedWorkloadExitReceipt :=
  sign_document (ValidateWorkloadExitReceipt receipt) "host lifecycle attestor private key is invalid" receipt receipt privateKey.

Definition VerifySignedWorkloadExitReceipt (signed : SignedWorkloadExitReceipt) (publicKey : string) : option error :=
  verify_document "host lifecycle attestor public key is invalid" (ValidateWorkloadExitReceipt (sg_Document signed)) signed publicKey.
End Exit.

Definition SignedWorkloadExitReceiptDigest (signed : SignedWorkloadExitReceipt) : result string := digest_document signed.

(** * The state of a lifecycle *)

Record WorkloadLifecycleState : Type := {
  ls_Version : string; ls_DeviceID : string; ls_WorkloadID : string; ls_Generation : Z; ls_LifecycleEpoch : Z; ls_State : string;
  ls_ActivationDigest : string; ls_ExitDigest : string; ls_RecoveryDigest : string; ls_RuntimeTrustEpoch : Z;
  ls_RuntimeTrustLeaseDigest : string; ls_RuntimeTrustExpiresAt : gotime; ls_RuntimeTrustBootIDHash : string;
  ls_RuntimeTrustInstalledBootNS : Z; ls_RuntimeTrustDeadlineBootNS : Z; ls_RestartCountInWindow : Z;
  ls_RestartWindowStartedAt : gotime; ls_UpdatedAt : gotime }.

#[export] Instance WorkloadLifecycleState_eq_dec : EqDecision WorkloadLifecycleState.
Proof. solve_decision. Defined.

Definition EffectiveLifecycleEpoch (state : WorkloadLifecycleState) : Z := if ls_LifecycleEpoch state =? 0 then 1 else ls_LifecycleEpoch state.

Definition with_LifecycleEpoch (epoch : Z) (s : WorkloadLifecycleState) : WorkloadLifecycleState := {|
  ls_Version := ls_Version s; ls_DeviceID := ls_DeviceID s; ls_WorkloadID := ls_WorkloadID s; ls_Generation := ls_Generation s;
  ls_LifecycleEpoch := epoch; ls_State := ls_State s; ls_ActivationDigest := ls_ActivationDigest s; ls_ExitDigest := ls_ExitDigest s;
  ls_RecoveryDigest := ls_RecoveryDigest s; ls_RuntimeTrustEpoch := ls_RuntimeTrustEpoch s;
  ls_RuntimeTrustLeaseDigest := ls_RuntimeTrustLeaseDigest s; ls_RuntimeTrustExpiresAt := ls_RuntimeTrustExpiresAt s;
  ls_RuntimeTrustBootIDHash := ls_RuntimeTrustBootIDHash s; ls_RuntimeTrustInstalledBootNS := ls_RuntimeTrustInstalledBootNS s;
  ls_RuntimeTrustDeadlineBootNS := ls_RuntimeTrustDeadlineBootNS s; ls_RestartCountInWindow := ls_RestartCountInWindow s;
  ls_RestartWindowStartedAt := ls_RestartWindowStartedAt s; ls_UpdatedAt := ls_UpdatedAt s |}.

Definition NormalizeWorkloadLifecycleState (state : WorkloadLifecycleState) : WorkloadLifecycleState :=
  if ls_LifecycleEpoch state =? 0 then with_LifecycleEpoch 1 state else state.

Definition clearRuntimeTrustState (s : WorkloadLifecycleState) : WorkloadLifecycleState := {|
  ls_Version := ls_Version s; ls_DeviceID := ls_DeviceID s; ls_WorkloadID := ls_WorkloadID s; ls_Generation := ls_Generation s;
  ls_LifecycleEpoch := ls_LifecycleEpoch s; ls_State := ls_State s; ls_ActivationDigest := ls_ActivationDigest s;
  ls_ExitDigest := ls_ExitDigest s; ls_RecoveryDigest := ls_RecoveryDigest s; ls_RuntimeTrustEpoch := 0;
  ls_RuntimeTrustLeaseDigest := ""; ls_RuntimeTrustExpiresAt := utc 0; ls_RuntimeTrustBootIDHash := "";
  ls_RuntimeTrustInstalledBootNS := 0; ls_RuntimeTrustDeadlineBootNS := 0; ls_RestartCountInWindow := ls_RestartCountInWindow s;
  ls_RestartWindowStartedAt := ls_RestartWindowStartedAt s; ls_UpdatedAt := ls_UpdatedAt s |}.

(** The digests that go with each state. *)
Definition state_digests_invalid (s : WorkloadLifecycleState) : option error :=
  if str_eqb (ls_State s) LifecycleStateRunning then
    guard_err (negb (str_eqb (ls_ExitDigest s) "") || negb (str_eqb (ls_RecoveryDigest s) ""))
      (ErrNew "running lifecycle state cannot carry exit/recovery digest")
  else if str_eqb (ls_State s) LifecycleStateExited then
    check_digest (ErrWrap "lifecycle exit digest") (ls_ExitDigest s) ;;?
    guard_err (negb (str_eqb (ls_RecoveryDigest s) "")) (ErrNew "normal exited state cannot carry recovery digest")
  else if str_eqb (ls_State s) LifecycleStateExitedUnknown || str_eqb (ls_State s) LifecycleStateQuarantined then
    guard_err (negb (str_eqb (ls_ExitDigest s) "")) (ErrNew "recovered lifecycle state cannot carry normal exit digest") ;;?
    check_digest (ErrWrap "lifecycle recovery digest") (ls_RecoveryDigest s)
  else Some (ErrNew ("unsupported workload lifecycle state " +:+ ls_State s)).

Definition runtime_trust_invalid (s : WorkloadLifecycleState) : option error :=
  if ls_RuntimeTrustEpoch s =? 0 then
    guard_err (negb (str_eqb (ls_RuntimeTrustLeaseDigest s) "") || negb (gt_IsZero (ls_RuntimeTrustExpiresAt s)) ||
               negb (str_eqb (ls_RuntimeTrustBootIDHash s) "") || negb (ls_RuntimeTrustInstalledBootNS s =? 0) ||
               negb (ls_RuntimeTrustDeadlineBootNS s =? 0))
      (ErrNew "runtime trust metadata exists without runtime trust epoch")
  else
    guard_err (negb (str_eqb (ls_State s) LifecycleStateRunning)) (ErrNew "non-running lifecycle state cannot carry runtime trust lease") ;;?
    check_digest (ErrWrap "runtime trust lease digest") (ls_RuntimeTrustLeaseDigest s) ;;?
    check_digest (ErrWrap "runtime trust boot id hash") (ls_RuntimeTrustBootIDHash s) ;;?
    guard_err (gt_IsZero (ls_RuntimeTrustExpiresAt s) || (ls_RuntimeTrustInstalledBootNS s =? 0) || (ls_RuntimeTrustDeadlineBootNS s =? 0) ||
               (ls_RuntimeTrustDeadlineBootNS s <=? ls_RuntimeTrustInstalledBootNS s))
      (ErrNew "runtime trust local deadline binding is invalid").

Definition ValidateWorkloadLifecycleState (s : WorkloadLifecycleState) : option error :=
  guard_err (negb (str_eqb (ls_Version s) WorkloadLifecycleStateVersion) || blank (ls_DeviceID s) || blank (ls_WorkloadID s) ||
             (ls_Generation s =? 0) || gt_IsZero (ls_RestartWindowStartedAt s) || gt_IsZero (ls_UpdatedAt s))
    (ErrNew "workload lifecycle state is invalid") ;;?
  state_digests_invalid s ;;?
  check_digest (ErrWrap "lifecycle activation digest") (ls_ActivationDigest s) ;;?
  runtime_trust_invalid s.

(** * Restart decisions *)

Record WorkloadRestartDecision : Type := {
  rd_Version : string; rd_DecisionID : string; rd_DeviceID : string; rd_WorkloadID : string; rd_WorkloadSpecDigest : string;
  rd_TargetCgroup : string; rd_TargetCgroupID : Z; rd_BootstrapDigest : string; rd_PreviousGeneration : Z; rd_LifecycleEpoch : Z;
  rd_PreviousActivationDigest : string; rd_PreviousExitDigest : string; rd_PreviousRecoveryDigest : string;
  rd_CurrentRemoteDecisionDigest : string; rd_Outcome : string; rd_ReasonCodes : list string; rd_RestartCountInWindow : Z;
  rd_RestartWindowStartedAt : gotime; rd_NotBefore : gotime; rd_ExpiresAt : gotime; rd_EvaluatedAt : gotime; rd_AuthorityID : string }.

Definition restart_json (d : WorkloadRestartDecision) : result json :=
  started ← gotime_json (rd_RestartWindowStartedAt d); not_before ← gotime_json (rd_NotBefore d);
  expires ← gotime_json (rd_ExpiresAt d); evaluated ← gotime_json (rd_EvaluatedAt d);
  Ok (object [string_field "version" (rd_Version d); string_field "decision_id" (rd_DecisionID d); string_field "device_id" (rd_DeviceID d);
    string_field "workload_id" (rd_WorkloadID d); string_field "workload_spec_digest" (rd_WorkloadSpecDigest d);
    string_field "target_cgroup" (rd_TargetCgroup d); number_field "target_cgroup_id" (rd_TargetCgroupID d);
    string_field "bootstrap_digest" (rd_BootstrapDigest d); number_field "previous_generation" (rd_PreviousGeneration d);
    number_field "lifecycle_epoch" (rd_LifecycleEpoch d); string_field "previous_activation_digest" (rd_PreviousActivationDigest d);
    ("previous_exit_digest", omit_string (rd_PreviousExitDigest d)); ("previous_recovery_digest", omit_string (rd_PreviousRecoveryDigest d));
    string_field "current_remote_decision_digest" (rd_CurrentRemoteDecisionDigest d); string_field "outcome" (rd_Outcome d);
    ("reason_codes", omit_strings (rd_ReasonCodes d)); number_field "restart_count_in_window" (rd_RestartCountInWindow d);
    ("restart_window_started_at", Some started); ("not_before", Some not_before); ("expires_at", Some expires);
    ("evaluated_at", Some evaluated); string_field "authority_id" (rd_AuthorityID d)]).

Definition normalized_restart (d : WorkloadRestartDecision) : WorkloadRestartDecision := {|
  rd_Version := rd_Version d; rd_DecisionID := rd_DecisionID d; rd_DeviceID := rd_DeviceID d; rd_WorkloadID := rd_WorkloadID d;
  rd_WorkloadSpecDigest := rd_WorkloadSpecDigest d; rd_TargetCgroup := filepath_Clean (rd_TargetCgroup d);
  rd_TargetCgroupID := rd_TargetCgroupID d; rd_BootstrapDigest := rd_BootstrapDigest d; rd_PreviousGeneration := rd_PreviousGeneration d;
  rd_LifecycleEpoch := rd_LifecycleEpoch d; rd_PreviousActivationDigest := rd_PreviousActivationDigest d;
  rd_PreviousExitDigest := rd_PreviousExitDigest d; rd_PreviousRecoveryDigest := rd_PreviousRecoveryDigest d;
  rd_CurrentRemoteDecisionDigest := rd_CurrentRemoteDecisionDigest d; rd_Outcome := rd_Outcome d;
  rd_ReasonCodes := sort_strings (rd_ReasonCodes d); rd_RestartCountInWindow := rd_RestartCountInWindow d;
  rd_RestartWindowStartedAt := UTC (rd_RestartWindowStartedAt d); rd_NotBefore := UTC (rd_NotBefore d);
  rd_ExpiresAt := UTC (rd_ExpiresAt d); rd_EvaluatedAt := UTC (rd_EvaluatedAt d); rd_AuthorityID := rd_AuthorityID d |}.

#[export] Instance WorkloadRestartDecision_document : Document WorkloadRestartDecision := {
  doc_json := restart_json;
  doc_normalize := normalized_restart;
  doc_domain _ := "aegis-ege/workload-restart-decision/v1" +:+ nul;
  doc_payload_error := unwrapped;
  doc_field := "decision";
  doc_signed_domain := ""; (** no digest of a restart decision is taken *)
  doc_incomplete := "";
  doc_digest_error := unwrapped }.

Abbreviation SignedWorkloadRestartDecision := (Signed WorkloadRestartDecision).

(** A digest that may be missing. *)
Definition check_optional_digest (wrap : error → error) (digest : string) : option error :=
  if blank digest then None else check_digest wrap digest.

Definition clean_absolute (path : string) : bool := str_eqb (filepath_Clean path) path && rooted path.

Section Decisions.
Context `{!MapRange, !Ed25519}.

Definition ValidateWorkloadRestartDecision (d : WorkloadRestartDecision) (now : time) : option error :=
  guard_err (negb (str_eqb (rd_Version d) WorkloadRestartDecisionVersion) || blank (rd_DecisionID d) || blank (rd_DeviceID d) ||
             blank (rd_WorkloadID d) || blank (rd_TargetCgroup d) || (rd_TargetCgroupID d =? 0) || (rd_PreviousGeneration d =? 0) ||
             (rd_LifecycleEpoch d =? 0) || blank (rd_AuthorityID d) || gt_IsZero (rd_EvaluatedAt d) ||
             gt_IsZero (rd_RestartWindowStartedAt d) || negb (window (rd_NotBefore d) (rd_ExpiresAt d)))
    (ErrNew "workload restart decision is incomplete") ;;?
  check_digests [("workload_spec_digest", rd_WorkloadSpecDigest d); ("bootstrap_digest", rd_BootstrapDigest d);
                 ("previous_activation_digest", rd_PreviousActivationDigest d);
                 ("current_remote_decision_digest", rd_CurrentRemoteDecisionDigest d)] ;;?
  guard_err (Bool.eqb (blank (rd_PreviousExitDigest d)) (blank (rd_PreviousRecoveryDigest d)))
    (ErrNew "restart decision must bind exactly one exit or recovery digest") ;;?
  check_optional_digest (ErrWrap "previous_exit_digest") (rd_PreviousExitDigest d) ;;?
  check_optional_digest (ErrWrap "previous_recovery_digest") (rd_PreviousRecoveryDigest d) ;;?
  guard_err (negb (clean_absolute (rd_TargetCgroup d))) (ErrNew "restart decision target_cgroup must be a clean absolute path") ;;?
  guard_err (differ (rd_Outcome d) RestartOutcomeBlock && differ (rd_Outcome d) RestartOutcomeRequireFreshGrant &&
             differ (rd_Outcome d) RestartOutcomeRequireReattestation) (ErrNew ("unsupported restart outcome " +:+ rd_Outcome d)) ;;?
  check_window now (gt_instant (rd_NotBefore d)) (gt_instant (rd_ExpiresAt d))
    (ErrNew "workload restart decision backoff has not elapsed") (ErrNew "workload restart decision expired").

Definition SignWorkloadRestartDecision (decision : WorkloadRestartDecision) (privateKey : string) : result SignedWorkloadRestartDecision :=
  sign_document (ValidateWorkloadRestartDecision decision 0) "invalid lifecycle authority key" decision decision privateKey.

Definition VerifySignedWorkloadRestartDecision (signed : SignedWorkloadRestartDecision) (publicKey : string) (now : time) : option error :=
  verify_document "lifecycle authority public key is invalid" (ValidateWorkloadRestartDecision (sg_Document signed) now) signed publicKey.
End Decisions.

(** * Evaluating a restart *)

Record WorkloadRestartPolicy (X : Type) : Type := {
  rp_MaxRestartsPerWindow : Z; rp_RestartWindow : duration; rp_BaseBackoff : duration; rp_MaxBackoff : duration;
  rp_ReattestAfter : duration; rp_ReattestOnNonZero : bool; rp_ReattestOnSignal : bool; rp_AllowCleanExitRestart : bool;
  rp_DecisionTTL : duration; rp_LifecycleAuthorityKey : string; rp_LifecycleAuthorityID : string; rp_RemoteVerifierPublicKey : string;
  rp_AdmissionIssuerPublicKey : string; rp_HostAttestorPublicKey : string; rp_Now : option (X → time * X) }.
Arguments rp_MaxRestartsPerWindow {X} _.
Arguments rp_RestartWindow {X} _.
Arguments rp_BaseBackoff {X} _.
Arguments rp_MaxBackoff {X} _.
Arguments rp_ReattestAfter {X} _.
Arguments rp_ReattestOnNonZero {X} _.
Arguments rp_ReattestOnSignal {X} _.
Arguments rp_AllowCleanExitRestart {X} _.
Arguments rp_DecisionTTL {X} _.
Arguments rp_LifecycleAuthorityKey {X} _.
Arguments rp_LifecycleAuthorityID {X} _.
Arguments rp_RemoteVerifierPublicKey {X} _.
Arguments rp_AdmissionIssuerPublicKey {X} _.
Arguments rp_HostAttestorPublicKey {X} _.
Arguments rp_Now {X} _.

(** The loop of [boundedRestartBackoff]: the delay doubles until it meets [max]. *)
Fixpoint backoff_loop (count : nat) (max delay : duration) : duration :=
  match count with
  | O => delay
  | S count =>
      if wrap_i64 (max - delay) <=? delay then max
      else
        let delay := wrap_i64 (delay * 2) in
        if max <=? delay then max else backoff_loop count max delay
  end.

Definition boundedRestartBackoff (base max : duration) (restartCount : Z) : duration :=
  let base := or_default base (seconds 1) in
  let max := or_default max (seconds 60) in
  if max <=? base then max else backoff_loop (Z.to_nat restartCount) max base.

(** The defaults of a policy. *)
Definition restart_window {X} (p : WorkloadRestartPolicy X) : duration := or_default (rp_RestartWindow p) (seconds 600).
Definition max_restarts {X} (p : WorkloadRestartPolicy X) : Z := if rp_MaxRestartsPerWindow p =? 0 then 3 else rp_MaxRestartsPerWindow p.
Definition base_backoff {X} (p : WorkloadRestartPolicy X) : duration := or_default (rp_BaseBackoff p) (seconds 1).
Definition max_backoff {X} (p : WorkloadRestartPolicy X) : duration := or_default (rp_MaxBackoff p) (seconds 60).
Definition reattest_after {X} (p : WorkloadRestartPolicy X) : duration := or_default (rp_ReattestAfter p) DefaultAdmissionAttestationMaxAge.
Definition decision_ttl {X} (p : WorkloadRestartPolicy X) : duration := or_default (rp_DecisionTTL p) (seconds 60).

(** How many restarts count against the window that is open now, and since when. *)
Definition restart_budget {X} (state : WorkloadLifecycleState) (p : WorkloadRestartPolicy X) (now : time) : Z * gotime :=
  if gt_IsZero (ls_RestartWindowStartedAt state) || negb (Before now (Add (gt_instant (ls_RestartWindowStartedAt state)) (restart_window p)))
  then (0, utc now) else (ls_RestartCountInWindow state, ls_RestartWindowStartedAt state).

(** No restart before the backoff after [from] is over, unless the restart is
    blocked anyway. *)
Definition restart_not_before {X} (p : WorkloadRestartPolicy X) (now from : time) (outcome : string) (count : Z) : time :=
  if str_eqb outcome RestartOutcomeBlock then now
  else
    let deadline := Add from (boundedRestartBackoff (base_backoff p) (max_backoff p) count) in
    if After deadline now then deadline else now.

(** The decision that every evaluation of a restart signs. *)
Definition restart_decision {X} (p : WorkloadRestartPolicy X) (state : WorkloadLifecycleState) (receipt : WorkloadActivationReceipt)
    (bootstrapDigest activationDigest exitDigest recoveryDigest remoteDigest outcome : string) (reasons : list string) (count : Z)
    (start : gotime) (now notBefore : time) (decisionID : string) : WorkloadRestartDecision := {|
  rd_Version := WorkloadRestartDecisionVersion; rd_DecisionID := decisionID; rd_DeviceID := ls_DeviceID state;
  rd_WorkloadID := ls_WorkloadID state; rd_WorkloadSpecDigest := ac_WorkloadSpecDigest receipt; rd_TargetCgroup := ac_TargetCgroup receipt;
  rd_TargetCgroupID := ac_TargetCgroupID receipt; rd_BootstrapDigest := bootstrapDigest; rd_PreviousGeneration := ls_Generation state;
  rd_LifecycleEpoch := EffectiveLifecycleEpoch state; rd_PreviousActivationDigest := activationDigest; rd_PreviousExitDigest := exitDigest;
  rd_PreviousRecoveryDigest := recoveryDigest; rd_CurrentRemoteDecisionDigest := remoteDigest; rd_Outcome := outcome;
  rd_ReasonCodes := reasons; rd_RestartCountInWindow := count; rd_RestartWindowStartedAt := start; rd_NotBefore := utc notBefore;
  rd_ExpiresAt := utc (Add notBefore (decision_ttl p)); rd_EvaluatedAt := utc now; rd_AuthorityID := rp_LifecycleAuthorityID p |}.

Definition restart_outcome {X} (p : WorkloadRestartPolicy X) (state : WorkloadLifecycleState) (exit : WorkloadExitReceipt)
    (remote : RemoteAttestationDecision) (bootstrapDigest : string) (count : Z) (now : time) : string * list string :=
  if str_eqb (ex_ExitClass exit) ExitClassClean && negb (rp_AllowCleanExitRestart p)
  then (RestartOutcomeBlock, ["CLEAN_EXIT_RESTART_DISABLED"])
  else if max_restarts p <=? count then (RestartOutcomeBlock, ["RESTART_BUDGET_EXHAUSTED"])
  else if differ (ra_BootstrapDigest remote) bootstrapDigest then (RestartOutcomeBlock, ["BOOTSTRAP_CHANGED_REQUIRES_NEW_LIFECYCLE"])
  else if differ (ra_Decision remote) "ALLOW" || differ (ra_DeviceID remote) (ls_DeviceID state)
  then (RestartOutcomeRequireReattestation, ["REMOTE_ATTESTATION_NOT_CURRENT_ALLOW"])
  else if gt_IsZero (ra_VerifiedAt remote) || negb (Before now (Add (gt_instant (ra_VerifiedAt remote)) (reattest_after p)))
  then (RestartOutcomeRequireReattestation, ["REMOTE_ATTESTATION_TOO_OLD"])
  else if str_eqb (ex_ExitClass exit) ExitClassNonZero && rp_ReattestOnNonZero p &&
          negb (After (gt_instant (ra_VerifiedAt remote)) (gt_instant (ex_ExitedAt exit)))
  then (RestartOutcomeRequireReattestation, ["NONZERO_EXIT_REQUIRES_POST_EXIT_REATTESTATION"])
  else if str_eqb (ex_ExitClass exit) ExitClassSignal && rp_ReattestOnSignal p &&
          negb (After (gt_instant (ra_VerifiedAt remote)) (gt_instant (ex_ExitedAt exit)))
  then (RestartOutcomeRequireReattestation, ["SIGNAL_EXIT_REQUIRES_POST_EXIT_REATTESTATION"])
  else (RestartOutcomeRequireFreshGrant, ["FRESH_GRANT_REQUIRED"]).

Definition validateLifecycleRestartLineage (state : WorkloadLifecycleState) (activation : WorkloadActivationReceipt)
    (exit : WorkloadExitReceipt) (activationDigest exitDigest : string) : option error :=
  guard_err (differ (ls_Version state) WorkloadLifecycleStateVersion || differ (ls_State state) LifecycleStateExited ||
             (ls_Generation state =? 0) || differ (ls_DeviceID state) (ac_DeviceID activation) ||
             differ (ls_WorkloadID state) (ac_WorkloadID activation) || differ (ls_DeviceID state) (ex_DeviceID exit) ||
             differ (ls_WorkloadID state) (ex_WorkloadID exit) || differ (ls_ActivationDigest state) activationDigest ||
             differ (ls_ExitDigest state) exitDigest || differ (ex_ActivationID exit) (ac_ActivationID activation) ||
             differ (ex_ActivationDigest exit) activationDigest || differ (ex_GrantID exit) (ac_GrantID activation) ||
             differ (ex_GrantDigest exit) (ac_GrantDigest activation) || negb (ex_ProcessID exit =? ac_ProcessID activation) ||
             differ (ex_WorkloadSpecDigest exit) (ac_WorkloadSpecDigest activation) ||
             negb (ex_TargetCgroupID exit =? ac_TargetCgroupID activation)) ErrLifecycleInvalidLineage.

Section Restart.
Context `{!MapRange, !Ed25519} {X : Type} `{!GoWorld X}.
Implicit Types (policy : WorkloadRestartPolicy X).

(** The evidence of a restart: every document verifies, and they belong together.
    Gives the digests of the activation, the exit and the remote decision. *)
Definition restart_evidence (state : WorkloadLifecycleState) (priorGrant : SignedWorkloadAdmissionGrant)
    (activation : SignedWorkloadActivationReceipt) (exit : SignedWorkloadExitReceipt) (remote : SignedRemoteAttestationDecision)
    policy : result (string * string * string) :=
  match
    guard_err (negb (is_private_key (rp_LifecycleAuthorityKey policy))) (ErrNew "lifecycle authority private key is required") ;;?
    guard_err (blank (rp_LifecycleAuthorityID policy)) (ErrNew "lifecycle authority id is required") ;;?
    guard_err (negb (is_public_key (rp_RemoteVerifierPublicKey policy)) || negb (is_public_key (rp_AdmissionIssuerPublicKey policy)) ||
               negb (is_public_key (rp_HostAttestorPublicKey policy)))
      (ErrNew "trusted remote verifier, admission issuer, and host attestor public keys are required") ;;?
    VerifySignedWorkloadAdmissionGrant priorGrant (rp_AdmissionIssuerPublicKey policy) (gt_instant (ac_StartedAt (sg_Document activation))) ;;?
    VerifySignedWorkloadActivationReceipt activation (rp_HostAttestorPublicKey policy) ;;?
    VerifySignedWorkloadExitReceipt exit (rp_HostAttestorPublicKey policy) ;;?
    VerifySignedRemoteAttestationDecision remote (rp_RemoteVerifierPublicKey policy)
  with
  | Some err => Error err
  | None =>
      let receipt := sg_Document activation in
      let grant := sg_Document priorGrant in
      priorGrantDigest ← SignedWorkloadAdmissionGrantDigest priorGrant;
      if differ (ac_GrantID receipt) (gr_GrantID grant) || differ (ac_GrantDigest receipt) priorGrantDigest ||
         differ (ac_DeviceID receipt) (gr_DeviceID grant) || differ (ac_WorkloadID receipt) (gr_WorkloadID grant) ||
         differ (ac_WorkloadSpecDigest receipt) (gr_WorkloadSpecDigest grant) ||
         negb (ac_TargetCgroupID receipt =? gr_TargetCgroupID grant)
      then Error ErrLifecycleInvalidLineage
      else
        activationDigest ← SignedWorkloadActivationReceiptDigest activation;
        exitDigest ← SignedWorkloadExitReceiptDigest exit;
        remoteDigest ← SignedRemoteAttestationDecisionDigest remote;
        match validateLifecycleRestartLineage state receipt (sg_Document exit) activationDigest exitDigest with
        | Some err => Error err
        | None => Ok (activationDigest, exitDigest, remoteDigest)
        end
  end.

Definition EvaluateWorkloadRestart (state : WorkloadLifecycleState) (priorGrant : SignedWorkloadAdmissionGrant)
    (activation : SignedWorkloadActivationReceipt) (exit : SignedWorkloadExitReceipt) (remote : SignedRemoteAttestationDecision)
    policy : IO X (result SignedWorkloadRestartDecision) :=
  now ← policy_now (rp_Now policy);
  match restart_evidence state priorGrant activation exit remote policy with
  | Error err => mret (Error err)
  | Ok (activationDigest, exitDigest, remoteDigest) =>
      let '(count, start) := restart_budget state policy now in
      let bootstrapDigest := gr_BootstrapDigest (sg_Document priorGrant) in
      let '(outcome, reasons) := restart_outcome policy state (sg_Document exit) (sg_Document remote) bootstrapDigest count now in
      try (randomToken 24) unwrapped (λ decisionID,
      let notBefore := restart_not_before policy now (gt_instant (ex_ExitedAt (sg_Document exit))) outcome count in
      mret (SignWorkloadRestartDecision (restart_decision policy state (sg_Document activation) bootstrapDigest activationDigest exitDigest ""
        remoteDigest outcome reasons count start now notBefore decisionID) (rp_LifecycleAuthorityKey policy)))
  end.

Definition IssueRestartWorkloadAdmissionGrant (req : WorkloadAdmissionRequest) (remote : SignedRemoteAttestationDecision)
    (restart : SignedWorkloadRestartDecision) (lifecycleAuthorityPublicKey : string) (policy : WorkloadAdmissionPolicy X) (now : time)
    : IO X (result SignedWorkloadAdmissionGrant) :=
  now ← now_or now;
  let decision := sg_Document restart in
  match
    VerifySignedWorkloadRestartDecision restart lifecycleAuthorityPublicKey now ;;?
    guard_err (differ (rd_Outcome decision) RestartOutcomeRequireFreshGrant) ErrRestartDecisionRejected ;;?
    guard_err (differ (rd_DeviceID decision) (ar_DeviceID req) || differ (rd_WorkloadID decision) (ar_WorkloadID req) ||
               differ (rd_WorkloadSpecDigest decision) (ar_WorkloadSpecDigest req) ||
               differ (rd_TargetCgroup decision) (ar_TargetCgroup req) || negb (rd_TargetCgroupID decision =? ar_TargetCgroupID req) ||
               differ (rd_BootstrapDigest decision) (ar_BootstrapDigest req)) ErrLifecycleInvalidLineage
  with
  | Some err => mret (Error err)
  | None =>
      match SignedRemoteAttestationDecisionDigest remote with
      | Error err => mret (Error err)
      | Ok remoteDigest =>
          if differ (rd_CurrentRemoteDecisionDigest decision) remoteDigest then mret (Error ErrLifecycleInvalidLineage)
          else
            IssueWorkloadAdmissionGrant req remote {|
              ap_RemoteVerifierPublicKey := ap_RemoteVerifierPublicKey policy; ap_AdmissionIssuerKey := ap_AdmissionIssuerKey policy;
              ap_AdmissionIssuerID := ap_AdmissionIssuerID policy; ap_MaxAttestationAge := ap_MaxAttestationAge policy;
              ap_GrantTTL := ap_GrantTTL policy; ap_MaxClockSkew := ap_MaxClockSkew policy;
              ap_Now := Some (default (λ x, (now, x)) (ap_Now policy)) |}
      end
  end.

Definition ValidateRestartForLifecycleState (state : WorkloadLifecycleState) (grant : SignedWorkloadAdmissionGrant)
    (restart : SignedWorkloadRestartDecision) (lifecycleAuthorityPublicKey : string) (now : time) : option error :=
  let decision := sg_Document restart in
  let g := sg_Document grant in
  ValidateWorkloadLifecycleState state ;;?
  VerifySignedWorkloadRestartDecision restart lifecycleAuthorityPublicKey now ;;?
  guard_err (differ (rd_Outcome decision) RestartOutcomeRequireFreshGrant) ErrRestartDecisionRejected ;;?
  guard_err (differ (ls_Version state) WorkloadLifecycleStateVersion ||
             (differ (ls_State state) LifecycleStateExited && differ (ls_State state) LifecycleStateExitedUnknown) ||
             (ls_Generation state =? 0) || differ (rd_DeviceID decision) (ls_DeviceID state) ||
             differ (rd_WorkloadID decision) (ls_WorkloadID state) || negb (rd_PreviousGeneration decision =? ls_Generation state) ||
             negb (rd_LifecycleEpoch decision =? EffectiveLifecycleEpoch state) ||
             differ (rd_PreviousActivationDigest decision) (ls_ActivationDigest state) ||
             differ (rd_CurrentRemoteDecisionDigest decision) (gr_RemoteDecisionDigest g) || differ (gr_DeviceID g) (ls_DeviceID state) ||
             differ (gr_WorkloadID g) (ls_WorkloadID state) || differ (gr_WorkloadSpecDigest g) (rd_WorkloadSpecDigest decision) ||
             differ (gr_TargetCgroup g) (rd_TargetCgroup decision) || negb (gr_TargetCgroupID g =? rd_TargetCgroupID decision) ||
             differ (gr_BootstrapDigest g) (rd_BootstrapDigest decision)) ErrLifecycleInvalidLineage ;;?
  if str_eqb (ls_State state) LifecycleStateExited then
    guard_err (differ (rd_PreviousExitDigest decision) (ls_ExitDigest state) || differ (rd_PreviousRecoveryDigest decision) "")
      ErrLifecycleInvalidLineage
  else if str_eqb (ls_State state) LifecycleStateExitedUnknown then
    guard_err (differ (rd_PreviousRecoveryDigest decision) (ls_RecoveryDigest state) || differ (rd_PreviousExitDigest decision) "")
      ErrLifecycleInvalidLineage
  else Some ErrLifecycleInvalidLineage.
End Restart.
