(* ===== verification/Recovery.v ===== *)
(** * Recovery and reconciliation

    Models [internal/kernelfabric/workload_recovery.go]: what the host observed of
    an orphaned workload, the decision that reconciles the lifecycle with it, and
    the restart of a workload whose exit is unknown. *)

From S2P Require Import Prelude Crypto Format Json Base64 Unmarshal GoTime Permit FileSystem Journal KernelAbi KernelFabric Evidence Document Workload Lifecycle.
Local Open Scope Z_scope.
Local Open Scope go_scope.

Definition WorkloadRecoveryObservationVersion : string := "aegis.ege/workload-recovery-observation/v1".
Definition WorkloadReconciliationDecisionVersion : string := "aegis.ege/workload-reconciliation-decision/v1".

Definition RecoveryObservationMatchRunning : string := "MATCH_RUNNING".
Definition RecoveryObservationAbsent : string := "ABSENT".
Definition RecoveryObservationBootChanged : string := "BOOT_CHANGED".
Definition RecoveryObservationPIDReused : string := "PID_REUSED".
Definition RecoveryObservationCgroupMismatch : string := "CGROUP_MISMATCH".
Definition RecoveryObservationLegacy : string := "LEGACY_UNVERIFIABLE".
Definition RecoveryObservationUnverifiable : string := "UNVERIFIABLE".
Definition RecoveryObservationRuntimeTrustRevoked : string := "RUNTIME_TRUST_REVOKED".

Definition ReconciliationKeepRunning : string := "KEEP_RUNNING".
Definition ReconciliationMarkExitedUnknown : string := "MARK_EXITED_UNKNOWN".
Definition ReconciliationQuarantine : string := "QUARANTINE".

Definition ErrRecoveryObservationInvalid : error := ErrNew "workload recovery observation is invalid".
Definition ErrReconciliationRejected : error := ErrNew "workload reconciliation decision is rejected".

(** * Observations *)

Record WorkloadRecoveryObservation : Type := {
  ob_Version : string; ob_ObservationID : string; ob_DeviceID : string; ob_WorkloadID : string; ob_Generation : Z;
  ob_ActivationID : string; ob_ActivationDigest : string; ob_PriorRecoveryDigest : string; ob_RuntimeTrustDecisionDigest : string;
  ob_ProcessID : Z; ob_ExpectedProcessIdentity : option LinuxProcessIdentity; ob_ObservedProcessIdentity : option LinuxProcessIdentity;
  ob_CurrentBootIDHash : string; ob_ExpectedCgroup : string; ob_ExpectedCgroupID : Z; ob_ObservedCgroupID : Z; ob_ObservedCgroup : string;
  ob_State : string; ob_Detail : string; ob_ObservedAt : gotime }.

Definition observation_json (o : WorkloadRecoveryObservation) : result json :=
  observed ← gotime_json (ob_ObservedAt o);
  Ok (object [string_field "version" (ob_Version o); string_field "observation_id" (ob_ObservationID o);
    string_field "device_id" (ob_DeviceID o); string_field "workload_id" (ob_WorkloadID o); number_field "generation" (ob_Generation o);
    string_field "activation_id" (ob_ActivationID o); string_field "activation_digest" (ob_ActivationDigest o);
    ("prior_recovery_digest", omit_string (ob_PriorRecoveryDigest o));
    ("runtime_trust_decision_digest", omit_string (ob_RuntimeTrustDecisionDigest o)); number_field "process_id" (ob_ProcessID o);
    ("expected_process_identity", identity_json <$> ob_ExpectedProcessIdentity o);
    ("observed_process_identity", identity_json <$> ob_ObservedProcessIdentity o);
    ("current_boot_id_hash", omit_string (ob_CurrentBootIDHash o)); string_field "expected_cgroup" (ob_ExpectedCgroup o);
    number_field "expected_cgroup_id" (ob_ExpectedCgroupID o); ("observed_cgroup_id", omit_number (ob_ObservedCgroupID o));
    ("observed_cgroup", omit_string (ob_ObservedCgroup o)); string_field "state" (ob_State o); ("detail", omit_string (ob_Detail o));
    ("observed_at", Some observed)]).

Definition normalized_observation (o : WorkloadRecoveryObservation) : WorkloadRecoveryObservation := {|
  ob_Version := ob_Version o; ob_ObservationID := ob_ObservationID o; ob_DeviceID := ob_DeviceID o; ob_WorkloadID := ob_WorkloadID o;
  ob_Generation := ob_Generation o; ob_ActivationID := ob_ActivationID o; ob_ActivationDigest := ob_ActivationDigest o;
  ob_PriorRecoveryDigest := ob_PriorRecoveryDigest o; ob_RuntimeTrustDecisionDigest := ob_RuntimeTrustDecisionDigest o;
  ob_ProcessID := ob_ProcessID o; ob_ExpectedProcessIdentity := ob_ExpectedProcessIdentity o;
  ob_ObservedProcessIdentity := ob_ObservedProcessIdentity o; ob_CurrentBootIDHash := ob_CurrentBootIDHash o;
  ob_ExpectedCgroup := ob_ExpectedCgroup o; ob_ExpectedCgroupID := ob_ExpectedCgroupID o; ob_ObservedCgroupID := ob_ObservedCgroupID o;
  ob_ObservedCgroup := ob_ObservedCgroup o; ob_State := ob_State o; ob_Detail := ob_Detail o; ob_ObservedAt := UTC (ob_ObservedAt o) |}.

#[export] Instance WorkloadRecoveryObservation_document : Document WorkloadRecoveryObservation := {
  doc_json := observation_json;
  doc_normalize := normalized_observation;
  doc_domain _ := "aegis-ege/workload-recovery-observation/v1" +:+ nul;
  doc_payload_error := unwrapped;
  doc_field := "observation";
  doc_signed_domain := "aegis-ege/signed-workload-recovery-observation/v1" +:+ nul;
  doc_incomplete := "signed workload recovery observation is incomplete";
  doc_digest_error := unwrapped }.

Abbreviation SignedWorkloadRecoveryObservation := (Signed WorkloadRecoveryObservation).

Definition invalid_observation (detail : string) : error := ErrDetail ErrRecoveryObservationInvalid detail.
Definition invalid_because (detail : string) (err : error) : error := invalid_observation (detail +:+ ": " +:+ error_text err).

(** A digest that is checked unless it is empty. *)
Definition check_present_digest (wrap : error → error) (digest : string) : option error :=
  if str_eqb digest "" then None else check_digest wrap digest.

Definition check_identity (detail : string) (identity : option LinuxProcessIdentity) : option error :=
  match identity with
  | None => None
  | Some identity =>
      match ValidateLinuxProcessIdentity identity with Some err => Some (invalid_because detail err) | None => None end
  end.

(** The process that was observed is the expected one. *)
Definition same_process (o : WorkloadRecoveryObservation) : bool :=
  match ob_ExpectedProcessIdentity o, ob_ObservedProcessIdentity o with
  | Some expected, Some observed => bool_decide (expected = observed)
  | _, _ => false
  end.

(** It is observed in the expected cgroup. *)
Definition same_cgroup (o : WorkloadRecoveryObservation) : bool :=
  (ob_ObservedCgroupID o =? ob_ExpectedCgroupID o) && str_eqb (filepath_Clean (ob_ObservedCgroup o)) (ob_ExpectedCgroup o).

Definition seen_in_cgroup (o : WorkloadRecoveryObservation) : bool :=
  negb (ob_ObservedCgroupID o =? 0) && negb (str_eqb (ob_ObservedCgroup o) "").

(** The boot is still that of the expected process. *)
Definition same_boot (o : WorkloadRecoveryObservation) : bool :=
  match ob_ExpectedProcessIdentity o with
  | Some expected => str_eqb (ob_CurrentBootIDHash o) (pi_BootIDHash expected)
  | None => false
  end.

Definition unobserved (o : WorkloadRecoveryObservation) : bool :=
  match ob_ObservedProcessIdentity o with None => true | Some _ => false end.

(** What the observed state demands of the rest, in the order of the cases. *)
Definition observation_consistent (o : WorkloadRecoveryObservation) : option bool :=
  if str_eqb (ob_State o) RecoveryObservationMatchRunning then
    Some (same_process o && seen_in_cgroup o && same_cgroup o && same_boot o)
  else if str_eqb (ob_State o) RecoveryObservationAbsent then
    Some (unobserved o && (ob_ObservedCgroupID o =? 0) && same_boot o)
  else if str_eqb (ob_State o) RecoveryObservationBootChanged then
    Some (match ob_ExpectedProcessIdentity o with Some _ => true | None => false end && unobserved o &&
          negb (str_eqb (ob_CurrentBootIDHash o) "") && negb (same_boot o))
  else if str_eqb (ob_State o) RecoveryObservationPIDReused then
    Some (match ob_ExpectedProcessIdentity o, ob_ObservedProcessIdentity o with
          | Some expected, Some observed =>
              negb (str_eqb (ob_ObservedCgroup o) "") && bool_decide (expected ≠ observed) && same_boot o &&
              str_eqb (pi_BootIDHash observed) (ob_CurrentBootIDHash o)
          | _, _ => false
          end)
  else if str_eqb (ob_State o) RecoveryObservationCgroupMismatch then
    Some (same_process o && seen_in_cgroup o && negb (same_cgroup o) && same_boot o)
  else if str_eqb (ob_State o) RecoveryObservationLegacy then
    Some (match ob_ExpectedProcessIdentity o with None => true | Some _ => false end && unobserved o)
  else if str_eqb (ob_State o) RecoveryObservationUnverifiable then
    Some (match ob_ExpectedProcessIdentity o with Some _ => true | None => false end)
  else if str_eqb (ob_State o) RecoveryObservationRuntimeTrustRevoked then
    Some (same_process o && seen_in_cgroup o && same_cgroup o && same_boot o && negb (str_eqb (ob_RuntimeTrustDecisionDigest o) ""))
  else None.

Definition ValidateWorkloadRecoveryObservation (o : WorkloadRecoveryObservation) : option error :=
  guard_err (negb (str_eqb (ob_Version o) WorkloadRecoveryObservationVersion) || blank (ob_ObservationID o) || blank (ob_DeviceID o) ||
             blank (ob_WorkloadID o) || (ob_Generation o =? 0) || blank (ob_ActivationID o) || (ob_ProcessID o <=? 0) ||
             blank (ob_ExpectedCgroup o) || (ob_ExpectedCgroupID o =? 0) || gt_IsZero (ob_ObservedAt o)) ErrRecoveryObservationInvalid ;;?
  guard_err (negb (clean_absolute (ob_ExpectedCgroup o))) (invalid_observation "expected cgroup path is not a clean absolute path") ;;?
  check_digest (invalid_because "activation digest") (ob_ActivationDigest o) ;;?
  check_present_digest (invalid_because "prior recovery digest") (ob_PriorRecoveryDigest o) ;;?
  check_present_digest (invalid_because "runtime trust decision digest") (ob_RuntimeTrustDecisionDigest o) ;;?
  check_identity "expected process identity" (ob_ExpectedProcessIdentity o) ;;?
  check_identity "observed process identity" (ob_ObservedProcessIdentity o) ;;?
  match observation_consistent o with
  | None => Some (invalid_observation ("unsupported observation state " +:+ ob_State o))
  | Some consistent => guard_err (negb consistent) ErrRecoveryObservationInvalid
  end ;;?
  guard_err (negb (str_eqb (ob_ObservedCgroup o) "") && negb (clean_absolute (ob_ObservedCgroup o)))
    (invalid_observation "observed cgroup path is not a clean absolute path") ;;?
  check_present_digest (invalid_because "current boot id hash") (ob_CurrentBootIDHash o).

Definition SignWorkloadRecoveryObservation `{!Ed25519} (obs : WorkloadRecoveryObservation) (privateKey : string)
    : result SignedWorkloadRecoveryObservation :=
  sign_document (ValidateWorkloadRecoveryObservation obs) "host recovery attestor private key is invalid" obs obs privateKey.

Definition VerifySignedWorkloadRecoveryObservation `{!Ed25519} (signed : SignedWorkloadRecoveryObservation) (publicKey : string)
    : option error :=
  verify_document "host recovery attestor public key is invalid" (ValidateWorkloadRecoveryObservation (sg_Document signed)) signed publicKey.

Definition SignedWorkloadRecoveryObservationDigest (signed : SignedWorkloadRecoveryObservation) : result string := digest_document signed.

(** * Reconciliation decisions *)

Record WorkloadReconciliationDecision : Type := {
  rc_Version : string; rc_DecisionID : string; rc_DeviceID : string; rc_WorkloadID : string; rc_Generation : Z;
  rc_ActivationDigest : string; rc_ObservationDigest : string; rc_Outcome : string; rc_ReasonCodes : list string;
  rc_ObservedAt : gotime; rc_DecidedAt : gotime; rc_AuthorityID : string }.

Definition reconciliation_json (d : WorkloadReconciliationDecision) : result json :=
  observed ← gotime_json (rc_ObservedAt d); decided ← gotime_json (rc_DecidedAt d);
  Ok (object [string_field "version" (rc_Version d); string_field "decision_id" (rc_DecisionID d); string_field "device_id" (rc_DeviceID d);
    string_field "workload_id" (rc_WorkloadID d); number_field "generation" (rc_Generation d);
    string_field "activation_digest" (rc_ActivationDigest d); string_field "observation_digest" (rc_ObservationDigest d);
    string_field "outcome" (rc_Outcome d); ("reason_codes", omit_strings (rc_ReasonCodes d)); ("observed_at", Some observed);
    ("decided_at", Some decided); string_field "authority_id" (rc_AuthorityID d)]).

Definition normalized_reconciliation (d : WorkloadReconciliationDecision) : WorkloadReconciliationDecision := {|
  rc_Version := rc_Version d; rc_DecisionID := rc_DecisionID d; rc_DeviceID := rc_DeviceID d; rc_WorkloadID := rc_WorkloadID d;
  rc_Generation := rc_Generation d; rc_ActivationDigest := rc_ActivationDigest d; rc_ObservationDigest := rc_ObservationDigest d;
  rc_Outcome := rc_Outcome d; rc_ReasonCodes := sort_strings (rc_ReasonCodes d); rc_ObservedAt := UTC (rc_ObservedAt d);
  rc_DecidedAt := UTC (rc_DecidedAt d); rc_AuthorityID := rc_AuthorityID d |}.

#[export] Instance WorkloadReconciliationDecision_document : Document WorkloadReconciliationDecision := {
  doc_json := reconciliation_json;
  doc_normalize := normalized_reconciliation;
  doc_domain _ := "aegis-ege/workload-reconciliation-decision/v1" +:+ nul;
  doc_payload_error := unwrapped;
  doc_field := "decision";
  doc_signed_domain := "aegis-ege/signed-workload-reconciliation-decision/v1" +:+ nul;
  doc_incomplete := "signed reconciliation decision is incomplete";
  doc_digest_error := unwrapped }.

Abbreviation SignedWorkloadReconciliationDecision := (Signed WorkloadReconciliationDecision).

Section Decisions.
Context `{!MapRange, !Ed25519}.

Definition ValidateWorkloadReconciliationDecision (d : WorkloadReconciliationDecision) : option error :=
  guard_err (negb (str_eqb (rc_Version d) WorkloadReconciliationDecisionVersion) || blank (rc_DecisionID d) || blank (rc_DeviceID d) ||
             blank (rc_WorkloadID d) || (rc_Generation d =? 0) || gt_IsZero (rc_ObservedAt d) || gt_IsZero (rc_DecidedAt d) ||
             blank (rc_AuthorityID d)) (ErrNew "workload reconciliation decision is incomplete") ;;?
  guard_err (Before (gt_instant (rc_DecidedAt d)) (gt_instant (rc_ObservedAt d))) (ErrNew "reconciliation decision predates observation") ;;?
  check_digests [("activation_digest", rc_ActivationDigest d); ("observation_digest", rc_ObservationDigest d)] ;;?
  guard_err (differ (rc_Outcome d) ReconciliationKeepRunning && differ (rc_Outcome d) ReconciliationMarkExitedUnknown &&
             differ (rc_Outcome d) ReconciliationQuarantine) (ErrNew ("unsupported reconciliation outcome " +:+ rc_Outcome d)).

Definition SignWorkloadReconciliationDecision (d : WorkloadReconciliationDecision) (privateKey : string)
    : result SignedWorkloadReconciliationDecision :=
  sign_document (ValidateWorkloadReconciliationDecision d) "lifecycle authority private key is invalid" d d privateKey.

Definition VerifySignedWorkloadReconciliationDecision (signed : SignedWorkloadReconciliationDecision) (publicKey : string) : option error :=
  verify_document "lifecycle authority public key is invalid" (ValidateWorkloadReconciliationDecision (sg_Document signed)) signed publicKey.
End Decisions.

Definition SignedWorkloadReconciliationDecisionDigest (signed : SignedWorkloadReconciliationDecision) : result string :=
  digest_document signed.

(** * Reconciling *)

(** The identity a receipt of version 2 carries is the one the observation
    expects; an older receipt has none. *)
Definition expects_identity (receipt : WorkloadActivationReceipt) (o : WorkloadRecoveryObservation) : bool :=
  if is_v2 receipt then
    match ac_ProcessIdentity receipt, ob_ExpectedProcessIdentity o with
    | Some identity, Some expected => bool_decide (expected = identity)
    | _, _ => false
    end
  else str_eqb (ob_State o) RecoveryObservationLegacy && match ob_ExpectedProcessIdentity o with None => true | Some _ => false end.

(** What each observation leads to. *)
Definition reconciliation_outcome (state : string) : result (string * list string) :=
  if str_eqb state RecoveryObservationMatchRunning then Ok (ReconciliationKeepRunning, ["PROCESS_IDENTITY_AND_CGROUP_MATCH"])
  else if str_eqb state RecoveryObservationAbsent then Ok (ReconciliationMarkExitedUnknown, ["PROCESS_ABSENT_EXIT_STATUS_UNKNOWN"])
  else if str_eqb state RecoveryObservationBootChanged then Ok (ReconciliationMarkExitedUnknown, ["BOOT_CHANGED_PROCESS_CANNOT_SURVIVE"])
  else if str_eqb state RecoveryObservationPIDReused then Ok (ReconciliationMarkExitedUnknown, ["PID_REUSED_ORIGINAL_PROCESS_GONE"])
  else if str_eqb state RecoveryObservationCgroupMismatch then Ok (ReconciliationQuarantine, ["LIVE_PROCESS_OUTSIDE_EXPECTED_CGROUP"])
  else if str_eqb state RecoveryObservationLegacy then Ok (ReconciliationQuarantine, ["LEGACY_ACTIVATION_RECEIPT_HAS_NO_PROCESS_IDENTITY"])
  else if str_eqb state RecoveryObservationUnverifiable then Ok (ReconciliationQuarantine, ["PROCESS_STATE_UNVERIFIABLE"])
  else Error ErrRecoveryObservationInvalid.

(** The decision that every reconciliation signs. *)
Definition reconciliation_decision (state : WorkloadLifecycleState) (activationDigest observationDigest outcome : string)
    (reasons : list string) (observedAt : gotime) (now : time) (authorityID decisionID : string) : WorkloadReconciliationDecision := {|
  rc_Version := WorkloadReconciliationDecisionVersion; rc_DecisionID := decisionID; rc_DeviceID := ls_DeviceID state;
  rc_WorkloadID := ls_WorkloadID state; rc_Generation := ls_Generation state; rc_ActivationDigest := activationDigest;
  rc_ObservationDigest := observationDigest; rc_Outcome := outcome; rc_ReasonCodes := reasons; rc_ObservedAt := UTC observedAt;
  rc_DecidedAt := utc now; rc_AuthorityID := authorityID |}.

Section Reconcile.
Context `{!MapRange, !Ed25519} {X : Type} `{!GoWorld X}.

(** The documents verify and belong to the state; gives the outcome and the
    digests of the activation and of the observation. *)
Definition reconciliation_evidence (state : WorkloadLifecycleState) (activation : SignedWorkloadActivationReceipt)
    (observation : SignedWorkloadRecoveryObservation) (hostAttestorPublicKey lifecycleAuthorityKey authorityID : string)
    : result (string * string * (string * list string)) :=
  match
    guard_err (negb (is_private_key lifecycleAuthorityKey)) (ErrNew "lifecycle authority private key is required") ;;?
    guard_err (str_eqb authorityID "") (ErrNew "lifecycle authority id is required") ;;?
    ValidateWorkloadLifecycleState state ;;?
    guard_err (differ (ls_State state) LifecycleStateRunning) ErrReconciliationRejected ;;?
    VerifySignedWorkloadActivationReceipt activation hostAttestorPublicKey ;;?
    VerifySignedWorkloadRecoveryObservation observation hostAttestorPublicKey
  with
  | Some err => Error err
  | None =>
      activationDigest ← SignedWorkloadActivationReceiptDigest activation;
      obsDigest ← SignedWorkloadRecoveryObservationDigest observation;
      let obs := sg_Document observation in
      let receipt := sg_Document activation in
      match
        guard_err (negb (str_eqb (ob_RuntimeTrustDecisionDigest obs) "") ||
                   str_eqb (ob_State obs) RecoveryObservationRuntimeTrustRevoked) ErrLifecycleInvalidLineage ;;?
        guard_err (negb (str_eqb (ob_PriorRecoveryDigest obs) "")) ErrLifecycleInvalidLineage ;;?
        guard_err (differ (ls_DeviceID state) (ac_DeviceID receipt) || differ (ls_WorkloadID state) (ac_WorkloadID receipt) ||
                   differ (ls_ActivationDigest state) activationDigest || differ (ob_DeviceID obs) (ls_DeviceID state) ||
                   differ (ob_WorkloadID obs) (ls_WorkloadID state) || negb (ob_Generation obs =? ls_Generation state) ||
                   differ (ob_ActivationID obs) (ac_ActivationID receipt) || differ (ob_ActivationDigest obs) activationDigest ||
                   negb (ob_ProcessID obs =? ac_ProcessID receipt) ||
                   differ (ob_ExpectedCgroup obs) (filepath_Clean (ac_TargetCgroup receipt)) ||
                   negb (ob_ExpectedCgroupID obs =? ac_TargetCgroupID receipt)) ErrLifecycleInvalidLineage ;;?
        guard_err (negb (expects_identity receipt obs)) ErrLifecycleInvalidLineage
      with
      | Some err => Error err
      | None => outcome ← reconciliation_outcome (ob_State obs); Ok (activationDigest, obsDigest, outcome)
      end
  end.

Definition EvaluateWorkloadReconciliation (state : WorkloadLifecycleState) (activation : SignedWorkloadActivationReceipt)
    (observation : SignedWorkloadRecoveryObservation) (hostAttestorPublicKey lifecycleAuthorityKey lifecycleAuthorityID : string)
    (now : time) : IO X (result SignedWorkloadReconciliationDecision) :=
  now ← now_or now;
  let authorityID := TrimSpace lifecycleAuthorityID in
  match reconciliation_evidence state activation observation hostAttestorPublicKey lifecycleAuthorityKey authorityID with
  | Error err => mret (Error err)
  | Ok (activationDigest, obsDigest, (outcome, reasons)) =>
      try (randomToken 24) unwrapped (λ decisionID,
      mret (SignWorkloadReconciliationDecision (reconciliation_decision state activationDigest obsDigest outcome reasons
        (ob_ObservedAt (sg_Document observation)) now authorityID decisionID) lifecycleAuthorityKey))
  end.

(** * Restarting a recovered workload *)

(** The documents of a recovered restart; gives the digests of the activation, of
    the reconciliation and of the remote decision. *)
Definition recovered_evidence (state : WorkloadLifecycleState) (priorGrant : SignedWorkloadAdmissionGrant)
    (activation : SignedWorkloadActivationReceipt) (reconciliation : SignedWorkloadReconciliationDecision)
    (remote : SignedRemoteAttestationDecision) (policy : WorkloadRestartPolicy X) : result (string * string * string) :=
  match
    guard_err (negb (is_private_key (rp_LifecycleAuthorityKey policy)) || negb (is_public_key (rp_RemoteVerifierPublicKey policy)) ||
               negb (is_public_key (rp_AdmissionIssuerPublicKey policy)) || negb (is_public_key (rp_HostAttestorPublicKey policy)))
      (ErrNew "recovered restart requires lifecycle, verifier, admission and host trust keys") ;;?
    ValidateWorkloadLifecycleState state ;;?
    guard_err (differ (ls_State state) LifecycleStateExitedUnknown) ErrRestartDecisionRejected ;;?
    VerifySignedWorkloadAdmissionGrant priorGrant (rp_AdmissionIssuerPublicKey policy) (gt_instant (ac_StartedAt (sg_Document activation))) ;;?
    VerifySignedWorkloadActivationReceipt activation (rp_HostAttestorPublicKey policy) ;;?
    VerifySignedWorkloadReconciliationDecision reconciliation (ed25519_Public (rp_LifecycleAuthorityKey policy)) ;;?
    VerifySignedRemoteAttestationDecision remote (rp_RemoteVerifierPublicKey policy)
  with
  | Some err => Error err
  | None =>
      activationDigest ← SignedWorkloadActivationReceiptDigest activation;
      recoveryDigest ← SignedWorkloadReconciliationDecisionDigest reconciliation;
      priorGrantDigest ← SignedWorkloadAdmissionGrantDigest priorGrant;
      remoteDigest ← SignedRemoteAttestationDecisionDigest remote;
      let receipt := sg_Document activation in
      let grant := sg_Document priorGrant in
      let rec := sg_Document reconciliation in
      if differ (ls_DeviceID state) (ac_DeviceID receipt) || differ (ls_WorkloadID state) (ac_WorkloadID receipt) ||
         differ (ls_ActivationDigest state) activationDigest || differ (ls_RecoveryDigest state) recoveryDigest ||
         differ (ac_GrantID receipt) (gr_GrantID grant) || differ (ac_GrantDigest receipt) priorGrantDigest ||
         differ (ac_WorkloadSpecDigest receipt) (gr_WorkloadSpecDigest grant) || negb (ac_TargetCgroupID receipt =? gr_TargetCgroupID grant)
      then Error ErrLifecycleInvalidLineage
      else if differ (rc_Outcome rec) ReconciliationMarkExitedUnknown || differ (rc_DeviceID rec) (ls_DeviceID state) ||
              differ (rc_WorkloadID rec) (ls_WorkloadID state) || negb (rc_Generation rec =? ls_Generation state) ||
              differ (rc_ActivationDigest rec) activationDigest
      then Error ErrLifecycleInvalidLineage
      else Ok (activationDigest, recoveryDigest, remoteDigest)
  end.

Definition recovered_outcome (p : WorkloadRestartPolicy X) (state : WorkloadLifecycleState) (remote : RemoteAttestationDecision)
    (bootstrapDigest : string) (decidedAt : gotime) (count : Z) (now : time) : string * list string :=
  if max_restarts p <=? count then (RestartOutcomeBlock, ["RESTART_BUDGET_EXHAUSTED"])
  else if differ (ra_BootstrapDigest remote) bootstrapDigest then (RestartOutcomeBlock, ["BOOTSTRAP_CHANGED_REQUIRES_NEW_LIFECYCLE"])
  else if differ (ra_Decision remote) "ALLOW" || differ (ra_DeviceID remote) (ls_DeviceID state) || gt_IsZero (ra_VerifiedAt remote) ||
          negb (After (gt_instant (ra_VerifiedAt remote)) (gt_instant decidedAt)) ||
          negb (Before now (Add (gt_instant (ra_VerifiedAt remote)) (reattest_after p)))
  then (RestartOutcomeRequireReattestation, ["POST_RECOVERY_REATTESTATION_REQUIRED"])
  else (RestartOutcomeRequireFreshGrant, ["RECOVERED_EXIT_REQUIRES_FRESH_GRANT"]).

Definition EvaluateRecoveredWorkloadRestart (state : WorkloadLifecycleState) (priorGrant : SignedWorkloadAdmissionGrant)
    (activation : SignedWorkloadActivationReceipt) (reconciliation : SignedWorkloadReconciliationDecision)
    (remote : SignedRemoteAttestationDecision) (policy : WorkloadRestartPolicy X) : IO X (result SignedWorkloadRestartDecision) :=
  now ← policy_now (rp_Now policy);
  match recovered_evidence state priorGrant activation reconciliation remote policy with
  | Error err => mret (Error err)
  | Ok (activationDigest, recoveryDigest, remoteDigest) =>
      let '(count, start) := restart_budget state policy now in
      let bootstrapDigest := gr_BootstrapDigest (sg_Document priorGrant) in
      let decidedAt := rc_DecidedAt (sg_Document reconciliation) in
      let '(outcome, reasons) := recovered_outcome policy state (sg_Document remote) bootstrapDigest decidedAt count now in
      let notBefore := restart_not_before policy now (gt_instant decidedAt) outcome count in
      try (randomToken 24) unwrapped (λ decisionID,
      mret (SignWorkloadRestartDecision (restart_decision policy state (sg_Document activation) bootstrapDigest activationDigest ""
        recoveryDigest remoteDigest outcome reasons count start now notBefore decisionID) (rp_LifecycleAuthorityKey policy)))
  end.
End Reconcile.

(** [RequireRecoverableLifecycle] of [workload_recovery_linux.go]. *)
Definition RequireRecoverableLifecycle (state : WorkloadLifecycleState) : option error :=
  ValidateWorkloadLifecycleState state ;;?
  if str_eqb (ls_State state) LifecycleStateRunning || str_eqb (ls_State state) LifecycleStateExitedUnknown then None
  else if str_eqb (ls_State state) LifecycleStateQuarantined
  then Some (ErrNew "workload lifecycle is quarantined and requires explicit operator recovery")
  else Some ErrReconciliationRejected.
