(* ===== verification/Quarantine.v ===== *)
(** * Quarantine release

    Models [internal/kernelfabric/workload_quarantine.go]: the evidence a release
    needs, the operator's approval, the release decision, and the restart of a
    released workload. *)

From S2P Require Import Prelude Crypto Format Json Base64 Unmarshal GoTime Permit FileSystem Journal KernelAbi KernelFabric Evidence Document Workload Lifecycle Recovery.
Local Open Scope Z_scope.
Local Open Scope go_scope.

Definition QuarantineOperatorApprovalVersion : string := "aegis.ege/quarantine-operator-approval/v1".
Definition QuarantineReleaseDecisionVersion : string := "aegis.ege/quarantine-release-decision/v1".
Definition QuarantineReleaseOutcome : string := "RELEASE_TO_EXITED_UNKNOWN".
Definition DefaultQuarantineApprovalTTL : duration := seconds 600.
Definition DefaultQuarantineReleaseTTL : duration := seconds 60.
Definition ErrQuarantineReleaseRejected : error := ErrNew "quarantine release evidence is not admissible".
Definition ErrQuarantineClearanceUnsafe : error := ErrNew "quarantined workload has not been proven inactive".

(** * Operator approvals *)

Record QuarantineOperatorApproval : Type := {
  qa_Version : string; qa_ApprovalID : string; qa_DeviceID : string; qa_WorkloadID : string; qa_Generation : Z;
  qa_CurrentLifecycleEpoch : Z; qa_RequestedLifecycleEpoch : Z; qa_ActivationDigest : string; qa_QuarantineRecoveryDigest : string;
  qa_ClearanceObservationDigest : string; qa_RemoteDecisionDigest : string; qa_OperatorID : string; qa_CaseReference : string;
  qa_Reason : string; qa_IssuedAt : gotime; qa_ExpiresAt : gotime }.

Definition approval_json (a : QuarantineOperatorApproval) : result json :=
  issued ← gotime_json (qa_IssuedAt a); expires ← gotime_json (qa_ExpiresAt a);
  Ok (object [string_field "version" (qa_Version a); string_field "approval_id" (qa_ApprovalID a); string_field "device_id" (qa_DeviceID a);
    string_field "workload_id" (qa_WorkloadID a); number_field "generation" (qa_Generation a);
    number_field "current_lifecycle_epoch" (qa_CurrentLifecycleEpoch a);
    number_field "requested_lifecycle_epoch" (qa_RequestedLifecycleEpoch a); string_field "activation_digest" (qa_ActivationDigest a);
    string_field "quarantine_recovery_digest" (qa_QuarantineRecoveryDigest a);
    string_field "clearance_observation_digest" (qa_ClearanceObservationDigest a);
    string_field "remote_decision_digest" (qa_RemoteDecisionDigest a); string_field "operator_id" (qa_OperatorID a);
    string_field "case_reference" (qa_CaseReference a); string_field "reason" (qa_Reason a); ("issued_at", Some issued);
    ("expires_at", Some expires)]).

Definition normalized_approval (a : QuarantineOperatorApproval) : QuarantineOperatorApproval := {|
  qa_Version := qa_Version a; qa_ApprovalID := qa_ApprovalID a; qa_DeviceID := qa_DeviceID a; qa_WorkloadID := qa_WorkloadID a;
  qa_Generation := qa_Generation a; qa_CurrentLifecycleEpoch := qa_CurrentLifecycleEpoch a;
  qa_RequestedLifecycleEpoch := qa_RequestedLifecycleEpoch a; qa_ActivationDigest := qa_ActivationDigest a;
  qa_QuarantineRecoveryDigest := qa_QuarantineRecoveryDigest a; qa_ClearanceObservationDigest := qa_ClearanceObservationDigest a;
  qa_RemoteDecisionDigest := qa_RemoteDecisionDigest a; qa_OperatorID := qa_OperatorID a; qa_CaseReference := qa_CaseReference a;
  qa_Reason := qa_Reason a; qa_IssuedAt := UTC (qa_IssuedAt a); qa_ExpiresAt := UTC (qa_ExpiresAt a) |}.

#[export] Instance QuarantineOperatorApproval_document : Document QuarantineOperatorApproval := {
  doc_json := approval_json;
  doc_normalize := normalized_approval;
  doc_domain _ := "aegis-ege/quarantine-operator-approval/v1" +:+ nul;
  doc_payload_error := unwrapped;
  doc_field := "approval";
  doc_signed_domain := "aegis-ege/signed-quarantine-operator-approval/v1" +:+ nul;
  doc_incomplete := "signed quarantine operator approval is incomplete";
  doc_digest_error := unwrapped }.

Abbreviation SignedQuarantineOperatorApproval := (Signed QuarantineOperatorApproval).

(** * Release decisions *)

Record QuarantineReleaseDecision : Type := {
  qr_Version : string; qr_DecisionID : string; qr_DeviceID : string; qr_WorkloadID : string; qr_Generation : Z;
  qr_PreviousLifecycleEpoch : Z; qr_NewLifecycleEpoch : Z; qr_ActivationDigest : string; qr_QuarantineRecoveryDigest : string;
  qr_ClearanceObservationDigest : string; qr_RemoteDecisionDigest : string; qr_OperatorApprovalDigest : string; qr_Outcome : string;
  qr_ReasonCodes : list string; qr_DecidedAt : gotime; qr_ExpiresAt : gotime; qr_AuthorityID : string }.

Definition release_json (d : QuarantineReleaseDecision) : result json :=
  decided ← gotime_json (qr_DecidedAt d); expires ← gotime_json (qr_ExpiresAt d);
  Ok (object [string_field "version" (qr_Version d); string_field "decision_id" (qr_DecisionID d); string_field "device_id" (qr_DeviceID d);
    string_field "workload_id" (qr_WorkloadID d); number_field "generation" (qr_Generation d);
    number_field "previous_lifecycle_epoch" (qr_PreviousLifecycleEpoch d); number_field "new_lifecycle_epoch" (qr_NewLifecycleEpoch d);
    string_field "activation_digest" (qr_ActivationDigest d); string_field "quarantine_recovery_digest" (qr_QuarantineRecoveryDigest d);
    string_field "clearance_observation_digest" (qr_ClearanceObservationDigest d);
    string_field "remote_decision_digest" (qr_RemoteDecisionDigest d); string_field "operator_approval_digest" (qr_OperatorApprovalDigest d);
    string_field "outcome" (qr_Outcome d); ("reason_codes", omit_strings (qr_ReasonCodes d)); ("decided_at", Some decided);
    ("expires_at", Some expires); string_field "authority_id" (qr_AuthorityID d)]).

Definition normalized_release (d : QuarantineReleaseDecision) : QuarantineReleaseDecision := {|
  qr_Version := qr_Version d; qr_DecisionID := qr_DecisionID d; qr_DeviceID := qr_DeviceID d; qr_WorkloadID := qr_WorkloadID d;
  qr_Generation := qr_Generation d; qr_PreviousLifecycleEpoch := qr_PreviousLifecycleEpoch d;
  qr_NewLifecycleEpoch := qr_NewLifecycleEpoch d; qr_ActivationDigest := qr_ActivationDigest d;
  qr_QuarantineRecoveryDigest := qr_QuarantineRecoveryDigest d; qr_ClearanceObservationDigest := qr_ClearanceObservationDigest d;
  qr_RemoteDecisionDigest := qr_RemoteDecisionDigest d; qr_OperatorApprovalDigest := qr_OperatorApprovalDigest d;
  qr_Outcome := qr_Outcome d; qr_ReasonCodes := sort_strings (qr_ReasonCodes d); qr_DecidedAt := UTC (qr_DecidedAt d);
  qr_ExpiresAt := UTC (qr_ExpiresAt d); qr_AuthorityID := qr_AuthorityID d |}.

#[export] Instance QuarantineReleaseDecision_document : Document QuarantineReleaseDecision := {
  doc_json := release_json;
  doc_normalize := normalized_release;
  doc_domain _ := "aegis-ege/quarantine-release-decision/v1" +:+ nul;
  doc_payload_error := unwrapped;
  doc_field := "decision";
  doc_signed_domain := "aegis-ege/signed-quarantine-release-decision/v1" +:+ nul;
  doc_incomplete := "signed quarantine release decision is incomplete";
  doc_digest_error := unwrapped }.

Abbreviation SignedQuarantineReleaseDecision := (Signed QuarantineReleaseDecision).

Section Validation.
Context `{!MapRange, !Ed25519}.

Definition ValidateQuarantineOperatorApproval (a : QuarantineOperatorApproval) (now : time) : option error :=
  guard_err (negb (str_eqb (qa_Version a) QuarantineOperatorApprovalVersion) || blank (qa_ApprovalID a) || blank (qa_DeviceID a) ||
             blank (qa_WorkloadID a) || (qa_Generation a =? 0) || (qa_CurrentLifecycleEpoch a =? 0) ||
             (qa_RequestedLifecycleEpoch a =? 0) || blank (qa_OperatorID a) || blank (qa_CaseReference a) || blank (qa_Reason a) ||
             negb (window (qa_IssuedAt a) (qa_ExpiresAt a))) (ErrNew "quarantine operator approval is incomplete") ;;?
  guard_err (negb (qa_RequestedLifecycleEpoch a =? wrap_u64 (qa_CurrentLifecycleEpoch a + 1)))
    (ErrNew "quarantine operator approval must request exactly the next lifecycle epoch") ;;?
  check_digests [("activation_digest", qa_ActivationDigest a); ("quarantine_recovery_digest", qa_QuarantineRecoveryDigest a);
                 ("clearance_observation_digest", qa_ClearanceObservationDigest a); ("remote_decision_digest", qa_RemoteDecisionDigest a)] ;;?
  check_window now (gt_instant (qa_IssuedAt a)) (gt_instant (qa_ExpiresAt a))
    (ErrNew "quarantine operator approval is not yet valid") (ErrNew "quarantine operator approval expired").

Definition SignQuarantineOperatorApproval (approval : QuarantineOperatorApproval) (privateKey : string)
    : result SignedQuarantineOperatorApproval :=
  sign_document (ValidateQuarantineOperatorApproval approval 0) "operator approval private key is invalid" approval approval privateKey.

Definition VerifySignedQuarantineOperatorApproval (signed : SignedQuarantineOperatorApproval) (publicKey : string) (now : time)
    : option error :=
  verify_document "operator approval public key is invalid" (ValidateQuarantineOperatorApproval (sg_Document signed) now) signed publicKey.

Definition ValidateQuarantineReleaseDecision (d : QuarantineReleaseDecision) (now : time) : option error :=
  guard_err (negb (str_eqb (qr_Version d) QuarantineReleaseDecisionVersion) || blank (qr_DecisionID d) || blank (qr_DeviceID d) ||
             blank (qr_WorkloadID d) || (qr_Generation d =? 0) || (qr_PreviousLifecycleEpoch d =? 0) ||
             negb (qr_NewLifecycleEpoch d =? wrap_u64 (qr_PreviousLifecycleEpoch d + 1)) || differ (qr_Outcome d) QuarantineReleaseOutcome ||
             negb (window (qr_DecidedAt d) (qr_ExpiresAt d)) || blank (qr_AuthorityID d))
    (ErrNew "quarantine release decision is incomplete") ;;?
  check_digests [("activation_digest", qr_ActivationDigest d); ("quarantine_recovery_digest", qr_QuarantineRecoveryDigest d);
                 ("clearance_observation_digest", qr_ClearanceObservationDigest d); ("remote_decision_digest", qr_RemoteDecisionDigest d);
                 ("operator_approval_digest", qr_OperatorApprovalDigest d)] ;;?
  check_window now (gt_instant (qr_DecidedAt d)) (gt_instant (qr_ExpiresAt d))
    (ErrNew "quarantine release decision is not yet valid") (ErrNew "quarantine release decision expired").

Definition SignQuarantineReleaseDecision (decision : QuarantineReleaseDecision) (privateKey : string)
    : result SignedQuarantineReleaseDecision :=
  sign_document (ValidateQuarantineReleaseDecision decision 0) "lifecycle authority private key is invalid" decision decision privateKey.

Definition VerifySignedQuarantineReleaseDecision (signed : SignedQuarantineReleaseDecision) (publicKey : string) (now : time)
    : option error :=
  verify_document "lifecycle authority public key is invalid" (ValidateQuarantineReleaseDecision (sg_Document signed) now) signed publicKey.
End Validation.

Definition SignedQuarantineOperatorApprovalDigest (signed : SignedQuarantineOperatorApproval) : result string := digest_document signed.
Definition SignedQuarantineReleaseDecisionDigest (signed : SignedQuarantineReleaseDecision) : result string := digest_document signed.

(** * The evidence for a release *)

Record QuarantineReleaseTrust : Type := {
  qt_LifecycleAuthorityPublicKey : string; qt_HostAttestorPublicKey : string; qt_RemoteVerifierPublicKey : string;
  qt_AdmissionIssuerPublicKey : string; qt_OperatorPublicKey : string; qt_MaxAttestationAge : duration }.

Record quarantineReleaseEvidence : Type := {
  qe_ActivationDigest : string; qe_QuarantineRecoveryDigest : string; qe_ClearanceObservationDigest : string;
  qe_RemoteDecisionDigest : string }.

(** The process of the activation is known to be gone. *)
Definition cleared (o : WorkloadRecoveryObservation) : bool :=
  str_eqb (ob_State o) RecoveryObservationAbsent || str_eqb (ob_State o) RecoveryObservationBootChanged ||
  str_eqb (ob_State o) RecoveryObservationPIDReused.

Section Release.
Context `{!MapRange, !Ed25519} {X : Type} `{!GoWorld X}.

(** The signatures of the evidence, in the order they are checked. *)
Definition release_signatures_invalid (state : WorkloadLifecycleState) (priorGrant : SignedWorkloadAdmissionGrant)
    (activation : SignedWorkloadActivationReceipt) (quarantine : SignedWorkloadReconciliationDecision)
    (clearance : SignedWorkloadRecoveryObservation) (remote : SignedRemoteAttestationDecision) (trust : QuarantineReleaseTrust)
    : option error :=
  ValidateWorkloadLifecycleState state ;;?
  guard_err (differ (ls_State state) LifecycleStateQuarantined) ErrQuarantineReleaseRejected ;;?
  guard_err (negb (is_public_key (qt_LifecycleAuthorityPublicKey trust)) || negb (is_public_key (qt_HostAttestorPublicKey trust)) ||
             negb (is_public_key (qt_RemoteVerifierPublicKey trust)) || negb (is_public_key (qt_AdmissionIssuerPublicKey trust)))
    (ErrNew "quarantine release trust roots are incomplete") ;;?
  VerifySignedWorkloadAdmissionGrant priorGrant (qt_AdmissionIssuerPublicKey trust) (gt_instant (ac_StartedAt (sg_Document activation))) ;;?
  VerifySignedWorkloadActivationReceipt activation (qt_HostAttestorPublicKey trust) ;;?
  VerifySignedWorkloadReconciliationDecision quarantine (qt_LifecycleAuthorityPublicKey trust) ;;?
  VerifySignedWorkloadRecoveryObservation clearance (qt_HostAttestorPublicKey trust) ;;?
  VerifySignedRemoteAttestationDecision remote (qt_RemoteVerifierPublicKey trust).

(** How the documents belong together. *)
Definition release_lineage_invalid (state : WorkloadLifecycleState) (grant : WorkloadAdmissionGrant) (receipt : WorkloadActivationReceipt)
    (q : WorkloadReconciliationDecision) (c : WorkloadRecoveryObservation) (remote : RemoteAttestationDecision)
    (activationDigest priorGrantDigest quarantineDigest : string) (maxAge : duration) (now : time) : option error :=
  guard_err (differ (ls_DeviceID state) (ac_DeviceID receipt) || differ (ls_WorkloadID state) (ac_WorkloadID receipt) ||
             differ (ls_ActivationDigest state) activationDigest || differ (ls_RecoveryDigest state) quarantineDigest ||
             differ (ac_GrantID receipt) (gr_GrantID grant) || differ (ac_GrantDigest receipt) priorGrantDigest ||
             differ (ac_DeviceID receipt) (gr_DeviceID grant) || differ (ac_WorkloadID receipt) (gr_WorkloadID grant) ||
             differ (ac_WorkloadSpecDigest receipt) (gr_WorkloadSpecDigest grant) ||
             negb (ac_TargetCgroupID receipt =? gr_TargetCgroupID grant)) ErrLifecycleInvalidLineage ;;?
  guard_err (differ (rc_Outcome q) ReconciliationQuarantine || differ (rc_DeviceID q) (ls_DeviceID state) ||
             differ (rc_WorkloadID q) (ls_WorkloadID state) || negb (rc_Generation q =? ls_Generation state) ||
             differ (rc_ActivationDigest q) activationDigest) ErrLifecycleInvalidLineage ;;?
  guard_err (differ (ob_DeviceID c) (ls_DeviceID state) || differ (ob_WorkloadID c) (ls_WorkloadID state) ||
             negb (ob_Generation c =? ls_Generation state) || differ (ob_ActivationID c) (ac_ActivationID receipt) ||
             differ (ob_ActivationDigest c) activationDigest || differ (ob_PriorRecoveryDigest c) (ls_RecoveryDigest state) ||
             differ (ob_ExpectedCgroup c) (ac_TargetCgroup receipt) || negb (ob_ExpectedCgroupID c =? ac_TargetCgroupID receipt) ||
             negb (After (gt_instant (ob_ObservedAt c)) (gt_instant (rc_DecidedAt q)))) ErrLifecycleInvalidLineage ;;?
  guard_err (negb (is_v2 receipt && expects_identity receipt c)) ErrQuarantineClearanceUnsafe ;;?
  guard_err (negb (cleared c)) ErrQuarantineClearanceUnsafe ;;?
  guard_err (differ (ra_Decision remote) "ALLOW" || differ (ra_DeviceID remote) (ls_DeviceID state) ||
             differ (ra_BootstrapDigest remote) (gr_BootstrapDigest grant) || gt_IsZero (ra_VerifiedAt remote) ||
             negb (After (gt_instant (ra_VerifiedAt remote)) (gt_instant (ob_ObservedAt c)))) ErrQuarantineReleaseRejected ;;?
  guard_err (negb (Before now (Add (gt_instant (ra_VerifiedAt remote)) (or_default maxAge DefaultAdmissionAttestationMaxAge))))
    ErrAdmissionRemoteDecisionStale.

(** The evidence at a time, with its digests. *)
Definition release_evidence (state : WorkloadLifecycleState) (priorGrant : SignedWorkloadAdmissionGrant)
    (activation : SignedWorkloadActivationReceipt) (quarantine : SignedWorkloadReconciliationDecision)
    (clearance : SignedWorkloadRecoveryObservation) (remote : SignedRemoteAttestationDecision) (trust : QuarantineReleaseTrust)
    (now : time) : result quarantineReleaseEvidence :=
  let state := NormalizeWorkloadLifecycleState state in
  match release_signatures_invalid state priorGrant activation quarantine clearance remote trust with
  | Some err => Error err
  | None =>
      activationDigest ← SignedWorkloadActivationReceiptDigest activation;
      priorGrantDigest ← SignedWorkloadAdmissionGrantDigest priorGrant;
      quarantineDigest ← SignedWorkloadReconciliationDecisionDigest quarantine;
      clearanceDigest ← SignedWorkloadRecoveryObservationDigest clearance;
      remoteDigest ← SignedRemoteAttestationDecisionDigest remote;
      match release_lineage_invalid state (sg_Document priorGrant) (sg_Document activation) (sg_Document quarantine)
              (sg_Document clearance) (sg_Document remote) activationDigest priorGrantDigest quarantineDigest
              (qt_MaxAttestationAge trust) now with
      | Some err => Error err
      | None => Ok {| qe_ActivationDigest := activationDigest; qe_QuarantineRecoveryDigest := quarantineDigest;
                      qe_ClearanceObservationDigest := clearanceDigest; qe_RemoteDecisionDigest := remoteDigest |}
      end
  end.
Definition validateQuarantineReleaseEvidence (state : WorkloadLifecycleState) (priorGrant : SignedWorkloadAdmissionGrant)
    (activation : SignedWorkloadActivationReceipt) (quarantine : SignedWorkloadReconciliationDecision)
    (clearance : SignedWorkloadRecoveryObservation) (remote : SignedRemoteAttestationDecision) (trust : QuarantineReleaseTrust)
    (now : time) : IO X (result quarantineReleaseEvidence) :=
  now ← now_or now; mret (release_evidence state priorGrant activation quarantine clearance remote trust now).

Definition IssueQuarantineOperatorApproval (state : WorkloadLifecycleState) (priorGrant : SignedWorkloadAdmissionGrant)
    (activation : SignedWorkloadActivationReceipt) (quarantine : SignedWorkloadReconciliationDecision)
    (clearance : SignedWorkloadRecoveryObservation) (remote : SignedRemoteAttestationDecision) (trust : QuarantineReleaseTrust)
    (operatorPrivateKey operatorID caseReference reason : string) (ttl : duration) (now : time)
    : IO X (result SignedQuarantineOperatorApproval) :=
  now ← now_or now;
  try (validateQuarantineReleaseEvidence state priorGrant activation quarantine clearance remote trust now) unwrapped (λ evidence,
  if negb (is_private_key operatorPrivateKey) then mret (Error (ErrNew "operator private key is required"))
  else
    let operatorID := TrimSpace operatorID in
    let caseReference := TrimSpace caseReference in
    let reason := TrimSpace reason in
    if str_eqb operatorID "" || str_eqb caseReference "" || str_eqb reason ""
    then mret (Error (ErrNew "operator id, case reference and reason are required"))
    else
      try (randomToken 24) unwrapped (λ approvalID,
      let epoch := EffectiveLifecycleEpoch state in
      mret (SignQuarantineOperatorApproval {|
        qa_Version := QuarantineOperatorApprovalVersion; qa_ApprovalID := approvalID; qa_DeviceID := ls_DeviceID state;
        qa_WorkloadID := ls_WorkloadID state; qa_Generation := ls_Generation state; qa_CurrentLifecycleEpoch := epoch;
        qa_RequestedLifecycleEpoch := wrap_u64 (epoch + 1); qa_ActivationDigest := qe_ActivationDigest evidence;
        qa_QuarantineRecoveryDigest := qe_QuarantineRecoveryDigest evidence;
        qa_ClearanceObservationDigest := qe_ClearanceObservationDigest evidence;
        qa_RemoteDecisionDigest := qe_RemoteDecisionDigest evidence; qa_OperatorID := operatorID; qa_CaseReference := caseReference;
        qa_Reason := reason; qa_IssuedAt := utc now; qa_ExpiresAt := utc (Add now (or_default ttl DefaultQuarantineApprovalTTL)) |}
        operatorPrivateKey))).

(** The approval is for this state and this evidence, and came after it. *)
Definition approval_mismatch (state : WorkloadLifecycleState) (evidence : quarantineReleaseEvidence) (a : QuarantineOperatorApproval)
    (observedAt verifiedAt : gotime) : bool :=
  let currentEpoch := EffectiveLifecycleEpoch state in
  differ (qa_DeviceID a) (ls_DeviceID state) || differ (qa_WorkloadID a) (ls_WorkloadID state) ||
  negb (qa_Generation a =? ls_Generation state) || negb (qa_CurrentLifecycleEpoch a =? currentEpoch) ||
  negb (qa_RequestedLifecycleEpoch a =? wrap_u64 (currentEpoch + 1)) || differ (qa_ActivationDigest a) (qe_ActivationDigest evidence) ||
  differ (qa_QuarantineRecoveryDigest a) (qe_QuarantineRecoveryDigest evidence) ||
  differ (qa_ClearanceObservationDigest a) (qe_ClearanceObservationDigest evidence) ||
  differ (qa_RemoteDecisionDigest a) (qe_RemoteDecisionDigest evidence) || Before (gt_instant (qa_IssuedAt a)) (gt_instant observedAt) ||
  Before (gt_instant (qa_IssuedAt a)) (gt_instant verifiedAt).

Definition EvaluateQuarantineRelease (state : WorkloadLifecycleState) (priorGrant : SignedWorkloadAdmissionGrant)
    (activation : SignedWorkloadActivationReceipt) (quarantine : SignedWorkloadReconciliationDecision)
    (clearance : SignedWorkloadRecoveryObservation) (remote : SignedRemoteAttestationDecision)
    (approval : SignedQuarantineOperatorApproval) (trust : QuarantineReleaseTrust)
    (lifecycleAuthorityPrivateKey lifecycleAuthorityID : string) (ttl : duration) (now : time)
    : IO X (result SignedQuarantineReleaseDecision) :=
  now ← now_or now;
  try (validateQuarantineReleaseEvidence state priorGrant activation quarantine clearance remote trust now) unwrapped (λ evidence,
  match
    guard_err (negb (is_public_key (qt_OperatorPublicKey trust))) (ErrNew "trusted operator public key is required") ;;?
    VerifySignedQuarantineOperatorApproval approval (qt_OperatorPublicKey trust) now
  with
  | Some err => mret (Error err)
  | None =>
      match SignedQuarantineOperatorApprovalDigest approval with
      | Error err => mret (Error err)
      | Ok approvalDigest =>
          match
            guard_err (approval_mismatch state evidence (sg_Document approval) (ob_ObservedAt (sg_Document clearance))
              (ra_VerifiedAt (sg_Document remote))) ErrLifecycleInvalidLineage ;;?
            guard_err (negb (is_private_key lifecycleAuthorityPrivateKey)) (ErrNew "lifecycle authority private key is required") ;;?
            guard_err (negb (publicKeysEqual (ed25519_Public lifecycleAuthorityPrivateKey) (qt_LifecycleAuthorityPublicKey trust)))
              (ErrNew "lifecycle authority private key does not match trusted public key") ;;?
            guard_err (blank lifecycleAuthorityID) (ErrNew "lifecycle authority id is required")
          with
          | Some err => mret (Error err)
          | None =>
              try (randomToken 24) unwrapped (λ decisionID,
              let currentEpoch := EffectiveLifecycleEpoch state in
              mret (SignQuarantineReleaseDecision {|
                qr_Version := QuarantineReleaseDecisionVersion; qr_DecisionID := decisionID; qr_DeviceID := ls_DeviceID state;
                qr_WorkloadID := ls_WorkloadID state; qr_Generation := ls_Generation state; qr_PreviousLifecycleEpoch := currentEpoch;
                qr_NewLifecycleEpoch := wrap_u64 (currentEpoch + 1); qr_ActivationDigest := qe_ActivationDigest evidence;
                qr_QuarantineRecoveryDigest := qe_QuarantineRecoveryDigest evidence;
                qr_ClearanceObservationDigest := qe_ClearanceObservationDigest evidence;
                qr_RemoteDecisionDigest := qe_RemoteDecisionDigest evidence; qr_OperatorApprovalDigest := approvalDigest;
                qr_Outcome := QuarantineReleaseOutcome;
                qr_ReasonCodes := ["QUARANTINED_PROCESS_PROVEN_INACTIVE"; "FRESH_REMOTE_ATTESTATION_VERIFIED";
                                   "OPERATOR_APPROVAL_VERIFIED"; "LIFECYCLE_EPOCH_ADVANCED"];
                qr_DecidedAt := utc now; qr_ExpiresAt := utc (Add now (or_default ttl DefaultQuarantineReleaseTTL));
                qr_AuthorityID := TrimSpace lifecycleAuthorityID |} lifecycleAuthorityPrivateKey))
          end
      end
  end).

(** * Restarting a released workload *)

(** The documents of a released restart, for a normalized state. *)
Definition released_evidence (state : WorkloadLifecycleState) (priorGrant : SignedWorkloadAdmissionGrant)
    (activation : SignedWorkloadActivationReceipt) (release : SignedQuarantineReleaseDecision)
    (remote : SignedRemoteAttestationDecision) (policy : WorkloadRestartPolicy X) : result (string * string * string) :=
  match
    ValidateWorkloadLifecycleState state ;;?
    guard_err (differ (ls_State state) LifecycleStateExitedUnknown) ErrRestartDecisionRejected ;;?
    guard_err (negb (is_private_key (rp_LifecycleAuthorityKey policy)) || negb (is_public_key (rp_RemoteVerifierPublicKey policy)) ||
               negb (is_public_key (rp_AdmissionIssuerPublicKey policy)) || negb (is_public_key (rp_HostAttestorPublicKey policy)))
      (ErrNew "released restart requires lifecycle, verifier, admission and host trust keys") ;;?
    VerifySignedWorkloadAdmissionGrant priorGrant (rp_AdmissionIssuerPublicKey policy) (gt_instant (ac_StartedAt (sg_Document activation))) ;;?
    VerifySignedWorkloadActivationReceipt activation (rp_HostAttestorPublicKey policy) ;;?
    VerifySignedQuarantineReleaseDecision release (ed25519_Public (rp_LifecycleAuthorityKey policy)) 0 ;;?
    VerifySignedRemoteAttestationDecision remote (rp_RemoteVerifierPublicKey policy)
  with
  | Some err => Error err
  | None =>
      activationDigest ← SignedWorkloadActivationReceiptDigest activation;
      releaseDigest ← SignedQuarantineReleaseDecisionDigest release;
      priorGrantDigest ← SignedWorkloadAdmissionGrantDigest priorGrant;
      remoteDigest ← SignedRemoteAttestationDecisionDigest remote;
      let receipt := sg_Document activation in
      let grant := sg_Document priorGrant in
      let r := sg_Document release in
      if differ (ls_DeviceID state) (ac_DeviceID receipt) || differ (ls_WorkloadID state) (ac_WorkloadID receipt) ||
         differ (ls_ActivationDigest state) activationDigest || differ (ls_RecoveryDigest state) releaseDigest ||
         negb (ls_LifecycleEpoch state =? qr_NewLifecycleEpoch r) || differ (qr_Outcome r) QuarantineReleaseOutcome ||
         differ (qr_DeviceID r) (ls_DeviceID state) || differ (qr_WorkloadID r) (ls_WorkloadID state) ||
         negb (qr_Generation r =? ls_Generation state) || differ (qr_ActivationDigest r) activationDigest ||
         negb (qr_NewLifecycleEpoch r =? wrap_u64 (qr_PreviousLifecycleEpoch r + 1)) || differ (ac_GrantID receipt) (gr_GrantID grant) ||
         differ (ac_GrantDigest receipt) priorGrantDigest || differ (ac_WorkloadSpecDigest receipt) (gr_WorkloadSpecDigest grant) ||
         negb (ac_TargetCgroupID receipt =? gr_TargetCgroupID grant)
      then Error ErrLifecycleInvalidLineage
      else Ok (activationDigest, releaseDigest, remoteDigest)
  end.

Definition released_outcome (p : WorkloadRestartPolicy X) (state : WorkloadLifecycleState) (remote : RemoteAttestationDecision)
    (bootstrapDigest remoteDigest : string) (r : QuarantineReleaseDecision) (count : Z) (now : time) : string * list string :=
  if max_restarts p <=? count then (RestartOutcomeBlock, ["RESTART_BUDGET_EXHAUSTED"])
  else if differ (ra_BootstrapDigest remote) bootstrapDigest then (RestartOutcomeBlock, ["BOOTSTRAP_CHANGED_REQUIRES_NEW_LIFECYCLE"])
  else if differ (ra_Decision remote) "ALLOW" || differ (ra_DeviceID remote) (ls_DeviceID state) ||
          differ (ra_BootstrapDigest remote) bootstrapDigest || gt_IsZero (ra_VerifiedAt remote) ||
          negb (Before now (Add (gt_instant (ra_VerifiedAt remote)) (reattest_after p)))
  then (RestartOutcomeRequireReattestation, ["POST_QUARANTINE_ATTESTATION_REQUIRED"])
  else if differ remoteDigest (qr_RemoteDecisionDigest r) &&
          negb (After (gt_instant (ra_VerifiedAt remote)) (gt_instant (qr_DecidedAt r)))
  then (RestartOutcomeRequireReattestation, ["NEW_ATTESTATION_MUST_POSTDATE_QUARANTINE_RELEASE"])
  else (RestartOutcomeRequireFreshGrant, ["QUARANTINE_RELEASE_REQUIRES_FRESH_GRANT"]).

Definition EvaluateQuarantineReleasedRestart (state : WorkloadLifecycleState) (priorGrant : SignedWorkloadAdmissionGrant)
    (activation : SignedWorkloadActivationReceipt) (release : SignedQuarantineReleaseDecision)
    (remote : SignedRemoteAttestationDecision) (policy : WorkloadRestartPolicy X) : IO X (result SignedWorkloadRestartDecision) :=
  now ← policy_now (rp_Now policy);
  let state := NormalizeWorkloadLifecycleState state in
  match released_evidence state priorGrant activation release remote policy with
  | Error err => mret (Error err)
  | Ok (activationDigest, releaseDigest, remoteDigest) =>
      let '(count, start) := restart_budget state policy now in
      let bootstrapDigest := gr_BootstrapDigest (sg_Document priorGrant) in
      let r := sg_Document release in
      let '(outcome, reasons) := released_outcome policy state (sg_Document remote) bootstrapDigest remoteDigest r count now in
      let notBefore := restart_not_before policy now (gt_instant (qr_DecidedAt r)) outcome count in
      try (randomToken 24) unwrapped (λ decisionID,
      mret (SignWorkloadRestartDecision (restart_decision policy state (sg_Document activation) bootstrapDigest activationDigest ""
        releaseDigest remoteDigest outcome reasons count start now notBefore decisionID) (rp_LifecycleAuthorityKey policy)))
  end.
End Release.
