(* ===== verification/RuntimeTrust.v ===== *)
(** * Runtime trust

    Models [internal/kernelfabric/runtime_trust.go] and
    [runtime_trust_watchdog.go]: the lease under which a running workload stays
    trusted, its renewal, the decision that keeps, renews or revokes it, and the
    reconciliation of a workload whose lease was revoked or has expired. *)

From S2P Require Import Prelude Crypto Format Json Base64 Unmarshal GoTime Permit FileSystem Journal KernelAbi KernelFabric Evidence Document Workload Lifecycle Recovery.
Local Open Scope Z_scope.
Local Open Scope go_scope.

Definition RuntimeTrustLeaseVersion : string := "aegis.ege/runtime-trust-lease/v1".
Definition RuntimeTrustDecisionVersion : string := "aegis.ege/runtime-trust-decision/v1".
Definition RuntimeTrustKeepRunning : string := "KEEP_RUNNING".
Definition RuntimeTrustRenewRequired : string := "RENEW_REQUIRED".
Definition RuntimeTrustRevoke : string := "REVOKE".
Definition DefaultRuntimeTrustLeaseTTL : duration := seconds 90.
Definition DefaultRuntimeTrustMaxAge : duration := seconds 120.
Definition DefaultRuntimeClockSkew : duration := seconds 5.

Definition ErrRuntimeTrustInvalid : error := ErrNew "runtime trust evidence is invalid".
Definition ErrRuntimeTrustLeaseExpired : error := ErrNew "runtime trust lease expired".
Definition ErrRuntimeTrustRollback : error := ErrNew "runtime trust lease rollback detected".
Definition ErrRuntimeTrustRevokeRequired : error := ErrNew "runtime trust requires revocation".

Definition same_path (a b : string) : bool := str_eqb (filepath_Clean a) (filepath_Clean b).

(** * Leases *)

Record RuntimeTrustLease : Type := {
  tl_Version : string; tl_LeaseID : string; tl_LeaseEpoch : Z; tl_DeviceID : string; tl_WorkloadID : string; tl_Generation : Z;
  tl_LifecycleEpoch : Z; tl_ActivationDigest : string; tl_WorkloadSpecDigest : string; tl_TargetCgroup : string; tl_TargetCgroupID : Z;
  tl_BootstrapDigest : string; tl_PolicyDigest : string; tl_RemoteDecisionID : string; tl_RemoteDecisionDigest : string;
  tl_RemoteVerifiedAt : gotime; tl_AuthorityID : string; tl_IssuedAt : gotime; tl_ExpiresAt : gotime }.

Definition lease_json (l : RuntimeTrustLease) : result json :=
  verified ← gotime_json (tl_RemoteVerifiedAt l); issued ← gotime_json (tl_IssuedAt l); expires ← gotime_json (tl_ExpiresAt l);
  Ok (object [string_field "version" (tl_Version l); string_field "lease_id" (tl_LeaseID l); number_field "lease_epoch" (tl_LeaseEpoch l);
    string_field "device_id" (tl_DeviceID l); string_field "workload_id" (tl_WorkloadID l); number_field "generation" (tl_Generation l);
    number_field "lifecycle_epoch" (tl_LifecycleEpoch l); string_field "activation_digest" (tl_ActivationDigest l);
    string_field "workload_spec_digest" (tl_WorkloadSpecDigest l); string_field "target_cgroup" (tl_TargetCgroup l);
    number_field "target_cgroup_id" (tl_TargetCgroupID l); string_field "bootstrap_digest" (tl_BootstrapDigest l);
    string_field "policy_digest" (tl_PolicyDigest l); string_field "remote_decision_id" (tl_RemoteDecisionID l);
    string_field "remote_decision_digest" (tl_RemoteDecisionDigest l); ("remote_verified_at", Some verified);
    string_field "authority_id" (tl_AuthorityID l); ("issued_at", Some issued); ("expires_at", Some expires)]).

Definition normalized_lease (l : RuntimeTrustLease) : RuntimeTrustLease := {|
  tl_Version := tl_Version l; tl_LeaseID := tl_LeaseID l; tl_LeaseEpoch := tl_LeaseEpoch l; tl_DeviceID := tl_DeviceID l;
  tl_WorkloadID := tl_WorkloadID l; tl_Generation := tl_Generation l; tl_LifecycleEpoch := tl_LifecycleEpoch l;
  tl_ActivationDigest := tl_ActivationDigest l; tl_WorkloadSpecDigest := tl_WorkloadSpecDigest l;
  tl_TargetCgroup := filepath_Clean (tl_TargetCgroup l); tl_TargetCgroupID := tl_TargetCgroupID l;
  tl_BootstrapDigest := tl_BootstrapDigest l; tl_PolicyDigest := tl_PolicyDigest l; tl_RemoteDecisionID := tl_RemoteDecisionID l;
  tl_RemoteDecisionDigest := tl_RemoteDecisionDigest l; tl_RemoteVerifiedAt := UTC (tl_RemoteVerifiedAt l);
  tl_AuthorityID := tl_AuthorityID l; tl_IssuedAt := UTC (tl_IssuedAt l); tl_ExpiresAt := UTC (tl_ExpiresAt l) |}.

#[export] Instance RuntimeTrustLease_document : Document RuntimeTrustLease := {
  doc_json := lease_json;
  doc_normalize := normalized_lease;
  doc_domain _ := "aegis-ege/runtime-trust-lease/v1" +:+ nul;
  doc_payload_error := unwrapped;
  doc_field := "lease";
  doc_signed_domain := "aegis-ege/signed-runtime-trust-lease/v1" +:+ nul;
  doc_incomplete := "signed runtime trust lease is incomplete";
  doc_digest_error := unwrapped }.

Abbreviation SignedRuntimeTrustLease := (Signed RuntimeTrustLease).

(** The lease at a time: its checks in order, that of the time last. *)
Definition lease_expired (lease : RuntimeTrustLease) (now : time) : option error :=
  check_window now (gt_instant (tl_IssuedAt lease)) (gt_instant (tl_ExpiresAt lease))
    (ErrNew "runtime trust lease is not yet valid") ErrRuntimeTrustLeaseExpired.

Section Leases.
Context `{!MapRange, !Ed25519}.

Definition ValidateRuntimeTrustLease (lease : RuntimeTrustLease) (now : time) : option error :=
  guard_err (negb (str_eqb (tl_Version lease) RuntimeTrustLeaseVersion) || blank (tl_LeaseID lease) || (tl_LeaseEpoch lease =? 0) ||
             blank (tl_DeviceID lease) || blank (tl_WorkloadID lease) || (tl_Generation lease =? 0) || (tl_LifecycleEpoch lease =? 0) ||
             (tl_TargetCgroupID lease =? 0) || blank (tl_RemoteDecisionID lease) || blank (tl_AuthorityID lease) ||
             gt_IsZero (tl_RemoteVerifiedAt lease) || negb (window (tl_IssuedAt lease) (tl_ExpiresAt lease))) ErrRuntimeTrustInvalid ;;?
  check_digests [("activation_digest", tl_ActivationDigest lease); ("workload_spec_digest", tl_WorkloadSpecDigest lease);
                 ("bootstrap_digest", tl_BootstrapDigest lease); ("policy_digest", tl_PolicyDigest lease);
                 ("remote_decision_digest", tl_RemoteDecisionDigest lease)] ;;?
  guard_err (negb (clean_absolute (tl_TargetCgroup lease))) (ErrNew "runtime trust target cgroup must be a clean absolute path") ;;?
  lease_expired lease now.

Definition SignRuntimeTrustLease (lease : RuntimeTrustLease) (privateKey : string) : result SignedRuntimeTrustLease :=
  sign_document (ValidateRuntimeTrustLease lease 0) "runtime trust authority private key is invalid" lease lease privateKey.

Definition VerifySignedRuntimeTrustLease (signed : SignedRuntimeTrustLease) (publicKey : string) (now : time) : option error :=
  verify_document "runtime trust authority public key is invalid" (ValidateRuntimeTrustLease (sg_Document signed) now) signed publicKey.
End Leases.

Definition SignedRuntimeTrustLeaseDigest (signed : SignedRuntimeTrustLease) : result string := digest_document signed.

(** * Issuing a lease *)

Record RuntimeTrustPolicy (X : Type) : Type := {
  tp_LifecycleAuthorityKey : string; tp_LifecycleAuthorityID : string; tp_RemoteVerifierPublicKey : string;
  tp_AdmissionIssuerPublicKey : string; tp_HostAttestorPublicKey : string; tp_PolicyDigest : string; tp_MaxAttestationAge : duration;
  tp_LeaseTTL : duration; tp_MaxClockSkew : duration; tp_Now : option (X → time * X) }.
Arguments tp_LifecycleAuthorityKey {X} _.
Arguments tp_LifecycleAuthorityID {X} _.
Arguments tp_RemoteVerifierPublicKey {X} _.
Arguments tp_AdmissionIssuerPublicKey {X} _.
Arguments tp_HostAttestorPublicKey {X} _.
Arguments tp_PolicyDigest {X} _.
Arguments tp_MaxAttestationAge {X} _.
Arguments tp_LeaseTTL {X} _.
Arguments tp_MaxClockSkew {X} _.
Arguments tp_Now {X} _.

Definition process_bound (receipt : WorkloadActivationReceipt) : bool :=
  is_v2 receipt && match ac_ProcessIdentity receipt with Some _ => true | None => false end.

(** Until when a lease holds: its lifetime, and no longer than the attestation. *)
Definition lease_expiry (now : time) (verifiedAt : gotime) (maxAge ttl skew : duration) : result time :=
  if gt_IsZero verifiedAt || After (gt_instant verifiedAt) (Add now skew) then Error ErrRuntimeTrustInvalid
  else
    let attestationDeadline := Add (gt_instant verifiedAt) maxAge in
    if negb (Before now attestationDeadline) then Error ErrAdmissionRemoteDecisionStale
    else
      let expiresAt := Add now ttl in
      let expiresAt := if After expiresAt attestationDeadline then attestationDeadline else expiresAt in
      if negb (After expiresAt now) then Error ErrRuntimeTrustLeaseExpired else Ok expiresAt.

(** The lineage of a first lease or of a renewal. *)
Definition lease_lineage_mismatch (state : WorkloadLifecycleState) (grant : WorkloadAdmissionGrant) (receipt : WorkloadActivationReceipt)
    (remote : RemoteAttestationDecision) (activationDigest grantDigest : string) : bool :=
  differ (ls_DeviceID state) (ac_DeviceID receipt) || differ (ls_WorkloadID state) (ac_WorkloadID receipt) ||
  (ls_Generation state =? 0) || differ (ls_ActivationDigest state) activationDigest || differ (ac_GrantID receipt) (gr_GrantID grant) ||
  differ (ac_GrantDigest receipt) grantDigest || differ (ac_DeviceID receipt) (gr_DeviceID grant) ||
  differ (ac_WorkloadID receipt) (gr_WorkloadID grant) || differ (ac_WorkloadSpecDigest receipt) (gr_WorkloadSpecDigest grant) ||
  negb (ac_TargetCgroupID receipt =? gr_TargetCgroupID grant) || differ (ra_DeviceID remote) (ls_DeviceID state) ||
  differ (ra_BootstrapDigest remote) (gr_BootstrapDigest grant).

Section Issue.
Context `{!MapRange, !Ed25519} {X : Type} `{!GoWorld X}.

(** The state, the trust roots and the signatures, in the order they are checked. *)
Definition lease_evidence_invalid (state : WorkloadLifecycleState) (priorGrant : SignedWorkloadAdmissionGrant)
    (activation : SignedWorkloadActivationReceipt) (remote : SignedRemoteAttestationDecision) (policy : RuntimeTrustPolicy X)
    : option error :=
  ValidateWorkloadLifecycleState state ;;?
  guard_err (differ (ls_State state) LifecycleStateRunning) ErrRuntimeTrustInvalid ;;?
  guard_err (negb (is_private_key (tp_LifecycleAuthorityKey policy)) || negb (is_public_key (tp_RemoteVerifierPublicKey policy)) ||
             negb (is_public_key (tp_AdmissionIssuerPublicKey policy)) || negb (is_public_key (tp_HostAttestorPublicKey policy)))
    (ErrNew "runtime trust policy trust roots are incomplete") ;;?
  guard_err (str_eqb (TrimSpace (tp_LifecycleAuthorityID policy)) "") (ErrNew "runtime trust lifecycle authority id is required") ;;?
  check_digest (ErrWrap "runtime trust policy digest") (tp_PolicyDigest policy) ;;?
  VerifySignedWorkloadAdmissionGrant priorGrant (tp_AdmissionIssuerPublicKey policy) (gt_instant (ac_StartedAt (sg_Document activation))) ;;?
  VerifySignedWorkloadActivationReceipt activation (tp_HostAttestorPublicKey policy) ;;?
  guard_err (negb (process_bound (sg_Document activation))) (ErrNew "runtime trust requires process-bound activation receipt v2") ;;?
  VerifySignedRemoteAttestationDecision remote (tp_RemoteVerifierPublicKey policy) ;;?
  guard_err (differ (ra_Decision (sg_Document remote)) "ALLOW") ErrRuntimeTrustRevokeRequired.

(** The epoch of the next lease: a renewal names the lease the state carries and
    needs newer evidence. *)
Definition next_lease_epoch (state : WorkloadLifecycleState) (previous : option SignedRuntimeTrustLease)
    (activationDigest bootstrapDigest remoteDigest : string) (verifiedAt : gotime) (policy : RuntimeTrustPolicy X) (now : time) : result Z :=
  match previous with
  | Some previous =>
      match VerifySignedRuntimeTrustLease previous (ed25519_Public (tp_LifecycleAuthorityKey policy)) now with
      | Some err => Error err
      | None =>
          let prev := sg_Document previous in
          prevDigest ← SignedRuntimeTrustLeaseDigest previous;
          if (ls_RuntimeTrustEpoch state =? 0) || negb (ls_RuntimeTrustEpoch state =? tl_LeaseEpoch prev) ||
             differ (ls_RuntimeTrustLeaseDigest state) prevDigest || differ (tl_DeviceID prev) (ls_DeviceID state) ||
             differ (tl_WorkloadID prev) (ls_WorkloadID state) || negb (tl_Generation prev =? ls_Generation state) ||
             negb (tl_LifecycleEpoch prev =? EffectiveLifecycleEpoch state) || differ (tl_ActivationDigest prev) activationDigest ||
             differ (tl_PolicyDigest prev) (tp_PolicyDigest policy) || differ (tl_BootstrapDigest prev) bootstrapDigest
          then Error ErrRuntimeTrustRollback
          else if tl_LeaseEpoch prev =? MaxUint64 then Error (ErrNew "runtime trust lease epoch exhausted")
          else if negb (After (gt_instant verifiedAt) (gt_instant (tl_RemoteVerifiedAt prev))) ||
                  str_eqb remoteDigest (tl_RemoteDecisionDigest prev)
          then Error (ErrNew "runtime trust renewal requires newer remote attestation evidence")
          else Ok (wrap_u64 (tl_LeaseEpoch prev + 1))
      end
  | None =>
      if negb (ls_RuntimeTrustEpoch state =? 0) || negb (str_eqb (ls_RuntimeTrustLeaseDigest state) "")
      then Error ErrRuntimeTrustRollback else Ok 1
  end.

(** The checks of a lease: gives the digests of the activation and of the remote
    decision, until when the lease holds and its epoch. *)
Definition lease_evidence (state : WorkloadLifecycleState) (priorGrant : SignedWorkloadAdmissionGrant)
    (activation : SignedWorkloadActivationReceipt) (remote : SignedRemoteAttestationDecision)
    (previous : option SignedRuntimeTrustLease) (policy : RuntimeTrustPolicy X) (now : time) : result (string * string * time * Z) :=
  match lease_evidence_invalid state priorGrant activation remote policy with
  | Some err => Error err
  | None =>
      let grant := sg_Document priorGrant in
      let receipt := sg_Document activation in
      let decision := sg_Document remote in
      activationDigest ← SignedWorkloadActivationReceiptDigest activation;
      grantDigest ← SignedWorkloadAdmissionGrantDigest priorGrant;
      remoteDigest ← SignedRemoteAttestationDecisionDigest remote;
      if lease_lineage_mismatch state grant receipt decision activationDigest grantDigest then Error ErrLifecycleInvalidLineage
      else if negb (same_path (ac_TargetCgroup receipt) (gr_TargetCgroup grant)) then Error ErrLifecycleInvalidLineage
      else
        expiresAt ← lease_expiry now (ra_VerifiedAt decision) (or_default (tp_MaxAttestationAge policy) DefaultRuntimeTrustMaxAge)
          (or_default (tp_LeaseTTL policy) DefaultRuntimeTrustLeaseTTL) (or_default (tp_MaxClockSkew policy) DefaultRuntimeClockSkew);
        leaseEpoch ← next_lease_epoch state previous activationDigest (gr_BootstrapDigest grant) remoteDigest (ra_VerifiedAt decision)
          policy now;
        Ok (activationDigest, remoteDigest, expiresAt, leaseEpoch)
  end.

Definition IssueRuntimeTrustLease (state : WorkloadLifecycleState) (priorGrant : SignedWorkloadAdmissionGrant)
    (activation : SignedWorkloadActivationReceipt) (remote : SignedRemoteAttestationDecision)
    (previous : option SignedRuntimeTrustLease) (policy : RuntimeTrustPolicy X) : IO X (result SignedRuntimeTrustLease) :=
  now ← policy_now (tp_Now policy);
  let state := NormalizeWorkloadLifecycleState state in
  match lease_evidence state priorGrant activation remote previous policy now with
  | Error err => mret (Error err)
  | Ok (activationDigest, remoteDigest, expiresAt, leaseEpoch) =>
      let receipt := sg_Document activation in
      try (randomToken 24) unwrapped (λ leaseID,
      mret (SignRuntimeTrustLease {|
        tl_Version := RuntimeTrustLeaseVersion; tl_LeaseID := leaseID; tl_LeaseEpoch := leaseEpoch; tl_DeviceID := ls_DeviceID state;
        tl_WorkloadID := ls_WorkloadID state; tl_Generation := ls_Generation state; tl_LifecycleEpoch := EffectiveLifecycleEpoch state;
        tl_ActivationDigest := activationDigest; tl_WorkloadSpecDigest := ac_WorkloadSpecDigest receipt;
        tl_TargetCgroup := filepath_Clean (ac_TargetCgroup receipt); tl_TargetCgroupID := ac_TargetCgroupID receipt;
        tl_BootstrapDigest := gr_BootstrapDigest (sg_Document priorGrant); tl_PolicyDigest := tp_PolicyDigest policy;
        tl_RemoteDecisionID := ra_DecisionID (sg_Document remote); tl_RemoteDecisionDigest := remoteDigest;
        tl_RemoteVerifiedAt := UTC (ra_VerifiedAt (sg_Document remote)); tl_AuthorityID := TrimSpace (tp_LifecycleAuthorityID policy);
        tl_IssuedAt := utc now; tl_ExpiresAt := utc expiresAt |} (tp_LifecycleAuthorityKey policy)))
  end.
End Issue.

(** * Decisions *)

Record RuntimeTrustDecision : Type := {
  td_Version : string; td_DecisionID : string; td_DeviceID : string; td_WorkloadID : string; td_Generation : Z; td_LifecycleEpoch : Z;
  td_ActivationDigest : string; td_RuntimeLeaseDigest : string; td_RuntimeLeaseEpoch : Z; td_PolicyDigest : string;
  td_RemoteDecisionDigest : string; td_TargetCgroup : string; td_TargetCgroupID : Z; td_Outcome : string; td_ReasonCodes : list string;
  td_DecidedAt : gotime; td_AuthorityID : string }.

Definition trust_decision_json (d : RuntimeTrustDecision) : result json :=
  decided ← gotime_json (td_DecidedAt d);
  Ok (object [string_field "version" (td_Version d); string_field "decision_id" (td_DecisionID d); string_field "device_id" (td_DeviceID d);
    string_field "workload_id" (td_WorkloadID d); number_field "generation" (td_Generation d);
    number_field "lifecycle_epoch" (td_LifecycleEpoch d); string_field "activation_digest" (td_ActivationDigest d);
    string_field "runtime_lease_digest" (td_RuntimeLeaseDigest d); number_field "runtime_lease_epoch" (td_RuntimeLeaseEpoch d);
    string_field "policy_digest" (td_PolicyDigest d); ("remote_decision_digest", omit_string (td_RemoteDecisionDigest d));
    string_field "target_cgroup" (td_TargetCgroup d); number_field "target_cgroup_id" (td_TargetCgroupID d);
    string_field "outcome" (td_Outcome d); ("reason_codes", omit_strings (td_ReasonCodes d)); ("decided_at", Some decided);
    string_field "authority_id" (td_AuthorityID d)]).

Definition normalized_trust_decision (d : RuntimeTrustDecision) : RuntimeTrustDecision := {|
  td_Version := td_Version d; td_DecisionID := td_DecisionID d; td_DeviceID := td_DeviceID d; td_WorkloadID := td_WorkloadID d;
  td_Generation := td_Generation d; td_LifecycleEpoch := td_LifecycleEpoch d; td_ActivationDigest := td_ActivationDigest d;
  td_RuntimeLeaseDigest := td_RuntimeLeaseDigest d; td_RuntimeLeaseEpoch := td_RuntimeLeaseEpoch d; td_PolicyDigest := td_PolicyDigest d;
  td_RemoteDecisionDigest := td_RemoteDecisionDigest d; td_TargetCgroup := filepath_Clean (td_TargetCgroup d);
  td_TargetCgroupID := td_TargetCgroupID d; td_Outcome := td_Outcome d; td_ReasonCodes := sort_strings (td_ReasonCodes d);
  td_DecidedAt := UTC (td_DecidedAt d); td_AuthorityID := td_AuthorityID d |}.

#[export] Instance RuntimeTrustDecision_document : Document RuntimeTrustDecision := {
  doc_json := trust_decision_json;
  doc_normalize := normalized_trust_decision;
  doc_domain _ := "aegis-ege/runtime-trust-decision/v1" +:+ nul;
  doc_payload_error := unwrapped;
  doc_field := "decision";
  doc_signed_domain := "aegis-ege/signed-runtime-trust-decision/v1" +:+ nul;
  doc_incomplete := "signed runtime trust decision is incomplete";
  doc_digest_error := unwrapped }.

Abbreviation SignedRuntimeTrustDecision := (Signed RuntimeTrustDecision).

Section TrustDecisions.
Context `{!MapRange, !Ed25519}.

Definition ValidateRuntimeTrustDecision (d : RuntimeTrustDecision) : option error :=
  guard_err (negb (str_eqb (td_Version d) RuntimeTrustDecisionVersion) || blank (td_DecisionID d) || blank (td_DeviceID d) ||
             blank (td_WorkloadID d) || (td_Generation d =? 0) || (td_LifecycleEpoch d =? 0) || (td_RuntimeLeaseEpoch d =? 0) ||
             (td_TargetCgroupID d =? 0) || gt_IsZero (td_DecidedAt d) || blank (td_AuthorityID d))
    (ErrNew "runtime trust decision is incomplete") ;;?
  check_digests [("activation_digest", td_ActivationDigest d); ("runtime_lease_digest", td_RuntimeLeaseDigest d);
                 ("policy_digest", td_PolicyDigest d)] ;;?
  check_present_digest (ErrWrap "remote_decision_digest") (td_RemoteDecisionDigest d) ;;?
  guard_err (negb (clean_absolute (td_TargetCgroup d))) (ErrNew "runtime trust decision target cgroup must be a clean absolute path") ;;?
  guard_err (differ (td_Outcome d) RuntimeTrustKeepRunning && differ (td_Outcome d) RuntimeTrustRenewRequired &&
             differ (td_Outcome d) RuntimeTrustRevoke) (ErrNew ("unsupported runtime trust outcome " +:+ td_Outcome d)).

Definition SignRuntimeTrustDecision (decision : RuntimeTrustDecision) (privateKey : string) : result SignedRuntimeTrustDecision :=
  sign_document (ValidateRuntimeTrustDecision decision) "runtime trust authority private key is invalid" decision decision privateKey.

Definition VerifySignedRuntimeTrustDecision (signed : SignedRuntimeTrustDecision) (publicKey : string) : option error :=
  verify_document "runtime trust authority public key is invalid" (ValidateRuntimeTrustDecision (sg_Document signed)) signed publicKey.
End TrustDecisions.

Definition SignedRuntimeTrustDecisionDigest (signed : SignedRuntimeTrustDecision) : result string := digest_document signed.

(** * Evaluating a lease *)

Record RuntimeTrustEvaluationPolicy (X : Type) : Type := {
  te_LifecycleAuthorityKey : string; te_LifecycleAuthorityID : string; te_RemoteVerifierPublicKey : string;
  te_HostAttestorPublicKey : string; te_PolicyDigest : string; te_MaxClockSkew : duration; te_Now : option (X → time * X) }.
Arguments te_LifecycleAuthorityKey {X} _.
Arguments te_LifecycleAuthorityID {X} _.
Arguments te_RemoteVerifierPublicKey {X} _.
Arguments te_HostAttestorPublicKey {X} _.
Arguments te_PolicyDigest {X} _.
Arguments te_MaxClockSkew {X} _.
Arguments te_Now {X} _.

Definition trust_rolled_back (state : WorkloadLifecycleState) (receipt : WorkloadActivationReceipt) (lease : RuntimeTrustLease)
    (activationDigest leaseDigest : string) : bool :=
  differ (tl_DeviceID lease) (ls_DeviceID state) || differ (tl_WorkloadID lease) (ls_WorkloadID state) ||
  negb (tl_Generation lease =? ls_Generation state) || negb (tl_LifecycleEpoch lease =? EffectiveLifecycleEpoch state) ||
  differ (tl_ActivationDigest lease) activationDigest || differ (tl_WorkloadSpecDigest lease) (ac_WorkloadSpecDigest receipt) ||
  negb (tl_TargetCgroupID lease =? ac_TargetCgroupID receipt) || negb (same_path (tl_TargetCgroup lease) (ac_TargetCgroup receipt)) ||
  differ (ls_ActivationDigest state) activationDigest || negb (ls_RuntimeTrustEpoch state =? tl_LeaseEpoch lease) ||
  differ (ls_RuntimeTrustLeaseDigest state) leaseDigest.

(** What the lease alone leads to. *)
Definition lease_outcome (lease : RuntimeTrustLease) (expired : bool) (policyDigest : string) : string * list string :=
  if differ (tl_PolicyDigest lease) policyDigest then (RuntimeTrustRevoke, ["RUNTIME_POLICY_SUPERSEDED"])
  else if expired then (RuntimeTrustRevoke, ["RUNTIME_TRUST_LEASE_EXPIRED"])
  else (RuntimeTrustKeepRunning, ["RUNTIME_TRUST_LEASE_VALID"]).

(** What remote evidence makes of it. *)
Definition remote_outcome (state : WorkloadLifecycleState) (lease : RuntimeTrustLease) (remote : RemoteAttestationDecision)
    (remoteDigest : string) (outcome : string * list string) : string * list string :=
  if differ (ra_DeviceID remote) (ls_DeviceID state) || differ (ra_BootstrapDigest remote) (tl_BootstrapDigest lease)
  then (RuntimeTrustRevoke, ["RUNTIME_REMOTE_IDENTITY_CHANGED"])
  else if differ (ra_Decision remote) "ALLOW" then (RuntimeTrustRevoke, "RUNTIME_REMOTE_BLOCK" :: ra_ReasonCodes remote)
  else if str_eqb outcome.1 RuntimeTrustKeepRunning && After (gt_instant (ra_VerifiedAt remote)) (gt_instant (tl_RemoteVerifiedAt lease)) &&
          differ remoteDigest (tl_RemoteDecisionDigest lease)
  then (RuntimeTrustRenewRequired, ["NEWER_REMOTE_EVIDENCE_AVAILABLE"])
  else outcome.

Section Evaluate.
Context `{!MapRange, !Ed25519} {X : Type} `{!GoWorld X}.

Definition remote_evidence (state : WorkloadLifecycleState) (lease : RuntimeTrustLease) (remote : option SignedRemoteAttestationDecision)
    (policy : RuntimeTrustEvaluationPolicy X) (outcome : string * list string) (now : time) : result (string * (string * list string)) :=
  match remote with
  | None => Ok ("", outcome)
  | Some remote =>
      match
        guard_err (negb (is_public_key (te_RemoteVerifierPublicKey policy)))
          (ErrNew "remote verifier public key is required when runtime remote evidence is supplied") ;;?
        VerifySignedRemoteAttestationDecision remote (te_RemoteVerifierPublicKey policy)
      with
      | Some err => Error err
      | None =>
          remoteDigest ← SignedRemoteAttestationDecisionDigest remote;
          let decision := sg_Document remote in
          if gt_IsZero (ra_VerifiedAt decision) ||
             After (gt_instant (ra_VerifiedAt decision)) (Add now (or_default (te_MaxClockSkew policy) DefaultRuntimeClockSkew))
          then Error ErrRuntimeTrustInvalid
          else if differ remoteDigest (tl_RemoteDecisionDigest lease) &&
                  negb (After (gt_instant (ra_VerifiedAt decision)) (gt_instant (tl_RemoteVerifiedAt lease)))
          then Error ErrRuntimeTrustRollback
          else Ok (remoteDigest, remote_outcome state lease decision remoteDigest outcome)
      end
  end.

(** The documents of an evaluation; gives the digests of the activation, of the
    lease and of the remote evidence, and the outcome. *)
Definition trust_evidence (state : WorkloadLifecycleState) (activation : SignedWorkloadActivationReceipt)
    (lease : SignedRuntimeTrustLease) (currentRemote : option SignedRemoteAttestationDecision) (policy : RuntimeTrustEvaluationPolicy X)
    (now : time) : result (string * string * string * (string * list string)) :=
  match
    ValidateWorkloadLifecycleState state ;;?
    guard_err (differ (ls_State state) LifecycleStateRunning || (ls_RuntimeTrustEpoch state =? 0) ||
               str_eqb (ls_RuntimeTrustLeaseDigest state) "") ErrRuntimeTrustInvalid ;;?
    guard_err (negb (is_private_key (te_LifecycleAuthorityKey policy)) || negb (is_public_key (te_HostAttestorPublicKey policy)))
      (ErrNew "runtime trust evaluation keys are incomplete") ;;?
    check_digest (ErrWrap "runtime trust evaluation policy digest") (te_PolicyDigest policy) ;;?
    VerifySignedWorkloadActivationReceipt activation (te_HostAttestorPublicKey policy) ;;?
    VerifySignedRuntimeTrustLease lease (ed25519_Public (te_LifecycleAuthorityKey policy)) 0
  with
  | Some err => Error err
  | None =>
      let l := sg_Document lease in
      let leaseValidationErr := ValidateRuntimeTrustLease l now in
      activationDigest ← SignedWorkloadActivationReceiptDigest activation;
      leaseDigest ← SignedRuntimeTrustLeaseDigest lease;
      if trust_rolled_back state (sg_Document activation) l activationDigest leaseDigest then Error ErrRuntimeTrustRollback
      else
        expired ← match leaseValidationErr with
          | None => Ok false
          | Some err => if errors_Is err ErrRuntimeTrustLeaseExpired then Ok true else Error err
          end;
        '(remoteDigest, outcome) ← remote_evidence state l currentRemote policy (lease_outcome l expired (te_PolicyDigest policy)) now;
        Ok (activationDigest, leaseDigest, remoteDigest, outcome)
  end.

Definition EvaluateRuntimeTrust (state : WorkloadLifecycleState) (activation : SignedWorkloadActivationReceipt)
    (lease : SignedRuntimeTrustLease) (currentRemote : option SignedRemoteAttestationDecision) (policy : RuntimeTrustEvaluationPolicy X)
    : IO X (result SignedRuntimeTrustDecision) :=
  now ← policy_now (te_Now policy);
  let state := NormalizeWorkloadLifecycleState state in
  match trust_evidence state activation lease currentRemote policy now with
  | Error err => mret (Error err)
  | Ok (activationDigest, leaseDigest, remoteDigest, (outcome, reasons)) =>
      try (randomToken 24) unwrapped (λ decisionID,
      let authorityID := TrimSpace (te_LifecycleAuthorityID policy) in
      if str_eqb authorityID "" then mret (Error (ErrNew "runtime trust lifecycle authority id is required"))
      else
        mret (SignRuntimeTrustDecision {|
          td_Version := RuntimeTrustDecisionVersion; td_DecisionID := decisionID; td_DeviceID := ls_DeviceID state;
          td_WorkloadID := ls_WorkloadID state; td_Generation := ls_Generation state; td_LifecycleEpoch := EffectiveLifecycleEpoch state;
          td_ActivationDigest := activationDigest; td_RuntimeLeaseDigest := leaseDigest;
          td_RuntimeLeaseEpoch := tl_LeaseEpoch (sg_Document lease); td_PolicyDigest := te_PolicyDigest policy;
          td_RemoteDecisionDigest := remoteDigest; td_TargetCgroup := filepath_Clean (ac_TargetCgroup (sg_Document activation));
          td_TargetCgroupID := ac_TargetCgroupID (sg_Document activation); td_Outcome := outcome; td_ReasonCodes := reasons;
          td_DecidedAt := utc now; td_AuthorityID := authorityID |} (te_LifecycleAuthorityKey policy)))
  end.
End Evaluate.

(** * Reconciling a revoked workload *)

(** The decision, the observation and the activation belong to the state. *)
Definition revocation_mismatch (state : WorkloadLifecycleState) (receipt : WorkloadActivationReceipt) (d : RuntimeTrustDecision)
    (obs : WorkloadRecoveryObservation) (activationDigest runtimeDigest : string) : bool :=
  differ (td_DeviceID d) (ls_DeviceID state) || differ (td_WorkloadID d) (ls_WorkloadID state) ||
  negb (td_Generation d =? ls_Generation state) || negb (td_LifecycleEpoch d =? EffectiveLifecycleEpoch state) ||
  differ (td_ActivationDigest d) activationDigest || negb (td_RuntimeLeaseEpoch d =? ls_RuntimeTrustEpoch state) ||
  differ (td_RuntimeLeaseDigest d) (ls_RuntimeTrustLeaseDigest state) || negb (td_TargetCgroupID d =? ac_TargetCgroupID receipt) ||
  negb (same_path (td_TargetCgroup d) (ac_TargetCgroup receipt)) || differ (ls_ActivationDigest state) activationDigest ||
  differ (ob_State obs) RecoveryObservationRuntimeTrustRevoked || differ (ob_RuntimeTrustDecisionDigest obs) runtimeDigest ||
  differ (ob_DeviceID obs) (ls_DeviceID state) || differ (ob_WorkloadID obs) (ls_WorkloadID state) ||
  negb (ob_Generation obs =? ls_Generation state) || differ (ob_ActivationID obs) (ac_ActivationID receipt) ||
  differ (ob_ActivationDigest obs) activationDigest || negb (ob_ProcessID obs =? ac_ProcessID receipt) ||
  negb (ob_ExpectedCgroupID obs =? ac_TargetCgroupID receipt) || negb (same_path (ob_ExpectedCgroup obs) (ac_TargetCgroup receipt)) ||
  negb (ob_ObservedCgroupID obs =? ac_TargetCgroupID receipt) || negb (same_path (ob_ObservedCgroup obs) (ac_TargetCgroup receipt)) ||
  Before (gt_instant (ob_ObservedAt obs)) (gt_instant (td_DecidedAt d)).

(** The process of the activation is the expected and the observed one. *)
Definition observes_process (receipt : WorkloadActivationReceipt) (obs : WorkloadRecoveryObservation) : bool :=
  is_v2 receipt &&
  match ac_ProcessIdentity receipt, ob_ExpectedProcessIdentity obs, ob_ObservedProcessIdentity obs with
  | Some identity, Some expected, Some observed => bool_decide (expected = identity) && bool_decide (observed = identity)
  | _, _, _ => false
  end.

Section Revoked.
Context `{!MapRange, !Ed25519} {X : Type} `{!GoWorld X}.

Definition revocation_evidence (state : WorkloadLifecycleState) (activation : SignedWorkloadActivationReceipt)
    (observation : SignedWorkloadRecoveryObservation) (runtimeDecision : SignedRuntimeTrustDecision)
    (hostAttestorPublicKey lifecycleAuthorityKey authorityID : string) : result (string * string) :=
  match
    ValidateWorkloadLifecycleState state ;;?
    guard_err (differ (ls_State state) LifecycleStateRunning) ErrReconciliationRejected ;;?
    guard_err (negb (is_private_key lifecycleAuthorityKey) || negb (is_public_key hostAttestorPublicKey))
      (ErrNew "runtime trust reconciliation keys are incomplete") ;;?
    guard_err (str_eqb authorityID "") (ErrNew "lifecycle authority id is required") ;;?
    VerifySignedRuntimeTrustDecision runtimeDecision (ed25519_Public lifecycleAuthorityKey) ;;?
    guard_err (differ (td_Outcome (sg_Document runtimeDecision)) RuntimeTrustRevoke) ErrRuntimeTrustRevokeRequired ;;?
    VerifySignedWorkloadActivationReceipt activation hostAttestorPublicKey ;;?
    VerifySignedWorkloadRecoveryObservation observation hostAttestorPublicKey
  with
  | Some err => Error err
  | None =>
      activationDigest ← SignedWorkloadActivationReceiptDigest activation;
      runtimeDigest ← SignedRuntimeTrustDecisionDigest runtimeDecision;
      observationDigest ← SignedWorkloadRecoveryObservationDigest observation;
      if revocation_mismatch state (sg_Document activation) (sg_Document runtimeDecision) (sg_Document observation) activationDigest
           runtimeDigest || negb (observes_process (sg_Document activation) (sg_Document observation))
      then Error ErrLifecycleInvalidLineage else Ok (activationDigest, observationDigest)
  end.

Definition EvaluateRuntimeTrustReconciliation (state : WorkloadLifecycleState) (activation : SignedWorkloadActivationReceipt)
    (observation : SignedWorkloadRecoveryObservation) (runtimeDecision : SignedRuntimeTrustDecision)
    (hostAttestorPublicKey lifecycleAuthorityKey lifecycleAuthorityID : string) (now : time)
    : IO X (result SignedWorkloadReconciliationDecision) :=
  now ← now_or now;
  let state := NormalizeWorkloadLifecycleState state in
  let authorityID := TrimSpace lifecycleAuthorityID in
  match revocation_evidence state activation observation runtimeDecision hostAttestorPublicKey lifecycleAuthorityKey authorityID with
  | Error err => mret (Error err)
  | Ok (activationDigest, observationDigest) =>
      try (randomToken 24) unwrapped (λ decisionID,
      mret (SignWorkloadReconciliationDecision (reconciliation_decision state activationDigest observationDigest ReconciliationQuarantine
        ["RUNTIME_TRUST_REVOKED"; "KERNEL_NETWORK_SCOPE_REVOKED"] (ob_ObservedAt (sg_Document observation)) now authorityID decisionID)
        lifecycleAuthorityKey))
  end.
End Revoked.

(** * Evidence that a lease expired *)

Definition RuntimeTrustExpiryEvidenceVersion : string := "aegis.ege/runtime-trust-expiry-evidence/v1".
Definition RuntimeExpiryProcessRunning : string := "MATCH_RUNNING".
Definition RuntimeExpiryProcessAbsent : string := "ABSENT".
Definition RuntimeExpiryProcessPIDReused : string := "PID_REUSED".
Definition RuntimeExpiryProcessCgroupMismatch : string := "CGROUP_MISMATCH".
Definition ErrRuntimeTrustDeadlineNotReached : error := ErrNew "runtime trust monotonic deadline has not been reached".
Definition ErrRuntimeTrustBootChanged : error := ErrNew "runtime trust boot identity changed".

Record RuntimeTrustExpiryEvidence : Type := {
  ee_Version : string; ee_EvidenceID : string; ee_DeviceID : string; ee_WorkloadID : string; ee_Generation : Z; ee_LifecycleEpoch : Z;
  ee_ActivationDigest : string; ee_RuntimeTrustLeaseDigest : string; ee_RuntimeTrustLeaseEpoch : Z; ee_RuntimeTrustExpiresAt : gotime;
  ee_RuntimeTrustBootIDHash : string; ee_RuntimeTrustInstalledBootNS : Z; ee_RuntimeTrustDeadlineBootNS : Z;
  ee_ObservedBootIDHash : string; ee_ObservedBootNS : Z; ee_TargetCgroup : string; ee_TargetCgroupID : Z; ee_ActionClass : Z;
  ee_KernelFenceBootIDHash : string; ee_KernelAuthorityTerm : Z; ee_KernelDecisionEpoch : Z; ee_KernelPreviousRevocationEpoch : Z;
  ee_KernelRevocationEpoch : Z; ee_ProcessID : Z; ee_ExpectedProcessIdentity : option LinuxProcessIdentity;
  ee_ObservedProcessIdentity : option LinuxProcessIdentity; ee_ObservedCgroup : string; ee_ObservedCgroupID : Z; ee_ProcessState : string;
  ee_ObservedAt : gotime }.

Definition expiry_json (e : RuntimeTrustExpiryEvidence) : result json :=
  expires ← gotime_json (ee_RuntimeTrustExpiresAt e); observed ← gotime_json (ee_ObservedAt e);
  Ok (object [string_field "version" (ee_Version e); string_field "evidence_id" (ee_EvidenceID e); string_field "device_id" (ee_DeviceID e);
    string_field "workload_id" (ee_WorkloadID e); number_field "generation" (ee_Generation e);
    number_field "lifecycle_epoch" (ee_LifecycleEpoch e); string_field "activation_digest" (ee_ActivationDigest e);
    string_field "runtime_trust_lease_digest" (ee_RuntimeTrustLeaseDigest e);
    number_field "runtime_trust_lease_epoch" (ee_RuntimeTrustLeaseEpoch e); ("runtime_trust_expires_at", Some expires);
    string_field "runtime_trust_boot_id_hash" (ee_RuntimeTrustBootIDHash e);
    number_field "runtime_trust_installed_boot_ns" (ee_RuntimeTrustInstalledBootNS e);
    number_field "runtime_trust_deadline_boot_ns" (ee_RuntimeTrustDeadlineBootNS e);
    string_field "observed_boot_id_hash" (ee_ObservedBootIDHash e); number_field "observed_boot_ns" (ee_ObservedBootNS e);
    string_field "target_cgroup" (ee_TargetCgroup e); number_field "target_cgroup_id" (ee_TargetCgroupID e);
    number_field "action_class" (ee_ActionClass e); string_field "kernel_fence_boot_id_hash" (ee_KernelFenceBootIDHash e);
    number_field "kernel_authority_term" (ee_KernelAuthorityTerm e); number_field "kernel_decision_epoch" (ee_KernelDecisionEpoch e);
    number_field "kernel_previous_revocation_epoch" (ee_KernelPreviousRevocationEpoch e);
    number_field "kernel_revocation_epoch" (ee_KernelRevocationEpoch e); number_field "process_id" (ee_ProcessID e);
    ("expected_process_identity", Some (default JNull (identity_json <$> ee_ExpectedProcessIdentity e)));
    ("observed_process_identity", identity_json <$> ee_ObservedProcessIdentity e);
    ("observed_cgroup", omit_string (ee_ObservedCgroup e)); ("observed_cgroup_id", omit_number (ee_ObservedCgroupID e));
    string_field "process_state" (ee_ProcessState e); ("observed_at", Some observed)]).

Definition normalized_expiry (e : RuntimeTrustExpiryEvidence) : RuntimeTrustExpiryEvidence := {|
  ee_Version := ee_Version e; ee_EvidenceID := ee_EvidenceID e; ee_DeviceID := ee_DeviceID e; ee_WorkloadID := ee_WorkloadID e;
  ee_Generation := ee_Generation e; ee_LifecycleEpoch := ee_LifecycleEpoch e; ee_ActivationDigest := ee_ActivationDigest e;
  ee_RuntimeTrustLeaseDigest := ee_RuntimeTrustLeaseDigest e; ee_RuntimeTrustLeaseEpoch := ee_RuntimeTrustLeaseEpoch e;
  ee_RuntimeTrustExpiresAt := UTC (ee_RuntimeTrustExpiresAt e); ee_RuntimeTrustBootIDHash := ee_RuntimeTrustBootIDHash e;
  ee_RuntimeTrustInstalledBootNS := ee_RuntimeTrustInstalledBootNS e; ee_RuntimeTrustDeadlineBootNS := ee_RuntimeTrustDeadlineBootNS e;
  ee_ObservedBootIDHash := ee_ObservedBootIDHash e; ee_ObservedBootNS := ee_ObservedBootNS e;
  ee_TargetCgroup := filepath_Clean (ee_TargetCgroup e); ee_TargetCgroupID := ee_TargetCgroupID e; ee_ActionClass := ee_ActionClass e;
  ee_KernelFenceBootIDHash := ee_KernelFenceBootIDHash e; ee_KernelAuthorityTerm := ee_KernelAuthorityTerm e;
  ee_KernelDecisionEpoch := ee_KernelDecisionEpoch e; ee_KernelPreviousRevocationEpoch := ee_KernelPreviousRevocationEpoch e;
  ee_KernelRevocationEpoch := ee_KernelRevocationEpoch e; ee_ProcessID := ee_ProcessID e;
  ee_ExpectedProcessIdentity := ee_ExpectedProcessIdentity e; ee_ObservedProcessIdentity := ee_ObservedProcessIdentity e;
  ee_ObservedCgroup := (if str_eqb (ee_ObservedCgroup e) "" then "" else filepath_Clean (ee_ObservedCgroup e));
  ee_ObservedCgroupID := ee_ObservedCgroupID e; ee_ProcessState := ee_ProcessState e; ee_ObservedAt := UTC (ee_ObservedAt e) |}.

#[export] Instance RuntimeTrustExpiryEvidence_document : Document RuntimeTrustExpiryEvidence := {
  doc_json := expiry_json;
  doc_normalize := normalized_expiry;
  doc_domain _ := "aegis-ege/runtime-trust-expiry-evidence/v1" +:+ nul;
  doc_payload_error := unwrapped;
  doc_field := "evidence";
  doc_signed_domain := "aegis-ege/signed-runtime-trust-expiry-evidence/v1" +:+ nul;
  doc_incomplete := "signed runtime trust expiry evidence is incomplete";
  doc_digest_error := unwrapped }.

Abbreviation SignedRuntimeTrustExpiryEvidence := (Signed RuntimeTrustExpiryEvidence).

(** The observed process is the expected one. *)
Definition expiry_same_process (e : RuntimeTrustExpiryEvidence) : bool :=
  match ee_ObservedProcessIdentity e, ee_ExpectedProcessIdentity e with
  | Some observed, Some expected => bool_decide (observed = expected)
  | _, _ => false
  end.

Definition expiry_same_cgroup (e : RuntimeTrustExpiryEvidence) : bool :=
  (ee_ObservedCgroupID e =? ee_TargetCgroupID e) && str_eqb (filepath_Clean (ee_ObservedCgroup e)) (ee_TargetCgroup e).

Definition expiry_observed (e : RuntimeTrustExpiryEvidence) : bool :=
  match ee_ObservedProcessIdentity e with Some _ => true | None => false end.

(** What the process state demands of the rest. *)
Definition expiry_process_invalid (e : RuntimeTrustExpiryEvidence) : option error :=
  if str_eqb (ee_ProcessState e) RuntimeExpiryProcessRunning then
    guard_err (negb (expiry_same_process e && expiry_same_cgroup e)) (ErrNew "MATCH_RUNNING expiry evidence is inconsistent")
  else if str_eqb (ee_ProcessState e) RuntimeExpiryProcessAbsent then
    guard_err (expiry_observed e || negb (ee_ObservedCgroupID e =? 0) || negb (str_eqb (ee_ObservedCgroup e) ""))
      (ErrNew "ABSENT expiry evidence is inconsistent")
  else if str_eqb (ee_ProcessState e) RuntimeExpiryProcessPIDReused then
    guard_err (negb (expiry_observed e) || expiry_same_process e) (ErrNew "PID_REUSED expiry evidence is inconsistent")
  else if str_eqb (ee_ProcessState e) RuntimeExpiryProcessCgroupMismatch then
    guard_err (negb (expiry_same_process e) || expiry_same_cgroup e) (ErrNew "CGROUP_MISMATCH expiry evidence is inconsistent")
  else Some (ErrNew ("unsupported runtime trust expiry process state " +:+ ee_ProcessState e)).

Definition identity_at_boot (identity : option LinuxProcessIdentity) (bootIDHash : string) : option error :=
  match identity with
  | None => None
  | Some identity =>
      ValidateLinuxProcessIdentity identity ;;? guard_err (differ (pi_BootIDHash identity) bootIDHash) ErrRuntimeTrustBootChanged
  end.

Section Expiry.
Context `{!MapRange, !Ed25519} {X : Type} `{!GoWorld X}.

Definition ValidateRuntimeTrustExpiryEvidence (e : RuntimeTrustExpiryEvidence) : option error :=
  guard_err (negb (str_eqb (ee_Version e) RuntimeTrustExpiryEvidenceVersion) || blank (ee_EvidenceID e) || blank (ee_DeviceID e) ||
             blank (ee_WorkloadID e) || (ee_Generation e =? 0) || (ee_LifecycleEpoch e =? 0) || (ee_RuntimeTrustLeaseEpoch e =? 0) ||
             gt_IsZero (ee_RuntimeTrustExpiresAt e) || (ee_RuntimeTrustInstalledBootNS e =? 0) ||
             (ee_RuntimeTrustDeadlineBootNS e =? 0) || (ee_RuntimeTrustDeadlineBootNS e <=? ee_RuntimeTrustInstalledBootNS e) ||
             (ee_ObservedBootNS e <? ee_RuntimeTrustDeadlineBootNS e) || (ee_TargetCgroupID e =? 0) ||
             negb (ee_ActionClass e =? ActionClassNetworkConnect) || (ee_KernelAuthorityTerm e =? 0) || (ee_KernelDecisionEpoch e =? 0) ||
             (ee_KernelRevocationEpoch e =? 0) || negb (ee_KernelRevocationEpoch e =? wrap_u64 (ee_KernelPreviousRevocationEpoch e + 1)) ||
             (ee_ProcessID e <=? 0) || match ee_ExpectedProcessIdentity e with None => true | Some _ => false end ||
             gt_IsZero (ee_ObservedAt e)) (ErrNew "runtime trust expiry evidence is incomplete") ;;?
  check_digests [("activation_digest", ee_ActivationDigest e); ("runtime_trust_lease_digest", ee_RuntimeTrustLeaseDigest e);
                 ("runtime_trust_boot_id_hash", ee_RuntimeTrustBootIDHash e); ("observed_boot_id_hash", ee_ObservedBootIDHash e);
                 ("kernel_fence_boot_id_hash", ee_KernelFenceBootIDHash e)] ;;?
  guard_err (differ (ee_RuntimeTrustBootIDHash e) (ee_ObservedBootIDHash e) ||
             differ (ee_KernelFenceBootIDHash e) (ee_ObservedBootIDHash e)) ErrRuntimeTrustBootChanged ;;?
  guard_err (negb (clean_absolute (ee_TargetCgroup e))) (ErrNew "runtime trust expiry target cgroup must be a clean absolute path") ;;?
  identity_at_boot (ee_ExpectedProcessIdentity e) (ee_ObservedBootIDHash e) ;;?
  identity_at_boot (ee_ObservedProcessIdentity e) (ee_ObservedBootIDHash e) ;;?
  expiry_process_invalid e.

Definition SignRuntimeTrustExpiryEvidence (e : RuntimeTrustExpiryEvidence) (privateKey : string) : result SignedRuntimeTrustExpiryEvidence :=
  sign_document (ValidateRuntimeTrustExpiryEvidence e) "host runtime watchdog private key is invalid" e e privateKey.

Definition VerifySignedRuntimeTrustExpiryEvidence (signed : SignedRuntimeTrustExpiryEvidence) (publicKey : string) : option error :=
  verify_document "host runtime watchdog public key is invalid" (ValidateRuntimeTrustExpiryEvidence (sg_Document signed)) signed publicKey.

Definition SignedRuntimeTrustExpiryEvidenceDigest (signed : SignedRuntimeTrustExpiryEvidence) : result string := digest_document signed.

(** * Reconciling an expired workload *)

Definition expiry_mismatch (state : WorkloadLifecycleState) (receipt : WorkloadActivationReceipt) (l : RuntimeTrustLease)
    (e : RuntimeTrustExpiryEvidence) (activationDigest leaseDigest : string) : bool :=
  differ (ls_DeviceID state) (ac_DeviceID receipt) || differ (ls_WorkloadID state) (ac_WorkloadID receipt) ||
  differ (ls_ActivationDigest state) activationDigest || negb (ls_RuntimeTrustEpoch state =? tl_LeaseEpoch l) ||
  negb (ls_RuntimeTrustEpoch state =? ee_RuntimeTrustLeaseEpoch e) || differ (ls_RuntimeTrustLeaseDigest state) leaseDigest ||
  differ (ls_RuntimeTrustLeaseDigest state) (ee_RuntimeTrustLeaseDigest e) ||
  negb (gt_instant (ls_RuntimeTrustExpiresAt state) =? gt_instant (tl_ExpiresAt l)) ||
  negb (gt_instant (ls_RuntimeTrustExpiresAt state) =? gt_instant (ee_RuntimeTrustExpiresAt e)) ||
  differ (ls_RuntimeTrustBootIDHash state) (ee_RuntimeTrustBootIDHash e) ||
  negb (ls_RuntimeTrustInstalledBootNS state =? ee_RuntimeTrustInstalledBootNS e) ||
  negb (ls_RuntimeTrustDeadlineBootNS state =? ee_RuntimeTrustDeadlineBootNS e) || differ (tl_DeviceID l) (ls_DeviceID state) ||
  differ (tl_WorkloadID l) (ls_WorkloadID state) || negb (tl_Generation l =? ls_Generation state) ||
  negb (tl_LifecycleEpoch l =? EffectiveLifecycleEpoch state) || differ (tl_ActivationDigest l) activationDigest ||
  differ (tl_WorkloadSpecDigest l) (ac_WorkloadSpecDigest receipt) || negb (tl_TargetCgroupID l =? ac_TargetCgroupID receipt) ||
  negb (same_path (tl_TargetCgroup l) (ac_TargetCgroup receipt)) || differ (ee_DeviceID e) (ls_DeviceID state) ||
  differ (ee_WorkloadID e) (ls_WorkloadID state) || negb (ee_Generation e =? ls_Generation state) ||
  negb (ee_LifecycleEpoch e =? EffectiveLifecycleEpoch state) || differ (ee_ActivationDigest e) activationDigest ||
  negb (ee_TargetCgroupID e =? ac_TargetCgroupID receipt) || negb (same_path (ee_TargetCgroup e) (ac_TargetCgroup receipt)).

(** The process of the activation is the one the evidence expects. *)
Definition expiry_expects (receipt : WorkloadActivationReceipt) (e : RuntimeTrustExpiryEvidence) : bool :=
  is_v2 receipt &&
  match ac_ProcessIdentity receipt, ee_ExpectedProcessIdentity e with
  | Some identity, Some expected => bool_decide (expected = identity)
  | _, _ => false
  end.

Definition expiry_outcome (processState : string) : result (string * list string) :=
  let reasons := ["RUNTIME_TRUST_LEASE_EXPIRED"; "KERNEL_NETWORK_SCOPE_REVOKED"] in
  if str_eqb processState RuntimeExpiryProcessRunning
  then Ok (ReconciliationQuarantine, reasons ++ ["EXPIRED_WORKLOAD_STILL_RUNNING"])
  else if str_eqb processState RuntimeExpiryProcessCgroupMismatch
  then Ok (ReconciliationQuarantine, reasons ++ ["EXPIRED_WORKLOAD_CGROUP_MISMATCH"])
  else if str_eqb processState RuntimeExpiryProcessAbsent
  then Ok (ReconciliationMarkExitedUnknown, reasons ++ ["WORKLOAD_ABSENT_AFTER_EXPIRY"])
  else if str_eqb processState RuntimeExpiryProcessPIDReused
  then Ok (ReconciliationMarkExitedUnknown, reasons ++ ["ORIGINAL_WORKLOAD_GONE_PID_REUSED"])
  else Error ErrRuntimeTrustInvalid.

Definition expiry_evidence (state : WorkloadLifecycleState) (activation : SignedWorkloadActivationReceipt)
    (lease : SignedRuntimeTrustLease) (expiry : SignedRuntimeTrustExpiryEvidence)
    (hostAttestorPublicKey lifecycleAuthorityKey authorityID : string) : result (string * string * (string * list string)) :=
  match
    ValidateWorkloadLifecycleState state ;;?
    guard_err (differ (ls_State state) LifecycleStateRunning || (ls_RuntimeTrustEpoch state =? 0) ||
               str_eqb (ls_RuntimeTrustLeaseDigest state) "") ErrReconciliationRejected ;;?
    guard_err (negb (is_private_key lifecycleAuthorityKey) || negb (is_public_key hostAttestorPublicKey))
      (ErrNew "runtime trust expiry reconciliation keys are incomplete") ;;?
    guard_err (str_eqb authorityID "") (ErrNew "lifecycle authority id is required") ;;?
    VerifySignedRuntimeTrustLease lease (ed25519_Public lifecycleAuthorityKey) 0 ;;?
    VerifySignedWorkloadActivationReceipt activation hostAttestorPublicKey ;;?
    VerifySignedRuntimeTrustExpiryEvidence expiry hostAttestorPublicKey
  with
  | Some err => Error err
  | None =>
      activationDigest ← SignedWorkloadActivationReceiptDigest activation;
      leaseDigest ← SignedRuntimeTrustLeaseDigest lease;
      expiryDigest ← SignedRuntimeTrustExpiryEvidenceDigest expiry;
      let receipt := sg_Document activation in
      let e := sg_Document expiry in
      if expiry_mismatch state receipt (sg_Document lease) e activationDigest leaseDigest || negb (expiry_expects receipt e)
      then Error ErrLifecycleInvalidLineage
      else outcome ← expiry_outcome (ee_ProcessState e); Ok (activationDigest, expiryDigest, outcome)
  end.

Definition EvaluateRuntimeTrustExpiryReconciliation (state : WorkloadLifecycleState) (activation : SignedWorkloadActivationReceipt)
    (lease : SignedRuntimeTrustLease) (expiry : SignedRuntimeTrustExpiryEvidence)
    (hostAttestorPublicKey lifecycleAuthorityKey lifecycleAuthorityID : string) (now : time)
    : IO X (result SignedWorkloadReconciliationDecision) :=
  now ← now_or now;
  let state := NormalizeWorkloadLifecycleState state in
  let authorityID := TrimSpace lifecycleAuthorityID in
  match expiry_evidence state activation lease expiry hostAttestorPublicKey lifecycleAuthorityKey authorityID with
  | Error err => mret (Error err)
  | Ok (activationDigest, expiryDigest, (outcome, reasons)) =>
      try (randomToken 24) unwrapped (λ decisionID,
      mret (SignWorkloadReconciliationDecision (reconciliation_decision state activationDigest expiryDigest outcome reasons
        (ee_ObservedAt (sg_Document expiry)) now authorityID decisionID) lifecycleAuthorityKey))
  end.
End Expiry.
