(* ===== verification/Indented.v ===== *)
(** * Indented JSON

    [json.MarshalIndent] with an empty prefix and an indent of two spaces: the
    text it writes is read back as the value it was written from, like the
    compact text of [Json.v]. *)

From S2P Require Import Prelude Crypto Format Json Unmarshal.
Local Open Scope Z_scope.

(** A new line at a depth. *)
Fixpoint spaces (depth : nat) : string := match depth with O => "" | S depth => "  " +:+ spaces depth end.
Definition line_at (depth : nat) : string := String "010" (spaces depth).

Section Sequences.
Context (enc : json → string) (line : string).

Fixpoint indented_elements (l : list json) : string :=
  match l with
  | [] => ""
  | [v] => enc v
  | v :: l' => enc v +:+ String "," (line +:+ indented_elements l')
  end.

Fixpoint indented_members (l : list (string * json)) : string :=
  match l with
  | [] => ""
  | [(k, v)] => quoted (escape k) +:+ String ":" (String " " (enc v))
  | (k, v) :: l' => quoted (escape k) +:+ String ":" (String " " (enc v +:+ String "," (line +:+ indented_members l')))
  end.
End Sequences.

Fixpoint indent (depth : nat) (v : json) : string :=
  match v with
  | JArray ((_ :: _) as l) =>
      String "[" (line_at (S depth) +:+ indented_elements (indent (S depth)) (line_at (S depth)) l +:+ line_at depth +:+ "]")
  | JObject ((_ :: _) as fields) =>
      String "{" (line_at (S depth) +:+ indented_members (indent (S depth)) (line_at (S depth)) fields +:+ line_at depth +:+ "}")
  | _ => encode v
  end.

Example indent_sample :
  indent 0 (JObject [("a", JString "x"); ("n", JArray [JInt 1; JArray []; JObject [("b", JBool true)]])]) =
  "{" +:+ line_at 1 +:+ quoted "a" +:+ ": " +:+ quoted "x" +:+ "," +:+ line_at 1 +:+ quoted "n" +:+ ": [" +:+ line_at 2 +:+
  "1," +:+ line_at 2 +:+ "[]," +:+ line_at 2 +:+ "{" +:+ line_at 3 +:+ quoted "b" +:+ ": true" +:+ line_at 2 +:+ "}" +:+ line_at 1 +:+
  "]" +:+ line_at 0 +:+ "}".
Proof. vm_compute. reflexivity. Qed.

(** * Reading back *)

Lemma skip_spaces depth r : skip_space (spaces depth +:+ r) = skip_space r.
Proof. induction depth as [|depth IH]; [done|]. cbn [spaces]. rewrite <- string_app_assoc. exact IH. Qed.

Lemma skip_line depth r : skip_space (line_at depth +:+ r) = skip_space r.
Proof. unfold line_at. rewrite string_app_cons. apply skip_spaces. Qed.

Lemma line_ends depth r : number_end (line_at depth +:+ r) = true.
Proof. reflexivity. Qed.

(** The text of a value starts with its first character. *)
Lemma indent_head depth v : ∃ a s, indent depth v = String a s ∧ head_ok v a = true.
Proof. destruct v as [| | | |[]|[]]; cbn [indent]; try apply encode_head; by eexists _, _. Qed.

Lemma head_not_space v a : head_ok v a = true → json_space a = false ∧ Ascii.eqb a "]" = false.
Proof.
  destruct v as [|[]| | | |]; cbn [head_ok]; try by intros ->%Ascii.eqb_eq.
  destruct a as [[] [] [] [] [] [] [] []]; intros H; first [by split|discriminate H].
Qed.

Lemma skip_indent depth v r : skip_space (indent depth v +:+ r) = indent depth v +:+ r.
Proof.
  destruct (indent_head depth v) as (a & s & -> & Ha). rewrite string_app_cons. cbn [skip_space].
  by rewrite (proj1 (head_not_space v a Ha)).
Qed.

Definition indent_reads_back (v : json) : Prop := ∀ depth fuel d r,
  number_end r = true → (json_depth v ≤ d)%N → (2 * String.length (indent depth v) ≤ fuel)%nat →
  parse_value fuel d (indent depth v +:+ r) = Some (embed v, r).

Lemma indented_elements_cons enc line v l rest : indented_elements enc line (v :: l) +:+ rest =
  enc v +:+ match l with [] => rest | _ => String "," (line +:+ indented_elements enc line l +:+ rest) end.
Proof. destruct l; [done|]. cbn [indented_elements]. by rewrite <- string_app_assoc, string_app_cons, <- string_app_assoc. Qed.

Lemma indented_members_cons enc line k v l rest : indented_members enc line ((k, v) :: l) +:+ rest =
  quoted (escape k) +:+ String ":" (String " " (enc v +:+
    match l with [] => rest | _ => String "," (line +:+ indented_members enc line l +:+ rest) end)).
Proof.
  destruct l; cbn [indented_members]; rewrite <- string_app_assoc, !string_app_cons; [done|].
  by rewrite <- string_app_assoc, string_app_cons, <- string_app_assoc.
Qed.

Lemma indented_elements_read depth line_depth l : Forall indent_reads_back l → l ≠ [] → ∀ fuel d r,
  (foldr (λ v d, N.max (json_depth v) d) 0 l ≤ d)%N →
  (2 * String.length (indented_elements (indent depth) (line_at depth) l) < fuel)%nat →
  parse_elements fuel d (indented_elements (indent depth) (line_at depth) l +:+ line_at line_depth +:+ String "]" r) =
  Some (embed <$> l, r).
Proof.
  intros Hl. induction Hl as [|v l Hv Hl IH]; [done|]. intros _ fuel d r Hd Hf. cbn [foldr] in Hd. apply N.max_lub_iff in Hd as [Hd1 Hd2].
  destruct fuel as [|fuel]; [lia|]. rewrite indented_elements_cons, parse_elements_step.
  destruct l as [|w l].
  - cbn [indented_elements] in Hf. rewrite Hv; [|done|lia|lia]. cbn [mbind option_bind]. by rewrite skip_line.
  - change (indented_elements (indent depth) (line_at depth) (v :: w :: l)) with
      (indent depth v +:+ String "," (line_at depth +:+ indented_elements (indent depth) (line_at depth) (w :: l))) in Hf.
    rewrite string_length_app in Hf. cbn [String.length] in Hf. rewrite string_length_app in Hf. rewrite Hv; [|done|lia|lia].
    cbn [mbind option_bind skip_space json_space Ascii.eqb Bool.eqb orb].
    rewrite skip_line, indented_elements_cons, skip_indent, <- indented_elements_cons, IH; [done|done|lia|lia].
Qed.

Lemma indented_members_read depth line_depth l : Forall (λ kv, indent_reads_back kv.2) l → l ≠ [] → ∀ fuel d r,
  (foldr (λ kv d, N.max (json_depth kv.2) d) 0 l ≤ d)%N →
  (2 * String.length (indented_members (indent depth) (line_at depth) l) < fuel)%nat →
  parse_members fuel d (indented_members (indent depth) (line_at depth) l +:+ line_at line_depth +:+ String "}" r) =
  Some ((λ '(k, v), (coerce k, embed v)) <$> l, r).
Proof.
  intros Hl. induction Hl as [|[k v] l Hv Hl IH]; [done|]. intros _ fuel d r Hd Hf. cbn [foldr] in Hd. apply N.max_lub_iff in Hd as [Hd1 Hd2].
  destruct fuel as [|fuel]; [lia|]. rewrite indented_members_cons, parse_members_step.
  cbn [skip_space json_space Ascii.eqb Bool.eqb orb]. rewrite skip_indent. cbn [snd] in *.
  destruct l as [|[k' w] l].
  - cbn [indented_members] in Hf. rewrite string_length_app in Hf. cbn [String.length] in Hf.
    rewrite Hv; [|done|lia|lia]. cbn [mbind option_bind]. by rewrite skip_line.
  - change (indented_members (indent depth) (line_at depth) ((k, v) :: (k', w) :: l)) with
      (quoted (escape k) +:+ String ":" (String " " (indent depth v +:+ String ","
        (line_at depth +:+ indented_members (indent depth) (line_at depth) ((k', w) :: l))))) in Hf.
    rewrite string_length_app in Hf. cbn [String.length] in Hf. rewrite string_length_app in Hf. cbn [String.length] in Hf.
    rewrite string_length_app in Hf. rewrite Hv; [|done|lia|lia]. cbn [mbind option_bind skip_space json_space Ascii.eqb Bool.eqb orb].
    rewrite skip_line, indented_members_cons. change (skip_space (quoted (escape k') +:+ ?x)) with (quoted (escape k') +:+ x).
    rewrite <- indented_members_cons, IH; [done|done|lia|lia].
Qed.

Lemma indent_length depth v : (1 ≤ String.length (indent depth v))%nat.
Proof. destruct (indent_head depth v) as (a & s & -> & _). simpl. lia. Qed.

Lemma parse_indent_value v : indent_reads_back v.
Proof.
  induction v as [| | | |l IH|l IH] using json_nested; intros depth fuel d r Hr Hd Hf;
    [by apply parse_encode_value..| |].
  - destruct l as [|v l]; [by apply parse_encode_value|].
    destruct fuel as [|fuel]; [pose proof (indent_length depth (JArray (v :: l))); lia|].
    cbn [indent embed json_depth] in *. cbn [String.length] in Hf. rewrite !string_length_app in Hf. cbn [String.length] in Hf.
    rewrite string_app_cons, parse_value_open; [|lia|by left].
    rewrite <- !string_app_assoc, skip_line, string_app_cons. change ("" +:+ r) with r.
    pose proof (indented_elements_read (S depth) depth (v :: l) IH ltac:(done) fuel (d - 1)%N r ltac:(lia) ltac:(lia)) as Hread.
    rewrite indented_elements_cons, skip_indent, <- indented_elements_cons.
    destruct (indent_head (S depth) v) as (a & s & He & Ha). apply head_not_space in Ha as [_ Ha].
    rewrite indented_elements_cons, He, string_app_cons in Hread |- *. cbn [Ascii.eqb Bool.eqb]. by rewrite Ha, Hread.
  - destruct l as [|[k v] l]; [by apply parse_encode_value|].
    destruct fuel as [|fuel]; [pose proof (indent_length depth (JObject ((k, v) :: l))); lia|].
    cbn [indent embed json_depth] in *. cbn [String.length] in Hf. rewrite !string_length_app in Hf. cbn [String.length] in Hf.
    rewrite string_app_cons, parse_value_open; [|lia|by right].
    rewrite <- !string_app_assoc, skip_line, string_app_cons. change ("" +:+ r) with r.
    pose proof (indented_members_read (S depth) depth ((k, v) :: l) IH ltac:(done) fuel (d - 1)%N r ltac:(lia) ltac:(lia)) as Hread.
    rewrite indented_members_cons in Hread |- *. unfold quoted in Hread |- *. rewrite string_app_cons in Hread |- *.
    change (skip_space (String quote ?t)) with (String quote t). cbn [Ascii.eqb Bool.eqb quote].
    change (String "034" ?t) with (String quote t). by rewrite Hread.
Qed.

(** What [MarshalIndent] wrote is read as its value, with invalid UTF-8 replaced,
    whatever space follows it. *)
Lemma parse_indent v r : (json_depth v ≤ max_depth)%N → skip_space r = "" → parse_json (indent 0 v +:+ r) = Ok (embed v).
Proof.
  intros Hd Hr. unfold parse_json. rewrite skip_indent, parse_indent_value; [by rewrite Hr| |done|rewrite string_length_app; lia].
  destruct r as [|a r]; [done|]. cbn [skip_space number_end] in *. destruct (json_space a) eqn:Ha; [|done].
  clear - Ha. destruct a as [[] [] [] [] [] [] [] []]; first [reflexivity|discriminate Ha].
Qed.
