(* ===== verification/LifecycleText.v ===== *)
(** * Lifecycle states as text

    The file of a lifecycle holds its state as indented JSON
    ([workload_lifecycle_store_linux.go]): what is written is read back, and what
    is read can be written. *)

From S2P Require Import Prelude Crypto Format Json Base64 Unmarshal GoTime Permit JournalEntry FileSystem Journal KernelAbi KernelFabric Evidence Indented Document Workload Lifecycle.
Local Open Scope Z_scope.

(** * Writing *)

Definition state_fields (s : WorkloadLifecycleState) (expires started updated : json) : list (string * option json) :=
  [string_field "version" (ls_Version s); string_field "device_id" (ls_DeviceID s); string_field "workload_id" (ls_WorkloadID s);
   number_field "generation" (ls_Generation s); ("lifecycle_epoch", omit_number (ls_LifecycleEpoch s));
   string_field "state" (ls_State s); string_field "activation_digest" (ls_ActivationDigest s);
   ("exit_digest", omit_string (ls_ExitDigest s)); ("recovery_digest", omit_string (ls_RecoveryDigest s));
   ("runtime_trust_epoch", omit_number (ls_RuntimeTrustEpoch s));
   ("runtime_trust_lease_digest", omit_string (ls_RuntimeTrustLeaseDigest s)); ("runtime_trust_expires_at", Some expires);
   ("runtime_trust_boot_id_hash", omit_string (ls_RuntimeTrustBootIDHash s));
   ("runtime_trust_installed_boot_ns", omit_number (ls_RuntimeTrustInstalledBootNS s));
   ("runtime_trust_deadline_boot_ns", omit_number (ls_RuntimeTrustDeadlineBootNS s));
   number_field "restart_count_in_window" (ls_RestartCountInWindow s); ("restart_window_started_at", Some started);
   ("updated_at", Some updated)].

Definition state_json (s : WorkloadLifecycleState) : result json :=
  expires ← gotime_json (ls_RuntimeTrustExpiresAt s); started ← gotime_json (ls_RestartWindowStartedAt s);
  updated ← gotime_json (ls_UpdatedAt s); Ok (object (state_fields s expires started updated)).

(** [json.MarshalIndent(state, "", "  ")], with a new line. *)
Definition state_text (s : WorkloadLifecycleState) : result string := body ← state_json s; Ok (indent 0 body +:+ nl).

(** * Reading *)

(** [strconv.ParseUint(lit, 10, 32)] *)
Definition parse_uint32 (lit : string) : option Z := n ← parse_uint64 lit; if n <? 2 ^ 32 then Some n else None.
Definition decode_uint32 : decoder Z := decode_number parse_uint32.

Section Setters.
Context (s : WorkloadLifecycleState).
Definition set_state_Version x := let '(Build_WorkloadLifecycleState _ b c d f g h i j k l m n o p q r t) := s in
  Build_WorkloadLifecycleState x b c d f g h i j k l m n o p q r t.
Definition set_state_DeviceID x := let '(Build_WorkloadLifecycleState a _ c d f g h i j k l m n o p q r t) := s in
  Build_WorkloadLifecycleState a x c d f g h i j k l m n o p q r t.
Definition set_state_WorkloadID x := let '(Build_WorkloadLifecycleState a b _ d f g h i j k l m n o p q r t) := s in
  Build_WorkloadLifecycleState a b x d f g h i j k l m n o p q r t.
Definition set_state_Generation x := let '(Build_WorkloadLifecycleState a b c _ f g h i j k l m n o p q r t) := s in
  Build_WorkloadLifecycleState a b c x f g h i j k l m n o p q r t.
Definition set_state_LifecycleEpoch x := let '(Build_WorkloadLifecycleState a b c d _ g h i j k l m n o p q r t) := s in
  Build_WorkloadLifecycleState a b c d x g h i j k l m n o p q r t.
Definition set_state_State x := let '(Build_WorkloadLifecycleState a b c d f _ h i j k l m n o p q r t) := s in
  Build_WorkloadLifecycleState a b c d f x h i j k l m n o p q r t.
Definition set_state_ActivationDigest x := let '(Build_WorkloadLifecycleState a b c d f g _ i j k l m n o p q r t) := s in
  Build_WorkloadLifecycleState a b c d f g x i j k l m n o p q r t.
Definition set_state_ExitDigest x := let '(Build_WorkloadLifecycleState a b c d f g h _ j k l m n o p q r t) := s in
  Build_WorkloadLifecycleState a b c d f g h x j k l m n o p q r t.
Definition set_state_RecoveryDigest x := let '(Build_WorkloadLifecycleState a b c d f g h i _ k l m n o p q r t) := s in
  Build_WorkloadLifecycleState a b c d f g h i x k l m n o p q r t.
Definition set_state_RuntimeTrustEpoch x := let '(Build_WorkloadLifecycleState a b c d f g h i j _ l m n o p q r t) := s in
  Build_WorkloadLifecycleState a b c d f g h i j x l m n o p q r t.
Definition set_state_RuntimeTrustLeaseDigest x := let '(Build_WorkloadLifecycleState a b c d f g h i j k _ m n o p q r t) := s in
  Build_WorkloadLifecycleState a b c d f g h i j k x m n o p q r t.
Definition set_state_RuntimeTrustExpiresAt x := let '(Build_WorkloadLifecycleState a b c d f g h i j k l _ n o p q r t) := s in
  Build_WorkloadLifecycleState a b c d f g h i j k l x n o p q r t.
Definition set_state_RuntimeTrustBootIDHash x := let '(Build_WorkloadLifecycleState a b c d f g h i j k l m _ o p q r t) := s in
  Build_WorkloadLifecycleState a b c d f g h i j k l m x o p q r t.
Definition set_state_RuntimeTrustInstalledBootNS x := let '(Build_WorkloadLifecycleState a b c d f g h i j k l m n _ p q r t) := s in
  Build_WorkloadLifecycleState a b c d f g h i j k l m n x p q r t.
Definition set_state_RuntimeTrustDeadlineBootNS x := let '(Build_WorkloadLifecycleState a b c d f g h i j k l m n o _ q r t) := s in
  Build_WorkloadLifecycleState a b c d f g h i j k l m n o x q r t.
Definition set_state_RestartCountInWindow x := let '(Build_WorkloadLifecycleState a b c d f g h i j k l m n o p _ r t) := s in
  Build_WorkloadLifecycleState a b c d f g h i j k l m n o p x r t.
Definition set_state_RestartWindowStartedAt x := let '(Build_WorkloadLifecycleState a b c d f g h i j k l m n o p q _ t) := s in
  Build_WorkloadLifecycleState a b c d f g h i j k l m n o p q x t.
Definition set_state_UpdatedAt x := let '(Build_WorkloadLifecycleState a b c d f g h i j k l m n o p q r _) := s in
  Build_WorkloadLifecycleState a b c d f g h i j k l m n o p q r x.
End Setters.

Definition state_struct : list (struct_field WorkloadLifecycleState) :=
  [on_field "version" ls_Version (λ x s, set_state_Version s x) decode_string;
   on_field "device_id" ls_DeviceID (λ x s, set_state_DeviceID s x) decode_string;
   on_field "workload_id" ls_WorkloadID (λ x s, set_state_WorkloadID s x) decode_string;
   on_field "generation" ls_Generation (λ x s, set_state_Generation s x) decode_uint64;
   on_field "lifecycle_epoch" ls_LifecycleEpoch (λ x s, set_state_LifecycleEpoch s x) decode_uint64;
   on_field "state" ls_State (λ x s, set_state_State s x) decode_string;
   on_field "activation_digest" ls_ActivationDigest (λ x s, set_state_ActivationDigest s x) decode_string;
   on_field "exit_digest" ls_ExitDigest (λ x s, set_state_ExitDigest s x) decode_string;
   on_field "recovery_digest" ls_RecoveryDigest (λ x s, set_state_RecoveryDigest s x) decode_string;
   on_field "runtime_trust_epoch" ls_RuntimeTrustEpoch (λ x s, set_state_RuntimeTrustEpoch s x) decode_uint64;
   on_field "runtime_trust_lease_digest" ls_RuntimeTrustLeaseDigest (λ x s, set_state_RuntimeTrustLeaseDigest s x) decode_string;
   on_field "runtime_trust_expires_at" ls_RuntimeTrustExpiresAt (λ x s, set_state_RuntimeTrustExpiresAt s x) decode_time;
   on_field "runtime_trust_boot_id_hash" ls_RuntimeTrustBootIDHash (λ x s, set_state_RuntimeTrustBootIDHash s x) decode_string;
   on_field "runtime_trust_installed_boot_ns" ls_RuntimeTrustInstalledBootNS (λ x s, set_state_RuntimeTrustInstalledBootNS s x) decode_uint64;
   on_field "runtime_trust_deadline_boot_ns" ls_RuntimeTrustDeadlineBootNS (λ x s, set_state_RuntimeTrustDeadlineBootNS s x) decode_uint64;
   on_field "restart_count_in_window" ls_RestartCountInWindow (λ x s, set_state_RestartCountInWindow s x) decode_uint32;
   on_field "restart_window_started_at" ls_RestartWindowStartedAt (λ x s, set_state_RestartWindowStartedAt s x) decode_time;
   on_field "updated_at" ls_UpdatedAt (λ x s, set_state_UpdatedAt s x) decode_time].

Definition zero_state : WorkloadLifecycleState :=
  Build_WorkloadLifecycleState "" "" "" 0 0 "" "" "" "" 0 "" (utc 0) "" 0 0 0 (utc 0) (utc 0).

(** [json.Unmarshal] into a state. *)
Definition decode_state : string → result WorkloadLifecycleState := Unmarshal state_struct zero_state.

(** A state that can be stored: its numbers fit their fields, its strings are
    valid UTF-8, its zones are whole minutes. *)
Definition state_strings (s : WorkloadLifecycleState) : list string :=
  [ls_Version s; ls_DeviceID s; ls_WorkloadID s; ls_State s; ls_ActivationDigest s; ls_ExitDigest s; ls_RecoveryDigest s;
   ls_RuntimeTrustLeaseDigest s; ls_RuntimeTrustBootIDHash s].
Definition state_numbers (s : WorkloadLifecycleState) : list Z :=
  [ls_Generation s; ls_LifecycleEpoch s; ls_RuntimeTrustEpoch s; ls_RuntimeTrustInstalledBootNS s; ls_RuntimeTrustDeadlineBootNS s].
Definition state_times (s : WorkloadLifecycleState) : list gotime :=
  [ls_RuntimeTrustExpiresAt s; ls_RestartWindowStartedAt s; ls_UpdatedAt s].

Record storable (s : WorkloadLifecycleState) : Prop := {
  so_strings : Forall (λ x, utf8_valid x = true) (state_strings s);
  so_numbers : Forall is_u64 (state_numbers s);
  so_count : is_u32 (ls_RestartCountInWindow s);
  so_times : Forall (λ t, written_offset (gt_offset t)) (state_times s) }.

(** * Reading back *)

Lemma parse_uint32_pretty z : is_u32 z → parse_uint32 (pretty z) = Some z.
Proof.
  unfold is_u32, parse_uint32. intros Hz. rewrite parse_uint64_pretty by (unfold is_u64; lia). cbn [mbind option_bind].
  by rewrite (proj2 (Z.ltb_lt _ _)) by lia.
Qed.

Lemma decode_omitted_number {S} (fs : list (struct_field S)) k x rest s f t : find_field fs k = Some f → coerce k = k →
  sf_set f (VNumber (pretty x)) s = (t, None) → (x = 0 → t = s) →
  decode_members fs (written ((k, omit_number x) :: rest)) s None = decode_members fs (written rest) t None.
Proof.
  intros Hf Hk Hs H0. unfold omit_number. destruct (Z.eqb_spec x 0) as [Hx|Hx]; [by rewrite H0|]. by eapply decode_written.
Qed.

Ltac eval_state_setters :=
  match goal with |- decode_members _ _ ?s _ = _ =>
    let s' := eval cbv [set_state_Version set_state_DeviceID set_state_WorkloadID set_state_Generation set_state_LifecycleEpoch
      set_state_State set_state_ActivationDigest set_state_ExitDigest set_state_RecoveryDigest set_state_RuntimeTrustEpoch
      set_state_RuntimeTrustLeaseDigest set_state_RuntimeTrustExpiresAt set_state_RuntimeTrustBootIDHash
      set_state_RuntimeTrustInstalledBootNS set_state_RuntimeTrustDeadlineBootNS set_state_RestartCountInWindow
      set_state_RestartWindowStartedAt set_state_UpdatedAt zero_state] in s in
    change s with s'
  end.

(** The next field of a state. *)
Ltac next_state_field :=
  eval_state_setters;
  first
    [ erewrite decode_omitted_string; [|reflexivity|reflexivity|intros ?; reflexivity|by intros ->]
    | erewrite decode_omitted_number;
        [|reflexivity|reflexivity|cbn; unfold decode_uint64, decode_number; rewrite parse_uint64_pretty by done; reflexivity|by intros ->]
    | erewrite decode_written; [|reflexivity|reflexivity|
        first [ reflexivity
              | cbn; unfold decode_uint64, decode_number; rewrite parse_uint64_pretty by done; reflexivity
              | cbn; unfold decode_uint32, decode_number; rewrite parse_uint32_pretty by done; reflexivity
              | match goal with Ht : gotime_json _ = Ok ?v |- context [embed ?v] =>
                  cbn; rewrite (decode_gotime _ _ _ Ht) by done; reflexivity end ]] ].

Lemma state_fields_read s expires started updated : gotime_json (ls_RuntimeTrustExpiresAt s) = Ok expires →
  gotime_json (ls_RestartWindowStartedAt s) = Ok started → gotime_json (ls_UpdatedAt s) = Ok updated → storable s →
  decode_members state_struct (written (state_fields s expires started updated)) zero_state None = (s, None).
Proof.
  intros He Hs Hu [Hstr Hnum Hcount Htime]. unfold state_strings, state_numbers, state_times in *.
  split_Forall. unfold state_fields, string_field, number_field. do 18 next_state_field.
  rewrite !coerce_utf8 by done. by destruct s.
Qed.

Lemma shallow_number k z : shallow 1 (k, omit_number z).
Proof. unfold shallow, omit_number. cbn [snd]. destruct (z =? 0); [done|]. apply N.le_0_l. Qed.

Lemma state_depth s expires started updated : gotime_json (ls_RuntimeTrustExpiresAt s) = Ok expires →
  gotime_json (ls_RestartWindowStartedAt s) = Ok started → gotime_json (ls_UpdatedAt s) = Ok updated →
  (json_depth (object (state_fields s expires started updated)) ≤ max_depth)%N.
Proof.
  intros [a ->]%gotime_json_string [b ->]%gotime_json_string [c ->]%gotime_json_string. apply N.le_trans with 2%N; [|done].
  apply (object_depth 1). unfold state_fields.
  repeat (apply Forall_cons_2; [first [apply shallow_string|apply shallow_number|apply N.le_0_l]|]).
  constructor.
Qed.

Lemma state_text_read s text : state_text s = Ok text → storable s → decode_state text = Ok s.
Proof.
  unfold state_text, state_json. intros Ht Hs.
  destruct (gotime_json (ls_RuntimeTrustExpiresAt s)) as [expires|] eqn:He; [|done].
  destruct (gotime_json (ls_RestartWindowStartedAt s)) as [started|] eqn:Hst; [|done].
  destruct (gotime_json (ls_UpdatedAt s)) as [updated|] eqn:Hu; [|done].
  change (Ok (indent 0 (object (state_fields s expires started updated)) +:+ nl) = Ok text) in Ht.
  assert (text = indent 0 (object (state_fields s expires started updated)) +:+ nl) as -> by congruence.
  unfold decode_state, Unmarshal. rewrite parse_indent; [|by apply state_depth|done]. rewrite embed_object. cbn [decode_struct].
  by rewrite state_fields_read.
Qed.

(** ** What is read can be stored *)

Lemma parse_uint32_bounds s n : parse_uint32 s = Some n → is_u32 n.
Proof.
  unfold parse_uint32. destruct (parse_uint64 s) as [m|] eqn:Hm; [|done]. cbn [mbind option_bind]. apply parse_uint64_bounds in Hm.
  destruct (Z.ltb_spec m (2 ^ 32)); [|done]. intros [= <-]. unfold is_u32, is_u64 in *. lia.
Qed.

Lemma state_field_storable f v s : f ∈ state_struct → utf8_value v = true → storable s → storable (sf_set f v s).1.
Proof.
  intros Hf Hv [Hstr Hnum Hcount Htime]. unfold state_strings, state_numbers, state_times in *. split_Forall.
  assert (Hs : ∀ x, utf8_valid x = true → utf8_valid (decode_string v x).1 = true) by (intros; by apply decode_string_utf8).
  assert (Hn : ∀ z, is_u64 z → is_u64 (decode_uint64 v z).1) by (intros; apply (decode_number_bounds parse_uint64); [apply parse_uint64_bounds|done]).
  assert (Hc : ∀ z, is_u32 z → is_u32 (decode_uint32 v z).1) by (intros; apply (decode_number_bounds parse_uint32); [apply parse_uint32_bounds|done]).
  assert (Ht : ∀ t, written_offset (gt_offset t) → written_offset (gt_offset (decode_time v t).1)).
  { intros t Ht. destruct (decode_time v t) eqn:Hd. by eapply decode_time_written. }
  destruct s. cbn in *.
  each_field Hf; cbn [on_field sf_set];
    match goal with
    | |- storable (let '(_, _) := ?d v (?get ?s) in _).1 => let x := eval cbn in (get s) in change (get s) with x
    end;
    match goal with
    | |- storable (let '(_, _) := decode_string v ?x in _).1 => specialize (Hs x); destruct (decode_string v x)
    | |- storable (let '(_, _) := decode_uint64 v ?x in _).1 => specialize (Hn x); destruct (decode_uint64 v x)
    | |- storable (let '(_, _) := decode_uint32 v ?x in _).1 => specialize (Hc x); destruct (decode_uint32 v x)
    | |- storable (let '(_, _) := decode_time v ?x in _).1 => specialize (Ht x); destruct (decode_time v x)
    end;
    cbn in *; split; unfold state_strings, state_numbers, state_times; cbn; rewrite ?Forall_cons; split_and?; auto using Forall_nil_2.
Qed.

Lemma decode_state_storable text s : decode_state text = Ok s → storable s.
Proof.
  unfold decode_state, Unmarshal. destruct (parse_json text) as [v|] eqn:Hp; [|done]. apply parse_json_utf8 in Hp.
  assert (storable (decode_struct state_struct v zero_state).1) as H.
  { assert (H0 : storable zero_state).
    { split; unfold state_strings, state_numbers, state_times; cbn; rewrite ?Forall_cons; split_and?; try done; by apply Forall_nil_2. }
    destruct v as [| | | | |members]; try done. cbn [decode_struct]. apply decode_members_inv; [|done..].
    intros f v. apply state_field_storable. }
  destruct (decode_struct _ v _) as [r [err|]]; [done|]. by intros [= <-].
Qed.
