(* ===== verification/Linux.v ===== *)
(** * The Linux host

    What the workload launcher of [internal/kernelfabric] uses of [os], [os/exec],
    [syscall] and [golang.org/x/sys/unix] besides the files of [FileSystem.v], as
    operations of a world; [clock_linux.go] and [process_identity_linux.go], which
    read the clocks and the identity of a process. *)

From S2P Require Import Prelude Crypto Format Json Base64 Unmarshal GoTime Permit FileSystem Journal KernelAbi KernelFabric Evidence Document Workload.
Local Open Scope Z_scope.
Local Open Scope go_scope.

Inductive clock_id : Type := CLOCK_MONOTONIC | CLOCK_BOOTTIME.

(** [os.FileInfo]: the type and the permissions of the mode, and [syscall.Stat_t]. *)
Record file_info : Type := { fi_Regular : bool; fi_Dir : bool; fi_Perm : Z; fi_Dev : Z; fi_Ino : Z }.

(** [process_Wait] gives the wait status, if there is one. *)
Class LinuxSystem (X : Type) : Type := {
  os_IsExist : error → bool;
  os_ChmodPath : string → X → option error * X;
  unix_Lock : file → X → option error * X;
  unix_Unlock : file → X → option error * X;
  unix_Statfs : string → X → result Z * X;
  unix_OpenDirectory : string → X → result Z * X;
  unix_Fstat : Z → X → result Z * X;
  unix_Close : Z → X → option error * X;
  os_StatInfo : string → X → result file_info * X;
  cmd_Start : command → X → result Z * X;
  process_Kill : Z → X → option error * X;
  process_Wait : Z → X → (option Z * option error) * X;
  unix_ClockGettime : clock_id → X → result (Z * Z) * X }.

Section Calls.
Context {X : Type} `{!LinuxSystem X}.

Definition host_call {A} (mk : A → host_event) (f : X → A * X) : IO X A := call (λ a, EvHost (mk a)) f.

Definition ChmodPath (path : string) : IO X (option error) := host_call (EvChmodPath path) (os_ChmodPath path).
Definition Lock (f : file) : IO X (option error) := host_call (EvLock f) (unix_Lock f).
Definition Unlock (f : file) : IO X (option error) := host_call (EvUnlock f) (unix_Unlock f).
Definition OpenDirectory (path : string) : IO X (result Z) := host_call (EvOpenDirectory path) (unix_OpenDirectory path).
Definition CloseDirectory (fd : Z) : IO X (option error) := host_call (EvCloseDirectory fd) (unix_Close fd).
Definition Start (c : command) : IO X (result Z) := host_call (EvStart c) (cmd_Start c).
Definition Kill (pid : Z) : IO X (option error) := host_call (EvKill pid) (process_Kill pid).
Definition Wait (pid : Z) : IO X (option Z * option error) := host_call (EvWait pid) (process_Wait pid).
Definition Statfs (path : string) : IO X (result Z) := silent (unix_Statfs path).
Definition Fstat (fd : Z) : IO X (result Z) := silent (unix_Fstat fd).
Definition StatInfo (path : string) : IO X (result file_info) := silent (os_StatInfo path).
Definition ClockGettime (c : clock_id) : IO X (result (Z * Z)) := silent (unix_ClockGettime c).

(** A run over the kernel's store, its calls recorded among the others. *)
Definition on_store {A} (m : M X StoreCall A) : IO X A := λ x, let '(a, x', t) := m x in (a, x', (λ c, EvHost (EvStore c)) <$> t).
End Calls.

(** * Clocks *)

Definition DefaultBootIDPath : string := "/proc/sys/kernel/random/boot_id".

Section Clocks.
Context {X : Type} `{!GoWorld X, !FileSystem X, !LinuxSystem X}.

Definition read_boot_id (path : string) : IO X (result string) := file ← ReadFile path; mret (ReadBootIDHash file).

(** [CaptureClockSnapshot] and [CaptureBootClockSnapshot] differ in the clock and
    in the words of their errors. *)
Definition capture_clock (c : clock_id) (read_error value_error : string) (wallNow : time) (bootIDPath : string)
    : IO X (result ClockSnapshot) :=
  wallNow ← now_or wallNow;
  try (ClockGettime c) (ErrWrap read_error) (λ '(sec, nsec),
  if (sec <? 0) || (nsec <? 0) then mret (Error (ErrNew value_error))
  else
    try (read_boot_id bootIDPath) unwrapped (λ bootHash,
    mret (Ok {| cs_WallNow := wallNow; cs_MonoNowNS := wrap_u64 (sec * 10 ^ 9 + nsec); cs_BootIDHash := bootHash |}))).

Definition CaptureClockSnapshot : time → string → IO X (result ClockSnapshot) :=
  capture_clock CLOCK_MONOTONIC "read CLOCK_MONOTONIC" "invalid monotonic clock value".
Definition CaptureBootClockSnapshot : time → string → IO X (result ClockSnapshot) :=
  capture_clock CLOCK_BOOTTIME "read CLOCK_BOOTTIME" "invalid boot clock value".
End Clocks.

(** * Strings *)

(** [strings.Fields]: the maximal runs without white space.  [field] is the run
    that is being read, reversed. *)
Fixpoint fields_go (l field : list ascii) : list string :=
  let close (rest : list string) := match field with [] => rest | _ => String.string_of_list_ascii (reverse field) :: rest end in
  match l with
  | [] => close []
  | a :: l1 =>
      if space1 a then close (fields_go l1 [])
      else match l1 with
      | b :: l2 =>
          if space2 a b then close (fields_go l2 [])
          else match l2 with
          | c :: l3 => if space3 a b c then close (fields_go l3 []) else fields_go l1 (a :: field)
          | [] => fields_go l1 (a :: field)
          end
      | [] => fields_go l1 (a :: field)
      end
  end.

Definition Fields (s : string) : list string := fields_go (String.list_ascii_of_string s) [].

(** [strings.HasPrefix] and what follows the prefix. *)
Fixpoint cut_prefix (s prefix : string) : option string :=
  match prefix, s with
  | "", _ => Some s
  | String p prefix, String a s => if Ascii.eqb a p then cut_prefix s prefix else None
  | String _ _, "" => None
  end.

Definition HasPrefix (s prefix : string) : bool := match cut_prefix s prefix with Some _ => true | None => false end.
Definition TrimPrefix (s prefix : string) : string := default s (cut_prefix s prefix).

(** [strings.Split] by a separator that is not empty; [part] is what stands
    before the rest, reversed. *)
Fixpoint split_go (sep : string) (skip : nat) (s : string) (part : list ascii) : list string :=
  let close := String.string_of_list_ascii (reverse part) in
  match s with
  | "" => [close]
  | String a s1 =>
      match skip with
      | S skip => split_go sep skip s1 part
      | O => if HasPrefix s sep then close :: split_go sep (String.length sep - 1) s1 [] else split_go sep O s1 (a :: part)
      end
  end.

Definition Split (s sep : string) : list string := split_go sep 0 s [].

(** What follows the last occurrence, if there is one ([strings.LastIndex]). *)
Fixpoint after_last (s sub : string) : option string :=
  match s with
  | "" => cut_prefix "" sub
  | String _ s1 => match after_last s1 sub with Some rest => Some rest | None => cut_prefix s sub end
  end.

Example strings_examples :
  Fields " ab  c " = ["ab"; "c"] ∧ Split "a - b - " " - " = ["a"; "b"; ""] ∧ Split "" "x" = [""] ∧
  after_last "1 (a) b) S 2" ") " = Some "S 2" ∧ after_last "x" ") " = None ∧ TrimPrefix "/a/b" "/a" = "/b".
Proof. vm_compute. split_and!; reflexivity. Qed.

(** [filepath.Join] of two elements. *)
Definition filepath_Join (a b : string) : string :=
  if str_eqb a "" then (if str_eqb b "" then "" else filepath_Clean b) else filepath_Clean (a +:+ "/" +:+ b).

(** * The identity of a process *)

Record LinuxProcessObservation : Type := {
  lo_Exists : bool; lo_Identity : LinuxProcessIdentity; lo_ObservedCgroup : string; lo_ObservedCgroupID : Z }.

(** [unescapeMountInfo]: the octal escapes of a mount table. *)
Definition octal_escape (a b c : ascii) : option ascii :=
  match a, b, c with
  | "0"%char, "4"%char, "0"%char => Some " "%char
  | "0"%char, "1"%char, "1"%char => Some "009"%char
  | "0"%char, "1"%char, "2"%char => Some "010"%char
  | "1"%char, "3"%char, "4"%char => Some "092"%char
  | _, _, _ => None
  end.

Fixpoint unescapeMountInfo (s : string) : string :=
  match s with
  | String "092" ((String a (String b (String c s2))) as s1) =>
      match octal_escape a b c with Some e => String e (unescapeMountInfo s2) | None => String "092" (unescapeMountInfo s1) end
  | String a s1 => String a (unescapeMountInfo s1)
  | "" => ""
  end.

(** The error of [strconv.ParseUint]. *)
Definition parse_uint_error (s : string) : error :=
  ErrWrap ("strconv.ParseUint: parsing " +:+ s)
    (ErrNew (if nonempty s && all_chars is_digit s then "value out of range" else "invalid syntax")).

(** The start time in the line of [/proc/PID/stat]. *)
Definition start_ticks (line : string) : result Z :=
  match after_last line ") " with
  | None => Error (ErrNew "malformed /proc process stat")
  | Some rest =>
      match Fields rest !! 19%nat with
      | None => Error (ErrNew "process stat missing starttime")
      | Some field =>
          match parse_uint64 field with
          | None => Error (ErrWrap "parse process starttime" (parse_uint_error field))
          | Some start => if start =? 0 then Error (ErrNew "process starttime is zero") else Ok start
          end
      end
  end.

(** The path of the unified hierarchy in [/proc/PID/cgroup]. *)
Fixpoint unified_cgroup (lines : list string) : result string :=
  match lines with
  | [] => Error (ErrNew "process is not attached to unified cgroup v2 hierarchy")
  | line :: lines =>
      match cut_prefix line "0::" with
      | Some path => Ok (filepath_Clean (if str_eqb path "" then "/" else path))
      | None => unified_cgroup lines
      end
  end.

(** A mount of the cgroup file system, by its root and mount point. *)
Definition cgroup_mount (line : string) : option (string * string) :=
  match Split line " - " with
  | [before; after] =>
      match Fields after with
      | fstype :: _ => if str_eqb fstype "cgroup2" then match Fields before with
          | _ :: _ :: _ :: root :: mountPoint :: _ => Some (unescapeMountInfo root, unescapeMountInfo mountPoint)
          | _ => None
          end else None
      | [] => None
      end
  | _ => None
  end.

(** Where a cgroup is under a mount, if it is below its root. *)
Definition cgroup_below (root cgroupPath : string) : option string :=
  let clean := filepath_Clean cgroupPath in
  if str_eqb root "/" then Some clean
  else
    let root := filepath_Clean root in
    if negb (str_eqb clean root) && negb (HasPrefix clean (root +:+ "/")) then None
    else let clean := TrimPrefix clean root in Some (if str_eqb clean "" then "/" else clean).

Fixpoint resolve_cgroup (cgroupPath : string) (lines : list string) : result string :=
  match lines with
  | [] => Error (ErrNew "cgroup v2 mountpoint not found")
  | line :: lines =>
      if blank line then resolve_cgroup cgroupPath lines
      else match cgroup_mount line with
      | None => resolve_cgroup cgroupPath lines
      | Some (root, mountPoint) =>
          match cgroup_below root cgroupPath with
          | None => resolve_cgroup cgroupPath lines
          | Some clean => Ok (filepath_Join mountPoint (TrimPrefix clean "/"))
          end
      end
  end.

Section Observe.
Context {X : Type} `{!GoWorld X, !FileSystem X, !LinuxSystem X}.

Definition proc_file (pid : Z) (name : string) : string := "/proc/" +:+ pretty pid +:+ "/" +:+ name.

(** [None] when the process does not exist. *)
Definition readLinuxProcessStartTicks (pid : Z) : IO X (result (option Z)) :=
  payload ← ReadFile (proc_file pid "stat");
  match payload with
  | Error err => if os_IsNotExist err then mret (Ok None) else mret (Error (ErrWrap "read process stat" err))
  | Ok line => mret (ticks ← start_ticks line; Ok (Some ticks))
  end.

Definition readUnifiedProcessCgroup (pid : Z) : IO X (result string) :=
  try (ReadFile (proc_file pid "cgroup")) (ErrWrap "read process cgroup membership") (λ payload,
  mret (unified_cgroup (Split payload nl))).

Definition resolveUnifiedCgroupPath (cgroupPath : string) : IO X (result string) :=
  try (ReadFile "/proc/self/mountinfo") (ErrWrap "read mountinfo") (λ payload,
  mret (resolve_cgroup cgroupPath (Split payload nl))).

Definition ObserveLinuxProcess (pid : Z) : IO X (result LinuxProcessObservation) :=
  if pid <=? 0 then mret (Error (ErrNew "process id must be positive"))
  else
    try (read_boot_id DefaultBootIDPath) unwrapped (λ bootHash,
    try (readLinuxProcessStartTicks pid) unwrapped (λ ticks,
    match ticks with
    | None => mret (Ok {| lo_Exists := false; lo_Identity := Build_LinuxProcessIdentity "" 0 0 0; lo_ObservedCgroup := ""; lo_ObservedCgroupID := 0 |})
    | Some startTicks =>
        exeInfo ← StatInfo (proc_file pid "exe");
        match exeInfo with
        | Error err =>
            mret (Error (if os_IsNotExist err then ErrNew "process vanished while reading executable identity"
                         else ErrWrap "stat process executable" err))
        | Ok exe =>
            try (readUnifiedProcessCgroup pid) unwrapped (λ cgroupPath,
            try (resolveUnifiedCgroupPath cgroupPath) unwrapped (λ cgroupResolved,
            try (StatInfo cgroupResolved) (ErrWrap "stat observed process cgroup") (λ cgroup,
            if fi_Ino cgroup =? 0 then mret (Error (ErrNew "observed process cgroup identity unavailable"))
            else
              try (readLinuxProcessStartTicks pid) unwrapped (λ final,
              if bool_decide (final = Some startTicks) then
                mret (Ok {| lo_Exists := true;
                  lo_Identity := {| pi_BootIDHash := "sha256:" +:+ hex_encode bootHash; pi_ProcessStartTimeTicks := startTicks;
                    pi_ExecutableDevice := fi_Dev exe; pi_ExecutableInode := fi_Ino exe |};
                  lo_ObservedCgroup := cgroupResolved; lo_ObservedCgroupID := fi_Ino cgroup |})
              else mret (Error (ErrNew "process identity changed while observation was collected"))))))
        end
    end)).

Definition CaptureLinuxProcessIdentity (pid expectedCgroupID : Z) : IO X (result LinuxProcessIdentity) :=
  try (ObserveLinuxProcess pid) unwrapped (λ obs,
  if negb (lo_Exists obs) then mret (Error (ErrNew "process exited before identity capture"))
  else if negb (expectedCgroupID =? 0) && negb (lo_ObservedCgroupID obs =? expectedCgroupID) then mret (Error ErrAdmissionBindingMismatch)
  else mret (Ok (lo_Identity obs))).
End Observe.

Definition LinuxProcessIdentityDigest (identity : LinuxProcessIdentity) : result string :=
  match ValidateLinuxProcessIdentity identity with
  | Some err => Error err
  | None => Ok (sha256_digest (pi_BootIDHash identity +:+ nul +:+ pretty (pi_ProcessStartTimeTicks identity) +:+ nul +:+
      pretty (pi_ExecutableDevice identity) +:+ nul +:+ pretty (pi_ExecutableInode identity)))
  end.

Example process_files :
  start_ticks ("7 (a) b) S 1 2 3 4 5 6 7 8 9 10 11 12 13 14 15 16 17 18 4711 20" +:+ nl) = Ok 4711 ∧
  unified_cgroup (Split ("1:cpu:/x" +:+ nl +:+ "0::/g/w" +:+ nl) nl) = Ok "/g/w" ∧
  resolve_cgroup "/g/w" (Split ("30 23 0:26 / /sys/fs/cgroup rw - cgroup2 cgroup2 rw" +:+ nl) nl) = Ok "/sys/fs/cgroup/g/w" ∧
  resolve_cgroup "/g/w" ["30 23 0:26 /g /my\040mount rw - cgroup2 none rw"] = Ok "/my mount/w".
Proof. vm_compute. split_and!; reflexivity. Qed.
