(* ===== verification/Launcher.v ===== *)
(** * Launching attested workloads

    Models [internal/kernelfabric/workload_admission_guard.go], which consumes an
    admission grant, and [workload_launcher_linux.go], which starts the process it
    admits and signs what was started. *)

From S2P Require Import Prelude Crypto Format Json Base64 Unmarshal GoTime Permit FileSystem Journal KernelAbi KernelFabric Evidence Document Workload Linux.
Local Open Scope Z_scope.
Local Open Scope go_scope.

(** * Consuming a grant *)

Definition WorkloadGrantConsumptionVersion : string := "aegis.ege/workload-admission-consumption/v1".

Record WorkloadGrantConsumptionRecord : Type := {
  cr_Version : string; cr_GrantID : string; cr_GrantDigest : string; cr_DeviceID : string; cr_WorkloadID : string; cr_ConsumedAt : gotime }.

Definition consumption_json (r : WorkloadGrantConsumptionRecord) : result json :=
  consumed ← gotime_json (cr_ConsumedAt r);
  Ok (object [string_field "version" (cr_Version r); string_field "grant_id" (cr_GrantID r); string_field "grant_digest" (cr_GrantDigest r);
    string_field "device_id" (cr_DeviceID r); string_field "workload_id" (cr_WorkloadID r); ("consumed_at", Some consumed)]).

(** The file that stands for a consumed grant. *)
Definition consumption_path (dir grantID : string) : string := filepath_Join dir (hex_encode (sha256 grantID) +:+ ".consumed.json").

Section Consume.
Context `{!MapRange, !Ed25519} {X : Type} `{!GoWorld X, !FileSystem X, !LinuxSystem X}.

(** The checks of a consumption: gives the digest of the grant. *)
Definition consumption_evidence (signed : SignedWorkloadAdmissionGrant) (issuerPublicKey : string) (expectedSpec : WorkloadLaunchSpec)
    (expectedTargetCgroup : string) (expectedTargetCgroupID : Z) (expectedDeviceID : string) (now : time) : result string :=
  match VerifySignedWorkloadAdmissionGrant signed issuerPublicKey now with
  | Some err => Error err
  | None =>
      expectedDigest ← WorkloadLaunchSpecDigest expectedSpec;
      let grant := sg_Document signed in
      if negb (str_eqb (gr_WorkloadSpecDigest grant) expectedDigest) ||
         negb (str_eqb (filepath_Clean (gr_TargetCgroup grant)) (filepath_Clean expectedTargetCgroup)) ||
         negb (gr_TargetCgroupID grant =? expectedTargetCgroupID) || negb (str_eqb (gr_DeviceID grant) (TrimSpace expectedDeviceID))
      then Error ErrAdmissionBindingMismatch
      else SignedWorkloadAdmissionGrantDigest signed
  end.

Definition write_consumption (path dir payload : string) : IO X (result unit) :=
  opened ← OpenFile path CreateExclusive;
  match opened with
  | Error err => mret (Error (if os_IsExist err then ErrAdmissionGrantReplay else ErrWrap "claim workload admission grant" err))
  | Ok file =>
      check_close file (Write file (payload +:+ nl)) (ErrWrap "write workload grant consumption") (
      check_close file (Sync file) (ErrWrap "sync workload grant consumption") (
      check (Close file) (ErrWrap "close workload grant consumption") (
      try (OpenFile dir ReadOnly) (ErrWrap "open workload grant consumption directory") (λ parent,
      err ← Sync parent;
      _ ← Close parent;
      mret (match err with Some err => Error (ErrWrap "sync workload grant consumption directory" err) | None => Ok tt end)))))
  end.

Definition ConsumeWorkloadAdmissionGrant (dir : string) (signed : SignedWorkloadAdmissionGrant) (issuerPublicKey : string)
    (expectedSpec : WorkloadLaunchSpec) (expectedTargetCgroup : string) (expectedTargetCgroupID : Z) (expectedDeviceID : string)
    (now : time) : IO X (result WorkloadGrantConsumptionRecord) :=
  now ← now_or now;
  match consumption_evidence signed issuerPublicKey expectedSpec expectedTargetCgroup expectedTargetCgroupID expectedDeviceID now with
  | Error err => mret (Error err)
  | Ok grantDigest =>
      let dir := filepath_Clean (TrimSpace dir) in
      if str_eqb dir "." || str_eqb dir "" then mret (Error (ErrNew "workload grant consumption directory is required"))
      else
        check (MkdirAll dir) (ErrWrap "create workload grant consumption directory") (
        check (ChmodPath dir) (ErrWrap "secure workload grant consumption directory") (
        let grant := sg_Document signed in
        let record := {| cr_Version := WorkloadGrantConsumptionVersion; cr_GrantID := gr_GrantID grant; cr_GrantDigest := grantDigest;
                         cr_DeviceID := gr_DeviceID grant; cr_WorkloadID := gr_WorkloadID grant; cr_ConsumedAt := utc now |} in
        match consumption_json record with
        | Error err => mret (Error err)
        | Ok payload =>
            try (write_consumption (consumption_path dir (gr_GrantID grant)) dir (encode payload)) unwrapped (λ _, mret (Ok record))
        end))
  end.
End Consume.

(** * Starting the process *)

Definition cgroup2FSMagic : Z := 0x63677270.

Record AttestedWorkloadLaunchRequest : Type := {
  lr_SignedGrant : SignedWorkloadAdmissionGrant; lr_IssuerPublicKey : string; lr_LaunchSpec : WorkloadLaunchSpec;
  lr_ConsumptionDir : string; lr_DeviceID : string; lr_HostAttestorKey : string; lr_Now : time }.

(** [Command.Process] by its identity; [None] where there is none. *)
Record AttestedWorkloadProcess : Type := { ap_Process : option Z; ap_SignedReceipt : SignedWorkloadActivationReceipt }.

Definition variable_le (a b : WorkloadEnvironmentVariable) : Prop := String.le (wv_Name a) (wv_Name b).
#[export] Instance variable_le_dec : RelDecision variable_le.
Proof. intros a b. unfold variable_le. apply _. Defined.

(** Sorted by name; the names of a valid environment differ. *)
Definition workloadEnvironment (env : list WorkloadEnvironmentVariable) : list string :=
  (λ item, wv_Name item +:+ "=" +:+ wv_Value item) <$> merge_sort variable_le env.

(** [workloadSysProcAttr]: the cgroup, and the host user the namespace's root is. *)
Definition workloadSysProcAttr (isolation : option LinuxWorkloadIsolationSpec) : result (option (Z * Z)) :=
  match isolation with
  | None => Ok None
  | Some isolation =>
      match LinuxWorkloadIsolationSpec_Validate isolation with
      | Some err => Error err
      | None => Ok (Some (li_HostUID isolation, li_HostGID isolation))
      end
  end.

(** [Mode().Perm()&0o111 != 0] *)
Definition is_executable (info : file_info) : bool := fi_Regular info && negb (Z.land (fi_Perm info) 73 =? 0).

Section Launch.
Context `{!MapRange, !Ed25519} {X : Type} `{!GoWorld X, !FileSystem X, !LinuxSystem X}.

(** Killing a process that was started. *)
Definition kill_process (pid : Z) : IO X unit := _ ← Kill pid; _ ← Wait pid; mret tt.

(** The executable and the working directory. *)
Definition check_launch_files (spec : WorkloadLaunchSpec) : IO X (result unit) :=
  try (StatInfo (filepath_Clean (sp_Executable spec))) (ErrWrap "stat workload executable") (λ info,
  if negb (is_executable info) then mret (Error (ErrNew "workload executable is not an executable regular file"))
  else if str_eqb (sp_WorkingDir spec) "" then mret (Ok tt)
  else
    try (StatInfo (filepath_Clean (sp_WorkingDir spec))) (ErrWrap "stat workload working directory") (λ wdInfo,
    mret (if fi_Dir wdInfo then Ok tt else Error (ErrNew "workload working_dir is not a directory")))).

(** The cgroup's directory and its identity, which the grant names. *)
Definition open_cgroup (targetCgroup : string) (k : Z → IO X (result AttestedWorkloadProcess)) : IO X (result AttestedWorkloadProcess) :=
  try (Statfs targetCgroup) (ErrWrap "stat target cgroup") (λ fstype,
  if negb (fstype =? cgroup2FSMagic) then mret (Error (ErrNew (targetCgroup +:+ " is not on cgroup v2")))
  else
    try (OpenDirectory targetCgroup) (ErrWrap "open target cgroup") (λ cgroupFD,
    r ← k cgroupFD;
    _ ← CloseDirectory cgroupFD;
    mret r)).

(** From the process that was started to its signed receipt; a failure kills it. *)
Definition attest_process (req : AttestedWorkloadLaunchRequest) (consumption : WorkloadGrantConsumptionRecord) (targetCgroup : string)
    (cgroupID pid : Z) : IO X (result AttestedWorkloadProcess) :=
  let grant := sg_Document (lr_SignedGrant req) in
  token ← randomToken 24;
  match token with
  | Error err => _ ← kill_process pid; mret (Error err)
  | Ok activationID =>
      captured ← CaptureLinuxProcessIdentity pid cgroupID;
      match captured with
      | Error err => _ ← kill_process pid; mret (Error (ErrWrap "capture process identity after start; workload killed" err))
      | Ok processIdentity =>
          started ← Now;
          match SignWorkloadActivationReceipt {|
                  ac_Version := WorkloadActivationReceiptVersionV2; ac_ActivationID := activationID; ac_GrantID := gr_GrantID grant;
                  ac_GrantDigest := cr_GrantDigest consumption; ac_DeviceID := gr_DeviceID grant; ac_WorkloadID := gr_WorkloadID grant;
                  ac_WorkloadSpecDigest := gr_WorkloadSpecDigest grant; ac_TargetCgroup := targetCgroup; ac_TargetCgroupID := cgroupID;
                  ac_ProcessID := pid; ac_ProcessIdentity := Some processIdentity; ac_StartedAt := utc started |}
                  (lr_HostAttestorKey req) with
          | Error err => _ ← kill_process pid; mret (Error (ErrWrap "sign activation receipt after process start" err))
          | Ok receipt => mret (Ok {| ap_Process := Some pid; ap_SignedReceipt := receipt |})
          end
      end
  end.

(** From the open cgroup on: everything is checked, the grant is consumed, the
    process is started. *)
Definition launch_in (req : AttestedWorkloadLaunchRequest) (targetCgroup : string) (now : time) (cgroupFD : Z)
    : IO X (result AttestedWorkloadProcess) :=
  let spec := lr_LaunchSpec req in
  try (Fstat cgroupFD) (ErrWrap "stat opened target cgroup") (λ cgroupID,
  if (cgroupID =? 0) || negb (cgroupID =? gr_TargetCgroupID (sg_Document (lr_SignedGrant req))) then mret (Error ErrAdmissionBindingMismatch)
  else
    try (check_launch_files spec) unwrapped (λ _,
    try (ConsumeWorkloadAdmissionGrant (lr_ConsumptionDir req) (lr_SignedGrant req) (lr_IssuerPublicKey req) spec targetCgroup cgroupID
           (lr_DeviceID req) now) unwrapped (λ consumption,
    match workloadSysProcAttr (sp_LinuxIsolation spec) with
    | Error err => mret (Error err)
    | Ok isolation =>
        try (Start {| cm_Path := filepath_Clean (sp_Executable spec); cm_Args := sp_Args spec;
               cm_Dir := (if str_eqb (sp_WorkingDir spec) "" then "" else filepath_Clean (sp_WorkingDir spec));
               cm_Env := workloadEnvironment (sp_Environment spec); cm_CgroupFD := cgroupFD; cm_Isolation := isolation |})
          (ErrWrap ("start attested workload after terminal grant claim " +:+ cr_GrantID consumption)) (λ pid,
        attest_process req consumption targetCgroup cgroupID pid)
    end))).

(** The checks before the host is touched. *)
Definition launch_refused (req : AttestedWorkloadLaunchRequest) (now : time) : option error :=
  WorkloadLaunchSpec_Validate (lr_LaunchSpec req) ;;?
  guard_err (negb (is_private_key (lr_HostAttestorKey req))) (ErrNew "host activation attestor private key is required") ;;?
  VerifySignedWorkloadAdmissionGrant (lr_SignedGrant req) (lr_IssuerPublicKey req) now ;;?
  match WorkloadLaunchSpecDigest (lr_LaunchSpec req) with
  | Error err => Some err
  | Ok specDigest =>
      let grant := sg_Document (lr_SignedGrant req) in
      guard_err (negb (str_eqb (gr_DeviceID grant) (TrimSpace (lr_DeviceID req))) || negb (str_eqb (gr_WorkloadSpecDigest grant) specDigest))
        ErrAdmissionBindingMismatch
  end.

Definition StartAttestedWorkload (req : AttestedWorkloadLaunchRequest) : IO X (result AttestedWorkloadProcess) :=
  now ← now_or (lr_Now req);
  match launch_refused req now with
  | Some err => mret (Error err)
  | None =>
      let targetCgroup := filepath_Clean (gr_TargetCgroup (sg_Document (lr_SignedGrant req))) in
      open_cgroup targetCgroup (launch_in req targetCgroup now)
  end.

(** [ResolveCgroupV2ID] *)
Definition ResolveCgroupV2ID (path : string) : IO X (result Z) :=
  let path := filepath_Clean (TrimSpace path) in
  if negb (absolute path) then mret (Error (ErrNew "cgroup path must be absolute"))
  else
    try (Statfs path) (ErrWrap "stat cgroup filesystem") (λ fstype,
    if negb (fstype =? cgroup2FSMagic) then mret (Error (ErrNew (path +:+ " is not on cgroup v2")))
    else
      try (OpenDirectory path) (ErrWrap "open cgroup path") (λ fd,
      stat ← Fstat fd;
      _ ← CloseDirectory fd;
      mret (match stat with
            | Error err => Error (ErrWrap "stat cgroup path" err)
            | Ok ino => if ino =? 0 then Error (ErrNew "cgroup identity is zero") else Ok ino
            end))).
End Launch.
