(* ===== verification/LifecycleStore.v ===== *)
(** * The lifecycle store and what governs a workload through it

    Models [workload_lifecycle_store_linux.go], [workload_lifecycle_linux.go],
    [workload_recovery_linux.go], [workload_quarantine_linux.go],
    [runtime_trust_linux.go] and [runtime_trust_watchdog_linux.go] of
    [internal/kernelfabric]: the file a lifecycle is kept in, and each operation
    that reads it under its lock and writes the next state.  What an operation
    makes of the state is a function of its own ([first_state],
    [restarted_state], ...), so that the steps of a lifecycle can be named. *)

From S2P Require Import Prelude Crypto Format Json Base64 Unmarshal GoTime Permit FileSystem Journal KernelAbi KernelFabric Evidence Document Workload Lifecycle Recovery Quarantine RuntimeTrust LifecycleText Linux Launcher.
Local Open Scope Z_scope.
Local Open Scope go_scope.

(** * The store *)

Record WorkloadLifecycleStore : Type := { ws_Dir : string }.

(** The name of a lifecycle's files. *)
Definition lifecycle_base (deviceID workloadID : string) : string :=
  hex_encode (sha256 (TrimSpace deviceID +:+ nul +:+ TrimSpace workloadID)).

Definition lifecycle_dir (s : WorkloadLifecycleStore) : string := filepath_Clean (TrimSpace (ws_Dir s)).

Definition state_path (s : WorkloadLifecycleStore) (deviceID workloadID : string) : string :=
  filepath_Join (lifecycle_dir s) (lifecycle_base deviceID workloadID +:+ ".state.json").
Definition lock_path (s : WorkloadLifecycleStore) (deviceID workloadID : string) : string :=
  filepath_Join (lifecycle_dir s) (lifecycle_base deviceID workloadID +:+ ".lock").

(** What a state file says. *)
Definition parse_state (payload : string) : result WorkloadLifecycleState :=
  match decode_state payload with
  | Error err => Error (ErrWrap "decode workload lifecycle state" err)
  | Ok state =>
      let state := NormalizeWorkloadLifecycleState state in
      match ValidateWorkloadLifecycleState state with Some err => Error err | None => Ok state end
  end.

(** The text of a state that is written. *)
Definition state_payload (state : WorkloadLifecycleState) : result string :=
  let state := NormalizeWorkloadLifecycleState state in
  match ValidateWorkloadLifecycleState state with Some err => Error err | None => state_text state end.

(** The state belongs to the lifecycle whose file it was read from. *)
Definition of_lifecycle (deviceID workloadID : string) (state : WorkloadLifecycleState) : bool :=
  str_eqb (ls_DeviceID state) (TrimSpace deviceID) && str_eqb (ls_WorkloadID state) (TrimSpace workloadID).

Section Store.
Context {X : Type} `{!GoWorld X, !FileSystem X, !LinuxSystem X}.

(** [None] when there is no file. *)
Definition readLifecycleState (path : string) : IO X (result (option WorkloadLifecycleState)) :=
  payload ← ReadFile path;
  match payload with
  | Error err => mret (if os_IsNotExist err then Ok None else Error (ErrWrap "read workload lifecycle state" err))
  | Ok payload => mret (state ← parse_state payload; Ok (Some state))
  end.

(** From the temporary file on; the caller removes it. *)
Definition replace_state (path : string) (tmp : file) (payload : string) : IO X (result unit) :=
  check_close tmp (Chmod tmp) unwrapped (
  check_close tmp (Write tmp payload) unwrapped (
  check_close tmp (Sync tmp) unwrapped (
  check (Close tmp) unwrapped (
  check (Rename (file_Name tmp) path) unwrapped (
  try (OpenFile (filepath_Dir path) ReadOnly) unwrapped (λ parent,
  err ← Sync parent;
  _ ← Close parent;
  mret (match err with Some err => Error err | None => Ok tt end))))))).

Definition writeLifecycleState (path : string) (state : WorkloadLifecycleState) : IO X (result unit) :=
  match state_payload state with
  | Error err => mret (Error err)
  | Ok payload =>
      try (CreateTemp (filepath_Dir path) ".lifecycle-*") unwrapped (λ tmp,
      r ← replace_state path tmp payload;
      _ ← Remove (file_Name tmp);
      mret r)
  end.

(** The checks of [withLockedState] before it touches the host. *)
Definition lifecycle_refused (s : WorkloadLifecycleStore) (deviceID workloadID : string) : option error :=
  guard_err (str_eqb (TrimSpace deviceID) "" || str_eqb (TrimSpace workloadID) "")
    (ErrNew "device id and workload id are required for lifecycle state") ;;?
  guard_err (str_eqb (lifecycle_dir s) "." || negb (rooted (lifecycle_dir s))) (ErrNew "workload lifecycle directory must be absolute").

(** Under the lock: the state is read, and [fn] goes on from it.  [fail] is what
    an error returns. *)
Definition in_lock {R} (fail : error → R) (path deviceID workloadID : string) (fn : string → option WorkloadLifecycleState → IO X R) : IO X R :=
  found ← readLifecycleState path;
  match found with
  | Error err => mret (fail err)
  | Ok None => fn path None
  | Ok (Some state) => if of_lifecycle deviceID workloadID state then fn path (Some state) else mret (fail ErrLifecycleInvalidLineage)
  end.

Definition withLockedState {R} (fail : error → R) (s : WorkloadLifecycleStore) (deviceID workloadID : string)
    (fn : string → option WorkloadLifecycleState → IO X R) : IO X R :=
  match lifecycle_refused s deviceID workloadID with
  | Some err => mret (fail err)
  | None =>
      err ← MkdirAll (lifecycle_dir s);
      match err with
      | Some err => mret (fail (ErrWrap "create workload lifecycle directory" err))
      | None =>
          err ← ChmodPath (lifecycle_dir s);
          match err with
          | Some err => mret (fail (ErrWrap "secure workload lifecycle directory" err))
          | None =>
              opened ← OpenFile (lock_path s deviceID workloadID) LockFile;
              match opened with
              | Error err => mret (fail (ErrWrap "open workload lifecycle lock" err))
              | Ok lockFile =>
                  err ← Lock lockFile;
                  match err with
                  | Some err => _ ← Close lockFile; mret (fail (ErrWrap "lock workload lifecycle" err))
                  | None =>
                      r ← in_lock fail (state_path s deviceID workloadID) deviceID workloadID fn;
                      _ ← Unlock lockFile;
                      _ ← Close lockFile;
                      mret r
                  end
              end
          end
      end
  end.

(** [WorkloadLifecycleStore.Read] *)
Definition Read (s : WorkloadLifecycleStore) (deviceID workloadID : string) : IO X (result (option WorkloadLifecycleState)) :=
  withLockedState Error s deviceID workloadID (λ _ state, mret (Ok state)).

(** The update every operation makes of a state: [next] gives it, [wrap] is what
    a failure to write it is reported as. *)
Definition update_state (wrap : error → error) (next : option WorkloadLifecycleState → result WorkloadLifecycleState)
    (path : string) (state : option WorkloadLifecycleState) : IO X (result WorkloadLifecycleState) :=
  match next state with
  | Error err => mret (Error err)
  | Ok updated => try (writeLifecycleState path updated) wrap (λ _, mret (Ok updated))
  end.
End Store.

(** * Starting a workload *)

Record GovernedWorkloadLaunchRequest : Type := {
  gl_LaunchRequest : AttestedWorkloadLaunchRequest; gl_LifecycleStore : WorkloadLifecycleStore;
  gl_RestartDecision : option SignedWorkloadRestartDecision; gl_LifecycleAuthorityPublicKey : string }.

Definition first_state (grant : WorkloadAdmissionGrant) (now : time) : WorkloadLifecycleState := {|
  ls_Version := WorkloadLifecycleStateVersion; ls_DeviceID := gr_DeviceID grant; ls_WorkloadID := gr_WorkloadID grant; ls_Generation := 1;
  ls_LifecycleEpoch := 1; ls_State := LifecycleStateRunning; ls_ActivationDigest := ""; ls_ExitDigest := ""; ls_RecoveryDigest := "";
  ls_RuntimeTrustEpoch := 0; ls_RuntimeTrustLeaseDigest := ""; ls_RuntimeTrustExpiresAt := utc 0; ls_RuntimeTrustBootIDHash := "";
  ls_RuntimeTrustInstalledBootNS := 0; ls_RuntimeTrustDeadlineBootNS := 0; ls_RestartCountInWindow := 0;
  ls_RestartWindowStartedAt := utc now; ls_UpdatedAt := utc now |}.

Definition restarted_state (state : WorkloadLifecycleState) (decision : WorkloadRestartDecision) (now : time) : WorkloadLifecycleState := {|
  ls_Version := ls_Version state; ls_DeviceID := ls_DeviceID state; ls_WorkloadID := ls_WorkloadID state;
  ls_Generation := wrap_u64 (ls_Generation state + 1); ls_LifecycleEpoch := ls_LifecycleEpoch state; ls_State := LifecycleStateRunning;
  ls_ActivationDigest := ls_ActivationDigest state; ls_ExitDigest := ""; ls_RecoveryDigest := ""; ls_RuntimeTrustEpoch := 0;
  ls_RuntimeTrustLeaseDigest := ""; ls_RuntimeTrustExpiresAt := utc 0; ls_RuntimeTrustBootIDHash := ""; ls_RuntimeTrustInstalledBootNS := 0;
  ls_RuntimeTrustDeadlineBootNS := 0; ls_RestartCountInWindow := wrap_u32 (rd_RestartCountInWindow decision + 1);
  ls_RestartWindowStartedAt := rd_RestartWindowStartedAt decision; ls_UpdatedAt := utc now |}.

Section Start.
Context `{!MapRange, !Ed25519} {X : Type} `{!GoWorld X, !FileSystem X, !LinuxSystem X}.

(** The state a start leads to, but for the activation's digest. *)
Definition started_state (req : GovernedWorkloadLaunchRequest) (now : time) (found : option WorkloadLifecycleState)
    : result WorkloadLifecycleState :=
  let grant := lr_SignedGrant (gl_LaunchRequest req) in
  match found with
  | None =>
      match gl_RestartDecision req with Some _ => Error ErrLifecycleInvalidLineage | None => Ok (first_state (sg_Document grant) now) end
  | Some state =>
      if str_eqb (ls_State state) LifecycleStateRunning then Error ErrLifecycleAlreadyRunning
      else if differ (ls_State state) LifecycleStateExited && differ (ls_State state) LifecycleStateExitedUnknown then Error ErrRestartDecisionRejected
      else match gl_RestartDecision req with
      | None => Error ErrRestartDecisionRejected
      | Some decision =>
          if negb (is_public_key (gl_LifecycleAuthorityPublicKey req))
          then Error (ErrNew "lifecycle authority public key is required for restart")
          else match ValidateRestartForLifecycleState state grant decision (gl_LifecycleAuthorityPublicKey req) now with
          | Some err => Error err
          | None => Ok (restarted_state state (sg_Document decision) now)
          end
      end
  end.

(** Killing the process that [StartAttestedWorkload] returned. *)
Definition kill_started (started : AttestedWorkloadProcess) : IO X unit :=
  match ap_Process started with Some pid => kill_process pid | None => mret tt end.

(** The process is started and the state that names it is written, or the
    process is killed. *)
Definition start_and_record (req : GovernedWorkloadLaunchRequest) (path : string) (nextState : WorkloadLifecycleState)
    : IO X (result (AttestedWorkloadProcess * WorkloadLifecycleState)) :=
  try (StartAttestedWorkload (gl_LaunchRequest req)) unwrapped (λ started,
  match SignedWorkloadActivationReceiptDigest (ap_SignedReceipt started) with
  | Error err => _ ← kill_started started; mret (Error err)
  | Ok activationDigest =>
      let nextState := set_state_ActivationDigest nextState activationDigest in
      written ← writeLifecycleState path nextState;
      match written with
      | Error err => _ ← kill_started started; mret (Error (ErrWrap "persist RUNNING lifecycle state after start; workload killed" err))
      | Ok _ => mret (Ok (started, nextState))
      end
  end).

Definition StartGovernedWorkload (req : GovernedWorkloadLaunchRequest) : IO X (result (AttestedWorkloadProcess * WorkloadLifecycleState)) :=
  let grant := sg_Document (lr_SignedGrant (gl_LaunchRequest req)) in
  now ← now_or (lr_Now (gl_LaunchRequest req));
  withLockedState Error (gl_LifecycleStore req) (gr_DeviceID grant) (gr_WorkloadID grant) (λ path found,
  match started_state req now found with
  | Error err => mret (Error err)
  | Ok nextState => start_and_record req path nextState
  end).
End Start.

(** * Its exit *)

(** [syscall.WaitStatus] *)
Definition ws_Exited (status : Z) : bool := Z.land status 127 =? 0.
Definition ws_Signaled (status : Z) : bool := negb (Z.land status 127 =? 127) && negb (Z.land status 127 =? 0).
Definition ws_Signal (status : Z) : Z := if ws_Signaled status then Z.land status 127 else -1.
Definition ws_ExitStatus (status : Z) : Z := if ws_Exited status then Z.land (Z.shiftr status 8) 255 else -1.

(** The class, the code and the signal of an exit. *)
Definition classifyProcessExit (waited : option Z * option error) : result (string * Z * Z) :=
  match waited with
  | (None, Some err) => Error (ErrWrap "workload wait failed without process state" err)
  | (None, None) => Error (ErrNew "workload exited without process state")
  | (Some status, _) =>
      if ws_Signaled status then Ok (ExitClassSignal, 128 + ws_Signal status, ws_Signal status)
      else if ws_ExitStatus status =? 0 then Ok (ExitClassClean, 0, 0)
      else Ok (ExitClassNonZero, ws_ExitStatus status, 0)
  end.

Definition exited_state (activationDigest exitDigest : string) (exitedAt : time) (found : option WorkloadLifecycleState)
    : result WorkloadLifecycleState :=
  match found with
  | Some state =>
      if differ (ls_State state) LifecycleStateRunning || differ (ls_ActivationDigest state) activationDigest then Error ErrLifecycleInvalidLineage
      else Ok (set_state_UpdatedAt (clearRuntimeTrustState (set_state_ExitDigest (set_state_State state LifecycleStateExited) exitDigest))
        (utc exitedAt))
  | None => Error ErrLifecycleInvalidLineage
  end.

Definition exit_receipt (activation : WorkloadActivationReceipt) (activationDigest exitID exitClass : string) (exitCode signal : Z)
    (exitedAt : time) : WorkloadExitReceipt := {|
  ex_Version := WorkloadExitReceiptVersion; ex_ExitID := exitID; ex_ActivationID := ac_ActivationID activation;
  ex_ActivationDigest := activationDigest; ex_GrantID := ac_GrantID activation; ex_GrantDigest := ac_GrantDigest activation;
  ex_DeviceID := ac_DeviceID activation; ex_WorkloadID := ac_WorkloadID activation; ex_WorkloadSpecDigest := ac_WorkloadSpecDigest activation;
  ex_TargetCgroup := ac_TargetCgroup activation; ex_TargetCgroupID := ac_TargetCgroupID activation; ex_ProcessID := ac_ProcessID activation;
  ex_ExitClass := exitClass; ex_ExitCode := exitCode; ex_Signal := signal; ex_StartedAt := ac_StartedAt activation;
  ex_ExitedAt := utc exitedAt |}.

Section Wait.
Context `{!MapRange, !Ed25519} {X : Type} `{!GoWorld X, !FileSystem X, !LinuxSystem X}.

(** The receipt of an exit, with its digest. *)
Definition sign_exit (activation : WorkloadActivationReceipt) (activationDigest exitClass : string) (exitCode signal : Z) (exitedAt : time)
    (hostAttestorKey : string) : IO X (result (SignedWorkloadExitReceipt * string)) :=
  try (randomToken 24) unwrapped (λ exitID,
  mret (
    signedExit ← SignWorkloadExitReceipt (exit_receipt activation activationDigest exitID exitClass exitCode signal exitedAt) hostAttestorKey;
    exitDigest ← SignedWorkloadExitReceiptDigest signedExit;
    Ok (signedExit, exitDigest))).

(** Gives the receipt, the exit code and the error. *)
Definition WaitGovernedWorkload (started : AttestedWorkloadProcess) (store : WorkloadLifecycleStore) (hostAttestorKey : string)
    : IO X (option SignedWorkloadExitReceipt * Z * option error) :=
  match ap_Process started with
  | None => mret (None, 0, Some (ErrNew "attested workload process is not initialized"))
  | Some pid =>
      if negb (is_private_key hostAttestorKey) then mret (None, 0, Some (ErrNew "host lifecycle attestor private key is required"))
      else
        waited ← Wait pid;
        exitedAt ← Now;
        match classifyProcessExit waited with
        | Error err => mret (None, 0, Some err)
        | Ok (exitClass, exitCode, signal) =>
            let activation := sg_Document (ap_SignedReceipt started) in
            match SignedWorkloadActivationReceiptDigest (ap_SignedReceipt started) with
            | Error err => mret (None, exitCode, Some err)
            | Ok activationDigest =>
                signed ← sign_exit activation activationDigest exitClass exitCode signal exitedAt hostAttestorKey;
                match signed with
                | Error err => mret (None, exitCode, Some err)
                | Ok (signedExit, exitDigest) =>
                    updated ← withLockedState Error store (ac_DeviceID activation) (ac_WorkloadID activation)
                      (update_state unwrapped (exited_state activationDigest exitDigest exitedAt));
                    mret (Some signedExit, exitCode,
                          match updated with Error err => Some (ErrWrap "persist EXITED lifecycle state" err) | Ok _ => None end)
                end
            end
        end
  end.
End Wait.

(** * Its recovery *)

(** What is observed of an orphan: the identity and the cgroup the process has
    now, if it was seen, the boot, and what follows. *)
Record orphan_sight : Type := {
  os_Expected : option LinuxProcessIdentity; os_Boot : string; os_Seen : option LinuxProcessObservation; os_State : string;
  os_Detail : string }.

(** What an observation of the process itself leads to. *)
Definition sight_of_process (receipt : WorkloadActivationReceipt) (expected : LinuxProcessIdentity) (currentBoot : string)
    (current : result LinuxProcessObservation) : orphan_sight :=
  let sight seen state detail := {| os_Expected := Some expected; os_Boot := currentBoot; os_Seen := seen; os_State := state; os_Detail := detail |} in
  match current with
  | Error err => sight None RecoveryObservationUnverifiable ("process observation failed: " +:+ error_text err)
  | Ok current =>
      if negb (lo_Exists current) then sight None RecoveryObservationAbsent "activation pid is absent"
      else if negb (bool_decide (lo_Identity current = expected))
      then sight (Some current) RecoveryObservationPIDReused "pid exists but persistent process identity differs"
      else if negb (lo_ObservedCgroupID current =? ac_TargetCgroupID receipt) ||
              negb (str_eqb (filepath_Clean (lo_ObservedCgroup current)) (filepath_Clean (ac_TargetCgroup receipt)))
      then sight (Some current) RecoveryObservationCgroupMismatch "matching process identity is outside signed target cgroup"
      else sight (Some current) RecoveryObservationMatchRunning "process identity and cgroup match signed activation"
  end.

Definition orphan_observation (state : WorkloadLifecycleState) (receipt : WorkloadActivationReceipt) (activationDigest observationID : string)
    (now : time) (sight : orphan_sight) : WorkloadRecoveryObservation := {|
  ob_Version := WorkloadRecoveryObservationVersion; ob_ObservationID := observationID; ob_DeviceID := ls_DeviceID state;
  ob_WorkloadID := ls_WorkloadID state; ob_Generation := ls_Generation state; ob_ActivationID := ac_ActivationID receipt;
  ob_ActivationDigest := activationDigest;
  ob_PriorRecoveryDigest := (if str_eqb (ls_State state) LifecycleStateQuarantined then ls_RecoveryDigest state else "");
  ob_RuntimeTrustDecisionDigest := ""; ob_ProcessID := ac_ProcessID receipt; ob_ExpectedProcessIdentity := os_Expected sight;
  ob_ObservedProcessIdentity := lo_Identity <$> os_Seen sight; ob_CurrentBootIDHash := os_Boot sight;
  ob_ExpectedCgroup := filepath_Clean (ac_TargetCgroup receipt); ob_ExpectedCgroupID := ac_TargetCgroupID receipt;
  ob_ObservedCgroupID := from_option lo_ObservedCgroupID 0 (os_Seen sight);
  ob_ObservedCgroup := from_option lo_ObservedCgroup "" (os_Seen sight); ob_State := os_State sight; ob_Detail := os_Detail sight;
  ob_ObservedAt := utc now |}.

Section Recover.
Context `{!MapRange, !Ed25519} {X : Type} `{!GoWorld X, !FileSystem X, !LinuxSystem X}.

(** The state and the receipt belong together; gives the activation's digest. *)
Definition orphan_evidence (state : WorkloadLifecycleState) (activation : SignedWorkloadActivationReceipt) (hostAttestorPublicKey : string)
    : result string :=
  match
    ValidateWorkloadLifecycleState state ;;?
    guard_err (differ (ls_State state) LifecycleStateRunning && differ (ls_State state) LifecycleStateQuarantined) ErrReconciliationRejected ;;?
    VerifySignedWorkloadActivationReceipt activation hostAttestorPublicKey
  with
  | Some err => Error err
  | None =>
      activationDigest ← SignedWorkloadActivationReceiptDigest activation;
      let receipt := sg_Document activation in
      if differ (ac_DeviceID receipt) (ls_DeviceID state) || differ (ac_WorkloadID receipt) (ls_WorkloadID state) ||
         differ activationDigest (ls_ActivationDigest state)
      then Error ErrLifecycleInvalidLineage else Ok activationDigest
  end.

Definition look_for_orphan (receipt : WorkloadActivationReceipt) : IO X orphan_sight :=
  let sight expected boot state detail :=
    {| os_Expected := expected; os_Boot := boot; os_Seen := None; os_State := state; os_Detail := detail |} in
  match (if is_v2 receipt then ac_ProcessIdentity receipt else None) with
  | None => mret (sight None "" RecoveryObservationLegacy "activation receipt predates persistent process identity")
  | Some expected =>
      boot ← read_boot_id DefaultBootIDPath;
      match boot with
      | Error err =>
          mret (sight (Some expected) "" RecoveryObservationUnverifiable ("cannot read current boot identity: " +:+ error_text err))
      | Ok bootHash =>
          let currentBoot := "sha256:" +:+ hex_encode bootHash in
          if differ currentBoot (pi_BootIDHash expected)
          then mret (sight (Some expected) currentBoot RecoveryObservationBootChanged "current boot differs from activation boot")
          else
            current ← ObserveLinuxProcess (ac_ProcessID receipt);
            mret (sight_of_process receipt expected currentBoot current)
      end
  end.

Definition ObserveOrphanedWorkload (state : WorkloadLifecycleState) (activation : SignedWorkloadActivationReceipt)
    (hostAttestorPublicKey hostAttestorPrivateKey : string) (now : time) : IO X (result SignedWorkloadRecoveryObservation) :=
  now ← now_or now;
  match orphan_evidence state activation hostAttestorPublicKey with
  | Error err => mret (Error err)
  | Ok activationDigest =>
      try (randomToken 24) unwrapped (λ observationID,
      sight ← look_for_orphan (sg_Document activation);
      mret (SignWorkloadRecoveryObservation (orphan_observation state (sg_Document activation) activationDigest observationID now sight)
        hostAttestorPrivateKey))
  end.
End Recover.

(** What a reconciliation makes of a state. *)
Definition reconciled_state (d : WorkloadReconciliationDecision) (digest : string) (found : option WorkloadLifecycleState)
    : result WorkloadLifecycleState :=
  match found with
  | None => Error ErrLifecycleInvalidLineage
  | Some state =>
      if differ (ls_State state) LifecycleStateRunning || negb (ls_Generation state =? rc_Generation d) ||
         differ (ls_ActivationDigest state) (rc_ActivationDigest d) then Error ErrLifecycleInvalidLineage
      else
        let decided := UTC (rc_DecidedAt d) in
        let recovered st := set_state_RecoveryDigest (set_state_ExitDigest (set_state_State state st) "") digest in
        if str_eqb (rc_Outcome d) ReconciliationKeepRunning then Ok (set_state_UpdatedAt state decided)
        else if str_eqb (rc_Outcome d) ReconciliationMarkExitedUnknown
        then Ok (set_state_UpdatedAt (clearRuntimeTrustState (recovered LifecycleStateExitedUnknown)) decided)
        else if str_eqb (rc_Outcome d) ReconciliationQuarantine
        then Ok (set_state_UpdatedAt (set_state_RuntimeTrustExpiresAt (set_state_RuntimeTrustLeaseDigest
               (set_state_RuntimeTrustEpoch (recovered LifecycleStateQuarantined) 0) "") (utc 0)) decided)
        else Error ErrReconciliationRejected
  end.

(** What a release makes of a quarantined one. *)
Definition released_state (d : QuarantineReleaseDecision) (releaseDigest : string) (found : option WorkloadLifecycleState)
    : result WorkloadLifecycleState :=
  match found with
  | None => Error ErrLifecycleInvalidLineage
  | Some state =>
      let state := NormalizeWorkloadLifecycleState state in
      if differ (ls_State state) LifecycleStateQuarantined || negb (ls_Generation state =? qr_Generation d) ||
         negb (ls_LifecycleEpoch state =? qr_PreviousLifecycleEpoch d) || differ (ls_ActivationDigest state) (qr_ActivationDigest d) ||
         differ (ls_RecoveryDigest state) (qr_QuarantineRecoveryDigest d) ||
         negb (qr_NewLifecycleEpoch d =? wrap_u64 (ls_LifecycleEpoch state + 1)) then Error ErrLifecycleInvalidLineage
      else
        Ok (set_state_UpdatedAt (set_state_RecoveryDigest (set_state_ExitDigest (set_state_LifecycleEpoch
              (set_state_State state LifecycleStateExitedUnknown) (qr_NewLifecycleEpoch d)) "") releaseDigest) (UTC (qr_DecidedAt d)))
  end.

Section Apply.
Context `{!MapRange, !Ed25519} {X : Type} `{!GoWorld X, !FileSystem X, !LinuxSystem X}.

Definition ApplyWorkloadReconciliation (store : WorkloadLifecycleStore) (decision : SignedWorkloadReconciliationDecision)
    (lifecycleAuthorityPublicKey : string) : IO X (result WorkloadLifecycleState) :=
  match VerifySignedWorkloadReconciliationDecision decision lifecycleAuthorityPublicKey with
  | Some err => mret (Error err)
  | None =>
      let d := sg_Document decision in
      match SignedWorkloadReconciliationDecisionDigest decision with
      | Error err => mret (Error err)
      | Ok digest =>
          withLockedState Error store (rc_DeviceID d) (rc_WorkloadID d)
            (update_state (ErrWrap "persist reconciled lifecycle state") (reconciled_state d digest))
      end
  end.

Definition ApplyQuarantineRelease (store : WorkloadLifecycleStore) (release : SignedQuarantineReleaseDecision)
    (lifecycleAuthorityPublicKey : string) (now : time) : IO X (result WorkloadLifecycleState) :=
  now ← now_or now;
  match VerifySignedQuarantineReleaseDecision release lifecycleAuthorityPublicKey now with
  | Some err => mret (Error err)
  | None =>
      let d := sg_Document release in
      match SignedQuarantineReleaseDecisionDigest release with
      | Error err => mret (Error err)
      | Ok releaseDigest =>
          withLockedState Error store (qr_DeviceID d) (qr_WorkloadID d) (update_state unwrapped (released_state d releaseDigest))
      end
  end.
End Apply.

(** * Its runtime trust *)

Definition boot_digest (bootIDHash : string) : string := "sha256:" +:+ hex_encode bootIDHash.

Definition external_lease (l : RuntimeTrustLease) : ExternalLease := {|
  el_IssuedAt := gt_instant (tl_IssuedAt l); el_NotAfter := gt_instant (tl_ExpiresAt l);
  el_MaxLifetime := Sub (gt_instant (tl_ExpiresAt l)) (gt_instant (tl_IssuedAt l)) |}.

(** The lease bound to the local clock: only the next epoch of the state it names,
    and while the lease before is not over. *)
Definition leased_state (l : RuntimeTrustLease) (leaseDigest : string) (clock : ClockSnapshot) (now : time)
    (found : option WorkloadLifecycleState) : result WorkloadLifecycleState :=
  match found with
  | None => Error ErrLifecycleInvalidLineage
  | Some state =>
      let state := NormalizeWorkloadLifecycleState state in
      localLease ← BindExternalLease (external_lease l) clock;
      if differ (ls_State state) LifecycleStateRunning || negb (ls_Generation state =? tl_Generation l) ||
         negb (EffectiveLifecycleEpoch state =? tl_LifecycleEpoch l) || differ (ls_ActivationDigest state) (tl_ActivationDigest l) ||
         negb (tl_LeaseEpoch l =? wrap_u64 (ls_RuntimeTrustEpoch state + 1)) then Error ErrRuntimeTrustRollback
      else if negb (ls_RuntimeTrustEpoch state =? 0) && differ (ls_RuntimeTrustBootIDHash state) (boot_digest (cs_BootIDHash clock))
      then Error ErrRuntimeTrustBootChanged
      else if negb (ls_RuntimeTrustEpoch state =? 0) && (ls_RuntimeTrustDeadlineBootNS state <=? cs_MonoNowNS clock)
      then Error ErrRuntimeTrustLeaseExpired
      else
        Ok (set_state_UpdatedAt (set_state_RuntimeTrustDeadlineBootNS (set_state_RuntimeTrustInstalledBootNS
              (set_state_RuntimeTrustBootIDHash (set_state_RuntimeTrustExpiresAt (set_state_RuntimeTrustLeaseDigest
                (set_state_RuntimeTrustEpoch state (tl_LeaseEpoch l)) leaseDigest) (UTC (tl_ExpiresAt l)))
                (boot_digest (ll_BootIDHash localLease))) (ll_InstalledAtMonoNS localLease)) (ll_DeadlineMonoNS localLease)) (utc now))
  end.

(** A boot clock that the watchdog can use. *)
Definition clock_incomplete (clock : ClockSnapshot) : bool := (cs_MonoNowNS clock =? 0) || str_eqb (cs_BootIDHash clock) (zeros 32).

Definition RuntimeTrustWatchdogRemaining (state : WorkloadLifecycleState) (clock : ClockSnapshot) : result (duration * bool) :=
  let state := NormalizeWorkloadLifecycleState state in
  match
    ValidateWorkloadLifecycleState state ;;?
    guard_err (differ (ls_State state) LifecycleStateRunning || (ls_RuntimeTrustEpoch state =? 0) ||
               str_eqb (ls_RuntimeTrustLeaseDigest state) "") ErrRuntimeTrustInvalid ;;?
    guard_err (clock_incomplete clock) (ErrNew "runtime trust watchdog clock snapshot is invalid") ;;?
    guard_err (differ (ls_RuntimeTrustBootIDHash state) (boot_digest (cs_BootIDHash clock))) ErrRuntimeTrustBootChanged
  with
  | Some err => Error err
  | None =>
      if ls_RuntimeTrustDeadlineBootNS state <=? cs_MonoNowNS clock then Ok (0, true)
      else
        let remainingNS := wrap_u64 (ls_RuntimeTrustDeadlineBootNS state - cs_MonoNowNS clock) in
        if MaxInt64 <? remainingNS then Error (ErrNew "runtime trust watchdog remaining duration overflow")
        else Ok (wrap_i64 remainingNS, false)
  end.

Section Trust.
Context `{!MapRange, !Ed25519} {X : Type} `{!GoWorld X, !FileSystem X, !LinuxSystem X}.

Definition ApplyRuntimeTrustLease (store : WorkloadLifecycleStore) (lease : SignedRuntimeTrustLease) (lifecycleAuthorityPublicKey : string)
    (now : time) : IO X (result WorkloadLifecycleState) :=
  now ← now_or now;
  match VerifySignedRuntimeTrustLease lease lifecycleAuthorityPublicKey now with
  | Some err => mret (Error err)
  | None =>
      match SignedRuntimeTrustLeaseDigest lease with
      | Error err => mret (Error err)
      | Ok leaseDigest =>
          try (CaptureBootClockSnapshot now DefaultBootIDPath) unwrapped (λ baseClock,
          let l := sg_Document lease in
          withLockedState Error store (tl_DeviceID l) (tl_WorkloadID l) (λ path found,
          match found with
          | None => mret (Error ErrLifecycleInvalidLineage)
          | Some _ =>
              try (CaptureBootClockSnapshot 0 DefaultBootIDPath) unwrapped (λ currentClockRaw,
              match AdvanceClockSnapshot baseClock currentClockRaw with
              | Error err => mret (Error err)
              | Ok clock => update_state (ErrWrap "persist runtime trust lease") (leased_state l leaseDigest clock now) path found
              end)
          end))
      end
  end.

(** The decision, the receipt and the state belong together. *)
Definition containment_mismatch (state : WorkloadLifecycleState) (receipt : WorkloadActivationReceipt) (d : RuntimeTrustDecision)
    (activationDigest : string) : bool :=
  differ (td_DeviceID d) (ls_DeviceID state) || differ (td_WorkloadID d) (ls_WorkloadID state) ||
  negb (td_Generation d =? ls_Generation state) || negb (td_LifecycleEpoch d =? EffectiveLifecycleEpoch state) ||
  differ (td_ActivationDigest d) activationDigest || negb (td_RuntimeLeaseEpoch d =? ls_RuntimeTrustEpoch state) ||
  differ (td_RuntimeLeaseDigest d) (ls_RuntimeTrustLeaseDigest state) || negb (td_TargetCgroupID d =? ac_TargetCgroupID receipt) ||
  negb (same_path (td_TargetCgroup d) (ac_TargetCgroup receipt)) || differ (ls_ActivationDigest state) activationDigest.

(** The checks of a containment: gives the digests of the activation and of the
    decision, and the scope to revoke. *)
Definition containment_evidence (state : WorkloadLifecycleState) (activation : SignedWorkloadActivationReceipt)
    (decision : SignedRuntimeTrustDecision) (lifecycleAuthorityPublicKey hostAttestorPrivateKey : string)
    : result (string * string * ScopeFenceKey) :=
  match
    ValidateWorkloadLifecycleState state ;;?
    guard_err (differ (ls_State state) LifecycleStateRunning) ErrRuntimeTrustInvalid ;;?
    guard_err (negb (is_private_key hostAttestorPrivateKey)) (ErrNew "host attestor private key is required") ;;?
    VerifySignedWorkloadActivationReceipt activation (ed25519_Public hostAttestorPrivateKey) ;;?
    VerifySignedRuntimeTrustDecision decision lifecycleAuthorityPublicKey ;;?
    guard_err (differ (td_Outcome (sg_Document decision)) RuntimeTrustRevoke) ErrRuntimeTrustRevokeRequired
  with
  | Some err => Error err
  | None =>
      activationDigest ← SignedWorkloadActivationReceiptDigest activation;
      runtimeDigest ← SignedRuntimeTrustDecisionDigest decision;
      if containment_mismatch state (sg_Document activation) (sg_Document decision) activationDigest then Error ErrLifecycleInvalidLineage
      else
        fenceKey ← FenceKey (td_TargetCgroupID (sg_Document decision)) ActionClassNetworkConnect;
        Ok (activationDigest, runtimeDigest, fenceKey)
  end.

Definition containment_observation (state : WorkloadLifecycleState) (receipt : WorkloadActivationReceipt)
    (activationDigest runtimeDigest observationID : string) (expected : LinuxProcessIdentity) (current : LinuxProcessObservation) (now : time)
    : WorkloadRecoveryObservation := {|
  ob_Version := WorkloadRecoveryObservationVersion; ob_ObservationID := observationID; ob_DeviceID := ls_DeviceID state;
  ob_WorkloadID := ls_WorkloadID state; ob_Generation := ls_Generation state; ob_ActivationID := ac_ActivationID receipt;
  ob_ActivationDigest := activationDigest; ob_PriorRecoveryDigest := ""; ob_RuntimeTrustDecisionDigest := runtimeDigest;
  ob_ProcessID := ac_ProcessID receipt; ob_ExpectedProcessIdentity := Some expected;
  ob_ObservedProcessIdentity := Some (lo_Identity current); ob_CurrentBootIDHash := pi_BootIDHash expected;
  ob_ExpectedCgroup := filepath_Clean (ac_TargetCgroup receipt); ob_ExpectedCgroupID := ac_TargetCgroupID receipt;
  ob_ObservedCgroupID := lo_ObservedCgroupID current; ob_ObservedCgroup := filepath_Clean (lo_ObservedCgroup current);
  ob_State := RecoveryObservationRuntimeTrustRevoked; ob_Detail := "kernel network authority revoked after runtime trust failure";
  ob_ObservedAt := utc now |}.

(** After the scope was revoked. *)
Definition observe_contained (state : WorkloadLifecycleState) (receipt : WorkloadActivationReceipt) (activationDigest runtimeDigest : string)
    (hostAttestorPrivateKey : string) (now : time) : IO X (result SignedWorkloadRecoveryObservation) :=
  match (if is_v2 receipt then ac_ProcessIdentity receipt else None) with
  | None => mret (Error (ErrNew "runtime trust containment requires process-bound activation receipt v2"))
  | Some expected =>
      try (ObserveLinuxProcess (ac_ProcessID receipt)) (ErrWrap "observe process after kernel revocation") (λ current,
      if negb (lo_Exists current)
      then mret (Error (ErrNew "workload exited after kernel revocation before runtime quarantine observation"))
      else if negb (bool_decide (lo_Identity current = expected)) || negb (lo_ObservedCgroupID current =? ac_TargetCgroupID receipt) ||
              negb (same_path (lo_ObservedCgroup current) (ac_TargetCgroup receipt))
      then mret (Error (ErrNew "workload process identity changed after kernel revocation"))
      else
        try (randomToken 24) unwrapped (λ observationID,
        mret (SignWorkloadRecoveryObservation
          (containment_observation state receipt activationDigest runtimeDigest observationID expected current now) hostAttestorPrivateKey)))
  end.

Definition zero_fence : ScopeFenceState :=
  {| fs_BootIDHash := zeros 32; fs_AuthorityTerm := 0; fs_DecisionEpoch := 0; fs_RevocationEpoch := 0 |}.

(** Gives the observation or an error, and the fence that was written before. *)
Definition ContainRuntimeTrustRevocation (installer : option (KernelStore X)) (state : WorkloadLifecycleState)
    (activation : SignedWorkloadActivationReceipt) (decision : SignedRuntimeTrustDecision)
    (lifecycleAuthorityPublicKey hostAttestorPrivateKey : string) (now : time)
    : IO X (result SignedWorkloadRecoveryObservation * ScopeFenceState) :=
  now ← now_or now;
  let state := NormalizeWorkloadLifecycleState state in
  match containment_evidence state activation decision lifecycleAuthorityPublicKey hostAttestorPrivateKey with
  | Error err => mret (Error err, zero_fence)
  | Ok (activationDigest, runtimeDigest, fenceKey) =>
      revoked ← on_store (RevokeCurrentScope installer fenceKey);
      match revoked with
      | Error err => mret (Error (ErrWrap "revoke runtime network authority before quarantine evidence" err), zero_fence)
      | Ok nextFence =>
          r ← observe_contained state (sg_Document activation) activationDigest runtimeDigest hostAttestorPrivateKey now;
          mret (r, nextFence)
      end
  end.

(** * The watchdog *)

(** The state whose lease is over on the local clock, and whose process this is:
    gives the activation's digest and the scope to revoke. *)
Definition expiry_due (activation : SignedWorkloadActivationReceipt) (clock : ClockSnapshot) (state : WorkloadLifecycleState)
    : result (string * ScopeFenceKey) :=
  match
    ValidateWorkloadLifecycleState state ;;?
    guard_err (differ (ls_State state) LifecycleStateRunning || (ls_RuntimeTrustEpoch state =? 0) ||
               str_eqb (ls_RuntimeTrustLeaseDigest state) "") ErrRuntimeTrustInvalid
  with
  | Some err => Error err
  | None =>
      let receipt := sg_Document activation in
      activationDigest ← SignedWorkloadActivationReceiptDigest activation;
      if differ (ac_DeviceID receipt) (ls_DeviceID state) || differ (ac_WorkloadID receipt) (ls_WorkloadID state) ||
         differ activationDigest (ls_ActivationDigest state) then Error ErrLifecycleInvalidLineage
      else if differ (ls_RuntimeTrustBootIDHash state) (boot_digest (cs_BootIDHash clock)) then Error ErrRuntimeTrustBootChanged
      else if cs_MonoNowNS clock <? ls_RuntimeTrustDeadlineBootNS state then Error ErrRuntimeTrustDeadlineNotReached
      else
        fenceKey ← FenceKey (ac_TargetCgroupID receipt) ActionClassNetworkConnect;
        Ok (activationDigest, fenceKey)
  end.

(** What the process is after the revocation. *)
Definition expiry_process_state (receipt : WorkloadActivationReceipt) (expected : LinuxProcessIdentity) (current : LinuxProcessObservation)
    : string :=
  if negb (lo_Exists current) then RuntimeExpiryProcessAbsent
  else if negb (bool_decide (lo_Identity current = expected)) then RuntimeExpiryProcessPIDReused
  else if negb (lo_ObservedCgroupID current =? ac_TargetCgroupID receipt) ||
          negb (same_path (lo_ObservedCgroup current) (ac_TargetCgroup receipt)) then RuntimeExpiryProcessCgroupMismatch
  else RuntimeExpiryProcessRunning.

Definition expiry_document (state : WorkloadLifecycleState) (receipt : WorkloadActivationReceipt) (activationDigest evidenceID : string)
    (expected : LinuxProcessIdentity) (current : LinuxProcessObservation) (clock : ClockSnapshot) (fence : ScopeFenceState) (observedAt : time)
    : RuntimeTrustExpiryEvidence :=
  let seen := lo_Exists current in {|
  ee_Version := RuntimeTrustExpiryEvidenceVersion; ee_EvidenceID := evidenceID; ee_DeviceID := ls_DeviceID state;
  ee_WorkloadID := ls_WorkloadID state; ee_Generation := ls_Generation state; ee_LifecycleEpoch := EffectiveLifecycleEpoch state;
  ee_ActivationDigest := activationDigest; ee_RuntimeTrustLeaseDigest := ls_RuntimeTrustLeaseDigest state;
  ee_RuntimeTrustLeaseEpoch := ls_RuntimeTrustEpoch state; ee_RuntimeTrustExpiresAt := UTC (ls_RuntimeTrustExpiresAt state);
  ee_RuntimeTrustBootIDHash := ls_RuntimeTrustBootIDHash state; ee_RuntimeTrustInstalledBootNS := ls_RuntimeTrustInstalledBootNS state;
  ee_RuntimeTrustDeadlineBootNS := ls_RuntimeTrustDeadlineBootNS state; ee_ObservedBootIDHash := boot_digest (cs_BootIDHash clock);
  ee_ObservedBootNS := cs_MonoNowNS clock; ee_TargetCgroup := filepath_Clean (ac_TargetCgroup receipt);
  ee_TargetCgroupID := ac_TargetCgroupID receipt; ee_ActionClass := ActionClassNetworkConnect;
  ee_KernelFenceBootIDHash := boot_digest (fs_BootIDHash fence); ee_KernelAuthorityTerm := fs_AuthorityTerm fence;
  ee_KernelDecisionEpoch := fs_DecisionEpoch fence; ee_KernelPreviousRevocationEpoch := wrap_u64 (fs_RevocationEpoch fence - 1);
  ee_KernelRevocationEpoch := fs_RevocationEpoch fence; ee_ProcessID := ac_ProcessID receipt; ee_ExpectedProcessIdentity := Some expected;
  ee_ObservedProcessIdentity := (if seen then Some (lo_Identity current) else None);
  ee_ObservedCgroup := (if seen then filepath_Clean (lo_ObservedCgroup current) else "");
  ee_ObservedCgroupID := (if seen then lo_ObservedCgroupID current else 0);
  ee_ProcessState := expiry_process_state receipt expected current; ee_ObservedAt := utc observedAt |}.

(** Under the lock: the scope is revoked, then the process is observed. *)
Definition enforce_expiry (installer : option (KernelStore X)) (activation : SignedWorkloadActivationReceipt)
    (expected : LinuxProcessIdentity) (hostAttestorPrivateKey : string) (clock : ClockSnapshot) (observedAt : time)
    (found : option WorkloadLifecycleState) : IO X (result SignedRuntimeTrustExpiryEvidence * ScopeFenceState) :=
  match found with
  | None => mret (Error ErrLifecycleInvalidLineage, zero_fence)
  | Some state =>
      let state := NormalizeWorkloadLifecycleState state in
      let receipt := sg_Document activation in
      match expiry_due activation clock state with
      | Error err => mret (Error err, zero_fence)
      | Ok (activationDigest, fenceKey) =>
          revoked ← on_store (RevokeCurrentScopeForBoot installer fenceKey (cs_BootIDHash clock));
          match revoked with
          | Error err => mret (Error (ErrWrap "revoke runtime trust network authority" err), zero_fence)
          | Ok nextFence =>
              if differ (boot_digest (fs_BootIDHash nextFence)) (boot_digest (cs_BootIDHash clock))
              then mret (Error ErrRuntimeTrustBootChanged, nextFence)
              else
                r ← try (randomToken 24) unwrapped (λ evidenceID,
                  try (ObserveLinuxProcess (ac_ProcessID receipt)) (ErrWrap "observe process after runtime trust expiry revocation") (λ current,
                  mret (SignRuntimeTrustExpiryEvidence
                    (expiry_document state receipt activationDigest evidenceID expected current clock nextFence observedAt)
                    hostAttestorPrivateKey)));
                mret (r, nextFence)
          end
      end
  end.

Definition EnforceCurrentRuntimeTrustExpiry (store : WorkloadLifecycleStore) (installer : option (KernelStore X))
    (deviceID workloadID : string) (activation : SignedWorkloadActivationReceipt) (hostAttestorPrivateKey : string) (clock : ClockSnapshot)
    (observedAt : time) : IO X (result SignedRuntimeTrustExpiryEvidence * ScopeFenceState) :=
  observedAt ← now_or observedAt;
  let receipt := sg_Document activation in
  match
    guard_err (negb (is_private_key hostAttestorPrivateKey)) (ErrNew "host attestor private key is required") ;;?
    VerifySignedWorkloadActivationReceipt activation (ed25519_Public hostAttestorPrivateKey)
  with
  | Some err => mret (Error err, zero_fence)
  | None =>
      match (if is_v2 receipt then ac_ProcessIdentity receipt else None) with
      | None => mret (Error (ErrNew "runtime trust watchdog requires process-bound activation receipt v2"), zero_fence)
      | Some expected =>
          if IsZero (cs_WallNow clock) || clock_incomplete clock
          then mret (Error (ErrNew "runtime trust watchdog clock snapshot is invalid"), zero_fence)
          else
            withLockedState (λ err, (Error err, zero_fence)) store deviceID workloadID
              (λ _ found, enforce_expiry installer activation expected hostAttestorPrivateKey clock observedAt found)
      end
  end.
End Trust.
