(* ===== verification/LifecycleSteps.v ===== *)
(** * The steps of a lifecycle

    The abstract specification of the lifecycle store.  A lifecycle is a state or
    nothing yet; [lifecycle_move] lists what may become of it, each move with the
    document that authorises it, and [lifecycle_step] is a move whose outcome is a
    valid state.  A state file moves by [file_step]s.  What follows from the steps
    alone: states stay readable, a generation has one activation, quarantine ends
    with a release, and no document applies twice. *)

From S2P Require Import Prelude Crypto Format Json Base64 Unmarshal GoTime Permit JournalEntry FileSystem Journal KernelAbi KernelFabric Evidence Document Workload Lifecycle Recovery Quarantine RuntimeTrust LifecycleText Linux Launcher LifecycleStore.
Local Open Scope Z_scope.
Local Open Scope go_scope.

Implicit Types (s : WorkloadLifecycleState).

(** What a move is made by. *)
Inductive authorisation : Type :=
  | ByActivation (receipt : SignedWorkloadActivationReceipt)
  | ByRestart (decision : SignedWorkloadRestartDecision)
  | ByExit (exit : SignedWorkloadExitReceipt)
  | ByReconciliation (decision : SignedWorkloadReconciliationDecision)
  | ByRelease (release : SignedQuarantineReleaseDecision)
  | ByLease (lease : SignedRuntimeTrustLease).

Section Steps.
Context `{!MapRange, !Ed25519} (authority : string).

(** [authority] is the public key of the lifecycle authority. *)
Inductive lifecycle_move : authorisation → option WorkloadLifecycleState → WorkloadLifecycleState → Prop :=
  | move_start grant now receipt digest :
      utf8_valid (gr_DeviceID grant) = true → utf8_valid (gr_WorkloadID grant) = true →
      SignedWorkloadActivationReceiptDigest receipt = Ok digest →
      lifecycle_move (ByActivation receipt) None (set_state_ActivationDigest (first_state grant now) digest)
  | move_restart s grant decision now receipt digest :
      differ (ls_State s) LifecycleStateRunning = true →
      ValidateRestartForLifecycleState s grant decision authority now = None →
      written_offset (gt_offset (rd_RestartWindowStartedAt (sg_Document decision))) →
      SignedWorkloadActivationReceiptDigest receipt = Ok digest →
      lifecycle_move (ByRestart decision) (Some s) (set_state_ActivationDigest (restarted_state s (sg_Document decision) now) digest)
  | move_exit s exit activationDigest digest exitedAt s' :
      ValidateWorkloadExitReceipt (sg_Document exit) = None → ex_ActivationDigest (sg_Document exit) = activationDigest →
      SignedWorkloadExitReceiptDigest exit = Ok digest →
      exited_state activationDigest digest exitedAt (Some s) = Ok s' → lifecycle_move (ByExit exit) (Some s) s'
  | move_reconcile s decision digest s' :
      VerifySignedWorkloadReconciliationDecision decision authority = None →
      SignedWorkloadReconciliationDecisionDigest decision = Ok digest →
      reconciled_state (sg_Document decision) digest (Some s) = Ok s' → lifecycle_move (ByReconciliation decision) (Some s) s'
  | move_release s release now digest s' :
      VerifySignedQuarantineReleaseDecision release authority now = None →
      SignedQuarantineReleaseDecisionDigest release = Ok digest →
      released_state (sg_Document release) digest (Some s) = Ok s' → lifecycle_move (ByRelease release) (Some s) s'
  | move_lease s lease now digest clock s' :
      VerifySignedRuntimeTrustLease lease authority now = None → SignedRuntimeTrustLeaseDigest lease = Ok digest →
      is_u64 (cs_MonoNowNS clock) → leased_state (sg_Document lease) digest clock now (Some s) = Ok s' →
      lifecycle_move (ByLease lease) (Some s) s'.

(** A move whose outcome is valid: that is what is read afterwards. *)
Inductive lifecycle_step : option WorkloadLifecycleState → option WorkloadLifecycleState → Prop :=
  | step_intro by_ found next : lifecycle_move by_ found next →
      ValidateWorkloadLifecycleState (NormalizeWorkloadLifecycleState next) = None →
      lifecycle_step found (Some (NormalizeWorkloadLifecycleState next)).

(** What is read of a state file. *)
Definition recorded (file : option string) : result (option WorkloadLifecycleState) :=
  match file with None => Ok None | Some text => state ← parse_state text; Ok (Some state) end.

(** The steps of the file: the text of a move's outcome replaces it. *)
Inductive file_step : option string → option string → Prop :=
  | file_step_intro by_ file found next text : recorded file = Ok found → lifecycle_move by_ found next → state_payload next = Ok text →
      file_step file (Some text).

End Steps.

Abbreviation lifecycle_steps authority := (rtc (lifecycle_step authority)).
Abbreviation file_steps authority := (rtc (file_step authority)).

(** * What can be stored stays so *)

Lemma digest_document_utf8 {D} `{!Document D} (signed : Signed D) h : digest_document signed = Ok h → utf8_valid h = true.
Proof. intros (body & _ & ->)%digest_document_Ok. apply utf8_digest_text. Qed.

(** A state with one field replaced. *)
Ltac unfold_setters :=
  unfold set_state_Version, set_state_DeviceID, set_state_WorkloadID, set_state_Generation, set_state_LifecycleEpoch, set_state_State,
    set_state_ActivationDigest, set_state_ExitDigest, set_state_RecoveryDigest, set_state_RuntimeTrustEpoch,
    set_state_RuntimeTrustLeaseDigest, set_state_RuntimeTrustExpiresAt, set_state_RuntimeTrustBootIDHash,
    set_state_RuntimeTrustInstalledBootNS, set_state_RuntimeTrustDeadlineBootNS, set_state_RestartCountInWindow,
    set_state_RestartWindowStartedAt, set_state_UpdatedAt in *.

(** The guards a run has passed. *)
Ltac split_guards :=
  unfold differ in *;
  repeat first
    [ progress split_bool
    | match goal with
      | H : (_ =? _) = true |- _ => apply Z.eqb_eq in H
      | H : (_ =? _) = false |- _ => apply Z.eqb_neq in H
      | H : (_ <=? _) = false |- _ => apply Z.leb_gt in H
      | H : (_ <? _) = false |- _ => apply Z.ltb_ge in H
      end ].

(** What each operation requires of the state, and makes of it. *)
Lemma exited_state_Ok a d t s s' : exited_state a d t (Some s) = Ok s' →
  ls_State s = LifecycleStateRunning ∧ ls_ActivationDigest s = a ∧
  s' = set_state_UpdatedAt (clearRuntimeTrustState (set_state_ExitDigest (set_state_State s LifecycleStateExited) d)) (utc t).
Proof.
  unfold exited_state, differ. destruct (_ || _) eqn:Hg; [done|]. intros Hok. assert (s' = set_state_UpdatedAt
    (clearRuntimeTrustState (set_state_ExitDigest (set_state_State s LifecycleStateExited) d)) (utc t)) as -> by congruence.
  by split_bool.
Qed.

(** The three outcomes of a reconciliation. *)
Inductive reconciles (d : WorkloadReconciliationDecision) (digest : string) s : WorkloadLifecycleState → Prop :=
  | reconciles_keep : rc_Outcome d = ReconciliationKeepRunning → reconciles d digest s (set_state_UpdatedAt s (UTC (rc_DecidedAt d)))
  | reconciles_unknown : rc_Outcome d = ReconciliationMarkExitedUnknown →
      reconciles d digest s (set_state_UpdatedAt (clearRuntimeTrustState (set_state_RecoveryDigest (set_state_ExitDigest
        (set_state_State s LifecycleStateExitedUnknown) "") digest)) (UTC (rc_DecidedAt d)))
  | reconciles_quarantine : rc_Outcome d = ReconciliationQuarantine →
      reconciles d digest s (set_state_UpdatedAt (set_state_RuntimeTrustExpiresAt (set_state_RuntimeTrustLeaseDigest
        (set_state_RuntimeTrustEpoch (set_state_RecoveryDigest (set_state_ExitDigest (set_state_State s LifecycleStateQuarantined) "") digest)
          0) "") (utc 0)) (UTC (rc_DecidedAt d))).

Lemma reconciled_state_Ok d digest s s' : reconciled_state d digest (Some s) = Ok s' →
  ls_State s = LifecycleStateRunning ∧ ls_Generation s = rc_Generation d ∧ ls_ActivationDigest s = rc_ActivationDigest d ∧
  reconciles d digest s s'.
Proof.
  unfold reconciled_state, differ. destruct (_ || _ || _) eqn:Hg; [done|]. split_guards. intros Hok. split_and!; [done..|]. cbv zeta in Hok.
  destruct (str_eqb _ ReconciliationKeepRunning) eqn:E1; split_bool; [by injection Hok as <-; constructor|].
  destruct (str_eqb _ ReconciliationMarkExitedUnknown) eqn:E2; split_bool; [by injection Hok as <-; constructor|].
  destruct (str_eqb _ ReconciliationQuarantine) eqn:E3; split_bool; [by injection Hok as <-; constructor|done].
Qed.

Lemma released_state_Ok d digest s s' : released_state d digest (Some s) = Ok s' →
  let s := NormalizeWorkloadLifecycleState s in
  ls_State s = LifecycleStateQuarantined ∧ ls_Generation s = qr_Generation d ∧ ls_LifecycleEpoch s = qr_PreviousLifecycleEpoch d ∧
  ls_ActivationDigest s = qr_ActivationDigest d ∧ ls_RecoveryDigest s = qr_QuarantineRecoveryDigest d ∧
  qr_NewLifecycleEpoch d = wrap_u64 (ls_LifecycleEpoch s + 1) ∧
  s' = set_state_UpdatedAt (set_state_RecoveryDigest (set_state_ExitDigest (set_state_LifecycleEpoch
    (set_state_State s LifecycleStateExitedUnknown) (qr_NewLifecycleEpoch d)) "") digest) (UTC (qr_DecidedAt d)).
Proof.
  unfold released_state, differ. cbv zeta. destruct (_ || _) eqn:Hg; [done|]. intros Hok. split_guards.
  split_and!; try done. congruence.
Qed.

Lemma leased_state_Ok l digest clock now s s' : leased_state l digest clock now (Some s) = Ok s' →
  let s := NormalizeWorkloadLifecycleState s in
  ∃ local, BindExternalLease (external_lease l) clock = Ok local ∧ ls_State s = LifecycleStateRunning ∧ ls_Generation s = tl_Generation l ∧
  EffectiveLifecycleEpoch s = tl_LifecycleEpoch l ∧ ls_ActivationDigest s = tl_ActivationDigest l ∧
  tl_LeaseEpoch l = wrap_u64 (ls_RuntimeTrustEpoch s + 1) ∧
  (ls_RuntimeTrustEpoch s ≠ 0 → ls_RuntimeTrustBootIDHash s = boot_digest (cs_BootIDHash clock) ∧
    cs_MonoNowNS clock < ls_RuntimeTrustDeadlineBootNS s) ∧
  s' = set_state_UpdatedAt (set_state_RuntimeTrustDeadlineBootNS (set_state_RuntimeTrustInstalledBootNS
    (set_state_RuntimeTrustBootIDHash (set_state_RuntimeTrustExpiresAt (set_state_RuntimeTrustLeaseDigest
      (set_state_RuntimeTrustEpoch s (tl_LeaseEpoch l)) digest) (UTC (tl_ExpiresAt l)))
      (boot_digest (ll_BootIDHash local))) (ll_InstalledAtMonoNS local)) (ll_DeadlineMonoNS local)) (utc now).
Proof.
  unfold leased_state, differ. cbv zeta. destruct (BindExternalLease _ clock) as [local|]; [|done]. unfold mbind, result_bind.
  destruct (_ || _) eqn:Hg; [done|]. destruct (_ && _) eqn:Hb; [done|]. destruct (_ && (_ <=? _)) eqn:Hd; [done|]. intros Hok.
  exists local. split_guards.
  split_and!; try done; [|congruence]. intros Hne. apply Z.eqb_neq in Hne. rewrite Hne in *. cbn [negb andb] in *. by split_guards.
Qed.

(** ** Storable states *)

Lemma storable_normalize s : storable s → storable (NormalizeWorkloadLifecycleState s).
Proof.
  unfold NormalizeWorkloadLifecycleState. destruct (_ =? 0); [|done]. intros [Hs Hn Hc Ht]. split; try done.
  unfold state_numbers in *. cbn. split_Forall. repeat apply Forall_cons_2; try apply Forall_nil_2; done.
Qed.

Lemma wrap_u32_is z : is_u32 (wrap_u32 z).
Proof. unfold is_u32, wrap_u32. pose proof (Z.mod_pos_bound z (2 ^ 32)). lia. Qed.

Lemma bound_lease_u64 lease clock l : BindExternalLease lease clock = Ok l → is_u64 (cs_MonoNowNS clock) →
  is_u64 (ll_InstalledAtMonoNS l) ∧ is_u64 (ll_DeadlineMonoNS l).
Proof. unfold BindExternalLease. split_ifs; intros [= <-]; cbn; auto using wrap_u64_is_u64. Qed.

(** What is stored of a state with some fields replaced. *)
Ltac solve_storable :=
  match goal with H : storable ?s |- _ =>
    destruct H as [Hstr Hnum Hcount Htime]; destruct s; unfold_setters; unfold state_strings, state_numbers, state_times in *; cbn in *;
    split_Forall; split; unfold state_strings, state_numbers, state_times; cbn; repeat (apply Forall_cons_2);
    try apply Forall_nil_2; try done; eauto using wrap_u64_is_u64, wrap_u32_is, digest_document_utf8, utf8_digest_text
  end.

Lemma move_storable `{!MapRange, !Ed25519} authority by_ found next : lifecycle_move authority by_ found next →
  (∀ s, found = Some s → storable s) → storable next.
Proof.
  intros Hm Hfound.
  destruct Hm as [grant now receipt digest Hd Hw Hdig|s grant decision now receipt digest _ _ Ho Hdig|s exit a digest t s' _ _ Hdig Hs|
    s decision digest s' _ Hdig Hs|s release now digest s' _ Hdig Hs|s lease now digest clock s' _ Hdig Hclock Hs].
  - apply digest_document_utf8 in Hdig. split; cbn; repeat apply Forall_cons_2; try apply Forall_nil_2; done.
  - specialize (Hfound s eq_refl). apply digest_document_utf8 in Hdig. solve_storable.
  - specialize (Hfound s eq_refl). apply digest_document_utf8 in Hdig. apply exited_state_Ok in Hs as (_ & _ & ->). solve_storable.
  - specialize (Hfound s eq_refl). apply digest_document_utf8 in Hdig. apply reconciled_state_Ok in Hs as (_ & _ & _ & [_|_|_]); solve_storable.
  - specialize (Hfound s eq_refl). apply digest_document_utf8 in Hdig. apply storable_normalize in Hfound.
    apply released_state_Ok in Hs as (_ & _ & _ & _ & _ & -> & ->).
    generalize dependent (NormalizeWorkloadLifecycleState s). intros n Hn. solve_storable.
  - specialize (Hfound s eq_refl). apply digest_document_utf8 in Hdig. apply storable_normalize in Hfound.
    apply leased_state_Ok in Hs as (local & Hb & _ & _ & _ & _ & He & _ & ->). assert (is_u64 (tl_LeaseEpoch (sg_Document lease))) by (rewrite He; apply wrap_u64_is_u64). clear He. apply bound_lease_u64 in Hb as [Hi Hl]; [|done].
    generalize dependent (NormalizeWorkloadLifecycleState s). intros n Hn. solve_storable.
Qed.

(** ** What is written is read *)

Lemma normalize_idempotent s : NormalizeWorkloadLifecycleState (NormalizeWorkloadLifecycleState s) = NormalizeWorkloadLifecycleState s.
Proof. unfold NormalizeWorkloadLifecycleState. by destruct (ls_LifecycleEpoch s =? 0) eqn:H; cbn; rewrite ?H. Qed.

Lemma normalized_epoch s : ls_LifecycleEpoch (NormalizeWorkloadLifecycleState s) = EffectiveLifecycleEpoch s.
Proof. unfold NormalizeWorkloadLifecycleState, EffectiveLifecycleEpoch. by destruct (_ =? 0). Qed.

Lemma state_payload_Ok s text : state_payload s = Ok text →
  ValidateWorkloadLifecycleState (NormalizeWorkloadLifecycleState s) = None ∧ state_text (NormalizeWorkloadLifecycleState s) = Ok text.
Proof. unfold state_payload. cbv zeta. by destruct (ValidateWorkloadLifecycleState _). Qed.

Lemma recorded_payload s text : state_payload s = Ok text → storable s →
  recorded (Some text) = Ok (Some (NormalizeWorkloadLifecycleState s)).
Proof.
  intros [Hv Ht]%state_payload_Ok Hs%storable_normalize. apply state_text_read in Ht; [|done].
  unfold recorded, parse_state. rewrite Ht. cbv zeta. rewrite normalize_idempotent, Hv. done.
Qed.

Lemma recorded_Some file s : recorded file = Ok (Some s) → storable s ∧ ValidateWorkloadLifecycleState s = None ∧
  NormalizeWorkloadLifecycleState s = s.
Proof.
  destruct file as [text|]; [|done]. unfold recorded, parse_state. destruct (decode_state text) as [d|] eqn:Hd; [|done]. cbv zeta.
  destruct (ValidateWorkloadLifecycleState _) eqn:Hv; [done|]. intros Hr.
  assert (s = NormalizeWorkloadLifecycleState d) as -> by (cbn in Hr; congruence).
  split_and!; [by eapply storable_normalize, decode_state_storable|done|apply normalize_idempotent].
Qed.

Section Refinement.
Context `{!MapRange, !Ed25519} (authority : string).

(** The steps of a file are steps of what it records. *)
Lemma file_step_recorded file file' : file_step authority file file' →
  ∃ found found', recorded file = Ok found ∧ recorded file' = Ok found' ∧ lifecycle_step authority found found'.
Proof.
  intros [by_ ? found next text Hr Hm Hp]. exists found, (Some (NormalizeWorkloadLifecycleState next)). split_and!; [done| |].
  - apply recorded_payload; [done|]. eapply move_storable; [done|]. intros s ->. by apply recorded_Some in Hr as [? _].
  - apply state_payload_Ok in Hp as [? _]. by eapply step_intro.
Qed.

Lemma file_steps_recorded file file' : file_steps authority file file' → ∀ found, recorded file = Ok found →
  ∃ found', recorded file' = Ok found' ∧ lifecycle_steps authority found found'.
Proof.
  induction 1 as [file|file1 file2 file3 Hs _ IH]; intros found Hr; [by exists found|].
  apply file_step_recorded in Hs as (f1 & f2 & H1 & H2 & Hl). destruct (IH _ H2) as (f3 & H3 & Hl3).
  exists f3. split; [done|]. assert (found = f1) as -> by congruence. by eapply rtc_l.
Qed.
End Refinement.

(** * The order of states *)

(** What is read of a state file. *)
Definition sound_state s : Prop :=
  storable s ∧ ValidateWorkloadLifecycleState s = None ∧ NormalizeWorkloadLifecycleState s = s.

(** What may still happen in a generation: leases follow each other while it
    runs, and once it ended it never runs again. *)
Record within s s' : Prop := {
  wi_activation : ls_ActivationDigest s' = ls_ActivationDigest s;
  wi_running : ls_State s' = LifecycleStateRunning → ls_State s = LifecycleStateRunning ∧ ls_RuntimeTrustEpoch s ≤ ls_RuntimeTrustEpoch s' ∧
    (ls_RuntimeTrustEpoch s' = ls_RuntimeTrustEpoch s → ls_RuntimeTrustLeaseDigest s' = ls_RuntimeTrustLeaseDigest s);
  wi_quarantined : ls_State s' = LifecycleStateQuarantined → ls_State s = LifecycleStateRunning ∨ s' = s;
  wi_exited : ls_State s' = LifecycleStateExited → ls_State s = LifecycleStateRunning ∨ s' = s }.

Record later s s' : Prop := {
  la_device : ls_DeviceID s' = ls_DeviceID s;
  la_workload : ls_WorkloadID s' = ls_WorkloadID s;
  la_generation : ls_Generation s ≤ ls_Generation s';
  la_within : ls_Generation s' = ls_Generation s → within s s' }.

#[export] Instance later_preorder : PreOrder later.
Proof.
  split.
  - intros s. split; [done..|lia|]. intros _. split; auto with lia.
  - intros s1 s2 s3 [D1 W1 G1 S1] [D2 W2 G2 S2]. split; [congruence..|lia|]. intros Hg.
    destruct S1 as [A1 R1 Q1 E1]; [lia|]. destruct S2 as [A2 R2 Q2 E2]; [lia|]. split.
    + congruence.
    + intros (H2 & T2 & L2)%R2. destruct (R1 H2) as (H1 & T1 & L1). split_and!; [done|lia|].
      intros He. rewrite L2, L1 by lia. done.
    + intros Hq. destruct (Q2 Hq) as [H2| ->]; [left; by apply R1|by apply Q1].
    + intros He. destruct (E2 He) as [H2| ->]; [left; by apply R1|by apply E1].
Qed.

Lemma sound_u64 s : sound_state s → is_u64 (ls_Generation s) ∧ is_u64 (ls_RuntimeTrustEpoch s).
Proof. intros [[_ Hn _ _] _]. unfold state_numbers in Hn. by split_Forall. Qed.

Lemma valid_generation s : ValidateWorkloadLifecycleState s = None → ls_Generation s ≠ 0.
Proof. unfold ValidateWorkloadLifecycleState. intros Hv. by split_guards. Qed.

Lemma normalized_fields s : ∃ epoch, NormalizeWorkloadLifecycleState s = with_LifecycleEpoch epoch s.
Proof.
  unfold NormalizeWorkloadLifecycleState. destruct (_ =? 0); [by eexists|]. exists (ls_LifecycleEpoch s). by destruct s.
Qed.

Lemma lease_epoch_positive `{!MapRange, !Ed25519} lease publicKey now : VerifySignedRuntimeTrustLease lease publicKey now = None →
  tl_LeaseEpoch (sg_Document lease) ≠ 0.
Proof. intros (_ & Hv & _)%verify_document_None. unfold ValidateRuntimeTrustLease in Hv. by split_guards. Qed.

(** A number that was increased without becoming zero. *)
Lemma wrap_succ n : is_u64 n → wrap_u64 (n + 1) ≠ 0 → wrap_u64 (n + 1) = n + 1.
Proof.
  unfold is_u64, wrap_u64. intros Hn H0. destruct (decide (n + 1 = 2 ^ 64)) as [He|He]; [by rewrite He, Z.mod_same in H0|].
  apply Z.mod_small. lia.
Qed.

Lemma restart_not_running `{!MapRange, !Ed25519} s grant decision publicKey now :
  ValidateRestartForLifecycleState s grant decision publicKey now = None → ls_State s ≠ LifecycleStateRunning.
Proof.
  unfold ValidateRestartForLifecycleState. intros Hv Hr. rewrite Hr in Hv. by split_guards.
Qed.

Section Order.
Context `{!MapRange, !Ed25519} (authority : string).

Lemma step_sound found found' : lifecycle_step authority found found' → (∀ s, found = Some s → sound_state s) →
  ∃ s', found' = Some s' ∧ sound_state s'.
Proof.
  intros [by_ ? next Hm Hv] Hf. eexists. split; [done|]. split; [|split; [done|apply normalize_idempotent]].
  apply storable_normalize. eapply move_storable; [done|]. intros s Hs. by destruct (Hf s Hs).
Qed.

Lemma lifecycle_step_later s s' : sound_state s → lifecycle_step authority (Some s) (Some s') → later s s'.
Proof.
  intros Hs Hstep. pose proof (sound_u64 s Hs) as [Hgen Htrust]. destruct Hs as (_ & _ & Hn).
  inversion Hstep as [by_ found next Hm Hv Hf Hs']. subst found s'. apply valid_generation in Hv.
  destruct (normalized_fields next) as [epoch He]. rewrite He in *. clear Hstep He.
  inversion Hm as [|? grant decision now receipt digest Hr Hval _ _|? exit a digest t ? _ _ _ Ho|? decision digest ? _ _ Ho|
    ? release now digest ? _ _ Ho|? lease now digest clock ? Hlease _ _ Ho]; subst; clear Hm.
  - cbn in Hv. split; try done; cbn.
    + rewrite wrap_succ; [lia|done..].
    + rewrite wrap_succ; [lia|done..].
  - apply exited_state_Ok in Ho as (Hr & _ & ->). destruct s. split; cbn in *; [done..|lia|]. intros _. split; cbn; auto; done.
  - apply reconciled_state_Ok in Ho as (Hr & _ & _ & [_|_|_]); destruct s; (split; cbn in *; [done..|lia|]); intros _; split; cbn; auto; try done; lia.
  - apply released_state_Ok in Ho. cbv zeta in Ho. rewrite Hn in Ho. destruct Ho as (Hr & _ & _ & _ & _ & _ & ->).
    destruct s. split; cbn in *; [done..|lia|]. intros _. split; cbn; auto; done.
  - apply lease_epoch_positive in Hlease. apply leased_state_Ok in Ho. cbv zeta in Ho. rewrite Hn in Ho.
    destruct Ho as (local & _ & Hr & _ & _ & _ & He & _ & ->). rewrite He in Hlease. rewrite wrap_succ in He by done.
    destruct s. cbn in *. split; cbn in *; [done..|lia|]. intros _. split; cbn; auto; try done. rewrite He. intros _. split_and!; [done|lia|lia].
Qed.

Lemma steps_later found found' : lifecycle_steps authority found found' → ∀ s, found = Some s → sound_state s →
  ∃ s', found' = Some s' ∧ sound_state s' ∧ later s s'.
Proof.
  induction 1 as [found|f1 f2 f3 Hstep _ IH]; intros s -> Hs; [by exists s|].
  destruct (step_sound _ _ Hstep) as (s2 & -> & Hs2); [by intros ? [= <-]|]. apply lifecycle_step_later in Hstep; [|done].
  destruct (IH s2 eq_refl Hs2) as (s3 & -> & Hs3 & Hl). exists s3. split_and!; [done|done|by etrans].
Qed.
End Order.

(** * What the steps preserve *)

Section Consequences.
Context `{!MapRange, !Ed25519} (authority : string).

(** Whether a document authorises a single move.  An exit receipt does not name
    a generation, and a decision to keep the workload running changes nothing. *)
Definition single_use (by_ : authorisation) : Prop :=
  match by_ with
  | ByRestart _ | ByRelease _ | ByLease _ => True
  | ByReconciliation decision => rc_Outcome (sg_Document decision) ≠ ReconciliationKeepRunning
  | ByActivation _ | ByExit _ => False
  end.

Lemma restart_generation s grant decision publicKey now : ValidateRestartForLifecycleState s grant decision publicKey now = None →
  rd_PreviousGeneration (sg_Document decision) = ls_Generation s.
Proof. unfold ValidateRestartForLifecycleState. intros Hv. by split_guards. Qed.

Lemma leased_epoch l digest clock now s s' : leased_state l digest clock now (Some s) = Ok s' → sound_state s → tl_LeaseEpoch l ≠ 0 →
  ls_State s = LifecycleStateRunning ∧ ls_Generation s = tl_Generation l ∧ tl_LeaseEpoch l = ls_RuntimeTrustEpoch s + 1 ∧
  ls_Generation s' = ls_Generation s ∧ ls_RuntimeTrustEpoch s' = tl_LeaseEpoch l.
Proof.
  intros Ho Hs Hpos. destruct (sound_u64 s Hs) as [_ Ht]. destruct Hs as (_ & _ & Hn). apply leased_state_Ok in Ho. cbv zeta in Ho.
  rewrite Hn in Ho. destruct Ho as (local & _ & Hr & Hg & _ & _ & He & _ & ->). rewrite wrap_succ in He by congruence.
  destruct s. cbn in *. done.
Qed.

(** After a move nothing that follows is a state the same document fits. *)
Lemma move_not_repeated by_ s next s' next' : lifecycle_move authority by_ (Some s) next → sound_state s →
  ls_Generation next ≠ 0 → single_use by_ → later (NormalizeWorkloadLifecycleState next) s' → sound_state s' →
  ¬ lifecycle_move authority by_ (Some s') next'.
Proof.
  intros Hm Hs Hgen Huse Hl Hs' Hm'. destruct (sound_u64 s Hs) as [Hg _]. pose proof (proj2 (proj2 Hs)) as Hn.
  pose proof (proj2 (proj2 Hs')) as Hn'.
  destruct (normalized_fields next) as [epoch He]. rewrite He in Hl. clear He. destruct Hl as [_ _ Hle Hw].
  inversion Hm; subst; inversion Hm'; subst; clear Hm Hm'; try done.
  - repeat match goal with H : ValidateRestartForLifecycleState _ _ _ _ _ = None |- _ => apply restart_generation in H end.
    cbn in *. rewrite wrap_succ in Hle by done. lia.
  - repeat match goal with H : reconciled_state _ _ _ = Ok _ |- _ => apply reconciled_state_Ok in H as (? & ? & ? & ?) end.
    match goal with H : reconciles _ _ s _ |- _ => destruct H as [Ho|Ho|Ho] end; [done|..];
      destruct Hw as [_ Hr _ _]; try (destruct s; cbn in *; lia); destruct Hr as [Hr _]; try done; destruct s; cbn in Hr; done.
  - repeat match goal with H : released_state _ _ _ = Ok _ |- _ => apply released_state_Ok in H; cbv zeta in H; rewrite ?Hn, ?Hn' in H end.
    destruct_and!. subst. destruct Hw as [_ _ Hq _]; [destruct s; cbn in *; lia|].
    destruct Hq as [Hq|Hq]; [done|destruct s; done|]. subst s'. destruct s. done.
  - repeat match goal with H : leased_state _ _ _ _ _ = Ok _ |- _ => apply leased_epoch in H; [|done|by eapply lease_epoch_positive] end.
    destruct_and!. destruct Hw as [_ Hr _ _]; [cbn; lia|]. destruct Hr as (_ & Hle' & _); [done|]. cbn in Hle'. lia.
Qed.
End Consequences.
