(* ===== verification/LifecycleLaws.v ===== *)
(** * The lifecycle store among other processes

    Several processes launch and govern workloads in one directory.  [HostLaws]
    says what one of them may rely on while the others act between any two of its
    calls: files it has to itself stay as they are, the state files of others move
    by steps of their lifecycles, a consumed grant stays consumed.  Every operation
    of [LifecycleStore.v] is shown to keep to the same rules, and to make the
    move it reports. *)

From S2P Require Import Prelude Crypto Format Json Base64 Unmarshal GoTime Permit JournalEntry FileSystem Journal KernelAbi KernelFabric Evidence Document Workload Lifecycle Recovery Quarantine RuntimeTrust LifecycleText Linux Launcher LifecycleStore LifecycleSteps.
Local Open Scope Z_scope.
Local Open Scope go_scope.

(** * The names of files *)

Definition ends (suffix s : string) : Prop := ∃ base, s = base +:+ suffix.
Abbreviation is_state_file := (ends ".state.json").
Abbreviation is_consumption := (ends ".consumed.json").

(** What stands before [".lock"]. *)
Fixpoint lock_base (s : string) : option string :=
  if str_eqb s ".lock" then Some "" else match s with "" => None | String a s => String a <$> lock_base s end.

(** The state file that a lock file guards. *)
Definition guarded (name : string) : gset string :=
  match lock_base name with Some base => {[base +:+ ".state.json"]} | None => ∅ end.

Lemma lock_base_app base : lock_base (base +:+ ".lock") = Some base.
Proof.
  induction base as [|a base IH]; [done|]. rewrite string_app_cons. cbn [lock_base].
  destruct (str_eqb _ ".lock") eqn:E; [|by rewrite IH]. exfalso. split_bool. injection E as -> E. apply (f_equal String.length) in E.
  rewrite string_length_app in E. cbn in E. lia.
Qed.

(** The last character. *)
Fixpoint last_char (s : string) : option ascii :=
  match s with "" => None | String a s => match last_char s with Some b => Some b | None => Some a end end.

Lemma last_char_app s t : t ≠ "" → last_char (s +:+ t) = last_char t.
Proof.
  intros Ht. assert (∃ b, last_char t = Some b) as [b Hb].
  { destruct t as [|a t]; [done|]. cbn [last_char]. destruct (last_char t); eauto. }
  induction s as [|a s IH]; [done|]. rewrite string_app_cons. cbn [last_char]. by rewrite IH, Hb.
Qed.

Lemma ends_last suffix s : ends suffix s → suffix ≠ "" → last_char s = last_char suffix.
Proof. intros [base ->]. apply last_char_app. Qed.

(** Two names that end differently differ. *)
Lemma not_ends suffix s : suffix ≠ "" → last_char s ≠ last_char suffix → ¬ ends suffix s.
Proof. intros Hs Hl He. by apply Hl, ends_last. Qed.

(** ** Joining a name to a directory *)

Definition plain (name : string) : Prop := name ≠ "" ∧ name ≠ "." ∧ name ≠ ".." ∧ path_parts name = [name].

Lemma path_parts_nonempty s : path_parts s ≠ [].
Proof. destruct s as [|a s]; [done|]. cbn [path_parts]. destruct (Ascii.eqb a "/"); [done|]. by destruct (path_parts s). Qed.

Lemma path_parts_app a name : path_parts name = [name] → path_parts (a +:+ "/" +:+ name) = path_parts a ++ [name].
Proof.
  intros Hn. induction a as [|c a IH].
  - change ("" :: path_parts name = [""] ++ [name]). by rewrite Hn.
  - rewrite (string_app_cons c a). cbn [path_parts]. destruct (Ascii.eqb c "/").
    + change ("" :: path_parts (a +:+ "/" +:+ name) = ("" :: path_parts a) ++ [name]). by rewrite IH.
    + change (match path_parts (a +:+ "/" +:+ name) with part :: parts => String c part :: parts | [] => [String c ""] end =
        match path_parts a with part :: parts => String c part :: parts | [] => [String c ""] end ++ [name]). rewrite IH.
      pose proof (path_parts_nonempty a). by destruct (path_parts a).
Qed.

Lemma clean_parts_last root parts name kept : plain name → clean_parts root (parts ++ [name]) kept = name :: clean_parts root parts kept.
Proof.
  intros (H0 & H1 & H2 & _). revert kept. induction parts as [|part parts IH]; intros kept; cbn [app clean_parts].
  - by rewrite !(proj2 (str_eqb_neq _ _)) by done.
  - destruct (_ || _); [apply IH|]. destruct (str_eqb part ".."); [|apply IH]. destruct kept as [|l k]; [apply IH|].
    destruct (str_eqb l ".."); apply IH.
Qed.

Lemma join_app_last sep l : ∃ pre, ∀ name, join sep (l ++ [name]) = pre +:+ name.
Proof.
  induction l as [|x l [pre IH]]; [by exists ""|]. destruct l as [|y l].
  - exists (x +:+ sep). intros name. cbn. by rewrite <- string_app_assoc.
  - exists (x +:+ sep +:+ pre). intros name. change (x +:+ sep +:+ join sep ((y :: l) ++ [name]) = (x +:+ sep +:+ pre) +:+ name).
    by rewrite IH, <- !string_app_assoc.
Qed.

(** Joining cleans the directory only. *)
Lemma join_name dir : dir ≠ "" → ∃ pre, ∀ name, plain name → filepath_Join dir name = pre +:+ name.
Proof.
  intros Hd. unfold filepath_Join, filepath_Clean. rewrite (proj2 (str_eqb_neq _ _)) by done.
  assert (∀ name, rooted (dir +:+ "/" +:+ name) = rooted dir) as Hroot by (destruct dir; done).
  destruct (join_app_last "/" (reverse (clean_parts (rooted dir) (path_parts dir) []))) as [pre Hpre].
  exists ((if rooted dir then "/" else "") +:+ pre). intros name Hn. rewrite Hroot, path_parts_app by apply Hn.
  rewrite clean_parts_last, reverse_cons, Hpre by done. cbv zeta. rewrite <- string_app_assoc.
  destruct (str_eqb _ "") eqn:E; [|done]. exfalso. split_bool. apply (f_equal String.length) in E. rewrite !string_length_app in E.
  destruct Hn as [Hn _]. destruct name; [done|]. cbn in E. lia.
Qed.

(** A name without a separator. *)
Lemma path_parts_free s : all_chars (λ a, negb (Ascii.eqb a "/")) s = true → path_parts s = [s].
Proof.
  induction s as [|a s IH]; [done|]. cbn [all_chars path_parts]. intros [Ha Hs]%andb_prop. apply negb_true_iff in Ha.
  rewrite Ha, IH by done. done.
Qed.

Lemma hex_no_separator t : all_chars (λ a, negb (Ascii.eqb a "/")) (hex_encode t) = true.
Proof.
  induction t as [|a t IH]; [done|]. cbn [hex_encode all_chars]. rewrite IH, andb_true_r.
  assert (Hh : ∀ n, (n < 16)%N → negb (Ascii.eqb (hex_digit n) "/") = true).
  { intros n Hn. apply negb_true_iff, Ascii.eqb_neq. intros E. apply (f_equal N_of_ascii) in E. unfold hex_digit in E.
    rewrite N_ascii_embedding in E by (destruct (N.ltb_spec n 10); lia). cbn in E. destruct (N.ltb_spec n 10); lia. }
  rewrite !Hh; [done|apply N.mod_lt; lia|]. apply N.Div0.div_lt_upper_bound. pose proof (N_ascii_bounded a). lia.
Qed.

Lemma plain_hex t suffix : all_chars (λ a, negb (Ascii.eqb a "/")) suffix = true → (2 < String.length suffix)%nat →
  plain (hex_encode t +:+ suffix).
Proof.
  intros Hs Hl. assert (2 < String.length (hex_encode t +:+ suffix))%nat as H by (rewrite string_length_app; lia).
  split_and!; try (intros E; rewrite E in H; cbn in H; lia). apply path_parts_free. by rewrite all_chars_app, hex_no_separator.
Qed.

(** A lifecycle's files stand side by side. *)
Lemma lifecycle_files store deviceID workloadID : lifecycle_dir store ≠ "" → ∃ base,
  lock_path store deviceID workloadID = base +:+ ".lock" ∧ state_path store deviceID workloadID = base +:+ ".state.json".
Proof.
  intros Hd. destruct (join_name _ Hd) as [pre Hpre]. unfold lock_path, state_path, lifecycle_base.
  exists (pre +:+ hex_encode (sha256 (TrimSpace deviceID +:+ nul +:+ TrimSpace workloadID))).
  rewrite !Hpre by (apply plain_hex; [done|cbn; lia]). by rewrite !string_app_assoc.
Qed.

Lemma clean_nonempty path : filepath_Clean path ≠ "".
Proof. unfold filepath_Clean. cbv zeta. by destruct (str_eqb _ "") eqn:E; [|split_bool]. Qed.

Lemma state_path_guarded store deviceID workloadID :
  guarded (lock_path store deviceID workloadID) = {[state_path store deviceID workloadID]}.
Proof. destruct (lifecycle_files store deviceID workloadID) as (base & -> & ->); [apply clean_nonempty|]. unfold guarded. by rewrite lock_base_app. Qed.

Lemma state_path_state store deviceID workloadID : is_state_file (state_path store deviceID workloadID).
Proof. destruct (lifecycle_files store deviceID workloadID) as (base & _ & ->); [apply clean_nonempty|]. by exists base. Qed.

Lemma consumption_path_consumption dir grantID : dir ≠ "" → is_consumption (consumption_path dir grantID).
Proof.
  intros Hd. destruct (join_name _ Hd) as [pre Hpre]. unfold consumption_path. rewrite Hpre by (apply plain_hex; [done|cbn; lia]).
  exists (pre +:+ hex_encode (sha256 grantID)). by rewrite string_app_assoc.
Qed.

Lemma state_not_consumption path : is_state_file path → ¬ is_consumption path.
Proof.
  intros [base ->] [base' E]. change ".consumed.json" with (".co" +:+ "nsumed.json") in E. rewrite string_app_assoc in E.
  apply (f_equal (λ s, reverse (String.list_ascii_of_string s))) in E. revert E.
  assert (∀ s t, String.list_ascii_of_string (s +:+ t) = String.list_ascii_of_string s ++ String.list_ascii_of_string t) as Happ.
  { intros s t. induction s as [|a s IH]; [done|]. rewrite string_app_cons. cbn. by rewrite IH. }
  rewrite !(Happ _ ".state.json"), !(Happ _ "nsumed.json"), !reverse_app. done.
Qed.

(** * The rules of the world *)

Section Rules.
Context `{!MapRange, !Ed25519} (authority : string) {X : Type} (files : X → string → option string) (mine : X → gset string).

(** What may happen during a call that itself touches the files [touched]: no
    other file of ours changes, state files of others move by lifecycle steps,
    a consumed grant stays consumed. *)
Record moved (touched : gset string) (x x' : X) : Prop := {
  mv_kept path : path ∈ mine x → path ∉ touched → files x' path = files x path;
  mv_states path : is_state_file path → path ∉ mine x → file_steps authority (files x path) (files x' path);
  mv_consumed path : is_consumption path → path ∉ touched → files x path ≠ None → files x' path ≠ None }.

(** Nothing but what others do. *)
Definition others (x x' : X) : Prop := moved ∅ x x' ∧ mine x' = mine x.

#[export] Instance others_preorder : PreOrder others.
Proof.
  split.
  - intros x. split; [|done]. split; auto. intros path _ _. reflexivity.
  - intros x1 x2 x3 [[K1 S1 C1] M1] [[K2 S2 C2] M2]. split; [|congruence]. split.
    + intros path Hp Hn. rewrite K2, K1 by (rewrite ?M1; done). done.
    + intros path Hp Hn. etrans; [by apply S1|]. apply S2; [done|by rewrite M1].
    + intros path Hp Hn Hx. auto.
Qed.

Definition quiet {A} (f : X → A * X) : Prop := ∀ x a x', f x = (a, x') → others x x'.
End Rules.

(** The laws.  [mine] are the files only this process changes: a state file from
    the lock to the unlock, a temporary file until it is renamed or removed. *)
Class HostLaws `{!MapRange, !Ed25519} (authority : string) (X : Type) `{!GoWorld X, !FileSystem X, !LinuxSystem X} : Type := {
  files : X → string → option string;
  mine : X → gset string;
  time_Now_quiet : quiet authority files mine time_Now;
  rand_Read_quiet n : quiet authority files mine (rand_Read n);
  os_MkdirAll_quiet path : quiet authority files mine (os_MkdirAll path);
  os_ChmodPath_quiet path : quiet authority files mine (os_ChmodPath path);
  file_Sync_quiet f : quiet authority files mine (file_Sync f);
  file_Close_quiet f : quiet authority files mine (file_Close f);
  file_Chmod_quiet f : quiet authority files mine (file_Chmod f);
  unix_Statfs_quiet path : quiet authority files mine (unix_Statfs path);
  unix_OpenDirectory_quiet path : quiet authority files mine (unix_OpenDirectory path);
  unix_Fstat_quiet fd : quiet authority files mine (unix_Fstat fd);
  unix_Close_quiet fd : quiet authority files mine (unix_Close fd);
  os_StatInfo_quiet path : quiet authority files mine (os_StatInfo path);
  cmd_Start_quiet c : quiet authority files mine (cmd_Start c);
  process_Kill_quiet pid : quiet authority files mine (process_Kill pid);
  process_Wait_quiet pid : quiet authority files mine (process_Wait pid);
  unix_ClockGettime_quiet c : quiet authority files mine (unix_ClockGettime c);
  os_ReadFile_law path x r x' : os_ReadFile path x = (r, x') → others authority files mine x x' ∧
    (path ∈ mine x → match r with Ok data => files x path = Some data | Error err => os_IsNotExist err = true → files x path = None end);
  (** an exclusive creation is that of a consumption *)
  os_OpenFile_law path flags x r x' : os_OpenFile path flags x = (r, x') → (flags = CreateExclusive → is_consumption path) →
    others authority files mine x x' ∧
    match r with
    | Ok f => file_Name f = path ∧ (flags = CreateExclusive → files x path = None ∧ files x' path ≠ None)
    | Error _ => True
    end;
  os_CreateTemp_law dir pattern x r x' : os_CreateTemp dir pattern x = (r, x') → moved authority files mine ∅ x x' ∧
    match r with
    | Ok f => mine x' = {[file_Name f]} ∪ mine x ∧ (file_Name f ∉ mine x) ∧ files x' (file_Name f) = Some "" ∧
              ∃ prefix digits, file_Name f = prefix +:+ digits ∧ digits ≠ "" ∧ all_chars is_digit digits = true
    | Error _ => mine x' = mine x
    end;
  (** a write to a file of ours, and to a consumption *)
  file_Write_law f data x r x' : file_Write f data x = (r, x') → file_Name f ∈ mine x →
    moved authority files mine {[file_Name f]} x x' ∧ mine x' = mine x ∧
    (r = None → files x' (file_Name f) = ((λ old, old +:+ data) <$> files x (file_Name f)));
  file_Write_consumption f data x r x' : file_Write f data x = (r, x') → is_consumption (file_Name f) → others authority files mine x x';
  (** a rename has happened, all at once, or not; if it fails, either *)
  os_Rename_law from to x r x' : os_Rename from to x = (r, x') → from ∈ mine x → to ∈ mine x → from ≠ to →
    moved authority files mine {[from; to]} x x' ∧
    match r with
    | None => mine x' = mine x ∖ {[from]} ∧ files x' to = files x from
    | Some _ => mine x' = mine x ∧ (files x' to = files x to ∨ files x' to = files x from)
    end;
  os_Remove_law path x r x' : os_Remove path x = (r, x') → ¬ is_state_file path → ¬ is_consumption path →
    moved authority files mine {[path]} x x' ∧ mine x' = mine x ∖ {[path]};
  (** the lock gives the state file to us, the unlock takes it *)
  unix_Lock_law f x r x' : unix_Lock f x = (r, x') → moved authority files mine ∅ x x' ∧
    match r with None => mine x' = guarded (file_Name f) ∪ mine x | Some _ => mine x' = mine x end;
  unix_Unlock_law f x r x' : unix_Unlock f x = (r, x') → moved authority files mine (guarded (file_Name f)) x x' ∧
    mine x' = mine x ∖ guarded (file_Name f) ∧ ∀ path, path ∈ guarded (file_Name f) → file_steps authority (files x path) (files x' path) }.

Section Runs.
Context `{!MapRange, !Ed25519} (authority : string) {X : Type} `{!GoWorld X, !FileSystem X, !LinuxSystem X, !HostLaws authority X}.

Local Abbreviation others := (others authority files mine).
Local Abbreviation moved := (moved authority files mine).

(** A run that does nothing to files of ours. *)
Definition gentle {E A} (m : M X E A) : Prop := respects others m.

Lemma ReadFile_quiet path : quiet authority files mine (os_ReadFile path).
Proof. intros x r x' Hr. by apply os_ReadFile_law in Hr as [? _]. Qed.

Lemma gentle_open path flags : (flags = CreateExclusive → is_consumption path) → gentle (OpenFile path flags).
Proof. intros Hf. apply respects_call. intros x r x' Hr. by apply os_OpenFile_law in Hr as [? _]. Qed.

Lemma gentle_silent {E A} (f : X → A * X) : quiet authority files mine f → respects others (silent f : M X E A).
Proof. apply respects_silent. Qed.

Lemma gentle_call {E A} (mk : A → E) (f : X → A * X) : quiet authority files mine f → respects others (call mk f).
Proof. apply respects_call. Qed.

(** Gentleness of a program, by its structure. *)
Ltac gentle_step :=
  match goal with
  | |- quiet _ _ _ _ => solve [eauto using time_Now_quiet, rand_Read_quiet, os_MkdirAll_quiet, os_ChmodPath_quiet, file_Sync_quiet,
      file_Chmod_quiet, file_Close_quiet, unix_Statfs_quiet, unix_OpenDirectory_quiet, unix_Fstat_quiet, unix_Close_quiet, os_StatInfo_quiet,
      cmd_Start_quiet, process_Kill_quiet, process_Wait_quiet, unix_ClockGettime_quiet, ReadFile_quiet]
  | |- ∀ _, _ => intros ?
  | |- gentle _ => unfold gentle
  | |- respects _ (let '(_, _) := ?p in _) => destruct p
  | |- respects _ (match ?x with _ => _ end) => destruct x
  | |- respects _ (let _ := _ in _) => cbv zeta
  | |- respects _ (mret _) => apply respects_ret; apply _
  | |- respects _ (check _ _ _) => apply respects_check; [apply _|..]
  | |- respects _ (check_close _ _ _ _) => apply respects_check_close; [apply _|..]
  | |- respects _ (try _ _ _) => apply respects_try; [apply _|..]
  | |- respects _ (_ ≫= _) => apply respects_bind; [apply _|..]
  | |- respects _ (OpenFile _ ReadOnly) => by apply gentle_open
  | |- respects _ (OpenFile _ LockFile) => by apply gentle_open
  | |- respects _ (silent _) => apply gentle_silent
  | |- respects _ (call _ _) => apply gentle_call
  | |- respects _ (host_call _ _) => unfold host_call
  | |- respects _ ?m => first [solve [change (gentle m); auto] | let m' := eval red in m in change (respects others m')]
  end.
Ltac gentle_tac := repeat gentle_step.

Lemma gentle_now_or {E} now : gentle (now_or (E := E) now).
Proof. unfold now_or. gentle_tac. Qed.

Lemma gentle_random {E} n : gentle (randomToken (E := E) n).
Proof. unfold randomToken. gentle_tac. Qed.
Lemma gentle_boot_id path : gentle (read_boot_id path).
Proof. unfold read_boot_id. gentle_tac. Qed.

Lemma gentle_CaptureBootClock now path : gentle (CaptureBootClockSnapshot now path).
Proof. unfold CaptureBootClockSnapshot, capture_clock. pose proof (@gentle_now_or). pose proof gentle_boot_id. gentle_tac. Qed.

Lemma gentle_ticks pid : gentle (readLinuxProcessStartTicks pid).
Proof. unfold readLinuxProcessStartTicks. gentle_tac. Qed.

Lemma gentle_observe pid : gentle (ObserveLinuxProcess pid).
Proof.
  unfold ObserveLinuxProcess, readUnifiedProcessCgroup, resolveUnifiedCgroupPath.
  pose proof gentle_boot_id. pose proof gentle_ticks. gentle_tac.
Qed.

(** A consumption is new when it is made, and stays. *)
Lemma write_consumption_run path dir payload x r x' t : is_consumption path → write_consumption path dir payload x = (r, x', t) →
  others x x' ∧ (r = Ok tt → files x path = None ∧ files x' path ≠ None).
Proof.
  intros Hpath Hrun. unfold write_consumption in Hrun. apply bind_inv in Hrun as (o & x1 & t1 & t2 & [Ho ->]%call_inv & Hk & ->).
  apply os_OpenFile_law in Ho as [Hm Hf]; [|done]. destruct o as [f|err]; [|apply ret_inv in Hk as (-> & -> & _); by split].
  destruct Hf as [Hname Hex]. destruct (Hex eq_refl) as [Hnone Hsome]. clear Hex.
  match type of Hk with ?m x1 = _ => assert (gentle m) as Hg end.
  { apply respects_check_close; [apply _|gentle_tac|..].
    - apply gentle_call. intros y a y' Hw. apply file_Write_consumption in Hw; [done|by rewrite Hname].
    - gentle_tac. }
  apply Hg in Hk. split; [by etrans|]. intros _. split; [done|]. by apply (mv_consumed _ _ _ _ _ _ (proj1 Hk)).
Qed.

Lemma gentle_write_consumption path dir payload : is_consumption path → gentle (write_consumption path dir payload).
Proof. intros Hpath x r x' t Hrun. by eapply write_consumption_run. Qed.

Lemma gentle_consume dir signed issuer spec cgroup cgroupID device now :
  gentle (ConsumeWorkloadAdmissionGrant dir signed issuer spec cgroup cgroupID device now).
Proof.
  unfold ConsumeWorkloadAdmissionGrant. pose proof (@gentle_now_or).
  assert (∀ d g p, gentle (write_consumption (consumption_path (filepath_Clean d) g) (filepath_Clean d) p)) as Hw.
  { intros d g p. apply gentle_write_consumption, consumption_path_consumption, clean_nonempty. }
  gentle_tac.
Qed.

Lemma gentle_attest req consumption cgroup cgroupID pid : gentle (attest_process req consumption cgroup cgroupID pid).
Proof.
  unfold attest_process, kill_process, CaptureLinuxProcessIdentity. pose proof (@gentle_random). pose proof gentle_observe. gentle_tac.
Qed.

Lemma gentle_launch_files spec : gentle (check_launch_files spec).
Proof. unfold check_launch_files. gentle_tac. Qed.

Lemma gentle_StartAttested req : gentle (StartAttestedWorkload req).
Proof.
  unfold StartAttestedWorkload, open_cgroup, launch_in. pose proof (@gentle_now_or). pose proof gentle_consume.
  pose proof gentle_attest. pose proof gentle_launch_files. gentle_tac.
Qed.

(** ** Writing a state *)

Lemma others_keep x x' p : others x x' → p ∈ mine x → files x' p = files x p ∧ p ∈ mine x'.
Proof. intros [[K _ _] Hm] Hp. rewrite Hm. split; [|done]. apply K; [done|set_solver]. Qed.

Section Replace.
Context (path temp : string) (Hpath : is_state_file path) (Htemp : ¬ is_state_file temp).

(** The relation of every call between the creation of the temporary file and
    its removal. *)
Definition replacing (x x' : X) : Prop :=
  moved {[path; temp]} x x' ∧ ∀ p, p ≠ temp → p ∈ mine x ↔ p ∈ mine x'.

#[local] Instance replacing_preorder : PreOrder replacing.
Proof.
  split.
  - intros x. split; [|done]. split; auto. intros p _ _. reflexivity.
  - intros x1 x2 x3 [[K1 S1 C1] M1] [[K2 S2 C2] M2]. split; [|intros p Hp; by rewrite M1, M2]. split.
    + intros p Hp Hn. rewrite K2, K1; try done. apply M1; [set_solver|done].
    + intros p Hp Hn. etrans; [by apply S1|]. apply S2; [done|]. rewrite <- M1; [done|by intros ->].
    + intros p Hp Hn Hx. auto.
Qed.

Lemma others_replacing x x' : others x x' → replacing x x'.
Proof. intros [[K S C] Hm]. split; [|intros p _; by rewrite Hm]. split; set_solver. Qed.

Lemma moved_replacing touched x x' : moved touched x x' → touched ⊆ {[path; temp]} → (∀ p, p ≠ temp → p ∈ mine x ↔ p ∈ mine x') →
  replacing x x'.
Proof. intros [K S C] Ht Hm. split; [|done]. split; set_solver. Qed.

Lemma gentle_replacing {E A} (m : M X E A) : gentle m → respects replacing m.
Proof. intros Hm x a x' t Hx. by eapply others_replacing, Hm. Qed.

Lemma replacing_others x x' : replacing x x' → temp ∉ mine x → temp ∉ mine x' → path ∈ mine x → ¬ is_consumption temp →
  moved {[path]} x x' ∧ mine x' = mine x.
Proof.
  intros [[K S C] Hm] H1 H2 Hp Hc. split.
  - split; [|done|].
    + intros p Hin Hn. apply K; [done|]. set_solver.
    + intros p Hin Hn. apply C; [done|]. set_solver.
  - apply set_eq. intros p. destruct (decide (p = temp)) as [->|Hne]; [done|]. by rewrite Hm.
Qed.

(** The state file before and after: as it was, or the new text. *)
Definition replaced (payload : string) (x : X) (r : result unit) (x' : X) : Prop :=
  replacing x x' ∧ (files x' path = files x path ∨ files x' path = Some payload) ∧ (r = Ok tt → files x' path = Some payload).

Lemma replaced_before payload x1 x2 r x3 : replacing x1 x2 → files x2 path = files x1 path → replaced payload x2 r x3 → replaced payload x1 r x3.
Proof. intros H1 Hf (H2 & H3 & H4). split; [by etrans|]. by rewrite <- Hf. Qed.

Lemma replaced_failed payload x err x' : others x x' → path ∈ mine x → replaced payload x (Error err) x'.
Proof. intros Ho Hp. split; [by apply others_replacing|]. split; [left; by apply others_keep|done]. Qed.

(** From the rename on. *)
Lemma rename_spec f payload x r x' t : file_Name f = temp → temp ≠ path → temp ∈ mine x → path ∈ mine x → files x temp = Some payload →
  check (Rename (file_Name f) path) unwrapped (try (OpenFile (filepath_Dir path) ReadOnly) unwrapped (λ parent,
    err ← Sync parent; _ ← Close parent; mret (match err with Some err => Error err | None => Ok tt end))) x = (r, x', t) →
  replaced payload x r x'.
Proof.
  intros Hf Hne Ht Hp Hc [(err & [Hr _]%call_inv & ->)|(x1 & t1 & t2 & [Hr _]%call_inv & Hk & _)]%check_inv; rewrite Hf in Hr;
    apply os_Rename_law in Hr as (Hm & Hr); try done.
  - destruct Hr as [Hmine Hr]. split; [|split; [rewrite <- Hc; tauto|done]].
    eapply moved_replacing; [done|set_solver|intros p _; by rewrite Hmine].
  - destruct Hr as [Hmine Hr]. rewrite Hc in Hr. assert (gentle (try (OpenFile (filepath_Dir path) ReadOnly) unwrapped (λ parent,
      err ← Sync parent; _ ← Close parent; mret (match err with Some err => Error err | None => Ok tt end)))) as Hg by gentle_tac.
    apply Hg in Hk. assert (files x' path = Some payload) as Hx'.
    { rewrite <- Hr. apply others_keep; [done|]. rewrite Hmine. set_solver. }
    split; [|by split; [right|]]. etrans; [|by apply others_replacing].
    eapply moved_replacing; [done|set_solver|intros p Hpt; rewrite Hmine; set_solver].
Qed.

Lemma replace_spec f payload x r x' t : file_Name f = temp → temp ≠ path → temp ∈ mine x → path ∈ mine x → files x temp = Some "" →
  replace_state path f payload x = (r, x', t) → replaced payload x r x'.
Proof.
  intros Hf Hne Ht Hp Hc Hrun. unfold replace_state in Hrun.
  assert (∀ a : file, gentle (Close a)) as HClose by (intros a; gentle_tac).
  apply check_close_inv in Hrun as [(err & x1 & t1 & c & t2 & [Hm _]%call_inv & Hcl & -> & _)|(x1 & t1 & t2 & [Hm _]%call_inv & Hrun & _)].
  { apply HClose in Hcl. apply file_Chmod_quiet in Hm. apply replaced_failed; [by etrans|done]. }
  apply file_Chmod_quiet in Hm. destruct (others_keep _ _ path Hm Hp) as [Hp1 Hp1']. destruct (others_keep _ _ temp Hm Ht) as [Ht1 Ht1'].
  eapply replaced_before; [by apply others_replacing|done|]. rewrite Hc in Ht1. clear Hm Hp1 Hc Ht Hp x.
  apply check_close_inv in Hrun as [(err & x2 & t3 & c & t4 & [Hm _]%call_inv & Hcl & -> & _)|(x2 & t3 & t4 & [Hm _]%call_inv & Hrun & _)];
    apply file_Write_law in Hm as (Hm & Hmine & Hw); try (by rewrite Hf); rewrite Hf in *;
    assert (files x2 path = files x1 path) as Hp2 by (destruct Hm as [K _ _]; apply K; [done|set_solver]);
    eapply (replaced_before _ _ x2); try done; try (eapply moved_replacing; [done|set_solver|intros p _; by rewrite Hmine]).
  { apply HClose in Hcl. apply replaced_failed; [done|by rewrite Hmine]. }
  specialize (Hw eq_refl). rewrite Ht1 in Hw. rewrite <- Hmine in Hp1', Ht1'. clear Hm Hmine Hp2 Ht1 x1.
  apply check_close_inv in Hrun as [(err & x3 & t5 & c & t6 & [Hm _]%call_inv & Hcl & -> & _)|(x3 & t5 & t6 & [Hm _]%call_inv & Hrun & _)];
    apply file_Sync_quiet in Hm.
  { apply HClose in Hcl. apply replaced_failed; [by etrans|done]. }
  destruct (others_keep _ _ path Hm Hp1') as [Hp3 Hp3']. destruct (others_keep _ _ temp Hm Ht1') as [Ht3 Ht3'].
  eapply replaced_before; [by apply others_replacing|done|].
  apply check_inv in Hrun as [(err & [Hcl _]%call_inv & ->)|(x4 & t7 & t8 & [Hcl _]%call_inv & Hrun & _)]; apply file_Close_quiet in Hcl.
  { by apply replaced_failed. }
  destruct (others_keep _ _ path Hcl Hp3') as [Hp4 Hp4']. destruct (others_keep _ _ temp Hcl Ht3') as [Ht4 Ht4'].
  eapply replaced_before; [by apply others_replacing|done|]. rewrite <- Hf in Hrun at 1.
  eapply rename_spec; try done. rewrite Ht4, Ht3, Hw. done.
Qed.
End Replace.

(** A name that ends with a digit. *)
Lemma digits_end prefix digits : digits ≠ "" → all_chars is_digit digits = true → ∃ a, last_char (prefix +:+ digits) = Some a ∧ is_digit a = true.
Proof.
  intros Hd Ha. rewrite last_char_app by done. clear prefix. induction digits as [|a digits IH]; [done|]. cbn [all_chars last_char] in *.
  apply andb_prop in Ha as [Ha Hs]. destruct digits as [|b digits]; [by exists a|]. destruct IH as (c & Hc & Hcd); [done|done|].
  rewrite Hc. by exists c.
Qed.

(** What is written under the lock: the old text or the new one stands there. *)
Record wrote (path : string) (s : WorkloadLifecycleState) (x : X) (r : result unit) (x' : X) : Prop := {
  wr_moved : moved {[path]} x x';
  wr_mine : mine x' = mine x;
  wr_text : files x' path = files x path ∨ ∃ text, state_payload s = Ok text ∧ files x' path = Some text;
  wr_ok : r = Ok tt → ∃ text, state_payload s = Ok text ∧ files x' path = Some text }.

Lemma write_spec path s x r x' t : writeLifecycleState path s x = (r, x', t) → is_state_file path → path ∈ mine x → wrote path s x r x'.
Proof.
  intros Hrun Hpath Hp. unfold writeLifecycleState in Hrun. destruct (state_payload s) as [text|err] eqn:Htext.
  2: { apply ret_inv in Hrun as (-> & -> & _). split; [by split; auto; intros ???; reflexivity|done|by left|done]. }
  apply try_inv in Hrun as [(err & [Hc _]%call_inv & ->)|(f & x1 & t1 & t2 & [Hc _]%call_inv & Hrun & _)];
    apply os_CreateTemp_law in Hc as (Hm & Hc).
  { split; [|done|left; destruct Hm as [K _ _]; apply K; [done|set_solver]|done]. destruct Hm as [K S C]. split; set_solver. }
  destruct Hc as (Hmine & Hfresh & Hempty & prefix & digits & Hname & Hd & Hdig).
  destruct (digits_end prefix digits Hd Hdig) as (a & Ha & Hdigit). rewrite <- Hname in Ha.
  assert (¬ is_state_file (file_Name f)) as Hns by (apply not_ends; [done|]; rewrite Ha; cbn; by intros [= ->]).
  assert (¬ is_consumption (file_Name f)) as Hnc by (apply not_ends; [done|]; rewrite Ha; cbn; by intros [= ->]).
  assert (file_Name f ≠ path) as Hne by (by intros E; rewrite E in Hfresh).
  apply bind_inv in Hrun as (r1 & x2 & t3 & t4 & Hrep & Hrun & _).
  apply (replace_spec path (file_Name f)) in Hrep as (Hr & Htxt & Hok); try done; [|rewrite Hmine; set_solver..].
  apply bind_inv in Hrun as (r2 & x3 & t5 & t6 & [Hrem _]%call_inv & (-> & -> & _)%ret_inv & _).
  apply os_Remove_law in Hrem as (Hm3 & Hmine3); [|done..].
  assert (files x1 path = files x path) as Hp1 by (destruct Hm as [K _ _]; apply K; [done|set_solver]).
  assert (path ∈ mine x2) as Hp2 by (apply Hr; [done|rewrite Hmine; set_solver]).
  assert (files x3 path = files x2 path) as Hp3 by (destruct Hm3 as [K _ _]; apply K; [done|set_solver]).
  assert (replacing path (file_Name f) x x3) as Hall.
  { assert (PreOrder (replacing path (file_Name f))) by by apply replacing_preorder.
    etrans; [eapply moved_replacing; [done|done|done|set_solver|intros p Hpn; rewrite Hmine; set_solver]|].
    etrans; [exact Hr|]. eapply moved_replacing; [done|done|done|set_solver|intros p Hpn; rewrite Hmine3; set_solver]. }
  apply replacing_others in Hall as [Hmoved Hsame]; [|by try (rewrite Hmine3; set_solver)..].
  rewrite Hp1 in Htxt. split; [done|done| |]; rewrite Hp3; [|naive_solver]. destruct Htxt as [?|?]; [by left|right; eauto].
Qed.

(** ** Under the lock *)

(** What was done to a state file: nothing, or the move of a document. *)
Definition changed (found : option WorkloadLifecycleState) (change : option (authorisation * WorkloadLifecycleState))
    (file file' : option string) : Prop :=
  match change with
  | None => file' = file
  | Some (by_, next) => lifecycle_move authority by_ found next ∧ ∃ text, state_payload next = Ok text ∧ file' = Some text
  end.

Lemma changed_steps found change file file' : recorded file = Ok found → changed found change file file' → file_steps authority file file'.
Proof.
  destruct change as [[by_ next]|]; [|intros _ ->; reflexivity]. intros Hr (Hm & text & Ht & ->). by eapply rtc_once, file_step_intro.
Qed.

(** A run under the lock: of the state that was found it reports [Post]. *)
Record locked_run {R} (path : string) (Post : R → option WorkloadLifecycleState → option (authorisation * WorkloadLifecycleState) → Prop)
    (found : option WorkloadLifecycleState) (x : X) (r : R) (x' : X) : Prop := {
  lr_moved : moved {[path]} x x';
  lr_mine : mine x' = mine x;
  lr_changed : ∃ change, changed found change (files x path) (files x' path) ∧ Post r found change }.

(** A whole run: it kept the rules, and either [failed] or found a state at one
    moment and made its change of it. *)
Definition governed {R} (failed : R → Prop) (path : string)
    (Post : R → option WorkloadLifecycleState → option (authorisation * WorkloadLifecycleState) → Prop) (x : X) (r : R) (x' : X) : Prop :=
  others x x' ∧ (failed r ∨
    ∃ file found change file', file_steps authority (files x path) file ∧ recorded file = Ok found ∧ changed found change file file' ∧
      file_steps authority file' (files x' path) ∧ Post r found change).

Lemma moved_none p x x' : others x x' → p ∈ mine x → moved {[p]} x x' ∧ mine x' = mine x ∧ files x' p = files x p.
Proof. intros Ho Hp. pose proof Ho as [[K S C] Hm]. split_and!; [|done|by apply others_keep]. split; set_solver. Qed.

Section Locked.
Context (s : WorkloadLifecycleStore) (deviceID workloadID : string).

Local Abbreviation path := (state_path s deviceID workloadID).

Section Run.
Context {R : Type} (fail : error → R) (fn : string → option WorkloadLifecycleState → IO X R)
  (Post : R → option WorkloadLifecycleState → option (authorisation * WorkloadLifecycleState) → Prop)
  (Hfn : ∀ found x r x' t, path ∈ mine x → recorded (files x path) = Ok found →
    (∀ st, found = Some st → of_lifecycle deviceID workloadID st = true) → fn path found x = (r, x', t) → locked_run path Post found x r x').

(** From the lock to the unlock. *)
Lemma in_lock_spec x r x' t : path ∈ mine x → in_lock fail path deviceID workloadID fn x = (r, x', t) →
  moved {[path]} x x' ∧ mine x' = mine x ∧
  ((files x' path = files x path ∧ ∃ err, r = fail err) ∨
   ∃ found change, recorded (files x path) = Ok found ∧ changed found change (files x path) (files x' path) ∧ Post r found change).
Proof.
  intros Hp (res & x1 & t1 & t2 & Hread & Hk & _)%bind_inv. unfold readLifecycleState in Hread.
  apply bind_inv in Hread as (payload & x2 & t3 & t4 & [Hrd _]%call_inv & Hret & _). apply os_ReadFile_law in Hrd as [Ho Hcontent].
  specialize (Hcontent Hp). destruct (moved_none path x x2 Ho Hp) as (Hm & Hmine & Hf).
  assert (∀ err, x2 = x' → r = fail err → moved {[path]} x x' ∧ mine x' = mine x ∧
    ((files x' path = files x path ∧ ∃ err, r = fail err) ∨ ∃ found change, recorded (files x path) = Ok found ∧
      changed found change (files x path) (files x' path) ∧ Post r found change)) as Hfail.
  { intros err <- ->. split_and!; [done..|]. left. eauto. }
  assert (∀ found, x1 = x2 → recorded (files x path) = Ok found → (∀ st, found = Some st → of_lifecycle deviceID workloadID st = true) →
    fn path found x1 = (r, x', t2) → moved {[path]} x x' ∧ mine x' = mine x ∧
    ((files x' path = files x path ∧ ∃ err, r = fail err) ∨ ∃ found change, recorded (files x path) = Ok found ∧
      changed found change (files x path) (files x' path) ∧ Post r found change)) as Hrun.
  { intros found -> Hrec Hof Hrun. apply Hfn in Hrun as [[K S C] Hmine' (change & Hc & HP)]; [|by rewrite Hmine|by rewrite Hf|done].
    rewrite Hf in Hc. destruct Hm as [K1 S1 C1]. split_and!; [|congruence|right; by exists found, change].
    split.
    - intros p Hin Hn. rewrite K, K1; [done|done|set_solver|by rewrite Hmine|set_solver].
    - intros p Hst Hn. etrans; [by apply S1|]. apply S; [done|by rewrite Hmine].
    - intros p Hst Hn Hx. auto. }
  destruct payload as [text|err].
  - apply ret_inv in Hret as (-> & -> & _). assert (recorded (files x path) = (st ← parse_state text; Ok (Some st))) as Hrec by by rewrite Hcontent.
    destruct (parse_state text) as [st|err] eqn:Hparse; cbn [mbind result_bind] in *.
    + destruct (of_lifecycle deviceID workloadID st) eqn:Hof; [|apply ret_inv in Hk as (-> & -> & _); by eapply Hfail].
      eapply Hrun; [done|exact Hrec| |exact Hk]. by intros ? [= <-].
    + apply ret_inv in Hk as (-> & -> & _). by eapply Hfail.
  - apply ret_inv in Hret as (-> & -> & _). destruct (os_IsNotExist err).
    + eapply (Hrun None); [done| |done|exact Hk]. by rewrite Hcontent.
    + apply ret_inv in Hk as (-> & -> & _). by eapply Hfail.
Qed.

(** The whole: the lock is taken, the state is read and changed, the lock is
    given back; others act before and after. *)
Lemma locked_spec x r x' t : path ∉ mine x → withLockedState fail s deviceID workloadID fn x = (r, x', t) →
  governed (λ r, ∃ err, r = fail err) path Post x r x'.
Proof.
  intros Hp Hrun. unfold withLockedState in Hrun.
  destruct (lifecycle_refused s deviceID workloadID) as [err|].
  { apply ret_inv in Hrun as (-> & -> & _). split; [reflexivity|left; eauto]. }
  apply bind_inv in Hrun as (e1 & x1 & t1 & t2 & [H1%os_MkdirAll_quiet _]%call_inv & Hrun & _).
  destruct e1 as [err|]; [apply ret_inv in Hrun as (-> & -> & _); split; [done|left; eauto]|].
  apply bind_inv in Hrun as (e2 & x2 & t3 & t4 & [H2%os_ChmodPath_quiet _]%call_inv & Hrun & _).
  assert (others x x2) as H12 by by etrans.
  destruct e2 as [err|]; [apply ret_inv in Hrun as (-> & -> & _); split; [done|left; eauto]|].
  apply bind_inv in Hrun as (o & x3 & t5 & t6 & [Ho _]%call_inv & Hrun & _).
  apply os_OpenFile_law in Ho as [H3 Hname]; [|done]. assert (others x x3) as H13 by by etrans.
  destruct o as [f|err]; [|apply ret_inv in Hrun as (-> & -> & _); split; [done|left; eauto]]. destruct Hname as [Hname _].
  apply bind_inv in Hrun as (e4 & x4 & t7 & t8 & [Hl _]%call_inv & Hrun & _). apply unix_Lock_law in Hl as [Hm4 Hmine4].
  destruct e4 as [err|].
  { apply bind_inv in Hrun as (c & x5 & t9 & t10 & [Hc%file_Close_quiet _]%call_inv & (-> & -> & _)%ret_inv & _).
    split; [|left; eauto]. etrans; [exact H13|]. etrans; [|exact Hc]. done. }
  rewrite Hname, state_path_guarded in Hmine4.
  apply bind_inv in Hrun as (r1 & x5 & t9 & t10 & Hin & Hrun & _).
  apply in_lock_spec in Hin as (Hm5 & Hmine5 & Hin); [|rewrite Hmine4; set_solver].
  apply bind_inv in Hrun as (u & x6 & t11 & t12 & [Hu _]%call_inv & Hrun & _).
  apply unix_Unlock_law in Hu as (Hm6 & Hmine6 & Hs6). rewrite Hname, state_path_guarded in *.
  apply bind_inv in Hrun as (c & x7 & t13 & t14 & [Hc%file_Close_quiet _]%call_inv & (-> & -> & _)%ret_inv & _).
  assert (path ∉ mine x3) as Hp3 by by rewrite (proj2 H13).
  assert (file_steps authority (files x path) (files x4 path)) as Hbefore.
  { etrans; [apply (mv_states _ _ _ _ _ _ (proj1 H13)); [apply state_path_state|done]|].
    apply (mv_states _ _ _ _ _ _ Hm4); [apply state_path_state|done]. }
  assert (file_steps authority (files x4 path) (files x5 path)) as Hduring.
  { destruct Hin as [[-> _]|(found & change & Hrec & Hch & _)]; [reflexivity|by eapply changed_steps]. }
  assert (mine x6 = mine x3) as Hmine by (rewrite Hmine6, Hmine5, Hmine4; set_solver).
  assert (file_steps authority (files x5 path) (files x7 path)) as Hafter.
  { etrans; [apply Hs6; set_solver|]. apply (mv_states _ _ _ _ _ _ (proj1 Hc)); [apply state_path_state|by rewrite Hmine]. }
  split.
  - etrans; [exact H13|]. etrans; [|exact Hc]. split; [|done]. split.
    + intros p Hp' _. assert (p ≠ path) as Hne by (by intros ->).
      rewrite (mv_kept _ _ _ _ _ _ Hm6), (mv_kept _ _ _ _ _ _ Hm5), (mv_kept _ _ _ _ _ _ Hm4); set_solver.
    + intros p Hst Hn. destruct (decide (p = path)) as [->|Hne].
      * etrans; [apply (mv_states _ _ _ _ _ _ Hm4); done|]. etrans; [exact Hduring|apply Hs6; set_solver].
      * etrans; [apply (mv_states _ _ _ _ _ _ Hm4); done|]. etrans; [apply (mv_states _ _ _ _ _ _ Hm5); [done|set_solver]|].
        apply (mv_states _ _ _ _ _ _ Hm6); [done|set_solver].
    + intros p Hst _ Hx. assert (p ∉ ({[path]} : gset string)) as Hne.
      { intros ->%elem_of_singleton. by eapply state_not_consumption, Hst; apply state_path_state. }
      apply (mv_consumed _ _ _ _ _ _ Hm6); [done|done|]. apply (mv_consumed _ _ _ _ _ _ Hm5); [done|done|].
      apply (mv_consumed _ _ _ _ _ _ Hm4); [done|set_solver|done].
  - destruct Hin as [[_ [err ->]]|(found & change & Hrec & Hch & HP)]; [left; eauto|right].
    exists (files x4 path), found, change, (files x5 path). done.
Qed.
End Run.
End Locked.

(** ** The operations *)

Lemma governed_weaken {R R'} (f : R → R') failed failed' path Post Post' x r x' : governed failed path Post x r x' →
  (failed r → failed' (f r)) → (∀ found change, Post r found change → Post' (f r) found change) → governed failed' path Post' x (f r) x'.
Proof.
  intros [Ho [Hf|(f1 & found & change & f2 & H1 & H2 & H3 & H4 & HP)]] HF HPost; (split; [done|]); [left; auto|right].
  exists f1, found, change, f2. split_and!; auto.
Qed.

Lemma governed_failed {R} (failed : R → Prop) path Post x r x' : others x x' → failed r → governed failed path Post x r x'.
Proof. split; auto. Qed.

Lemma governed_after {R} (failed : R → Prop) path Post x x1 r x' : others x x1 → path ∉ mine x → is_state_file path →
  governed failed path Post x1 r x' → governed failed path Post x r x'.
Proof.
  intros Ho Hp Hst [Ho' [Hf|(f1 & found & change & f2 & H1 & Hrest)]]; (split; [by etrans|]); [by left|right].
  exists f1, found, change, f2. split; [|done]. etrans; [|exact H1]. by apply (mv_states _ _ _ _ _ _ (proj1 Ho)).
Qed.

(** A run that reports a state has made it, by this document. *)
Definition reports (by_ : authorisation) (r : result WorkloadLifecycleState) (found : option WorkloadLifecycleState)
    (change : option (authorisation * WorkloadLifecycleState)) : Prop := ∀ next, r = Ok next → change = Some (by_, next).

Lemma update_spec by_ wrap next path found x r x' t : is_state_file path → path ∈ mine x →
  (∀ n, next found = Ok n → lifecycle_move authority by_ found n) → update_state wrap next path found x = (r, x', t) →
  locked_run path (reports by_) found x r x'.
Proof.
  intros Hst Hp Hnext Hrun. unfold update_state in Hrun. destruct (next found) as [n|err].
  2: { apply ret_inv in Hrun as (-> & -> & _). split; [split; auto; intros ???; reflexivity|done|]. exists None. split; [done|]. by intros ?. }
  specialize (Hnext n eq_refl).
  assert (∀ r0 x0, wrote path n x r0 x0 → r0 ≠ Ok tt → ∃ change, changed found change (files x path) (files x0 path)) as Herr.
  { intros r0 x0 [_ _ [He|(text & Ht & Hf)] _] _; [by exists None|]. exists (Some (by_, n)). split; [done|eauto]. }
  apply try_inv in Hrun as [(err & Hw & ->)|([] & x1 & t1 & t2 & Hw & (-> & -> & _)%ret_inv & _)]; apply write_spec in Hw; try done.
  - destruct (Herr _ _ Hw) as [change Hc]; [done|]. destruct Hw. split; [done|done|]. exists change. split; [done|]. by intros ?.
  - destruct Hw as [Hm Hmine _ Hok]. destruct (Hok eq_refl) as (text & Ht & Hf). split; [done|done|].
    exists (Some (by_, n)). split; [split; [done|eauto]|]. by intros ? [= ->].
Qed.

Lemma locked_update (fail : error → result WorkloadLifecycleState) store deviceID workloadID by_ wrap next x r x' t :
  (∀ err, fail err = Error err) → state_path store deviceID workloadID ∉ mine x →
  (∀ found n, next found = Ok n → lifecycle_move authority by_ found n) →
  withLockedState fail store deviceID workloadID (update_state wrap next) x = (r, x', t) →
  governed (λ r, is_ok r = false) (state_path store deviceID workloadID) (reports by_) x r x'.
Proof.
  intros Hfail Hp Hnext Hrun. apply (locked_spec _ _ _ _ _ (reports by_)) in Hrun; [| |done].
  - eapply (governed_weaken id); [done| |done]. intros [err ->]. cbn. by rewrite Hfail.
  - intros found y r0 y' t0 Hin Hrec _ Hy. eapply update_spec; [apply state_path_state|done|by apply Hnext|done].
Qed.

Lemma reconciliation_governed store decision x r x' t :
  state_path store (rc_DeviceID (sg_Document decision)) (rc_WorkloadID (sg_Document decision)) ∉ mine x →
  ApplyWorkloadReconciliation store decision authority x = (r, x', t) →
  governed (λ r, is_ok r = false) (state_path store (rc_DeviceID (sg_Document decision)) (rc_WorkloadID (sg_Document decision)))
    (reports (ByReconciliation decision)) x r x'.
Proof.
  intros Hp Hrun. unfold ApplyWorkloadReconciliation in Hrun.
  destruct (VerifySignedWorkloadReconciliationDecision decision authority) eqn:Hv.
  { apply ret_inv in Hrun as (-> & -> & _). by apply governed_failed. }
  cbv zeta in Hrun. destruct (SignedWorkloadReconciliationDecisionDigest decision) as [digest|err] eqn:Hd.
  2: { apply ret_inv in Hrun as (-> & -> & _). by apply governed_failed. }
  eapply locked_update; [done|done| |exact Hrun]. intros [s|] n Hn; [by eapply move_reconcile|done].
Qed.

Lemma release_governed store release now x r x' t :
  state_path store (qr_DeviceID (sg_Document release)) (qr_WorkloadID (sg_Document release)) ∉ mine x →
  ApplyQuarantineRelease store release authority now x = (r, x', t) →
  governed (λ r, is_ok r = false) (state_path store (qr_DeviceID (sg_Document release)) (qr_WorkloadID (sg_Document release)))
    (reports (ByRelease release)) x r x'.
Proof.
  intros Hp Hrun. unfold ApplyQuarantineRelease in Hrun. apply bind_inv in Hrun as (at_ & x1 & t1 & t2 & Hnow & Hrun & _).
  apply gentle_now_or in Hnow. eapply governed_after; [exact Hnow|done|apply state_path_state|]. rewrite <- (proj2 Hnow) in Hp.
  destruct (VerifySignedQuarantineReleaseDecision release authority at_) eqn:Hv.
  { apply ret_inv in Hrun as (-> & -> & _). by apply governed_failed. }
  cbv zeta in Hrun. destruct (SignedQuarantineReleaseDecisionDigest release) as [digest|err] eqn:Hd.
  2: { apply ret_inv in Hrun as (-> & -> & _). by apply governed_failed. }
  eapply locked_update; [done|done| |exact Hrun]. intros [s|] n Hn; [by eapply move_release|done].
Qed.

(** A request whose documents JSON carries, under the lifecycle's authority. *)
Record sound_request (req : GovernedWorkloadLaunchRequest) : Prop := {
  sr_device : utf8_valid (gr_DeviceID (sg_Document (lr_SignedGrant (gl_LaunchRequest req)))) = true;
  sr_workload : utf8_valid (gr_WorkloadID (sg_Document (lr_SignedGrant (gl_LaunchRequest req)))) = true;
  sr_restart decision : gl_RestartDecision req = Some decision →
    gl_LifecycleAuthorityPublicKey req = authority ∧ written_offset (gt_offset (rd_RestartWindowStartedAt (sg_Document decision))) }.

Definition start_authorisation (req : GovernedWorkloadLaunchRequest) (receipt : SignedWorkloadActivationReceipt) : authorisation :=
  match gl_RestartDecision req with None => ByActivation receipt | Some decision => ByRestart decision end.

Lemma started_state_move req now found next receipt digest : sound_request req → started_state req now found = Ok next →
  SignedWorkloadActivationReceiptDigest receipt = Ok digest →
  lifecycle_move authority (start_authorisation req receipt) found (set_state_ActivationDigest next digest).
Proof.
  intros [Hd Hw Hr] Hs Hdig. unfold started_state in Hs. cbv zeta in Hs. unfold start_authorisation. destruct found as [s|].
  - destruct (str_eqb (ls_State s) LifecycleStateRunning) eqn:Hrun; [done|]. destruct (_ && _); [done|].
    destruct (gl_RestartDecision req) as [decision|]; [|done]. destruct (negb _); [done|].
    destruct (ValidateRestartForLifecycleState _ _ _ _ _) eqn:Hv; [done|]. injection Hs as <-. destruct (Hr decision eq_refl) as [Hkey Ho].
    rewrite Hkey in Hv. eapply move_restart; [|done..]. unfold differ. by rewrite Hrun.
  - destruct (gl_RestartDecision req); [done|]. injection Hs as <-. by apply move_start.
Qed.

(** A start that reports a process has recorded it. *)
Definition reports_start (req : GovernedWorkloadLaunchRequest) (r : result (AttestedWorkloadProcess * WorkloadLifecycleState))
    (found : option WorkloadLifecycleState) (change : option (authorisation * WorkloadLifecycleState)) : Prop :=
  ∀ started next, r = Ok (started, next) → change = Some (start_authorisation req (ap_SignedReceipt started), next) ∧
    SignedWorkloadActivationReceiptDigest (ap_SignedReceipt started) = Ok (ls_ActivationDigest next).

Lemma gentle_kill_started started : gentle (kill_started started).
Proof. unfold kill_started, kill_process. gentle_tac. Qed.

Lemma locked_run_gentle {R} path Post found x (r : R) x' : others x x' → path ∈ mine x → Post r found None → locked_run path Post found x r x'.
Proof.
  intros Ho Hp HP. destruct (moved_none _ _ _ Ho Hp) as (Hm & Hmine & Hf). split; [done|done|]. by exists None.
Qed.

(** A gentle run before or after one that changes the file. *)
Lemma locked_run_before {R} path Post found x x1 (r : R) x' : others x x1 → path ∈ mine x → locked_run path Post found x1 r x' →
  locked_run path Post found x r x'.
Proof.
  intros Ho Hp [[K S C] Hmine Hc]. destruct (moved_none _ _ _ Ho Hp) as ([K1 S1 C1] & Hmine1 & Hf). rewrite Hf in Hc. split; [|congruence|done]. split.
  - intros p Hin Hn. rewrite K, K1; by rewrite ?Hmine1.
  - intros p Hst Hn. etrans; [by apply S1|]. apply S; [done|by rewrite Hmine1].
  - auto.
Qed.

Lemma locked_run_after {R R'} path Post Post' found x (r : R) x1 (r' : R') x' : locked_run path Post found x r x1 → others x1 x' → path ∈ mine x →
  (∀ change, Post r found change → Post' r' found change) → locked_run path Post' found x r' x'.
Proof.
  intros [[K S C] Hmine (change & Hc & HP)] Ho Hp HPost. destruct (moved_none path x1 x' Ho) as ([K1 S1 C1] & Hmine1 & Hf); [by rewrite Hmine|].
  split; [|congruence|exists change; rewrite Hf; auto]. split.
  - intros p Hin Hn. rewrite K1, K; by rewrite ?Hmine.
  - intros p Hst Hn. etrans; [by apply S|]. apply S1; [done|by rewrite Hmine].
  - auto.
Qed.

Lemma write_run path by_ n found x r x' t : writeLifecycleState path n x = (r, x', t) → is_state_file path → path ∈ mine x →
  lifecycle_move authority by_ found n → locked_run path (λ r _ change, r = Ok tt → change = Some (by_, n)) found x r x'.
Proof.
  intros Hw Hst Hp Hmove. apply write_spec in Hw as [Hm Hmine Htxt Hok]; [|done..]. split; [done|done|]. destruct r as [[]|err].
  - destruct (Hok eq_refl) as (text & Ht & Hf). exists (Some (by_, n)). split; [split; [done|eauto]|done].
  - destruct Htxt as [Hf|(text & Ht & Hf)]; [by exists None|]. exists (Some (by_, n)). split; [split; [done|eauto]|done].
Qed.

Lemma start_run req path now next found x r x' t : sound_request req → is_state_file path → path ∈ mine x →
  started_state req now found = Ok next → start_and_record req path next x = (r, x', t) → locked_run path (reports_start req) found x r x'.
Proof.
  intros Hreq Hst Hp Hnext Hrun. unfold start_and_record in Hrun. pose proof gentle_StartAttested as Hstart. pose proof gentle_kill_started as Hkill.
  apply try_inv in Hrun as [(err & Hs%Hstart & ->)|(started & x1 & t1 & t2 & Hs%Hstart & Hrun & _)].
  { apply locked_run_gentle; [done..|]. by intros ??. }
  eapply locked_run_before; [done..|]. apply (others_keep _ _ path) in Hs as [_ Hp1]; [|done].
  destruct (SignedWorkloadActivationReceiptDigest _) as [digest|err] eqn:Hd.
  - cbv zeta in Hrun. apply bind_inv in Hrun as (w & x2 & t3 & t4 & Hw & Hrun & _).
    apply (write_run _ (start_authorisation req (ap_SignedReceipt started)) _ found) in Hw; [|done|done|by eapply started_state_move].
    destruct w as [[]|err].
    + apply ret_inv in Hrun as (-> & -> & _). eapply locked_run_after; [done|reflexivity|done|]. intros change Hc s n [= <- <-].
      rewrite Hc by done. split; [done|]. rewrite Hd. by destruct next.
    + apply bind_inv in Hrun as (k & x3 & t5 & t6 & Hk%Hkill & (-> & -> & _)%ret_inv & _).
      eapply locked_run_after; [done|done|done|]. intros change _ s n. done.
  - apply bind_inv in Hrun as (k & x3 & t5 & t6 & Hk%Hkill & (-> & -> & _)%ret_inv & _). apply locked_run_gentle; [done..|]. by intros ??.
Qed.

Lemma start_governed req x r x' t : sound_request req →
  let grant := sg_Document (lr_SignedGrant (gl_LaunchRequest req)) in
  let path := state_path (gl_LifecycleStore req) (gr_DeviceID grant) (gr_WorkloadID grant) in
  path ∉ mine x → StartGovernedWorkload req x = (r, x', t) → governed (λ r, is_ok r = false) path (reports_start req) x r x'.
Proof.
  intros Hreq grant path Hp Hrun. unfold StartGovernedWorkload in Hrun. cbv zeta in Hrun.
  apply bind_inv in Hrun as (now & x1 & t1 & t2 & Hnow & Hrun & _). apply gentle_now_or in Hnow.
  eapply governed_after; [exact Hnow|done|apply state_path_state|]. rewrite <- (proj2 Hnow) in Hp.
  apply (locked_spec _ _ _ _ _ (reports_start req)) in Hrun; [| |done].
  - eapply (governed_weaken id); [done| |done]. by intros [err ->].
  - intros found y r0 y' t0 Hin Hrec _ Hy. destruct (started_state req now found) as [next|err] eqn:Hs.
    + eapply start_run; [done|apply state_path_state|done|done|done].
    + apply ret_inv in Hy as (-> & -> & _). apply locked_run_gentle; [reflexivity|done|]. by intros ??.
Qed.

(** An exit that reports no error has been recorded. *)
Definition reports_exit (r : option SignedWorkloadExitReceipt * Z * option error) (found : option WorkloadLifecycleState)
    (change : option (authorisation * WorkloadLifecycleState)) : Prop :=
  r.2 = None → ∃ exit next, r.1.1 = Some exit ∧ change = Some (ByExit exit, next).

Lemma sign_exit_Ok activation activationDigest exitClass code signal exitedAt key x r x' t exit digest :
  sign_exit activation activationDigest exitClass code signal exitedAt key x = (r, x', t) → r = Ok (exit, digest) →
  ValidateWorkloadExitReceipt (sg_Document exit) = None ∧ ex_ActivationDigest (sg_Document exit) = activationDigest ∧
  SignedWorkloadExitReceiptDigest exit = Ok digest.
Proof.
  intros Hrun ->. unfold sign_exit in Hrun. apply try_inv in Hrun as [(err & _ & Hrun)|(exitID & x1 & t1 & t2 & _ & (Hrun & _ & _)%ret_inv & _)]; [done|].
  destruct (SignWorkloadExitReceipt _ _) as [signed|] eqn:Hs; [|done]. cbn [mbind result_bind] in Hrun.
  destruct (SignedWorkloadExitReceiptDigest signed) as [d|] eqn:Hd; [|done]. cbn [mbind result_bind] in Hrun.
  assert (exit = signed ∧ digest = d) as [-> ->] by (split; congruence).
  apply sign_document_Ok in Hs as (Hv & _ & Hdoc & _). rewrite Hdoc. done.
Qed.

Lemma gentle_sign_exit activation activationDigest exitClass code signal exitedAt key :
  gentle (sign_exit activation activationDigest exitClass code signal exitedAt key).
Proof. unfold sign_exit. pose proof (@gentle_random). gentle_tac. Qed.

Lemma wait_governed started store key x r x' t :
  let activation := sg_Document (ap_SignedReceipt started) in
  let path := state_path store (ac_DeviceID activation) (ac_WorkloadID activation) in
  path ∉ mine x → WaitGovernedWorkload started store key x = (r, x', t) → governed (λ r, r.2 ≠ None) path reports_exit x r x'.
Proof.
  intros activation path Hp Hrun. unfold WaitGovernedWorkload in Hrun.
  assert (∀ a b err y, others x y → governed (λ r, r.2 ≠ None) path reports_exit x (a, b, Some err) y) as Hfail.
  { intros a b err y Ho. by apply governed_failed. }
  destruct (ap_Process started) as [pid|]; [|apply ret_inv in Hrun as (-> & -> & _); by apply Hfail].
  destruct (negb _); [apply ret_inv in Hrun as (-> & -> & _); by apply Hfail|].
  apply bind_inv in Hrun as (waited & x1 & t1 & t2 & [H1%process_Wait_quiet _]%call_inv & Hrun & _).
  apply bind_inv in Hrun as (exitedAt & x2 & t3 & t4 & [H2%time_Now_quiet _]%silent_inv & Hrun & _).
  assert (others x x2) as H12 by by etrans. clear H1 H2.
  destruct (classifyProcessExit waited) as [[[exitClass code] signal]|err]; [|apply ret_inv in Hrun as (-> & -> & _); by apply Hfail].
  cbv zeta in Hrun. destruct (SignedWorkloadActivationReceiptDigest _) as [digest|err]; [|apply ret_inv in Hrun as (-> & -> & _); by apply Hfail].
  apply bind_inv in Hrun as (signed & x3 & t5 & t6 & Hsign & Hrun & _). pose proof Hsign as H3. apply gentle_sign_exit in H3.
  assert (others x x3) as H13 by by etrans. clear H12 H3.
  destruct signed as [[exit exitDigest]|err]; [|apply ret_inv in Hrun as (-> & -> & _); by apply Hfail].
  eapply sign_exit_Ok in Hsign as (Hv & Hact & Hdig); [|done].
  apply bind_inv in Hrun as (updated & x4 & t7 & t8 & Hlock & (-> & -> & _)%ret_inv & _).
  eapply governed_after; [exact H13|done|apply state_path_state|]. rewrite <- (proj2 H13) in Hp.
  apply (locked_update _ _ _ _ (ByExit exit)) in Hlock; [|done|done|].
  - eapply (governed_weaken (λ u, (Some exit, code, match u with Error err => Some (ErrWrap "persist EXITED lifecycle state" err) | Ok _ => None end)));
      [exact Hlock| |].
    + by destruct updated.
    + intros found change HP. destruct updated as [next|]; [|done]. intros _. exists exit, next. split; [done|by apply HP].
  - intros [s|] n Hn; [|done]. by eapply move_exit.
Qed.


Lemma boot_clock_u64 now path x r x' t clock : CaptureBootClockSnapshot now path x = (r, x', t) → r = Ok clock → is_u64 (cs_MonoNowNS clock).
Proof.
  intros Hrun ->. unfold CaptureBootClockSnapshot, capture_clock in Hrun.
  apply bind_inv in Hrun as (w & x1 & t1 & t2 & _ & Hrun & _).
  apply try_inv in Hrun as [(err & _ & Hrun)|([sec nsec] & x2 & t3 & t4 & _ & Hrun & _)]; [done|].
  destruct (_ || _); [by apply ret_inv in Hrun as (Hrun & _)|].
  apply try_inv in Hrun as [(err & _ & Hrun)|(h & x3 & t5 & t6 & _ & (Hrun & _)%ret_inv & _)]; [done|].
  injection Hrun as ->. apply wrap_u64_is_u64.
Qed.

Lemma AdvanceClockSnapshot_mono base current clock : AdvanceClockSnapshot base current = Ok clock → cs_MonoNowNS clock = cs_MonoNowNS current.
Proof. unfold AdvanceClockSnapshot. split_ifs; by intros [= <-]. Qed.

Lemma lease_governed store lease now x r x' t :
  state_path store (tl_DeviceID (sg_Document lease)) (tl_WorkloadID (sg_Document lease)) ∉ mine x →
  ApplyRuntimeTrustLease store lease authority now x = (r, x', t) →
  governed (λ r, is_ok r = false) (state_path store (tl_DeviceID (sg_Document lease)) (tl_WorkloadID (sg_Document lease)))
    (reports (ByLease lease)) x r x'.
Proof.
  intros Hp Hrun. unfold ApplyRuntimeTrustLease in Hrun. apply bind_inv in Hrun as (at_ & x1 & t1 & t2 & Hnow & Hrun & _).
  apply gentle_now_or in Hnow. eapply governed_after; [exact Hnow|done|apply state_path_state|]. rewrite <- (proj2 Hnow) in Hp. clear Hnow x.
  destruct (VerifySignedRuntimeTrustLease lease authority at_) eqn:Hv.
  { apply ret_inv in Hrun as (-> & -> & _). by apply governed_failed. }
  destruct (SignedRuntimeTrustLeaseDigest lease) as [digest|err] eqn:Hd.
  2: { apply ret_inv in Hrun as (-> & -> & _). by apply governed_failed. }
  apply try_inv in Hrun as [(err & Hc%gentle_CaptureBootClock & ->)|(base & x2 & t3 & t4 & Hc%gentle_CaptureBootClock & Hrun & _)].
  { by apply governed_failed. }
  eapply governed_after; [exact Hc|done|apply state_path_state|]. rewrite <- (proj2 Hc) in Hp. clear Hc x1.
  apply (locked_spec _ _ _ _ _ (reports (ByLease lease))) in Hrun; [| |done].
  { eapply (governed_weaken id); [done| |done]. by intros [err ->]. }
  intros [s|] y r0 y' t0 Hin Hrec _ Hy.
  2: { apply ret_inv in Hy as (-> & -> & _). apply locked_run_gentle; [reflexivity|done|by intros ?]. }
  apply try_inv in Hy as [(err & Hg%gentle_CaptureBootClock & ->)|(current & y1 & t5 & t6 & Hg & Hy & _)].
  { apply locked_run_gentle; [done|done|by intros ?]. }
  pose proof (boot_clock_u64 _ _ _ _ _ _ _ Hg eq_refl) as Hu. apply gentle_CaptureBootClock in Hg.
  eapply locked_run_before; [done..|]. apply (others_keep _ _ _ Hg) in Hin as [_ Hin].
  destruct (AdvanceClockSnapshot base current) as [clock|err] eqn:Hadv.
  2: { apply ret_inv in Hy as (-> & -> & _). apply locked_run_gentle; [reflexivity|done|by intros ?]. }
  eapply update_spec; [apply state_path_state|done| |exact Hy]. intros n Hn. eapply move_lease; [done|done| |done].
  by rewrite (AdvanceClockSnapshot_mono _ _ _ Hadv).
Qed.

(** ** The operations that only read *)

Lemma read_governed store deviceID workloadID x r x' t : state_path store deviceID workloadID ∉ mine x →
  Read store deviceID workloadID x = (r, x', t) →
  governed (λ r, is_ok r = false) (state_path store deviceID workloadID) (λ r found change, change = None ∧ r = Ok found) x r x'.
Proof.
  intros Hp Hrun. apply (locked_spec _ _ _ _ _ (λ r found change, change = None ∧ r = Ok found)) in Hrun; [| |done].
  - eapply (governed_weaken id); [done| |done]. by intros [err ->].
  - intros found y r0 y' t0 Hin Hrec _ (-> & -> & _)%ret_inv. by apply locked_run_gentle.
Qed.

Lemma gentle_ObserveOrphaned state activation hostPublic hostPrivate now : gentle (ObserveOrphanedWorkload state activation hostPublic hostPrivate now).
Proof.
  unfold ObserveOrphanedWorkload, look_for_orphan. pose proof (@gentle_now_or). pose proof (@gentle_random). pose proof gentle_observe.
  pose proof gentle_boot_id. gentle_tac.
Qed.

(** The kernel's store is none of our files. *)
Definition quiet_store (installer : option (KernelStore X)) : Prop := ∀ st, installer = Some st →
  (∀ ctx key state, quiet authority files mine (st_PutFence st ctx key state)) ∧
  (∀ get ctx key, st_GetFence st = Some get → quiet authority files mine (get ctx key)).

Lemma gentle_on_store {A} (m : M X StoreCall A) : gentle m → gentle (on_store m).
Proof. intros Hm x a x' t Hx. unfold on_store in Hx. destruct (m x) as [[a0 x0] t0] eqn:Hr. injection Hx as <- <- <-. by eapply Hm. Qed.

Lemma gentle_revoke installer key boot : quiet_store installer → gentle (revokeCurrentScope installer key boot).
Proof.
  intros Hq. unfold revokeCurrentScope. destruct installer as [st|]; [|apply respects_ret, _]. destruct (Hq st eq_refl) as [Hput Hget].
  destruct (st_GetFence st) as [get|]; [|apply respects_ret, _].
  apply respects_bind; [apply _|apply gentle_call; by apply Hget|]. intros [current|err]; [|apply respects_ret, _].
  assert (∀ next, gentle (RevokeScope (Some st) key next)) as Hrev.
  { intros next. unfold RevokeScope. repeat (destruct (_ : bool); [apply respects_ret, _|]). apply gentle_call, Hput. }
  gentle_tac; try apply Hrev.
Qed.

Lemma gentle_contain installer state activation decision lifecyclePublic hostPrivate now : quiet_store installer →
  gentle (ContainRuntimeTrustRevocation installer state activation decision lifecyclePublic hostPrivate now).
Proof.
  intros Hq. unfold ContainRuntimeTrustRevocation, observe_contained. pose proof (@gentle_now_or). pose proof (@gentle_random).
  pose proof gentle_observe.
  assert (∀ key, gentle (on_store (RevokeCurrentScope installer key))) by (intros key; by apply gentle_on_store, gentle_revoke). gentle_tac.
Qed.

Lemma gentle_enforce installer activation expected key clock observedAt found : quiet_store installer →
  gentle (enforce_expiry installer activation expected key clock observedAt found).
Proof.
  intros Hq. unfold enforce_expiry. pose proof (@gentle_random). pose proof gentle_observe.
  assert (∀ key boot, gentle (on_store (RevokeCurrentScopeForBoot installer key boot))).
  { intros k boot. apply gentle_on_store. unfold RevokeCurrentScopeForBoot. destruct (str_eqb _ _); [apply respects_ret, _|by apply gentle_revoke]. }
  gentle_tac.
Qed.

Lemma expiry_governed store installer deviceID workloadID activation key clock observedAt x r x' t : quiet_store installer →
  state_path store deviceID workloadID ∉ mine x →
  EnforceCurrentRuntimeTrustExpiry store installer deviceID workloadID activation key clock observedAt x = (r, x', t) →
  governed (λ r, is_ok r.1 = false) (state_path store deviceID workloadID) (λ _ _ change, change = None) x r x'.
Proof.
  intros Hq Hp Hrun. unfold EnforceCurrentRuntimeTrustExpiry in Hrun. apply bind_inv in Hrun as (at_ & x1 & t1 & t2 & Hnow & Hrun & _).
  apply gentle_now_or in Hnow. eapply governed_after; [exact Hnow|done|apply state_path_state|]. rewrite <- (proj2 Hnow) in Hp. cbv zeta in Hrun.
  assert (∀ err y, r = (Error err, y) → x' = x1 → governed (λ r, is_ok r.1 = false) (state_path store deviceID workloadID)
    (λ _ _ change, change = None) x1 r x') as Hfail by (intros err y -> ->; by apply governed_failed).
  case_match; [apply ret_inv in Hrun as (-> & -> & _); by eapply Hfail|].
  case_match; [|apply ret_inv in Hrun as (-> & -> & _); by eapply Hfail].
  case_match; [apply ret_inv in Hrun as (-> & -> & _); by eapply Hfail|].
  apply (locked_spec _ _ _ _ _ (λ _ _ change, change = None)) in Hrun; [| |done].
  - eapply (governed_weaken id); [done| |done]. by intros [err ->].
  - intros found y r0 y' t0 Hin Hrec _ Hy%gentle_enforce; [|done]. by apply locked_run_gentle.
Qed.
End Runs.
