(* ===== verification/LifecycleRun.v ===== *)
(** * What the lifecycle store promises

    The operations of any number of processes on one lifecycle, each within the
    rules of [LifecycleLaws.v]: every operation that reports success has made the
    move its document authorises, and what follows for runs one after another. *)

From S2P Require Import Prelude Crypto Format Json Base64 Unmarshal GoTime Permit JournalEntry FileSystem Journal KernelAbi KernelFabric Evidence Document Workload Lifecycle Recovery Quarantine RuntimeTrust LifecycleText Linux Launcher LifecycleStore LifecycleSteps LifecycleLaws.
Local Open Scope Z_scope.
Local Open Scope go_scope.

Implicit Types (s : WorkloadLifecycleState).

Section Promises.
Context `{!MapRange, !Ed25519} (authority : string) {X : Type} `{!GoWorld X, !FileSystem X, !LinuxSystem X, !HostLaws authority X}.

(** The path of the state file that a request's grant names. *)
Definition request_path (req : GovernedWorkloadLaunchRequest) : string :=
  let grant := sg_Document (lr_SignedGrant (gl_LaunchRequest req)) in
  state_path (gl_LifecycleStore req) (gr_DeviceID grant) (gr_WorkloadID grant).

(** A run of an operation on the lifecycle at [path]; [Some] document when it
    reports success. *)
Inductive performs (path : string) (x : X) : option authorisation → X → Prop :=
  | performs_start req r x' t : sound_request authority req → path = request_path req → StartGovernedWorkload req x = (r, x', t) →
      performs path x (match r with Ok (started, _) => Some (start_authorisation req (ap_SignedReceipt started)) | Error _ => None end) x'
  | performs_wait started store key exit code err x' t :
      path = state_path store (ac_DeviceID (sg_Document (ap_SignedReceipt started))) (ac_WorkloadID (sg_Document (ap_SignedReceipt started))) →
      WaitGovernedWorkload started store key x = ((exit, code, err), x', t) →
      performs path x (match err with None => ByExit <$> exit | Some _ => None end) x'
  | performs_reconcile store decision r x' t :
      path = state_path store (rc_DeviceID (sg_Document decision)) (rc_WorkloadID (sg_Document decision)) →
      ApplyWorkloadReconciliation store decision authority x = (r, x', t) →
      performs path x (if is_ok r then Some (ByReconciliation decision) else None) x'
  | performs_release store release now r x' t :
      path = state_path store (qr_DeviceID (sg_Document release)) (qr_WorkloadID (sg_Document release)) →
      ApplyQuarantineRelease store release authority now x = (r, x', t) →
      performs path x (if is_ok r then Some (ByRelease release) else None) x'
  | performs_lease store lease now r x' t :
      path = state_path store (tl_DeviceID (sg_Document lease)) (tl_WorkloadID (sg_Document lease)) →
      ApplyRuntimeTrustLease store lease authority now x = (r, x', t) →
      performs path x (if is_ok r then Some (ByLease lease) else None) x'
  | performs_read store deviceID workloadID r x' t : path = state_path store deviceID workloadID →
      Read store deviceID workloadID x = (r, x', t) → performs path x None x'
  | performs_expiry store installer deviceID workloadID activation key clock observedAt r x' t :
      quiet_store authority installer → path = state_path store deviceID workloadID →
      EnforceCurrentRuntimeTrustExpiry store installer deviceID workloadID activation key clock observedAt x = (r, x', t) →
      performs path x None x'.

(** The move of a document, made at one moment between two worlds. *)
Definition made (path : string) (by_ : authorisation) (x x' : X) : Prop :=
  ∃ file found next text, file_steps authority (files x path) file ∧ recorded file = Ok found ∧ lifecycle_move authority by_ found next ∧
    state_payload next = Ok text ∧ file_steps authority (Some text) (files x' path).

Lemma governed_made {R} (failed : R → Prop) path Post by_ x r x' : governed authority failed path Post x r x' → ¬ failed r →
  (∀ found change, Post r found change → ∃ next, change = Some (by_, next)) → made path by_ x x'.
Proof.
  intros [_ [Hf|(file & found & change & file' & H1 & H2 & Hc & H4 & HP)]] Hn Hpost; [done|].
  destruct (Hpost _ _ HP) as [next ->]. destruct Hc as (Hm & text & Ht & ->). by exists file, found, next, text.
Qed.

(** Every operation, whatever it returns, keeps the rules that it relies on. *)
Lemma performs_others path x report x' : performs path x report x' → path ∉ mine x → others authority files mine x x'.
Proof.
  intros [req r y t Hreq -> Hrun|started store key exit code err y t -> Hrun|store decision r y t -> Hrun|store release now r y t -> Hrun|
    store lease now r y t -> Hrun|store d w r y t -> Hrun|store installer d w activation key clock at_ r y t Hq -> Hrun] Hp.
  - eapply (start_governed authority) in Hrun as [? _]; done.
  - eapply (wait_governed authority) in Hrun as [? _]; done.
  - eapply (reconciliation_governed authority) in Hrun as [? _]; done.
  - eapply (release_governed authority) in Hrun as [? _]; done.
  - eapply (lease_governed authority) in Hrun as [? _]; done.
  - eapply (read_governed authority) in Hrun as [? _]; done.
  - eapply (expiry_governed authority) in Hrun as [? _]; done.
Qed.

(** And success means that the move was made. *)
Lemma performs_made path x by_ x' : performs path x (Some by_) x' → path ∉ mine x → made path by_ x x'.
Proof.
  intros Hrun Hp. inversion Hrun as [req r y t Hreq Hpath Hr Hrep|started store key exit code err y t Hpath Hr Hrep|store decision r y t Hpath Hr Hrep|
    store release now r y t Hpath Hr Hrep|store lease now r y t Hpath Hr Hrep| |]; subst; clear Hrun.
  - destruct r as [[started next]|]; [|done]. eapply (start_governed authority) in Hr; [|done..]. eapply governed_made; [exact Hr|done|].
    intros found change HP. destruct (HP started next eq_refl) as [-> _]. injection Hrep as <-. by eexists.
  - destruct err; [done|]. eapply (wait_governed authority) in Hr; [|done]. eapply governed_made; [exact Hr|by intros []|].
    intros found change HP. destruct (HP eq_refl) as (e & next & He & ->). cbn in He. subst exit. injection Hrep as <-. by eexists.
  - destruct r as [next|]; [|done]. eapply (reconciliation_governed authority) in Hr; [|done]. eapply governed_made; [exact Hr|done|].
    intros found change HP. rewrite (HP next eq_refl). injection Hrep as <-. by eexists.
  - destruct r as [next|]; [|done]. eapply (release_governed authority) in Hr; [|done]. eapply governed_made; [exact Hr|done|].
    intros found change HP. rewrite (HP next eq_refl). injection Hrep as <-. by eexists.
  - destruct r as [next|]; [|done]. eapply (lease_governed authority) in Hr; [|done]. eapply governed_made; [exact Hr|done|].
    intros found change HP. rewrite (HP next eq_refl). injection Hrep as <-. by eexists.
Qed.
End Promises.

(** * Theorems *)

Section Theorems.
Context `{!MapRange, !Ed25519} (authority : string) {X : Type} `{!GoWorld X, !FileSystem X, !LinuxSystem X, !HostLaws authority X}.

Lemma others_steps path x x' : others authority files mine x x' → path ∉ mine x → is_state_file path →
  file_steps authority (files x path) (files x' path).
Proof. intros [Hm _] Hp Hst. by apply (mv_states _ _ _ _ _ _ Hm). Qed.

Lemma performs_state_file path x report x' : performs authority path x report x' → is_state_file path.
Proof. by intros []; subst; apply state_path_state. Qed.

(** What a move left is there, or a later state. *)
Lemma steps_after next text file' : state_payload next = Ok text → storable next → file_steps authority (Some text) file' →
  ∃ s', recorded file' = Ok (Some s') ∧ sound_state s' ∧ later (NormalizeWorkloadLifecycleState next) s'.
Proof.
  intros Hp Hs Hsteps. pose proof (recorded_payload _ _ Hp Hs) as Hr. pose proof (recorded_Some _ _ Hr) as Hsound.
  destruct (file_steps_recorded authority _ _ Hsteps _ Hr) as (found & Hf & Hl).
  destruct (steps_later authority _ _ Hl _ eq_refl Hsound) as (s' & -> & Hs' & Hlater). by exists s'.
Qed.

Lemma move_result_storable by_ file found next : recorded file = Ok found → lifecycle_move authority by_ found next → storable next.
Proof. intros Hr Hm. eapply move_storable; [done|]. intros s ->. by apply recorded_Some in Hr as [? _]. Qed.

(** A start is of the next generation. *)
Lemma start_move_running req receipt found n : lifecycle_move authority (start_authorisation req receipt) found n → ls_State n = LifecycleStateRunning.
Proof. unfold start_authorisation. by destruct (gl_RestartDecision req); inversion 1; subst. Qed.

Lemma start_move_generation req receipt s n text : lifecycle_move authority (start_authorisation req receipt) (Some s) n → sound_state s →
  state_payload n = Ok text → ls_Generation n = ls_Generation s + 1.
Proof.
  intros Hm Hs [Hv _]%state_payload_Ok. destruct (sound_u64 s Hs) as [Hu _]. apply valid_generation in Hv.
  destruct (normalized_fields n) as [e He]. rewrite He in Hv. unfold start_authorisation in Hm.
  destruct (gl_RestartDecision req); inversion Hm; subst. cbn in Hv |- *. by rewrite wrap_succ.
Qed.

(** C14: every operation on a lifecycle (start, wait, reconcile, release, lease,
    read, expiry), run while other processes act between any two of its calls,
    keeps the rules it relies on itself: it changes nobody else's files and moves
    state files only by steps of the lifecycle.  An operation that reports success
    has made, at one moment of its run, the move that its document authorises, of
    the state that was recorded then. *)
Theorem operations_refine_lifecycle path x report x' : path ∉ mine x → performs authority path x report x' →
  others authority files mine x x' ∧ ∀ by_, report = Some by_ → made authority path by_ x x'.
Proof. intros Hp Hrun. split; [by eapply performs_others|]. intros by_ ->. by apply performs_made. Qed.

(** C17: a document authorises one move.  After an operation succeeded with a
    restart decision, a release, a lease or a reconciliation that is not to keep
    the workload running, no operation of any process succeeds with the same
    document on this lifecycle again, whatever happens in between. *)
Theorem no_document_applies_twice path by_ x x1 x2 report x3 : path ∉ mine x → single_use by_ →
  performs authority path x (Some by_) x1 → others authority files mine x1 x2 → performs authority path x2 report x3 → report ≠ Some by_.
Proof.
  intros Hp Huse H1 Ho H2 ->. pose proof (performs_state_file _ _ _ _ H1) as Hst. pose proof (performs_others authority _ _ _ _ H1 Hp) as H01.
  assert (path ∉ mine x2) as Hp2 by (rewrite (proj2 Ho), (proj2 H01); done).
  apply performs_made in H1 as (f1 & found1 & n1 & text1 & _ & Hr1 & Hm1 & Ht1 & Hs1); [|done].
  apply performs_made in H2 as (f2 & found2 & n2 & text2 & Hs2 & Hr2 & Hm2 & Ht2 & _); [|done].
  assert (file_steps authority (Some text1) f2) as Hsteps.
  { etrans; [exact Hs1|]. etrans; [|exact Hs2]. eapply others_steps; [done| |done]. by rewrite (proj2 H01). }
  pose proof (move_result_storable _ _ _ _ Hr1 Hm1) as Hstore.
  destruct (steps_after _ _ _ Ht1 Hstore Hsteps) as (s2 & Hr2' & Hsound2 & Hl). assert (found2 = Some s2) as -> by congruence.
  destruct found1 as [s1|]; [|inversion Hm1; by subst].
  eapply (move_not_repeated authority by_ s1 n1 s2 n2); try done; [by eapply recorded_Some|].
  apply state_payload_Ok in Ht1 as [Hv _]. apply valid_generation in Hv. destruct (normalized_fields n1) as [epoch He]. by rewrite He in Hv.
Qed.

(** C16: of any two starts of one workload that succeed, by whatever processes and
    whatever happens in between, the later one is of a later generation: a
    generation has one process. *)
Theorem one_start_per_generation req req' x x1 x2 x3 t t' started started' next next' :
  sound_request authority req → sound_request authority req' → request_path req = request_path req' → request_path req ∉ mine x →
  StartGovernedWorkload req x = (Ok (started, next), x1, t) → others authority files mine x1 x2 →
  StartGovernedWorkload req' x2 = (Ok (started', next'), x3, t') →
  ls_Generation next < ls_Generation next' ∧ ls_State next = LifecycleStateRunning ∧ ls_State next' = LifecycleStateRunning.
Proof.
  intros Hreq Hreq' Heq Hp H1 Ho H2. pose proof H1 as Hg1. eapply (start_governed authority) in Hg1; [|done..].
  assert (request_path req' ∉ mine x2) as Hp2 by (rewrite (proj2 Ho), (proj2 (proj1 Hg1)), <- Heq; done).
  pose proof H2 as Hg2. eapply (start_governed authority) in Hg2; [|done..].
  destruct Hg1 as [H01 [?|(f1 & found1 & c1 & f1' & _ & Hr1 & Hc1 & Hs1 & HP1)]]; [done|].
  destruct Hg2 as [H23 [?|(f2 & found2 & c2 & f2' & Hs2 & Hr2 & Hc2 & _ & HP2)]]; [done|].
  destruct (HP1 _ _ eq_refl) as [-> _]. destruct (HP2 _ _ eq_refl) as [-> _].
  destruct Hc1 as (Hm1 & text1 & Ht1 & ->). destruct Hc2 as (Hm2 & text2 & Ht2 & ->).
  assert (file_steps authority (Some text1) f2) as Hsteps.
  { etrans; [exact Hs1|]. etrans; [|exact Hs2].
    change (file_steps authority (files x1 (request_path req)) (files x2 (request_path req'))). rewrite <- Heq. eapply others_steps; [done| |apply state_path_state]. by rewrite (proj2 H01). }
  pose proof (move_result_storable _ _ _ _ Hr1 Hm1) as Hstore.
  destruct (steps_after _ _ _ Ht1 Hstore Hsteps) as (s2 & Hr2' & Hsound2 & Hl). assert (found2 = Some s2) as -> by congruence.
  destruct Hl as [_ _ Hle _]. destruct (normalized_fields next) as [epoch He]. rewrite He in Hle. cbn in Hle.
  split_and!; [|by eapply start_move_running..]. rewrite (start_move_generation _ _ _ _ _ Hm2 Hsound2 Ht2). lia.
Qed.
End Theorems.

(** * Quarantine *)

Section Quarantine.
Context `{!MapRange, !Ed25519} (authority : string).

(** A release of this quarantine, signed by the lifecycle authority. *)
Definition releases (release : SignedQuarantineReleaseDecision) (digest : string) s : Prop :=
  (∃ now, VerifySignedQuarantineReleaseDecision release authority now = None) ∧
  SignedQuarantineReleaseDecisionDigest release = Ok digest ∧ qr_Generation (sg_Document release) = ls_Generation s ∧
  qr_PreviousLifecycleEpoch (sg_Document release) = ls_LifecycleEpoch s ∧
  qr_ActivationDigest (sg_Document release) = ls_ActivationDigest s ∧ qr_QuarantineRecoveryDigest (sg_Document release) = ls_RecoveryDigest s.

(** Out of quarantine there is one step. *)
Lemma quarantine_step s found : sound_state s → ls_State s = LifecycleStateQuarantined → lifecycle_step authority (Some s) found →
  ∃ release digest s', releases release digest s ∧ found = Some s' ∧ sound_state s' ∧ ls_State s' = LifecycleStateExitedUnknown ∧
    ls_RecoveryDigest s' = digest ∧ ls_Generation s' = ls_Generation s.
Proof.
  intros Hs Hq Hstep. destruct (step_sound authority _ _ Hstep) as (s' & -> & Hs'); [by intros ? [= <-]|].
  destruct Hs as (_ & _ & Hn). inversion Hstep as [by_ found next Hm Hv Hf Hs'']. subst found s'.
  destruct (normalized_fields next) as [epoch He]. rewrite He in *. clear He Hstep.
  inversion Hm as [|? grant decision now receipt digest Hr Hval _ _|? exit a digest t ? _ _ _ Ho|? decision digest ? _ _ Ho|
    ? release now digest ? Hver Hdig Ho|? lease now digest clock ? Hlease _ _ Ho]; subst.
  - exfalso. unfold ValidateRestartForLifecycleState in Hval. rewrite Hq in Hval. by split_guards.
  - apply exited_state_Ok in Ho as (Hr & _). by rewrite Hr in Hq.
  - apply reconciled_state_Ok in Ho as (Hr & _). by rewrite Hr in Hq.
  - apply released_state_Ok in Ho. cbv zeta in Ho. rewrite Hn in Ho. destruct Ho as (_ & Hg & He & Ha & Hrec & _ & ->).
    exists release, digest. eexists. split; [|split; [done|split; [done|by destruct s]]]. split; [by exists now|]. done.
  - apply leased_state_Ok in Ho. cbv zeta in Ho. rewrite Hn in Ho. destruct Ho as (local & _ & Hr & _). by rewrite Hr in Hq.
Qed.

Context {X : Type} `{!GoWorld X, !FileSystem X, !LinuxSystem X, !HostLaws authority X}.

(** C18: whatever any processes do, a quarantined lifecycle stays exactly as it is
    until a release is applied that the lifecycle authority signed for this very
    quarantine (its generation, epoch, activation and recovery digest); the
    release leads to EXITED_UNKNOWN under its own digest, never to RUNNING. *)
Theorem quarantine_ends_by_release path x x' s : is_state_file path → path ∉ mine x → recorded (files x path) = Ok (Some s) →
  ls_State s = LifecycleStateQuarantined → others authority files mine x x' →
  recorded (files x' path) = Ok (Some s) ∨
  ∃ release digest s' found, releases release digest s ∧ ls_State s' = LifecycleStateExitedUnknown ∧ ls_RecoveryDigest s' = digest ∧
    ls_Generation s' = ls_Generation s ∧ lifecycle_steps authority (Some s') found ∧ recorded (files x' path) = Ok found.
Proof.
  intros Hst Hp Hr Hq Ho. pose proof (recorded_Some _ _ Hr) as Hs. apply others_steps with (path := path) in Ho; [|done..].
  destruct (file_steps_recorded authority _ _ Ho _ Hr) as (found & Hf & Hl).
  apply rtc_inv in Hl as [<-|(f1 & H1 & H2)]; [by left|right].
  apply quarantine_step in H1 as (release & digest & s' & Hrel & -> & _ & Hstate & Hrec & Hgen); [|done..].
  by exists release, digest, s', found.
Qed.

(** C19: a state file that can be read stays readable, whatever any processes do:
    it records a valid state, which reads back as itself when it is written again,
    of the same device and workload and of the same generation or a later one;
    within a generation the activation is the same. *)
Theorem state_file_stays_valid path x x' found : is_state_file path → path ∉ mine x → recorded (files x path) = Ok found →
  others authority files mine x x' → ∃ found', recorded (files x' path) = Ok found' ∧
    (∀ s', found' = Some s' → sound_state s' ∧ ∀ text, state_payload s' = Ok text → parse_state text = Ok s') ∧
    (∀ s, found = Some s → ∃ s', found' = Some s' ∧ ls_DeviceID s' = ls_DeviceID s ∧ ls_WorkloadID s' = ls_WorkloadID s ∧
      ls_Generation s ≤ ls_Generation s' ∧ (ls_Generation s' = ls_Generation s → ls_ActivationDigest s' = ls_ActivationDigest s)).
Proof.
  intros Hst Hp Hr Ho. apply others_steps with (path := path) in Ho; [|done..].
  destruct (file_steps_recorded authority _ _ Ho _ Hr) as (found' & Hf & Hl). exists found'. split; [done|]. split.
  - intros s' ->. pose proof (recorded_Some _ _ Hf) as Hs'. split; [done|]. intros text Ht. destruct Hs' as (Hstore & _ & Hn).
    pose proof (recorded_payload _ _ Ht Hstore) as Hrec. rewrite Hn in Hrec. unfold recorded in Hrec.
    destruct (parse_state text); cbn in Hrec; congruence.
  - intros s ->. pose proof (recorded_Some _ _ Hr) as Hs.
    destruct (steps_later authority _ _ Hl _ eq_refl Hs) as (s' & -> & _ & [Hd Hw Hg Hin]). exists s'. split_and!; try done.
    intros He. by apply Hin.
Qed.
End Quarantine.

(** * A lease that blocks its quarantine *)

Lemma revocation_evidence_lease `{!MapRange, !Ed25519} state activation observation decision hostKey authorityKey authorityID r :
  revocation_evidence state activation observation decision hostKey authorityKey authorityID = Ok r →
  ValidateWorkloadLifecycleState state = None ∧ ls_RuntimeTrustEpoch state ≠ 0 ∧ ls_State state = LifecycleStateRunning ∧
  ls_ActivationDigest state = r.1.
Proof.
  unfold revocation_evidence. destruct (orelse _ _) eqn:Hchecks; [done|]. split_bool.
  match goal with H : VerifySignedRuntimeTrustDecision _ _ = None |- _ => apply verify_document_None in H as (_ & Hd & _) end.
  unfold ValidateRuntimeTrustDecision in Hd. split_guards.
  destruct (SignedWorkloadActivationReceiptDigest _); [|done]. destruct (SignedRuntimeTrustDecisionDigest _); [|done].
  destruct (SignedWorkloadRecoveryObservationDigest _); [|done]. cbn [mbind result_bind].
  destruct (_ || _) eqn:Hm; [done|]. intros Hr. unfold revocation_mismatch in Hm. split_guards.
  split_and!; [done|congruence|done|]. injection Hr as <-. done.
Qed.

(** The state that a quarantine makes of one that carries a lease is not valid:
    only a part of the lease is cleared. *)
Lemma quarantine_keeps_lease s digest n : ValidateWorkloadLifecycleState s = None → ls_RuntimeTrustEpoch s ≠ 0 → is_digest digest = true →
  n = set_state_RuntimeTrustExpiresAt (set_state_RuntimeTrustLeaseDigest (set_state_RuntimeTrustEpoch
    (set_state_RecoveryDigest (set_state_ExitDigest (set_state_State s LifecycleStateQuarantined) "") digest) 0) "") (utc 0) →
  ∀ t, gt_IsZero t = false →
  state_payload (set_state_UpdatedAt n t) = Error (ErrNew "runtime trust metadata exists without runtime trust epoch").
Proof.
  intros Hv Htrust Hdig -> t Ht. unfold state_payload. cbv zeta.
  destruct (normalized_fields (set_state_UpdatedAt (set_state_RuntimeTrustExpiresAt (set_state_RuntimeTrustLeaseDigest
    (set_state_RuntimeTrustEpoch (set_state_RecoveryDigest (set_state_ExitDigest (set_state_State s LifecycleStateQuarantined) "") digest)
      0) "") (utc 0)) t)) as [epoch ->].
  unfold ValidateWorkloadLifecycleState, runtime_trust_invalid, state_digests_invalid in *. destruct s. cbn in *.
  rewrite (proj2 (check_digest_None _ _) Hdig). apply Z.eqb_neq in Htrust. rewrite Htrust in Hv. rewrite Ht.
  split_guards. repeat match goal with H : ?b = _ |- context [?b] => rewrite H end.
  repeat match goal with H : check_digest _ ?d = None |- context [check_digest _ ?d] => rewrite H end. cbn.
  match goal with H : check_digest _ ls_RuntimeTrustBootIDHash = None |- _ => apply check_digest_None in H end.
  rewrite (proj2 (Z.eqb_neq ls_Generation 0)) by done. assert (str_eqb ls_RuntimeTrustBootIDHash "" = false) as ->.
  { apply str_eqb_neq. by intros ->. }
  done.
Qed.

(** A decision by which [EvaluateRuntimeTrustReconciliation] quarantines a
    workload whose runtime trust was revoked can never be applied: the state that
    it makes of the one it was evaluated on keeps the boot and the deadline of the
    lease, and is refused when it is written. *)
Theorem revoked_workload_never_quarantined `{!MapRange, !Ed25519} {X : Type} `{!GoWorld X} state activation observation runtimeDecision
    hostKey authorityKey authorityID now (x x' : X) t decision digest :
  EvaluateRuntimeTrustReconciliation state activation observation runtimeDecision hostKey authorityKey authorityID now x = (Ok decision, x', t) →
  is_digest digest = true →
  ∃ next, reconciled_state (sg_Document decision) digest (Some (NormalizeWorkloadLifecycleState state)) = Ok next ∧
    ls_State next = LifecycleStateQuarantined ∧
    state_payload next = Error (ErrNew "runtime trust metadata exists without runtime trust epoch").
Proof.
  intros Hrun Hdig. unfold EvaluateRuntimeTrustReconciliation in Hrun. apply bind_inv in Hrun as (at_ & x1 & t1 & t2 & _ & Hrun & _).
  cbv zeta in Hrun. set (st := NormalizeWorkloadLifecycleState state) in *.
  destruct (revocation_evidence _ _ _ _ _ _ _) as [[activationDigest observationDigest]|] eqn:He; [|by apply ret_inv in Hrun as (? & _)].
  apply revocation_evidence_lease in He as (Hv & Htrust & Hstate & Hact). cbn in Hact.
  apply try_inv in Hrun as [(err & _ & ?)|(decisionID & x2 & t3 & t4 & _ & (Hsign & _)%ret_inv & _)]; [done|]. symmetry in Hsign.
  apply sign_document_Ok in Hsign as (Hvalid & _ & Hdoc & _). rewrite Hdoc.
  assert (gt_IsZero (UTC (rc_DecidedAt (sg_Document decision))) = false) as Hzero.
  { unfold ValidateWorkloadReconciliationDecision in Hvalid. rewrite Hdoc. split_guards. done. }
  eexists. split; [|split; [|by eapply quarantine_keeps_lease, Hzero]].
  - unfold reconciled_state, reconciliation_decision. cbn. rewrite <- Hact, Hdoc. unfold differ. rewrite Hstate, Z.eqb_refl, !str_eqb_refl. done.
  - by destruct st.
Qed.
