(* ===== verification/LaunchOrder.v ===== *)
(** * The order of a launch

    [StartAttestedWorkload] consumes the grant durably before the process starts:
    the consumption file is created exclusively, written and synced, its directory
    is synced, and only then the process is started; what fails after that kills
    it.  A grant therefore starts one process, in whatever process and however
    often it is presented. *)

From S2P Require Import Prelude Crypto Format Json Base64 Unmarshal GoTime Permit JournalEntry FileSystem Journal Ordered KernelAbi KernelFabric Evidence Document Workload Lifecycle Recovery Quarantine RuntimeTrust LifecycleText Linux Launcher LifecycleStore LifecycleSteps LifecycleLaws.
Local Open Scope Z_scope.
Local Open Scope go_scope.

(** What a launch attempts to change. *)
Inductive launch_effect : Type :=
  | EffClaim (path : string)
  | EffRecord (f : file) (data : string)
  | EffSync (f : file)
  | EffStart (c : command).

Definition launch_effect_of (ev : io_event) : option (launch_effect * bool) :=
  match ev with
  | EvOpenFile path CreateExclusive r => Some (EffClaim path, is_ok r)
  | EvWrite f data r => Some (EffRecord f data, none r)
  | EvSync f r => Some (EffSync f, none r)
  | EvHost (EvStart c r) => Some (EffStart c, is_ok r)
  | _ => None
  end.

#[export] Instance launch_effect_of_hides_close : HidesClose launch_effect_of.
Proof. done. Qed.

Abbreviation carries_out := (Ordered.carries_out launch_effect_of).
Abbreviation passive := (Ordered.passive launch_effect_of).

(** The processes that a run started and killed. *)
Inductive process_effect : Type := Started (pid : Z) | Killed (pid : Z).

Definition process_effect_of (ev : io_event) : option (process_effect * bool) :=
  match ev with
  | EvHost (EvStart _ (Ok pid)) => Some (Started pid, true)
  | EvHost (EvKill pid r) => Some (Killed pid, none r)
  | _ => None
  end.

Definition processes (t : list io_event) : list process_effect := (effects process_effect_of t).*1.

Abbreviation bystander := (Ordered.passive process_effect_of).

Section Launch.
Context `{!MapRange, !Ed25519} {X : Type} `{!GoWorld X, !FileSystem X, !LinuxSystem X}.

(** The plan of a consumption. *)
Definition claim_plan (path : string) (record : WorkloadGrantConsumptionRecord) (plan : list launch_effect) : Prop :=
  ∃ f parent body, consumption_json record = Ok body ∧ plan = [EffClaim path; EffRecord f (encode body +:+ nl); EffSync f; EffSync parent].

Lemma carries_write_consumption path dir record body : consumption_json record = Ok body →
  carries_out (claim_plan path record) any_value (write_consumption path dir (encode body) : IO X _).
Proof.
  intros Hb. set (no_file := {| file_fd := 0; file_Name := "" |}).
  assert (∀ f, claim_plan path record [EffClaim path; EffRecord f (encode body +:+ nl); EffSync f; EffSync no_file]) as Hplan.
  { intros f. by exists f, no_file, body. }
  unfold write_consumption. apply (carries_effect _ _ _ _ is_ok (EffClaim path)); [by eexists; apply (Hplan no_file)|done| |].
  2: { intros [f|err]; [done|]. intros _. by apply emits_ret. }
  intros [f|err]; [|done]. intros _.
  apply (carries_check_close _ _ _ _ (EffRecord f (encode body +:+ nl))); [by eexists; apply (Hplan f)|done|].
  apply (carries_check_close _ _ _ _ (EffSync f)); [by eexists; apply (Hplan f)|done|].
  apply carries_check_passive; [by eexists; apply (Hplan f)|apply passive_Close|].
  apply carries_try_passive; [by eexists; apply (Hplan f)|by apply passive_call|]. intros parent.
  apply (carries_effect _ _ _ _ none (EffSync parent)); [by exists [], f, parent, body|done| |].
  - intros [err|] Hn; [done|]. apply carries_passive; [apply passive_Close|]. intros _. apply carries_ok; [by exists f, parent, body|done].
  - intros [err|] Hn; [|done]. eapply emits_bind; [apply passive_Close|]. intros c t Ht. apply emits_ret. by rewrite app_nil_r.
Qed.

(** What a consumption records. *)
Definition consumption_plan (dir : string) (signed : SignedWorkloadAdmissionGrant) (plan : list launch_effect) : Prop :=
  let grant := sg_Document signed in
  ∃ record, cr_GrantID record = gr_GrantID grant ∧ cr_DeviceID record = gr_DeviceID grant ∧ cr_WorkloadID record = gr_WorkloadID grant ∧
    claim_plan (consumption_path (filepath_Clean (TrimSpace dir)) (gr_GrantID grant)) record plan.

Lemma consumption_plan_possible dir signed : possible (consumption_plan dir signed).
Proof.
  set (no_file := {| file_fd := 0; file_Name := "" |}). destruct (gotime_json (utc 0)) as [time0|] eqn:Htime; [|done]. eexists.
  exists {| cr_Version := ""; cr_GrantID := gr_GrantID (sg_Document signed); cr_GrantDigest := ""; cr_DeviceID := gr_DeviceID (sg_Document signed);
            cr_WorkloadID := gr_WorkloadID (sg_Document signed); cr_ConsumedAt := utc 0 |}.
  split_and!; [done..|]. eexists no_file, no_file, _. split; [|reflexivity]. unfold consumption_json. cbn [cr_ConsumedAt].
  rewrite Htime. reflexivity.
Qed.

Lemma carries_consume dir signed issuer spec cgroup cgroupID device now :
  carries_out (consumption_plan dir signed) any_value (ConsumeWorkloadAdmissionGrant dir signed issuer spec cgroup cgroupID device now : IO X _).
Proof.
  pose proof (consumption_plan_possible dir signed) as Hany. unfold ConsumeWorkloadAdmissionGrant.
  apply carries_passive; [unfold now_or; passive_tac|]. intros at_.
  destruct (consumption_evidence _ _ _ _ _ _ _) as [digest|]; [|by apply carries_error]. cbv zeta.
  destruct (_ || _); [by apply carries_error|]. apply carries_check_passive; [done|by apply passive_call|].
  apply carries_check_passive; [done|by apply passive_call|].
  destruct (consumption_json _) as [body|] eqn:Hbody; [|by apply carries_error].
  eapply carries_try_seq; [by apply carries_write_consumption| |].
  - intros plan (f & parent & body' & Hb & ->). exists []. eexists. split_and!; [| | |exists f, parent, body'; split; [exact Hb|reflexivity]]; reflexivity.
  - intros plan [] (f & parent & body' & Hb & ->) _. apply carries_ok; [|done]. eexists. split_and!; [| | |exists f, parent, body'; split; [exact Hb|reflexivity]]; reflexivity.
Qed.

(** The command that a specification describes. *)
Definition launches (spec : WorkloadLaunchSpec) (c : command) : Prop :=
  cm_Path c = filepath_Clean (sp_Executable spec) ∧ cm_Args c = sp_Args spec ∧ cm_Env c = workloadEnvironment (sp_Environment spec) ∧
  cm_Dir c = (if str_eqb (sp_WorkingDir spec) "" then "" else filepath_Clean (sp_WorkingDir spec)) ∧
  ∀ isolation, workloadSysProcAttr (sp_LinuxIsolation spec) = Ok isolation → cm_Isolation c = isolation.

Definition launch_plan (req : AttestedWorkloadLaunchRequest) (plan : list launch_effect) : Prop :=
  ∃ claim c, consumption_plan (lr_ConsumptionDir req) (lr_SignedGrant req) claim ∧ launches (lr_LaunchSpec req) c ∧ plan = claim ++ [EffStart c].

Lemma launches_possible spec : ∃ c, launches spec c.
Proof.
  exists {| cm_Path := filepath_Clean (sp_Executable spec); cm_Args := sp_Args spec;
    cm_Dir := (if str_eqb (sp_WorkingDir spec) "" then "" else filepath_Clean (sp_WorkingDir spec));
    cm_Env := workloadEnvironment (sp_Environment spec); cm_CgroupFD := 0;
    cm_Isolation := match workloadSysProcAttr (sp_LinuxIsolation spec) with Ok i => i | Error _ => None end |}.
  split_and!; [done..|]. cbn. by intros i ->.
Qed.

Lemma launch_plan_possible req : possible (launch_plan req).
Proof.
  destruct (consumption_plan_possible (lr_ConsumptionDir req) (lr_SignedGrant req)) as [claim Hc].
  destruct (launches_possible (lr_LaunchSpec req)) as [c Hl]. eexists. by exists claim, c.
Qed.

Lemma passive_observe pid : passive (ObserveLinuxProcess pid : IO X _).
Proof. unfold ObserveLinuxProcess, read_boot_id, readLinuxProcessStartTicks, readUnifiedProcessCgroup, resolveUnifiedCgroupPath. passive_tac. Qed.

Lemma passive_attest req consumption cgroup cgroupID pid : passive (attest_process req consumption cgroup cgroupID pid : IO X _).
Proof. unfold attest_process, CaptureLinuxProcessIdentity, randomToken. pose proof passive_observe. passive_tac. Qed.

Lemma carries_launch req cgroup now fd : carries_out (launch_plan req) any_value (launch_in req cgroup now fd : IO X _).
Proof.
  pose proof (launch_plan_possible req) as Hany. destruct (launches_possible (lr_LaunchSpec req)) as [c0 Hc0]. unfold launch_in. cbv zeta.
  apply carries_try_passive; [done|passive_tac|]. intros cgroupID. destruct (_ || _); [by apply carries_error|].
  apply carries_try_passive; [done|unfold check_launch_files; passive_tac|]. intros [].
  eapply carries_try_seq; [apply carries_consume| |].
  { intros claim Hclaim. exists [EffStart c0]. by exists claim, c0. }
  intros claim consumption Hclaim _. destruct (workloadSysProcAttr _) as [isolation|] eqn:Hiso.
  2: { apply carries_error. exists [EffStart c0]. by exists claim, c0. }
  set (c := {| cm_Path := _ |}).
  assert (launch_plan req (claim ++ [EffStart c])) as Hplan.
  { exists claim, c. split_and!; [done| |done]. split_and!; [done..|]. rewrite Hiso. by intros i [= <-]. }
  apply (carries_try _ _ _ _ (EffStart c)); [exists []; exact Hplan|done|]. intros pid.
  eapply emits_impl; [apply passive_attest|]. intros r t Ht. exists []. rewrite Ht. split_and!; [exact Hplan|constructor|done].
Qed.

Lemma carries_StartAttested req : carries_out (launch_plan req) any_value (StartAttestedWorkload req : IO X _).
Proof.
  pose proof (launch_plan_possible req) as Hany. unfold StartAttestedWorkload.
  apply carries_passive; [unfold now_or; passive_tac|]. intros now. destruct (launch_refused req now); [by apply carries_error|]. cbv zeta.
  unfold open_cgroup. apply carries_try_passive; [done|passive_tac|]. intros fstype. destruct (negb _); [by apply carries_error|].
  apply carries_try_passive; [done|passive_tac|]. intros fd. apply carries_then; [apply carries_launch|passive_tac].
Qed.
End Launch.

(** * No process is left behind *)

#[export] Instance process_effect_of_hides_close : HidesClose process_effect_of.
Proof. done. Qed.

Section Processes.
Context `{!MapRange, !Ed25519} {X : Type} `{!GoWorld X, !FileSystem X, !LinuxSystem X}.

(** What a program does to processes, with its result. *)
Definition handles {A} (Q : A → list process_effect → Prop) (m : IO X A) : Prop := emits m (λ a t, Q a (processes t)).

Lemma handles_ret {A} (Q : A → list process_effect → Prop) a : Q a [] → handles Q (mret a).
Proof. intros HQ. by apply emits_ret. Qed.

Lemma handles_bystander {A B} (Q : B → list process_effect → Prop) (m : IO X A) k : bystander m →
  (∀ a, handles Q (k a)) → handles Q (m ≫= k).
Proof.
  intros Hm Hk. eapply emits_bind; [exact Hm|]. intros a t Ht. eapply emits_impl; [apply Hk|]. intros b t' HQ.
  unfold processes, effects in *. by rewrite omap_app, Ht.
Qed.

Lemma handles_then {A B} (P : A → list process_effect → Prop) (Q : B → list process_effect → Prop) (m : IO X A) k :
  handles P m → (∀ a l, P a l → handles (λ b l', Q b (l ++ l')) (k a)) → handles Q (m ≫= k).
Proof.
  intros Hm Hk. eapply emits_bind; [exact Hm|]. intros a t Ht. eapply emits_impl; [by apply (Hk a (processes t))|]. intros b t' HQ.
  unfold processes, effects in *. by rewrite omap_app, fmap_app.
Qed.

Lemma handles_try {A B} (Q : result B → list process_effect → Prop) (m : IO X (result A)) wrap k : bystander m →
  (∀ err, Q (Error err) []) → (∀ a, handles Q (k a)) → handles Q (try m wrap k).
Proof. intros Hm He Hk. apply handles_bystander; [done|]. intros [a|err]; [done|by apply handles_ret]. Qed.

(** A result leaves the one process that it names, or none. *)
Definition left_behind {A} (named : A → option Z) (r : result A) (l : list process_effect) : Prop :=
  match r with
  | Ok a => ∃ pid, named a = Some pid ∧ l = [Started pid]
  | Error _ => l = [] ∨ ∃ pid, l = [Started pid; Killed pid]
  end.

Lemma handles_kill pid : handles (λ _ l, l = [Killed pid]) (kill_process pid : IO X unit).
Proof.
  unfold kill_process. eapply (handles_then (λ _ l, l = [Killed pid])); [by apply emits_call|]. intros err l ->.
  apply handles_bystander; [by apply passive_call|]. intros w. by apply handles_ret.
Qed.

Lemma bystander_capture pid cgroupID : bystander (CaptureLinuxProcessIdentity pid cgroupID : IO X _).
Proof.
  unfold CaptureLinuxProcessIdentity, ObserveLinuxProcess, read_boot_id, readLinuxProcessStartTicks, readUnifiedProcessCgroup,
    resolveUnifiedCgroupPath. passive_tac.
Qed.

Lemma handles_killed {A} pid err (Q : result A → list process_effect → Prop) : Q (Error err) [Killed pid] →
  handles Q (_ ← kill_process pid; mret (Error err) : IO X _).
Proof. intros HQ. eapply handles_then; [apply handles_kill|]. intros u l ->. by apply handles_ret. Qed.

Lemma handles_attest req consumption cgroup cgroupID pid :
  handles (λ r l, left_behind ap_Process r (Started pid :: l)) (attest_process req consumption cgroup cgroupID pid : IO X _).
Proof.
  unfold attest_process. cbv zeta.
  assert (∀ err, handles (λ r l, left_behind ap_Process r (Started pid :: l)) (_ ← kill_process pid; mret (Error err) : IO X _)) as Hkill.
  { intros err. apply handles_killed. right. by exists pid. }
  apply handles_bystander; [unfold randomToken; passive_tac|]. intros [activationID|]; [|apply Hkill].
  apply handles_bystander; [apply bystander_capture|]. intros [identity|]; [|apply Hkill].
  apply handles_bystander; [passive_tac|]. intros started. destruct (SignWorkloadActivationReceipt _ _); [|apply Hkill].
  apply handles_ret. by exists pid.
Qed.

Lemma handles_launch req cgroup now fd : handles (left_behind ap_Process) (launch_in req cgroup now fd : IO X _).
Proof.
  assert (∀ err, left_behind ap_Process (Error err) []) as He by by left.
  unfold launch_in. cbv zeta. apply handles_try; [passive_tac|done|]. intros cgroupID. destruct (_ || _); [by apply handles_ret|].
  apply handles_try; [unfold check_launch_files; passive_tac|done|]. intros _.
  apply handles_try; [unfold ConsumeWorkloadAdmissionGrant, write_consumption, now_or; passive_tac|done|]. intros consumption.
  destruct (workloadSysProcAttr _) as [isolation|]; [|by apply handles_ret]. set (c := {| cm_Path := _ |}).
  eapply (handles_then (λ r l, l = match r with Ok pid => [Started pid] | Error _ => [] end)); [apply emits_call; by intros []|].
  intros [pid|err] l ->; [apply handles_attest|]. by apply handles_ret.
Qed.

Lemma handles_StartAttested req : handles (left_behind ap_Process) (StartAttestedWorkload req : IO X _).
Proof.
  assert (∀ err, left_behind ap_Process (Error err) []) as He by by left.
  unfold StartAttestedWorkload, open_cgroup. apply handles_bystander; [unfold now_or; passive_tac|]. intros now.
  destruct (launch_refused req now); [by apply handles_ret|]. cbv zeta. apply handles_try; [passive_tac|done|]. intros fstype.
  destruct (negb _); [by apply handles_ret|]. apply handles_try; [passive_tac|done|]. intros fd.
  eapply handles_then; [apply handles_launch|]. intros r l Hl. apply handles_bystander; [passive_tac|]. intros _.
  apply handles_ret. by rewrite app_nil_r.
Qed.

Lemma bystander_write path s : bystander (writeLifecycleState path s : IO X _).
Proof. unfold writeLifecycleState, replace_state. passive_tac; unfold check_close; passive_tac. Qed.

Lemma handles_start_and_record req path next :
  handles (left_behind (λ '(started, _), ap_Process started)) (start_and_record req path next : IO X _).
Proof.
  unfold start_and_record. eapply handles_then; [apply handles_StartAttested|]. intros [started|err] l Hl.
  2: { apply handles_ret. by rewrite app_nil_r. }
  destruct Hl as (pid & Hpid & ->). unfold kill_started. rewrite Hpid.
  assert (∀ err, handles (λ b l', left_behind (λ '(started, _), ap_Process started) b ([Started pid] ++ l'))
    (_ ← kill_process pid; mret (Error err) : IO X (result (AttestedWorkloadProcess * WorkloadLifecycleState)))) as Hkill.
  { intros err. apply handles_killed. right. by exists pid. }
  destruct (SignedWorkloadActivationReceiptDigest _) as [digest|]; [|apply Hkill]. cbv zeta.
  apply handles_bystander; [apply bystander_write|]. intros [[]|]; [|apply Hkill]. apply handles_ret. by exists pid.
Qed.

Lemma handles_locked {A} (Q : result A → list process_effect → Prop) store deviceID workloadID fn : (∀ err, Q (Error err) []) →
  (∀ path found, handles Q (fn path found)) → handles Q (withLockedState Error store deviceID workloadID fn : IO X _).
Proof.
  intros He Hfn. unfold withLockedState. destruct (lifecycle_refused _ _ _); [by apply handles_ret|].
  apply handles_bystander; [passive_tac|]. intros [err|]; [by apply handles_ret|].
  apply handles_bystander; [passive_tac|]. intros [err|]; [by apply handles_ret|].
  apply handles_bystander; [passive_tac|]. intros [f|err]; [|by apply handles_ret].
  apply handles_bystander; [passive_tac|]. intros [err|].
  { apply handles_bystander; [passive_tac|]. intros _. by apply handles_ret. }
  eapply handles_then.
  - unfold in_lock. apply handles_bystander; [unfold readLifecycleState; passive_tac|].
    intros [[s|]|err]; [|by apply Hfn|by apply handles_ret]. destruct (of_lifecycle _ _ _); [by apply Hfn|by apply handles_ret].
  - intros r l Hl. apply handles_bystander; [passive_tac|]. intros _. apply handles_bystander; [passive_tac|]. intros _.
    apply handles_ret. by rewrite app_nil_r.
Qed.
End Processes.

(** * Theorems *)

Section Theorems.
Context `{!MapRange, !Ed25519} {X : Type} `{!GoWorld X, !FileSystem X, !LinuxSystem X}.


(** C21: a governed start leaves no stray process: when it succeeds it started
    one process, the one that it returns, and killed none; when it fails it
    started none, or the one that it then killed. *)
Theorem governed_start_leaves_no_stray req x r x' t : StartGovernedWorkload req x = (r, x', t) →
  match r with
  | Ok (started, _) => ∃ pid, ap_Process started = Some pid ∧ processes t = [Started pid]
  | Error _ => processes t = [] ∨ ∃ pid, processes t = [Started pid; Killed pid]
  end.
Proof.
  intros Hrun. assert (handles (left_behind (λ '(started, _), ap_Process started)) (StartGovernedWorkload req : IO X _)) as Hm.
  { unfold StartGovernedWorkload. cbv zeta. apply handles_bystander; [unfold now_or; passive_tac|]. intros now.
    apply handles_locked; [by left|]. intros path found. destruct (started_state _ _ _); [apply handles_start_and_record|].
    apply handles_ret. by left. }
  apply Hm in Hrun. by destruct r as [[started next]|].
Qed.
End Theorems.

(** * One process for a grant *)

Section Claims.
Context `{!MapRange, !Ed25519} (authority : string) {X : Type} `{!GoWorld X, !FileSystem X, !LinuxSystem X, !HostLaws authority X}.

Local Abbreviation others := (others authority files mine).

(** The file was not there at a moment of the run, and is at its end. *)
Definition claims (path : string) (x x' : X) : Prop :=
  (∃ y, others x y ∧ files y path = None) ∧ files x' path ≠ None ∧ others x x'.

Lemma claims_before path x y x' : others x y → claims path y x' → claims path x x'.
Proof. intros Ho [(z & Hz & Hn) [Hs Hr]]. split_and!; [|done|by etrans]. exists z. split; [by etrans|done]. Qed.

Lemma claims_after path x y x' : is_consumption path → claims path x y → others y x' → claims path x x'.
Proof. intros Hp [Hn [Hs Hr]] Ho. split_and!; [done| |by etrans]. by apply (mv_consumed _ _ _ _ _ _ (proj1 Ho)). Qed.

(** What was there stays: it cannot be claimed again. *)
Lemma claims_once path x x1 x2 x3 : is_consumption path → claims path x x1 → others x1 x2 → claims path x2 x3 → False.
Proof.
  intros Hp [_ [Hs _]] Ho [(y & Hy & Hn) _]. assert (others x1 y) as Hxy by by etrans.
  by apply (mv_consumed _ _ _ _ _ _ (proj1 Hxy) path) in Hn.
Qed.

Lemma consume_claims dir signed issuer spec cgroup cgroupID device now x r x' t :
  ConsumeWorkloadAdmissionGrant dir signed issuer spec cgroup cgroupID device now x = (r, x', t) → is_ok r = true →
  claims (consumption_path (filepath_Clean (TrimSpace dir)) (gr_GrantID (sg_Document signed))) x x'.
Proof.
  intros Hrun Hok. unfold ConsumeWorkloadAdmissionGrant in Hrun.
  apply bind_inv in Hrun as (at_ & x1 & t1 & t2 & Hnow%(gentle_now_or authority) & Hrun & _). eapply claims_before; [exact Hnow|].
  destruct (consumption_evidence _ _ _ _ _ _ _); [|by apply ret_inv in Hrun as (-> & _)]. cbv zeta in Hrun.
  destruct (_ || _); [by apply ret_inv in Hrun as (-> & _)|].
  apply check_inv in Hrun as [(err & _ & ->)|(x2 & t3 & t4 & [Hm%os_MkdirAll_quiet _]%call_inv & Hrun & _)]; [done|].
  eapply claims_before; [exact Hm|].
  apply check_inv in Hrun as [(err & _ & ->)|(x3 & t5 & t6 & [Hc%os_ChmodPath_quiet _]%call_inv & Hrun & _)]; [done|].
  eapply claims_before; [exact Hc|]. destruct (consumption_json _); [|by apply ret_inv in Hrun as (-> & _)].
  apply try_inv in Hrun as [(err & _ & ->)|([] & x4 & t7 & t8 & Hw & (-> & -> & _)%ret_inv & _)]; [done|].
  apply (write_consumption_run authority) in Hw as [Ho Hf]; [|by apply consumption_path_consumption, clean_nonempty].
  destruct (Hf eq_refl) as [Hn Hs]. split_and!; [|done|done]. exists x3. done.
Qed.

(** A step before the process: when it fails there is none. *)
Lemma try_started {A} (m : IO X (result A)) wrap (k : A → IO X (result AttestedWorkloadProcess)) x r x' t :
  bystander m → try m wrap k x = (r, x', t) → processes t ≠ [] →
  ∃ a x1 t1 t2, m x = (Ok a, x1, t1) ∧ k a x1 = (r, x', t2) ∧ processes t2 ≠ [].
Proof.
  intros Hm [(err & Hx%Hm & ->)|(a & x1 & t1 & t2 & Hx & Hk & ->)]%try_inv Ht.
  - unfold processes in Ht. by rewrite Hx in Ht.
  - exists a, x1, t1, t2. split_and!; [done..|]. apply Hm in Hx. unfold processes, effects in *. by rewrite omap_app, Hx in Ht.
Qed.

Lemma launch_claims req x r x' t : StartAttestedWorkload req x = (r, x', t) → processes t ≠ [] →
  claims (consumption_path (filepath_Clean (TrimSpace (lr_ConsumptionDir req))) (gr_GrantID (sg_Document (lr_SignedGrant req)))) x x'.
Proof.
  intros Hrun Ht. set (path := consumption_path _ _).
  assert (is_consumption path) as Hpath by apply consumption_path_consumption, clean_nonempty.
  unfold StartAttestedWorkload, open_cgroup in Hrun. apply bind_inv in Hrun as (now & x1 & t1 & t2 & Hnow & Hrun & ->).
  assert (processes t2 ≠ []) as Ht2.
  { assert (bystander (now_or (lr_Now req) : IO X time)) as Hq by (unfold now_or; passive_tac). apply Hq in Hnow.
    unfold processes, effects in *. by rewrite omap_app, Hnow in Ht. }
  apply (gentle_now_or authority) in Hnow. eapply claims_before; [exact Hnow|]. clear Ht Hnow x t1. cbv zeta in Hrun.
  destruct (launch_refused req now); [by apply ret_inv in Hrun as (_ & _ & ->)|].
  apply try_started in Hrun as (fstype & x2 & t3 & t4 & [Hf%unix_Statfs_quiet _]%silent_inv & Hrun & Ht4); [|passive_tac|done].
  eapply claims_before; [exact Hf|]. destruct (negb _); [by apply ret_inv in Hrun as (_ & _ & ->)|].
  apply try_started in Hrun as (fd & x3 & t5 & t6 & [Ho%unix_OpenDirectory_quiet _]%call_inv & Hrun & Ht6); [|passive_tac|done].
  eapply claims_before; [exact Ho|]. clear Ht2 Ht4 Hf Ho t2 t3 t4 t5.
  apply bind_inv in Hrun as (r1 & x4 & t7 & t8 & Hrun & Hclose & ->).
  apply bind_inv in Hclose as (c & x5 & t9 & t10 & [Hc%unix_Close_quiet ->]%call_inv & (-> & -> & ->)%ret_inv & ->).
  eapply claims_after; [done| |exact Hc]. assert (processes t7 ≠ []) as Ht7.
  { intros E. apply Ht6. unfold processes, effects in *. by rewrite omap_app, fmap_app, E. }
  unfold launch_in in Hrun. cbv zeta in Hrun.
  apply try_started in Hrun as (cgroupID & x6 & t11 & t12 & [Hf%unix_Fstat_quiet _]%silent_inv & Hrun & Ht12); [|passive_tac|done].
  eapply claims_before; [exact Hf|]. destruct (_ || _); [by apply ret_inv in Hrun as (_ & _ & ->)|].
  apply try_started in Hrun as (u & x7 & t13 & t14 & Hu%(gentle_launch_files authority) & Hrun & Ht14); [|unfold check_launch_files; passive_tac|done].
  eapply claims_before; [exact Hu|].
  apply try_started in Hrun as (consumption & x8 & t15 & t16 & Hcons & Hrun & _);
    [|unfold ConsumeWorkloadAdmissionGrant, write_consumption, now_or; passive_tac|done].
  apply consume_claims in Hcons; [|done]. eapply claims_after; [done|exact Hcons|].
  destruct (workloadSysProcAttr _) as [isolation|]; [|apply ret_inv in Hrun as (_ & -> & _); reflexivity].
  apply try_inv in Hrun as [(err & [Hs%cmd_Start_quiet _]%call_inv & _)|(pid & x9 & t17 & t18 & [Hs%cmd_Start_quiet _]%call_inv & Ha & _)];
    [done|]. apply (gentle_attest authority) in Ha. by etrans.
Qed.

(** C15: a grant starts one process.  After a launch that started a process, no
    launch by any process starts another for a grant of the same id whose
    consumptions are kept in the same directory, whatever happens in between. *)
Theorem grant_starts_one_process req req' x x1 x2 x3 t t' r r' :
  gr_GrantID (sg_Document (lr_SignedGrant req)) = gr_GrantID (sg_Document (lr_SignedGrant req')) →
  filepath_Clean (TrimSpace (lr_ConsumptionDir req)) = filepath_Clean (TrimSpace (lr_ConsumptionDir req')) →
  StartAttestedWorkload req x = (r, x1, t) → processes t ≠ [] → others x1 x2 → StartAttestedWorkload req' x2 = (r', x3, t') →
  processes t' = [].
Proof.
  intros Hid Hdir H1 Ht Ho H2. apply launch_claims in H1; [|done].
  destruct (processes t') as [|e l] eqn:E; [done|exfalso]. apply launch_claims in H2; [|by rewrite E]. rewrite <- Hid, <- Hdir in H2.
  eapply claims_once; [|exact H1|exact Ho|exact H2]. apply consumption_path_consumption, clean_nonempty.
Qed.
End Claims.
