(* ===== verification/HostMemory.v ===== *)
(** * A host in memory

    A host of one process, on which the programs of [LifecycleStore.v] run: its
    files, its clocks and its processes.  It satisfies [HostLaws]; nobody else acts
    on it.  Directories and lock files are not kept, consumptions hold nothing. *)

From stdpp Require Import stringmap.
From S2P Require Import Prelude Crypto Format Json Base64 Unmarshal GoTime Permit JournalEntry FileSystem Journal KernelAbi KernelFabric Evidence Document Workload Lifecycle Recovery Quarantine RuntimeTrust LifecycleText Linux Launcher LifecycleStore LifecycleSteps LifecycleLaws MemoryFS.
Local Open Scope Z_scope.
Local Open Scope go_scope.

(** [ho_boot] is the boot clock, [ho_pid] the last process; [ho_exit] is how every
    process ends. *)
Record host : Type := {
  ho_files : stringmap string; ho_mine : gset string; ho_clock : time; ho_boot : Z; ho_pid : Z; ho_exit : Z }.

Definition set_host_files (files : stringmap string) (h : host) : host :=
  {| ho_files := files; ho_mine := ho_mine h; ho_clock := ho_clock h; ho_boot := ho_boot h; ho_pid := ho_pid h; ho_exit := ho_exit h |}.
Definition set_host_mine (names : gset string) (h : host) : host :=
  {| ho_files := ho_files h; ho_mine := names; ho_clock := ho_clock h; ho_boot := ho_boot h; ho_pid := ho_pid h; ho_exit := ho_exit h |}.
Definition at_time (now : time) (h : host) : host :=
  {| ho_files := ho_files h; ho_mine := ho_mine h; ho_clock := now; ho_boot := ho_boot h; ho_pid := ho_pid h; ho_exit := ho_exit h |}.
Definition next_process (h : host) : host :=
  {| ho_files := ho_files h; ho_mine := ho_mine h; ho_clock := ho_clock h; ho_boot := ho_boot h; ho_pid := ho_pid h + 1; ho_exit := ho_exit h |}.

Fixpoint has_suffix (suffix s : string) : bool :=
  str_eqb s suffix || match s with "" => false | String _ s => has_suffix suffix s end.

Lemma has_suffix_ends suffix s : has_suffix suffix s = true ↔ ends suffix s.
Proof.
  split.
  - induction s as [|a s IH]; cbn [has_suffix]; rewrite orb_true_iff; intros [E|E]; split_bool; try subst; try done; try (by exists "").
    destruct (IH E) as [base ->]. by exists (String a base).
  - intros [base ->]. induction base as [|a base IH].
    + change ("" +:+ suffix) with suffix. destruct suffix; cbn [has_suffix]; by rewrite str_eqb_refl.
    + rewrite string_app_cons. cbn [has_suffix]. by rewrite IH, orb_true_r.
Qed.

Definition is_claim (path : string) : bool := has_suffix ".consumed.json" path.

(** * Operations *)

Definition nothing {A} (a : A) (h : host) : A * host := (a, h).

Definition file_at (path : string) : file := {| file_fd := 0; file_Name := path |}.

Definition host_open (path : string) (flags : open_flags) (h : host) : result file * host :=
  match flags with
  | CreateExclusive =>
      match ho_files h !! path with
      | Some _ => (Error ErrExist, h)
      | None => if decide (path ∈ ho_mine h) then (Error ErrExist, h) else (Ok (file_at path), set_host_files (<[path := ""]> (ho_files h)) h)
      end
  | _ => (Ok (file_at path), h)
  end.

Definition host_temp (dir pattern : string) (h : host) : result file * host :=
  let path := dir +:+ "/" +:+ temp_prefix pattern +:+ "0" in
  match ho_files h !! path with
  | Some _ => (Error ErrExist, h)
  | None =>
      if decide (path ∈ ho_mine h) then (Error ErrExist, h)
      else (Ok (file_at path), set_host_mine ({[path]} ∪ ho_mine h) (set_host_files (<[path := ""]> (ho_files h)) h))
  end.

Definition host_read (path : string) (h : host) : result string * host :=
  (match ho_files h !! path with Some data => Ok data | None => Error ErrNotExist end, h).

Definition host_write (f : file) (data : string) (h : host) : option error * host :=
  if is_claim (file_Name f) then (if decide (file_Name f ∈ ho_mine h) then Some ErrClosed else None, h)
  else match ho_files h !! file_Name f with
  | Some old => (None, set_host_files (<[file_Name f := old +:+ data]> (ho_files h)) h)
  | None => (Some ErrClosed, h)
  end.

Definition host_rename (from to : string) (h : host) : option error * host :=
  match ho_files h !! from with
  | Some data => (None, set_host_mine (ho_mine h ∖ {[from]}) (set_host_files (<[to := data]> (delete from (ho_files h))) h))
  | None => (Some ErrNotExist, h)
  end.

Definition host_remove (path : string) (h : host) : option error * host :=
  (None, set_host_mine (ho_mine h ∖ {[path]}) (set_host_files (delete path (ho_files h)) h)).

Definition host_lock (f : file) (h : host) : option error * host := (None, set_host_mine (guarded (file_Name f) ∪ ho_mine h) h).
Definition host_unlock (f : file) (h : host) : option error * host := (None, set_host_mine (ho_mine h ∖ guarded (file_Name f)) h).

#[export] Instance host_world : GoWorld host := {|
  ctx_Err := nothing None;
  time_Now h := (ho_clock h, h);
  rand_Read n := nothing (Ok (zeros n)) |}.

#[export] Instance host_files : FileSystem host := {|
  os_IsNotExist err := if decide (err = ErrNotExist) then true else false;
  os_Stat path := nothing None;
  os_MkdirAll path := nothing None;
  os_OpenFile := host_open;
  os_CreateTemp := host_temp;
  os_ReadFile := host_read;
  os_Rename := host_rename;
  os_Remove := host_remove;
  file_Write := host_write;
  file_Sync f := nothing None;
  file_Chmod f := nothing None;
  file_Close f := nothing None;
  file_Read f h := (match ho_files h !! file_Name f with Some data => (data, None) | None => ("", Some ErrClosed) end, h) |}.

(** Every path is an executable file or a directory with the same numbers. *)
#[export] Instance host_system : LinuxSystem host := {|
  os_IsExist err := if decide (err = ErrExist) then true else false;
  os_ChmodPath path := nothing None;
  unix_Lock := host_lock;
  unix_Unlock := host_unlock;
  unix_Statfs path := nothing (Ok cgroup2FSMagic);
  unix_OpenDirectory path := nothing (Ok 3);
  unix_Fstat fd := nothing (Ok 7);
  unix_Close fd := nothing None;
  os_StatInfo path := nothing (Ok {| fi_Regular := true; fi_Dir := true; fi_Perm := 493; fi_Dev := 1; fi_Ino := 7 |});
  cmd_Start c h := (Ok (ho_pid h), next_process h);
  process_Kill pid := nothing None;
  process_Wait pid h := ((Some (ho_exit h), None), h);
  unix_ClockGettime c h := (Ok (0, ho_boot h), h) |}.

(** * Its laws *)

Section Laws.
Context `{!MapRange, !Ed25519} (authority : string).

Definition host_file (h : host) (path : string) : option string := ho_files h !! path.

Local Abbreviation moved := (moved authority host_file ho_mine).
Local Abbreviation others := (others authority host_file ho_mine).

Lemma same_others h h' : ho_files h' = ho_files h → ho_mine h' = ho_mine h → others h h'.
Proof.
  intros Hf Hm. split; [|done]. split; unfold host_file; rewrite Hf; auto. intros path _ _. reflexivity.
Qed.

Lemma same_quiet {A} (f : host → A * host) :
  (∀ h, ho_files (f h).2 = ho_files h ∧ ho_mine (f h).2 = ho_mine h) → quiet authority host_file ho_mine f.
Proof. intros Hf h a h' E. specialize (Hf h). rewrite E in Hf. destruct Hf. by apply same_others. Qed.

(** A change to files of ours and to names that are nobody's state. *)
Lemma moved_by touched h h' :
  (∀ path, path ∉ touched → path ∈ ho_mine h → host_file h' path = host_file h path) →
  (∀ path, path ∉ ho_mine h → is_state_file path → host_file h' path = host_file h path) →
  (∀ path, path ∉ touched → is_consumption path → host_file h path ≠ None → host_file h' path ≠ None) → moved touched h h'.
Proof. intros H1 H2 H3. split; [auto| |auto]. intros path Hs Hp. by rewrite H2. Qed.

Lemma temp_digits dir pattern : ∃ prefix digits, dir +:+ "/" +:+ temp_prefix pattern +:+ "0" = prefix +:+ digits ∧ digits ≠ "" ∧
  all_chars is_digit digits = true.
Proof. exists (dir +:+ "/" +:+ temp_prefix pattern), "0". by rewrite !string_app_assoc. Qed.

Lemma temp_not_state dir pattern : ¬ is_state_file (dir +:+ "/" +:+ temp_prefix pattern +:+ "0").
Proof. apply not_ends; [done|]. rewrite !string_app_assoc, last_char_app; done. Qed.

Lemma claim_not_state path : is_consumption path → ¬ is_state_file path.
Proof. intros Hc Hs. by apply (state_not_consumption path). Qed.

Lemma host_open_law path flags h r h' : host_open path flags h = (r, h') → (flags = CreateExclusive → is_consumption path) →
  others h h' ∧
  match r with
  | Ok f => file_Name f = path ∧ (flags = CreateExclusive → host_file h path = None ∧ host_file h' path ≠ None)
  | Error _ => True
  end.
Proof.
  intros E Hflags. destruct flags; cbn in E; try (injection E as <- <-; split; [by apply same_others|done]).
  destruct (ho_files h !! path) eqn:Hp; [injection E as <- <-; split; [by apply same_others|done]|].
  destruct (decide _) as [Hm|Hm]; injection E as <- <-; [split; [by apply same_others|done]|].
  unfold host_file. cbn. rewrite lookup_insert_eq. split; [|done]. split; [|done].
  apply moved_by; unfold host_file; cbn; intros p H1 H2.
  - rewrite lookup_insert_ne; [done|by intros ->].
  - rewrite lookup_insert_ne; [done|]. intros ->. by eapply claim_not_state, H2; auto.
  - destruct (decide (p = path)) as [->|]; [by rewrite lookup_insert_eq|by rewrite lookup_insert_ne].
Qed.

Lemma host_temp_law dir pattern h r h' : host_temp dir pattern h = (r, h') → moved ∅ h h' ∧
  match r with
  | Ok f => ho_mine h' = {[file_Name f]} ∪ ho_mine h ∧ (file_Name f ∉ ho_mine h) ∧ host_file h' (file_Name f) = Some "" ∧
            ∃ prefix digits, file_Name f = prefix +:+ digits ∧ digits ≠ "" ∧ all_chars is_digit digits = true
  | Error _ => ho_mine h' = ho_mine h
  end.
Proof.
  unfold host_temp. pose proof (temp_not_state dir pattern) as Hns. pose proof (temp_digits dir pattern) as Hd.
  set (path := dir +:+ _) in *. cbv zeta. destruct (ho_files h !! path) eqn:Hp.
  { intros [= <- <-]. split; [by apply same_others|done]. }
  destruct (decide _) as [Hm|Hm]; intros [= <- <-]; [split; [by apply same_others|done]|].
  split; [|unfold host_file; cbn; by rewrite lookup_insert_eq].
  apply moved_by; unfold host_file; cbn; intros p H1 H2.
  - rewrite lookup_insert_ne; [done|by intros <-].
  - rewrite lookup_insert_ne; [done|by intros <-].
  - destruct (decide (p = path)) as [->|]; [by rewrite lookup_insert_eq|by rewrite lookup_insert_ne].
Qed.

Lemma host_write_law f data h r h' : host_write f data h = (r, h') → file_Name f ∈ ho_mine h →
  moved {[file_Name f]} h h' ∧ ho_mine h' = ho_mine h ∧
  (r = None → host_file h' (file_Name f) = ((λ old, old +:+ data) <$> host_file h (file_Name f))).
Proof.
  unfold host_write. intros E Hm. assert (∀ h, moved {[file_Name f]} h h) as Hrefl.
  { intros h0. by apply moved_by. }
  destruct (is_claim _) eqn:Hc.
  { rewrite decide_True in E by done. by injection E as <- <-. }
  destruct (ho_files h !! file_Name f) as [old|] eqn:Hf; injection E as <- <-; [|done].
  split_and!; [|done|intros _; unfold host_file; cbn; by rewrite lookup_insert_eq, Hf].
  apply moved_by; unfold host_file; cbn; intros p H1 H2.
  - rewrite lookup_insert_ne; [done|set_solver].
  - rewrite lookup_insert_ne; [done|by intros <-].
  - rewrite lookup_insert_ne; [done|set_solver].
Qed.

Lemma host_write_claim f data h r h' : host_write f data h = (r, h') → is_consumption (file_Name f) → others h h'.
Proof. unfold host_write. intros E Hc%has_suffix_ends. unfold is_claim in E. rewrite Hc in E. injection E as _ <-. by apply same_others. Qed.

Lemma host_rename_law from to h r h' : host_rename from to h = (r, h') → from ∈ ho_mine h → to ∈ ho_mine h → from ≠ to →
  moved {[from; to]} h h' ∧
  match r with
  | None => ho_mine h' = ho_mine h ∖ {[from]} ∧ host_file h' to = host_file h from
  | Some _ => ho_mine h' = ho_mine h ∧ (host_file h' to = host_file h to ∨ host_file h' to = host_file h from)
  end.
Proof.
  unfold host_rename. intros E Hfrom Hto Hne. destruct (ho_files h !! from) as [data|] eqn:Hd; injection E as <- <-.
  2: { split; [by apply moved_by|]. by split; [|left]. }
  split; [|unfold host_file; cbn; by rewrite lookup_insert_eq].
  apply moved_by; unfold host_file; cbn; intros p H1 H2;
    (rewrite lookup_insert_ne by set_solver; rewrite lookup_delete_ne by set_solver; done).
Qed.

Lemma host_remove_law path h r h' : host_remove path h = (r, h') → ¬ is_state_file path → ¬ is_consumption path →
  moved {[path]} h h' ∧ ho_mine h' = ho_mine h ∖ {[path]}.
Proof.
  intros [= <- <-] Hs Hc. split; [|done]. apply moved_by; unfold host_file; cbn; intros p H1 H2;
    (rewrite lookup_delete_ne; [done|first [set_solver|by intros <-]]).
Qed.

Lemma host_read_law path h r h' : host_read path h = (r, h') → others h h' ∧
  (path ∈ ho_mine h → match r with Ok data => host_file h path = Some data | Error err => os_IsNotExist err = true → host_file h path = None end).
Proof.
  unfold host_read. intros [= <- <-]. split; [by apply same_others|]. intros _. unfold host_file. by destruct (ho_files h !! path).
Qed.

Lemma host_lock_law f h r h' : host_lock f h = (r, h') → moved ∅ h h' ∧
  match r with None => ho_mine h' = guarded (file_Name f) ∪ ho_mine h | Some _ => ho_mine h' = ho_mine h end.
Proof. intros [= <- <-]. split; [|done]. by apply moved_by. Qed.

Lemma host_unlock_law f h r h' : host_unlock f h = (r, h') → moved (guarded (file_Name f)) h h' ∧
  ho_mine h' = ho_mine h ∖ guarded (file_Name f) ∧
  ∀ path, path ∈ guarded (file_Name f) → file_steps authority (host_file h path) (host_file h' path).
Proof. intros [= <- <-]. split; [by apply moved_by|]. split; [done|]. intros path _. reflexivity. Qed.

#[export] Instance host_laws : HostLaws authority host.
Proof.
  refine {| files := host_file; mine := ho_mine; os_ReadFile_law := host_read_law; os_OpenFile_law := host_open_law;
    os_CreateTemp_law := host_temp_law; file_Write_law := host_write_law; file_Write_consumption := host_write_claim;
    os_Rename_law := host_rename_law; os_Remove_law := host_remove_law; unix_Lock_law := host_lock_law;
    unix_Unlock_law := host_unlock_law |}; intros; by apply same_quiet.
Defined.
End Laws.
