(* ===== verification/LifecycleExample.v ===== *)
(** * A workload's life on the host in memory

    A grant is consumed and the workload it admits is started, observed, leased,
    quarantined, released and restarted on the host of [HostMemory.v].  The
    theorems on the lifecycle store and on the launch are applied to these runs. *)

From stdpp Require Import stringmap.
From S2P Require Import Prelude Crypto Format Json Base64 Unmarshal GoTime Permit JournalEntry FileSystem Journal Ordered KernelAbi KernelFabric Evidence Document Workload Lifecycle Recovery Quarantine RuntimeTrust LifecycleText Linux Launcher LifecycleStore LifecycleSteps LifecycleLaws LifecycleRun LaunchOrder MemoryFS HostMemory.
Local Open Scope Z_scope.
Local Open Scope go_scope.

(** A signature is the public key. *)
#[export] Instance toy_ed25519 : Ed25519 := {|
  ed25519_Sign privateKey payload := ed25519_Public privateKey;
  ed25519_Verify publicKey payload signature := str_eqb signature publicKey |}.

#[export] Program Instance ordered_range : MapRange := {| map_range l := l |}.
Next Obligation. done. Qed.

Definition key_of (a : ascii) : string := String.string_of_list_ascii (replicate 64 a).
Definition host_key : string := key_of "h".
Definition authority_key : string := key_of "l".
Definition issuer_key : string := key_of "i".
Definition authority : string := ed25519_Public authority_key.

Definition start_time : time := 63900000000 * second_ns.
Definition at_second (n : Z) : time := start_time + seconds n.

Definition sample_digest (s : string) : string := sha256_digest s.

Definition example_spec : WorkloadLaunchSpec :=
  {| sp_Executable := "/bin/app"; sp_Args := []; sp_WorkingDir := ""; sp_Environment := []; sp_LinuxIsolation := None |}.

Definition spec_digest : string := match WorkloadLaunchSpecDigest example_spec with Ok d => d | Error _ => "" end.

Definition sample_grant (id : string) : WorkloadAdmissionGrant := {|
  gr_Version := WorkloadAdmissionGrantVersion; gr_GrantID := id; gr_RequestID := "r"; gr_DeviceID := "dev"; gr_WorkloadID := "w";
  gr_WorkloadSpecDigest := spec_digest; gr_TargetCgroup := "/cg/w"; gr_TargetCgroupID := 7; gr_BootstrapDigest := sample_digest "b";
  gr_RemoteDecisionID := "d"; gr_RemoteDecisionDigest := sample_digest "r"; gr_IssuerID := "i"; gr_NotBefore := utc start_time;
  gr_ExpiresAt := utc (at_second 600) |}.

(** A document that was signed, or this one without a signature. *)
Definition signed_or {D} (d : D) (r : result (Signed D)) : Signed D :=
  match r with Ok signed => signed | Error _ => {| sg_Document := d; sg_KeyID := ""; sg_Signature := "" |} end.

Definition sample_request (id : string) (restart : option SignedWorkloadRestartDecision) : GovernedWorkloadLaunchRequest := {|
  gl_LaunchRequest := {|
    lr_SignedGrant := signed_or (sample_grant id) (SignWorkloadAdmissionGrant (sample_grant id) issuer_key);
    lr_IssuerPublicKey := ed25519_Public issuer_key; lr_LaunchSpec := example_spec; lr_ConsumptionDir := "/claims"; lr_DeviceID := "dev";
    lr_HostAttestorKey := host_key; lr_Now := at_second 10 |};
  gl_LifecycleStore := {| ws_Dir := "/state" |}; gl_RestartDecision := restart; gl_LifecycleAuthorityPublicKey := authority |}.

(** What the kernel shows of a process. *)
Definition process_stat (pid : string) : string := pid +:+ " (app) S 1 2 3 4 5 6 7 8 9 10 11 12 13 14 15 16 17 18 4711 20".

Definition first_host : host := {|
  ho_files := <[DefaultBootIDPath := "boot"]> (<["/proc/self/mountinfo" := "30 23 0:26 / /cg rw - cgroup2 cgroup2 rw"]>
    (<["/proc/100/stat" := process_stat "100"]> (<["/proc/100/cgroup" := "0::/w"]>
    (<["/proc/101/stat" := process_stat "101"]> (<["/proc/101/cgroup" := "0::/w"]> ∅)))));
  ho_mine := ∅; ho_clock := at_second 10; ho_boot := 1000; ho_pid := 100; ho_exit := 0 |}.

Definition first_start := StartGovernedWorkload (sample_request "g1" None) first_host.
Definition started_host : host := first_start.1.2.

(** * The documents of its life *)

Definition no_receipt : SignedWorkloadActivationReceipt := signed_or {|
  ac_Version := ""; ac_ActivationID := ""; ac_GrantID := ""; ac_GrantDigest := ""; ac_DeviceID := ""; ac_WorkloadID := "";
  ac_WorkloadSpecDigest := ""; ac_TargetCgroup := ""; ac_TargetCgroupID := 0; ac_ProcessID := 0; ac_ProcessIdentity := None;
  ac_StartedAt := utc 0 |} (Error ErrNotExist).
Definition no_process : AttestedWorkloadProcess * WorkloadLifecycleState :=
  ({| ap_Process := None; ap_SignedReceipt := no_receipt |}, first_state (sample_grant "") 0).

Definition result_or {A} (default : A) (r : result A) : A := match r with Ok a => a | Error _ => default end.

Definition first_process : AttestedWorkloadProcess := (result_or no_process first_start.1.1).1.
Definition running_state : WorkloadLifecycleState := (result_or no_process first_start.1.1).2.
Definition activation : SignedWorkloadActivationReceipt := ap_SignedReceipt first_process.

Definition sample_lease : RuntimeTrustLease := {|
  tl_Version := RuntimeTrustLeaseVersion; tl_LeaseID := "l1"; tl_LeaseEpoch := 1; tl_DeviceID := "dev"; tl_WorkloadID := "w";
  tl_Generation := 1; tl_LifecycleEpoch := 1; tl_ActivationDigest := ls_ActivationDigest running_state; tl_WorkloadSpecDigest := spec_digest;
  tl_TargetCgroup := "/cg/w"; tl_TargetCgroupID := 7; tl_BootstrapDigest := sample_digest "b"; tl_PolicyDigest := sample_digest "p";
  tl_RemoteDecisionID := "d"; tl_RemoteDecisionDigest := sample_digest "r"; tl_RemoteVerifiedAt := utc start_time; tl_AuthorityID := "l";
  tl_IssuedAt := utc start_time; tl_ExpiresAt := utc (at_second 90) |}.
Definition signed_lease : SignedRuntimeTrustLease := signed_or sample_lease (SignRuntimeTrustLease sample_lease authority_key).

Definition sample_reconciliation (outcome : string) : WorkloadReconciliationDecision := {|
  rc_Version := WorkloadReconciliationDecisionVersion; rc_DecisionID := "c1"; rc_DeviceID := "dev"; rc_WorkloadID := "w";
  rc_Generation := 1; rc_ActivationDigest := ls_ActivationDigest running_state; rc_ObservationDigest := sample_digest "o";
  rc_Outcome := outcome; rc_ReasonCodes := []; rc_ObservedAt := utc (at_second 20); rc_DecidedAt := utc (at_second 21);
  rc_AuthorityID := "l" |}.
Definition signed_quarantine : SignedWorkloadReconciliationDecision :=
  let d := sample_reconciliation ReconciliationQuarantine in signed_or d (SignWorkloadReconciliationDecision d authority_key).

Definition sample_release : QuarantineReleaseDecision := {|
  qr_Version := QuarantineReleaseDecisionVersion; qr_DecisionID := "q1"; qr_DeviceID := "dev"; qr_WorkloadID := "w"; qr_Generation := 1;
  qr_PreviousLifecycleEpoch := 1; qr_NewLifecycleEpoch := 2; qr_ActivationDigest := ls_ActivationDigest running_state;
  qr_QuarantineRecoveryDigest := result_or "" (SignedWorkloadReconciliationDecisionDigest signed_quarantine);
  qr_ClearanceObservationDigest := sample_digest "o"; qr_RemoteDecisionDigest := sample_digest "r";
  qr_OperatorApprovalDigest := sample_digest "a"; qr_Outcome := QuarantineReleaseOutcome; qr_ReasonCodes := [];
  qr_DecidedAt := utc (at_second 30); qr_ExpiresAt := utc (at_second 90); qr_AuthorityID := "l" |}.
Definition signed_release : SignedQuarantineReleaseDecision :=
  signed_or sample_release (SignQuarantineReleaseDecision sample_release authority_key).

(** * Its life *)

Definition example_store : WorkloadLifecycleStore := {| ws_Dir := "/state" |}.
Definition example_path : string := state_path example_store "dev" "w".

Definition lease_run := ApplyRuntimeTrustLease example_store signed_lease authority (at_second 11) started_host.
Definition leased_host : host := lease_run.1.2.
Definition leased_again := ApplyRuntimeTrustLease example_store signed_lease authority (at_second 12) leased_host.

Definition quarantine_run := ApplyWorkloadReconciliation example_store signed_quarantine authority started_host.
Definition quarantined_host : host := quarantine_run.1.2.
Definition release_run := ApplyQuarantineRelease example_store signed_release authority (at_second 31) quarantined_host.
Definition released_host : host := release_run.1.2.

(** The process exits, and is started again under a restart decision. *)
Definition wait_run := WaitGovernedWorkload first_process example_store host_key started_host.
Definition exited_host : host := wait_run.1.2.
Definition state_or (default : WorkloadLifecycleState) (r : result (option WorkloadLifecycleState)) : WorkloadLifecycleState :=
  match r with Ok (Some s) => s | _ => default end.
Definition exited_digest : string := ls_ExitDigest (state_or running_state (recorded (host_file exited_host example_path))).

Definition sample_restart : WorkloadRestartDecision := {|
  rd_Version := WorkloadRestartDecisionVersion; rd_DecisionID := "r1"; rd_DeviceID := "dev"; rd_WorkloadID := "w";
  rd_WorkloadSpecDigest := spec_digest; rd_TargetCgroup := "/cg/w"; rd_TargetCgroupID := 7; rd_BootstrapDigest := sample_digest "b";
  rd_PreviousGeneration := 1; rd_LifecycleEpoch := 1; rd_PreviousActivationDigest := ls_ActivationDigest running_state;
  rd_PreviousExitDigest := exited_digest; rd_PreviousRecoveryDigest := ""; rd_CurrentRemoteDecisionDigest := sample_digest "r";
  rd_Outcome := RestartOutcomeRequireFreshGrant; rd_ReasonCodes := []; rd_RestartCountInWindow := 0;
  rd_RestartWindowStartedAt := utc start_time; rd_NotBefore := utc start_time; rd_ExpiresAt := utc (at_second 90);
  rd_EvaluatedAt := utc start_time; rd_AuthorityID := "l" |}.
Definition signed_restart : SignedWorkloadRestartDecision :=
  signed_or sample_restart (SignWorkloadRestartDecision sample_restart authority_key).
Definition second_start := StartGovernedWorkload (sample_request "g2" (Some signed_restart)) exited_host.


(** The lease is revoked: the decision, and what is observed after it. *)
Definition leased_state_now : WorkloadLifecycleState := result_or running_state lease_run.1.1.
Definition sample_revocation : RuntimeTrustDecision := {|
  td_Version := RuntimeTrustDecisionVersion; td_DecisionID := "t1"; td_DeviceID := "dev"; td_WorkloadID := "w"; td_Generation := 1;
  td_LifecycleEpoch := 1; td_ActivationDigest := ls_ActivationDigest running_state;
  td_RuntimeLeaseDigest := ls_RuntimeTrustLeaseDigest leased_state_now; td_RuntimeLeaseEpoch := 1; td_PolicyDigest := sample_digest "p";
  td_RemoteDecisionDigest := ""; td_TargetCgroup := "/cg/w"; td_TargetCgroupID := 7; td_Outcome := RuntimeTrustRevoke; td_ReasonCodes := [];
  td_DecidedAt := utc (at_second 15); td_AuthorityID := "l" |}.
Definition signed_revocation : SignedRuntimeTrustDecision :=
  signed_or sample_revocation (SignRuntimeTrustDecision sample_revocation authority_key).
Definition contained_run :=
  observe_contained leased_state_now (sg_Document activation) (ls_ActivationDigest running_state)
    (result_or "" (SignedRuntimeTrustDecisionDigest signed_revocation)) host_key (at_second 16) leased_host.
Definition containment : SignedWorkloadRecoveryObservation :=
  result_or (signed_or (orphan_observation running_state (sg_Document activation) "" "" 0
    {| os_Expected := None; os_Boot := ""; os_Seen := None; os_State := ""; os_Detail := "" |}) (Error ErrNotExist)) contained_run.1.1.
Definition revocation_run :=
  EvaluateRuntimeTrustReconciliation leased_state_now activation containment signed_revocation (ed25519_Public host_key) authority_key "l"
    (at_second 17) leased_host.

(** * What the runs gave *)

(** The names of the runs are unfolded before the programs. *)
Strategy expand [first_start started_host lease_run leased_host leased_again quarantine_run quarantined_host release_run released_host
  wait_run exited_host second_start revocation_run first_process running_state].

Lemma run_triple {A B C} (p : A * B * C) : p = (p.1.1, p.1.2, p.2).
Proof. by destruct p as [[]]. Qed.

Lemma run_Ok {A B C} (p : result A * B * C) (default : A) : is_ok p.1.1 = true → p = (Ok (result_or default p.1.1), p.1.2, p.2).
Proof. by destruct p as [[[]]]. Qed.

Lemma run_Ok_pair {A A' B C} (p : result (A * A') * B * C) (default : A * A') : is_ok p.1.1 = true →
  p = (Ok ((result_or default p.1.1).1, (result_or default p.1.1).2), p.1.2, p.2).
Proof. by destruct p as [[[[]|] ?] ?]. Qed.

Lemma first_start_ok : is_ok first_start.1.1 = true.
Proof. vm_compute. done. Qed.

Lemma first_start_Ok : StartGovernedWorkload (sample_request "g1" None) first_host =
  (Ok (first_process, running_state), started_host, first_start.2).
Proof.
  pose proof first_start_ok as Hok. unfold first_process, running_state, started_host, first_start in *. by apply run_Ok_pair.
Qed.

Lemma lease_run_ok : is_ok lease_run.1.1 = true ∧ is_ok leased_again.1.1 = false.
Proof. vm_compute. done. Qed.

Lemma quarantine_run_ok : is_ok release_run.1.1 = true.
Proof. vm_compute. done. Qed.

Lemma wait_run_ok : wait_run.1.1.2 = None.
Proof. vm_compute. done. Qed.

Lemma second_start_ok : is_ok second_start.1.1 = true.
Proof. vm_compute. done. Qed.

Lemma revocation_run_ok : is_ok revocation_run.1.1 = true.
Proof. vm_compute. done. Qed.

(** Nothing is locked between the runs. *)
Lemma unlocked_names : ho_mine first_host = ∅ ∧ ho_mine started_host = ∅ ∧ ho_mine exited_host = ∅ ∧ ho_mine quarantined_host = ∅.
Proof. vm_compute. done. Qed.

Local Abbreviation held := (@mine _ _ authority host _ _ _ (host_laws authority)).
Local Abbreviation stored := (@files _ _ authority host _ _ _ (host_laws authority)).

Lemma free_first : example_path ∉ held first_host.
Proof. change (held first_host) with (ho_mine first_host). rewrite (proj1 unlocked_names). set_solver. Qed.
Lemma free_started : example_path ∉ held started_host.
Proof. change (held started_host) with (ho_mine started_host). rewrite (proj1 (proj2 unlocked_names)). set_solver. Qed.
Lemma free_quarantined : example_path ∉ held quarantined_host.
Proof. change (held quarantined_host) with (ho_mine quarantined_host). rewrite (proj2 (proj2 (proj2 unlocked_names))). set_solver. Qed.

Lemma first_request_sound : sound_request authority (sample_request "g1" None).
Proof. split; [vm_compute; done..|]. done. Qed.

Lemma second_request_sound : sound_request authority (sample_request "g2" (Some signed_restart)).
Proof. split; [vm_compute; done..|]. intros decision Hd. apply (inj Some) in Hd as <-. vm_compute. repeat split; done. Qed.

Definition second_process : AttestedWorkloadProcess := (result_or no_process second_start.1.1).1.
Definition second_state : WorkloadLifecycleState := (result_or no_process second_start.1.1).2.

Lemma second_start_Ok : StartGovernedWorkload (sample_request "g2" (Some signed_restart)) exited_host =
  (Ok (second_process, second_state), second_start.1.2, second_start.2).
Proof. pose proof second_start_ok as Hok. unfold second_process, second_state, second_start in *. by apply run_Ok_pair. Qed.

Lemma request_paths : request_path (sample_request "g1" None) = example_path ∧
  request_path (sample_request "g2" (Some signed_restart)) = example_path.
Proof. vm_compute. done. Qed.

Lemma documents_paths : state_path example_store (tl_DeviceID (sg_Document signed_lease)) (tl_WorkloadID (sg_Document signed_lease)) = example_path ∧
  state_path example_store (qr_DeviceID (sg_Document signed_release)) (qr_WorkloadID (sg_Document signed_release)) = example_path ∧
  state_path example_store (ac_DeviceID (sg_Document (ap_SignedReceipt first_process)))
    (ac_WorkloadID (sg_Document (ap_SignedReceipt first_process))) = example_path.
Proof. vm_compute. done. Qed.

Lemma start_performs path x req started next x' t : sound_request authority req → request_path req = path →
  StartGovernedWorkload req x = (Ok (started, next), x', t) →
  performs authority path x (Some (start_authorisation req (ap_SignedReceipt started))) x'.
Proof. intros Hreq <- Hrun. by eapply (performs_start authority _ x req (Ok (started, next))). Qed.

Lemma first_performs : performs authority example_path first_host (Some (ByActivation activation)) started_host.
Proof.
  apply (start_performs example_path first_host (sample_request "g1" None) first_process running_state started_host first_start.2
    first_request_sound (proj1 request_paths) first_start_Ok).
Qed.

Lemma wait_performs : ∃ report, performs authority example_path started_host report exited_host.
Proof.
  eexists. eapply (performs_wait authority example_path started_host first_process example_store host_key wait_run.1.1.1.1 wait_run.1.1.1.2
    wait_run.1.1.2 exited_host wait_run.2 (eq_sym (proj2 (proj2 documents_paths)))). unfold exited_host.
  assert (∀ p : option SignedWorkloadExitReceipt * Z * option error * host * list io_event,
    p = (p.1.1.1.1, p.1.1.1.2, p.1.1.2, p.1.2, p.2)) as Hp by (by intros [[[[] ?] ?] ?]). exact (Hp wait_run).
Qed.

Lemma performs_lease_at path x store lease now r x' t : path = state_path store (tl_DeviceID (sg_Document lease)) (tl_WorkloadID (sg_Document lease)) →
  ApplyRuntimeTrustLease store lease authority now x = (r, x', t) →
  (is_ok r = true → performs authority path x (Some (ByLease lease)) x') ∧ (is_ok r = false → performs authority path x None x').
Proof. intros Hp Hrun. pose proof (performs_lease authority path x store lease now r x' t Hp Hrun) as H. by split; intros E; rewrite E in H. Qed.

Lemma performs_release_at path x store release now r x' t :
  path = state_path store (qr_DeviceID (sg_Document release)) (qr_WorkloadID (sg_Document release)) →
  ApplyQuarantineRelease store release authority now x = (r, x', t) → is_ok r = true → performs authority path x (Some (ByRelease release)) x'.
Proof. intros Hp Hrun E. pose proof (performs_release authority path x store release now r x' t Hp Hrun) as H. by rewrite E in H. Qed.

Lemma lease_run_eq : ApplyRuntimeTrustLease example_store signed_lease authority (at_second 11) started_host =
  (lease_run.1.1, leased_host, lease_run.2).
Proof. unfold leased_host, lease_run. apply run_triple. Qed.

Lemma leased_again_eq : ApplyRuntimeTrustLease example_store signed_lease authority (at_second 12) leased_host =
  (leased_again.1.1, leased_again.1.2, leased_again.2).
Proof. unfold leased_again. apply run_triple. Qed.

Lemma release_run_eq : ApplyQuarantineRelease example_store signed_release authority (at_second 31) quarantined_host =
  (release_run.1.1, released_host, release_run.2).
Proof. unfold released_host, release_run. apply run_triple. Qed.

Lemma lease_performs : performs authority example_path started_host (Some (ByLease signed_lease)) leased_host.
Proof. exact (proj1 (performs_lease_at _ _ _ _ _ _ _ _ (eq_sym (proj1 documents_paths)) lease_run_eq) (proj1 lease_run_ok)). Qed.

Lemma lease_again_performs : performs authority example_path leased_host None leased_again.1.2.
Proof. exact (proj2 (performs_lease_at _ _ _ _ _ _ _ _ (eq_sym (proj1 documents_paths)) leased_again_eq) (proj2 lease_run_ok)). Qed.

Lemma release_performs : performs authority example_path quarantined_host (Some (ByRelease signed_release)) released_host.
Proof. exact (performs_release_at _ _ _ _ _ _ _ _ (eq_sym (proj1 (proj2 documents_paths))) release_run_eq quarantine_run_ok). Qed.

Local Abbreviation others := (others authority stored held).

Lemma others_after_wait : others started_host exited_host.
Proof. destruct wait_performs as [report H]. exact (performs_others authority _ _ _ _ H free_started). Qed.

Lemma others_after_lease : others started_host leased_host.
Proof. exact (performs_others authority _ _ _ _ lease_performs free_started). Qed.

Lemma others_after_release : others quarantined_host released_host.
Proof. exact (performs_others authority _ _ _ _ release_performs free_quarantined). Qed.

(** What is recorded of the state. *)
Definition recorded_state (h : host) : WorkloadLifecycleState := state_or running_state (recorded (stored h example_path)).

Lemma recorded_some r default : match r with Ok (Some _) => true | _ => false end = true → r = Ok (Some (state_or default r)).
Proof. by destruct r as [[]|]. Qed.

Lemma started_recorded : recorded (stored started_host example_path) = Ok (Some (recorded_state started_host)).
Proof. apply recorded_some. vm_compute. done. Qed.

Lemma quarantined_recorded : recorded (stored quarantined_host example_path) = Ok (Some (recorded_state quarantined_host)) ∧
  ls_State (recorded_state quarantined_host) = LifecycleStateQuarantined.
Proof. split; [apply recorded_some; vm_compute; done|vm_compute; done]. Qed.

Lemma example_path_state : is_state_file example_path.
Proof. apply state_path_state. Qed.

(** * The theorems applied *)

Example operations_refine_lifecycle_witness :
  others first_host started_host ∧ made authority example_path (ByActivation activation) first_host started_host.
Proof.
  destruct (operations_refine_lifecycle authority example_path first_host (Some (ByActivation activation)) started_host) as [Ho Hm].
  - exact free_first.
  - exact first_performs.
  - split; [exact Ho|]. exact (Hm _ eq_refl).
Defined.

Example no_document_applies_twice_witness :
  performs authority example_path started_host (Some (ByLease signed_lease)) leased_host ∧
  performs authority example_path leased_host None leased_again.1.2 ∧ (None : option authorisation) ≠ Some (ByLease signed_lease).
Proof.
  split; [exact lease_performs|]. split; [exact lease_again_performs|].
  apply (no_document_applies_twice authority example_path (ByLease signed_lease) started_host leased_host leased_host None leased_again.1.2).
  - exact free_started.
  - exact I.
  - exact lease_performs.
  - apply (others_preorder authority).
  - exact lease_again_performs.
Defined.

Example one_start_per_generation_witness :
  ls_Generation running_state < ls_Generation second_state ∧
  ls_State running_state = LifecycleStateRunning ∧ ls_State second_state = LifecycleStateRunning.
Proof.
  apply (one_start_per_generation authority (sample_request "g1" None) (sample_request "g2" (Some signed_restart)) first_host started_host
    exited_host second_start.1.2 first_start.2 second_start.2 first_process second_process running_state second_state).
  - exact first_request_sound.
  - exact second_request_sound.
  - exact (eq_trans (proj1 request_paths) (eq_sym (proj2 request_paths))).
  - rewrite (proj1 request_paths). exact free_first.
  - exact first_start_Ok.
  - exact others_after_wait.
  - exact second_start_Ok.
Defined.

Example quarantine_ends_by_release_witness :
  recorded (stored released_host example_path) = Ok (Some (recorded_state quarantined_host)) ∨
  ∃ release digest s' found, releases authority release digest (recorded_state quarantined_host) ∧
    ls_State s' = LifecycleStateExitedUnknown ∧ ls_RecoveryDigest s' = digest ∧
    ls_Generation s' = ls_Generation (recorded_state quarantined_host) ∧ lifecycle_steps authority (Some s') found ∧
    recorded (stored released_host example_path) = Ok found.
Proof.
  exact (@quarantine_ends_by_release _ _ authority host _ _ _ (host_laws authority) example_path quarantined_host released_host
    (recorded_state quarantined_host) example_path_state free_quarantined (proj1 quarantined_recorded) (proj2 quarantined_recorded)
    others_after_release).
Defined.

Example state_file_stays_valid_witness : ∃ found', recorded (stored leased_host example_path) = Ok found' ∧
  (∀ s', found' = Some s' → sound_state s' ∧ ∀ text, state_payload s' = Ok text → parse_state text = Ok s') ∧
  (∀ s, Some (recorded_state started_host) = Some s → ∃ s', found' = Some s' ∧ ls_DeviceID s' = ls_DeviceID s ∧
    ls_WorkloadID s' = ls_WorkloadID s ∧ ls_Generation s ≤ ls_Generation s' ∧
    (ls_Generation s' = ls_Generation s → ls_ActivationDigest s' = ls_ActivationDigest s)).
Proof.
  exact (@state_file_stays_valid _ _ authority host _ _ _ (host_laws authority) example_path started_host leased_host
    (Some (recorded_state started_host)) example_path_state free_started started_recorded others_after_lease).
Defined.

(** ** The revocation *)

Definition revoked_decision : SignedWorkloadReconciliationDecision := result_or signed_quarantine revocation_run.1.1.

Lemma revocation_run_eq : EvaluateRuntimeTrustReconciliation leased_state_now activation containment signed_revocation
  (ed25519_Public host_key) authority_key "l" (at_second 17) leased_host = (Ok revoked_decision, revocation_run.1.2, revocation_run.2).
Proof. pose proof revocation_run_ok as Hok. unfold revoked_decision, revocation_run in *. by apply run_Ok. Qed.

Example revoked_workload_never_quarantined_witness :
  ∃ next, reconciled_state (sg_Document revoked_decision) (sample_digest "d") (Some (NormalizeWorkloadLifecycleState leased_state_now)) = Ok next ∧
    ls_State next = LifecycleStateQuarantined ∧
    state_payload next = Error (ErrNew "runtime trust metadata exists without runtime trust epoch").
Proof.
  apply (revoked_workload_never_quarantined leased_state_now activation containment signed_revocation (ed25519_Public host_key)
    authority_key "l" (at_second 17) leased_host revocation_run.1.2 revocation_run.2 revoked_decision (sample_digest "d")).
  - exact revocation_run_eq.
  - exact (is_digest_sha256 "d").
Defined.

(** ** The launch *)

Definition attested_request : AttestedWorkloadLaunchRequest := gl_LaunchRequest (sample_request "g1" None).
Definition attested_run := StartAttestedWorkload attested_request first_host.
Definition attested_host : host := attested_run.1.2.
Definition attested_again := StartAttestedWorkload attested_request attested_host.

Lemma attested_run_eq : StartAttestedWorkload attested_request first_host = (attested_run.1.1, attested_host, attested_run.2).
Proof. unfold attested_host, attested_run. apply run_triple. Qed.

Lemma attested_again_eq : StartAttestedWorkload attested_request attested_host = (attested_again.1.1, attested_again.1.2, attested_again.2).
Proof. unfold attested_again. apply run_triple. Qed.

Lemma attested_run_starts : processes attested_run.2 = [Started 100] ∧ length (effects launch_effect_of attested_run.2) = 5%nat.
Proof. vm_compute. done. Qed.

Lemma attested_starts : processes attested_run.2 ≠ [].
Proof. by rewrite (proj1 attested_run_starts). Qed.


Example governed_start_leaves_no_stray_witness : ∃ pid, ap_Process first_process = Some pid ∧ processes first_start.2 = [Started pid].
Proof.
  exact (governed_start_leaves_no_stray (sample_request "g1" None) first_host (Ok (first_process, running_state)) started_host first_start.2
    first_start_Ok).
Defined.

Example grant_starts_one_process_witness : processes attested_again.2 = [].
Proof.
  exact (@grant_starts_one_process _ _ authority host _ _ _ (host_laws authority) attested_request attested_request first_host attested_host
    attested_host attested_again.1.2 attested_run.2 attested_again.2 attested_run.1.1 attested_again.1.1 eq_refl eq_refl attested_run_eq
    attested_starts (@reflexivity _ _ _ attested_host) attested_again_eq).
Defined.
