(* ===== verification/StrictJson.v ===== *)
(** * Strict JSON decoding

    [json.Decoder] with [DisallowUnknownFields], as [internal/server] reads its
    records: a member that no field takes is an error, and only the first value of
    the text is read.  What the strict decoder accepts, [Unmarshal] decodes to
    the same. *)

From S2P Require Import Prelude Crypto Format Json Base64 Unmarshal Permit JournalEntry.
Local Open Scope Z_scope.

Definition ErrUnknownField (key : string) : error := ErrNew ("json: unknown field " +:+ key).

Section Strict.
Context {S : Type} (fields : list (struct_field S)).

Fixpoint strict_members (members : list (string * jvalue)) (s : S) (err : option error) : S * option error :=
  match members with
  | [] => (s, err)
  | (key, v) :: members =>
      match find_field fields key with
      | None => strict_members members s (save_error err (Some (ErrUnknownField key)))
      | Some f => let '(s, err') := sf_set f v s in strict_members members s (save_error err err')
      end
  end.

Definition strict_struct : decoder S := λ v s,
  match v with
  | VNull => (s, None)
  | VObject members => strict_members members s None
  | _ => (s, Some ErrUnmarshalType)
  end.

(** The text goes on after the value: an object or an array ends with its
    bracket, any other value with white space or the text. *)
Definition ends_value (v : jvalue) (rest : string) : bool :=
  match v, rest with
  | VObject _, _ | VArray _, _ | _, "" => true
  | _, String a _ => json_space a
  end.

(** [Decoder.Decode] into a fresh structure, on a text that is not blank. *)
Definition Decode (zero : S) (text : string) : result S :=
  match parse_value (2 * String.length text + 2) max_depth (skip_space text) with
  | None => Error ErrSyntax
  | Some (v, rest) =>
      if negb (ends_value v rest) then Error ErrSyntax
      else match strict_struct v zero with
      | (_, Some err) => Error err
      | (s, None) => Ok s
      end
  end.

Lemma strict_members_error members s err : is_Some (strict_members members s (Some err)).2.
Proof.
  revert s err. induction members as [|[k v] members IH]; intros s err; [by eexists|]. cbn [strict_members save_error].
  destruct (find_field fields k) as [f|]; [destruct (sf_set f v s)|]; apply IH.
Qed.

Lemma strict_members_lenient members s t : strict_members members s None = (t, None) → decode_members fields members s None = (t, None).
Proof.
  revert s. induction members as [|[k v] members IH]; intros s; [done|]. cbn [strict_members decode_members save_error].
  destruct (find_field fields k) as [f|].
  - destruct (sf_set f v s) as [s' [err|]]; [|apply IH]. cbn [save_error]. intros H.
    pose proof (strict_members_error members s' err) as He. rewrite H in He. by destruct He.
  - intros H. pose proof (strict_members_error members s (ErrUnknownField k)) as He. rewrite H in He. by destruct He.
Qed.

Lemma strict_struct_lenient v s t : strict_struct v s = (t, None) → decode_struct fields v s = (t, None).
Proof. destruct v; try done. apply strict_members_lenient. Qed.

(** An error changes nothing else. *)
Lemma strict_members_state members s err err' : (strict_members members s err).1 = (decode_members fields members s err').1.
Proof.
  revert s err err'. induction members as [|[k v] members IH]; intros s err err'; [done|]. cbn [strict_members decode_members].
  destruct (find_field fields k) as [f|]; [destruct (sf_set f v s)|]; apply IH.
Qed.

Lemma strict_struct_state v s : (strict_struct v s).1 = (decode_struct fields v s).1.
Proof. destruct v; try done. apply strict_members_state. Qed.

(** Members that have fields are decoded alike. *)
Lemma strict_members_known members s : Forall (λ kv, is_Some (find_field fields kv.1)) members → ∀ err,
  strict_members members s err = decode_members fields members s err.
Proof.
  intros Hf. revert s. induction Hf as [|[k v] members [f Hk] Hf IH]; intros s err; [done|]. cbn [fst] in Hk.
  cbn [strict_members decode_members]. rewrite Hk. destruct (sf_set f v s). apply IH.
Qed.

Lemma Decode_Ok zero text s : Decode zero text = Ok s → ∃ v r, parse_value (2 * String.length text + 2) max_depth (skip_space text) = Some (v, r) ∧
  utf8_value v = true ∧ decode_struct fields v zero = (s, None).
Proof.
  unfold Decode. destruct (parse_value _ _ _) as [[v r]|] eqn:Hp; [|done]. destruct (negb _); [done|].
  destruct (strict_struct v zero) as [t [err|]] eqn:Hs; [done|]. intros [= <-]. exists v, r.
  split; [done|]. split; [by eapply parse_utf8|by apply strict_struct_lenient].
Qed.
End Strict.
