(* ===== verification/HashChain.v ===== *)
(** * Chains of records

    What the append-only files of the program have in common: each record holds
    the hash of the one before it and the SHA-256 of its own payload.  The hash of
    the last record then names all of them, so two chains with one last hash are
    the same chain, or two of their records collide. *)

From S2P Require Import Prelude Crypto Format Json Unmarshal Permit JournalEntry.
Local Open Scope Z_scope.

(** A record: the hash it links to, its own hash, the text that is hashed, and the
    record as a reader decodes it again -- bytes that are not UTF-8 replaced. *)
Class Chained (R : Type) : Type := {
  link_previous : R → string;
  link_hash : R → string;
  link_payload : R → string;
  link_canon : R → R;
  link_payload_inj r r' : link_payload r = link_payload r' → link_hash r = link_hash r' → link_canon r = link_canon r';
  link_canon_previous r r' : link_canon r = link_canon r' → coerce (link_previous r) = coerce (link_previous r') }.

Section Chains.
Context {R : Type} `{!Chained R}.
Implicit Types (r : R) (rs : list R).

Definition linked (previous : string) r : Prop := link_previous r = previous ∧ link_hash r = sha256_digest (link_payload r).

Fixpoint hash_chain (previous : string) rs : Prop :=
  match rs with [] => True | r :: rs => linked previous r ∧ hash_chain (link_hash r) rs end.

(** The hash that names the records. *)
Definition chain_head (previous : string) rs : string := default previous (link_hash <$> last rs).

Lemma chain_head_cons previous r rs : chain_head previous (r :: rs) = chain_head (link_hash r) rs.
Proof. unfold chain_head. rewrite last_cons. by destruct (last rs). Qed.

Lemma chain_head_snoc previous rs r : chain_head previous (rs ++ [r]) = link_hash r.
Proof. unfold chain_head. by rewrite last_snoc. Qed.

Lemma hash_chain_snoc previous rs r : hash_chain previous (rs ++ [r]) ↔ hash_chain previous rs ∧ linked (chain_head previous rs) r.
Proof.
  revert previous. induction rs as [|a rs IH]; intros previous; cbn [app hash_chain].
  - unfold chain_head. cbn. tauto.
  - rewrite IH, chain_head_cons. tauto.
Qed.

Lemma chain_head_digest rs : hash_chain "" rs → rs ≠ [] → ∃ p, chain_head "" rs = sha256_digest p.
Proof.
  destruct rs as [|r rs _] using rev_ind; [done|]. rewrite hash_chain_snoc, chain_head_snoc. intros [_ [_ ->]] _. eauto.
Qed.

Lemma chain_head_empty rs : hash_chain "" rs → chain_head "" rs = "" → rs = [].
Proof.
  intros Hc Hh. destruct (decide (rs = [])) as [|Hne]; [done|]. destruct (chain_head_digest _ Hc Hne) as [p Hp].
  rewrite Hp in Hh. by pose proof (proj1 (str_eqb_neq _ _) (digest_nonempty p)).
Qed.

Lemma chain_head_plain rs : hash_chain "" rs → coerce (chain_head "" rs) = chain_head "" rs.
Proof.
  intros Hc. destruct (decide (rs = [])) as [->|Hne]; [done|]. destruct (chain_head_digest _ Hc Hne) as [p ->]. apply digest_plain.
Qed.

(** Two records of two chains with one hash for two payloads. *)
Definition chain_collision (rs rs' : list R) : Prop :=
  ∃ r r', r ∈ rs ∧ r' ∈ rs' ∧ sha256_collision (link_payload r) (link_payload r').

Lemma chain_collision_mono rs rs' ks ks' : chain_collision rs rs' → rs ⊆ ks → rs' ⊆ ks' → chain_collision ks ks'.
Proof. intros (r & r' & H1 & H2 & H3) Hs Hs'. exists r, r'. auto. Qed.

Lemma records_determined rs : ∀ rs', hash_chain "" rs → hash_chain "" rs' → chain_head "" rs = chain_head "" rs' →
  link_canon <$> rs = link_canon <$> rs' ∨ chain_collision rs rs'.
Proof.
  induction rs as [|r rs IH] using rev_ind; intros rs' Hc Hc' Hh.
  { apply eq_sym, (chain_head_empty _ Hc') in Hh as ->. by left. }
  destruct rs' as [|r' rs' _] using rev_ind.
  { apply (chain_head_empty _ Hc) in Hh. by destruct rs. }
  apply hash_chain_snoc in Hc as [Hc [Hp Hr]], Hc' as [Hc' [Hp' Hr']]. rewrite !chain_head_snoc in Hh.
  destruct (sha256_digest_eq (link_payload r) (link_payload r')) as [Heq|Hcol]; [congruence| |].
  2:{ right. exists r, r'. rewrite !elem_of_app, !list_elem_of_singleton. auto. }
  assert (Hcanon : link_canon r = link_canon r') by by apply link_payload_inj.
  pose proof (link_canon_previous _ _ Hcanon) as Hprev. rewrite Hp, Hp', !chain_head_plain in Hprev by done.
  destruct (IH rs' Hc Hc' Hprev) as [IHeq|IHcol].
  - left. by rewrite !fmap_app, IHeq, !fmap_cons, Hcanon.
  - right. eapply chain_collision_mono; [exact IHcol| |]; intros x Hx; apply elem_of_app; by left.
Qed.
End Chains.
