(* ===== verification/CapabilityFence.v ===== *)
(** * Capability fences at the server

    Models [internal/server/capability_fence.go] and
    [capability_monotonic_root.go]: the coordinates a capability is fenced with,
    the check that runs before an effect, and the authority that compares a
    mutable source of coordinates with an independent root.  The contract of the
    root, [monotone_root], is what [CapabilityRoot.v] proves of the file with its
    anchor; from it follows that coordinates that were superseded once cannot pass
    the check again, whatever the mutable source is restored to. *)

From S2P Require Import Prelude Crypto Format Json Permit FileSystem.
From S2P Require Decision.
Local Open Scope Z_scope.

#[export] Instance CapabilityAuthoritySnapshot_eq_dec : EqDecision CapabilityAuthoritySnapshot.
Proof. solve_decision. Defined.

Record CapabilityFenceScope : Type := { cs_IntentID : string; cs_Kind : string; cs_Target : Target }.

Record CapabilityFenceIssue : Type := {
  ci_AuthorityDomain : string; ci_AuthorityTerm : Z; ci_DecisionEpoch : Z; ci_RevocationEpoch : Z }.

(** Methods of an interface are programs over the world. *)
Record CapabilityFenceAuthority (X : Type) : Type := {
  fa_Issue : CapabilityFenceScope → IO X (result CapabilityFenceIssue);
  fa_Current : CapabilityFenceScope → IO X (result CapabilityAuthoritySnapshot) }.
Arguments fa_Issue {X} _ _.
Arguments fa_Current {X} _ _.

Record CapabilityMonotonicRoot (X : Type) : Type := {
  mr_Advance : CapabilityFenceScope → CapabilityAuthoritySnapshot → IO X (result CapabilityAuthoritySnapshot);
  mr_Current : CapabilityFenceScope → IO X (result CapabilityAuthoritySnapshot) }.
Arguments mr_Advance {X} _ _ _.
Arguments mr_Current {X} _ _.

(** * Snapshots *)

Definition ErrCapabilityMonotonicRootBehind : error :=
  ErrNew "independent capability monotonic root is behind mutable authority".
Definition ErrCapabilityMonotonicRootInvalid : error := ErrNew "independent capability monotonic root is invalid".

Inductive capabilityRootRelation : Type := capabilityRootEqual | capabilityRootAhead | capabilityRootBehind.

Definition capabilityAuthoritySnapshotFromIssue (issue : CapabilityFenceIssue) : CapabilityAuthoritySnapshot := {|
  cu_AuthorityDomain := ci_AuthorityDomain issue; cu_AuthorityTerm := ci_AuthorityTerm issue;
  cu_DecisionEpoch := ci_DecisionEpoch issue; cu_RevocationEpoch := ci_RevocationEpoch issue |}.

Definition validateCapabilityAuthoritySnapshot (snapshot : CapabilityAuthoritySnapshot) : option error :=
  if blank (cu_AuthorityDomain snapshot) then Some (ErrNew "authority domain is required")
  else if cu_AuthorityTerm snapshot =? 0 then Some (ErrNew "authority term must be non-zero")
  else if cu_DecisionEpoch snapshot =? 0 then Some (ErrNew "decision epoch must be non-zero")
  else None.

Definition formatCapabilityAuthoritySnapshot (s : CapabilityAuthoritySnapshot) : string :=
  TrimSpace (cu_AuthorityDomain s) +:+ "/term=" +:+ pretty (cu_AuthorityTerm s) +:+ "/decision=" +:+ pretty (cu_DecisionEpoch s) +:+
  "/revocation=" +:+ pretty (cu_RevocationEpoch s).

Definition format_both (root mutable : CapabilityAuthoritySnapshot) : string :=
  "root=" +:+ formatCapabilityAuthoritySnapshot root +:+ " mutable=" +:+ formatCapabilityAuthoritySnapshot mutable.

Definition root_invalid (detail : string) : result capabilityRootRelation :=
  Error (ErrDetail ErrCapabilityMonotonicRootInvalid detail).

Definition compareCapabilityMonotonicRoot (root mutable : CapabilityAuthoritySnapshot) : result capabilityRootRelation :=
  match validateCapabilityAuthoritySnapshot root with
  | Some err => root_invalid ("root: " +:+ error_text err)
  | None =>
      match validateCapabilityAuthoritySnapshot mutable with
      | Some err => root_invalid ("mutable: " +:+ error_text err)
      | None =>
          if negb (str_eqb (TrimSpace (cu_AuthorityDomain root)) (TrimSpace (cu_AuthorityDomain mutable)))
          then root_invalid ("authority domain mismatch root=" +:+ cu_AuthorityDomain root +:+ " mutable=" +:+ cu_AuthorityDomain mutable)
          else if cu_AuthorityTerm mutable <? cu_AuthorityTerm root then Ok capabilityRootAhead
          else if cu_AuthorityTerm root <? cu_AuthorityTerm mutable then Ok capabilityRootBehind
          else
            let decisionAhead := cu_DecisionEpoch mutable <? cu_DecisionEpoch root in
            let decisionBehind := cu_DecisionEpoch root <? cu_DecisionEpoch mutable in
            let revocationAhead := cu_RevocationEpoch mutable <? cu_RevocationEpoch root in
            let revocationBehind := cu_RevocationEpoch root <? cu_RevocationEpoch mutable in
            if (decisionAhead || revocationAhead) && (decisionBehind || revocationBehind)
            then root_invalid ("crossed monotonic coordinates " +:+ format_both root mutable)
            else if decisionAhead || revocationAhead then Ok capabilityRootAhead
            else if decisionBehind || revocationBehind then Ok capabilityRootBehind
            else Ok capabilityRootEqual
      end
  end.

Definition capabilityRootAheadError (root mutable : CapabilityAuthoritySnapshot) : error :=
  if cu_AuthorityTerm mutable <? cu_AuthorityTerm root then ErrCapabilityAuthorityChanged
  else if cu_DecisionEpoch mutable <? cu_DecisionEpoch root then ErrCapabilityDecisionSuperseded
  else if cu_RevocationEpoch mutable <? cu_RevocationEpoch root then ErrCapabilityRevoked
  else ErrCapabilityMonotonicRootInvalid.

(** * The authority with an independent root *)

Record IndependentRootCapabilityAuthority (X : Type) : Type := {
  ir_Mutable : CapabilityFenceAuthority X; ir_Root : CapabilityMonotonicRoot X }.
Arguments ir_Mutable {X} _.
Arguments ir_Root {X} _.

Definition NewIndependentRootCapabilityAuthority {X} (mutable : option (CapabilityFenceAuthority X))
    (root : option (CapabilityMonotonicRoot X)) : result (IndependentRootCapabilityAuthority X) :=
  match mutable, root with
  | None, _ => Error (ErrNew "mutable capability fence authority is required")
  | _, None => Error (ErrNew "independent capability monotonic root is required")
  | Some mutable, Some root => Ok {| ir_Mutable := mutable; ir_Root := root |}
  end.

Section Independent.
Context {X : Type}.
Implicit Types (a : IndependentRootCapabilityAuthority X).

Definition IndependentRoot_Issue a (scope : CapabilityFenceScope) : IO X (result CapabilityFenceIssue) :=
  try (fa_Issue (ir_Mutable a) scope) unwrapped (λ issue,
  let observed := capabilityAuthoritySnapshotFromIssue issue in
  try (mr_Advance (ir_Root a) scope observed) (ErrWrap "advance independent capability monotonic root") (λ root,
  mret (match compareCapabilityMonotonicRoot root observed with
        | Error err => Error err
        | Ok capabilityRootEqual => Ok issue
        | Ok capabilityRootAhead =>
            Error (ErrWrap "independent capability monotonic root supersedes mutable issue" (capabilityRootAheadError root observed))
        | Ok capabilityRootBehind =>
            Error (ErrDetail ErrCapabilityMonotonicRootBehind ("after advance: " +:+ format_both root observed))
        end))).

Definition IndependentRoot_Current a (scope : CapabilityFenceScope) : IO X (result CapabilityAuthoritySnapshot) :=
  try (fa_Current (ir_Mutable a) scope) unwrapped (λ mutable,
  try (mr_Current (ir_Root a) scope) (ErrWrap "read independent capability monotonic root") (λ root,
  mret (match compareCapabilityMonotonicRoot root mutable with
        | Error err => Error err
        | Ok capabilityRootEqual => Ok mutable
        | Ok capabilityRootAhead => Ok root
        | Ok capabilityRootBehind => Error (ErrDetail ErrCapabilityMonotonicRootBehind (format_both root mutable))
        end))).

(** It is a [CapabilityFenceAuthority] itself. *)
Definition IndependentRoot_authority a : CapabilityFenceAuthority X := {|
  fa_Issue := IndependentRoot_Issue a; fa_Current := IndependentRoot_Current a |}.
End Independent.

(** * The server's fence *)

(** Of [egeEvidenceProduction], what a fence reads: the decision, the resource
    version and the plan digest of the permit binding, and the identity of the
    node in the snapshot. *)
Record egeEvidenceProduction : Type := {
  ep_Decision : Decision.Verdict; ep_PermitBinding : option (string * string); ep_NodeUID : option string }.

Definition allowed (v : Decision.Verdict) : bool := match v with Decision.Allow => true | _ => false end.

Definition verdict_text (v : Decision.Verdict) : string :=
  match v with Decision.Allow => "ALLOW" | Decision.Block => "BLOCK" | Decision.Escalate => "ESCALATE" end.

Definition capabilityFenceScope (intentID kind : string) (target : Target) : CapabilityFenceScope :=
  {| cs_IntentID := intentID; cs_Kind := kind; cs_Target := target |}.

Definition capabilityStateBindingFromProduction (target : Target) (production : egeEvidenceProduction) : result CapabilityStateBinding :=
  match allowed (ep_Decision production), ep_PermitBinding production with
  | true, Some (resourceVersion, planDigest) =>
      match ep_NodeUID production with
      | None => Error (ErrNew "capability state requires stable target identity")
      | Some uid =>
          if blank uid then Error (ErrNew "capability state requires stable target identity")
          else Ok {| sb_Target := target; sb_TargetIdentity := TrimSpace uid; sb_ResourceVersion := resourceVersion;
                     sb_PlanDigest := planDigest |}
      end
  | _, _ => Error (ErrNew "capability state requires ALLOW evidence production")
  end.

(** Of the server, its configuration and the composer of its evidence. *)
Record Server (X : Type) : Type := {
  sv_RequireCapabilityFencing : bool;
  sv_CapabilityFenceAuthority : option (CapabilityFenceAuthority X);
  sv_Compose : string → string → Target → IO X (result egeEvidenceProduction) }.
Arguments sv_RequireCapabilityFencing {X} _.
Arguments sv_CapabilityFenceAuthority {X} _.
Arguments sv_Compose {X} _ _ _ _.

Section Server.
Context {X : Type}.
Implicit Types (s : Server X).

Definition fence_claims (issue : CapabilityFenceIssue) (identity stateDigest : string) : CapabilityFenceClaims := {|
  cf_Version := CapabilityFenceVersion; cf_AuthorityDomain := TrimSpace (ci_AuthorityDomain issue);
  cf_AuthorityTerm := ci_AuthorityTerm issue; cf_DecisionEpoch := ci_DecisionEpoch issue;
  cf_RevocationEpoch := ci_RevocationEpoch issue; cf_TargetIdentity := identity; cf_StateBindingDigest := stateDigest |}.

Definition issueExecutionCapabilityFence s (intentID kind : string) (target : Target) (production : egeEvidenceProduction)
    : IO X (result (option CapabilityFenceClaims)) :=
  if negb (sv_RequireCapabilityFencing s) then mret (Ok None)
  else match sv_CapabilityFenceAuthority s with
  | None => mret (Error (ErrNew "capability fence authority is unavailable"))
  | Some authority =>
      match capabilityStateBindingFromProduction target production with
      | Error err => mret (Error err)
      | Ok state =>
          match DigestCapabilityStateBinding state with
          | Error err => mret (Error err)
          | Ok stateDigest =>
              try (fa_Issue authority (capabilityFenceScope intentID kind target)) (ErrWrap "issue capability fence coordinates") (λ issue,
              let claims := fence_claims issue (sb_TargetIdentity state) stateDigest in
              mret (match ValidateCapabilityFenceClaims claims with Some err => Error err | None => Ok (Some claims) end))
          end
      end
  end.

Definition revalidateExecutionCapabilityFence s (intentID kind : string) (target : Target) (claims : option CapabilityFenceClaims)
    : IO X (option error) :=
  if negb (sv_RequireCapabilityFencing s) then mret None
  else match claims with
  | None => mret (Some (ErrNew "execution capability fence is required"))
  | Some claims =>
      match sv_CapabilityFenceAuthority s with
      | None => mret (Some (ErrNew "capability fence authority is unavailable"))
      | Some authority =>
          r ← fa_Current authority (capabilityFenceScope intentID kind target);
          match r with
          | Error err => mret (Some (ErrWrap "read current capability authority" err))
          | Ok currentAuthority =>
              r ← sv_Compose s intentID kind target;
              match r with
              | Error err => mret (Some (ErrWrap "refresh capability state evidence" err))
              | Ok currentProduction =>
                  if negb (allowed (ep_Decision currentProduction))
                  then mret (Some (ErrNew ("capability state revalidation is not ALLOW: " +:+ verdict_text (ep_Decision currentProduction))))
                  else match capabilityStateBindingFromProduction target currentProduction with
                  | Error err => mret (Some err)
                  | Ok currentState => mret (ValidateCapabilityFence claims currentAuthority currentState)
                  end
              end
          end
      end
  end.
End Server.

(** * The order of snapshots *)

Definition valid_snapshot (s : CapabilityAuthoritySnapshot) : Prop :=
  blank (cu_AuthorityDomain s) = false ∧ cu_AuthorityTerm s ≠ 0 ∧ cu_DecisionEpoch s ≠ 0.

(** No coordinate of [s] is beyond [t]: a later term, or the same term and no
    later epoch. *)
Definition coordinates_le (s t : CapabilityAuthoritySnapshot) : Prop :=
  cu_AuthorityTerm s < cu_AuthorityTerm t ∨
  cu_AuthorityTerm s = cu_AuthorityTerm t ∧ cu_DecisionEpoch s ≤ cu_DecisionEpoch t ∧ cu_RevocationEpoch s ≤ cu_RevocationEpoch t.

Definition snapshot_le (s t : CapabilityAuthoritySnapshot) : Prop :=
  TrimSpace (cu_AuthorityDomain s) = TrimSpace (cu_AuthorityDomain t) ∧ coordinates_le s t.

#[export] Instance snapshot_le_dec s t : Decision (snapshot_le s t).
Proof. unfold snapshot_le, coordinates_le. apply _. Defined.

#[export] Instance snapshot_le_preorder : PreOrder snapshot_le.
Proof.
  split.
  - intros s. split; [done|]. unfold coordinates_le. lia.
  - intros s t u [H1 H2] [H3 H4]. split; [congruence|]. unfold coordinates_le in *. lia.
Qed.

Lemma validate_snapshot_None s : validateCapabilityAuthoritySnapshot s = None ↔ valid_snapshot s.
Proof.
  unfold validateCapabilityAuthoritySnapshot, valid_snapshot. destruct (blank _); [naive_solver|].
  destruct (Z.eqb_spec (cu_AuthorityTerm s) 0), (Z.eqb_spec (cu_DecisionEpoch s) 0); naive_solver.
Qed.

(** The relation that the source computes, in terms of the order. *)
Definition root_relation (root mutable : CapabilityAuthoritySnapshot) (r : capabilityRootRelation) : Prop :=
  match r with
  | capabilityRootEqual => snapshot_le root mutable ∧ snapshot_le mutable root
  | capabilityRootAhead => snapshot_le mutable root ∧ ¬ snapshot_le root mutable
  | capabilityRootBehind => snapshot_le root mutable ∧ ¬ snapshot_le mutable root
  end.

Lemma relation_coordinates root mutable r : TrimSpace (cu_AuthorityDomain root) = TrimSpace (cu_AuthorityDomain mutable) →
  root_relation root mutable r ↔
  match r with
  | capabilityRootEqual => coordinates_le root mutable ∧ coordinates_le mutable root
  | capabilityRootAhead => coordinates_le mutable root ∧ ¬ coordinates_le root mutable
  | capabilityRootBehind => coordinates_le root mutable ∧ ¬ coordinates_le mutable root
  end.
Proof. intros Hd. unfold root_relation, snapshot_le. destruct r; naive_solver. Qed.

Lemma compare_Ok root mutable r : compareCapabilityMonotonicRoot root mutable = Ok r ↔
  valid_snapshot root ∧ valid_snapshot mutable ∧ root_relation root mutable r.
Proof.
  unfold compareCapabilityMonotonicRoot, root_invalid. destruct (validateCapabilityAuthoritySnapshot root) eqn:Hr.
  { split; [done|]. intros (H%validate_snapshot_None & _). congruence. }
  destruct (validateCapabilityAuthoritySnapshot mutable) eqn:Hm.
  { split; [done|]. intros (_ & H%validate_snapshot_None & _). congruence. }
  apply validate_snapshot_None in Hr, Hm. destruct (str_eqb _ _) eqn:Hd; split_bool; cbn [negb].
  2:{ split; [done|]. unfold root_relation, snapshot_le. destruct r; naive_solver. }
  rewrite (relation_coordinates root mutable r) by done.
  cbv zeta. unfold coordinates_le.
  destruct (Z.ltb_spec (cu_AuthorityTerm mutable) (cu_AuthorityTerm root)), (Z.ltb_spec (cu_AuthorityTerm root) (cu_AuthorityTerm mutable)),
    (Z.ltb_spec (cu_DecisionEpoch mutable) (cu_DecisionEpoch root)), (Z.ltb_spec (cu_DecisionEpoch root) (cu_DecisionEpoch mutable)),
    (Z.ltb_spec (cu_RevocationEpoch mutable) (cu_RevocationEpoch root)), (Z.ltb_spec (cu_RevocationEpoch root) (cu_RevocationEpoch mutable));
    cbn [orb andb]; (split; [intros [= <-]; split_and!; first [done|lia]|intros (_ & _ & Hrel); destruct r; first [done|exfalso; lia]]).
Qed.

(** The root says what the order says, and an error when the two are not ordered
    or one of them is not a snapshot. *)
Lemma compare_Error root mutable : valid_snapshot root → valid_snapshot mutable →
  is_ok (compareCapabilityMonotonicRoot root mutable) = false ↔ ¬ snapshot_le root mutable ∧ ¬ snapshot_le mutable root.
Proof.
  intros Hr Hm. destruct (compareCapabilityMonotonicRoot root mutable) as [r|err] eqn:Hc; cbn [is_ok].
  - apply compare_Ok in Hc as (_ & _ & H). destruct r; unfold root_relation in H; naive_solver.
  - split; [intros _|done].
    assert (∀ r, ¬ root_relation root mutable r) as H.
    { intros r H. assert (compareCapabilityMonotonicRoot root mutable = Ok r) by (by apply compare_Ok). congruence. }
    pose proof (H capabilityRootEqual) as H1. pose proof (H capabilityRootAhead) as H2. pose proof (H capabilityRootBehind) as H3.
    unfold root_relation in *.
    destruct (decide (snapshot_le root mutable)), (decide (snapshot_le mutable root)); tauto.
Qed.

(** * The contract of a root *)

Section Contract.
Context {X : Type}.
Implicit Types (root : CapabilityMonotonicRoot X).

(** A call of the root answered with a snapshot. *)
Inductive root_answers root (scope : CapabilityFenceScope) (x : X) (s : CapabilityAuthoritySnapshot) (x' : X) (t : list io_event) : Prop :=
  | answers_advance observed : utf8_valid (cu_AuthorityDomain observed) = true → mr_Advance root scope observed x = (Ok s, x', t) →
      root_answers root scope x s x' t
  | answers_current : mr_Current root scope x = (Ok s, x', t) → root_answers root scope x s x' t.

(** What a root promises while others act, by [later] steps, between and during
    the calls: two answers for one scope, one after the other, never go back --
    unless there is the [excuse] that the implementation leaves open, which is one
    of any longer run too. *)
Record root_contract (later : X → X → Prop) (excuse : X → list io_event → X → list io_event → Prop) root : Prop := {
  rc_order : PreOrder later;
  rc_excuse x0 x1 t1 x2 t2 x3 a b c d : later x0 x1 → excuse x1 t1 x2 t2 → later x2 x3 → excuse x0 (a ++ t1 ++ b) x3 (c ++ t2 ++ d);
  rc_advance scope observed : respects later (mr_Advance root scope observed);
  rc_current scope : respects later (mr_Current root scope);
  rc_monotone scope x1 s1 x1' t1 x2 s2 x2' t2 : root_answers root scope x1 s1 x1' t1 → later x1' x2 →
    root_answers root scope x2 s2 x2' t2 → snapshot_le s1 s2 ∨ excuse x1 t1 x2' t2 }.

(** A source of coordinates that may give any, at any time. *)
Record mutable_source (later : X → X → Prop) (mutable : CapabilityFenceAuthority X) : Prop := {
  ms_issue scope : respects later (fa_Issue mutable scope);
  ms_current scope : respects later (fa_Current mutable scope);
  ms_utf8 scope x issue x' t : fa_Issue mutable scope x = (Ok issue, x', t) → utf8_valid (ci_AuthorityDomain issue) = true }.

Context (later : X → X → Prop) (excuse : X → list io_event → X → list io_event → Prop).
Context (a : IndependentRootCapabilityAuthority X).
Context (Hroot : root_contract later excuse (ir_Root a)) (Hmutable : mutable_source later (ir_Mutable a)).

#[local] Instance later_preorder : PreOrder later := rc_order _ _ _ Hroot.

(** The coordinates that the authority gave out are those of an answer of the root. *)
Definition rooted_in scope x s x' t : Prop :=
  ∃ x1 x2 t1 t2 t3 u, later x x1 ∧ root_answers (ir_Root a) scope x1 u x2 t2 ∧ later x2 x' ∧ t = t1 ++ t2 ++ t3 ∧ snapshot_le u s ∧ snapshot_le s u.

Lemma Issue_rooted scope x issue x' t : IndependentRoot_Issue a scope x = (Ok issue, x', t) →
  rooted_in scope x (capabilityAuthoritySnapshotFromIssue issue) x' t.
Proof.
  unfold IndependentRoot_Issue. intros [(? & _ & [=])|(i & x1 & t1 & t2 & Hi & H & ->)]%try_inv.
  apply try_inv in H as [(? & _ & [=])|(s & x2 & t3 & t4 & Ha & H & ->)]. apply ret_inv in H as (H & -> & ->).
  destruct (compareCapabilityMonotonicRoot _ _) as [[]|] eqn:Hc; try discriminate. injection H as ->.
  apply compare_Ok in Hc as (_ & _ & [H1 H2]).
  exists x1, x2, t1, t3, [], s. split_and!; try done; [by eapply ms_issue|].
  eapply answers_advance; [|exact Ha]. by eapply ms_utf8.
Qed.

Lemma Current_rooted scope x s x' t : IndependentRoot_Current a scope x = (Ok s, x', t) → rooted_in scope x s x' t.
Proof.
  unfold IndependentRoot_Current. intros [(? & _ & [=])|(i & x1 & t1 & t2 & Hi & H & ->)]%try_inv.
  apply try_inv in H as [(? & _ & [=])|(u & x2 & t3 & t4 & Ha & H & ->)]. apply ret_inv in H as (H & -> & ->).
  assert (snapshot_le u s ∧ snapshot_le s u) as [H1 H2].
  { destruct (compareCapabilityMonotonicRoot _ _) as [[]|] eqn:Hc; try discriminate; injection H as ->; [|done].
    by apply compare_Ok in Hc as (_ & _ & ?). }
  exists x1, x2, t1, t3, [], u. split_and!; try done; [by eapply ms_current|by apply answers_current].
Qed.

Lemma rooted_monotone scope x1 s1 x1' t1 x2 s2 x2' t2 : rooted_in scope x1 s1 x1' t1 → later x1' x2 → rooted_in scope x2 s2 x2' t2 →
  snapshot_le s1 s2 ∨ excuse x1 t1 x2' t2.
Proof.
  intros (y1 & z1 & a1 & b1 & c1 & u1 & L1 & A1 & M1 & -> & _ & G1) Hl (y2 & z2 & a2 & b2 & c2 & u2 & L2 & A2 & M2 & -> & G2 & _).
  destruct (rc_monotone _ _ _ Hroot _ _ _ _ _ _ _ _ _ A1 ltac:(etrans; [exact M1|by etrans]) A2) as [Hle|He].
  - left. etrans; [exact G1|]. by etrans.
  - right. by eapply (rc_excuse _ _ _ Hroot).
Qed.

Lemma rooted_later scope x s x' t : rooted_in scope x s x' t → later x x'.
Proof.
  intros (x1 & x2 & a1 & b1 & c1 & u & L1 & A1 & M1 & _). assert (later x1 x2) as Hm by (destruct A1 as [o _ H|H]; [by eapply (rc_advance _ _ _ Hroot)|by eapply (rc_current _ _ _ Hroot)]).
  etrans; [exact L1|]. by etrans.
Qed.

Lemma rooted_extend scope x0 x s x' x3 t t0 t3 : later x0 x → rooted_in scope x s x' t → later x' x3 → rooted_in scope x0 s x3 (t0 ++ t ++ t3).
Proof.
  intros H0 (x1 & x2 & a1 & b1 & c1 & u & L1 & A1 & M1 & -> & G) H3. exists x1, x2, (t0 ++ a1), b1, (c1 ++ t3), u.
  destruct G as [G1 G2]. split_and!; try done; [by etrans|by etrans|by rewrite !app_assoc].
Qed.
End Contract.

(** * The fence of the server *)

Definition claims_snapshot (c : CapabilityFenceClaims) : CapabilityAuthoritySnapshot := {|
  cu_AuthorityDomain := cf_AuthorityDomain c; cu_AuthorityTerm := cf_AuthorityTerm c; cu_DecisionEpoch := cf_DecisionEpoch c;
  cu_RevocationEpoch := cf_RevocationEpoch c |}.

Lemma fence_valid_current claims current state : ValidateCapabilityFence claims current state = None → claims_snapshot claims = current.
Proof.
  unfold ValidateCapabilityFence. destruct (ValidateCapabilityFenceClaims claims); [done|]. destruct (_ || _ || _); [done|].
  destruct (negb (str_eqb _ _) || _) eqn:H1; [done|]. destruct (negb (cf_DecisionEpoch claims =? _)) eqn:H2; [done|]. destruct (negb (cf_RevocationEpoch claims =? _)) eqn:H3; [done|].
  intros _. split_bool. destruct current. unfold claims_snapshot. cbn in *. f_equal; congruence || lia.
Qed.

Section Fence.
Context {X : Type} (later : X → X → Prop) (excuse : X → list io_event → X → list io_event → Prop).
Context (server : Server X) (a : IndependentRootCapabilityAuthority X).

(** The server saw the claims as current: it issued them, or an effect passed
    with them. *)
Inductive fence_accepted (intentID kind : string) (target : Target) (claims : CapabilityFenceClaims) (x x' : X) (t : list io_event) : Prop :=
  | accepted_issue production :
      issueExecutionCapabilityFence server intentID kind target production x = (Ok (Some claims), x', t) →
      fence_accepted intentID kind target claims x x' t
  | accepted_effect : revalidateExecutionCapabilityFence server intentID kind target (Some claims) x = (None, x', t) →
      fence_accepted intentID kind target claims x x' t.

(** The server requires fencing by the authority, and its composer of evidence
    leaves the root to others. *)
Record fenced_server : Prop := {
  fs_required : sv_RequireCapabilityFencing server = true;
  fs_authority : sv_CapabilityFenceAuthority server = Some (IndependentRoot_authority a);
  fs_root : root_contract later excuse (ir_Root a);
  fs_mutable : mutable_source later (ir_Mutable a);
  fs_compose intentID kind target : respects later (sv_Compose server intentID kind target) }.

Lemma accepted_rooted intentID kind target claims x x' t : fenced_server → fence_accepted intentID kind target claims x x' t →
  rooted_in later a (capabilityFenceScope intentID kind target) x (claims_snapshot claims) x' t.
Proof.
  intros [Hreq Hauth Hroot Hmut Hcompose] Hacc. pose proof (rc_order _ _ _ Hroot) as Hpre. destruct Hacc as [production H|H].
  - unfold issueExecutionCapabilityFence in H. rewrite Hreq, Hauth in H. cbn [negb] in H.
    destruct (capabilityStateBindingFromProduction _ _) as [state|]; [|by apply ret_inv in H as ([=] & _)].
    destruct (DigestCapabilityStateBinding state) as [digest|]; [|by apply ret_inv in H as ([=] & _)].
    apply try_inv in H as [(? & _ & [=])|(issue & x1 & t1 & t2 & Hi & H & ->)]. apply ret_inv in H as (H & -> & ->).
    cbv zeta in H. destruct (ValidateCapabilityFenceClaims _); [done|]. injection H as ->.
    apply (Issue_rooted later excuse) in Hi; [|done..]. destruct Hi as (y & z & a1 & b1 & c1 & u & L & A & M & -> & G1 & G2).
    exists y, z, a1, b1, (c1 ++ []), u. split_and!; try done; [by rewrite <- !app_assoc| |].
    + destruct G1 as [G1 C1]. split; [|exact C1]. cbn. by rewrite TrimSpace_idem.
    + destruct G2 as [G2 C2]. split; [|exact C2]. cbn. by rewrite TrimSpace_idem.
  - unfold revalidateExecutionCapabilityFence in H. rewrite Hreq, Hauth in H. cbn [negb] in H.
    apply bind_inv in H as (r & x1 & t1 & t2 & Hc & H & ->). destruct r as [s|]; [|by apply ret_inv in H as ([=] & _)].
    apply bind_inv in H as (r & x2 & t3 & t4 & Hp & H & ->). destruct r as [production|]; [|by apply ret_inv in H as ([=] & _)].
    apply Hcompose in Hp. destruct (negb _); [by apply ret_inv in H as ([=] & _)|].
    destruct (capabilityStateBindingFromProduction _ _) as [state|]; [|by apply ret_inv in H as ([=] & _)].
    apply ret_inv in H as (H & -> & ->). symmetry in H. apply fence_valid_current in H as ->.
    apply (Current_rooted later excuse) in Hc; [|done..]. change (t1 ++ t3 ++ []) with ([] ++ t1 ++ (t3 ++ [])).
    eapply rooted_extend; [exact Hroot|reflexivity|exact Hc|exact Hp].
Qed.

(** Coordinates that the server accepted stay accepted only until it accepts
    further ones. *)
Lemma accepted_monotone intentID kind target claims1 claims2 x1 x1' t1 x2 x2' t2 : fenced_server →
  fence_accepted intentID kind target claims1 x1 x1' t1 → later x1' x2 → fence_accepted intentID kind target claims2 x2 x2' t2 →
  snapshot_le (claims_snapshot claims1) (claims_snapshot claims2) ∨ excuse x1 t1 x2' t2.
Proof.
  intros Hs H1 Hl H2. pose proof (accepted_rooted _ _ _ _ _ _ _ Hs H1) as R1. pose proof (accepted_rooted _ _ _ _ _ _ _ Hs H2) as R2.
  destruct Hs. by eapply rooted_monotone.
Qed.
End Fence.
