(* ===== verification/CapabilityRecord.v ===== *)
(** * Records of the capability root

    The data of [internal/server/anchored_capability_monotonic_root.go]: the
    hash-chained records of the local ledger, their JSON, their validation and
    the way a ledger is read; and what a ledger that passes guarantees by itself:
    it is a chain from the first record on, and the snapshots of a scope only
    advance. *)

From S2P Require Import Prelude Crypto Format Json Base64 Unmarshal Evidence Permit JournalEntry FileSystem Journal JournalText KernelAbi Workload LifecycleText StrictJson HashChain CapabilityFence.
Local Open Scope Z_scope.

Definition anchoredCapabilityRootVersion : string := "aegis.ege/capability-monotonic-root/v2".

Definition ErrCapabilityRootRollback : error := ErrNew "anchored capability root rollback detected".
Definition ErrCapabilityRootCorrupt : error := ErrNew "anchored capability root ledger is corrupt".
Definition ErrCapabilityRootMissing : error := ErrNew "anchored capability root has no state for scope".
Definition ErrCapabilityRootAnchorMismatch : error := ErrNew "anchored capability root commitment mismatch".

Record CapabilityRootAnchorState : Type := { as_Sequence : Z; as_Commitment : string }.

#[export] Instance CapabilityRootAnchorState_eq_dec : EqDecision CapabilityRootAnchorState.
Proof. solve_decision. Defined.

Definition zero_anchor_state : CapabilityRootAnchorState := {| as_Sequence := 0; as_Commitment := "" |}.

Record capabilityRootRecord : Type := {
  cr_Version : string; cr_Index : Z; cr_ScopeDigest : string; cr_Snapshot : CapabilityAuthoritySnapshot; cr_AnchorID : string;
  cr_AnchorSequence : Z; cr_PreviousRecordHash : string; cr_RecordHash : string }.

#[export] Instance capabilityRootRecord_eq_dec : EqDecision capabilityRootRecord.
Proof. solve_decision. Defined.

(** * JSON *)

Definition snapshot_fields (s : CapabilityAuthoritySnapshot) : list (string * option json) :=
  [string_field "AuthorityDomain" (cu_AuthorityDomain s); number_field "AuthorityTerm" (cu_AuthorityTerm s);
   number_field "DecisionEpoch" (cu_DecisionEpoch s); number_field "RevocationEpoch" (cu_RevocationEpoch s)].

Definition record_fields (r : capabilityRootRecord) : list (string * option json) :=
  [string_field "Version" (cr_Version r); number_field "Index" (cr_Index r); string_field "ScopeDigest" (cr_ScopeDigest r);
   ("Snapshot", Some (object (snapshot_fields (cr_Snapshot r)))); string_field "AnchorID" (cr_AnchorID r);
   number_field "AnchorSequence" (cr_AnchorSequence r); string_field "PreviousRecordHash" (cr_PreviousRecordHash r);
   string_field "RecordHash" (cr_RecordHash r)].

(** [json.Marshal], which cannot fail here. *)
Definition marshal_record (r : capabilityRootRecord) : string := encode (object (record_fields r)).

Definition with_RecordHash (h : string) (r : capabilityRootRecord) : capabilityRootRecord := {|
  cr_Version := cr_Version r; cr_Index := cr_Index r; cr_ScopeDigest := cr_ScopeDigest r; cr_Snapshot := cr_Snapshot r;
  cr_AnchorID := cr_AnchorID r; cr_AnchorSequence := cr_AnchorSequence r; cr_PreviousRecordHash := cr_PreviousRecordHash r;
  cr_RecordHash := h |}.

Section Setters.
Context (s : CapabilityAuthoritySnapshot) (r : capabilityRootRecord).
Definition set_snapshot_AuthorityDomain x := let '(Build_CapabilityAuthoritySnapshot _ b c d) := s in Build_CapabilityAuthoritySnapshot x b c d.
Definition set_snapshot_AuthorityTerm x := let '(Build_CapabilityAuthoritySnapshot a _ c d) := s in Build_CapabilityAuthoritySnapshot a x c d.
Definition set_snapshot_DecisionEpoch x := let '(Build_CapabilityAuthoritySnapshot a b _ d) := s in Build_CapabilityAuthoritySnapshot a b x d.
Definition set_snapshot_RevocationEpoch x := let '(Build_CapabilityAuthoritySnapshot a b c _) := s in Build_CapabilityAuthoritySnapshot a b c x.
Definition set_record_Version x := let '(Build_capabilityRootRecord _ b c d e f g h) := r in Build_capabilityRootRecord x b c d e f g h.
Definition set_record_Index x := let '(Build_capabilityRootRecord a _ c d e f g h) := r in Build_capabilityRootRecord a x c d e f g h.
Definition set_record_ScopeDigest x := let '(Build_capabilityRootRecord a b _ d e f g h) := r in Build_capabilityRootRecord a b x d e f g h.
Definition set_record_Snapshot x := let '(Build_capabilityRootRecord a b c _ e f g h) := r in Build_capabilityRootRecord a b c x e f g h.
Definition set_record_AnchorID x := let '(Build_capabilityRootRecord a b c d _ f g h) := r in Build_capabilityRootRecord a b c d x f g h.
Definition set_record_AnchorSequence x := let '(Build_capabilityRootRecord a b c d e _ g h) := r in Build_capabilityRootRecord a b c d e x g h.
Definition set_record_PreviousRecordHash x := let '(Build_capabilityRootRecord a b c d e f _ h) := r in Build_capabilityRootRecord a b c d e f x h.
Definition set_record_RecordHash x := let '(Build_capabilityRootRecord a b c d e f g _) := r in Build_capabilityRootRecord a b c d e f g x.
End Setters.

Definition snapshot_struct : list (struct_field CapabilityAuthoritySnapshot) :=
  [on_field "AuthorityDomain" cu_AuthorityDomain (λ x s, set_snapshot_AuthorityDomain s x) decode_string;
   on_field "AuthorityTerm" cu_AuthorityTerm (λ x s, set_snapshot_AuthorityTerm s x) decode_uint64;
   on_field "DecisionEpoch" cu_DecisionEpoch (λ x s, set_snapshot_DecisionEpoch s x) decode_uint64;
   on_field "RevocationEpoch" cu_RevocationEpoch (λ x s, set_snapshot_RevocationEpoch s x) decode_uint64].

Definition record_struct : list (struct_field capabilityRootRecord) :=
  [on_field "Version" cr_Version (λ x r, set_record_Version r x) decode_string;
   on_field "Index" cr_Index (λ x r, set_record_Index r x) decode_uint64;
   on_field "ScopeDigest" cr_ScopeDigest (λ x r, set_record_ScopeDigest r x) decode_string;
   on_field "Snapshot" cr_Snapshot (λ x r, set_record_Snapshot r x) (strict_struct snapshot_struct);
   on_field "AnchorID" cr_AnchorID (λ x r, set_record_AnchorID r x) decode_string;
   on_field "AnchorSequence" cr_AnchorSequence (λ x r, set_record_AnchorSequence r x) decode_uint64;
   on_field "PreviousRecordHash" cr_PreviousRecordHash (λ x r, set_record_PreviousRecordHash r x) decode_string;
   on_field "RecordHash" cr_RecordHash (λ x r, set_record_RecordHash r x) decode_string].

Definition zero_snapshot : CapabilityAuthoritySnapshot := Build_CapabilityAuthoritySnapshot "" 0 0 0.
Definition zero_record : capabilityRootRecord := Build_capabilityRootRecord "" 0 "" zero_snapshot "" 0 "" "".

Definition decode_record : string → result capabilityRootRecord := Decode record_struct zero_record.

(** * Digests *)

Definition isCapabilityRootDigest (value : string) : bool :=
  (String.length value =? 71)%nat &&
  match strip_prefix "sha256:" value with Some raw => is_ok (hex_DecodeString raw) | None => false end.

Definition root_scope_domain : string := "aegis-ege/capability-root-scope/v1" +:+ nul.
Definition root_record_domain : string := "aegis-ege/capability-root-record/v2" +:+ nul.

Fixpoint empty_part (i : Z) (parts : list string) : option error :=
  match parts with
  | [] => None
  | part :: parts =>
      if str_eqb part "" then Some (ErrNew ("capability root scope component " +:+ pretty i +:+ " is empty")) else empty_part (i + 1) parts
  end.

Definition scope_parts (scope : CapabilityFenceScope) : list string :=
  TrimSpace <$> [cs_IntentID scope; cs_Kind scope; tg_Type (cs_Target scope); tg_Name (cs_Target scope)].

Definition capabilityRootScopeDigest (scope : CapabilityFenceScope) : result string :=
  match empty_part 0 (scope_parts scope) with
  | Some err => Error err
  | None => Ok (sha256_digest (root_scope_domain +:+ join nul (scope_parts scope)))
  end.

Definition record_payload (r : capabilityRootRecord) : string := root_record_domain +:+ marshal_record (with_RecordHash "" r).
Definition capabilityRootRecordHash (r : capabilityRootRecord) : string := sha256_digest (record_payload r).

(** * Validation *)

Definition validateCapabilityRootAnchorState (state : CapabilityRootAnchorState) : option error :=
  if as_Sequence state =? 0 then
    guard_err (negb (str_eqb (as_Commitment state) ""))
      (ErrDetail ErrCapabilityRootAnchorMismatch "zero sequence with non-empty commitment")
  else
    guard_err (negb (isCapabilityRootDigest (as_Commitment state)))
      (ErrDetail ErrCapabilityRootAnchorMismatch "non-zero sequence requires sha256 commitment").

(** The loop of the source starts from the last record. *)
Definition latestCapabilityRootSnapshot (records : list capabilityRootRecord) (scopeDigest : string) : option CapabilityAuthoritySnapshot :=
  (λ '(_, r), cr_Snapshot r) <$> list_find (λ r, cr_ScopeDigest r = scopeDigest) (reverse records).

Definition validateCapabilityRootRecord (previous : list capabilityRootRecord) (record : capabilityRootRecord) : option error :=
  if negb (str_eqb (cr_Version record) anchoredCapabilityRootVersion)
  then Some (ErrNew ("unsupported capability root record version " +:+ cr_Version record))
  else if (cr_Index record =? 0) || negb (cr_AnchorSequence record =? cr_Index record)
  then Some (ErrNew "record index and anchor sequence must be equal and non-zero")
  else if blank (cr_AnchorID record) then Some (ErrNew "anchor identity is required")
  else if negb (isCapabilityRootDigest (cr_ScopeDigest record)) || negb (isCapabilityRootDigest (cr_RecordHash record))
  then Some (ErrNew "scope digest and record hash must be sha256 digests")
  else match validateCapabilityAuthoritySnapshot (cr_Snapshot record) with
  | Some err => Some (ErrWrap "invalid snapshot" err)
  | None =>
      if negb (str_eqb (capabilityRootRecordHash record) (cr_RecordHash record)) then Some (ErrNew "record hash mismatch")
      else match last previous with
      | None =>
          guard_err (negb (cr_Index record =? 1) || negb (str_eqb (cr_PreviousRecordHash record) ""))
            (ErrNew "first record must start at index 1 without predecessor")
      | Some prior =>
          if negb (cr_Index record =? wrap_u64 (cr_Index prior + 1)) then Some (ErrNew "record index is not contiguous")
          else if negb (str_eqb (cr_AnchorID record) (cr_AnchorID prior))
          then Some (ErrNew "anchor identity changed inside capability root ledger")
          else if negb (str_eqb (cr_PreviousRecordHash record) (cr_RecordHash prior))
          then Some (ErrNew "capability root hash chain is broken")
          else match latestCapabilityRootSnapshot previous (cr_ScopeDigest record) with
          | None => None
          | Some prior =>
              match compareCapabilityMonotonicRoot prior (cr_Snapshot record) with
              | Error err => Some err
              | Ok capabilityRootBehind => None
              | Ok _ => Some (ErrNew "scope snapshot did not advance monotonically")
              end
          end
      end
  end.

(** The record that [Advance] appends. *)
Definition next_record (records : list capabilityRootRecord) (anchorID scopeDigest : string) (observed : CapabilityAuthoritySnapshot)
    : capabilityRootRecord :=
  let index := wrap_u64 (Z.of_nat (length records) + 1) in
  let record := {| cr_Version := anchoredCapabilityRootVersion; cr_Index := index; cr_ScopeDigest := scopeDigest; cr_Snapshot := observed;
                   cr_AnchorID := anchorID; cr_AnchorSequence := index;
                   cr_PreviousRecordHash := match last records with Some r => cr_RecordHash r | None => "" end; cr_RecordHash := "" |} in
  with_RecordHash (capabilityRootRecordHash record) record.

(** ** Reading a ledger *)

Definition corrupt_at (line : Z) (detail : string) : error :=
  ErrDetail ErrCapabilityRootCorrupt ("line " +:+ pretty line +:+ ": " +:+ detail).

Fixpoint read_lines (lines : list string) (line : Z) (records : list capabilityRootRecord) : result (list capabilityRootRecord) :=
  match lines with
  | [] => Ok records
  | payload :: lines =>
      let payload := TrimSpace payload in
      if str_eqb payload "" then Error (ErrDetail ErrCapabilityRootCorrupt ("empty record at line " +:+ pretty line))
      else match decode_record payload with
      | Error err => Error (corrupt_at line (error_text err))
      | Ok record =>
          match validateCapabilityRootRecord records record with
          | Some err => Error (corrupt_at line (error_text err))
          | None => read_lines lines (line + 1) (records ++ [record])
          end
      end
  end.

(** The buffer of the scanner. *)
Definition root_max_token : N := 1048576.

(** What [readCapabilityRootRecords] makes of the file it read. *)
Definition records_of (content : string * option error) : result (list capabilityRootRecord) :=
  let '(lines, err) := scan_within root_max_token content in
  match read_lines lines 1 [], err with
  | Error err, _ => Error err
  | _, Some err => Error (ErrWrap "read capability root ledger" err)
  | Ok records, None => Ok records
  end.

(** * Records and their text *)

Definition record_strings (r : capabilityRootRecord) : list string :=
  [cr_Version r; cr_ScopeDigest r; cu_AuthorityDomain (cr_Snapshot r); cr_AnchorID r; cr_PreviousRecordHash r; cr_RecordHash r].
Definition record_numbers (r : capabilityRootRecord) : list Z :=
  [cr_Index r; cu_AuthorityTerm (cr_Snapshot r); cu_DecisionEpoch (cr_Snapshot r); cu_RevocationEpoch (cr_Snapshot r); cr_AnchorSequence r].

(** A record that a line can hold: valid UTF-8, numbers of 64 bits. *)
Definition sound_record (r : capabilityRootRecord) : Prop :=
  Forall (λ s, utf8_valid s = true) (record_strings r) ∧ Forall is_u64 (record_numbers r).

Definition coerce_snapshot (s : CapabilityAuthoritySnapshot) : CapabilityAuthoritySnapshot := {|
  cu_AuthorityDomain := coerce (cu_AuthorityDomain s); cu_AuthorityTerm := cu_AuthorityTerm s;
  cu_DecisionEpoch := cu_DecisionEpoch s; cu_RevocationEpoch := cu_RevocationEpoch s |}.

Definition coerce_record (r : capabilityRootRecord) : capabilityRootRecord := {|
  cr_Version := coerce (cr_Version r); cr_Index := cr_Index r; cr_ScopeDigest := coerce (cr_ScopeDigest r);
  cr_Snapshot := coerce_snapshot (cr_Snapshot r); cr_AnchorID := coerce (cr_AnchorID r); cr_AnchorSequence := cr_AnchorSequence r;
  cr_PreviousRecordHash := coerce (cr_PreviousRecordHash r); cr_RecordHash := coerce (cr_RecordHash r) |}.

Lemma coerce_sound_record r : sound_record r → coerce_record r = r.
Proof.
  intros [H _]. unfold record_strings in H. split_Forall. destruct r as [v i s [d t de re] a q p h]. unfold coerce_record, coerce_snapshot.
  cbn in *. by rewrite !coerce_utf8.
Qed.

Lemma record_depth r : (json_depth (object (record_fields r)) ≤ max_depth)%N.
Proof.
  apply N.le_trans with 2%N; [|done]. apply (object_depth 1). unfold record_fields.
  repeat (apply Forall_cons_2; [first [apply N.le_0_l|apply (object_depth 0); unfold snapshot_fields; repeat (apply Forall_cons_2; [apply N.le_0_l|]); constructor]|]).
  constructor.
Qed.

Definition string_value (s : string) : jvalue := VString (verbatim s) (coerce s).
Definition number_value (z : Z) : jvalue := VNumber (pretty z).

Lemma embed_record r : embed (object (record_fields r)) = VObject
  [("Version", string_value (cr_Version r)); ("Index", number_value (cr_Index r)); ("ScopeDigest", string_value (cr_ScopeDigest r));
   ("Snapshot", VObject [("AuthorityDomain", string_value (cu_AuthorityDomain (cr_Snapshot r)));
      ("AuthorityTerm", number_value (cu_AuthorityTerm (cr_Snapshot r))); ("DecisionEpoch", number_value (cu_DecisionEpoch (cr_Snapshot r)));
      ("RevocationEpoch", number_value (cu_RevocationEpoch (cr_Snapshot r)))]);
   ("AnchorID", string_value (cr_AnchorID r)); ("AnchorSequence", number_value (cr_AnchorSequence r));
   ("PreviousRecordHash", string_value (cr_PreviousRecordHash r)); ("RecordHash", string_value (cr_RecordHash r))].
Proof. reflexivity. Qed.

Lemma string_value_inj s s' : string_value s = string_value s' → coerce s = coerce s'.
Proof. unfold string_value. congruence. Qed.

Lemma number_value_inj z z' : number_value z = number_value z' → z = z'.
Proof. unfold number_value. intros H. assert (pretty z = pretty z') as H' by congruence. by apply (inj pretty) in H'. Qed.

(** What is hashed tells the record, up to what a reader replaces. *)
Lemma record_payload_inj r r' : record_payload r = record_payload r' → cr_RecordHash r = cr_RecordHash r' → coerce_record r = coerce_record r'.
Proof.
  unfold record_payload, marshal_record. intros H%string_app_inj_l Hh.
  assert (embed (object (record_fields (with_RecordHash "" r))) = embed (object (record_fields (with_RecordHash "" r')))) as He.
  { apply (f_equal parse_json) in H. rewrite !parse_encode in H by apply record_depth. by apply Ok_inj in H. }
  rewrite !embed_record in He. destruct r as [v i s [d t de re] a q p h], r' as [v' i' s' [d' t' de' re'] a' q' p' h'].
  cbn [with_RecordHash cr_Version cr_Index cr_ScopeDigest cr_Snapshot cr_AnchorID cr_AnchorSequence cr_PreviousRecordHash cr_RecordHash
    cu_AuthorityDomain cu_AuthorityTerm cu_DecisionEpoch cu_RevocationEpoch] in *. subst h'. clear H.
  assert (∀ (k1 k2 : string) (v1 v2 : jvalue) l1 l2, (k1, v1) :: l1 = (k2, v2) :: l2 → v1 = v2 ∧ l1 = l2) as Hcons by (intros; by simplify_eq).
  assert (∀ l1 l2, VObject l1 = VObject l2 → l1 = l2) as Hobj by (by intros ?? [=]).
  apply Hobj in He. repeat match goal with H : _ :: _ = _ :: _ |- _ => apply Hcons in H as [? H] | H : VObject _ = VObject _ |- _ => apply Hobj in H end.
  repeat match goal with H : string_value _ = _ |- _ => apply string_value_inj in H | H : number_value _ = _ |- _ => apply number_value_inj in H end.
  unfold coerce_record, coerce_snapshot. cbn [cr_Version cr_Index cr_ScopeDigest cr_Snapshot cr_AnchorID cr_AnchorSequence
    cr_PreviousRecordHash cr_RecordHash cu_AuthorityDomain cu_AuthorityTerm cu_DecisionEpoch cu_RevocationEpoch]. congruence.
Qed.

#[export] Program Instance capabilityRootRecord_chained : Chained capabilityRootRecord := {|
  link_previous := cr_PreviousRecordHash; link_hash := cr_RecordHash; link_payload := record_payload; link_canon := coerce_record |}.
Next Obligation. apply record_payload_inj. Qed.
Next Obligation. intros r r' H. apply (f_equal cr_PreviousRecordHash) in H. exact H. Qed.

(** ** What is decoded is sound *)

Definition sound_snapshot (s : CapabilityAuthoritySnapshot) : Prop :=
  utf8_valid (cu_AuthorityDomain s) = true ∧ Forall is_u64 [cu_AuthorityTerm s; cu_DecisionEpoch s; cu_RevocationEpoch s].

Lemma decode_uint64_bounds v z : is_u64 z → is_u64 (decode_uint64 v z).1.
Proof. apply decode_number_bounds, parse_uint64_bounds. Qed.

Lemma snapshot_field_sound f v s : f ∈ snapshot_struct → utf8_value v = true → sound_snapshot s → sound_snapshot (sf_set f v s).1.
Proof.
  intros Hf Hv [Hs Hn]. split_Forall. pose proof (decode_string_utf8 v (cu_AuthorityDomain s) Hv Hs) as Hd.
  pose proof (λ z, decode_uint64_bounds v z) as Hu. destruct s as [d t de re]. cbn in *. each_field Hf; cbn [on_field sf_set];
    cbn [cu_AuthorityDomain cu_AuthorityTerm cu_DecisionEpoch cu_RevocationEpoch].
  1: destruct (decode_string v d).
  2: specialize (Hu t); destruct (decode_uint64 v t).
  3: specialize (Hu de); destruct (decode_uint64 v de).
  4: specialize (Hu re); destruct (decode_uint64 v re).
  all: unfold sound_snapshot; cbn in *; rewrite !Forall_cons; split_and!; auto using Forall_nil_2.
Qed.

Lemma decode_snapshot_sound v s : utf8_value v = true → sound_snapshot s → sound_snapshot (strict_struct snapshot_struct v s).1.
Proof.
  intros Hv Hs. rewrite strict_struct_state. destruct v as [| | | | |members]; try done. cbn [decode_struct].
  apply decode_members_inv; [|done..]. intros f v. apply snapshot_field_sound.
Qed.

Lemma sound_record_parts r : sound_record r ↔
  Forall (λ s, utf8_valid s = true) [cr_Version r; cr_ScopeDigest r; cr_AnchorID r; cr_PreviousRecordHash r; cr_RecordHash r] ∧
  sound_snapshot (cr_Snapshot r) ∧ Forall is_u64 [cr_Index r; cr_AnchorSequence r].
Proof. unfold sound_record, sound_snapshot, record_strings, record_numbers. rewrite !Forall_cons, !Forall_nil. tauto. Qed.

Lemma record_field_sound f v r : f ∈ record_struct → utf8_value v = true → sound_record r → sound_record (sf_set f v r).1.
Proof.
  intros Hf Hv. rewrite !sound_record_parts. intros (Hs & Hp & Hn). split_Forall.
  pose proof (λ s, decode_string_utf8 v s Hv) as Hd. pose proof (decode_snapshot_sound v _ Hv Hp) as Hsn.
  pose proof (λ z, decode_uint64_bounds v z) as Hu. destruct r as [ve i sc sn a q p h]. cbn in *.
  each_field Hf; cbn [on_field sf_set];
    cbn [cr_Version cr_Index cr_ScopeDigest cr_Snapshot cr_AnchorID cr_AnchorSequence cr_PreviousRecordHash cr_RecordHash];
    match goal with
    | |- context [decode_string v ?x] => specialize (Hd x); destruct (decode_string v x)
    | |- context [decode_uint64 v ?x] => specialize (Hu x); destruct (decode_uint64 v x)
    | |- context [strict_struct _ v ?x] => destruct (strict_struct snapshot_struct v x)
    end; cbn in *; rewrite ?Forall_cons; split_and!; auto using Forall_nil_2.
Qed.

Lemma decode_record_sound text r : decode_record text = Ok r → sound_record r.
Proof.
  intros (v & rest & _ & Hv & Hd)%Decode_Ok. assert (sound_record (decode_struct record_struct v zero_record).1) as Hr; [|by rewrite Hd in Hr].
  assert (sound_record zero_record) by (split; unfold record_strings, record_numbers; cbn; rewrite !Forall_cons; split_and!; done).
  destruct v as [| | | | |members]; try done. cbn [decode_struct]. apply decode_members_inv; [|done..].
  intros f w. apply record_field_sound.
Qed.

(** ** What is written is read back *)

Ltac eval_record_setters :=
  match goal with |- decode_members _ _ ?s _ = _ =>
    let s' := eval cbv [set_snapshot_AuthorityDomain set_snapshot_AuthorityTerm set_snapshot_DecisionEpoch set_snapshot_RevocationEpoch
      set_record_Version set_record_Index set_record_ScopeDigest set_record_Snapshot set_record_AnchorID set_record_AnchorSequence
      set_record_PreviousRecordHash set_record_RecordHash zero_record zero_snapshot] in s in
    change s with s'
  end.

Lemma known_written {S} (fs : list (struct_field S)) fields :
  Forall (λ k, coerce k = k ∧ is_Some (find_field fs k)) fields.*1 → Forall (λ kv, is_Some (find_field fs kv.1)) (written fields).
Proof.
  intros H. unfold written. apply Forall_fmap, Forall_forall. intros [k v] Hin. apply list_elem_of_omap in Hin as ([k' o] & Hin & Ho).
  destruct o as [w|]; [|done]. injection Ho as -> ->. cbn. rewrite Forall_fmap, Forall_forall in H.
  destruct (H _ Hin) as [Hk Hf]. cbn in Hk, Hf. by rewrite Hk.
Qed.

Lemma decode_written_snapshot s : sound_snapshot s →
  strict_struct snapshot_struct (embed (object (snapshot_fields s))) zero_snapshot = (s, None).
Proof.
  intros [Hd Hn]. split_Forall. rewrite embed_object. cbn [strict_struct]. rewrite strict_members_known.
  2:{ apply known_written. repeat (apply Forall_cons_2; [split; [reflexivity|by eexists]|]). apply Forall_nil_2. }
  unfold snapshot_fields, string_field, number_field.
  erewrite decode_written; [|reflexivity|reflexivity|reflexivity].
  do 3 (erewrite decode_written; [|reflexivity|reflexivity|
    cbn; unfold decode_uint64, decode_number; rewrite parse_uint64_pretty by done; reflexivity]).
  cbn. rewrite coerce_utf8 by done. by destruct s.
Qed.

Lemma set_written_number {S} name (get : S → Z) set x s : is_u64 x →
  sf_set (on_field name get set decode_uint64) (embed (JInt x)) s = (set x s, None).
Proof. intros Hx. cbn [on_field sf_set embed]. unfold decode_uint64, decode_number. by rewrite parse_uint64_pretty. Qed.

Lemma set_written_snapshot r s : sound_snapshot s → cr_Snapshot r = zero_snapshot →
  sf_set (on_field "Snapshot" cr_Snapshot (λ x r, set_record_Snapshot r x) (strict_struct snapshot_struct))
    (embed (object (snapshot_fields s))) r = (set_record_Snapshot r s, None).
Proof. intros Hs Hr. cbn [on_field sf_set]. by rewrite Hr, decode_written_snapshot. Qed.

Lemma decode_written_record r : sound_record r → strict_struct record_struct (embed (object (record_fields r))) zero_record = (r, None).
Proof.
  rewrite sound_record_parts. intros (Hs & Hsn & Hn). split_Forall. rewrite embed_object. cbn [strict_struct]. rewrite strict_members_known.
  2:{ apply known_written. repeat (apply Forall_cons_2; [split; [reflexivity|by eexists]|]). apply Forall_nil_2. }
  unfold record_fields, string_field, number_field.
  eval_record_setters; erewrite decode_written; [|reflexivity|reflexivity|reflexivity].
  eval_record_setters; erewrite decode_written; [|reflexivity|reflexivity|by apply set_written_number].
  eval_record_setters; erewrite decode_written; [|reflexivity|reflexivity|reflexivity].
  eval_record_setters; erewrite decode_written; [|reflexivity|reflexivity|by apply set_written_snapshot].
  eval_record_setters; erewrite decode_written; [|reflexivity|reflexivity|reflexivity].
  eval_record_setters; erewrite decode_written; [|reflexivity|reflexivity|by apply set_written_number].
  do 2 (eval_record_setters; erewrite decode_written; [|reflexivity|reflexivity|reflexivity]).
  eval_record_setters. cbn [written omap list_omap fmap list_fmap decode_members]. rewrite !coerce_utf8 by done. by destruct r.
Qed.

Lemma decode_marshal_record r : sound_record r → decode_record (marshal_record r) = Ok r.
Proof.
  intros Hr. unfold decode_record, Decode, marshal_record.
  pose proof (parse_encode_value (object (record_fields r)) (2 * String.length (encode (object (record_fields r))) + 2)%nat max_depth "") as Hp.
  rewrite (string_app_nil_r (encode _)) in Hp. rewrite <- (string_app_nil_r (encode _)), skip_encode, string_app_nil_r.
  rewrite Hp; [|done|apply record_depth|lia]. rewrite embed_object. cbn [ends_value negb]. rewrite <- embed_object.
  by rewrite decode_written_record.
Qed.

(** * Ledgers *)

(** What validation lets in, one record after another. *)
Inductive valid_ledger : list capabilityRootRecord → Prop :=
  | valid_empty : valid_ledger []
  | valid_append rs r : valid_ledger rs → validateCapabilityRootRecord rs r = None → valid_ledger (rs ++ [r]).

(** What one validation checks. *)
Record admitted_record (rs : list capabilityRootRecord) (r : capabilityRootRecord) : Prop := {
  ar_version : cr_Version r = anchoredCapabilityRootVersion;
  ar_index : cr_Index r ≠ 0 ∧ cr_AnchorSequence r = cr_Index r;
  ar_anchor : blank (cr_AnchorID r) = false;
  ar_digests : isCapabilityRootDigest (cr_ScopeDigest r) = true ∧ isCapabilityRootDigest (cr_RecordHash r) = true;
  ar_snapshot : valid_snapshot (cr_Snapshot r);
  ar_linked : linked (chain_head "" rs) r;
  ar_next : match last rs with
            | None => cr_Index r = 1
            | Some prior => cr_Index r = wrap_u64 (cr_Index prior + 1) ∧ cr_AnchorID r = cr_AnchorID prior
            end;
  ar_advances : ∀ s, latestCapabilityRootSnapshot rs (cr_ScopeDigest r) = Some s →
    compareCapabilityMonotonicRoot s (cr_Snapshot r) = Ok capabilityRootBehind }.

Lemma latest_nil d : latestCapabilityRootSnapshot [] d = None.
Proof. done. Qed.

Lemma latest_snoc rs r d : latestCapabilityRootSnapshot (rs ++ [r]) d =
  if decide (cr_ScopeDigest r = d) then Some (cr_Snapshot r) else latestCapabilityRootSnapshot rs d.
Proof.
  unfold latestCapabilityRootSnapshot. rewrite reverse_snoc. cbn [list_find]. case_decide; [done|].
  by destruct (list_find _ (reverse rs)) as [[i x]|].
Qed.

Lemma validate_None rs r : validateCapabilityRootRecord rs r = None ↔ admitted_record rs r.
Proof.
  unfold validateCapabilityRootRecord.
  destruct (str_eqb (cr_Version r) _) eqn:Hv; split_bool; cbn [negb].
  2:{ split; [done|]. by intros []. }
  destruct (Z.eqb_spec (cr_Index r) 0) as [Hi|Hi]; cbn [orb].
  { split; [done|]. intros []. tauto. }
  destruct (Z.eqb_spec (cr_AnchorSequence r) (cr_Index r)) as [Ha|Ha]; cbn [negb].
  2:{ split; [done|]. intros []. tauto. }
  destruct (blank (cr_AnchorID r)) eqn:Hb; [split; [done|]; intros []; congruence|].
  destruct (isCapabilityRootDigest (cr_ScopeDigest r)) eqn:Hd1, (isCapabilityRootDigest (cr_RecordHash r)) eqn:Hd2; cbn [negb orb];
    try (split; [done|]; intros [_ _ _ []]; congruence).
  destruct (validateCapabilityAuthoritySnapshot (cr_Snapshot r)) as [err|] eqn:Hs.
  { split; [done|]. intros [_ _ _ _ Hsn]. apply validate_snapshot_None in Hsn. congruence. }
  apply validate_snapshot_None in Hs. destruct (str_eqb (capabilityRootRecordHash r) _) eqn:Hh; split_bool; cbn [negb].
  2:{ split; [done|]. intros [_ _ _ _ _ [_ Hl]]. by destruct Hh. }
  unfold capabilityRootRecordHash in Hh.
  destruct (last rs) as [prior|] eqn:Hlast.
  2:{ assert (chain_head "" rs = "") as Hch by (unfold chain_head; by rewrite Hlast).
      apply last_None in Hlast as ->. destruct (Z.eqb_spec (cr_Index r) 1) as [H1|H1]; cbn [negb orb guard_err].
      2:{ split; [done|]. by intros [_ _ _ _ _ _ ?]. }
      destruct (str_eqb (cr_PreviousRecordHash r) "") eqn:Hp; split_bool; cbn [negb guard_err].
      - split; [intros _; by split|done].
      - split; [done|]. intros [_ _ _ _ _ [Hl _]]. by destruct Hp. }
  assert (chain_head "" rs = cr_RecordHash prior) as Hch by (unfold chain_head; by rewrite Hlast).
  destruct (Z.eqb_spec (cr_Index r) (wrap_u64 (cr_Index prior + 1))) as [Hn|Hn]; cbn [negb].
  2:{ split; [done|]. intros [_ _ _ _ _ _ Hx]. rewrite Hlast in Hx. tauto. }
  destruct (str_eqb (cr_AnchorID r) (cr_AnchorID prior)) eqn:Hid; split_bool; cbn [negb].
  2:{ split; [done|]. intros [_ _ _ _ _ _ Hx]. rewrite Hlast in Hx. tauto. }
  destruct (str_eqb (cr_PreviousRecordHash r) (cr_RecordHash prior)) eqn:Hp; split_bool; cbn [negb].
  2:{ split; [done|]. intros [_ _ _ _ _ [Hl _]]. by rewrite Hch in Hl. }
  assert (linked (chain_head "" rs) r) by (rewrite Hch; by split).
  destruct (latestCapabilityRootSnapshot rs (cr_ScopeDigest r)) as [s|] eqn:Hlat.
  - destruct (compareCapabilityMonotonicRoot s (cr_Snapshot r)) as [[]|err] eqn:Hc.
    3:{ split; [intros _|done]. split; try done; [by rewrite Hlast|]. intros s'. rewrite Hlat. by intros [= <-]. }
    all: split; [done|]; intros [_ _ _ _ _ _ _ Hadv]; specialize (Hadv s Hlat); congruence.
  - split; [intros _|done]. split; try done; [by rewrite Hlast|]. by rewrite Hlat.
Qed.

Lemma valid_snoc_inv rs r : valid_ledger (rs ++ [r]) → valid_ledger rs ∧ admitted_record rs r.
Proof.
  inversion 1 as [Heq|ks k Hks Hk Heq]; [by destruct rs|]. apply app_inj_tail in Heq as [-> ->].
  split; [done|by apply validate_None].
Qed.

Lemma valid_prefix rs more : valid_ledger (rs ++ more) → valid_ledger rs.
Proof.
  induction more as [|r more IH] using rev_ind; [by rewrite app_nil_r|]. rewrite app_assoc. intros [H _]%valid_snoc_inv. by apply IH.
Qed.

Lemma valid_chain rs : valid_ledger rs → hash_chain "" rs.
Proof.
  induction 1 as [|rs r _ IH Hr]; [done|]. apply hash_chain_snoc. split; [done|]. by apply validate_None, ar_linked in Hr.
Qed.

(** Records are numbered from one. *)
Lemma valid_index rs r : valid_ledger (rs ++ [r]) → cr_Index r = wrap_u64 (Z.of_nat (length rs) + 1).
Proof.
  revert r. induction rs as [|p rs IH] using rev_ind; intros r [Hrs Hr]%valid_snoc_inv; apply ar_next in Hr.
  - rewrite Hr. done.
  - rewrite last_snoc in Hr. destruct Hr as [-> _]. rewrite (IH p Hrs), length_app. cbn [length]. unfold wrap_u64.
    rewrite Zplus_mod_idemp_l. f_equal. lia.
Qed.

(** Over a longer ledger the snapshot of a scope is the same or further. *)
Lemma valid_monotone rs more d s : valid_ledger (rs ++ more) → latestCapabilityRootSnapshot rs d = Some s →
  ∃ t, latestCapabilityRootSnapshot (rs ++ more) d = Some t ∧ snapshot_le s t.
Proof.
  intros Hv Hs. induction more as [|r more IH] using rev_ind; [exists s; by rewrite app_nil_r|].
  rewrite app_assoc in *. apply valid_snoc_inv in Hv as [Hv Hr]. destruct (IH Hv) as (t & Ht & Hle). rewrite latest_snoc.
  case_decide as Hd; [|by exists t]. exists (cr_Snapshot r). split; [done|]. subst d.
  apply (ar_advances _ _ Hr), compare_Ok in Ht as (_ & _ & [Hlt _]). by etrans.
Qed.

(** ** Reading *)

Lemma read_lines_app lines : ∀ line rs rs', read_lines lines line rs = Ok rs' → valid_ledger rs → Forall sound_record rs →
  valid_ledger rs' ∧ Forall sound_record rs' ∧ rs `prefix_of` rs'.
Proof.
  induction lines as [|payload lines IH]; intros line rs rs'; cbn [read_lines]; [by intros [= <-]|]. cbv zeta.
  destruct (str_eqb _ _); [done|]. destruct (decode_record _) as [r|] eqn:Hr; [|done].
  destruct (validateCapabilityRootRecord rs r) eqn:Hv; [done|]. intros H Hrs Hs.
  apply IH in H as (H1 & H2 & H3); [|by constructor|apply Forall_app_2; [done|]; apply Forall_singleton; by eapply decode_record_sound].
  split_and!; try done. etrans; [|exact H3]. by apply prefix_app_r.
Qed.

Lemma records_of_valid content rs : records_of content = Ok rs → valid_ledger rs ∧ Forall sound_record rs.
Proof.
  unfold records_of. destruct (scan_within _ _) as [lines err]. destruct (read_lines lines 1 []) as [rs'|] eqn:Hl; [|done].
  destruct err; [done|]. intros [= <-]. apply read_lines_app in Hl as (? & ? & _); [done|constructor|constructor].
Qed.

(** A line of a ledger. *)
Definition fits_line (r : capabilityRootRecord) : Prop := (N.of_nat (String.length (marshal_record r)) < root_max_token)%N.

Lemma marshal_record_line r : all_chars printable (marshal_record r) = true ∧ TrimSpace (marshal_record r) = marshal_record r ∧
  str_eqb (marshal_record r) "" = false.
Proof. split; [apply encode_printable|]. unfold marshal_record, object. cbn [encode]. split; [apply TrimSpace_braces|done]. Qed.

Lemma read_lines_text more : ∀ line rs, valid_ledger (rs ++ more) → Forall sound_record more →
  read_lines (marshal_record <$> more) line rs = Ok (rs ++ more).
Proof.
  induction more as [|r more IH]; intros line rs Hv Hs; [by rewrite app_nil_r|]. apply Forall_cons in Hs as [Hr Hs].
  rewrite fmap_cons. cbn [read_lines]. cbv zeta. destruct (marshal_record_line r) as (_ & -> & ->).
  rewrite decode_marshal_record by done. replace (rs ++ r :: more) with ((rs ++ [r]) ++ more) in * by by rewrite <- app_assoc.
  pose proof (valid_prefix _ _ Hv) as Hpre. apply valid_snoc_inv in Hpre as [_ Hadm%validate_None]. rewrite Hadm. by apply IH.
Qed.

(** The text of a valid ledger is read back. *)
Lemma ledger_text_read rs : valid_ledger rs → Forall sound_record rs → Forall fits_line rs →
  records_of (text_of (marshal_record <$> rs), None) = Ok rs.
Proof.
  intros Hv Hs Hf. unfold records_of. rewrite scan_within_text.
  - by rewrite (read_lines_text rs 1 []).
  - apply Forall_fmap, Forall_true. intros r. apply marshal_record_line.
  - by apply Forall_fmap.
Qed.

(** ** The next record *)

Lemma next_record_linked rs anchorID d s : linked (chain_head "" rs) (next_record rs anchorID d s).
Proof.
  split; cbn [link_previous link_hash link_payload capabilityRootRecord_chained]; [|reflexivity].
  unfold next_record, chain_head. cbn. by destruct (last rs).
Qed.

Lemma is_digest_hash p : isCapabilityRootDigest (sha256_digest p) = true.
Proof.
  unfold isCapabilityRootDigest, sha256_digest. rewrite string_length_app, hex_encode_length, sha256_length.
  change (strip_prefix "sha256:" ("sha256:" +:+ ?x)) with (Some x). cbn [Nat.eqb String.length Nat.add Nat.mul andb].
  by rewrite (proj2 (hex_decode_exact _ (sha256 p)) (hex_lower_encode _)).
Qed.

(** It is accepted by the next read. *)
Lemma next_record_admitted rs anchorID d s : valid_ledger rs → Z.of_nat (length rs) + 1 < 2 ^ 64 → blank anchorID = false →
  (∀ r, last rs = Some r → cr_AnchorID r = anchorID) → isCapabilityRootDigest d = true → valid_snapshot s →
  (∀ t, latestCapabilityRootSnapshot rs d = Some t → compareCapabilityMonotonicRoot t s = Ok capabilityRootBehind) →
  admitted_record rs (next_record rs anchorID d s).
Proof.
  intros Hv Hn Hb Hid Hd Hs Hc. split; try done; cbn [next_record with_RecordHash cr_Version cr_Index cr_ScopeDigest cr_Snapshot cr_AnchorID
    cr_AnchorSequence cr_RecordHash].
  - rewrite wrap_u64_small by (unfold is_u64; lia). lia.
  - split; [done|]. apply is_digest_hash.
  - apply next_record_linked.
  - destruct rs as [|p rs _] using rev_ind; [done|]. rewrite last_snoc, (valid_index _ _ Hv), (Hid p) by apply last_snoc. split; [|done].
    rewrite length_app. cbn [length]. unfold wrap_u64. rewrite Zplus_mod_idemp_l. f_equal. lia.
Qed.

Lemma next_record_sound rs anchorID d s : valid_ledger rs → utf8_valid anchorID = true → utf8_valid d = true → sound_snapshot s →
  sound_record (next_record rs anchorID d s).
Proof.
  intros Hv Ha Hd Hs. apply sound_record_parts. cbn [next_record with_RecordHash cr_Version cr_Index cr_ScopeDigest cr_Snapshot cr_AnchorID
    cr_AnchorSequence cr_PreviousRecordHash cr_RecordHash].
  assert (utf8_valid (chain_head "" rs) = true) as Hp.
  { destruct (decide (rs = [])) as [->|Hne]; [done|]. destruct (chain_head_digest rs (valid_chain _ Hv) Hne) as [p ->].
    apply digest_utf8. }
  rewrite !Forall_cons, !Forall_nil. split_and!; try done; try apply wrap_u64_is_u64.
  - unfold chain_head in Hp. by destruct (last rs).
  - apply digest_utf8.
Qed.
