(* ===== verification/CapabilityRoot.v ===== *)
(** * The capability root

    The operations of [internal/server/anchored_capability_monotonic_root.go] --
    a ledger file whose head an anchor keeps -- and the anchor over an external
    head store of [external_head_capability_root_anchor.go].  The file and the
    store are shared with other processes, which act between two calls. *)

From S2P Require Import Prelude Crypto Format Json Base64 Unmarshal Evidence Permit HeadStore JournalEntry FileSystem Journal KernelAbi CapabilityFence CapabilityRecord.
Local Open Scope Z_scope.

(** [golang.org/x/sys/unix] and [os] on the ledger: [unix_Open] is [open] with
    [O_RDWR|O_CREAT|O_CLOEXEC|O_NOFOLLOW], whose descriptor [os.NewFile] always
    wraps. *)
Inductive whence : Type := SeekStart | SeekEnd.

Class LedgerFiles (X : Type) : Type := {
  unix_Open : string → X → result file * X;
  flock_EX : file → X → option error * X;
  flock_UN : file → X → option error * X;
  file_IsRegular : file → X → result bool * X;
  file_Seek : file → whence → X → option error * X }.

(** [CapabilityRootAnchor]. *)
Record CapabilityRootAnchor (X : Type) : Type := {
  ra_Identity : IO X (result string);
  ra_Current : IO X (result CapabilityRootAnchorState);
  ra_Advance : CapabilityRootAnchorState → CapabilityRootAnchorState → IO X (result CapabilityRootAnchorState) }.
Arguments ra_Identity {X} _.
Arguments ra_Current {X} _.
Arguments ra_Advance {X} _ _ _.

Record AnchoredFileCapabilityMonotonicRoot (X : Type) : Type := {
  af_path : string; af_anchor : option (CapabilityRootAnchor X) }.
Arguments af_path {X} _.
Arguments af_anchor {X} _.

Definition NewAnchoredFileCapabilityMonotonicRoot {X} (path : string) (anchor : option (CapabilityRootAnchor X))
    : result (AnchoredFileCapabilityMonotonicRoot X) :=
  if blank path then Error (ErrNew "capability root ledger path is required")
  else match anchor with
  | None => Error (ErrNew "capability root anchor is required")
  | Some _ => Ok {| af_path := filepath_Clean path; af_anchor := anchor |}
  end.

Definition mismatch_states (a b : CapabilityRootAnchorState) (which : string) : string :=
  "sequence=" +:+ pretty (as_Sequence a) +:+ " commitment=" +:+ as_Commitment a +:+ "; " +:+ which +:+ " sequence=" +:+
  pretty (as_Sequence b) +:+ " commitment=" +:+ as_Commitment b.

(** The anchor against the ledger that was read. *)
Definition check_anchor (records : list capabilityRootRecord) (anchorID : string) (anchorState : CapabilityRootAnchorState) : option error :=
  match last records with
  | None =>
      guard_err (negb (as_Sequence anchorState =? 0) || negb (str_eqb (as_Commitment anchorState) ""))
        (ErrDetail ErrCapabilityRootRollback ("empty ledger with anchor sequence=" +:+ pretty (as_Sequence anchorState) +:+
          " commitment=" +:+ as_Commitment anchorState))
  | Some last =>
      if negb (str_eqb (cr_AnchorID last) anchorID)
      then Some (ErrDetail ErrCapabilityRootCorrupt ("anchor identity changed from " +:+ cr_AnchorID last +:+ " to " +:+ anchorID))
      else if negb (as_Sequence anchorState =? cr_Index last)
      then Some (ErrDetail ErrCapabilityRootRollback ("anchor sequence=" +:+ pretty (as_Sequence anchorState) +:+ " ledger index=" +:+ pretty (cr_Index last)))
      else guard_err (negb (str_eqb (as_Commitment anchorState) (cr_RecordHash last)))
        (ErrDetail ErrCapabilityRootAnchorMismatch ("anchor head=" +:+ as_Commitment anchorState +:+ " ledger head=" +:+ cr_RecordHash last))
  end.

Section Root.
Context {X : Type} `{!GoWorld X, !FileSystem X, !LedgerFiles X}.

Definition OpenLedger (path : string) : IO X (result file) := call (EvOpenFile path LockFile) (unix_Open path).
Definition FlockEX (f : file) : IO X (option error) := call (λ r, EvHost (EvLock f r)) (flock_EX f).
Definition FlockUN (f : file) : IO X (option error) := call (λ r, EvHost (EvUnlock f r)) (flock_UN f).

(** [cleanup], and [closeCapabilityRootFile]. *)
Definition release (f : file) : IO X unit := _ ← FlockUN f; _ ← Close f; mret tt.

(** The same checks as [check] and [try], with the file released before an error
    returns. *)
Definition check_release {A} (f : file) (m : IO X (option error)) (wrap : error → error) (k : IO X (result A)) : IO X (result A) :=
  err ← m; match err with Some err => _ ← release f; mret (Error (wrap err)) | None => k end.

Definition try_release {A B} (f : file) (m : IO X (result A)) (wrap : error → error) (k : A → IO X (result B)) : IO X (result B) :=
  r ← m; match r with Error err => _ ← release f; mret (Error (wrap err)) | Ok a => k a end.

Definition readCapabilityRootRecords (f : file) : IO X (result (list capabilityRootRecord)) :=
  check (silent (file_Seek f SeekStart)) (ErrWrap "rewind capability root ledger") (
  content ← Read f; mret (records_of content)).

Definition opened : Type := file * list capabilityRootRecord * string * CapabilityRootAnchorState.

Definition openVerified (r : AnchoredFileCapabilityMonotonicRoot X) : IO X (result opened) :=
  match af_anchor r with
  | None => mret (Error (ErrNew "anchored capability monotonic root is unavailable"))
  | Some anchor =>
      if blank (af_path r) then mret (Error (ErrNew "anchored capability monotonic root is unavailable"))
      else
        check ctxErr unwrapped (
        check (MkdirAll (filepath_Dir (af_path r))) (ErrWrap "create capability root directory") (
        try (OpenLedger (af_path r)) (ErrWrap "open capability root ledger") (λ f,
        check_close f (FlockEX f) (ErrWrap "lock capability root ledger") (
        check_release f (Chmod f) (ErrWrap "restrict capability root ledger permissions") (
        try_release f (silent (file_IsRegular f)) (ErrWrap "stat capability root ledger") (λ regular : bool,
        check_release f (mret (guard_err (negb regular) (ErrNew "capability root ledger is not a regular file"))) unwrapped (
        try_release f (readCapabilityRootRecords f) unwrapped (λ records,
        try_release f (ra_Identity anchor) (ErrWrap "read capability root anchor identity") (λ anchorID,
        check_release f (mret (guard_err (blank anchorID) (ErrNew "capability root anchor returned empty identity"))) unwrapped (
        try_release f (ra_Current anchor) (ErrWrap "read capability root anchor") (λ anchorState,
        check_release f (mret (validateCapabilityRootAnchorState anchorState)) unwrapped (
        check_release f (mret (check_anchor records anchorID anchorState)) unwrapped (
        mret (Ok (f, records, anchorID, anchorState)))))))))))))))
  end.

Definition syncCapabilityRootDirectory (path : string) : IO X (option error) :=
  r ← OpenFile path ReadOnly;
  match r with Error err => mret (Some err) | Ok dir => err ← Sync dir; _ ← Close dir; mret err end.

(** From the new record on: the anchor advances to it, then it is appended and
    synced. *)
Definition append_record (r : AnchoredFileCapabilityMonotonicRoot X) (anchor : CapabilityRootAnchor X) (f : file)
    (anchorState : CapabilityRootAnchorState) (record : capabilityRootRecord) : IO X (result CapabilityAuthoritySnapshot) :=
  let nextAnchor := {| as_Sequence := cr_Index record; as_Commitment := cr_RecordHash record |} in
  try (ra_Advance anchor anchorState nextAnchor) (ErrWrap "advance capability root anchor") (λ advanced,
  if bool_decide (advanced ≠ nextAnchor)
  then mret (Error (ErrDetail ErrCapabilityRootAnchorMismatch ("anchor advanced to " +:+ mismatch_states advanced nextAnchor "expected")))
  else
    check (silent (file_Seek f SeekEnd)) (ErrWrap "seek capability root ledger") (
    check (Write f (marshal_record record +:+ nl)) (ErrWrap "append capability root ledger") (
    check (Sync f) (ErrWrap "sync capability root ledger") (
    check (syncCapabilityRootDirectory (filepath_Dir (af_path r))) (ErrWrap "sync capability root directory") (
    mret (Ok (cr_Snapshot record))))))).

(** With the ledger open: what is recorded already is returned, what is beyond it
    is appended. *)
Definition advance_opened (r : AnchoredFileCapabilityMonotonicRoot X) (anchor : CapabilityRootAnchor X) (scopeDigest : string)
    (observed : CapabilityAuthoritySnapshot) (o : opened) : IO X (result CapabilityAuthoritySnapshot) :=
  let '(f, records, anchorID, anchorState) := o in
  let append :=
    if as_Sequence anchorState =? 2 ^ 64 - 1 then mret (Error (ErrNew "capability root anchor sequence is exhausted"))
    else
      let expectedIndex := wrap_u64 (Z.of_nat (length records) + 1) in
      if negb (expectedIndex =? wrap_u64 (as_Sequence anchorState + 1))
      then mret (Error (ErrDetail ErrCapabilityRootAnchorMismatch ("next ledger index=" +:+ pretty expectedIndex +:+ " anchor sequence=" +:+
                          pretty (as_Sequence anchorState))))
      else append_record r anchor f anchorState (next_record records anchorID scopeDigest observed) in
  match latestCapabilityRootSnapshot records scopeDigest with
  | None => append
  | Some current =>
      match compareCapabilityMonotonicRoot current observed with
      | Error err => mret (Error err)
      | Ok capabilityRootBehind => append
      | Ok _ => mret (Ok current)
      end
  end.

Definition Root_Advance (r : AnchoredFileCapabilityMonotonicRoot X) (scope : CapabilityFenceScope) (observed : CapabilityAuthoritySnapshot)
    : IO X (result CapabilityAuthoritySnapshot) :=
  match validateCapabilityAuthoritySnapshot observed with
  | Some err => mret (Error (ErrWrap "invalid observed capability authority" err))
  | None =>
      match capabilityRootScopeDigest scope, af_anchor r with
      | Error err, _ => mret (Error err)
      | Ok _, None => mret (Error (ErrNew "anchored capability monotonic root is unavailable"))
      | Ok scopeDigest, Some anchor =>
          try (openVerified r) unwrapped (λ o,
          v ← advance_opened r anchor scopeDigest observed o; _ ← release o.1.1.1; mret v)
      end
  end.

Definition Root_Current (r : AnchoredFileCapabilityMonotonicRoot X) (scope : CapabilityFenceScope)
    : IO X (result CapabilityAuthoritySnapshot) :=
  match capabilityRootScopeDigest scope with
  | Error err => mret (Error err)
  | Ok scopeDigest =>
      try (openVerified r) unwrapped (λ o,
      _ ← release o.1.1.1;
      mret (match latestCapabilityRootSnapshot o.1.1.2 scopeDigest with
            | None => Error ErrCapabilityRootMissing
            | Some current => Ok current
            end))
  end.

(** It is a [CapabilityMonotonicRoot]. *)
Definition Anchored_root (r : AnchoredFileCapabilityMonotonicRoot X) : CapabilityMonotonicRoot X := {|
  mr_Advance := Root_Advance r; mr_Current := Root_Current r |}.
End Root.

(** * The anchor in an external head store *)

Definition capabilityRootExternalHeadKeyID : string := "aegis-ege/capability-root-head/v1".

Record ExternalHeadCapabilityRootAnchor : Type := { xa_rootID : string }.

(** [present] says that a store was given: the store of the world. *)
Definition NewExternalHeadCapabilityRootAnchor (present : bool) (rootID : string) : result ExternalHeadCapabilityRootAnchor :=
  if negb present then Error (ErrNew "external capability root head store is required")
  else if str_eqb (TrimSpace rootID) "" then Error (ErrNew "external capability root id is required")
  else Ok {| xa_rootID := TrimSpace rootID |}.

Definition validateHead (a : ExternalHeadCapabilityRootAnchor) (head : ExternalHead) : option error :=
  if negb (str_eqb (TrimSpace (eh_JournalID head)) (xa_rootID a))
  then Some (ErrDetail ErrCapabilityRootAnchorMismatch ("external capability root id mismatch: got " +:+ eh_JournalID head +:+ " want " +:+ xa_rootID a))
  else if negb (str_eqb (eh_KeyID head) capabilityRootExternalHeadKeyID)
  then Some (ErrDetail ErrCapabilityRootAnchorMismatch ("external capability root key id mismatch: got " +:+ eh_KeyID head +:+ " want " +:+
               capabilityRootExternalHeadKeyID))
  else if eh_Sequence head =? 0
  then guard_err (negb (str_eqb (eh_HeadHash head) ""))
         (ErrDetail ErrCapabilityRootAnchorMismatch "sequence-zero external capability root has non-empty commitment")
  else guard_err (negb (isCapabilityRootDigest (eh_HeadHash head)))
         (ErrDetail ErrCapabilityRootAnchorMismatch "external capability root commitment is not a sha256 digest").

Definition head_state (head : ExternalHead) : CapabilityRootAnchorState :=
  {| as_Sequence := eh_Sequence head; as_Commitment := eh_HeadHash head |}.

Definition root_head (a : ExternalHeadCapabilityRootAnchor) (state : CapabilityRootAnchorState) : ExternalHead := {|
  eh_JournalID := xa_rootID a; eh_Sequence := as_Sequence state; eh_HeadHash := as_Commitment state;
  eh_KeyID := capabilityRootExternalHeadKeyID; eh_StoreVersion := "" |}.

Section External.
Context {X : Type} `{!GoWorld X, !FileSystem X, !ExternalHeadStore X}.
Implicit Types (a : ExternalHeadCapabilityRootAnchor).

Definition External_Identity a : IO X (result string) :=
  if blank (xa_rootID a) then mret (Error (ErrNew "external capability root anchor is unavailable"))
  else mret (Ok ("external-head:" +:+ xa_rootID a)).

Definition External_Current a : IO X (result CapabilityRootAnchorState) :=
  r ← LoadHead (xa_rootID a);
  mret (match r with
        | Error err =>
            if errors_Is err ErrExternalHeadNotFound then Ok zero_anchor_state
            else Error (ErrWrap "load external capability root head" err)
        | Ok head => match validateHead a head with Some err => Error err | None => Ok (head_state head) end
        end).

(** The head to replace: the recorded one, or the one of sequence zero that is
    recorded first. *)
Definition External_expected a (expected : CapabilityRootAnchorState) : IO X (result ExternalHead) :=
  r ← LoadHead (xa_rootID a);
  match r with
  | Ok current => mret (Ok current)
  | Error err =>
      if errors_Is err ErrExternalHeadNotFound then
        if bool_decide (expected ≠ zero_anchor_state)
        then mret (Error (ErrDetail ErrCapabilityRootAnchorMismatch ("external capability root is absent but expected sequence=" +:+
                            pretty (as_Sequence expected) +:+ " commitment=" +:+ as_Commitment expected)))
        else try (AdvanceHead zero_Head (root_head a zero_anchor_state)) (ErrWrap "initialize external capability root head") (λ current,
             mret (Ok current))
      else mret (Error (ErrWrap "load external capability root head" err))
  end.

Definition External_Advance a (expected next : CapabilityRootAnchorState) : IO X (result CapabilityRootAnchorState) :=
  check (mret (validateCapabilityRootAnchorState expected)) (ErrWrap "invalid expected capability root anchor state") (
  check (mret (validateCapabilityRootAnchorState next)) (ErrWrap "invalid next capability root anchor state") (
  if negb (as_Sequence next =? wrap_u64 (as_Sequence expected + 1))
  then mret (Error (ErrDetail ErrCapabilityRootAnchorMismatch ("external capability root sequence must advance by one: current=" +:+
                      pretty (as_Sequence expected) +:+ " next=" +:+ pretty (as_Sequence next))))
  else
    try (External_expected a expected) unwrapped (λ current,
    check (mret (validateHead a current)) unwrapped (
    if bool_decide (head_state current ≠ expected)
    then mret (Error (ErrDetail ErrCapabilityRootAnchorMismatch ("protected external head is " +:+
                        mismatch_states (head_state current) expected "expected")))
    else
      try (AdvanceHead current (root_head a next)) (ErrWrap "advance external capability root head") (λ advanced,
      check (mret (validateHead a advanced)) unwrapped (
      if bool_decide (head_state advanced ≠ next)
      then mret (Error (ErrDetail ErrCapabilityRootAnchorMismatch ("protected external head advanced to " +:+
                          mismatch_states (head_state advanced) next "expected")))
      else mret (Ok (head_state advanced)))))))).

(** It is a [CapabilityRootAnchor]. *)
Definition External_anchor a : CapabilityRootAnchor X := {|
  ra_Identity := External_Identity a; ra_Current := External_Current a; ra_Advance := External_Advance a |}.
End External.
