(* ===== verification/CapabilityRootLaws.v ===== *)
(** * The capability root never regresses

    What [CapabilityRoot.v] keeps of the contract of [CapabilityFence.v].  The
    specification of an anchor ([AnchorLaws]) is the one its source documents:
    the state is the length and the head of a list of linked records, and an
    advance replaces the expected state or fails.  The anchor over an external head
    store keeps it whenever other processes move the store by linked records only;
    the local file may be replaced by anyone at any time. *)

From S2P Require Import Prelude Crypto Format Json Base64 Unmarshal Evidence Permit HeadStore JournalEntry FileSystem Journal JournalText KernelAbi HashChain CapabilityFence CapabilityRecord CapabilityRoot.
Local Open Scope Z_scope.

(** * Anchored lists of records *)

(** The state stands for the records. *)
Definition names (state : CapabilityRootAnchorState) (log : list capabilityRootRecord) : Prop :=
  hash_chain "" log ∧ as_Sequence state = Z.of_nat (length log) ∧ as_Commitment state = chain_head "" log.

(** The lists that states stand for grow. *)
Definition anchor_moves (state state' : CapabilityRootAnchorState) : Prop :=
  ∀ log, names state log → ∃ more, names state' (log ++ more).

#[export] Instance anchor_moves_preorder : PreOrder anchor_moves.
Proof.
  split.
  - intros s log H. exists []. by rewrite app_nil_r.
  - intros s t u Hst Htu log H. destruct (Hst log H) as (m & Hm). destruct (Htu _ Hm) as (m' & Hm'). exists (m ++ m'). by rewrite app_assoc.
Qed.

Lemma names_append state log r : names state log → linked (as_Commitment state) r →
  names {| as_Sequence := as_Sequence state + 1; as_Commitment := cr_RecordHash r |} (log ++ [r]).
Proof.
  intros (Hc & Hs & Hh) Hl. split_and!.
  - apply hash_chain_snoc. split; [done|]. by rewrite <- Hh.
  - cbn [as_Sequence]. rewrite length_app. cbn [length]. lia.
  - cbn [as_Commitment]. by rewrite chain_head_snoc.
Qed.

(** A state that an anchor reports: its sequence is a uint64. *)
Definition moves_in {X} (anchored : X → CapabilityRootAnchorState) (x x' : X) : Prop := anchor_moves (anchored x) (anchored x').

#[export] Instance moves_in_preorder {X} (anchored : X → CapabilityRootAnchorState) : PreOrder (moves_in anchored).
Proof. unfold moves_in. split; [intros x; reflexivity|intros x y z ? ?; by etrans]. Qed.

(** What an anchor promises while others act. *)
Class AnchorLaws {X} (anchor : CapabilityRootAnchor X) (anchored : X → CapabilityRootAnchorState) : Prop := {
  identity_law : respects (moves_in anchored) (ra_Identity anchor);
  current_law x r x' t : ra_Current anchor x = (r, x', t) → ∃ state, anchor_moves (anchored x) state ∧ anchor_moves state (anchored x') ∧
    match r with Ok s => s = state | Error _ => True end;
  advance_law expected next x r x' t : ra_Advance anchor expected next x = (r, x', t) → ∃ state state',
    anchor_moves (anchored x) state ∧ anchor_moves state' (anchored x') ∧
    ((state' = state ∧ is_ok r = false) ∨ (state = expected ∧ state' = next)) }.

(** Calls to the host leave the anchor to others. *)
Class RootHost (X : Type) `{!GoWorld X, !FileSystem X, !LedgerFiles X} (anchored : X → CapabilityRootAnchorState) : Prop := {
  rh_ctx_Err x a x' : ctx_Err x = (a, x') → moves_in anchored x x';
  rh_MkdirAll path x a x' : os_MkdirAll path x = (a, x') → moves_in anchored x x';
  rh_OpenFile path flags x a x' : os_OpenFile path flags x = (a, x') → moves_in anchored x x';
  rh_Open path x a x' : unix_Open path x = (a, x') → moves_in anchored x x';
  rh_flock_EX f x a x' : flock_EX f x = (a, x') → moves_in anchored x x';
  rh_flock_UN f x a x' : flock_UN f x = (a, x') → moves_in anchored x x';
  rh_IsRegular f x a x' : file_IsRegular f x = (a, x') → moves_in anchored x x';
  rh_Seek f w x a x' : file_Seek f w x = (a, x') → moves_in anchored x x';
  rh_Chmod f x a x' : file_Chmod f x = (a, x') → moves_in anchored x x';
  rh_Read f x a x' : file_Read f x = (a, x') → moves_in anchored x x';
  rh_Write f data x a x' : file_Write f data x = (a, x') → moves_in anchored x x';
  rh_Sync f x a x' : file_Sync f x = (a, x') → moves_in anchored x x';
  rh_Close f x a x' : file_Close f x = (a, x') → moves_in anchored x x' }.

(** The run read these records, a valid ledger. *)
Definition read_ledger (t : list io_event) (rs : list capabilityRootRecord) : Prop :=
  ∃ f content, EvRead f content ∈ t ∧ records_of content = Ok rs.

Lemma read_ledger_mono t t1 t2 rs : read_ledger t rs → read_ledger (t1 ++ t ++ t2) rs.
Proof. intros (f & c & Hin & H). exists f, c. rewrite !elem_of_app. auto. Qed.

Section Laws.
Context {X : Type} `{!GoWorld X, !FileSystem X, !LedgerFiles X}.
Context (anchor : CapabilityRootAnchor X) (anchored : X → CapabilityRootAnchorState).
Context `{!AnchorLaws anchor anchored, !RootHost X anchored}.
Context (r : AnchoredFileCapabilityMonotonicRoot X) (Hr : af_anchor r = Some anchor).

Abbreviation later := (moves_in anchored).
Abbreviation steady := (respects later).

Lemma root_steady_ret {A} (a : A) : steady (mret a : IO X A).
Proof. apply respects_ret, _. Qed.

Lemma steady_release f : steady (release f).
Proof.
  apply respects_bind; [apply _|by apply respects_call, rh_flock_UN|]. intros _.
  apply respects_bind; [apply _|by apply respects_call, rh_Close|]. intros _. apply root_steady_ret.
Qed.

Lemma steady_check_release {A} f (m : IO X (option error)) wrap (k : IO X (result A)) : steady m → steady k → steady (check_release f m wrap k).
Proof.
  intros Hm Hk. apply respects_bind; [apply _|done|]. intros [err|]; [|done].
  apply respects_bind; [apply _|apply steady_release|]. intros _. apply root_steady_ret.
Qed.

Lemma steady_try_release {A B} f (m : IO X (result A)) wrap (k : A → IO X (result B)) :
  steady m → (∀ a, steady (k a)) → steady (try_release f m wrap k).
Proof.
  intros Hm Hk. apply respects_bind; [apply _|done|]. intros [a|err]; [done|].
  apply respects_bind; [apply _|apply steady_release|]. intros _. apply root_steady_ret.
Qed.

Lemma steady_current : steady (ra_Current anchor).
Proof. intros x a x' t (st & H1 & H2 & _)%current_law. unfold moves_in. by etrans. Qed.

Lemma check_release_inv {A} f (m : IO X (option error)) wrap (k : IO X (result A)) x v x' t :
  check_release f m wrap k x = (Ok v, x', t) → ∃ x1 t1 t2, m x = (None, x1, t1) ∧ k x1 = (Ok v, x', t2) ∧ t = t1 ++ t2.
Proof.
  intros ([err|] & x1 & t1 & t2 & Hm & Hk & ->)%bind_inv; [|by eauto 10].
  apply bind_inv in Hk as (? & ? & ? & ? & _ & ([=] & _)%ret_inv & _).
Qed.

Lemma try_release_inv {A B} f (m : IO X (result A)) wrap (k : A → IO X (result B)) x v x' t :
  try_release f m wrap k x = (Ok v, x', t) → ∃ a x1 t1 t2, m x = (Ok a, x1, t1) ∧ k a x1 = (Ok v, x', t2) ∧ t = t1 ++ t2.
Proof.
  intros ([a|err] & x1 & t1 & t2 & Hm & Hk & ->)%bind_inv; [by eauto 10|].
  apply bind_inv in Hk as (? & ? & ? & ? & _ & ([=] & _)%ret_inv & _).
Qed.

(** Steadiness of a program, by its structure. *)
Ltac steady_step :=
  match goal with
  | |- ∀ _, _ => intros ?
  | |- respects _ (let '(_, _) := ?p in _) => destruct p
  | |- respects _ (match ?x with _ => _ end) => destruct x
  | |- respects _ (mret _) => apply root_steady_ret
  | |- respects _ (check _ _ _) => apply respects_check; [apply _|..]
  | |- respects _ (check_close _ _ _ _) => apply respects_check_close; [apply _|by apply respects_call, rh_Close|..]
  | |- respects _ (check_release _ _ _ _) => apply steady_check_release
  | |- respects _ (try _ _ _) => apply respects_try; [apply _|..]
  | |- respects _ (try_release _ _ _ _) => apply steady_try_release
  | |- respects _ (release _) => apply steady_release
  | |- respects _ (ra_Identity anchor) => apply identity_law
  | |- respects _ (ra_Current anchor) => apply steady_current
  | |- respects _ (_ ≫= _) => apply respects_bind; [apply _|..]
  | |- respects _ (silent _) => apply respects_silent
  | |- respects _ (call _ _) => apply respects_call
  | |- moves_in _ _ _ => solve [eauto using rh_ctx_Err, rh_MkdirAll, rh_OpenFile, rh_Open, rh_flock_EX, rh_flock_UN, rh_IsRegular, rh_Seek,
      rh_Chmod, rh_Read, rh_Write, rh_Sync, rh_Close]
  | |- respects ?R ?m => let m' := eval red in m in change (respects R m')
  end.
Ltac steady_tac := repeat steady_step.

Lemma steady_openVerified : steady (openVerified r).
Proof. unfold openVerified. rewrite Hr. steady_tac. Qed.
Lemma check_anchor_None rs anchorID state : check_anchor rs anchorID state = None → valid_ledger rs → Forall sound_record rs →
  as_Commitment state = chain_head "" rs ∧ as_Sequence state = wrap_u64 (Z.of_nat (length rs)) ∧
  ∀ last_record, last rs = Some last_record → cr_AnchorID last_record = anchorID.
Proof.
  unfold check_anchor. intros H Hv Hs. destruct rs as [|p rs _] using rev_ind.
  - cbn [last] in H. apply guard_err_None in H. apply orb_false_elim in H as [H1 H2]. apply negb_false_iff in H1, H2. apply Z.eqb_eq in H1. split_bool. split_and!; [done|by rewrite H1|done].
  - rewrite last_snoc, chain_head_snoc in *. destruct (str_eqb (cr_AnchorID p) anchorID) eqn:Hid; split_bool; [|done]. cbn [negb] in H.
    destruct (Z.eqb_spec (as_Sequence state) (cr_Index p)) as [Hi|]; [|done]. cbn [negb] in H. apply guard_err_None in H. split_bool.
    rewrite (valid_index _ _ Hv) in Hi. split_and!; [done| |].
    + rewrite Hi, length_app. cbn [length]. f_equal. lia.
    + by intros ? [= <-].
Qed.

(** A run that opened the ledger. *)
Record opens (x : X) (x' : X) (t : list io_event) (rs : list capabilityRootRecord) (anchorID : string) (state : CapabilityRootAnchorState)
    : Prop := {
  op_read : read_ledger t rs;
  op_valid : valid_ledger rs;
  op_sound : Forall sound_record rs;
  op_identity : blank anchorID = false ∧ ∀ p, last rs = Some p → cr_AnchorID p = anchorID;
  op_head : as_Commitment state = chain_head "" rs;
  op_sequence : as_Sequence state = wrap_u64 (Z.of_nat (length rs));
  op_state : anchor_moves (anchored x) state ∧ anchor_moves state (anchored x') }.

Lemma openVerified_opens x f rs anchorID state x' t : openVerified r x = (Ok (f, rs, anchorID, state), x', t) → opens x x' t rs anchorID state.
Proof.
  unfold openVerified. rewrite Hr. intros H. destruct (blank (af_path r)); [by apply ret_inv in H as ([=] & _)|].
  apply check_inv in H as [(? & _ & [=])|(x1 & t1 & u1 & H1%silent_inv & H & ->)]. destruct H1 as [H1 ->]. apply rh_ctx_Err in H1.
  apply check_inv in H as [(? & _ & [=])|(x2 & t2 & u2 & H2%call_inv & H & ->)]. destruct H2 as [H2 ->]. apply rh_MkdirAll in H2.
  apply try_inv in H as [(? & _ & [=])|(g & x3 & t3 & u3 & H3%call_inv & H & ->)]. destruct H3 as [H3 ->]. apply rh_Open in H3.
  apply check_close_inv in H as [(? & ? & ? & ? & ? & _ & _ & [=] & _)|(x4 & t4 & u4 & H4%call_inv & H & ->)]. destruct H4 as [H4 ->].
  apply rh_flock_EX in H4.
  apply check_release_inv in H as (x5 & t5 & u5 & H5%call_inv & H & ->). destruct H5 as [H5 ->]. apply rh_Chmod in H5.
  apply try_release_inv in H as (regular & x6 & t6 & u6 & H6%silent_inv & H & ->). destruct H6 as [H6 ->]. apply rh_IsRegular in H6.
  apply check_release_inv in H as (x7 & t7 & u7 & H7%ret_inv & H & ->). destruct H7 as (_ & <- & ->).
  apply try_release_inv in H as (rs' & x8 & t8 & u8 & H8 & H & ->). unfold readCapabilityRootRecords in H8.
  apply check_inv in H8 as [(? & _ & [=])|(y & a8 & b8 & Hseek%silent_inv & Hread & ->)]. destruct Hseek as [Hseek ->]. apply rh_Seek in Hseek.
  apply bind_inv in Hread as (content & y' & c8 & d8 & Hread%call_inv & Hrs%ret_inv & ->). destruct Hread as [Hread ->], Hrs as (Hrs & -> & ->).
  apply rh_Read in Hread. symmetry in Hrs.
  apply try_release_inv in H as (anchorID' & x9 & t9 & u9 & H9 & H & ->). apply identity_law in H9.
  apply check_release_inv in H as (x10 & t10 & u10 & H10%ret_inv & H & ->). destruct H10 as (Hblank & <- & ->). symmetry in Hblank. apply guard_err_None in Hblank.
  apply try_release_inv in H as (state' & x11 & t11 & u11 & H11 & H & ->). apply current_law in H11 as (st & M1 & M2 & ->).
  apply check_release_inv in H as (x12 & t12 & u12 & H12%ret_inv & H & ->). destruct H12 as (_ & <- & ->).
  apply check_release_inv in H as (x13 & t13 & u13 & H13%ret_inv & H & ->). destruct H13 as (Hcheck & <- & ->). symmetry in Hcheck.
  apply ret_inv in H as ([= -> -> -> ->] & -> & ->). pose proof (records_of_valid _ _ Hrs) as [Hv Hs].
  apply check_anchor_None in Hcheck as (Hh & Hseq & Hid); [|done..]. split; try done.
  - exists g, content. split; [|done]. rewrite !elem_of_app, !list_elem_of_singleton. tauto.
  - split; [|done]. etrans; [|exact M1]. unfold moves_in in *. repeat first [reflexivity|etrans; [eassumption|]].
Qed.

(** ** Appending *)

Definition state_after (state : CapabilityRootAnchorState) (record : capabilityRootRecord) : CapabilityRootAnchorState :=
  {| as_Sequence := as_Sequence state + 1; as_Commitment := cr_RecordHash record |}.

Lemma state_after_moves state record : linked (as_Commitment state) record → anchor_moves state (state_after state record).
Proof. intros Hl log Hlog. exists [record]. by apply names_append. Qed.

Lemma advance_moves state record x v x' t : linked (as_Commitment state) record →
  ra_Advance anchor state (state_after state record) x = (v, x', t) →
  later x x' ∧ (is_ok v = true → anchor_moves (state_after state record) (anchored x')).
Proof.
  intros Hl (st & st' & M1 & M2 & [[-> Hv]|[-> ->]])%advance_law.
  - split; [unfold moves_in; by etrans|]. by rewrite Hv.
  - split; [|done]. unfold moves_in. etrans; [exact M1|]. etrans; [by apply state_after_moves|done].
Qed.

Lemma next_state rs anchorID d observed state : as_Sequence state = wrap_u64 (Z.of_nat (length rs)) → as_Sequence state ≠ 2 ^ 64 - 1 →
  {| as_Sequence := cr_Index (next_record rs anchorID d observed); as_Commitment := cr_RecordHash (next_record rs anchorID d observed) |} =
  state_after state (next_record rs anchorID d observed).
Proof.
  intros Hs Hne. unfold state_after. f_equal. change (cr_Index (next_record rs anchorID d observed)) with (wrap_u64 (Z.of_nat (length rs) + 1)).
  pose proof (wrap_u64_is_u64 (Z.of_nat (length rs))) as Hu. rewrite <- Hs in Hu. unfold is_u64 in Hu.
  rewrite <- (wrap_u64_small (as_Sequence state + 1)) by (unfold is_u64; lia). rewrite Hs. unfold wrap_u64. by rewrite Zplus_mod_idemp_l.
Qed.

Lemma steady_syncDirectory path : steady (syncCapabilityRootDirectory path).
Proof. unfold syncCapabilityRootDirectory. steady_tac. Qed.

(** The record was appended to the anchored list, whatever became of the file. *)
Definition appends x' rs anchorID d observed state : Prop :=
  let record := next_record rs anchorID d observed in
  anchor_moves state (state_after state record) ∧ anchor_moves (state_after state record) (anchored x') ∧
  ∀ s, latestCapabilityRootSnapshot rs d = Some s → compareCapabilityMonotonicRoot s observed = Ok capabilityRootBehind.

Lemma append_record_run f rs anchorID d observed state x v x' t : as_Commitment state = chain_head "" rs →
  as_Sequence state = wrap_u64 (Z.of_nat (length rs)) → as_Sequence state ≠ 2 ^ 64 - 1 →
  append_record r anchor f state (next_record rs anchorID d observed) x = (v, x', t) →
  later x x' ∧ ∀ s, v = Ok s → s = observed ∧ anchor_moves (state_after state (next_record rs anchorID d observed)) (anchored x').
Proof.
  intros Hh Hs Hne. unfold append_record. cbv zeta. rewrite (next_state rs anchorID d observed state) by done.
  assert (Hl : linked (as_Commitment state) (next_record rs anchorID d observed)) by (rewrite Hh; apply next_record_linked).
  intros [(err & Ha & ->)|(adv & x1 & t1 & t2 & Ha & H & ->)]%try_inv; destruct (advance_moves _ _ _ _ _ _ Hl Ha) as [Hm Hok]; [by split|].
  clear Ha. pose proof Hok as Ha.
  specialize (Ha eq_refl). assert (later x1 x') as Hm'.
  { revert H. generalize v. match goal with |- ∀ v, ?m x1 = (v, x', t2) → _ => assert (Hst : steady m); [|intros w Hw; by eapply Hst] end.
    destruct (bool_decide _); [apply root_steady_ret|]. steady_tac. }
  split; [by etrans|]. intros s ->. split; [|by etrans]. destruct (bool_decide _); [by apply ret_inv in H as ([=] & _)|].
  apply check_inv in H as [(? & _ & [=])|(x2 & t3 & t4 & _ & H & ->)]. apply check_inv in H as [(? & _ & [=])|(x3 & t5 & t6 & _ & H & ->)].
  apply check_inv in H as [(? & _ & [=])|(x4 & t7 & t8 & _ & H & ->)]. apply check_inv in H as [(? & _ & [=])|(x5 & t9 & t10 & _ & H & ->)].
  apply ret_inv in H as ([= ->] & _). reflexivity.
Qed.

Lemma advance_opened_run d observed f rs anchorID state x v x' t : as_Commitment state = chain_head "" rs →
  as_Sequence state = wrap_u64 (Z.of_nat (length rs)) →
  advance_opened r anchor d observed (f, rs, anchorID, state) x = (v, x', t) →
  later x x' ∧ ∀ s, v = Ok s →
    latestCapabilityRootSnapshot rs d = Some s ∨ (s = observed ∧ appends x' rs anchorID d observed state).
Proof.
  intros Hh Hs. unfold advance_opened.
  assert (Happ : ∀ v, (∀ s, latestCapabilityRootSnapshot rs d = Some s → compareCapabilityMonotonicRoot s observed = Ok capabilityRootBehind) →
    (if as_Sequence state =? 2 ^ 64 - 1 then mret (Error (ErrNew "capability root anchor sequence is exhausted"))
     else if negb (wrap_u64 (Z.of_nat (length rs) + 1) =? wrap_u64 (as_Sequence state + 1))
     then mret (Error (ErrDetail ErrCapabilityRootAnchorMismatch ("next ledger index=" +:+ pretty (wrap_u64 (Z.of_nat (length rs) + 1)) +:+
            " anchor sequence=" +:+ pretty (as_Sequence state))))
     else append_record r anchor f state (next_record rs anchorID d observed)) x = (v, x', t) →
    later x x' ∧ ∀ s, v = Ok s → latestCapabilityRootSnapshot rs d = Some s ∨ (s = observed ∧ appends x' rs anchorID d observed state)).
  { clear v. intros v Hb. destruct (Z.eqb_spec (as_Sequence state) (2 ^ 64 - 1)) as [|Hne].
    { intros (-> & -> & _)%ret_inv. split; [reflexivity|done]. }
    destruct (negb _); [intros (-> & -> & _)%ret_inv; split; [reflexivity|done]|].
    intros [Hm Hok]%append_record_run; [|done..]. split; [done|]. intros s Hv. right. destruct (Hok s Hv) as [-> Ha].
    split; [done|]. split_and!; try done. apply state_after_moves. rewrite Hh. apply next_record_linked. }
  destruct (latestCapabilityRootSnapshot rs d) as [current|] eqn:Hlat; [|apply Happ; by rewrite ?Hlat].
  destruct (compareCapabilityMonotonicRoot current observed) as [[]|err] eqn:Hc.
  3:{ apply Happ. by intros s [= <-]. }
  all: intros (-> & -> & _)%ret_inv; split; [reflexivity|]; intros s [= <-]; by left.
Qed.

(** ** Answers of the root *)

(** An answer [s] for the scope digest [d]: it stands in the ledger that the run
    read, or the run appended it. *)
Record answers (x : X) (s : CapabilityAuthoritySnapshot) (x' : X) (t : list io_event) (d : string) (rs : list capabilityRootRecord)
    (anchorID : string) (state : CapabilityRootAnchorState) : Prop := {
  an_opens : opens x x' t rs anchorID state;
  an_digest : utf8_valid d = true;
  an_value : latestCapabilityRootSnapshot rs d = Some s ∨
    (utf8_valid (cu_AuthorityDomain s) = true ∧ appends x' rs anchorID d s state) }.

Lemma scope_digest_utf8 scope d : capabilityRootScopeDigest scope = Ok d → utf8_valid d = true.
Proof. unfold capabilityRootScopeDigest. destruct (empty_part _ _); [done|]. intros [= <-]. apply digest_utf8. Qed.

Lemma opens_later x x1 x' t t' rs anchorID state : opens x x1 t rs anchorID state → later x1 x' → opens x x' (t ++ t') rs anchorID state.
Proof.
  intros [Hre Hv Hs Hid Hh Hseq [M1 M2]] Hl. split; try done; [by apply (read_ledger_mono t [] t')|]. split; [done|]. by etrans.
Qed.

Lemma Root_Advance_run scope observed x v x' t : Root_Advance r scope observed x = (v, x', t) →
  later x x' ∧ ∀ s, v = Ok s → utf8_valid (cu_AuthorityDomain observed) = true →
    ∃ d rs anchorID state, capabilityRootScopeDigest scope = Ok d ∧ answers x s x' t d rs anchorID state.
Proof.
  unfold Root_Advance. rewrite Hr. destruct (validateCapabilityAuthoritySnapshot observed); [by intros (-> & -> & _)%ret_inv|].
  destruct (capabilityRootScopeDigest scope) as [d|] eqn:Hd; [|by intros (-> & -> & _)%ret_inv].
  intros [(err & Ho & ->)|([[[f rs] anchorID] state] & x1 & t1 & t2 & Ho & H & ->)]%try_inv; pose proof (steady_openVerified _ _ _ _ Ho) as Hm1; [done|].
  apply bind_inv in H as (w & x2 & t3 & t4 & Ha & H & ->). apply bind_inv in H as (u & x3 & t5 & t6 & Hrel & (-> & -> & ->)%ret_inv & ->).
  apply steady_release in Hrel. apply openVerified_opens in Ho.
  apply advance_opened_run in Ha as [Hm2 Hok]; [|by destruct Ho..].
  split; [by repeat (etrans; [eassumption|])|]. intros s -> Hu. exists d, rs, anchorID, state. split; [done|].
  split; [eapply opens_later; [exact Ho|by etrans]|by eapply scope_digest_utf8|].
  destruct (Hok s eq_refl) as [|(-> & H1 & H2 & H3)]; [by left|]. right. split; [done|]. split_and!; try done. by etrans.
Qed.

Lemma Root_Current_run scope x v x' t : Root_Current r scope x = (v, x', t) →
  later x x' ∧ ∀ s, v = Ok s → ∃ d rs anchorID state, capabilityRootScopeDigest scope = Ok d ∧ answers x s x' t d rs anchorID state.
Proof.
  unfold Root_Current. destruct (capabilityRootScopeDigest scope) as [d|] eqn:Hd; [|by intros (-> & -> & _)%ret_inv].
  intros [(err & Ho & ->)|([[[f rs] anchorID] state] & x1 & t1 & t2 & Ho & H & ->)]%try_inv; pose proof (steady_openVerified _ _ _ _ Ho) as Hm1; [done|].
  apply bind_inv in H as (u & x3 & t5 & t6 & Hrel & (-> & -> & ->)%ret_inv & ->). apply steady_release in Hrel. apply openVerified_opens in Ho.
  split; [by etrans|]. intros s Hs. exists d, rs, anchorID, state. split; [done|]. cbn [fst snd] in Hs.
  destruct (latestCapabilityRootSnapshot rs d) as [c|] eqn:Hlat; [|done]. injection Hs as <-.
  split; [by eapply opens_later|by eapply scope_digest_utf8|by left].
Qed.

Lemma root_answers_spec scope x s x' t : root_answers (Anchored_root r) scope x s x' t →
  ∃ d rs anchorID state, capabilityRootScopeDigest scope = Ok d ∧ answers x s x' t d rs anchorID state.
Proof.
  intros [observed Hu H|H].
  - apply Root_Advance_run in H as [_ H]. by apply H.
  - apply Root_Current_run in H as [_ H]. by apply H.
Qed.

(** The list that the state stands for is the ledger that was read, or they hold
    a collision. *)
Lemma names_ledger state log rs : names state log → valid_ledger rs → Forall sound_record rs → as_Commitment state = chain_head "" rs →
  coerce_record <$> log = rs ∨ chain_collision log rs.
Proof.
  intros (Hc & _ & Hh) Hv Hs Hrs. destruct (records_determined log rs Hc (valid_chain _ Hv)) as [Heq|]; [congruence| |by right].
  left. cbn [link_canon capabilityRootRecord_chained] in Heq. rewrite Heq. rewrite <- (list_fmap_id rs) at 2.
  apply list_fmap_ext. intros i p Hp. apply coerce_sound_record. by eapply Forall_lookup_1.
Qed.

(** The excuse: in the list that the anchor stands for at the end there is a
    record that collides in SHA-256 with one that a run read. *)
Definition ledger_collision (x1 : X) (t1 : list io_event) (x2 : X) (t2 : list io_event) : Prop :=
  ∀ log, names (anchored x1) log → ∃ more rs1 rs2, names (anchored x2) (log ++ more) ∧ read_ledger t1 rs1 ∧ read_ledger t2 rs2 ∧
    chain_collision (log ++ more) (rs1 ++ rs2).

(** With the list at hand: two answers are in order, or the ledgers collide with
    the list. *)
Lemma answers_monotone d x1 s1 x1' t1 rs1 id1 st1 x2 s2 x2' t2 rs2 id2 st2 log : answers x1 s1 x1' t1 d rs1 id1 st1 → later x1' x2 →
  answers x2 s2 x2' t2 d rs2 id2 st2 → names (anchored x1) log →
  snapshot_le s1 s2 ∨ ∃ more, names (anchored x2') (log ++ more) ∧ chain_collision (log ++ more) (rs1 ++ rs2).
Proof.
  intros [O1 D1 V1] Hl [O2 D2 V2] Hlog.
  destruct O1 as [_ Hv1 Hs1 _ Hh1 _ [M1 M1']], O2 as [_ Hv2 Hs2 _ Hh2 _ [M2 M2']].
  destruct (M1 log Hlog) as (m1 & N1).
  (* the list when the first answer stood in it *)
  assert (∃ m2, names st1 (log ++ m1) ∧ names (anchored x1') (log ++ m1 ++ m2) ∧
    (coerce_record <$> log ++ m1 = rs1 → ∃ k, latestCapabilityRootSnapshot (coerce_record <$> (log ++ m1 ++ k)) d = Some s1 ∧ k `prefix_of` m2)) as (m2 & _ & N2 & K1).
  { destruct V1 as [V1|(Hu & A1 & A2 & _)].
    - destruct (M1' _ N1) as (m2 & N2). exists m2. rewrite <- app_assoc in N2. split_and!; try done. intros Heq. exists [].
      rewrite app_nil_r, Heq. split; [done|apply prefix_nil].
    - set (rc := next_record rs1 id1 d s1) in *.
      assert (N1' : names (state_after st1 rc) ((log ++ m1) ++ [rc])).
      { apply names_append; [done|]. rewrite Hh1. apply next_record_linked. }
      destruct (A2 _ N1') as (m2 & N2). exists (rc :: m2). rewrite <- !app_assoc in N2. split_and!; try done. intros Heq. exists [rc].
      split; [|by exists m2]. rewrite app_assoc, fmap_app, Heq. cbn [fmap list_fmap]. rewrite latest_snoc.
      cbn [rc next_record with_RecordHash coerce_record cr_ScopeDigest cr_Snapshot]. rewrite decide_True by by apply coerce_utf8.
      destruct s1. unfold coerce_snapshot. cbn in *. by rewrite coerce_utf8. }
  destruct (Hl _ N2) as (m3 & N3). destruct (M2 _ N3) as (m4 & N4). destruct (M2' _ N4) as (m5 & N5).
  assert (Hfin : names (anchored x2') (log ++ (m1 ++ m2 ++ m3 ++ m4 ++ m5))) by by rewrite <- !app_assoc in N5.
  destruct (names_ledger _ _ _ N1 Hv1 Hs1 Hh1) as [E1|C1].
  2:{ right. eexists. split; [exact Hfin|]. eapply chain_collision_mono; [exact C1|set_solver..]. }
  destruct (names_ledger _ _ _ N4 Hv2 Hs2 Hh2) as [E2|C2].
  2:{ right. eexists. split; [exact Hfin|]. eapply chain_collision_mono; [exact C2|set_solver..]. }
  left. destruct (K1 E1) as (k & Hk & [k' ->]).
  assert (∃ u, latestCapabilityRootSnapshot rs2 d = Some u ∧ snapshot_le s1 u) as (u & Hu & Hle).
  { rewrite <- E2 in Hv2 |- *. replace ((((log ++ m1 ++ k ++ k') ++ m3) ++ m4)) with ((log ++ m1 ++ k) ++ (k' ++ m3 ++ m4)) in * by by rewrite <- !app_assoc.
    rewrite fmap_app in Hv2 |- *. by eapply valid_monotone. }
  destruct V2 as [V2|(_ & _ & _ & A3)]; [by replace s2 with u by congruence|].
  apply A3, compare_Ok in Hu as (_ & _ & [Hlt _]). by etrans.
Qed.

Lemma root_contract_holds : root_contract later ledger_collision (Anchored_root r).
Proof.
  split.
  - apply _.
  - intros x0 x1 t1 x2 t2 x3 a b c d L1 He L2 log Hlog. destruct (L1 _ Hlog) as (m & Hm). destruct (He _ Hm) as (m' & rs1 & rs2 & Hn & H1 & H2 & H3).
    destruct (L2 _ Hn) as (m'' & Hn'). exists (m ++ m' ++ m''), rs1, rs2. rewrite !app_assoc in *. split_and!; try done.
    + rewrite <- app_assoc. by apply read_ledger_mono.
    + rewrite <- app_assoc. by apply read_ledger_mono.
    + eapply chain_collision_mono; [exact H3|set_solver..].
  - intros scope observed x v x' t H. by apply Root_Advance_run in H as [? _].
  - intros scope x v x' t H. by apply Root_Current_run in H as [? _].
  - intros scope x1 s1 x1' t1 x2 s2 x2' t2 A1 Hl A2.
    apply root_answers_spec in A1 as (d & rs1 & id1 & st1 & Hd & A1), A2 as (d' & rs2 & id2 & st2 & Hd' & A2).
    assert (d' = d) as -> by congruence. destruct (decide (snapshot_le s1 s2)) as [|Hnle]; [by left|]. right. intros log Hlog.
    destruct (answers_monotone _ _ _ _ _ _ _ _ _ _ _ _ _ _ _ _ A1 Hl A2 Hlog) as [|(more & Hn & Hc)]; [done|].
    exists more, rs1, rs2. split_and!; try done; [by destruct A1 as [[]]|by destruct A2 as [[]]].
Qed.
End Laws.

(** * The anchor over a head store *)

Definition state_of (head : option quorumSemanticHead) : CapabilityRootAnchorState :=
  match head with None => zero_anchor_state | Some h => {| as_Sequence := qh_Sequence h; as_Commitment := qh_HeadHash h |} end.

(** A head store that others advance too, under this identity by linked records
    only ([anchor_moves]): the laws of [HeadStore.v] at one identity. *)
Class RootStore (X : Type) `{!ExternalHeadStore X} (rootID : string) : Type := {
  recorded_head : X → option quorumSemanticHead;
  Load_root x v x' : Load rootID x = (v, x') → ∃ h,
    anchor_moves (state_of (recorded_head x)) (state_of h) ∧ anchor_moves (state_of h) (state_of (recorded_head x')) ∧
    match v with
    | Ok head => h = Some (semanticExternalHead head)
    | Error err => errors_Is err ErrExternalHeadNotFound = true → h = None
    end;
  Advance_root previous next x v x' : eh_JournalID next = rootID → CompareAndAdvance previous next x = (v, x') → ∃ h h',
    anchor_moves (state_of (recorded_head x)) (state_of h) ∧ anchor_moves (state_of h') (state_of (recorded_head x')) ∧
    ((h' = h ∧ is_ok v = false) ∨
     (extends h (semanticExternalHead previous) (semanticExternalHead next) ∧ h' = Some (semanticExternalHead next) ∧
      match v with Ok head => semanticExternalHead head = semanticExternalHead next | Error _ => True end)) }.

Section External.
Context {X : Type} `{!GoWorld X, !FileSystem X, !ExternalHeadStore X} (a : ExternalHeadCapabilityRootAnchor).
Context `{!RootStore X (xa_rootID a)}.

Definition recorded_state (x : X) : CapabilityRootAnchorState := state_of (recorded_head x).

Lemma LoadHead_root x v x' t : LoadHead (xa_rootID a) x = (v, x', t) → ∃ h,
  anchor_moves (recorded_state x) (state_of h) ∧ anchor_moves (state_of h) (recorded_state x') ∧
  match v with Ok head => state_of h = head_state head | Error err => errors_Is err ErrExternalHeadNotFound = true → state_of h = zero_anchor_state end.
Proof.
  unfold LoadHead. intros [(h & H1 & H2 & Hv)%Load_root _]%call_inv. exists h. split_and!; try done.
  destruct v as [head|err]; [by rewrite Hv|]. intros He. by rewrite (Hv He).
Qed.

(** Replacing the state of a head by a later one, or failing. *)
Lemma AdvanceHead_root previous next x v x' t : eh_JournalID next = xa_rootID a →
  ¬ (eh_Sequence previous = 0 ∧ eh_Sequence next = 0) →
  AdvanceHead previous next x = (v, x', t) → ∃ st st',
  anchor_moves (recorded_state x) st ∧ anchor_moves st' (recorded_state x') ∧
  ((st' = st ∧ is_ok v = false) ∨ (st = head_state previous ∧ st' = head_state next)).
Proof.
  intros Hid Hpos. unfold AdvanceHead. intros [(h & h' & H1 & H2 & Hv)%Advance_root _]%call_inv; [|done]. exists (state_of h), (state_of h').
  split_and!; try done. destruct Hv as [[-> Hv]|(He & -> & _)]; [by left|]. right. split; [|done].
  unfold extends in He. destruct h as [c|]; cbn in He; [|tauto]. destruct He as (E1 & E2 & _). unfold state_of, head_state. by rewrite E1, E2.
Qed.

Lemma AdvanceHead_zero x v x' t : AdvanceHead zero_Head (root_head a zero_anchor_state) x = (v, x', t) → ∃ st,
  anchor_moves (recorded_state x) st ∧ anchor_moves st (recorded_state x').
Proof.
  unfold AdvanceHead. intros [(h & h' & H1 & H2 & Hv)%Advance_root _]%call_inv; [|done].
  destruct Hv as [[-> _]|(He & -> & _)]; [by exists (state_of h)|]. exists zero_anchor_state. split; [|done].
  etrans; [exact H1|]. unfold extends in He. destruct h as [c|]; [|done]. cbn in He. destruct He as (E1 & E2 & _). unfold state_of.
  rewrite E1, E2. reflexivity.
Qed.

Lemma External_expected_run expected x v x' t : External_expected a expected x = (v, x', t) → anchor_moves (recorded_state x) (recorded_state x').
Proof.
  unfold External_expected. intros (w & x1 & t1 & t2 & (h & H1 & H2 & _)%LoadHead_root & H & ->)%bind_inv.
  assert (anchor_moves (recorded_state x) (recorded_state x1)) as Hm by by etrans.
  destruct w as [current|err]; [by apply ret_inv in H as (_ & -> & _)|]. destruct (errors_Is _ _); [|by apply ret_inv in H as (_ & -> & _)].
  destruct (bool_decide _); [by apply ret_inv in H as (_ & -> & _)|].
  apply try_inv in H as [(e & (st & H3 & H4)%AdvanceHead_zero & ->)|(u & x2 & t3 & t4 & (st & H3 & H4)%AdvanceHead_zero & (_ & -> & _)%ret_inv & ->)];
    by repeat (etrans; [eassumption|]).
Qed.

#[export] Instance External_laws : AnchorLaws (External_anchor a) recorded_state.
Proof.
  split.
  - cbn. unfold External_Identity. destruct (blank _); apply respects_ret, _.
  - intros x v x' t. cbn. unfold External_Current. intros (w & x1 & t1 & t2 & (h & H1 & H2 & Hw)%LoadHead_root & (-> & -> & ->)%ret_inv & ->)%bind_inv.
    exists (state_of h). split_and!; try done. destruct w as [head|err].
    + destruct (validateHead a head); [done|]. by rewrite Hw.
    + destruct (errors_Is err ErrExternalHeadNotFound); [|done]. by rewrite Hw.
  - intros expected next x v x' t. cbn. unfold External_Advance.
    assert (Hsame : ∀ y y' : X, anchor_moves (recorded_state y) (recorded_state y') → ∀ w : result CapabilityRootAnchorState, is_ok w = false →
      ∃ st st', anchor_moves (recorded_state y) st ∧ anchor_moves st' (recorded_state y') ∧ (st' = st ∧ is_ok w = false ∨ st = expected ∧ st' = next)).
    { intros y y' Hm w Hw. exists (recorded_state y'), (recorded_state y'). split_and!; try done. by left. }
    intros [(err & (He & -> & _)%ret_inv & ->)|(x1 & t1 & t2 & (_ & -> & ->)%ret_inv & H & ->)]%check_inv; [by apply Hsame|].
    apply check_inv in H as [(err & (He & -> & _)%ret_inv & ->)|(x1 & t3 & t4 & (_ & -> & ->)%ret_inv & H & ->)]; [by apply Hsame|].
    destruct (Z.eqb_spec (as_Sequence next) (wrap_u64 (as_Sequence expected + 1))) as [Hseq|]; [|apply ret_inv in H as (-> & -> & _); by apply Hsame].
    cbn [negb] in H. apply try_inv in H as [(err & H & ->)|(current & x2 & t5 & t6 & Hexp & H & ->)].
    { apply External_expected_run in H. by apply Hsame. }
    apply External_expected_run in Hexp.
    apply check_inv in H as [(err & (He & -> & _)%ret_inv & ->)|(x3 & t7 & t8 & (_ & -> & ->)%ret_inv & H & ->)]; [by apply Hsame|].
    destruct (bool_decide _) eqn:Hcur; [apply ret_inv in H as (-> & -> & _); by apply Hsame|]. split_bool.
    apply dec_stable in Hcur. subst expected.
    assert (Hpos : ¬ (eh_Sequence current = 0 ∧ eh_Sequence (root_head a next) = 0)).
    { intros [E1 E2]. cbn in E1, E2, Hseq. rewrite E1 in Hseq. rewrite E2 in Hseq. by vm_compute in Hseq. }
    assert (Hnext : head_state (root_head a next) = next) by by destruct next.
    apply try_inv in H as [(err & Ha & ->)|(adv & x4 & t9 & t10 & Ha & H & ->)]; apply AdvanceHead_root in Ha as (st & st' & A1 & A2 & Hst); try done.
    { exists st, st'. split_and!; try done; [by etrans|]. rewrite Hnext in Hst. destruct Hst as [[-> _]|[-> ->]]; [by left|by right]. }
    destruct Hst as [[_ [=]]|[-> ->]]. rewrite Hnext in *.
    assert (x' = x4) as ->.
    { apply check_inv in H as [(err & (_ & -> & _)%ret_inv & _)|(x5 & t11 & t12 & (_ & -> & _)%ret_inv & H & _)]; [done|].
      destruct (bool_decide _); by apply ret_inv in H as (_ & -> & _). }
    exists (head_state current), next. split_and!; try done; [by etrans|by right].
Qed.
End External.

(** * Properties *)

(** C22: Coordinates that the server once issued, or let an effect pass with, are
    never gone back from: with the root in a file whose head an external store
    keeps, a permit that is accepted later, for the same intent and target, has the
    same coordinates or later ones -- although the mutable authority may give any
    coordinates, and the ledger file may be replaced, at any time.  Otherwise a
    record that a run read collides in SHA-256 with one that the store names. *)
Theorem superseded_capability_refused {X} `{!GoWorld X, !FileSystem X, !LedgerFiles X, !ExternalHeadStore X}
    (anchor : ExternalHeadCapabilityRootAnchor) `{!RootStore X (xa_rootID anchor), !RootHost X (recorded_state anchor)}
    (path : string) (mutable : CapabilityFenceAuthority X) (server : Server X)
    (Hrequired : sv_RequireCapabilityFencing server = true)
    (Hauthority : sv_CapabilityFenceAuthority server = Some (IndependentRoot_authority {|
       ir_Mutable := mutable;
       ir_Root := Anchored_root {| af_path := path; af_anchor := Some (External_anchor anchor) |} |}))
    (Hmutable : mutable_source (moves_in (recorded_state anchor)) mutable)
    (Hcompose : ∀ intentID kind target, respects (moves_in (recorded_state anchor)) (sv_Compose server intentID kind target))
    intentID kind target claims1 x1 x1' t1 claims2 x2 x2' t2 log
    (Hlog : names (recorded_state anchor x1) log)
    (H1 : fence_accepted server intentID kind target claims1 x1 x1' t1)
    (Hbetween : moves_in (recorded_state anchor) x1' x2)
    (H2 : fence_accepted server intentID kind target claims2 x2 x2' t2) :
  snapshot_le (claims_snapshot claims1) (claims_snapshot claims2) ∨
  ∃ more rs1 rs2, names (recorded_state anchor x2') (log ++ more) ∧ read_ledger t1 rs1 ∧ read_ledger t2 rs2 ∧
    chain_collision (log ++ more) (rs1 ++ rs2).
Proof.
  destruct (accepted_monotone (moves_in (recorded_state anchor)) (ledger_collision (recorded_state anchor)) server {|
    ir_Mutable := mutable; ir_Root := Anchored_root {| af_path := path; af_anchor := Some (External_anchor anchor) |} |}
    intentID kind target claims1 claims2 x1 x1' t1 x2 x2' t2) as [Hle|Hcol]; try done.
  - split; [exact Hrequired|exact Hauthority| |exact Hmutable|exact Hcompose]. by apply (root_contract_holds (External_anchor anchor) _ _).
  - by left.
  - right. by apply Hcol.
Qed.

(** C35: What [Advance] appends to a ledger that it read is read back by the next
    run, whatever ledger it was: the text with the new line is the text of a valid
    ledger with the new record at its end. *)
Theorem appended_ledger_read_back rs anchorID scopeDigest observed
    (Hvalid : valid_ledger rs) (Hsound : Forall sound_record rs) (Hfits : Forall fits_line rs)
    (Hindex : Z.of_nat (length rs) + 1 < 2 ^ 64) (Hidentity : blank anchorID = false) (Hutf8 : utf8_valid anchorID = true)
    (Hsame : ∀ p, last rs = Some p → cr_AnchorID p = anchorID)
    (Hscope : isCapabilityRootDigest scopeDigest = true) (Hscope_utf8 : utf8_valid scopeDigest = true)
    (Hsnapshot : valid_snapshot observed) (Hsound_snapshot : sound_snapshot observed)
    (Hfurther : ∀ s, latestCapabilityRootSnapshot rs scopeDigest = Some s →
      compareCapabilityMonotonicRoot s observed = Ok capabilityRootBehind)
    (Hline : fits_line (next_record rs anchorID scopeDigest observed)) :
  let record := next_record rs anchorID scopeDigest observed in
  records_of (text_of (marshal_record <$> rs) +:+ (marshal_record record +:+ nl), None) = Ok (rs ++ [record]) ∧
  latestCapabilityRootSnapshot (rs ++ [record]) scopeDigest = Some observed.
Proof.
  cbv zeta. split.
  - rewrite <- text_of_snoc. change [marshal_record ?r] with (marshal_record <$> [r]). rewrite <- fmap_app.
    apply ledger_text_read.
    + constructor; [done|]. by apply validate_None, next_record_admitted.
    + apply Forall_app_2; [done|]. apply Forall_singleton. by apply next_record_sound.
    + apply Forall_app_2; [done|]. by apply Forall_singleton.
  - rewrite latest_snoc. cbn [next_record with_RecordHash cr_ScopeDigest]. by rewrite decide_True.
Qed.
