(* ===== verification/CapabilityExample.v ===== *)
(** * The capability root at work

    A server in the memory of [MemoryFS.v]: its mutable authority gives the
    coordinates of a clock that anyone can turn back.  Two capabilities are issued
    a decision apart; with the clock turned back, the first is refused because the
    root remembers the second. *)

From stdpp Require Import stringmap.
From S2P Require Import Prelude Crypto Format Json Base64 Unmarshal Evidence Permit HeadStore JournalEntry FileSystem Journal JournalText Ledger MemoryFS KernelAbi HashChain CapabilityFence CapabilityRecord CapabilityRoot CapabilityRootLaws.
From S2P Require Decision.
Local Open Scope Z_scope.

(** * The memory keeps the laws *)

#[export] Instance mem_ledger_files {W} : LedgerFiles (mem W) := {|
  unix_Open path := mem_OpenFile path LockFile;
  flock_EX := mem_Sync;
  flock_UN := mem_Sync;
  file_IsRegular _ m := (Ok true, m);
  file_Seek f _ := mem_Sync f |}.

Section Memory.
Context (a : ExternalHeadCapabilityRootAnchor).

Abbreviation world := (mem MemoryHeadStore).

#[export] Program Instance mem_root_store : RootStore world (xa_rootID a) := {|
  recorded_head m := recorded (mem_heads m) !! xa_rootID a |}.
Next Obligation.
  intros m v m'. cbn. intros [= <- <-]. eexists. split_and!; [reflexivity|by destruct m|]. unfold MemoryHeadStore_Load.
  rewrite lookup_fmap. by destruct (mem_heads m !! _).
Qed.
Next Obligation.
  intros p n m v m' Hid H. cbn in H.
  destruct (MemoryHeadStore_CompareAndAdvance p n (mem_heads m)) as [w heads] eqn:Ha. injection H as <- <-. cbn.
  pose proof (advance_recorded p n (mem_heads m) w heads Ha) as Hr. cbn in Hr. rewrite <- Hid.
  exists ((semanticExternalHead <$> mem_heads m) !! eh_JournalID n), ((semanticExternalHead <$> heads) !! eh_JournalID n).
  split_and!; [reflexivity..|]. destruct Hr as [[-> Hv]|(He & -> & Hv)]; [by left|]. right. by rewrite lookup_insert_eq.
Qed.

Lemma same_heads m m' : mem_heads m' = mem_heads m → moves_in (recorded_state a) m m'.
Proof. unfold moves_in, recorded_state. cbn. by intros ->. Qed.

Lemma quiet_call {A} (f : world → A * world) : (∀ m, mem_heads (f m).2 = mem_heads m) → ∀ m v m', f m = (v, m') → moves_in (recorded_state a) m m'.
Proof. intros Hf m v m' H. apply same_heads. specialize (Hf m). by rewrite H in Hf. Qed.

#[export] Instance mem_root_host : RootHost world (recorded_state a).
Proof.
  split; intros; (eapply (quiet_call (λ m, _)); [|eassumption]); intros m; cbn;
    unfold mem_OpenFile, mem_Write, mem_Sync, mem_Close, mem_Read; first [by apply at_path_heads | by repeat case_match].
Qed.
End Memory.

(** * A server *)

Abbreviation world := (mem MemoryHeadStore).

(** The mutable authority: the decision epoch is the reading of the clock. *)
Definition clock_snapshot (epoch : Z) : CapabilityAuthoritySnapshot :=
  {| cu_AuthorityDomain := "cluster"; cu_AuthorityTerm := 1; cu_DecisionEpoch := epoch; cu_RevocationEpoch := 0 |}.

Definition clock_authority : CapabilityFenceAuthority world := {|
  fa_Issue _ := epoch ← Now; mret (Ok {| ci_AuthorityDomain := "cluster"; ci_AuthorityTerm := 1; ci_DecisionEpoch := epoch; ci_RevocationEpoch := 0 |});
  fa_Current _ := epoch ← Now; mret (Ok (clock_snapshot epoch)) |}.

Definition sample_anchor : ExternalHeadCapabilityRootAnchor := {| xa_rootID := "root-1" |}.

Definition sample_root : AnchoredFileCapabilityMonotonicRoot world :=
  {| af_path := "/d/root.jsonl"; af_anchor := Some (External_anchor sample_anchor) |}.

Definition sample_production : egeEvidenceProduction :=
  {| ep_Decision := Decision.Allow; ep_PermitBinding := Some ("7", "sha256:plan"); ep_NodeUID := Some " uid-1 " |}.

Definition sample_server : Server world := {|
  sv_RequireCapabilityFencing := true;
  sv_CapabilityFenceAuthority := Some (IndependentRoot_authority {|
    ir_Mutable := clock_authority;
    ir_Root := Anchored_root {| af_path := "/d/root.jsonl"; af_anchor := Some (External_anchor sample_anchor) |} |});
  sv_Compose _ _ _ := mret (Ok sample_production) |}.

Definition sample_target : Target := {| tg_Type := "node"; tg_Name := "a" |}.

Definition at_clock (now : time) (m : world) : world :=
  {| mem_files := mem_files m; mem_open := mem_open m; mem_next := mem_next m; mem_clock := now; mem_heads := mem_heads m |}.

Definition capability_start : world := set_files (<["/d" := ""]> ∅) (empty_mem 1 NewMemoryHeadStore).

(** Two capabilities are issued, the second at the next decision. *)
Definition issue_first : result (option CapabilityFenceClaims) * world * list io_event :=
  issueExecutionCapabilityFence sample_server "i" "restart" sample_target sample_production capability_start.
Definition issue_second : result (option CapabilityFenceClaims) * world * list io_event :=
  issueExecutionCapabilityFence sample_server "i" "restart" sample_target sample_production (at_clock 2 issue_first.1.2).

Definition no_claims : CapabilityFenceClaims := {|
  cf_Version := ""; cf_AuthorityDomain := ""; cf_AuthorityTerm := 0; cf_DecisionEpoch := 0; cf_RevocationEpoch := 0;
  cf_TargetIdentity := ""; cf_StateBindingDigest := "" |}.

Definition claims_of (run : result (option CapabilityFenceClaims) * world * list io_event) : CapabilityFenceClaims :=
  match run.1.1 with Ok (Some claims) => claims | _ => no_claims end.

Definition effect_with (claims : CapabilityFenceClaims) (epoch : Z) : option error * world * list io_event :=
  revalidateExecutionCapabilityFence sample_server "i" "restart" sample_target (Some claims) (at_clock epoch issue_second.1.2).


Lemma issued_first : issue_first = (Ok (Some (claims_of issue_first)), issue_first.1.2, issue_first.2).
Proof. vm_compute. reflexivity. Qed.

Lemma issued_second : cf_DecisionEpoch (claims_of issue_first) = 1 ∧ cf_DecisionEpoch (claims_of issue_second) = 2.
Proof. vm_compute. split; reflexivity. Qed.

Lemma second_passes : effect_with (claims_of issue_second) 2 =
  (None, (effect_with (claims_of issue_second) 2).1.2, (effect_with (claims_of issue_second) 2).2).
Proof. vm_compute. reflexivity. Qed.

(** With the mutable authority back at the first decision, the first capability is
    refused, and the second passes. *)
Example turned_back_clock_refuses :
  (effect_with (claims_of issue_first) 1).1.1 = Some ErrCapabilityDecisionSuperseded ∧
  (effect_with (claims_of issue_second) 1).1.1 = None.
Proof. vm_compute. split; reflexivity. Qed.

(** With the ledger restored too, nothing passes. *)
Definition restored : world :=
  at_clock 1 (set_files (<["/d/root.jsonl" := default "" (mem_files issue_first.1.2 !! "/d/root.jsonl")]> (mem_files issue_second.1.2)) issue_second.1.2).

Example restored_ledger_refuses :
  (λ claims, option_map (λ err, errors_Is err ErrCapabilityRootRollback)
     (revalidateExecutionCapabilityFence sample_server "i" "restart" sample_target (Some claims) restored).1.1) <$>
    [claims_of issue_first; claims_of issue_second] = [Some true; Some true].
Proof. vm_compute. reflexivity. Qed.

(** * Witnesses *)

Lemma start_named : names (recorded_state sample_anchor capability_start) [].
Proof. split_and!; reflexivity. Qed.

Lemma clock_source : mutable_source (moves_in (recorded_state sample_anchor)) clock_authority.
Proof.
  assert (∀ {A} (f : Z → A), respects (moves_in (recorded_state sample_anchor)) (epoch ← Now; mret (f epoch) : IO world A)) as H.
  { intros A f x v x' t (e & x1 & t1 & t2 & [[= <- <-] ->]%silent_inv & (_ & -> & _)%ret_inv & _)%bind_inv. reflexivity. }
  split; [intros; by apply (H _ (λ epoch, Ok _))|intros; by apply (H _ (λ epoch, Ok _))|].
  intros scope x issue x' t (e & x1 & t1 & t2 & _ & (Hi & _)%ret_inv & _)%bind_inv. by injection Hi as ->.
Qed.

Lemma sample_compose intentID kind target : respects (moves_in (recorded_state sample_anchor)) (sv_Compose sample_server intentID kind target).
Proof. intros x v x' t (_ & -> & _)%ret_inv. reflexivity. Qed.

Definition sample_authority : IndependentRootCapabilityAuthority world := {|
  ir_Mutable := clock_authority;
  ir_Root := Anchored_root {| af_path := "/d/root.jsonl"; af_anchor := Some (External_anchor sample_anchor) |} |}.

Lemma sample_fenced : fenced_server (moves_in (recorded_state sample_anchor)) (ledger_collision (recorded_state sample_anchor)) sample_server sample_authority.
Proof.
  split; [reflexivity|reflexivity| |exact clock_source|exact sample_compose].
  by apply (root_contract_holds (External_anchor sample_anchor) _ _).
Qed.

Lemma issued_second_run : issue_second = (Ok (Some (claims_of issue_second)), issue_second.1.2, issue_second.2).
Proof. vm_compute. reflexivity. Qed.

Lemma between_runs : moves_in (recorded_state sample_anchor) issue_first.1.2 (at_clock 2 issue_second.1.2).
Proof.
  etrans; [by apply (same_heads sample_anchor issue_first.1.2 (at_clock 2 issue_first.1.2))|].
  etrans; [|by apply (same_heads sample_anchor issue_second.1.2 (at_clock 2 issue_second.1.2))].
  eapply rooted_later; [apply sample_fenced|]. eapply accepted_rooted; [exact sample_fenced|].
  exact (accepted_issue _ "i" "restart" sample_target _ _ _ _ sample_production issued_second_run).
Qed.

Example superseded_capability_refused_witness :
  snapshot_le (claims_snapshot (claims_of issue_first)) (claims_snapshot (claims_of issue_second)) ∨
  ∃ more rs1 rs2, names (recorded_state sample_anchor (effect_with (claims_of issue_second) 2).1.2) ([] ++ more) ∧
    read_ledger issue_first.2 rs1 ∧ read_ledger (effect_with (claims_of issue_second) 2).2 rs2 ∧
    chain_collision ([] ++ more) (rs1 ++ rs2).
Proof.
  exact (superseded_capability_refused sample_anchor "/d/root.jsonl" clock_authority sample_server eq_refl eq_refl clock_source sample_compose
    "i" "restart" sample_target (claims_of issue_first) capability_start issue_first.1.2 issue_first.2
    (claims_of issue_second) (at_clock 2 issue_second.1.2) (effect_with (claims_of issue_second) 2).1.2 (effect_with (claims_of issue_second) 2).2
    [] start_named (accepted_issue _ _ _ _ _ _ _ _ sample_production issued_first) between_runs
    (accepted_effect _ _ _ _ _ _ _ _ second_passes)).
Defined.

(** One record, and the next. *)
Definition first_record : capabilityRootRecord := next_record [] "external-head:root-1" (sha256_digest "scope") (clock_snapshot 1).

Lemma first_ledger : valid_ledger [first_record].
Proof. apply (valid_append []); [constructor|]. vm_compute. reflexivity. Qed.

Example appended_ledger_read_back_witness :
  let record := next_record [first_record] "external-head:root-1" (sha256_digest "scope") (clock_snapshot 2) in
  records_of (text_of (marshal_record <$> [first_record]) +:+ (marshal_record record +:+ nl), None) = Ok [first_record; record] ∧
  latestCapabilityRootSnapshot [first_record; record] (sha256_digest "scope") = Some (clock_snapshot 2).
Proof.
  apply (appended_ledger_read_back [first_record] "external-head:root-1" (sha256_digest "scope") (clock_snapshot 2)).
  - exact first_ledger.
  - repeat constructor; try (vm_compute; reflexivity); vm_compute; intuition discriminate.
  - repeat constructor; vm_compute; reflexivity.
  - vm_compute. reflexivity.
  - reflexivity.
  - vm_compute. reflexivity.
  - intros p [= <-]. reflexivity.
  - vm_compute. reflexivity.
  - vm_compute. reflexivity.
  - split_and!; [reflexivity|discriminate|discriminate].
  - split; [reflexivity|]. repeat constructor; vm_compute; intuition discriminate.
  - intros s Hs. vm_compute in Hs. injection Hs as <-. vm_compute. reflexivity.
  - vm_compute. reflexivity.
Defined.

(** A domain that is not UTF-8 is taken, and makes the ledger unreadable: the line
    holds the escaped replacement character, which the next read decodes and hashes
    as the character itself. *)
Definition broken_snapshot : CapabilityAuthoritySnapshot :=
  {| cu_AuthorityDomain := String "255" ""; cu_AuthorityTerm := 1; cu_DecisionEpoch := 1; cu_RevocationEpoch := 0 |}.

Definition sample_scope : CapabilityFenceScope := {| cs_IntentID := "i"; cs_Kind := "restart"; cs_Target := sample_target |}.

Example broken_domain_bricks_root :
  let run := Root_Advance sample_root sample_scope broken_snapshot capability_start in
  run.1.1 = Ok broken_snapshot ∧
  (match (Root_Current sample_root sample_scope run.1.2).1.1 with
   | Error err => errors_Is err ErrCapabilityRootCorrupt | Ok _ => false end) = true.
Proof. vm_compute. split; reflexivity. Qed.
