(* ===== verification/Replay.v ===== *)
(** * Execution claims

    Models [internal/server/replay.go]: the life of an execution capability in a
    directory that processes share.  Per authorization there is a claim marker and
    a finalization marker, each created exclusively, and a record of the state,
    created exclusively by [Issue] and replaced atomically afterwards. *)

From S2P Require Import Prelude Crypto Format Json Base64 Unmarshal Permit JournalEntry FileSystem KernelAbi Workload Linux.
From S2P Require Decision.
Local Open Scope Z_scope.

Abbreviation Authorization := Decision.Authorization.

Definition ErrExecutionReplay : error := ErrNew "authorization was already claimed for execution".
Definition ErrExecutionClaimNotFound : error := ErrNew "execution claim state was not found".
Definition ErrExecutionClaimTransition : error := ErrNew "execution claim state transition is invalid".

Definition ExecutionClaimRecordVersion : string := "aegis.ege/execution-claim/v0alpha1".

Definition ExecutionClaimIssued : string := "ISSUED".
Definition ExecutionClaimClaimed : string := "CLAIMED".
Definition ExecutionClaimConsumed : string := "CONSUMED".
Definition ExecutionClaimAborted : string := "ABORTED".

Record ExecutionClaimRecord : Type := {
  ec_Version : string; ec_State : string; ec_ActionID : string; ec_Target : string; ec_AuthorityDomain : string;
  ec_AuthorityTerm : Z; ec_DecisionEpoch : Z; ec_RevocationEpoch : Z; ec_TargetIdentity : string; ec_StateBindingDigest : string;
  ec_Outcome : string; ec_Reason : string }.

Record FileReplayGuard : Type := { rg_dir : string }.

(** * Records *)

Definition claim_fields (r : ExecutionClaimRecord) : list (string * option json) :=
  [string_field "version" (ec_Version r); string_field "state" (ec_State r); string_field "action_id" (ec_ActionID r);
   string_field "target" (ec_Target r); ("authority_domain", omit_string (ec_AuthorityDomain r));
   ("authority_term", omit_number (ec_AuthorityTerm r)); ("decision_epoch", omit_number (ec_DecisionEpoch r));
   ("revocation_epoch", omit_number (ec_RevocationEpoch r)); ("target_identity", omit_string (ec_TargetIdentity r));
   ("state_binding_digest", omit_string (ec_StateBindingDigest r)); ("outcome", omit_string (ec_Outcome r));
   ("reason", omit_string (ec_Reason r))].

(** [json.Marshal], which cannot fail here. *)
Definition marshal_claim (r : ExecutionClaimRecord) : string := encode (object (claim_fields r)).

Section Setters.
Context (r : ExecutionClaimRecord).
Definition set_claim_Version x := let '(Build_ExecutionClaimRecord _ b c d e f g h i j k l) := r in Build_ExecutionClaimRecord x b c d e f g h i j k l.
Definition set_claim_State x := let '(Build_ExecutionClaimRecord a _ c d e f g h i j k l) := r in Build_ExecutionClaimRecord a x c d e f g h i j k l.
Definition set_claim_ActionID x := let '(Build_ExecutionClaimRecord a b _ d e f g h i j k l) := r in Build_ExecutionClaimRecord a b x d e f g h i j k l.
Definition set_claim_Target x := let '(Build_ExecutionClaimRecord a b c _ e f g h i j k l) := r in Build_ExecutionClaimRecord a b c x e f g h i j k l.
Definition set_claim_AuthorityDomain x := let '(Build_ExecutionClaimRecord a b c d _ f g h i j k l) := r in Build_ExecutionClaimRecord a b c d x f g h i j k l.
Definition set_claim_AuthorityTerm x := let '(Build_ExecutionClaimRecord a b c d e _ g h i j k l) := r in Build_ExecutionClaimRecord a b c d e x g h i j k l.
Definition set_claim_DecisionEpoch x := let '(Build_ExecutionClaimRecord a b c d e f _ h i j k l) := r in Build_ExecutionClaimRecord a b c d e f x h i j k l.
Definition set_claim_RevocationEpoch x := let '(Build_ExecutionClaimRecord a b c d e f g _ i j k l) := r in Build_ExecutionClaimRecord a b c d e f g x i j k l.
Definition set_claim_TargetIdentity x := let '(Build_ExecutionClaimRecord a b c d e f g h _ j k l) := r in Build_ExecutionClaimRecord a b c d e f g h x j k l.
Definition set_claim_StateBindingDigest x := let '(Build_ExecutionClaimRecord a b c d e f g h i _ k l) := r in Build_ExecutionClaimRecord a b c d e f g h i x k l.
Definition set_claim_Outcome x := let '(Build_ExecutionClaimRecord a b c d e f g h i j _ l) := r in Build_ExecutionClaimRecord a b c d e f g h i j x l.
Definition set_claim_Reason x := let '(Build_ExecutionClaimRecord a b c d e f g h i j k _) := r in Build_ExecutionClaimRecord a b c d e f g h i j k x.
End Setters.

Definition claim_struct : list (struct_field ExecutionClaimRecord) :=
  [on_field "version" ec_Version (λ x r, set_claim_Version r x) decode_string;
   on_field "state" ec_State (λ x r, set_claim_State r x) decode_string;
   on_field "action_id" ec_ActionID (λ x r, set_claim_ActionID r x) decode_string;
   on_field "target" ec_Target (λ x r, set_claim_Target r x) decode_string;
   on_field "authority_domain" ec_AuthorityDomain (λ x r, set_claim_AuthorityDomain r x) decode_string;
   on_field "authority_term" ec_AuthorityTerm (λ x r, set_claim_AuthorityTerm r x) decode_uint64;
   on_field "decision_epoch" ec_DecisionEpoch (λ x r, set_claim_DecisionEpoch r x) decode_uint64;
   on_field "revocation_epoch" ec_RevocationEpoch (λ x r, set_claim_RevocationEpoch r x) decode_uint64;
   on_field "target_identity" ec_TargetIdentity (λ x r, set_claim_TargetIdentity r x) decode_string;
   on_field "state_binding_digest" ec_StateBindingDigest (λ x r, set_claim_StateBindingDigest r x) decode_string;
   on_field "outcome" ec_Outcome (λ x r, set_claim_Outcome r x) decode_string;
   on_field "reason" ec_Reason (λ x r, set_claim_Reason r x) decode_string].

Definition zero_claim : ExecutionClaimRecord := Build_ExecutionClaimRecord "" "" "" "" "" 0 0 0 "" "" "" "".

Definition decode_claim : string → result ExecutionClaimRecord := Unmarshal claim_struct zero_claim.

Definition unsupported_version (version : string) : error := ErrNew ("unsupported execution claim record version " +:+ version).

Definition newExecutionClaimRecord (auth : Authorization) (state : string) : ExecutionClaimRecord := {|
  ec_Version := ExecutionClaimRecordVersion; ec_State := state; ec_ActionID := Decision.az_ActionID auth;
  ec_Target := Decision.az_Target auth; ec_AuthorityDomain := Decision.az_AuthorityDomain auth;
  ec_AuthorityTerm := Decision.az_AuthorityTerm auth; ec_DecisionEpoch := Decision.az_DecisionEpoch auth;
  ec_RevocationEpoch := Decision.az_RevocationEpoch auth; ec_TargetIdentity := Decision.az_TargetIdentity auth;
  ec_StateBindingDigest := Decision.az_StateBindingDigest auth; ec_Outcome := ""; ec_Reason := "" |}.

Definition validateExecutionClaimRecord (record : ExecutionClaimRecord) (auth : Authorization) : option error :=
  if negb (str_eqb (ec_Version record) ExecutionClaimRecordVersion) then Some (unsupported_version (ec_Version record))
  else guard_err
    (negb (str_eqb (ec_ActionID record) (Decision.az_ActionID auth)) || negb (str_eqb (ec_Target record) (Decision.az_Target auth)) ||
     negb (str_eqb (ec_AuthorityDomain record) (Decision.az_AuthorityDomain auth)) ||
     negb (ec_AuthorityTerm record =? Decision.az_AuthorityTerm auth) || negb (ec_DecisionEpoch record =? Decision.az_DecisionEpoch auth) ||
     negb (ec_RevocationEpoch record =? Decision.az_RevocationEpoch auth) ||
     negb (str_eqb (ec_TargetIdentity record) (Decision.az_TargetIdentity auth)) ||
     negb (str_eqb (ec_StateBindingDigest record) (Decision.az_StateBindingDigest auth)))
    (ErrDetail ErrExecutionClaimTransition "persisted claim binding does not match authorization").

(** The record with a new state and detail. *)
Definition moved_claim (state outcome reason : string) (r : ExecutionClaimRecord) : ExecutionClaimRecord := {|
  ec_Version := ec_Version r; ec_State := state; ec_ActionID := ec_ActionID r; ec_Target := ec_Target r;
  ec_AuthorityDomain := ec_AuthorityDomain r; ec_AuthorityTerm := ec_AuthorityTerm r; ec_DecisionEpoch := ec_DecisionEpoch r;
  ec_RevocationEpoch := ec_RevocationEpoch r; ec_TargetIdentity := ec_TargetIdentity r;
  ec_StateBindingDigest := ec_StateBindingDigest r; ec_Outcome := outcome; ec_Reason := reason |}.

(** * Paths *)

(** The structure has no tags: its members have the names of the fields. *)
Definition replay_key_fields (auth : Authorization) : list (string * option json) :=
  [string_field "ActionID" (Decision.az_ActionID auth); string_field "Action" (Decision.az_Action auth);
   string_field "Target" (Decision.az_Target auth); string_field "ResourceVersion" (Decision.az_ResourceVersion auth);
   string_field "EvidenceDigest" (Decision.az_EvidenceDigest auth); string_field "PlanDigest" (Decision.az_PlanDigest auth);
   string_field "AuthorityDomain" (Decision.az_AuthorityDomain auth); number_field "AuthorityTerm" (Decision.az_AuthorityTerm auth);
   number_field "DecisionEpoch" (Decision.az_DecisionEpoch auth); number_field "RevocationEpoch" (Decision.az_RevocationEpoch auth);
   string_field "TargetIdentity" (Decision.az_TargetIdentity auth); string_field "StateBindingDigest" (Decision.az_StateBindingDigest auth);
   string_field "ValidUntil" (rfc3339nano (Decision.az_ValidUntil auth))].

Definition authorizationReplayKey (auth : Authorization) : string := hex_encode (sha256 (encode (object (replay_key_fields auth)))).

Definition statePath (g : FileReplayGuard) (key : string) : string := filepath_Join (rg_dir g) (key +:+ ".state.json").
Definition claimPath (g : FileReplayGuard) (key : string) : string := filepath_Join (rg_dir g) (key +:+ ".claimed").
Definition finalizePath (g : FileReplayGuard) (key : string) : string := filepath_Join (rg_dir g) (key +:+ ".finalized").

(** * Operations *)

Section Operations.
Context {X : Type} `{!GoWorld X, !FileSystem X, !LinuxSystem X}.
Implicit Types (g : FileReplayGuard) (auth : Authorization).

Definition NewFileReplayGuard (dir : string) : IO X (result FileReplayGuard) :=
  if str_eqb dir "" then mret (Error (ErrNew "replay guard directory is required"))
  else
    check (MkdirAll dir) (ErrWrap "create replay guard directory") (
    check (ChmodPath dir) (ErrWrap "secure replay guard directory") (
    mret (Ok {| rg_dir := dir |}))).

Definition syncDirectory (dir : string) : IO X (option error) :=
  r ← OpenFile dir ReadOnly;
  match r with Error err => mret (Some err) | Ok f => err ← Sync f; _ ← Close f; mret err end.

Definition readExecutionClaimRecord (path : string) : IO X (result ExecutionClaimRecord) :=
  try (ReadFile path) unwrapped (λ payload,
  mret (match decode_claim payload with
        | Error err => Error (ErrWrap "decode execution claim state" err)
        | Ok record =>
            if negb (str_eqb (ec_Version record) ExecutionClaimRecordVersion) then Error (unsupported_version (ec_Version record))
            else Ok record
        end)).

(** [writeNewExecutionClaimRecord] *)
Definition writeNewExecutionClaimRecord (path : string) (record : ExecutionClaimRecord) : IO X (result unit) :=
  try (OpenFile path CreateExclusive) unwrapped (λ f,
  check_close f (Write f (marshal_claim record +:+ nl)) unwrapped (
  check_close f (Sync f) unwrapped (
  check (Close f) unwrapped (mret (Ok tt))))).

(** The body after the temporary file exists, which is removed, under its name,
    when the body returns. *)
Definition replace_claim (dir path : string) (payload : string) (f : file) : IO X (result unit) :=
  check_close f (Chmod f) unwrapped (
  check_close f (Write f (payload +:+ nl)) unwrapped (
  check_close f (Sync f) unwrapped (
  check (Close f) unwrapped (
  check (Rename (file_Name f) path) unwrapped (
  check (syncDirectory dir) unwrapped (mret (Ok tt))))))).

Definition writeExecutionClaimRecordAtomic (dir path : string) (record : ExecutionClaimRecord) : IO X (result unit) :=
  try (CreateTemp dir ".claim-state-*") unwrapped (λ f,
  r ← replace_claim dir path (marshal_claim record) f; _ ← Remove (file_Name f); mret r).

(** [if err := m; err != nil { return wrap(err) }] as the last step. *)
Definition check_result (m : IO X (result unit)) (wrap : error → error) : IO X (result unit) := try m wrap (λ _, mret (Ok tt)).

(** An existing issue of the same capability is no error. *)
Definition issue_existing g auth : IO X (result unit) :=
  try (readExecutionClaimRecord (statePath g (authorizationReplayKey auth))) (ErrWrap "read existing issued execution capability") (λ existing,
  mret (match validateExecutionClaimRecord existing auth with
        | Some err => Error err
        | None => if str_eqb (ec_State existing) ExecutionClaimIssued then Ok tt else Error ErrExecutionReplay
        end)).

Definition Issue g auth : IO X (result unit) :=
  check ctxErr unwrapped (
  let key := authorizationReplayKey auth in
  err ← Stat (claimPath g key);
  match err with
  | None => mret (Error ErrExecutionReplay)
  | Some err =>
      if negb (os_IsNotExist err) then mret (Error (ErrWrap "inspect execution claim marker" err))
      else
        r ← writeNewExecutionClaimRecord (statePath g key) (newExecutionClaimRecord auth ExecutionClaimIssued);
        match r with
        | Error err => if negb (os_IsExist err) then mret (Error (ErrWrap "issue execution capability" err)) else issue_existing g auth
        | Ok _ => check (syncDirectory (rg_dir g)) (ErrWrap "sync issued execution capability directory") (mret (Ok tt))
        end
  end).

(** A marker is written and synced with its directory once it is created. *)
Definition write_marker (dir what data : string) (f : file) (k : IO X (result unit)) : IO X (result unit) :=
  check_close f (Write f data) (ErrWrap ("write execution " +:+ what +:+ " marker")) (
  check_close f (Sync f) (ErrWrap ("sync execution " +:+ what +:+ " marker")) (
  check (Close f) (ErrWrap ("close execution " +:+ what +:+ " marker")) (
  check (syncDirectory dir) (ErrWrap ("sync execution " +:+ what +:+ " marker directory")) k))).

(** The state after the marker exists: issued, or -- for callers that never
    issue -- none. *)
Definition claim_state g auth : IO X (result unit) :=
  let path := statePath g (authorizationReplayKey auth) in
  let persist record := check_result (writeExecutionClaimRecordAtomic (rg_dir g) path record) (ErrWrap "persist claimed execution capability") in
  r ← readExecutionClaimRecord path;
  match r with
  | Ok record =>
      match validateExecutionClaimRecord record auth with
      | Some err => mret (Error err)
      | None =>
          if negb (str_eqb (ec_State record) ExecutionClaimIssued) then mret (Error ErrExecutionReplay)
          else persist (moved_claim ExecutionClaimClaimed "" "" record)
      end
  | Error err =>
      if os_IsNotExist err then persist (newExecutionClaimRecord auth ExecutionClaimClaimed)
      else mret (Error (ErrWrap "read execution claim state" err))
  end.

Definition Claim g auth : IO X (result unit) :=
  check ctxErr unwrapped (
  r ← OpenFile (claimPath g (authorizationReplayKey auth)) CreateExclusive;
  match r with
  | Error err => mret (Error (if os_IsExist err then ErrExecutionReplay else ErrWrap "claim execution authorization" err))
  | Ok marker => write_marker (rg_dir g) "claim" (Decision.az_ActionID auth +:+ nl) marker (claim_state g auth)
  end).

(** ** Finalization *)

Definition marker_value (state detail : string) : string := state +:+ nl +:+ detail +:+ nl.

(** From the marker on: the recorded state becomes terminal, or is so already. *)
Definition finalize_state g auth (state detail : string) : IO X (result unit) :=
  let path := statePath g (authorizationReplayKey auth) in
  try (readExecutionClaimRecord path) (ErrWrap "read execution claim state for finalization") (λ record,
  match validateExecutionClaimRecord record auth with
  | Some err => mret (Error err)
  | None =>
      if str_eqb (ec_State record) state then
        mret (if str_eqb state ExecutionClaimConsumed && str_eqb (ec_Outcome record) detail then Ok tt
              else if str_eqb state ExecutionClaimAborted && str_eqb (ec_Reason record) detail then Ok tt
              else Error ErrExecutionClaimTransition)
      else if negb (str_eqb (ec_State record) ExecutionClaimClaimed) then mret (Error ErrExecutionClaimTransition)
      else
        let persist outcome reason :=
          check_result (writeExecutionClaimRecordAtomic (rg_dir g) path (moved_claim state outcome reason record))
            (ErrWrap "persist terminal execution claim state") in
        if str_eqb state ExecutionClaimConsumed then persist detail ""
        else if str_eqb state ExecutionClaimAborted then persist "" detail
        else mret (Error ErrExecutionClaimTransition)
  end).

Definition finalize g auth (state detail : string) : IO X (result unit) :=
  check ctxErr unwrapped (
  let markerPath := finalizePath g (authorizationReplayKey auth) in
  r ← OpenFile markerPath CreateExclusive;
  match r with
  | Error err =>
      if os_IsExist err then
        try (ReadFile markerPath) (ErrWrap "read execution finalization marker") (λ payload,
        if negb (str_eqb payload (marker_value state detail)) then mret (Error ErrExecutionClaimTransition)
        else finalize_state g auth state detail)
      else mret (Error (ErrWrap "create execution finalization marker" err))
  | Ok marker => write_marker (rg_dir g) "finalization" (marker_value state detail) marker (finalize_state g auth state detail)
  end).

Definition Consume g auth (outcome : string) : IO X (result unit) := finalize g auth ExecutionClaimConsumed (TrimSpace outcome).

Definition Abort g auth (reason : string) : IO X (result unit) :=
  if str_eqb (TrimSpace reason) "" then mret (Error (ErrDetail ErrExecutionClaimTransition "abort reason is required"))
  else finalize g auth ExecutionClaimAborted (TrimSpace reason).

(** A marker without a record is a claim of before there were records. *)
Definition State g auth : IO X (result ExecutionClaimRecord) :=
  check ctxErr unwrapped (
  let key := authorizationReplayKey auth in
  r ← readExecutionClaimRecord (statePath g key);
  match r with
  | Ok record => mret (match validateExecutionClaimRecord record auth with Some err => Error err | None => Ok record end)
  | Error err =>
      if negb (os_IsNotExist err) then mret (Error err)
      else
        markerErr ← Stat (claimPath g key);
        mret (match markerErr with
              | None => Ok (newExecutionClaimRecord auth ExecutionClaimClaimed)
              | Some markerErr => if negb (os_IsNotExist markerErr) then Error markerErr else Error ErrExecutionClaimNotFound
              end)
  end).
End Operations.
