(* ===== verification/ReplayLaws.v ===== *)
(** * One claim, one outcome

    What the markers of [Replay.v] guarantee among processes that share the
    directory.  The rules: a marker that exists stays, and once it holds a text the
    text stays; a file that this process created exclusively is written by no other.
    The records beside the markers may be written by anyone. *)

From S2P Require Import Prelude Crypto Format Json Base64 Unmarshal Permit JournalEntry FileSystem KernelAbi Workload Linux Replay.
From S2P Require Decision LifecycleLaws.
Local Open Scope Z_scope.

Abbreviation ends := LifecycleLaws.ends.

Definition is_marker (path : string) : Prop := ends ".claimed" path ∨ ends ".finalized" path.

(** The content of a marker is written once. *)
Definition grows (a b : option string) : Prop := a = b ∨ a = None ∨ (a = Some "" ∧ is_Some b).

#[export] Instance grows_preorder : PreOrder grows.
Proof. split; [by left|]. unfold grows. intros a b c. naive_solver. Qed.

Lemma grows_exists a b : grows (Some a) b → is_Some b.
Proof. unfold grows. naive_solver. Qed.

Lemma grows_written a b : a ≠ "" → grows (Some a) b → b = Some a.
Proof. unfold grows. naive_solver. Qed.

Lemma grows_None a : grows a None → a = None.
Proof. unfold grows. intros [?|[?|[_ []]]]; [done..|discriminate]. Qed.

Section Rules.
Context {X : Type} (marker : X → string → option string) (own : X → string → Prop).

Definition later (x x' : X) : Prop := ∀ path, is_marker path → grows (marker x path) (marker x' path).

(** The same, with the files of ours untouched. *)
Definition quiet (x x' : X) : Prop := later x x' ∧ ∀ path, own x path → own x' path ∧ marker x' path = marker x path.

#[export] Instance later_preorder : PreOrder later.
Proof. unfold later. split; [intros x path _; reflexivity|intros x y z H1 H2 path Hp; etrans; eauto]. Qed.

#[export] Instance quiet_preorder : PreOrder quiet.
Proof.
  split; [intros x; by split|]. intros x y z [H1 H2] [H3 H4]. split; [by etrans|]. intros path Hp.
  destruct (H2 path Hp) as [Hy Ey]. destruct (H4 path Hy) as [Hz Ez]. split; [done|congruence].
Qed.
End Rules.

Class ReplayLaws (X : Type) `{!GoWorld X, !FileSystem X, !LinuxSystem X} : Type := {
  marker : X → string → option string;
  own : X → string → Prop;
  ctx_Err_rule x a x' : ctx_Err x = (a, x') → quiet marker own x x';
  Stat_rule path x a x' : os_Stat path x = (a, x') → quiet marker own x x';
  Sync_rule f x a x' : file_Sync f x = (a, x') → quiet marker own x x';
  Close_rule f x a x' : file_Close f x = (a, x') → quiet marker own x x';
  Chmod_rule f x a x' : file_Chmod f x = (a, x') → quiet marker own x x';
  (** a read meets the content of one moment *)
  ReadFile_rule path x a x' : os_ReadFile path x = (a, x') → quiet marker own x x' ∧
    ∀ data, a = Ok data → is_marker path → grows (marker x path) (Some data) ∧ grows (Some data) (marker x' path);
  (** an exclusive creation of a marker meets none, and the marker is ours, empty *)
  OpenFile_rule path flags x a x' : os_OpenFile path flags x = (a, x') → quiet marker own x x' ∧
    ∀ f, a = Ok f → file_Name f = path ∧
      (flags = CreateExclusive → is_marker path → marker x path = None ∧ marker x' path = Some "" ∧ own x' path);
  CreateTemp_rule dir x a x' : os_CreateTemp dir ".claim-state-*" x = (a, x') → quiet marker own x x' ∧
    ∀ f, a = Ok f → ¬ is_marker (file_Name f);
  Rename_rule from to x a x' : os_Rename from to x = (a, x') → ¬ is_marker from → ¬ is_marker to → quiet marker own x x';
  Remove_rule path x a x' : os_Remove path x = (a, x') → ¬ is_marker path → quiet marker own x x';
  Write_rule f data x a x' : file_Write f data x = (a, x') → ¬ is_marker (file_Name f) → quiet marker own x x';
  (** a file of ours is written by us *)
  Write_own f data x a x' : file_Write f data x = (a, x') → own x (file_Name f) → marker x (file_Name f) = Some "" →
    later marker x x' ∧ (a = None → marker x' (file_Name f) = Some data) }.

(** * Paths *)

Lemma replay_paths g auth : rg_dir g ≠ "" → ∃ base,
  claimPath g (authorizationReplayKey auth) = base +:+ ".claimed" ∧ finalizePath g (authorizationReplayKey auth) = base +:+ ".finalized" ∧
  statePath g (authorizationReplayKey auth) = base +:+ ".state.json".
Proof.
  intros Hd. destruct (LifecycleLaws.join_name _ Hd) as [pre Hpre]. unfold claimPath, finalizePath, statePath, authorizationReplayKey.
  eexists (pre +:+ hex_encode _). rewrite !Hpre by (apply LifecycleLaws.plain_hex; [done|cbn; lia]). by rewrite !string_app_assoc.
Qed.

Lemma claimPath_marker g auth : rg_dir g ≠ "" → is_marker (claimPath g (authorizationReplayKey auth)).
Proof. intros (base & -> & _)%(replay_paths g auth). left. by exists base. Qed.

Lemma finalizePath_marker g auth : rg_dir g ≠ "" → is_marker (finalizePath g (authorizationReplayKey auth)).
Proof. intros (base & _ & -> & _)%(replay_paths g auth). right. by exists base. Qed.

Lemma statePath_no_marker g auth : rg_dir g ≠ "" → ¬ is_marker (statePath g (authorizationReplayKey auth)).
Proof.
  intros (base & _ & _ & ->)%(replay_paths g auth) [[b Hb]|[b Hb]];
    apply (f_equal LifecycleLaws.last_char) in Hb; by rewrite !LifecycleLaws.last_char_app in Hb.
Qed.

Section Runs.
Context {X : Type} `{!GoWorld X, !FileSystem X, !LinuxSystem X, !ReplayLaws X}.

Abbreviation gentle := (respects (quiet marker own)).

Lemma gentle_ret {A} (a : A) : gentle (mret a : IO X A).
Proof. apply respects_ret, _. Qed.

Lemma quiet_later x x' : quiet marker own x x' → later marker x x'.
Proof. by intros [? _]. Qed.

Ltac gentle_step :=
  match goal with
  | |- ∀ _, _ => intros ?
  | |- respects _ (match ?x with _ => _ end) => destruct x
  | |- respects _ (mret _) => apply gentle_ret
  | |- respects _ (check _ _ _) => apply respects_check; [apply _|..]
  | |- respects _ (check_close _ _ _ _) => apply respects_check_close; [apply _|apply respects_call; by apply Close_rule|..]
  | |- respects _ (check_result _ _) => apply respects_try; [apply _|..]
  | |- respects _ (try _ _ _) => apply respects_try; [apply _|..]
  | |- respects _ (Stat _) => apply respects_call; by apply Stat_rule
  | |- respects _ (Sync _) => apply respects_call; by apply Sync_rule
  | |- respects _ (Close _) => apply respects_call; by apply Close_rule
  | |- respects _ (Chmod _) => apply respects_call; by apply Chmod_rule
  | |- respects _ (ReadFile _) => apply respects_call; intros ? ? ? [? _]%ReadFile_rule; assumption
  | |- respects _ (OpenFile _ _) => apply respects_call; intros ? ? ? [? _]%OpenFile_rule; assumption
  | |- respects _ (Write _ _) => apply respects_call; intros ? ? ? ?; by eapply Write_rule
  | |- respects _ (Rename _ _) => apply respects_call; intros ? ? ? ?; by eapply Rename_rule
  | |- respects _ (Remove _) => apply respects_call; intros ? ? ? ?; by eapply Remove_rule
  | |- respects _ ctxErr => apply respects_silent; by apply ctx_Err_rule
  | |- respects _ (_ ≫= _) => apply respects_bind; [apply _|..]
  end.
Ltac gentle_tac := repeat gentle_step.

Lemma gentle_syncDirectory dir : gentle (syncDirectory dir).
Proof. unfold syncDirectory. gentle_tac. Qed.

Lemma gentle_read path : gentle (readExecutionClaimRecord path).
Proof. unfold readExecutionClaimRecord. gentle_tac. Qed.

Lemma gentle_write dir path record : ¬ is_marker path → gentle (writeExecutionClaimRecordAtomic dir path record).
Proof.
  intros Hp x r x' t. unfold writeExecutionClaimRecordAtomic.
  intros [(err & [Hc _]%call_inv & _)|(f & x1 & t1 & t2 & [Hc _]%call_inv & H & _)]%try_inv; apply CreateTemp_rule in Hc as [Hq Hf]; [done|].
  specialize (Hf f eq_refl). etrans; [exact Hq|]. revert H. generalize r.
  match goal with |- ∀ r, ?m x1 = _ → _ => assert (Hm : gentle m); [|intros v Hv; by eapply Hm] end.
  unfold replace_claim. gentle_tac. apply gentle_syncDirectory.
Qed.

Lemma gentle_claim_state g auth : rg_dir g ≠ "" → gentle (claim_state g auth).
Proof.
  intros Hd. pose proof (statePath_no_marker g auth Hd). unfold claim_state. cbv zeta.
  apply respects_bind; [apply _|apply gentle_read|]. intros [record|err]; gentle_tac; by apply gentle_write.
Qed.

Lemma gentle_finalize_state g auth state detail : rg_dir g ≠ "" → gentle (finalize_state g auth state detail).
Proof.
  intros Hd. pose proof (statePath_no_marker g auth Hd). unfold finalize_state. cbv zeta.
  apply respects_try; [apply _|apply gentle_read|]. intros record. gentle_tac; by apply gentle_write.
Qed.

(** Writing a marker of ours: on success it holds the text, and goes on to. *)
Lemma write_marker_run dir what data f k x r x' t : is_marker (file_Name f) → own x (file_Name f) → marker x (file_Name f) = Some "" →
  data ≠ "" → gentle k → write_marker dir what data f k x = (r, x', t) →
  later marker x x' ∧ (is_ok r = true → marker x' (file_Name f) = Some data).
Proof.
  intros Hm Hown Hempty Hdata Hk. unfold write_marker. intros H.
  apply check_close_inv in H as [(err & x1 & t1 & c & t2 & [Hw _]%call_inv & [Hc _]%call_inv & -> & _)|(x1 & t1 & t2 & [Hw _]%call_inv & H & _)];
    apply Write_own in Hw as [Hl Hw]; try done.
  { apply Close_rule, quiet_later in Hc. split; [by etrans|done]. }
  assert (Hq : quiet marker own x1 x').
  { revert H. generalize r. match goal with |- ∀ r, ?m x1 = _ → _ => assert (Hg : gentle m); [|intros v Hv; by eapply Hg] end.
    gentle_tac; [apply gentle_syncDirectory|done]. }
  apply quiet_later in Hq. split; [by etrans|]. intros _. specialize (Hq _ Hm). rewrite (Hw eq_refl) in Hq. by apply grows_written in Hq.
Qed.

(** * Claims *)

(** The start of an operation. *)
Lemma ctxErr_quiet x a x' t : ctxErr x = (a, x', t) → quiet marker own x x' ∧ t = [].
Proof. intros [Hc ->]%silent_inv. by apply ctx_Err_rule in Hc. Qed.

(** A marker of ours is created and written, and what follows is gentle. *)
Lemma created_marker_run dir what data path k x r x' t f : is_marker path → data ≠ "" → gentle k →
  ∀ x1, os_OpenFile path CreateExclusive x = (Ok f, x1) →
  write_marker dir what data f k x1 = (r, x', t) →
  later marker x x' ∧ marker x path = None ∧ is_Some (marker x' path) ∧ (is_ok r = true → marker x' path = Some data).
Proof.
  intros Hm Hd Hk x1 Ho Hw. apply OpenFile_rule in Ho as [Hq Hf]. destruct (Hf f eq_refl) as [Hn Hc].
  destruct (Hc eq_refl Hm) as (Hnone & Hempty & Hown). rewrite <- Hn in Hm, Hempty, Hown.
  apply write_marker_run in Hw as [Hl Hw]; [|done..]. rewrite Hn in *. apply quiet_later in Hq. split_and!; [by etrans|done| |done].
  specialize (Hl path Hm). rewrite Hempty in Hl. by eapply grows_exists.
Qed.

Lemma line_nonempty a : a +:+ nl ≠ "".
Proof. by destruct a. Qed.

(** A claim adds its marker or meets one. *)
Lemma Claim_run g auth x r x' t : rg_dir g ≠ "" → Claim g auth x = (r, x', t) → let path := claimPath g (authorizationReplayKey auth) in
  later marker x x' ∧ (∀ f, EvOpenFile path CreateExclusive (Ok f) ∈ t → is_Some (marker x' path)) ∧
  (is_ok r = true → marker x path = None ∧ ∃ f, EvOpenFile path CreateExclusive (Ok f) ∈ t).
Proof.
  intros Hd H path. pose proof (claimPath_marker g auth Hd) as Hm. unfold Claim in H.
  apply check_inv in H as [(err & [Hc ->]%ctxErr_quiet & ->)|(x1 & t1 & t2 & [Hc ->]%ctxErr_quiet & H & ->)]; apply quiet_later in Hc.
  { split_and!; [done| |done]. intros f Hf. by apply elem_of_nil in Hf. }
  apply bind_inv in H as (o & x2 & t3 & t4 & [Ho ->]%call_inv & H & ->). destruct o as [f|err].
  - pose proof (gentle_claim_state g auth Hd) as Hk.
    edestruct (created_marker_run _ _ _ _ _ _ _ _ _ _ Hm (line_nonempty _) Hk _ Ho H) as (Hl & Hnone & Hsome & _).
    split_and!; [by etrans|done|]. intros _. split; [|exists f; set_solver]. specialize (Hc _ Hm). rewrite Hnone in Hc. by apply grows_None in Hc.
  - apply ret_inv in H as (-> & -> & ->). apply OpenFile_rule in Ho as [Ho%quiet_later _]. split_and!; [by etrans| |done].
    intros f Hf. cbn in Hf. apply list_elem_of_singleton in Hf. discriminate.
Qed.

(** * Finalizations *)

(** A finalization that succeeds leaves the marker with its kind and detail. *)
Lemma finalize_run g auth state detail x r x' t : rg_dir g ≠ "" → state ≠ "" → finalize g auth state detail x = (r, x', t) →
  later marker x x' ∧ (is_ok r = true → marker x' (finalizePath g (authorizationReplayKey auth)) = Some (marker_value state detail)).
Proof.
  intros Hd Hs H. pose proof (finalizePath_marker g auth Hd) as Hm. pose proof (gentle_finalize_state g auth state detail Hd) as Hk.
  assert (Hv : marker_value state detail ≠ "") by (destruct state; [done|discriminate]). unfold finalize in H.
  apply check_inv in H as [(err & [Hc _]%ctxErr_quiet & ->)|(x1 & t1 & t2 & [Hc _]%ctxErr_quiet & H & _)]; apply quiet_later in Hc; [done|].
  apply bind_inv in H as (o & x2 & t3 & t4 & [Ho _]%call_inv & H & _). destruct o as [f|err].
  - edestruct (created_marker_run _ _ _ _ _ _ _ _ _ _ Hm Hv Hk _ Ho H) as (Hl & _ & _ & Hw). split; [by etrans|done].
  - apply OpenFile_rule in Ho as [Ho%quiet_later _]. destruct (os_IsExist err).
    2:{ apply ret_inv in H as (-> & -> & _). split; [by etrans|done]. }
    apply try_inv in H as [(e & [Hr _]%call_inv & ->)|(payload & x3 & t5 & t6 & [Hr _]%call_inv & H & _)];
      apply ReadFile_rule in Hr as [Hr%quiet_later Hdata]; [split; [by do 2 etrans|done]|].
    destruct (Hdata payload eq_refl Hm) as [_ Hg]. destruct (str_eqb payload (marker_value state detail)) eqn:E; cbn [negb] in H; [apply str_eqb_eq in E as ->|].
    2:{ apply ret_inv in H as (-> & -> & _). split; [by do 2 etrans|done]. }
    apply Hk, quiet_later in H. split; [by do 3 etrans|]. intros _. apply grows_written in Hg; [|done]. specialize (H _ Hm). rewrite Hg in H.
    by apply grows_written in H.
Qed.

(** * The other operations *)

Lemma gentle_Issue g auth : rg_dir g ≠ "" → gentle (Issue g auth).
Proof.
  intros Hd. unfold Issue. cbv zeta. apply respects_check; [apply _|gentle_tac|].
  apply respects_bind; [apply _|gentle_tac|]. intros [err|]; [|gentle_tac]. destruct (os_IsNotExist err); cbn [negb]; [|gentle_tac].
  apply respects_bind; [apply _| |].
  - intros x r x' t. unfold writeNewExecutionClaimRecord. pose proof (statePath_no_marker g auth Hd) as Hm.
    intros [(e & [Ho _]%call_inv & _)|(f & x1 & t1 & t2 & [Ho _]%call_inv & H & _)]%try_inv; apply OpenFile_rule in Ho as [Hq Hf]; [done|].
    destruct (Hf f eq_refl) as [Hn _]. rewrite <- Hn in Hm. etrans; [exact Hq|]. revert H. generalize r.
    match goal with |- ∀ r, ?m x1 = _ → _ => assert (Hg : gentle m); [|intros v Hv; by eapply Hg] end. gentle_tac.
  - intros [?|?]; unfold issue_existing; gentle_tac; solve [apply gentle_syncDirectory | apply gentle_read].
Qed.

Lemma gentle_State g auth : gentle (State g auth).
Proof. unfold State. cbv zeta. gentle_tac; apply gentle_read. Qed.
End Runs.

(** * Histories *)

(** The operations on a directory, and what others do to its markers between them. *)
Inductive replay_op : Type :=
  | OpIssue (auth : Authorization) | OpClaim (auth : Authorization) | OpConsume (auth : Authorization) (outcome : string)
  | OpAbort (auth : Authorization) (reason : string) | OpState (auth : Authorization).

(** The outcome that an operation declares: the key, the kind and the detail. *)
Definition declared (o : replay_op) : option (string * (string * string)) :=
  match o with
  | OpConsume auth outcome => Some (authorizationReplayKey auth, (ExecutionClaimConsumed, TrimSpace outcome))
  | OpAbort auth reason => Some (authorizationReplayKey auth, (ExecutionClaimAborted, TrimSpace reason))
  | _ => None
  end.

Definition claims (key : string) (o : replay_op) : Prop :=
  match o with OpClaim auth => authorizationReplayKey auth = key | _ => False end.

#[export] Instance claims_dec key o : Decision (claims key o).
Proof. destruct o; cbn; apply _. Defined.

Lemma filter_none {A} (P : A → Prop) `{!∀ a, Decision (P a)} l : Forall (λ a, ¬ P a) l → filter P l = [].
Proof. induction 1 as [|a l Ha _ IH]; [done|]. by rewrite filter_cons_False. Qed.

Section Histories.
Context {X : Type} `{!GoWorld X, !FileSystem X, !LinuxSystem X, !ReplayLaws X} (g : FileReplayGuard).

(** Whether a run succeeds. *)
Definition succeeds {A} (m : IO X (result A)) : IO X bool := r ← m; mret (is_ok r).

Definition perform (o : replay_op) : IO X bool :=
  match o with
  | OpIssue auth => succeeds (Issue g auth)
  | OpClaim auth => succeeds (Claim g auth)
  | OpConsume auth outcome => succeeds (Consume g auth outcome)
  | OpAbort auth reason => succeeds (Abort g auth reason)
  | OpState auth => succeeds (State g auth)
  end.

(** [history x l x']: from [x] to [x'], with the operations [l] and their success. *)
Inductive history : X → list (replay_op * bool) → X → Prop :=
  | history_nil x : history x [] x
  | history_others x x1 l x' : later marker x x1 → history x1 l x' → history x l x'
  | history_run x o b x1 t l x' : perform o x = (b, x1, t) → history x1 l x' → history x ((o, b) :: l) x'.

Lemma succeeds_inv {A} (m : IO X (result A)) x b x' t : succeeds m x = (b, x', t) → ∃ r, m x = (r, x', t) ∧ b = is_ok r.
Proof. intros (r & x1 & t1 & t2 & Hm & (-> & -> & ->)%ret_inv & ->)%bind_inv. exists r. by rewrite app_nil_r. Qed.

Context (Hd : rg_dir g ≠ "").

Lemma finalization o key v x b x' t : declared o = Some (key, v) → perform o x = (b, x', t) →
  later marker x x' ∧ (b = true → marker x' (finalizePath g key) = Some (marker_value v.1 v.2)).
Proof.
  destruct o as [auth|auth|auth outcome|auth reason|auth]; try done; intros [= <- <-] (r & H & ->)%succeeds_inv.
  - by apply finalize_run in H.
  - unfold Abort in H. destruct (str_eqb (TrimSpace reason) ""); [|by apply finalize_run in H]. apply ret_inv in H as (-> & -> & _). done.
Qed.

(** What is in a marker stays there. *)
Lemma perform_later o x b x' t : perform o x = (b, x', t) → later marker x x'.
Proof.
  destruct (declared o) as [[key v]|] eqn:E; [intros; by eapply finalization|].
  destruct o; try done; intros (r & H & ->)%succeeds_inv; [|by eapply Claim_run|]; apply quiet_later;
    [by eapply gentle_Issue|by eapply gentle_State].
Qed.

Lemma history_later x l x' : history x l x' → later marker x x'.
Proof. induction 1 as [x|x x1 l x' H _ IH|x o b x1 t l x' H _ IH]; [done|by etrans|]. apply perform_later in H. by etrans. Qed.

(** * Claims *)

Lemma key_claimed_once key x l x' : is_marker (claimPath g key) → history x l x' → (is_Some (marker x (claimPath g key)) → Forall (λ p, claims key p.1 → p.2 = false) l) ∧
  (length (filter (λ p, claims key p.1 ∧ p.2 = true) l) ≤ 1)%nat.
Proof.
  intros Hm. induction 1 as [x|x x1 l x' H _ [IH1 IH2]|x o b x1 t l x' H _ [IH1 IH2]]; [split; [by constructor|cbn; lia]| |].
  - split; [|done]. intros [a Ha]. apply IH1. specialize (H _ Hm). rewrite Ha in H. by apply grows_exists in H.
  - assert (is_Some (marker x (claimPath g key)) → is_Some (marker x1 (claimPath g key))) as Hstay.
    { intros [a Ha]. pose proof (perform_later _ _ _ _ _ H _ Hm) as Hg. rewrite Ha in Hg. by apply grows_exists in Hg. }
    assert (claims key o → b = true → marker x (claimPath g key) = None ∧ is_Some (marker x1 (claimPath g key))) as Hclaim.
    { destruct o as [|auth| | |]; try done. intros <- ->. apply succeeds_inv in H as (r & H & E). symmetry in E.
      apply Claim_run in H as (_ & Hs & Hr); [|done]. destruct (Hr E) as [Hnone [f Hf]]. split; [done|by eapply Hs]. }
    split.
    + intros Hs. constructor; [|by apply IH1, Hstay]. intros Hc. cbn in Hc |- *. destruct b; [|done].
      destruct (Hclaim Hc eq_refl) as [Hnone _]. rewrite Hnone in Hs. by destruct Hs.
    + rewrite filter_cons. case_decide as E; [|done]. destruct E as [Hc E]. cbn in Hc, E. subst b. destruct (Hclaim Hc eq_refl) as [_ Hs].
      rewrite filter_none; [cbn; lia|]. eapply Forall_impl; [exact (IH1 Hs)|]. intros p Hp [E1 E2]. specialize (Hp E1). congruence.
Qed.

(** * Outcomes *)

Lemma outcomes_kept auth x l x' o v : history x l x' → (o, true) ∈ l → declared o = Some (authorizationReplayKey auth, v) →
  marker x' (finalizePath g (authorizationReplayKey auth)) = Some (marker_value v.1 v.2).
Proof.
  intros H. induction H as [x|x x1 l x' _ _ IH|x o' b x1 t l x' Hrun H IH]; [by intros ?%elem_of_nil|exact IH|].
  intros [[= <- <-]|Hin]%elem_of_cons Hv; [|by apply IH]. apply (finalization _ _ _ _ _ _ _ Hv) in Hrun as [_ Hw].
  apply history_later in H. specialize (H _ (finalizePath_marker g auth Hd)). rewrite (Hw eq_refl) in H.
  apply grows_written in H; [done|]. destruct o; try done; injection Hv as _ <-; discriminate.
Qed.
End Histories.

Lemma marker_value_inj o1 o2 key1 key2 v1 v2 : declared o1 = Some (key1, v1) → declared o2 = Some (key2, v2) →
  marker_value v1.1 v1.2 = marker_value v2.1 v2.2 → v1 = v2.
Proof.
  assert (∀ state a b, marker_value state a = marker_value state b → a = b) as Hsame.
  { unfold marker_value. intros state a b [_ H]%string_app_inj; [|done]. apply string_app_inj in H as [_ H]; [|done]. by apply string_app_inj_r in H. }
  destruct o1, o2; try done; intros [= <- <-] [= <- <-] H; try discriminate H; f_equal; by eapply Hsame.
Qed.

(** * Properties *)

Section Properties.
Context {X : Type} `{!GoWorld X, !FileSystem X, !LinuxSystem X, !ReplayLaws X} (g : FileReplayGuard).

(** C23: In any history of issues, claims, completions and readings of a replay
    directory, interleaved with whatever others do that keeps its markers, at most
    one claim of an authorization succeeds -- and none does where it has been
    claimed before. *)
Theorem authorization_claimed_once auth x l x' : rg_dir g ≠ "" → history g x l x' →
  let path := claimPath g (authorizationReplayKey auth) in
  let won := filter (λ p, claims (authorizationReplayKey auth) p.1 ∧ p.2 = true) l in
  (length won ≤ 1)%nat ∧ (is_Some (marker x path) → won = []).
Proof.
  intros Hd H path won. pose proof (key_claimed_once g Hd _ _ _ _ (claimPath_marker g auth Hd) H) as [H1 H2]. split; [done|].
  intros Hs. apply filter_none. eapply Forall_impl; [exact (H1 Hs)|]. intros p Hp [E1 E2]. specialize (Hp E1). congruence.
Qed.

(** C24: All completions of an authorization that succeed, in any such history, are
    of one kind -- consumed or aborted -- and give one outcome or reason, up to
    surrounding space. *)
Theorem execution_has_one_outcome auth x l x' o1 o2 v1 v2 : rg_dir g ≠ "" → history g x l x' →
  (o1, true) ∈ l → (o2, true) ∈ l →
  declared o1 = Some (authorizationReplayKey auth, v1) → declared o2 = Some (authorizationReplayKey auth, v2) → v1 = v2.
Proof.
  intros Hd H H1 H2 E1 E2. eapply marker_value_inj; [done..|].
  pose proof (outcomes_kept g Hd _ _ _ _ _ _ H H1 E1) as M1. pose proof (outcomes_kept g Hd _ _ _ _ _ _ H H2 E2) as M2. congruence.
Qed.
End Properties.

Section Order.
Context {X : Type} `{!GoWorld X, !FileSystem X, !LinuxSystem X} (g : FileReplayGuard) (auth : Authorization).

Definition claimed_record (record : ExecutionClaimRecord) (state detail : string) : Prop :=
  validateExecutionClaimRecord record auth = None ∧
  (ec_State record = ExecutionClaimClaimed ∨
   ec_State record = state ∧ (if str_eqb state ExecutionClaimConsumed then ec_Outcome record else ec_Reason record) = detail).

Definition reads_record (t : list io_event) (record : ExecutionClaimRecord) : Prop :=
  ∃ payload, EvReadFile (statePath g (authorizationReplayKey auth)) (Ok payload) ∈ t ∧ decode_claim payload = Ok record.

Lemma read_record_run path x r x' t : readExecutionClaimRecord path x = (r, x', t) →
  ∀ record, r = Ok record → ∃ payload, EvReadFile path (Ok payload) ∈ t ∧ decode_claim payload = Ok record.
Proof.
  intros [(e & _ & ->)|(payload & x1 & t1 & t2 & [_ ->]%call_inv & (-> & -> & ->)%ret_inv & ->)]%try_inv record; [done|].
  destruct (decode_claim payload) as [rec|] eqn:E; [|done]. destruct (negb _); [done|]. intros [= <-]. exists payload. split; [set_solver|done].
Qed.

Lemma finalize_state_order state detail x x' t : finalize_state g auth state detail x = (Ok tt, x', t) →
  ∃ record, reads_record t record ∧ claimed_record record state detail.
Proof.
  intros [(e & _ & [=])|(record & x1 & t1 & t2 & Hread & H & ->)]%try_inv.
  destruct (read_record_run _ _ _ _ _ Hread _ eq_refl) as (payload & Hp & Hdec).
  exists record. split; [exists payload; split; [set_solver|done]|]. unfold claimed_record.
  destruct (validateExecutionClaimRecord record auth) eqn:Hv; [by apply ret_inv in H as ([=] & _)|]. split; [done|].
  destruct (str_eqb (ec_State record) state) eqn:Hs.
  - apply str_eqb_eq in Hs. right. split; [done|]. apply ret_inv in H as (H & _).
    destruct (str_eqb state ExecutionClaimConsumed) eqn:Hc; [|destruct (str_eqb state ExecutionClaimAborted) eqn:Ha; [|done]]; cbn in H.
    + destruct (str_eqb (ec_Outcome record) detail) eqn:Ho; [by apply str_eqb_eq|]. apply str_eqb_eq in Hc as ->. discriminate.
    + destruct (str_eqb (ec_Reason record) detail) eqn:Ho; [by apply str_eqb_eq|discriminate].
  - destruct (str_eqb (ec_State record) ExecutionClaimClaimed) eqn:Hc; [left; by apply str_eqb_eq|]. by apply ret_inv in H as ([=] & _).
Qed.

Lemma write_marker_order dir what data f k x x' t (P : list io_event → Prop) : (∀ t1 t2, P t2 → P (t1 ++ t2)) →
  (∀ y y' t', k y = (Ok tt, y', t') → P t') → write_marker dir what data f k x = (Ok tt, x', t) → P t.
Proof.
  intros Happ Hk. unfold write_marker.
  intros [(?&?&?&?&?&_&_&[=]&_)|(?&?&?&_&H&->)]%check_close_inv. apply Happ. revert H.
  intros [(?&?&?&?&?&_&_&[=]&_)|(?&?&?&_&H&->)]%check_close_inv. apply Happ. revert H.
  intros [(?&_&[=])|(?&?&?&_&H&->)]%check_inv. apply Happ. revert H.
  intros [(?&_&[=])|(?&?&?&_&H&->)]%check_inv. apply Happ. by eapply Hk.
Qed.

(** A completion succeeds only after reading the record of this very
    authorization -- its term, epochs, target identity and state binding -- in the
    state claimed, or already in the terminal state it asks for with the same
    detail. *)
Theorem completion_follows_claim state detail x x' t : finalize g auth state detail x = (Ok tt, x', t) →
  ∃ record, reads_record t record ∧ claimed_record record state detail.
Proof.
  set (P := λ t, ∃ record, reads_record t record ∧ claimed_record record state detail).
  assert (∀ t1 t2, P t2 → P (t1 ++ t2)) as Happ.
  { intros t1 t2 (record & (payload & Hp & Hd) & Hc). exists record. split; [exists payload; split; [set_solver|done]|done]. }
  intros [(?&_&[=])|(x0&?&?&_&H&->)]%check_inv. apply Happ. cbv zeta in H.
  apply bind_inv in H as (o & x9 & t3 & t4 & _ & H & ->). apply Happ. destruct o as [f|err].
  - eapply write_marker_order; [exact Happ| |exact H]. intros y y' t'. apply finalize_state_order.
  - destruct (os_IsExist err); [|by apply ret_inv in H as ([=] & _)].
    apply try_inv in H as [(?&_&[=])|(payload&?&?&?&_&H&->)]. apply Happ.
    destruct (negb _); [by apply ret_inv in H as ([=] & _)|]. by apply finalize_state_order in H.
Qed.
End Order.
