(* ===== verification/ReplayExample.v ===== *)
(** * Claims at work

    The host of [HostMemory.v] keeps the rules of [ReplayLaws.v].  On it a capability
    is claimed, claimed again and completed twice. *)

From stdpp Require Import stringmap.
From S2P Require Import Prelude Crypto Format Json Base64 Unmarshal GoTime Permit JournalEntry FileSystem KernelAbi Workload LifecycleText Linux HostMemory MemoryFS Replay ReplayLaws.
From S2P Require Decision LifecycleLaws.
Local Open Scope Z_scope.

(** * The rules *)

Definition host_marker (h : host) (path : string) : option string := ho_files h !! path.
Definition host_own (h : host) (path : string) : Prop := is_marker path ∧ host_marker h path = Some "".

Abbreviation unmoved := (quiet host_marker host_own).

Lemma marker_no_claim path : is_marker path → is_claim path = false.
Proof.
  intros Hm. destruct (is_claim path) eqn:E; [|done]. apply has_suffix_ends in E as [a ->].
  by destruct Hm as [[b Hb]|[b Hb]]; apply (f_equal LifecycleLaws.last_char) in Hb; rewrite !LifecycleLaws.last_char_app in Hb.
Qed.

(** The markers stay, when the rest moves. *)
Lemma same_markers h h' : (∀ path, is_marker path → host_marker h' path = host_marker h path) → unmoved h h'.
Proof.
  intros Hs. split; [intros path Hp; rewrite Hs by done; reflexivity|]. intros path [Hm He]. unfold host_own. by rewrite !Hs.
Qed.

Lemma nothing_moves {A} (a a' : A) h h' : nothing a h = (a', h') → unmoved h h'.
Proof. intros [= _ <-]. reflexivity. Qed.

Lemma host_open_rule path flags h r h' : host_open path flags h = (r, h') → unmoved h h' ∧
  ∀ f, r = Ok f → file_Name f = path ∧
    (flags = CreateExclusive → is_marker path → host_marker h path = None ∧ host_marker h' path = Some "" ∧ host_own h' path).
Proof.
  intros E. destruct flags; cbn in E; try (injection E as <- <-; split; [reflexivity|by intros f [= <-]]).
  destruct (ho_files h !! path) eqn:Hp; [injection E as <- <-; by split|].
  destruct (decide _) as [Hm|Hm]; injection E as <- <-; [by split|]. split.
  - assert (∀ p, p ≠ path → host_marker (set_host_files (<[path:=""]> (ho_files h)) h) p = host_marker h p) as Hne.
    { intros p Hp'. unfold host_marker. cbn. by rewrite lookup_insert_ne. }
    split.
    + intros p _. destruct (decide (p = path)) as [->|Hn]; [|rewrite Hne by done; reflexivity].
      unfold host_marker. cbn. rewrite Hp. right. by left.
    + intros p [Hmp He]. assert (p ≠ path) as Hn by (intros ->; unfold host_marker in He; congruence). unfold host_own. by rewrite !Hne.
  - intros f [= <-]. split; [done|]. intros _ Hmp. unfold host_own, host_marker. cbn. by rewrite lookup_insert_eq.
Qed.

Lemma host_temp_rule dir h r h' : host_temp dir ".claim-state-*" h = (r, h') → unmoved h h' ∧ ∀ f, r = Ok f → ¬ is_marker (file_Name f).
Proof.
  unfold host_temp. set (path := dir +:+ _). cbv zeta.
  assert (¬ is_marker path) as Hn.
  { intros [[b Hb]|[b Hb]]; apply (f_equal LifecycleLaws.last_char) in Hb; unfold path in Hb; by rewrite !string_app_assoc, !LifecycleLaws.last_char_app in Hb. }
  destruct (ho_files h !! path); [intros [= <- <-]; by split|]. destruct (decide _); intros [= <- <-]; [by split|]. split; [|by intros f [= <-]].
  apply same_markers. intros p Hp. unfold host_marker. cbn. by rewrite lookup_insert_ne by (intros <-; done).
Qed.

Lemma host_write_rule f data h r h' : host_write f data h = (r, h') → ¬ is_marker (file_Name f) → unmoved h h'.
Proof.
  unfold host_write. intros E Hm. destruct (is_claim _); [by injection E as _ <-|].
  destruct (ho_files h !! _) eqn:Hf; injection E as _ <-; [|done]. apply same_markers. intros p Hp. unfold host_marker. cbn.
  by rewrite lookup_insert_ne by (intros <-; done).
Qed.

Lemma host_write_own f data h r h' : host_write f data h = (r, h') → host_own h (file_Name f) → host_marker h (file_Name f) = Some "" →
  later host_marker h h' ∧ (r = None → host_marker h' (file_Name f) = Some data).
Proof.
  unfold host_write. intros E [Hm _] He. rewrite marker_no_claim in E by done. unfold host_marker in He. rewrite He in E. injection E as <- <-.
  change ("" +:+ data) with data. split; [|intros _; unfold host_marker; cbn; by rewrite lookup_insert_eq]. intros p _. unfold host_marker. cbn.
  destruct (decide (p = file_Name f)) as [->|Hn]; [rewrite lookup_insert_eq, He|by rewrite lookup_insert_ne]. right. right. by split.
Qed.

Lemma host_rename_rule from to h r h' : host_rename from to h = (r, h') → ¬ is_marker from → ¬ is_marker to → unmoved h h'.
Proof.
  unfold host_rename. intros E Hf Ht. destruct (ho_files h !! from); injection E as _ <-; [|done]. apply same_markers. intros p Hp.
  unfold host_marker. cbn. rewrite lookup_insert_ne by (intros <-; done). by rewrite lookup_delete_ne by (intros <-; done).
Qed.

Lemma host_remove_rule path h r h' : host_remove path h = (r, h') → ¬ is_marker path → unmoved h h'.
Proof.
  intros [= _ <-] Hn. apply same_markers. intros p Hp. unfold host_marker. cbn. by rewrite lookup_delete_ne by (intros <-; done).
Qed.

Lemma host_read_rule path h r h' : host_read path h = (r, h') → unmoved h h' ∧
  ∀ data, r = Ok data → is_marker path → grows (host_marker h path) (Some data) ∧ grows (Some data) (host_marker h' path).
Proof.
  intros [= <- <-]. split; [reflexivity|]. unfold host_marker. intros data Hd _. destruct (ho_files h !! path); [|done]. injection Hd as ->. by split.
Qed.

#[export] Instance host_replay : ReplayLaws host.
Proof.
  refine {| marker := host_marker; own := host_own; ReadFile_rule := host_read_rule; OpenFile_rule := host_open_rule;
    CreateTemp_rule := host_temp_rule; Rename_rule := host_rename_rule; Remove_rule := host_remove_rule; Write_rule := host_write_rule;
    Write_own := host_write_own |}; intros; eapply nothing_moves; match goal with E : ?f = _ |- _ => apply E end.
Defined.

(** * Runs *)

Definition sample_auth : Authorization := {|
  Decision.az_ActionID := "act-1"; Decision.az_Action := "restart"; Decision.az_Target := "node/a"; Decision.az_ResourceVersion := "7";
  Decision.az_EvidenceDigest := "e"; Decision.az_PlanDigest := "p"; Decision.az_AuthorityDomain := "cluster"; Decision.az_AuthorityTerm := 1;
  Decision.az_DecisionEpoch := 2; Decision.az_RevocationEpoch := 3; Decision.az_TargetIdentity := "uid-1";
  Decision.az_StateBindingDigest := "s"; Decision.az_ValidUntil := 0 |}.

Definition sample_guard : FileReplayGuard := {| rg_dir := "/r" |}.

Definition replay_ops : list replay_op :=
  [OpClaim sample_auth; OpClaim sample_auth; OpConsume sample_auth "early "; OpConsume sample_auth "late";
   OpAbort sample_auth "early"; OpConsume sample_auth " early"; OpState sample_auth].

Fixpoint replay_run (ops : list replay_op) (h : host) : list (replay_op * bool) * host :=
  match ops with
  | [] => ([], h)
  | o :: ops => let '(b, h1, _) := perform sample_guard o h in let '(l, h') := replay_run ops h1 in ((o, b) :: l, h')
  end.

Definition empty_host : host := {| ho_files := ∅; ho_mine := ∅; ho_clock := 0; ho_boot := 0; ho_pid := 1; ho_exit := 0 |}.

Definition replayed : list (replay_op * bool) := (replay_run replay_ops empty_host).1.

(** One claim, and completions with the one outcome. *)
Example claims_and_outcomes : replayed.*2 = [true; false; true; false; false; true; true].
Proof. vm_compute. reflexivity. Qed.

(** An abort that is refused, the capability being unclaimed, decides the outcome
    all the same: the execution that is then claimed can never be consumed, and
    the abort of before is accepted after it. *)
Example refused_abort_decides_outcome :
  (replay_run [OpAbort sample_auth "cancelled"; OpClaim sample_auth; OpConsume sample_auth "done"; OpAbort sample_auth "cancelled"] empty_host).1.*2 =
  [false; true; false; true].
Proof. vm_compute. reflexivity. Qed.

(** * Witnesses *)

Lemma replay_run_history ops h : history sample_guard h (replay_run ops h).1 (replay_run ops h).2.
Proof.
  revert h. induction ops as [|o ops IH]; intros h; cbn [replay_run]; [constructor|].
  destruct (perform sample_guard o h) as [[b h1] t] eqn:E. specialize (IH h1). destruct (replay_run ops h1) as [l h'].
  by eapply history_run.
Qed.

Definition consumed_run : result unit * host * list io_event := finalize sample_guard sample_auth ExecutionClaimConsumed "early" (Claim sample_guard sample_auth empty_host).1.2.

Lemma consumed_ok : consumed_run = (Ok tt, consumed_run.1.2, consumed_run.2).
Proof. vm_compute. reflexivity. Qed.

Lemma replayed_ops : replayed = zip replay_ops [true; false; true; false; false; true; true].
Proof. vm_compute. reflexivity. Qed.

Lemma replayed_in i o : zip replay_ops [true; false; true; false; false; true; true] !! i = Some o → o ∈ replayed.
Proof. rewrite <- replayed_ops. apply list_elem_of_lookup_2. Qed.

Example authorization_claimed_once_witness :
  let won := filter (λ p, claims (authorizationReplayKey sample_auth) p.1 ∧ p.2 = true) replayed in
  (length won ≤ 1)%nat ∧ (is_Some (marker empty_host (claimPath sample_guard (authorizationReplayKey sample_auth))) → won = []).
Proof.
  exact (authorization_claimed_once sample_guard sample_auth empty_host replayed (replay_run replay_ops empty_host).2
    ltac:(discriminate) (replay_run_history replay_ops empty_host)).
Defined.

Example execution_has_one_outcome_witness : (ExecutionClaimConsumed, TrimSpace "early ") = (ExecutionClaimConsumed, TrimSpace " early").
Proof.
  exact (execution_has_one_outcome sample_guard sample_auth empty_host replayed (replay_run replay_ops empty_host).2
    (OpConsume sample_auth "early ") (OpConsume sample_auth " early") _ _ ltac:(discriminate) (replay_run_history replay_ops empty_host)
    (replayed_in 2 _ eq_refl) (replayed_in 5 _ eq_refl) eq_refl eq_refl).
Defined.

Example completion_follows_claim_witness :
  ∃ record, reads_record sample_guard sample_auth consumed_run.2 record ∧ claimed_record sample_auth record ExecutionClaimConsumed "early".
Proof.
  exact (completion_follows_claim sample_guard sample_auth ExecutionClaimConsumed "early" (Claim sample_guard sample_auth empty_host).1.2
    consumed_run.1.2 consumed_run.2 consumed_ok).
Defined.
