(* ===== verification/AnyJson.v ===== *)
(** * JSON without a structure

    What becomes of a text that is read into a [map[string]any] and written again:
    the members of an object are sorted by name, the last of two with one name
    wins, strings are valid UTF-8, and an integer goes through a 64-bit float.
    Within what a float holds exactly nothing is lost ([any_object_inj]). *)

From S2P Require Import Prelude Crypto Format Json Unmarshal Permit.
Local Open Scope Z_scope.

(** * Integers *)

(** The nearest float, ties to even. *)
Definition float64_of (z : Z) : Z :=
  let a := Z.abs z in
  if a <? 2 ^ 53 then z
  else
    let shift := Z.log2 a - 52 in
    let q := a / 2 ^ shift in
    let r := a mod 2 ^ shift in
    let half := 2 ^ (shift - 1) in
    let q := if (r <? half) || ((r =? half) && Z.even q) then q else q + 1 in
    Z.sgn z * (q * 2 ^ shift).

(** The shortest digits that read as the float [x], and zeros. *)
Fixpoint shortest (k : nat) (x : Z) : Z :=
  match k with
  | O => x
  | S k' =>
      let p := 10 ^ Z.of_nat k in
      let lo := x / p * p in
      let hi := lo + p in
      match float64_of lo =? x, float64_of hi =? x with
      | true, true => if x - lo <=? hi - x then lo else hi
      | true, false => lo
      | false, true => hi
      | false, false => shortest k' x
      end
  end.

Definition float_int (z : Z) : Z := let x := float64_of z in Z.sgn x * shortest 19 (Z.abs x).

Example float_samples : float_int <$> [7; -9007199254740991; 9007199254740993; 2 ^ 63 - 1; 123456789012345678] =
  [7; -9007199254740991; 9007199254740992; 9223372036854775807 + 193; 123456789012345680].
Proof. vm_compute. reflexivity. Qed.

Lemma float64_small z : Z.abs z < 2 ^ 53 → float64_of z = z.
Proof. intros H. unfold float64_of. destruct (Z.ltb_spec (Z.abs z) (2 ^ 53)); [done|lia]. Qed.

Lemma float64_large z : 2 ^ 53 ≤ z → 2 ^ 53 ≤ float64_of z.
Proof.
  intros H. unfold float64_of. rewrite Z.abs_eq by lia. destruct (Z.ltb_spec z (2 ^ 53)); [lia|]. cbv zeta.
  assert (53 ≤ Z.log2 z) as Hl by (apply Z.log2_le_pow2; lia). rewrite Z.sgn_pos by lia.
  pose proof (Z.log2_spec z ltac:(lia)) as [Hlog _].
  assert (2 ^ 52 ≤ z / 2 ^ (Z.log2 z - 52)) as Hq.
  { apply Z.div_le_lower_bound; [apply Z.pow_pos_nonneg; lia|]. rewrite <- Z.pow_add_r by lia. by replace (Z.log2 z - 52 + 52) with (Z.log2 z) by lia. }
  assert (2 ≤ 2 ^ (Z.log2 z - 52)) as Hp by (apply (Z.pow_le_mono_r 2 1); lia).
  change (2 ^ 53) with (2 ^ 52 * 2). destruct (_ || _); nia.
Qed.

Lemma shortest_small k x : 0 ≤ x < 2 ^ 53 → shortest k x = x.
Proof.
  intros Hx. induction k as [|k IH]; [done|]. cbn [shortest]. cbv zeta.
  set (p := 10 ^ Z.of_nat (S k)). assert (0 < p) as Hp by (apply Z.pow_pos_nonneg; lia).
  assert (0 ≤ x / p * p ≤ x) as Hlo by (pose proof (Z.div_mod x p ltac:(lia)); pose proof (Z.mod_pos_bound x p ltac:(lia)); pose proof (Z.div_pos x p); nia).
  assert (∀ c, 0 ≤ c → float64_of c = x → c = x) as Hc.
  { intros c Hc0 Hc. destruct (Z.lt_ge_cases c (2 ^ 53)); [rewrite float64_small in Hc; lia|].
    apply float64_large in H. lia. }
  destruct (Z.eqb_spec (float64_of (x / p * p)) x) as [H1|H1], (Z.eqb_spec (float64_of (x / p * p + p)) x) as [H2|H2]; [..|exact IH];
    try (apply Hc in H1; [|lia]); try (apply Hc in H2; [|lia]); try done. destruct (Z.leb_spec (x - x / p * p) (x / p * p + p - x)); lia.
Qed.

Lemma float_int_small z : Z.abs z < 2 ^ 53 → float_int z = z.
Proof. intros H. unfold float_int. rewrite float64_small by done. cbv zeta. rewrite shortest_small by lia. lia. Qed.

(** * Objects *)

Abbreviation named := (λ p : string * json, p.1).

Definition key_le (p q : string * json) : Prop := String.le p.1 q.1.

#[export] Instance key_le_dec p q : Decision (key_le p q).
Proof. unfold key_le. apply _. Defined.

(** The order in which the members of a map are written. *)
Definition sort_members (l : list (string * json)) : list (string * json) := merge_sort key_le l.

(** [m[k] = v] *)
Fixpoint put_member (k : string) (v : json) (l : list (string * json)) : list (string * json) :=
  match l with
  | [] => [(k, v)]
  | (k', v') :: l => if str_eqb k' k then (k, v) :: l else (k', v') :: put_member k v l
  end.

Definition put_members (l : list (string * json)) : list (string * json) := foldl (λ m p, put_member p.1 p.2 m) [] l.

Fixpoint any_json (v : json) : json :=
  match v with
  | JNull => JNull
  | JBool b => JBool b
  | JInt z => JInt (float_int z)
  | JString s => JString (coerce s)
  | JArray l => JArray (any_json <$> l)
  | JObject l => JObject (sort_members (put_members ((λ '(k, v), (coerce k, any_json v)) <$> l)))
  end.

(** The members of an object read into a map. *)
Definition any_members (l : list (string * json)) : list (string * json) := put_members ((λ '(k, v), (coerce k, any_json v)) <$> l).

Lemma any_object l : any_json (JObject l) = JObject (sort_members (any_members l)).
Proof. reflexivity. Qed.

(** A literal map, as [json.Marshal] writes it. *)
Definition map_json (l : list (string * json)) : json := JObject (sort_members l).

(** ** Sorting *)

Lemma sort_members_perm l : sort_members l ≡ₚ l.
Proof. apply merge_sort_Permutation. Qed.

Lemma perm_same_names (l k : list (string * json)) : l.*1 = k.*1 → NoDup l.*1 → l ≡ₚ k → l = k.
Proof.
  revert k. induction l as [|[n v] l IH]; intros [|[n' v'] k]; try done. cbn. intros [= <- Hn] [Hnot Hd]%NoDup_cons Hp.
  assert ((n, v) ∈ (n, v') :: k) as Hin by (rewrite <- Hp; apply elem_of_cons; by left).
  apply elem_of_cons in Hin as [[= <-]|Hin].
  - f_equal. apply IH; [done..|]. by apply Permutation_cons_inv in Hp.
  - destruct Hnot. rewrite Hn. by apply (list_elem_of_fmap_2 fst k (n, v)).
Qed.

Lemma sort_members_names l : (sort_members l).*1 = sort_strings l.*1.
Proof.
  symmetry. apply sort_strings_unique; [|by rewrite sort_members_perm].
  assert (Sorted key_le (sort_members l)) as Hs.
  { apply Sorted_merge_sort. intros p q. unfold key_le. apply (total String.le). }
  induction Hs as [|p k Hs IH Hh]; cbn; constructor; [done|]. destruct Hh; cbn; by constructor.
Qed.

(** The order of the members does not show. *)
Lemma sort_members_Permutation l k : NoDup l.*1 → l ≡ₚ k → sort_members l = sort_members k.
Proof.
  intros Hd Hp. apply perm_same_names.
  - rewrite !sort_members_names. by apply sort_strings_Permutation, fmap_Permutation.
  - by rewrite sort_members_perm.
  - by rewrite !sort_members_perm.
Qed.

Lemma sort_members_inj l k : sort_members l = sort_members k → l ≡ₚ k.
Proof. intros H. by rewrite <- (sort_members_perm l), H, sort_members_perm. Qed.

Lemma filter_sort_members (P : string * json → Prop) `{!∀ p, Decision (P p)} l : NoDup l.*1 →
  filter P (sort_members l) = sort_members (filter P l).
Proof.
  intros Hd. assert (∀ l, NoDup l.*1 → NoDup (filter P l).*1) as Hf.
  { intros k Hk. eapply sublist_NoDup; [exact Hk|]. apply fmap_sublist, sublist_filter. }
  assert (∀ k : list (string * json), Sorted key_le k → Sorted key_le (filter P k)) as Hsort.
  { intros k Hk. apply Sorted_StronglySorted in Hk; [|intros p q r; unfold key_le; apply (transitivity (R:=String.le))].
    apply StronglySorted_Sorted. induction Hk as [|p k Hk IH Hall]; [constructor|]. rewrite filter_cons. case_decide; [|done].
    constructor; [done|]. apply Forall_forall. intros q [_ Hq]%list_elem_of_filter. rewrite Forall_forall in Hall. by apply Hall. }
  apply perm_same_names.
  - rewrite sort_members_names. symmetry. apply sort_strings_unique; [|by rewrite sort_members_perm].
    assert (Sorted key_le (filter P (sort_members l))) as Hs.
    { apply Hsort, Sorted_merge_sort. intros p q. unfold key_le. apply (total String.le). }
    induction Hs as [|p k Hs IH Hh]; cbn; constructor; [done|]. destruct Hh; cbn; by constructor.
  - apply Hf. by rewrite sort_members_perm.
  - by rewrite !sort_members_perm.
Qed.

(** ** Structures in a map *)

Lemma put_member_new k v l : k ∉ l.*1 → put_member k v l = l ++ [(k, v)].
Proof.
  induction l as [|[k' v'] l IH]; [done|]. cbn. intros Hk. apply not_elem_of_cons in Hk as [Hne Hk].
  assert (str_eqb k' k = false) as -> by (by apply str_eqb_neq). by rewrite IH.
Qed.

Lemma put_members_NoDup l : NoDup l.*1 → put_members l = l.
Proof.
  intros Hd. unfold put_members. assert (∀ m, NoDup (m ++ l).*1 → foldl (λ m p, put_member p.1 p.2 m) m l = m ++ l) as H; [|by apply (H [])].
  clear Hd. induction l as [|[k v] l IH]; intros m Hd; cbn [foldl]; [by rewrite app_nil_r|].
  rewrite put_member_new; [rewrite IH; [by rewrite <- app_assoc|by rewrite <- app_assoc]|].
  rewrite fmap_app in Hd. apply NoDup_app in Hd as (_ & Hd & _). intros Hin. apply (Hd k Hin). cbn. apply elem_of_cons. by left.
Qed.

Definition any_fields (l : list (string * option json)) : list (string * option json) := (λ p : string * option json, (p.1, any_json <$> p.2)) <$> l.

Lemma any_fields_names l : (any_fields l).*1 = l.*1.
Proof. unfold any_fields. by rewrite <- list_fmap_compose. Qed.

Lemma kept_cons k o l : kept ((k, o) :: l) = match o with Some v => (k, v) :: kept l | None => kept l end.
Proof. by destruct o. Qed.

Lemma kept_NoDup l : NoDup l.*1 → NoDup (kept l).*1.
Proof.
  induction l as [|[k o] l IH]; intros Hd; [constructor|]. cbn in Hd. apply NoDup_cons in Hd as [Hn Hd]. rewrite kept_cons.
  destruct o as [v|]; [|by apply IH]. cbn. constructor; [|by apply IH]. intros ([k' v'] & -> & Hin)%list_elem_of_fmap_1. by apply elem_of_kept in Hin.
Qed.

Lemma any_members_fields l : NoDup l.*1 → Forall (λ k, utf8_valid k = true) l.*1 → any_members (kept l) = kept (any_fields l).
Proof.
  intros Hd Hu. unfold any_members. assert ((λ '(k, v), (coerce k, any_json v)) <$> kept l = kept (any_fields l)) as ->.
  { clear Hd. induction l as [|[k o] l IH]; [done|]. cbn in Hu. apply Forall_cons in Hu as [Hk Hu]. unfold any_fields. rewrite fmap_cons, !kept_cons.
    destruct o as [v|]; cbn [fmap option_fmap option_map]; [|by apply IH]. rewrite fmap_cons, (coerce_utf8 k Hk). f_equal. by apply IH. }
  apply put_members_NoDup, kept_NoDup. by rewrite any_fields_names.
Qed.

Lemma kept_perm_inj l k : NoDup l.*1 → l.*1 = k.*1 → kept l ≡ₚ kept k → l = k.
Proof.
  revert k. induction l as [|[n o] l IH]; intros [|[m p] k] Hnd Hk H; try done.
  cbn in Hnd, Hk. apply NoDup_cons in Hnd as [Hn Hnd]. injection Hk as -> Hk. rewrite !kept_cons in H. destruct o as [v|], p as [w|].
  - assert ((m, v) ∈ (m, w) :: kept k) as Hin by (rewrite <- H; apply elem_of_cons; by left).
    apply elem_of_cons in Hin as [[= <-]|Hin%elem_of_kept]; [|by destruct Hn; rewrite Hk]. f_equal. apply IH; [done..|]. by apply Permutation_cons_inv in H.
  - destruct Hn. rewrite Hk. apply (elem_of_kept m v). rewrite <- H. apply elem_of_cons. by left.
  - destruct Hn. apply (elem_of_kept m w). rewrite H. apply elem_of_cons. by left.
  - f_equal. by apply IH.
Qed.

(** Members with the names of the structure stay what they are. *)
Lemma any_object_inj l k : l.*1 = k.*1 → NoDup l.*1 → Forall (λ k, utf8_valid k = true) l.*1 →
  any_json (object l) = any_json (object k) → any_fields l = any_fields k.
Proof.
  intros Hn Hd Hu. change (any_json (object l)) with (JObject (sort_members (any_members (kept l)))).
  change (any_json (object k)) with (JObject (sort_members (any_members (kept k)))). intros [= H]. apply sort_members_inj in H.
  rewrite !any_members_fields in H by congruence. apply kept_perm_inj; by rewrite ?any_fields_names.
Qed.

(** ** What is written again is valid UTF-8 *)

Lemma coerce_valid s : utf8_valid (coerce s) = true.
Proof. apply (parse_json_utf8 (encode (JString s)) (VString (verbatim s) (coerce s))). apply parse_encode, N.le_0_l. Qed.

Definition utf8_members (l : list (string * json)) : Prop := Forall (λ p, utf8_valid p.1 = true ∧ utf8_json p.2 = true) l.

Lemma utf8_members_object l : utf8_members l ↔ utf8_json (JObject l) = true.
Proof.
  unfold utf8_members. cbn [utf8_json]. induction l as [|[k v] l IH]; [split; [done|constructor]|]. cbn [forallb].
  by rewrite Forall_cons, IH, !andb_true_iff.
Qed.

Lemma put_members_utf8 l : utf8_members l → utf8_members (put_members l).
Proof.
  unfold put_members. assert (∀ m, utf8_members m → utf8_members l → utf8_members (foldl (λ m p, put_member p.1 p.2 m) m l)) as H.
  { induction l as [|[k v] l IH]; intros m Hm Hl; [done|]. apply Forall_cons in Hl as [Hp Hl]. apply IH; [|done]. clear IH. cbn.
    induction Hm as [|[k' v'] m Hp' Hm IH]; cbn; [by constructor; [|constructor]|]. destruct (str_eqb k' k); by constructor. }
  intros Hl. by apply H; [constructor|].
Qed.

Lemma any_json_utf8 v : utf8_json (any_json v) = true.
Proof.
  induction v as [| | |s|l IH|l IH] using json_nested; [done|done|done|apply coerce_valid| |].
  - cbn. induction IH as [|v l Hv Hl IHl]; [done|]. cbn. by rewrite Hv, IHl.
  - rewrite any_object. apply utf8_members_object. unfold utf8_members. rewrite sort_members_perm. apply put_members_utf8.
    induction IH as [|[k v] l Hv Hl IHl]; [constructor|]. rewrite fmap_cons. constructor; [|done]. split; [apply coerce_valid|exact Hv].
Qed.
