(* ===== verification/Approval.v ===== *)
(** * Approvals

    Models [internal/ege/approval.go] and [approval_verifier.go], and of
    [permit.go] the Ed25519 authority: attestations by which approvers sign what
    they approve, the references by which a permit names them, and the issue and
    verification of a permit with its approvals.  PEM and X.509 parsing is not
    modelled. *)

From S2P Require Import Prelude Crypto Format Json Base64 Evidence Permit FileSystem Journal Document.
Local Open Scope Z_scope.

Definition ApprovalVersion : string := "aegis.ege/approval/v0alpha1".

Record ApprovalClaims : Type := {
  al_ApprovalID : string; al_IntentID : string; al_ApproverID : string; al_Kind : string; al_Target : Target; al_Action : string;
  al_ResourceVersion : string; al_PlanDigest : string; al_ValidUntil : time }.

Record ApprovalAttestation : Type := {
  aa_APIVersion : string; aa_KeyID : string; aa_Claims : ApprovalClaims; aa_Signature : string }.

#[export] Instance ApprovalClaims_eq_dec : EqDecision ApprovalClaims.
Proof. solve_decision. Defined.
#[export] Instance ApprovalAttestation_eq_dec : EqDecision ApprovalAttestation.
Proof. solve_decision. Defined.

(** * Texts *)

Definition string_member (name value : string) : string * option json := (name, Some (JString value)).

Definition approval_fields (c : ApprovalClaims) (valid_until : json) : list (string * option json) :=
  [string_member "approval_id" (al_ApprovalID c); string_member "intent_id" (al_IntentID c);
   string_member "approver_id" (al_ApproverID c); string_member "kind" (al_Kind c); ("target", Some (target_json (al_Target c)));
   string_member "action" (al_Action c); string_member "resource_version" (al_ResourceVersion c);
   string_member "plan_digest" (al_PlanDigest c); ("valid_until", Some valid_until)].

Definition attestation_fields (a : ApprovalAttestation) (valid_until : json) : list (string * option json) :=
  [string_member "api_version" (aa_APIVersion a); string_member "key_id" (aa_KeyID a);
   ("claims", Some (object (approval_fields (aa_Claims a) valid_until))); string_member "signature" (aa_Signature a)].

Definition approval_domain : string := "aegis-ege/approval-attestation/v0alpha1" +:+ nul.

(** An instant is written in UTC, so that the normalisations of the source show no
    more. *)
Definition canonicalApprovalPayload (claims : ApprovalClaims) : result string :=
  match time_json (al_ValidUntil claims) with
  | Error err => Error (ErrWrap "marshal approval claims" err)
  | Ok valid_until => Ok (approval_domain +:+ encode (object (approval_fields claims valid_until)))
  end.

Definition ApprovalRef (approval : ApprovalAttestation) : result string :=
  match time_json (al_ValidUntil (aa_Claims approval)) with
  | Error err => Error (ErrWrap "marshal approval attestation" err)
  | Ok valid_until => Ok (json_digest (object (attestation_fields approval valid_until)))
  end.

Definition validateApprovalClaims (claims : ApprovalClaims) : option error :=
  if str_eqb (al_ApprovalID claims) "" then Some (ErrNew "approval_id is required")
  else if str_eqb (al_IntentID claims) "" then Some (ErrNew "intent_id is required")
  else if str_eqb (al_ApproverID claims) "" then Some (ErrNew "approver_id is required")
  else if str_eqb (al_Kind claims) "" then Some (ErrNew "kind is required")
  else if str_eqb (tg_Type (al_Target claims)) "" || str_eqb (tg_Name (al_Target claims)) ""
  then Some (ErrNew "approval target is required")
  else if str_eqb (al_Action claims) "" then Some (ErrNew "approval action is required")
  else if str_eqb (al_ResourceVersion claims) "" then Some (ErrNew "approval resource_version is required")
  else if str_eqb (al_PlanDigest claims) "" then Some (ErrNew "approval plan_digest is required")
  else guard_err (IsZero (al_ValidUntil claims)) (ErrNew "approval valid_until is required").

(** The comparisons of [ValidateApprovalForPermit]. *)
Definition approval_mismatch (a : ApprovalClaims) (claims : PermitClaims) (now : time) : option error :=
  if negb (IsZero now) && (al_ValidUntil a <? now) then Some (ErrNew "approval expired")
  else if negb (str_eqb (al_IntentID a) (pc_IntentID claims)) then Some (ErrNew "approval intent mismatch")
  else if negb (str_eqb (al_Kind a) (pc_Kind claims)) then Some (ErrNew "approval kind mismatch")
  else if negb (bool_decide (al_Target a = pc_Target claims)) then Some (ErrNew "approval target mismatch")
  else if negb (str_eqb (al_Action a) (pc_Action claims)) then Some (ErrNew "approval action mismatch")
  else if negb (str_eqb (al_ResourceVersion a) (pc_ResourceVersion claims)) then Some (ErrNew "approval resource version mismatch")
  else guard_err (negb (str_eqb (al_PlanDigest a) (pc_PlanDigest claims))) (ErrNew "approval plan digest mismatch").

Definition with_ApprovalRefs (refs : list string) (c : PermitClaims) : PermitClaims := {|
  pc_IntentID := pc_IntentID c; pc_Kind := pc_Kind c; pc_Target := pc_Target c; pc_Action := pc_Action c;
  pc_ResourceVersion := pc_ResourceVersion c; pc_EvidenceDigest := pc_EvidenceDigest c;
  pc_EvidenceManifestDigest := pc_EvidenceManifestDigest c; pc_EvidencePacketDigest := pc_EvidencePacketDigest c;
  pc_PlanDigest := pc_PlanDigest c; pc_ApprovalRefs := refs; pc_ExecutionBinding := pc_ExecutionBinding c;
  pc_EBAContextProfile := pc_EBAContextProfile c; pc_EBATraceID := pc_EBATraceID c; pc_EBAAudience := pc_EBAAudience c;
  pc_EBANamespace := pc_EBANamespace c; pc_EBAAssumptionRefs := pc_EBAAssumptionRefs c; pc_EBAAuthorityRef := pc_EBAAuthorityRef c;
  pc_CapabilityFence := pc_CapabilityFence c; pc_ValidUntil := pc_ValidUntil c |}.

(** * Signing and verification *)

Section Approvals.
Context {W : Type}.
Implicit Types (authority : option (PermitAuthority W)) (verifier : option (SignatureVerifier W)).

Definition SignApproval authority (claims : ApprovalClaims) : M W authority_event (result ApprovalAttestation) :=
  match authority with
  | None => mret (Error (ErrNew "approval authority is required"))
  | Some authority =>
      check (mret (validateApprovalClaims claims)) unwrapped (
      try (mret (canonicalApprovalPayload claims)) unwrapped (λ payload,
      try (call (ESign payload) (pa_Sign authority payload)) (ErrWrap "sign approval attestation") (λ '(keyID, signature),
      mret (Ok {| aa_APIVersion := ApprovalVersion; aa_KeyID := keyID; aa_Claims := claims; aa_Signature := base64_encode signature |}))))
  end.

Definition VerifyApproval verifier (approval : ApprovalAttestation) : M W authority_event (option error) :=
  match verifier with
  | None => mret (Some (ErrNew "approval authority is required"))
  | Some authority =>
      if negb (str_eqb (aa_APIVersion approval) ApprovalVersion)
      then mret (Some (ErrNew ("unsupported approval version " +:+ aa_APIVersion approval)))
      else if str_eqb (aa_KeyID approval) "" || str_eqb (aa_Signature approval) ""
      then mret (Some (ErrNew "approval key_id and signature are required"))
      else match validateApprovalClaims (aa_Claims approval) with
      | Some err => mret (Some err)
      | None =>
          match base64_decode (aa_Signature approval) with
          | Error err => mret (Some (ErrWrap "decode approval signature" err))
          | Ok signature =>
              match canonicalApprovalPayload (aa_Claims approval) with
              | Error err => mret (Some err)
              | Ok payload => call (EVerify (aa_KeyID approval) payload signature) (sv_Verify authority (aa_KeyID approval) payload signature)
              end
          end
      end
  end.

Definition ValidateApprovalForPermit verifier (approval : ApprovalAttestation) (claims : PermitClaims) (now : time)
    : M W authority_event (option error) :=
  err ← VerifyApproval verifier approval;
  mret (match err with
        | Some err => Some (ErrWrap "verify approval" err)
        | None => approval_mismatch (aa_Claims approval) claims now
        end).

(** The loop; [refs] are the references so far, in any order. *)
Fixpoint approval_refs verifier (approvals : list ApprovalAttestation) (claims : PermitClaims) (now : time) (refs : list string)
    : M W authority_event (result (list string)) :=
  match approvals with
  | [] => mret (Ok refs)
  | approval :: approvals =>
      check (ValidateApprovalForPermit verifier approval claims now) unwrapped (
      try (mret (ApprovalRef approval)) unwrapped (λ ref,
      if bool_decide (ref ∈ refs) then mret (Error (ErrNew "duplicate approval attestation"))
      else approval_refs verifier approvals claims now (refs ++ [ref])))
  end.

Definition validatedApprovalRefs verifier (approvals : list ApprovalAttestation) (claims : PermitClaims) (now : time)
    : M W authority_event (result (list string)) :=
  try (approval_refs verifier approvals claims now []) unwrapped (λ refs, mret (Ok (sort_strings refs))).

Definition SignPermitWithApprovals authority verifier (claims : PermitClaims) (approvals : list ApprovalAttestation) (now : time)
    : M W authority_event (result Permit) :=
  try (validatedApprovalRefs verifier approvals claims now) unwrapped (λ refs, SignPermit authority (with_ApprovalRefs refs claims)).

Definition VerifyPermitWithApprovals (permitVerifier verifier : option (SignatureVerifier W)) (permit : Permit)
    (approvals : list ApprovalAttestation) (now : time) : M W authority_event (option error) :=
  err ← VerifyPermit permitVerifier permit;
  match err with
  | Some err => mret (Some err)
  | None =>
      r ← validatedApprovalRefs verifier approvals (pm_Claims permit) now;
      mret (match r with
            | Error err => Some err
            | Ok refs =>
                guard_err (negb (bool_decide (refs = sort_strings (pc_ApprovalRefs (pm_Claims permit)))))
                  (ErrNew "approval reference set mismatch")
            end)
  end.
End Approvals.

(** * Ed25519 *)

Section Ed25519.
Context {X : Type} `{!GoWorld X, !Ed25519}.

Record Ed25519PublicKeyVerifier : Type := { ev_keyID : string; ev_publicKey : string }.

Record Ed25519Authority : Type := { ea_keyID : string; ea_privateKey : string; ea_publicKey : string }.

(** The first twelve bytes of the key's SHA-256. *)
Definition ed25519_key_id (publicKey : string) : string := "ed25519:" +:+ hex_encode (String.substring 0 12 (sha256 publicKey)).

Definition NewEd25519PublicKeyVerifier (publicKey : string) : result Ed25519PublicKeyVerifier :=
  if is_public_key publicKey then Ok {| ev_keyID := ed25519_key_id publicKey; ev_publicKey := publicKey |}
  else Error (ErrNew ("invalid Ed25519 public key length " +:+ pretty (Z.of_nat (String.length publicKey)))).

Definition Ed25519PublicKeyVerifier_KeyID (v : option Ed25519PublicKeyVerifier) : string :=
  match v with None => "" | Some v => ev_keyID v end.

(** [ctx.Err], then the key, then the signature. *)
Definition ed25519_check (unavailable unknown failed : option error) (publicKey payload signature : string) (x : X) : option error * X :=
  let '(err, x) := ctx_Err x in
  (match err with
   | Some err => Some err
   | None =>
       match unavailable, unknown with
       | Some err, _ => Some err
       | None, Some err => Some err
       | None, None => if ed25519_Verify publicKey payload signature then None else failed
       end
   end, x).

Definition Ed25519PublicKeyVerifier_Verify (v : option Ed25519PublicKeyVerifier) : SignatureVerifier X := {|
  sv_Verify keyID payload signature :=
    let unavailable := Some (ErrNew "Ed25519 approval verifier is unavailable") in
    match v with
    | None => ed25519_check unavailable None None "" payload signature
    | Some v =>
        ed25519_check (if is_public_key (ev_publicKey v) then None else unavailable)
          (guard_err (negb (str_eqb keyID (ev_keyID v))) (ErrNew ("unknown Ed25519 approval key " +:+ keyID)))
          (Some (ErrNew "Ed25519 approval signature verification failed")) (ev_publicKey v) payload signature
    end |}.

Definition Ed25519Authority_Sign (a : Ed25519Authority) (payload : string) (x : X) : result (string * string) * X :=
  let '(err, x) := ctx_Err x in
  (match err with Some err => Error err | None => Ok (ea_keyID a, ed25519_Sign (ea_privateKey a) payload) end, x).

Definition Ed25519Authority_Verify (a : Ed25519Authority) : SignatureVerifier X := {|
  sv_Verify keyID payload signature :=
    ed25519_check None (guard_err (negb (str_eqb keyID (ea_keyID a))) (ErrNew ("unknown EGE permit key " +:+ keyID)))
      (Some (ErrNew "EGE permit signature verification failed")) (ea_publicKey a) payload signature |}.

(** It is a [PermitAuthority]. *)
Definition Ed25519Authority_authority (a : Ed25519Authority) : PermitAuthority X := {|
  pa_Sign := Ed25519Authority_Sign a; pa_Verifier := Ed25519Authority_Verify a |}.
End Ed25519.

(** * Texts determine what they are of *)

Definition attestation_strings (a : ApprovalAttestation) : list string :=
  let c := aa_Claims a in
  [aa_APIVersion a; aa_KeyID a; al_ApprovalID c; al_IntentID c; al_ApproverID c; al_Kind c; tg_Type (al_Target c); tg_Name (al_Target c);
   al_Action c; al_ResourceVersion c; al_PlanDigest c; aa_Signature a].

Definition attestation_utf8 (a : ApprovalAttestation) : Prop := Forall (λ s, utf8_valid s = true) (attestation_strings a).

Lemma attestation_utf8_object a t : attestation_utf8 a → utf8_json t = true → utf8_json (object (attestation_fields a t)) = true.
Proof.
  unfold attestation_utf8, attestation_strings. intros Ha Ht. split_Forall.
  unfold attestation_fields, approval_fields, target_json, object, string_member. cbn -[utf8_valid utf8_json]. cbn [utf8_json forallb]. rewrite Ht.
  repeat match goal with H : utf8_valid _ = true |- _ => rewrite H; clear H end. reflexivity.
Qed.

Lemma approval_fields_inj a b t u : object (approval_fields a t) = object (approval_fields b u) →
  t = u ∧ (al_ValidUntil a = al_ValidUntil b → a = b).
Proof.
  destruct a as [? ? ? ? [] ? ? ? ?], b as [? ? ? ? [] ? ? ? ?]. unfold approval_fields, string_member. simpl. intros H.
  object_fields H. subst. split; [done|]. by intros ->.
Qed.

Lemma attestation_fields_inj a b t u : object (attestation_fields a t) = object (attestation_fields b u) →
  t = u ∧ (al_ValidUntil (aa_Claims a) = al_ValidUntil (aa_Claims b) → a = b).
Proof.
  destruct a as [? ? c ?], b as [? ? d ?]. unfold attestation_fields, string_member. cbn [aa_APIVersion aa_KeyID aa_Claims aa_Signature].
  intros H. apply object_inj in H; [|reflexivity|apply (bool_decide_unpack _); vm_compute; reflexivity].
  assert (object (approval_fields c t) = object (approval_fields d u)) as Hc by congruence. apply approval_fields_inj in Hc as [-> Hc].
  split; [done|]. intros Hv. specialize (Hc Hv). congruence.
Qed.

(** A reference names one attestation. *)
Lemma ApprovalRef_inj a b ref : attestation_utf8 a → attestation_utf8 b → ApprovalRef a = Ok ref → ApprovalRef b = Ok ref →
  a = b ∨ ∃ p q, sha256_collision p q.
Proof.
  unfold ApprovalRef. intros Ha Hb.
  destruct (time_json (al_ValidUntil (aa_Claims a))) as [t|] eqn:Hta; [|done]. destruct (time_json (al_ValidUntil (aa_Claims b))) as [u|] eqn:Htb; [|done].
  apply time_json_Ok in Hta as [Hya ->], Htb as [Hyb ->]. intros <-%Ok_inj H%Ok_inj. symmetry in H.
  apply json_digest_inj in H as [H|H]; [|by right; eauto|by apply attestation_utf8_object, rfc3339nano_utf8..].
  left. apply attestation_fields_inj in H as [H Heq]. apply Heq. apply rfc3339nano_inj; congruence.
Qed.

(** * What is approved *)

Definition approves (a : ApprovalClaims) (c : PermitClaims) (now : time) : Prop :=
  al_IntentID a = pc_IntentID c ∧ al_Kind a = pc_Kind c ∧ al_Target a = pc_Target c ∧ al_Action a = pc_Action c ∧
  al_ResourceVersion a = pc_ResourceVersion c ∧ al_PlanDigest a = pc_PlanDigest c ∧ (now = 0 ∨ now ≤ al_ValidUntil a).

Lemma approval_mismatch_None a c now : approval_mismatch a c now = None ↔ approves a c now.
Proof.
  unfold approval_mismatch, approves, IsZero, guard_err.
  destruct (Z.eqb_spec now 0), (Z.ltb_spec (al_ValidUntil a) now); cbn [negb andb];
    try (split; [done|intros (_ & _ & _ & _ & _ & _ & ?); lia]);
    (destruct (str_eqb (al_IntentID a) _) eqn:E1; split_bool; cbn [negb]; [|naive_solver]);
    (destruct (str_eqb (al_Kind a) _) eqn:E2; split_bool; cbn [negb]; [|naive_solver]);
    (destruct (decide (al_Target a = pc_Target c)) as [E3|E3]; [rewrite (bool_decide_true _ E3)|rewrite (bool_decide_false _ E3)]; cbn [negb]; [|naive_solver]);
    (destruct (str_eqb (al_Action a) _) eqn:E4; split_bool; cbn [negb]; [|naive_solver]);
    (destruct (str_eqb (al_ResourceVersion a) _) eqn:E5; split_bool; cbn [negb]; [|naive_solver]);
    (destruct (str_eqb (al_PlanDigest a) _) eqn:E6; split_bool; cbn [negb]; [|naive_solver]); split; auto 10.
Qed.

(** * Runs *)

Section Runs.
Context {W : Type} (authority : SignatureVerifier W).

(** An attestation that the authority accepted, for these claims. *)
Definition accepted (c : PermitClaims) (now : time) (a : ApprovalAttestation) : Prop :=
  validateApprovalClaims (aa_Claims a) = None ∧ approves (aa_Claims a) c now ∧
  ∃ payload signature x x', canonicalApprovalPayload (aa_Claims a) = Ok payload ∧ base64_decode (aa_Signature a) = Ok signature ∧
    sv_Verify authority (aa_KeyID a) payload signature x = (None, x').

Lemma VerifyApproval_inv a w w' t : VerifyApproval (Some authority) a w = (None, w', t) →
  aa_APIVersion a = ApprovalVersion ∧ aa_KeyID a ≠ "" ∧ aa_Signature a ≠ "" ∧ validateApprovalClaims (aa_Claims a) = None ∧
  ∃ payload signature x x', canonicalApprovalPayload (aa_Claims a) = Ok payload ∧ base64_decode (aa_Signature a) = Ok signature ∧
    sv_Verify authority (aa_KeyID a) payload signature x = (None, x').
Proof. unfold VerifyApproval. intros H. run_monad. split_bool. split_and!; try done. eauto 10. Qed.

Lemma ValidateApproval_inv a c now w w' t : ValidateApprovalForPermit (Some authority) a c now w = (None, w', t) → accepted c now a.
Proof.
  intros (err & w1 & t1 & t2 & Hv & (Hm & -> & ->)%ret_inv & ->)%bind_inv. destruct err; [done|].
  symmetry in Hm. apply approval_mismatch_None in Hm. apply VerifyApproval_inv in Hv as (_ & _ & _ & Hc & Hp). by split_and!.
Qed.

Lemma approval_refs_inv c now approvals : ∀ refs w out w' t, approval_refs (Some authority) approvals c now refs w = (Ok out, w', t) →
  ∃ new, out = refs ++ new ∧ Forall2 (λ a ref, accepted c now a ∧ ApprovalRef a = Ok ref) approvals new ∧ NoDup new ∧ (∀ ref, ref ∈ new → ref ∉ refs).
Proof.
  induction approvals as [|a approvals IH]; intros refs w out w' t; cbn [approval_refs].
  - intros ([= ->] & _)%ret_inv. exists []. rewrite app_nil_r. split_and!; [done|constructor|constructor|by intros ? ?%elem_of_nil].
  - intros [(? & _ & [=])|(w1 & t1 & t2 & Ha%ValidateApproval_inv & H & ->)]%check_inv.
    apply try_inv in H as [(? & _ & [=])|(ref & w2 & t3 & t4 & (Hr & -> & ->)%ret_inv & H & ->)]. symmetry in Hr.
    case_bool_decide as Hin; [by apply ret_inv in H as ([=] & _)|]. apply IH in H as (new & -> & Hf & Hn & Hd).
    exists (ref :: new). rewrite <- app_assoc. split_and!; [done|by constructor| |].
    + constructor; [|done]. intros Hx%Hd. set_solver.
    + intros r [->|Hx]%elem_of_cons; [done|]. apply Hd in Hx. set_solver.
Qed.

Lemma validatedApprovalRefs_inv c now approvals w refs w' t : validatedApprovalRefs (Some authority) approvals c now w = (Ok refs, w', t) →
  ∃ new, refs = sort_strings new ∧ Forall2 (λ a ref, accepted c now a ∧ ApprovalRef a = Ok ref) approvals new ∧ NoDup new.
Proof.
  intros [(? & _ & [=])|(out & w2 & t3 & t4 & H & ([= ->] & _)%ret_inv & _)]%try_inv.
  apply approval_refs_inv in H as (new & -> & Hf & Hn & _). by exists new.
Qed.
End Runs.

(** What [VerifyPermitWithApprovals] found when it accepts. *)
Definition approval_set {W} (authority : SignatureVerifier W) (permit : Permit) (now : time) (approvals : list ApprovalAttestation) : Prop :=
  ∃ refs, Forall2 (λ a ref, accepted authority (pm_Claims permit) now a ∧ ApprovalRef a = Ok ref) approvals refs ∧ NoDup refs ∧
    pc_ApprovalRefs (pm_Claims permit) ≡ₚ refs.

Lemma VerifyPermitWithApprovals_inv {W} permitVerifier (authority : SignatureVerifier W) permit approvals now w w' t :
  VerifyPermitWithApprovals permitVerifier (Some authority) permit approvals now w = (None, w', t) →
  (∃ w1 t1, VerifyPermit permitVerifier permit w = (None, w1, t1)) ∧ approval_set authority permit now approvals.
Proof.
  intros (err & w1 & t1 & t2 & Hp & H & ->)%bind_inv. destruct err as [err|]; [by apply ret_inv in H as ([=] & _)|].
  split; [by eauto|]. apply bind_inv in H as (r & w2 & t3 & t4 & Hr & (H & _)%ret_inv & _). destruct r as [refs|]; [|done].
  apply validatedApprovalRefs_inv in Hr as (new & -> & Hf & Hn). unfold guard_err in H. case_bool_decide as E; [|done].
  exists new. split_and!; [done..|]. by rewrite <- (sort_strings_perm new), E, sort_strings_perm.
Qed.

(** References that agree up to order name the same attestations up to order. *)
Lemma same_references : ∀ approvals refs approvals' refs', Forall2 (λ a ref, ApprovalRef a = Ok ref) approvals refs →
  Forall2 (λ a ref, ApprovalRef a = Ok ref) approvals' refs' → Forall attestation_utf8 approvals → Forall attestation_utf8 approvals' →
  refs ≡ₚ refs' → approvals ≡ₚ approvals' ∨ ∃ p q, sha256_collision p q.
Proof.
  intros approvals refs approvals' refs' H. revert approvals' refs'. induction H as [|a ref approvals refs Ha H IH]; intros approvals' refs' H' Hu Hu' Hp.
  { apply Permutation_nil_l in Hp as <-. apply Forall2_nil_inv_r in H' as ->. by left. }
  assert (ref ∈ refs') as Hin by (rewrite <- Hp; apply elem_of_cons; by left).
  apply list_elem_of_split in Hin as (l1 & l2 & ->). apply Forall2_app_inv_r in H' as (k1 & k & H1 & H2 & ->).
  apply Forall2_cons_inv_r in H2 as (a' & k2 & Ha' & H2 & ->). apply Forall_cons in Hu as [Hua Hu]. apply Forall_app in Hu' as [Hu1 Hu2].
  apply Forall_cons in Hu2 as [Hua' Hu2]. rewrite <- Permutation_middle in Hp |- *. apply Permutation_cons_inv in Hp.
  destruct (ApprovalRef_inj a a' ref Hua Hua' Ha Ha') as [<-|]; [|by right].
  destruct (IH (k1 ++ k2) (l1 ++ l2)) as [He|]; [by apply Forall2_app|done|by apply Forall_app|done| |by right]. left. by rewrite He.
Qed.

(** * Properties *)


(** ** Issue *)

Section Issue.
Context {W : Type} (verifier : SignatureVerifier W).

(** A verifier whose answers do not change. *)
Definition answers_again : Prop := ∀ k p s x x' y, sv_Verify verifier k p s x = (None, x') → (sv_Verify verifier k p s y).1 = None.

Lemma validate_again a c c' now now' w w' t y : answers_again → ValidateApprovalForPermit (Some verifier) a c now w = (None, w', t) →
  approves (aa_Claims a) c' now' → ∃ y' u, ValidateApprovalForPermit (Some verifier) a c' now' y = (None, y', u).
Proof.
  intros Hagain (err & w1 & t1 & t2 & Hv & (Hm & -> & ->)%ret_inv & ->)%bind_inv Hok. destruct err; [done|]. clear Hm.
  apply VerifyApproval_inv in Hv as (Hver & Hk%str_eqb_neq & Hs%str_eqb_neq & Hc & payload & signature & x & x' & Hp & Hb & Hsig).
  unfold ValidateApprovalForPermit, VerifyApproval. rewrite Hver, str_eqb_refl, Hk, Hs, Hc, Hb, Hp. cbn [negb orb].
  specialize (Hagain _ _ _ _ _ y Hsig). unfold call, mbind, M_bind. destruct (sv_Verify _ _ _ _ y) as [err y'] eqn:E. cbn in Hagain. subst err.
  apply approval_mismatch_None in Hok. rewrite Hok. cbn. by eauto.
Qed.

(** The attestations of an issue, and their references. *)
Definition validated (c : PermitClaims) (now : time) (a : ApprovalAttestation) (ref : string) : Prop :=
  ApprovalRef a = Ok ref ∧ ∃ w w' t, ValidateApprovalForPermit (Some verifier) a c now w = (None, w', t).

Lemma approval_refs_validated c now approvals : ∀ refs w out w' t, approval_refs (Some verifier) approvals c now refs w = (Ok out, w', t) →
  ∃ new, out = refs ++ new ∧ Forall2 (validated c now) approvals new.
Proof.
  induction approvals as [|a approvals IH]; intros refs w out w' t; cbn [approval_refs].
  - intros ([= ->] & _)%ret_inv. exists []. by rewrite app_nil_r.
  - intros [(? & _ & [=])|(w1 & t1 & t2 & Ha & H & ->)]%check_inv.
    apply try_inv in H as [(? & _ & [=])|(ref & w2 & t3 & t4 & (Hr & -> & ->)%ret_inv & H & ->)]. symmetry in Hr.
    case_bool_decide as Hin; [by apply ret_inv in H as ([=] & _)|]. apply IH in H as (new & -> & Hf).
    exists (ref :: new). rewrite <- app_assoc. split; [done|]. constructor; [|done]. split; [done|]. by eauto.
Qed.

Lemma approval_refs_again c c' now now' : answers_again → ∀ approvals new refs y, Forall2 (validated c now) approvals new →
  Forall (λ a, approves (aa_Claims a) c' now') approvals → NoDup (refs ++ new) →
  ∃ y' t, approval_refs (Some verifier) approvals c' now' refs y = (Ok (refs ++ new), y', t).
Proof.
  intros Hagain. induction approvals as [|a approvals IH]; intros new refs y Hf Hok Hn; cbn [approval_refs].
  - apply Forall2_nil_inv_l in Hf as ->. rewrite app_nil_r. by repeat eexists.
  - apply Forall2_cons_inv_l in Hf as (ref & new' & (Hr & w & w' & t & Hv) & Hf & ->). apply Forall_cons in Hok as [Ha Hok].
    destruct (validate_again _ _ c' _ now' _ _ _ y Hagain Hv Ha) as (y1 & u1 & Hrun).
    destruct (IH new' (refs ++ [ref]) y1 Hf Hok) as (y2 & u2 & Hrest); [by rewrite <- app_assoc|].
    unfold check, try, mbind at 1, M_bind at 1. rewrite Hrun. unfold mbind at 1, M_bind at 1. rewrite Hr. cbn.
    rewrite bool_decide_false. 2: { intros Hin. apply NoDup_app in Hn as (_ & Hn & _). apply (Hn ref Hin), elem_of_cons. by left. }
    rewrite Hrest, <- app_assoc. by repeat eexists.
Qed.
End Issue.

Lemma validated_permutation {W} (verifier : SignatureVerifier W) c now approvals refs approvals' :
  Forall2 (validated verifier c now) approvals refs → approvals ≡ₚ approvals' →
  ∃ refs', Forall2 (validated verifier c now) approvals' refs' ∧ refs ≡ₚ refs'.
Proof.
  intros Hf Hp. revert refs Hf. induction Hp as [|a k l _ IH|a b l|k l m _ IH1 _ IH2]; intros refs Hf.
  - apply Forall2_nil_inv_l in Hf as ->. by exists [].
  - apply Forall2_cons_inv_l in Hf as (r & rs & Hr & Hf & ->). destruct (IH rs Hf) as (rs' & Hf' & Hp). exists (r :: rs'). split; [by constructor|by rewrite Hp].
  - apply Forall2_cons_inv_l in Hf as (r & rs & Hr & Hf & ->). apply Forall2_cons_inv_l in Hf as (q & qs & Hq & Hf & ->).
    exists (q :: r :: qs). split; [by repeat (apply Forall2_cons; split)|apply Permutation_swap].
  - destruct (IH1 refs Hf) as (rs & Hf' & Hp). destruct (IH2 rs Hf') as (rs' & Hf2 & Hp'). exists rs'. split; [done|by rewrite Hp].
Qed.

Lemma sort_strings_idem l : sort_strings (sort_strings l) = sort_strings l.
Proof. apply sort_strings_Permutation, sort_strings_perm. Qed.

(** What [SignPermitWithApprovals] issues verifies, with its approvals in any
    order, as long as all of them are in force: at an authority that accepts its own
    signatures, and a verifier of approvals that accepts again what it accepted. *)
Theorem approved_permit_verifies {W} (authority : PermitAuthority W) (verifier : SignatureVerifier W)
    (Haccepts : ∀ p w k s w', pa_Sign authority p w = (Ok (k, s), w') →
      k ≠ "" ∧ s ≠ "" ∧ ∀ w1, (sv_Verify (pa_Verifier authority) k p s w1).1 = None)
    (Hagain : answers_again verifier) claims approvals now permit w w' t :
  SignPermitWithApprovals (Some authority) (Some verifier) claims approvals now w = (Ok permit, w', t) →
  (∃ refs, Forall2 (λ a ref, ApprovalRef a = Ok ref) approvals refs ∧ pm_Claims permit = with_ApprovalRefs (sort_strings refs) claims) ∧
  ∀ approvals' now' w1, approvals' ≡ₚ approvals → now' = 0 ∨ Forall (λ a, now' ≤ al_ValidUntil (aa_Claims a)) approvals →
    (VerifyPermitWithApprovals (Some (pa_Verifier authority)) (Some verifier) permit approvals' now' w1).1.1 = None.
Proof.
  unfold SignPermitWithApprovals, validatedApprovalRefs. intros H.
  apply try_inv in H as [(? & _ & [=])|(refs & w2 & t1 & t2 & H & Hsign & ->)].
  apply try_inv in H as [(? & _ & [=])|(out & w3 & t3 & t4 & Hrun & ([= ->] & -> & ->)%ret_inv & ->)].
  pose proof Hrun as Hrun'. apply approval_refs_validated in Hrun as (new & -> & Hf).
  apply approval_refs_inv in Hrun' as (new' & Hnew & Hf' & Hn & _). cbn in Hnew. subst new'.
  apply (signed_permit_verifies authority Haccepts) in Hsign as (Hclaims & _ & Hverify). rewrite Hclaims.
  split. { exists new. split; [|done]. eapply Forall2_impl; [exact Hf'|naive_solver]. }
  intros approvals' now' w1 Hperm Hforce. unfold VerifyPermitWithApprovals.
  destruct permit as [v k c s]. cbn [pm_Claims pm_KeyID pm_APIVersion pm_Signature] in Hclaims, Hverify |- *. subst c. specialize (Hverify _ w1 eq_refl). unfold mbind at 1, M_bind at 1.
  destruct (VerifyPermit (Some (pa_Verifier authority)) _ w1) as [[err w4] t5]. cbn in Hverify. subst err.
  symmetry in Hperm. destruct (validated_permutation _ _ _ _ _ _ Hf Hperm) as (new' & Hf2 & Hp2).
  assert (Forall (λ a, approves (aa_Claims a) (with_ApprovalRefs (sort_strings new) claims) now') approvals') as Hok.
  { rewrite <- Hperm. apply Forall_lookup_2. intros i a Ha.
    destruct (Forall2_lookup_l _ _ _ _ _ Hf' Ha) as (ref & _ & (_ & Happ & _) & _). unfold approves in *. cbn.
    destruct Hforce as [|Hforce]; [tauto|]. apply (Forall_lookup_1 _ _ _ _ Hforce) in Ha. tauto. }
  destruct (approval_refs_again verifier claims (with_ApprovalRefs (sort_strings new) claims) now now' Hagain approvals' new' [] w4 Hf2 Hok) as (w5 & t6 & Hrun2).
  { cbn. by rewrite <- Hp2. }
  unfold validatedApprovalRefs, try, mbind, M_bind. cbv beta iota zeta. cbn [pm_Claims]. cbn [app] in Hrun2 |- *. rewrite Hrun2. cbn -[sort_strings with_ApprovalRefs].
  rewrite bool_decide_true; [done|]. cbn [pc_ApprovalRefs with_ApprovalRefs]. by rewrite sort_strings_idem, Hp2.
Qed.

(** The Ed25519 verifier as such an authority: what it accepts has a signature of
    its key. *)
Lemma Ed25519_verifier_sound {X} `{!GoWorld X, !Ed25519} (v : Ed25519PublicKeyVerifier) k p s (x x' : X) :
  sv_Verify (Ed25519PublicKeyVerifier_Verify (Some v)) k p s x = (None, x') →
  k = ev_keyID v ∧ is_public_key (ev_publicKey v) = true ∧ ed25519_Verify (ev_publicKey v) p s = true.
Proof.
  cbn. unfold ed25519_check, guard_err. destruct (ctx_Err x) as [[err|] x1]; [done|]. destruct (is_public_key (ev_publicKey v)) eqn:Hl; [|done].
  destruct (str_eqb k (ev_keyID v)) eqn:Hk; split_bool; cbn; [|done]. destruct (ed25519_Verify _ p s) eqn:Hs; [|done]. done.
Qed.

(** * Witnesses *)

Definition sample_approval_claims (id : string) : ApprovalClaims := {|
  al_ApprovalID := id; al_IntentID := "i1"; al_ApproverID := "alice"; al_Kind := "kubernetes.node_drain";
  al_Target := {| tg_Type := "kubernetes.node"; tg_Name := "n1" |}; al_Action := "drain"; al_ResourceVersion := "7"; al_PlanDigest := "p";
  al_ValidUntil := 500 |}.

Definition sample_approval (id : string) : ApprovalAttestation :=
  match (SignApproval (Some toy_authority) (sample_approval_claims id) tt).1.1 with
  | Ok a => a
  | Error _ => {| aa_APIVersion := ""; aa_KeyID := ""; aa_Claims := sample_approval_claims id; aa_Signature := "" |}
  end.

Definition sample_approvals : list ApprovalAttestation := [sample_approval "a1"; sample_approval "a2"].

Definition approved_run : result Permit * unit * list authority_event :=
  SignPermitWithApprovals (Some toy_authority) (Some (pa_Verifier toy_authority)) sample_claims sample_approvals 100 tt.

Definition approved_permit : Permit := match approved_run.1.1 with Ok p => p | Error _ => sample_permit end.

Lemma approved_signed : approved_run = (Ok approved_permit, tt, approved_run.2).
Proof. vm_compute. reflexivity. Qed.

Definition verified_run (approvals : list ApprovalAttestation) (now : time) : option error * unit * list authority_event :=
  VerifyPermitWithApprovals (Some (pa_Verifier toy_authority)) (Some (pa_Verifier toy_authority)) approved_permit approvals now tt.

Lemma approved_verified : verified_run sample_approvals 100 = (None, tt, (verified_run sample_approvals 100).2).
Proof. vm_compute. reflexivity. Qed.

(** Both approvals are needed, each once, and until they expire. *)
Example approval_refusals : (λ '(approvals, now), (verified_run approvals now).1.1) <$>
    [(reverse sample_approvals, 100); ([sample_approval "a1"], 100); (sample_approvals ++ sample_approvals, 100); (sample_approvals, 501)] =
  [None; Some (ErrNew "approval reference set mismatch"); Some (ErrNew "duplicate approval attestation"); Some (ErrNew "approval expired")].
Proof. vm_compute. reflexivity. Qed.

Lemma toy_again : answers_again (pa_Verifier toy_authority).
Proof. intros k p s x x' y. cbn. by intros [= -> _]. Qed.

Lemma toy_signs k p s w w' : sv_Verify (pa_Verifier toy_authority) k p s w = (None, w') → k = "k".
Proof. cbn. destruct (str_eqb k "k") eqn:Hk; [intros _; by apply str_eqb_eq|done]. Qed.

Lemma toy_accepts p (w : unit) k s w' : pa_Sign toy_authority p w = (Ok (k, s), w') →
  k ≠ "" ∧ s ≠ "" ∧ ∀ w1, (sv_Verify (pa_Verifier toy_authority) k p s w1).1 = None.
Proof. intros [= <- <- _]. split_and!; [done..|]. intros w1. cbn. by rewrite !str_eqb_refl. Qed.

Strategy expand [approved_run verified_run].
Strategy opaque [VerifyPermitWithApprovals SignPermitWithApprovals approved_permit sample_approval].


Example approved_permit_verifies_witness :
  (∃ refs, Forall2 (λ a ref, ApprovalRef a = Ok ref) sample_approvals refs ∧ pm_Claims approved_permit = with_ApprovalRefs (sort_strings refs) sample_claims) ∧
  ∀ approvals' now' w1, approvals' ≡ₚ sample_approvals → now' = 0 ∨ Forall (λ a, now' ≤ al_ValidUntil (aa_Claims a)) sample_approvals →
    (VerifyPermitWithApprovals (Some (pa_Verifier toy_authority)) (Some (pa_Verifier toy_authority)) approved_permit approvals' now' w1).1.1 = None.
Proof.
  exact (approved_permit_verifies toy_authority (pa_Verifier toy_authority) toy_accepts toy_again sample_claims sample_approvals 100
    approved_permit tt tt approved_run.2 approved_signed).
Defined.
