(* ===== verification/Receipt.v ===== *)
(** * Execution receipts

    Models [internal/ege/receipt.go]: the receipt of an execution and the evidence
    made of it, their canonical digests, and their validation.  Instants of a
    permit and of a consequence admission are in UTC, as the functions that make
    them leave them; the times of a receipt have their zone. *)

From S2P Require Import Prelude Crypto Format GoTime Json Base64 Unmarshal Evidence Permit Approval AnyJson.
Local Open Scope Z_scope.

Definition EBAContractVersion : string := "eba.integration/v0.1".
Definition ExecutionReceiptKind : string := "ExecutionReceipt".
Definition ReceiptEvidenceKind : string := "Evidence".

Record Integrity : Type := { ig_Algorithm : string; ig_Digest : string }.

Record ReceiptResourceChange : Type := { rg_Resource : string; rg_Operation : string; rg_Result : string; rg_Error : string }.

(** A nil slice or map is [None]; where it is omitted when it is empty, it is the
    empty list. *)
Record ExecutionReceipt : Type := {
  er_ContractVersion : string; er_Kind : string; er_ID : string; er_TraceID : string; er_Producer : string; er_CreatedAt : gotime;
  er_RequestRef : string; er_DecisionRef : string; er_ActionDigest : string; er_StartedAt : gotime; er_FinishedAt : gotime;
  er_Outcome : string; er_PlanDigest : string; er_ReasonCodes : list string; er_ResourceChanges : option (list ReceiptResourceChange);
  er_ConsequenceAdmission : option ConsequenceAdmission; er_ActualUsage : option (gmap string Z);
  er_ProducedEvidenceRefs : option (list string); er_Integrity : Integrity }.

Record ReceiptEvidenceSubject : Type := { su_IntentID : string; su_Kind : string; su_Target : Target }.

Record ReceiptEvidenceClaims : Type := {
  rv_Outcome : string; rv_PlanDigest : string; rv_ReasonCodes : list string; rv_ActionDigest : string; rv_DecisionRef : string;
  rv_ResourceChangesDigest : string; rv_ConsequenceAdmissionDigest : string }.

Record ReceiptEvidence : Type := {
  re_ContractVersion : string; re_Kind : string; re_ID : string; re_TraceID : string; re_Producer : string; re_CreatedAt : gotime;
  re_EvidenceType : string; re_Subject : ReceiptEvidenceSubject; re_SourceRef : string; re_ObservedAt : gotime;
  re_Claims : ReceiptEvidenceClaims; re_Integrity : Integrity }.

Record ExecutionReceiptInput : Type := {
  in_Permit : Permit; in_Decision : string; in_ReasonCodes : list string; in_PlanDigest : string; in_StartedAt : gotime;
  in_FinishedAt : gotime; in_ResourceChanges : list ReceiptResourceChange; in_ConsequenceAdmission : option ConsequenceAdmission }.

(** * JSON *)

Definition integrity_json (i : Integrity) : json := object [string_member "algorithm" (ig_Algorithm i); string_member "digest" (ig_Digest i)].

Definition change_json (c : ReceiptResourceChange) : json :=
  object [string_member "resource" (rg_Resource c); string_member "operation" (rg_Operation c); string_member "result" (rg_Result c);
          ("error", omit_string (rg_Error c))].

Definition nil_or {A} (f : A → json) (o : option A) : json := match o with None => JNull | Some a => f a end.

Definition changes_json (l : option (list ReceiptResourceChange)) : json := nil_or (λ l, JArray (change_json <$> l)) l.
Definition strings_json (l : option (list string)) : json := nil_or (λ l, JArray (JString <$> l)) l.
Definition usage_json (m : option (gmap string Z)) : json :=
  nil_or (λ m, map_json (prod_map id JInt <$> map_to_list m)) m.

Definition admission_json (a : ConsequenceAdmission) : result json :=
  evaluated ← time_json (ca_EvaluatedAt a);
  Ok (object [string_member "api_version" (ca_APIVersion a); string_member "decision" (ca_Decision a);
    string_member "consequence_class" (ca_ConsequenceClass a); string_member "admissibility_policy_ref" (ca_AdmissibilityPolicyRef a);
    string_member "policy_version" (ca_PolicyVersion a); string_member "policy_hash" (ca_PolicyHash a);
    string_member "policy_owner" (ca_PolicyOwner a); ("evaluated_at", Some evaluated);
    string_member "action_scope_digest" (ca_ActionScopeDigest a)]).

(** A pointer that is omitted when it is nil. *)
Definition omit_admission (a : option ConsequenceAdmission) : result (option json) :=
  match a with None => Ok None | Some a => v ← admission_json a; Ok (Some v) end.

(** All members but the integrity, which is the last. *)
Definition receipt_body (r : ExecutionReceipt) (created started finished : json) (admission : option json) : list (string * option json) :=
  [string_member "contract_version" (er_ContractVersion r); string_member "kind" (er_Kind r); string_member "id" (er_ID r);
   string_member "trace_id" (er_TraceID r); string_member "producer" (er_Producer r); ("created_at", Some created);
   string_member "request_ref" (er_RequestRef r); string_member "decision_ref" (er_DecisionRef r);
   string_member "action_digest" (er_ActionDigest r); ("started_at", Some started); ("finished_at", Some finished);
   string_member "outcome" (er_Outcome r); string_member "plan_digest" (er_PlanDigest r); ("reason_codes", omit_strings (er_ReasonCodes r));
   ("resource_changes", Some (changes_json (er_ResourceChanges r))); ("consequence_admission", admission);
   ("actual_usage", Some (usage_json (er_ActualUsage r))); ("produced_evidence_refs", Some (strings_json (er_ProducedEvidenceRefs r)))].

Definition with_integrity (i : Integrity) (body : list (string * option json)) : list (string * option json) :=
  body ++ [("integrity", Some (integrity_json i))].

Definition receipt_fields (r : ExecutionReceipt) : result (list (string * option json)) :=
  created ← gotime_json (er_CreatedAt r);
  started ← gotime_json (er_StartedAt r);
  finished ← gotime_json (er_FinishedAt r);
  admission ← omit_admission (er_ConsequenceAdmission r);
  Ok (with_integrity (er_Integrity r) (receipt_body r created started finished admission)).

Definition subject_json (s : ReceiptEvidenceSubject) : json :=
  object [string_member "intent_id" (su_IntentID s); string_member "kind" (su_Kind s); ("target", Some (target_json (su_Target s)))].

Definition receipt_claims_json (c : ReceiptEvidenceClaims) : json :=
  object [string_member "outcome" (rv_Outcome c); string_member "plan_digest" (rv_PlanDigest c); ("reason_codes", omit_strings (rv_ReasonCodes c));
    string_member "action_digest" (rv_ActionDigest c); string_member "decision_ref" (rv_DecisionRef c);
    string_member "resource_changes_digest" (rv_ResourceChangesDigest c);
    ("consequence_admission_digest", omit_string (rv_ConsequenceAdmissionDigest c))].

Definition evidence_body (e : ReceiptEvidence) (created observed : json) : list (string * option json) :=
  [string_member "contract_version" (re_ContractVersion e); string_member "kind" (re_Kind e); string_member "id" (re_ID e);
   string_member "trace_id" (re_TraceID e); string_member "producer" (re_Producer e); ("created_at", Some created);
   string_member "evidence_type" (re_EvidenceType e); ("subject", Some (subject_json (re_Subject e)));
   string_member "source_ref" (re_SourceRef e); ("observed_at", Some observed); ("claims", Some (receipt_claims_json (re_Claims e)))].

Definition evidence_fields (e : ReceiptEvidence) : result (list (string * option json)) :=
  created ← gotime_json (re_CreatedAt e);
  observed ← gotime_json (re_ObservedAt e);
  Ok (with_integrity (re_Integrity e) (evidence_body e created observed)).

Definition permit_json (p : Permit) : result json :=
  valid_until ← time_json (pc_ValidUntil (pm_Claims p));
  Ok (object [string_member "api_version" (pm_APIVersion p); string_member "key_id" (pm_KeyID p);
    ("claims", Some (object (claims_fields (pm_Claims p) valid_until))); string_member "signature" (pm_Signature p)]).

(** * Digests *)

Definition hex_digest (text : string) : string := hex_encode (sha256 text).

Definition digestJSON (value : result json) : result string :=
  match value with
  | Error err => Error (ErrWrap "marshal canonical receipt payload" err)
  | Ok v => Ok (hex_digest (encode v))
  end.

(** [digest[:24]] *)
Definition short (digest : string) : string := String.substring 0 24 digest.

Definition stableID (prefix : string) (seed : result json) : result string :=
  digest ← digestJSON seed; Ok (prefix +:+ "_" +:+ short digest).

Definition executionActionDigest (claims : PermitClaims) : result string :=
  digestJSON (Ok (map_json [("intent_id", JString (pc_IntentID claims)); ("kind", JString (pc_Kind claims)); ("target", target_json (pc_Target claims));
    ("action", JString (pc_Action claims)); ("resource_version", JString (pc_ResourceVersion claims)); ("plan_digest", JString (pc_PlanDigest claims))])).

Definition permitReference (permit : Permit) : result string :=
  match digestJSON (permit_json permit) with
  | Error err => Error (ErrWrap "digest execution permit" err)
  | Ok digest => Ok ("permit_" +:+ short digest)
  end.

(** The text of an artifact read into a map, without its integrity; it is always
    read. *)
Definition unsealed (members : list (string * option json)) : json :=
  JObject (filter (λ p, p.1 ≠ "integrity") (sort_members (any_members (kept members)))).

Definition integrityDigest (artifact : result (list (string * option json))) : result string :=
  match artifact with
  | Error err => Error (ErrWrap "marshal integrity artifact" err)
  | Ok members => digestJSON (Ok (unsealed members))
  end.

Definition validateTypedIntegrity (integrity : Integrity) (artifact : result (list (string * option json))) : option error :=
  if negb (str_eqb (ig_Algorithm integrity) "sha256") || str_eqb (ig_Digest integrity) "" then Some (ErrNew "EBA_INTEGRITY_INVALID")
  else match integrityDigest artifact with
  | Error err => Some err
  | Ok digest => guard_err (negb (str_eqb digest (ig_Digest integrity))) (ErrNew "EBA_INTEGRITY_INVALID")
  end.

Definition sha256_integrity (digest : string) : Integrity := {| ig_Algorithm := "sha256"; ig_Digest := digest |}.

(** * Building *)

Definition executionOutcome (decision : string) : string :=
  if str_eqb decision "ALLOW" then "SUCCEEDED"
  else if str_eqb decision "BLOCK" then "BLOCKED"
  else if str_eqb decision "ESCALATE" then "ESCALATED"
  else "UNKNOWN".

(** [append([]T(nil), values...)] *)
Definition copied {A} (l : list A) : option (list A) := match l with [] => None | _ => Some l end.

Definition gt_Before (t u : gotime) : bool := gt_instant t <? gt_instant u.

Definition trace_seed (claims : PermitClaims) : json :=
  map_json [("profile", JString "aegis-ege/kubernetes-drain"); ("intent_id", JString (pc_IntentID claims)); ("kind", JString (pc_Kind claims));
    ("target", target_json (pc_Target claims))].

Definition receipt_seed (traceID permitRef actionDigest : string) (finishedAt : gotime) (outcome : string) : result json :=
  finished ← gotime_json finishedAt;
  Ok (map_json [("trace_id", JString traceID); ("permit_ref", JString permitRef); ("action_digest", JString actionDigest);
    ("finished_at", finished); ("outcome", JString outcome)]).

Definition evidence_seed (receiptID : string) (finishedAt : gotime) (outcome actionDigest changesDigest admissionDigest : string) : result json :=
  finished ← gotime_json finishedAt;
  Ok (map_json [("source_ref", JString receiptID); ("observed_at", finished); ("outcome", JString outcome); ("action_digest", JString actionDigest);
    ("resource_changes_digest", JString changesDigest); ("consequence_admission_digest", JString admissionDigest)]).

(** The refusals before anything is digested. *)
Definition receipt_refusal (input : ExecutionReceiptInput) : option error :=
  let claims := pm_Claims (in_Permit input) in
  if str_eqb (pc_IntentID claims) "" then Some (ErrNew "receipt intent id is required")
  else if str_eqb (pc_Kind claims) "" || str_eqb (tg_Type (pc_Target claims)) "" || str_eqb (tg_Name (pc_Target claims)) ""
  then Some (ErrNew "receipt action target is required")
  else if gt_IsZero (in_StartedAt input) || gt_IsZero (in_FinishedAt input) then Some (ErrNew "receipt start/finish times are required")
  else guard_err (gt_Before (in_FinishedAt input) (in_StartedAt input)) (ErrNew "receipt finished_at precedes started_at").

(** The digest of the admission that the receipt binds. *)
Definition bound_admission (claims : PermitClaims) (startedAt : gotime) (admission : option ConsequenceAdmission) : result string :=
  match admission with
  | None => Ok ""
  | Some admission =>
      match ValidateConsequenceAdmission admission with
      | Some err => Error (ErrWrap "validate consequence admission" err)
      | None =>
          if negb (str_eqb (ca_Decision admission) ConsequenceDecisionAdmissible)
          then Error (ErrNew "execution receipt cannot bind a blocked consequence admission")
          else if negb (str_eqb (ca_ActionScopeDigest admission) (consequenceActionScopeDigest claims))
          then Error (ErrNew "CONSEQUENCE_ADMISSION_ACTION_BINDING_INVALID")
          else if gt_instant startedAt <? ca_EvaluatedAt admission then Error (ErrNew "CONSEQUENCE_ADMISSION_AFTER_EXECUTION_START")
          else digest ← digestJSON (admission_json admission); Ok ("sha256:" +:+ digest)
      end
  end.

Definition with_receipt_Integrity (i : Integrity) (r : ExecutionReceipt) : ExecutionReceipt := {|
  er_ContractVersion := er_ContractVersion r; er_Kind := er_Kind r; er_ID := er_ID r; er_TraceID := er_TraceID r; er_Producer := er_Producer r;
  er_CreatedAt := er_CreatedAt r; er_RequestRef := er_RequestRef r; er_DecisionRef := er_DecisionRef r; er_ActionDigest := er_ActionDigest r;
  er_StartedAt := er_StartedAt r; er_FinishedAt := er_FinishedAt r; er_Outcome := er_Outcome r; er_PlanDigest := er_PlanDigest r;
  er_ReasonCodes := er_ReasonCodes r; er_ResourceChanges := er_ResourceChanges r; er_ConsequenceAdmission := er_ConsequenceAdmission r;
  er_ActualUsage := er_ActualUsage r; er_ProducedEvidenceRefs := er_ProducedEvidenceRefs r; er_Integrity := i |}.

Definition with_evidence_Integrity (i : Integrity) (e : ReceiptEvidence) : ReceiptEvidence := {|
  re_ContractVersion := re_ContractVersion e; re_Kind := re_Kind e; re_ID := re_ID e; re_TraceID := re_TraceID e; re_Producer := re_Producer e;
  re_CreatedAt := re_CreatedAt e; re_EvidenceType := re_EvidenceType e; re_Subject := re_Subject e; re_SourceRef := re_SourceRef e;
  re_ObservedAt := re_ObservedAt e; re_Claims := re_Claims e; re_Integrity := i |}.

(** [attachIntegrity], at each of its types. *)
Definition attach_receipt (r : ExecutionReceipt) : result ExecutionReceipt :=
  digest ← integrityDigest (receipt_fields r); Ok (with_receipt_Integrity (sha256_integrity digest) r).
Definition attach_evidence (e : ReceiptEvidence) : result ReceiptEvidence :=
  digest ← integrityDigest (evidence_fields e); Ok (with_evidence_Integrity (sha256_integrity digest) e).

Definition no_integrity : Integrity := {| ig_Algorithm := ""; ig_Digest := "" |}.

Definition draft_receipt (input : ExecutionReceiptInput) (receiptID traceID permitRef actionDigest : string) (evidenceRefs : option (list string))
    : ExecutionReceipt :=
  let finishedAt := UTC (in_FinishedAt input) in {|
  er_ContractVersion := EBAContractVersion; er_Kind := ExecutionReceiptKind; er_ID := receiptID; er_TraceID := traceID;
  er_Producer := "aegis-ege/kubernetes-drain"; er_CreatedAt := finishedAt;
  er_RequestRef := "intent:" +:+ pc_IntentID (pm_Claims (in_Permit input)); er_DecisionRef := permitRef; er_ActionDigest := actionDigest;
  er_StartedAt := UTC (in_StartedAt input); er_FinishedAt := finishedAt; er_Outcome := executionOutcome (in_Decision input);
  er_PlanDigest := in_PlanDigest input; er_ReasonCodes := in_ReasonCodes input; er_ResourceChanges := copied (in_ResourceChanges input);
  er_ConsequenceAdmission := in_ConsequenceAdmission input; er_ActualUsage := Some ∅; er_ProducedEvidenceRefs := evidenceRefs;
  er_Integrity := no_integrity |}.

Definition draft_evidence (input : ExecutionReceiptInput) (evidenceID receiptID traceID permitRef actionDigest changesDigest admissionDigest : string)
    : ReceiptEvidence :=
  let claims := pm_Claims (in_Permit input) in
  let finishedAt := UTC (in_FinishedAt input) in {|
  re_ContractVersion := EBAContractVersion; re_Kind := ReceiptEvidenceKind; re_ID := evidenceID; re_TraceID := traceID;
  re_Producer := "aegis-ege/execution-receipt"; re_CreatedAt := finishedAt; re_EvidenceType := "execution_receipt";
  re_Subject := {| su_IntentID := pc_IntentID claims; su_Kind := pc_Kind claims; su_Target := pc_Target claims |};
  re_SourceRef := receiptID; re_ObservedAt := finishedAt;
  re_Claims := {| rv_Outcome := executionOutcome (in_Decision input); rv_PlanDigest := in_PlanDigest input; rv_ReasonCodes := in_ReasonCodes input;
    rv_ActionDigest := actionDigest; rv_DecisionRef := permitRef; rv_ResourceChangesDigest := changesDigest;
    rv_ConsequenceAdmissionDigest := admissionDigest |};
  re_Integrity := no_integrity |}.

Definition BuildExecutionReceiptFeedback (input : ExecutionReceiptInput) : result (ExecutionReceipt * ReceiptEvidence) :=
  match receipt_refusal input with
  | Some err => Error err
  | None =>
      let claims := pm_Claims (in_Permit input) in
      let finishedAt := UTC (in_FinishedAt input) in
      let outcome := executionOutcome (in_Decision input) in
      admissionDigest ← bound_admission claims (in_StartedAt input) (in_ConsequenceAdmission input);
      permitRef ← permitReference (in_Permit input);
      actionDigest ← executionActionDigest claims;
      traceID ← stableID "tr" (Ok (trace_seed claims));
      receiptID ← stableID "receipt" (receipt_seed traceID permitRef actionDigest finishedAt outcome);
      changesDigest ← digestJSON (Ok (changes_json (copied (in_ResourceChanges input))));
      evidenceID ← stableID "ev" (evidence_seed receiptID finishedAt outcome actionDigest changesDigest admissionDigest);
      evidence ← attach_evidence (draft_evidence input evidenceID receiptID traceID permitRef actionDigest changesDigest admissionDigest);
      receipt ← attach_receipt (draft_receipt input receiptID traceID permitRef actionDigest (Some [evidenceID]));
      Ok (receipt, evidence)
  end.

(** * Validation *)

Definition ValidateExecutionReceipt (receipt : ExecutionReceipt) : option error :=
  if negb (str_eqb (er_ContractVersion receipt) EBAContractVersion) || negb (str_eqb (er_Kind receipt) ExecutionReceiptKind)
  then Some (ErrNew "EXECUTION_RECEIPT_CONTRACT_INVALID")
  else
    let seal := validateTypedIntegrity (er_Integrity receipt) (receipt_fields receipt) in
    match er_ConsequenceAdmission receipt with
    | None => seal
    | Some admission =>
        match ValidateConsequenceAdmission admission with
        | Some err => Some err
        | None =>
            if negb (str_eqb (ca_Decision admission) ConsequenceDecisionAdmissible)
            then Some (ErrNew "EXECUTION_RECEIPT_CONSEQUENCE_NOT_ADMISSIBLE")
            else seal
        end
    end.

Definition admission_digest (admission : option ConsequenceAdmission) : result string :=
  match admission with
  | None => Ok ""
  | Some admission => digest ← digestJSON (admission_json admission); Ok ("sha256:" +:+ digest)
  end.

Definition ValidateReceiptEvidence (evidence : ReceiptEvidence) (receipt : ExecutionReceipt) : option error :=
  if negb (str_eqb (re_ContractVersion evidence) EBAContractVersion) || negb (str_eqb (re_Kind evidence) ReceiptEvidenceKind)
  then Some (ErrNew "RECEIPT_EVIDENCE_CONTRACT_INVALID")
  else if negb (str_eqb (re_SourceRef evidence) (er_ID receipt)) || negb (str_eqb (re_TraceID evidence) (er_TraceID receipt))
  then Some (ErrNew "RECEIPT_EVIDENCE_BINDING_INVALID")
  else if negb (bool_decide (er_ProducedEvidenceRefs receipt = Some [re_ID evidence]))
  then Some (ErrNew "RECEIPT_EVIDENCE_REFERENCE_INVALID")
  else match admission_digest (er_ConsequenceAdmission receipt) with
  | Error err => Some err
  | Ok expected =>
      if negb (str_eqb (rv_ConsequenceAdmissionDigest (re_Claims evidence)) expected)
      then Some (ErrNew "RECEIPT_EVIDENCE_CONSEQUENCE_BINDING_INVALID")
      else validateTypedIntegrity (re_Integrity evidence) (evidence_fields evidence)
  end.

(** * What a seal covers *)

Definition names_ok (names : list string) : bool :=
  bool_decide (NoDup names) && bool_decide ("integrity" ∉ names) && forallb utf8_valid names.

Lemma names_ok_spec names : names_ok names = true → NoDup names ∧ "integrity" ∉ names ∧ Forall (λ k, utf8_valid k = true) names.
Proof.
  unfold names_ok. intros [[Hd%bool_decide_eq_true Hi%bool_decide_eq_true]%andb_true_iff Hu]%andb_true_iff. split_and!; [done..|].
  apply List.Forall_forall. by apply List.forallb_forall.
Qed.

(** The integrity does not show, and everything else does. *)
Lemma unsealed_eq i body : names_ok body.*1 = true → unsealed (with_integrity i body) = JObject (sort_members (kept (any_fields body))).
Proof.
  intros (Hd & Hi & Hu)%names_ok_spec. unfold unsealed, with_integrity.
  assert (NoDup (body ++ [("integrity", Some (integrity_json i))]).*1) as Hd'.
  { rewrite fmap_app. apply NoDup_app. split_and!; [done| |apply NoDup_singleton]. by intros x Hx ->%list_elem_of_singleton. }
  rewrite any_members_fields; [|done|rewrite fmap_app; apply Forall_app; split; [done|by repeat constructor]].
  rewrite filter_sort_members by (apply kept_NoDup; by rewrite any_fields_names). do 2 f_equal.
  clear Hd Hu Hd'. induction body as [|[k o] body IH]; [done|]. apply not_elem_of_cons in Hi as [Hk Hi].
  rewrite <- app_comm_cons.
  change (any_fields ((k, o) :: body)) with ((k, any_json <$> o) :: any_fields body).
  change (any_fields ((k, o) :: body ++ [("integrity", Some (integrity_json i))])) with
    ((k, any_json <$> o) :: any_fields (body ++ [("integrity", Some (integrity_json i))])).
  rewrite !kept_cons. destruct o as [v|]; cbn [fmap option_fmap option_map]; [|by apply IH]. rewrite filter_cons_True by (cbn; intros E; by apply Hk). by rewrite IH.
Qed.

Lemma unsealed_inj i j body body' : body.*1 = body'.*1 → names_ok body.*1 = true →
  unsealed (with_integrity i body) = unsealed (with_integrity j body') → any_fields body = any_fields body'.
Proof.
  intros Hn Hok. rewrite !unsealed_eq by congruence. intros [= H]. apply sort_members_inj in H.
  apply names_ok_spec in Hok as (Hd & _). apply kept_perm_inj; [|by rewrite !any_fields_names|done]. by rewrite any_fields_names.
Qed.

(** ** Members *)

Definition text_ok (s : string) : Prop := utf8_valid s = true.

Lemma any_string_inj s t : text_ok s → text_ok t → JString (coerce s) = JString (coerce t) → s = t.
Proof. intros Hs Ht [= H]. by rewrite !coerce_utf8 in H. Qed.

Lemma any_omit_string_inj s t : text_ok s → text_ok t → any_json <$> omit_string s = any_json <$> omit_string t → s = t.
Proof.
  intros Hs Ht. unfold omit_string. destruct (str_eqb s "") eqn:E1, (str_eqb t "") eqn:E2; split_bool; try done; try congruence.
  cbn. intros [= H]. by rewrite !coerce_utf8 in H.
Qed.

Lemma any_strings_inj l k : Forall text_ok l → Forall text_ok k → any_json <$> (JString <$> l) = any_json <$> (JString <$> k) → l = k.
Proof.
  intros Hl. revert k. induction Hl as [|s l Hs Hl IH]; intros [|t k] Hk; try done. apply Forall_cons in Hk as [Ht Hk].
  cbn. intros [= H Hr]. rewrite !coerce_utf8 in H by done. f_equal; [done|]. by apply IH.
Qed.

Lemma any_omit_strings_inj l k : Forall text_ok l → Forall text_ok k → any_json <$> omit_strings l = any_json <$> omit_strings k → l = k.
Proof.
  intros Hl Hk H. destruct l as [|s l], k as [|u k]; try done. apply any_strings_inj; [done..|].
  change (Some (JArray (any_json <$> (JString <$> s :: l))) = Some (JArray (any_json <$> (JString <$> u :: k)))) in H. congruence.
Qed.

Lemma any_strings_json_inj l k : (∀ x, l = Some x → Forall text_ok x) → (∀ x, k = Some x → Forall text_ok x) →
  any_json (strings_json l) = any_json (strings_json k) → l = k.
Proof.
  intros Hl Hk. destruct l as [l|], k as [k|]; try done. intros H.
  change (JArray (any_json <$> (JString <$> l)) = JArray (any_json <$> (JString <$> k))) in H.
  f_equal. apply any_strings_inj; [by apply Hl|by apply Hk|congruence].
Qed.

Ltac fields_inj H :=
  apply any_object_inj in H; [|reflexivity|apply (bool_decide_unpack _); vm_compute; reflexivity|repeat constructor];
  injection H as H.

Ltac members_inj :=
  rewrite ?coerce_utf8 in * by assumption;
  repeat match goal with
  | Hx : any_json <$> omit_string _ = any_json <$> omit_string _ |- _ => apply any_omit_string_inj in Hx; [|assumption..]
  | Hx : any_json <$> omit_strings _ = any_json <$> omit_strings _ |- _ => apply any_omit_strings_inj in Hx; [|assumption..]
  end.

Lemma cons_inj {A} (a b : A) l k : a :: l = b :: k → a = b ∧ l = k.
Proof. by intros [= -> ->]. Qed.

Definition change_ok (c : ReceiptResourceChange) : Prop := Forall text_ok [rg_Resource c; rg_Operation c; rg_Result c; rg_Error c].

Lemma change_json_inj c d : change_ok c → change_ok d → any_json (change_json c) = any_json (change_json d) → c = d.
Proof.
  unfold change_ok. destruct c as [a o r e], d as [a' o' r' e']. cbn [rg_Resource rg_Operation rg_Result rg_Error]. intros Hc Hd H. split_Forall.
  unfold change_json, string_member in H. cbn [rg_Resource rg_Operation rg_Result rg_Error] in H. fields_inj H.
  members_inj. by subst.
Qed.

Lemma changes_json_inj l k : (∀ x, l = Some x → Forall change_ok x) → (∀ x, k = Some x → Forall change_ok x) →
  any_json (changes_json l) = any_json (changes_json k) → l = k.
Proof.
  intros Hl Hk. destruct l as [l|], k as [k|]; try done. intros H.
  change (JArray (any_json <$> (change_json <$> l)) = JArray (any_json <$> (change_json <$> k))) in H.
  assert (any_json <$> (change_json <$> l) = any_json <$> (change_json <$> k)) as H0 by congruence; clear H; rename H0 into H. f_equal. specialize (Hl l eq_refl). specialize (Hk k eq_refl).
  revert k Hk H. induction Hl as [|c l Hc Hl IH]; intros [|d k] Hk H; try done. apply Forall_cons in Hk as [Hd Hk]. rewrite !fmap_cons in H.
  apply cons_inj in H as [H Hr]. f_equal; [by apply change_json_inj|by apply IH].
Qed.

Lemma any_time_inj t u v w : gotime_json t = Ok v → gotime_json u = Ok w → written_offset (gt_offset t) → written_offset (gt_offset u) →
  any_json v = any_json w → t = u.
Proof.
  intros Hv Hw Ht Hu H. unfold gotime_json in Hv, Hw. case_bool_decide as Yt; [|done]. case_bool_decide as Yu; [|done]. cbn [negb] in Hv, Hw.
  destruct (24 <=? Z.abs (gt_offset t) / 3600); [done|]. destruct (24 <=? Z.abs (gt_offset u) / 3600); [done|]. injection Hv as <-. injection Hw as <-.
  assert (written_time t) as Wt by done. assert (written_time u) as Wu by done. apply time_text_inj; [done..|].
  change (JString (coerce (time_text t)) = JString (coerce (time_text u))) in H.
  rewrite (proj1 (proj2 (plain_text _ (plain_time_text t Wt)))), (proj1 (proj2 (plain_text _ (plain_time_text u Wu)))) in H. congruence.
Qed.

Definition admission_strings (a : ConsequenceAdmission) : list string :=
  [ca_APIVersion a; ca_Decision a; ca_ConsequenceClass a; ca_AdmissibilityPolicyRef a; ca_PolicyVersion a; ca_PolicyHash a; ca_PolicyOwner a;
   ca_ActionScopeDigest a].

Definition admission_ok (a : ConsequenceAdmission) : Prop := Forall text_ok (admission_strings a).

Lemma admission_json_inj a b v w : admission_ok a → admission_ok b → admission_json a = Ok v → admission_json b = Ok w →
  any_json v = any_json w → a = b.
Proof.
  unfold admission_json, admission_ok, admission_strings. destruct a as [a1 a2 a3 a4 a5 a6 a7 t a8], b as [b1 b2 b3 b4 b5 b6 b7 u b8].
  cbn [ca_APIVersion ca_Decision ca_ConsequenceClass ca_AdmissibilityPolicyRef ca_PolicyVersion ca_PolicyHash ca_PolicyOwner ca_EvaluatedAt
    ca_ActionScopeDigest]. intros Ha Hb. split_Forall.
  destruct (time_json t) as [jt|] eqn:Ht; [|done]. destruct (time_json u) as [ju|] eqn:Hu; [|done].
  apply time_json_Ok in Ht as [Yt ->], Hu as [Yu ->]. unfold mbind, result_bind, string_member. intros <-%Ok_inj <-%Ok_inj Heq. fields_inj Heq.
  rewrite !(coerce_utf8 (rfc3339nano _)) in * by (by apply rfc3339nano_utf8). members_inj. subst. f_equal. by apply rfc3339nano_inj.
Qed.

Lemma omit_admission_inj a b v w : (∀ x, a = Some x → admission_ok x) → (∀ x, b = Some x → admission_ok x) →
  omit_admission a = Ok v → omit_admission b = Ok w → any_json <$> v = any_json <$> w → a = b.
Proof.
  intros Ha Hb. unfold omit_admission, mbind, result_bind. destruct a as [a|], b as [b|]; try done.
  - destruct (admission_json a) as [x|] eqn:Ea; [|done]. destruct (admission_json b) as [y|] eqn:Eb; [|done]. intros <-%Ok_inj <-%Ok_inj H. f_equal.
    eapply (admission_json_inj a b x y); [by apply Ha|by apply Hb|done..|]. cbn in H. congruence.
  - destruct (admission_json a); [|done]. by intros <-%Ok_inj <-%Ok_inj.
  - destruct (admission_json b); [|done]. by intros <-%Ok_inj <-%Ok_inj.
Qed.

Definition usage_ok (m : gmap string Z) : Prop := map_Forall (λ k z, text_ok k ∧ Z.abs z < 2 ^ 53) m.

Lemma usage_members m : usage_ok m → any_json (usage_json (Some m)) = usage_json (Some m).
Proof.
  intros Hm. unfold usage_json, nil_or, map_json. set (l := prod_map id JInt <$> map_to_list m).
  assert (NoDup l.*1) as Hd. { unfold l. rewrite <- list_fmap_compose. apply (NoDup_fst_map_to_list m). }
  assert (Forall (λ p, ∃ z, text_ok p.1 ∧ Z.abs z < 2 ^ 53 ∧ p.2 = JInt z) (sort_members l)) as Hl.
  { rewrite sort_members_perm. unfold l. apply Forall_fmap, Forall_forall. intros [k z] Hin%elem_of_map_to_list. apply Hm in Hin as [Hk Hz].
    by exists z. }
  rewrite any_object. f_equal. unfold any_members.
  assert ((λ '(k, v), (coerce k, any_json v)) <$> sort_members l = sort_members l) as ->.
  { induction Hl as [|[k v] l' (z & Hk & Hz & Hv) Hl IH]; [done|]. rewrite fmap_cons, IH. cbn in Hk, Hv. subst v. f_equal.
    change (any_json (JInt z)) with (JInt (float_int z)). by rewrite (coerce_utf8 k Hk), (float_int_small z Hz). }
  rewrite put_members_NoDup by (by rewrite sort_members_perm). apply sort_members_Permutation; [by rewrite sort_members_perm|apply sort_members_perm].
Qed.

Lemma usage_json_inj m n : (∀ x, m = Some x → usage_ok x) → (∀ x, n = Some x → usage_ok x) →
  any_json (usage_json m) = any_json (usage_json n) → m = n.
Proof.
  intros Hm Hn. destruct m as [m|], n as [n|]; try done. rewrite !usage_members by auto. unfold usage_json, nil_or, map_json.
  intros [= H]. f_equal. apply sort_members_inj in H. apply map_to_list_inj.
  assert (∀ m : gmap string Z, (λ p : string * json, (p.1, match p.2 with JInt z => z | _ => 0 end)) <$> (prod_map id JInt <$> map_to_list m) = map_to_list m) as Hback.
  { intros m'. rewrite <- list_fmap_compose. rewrite <- (list_fmap_id (map_to_list m')) at 2. by apply list_fmap_ext; intros ? [? ?]. }
  rewrite <- (Hback m), <- (Hback n). by apply fmap_Permutation.
Qed.

(** * Receipts that a seal determines *)

Definition receipt_strings (r : ExecutionReceipt) : list string :=
  [er_ContractVersion r; er_Kind r; er_ID r; er_TraceID r; er_Producer r; er_RequestRef r; er_DecisionRef r; er_ActionDigest r; er_Outcome r;
   er_PlanDigest r].

(** Valid UTF-8, times as Go reads and makes them, numbers that a float holds. *)
Record sound_receipt (r : ExecutionReceipt) : Prop := {
  sr_strings : Forall text_ok (receipt_strings r);
  sr_reasons : Forall text_ok (er_ReasonCodes r);
  sr_created : written_offset (gt_offset (er_CreatedAt r));
  sr_started : written_offset (gt_offset (er_StartedAt r));
  sr_finished : written_offset (gt_offset (er_FinishedAt r));
  sr_changes : ∀ x, er_ResourceChanges r = Some x → Forall change_ok x;
  sr_admission : ∀ x, er_ConsequenceAdmission r = Some x → admission_ok x;
  sr_usage : ∀ x, er_ActualUsage r = Some x → usage_ok x;
  sr_refs : ∀ x, er_ProducedEvidenceRefs r = Some x → Forall text_ok x }.

Lemma receipt_names r created started finished admission : names_ok (receipt_body r created started finished admission).*1 = true.
Proof. vm_compute. reflexivity. Qed.

Lemma evidence_names e created observed : names_ok (evidence_body e created observed).*1 = true.
Proof. vm_compute. reflexivity. Qed.

Lemma sealed_receipt_inj r r' l l' : sound_receipt r → sound_receipt r' → er_Integrity r = er_Integrity r' →
  receipt_fields r = Ok l → receipt_fields r' = Ok l' → unsealed l = unsealed l' → r = r'.
Proof.
  intros [Hs Hr Hc Hst Hf Hch Ha Hu Hrf] [Hs' Hr' Hc' Hst' Hf' Hch' Ha' Hu' Hrf']. unfold receipt_fields, mbind, result_bind.
  destruct (gotime_json (er_CreatedAt r)) as [c|] eqn:Ec; [|done]. destruct (gotime_json (er_StartedAt r)) as [st|] eqn:Es; [|done].
  destruct (gotime_json (er_FinishedAt r)) as [f|] eqn:Ef; [|done]. destruct (omit_admission (er_ConsequenceAdmission r)) as [a|] eqn:Ea; [|done].
  destruct (gotime_json (er_CreatedAt r')) as [c'|] eqn:Ec'; [|done]. destruct (gotime_json (er_StartedAt r')) as [st'|] eqn:Es'; [|done].
  destruct (gotime_json (er_FinishedAt r')) as [f'|] eqn:Ef'; [|done]. destruct (omit_admission (er_ConsequenceAdmission r')) as [a'|] eqn:Ea'; [|done].
  intros Hi <-%Ok_inj <-%Ok_inj H. apply unsealed_inj in H; [|reflexivity|apply receipt_names].
  assert (any_json c = any_json c' ∧ any_json st = any_json st' ∧ any_json f = any_json f' ∧ any_json <$> a = any_json <$> a' ∧
    any_json (changes_json (er_ResourceChanges r)) = any_json (changes_json (er_ResourceChanges r')) ∧
    any_json (usage_json (er_ActualUsage r)) = any_json (usage_json (er_ActualUsage r')) ∧
    any_json (strings_json (er_ProducedEvidenceRefs r)) = any_json (strings_json (er_ProducedEvidenceRefs r')) ∧
    any_json <$> omit_strings (er_ReasonCodes r) = any_json <$> omit_strings (er_ReasonCodes r') ∧
    coerce <$> receipt_strings r = coerce <$> receipt_strings r') as (Tc & Ts & Tf & Ta & Tch & Tu & Tr & Tre & Tst).
  { unfold receipt_body, string_member, any_fields in H. cbn -[any_json changes_json usage_json strings_json omit_strings] in H.
    injection H as H. unfold receipt_strings. cbn. split_and!; congruence. }
  apply (any_time_inj _ _ _ _ Ec Ec' Hc Hc') in Tc. apply (any_time_inj _ _ _ _ Es Es' Hst Hst') in Ts. apply (any_time_inj _ _ _ _ Ef Ef' Hf Hf') in Tf.
  apply (omit_admission_inj _ _ _ _ Ha Ha' Ea Ea') in Ta. apply (changes_json_inj _ _ Hch Hch') in Tch. apply (usage_json_inj _ _ Hu Hu') in Tu.
  apply (any_strings_json_inj _ _ Hrf Hrf') in Tr. apply (any_omit_strings_inj _ _ Hr Hr') in Tre.
  destruct r, r'. unfold receipt_strings in *.
  cbn [er_ContractVersion er_Kind er_ID er_TraceID er_Producer er_CreatedAt er_RequestRef er_DecisionRef er_ActionDigest er_StartedAt er_FinishedAt
    er_Outcome er_PlanDigest er_ReasonCodes er_ResourceChanges er_ConsequenceAdmission er_ActualUsage er_ProducedEvidenceRefs er_Integrity] in *.
  split_Forall. cbn [fmap list_fmap] in Tst. rewrite !coerce_utf8 in Tst by assumption.
  injection Tst. clear Tst. intros. subst. reflexivity.
Qed.

Lemma unsealed_utf8 l : utf8_json (unsealed l) = true.
Proof.
  unfold unsealed. apply utf8_members_object. pose proof (any_json_utf8 (JObject (kept l))) as H. rewrite any_object in H.
  apply utf8_members_object in H. unfold utf8_members in *. apply Forall_forall. intros p [_ Hp]%list_elem_of_filter. rewrite Forall_forall in H. by apply H.
Qed.

Lemma unsealed_digest_inj l l' d : integrityDigest (Ok l) = Ok d → integrityDigest (Ok l') = Ok d →
  unsealed l = unsealed l' ∨ ∃ p q, sha256_collision p q.
Proof.
  unfold integrityDigest, digestJSON, hex_digest. intros <-%Ok_inj H%Ok_inj%hex_encode_inj.
  destruct (decide (encode (unsealed l) = encode (unsealed l'))) as [He|He]; [left; apply encode_inj in He; [done|apply unsealed_utf8..]|].
  right. exists (encode (unsealed l)), (encode (unsealed l')). by split.
Qed.

(** ** Validation *)

Lemma typed_integrity_None i artifact : validateTypedIntegrity i artifact = None →
  ig_Algorithm i = "sha256" ∧ integrityDigest artifact = Ok (ig_Digest i).
Proof.
  unfold validateTypedIntegrity, guard_err. destruct (str_eqb (ig_Algorithm i) "sha256") eqn:Ha; split_bool; cbn [negb orb]; [|done].
  destruct (str_eqb (ig_Digest i) ""); [done|]. destruct (integrityDigest artifact) as [d|]; [|done]. cbn.
  destruct (str_eqb d (ig_Digest i)) eqn:Hd; split_bool; cbn; [|done]. by subst.
Qed.

Lemma valid_receipt_None r : ValidateExecutionReceipt r = None → ∃ l, receipt_fields r = Ok l ∧ integrityDigest (Ok l) = Ok (ig_Digest (er_Integrity r)).
Proof.
  unfold ValidateExecutionReceipt. destruct (_ || _); [done|]. cbv zeta. intros H.
  assert (validateTypedIntegrity (er_Integrity r) (receipt_fields r) = None) as [_ Hd]%typed_integrity_None.
  { destruct (er_ConsequenceAdmission r); [|done]. destruct (ValidateConsequenceAdmission _); [done|]. by destruct (negb _). }
  destruct (receipt_fields r) as [l|]; [by exists l|done].
Qed.

(** * Building *)

Lemma hex_digest_nonempty t : str_eqb (hex_digest t) "" = false.
Proof.
  apply str_eqb_neq. unfold hex_digest. pose proof (sha256_length t) as H. destruct (sha256 t) as [|a s]; [done|]. discriminate.
Qed.

Lemma result_bind_Ok {A B} (m : result A) (f : A → result B) b : m ≫= f = Ok b → ∃ a, m = Ok a ∧ f a = Ok b.
Proof. destruct m as [a|]; [|done]. intros H. by exists a. Qed.

Lemma integrity_attached i j body : names_ok body.*1 = true →
  integrityDigest (Ok (with_integrity i body)) = integrityDigest (Ok (with_integrity j body)).
Proof. intros Hn. unfold integrityDigest. by rewrite !unsealed_eq. Qed.

(** What is attached is found again. *)
Lemma typed_integrity_attached d i body : names_ok body.*1 = true → integrityDigest (Ok (with_integrity i body)) = Ok d →
  validateTypedIntegrity (sha256_integrity d) (Ok (with_integrity (sha256_integrity d) body)) = None.
Proof.
  intros Hn H. unfold validateTypedIntegrity. cbn [sha256_integrity ig_Algorithm ig_Digest]. rewrite (integrity_attached _ i _ Hn), H.
  unfold integrityDigest, digestJSON in H. injection H as <-. by rewrite hex_digest_nonempty, !str_eqb_refl.
Qed.

Lemma attached_receipt r r' : attach_receipt r = Ok r' → ∃ d, r' = with_receipt_Integrity (sha256_integrity d) r ∧
  validateTypedIntegrity (er_Integrity r') (receipt_fields r') = None.
Proof.
  intros (d & Hd & <-%Ok_inj)%result_bind_Ok. exists d. split; [done|]. cbn [with_receipt_Integrity er_Integrity].
  destruct (receipt_fields r) as [l|] eqn:E; [|done]. unfold receipt_fields in E.
  apply result_bind_Ok in E as (c & Ec & E). apply result_bind_Ok in E as (s & Es & E). apply result_bind_Ok in E as (f & Ef & E).
  apply result_bind_Ok in E as (a & Ea & <-%Ok_inj).
  assert (receipt_fields (with_receipt_Integrity (sha256_integrity d) r) = Ok (with_integrity (sha256_integrity d) (receipt_body r c s f a))) as ->.
  { unfold receipt_fields. cbn [with_receipt_Integrity er_CreatedAt er_StartedAt er_FinishedAt er_ConsequenceAdmission]. by rewrite Ec, Es, Ef, Ea. }
  by apply (typed_integrity_attached d (er_Integrity r)).
Qed.

Lemma attached_evidence e e' : attach_evidence e = Ok e' → ∃ d, e' = with_evidence_Integrity (sha256_integrity d) e ∧
  validateTypedIntegrity (re_Integrity e') (evidence_fields e') = None.
Proof.
  intros (d & Hd & <-%Ok_inj)%result_bind_Ok. exists d. split; [done|]. cbn [with_evidence_Integrity re_Integrity].
  destruct (evidence_fields e) as [l|] eqn:E; [|done]. unfold evidence_fields in E.
  apply result_bind_Ok in E as (c & Ec & E). apply result_bind_Ok in E as (s & Es & <-%Ok_inj).
  assert (evidence_fields (with_evidence_Integrity (sha256_integrity d) e) = Ok (with_integrity (sha256_integrity d) (evidence_body e c s))) as ->.
  { unfold evidence_fields. cbn [with_evidence_Integrity re_CreatedAt re_ObservedAt]. by rewrite Ec, Es. }
  by apply (typed_integrity_attached d (re_Integrity e)).
Qed.

(** An admission that a receipt may bind. *)
Definition admission_bindable (claims : PermitClaims) (startedAt : gotime) (a : ConsequenceAdmission) : Prop :=
  ValidateConsequenceAdmission a = None ∧ ca_Decision a = ConsequenceDecisionAdmissible ∧
  ca_ActionScopeDigest a = consequenceActionScopeDigest claims ∧ ca_EvaluatedAt a ≤ gt_instant startedAt.

Lemma bound_admission_Ok claims startedAt a d : bound_admission claims startedAt a = Ok d →
  (∀ x, a = Some x → admission_bindable claims startedAt x) ∧ admission_digest a = Ok d.
Proof.
  unfold bound_admission, admission_digest. destruct a as [a|]; [|by intros <-%Ok_inj]. destruct (ValidateConsequenceAdmission a) eqn:Hv; [done|].
  destruct (str_eqb (ca_Decision a) _) eqn:Hd; split_bool; cbn [negb]; [|done].
  destruct (str_eqb (ca_ActionScopeDigest a) _) eqn:Hs; split_bool; cbn [negb]; [|done].
  destruct (Z.ltb_spec (gt_instant startedAt) (ca_EvaluatedAt a)) as [Ht|Ht]; [done|]. intros H. split; [|done]. by intros x [= <-].
Qed.

(** The parts of a feedback. *)
Lemma Build_inv input receipt evidence : BuildExecutionReceiptFeedback input = Ok (receipt, evidence) →
  receipt_refusal input = None ∧ ∃ admissionDigest permitRef actionDigest traceID receiptID changesDigest evidenceID,
  bound_admission (pm_Claims (in_Permit input)) (in_StartedAt input) (in_ConsequenceAdmission input) = Ok admissionDigest ∧
  permitReference (in_Permit input) = Ok permitRef ∧ executionActionDigest (pm_Claims (in_Permit input)) = Ok actionDigest ∧
  attach_evidence (draft_evidence input evidenceID receiptID traceID permitRef actionDigest changesDigest admissionDigest) = Ok evidence ∧
  attach_receipt (draft_receipt input receiptID traceID permitRef actionDigest (Some [evidenceID])) = Ok receipt.
Proof.
  unfold BuildExecutionReceiptFeedback. destruct (receipt_refusal input); [done|]. cbv zeta.
  intros (d & Hd & H)%result_bind_Ok. apply result_bind_Ok in H as (p & Hp & H). apply result_bind_Ok in H as (ad & Ha & H).
  apply result_bind_Ok in H as (tr & _ & H). apply result_bind_Ok in H as (rid & _ & H). apply result_bind_Ok in H as (ch & _ & H).
  apply result_bind_Ok in H as (ev & _ & H). apply result_bind_Ok in H as (e & He & H). apply result_bind_Ok in H as (r & Hr & H).
  injection H as <- <-. split; [done|]. by exists d, p, ad, tr, rid, ch, ev.
Qed.

(** * Properties *)

(** C37: A receipt that is built, and the evidence that is built with it, validate;
    the receipt says what happened -- the outcome of the decision, the plan and the
    times, in order -- of the permit's intent, and names the digests of the permit
    and of its action; and a consequence admission it binds is valid, admissible,
    of this very action, and was taken before the execution started. *)
Theorem built_receipt_validates input receipt evidence : BuildExecutionReceiptFeedback input = Ok (receipt, evidence) →
  ValidateExecutionReceipt receipt = None ∧ ValidateReceiptEvidence evidence receipt = None ∧
  er_Outcome receipt = executionOutcome (in_Decision input) ∧ er_PlanDigest receipt = in_PlanDigest input ∧
  er_StartedAt receipt = UTC (in_StartedAt input) ∧ er_FinishedAt receipt = UTC (in_FinishedAt input) ∧
  gt_instant (er_StartedAt receipt) ≤ gt_instant (er_FinishedAt receipt) ∧
  er_RequestRef receipt = "intent:" +:+ pc_IntentID (pm_Claims (in_Permit input)) ∧
  permitReference (in_Permit input) = Ok (er_DecisionRef receipt) ∧
  executionActionDigest (pm_Claims (in_Permit input)) = Ok (er_ActionDigest receipt) ∧
  ∀ admission, er_ConsequenceAdmission receipt = Some admission →
    admission_bindable (pm_Claims (in_Permit input)) (er_StartedAt receipt) admission.
Proof.
  intros (Href & d & p & ad & tr & rid & ch & ev & Hd & Hp & Ha & He & Hr)%Build_inv.
  apply bound_admission_Ok in Hd as [Hbind Hd].
  apply attached_evidence in He as (de & -> & He). apply attached_receipt in Hr as (dr & -> & Hr).
  assert (gt_instant (in_StartedAt input) ≤ gt_instant (in_FinishedAt input)) as Htimes.
  { unfold receipt_refusal, guard_err, gt_Before in Href. repeat case_match; try done. by apply Z.ltb_ge. }
  split_and!; try done.
  - unfold ValidateExecutionReceipt. cbn [with_receipt_Integrity draft_receipt er_ContractVersion er_Kind er_ConsequenceAdmission].
    rewrite !str_eqb_refl. cbn [negb orb]. cbv zeta. destruct (in_ConsequenceAdmission input) as [a|]; [|exact Hr].
    destruct (Hbind a eq_refl) as (-> & Hdec & _). rewrite Hdec, str_eqb_refl. exact Hr.
  - unfold ValidateReceiptEvidence. rewrite He.
    cbn [with_evidence_Integrity draft_evidence with_receipt_Integrity draft_receipt re_ContractVersion re_Kind re_SourceRef re_TraceID re_ID re_Claims
      er_ID er_TraceID er_ProducedEvidenceRefs er_ConsequenceAdmission rv_ConsequenceAdmissionDigest].
    rewrite !str_eqb_refl, bool_decide_true, Hd by done. by rewrite str_eqb_refl.
Qed.


(** * Witnesses *)

Definition sample_admission : ConsequenceAdmission :=
  {| ca_APIVersion := ConsequenceAdmissionVersion; ca_Decision := ConsequenceDecisionAdmissible; ca_ConsequenceClass := "operational_state_change";
     ca_AdmissibilityPolicyRef := "r"; ca_PolicyVersion := "v1"; ca_PolicyHash := "h"; ca_PolicyOwner := "o"; ca_EvaluatedAt := 100;
     ca_ActionScopeDigest := consequenceActionScopeDigest sample_claims |}.

Definition sample_receipt_input : ExecutionReceiptInput := {|
  in_Permit := {| pm_APIVersion := PermitVersion; pm_KeyID := "k"; pm_Claims := sample_claims; pm_Signature := "c2ln" |}; in_Decision := "ALLOW";
  in_ReasonCodes := ["R"]; in_PlanDigest := "p"; in_StartedAt := {| gt_instant := 200; gt_offset := 3600 |}; in_FinishedAt := utc 300;
  in_ResourceChanges := [{| rg_Resource := "node/n1"; rg_Operation := "cordon"; rg_Result := "ok"; rg_Error := "" |}];
  in_ConsequenceAdmission := Some sample_admission |}.

Definition sample_built : result (ExecutionReceipt * ReceiptEvidence) := BuildExecutionReceiptFeedback sample_receipt_input.

Definition no_receipt : ExecutionReceipt := draft_receipt sample_receipt_input "" "" "" "" None.
Definition no_evidence : ReceiptEvidence := draft_evidence sample_receipt_input "" "" "" "" "" "" "".

Definition sample_receipt : ExecutionReceipt := match sample_built with Ok (r, _) => r | Error _ => no_receipt end.
Definition sample_evidence : ReceiptEvidence := match sample_built with Ok (_, e) => e | Error _ => no_evidence end.

Lemma sample_builds : BuildExecutionReceiptFeedback sample_receipt_input = Ok (sample_receipt, sample_evidence).
Proof. vm_compute. reflexivity. Qed.

(** A receipt is not valid with another outcome. *)
Example forged_outcome : (λ outcome, bool_decide (is_Some (ValidateExecutionReceipt {|
    er_ContractVersion := er_ContractVersion sample_receipt; er_Kind := er_Kind sample_receipt; er_ID := er_ID sample_receipt;
    er_TraceID := er_TraceID sample_receipt; er_Producer := er_Producer sample_receipt; er_CreatedAt := er_CreatedAt sample_receipt;
    er_RequestRef := er_RequestRef sample_receipt; er_DecisionRef := er_DecisionRef sample_receipt; er_ActionDigest := er_ActionDigest sample_receipt;
    er_StartedAt := er_StartedAt sample_receipt; er_FinishedAt := er_FinishedAt sample_receipt; er_Outcome := outcome;
    er_PlanDigest := er_PlanDigest sample_receipt; er_ReasonCodes := er_ReasonCodes sample_receipt;
    er_ResourceChanges := er_ResourceChanges sample_receipt; er_ConsequenceAdmission := er_ConsequenceAdmission sample_receipt;
    er_ActualUsage := er_ActualUsage sample_receipt; er_ProducedEvidenceRefs := er_ProducedEvidenceRefs sample_receipt;
    er_Integrity := er_Integrity sample_receipt |}))) <$> ["SUCCEEDED"; "BLOCKED"] = [false; true].
Proof. vm_compute. reflexivity. Qed.

Lemma sample_changes : er_ResourceChanges sample_receipt = copied (in_ResourceChanges sample_receipt_input).
Proof. vm_compute. reflexivity. Qed.

Lemma sample_admitted : er_ConsequenceAdmission sample_receipt = Some sample_admission.
Proof. vm_compute. reflexivity. Qed.

Lemma sample_usage : er_ActualUsage sample_receipt = Some ∅.
Proof. vm_compute. reflexivity. Qed.

Lemma sample_texts : match er_ProducedEvidenceRefs sample_receipt with Some l => forallb utf8_valid l | None => true end &&
  forallb utf8_valid (receipt_strings sample_receipt ++ er_ReasonCodes sample_receipt ++ admission_strings sample_admission) = true.
Proof. vm_compute. reflexivity. Qed.

Lemma sample_zones : gt_offset (er_CreatedAt sample_receipt) = 0 ∧ gt_offset (er_StartedAt sample_receipt) = 0 ∧
  gt_offset (er_FinishedAt sample_receipt) = 0.
Proof. vm_compute. done. Qed.

Lemma written_utc : written_offset 0.
Proof. by split. Qed.

Opaque sample_receipt sample_evidence.

Lemma sample_sound : sound_receipt sample_receipt.
Proof.
  pose proof sample_changes as Hch. pose proof sample_admitted as Ha. pose proof sample_usage as Hu. pose proof sample_texts as Hs. pose proof sample_zones as (H1 & H2 & H3).
  apply andb_true_iff in Hs as [Hr Hs].
  assert (∀ l, forallb utf8_valid l = true → Forall text_ok l) as Hall by (intros l Hl; apply List.Forall_forall; by apply List.forallb_forall).
  apply Hall in Hs. apply Forall_app in Hs as [Hs [Hrc Had]%Forall_app].
  split; [exact Hs|exact Hrc|rewrite H1; exact written_utc|rewrite H2; exact written_utc|rewrite H3; exact written_utc|..].
  - rewrite Hch. intros x [= <-]. repeat constructor.
  - rewrite Ha. intros x E. injection E as <-. exact Had.
  - rewrite Hu. intros x E. injection E as <-. intros k z Hk. by rewrite lookup_empty in Hk.
  - destruct (er_ProducedEvidenceRefs sample_receipt) as [l|]; [|intros x E; discriminate E]. intros x E. injection E as <-. apply Hall, Hr.
Qed.

Transparent sample_receipt sample_evidence.

Lemma sample_valid : ValidateExecutionReceipt sample_receipt = None.
Proof. vm_compute. reflexivity. Qed.

Strategy opaque [sample_receipt sample_evidence].

Example built_receipt_validates_witness :
  ValidateExecutionReceipt sample_receipt = None ∧ ValidateReceiptEvidence sample_evidence sample_receipt = None ∧
  er_Outcome sample_receipt = executionOutcome "ALLOW" ∧ er_PlanDigest sample_receipt = "p" ∧
  er_StartedAt sample_receipt = UTC {| gt_instant := 200; gt_offset := 3600 |} ∧ er_FinishedAt sample_receipt = UTC (utc 300) ∧
  gt_instant (er_StartedAt sample_receipt) ≤ gt_instant (er_FinishedAt sample_receipt) ∧
  er_RequestRef sample_receipt = "intent:" +:+ pc_IntentID sample_claims ∧
  permitReference (in_Permit sample_receipt_input) = Ok (er_DecisionRef sample_receipt) ∧
  executionActionDigest sample_claims = Ok (er_ActionDigest sample_receipt) ∧
  ∀ admission, er_ConsequenceAdmission sample_receipt = Some admission → admission_bindable sample_claims (er_StartedAt sample_receipt) admission.
Proof. exact (built_receipt_validates sample_receipt_input sample_receipt sample_evidence sample_builds). Defined.

