(* ===== verification/AnyValue.v ===== *)
(** * Values without a type

    What the source keeps in an [any] and a [map[string]any]: how a JSON text is
    read into one, how [json.Marshal] writes it, and the canonical form of a JSON
    text ([CanonicalJSON] of [internal/ege/conformance.go]).  A number is kept as
    the text that [json.Marshal] writes for it. *)

From S2P Require Import Prelude Crypto Format Json Unmarshal.
Local Open Scope Z_scope.

(** * Floating-point numbers

    [strconv.ParseFloat] rounds a decimal to the nearest binary64 number, ties to
    even; [json.Marshal] writes the shortest digits that read as the same number. *)

(** [m * 10 ^ e], read off a literal without its sign. *)
Definition decimal_of (lit : string) : option (Z * Z) :=
  '(i, s) ← parse_integer lit; '(f, s) ← parse_fraction s; '(e, _) ← parse_exponent s;
  let frac := match f with String _ d => d | "" => "" end in
  let value s := Z.of_N (dec_go 0 s) in
  let exponent := match e with
                  | String _ (String c d) =>
                      if Ascii.eqb c "-" then - value d else if Ascii.eqb c "+" then value d else value (String c d)
                  | _ => 0
                  end in
  Some (value (i +:+ frac), exponent - Z.of_nat (String.length frac)).

(** A positive quotient as [q * 2 ^ e] with [2 ^ 52 ≤ q < 2 ^ 53], or less at the
    least exponent; nothing when it is too large. *)
Definition nearest (num den : Z) : option (Z * Z) :=
  let l := Z.log2 num - Z.log2 den in
  let below := if 0 <=? l then num <? den * 2 ^ l else num * 2 ^ (- l) <? den in
  let e := Z.max ((if below then l - 1 else l) - 52) (-1074) in
  let '(n, d) := if 0 <=? e then (num, den * 2 ^ e) else (num * 2 ^ (- e), den) in
  let q := n / d in
  let r := n mod d in
  let q := if (2 * r <? d) || ((2 * r =? d) && Z.even q) then q else q + 1 in
  let '(q, e) := if q =? 2 ^ 53 then (2 ^ 52, e + 1) else (q, e) in
  if 971 <? e then None else Some (q, e).

(** [m * 10 ^ e]; beyond these bounds the result is infinite or zero. *)
Definition nearest_decimal (m e : Z) : option (Z * Z) :=
  let magnitude := Z.of_nat (String.length (pretty m)) + e in
  if m =? 0 then Some (0, 0)
  else if 400 <? magnitude then None
  else if magnitude <? -400 then Some (0, 0)
  else if 0 <=? e then nearest (m * 10 ^ e) 1 else nearest m (10 ^ (- e)).

Definition same_float (a : option (Z * Z)) (b : Z * Z) : bool := bool_decide (a = Some b).

(** The least number of digits, up to 17, that read as [q * 2 ^ e] = [num / den];
    of two such, the closer: the digits and their decimal exponent. *)
Fixpoint shortest_digits (fuel : nat) (n : Z) (num den p : Z) (x : Z * Z) : Z * Z :=
  let scale := p - n + 1 in
  let '(a, b) := if 0 <=? scale then (num, den * 10 ^ scale) else (num * 10 ^ (- scale), den) in
  let lo := a / b in
  match same_float (nearest_decimal lo scale) x, same_float (nearest_decimal (lo + 1) scale) x with
  | true, true => if 2 * (a mod b) <=? b then (lo, scale) else (lo + 1, scale)
  | true, false => (lo, scale)
  | false, true => (lo + 1, scale)
  | false, false => match fuel with O => (lo, scale) | S fuel => shortest_digits fuel (n + 1) num den p x end
  end.

(** The decimal exponent of the leading digit of a positive quotient. *)
Definition leading_exponent (num den : Z) : Z :=
  let guess := Z.of_nat (String.length (pretty num)) - Z.of_nat (String.length (pretty den)) in
  let reached := if 0 <=? guess then den * 10 ^ guess <=? num else den <=? num * 10 ^ (- guess) in
  if reached then guess else guess - 1.

Fixpoint strip_zeros (fuel : nat) (m e : Z) : Z * Z :=
  match fuel with
  | O => (m, e)
  | S fuel => if m mod 10 =? 0 then strip_zeros fuel (m / 10) (e + 1) else (m, e)
  end.

Definition zeros (n : Z) : string := String.string_of_list_ascii (replicate (Z.to_nat n) "0"%char).

Fixpoint split_at (n : nat) (s : string) : string * string :=
  match n, s with
  | S n, String a s => let '(l, r) := split_at n s in (String a l, r)
  | _, _ => ("", s)
  end.

(** The digits [ds] with the point after the first [dp]: plain from 1e-6 up to
    1e21, with an exponent otherwise. *)
Definition layout (ds : string) (dp : Z) : string :=
  let len := Z.of_nat (String.length ds) in
  if (dp <? -5) || (21 <? dp) then
    let '(d, rest) := split_at 1 ds in
    d +:+ (if str_eqb rest "" then "" else "." +:+ rest) +:+ (if dp - 1 <? 0 then "e-" else "e+") +:+ pretty (Z.abs (dp - 1))
  else if dp <=? 0 then "0." +:+ zeros (- dp) +:+ ds
  else if len <=? dp then ds +:+ zeros (dp - len)
  else let '(i, f) := split_at (Z.to_nat dp) ds in i +:+ "." +:+ f.

Definition float_digits (x : Z * Z) : string :=
  let '(q, e) := x in
  if q =? 0 then "0"
  else
    let '(num, den) := if 0 <=? e then (q * 2 ^ e, 1) else (q, 2 ^ (- e)) in
    let '(m, s) := shortest_digits 16 1 num den (leading_exponent num den) x in
    let '(m, s) := strip_zeros 20 m s in
    let ds := pretty m in
    layout ds (s + Z.of_nat (String.length ds)).

(** What [json.Marshal] writes of the number that a literal is read as. *)
Definition float_text (lit : string) : option string :=
  let '(sign, lit) := match lit with
                      | String a s => if Ascii.eqb a "-" then ("-", s) else ("", lit)
                      | "" => ("", "")
                      end in
  '(m, e) ← decimal_of lit; x ← nearest_decimal m e; Some (sign +:+ float_digits x).

Example float_text_samples :
  float_text <$> ["0.1"; "1.5e3"; "1e21"; "123456789.125"; "5e-324"; "1.7976931348623157e308"; "0.30000000000000004";
                  "0.0000001"; "9007199254740993"; "-0"; "1e400"; "2.2250738585072014E-308"; "100"; "-12.50"; "1e-400"; "4.35"; "0.000001"] =
  [Some "0.1"; Some "1500"; Some "1e+21"; Some "123456789.125"; Some "5e-324"; Some "1.7976931348623157e+308"; Some "0.30000000000000004";
   Some "1e-7"; Some "9007199254740992"; Some "-0"; None; Some "2.2250738585072014e-308"; Some "100"; Some "-12.5"; Some "0"; Some "4.35"; Some "0.000001"].
Proof. vm_compute. reflexivity. Qed.

(** * Values *)

(** The entries of a map have distinct keys, and their order does not show. *)
#[warnings="-register-all"]
Inductive any : Type :=
  | ANil
  | ABool (b : bool)
  | ANumber (text : string) (** as [json.Marshal] writes it *)
  | AString (s : string)
  | AArray (l : list any)
  | AMap (l : list (string * any))
  | AUnsupported. (** what [json.Marshal] refuses: a channel, an infinite number, ... *)

Definition entry_le {A} (p q : string * A) : Prop := String.le p.1 q.1.

#[export] Instance entry_le_dec {A} (p q : string * A) : Decision (entry_le p q).
Proof. unfold entry_le. apply _. Defined.

(** The order in which the members of a map are written. *)
Definition sort_entries {A} (l : list (string * A)) : list (string * A) := merge_sort entry_le l.

Fixpoint member_texts (l : list (string * string)) : string :=
  match l with
  | [] => ""
  | [(k, t)] => quoted (escape k) +:+ ":" +:+ t
  | (k, t) :: l => quoted (escape k) +:+ ":" +:+ t +:+ "," +:+ member_texts l
  end.

(** An object whose members are written already. *)
Definition object_text (l : list (string * string)) : string := "{" +:+ member_texts l +:+ "}".
Definition array_text (l : list string) : string := "[" +:+ join "," l +:+ "]".

Definition ErrUnsupportedValue : error := ErrNew "json: unsupported value".

(** [json.Marshal] *)
Fixpoint marshal_any (v : any) : result string :=
  match v with
  | ANil => Ok "null"
  | ABool b => Ok (if b then "true" else "false")
  | ANumber t => Ok t
  | AString s => Ok (quoted (escape s))
  | AArray l =>
      (fix elements l := match l with
                         | [] => λ acc, Ok (array_text (reverse acc))
                         | v :: l => λ acc, t ← marshal_any v; elements l (t :: acc)
                         end) l []
  | AMap l =>
      (fix entries l := match l with
                        | [] => λ acc, Ok (object_text (sort_entries acc))
                        | (k, v) :: l => λ acc, t ← marshal_any v; entries l ((k, t) :: acc)
                        end) l []
  | AUnsupported => Error ErrUnsupportedValue
  end.

Definition map_entries (m : gmap string any) : list (string * any) := map_to_list m.
Definition marshal_map (m : gmap string any) : result string := marshal_any (AMap (map_entries m)).

(** [m[k] = v] *)
Fixpoint put_entry {A} (k : string) (v : A) (l : list (string * A)) : list (string * A) :=
  match l with
  | [] => [(k, v)]
  | (k', v') :: l => if str_eqb k' k then (k, v) :: l else (k', v') :: put_entry k v l
  end.

Definition put_entries {A} (l : list (string * A)) : list (string * A) := foldl (λ m p, put_entry p.1 p.2 m) [] l.

Definition get_entry {A} (k : string) (l : list (string * A)) : option A := snd ∘ snd <$> list_find (λ p, p.1 = k) l.

(** What a parsed text is read into; a number out of range is an error. *)
Fixpoint any_of (v : jvalue) : result any :=
  match v with
  | VNull => Ok ANil
  | VBool b => Ok (ABool b)
  | VNumber lit => match float_text lit with Some t => Ok (ANumber t) | None => Error ErrUnmarshalType end
  | VString _ s => Ok (AString s)
  | VArray l =>
      (fix elements l acc := match l with
                             | [] => Ok (AArray (reverse acc))
                             | v :: l => a ← any_of v; elements l (a :: acc)
                             end) l []
  | VObject l =>
      (fix entries l acc := match l with
                            | [] => Ok (AMap (put_entries (reverse acc)))
                            | (k, v) :: l => a ← any_of v; entries l ((k, a) :: acc)
                            end) l []
  end.

(** A [map[string]any] as the target: [null] leaves it nil. *)
Definition map_of (v : jvalue) : result (option (gmap string any)) :=
  match v with
  | VNull => Ok None
  | VObject _ => a ← any_of v; match a with AMap l => Ok (Some (list_to_map l)) | _ => Error ErrUnmarshalType end
  | _ => Error ErrUnmarshalType
  end.

Definition any_sample : any := AMap [("b", AArray [ANumber "1.5"; ANil]); ("a", AString "<"); ("c", AMap [])].

Example marshal_sample : marshal_any any_sample =
  Ok ("{" +:+ quoted "a" +:+ ":" +:+ quoted "\u003c" +:+ "," +:+ quoted "b" +:+ ":[1.5,null]," +:+ quoted "c" +:+ ":{}}").
Proof. vm_compute. reflexivity. Qed.

Example any_of_sample : (t ← marshal_any any_sample; v ← parse_json t; any_of v ≫= marshal_any) = marshal_any any_sample.
Proof. vm_compute. reflexivity. Qed.

(** * Canonical JSON *)

Definition maxCanonicalSafeInteger : Z := 2 ^ 53 - 1.

Definition CANONICAL_JSON_INVALID : error := ErrNew "CANONICAL_JSON_INVALID".
Definition CANONICAL_STRING_INVALID : error := ErrNew "CANONICAL_STRING_INVALID".

Definition is_point (a : ascii) : bool := Ascii.eqb a "." || Ascii.eqb a "e" || Ascii.eqb a "E".

(** [strings.ContainsAny(s, ".eE")] *)
Fixpoint contains_point (s : string) : bool :=
  match s with "" => false | String a s => is_point a || contains_point s end.

(** [strconv.ParseInt(s, 10, 64)] of a JSON integer. *)
Definition canonical_number (lit : string) : result any :=
  if str_eqb lit "-0" then Error (ErrNew "CANONICAL_NEGATIVE_ZERO")
  else if contains_point lit then Error (ErrNew ("CANONICAL_NON_INTEGER_NUMBER:" +:+ lit))
  else match parse_int64 lit with
  | Some n =>
      if (n <? - maxCanonicalSafeInteger) || (maxCanonicalSafeInteger <? n)
      then Error (ErrNew ("CANONICAL_INTEGER_OUT_OF_RANGE:" +:+ lit))
      else Ok (ANumber (pretty n))
  | None => Error (ErrNew ("CANONICAL_INTEGER_OUT_OF_RANGE:" +:+ lit))
  end.

(** [readCanonicalValue], over the parsed text. *)
Fixpoint readCanonicalValue (v : jvalue) : result any :=
  match v with
  | VNull => Ok ANil
  | VBool b => Ok (ABool b)
  | VNumber lit => canonical_number lit
  | VString _ s => Ok (AString s)
  | VArray l =>
      (fix elements l acc := match l with
                             | [] => Ok (AArray (reverse acc))
                             | v :: l => a ← readCanonicalValue v; elements l (a :: acc)
                             end) l []
  | VObject l =>
      (fix entries l acc := match l with
                            | [] => Ok (AMap (reverse acc))
                            | (k, v) :: l =>
                                match get_entry k acc with
                                | Some _ => Error (ErrNew ("CANONICAL_DUPLICATE_KEY:" +:+ k))
                                | None => a ← readCanonicalValue v; entries l ((k, a) :: acc)
                                end
                            end) l []
  end.

Definition hex_code (a b c d : ascii) : option N := hex4 a b c d.

(** [validateJSONStringEscapes]: outside of a string up to the next quote, inside
    of one up to its end.  Its escapes are those of JSON's [\u], and a surrogate
    is followed by its other half. *)
Fixpoint validateJSONStringEscapes (inside : bool) (raw : string) : option error :=
  match raw with
  | "" => if inside then Some CANONICAL_JSON_INVALID else None
  | String a s =>
      if negb inside then validateJSONStringEscapes (Ascii.eqb a quote) s
      else if Ascii.eqb a quote then validateJSONStringEscapes false s
      else if Ascii.eqb a backslash then
        match s with
        | "" => Some CANONICAL_JSON_INVALID
        | String e s =>
            if negb (Ascii.eqb e "u") then validateJSONStringEscapes true s
            else match s with
            | String h1 (String h2 (String h3 (String h4 s))) =>
                match hex_code h1 h2 h3 h4 with
                | None => Some CANONICAL_JSON_INVALID
                | Some code =>
                    if (0xD800 <=? code)%N && (code <=? 0xDBFF)%N then
                      match s with
                      | String b (String u (String l1 (String l2 (String l3 (String l4 s))))) =>
                          if negb (Ascii.eqb b backslash && Ascii.eqb u "u") then Some CANONICAL_STRING_INVALID
                          else match hex_code l1 l2 l3 l4 with
                          | Some low =>
                              if (low <? 0xDC00)%N || (0xDFFF <? low)%N then Some CANONICAL_STRING_INVALID
                              else validateJSONStringEscapes true s
                          | None => Some CANONICAL_STRING_INVALID
                          end
                      | _ => Some CANONICAL_STRING_INVALID
                      end
                    else if (0xDC00 <=? code)%N && (code <=? 0xDFFF)%N then Some CANONICAL_STRING_INVALID
                    else validateJSONStringEscapes true s
                end
            | _ => Some CANONICAL_JSON_INVALID
            end
        end
      else if (N_of_ascii a <? 0x20)%N then Some CANONICAL_STRING_INVALID
      else validateJSONStringEscapes true s
  end.

(** [decodeCanonicalJSON]: the tokens have no bound on their depth.  A text that
    is not JSON, or with something after its value, is refused; of two faults the
    one that is reported may differ. *)
Definition decodeCanonicalJSON (raw : string) : result any :=
  if negb (utf8_valid raw) then Error (ErrNew "CANONICAL_UTF8_INVALID")
  else match validateJSONStringEscapes false raw with
  | Some err => Error err
  | None =>
      match parse_value (2 * String.length raw + 2) (N.of_nat (String.length raw)) (skip_space raw) with
      | None => Error CANONICAL_JSON_INVALID
      | Some (v, rest) =>
          value ← readCanonicalValue v;
          if str_eqb (skip_space rest) "" then Ok value else Error (ErrNew "CANONICAL_TRAILING_DATA")
      end
  end.

Definition CanonicalJSON (raw : string) : result string := decodeCanonicalJSON raw ≫= marshal_any.

Example CanonicalJSON_samples :
  CanonicalJSON <$> ["{" +:+ quoted "b" +:+ ": 1 , " +:+ quoted "a" +:+ " :[true, -7]}"; "1.0"; "-0"; "[9007199254740992]"; quoted "\ud800x"; "[1] 2";
                     "{" +:+ quoted "a" +:+ ":1," +:+ quoted "a" +:+ ":2}"] =
  [Ok ("{" +:+ quoted "a" +:+ ":[true,-7]," +:+ quoted "b" +:+ ":1}"); Error (ErrNew "CANONICAL_NON_INTEGER_NUMBER:1.0");
   Error (ErrNew "CANONICAL_NEGATIVE_ZERO"); Error (ErrNew "CANONICAL_INTEGER_OUT_OF_RANGE:9007199254740992"); Error CANONICAL_STRING_INVALID;
   Error (ErrNew "CANONICAL_TRAILING_DATA"); Error (ErrNew "CANONICAL_DUPLICATE_KEY:a")].
Proof. vm_compute. reflexivity. Qed.
