(* ===== verification/EvidencePipeline.v ===== *)
(** * Evidence packets

    Models [internal/evidencepipeline]: a runtime event compiled into a packet with
    its sensitive values redacted and its digest, the verification of a packet, and
    the binding of a permit to the packet of the action it authorises. *)

From S2P Require Import Prelude Crypto Format GoTime Json Unmarshal Permit FileSystem AnyValue.
Local Open Scope Z_scope.

Definition PacketVersion : string := "aegis.ege/evidence-packet/v0alpha2".
Definition redactedValue : string := "[REDACTED]".

Record Source : Type := { so_Name : string; so_TrustDomain : string; so_AttestationRef : string }.
Record Actor : Type := { ar_PrincipalID : string; ar_AgentID : string }.
Record Action : Type := { ac_Kind : string; ac_Tool : string; ac_Operation : string; ac_Target : string; ac_SideEffect : bool }.

(** A nil map is [None]. *)
Abbreviation data := (option (gmap string any)).

Record RuntimeEvent : Type := {
  re_IntentID : string; re_EventID : string; re_WorkflowID : string; re_RunID : string; re_Actor : Actor; re_Action : Action;
  re_ObservedAt : gotime; re_Data : data }.

Record ExecutionBinding : Type := {
  xb_DestinationID : string; xb_AccountID : string; xb_Endpoint : string; xb_AdapterProfile : string; xb_ExpectedResourceVersion : string }.

Record BootstrapContext : Type := {
  bc_AuthorityRef : string; bc_PolicyRef : string; bc_RedactionProfileRef : string; bc_ConsequenceClass : string;
  bc_ExecutionBinding : option ExecutionBinding; bc_ControlRefs : list string; bc_ApprovalRefs : list string }.

Record CompileRequest : Type := {
  rq_Event : RuntimeEvent; rq_Source : Source; rq_Context : BootstrapContext; rq_SensitivePaths : list string; rq_CapturedAt : gotime }.

Record Provenance : Type := {
  pv_Source : Source; pv_EventID : string; pv_WorkflowID : string; pv_RunID : string; pv_InputDigest : string;
  pv_ObservedAt : gotime; pv_CapturedAt : gotime }.

Record RedactionSummary : Type := { rs_ProfileRef : string; rs_RedactedPaths : list string }.
Record Integrity : Type := { it_Algorithm : string; it_Digest : string }.

Record Packet : Type := {
  pk_APIVersion : string; pk_IntentID : string; pk_Provenance : Provenance; pk_Actor : Actor; pk_Action : Action;
  pk_Context : BootstrapContext; pk_Evidence : data; pk_Redaction : RedactionSummary; pk_Integrity : Integrity }.

(** * Texts *)

Definition field_text (name value : string) : string * option json := (name, Some (JString value)).

Definition source_json (s : Source) : json :=
  object [field_text "name" (so_Name s); field_text "trust_domain" (so_TrustDomain s); ("attestation_ref", omit_string (so_AttestationRef s))].

Definition actor_json (a : Actor) : json := object [field_text "principal_id" (ar_PrincipalID a); ("agent_id", omit_string (ar_AgentID a))].

Definition action_json (a : Action) : json :=
  object [field_text "kind" (ac_Kind a); field_text "tool" (ac_Tool a); field_text "operation" (ac_Operation a); field_text "target" (ac_Target a);
          ("side_effect", Some (JBool (ac_SideEffect a)))].

Definition binding_fields (b : ExecutionBinding) : json :=
  object [field_text "destination_id" (xb_DestinationID b); field_text "account_id" (xb_AccountID b); field_text "endpoint" (xb_Endpoint b);
          field_text "adapter_profile" (xb_AdapterProfile b); field_text "expected_resource_version" (xb_ExpectedResourceVersion b)].

Definition context_json (c : BootstrapContext) : json :=
  object [field_text "authority_ref" (bc_AuthorityRef c); field_text "policy_ref" (bc_PolicyRef c);
          field_text "redaction_profile_ref" (bc_RedactionProfileRef c); field_text "consequence_class" (bc_ConsequenceClass c);
          ("execution_binding", binding_fields <$> bc_ExecutionBinding c); ("control_refs", omit_strings (bc_ControlRefs c));
          ("approval_refs", omit_strings (bc_ApprovalRefs c))].

Definition provenance_json (p : Provenance) : result json :=
  observed ← gotime_json (pv_ObservedAt p); captured ← gotime_json (pv_CapturedAt p);
  Ok (object [("source", Some (source_json (pv_Source p))); field_text "event_id" (pv_EventID p); ("workflow_id", omit_string (pv_WorkflowID p));
              ("run_id", omit_string (pv_RunID p)); field_text "input_digest" (pv_InputDigest p); ("observed_at", Some observed);
              ("captured_at", Some captured)]).

Definition redaction_json (r : RedactionSummary) : json :=
  object [field_text "profile_ref" (rs_ProfileRef r); ("redacted_paths", omit_strings (rs_RedactedPaths r))].

Definition data_text (d : data) : result string := match d with None => Ok "null" | Some m => marshal_map m end.

(** The members that are there. *)
Definition present (l : list (string * option json)) : list (string * string) := omap (λ '(k, v), (λ v, (k, encode v)) <$> v) l.

Definition event_text (e : RuntimeEvent) : result string :=
  observed ← gotime_json (re_ObservedAt e); evidence ← data_text (re_Data e);
  Ok (object_text (present
    [field_text "intent_id" (re_IntentID e); field_text "event_id" (re_EventID e); ("workflow_id", omit_string (re_WorkflowID e));
     ("run_id", omit_string (re_RunID e)); ("actor", Some (actor_json (re_Actor e))); ("action", Some (action_json (re_Action e)));
     ("observed_at", Some observed)] ++ [("data", evidence)])).

(** The text without the integrity. *)
Definition packet_text (p : Packet) : result string :=
  provenance ← provenance_json (pk_Provenance p); evidence ← data_text (pk_Evidence p);
  Ok (object_text (present
    [field_text "api_version" (pk_APIVersion p); field_text "intent_id" (pk_IntentID p); ("provenance", Some provenance);
     ("actor", Some (actor_json (pk_Actor p))); ("action", Some (action_json (pk_Action p))); ("context", Some (context_json (pk_Context p)))]
    ++ [("evidence", evidence); ("redaction", encode (redaction_json (pk_Redaction p)))])).

(** [digestJSON], of a value that is written as [text]. *)
Definition digestJSON (text : result string) : result string := t ← text; Ok (sha256_digest t).

Definition digestPacket (packet : Packet) : result string := digestJSON (packet_text packet).

Definition Verify (packet : Packet) : option error :=
  if negb (str_eqb (pk_APIVersion packet) PacketVersion) then Some (ErrNew ("unsupported evidence packet version " +:+ pk_APIVersion packet))
  else if negb (str_eqb (it_Algorithm (pk_Integrity packet)) "sha256") || str_eqb (it_Digest (pk_Integrity packet)) ""
  then Some (ErrNew "invalid evidence packet integrity metadata")
  else match digestPacket packet with
  | Error err => Some err
  | Ok actual => guard_err (negb (str_eqb actual (it_Digest (pk_Integrity packet)))) (ErrNew "evidence packet integrity mismatch")
  end.

(** * Redaction *)

(** [strings.ReplaceAll], of two characters and of one. *)
Fixpoint replace_pair (a b : ascii) (new : string) (s : string) : string :=
  match s with
  | String x (String y s' as t) => if Ascii.eqb x a && Ascii.eqb y b then new +:+ replace_pair a b new s' else String x (replace_pair a b new t)
  | _ => s
  end.

(** [strconv.Atoi] *)
Fixpoint all_digits (s : string) : bool := match s with "" => true | String a s => is_digit a && all_digits s end.

Definition strconv_Atoi (s : string) : option Z :=
  let '(sign, ds) := match s with
                     | String a r => if Ascii.eqb a "-" then (-1, r) else if Ascii.eqb a "+" then (1, r) else (1, s)
                     | "" => (1, "")
                     end in
  let n := sign * Z.of_N (dec_go 0 ds) in
  if nonempty ds && all_digits ds && (MinInt64 <=? n) && (n <=? MaxInt64) then Some n else None.

Definition array_index (segment : string) (len : nat) : option nat :=
  match strconv_Atoi segment with
  | Some i => if (i <? 0) || (Z.of_nat len <=? i) then None else Some (Z.to_nat i)
  | None => None
  end.

(** The value with what the segments lead to redacted. *)
Fixpoint redactAt (current : any) (segments : list string) : result any :=
  match segments with
  | [] => Error (ErrNew "cannot redact the document root")
  | segment :: rest =>
      let redacted value := match rest with [] => Ok (AString redactedValue) | _ => redactAt value rest end in
      match current with
      | AMap node =>
          match get_entry segment node with
          | None => Error (ErrNew "sensitive path does not exist")
          | Some value => v ← redacted value; Ok (AMap (put_entry segment v node))
          end
      | AArray node =>
          match array_index segment (length node) with
          | None => Error (ErrNew "sensitive array index does not exist")
          | Some i => match node !! i with
                      | None => Error (ErrNew "sensitive array index does not exist")
                      | Some value => v ← redacted value; Ok (AArray (<[i := v]> node))
                      end
          end
      | _ => Error (ErrNew "sensitive path traverses a scalar value")
      end
  end.

Definition pointer_segments (pointer : string) : list string :=
  match pointer with
  | String _ s => (λ s, replace_pair "~" "0" "~" (replace_pair "~" "1" "/" s)) <$> path_parts s
  | "" => []
  end.

Definition redactJSONPointer (root : gmap string any) (pointer : string) : result (gmap string any) :=
  if negb (rooted pointer) then Error (ErrNew "sensitive path must be an RFC 6901 JSON Pointer")
  else v ← redactAt (AMap (map_entries root)) (pointer_segments pointer);
       match v with AMap l => Ok (list_to_map l) | _ => Ok root end.

Fixpoint redact_all (evidence : gmap string any) (paths : list string) : result (gmap string any) :=
  match paths with
  | [] => Ok evidence
  | path :: paths =>
      match redactJSONPointer evidence path with
      | Error err => Error (ErrWrap ("redact " +:+ path) err)
      | Ok evidence => redact_all evidence paths
      end
  end.

(** * Compilation *)

(** The values once each, in order: an insertion sort in the source. *)
Definition uniqueSorted (values : list string) : list string := sort_strings (remove_dups values).

Definition cloneMap (input : gmap string any) : result data := body ← marshal_map input; v ← parse_json body; map_of v.

Definition required (value : string) (message : string) : option error := guard_err (str_eqb value "") (ErrNew message).

Definition validate_binding (b : ExecutionBinding) : option error :=
  (guard_err (blank (xb_DestinationID b)) (ErrNew "execution binding destination_id is required") ;;?
   guard_err (blank (xb_AccountID b)) (ErrNew "execution binding account_id is required") ;;?
   guard_err (blank (xb_Endpoint b)) (ErrNew "execution binding endpoint is required") ;;?
   guard_err (blank (xb_AdapterProfile b)) (ErrNew "execution binding adapter_profile is required") ;;?
   guard_err (blank (xb_ExpectedResourceVersion b)) (ErrNew "execution binding expected_resource_version is required"))%go.

Definition validateCompileRequest (req : CompileRequest) : option error :=
  let event := rq_Event req in
  let context := rq_Context req in
  (required (re_IntentID event) "intent_id is required" ;;?
   required (re_EventID event) "event_id is required" ;;?
   guard_err (gt_IsZero (re_ObservedAt event)) (ErrNew "observed_at is required") ;;?
   guard_err (gt_IsZero (rq_CapturedAt req)) (ErrNew "captured_at is required") ;;?
   required (so_Name (rq_Source req)) "source name is required" ;;?
   required (so_TrustDomain (rq_Source req)) "source trust_domain is required" ;;?
   required (ar_PrincipalID (re_Actor event)) "actor principal_id is required" ;;?
   required (ac_Kind (re_Action event)) "action kind is required" ;;?
   required (ac_Tool (re_Action event)) "action tool is required" ;;?
   required (ac_Operation (re_Action event)) "action operation is required" ;;?
   required (ac_Target (re_Action event)) "action target is required" ;;?
   required (bc_AuthorityRef context) "authority_ref is required; authority must not be inferred from runtime behavior" ;;?
   required (bc_PolicyRef context) "policy_ref is required" ;;?
   required (bc_RedactionProfileRef context) "redaction_profile_ref is required" ;;?
   required (bc_ConsequenceClass context) "consequence_class is required" ;;?
   guard_err (match re_Data event with None => true | Some _ => false end) (ErrNew "event data is required") ;;?
   match bc_ExecutionBinding context with Some b => validate_binding b | None => None end)%go.

Definition with_refs (c : BootstrapContext) : BootstrapContext := {|
  bc_AuthorityRef := bc_AuthorityRef c; bc_PolicyRef := bc_PolicyRef c; bc_RedactionProfileRef := bc_RedactionProfileRef c;
  bc_ConsequenceClass := bc_ConsequenceClass c; bc_ExecutionBinding := bc_ExecutionBinding c;
  bc_ControlRefs := uniqueSorted (bc_ControlRefs c); bc_ApprovalRefs := uniqueSorted (bc_ApprovalRefs c) |}.

Definition wrapped {A} (what : string) (r : result A) : result A := match r with Error err => Error (ErrWrap what err) | Ok a => Ok a end.

(** The packet before its digest is known. *)
Definition draft_packet (req : CompileRequest) (inputDigest : string) (evidence : gmap string any) (paths : list string) : Packet :=
  let event := rq_Event req in
  let context := with_refs (rq_Context req) in
  {| pk_APIVersion := PacketVersion; pk_IntentID := re_IntentID event;
     pk_Provenance := {| pv_Source := rq_Source req; pv_EventID := re_EventID event; pv_WorkflowID := re_WorkflowID event;
                         pv_RunID := re_RunID event; pv_InputDigest := inputDigest; pv_ObservedAt := UTC (re_ObservedAt event);
                         pv_CapturedAt := UTC (rq_CapturedAt req) |};
     pk_Actor := re_Actor event; pk_Action := re_Action event; pk_Context := context; pk_Evidence := Some evidence;
     pk_Redaction := {| rs_ProfileRef := bc_RedactionProfileRef context; rs_RedactedPaths := paths |};
     pk_Integrity := {| it_Algorithm := ""; it_Digest := "" |} |}.

Definition with_Integrity (digest : string) (p : Packet) : Packet := {|
  pk_APIVersion := pk_APIVersion p; pk_IntentID := pk_IntentID p; pk_Provenance := pk_Provenance p; pk_Actor := pk_Actor p;
  pk_Action := pk_Action p; pk_Context := pk_Context p; pk_Evidence := pk_Evidence p; pk_Redaction := pk_Redaction p;
  pk_Integrity := {| it_Algorithm := "sha256"; it_Digest := digest |} |}.

Definition Compile (req : CompileRequest) : result Packet :=
  match validateCompileRequest req with
  | Some err => Error err
  | None =>
      clone ← wrapped "clone event data" (cloneMap (default ∅ (re_Data (rq_Event req))));
      let paths := uniqueSorted (rq_SensitivePaths req) in
      evidence ← redact_all (default ∅ clone) paths;
      inputDigest ← wrapped "digest runtime event" (digestJSON (event_text (rq_Event req)));
      let packet := draft_packet req inputDigest evidence paths in
      digest ← digestPacket packet;
      Ok (with_Integrity digest packet)
  end.

(** * Permits *)

(** [claims.EvidencePacketDigest = digest] *)
Definition with_PacketDigest (digest : string) (c : PermitClaims) : PermitClaims := {|
  pc_IntentID := pc_IntentID c; pc_Kind := pc_Kind c; pc_Target := pc_Target c; pc_Action := pc_Action c;
  pc_ResourceVersion := pc_ResourceVersion c; pc_EvidenceDigest := pc_EvidenceDigest c;
  pc_EvidenceManifestDigest := pc_EvidenceManifestDigest c; pc_EvidencePacketDigest := digest; pc_PlanDigest := pc_PlanDigest c;
  pc_ApprovalRefs := pc_ApprovalRefs c; pc_ExecutionBinding := pc_ExecutionBinding c; pc_EBAContextProfile := pc_EBAContextProfile c;
  pc_EBATraceID := pc_EBATraceID c; pc_EBAAudience := pc_EBAAudience c; pc_EBANamespace := pc_EBANamespace c;
  pc_EBAAssumptionRefs := pc_EBAAssumptionRefs c; pc_EBAAuthorityRef := pc_EBAAuthorityRef c;
  pc_CapabilityFence := pc_CapabilityFence c; pc_ValidUntil := pc_ValidUntil c |}.

(** The path of a target. *)
Definition target_path (t : Target) : string := tg_Type t +:+ "/" +:+ tg_Name t.

Definition check_execution (expected : option ExecutionBinding) (claims : PermitClaims) : option error :=
  match expected, pc_ExecutionBinding claims with
  | None, None => None
  | Some expected, Some actual =>
      (guard_err (negb (str_eqb (xb_DestinationID expected) (eb_DestinationID actual)) || negb (str_eqb (xb_AccountID expected) (eb_AccountID actual)) ||
                  negb (str_eqb (xb_Endpoint expected) (eb_Endpoint actual)) || negb (str_eqb (xb_AdapterProfile expected) (eb_AdapterProfile actual)) ||
                  negb (str_eqb (xb_ExpectedResourceVersion expected) (eb_ExpectedResourceVersion actual)))
         (ErrNew "execution binding mismatch") ;;?
       guard_err (negb (str_eqb (pc_ResourceVersion claims) (eb_ExpectedResourceVersion actual)))
         (ErrNew "execution binding resource version mismatch"))%go
  | _, _ => Some (ErrNew "execution binding presence mismatch")
  end.

Definition check_claims (packet : Packet) (claims : PermitClaims) : option error :=
  (guard_err (str_eqb (pk_IntentID packet) "" || negb (str_eqb (pk_IntentID packet) (pc_IntentID claims))) (ErrNew "evidence packet intent mismatch") ;;?
   guard_err (negb (str_eqb (ac_Kind (pk_Action packet)) (pc_Kind claims))) (ErrNew "evidence packet kind mismatch") ;;?
   guard_err (negb (str_eqb (ac_Operation (pk_Action packet)) (pc_Action claims))) (ErrNew "evidence packet action mismatch") ;;?
   guard_err (negb (str_eqb (ac_Target (pk_Action packet)) (target_path (pc_Target claims)))) (ErrNew "evidence packet target mismatch") ;;?
   guard_err (negb (ac_SideEffect (pk_Action packet))) (ErrNew "evidence packet is not bound to a side-effecting action") ;;?
   required (bc_AuthorityRef (pk_Context packet)) "evidence packet authority_ref is required" ;;?
   required (bc_PolicyRef (pk_Context packet)) "evidence packet policy_ref is required" ;;?
   required (bc_RedactionProfileRef (pk_Context packet)) "evidence packet redaction_profile_ref is required" ;;?
   required (bc_ConsequenceClass (pk_Context packet)) "evidence packet consequence_class is required" ;;?
   check_execution (bc_ExecutionBinding (pk_Context packet)) claims)%go.

Definition BindPermitClaims (packet : Packet) (claims : PermitClaims) : result PermitClaims :=
  match Verify packet with
  | Some err => Error (ErrWrap "verify evidence packet" err)
  | None =>
      match check_claims packet claims with
      | Some err => Error err
      | None => Ok (with_PacketDigest (it_Digest (pk_Integrity packet)) claims)
      end
  end.

Definition VerifyPermitPacketBinding (packet : Packet) (claims : PermitClaims) : option error :=
  if str_eqb (pc_EvidencePacketDigest claims) "" then Some (ErrNew "execution permit is not bound to an evidence packet")
  else if negb (str_eqb (pc_EvidencePacketDigest claims) (it_Digest (pk_Integrity packet)))
  then Some (ErrNew "execution permit evidence packet digest mismatch")
  else match BindPermitClaims packet claims with
  | Error err => Some err
  | Ok bound =>
      guard_err (negb (str_eqb (pc_EvidencePacketDigest bound) (pc_EvidencePacketDigest claims)))
        (ErrNew "execution permit evidence packet binding changed")
  end.

Definition SignEvidenceBoundPermit {W} (authority : option (PermitAuthority W)) (packet : Packet) (claims : PermitClaims)
    : M W authority_event (result Permit) :=
  match BindPermitClaims packet claims with
  | Error err => mret (Error err)
  | Ok bound => SignPermit authority bound
  end.

(** * What a packet hides *)

Lemma get_put_entry {A} k (v : A) l : get_entry k (put_entry k v l) = Some v.
Proof.
  induction l as [|[k' v'] l IH]; unfold get_entry in *; cbn [put_entry]; [cbn; by rewrite decide_True|].
  destruct (str_eqb k' k) eqn:E; cbn; [by rewrite decide_True|]. apply str_eqb_neq in E. rewrite decide_False by done.
  by destruct (list_find _ (put_entry k v l)) as [[]|].
Qed.

Lemma get_put_other {A} k k' (v : A) l : k ≠ k' → get_entry k (put_entry k' v l) = get_entry k l.
Proof.
  intros Hk. induction l as [|[j w] l IH]; unfold get_entry in *; cbn [put_entry]; [cbn; by rewrite decide_False|].
  destruct (str_eqb j k') eqn:E; cbn.
  - apply str_eqb_eq in E as ->. by rewrite !decide_False.
  - destruct (decide (j = k)); [done|]. destruct (list_find _ (put_entry _ _ _)) as [[]|], (list_find _ l) as [[]|]; done.
Qed.

Lemma get_entry_map {A} k (l : list (string * A)) : (list_to_map l : gmap string A) !! k = get_entry k l.
Proof.
  induction l as [|[j w] l IH]; unfold get_entry in *; cbn; [done|]. destruct (decide (j = k)) as [->|Hne]; [by rewrite lookup_insert_eq|].
  rewrite lookup_insert_ne by done. rewrite IH. by destruct (list_find _ l) as [[]|].
Qed.

Lemma get_map_entries k (m : gmap string any) : get_entry k (map_entries m) = m !! k.
Proof. unfold map_entries. by rewrite <- get_entry_map, list_to_map_to_list. Qed.

(** What the segments lead to is redacted, or something on the way to it is. *)
Fixpoint hidden (v : any) (segments : list string) : Prop :=
  v = AString redactedValue ∨
  match segments with
  | [] => False
  | segment :: rest =>
      match v with
      | AMap node => ∃ w, get_entry segment node = Some w ∧ hidden w rest
      | AArray node => ∃ i w, array_index segment (length node) = Some i ∧ node !! i = Some w ∧ hidden w rest
      | _ => False
      end
  end.

Lemma hidden_redacted segments : hidden (AString redactedValue) segments.
Proof. destruct segments; by left. Qed.

(** The two shapes of a redaction. *)
Lemma redactAt_inv v segment rest v' : redactAt v (segment :: rest) = Ok v' →
  ∃ w w', (rest = [] ∧ w' = AString redactedValue ∨ rest ≠ [] ∧ redactAt w rest = Ok w') ∧
    ((∃ node, v = AMap node ∧ get_entry segment node = Some w ∧ v' = AMap (put_entry segment w' node)) ∨
     (∃ node i, v = AArray node ∧ array_index segment (length node) = Some i ∧ node !! i = Some w ∧ v' = AArray (<[i := w']> node))).
Proof.
  assert (∀ w w', match rest with [] => Ok (AString redactedValue) | _ => redactAt w rest end = Ok w' →
    rest = [] ∧ w' = AString redactedValue ∨ rest ≠ [] ∧ redactAt w rest = Ok w') as Hw.
  { intros w w'. destruct rest; [intros [= <-]; by left|by right]. }
  destruct v as [| | | |node|node|]; try done; cbn [redactAt].
  - destruct (array_index segment (length node)) as [i|] eqn:Hi; [|done]. destruct (node !! i) as [w|] eqn:Hn; [|done]. intros H.
    destruct (match rest with [] => _ | _ => _ end) as [w'|] eqn:E; [|done]. injection H as <-. exists w, w'. split; [by apply Hw|]. right. by exists node, i.
  - destruct (get_entry segment node) as [w|] eqn:Hn; [|done]. intros H.
    destruct (match rest with [] => _ | _ => _ end) as [w'|] eqn:E; [|done]. injection H as <-. exists w, w'. split; [by apply Hw|]. left. by exists node.
Qed.

Lemma redactAt_hides v segments v' : redactAt v segments = Ok v' → hidden v' segments.
Proof.
  revert v v'. induction segments as [|segment rest IH]; intros v v'; [done|]. intros (w & w' & Hw & H)%redactAt_inv.
  assert (hidden w' rest) as Hh by (destruct Hw as [[_ ->]|[_ Hr]]; [apply hidden_redacted|by eapply IH]). right.
  destruct H as [(node & -> & Hg & ->)|(node & i & -> & Hi & Hn & ->)].
  - exists w'. by rewrite get_put_entry.
  - exists i, w'. rewrite length_insert. split_and!; [done| |done]. apply list_lookup_insert_eq. by eapply lookup_lt_Some.
Qed.

(** A later redaction uncovers nothing. *)
Lemma redactAt_keeps v segments v' hid : redactAt v segments = Ok v' → hidden v hid → hidden v' hid.
Proof.
  revert v v' hid. induction segments as [|segment rest IH]; intros v v' hid; [done|]. intros (w & w' & Hw & H)%redactAt_inv Hh.
  assert (∀ hid', hidden w hid' → hidden w' hid') as Hkeep by (destruct Hw as [[_ ->]|[_ Hr]]; [intros; apply hidden_redacted|intros; by eapply IH]).
  destruct hid as [|s hid]; destruct H as [(node & -> & Hg & ->)|(node & i & -> & Hi & Hn & ->)]; destruct Hh as [Hh|Hh]; try done; right.
  - destruct Hh as (u & Hu & Hh). destruct (decide (s = segment)) as [->|Hne]; [|exists u; by rewrite get_put_other].
    rewrite Hg in Hu. injection Hu as <-. exists w'. split; [apply get_put_entry|auto].
  - destruct Hh as (j & u & Hj & Hu & Hh). rewrite <- (length_insert node i w') in Hj. destruct (decide (j = i)) as [->|Hne].
    + rewrite Hn in Hu. injection Hu as <-. exists i, w'. split_and!; [done| |auto]. apply list_lookup_insert_eq. by eapply lookup_lt_Some.
    + exists j, u. split_and!; [done|by rewrite list_lookup_insert_ne|done].
Qed.

(** Only the looked up entries count. *)
Lemma hidden_entries l l' hid : (∀ k, get_entry k l = get_entry k l') → hidden (AMap l) hid → hidden (AMap l') hid.
Proof. intros H. destruct hid as [|s hid]; intros [Hh|Hh]; try done. right. destruct Hh as (w & Hw & Hh). exists w. by rewrite <- H. Qed.

Lemma redact_pointer_inv m pointer m' : redactJSONPointer m pointer = Ok m' → ∃ l, redactAt (AMap (map_entries m)) (pointer_segments pointer) = Ok (AMap l) ∧
  m' = list_to_map l.
Proof.
  unfold redactJSONPointer. destruct (negb _); [done|]. destruct (pointer_segments pointer) as [|segment rest]; [done|].
  destruct (redactAt _ _) as [v|] eqn:H; [|done]. apply redactAt_inv in H as (w & w' & _ & [(node & _ & _ & ->)|(node & i & [=] & _)]).
  intros [= <-]. by eexists.
Qed.

Definition hides (m : gmap string any) (path : string) : Prop := hidden (AMap (map_entries m)) (pointer_segments path).

Lemma redact_pointer_hides m pointer m' : redactJSONPointer m pointer = Ok m' → hides m' pointer ∧ ∀ path, hides m path → hides m' path.
Proof.
  intros (l & H & ->)%redact_pointer_inv.
  assert (∀ k, get_entry k l = get_entry k (map_entries (list_to_map l))) as Hl by (intros k; by rewrite get_map_entries, get_entry_map).
  split; [|intros path Hp]; eapply hidden_entries; [exact Hl|by eapply redactAt_hides|exact Hl|by eapply redactAt_keeps].
Qed.

(** Only what is under the first segments of the paths changes. *)
Definition first_segment (path : string) : option string := head (pointer_segments path).

Lemma redact_pointer_other m pointer m' k : redactJSONPointer m pointer = Ok m' → first_segment pointer ≠ Some k → m' !! k = m !! k.
Proof.
  intros (l & H & ->)%redact_pointer_inv Hk. unfold first_segment in Hk. destruct (pointer_segments pointer) as [|segment rest]; [done|].
  apply redactAt_inv in H as (w & w' & _ & [(node & [= <-] & _ & [= ->])|(node & i & [=] & _)]). rewrite get_entry_map, get_put_other by (intros ->; by apply Hk).
  apply get_map_entries.
Qed.

Lemma redact_all_hides paths m m' : redact_all m paths = Ok m' →
  (∀ path, path ∈ paths ∨ hides m path → hides m' path) ∧ (∀ k, (∀ path, path ∈ paths → first_segment path ≠ Some k) → m' !! k = m !! k).
Proof.
  revert m. induction paths as [|path paths IH]; intros m; cbn [redact_all].
  { intros [= <-]. split; [by intros path [?%elem_of_nil|]|done]. }
  destruct (redactJSONPointer m path) as [m1|] eqn:H1; [|done]. intros [Hh Ho]%IH. pose proof (redact_pointer_hides _ _ _ H1) as [Hp Hk]. split.
  - intros p [[->|Hin]%elem_of_cons|Hm]; apply Hh; auto.
  - intros k Hk'. rewrite Ho by set_solver. eapply redact_pointer_other; [done|set_solver].
Qed.


(** * A packet *)

Definition sample_binding : ExecutionBinding := {|
  xb_DestinationID := "crm-1"; xb_AccountID := "acct-1"; xb_Endpoint := "https://crm.example/api"; xb_AdapterProfile := "aegis.eep/crm-http-json/v1";
  xb_ExpectedResourceVersion := "v1" |}.

Definition sample_data : gmap string any :=
  {[ "card" := AMap [("number", AString "4111"); ("kind", AString "visa")]; "amount" := ANumber "12.5" ]}.

Definition sample_request : CompileRequest := {|
  rq_Event := {| re_IntentID := "intent-1"; re_EventID := "ev-1"; re_WorkflowID := ""; re_RunID := "";
                 re_Actor := {| ar_PrincipalID := "user-1"; ar_AgentID := "" |};
                 re_Action := {| ac_Kind := "crm.customer_update"; ac_Tool := "crm.http-json"; ac_Operation := "update_customer";
                                 ac_Target := "customer/c1"; ac_SideEffect := true |};
                 re_ObservedAt := utc 50; re_Data := Some sample_data |};
  rq_Source := {| so_Name := "runtime"; so_TrustDomain := "prod"; so_AttestationRef := "" |};
  rq_Context := {| bc_AuthorityRef := "authority-1"; bc_PolicyRef := "policy-1"; bc_RedactionProfileRef := "profile-1";
                   bc_ConsequenceClass := "customer_change"; bc_ExecutionBinding := Some sample_binding; bc_ControlRefs := []; bc_ApprovalRefs := [] |};
  rq_SensitivePaths := ["/card/number"]; rq_CapturedAt := utc 60 |}.

Definition no_packet : Packet := draft_packet sample_request "" ∅ [].
Definition sample_packet : Packet := match Compile sample_request with Ok packet => packet | Error _ => no_packet end.

Lemma sample_compiles : Compile sample_request = Ok sample_packet.
Proof. vm_compute. reflexivity. Qed.

Example sample_evidence : (m ← pk_Evidence sample_packet; match marshal_map m with Ok t => Some t | Error _ => None end) =
  Some ("{" +:+ quoted "amount" +:+ ":12.5," +:+ quoted "card" +:+ ":{" +:+ quoted "kind" +:+ ":" +:+ quoted "visa" +:+ "," +:+
        quoted "number" +:+ ":" +:+ quoted "[REDACTED]" +:+ "}}").
Proof. vm_compute. reflexivity. Qed.

Strategy opaque [sample_packet Compile].

