(* ===== verification/CrmOutcome.v ===== *)
(** * Evidence of a change request

    Models the data of [internal/eepcrm]: the plan of a customer update and its
    digest, the evaluation of its postcondition ([postcondition.go]), and the
    evidence of an outcome ([executor.go]) and of a closure ([recovery.go]) with
    their validation and digests. *)

From S2P Require Import Prelude Crypto Format GoTime Json Unmarshal Permit KernelAbi Workload AnyValue EvidencePipeline.
Local Open Scope Z_scope.

Definition OutcomeVersion : string := "aegis.eep/crm-outcome/v0alpha2".
Definition CRMAdapterProfileVersion : string := "aegis.eep/crm-http-json/v1".
Definition PostconditionProfileVersion : string := "aegis.eep/crm-postcondition/v1".
Definition ClosureEvidenceVersion : string := "aegis.eep/crm-closure/v1".

Definition PostconditionVerified : string := "VERIFIED".
Definition PostconditionPartial : string := "PARTIAL".
Definition PostconditionUnsatisfied : string := "UNSATISFIED".
Definition PostconditionUnknown : string := "UNKNOWN".
Definition PostconditionAlreadySatisfied : string := "ALREADY_SATISFIED".

Definition RequestNotDispatched : string := "NOT_DISPATCHED".
Definition RequestAccepted : string := "ACCEPTED".
Definition RequestAcceptanceUnknown : string := "UNKNOWN".

Definition ObservationPreMutation : string := "PRE_MUTATION".
Definition ObservationStable : string := "OBSERVED_STABLE".
Definition ObservationUnavailable : string := "UNAVAILABLE".
Definition ObservationContradictory : string := "CONTRADICTORY".
Definition ObservationWrongTarget : string := "WRONG_TARGET".

Definition AttemptClaimed : string := "CLAIMED".
Definition AttemptPossibleEffect : string := "POSSIBLE_EFFECT".
Definition AttemptAccepted : string := "ACCEPTED".
Definition AttemptBlocked : string := "BLOCKED".
Definition AttemptCompleted : string := "COMPLETED".
Definition AttemptRetiredUnknown : string := "RETIRED_UNKNOWN".

Definition ClosureObservationPending : string := "OBSERVATION_PENDING".
Definition ClosureObservedCompleted : string := "OBSERVED_COMPLETED".
Definition ClosureRetiredUnknown : string := "RETIRED_UNKNOWN".

(** A nil map and an empty one are refused alike. *)
Record CustomerUpdatePlan : Type := { cp_CustomerID : string; cp_Patch : gmap string any }.

Record FieldPostcondition : Type := {
  fp_Path : string; fp_ExpectedDigest : string; fp_ObservedDigest : string; fp_Present : bool; fp_Satisfied : bool }.

Record PostconditionEvaluation : Type := {
  pe_ProfileVersion : string; pe_Result : string; pe_MatchedFields : Z; pe_TotalFields : Z; pe_Fields : list FieldPostcondition }.

Record OutcomeEvidence : Type := {
  oe_APIVersion : string; oe_PostconditionProfile : string; oe_IntentID : string; oe_Target : string; oe_EvidencePacketDigest : string;
  oe_PermitDigest : string; oe_PlanDigest : string; oe_BeforeDigest : string; oe_AfterDigest : string; oe_Result : string;
  oe_RequestAcceptance : string; oe_ObservationStatus : string; oe_ObservationCount : Z; oe_Postcondition : option PostconditionEvaluation;
  oe_HTTPStatus : Z; oe_ObservedAt : gotime; oe_IntegrityDigest : string }.

Record ClosureEvidence : Type := {
  ce_APIVersion : string; ce_AttemptID : string; ce_IntentID : string; ce_Target : string; ce_PermitDigest : string; ce_PlanDigest : string;
  ce_DestinationID : string; ce_AccountID : string; ce_ObservationHandle : string; ce_StateBefore : string; ce_StateAfter : string;
  ce_Disposition : string; ce_Result : string; ce_RequestAcceptance : string; ce_ObservationStatus : string; ce_ObservationCount : Z;
  ce_Postcondition : option PostconditionEvaluation; ce_ResidualCustody : bool; ce_NewMutationDispatched : bool; ce_Detail : string;
  ce_ObservedAt : gotime; ce_IntegrityDigest : string }.

#[export] Instance FieldPostcondition_eq_dec : EqDecision FieldPostcondition.
Proof. solve_decision. Defined.
#[export] Instance PostconditionEvaluation_eq_dec : EqDecision PostconditionEvaluation.
Proof. solve_decision. Defined.

(** * Digests *)

(** [journal.DigestPayload], of a value that is written as [text]. *)
Definition DigestPayload (text : result string) : result string := wrapped "marshal payload" (digestJSON text).

Definition DigestCustomerUpdatePlan (plan : CustomerUpdatePlan) : result string :=
  if blank (cp_CustomerID plan) then Error (ErrNew "customer_id is required")
  else if bool_decide (size (cp_Patch plan) = 0%nat) then Error (ErrNew "customer patch is required")
  else
    raw ← wrapped "marshal customer update plan"
      (patch ← marshal_map (cp_Patch plan);
       Ok (object_text [("customer_id", encode (JString (cp_CustomerID plan))); ("patch", patch)]));
    body ← wrapped "canonicalize customer update plan" (CanonicalJSON raw);
    Ok (sha256_digest body).

(** * Postconditions *)

(** [escapeJSONPointerToken] *)
Fixpoint replace_char (a : ascii) (new : string) (s : string) : string :=
  match s with "" => "" | String x s => if Ascii.eqb x a then new +:+ replace_char a new s else String x (replace_char a new s) end.

Definition escapeJSONPointerToken (value : string) : string := replace_char "/" "~1" (replace_char "~" "~0" value).

Definition value_digest (v : any) : result string := DigestPayload (marshal_any (AMap [("value", v)])).

(** One turn of the loop over the keys. *)
Definition evaluate_field (patch state : gmap string any) (key : string) : result FieldPostcondition :=
  let expected := default ANil (patch !! key) in
  expectedBytes ← wrapped ("canonicalize expected field " +:+ key) (marshal_any expected);
  expectedDigest ← value_digest expected;
  let field observedDigest present satisfied := {|
    fp_Path := "/" +:+ escapeJSONPointerToken key; fp_ExpectedDigest := expectedDigest; fp_ObservedDigest := observedDigest;
    fp_Present := present; fp_Satisfied := satisfied |} in
  match state !! key with
  | None => Ok (field "" false false)
  | Some observed =>
      observedBytes ← wrapped ("canonicalize observed field " +:+ key) (marshal_any observed);
      observedDigest ← value_digest observed;
      Ok (field observedDigest true (str_eqb expectedBytes observedBytes))
  end.

Fixpoint evaluate_fields (patch state : gmap string any) (keys : list string) : result (list FieldPostcondition) :=
  match keys with
  | [] => Ok []
  | key :: keys => field ← evaluate_field patch state key; fields ← evaluate_fields patch state keys; Ok (field :: fields)
  end.

Definition patch_keys (patch : gmap string any) : list string := sort_strings (map_to_list patch).*1.

Definition matched (fields : list FieldPostcondition) : Z := Z.of_nat (countb fp_Satisfied fields).

Definition postcondition_result (matched total : Z) : string :=
  if matched =? total then PostconditionVerified else if matched =? 0 then PostconditionUnsatisfied else PostconditionPartial.

(** A nil observation is [None]. *)
Definition EvaluateCustomerUpdatePostcondition (plan : CustomerUpdatePlan) (state : data) : result PostconditionEvaluation :=
  if blank (cp_CustomerID plan) then Error (ErrNew "customer_id is required")
  else if bool_decide (size (cp_Patch plan) = 0%nat) then Error (ErrNew "customer patch is required")
  else match state with
  | None => Error (ErrNew "customer observation is required")
  | Some state =>
      let keys := patch_keys (cp_Patch plan) in
      fields ← evaluate_fields (cp_Patch plan) state keys;
      let total := Z.of_nat (length keys) in
      Ok {| pe_ProfileVersion := PostconditionProfileVersion; pe_Result := postcondition_result (matched fields) total;
            pe_MatchedFields := matched fields; pe_TotalFields := total; pe_Fields := fields |}
  end.

Definition EquivalentPostconditionObservation (a b : PostconditionEvaluation) : bool :=
  str_eqb (pe_ProfileVersion a) (pe_ProfileVersion b) && (pe_MatchedFields a =? pe_MatchedFields b) &&
  (pe_TotalFields a =? pe_TotalFields b) && bool_decide (pe_Fields a = pe_Fields b).

(** The loop over the fields: how many are satisfied. *)
Fixpoint validate_fields (fields : list FieldPostcondition) (previousPath : string) (matched : Z) : result Z :=
  match fields with
  | [] => Ok matched
  | field :: fields =>
      if str_eqb (fp_Path field) "" || str_eqb (fp_ExpectedDigest field) "" then Error (ErrNew "postcondition field identity/digest missing")
      else if negb (str_eqb previousPath "") && bool_decide (String.le (fp_Path field) previousPath)
      then Error (ErrNew "postcondition fields must be uniquely sorted")
      else if fp_Satisfied field then
        if negb (fp_Present field) || str_eqb (fp_ObservedDigest field) "" || negb (str_eqb (fp_ObservedDigest field) (fp_ExpectedDigest field))
        then Error (ErrNew "satisfied field lacks matching observed evidence")
        else validate_fields fields (fp_Path field) (matched + 1)
      else validate_fields fields (fp_Path field) matched
  end.

Definition ValidatePostconditionEvaluation (evaluation : PostconditionEvaluation) : option error :=
  if negb (str_eqb (pe_ProfileVersion evaluation) PostconditionProfileVersion)
  then Some (ErrNew ("unsupported postcondition profile " +:+ pe_ProfileVersion evaluation))
  else if (pe_TotalFields evaluation <=? 0) || negb (Z.of_nat (length (pe_Fields evaluation)) =? pe_TotalFields evaluation)
  then Some (ErrNew "postcondition field cardinality invalid")
  else match validate_fields (pe_Fields evaluation) "" 0 with
  | Error err => Some err
  | Ok matched =>
      let result := pe_Result evaluation in
      if negb (matched =? pe_MatchedFields evaluation) then Some (ErrNew "postcondition matched field count invalid")
      else if str_eqb result PostconditionVerified then
        guard_err (negb (matched =? pe_TotalFields evaluation)) (ErrNew "VERIFIED requires every intended field")
      else if str_eqb result PostconditionPartial then
        guard_err ((matched <=? 0) || (pe_TotalFields evaluation <=? matched)) (ErrNew "PARTIAL requires some but not all intended fields")
      else if str_eqb result PostconditionUnsatisfied then
        guard_err (negb (matched =? 0)) (ErrNew "UNSATISFIED requires zero intended fields")
      else if str_eqb result PostconditionUnknown then Some (ErrNew "UNKNOWN is an outcome disposition, not a state evaluation")
      else Some (ErrNew ("unsupported postcondition result " +:+ result))
  end.

Definition field_json (f : FieldPostcondition) : json :=
  object [field_text "path" (fp_Path f); field_text "expected_digest" (fp_ExpectedDigest f); ("observed_digest", omit_string (fp_ObservedDigest f));
          ("present", Some (JBool (fp_Present f))); ("satisfied", Some (JBool (fp_Satisfied f)))].

Definition evaluation_json (e : PostconditionEvaluation) : json :=
  object [field_text "profile_version" (pe_ProfileVersion e); field_text "result" (pe_Result e); number_field "matched_fields" (pe_MatchedFields e);
          number_field "total_fields" (pe_TotalFields e); ("fields", Some (JArray (field_json <$> pe_Fields e)))].

(** * Outcomes *)

Definition with_OutcomeDigest (digest : string) (o : OutcomeEvidence) : OutcomeEvidence := {|
  oe_APIVersion := oe_APIVersion o; oe_PostconditionProfile := oe_PostconditionProfile o; oe_IntentID := oe_IntentID o; oe_Target := oe_Target o;
  oe_EvidencePacketDigest := oe_EvidencePacketDigest o; oe_PermitDigest := oe_PermitDigest o; oe_PlanDigest := oe_PlanDigest o;
  oe_BeforeDigest := oe_BeforeDigest o; oe_AfterDigest := oe_AfterDigest o; oe_Result := oe_Result o;
  oe_RequestAcceptance := oe_RequestAcceptance o; oe_ObservationStatus := oe_ObservationStatus o; oe_ObservationCount := oe_ObservationCount o;
  oe_Postcondition := oe_Postcondition o; oe_HTTPStatus := oe_HTTPStatus o; oe_ObservedAt := oe_ObservedAt o; oe_IntegrityDigest := digest |}.

Definition outcome_text (o : OutcomeEvidence) : result string :=
  observed ← gotime_json (oe_ObservedAt o);
  Ok (encode (object
    [field_text "api_version" (oe_APIVersion o); field_text "postcondition_profile" (oe_PostconditionProfile o); field_text "intent_id" (oe_IntentID o);
     field_text "target" (oe_Target o); field_text "evidence_packet_digest" (oe_EvidencePacketDigest o); field_text "permit_digest" (oe_PermitDigest o);
     field_text "plan_digest" (oe_PlanDigest o); field_text "before_digest" (oe_BeforeDigest o); ("after_digest", omit_string (oe_AfterDigest o));
     field_text "result" (oe_Result o); field_text "request_acceptance" (oe_RequestAcceptance o); field_text "observation_status" (oe_ObservationStatus o);
     number_field "observation_count" (oe_ObservationCount o); ("postcondition", evaluation_json <$> oe_Postcondition o);
     ("http_status", omit_number (oe_HTTPStatus o)); ("observed_at", Some observed); field_text "integrity_digest" (oe_IntegrityDigest o)])).

Definition digestOutcome (outcome : OutcomeEvidence) : result string := DigestPayload (outcome_text (with_OutcomeDigest "" outcome)).

Definition is_success (status : Z) : bool := (200 <=? status) && (status <? 300).

Definition has_result (evaluation : option PostconditionEvaluation) (result : string) : bool :=
  match evaluation with Some e => str_eqb (pe_Result e) result | None => false end.

Definition postcondition_error (what : string) (evaluation : option PostconditionEvaluation) : option error :=
  match evaluation with
  | Some e => ErrWrap what <$> ValidatePostconditionEvaluation e
  | None => None
  end.

Definition acceptance_error (o : OutcomeEvidence) : option error :=
  let acceptance := oe_RequestAcceptance o in
  if str_eqb acceptance RequestNotDispatched then
    guard_err (negb (oe_HTTPStatus o =? 0)) (ErrNew "NOT_DISPATCHED outcome cannot carry an HTTP mutation status")
  else if str_eqb acceptance RequestAccepted then
    guard_err (negb (is_success (oe_HTTPStatus o))) (ErrNew "ACCEPTED outcome requires a 2xx mutation response")
  else if str_eqb acceptance RequestAcceptanceUnknown then
    guard_err (is_success (oe_HTTPStatus o)) (ErrNew "UNKNOWN request acceptance cannot carry a successful mutation response")
  else Some (ErrNew ("unsupported request acceptance " +:+ acceptance)).

Definition dispatched_acceptance (o : OutcomeEvidence) : bool :=
  str_eqb (oe_RequestAcceptance o) RequestAccepted || str_eqb (oe_RequestAcceptance o) RequestAcceptanceUnknown.

(** The three results that rest on a stable observation. *)
Definition stable_error (o : OutcomeEvidence) (result what : string) : option error :=
  (guard_err (negb (dispatched_acceptance o)) (ErrNew (result +:+ " outcome has invalid request acceptance")) ;;?
   guard_err (negb (str_eqb (oe_ObservationStatus o) ObservationStable) || negb (oe_ObservationCount o =? 3) ||
              str_eqb (oe_AfterDigest o) "" || negb (has_result (oe_Postcondition o) result)) (ErrNew what))%go.

Definition result_error (o : OutcomeEvidence) : option error :=
  let result := oe_Result o in
  if str_eqb result PostconditionAlreadySatisfied then
    guard_err (negb (str_eqb (oe_RequestAcceptance o) RequestNotDispatched) || negb (str_eqb (oe_ObservationStatus o) ObservationPreMutation) ||
               negb (oe_ObservationCount o =? 1) || negb (oe_HTTPStatus o =? 0) || str_eqb (oe_AfterDigest o) "" ||
               negb (str_eqb (oe_AfterDigest o) (oe_BeforeDigest o)) || negb (has_result (oe_Postcondition o) PostconditionVerified))
      (ErrNew "ALREADY_SATISFIED outcome is inconsistent")
  else if str_eqb result PostconditionVerified then stable_error o PostconditionVerified "VERIFIED outcome lacks stable intended-postcondition evidence"
  else if str_eqb result PostconditionPartial then stable_error o PostconditionPartial "PARTIAL outcome is inconsistent"
  else if str_eqb result PostconditionUnsatisfied then stable_error o PostconditionUnsatisfied "UNSATISFIED outcome is inconsistent"
  else if str_eqb result PostconditionUnknown then
    (guard_err (negb (dispatched_acceptance o)) (ErrNew "UNKNOWN outcome has invalid request acceptance") ;;?
     guard_err (negb (str_eqb (oe_ObservationStatus o) ObservationUnavailable || str_eqb (oe_ObservationStatus o) ObservationContradictory ||
                      str_eqb (oe_ObservationStatus o) ObservationWrongTarget))
       (ErrNew "UNKNOWN outcome requires unavailable, contradictory, or wrong-target observation"))%go
  else Some (ErrNew ("unsupported outcome result " +:+ result)).

Definition validateOutcomeSemantics (o : OutcomeEvidence) : option error :=
  (guard_err (negb (str_eqb (oe_PostconditionProfile o) PostconditionProfileVersion))
     (ErrNew ("unsupported postcondition profile " +:+ oe_PostconditionProfile o)) ;;?
   guard_err (blank (oe_IntentID o) || blank (oe_Target o) || blank (oe_EvidencePacketDigest o) || blank (oe_PermitDigest o) ||
              blank (oe_PlanDigest o) || blank (oe_BeforeDigest o)) (ErrNew "outcome identity/evidence binding is incomplete") ;;?
   guard_err (oe_ObservationCount o <? 0) (ErrNew "outcome observation count is invalid") ;;?
   postcondition_error "postcondition evidence invalid" (oe_Postcondition o) ;;?
   acceptance_error o ;;? result_error o)%go.

Definition VerifyOutcome (outcome : OutcomeEvidence) : option error :=
  (guard_err (negb (str_eqb (oe_APIVersion outcome) OutcomeVersion)) (ErrNew ("unsupported outcome version " +:+ oe_APIVersion outcome)) ;;?
   validateOutcomeSemantics outcome ;;?
   guard_err (str_eqb (oe_IntegrityDigest outcome) "") (ErrNew "outcome integrity digest is required") ;;?
   match digestOutcome outcome with
   | Error err => Some err
   | Ok actual => guard_err (negb (str_eqb actual (oe_IntegrityDigest outcome))) (ErrNew "outcome integrity mismatch")
   end)%go.

Definition newOutcomeEvidence (intentID : string) (target : Target) (evidencePacketDigest permitDigest planDigest beforeDigest afterDigest result
    acceptance observation : string) (observationCount : Z) (evaluation : option PostconditionEvaluation) (httpStatus : Z) (observedAt : time)
    : Prelude.result OutcomeEvidence :=
  let outcome := {|
    oe_APIVersion := OutcomeVersion; oe_PostconditionProfile := PostconditionProfileVersion; oe_IntentID := intentID;
    oe_Target := target_path target; oe_EvidencePacketDigest := evidencePacketDigest; oe_PermitDigest := permitDigest;
    oe_PlanDigest := planDigest; oe_BeforeDigest := beforeDigest; oe_AfterDigest := afterDigest; oe_Result := result;
    oe_RequestAcceptance := acceptance; oe_ObservationStatus := observation; oe_ObservationCount := observationCount;
    oe_Postcondition := evaluation; oe_HTTPStatus := httpStatus; oe_ObservedAt := utc observedAt; oe_IntegrityDigest := "" |} in
  match validateOutcomeSemantics outcome with
  | Some err => Error err
  | None => digest ← digestOutcome outcome; Ok (with_OutcomeDigest digest outcome)
  end.

(** * Closures *)

Definition with_ClosureDigest (digest : string) (e : ClosureEvidence) : ClosureEvidence := {|
  ce_APIVersion := ce_APIVersion e; ce_AttemptID := ce_AttemptID e; ce_IntentID := ce_IntentID e; ce_Target := ce_Target e;
  ce_PermitDigest := ce_PermitDigest e; ce_PlanDigest := ce_PlanDigest e; ce_DestinationID := ce_DestinationID e;
  ce_AccountID := ce_AccountID e; ce_ObservationHandle := ce_ObservationHandle e; ce_StateBefore := ce_StateBefore e;
  ce_StateAfter := ce_StateAfter e; ce_Disposition := ce_Disposition e; ce_Result := ce_Result e;
  ce_RequestAcceptance := ce_RequestAcceptance e; ce_ObservationStatus := ce_ObservationStatus e;
  ce_ObservationCount := ce_ObservationCount e; ce_Postcondition := ce_Postcondition e; ce_ResidualCustody := ce_ResidualCustody e;
  ce_NewMutationDispatched := ce_NewMutationDispatched e; ce_Detail := ce_Detail e; ce_ObservedAt := ce_ObservedAt e;
  ce_IntegrityDigest := digest |}.

Definition closure_text (e : ClosureEvidence) : result string :=
  observed ← gotime_json (ce_ObservedAt e);
  Ok (encode (object
    [field_text "api_version" (ce_APIVersion e); field_text "attempt_id" (ce_AttemptID e); field_text "intent_id" (ce_IntentID e);
     field_text "target" (ce_Target e); field_text "permit_digest" (ce_PermitDigest e); field_text "plan_digest" (ce_PlanDigest e);
     field_text "destination_id" (ce_DestinationID e); field_text "account_id" (ce_AccountID e);
     field_text "observation_handle" (ce_ObservationHandle e); field_text "state_before" (ce_StateBefore e);
     field_text "state_after" (ce_StateAfter e); field_text "disposition" (ce_Disposition e); field_text "result" (ce_Result e);
     field_text "request_acceptance" (ce_RequestAcceptance e); field_text "observation_status" (ce_ObservationStatus e);
     number_field "observation_count" (ce_ObservationCount e); ("postcondition", evaluation_json <$> ce_Postcondition e);
     ("residual_custody", Some (JBool (ce_ResidualCustody e))); ("new_mutation_dispatched", Some (JBool (ce_NewMutationDispatched e)));
     ("detail", omit_string (ce_Detail e)); ("observed_at", Some observed); field_text "integrity_digest" (ce_IntegrityDigest e)])).

Definition digestClosureEvidence (evidence : ClosureEvidence) : result string := DigestPayload (closure_text (with_ClosureDigest "" evidence)).

Definition disposition_error (e : ClosureEvidence) : option error :=
  if str_eqb (ce_Disposition e) ClosureObservedCompleted then
    (guard_err (negb (str_eqb (ce_StateAfter e) AttemptCompleted) || ce_ResidualCustody e)
       (ErrNew "observed completion must discharge residual custody") ;;?
     guard_err (negb (str_eqb (ce_ObservationStatus e) ObservationStable) || negb (ce_ObservationCount e =? 3) ||
                match ce_Postcondition e with None => true | Some _ => false end || str_eqb (ce_Result e) PostconditionUnknown)
       (ErrNew "observed completion requires stable typed postcondition evidence"))%go
  else if str_eqb (ce_Disposition e) ClosureObservationPending then
    guard_err (negb (str_eqb (ce_StateAfter e) (ce_StateBefore e)) || negb (ce_ResidualCustody e))
      (ErrNew "pending observation must retain the unresolved attempt state and custody")
  else if str_eqb (ce_Disposition e) ClosureRetiredUnknown then
    guard_err (negb (str_eqb (ce_StateAfter e) AttemptRetiredUnknown) || negb (str_eqb (ce_Result e) PostconditionUnknown) ||
               negb (ce_ResidualCustody e) || negb (str_eqb (ce_ObservationStatus e) ObservationUnavailable))
      (ErrNew "UNKNOWN retirement must preserve durable residual custody")
  else Some (ErrNew ("unsupported CRM closure disposition " +:+ ce_Disposition e)).

Definition validateClosureEvidence (e : ClosureEvidence) : option error :=
  (guard_err (negb (str_eqb (ce_APIVersion e) ClosureEvidenceVersion))
     (ErrNew ("unsupported CRM closure evidence version " +:+ ce_APIVersion e)) ;;?
   guard_err (blank (ce_AttemptID e) || blank (ce_IntentID e) || blank (ce_Target e) || blank (ce_PermitDigest e) || blank (ce_PlanDigest e) ||
              blank (ce_DestinationID e) || blank (ce_AccountID e) || blank (ce_ObservationHandle e) || gt_IsZero (ce_ObservedAt e))
     (ErrNew "CRM closure evidence identity/custody binding is incomplete") ;;?
   guard_err (ce_NewMutationDispatched e) (ErrNew "CRM recovery closure evidence cannot report a new mutation") ;;?
   guard_err (ce_ObservationCount e <? 0) (ErrNew "CRM closure evidence observation count is invalid") ;;?
   postcondition_error "CRM closure postcondition invalid" (ce_Postcondition e) ;;?
   disposition_error e)%go.

Definition VerifyClosureEvidence (evidence : ClosureEvidence) : option error :=
  (guard_err (negb (str_eqb (ce_APIVersion evidence) ClosureEvidenceVersion))
     (ErrNew ("unsupported CRM closure evidence version " +:+ ce_APIVersion evidence)) ;;?
   validateClosureEvidence evidence ;;?
   guard_err (blank (ce_IntegrityDigest evidence)) (ErrNew "CRM closure evidence integrity digest is required") ;;?
   match digestClosureEvidence evidence with
   | Error err => Some err
   | Ok actual => guard_err (negb (str_eqb actual (ce_IntegrityDigest evidence))) (ErrNew "CRM closure evidence integrity mismatch")
   end)%go.
