(* ===== verification/CrmAttempt.v ===== *)
(** * Attempts of a change request

    Models [internal/eepcrm/attempt_store.go]: the durable record of an attempt, one
    file per permit and plan, created exclusively by a claim and replaced
    atomically by every transition. *)

From S2P Require Import Prelude Crypto Format GoTime Json Unmarshal Evidence Permit JournalEntry FileSystem KernelAbi Workload Linux AnyValue EvidencePipeline CrmOutcome.
Local Open Scope Z_scope.

Definition AttemptRecordVersion : string := "aegis.eep/crm-attempt/v1".

Definition ErrAttemptAlreadyClaimed : error := ErrNew "CRM mutation attempt already claimed".
Definition ErrAttemptNotFound : error := ErrNew "CRM mutation attempt not found".
Definition ErrAttemptTransition : error := ErrNew "CRM mutation attempt transition invalid".

Record AttemptRecord : Type := {
  at_Version : string; at_AttemptID : string; at_State : string; at_IntentID : string; at_PermitDigest : string; at_PlanDigest : string;
  at_DestinationID : string; at_AccountID : string; at_Endpoint : string; at_AdapterProfile : string; at_CustomerID : string;
  at_Operation : string; at_ExpectedResourceVersion : string; at_ObservationHandle : string; at_ClaimedAt : gotime; at_UpdatedAt : gotime;
  at_HTTPStatus : Z; at_Detail : string }.

Definition zero_attempt : AttemptRecord := Build_AttemptRecord "" "" "" "" "" "" "" "" "" "" "" "" "" "" (utc 0) (utc 0) 0 "".

(** The context of a call: the caller's, or [context.Background()], which is
    never done. *)
Inductive context : Type := Caller | Background.

(** [AttemptStore] *)
Record AttemptStore (X : Type) : Type := {
  as_Claim : context → AttemptRecord → X → option error * X;
  as_Transition : context → string → string → string → Z → string → time → X → result AttemptRecord * X;
  as_Load : context → string → X → result AttemptRecord * X }.
Arguments as_Claim {X} _ _ _.
Arguments as_Transition {X} _ _ _ _ _ _ _ _.
Arguments as_Load {X} _ _ _.

(** * Texts *)

Definition marshal_attempt (r : AttemptRecord) : result string :=
  claimed ← gotime_json (at_ClaimedAt r); updated ← gotime_json (at_UpdatedAt r);
  Ok (encode (object
    [field_text "version" (at_Version r); field_text "attempt_id" (at_AttemptID r); field_text "state" (at_State r);
     field_text "intent_id" (at_IntentID r); field_text "permit_digest" (at_PermitDigest r); field_text "plan_digest" (at_PlanDigest r);
     field_text "destination_id" (at_DestinationID r); field_text "account_id" (at_AccountID r); field_text "endpoint" (at_Endpoint r);
     field_text "adapter_profile" (at_AdapterProfile r); field_text "customer_id" (at_CustomerID r); field_text "operation" (at_Operation r);
     field_text "expected_resource_version" (at_ExpectedResourceVersion r); field_text "observation_handle" (at_ObservationHandle r);
     ("claimed_at", Some claimed); ("updated_at", Some updated); ("http_status", omit_number (at_HTTPStatus r));
     ("detail", omit_string (at_Detail r))])).

Section Setters.
Context (r : AttemptRecord).
Definition set_at_Version x := let '(Build_AttemptRecord _ b c d e f g h i j k l m n o p q s) := r in Build_AttemptRecord x b c d e f g h i j k l m n o p q s.
Definition set_at_AttemptID x := let '(Build_AttemptRecord a _ c d e f g h i j k l m n o p q s) := r in Build_AttemptRecord a x c d e f g h i j k l m n o p q s.
Definition set_at_State x := let '(Build_AttemptRecord a b _ d e f g h i j k l m n o p q s) := r in Build_AttemptRecord a b x d e f g h i j k l m n o p q s.
Definition set_at_IntentID x := let '(Build_AttemptRecord a b c _ e f g h i j k l m n o p q s) := r in Build_AttemptRecord a b c x e f g h i j k l m n o p q s.
Definition set_at_PermitDigest x := let '(Build_AttemptRecord a b c d _ f g h i j k l m n o p q s) := r in Build_AttemptRecord a b c d x f g h i j k l m n o p q s.
Definition set_at_PlanDigest x := let '(Build_AttemptRecord a b c d e _ g h i j k l m n o p q s) := r in Build_AttemptRecord a b c d e x g h i j k l m n o p q s.
Definition set_at_DestinationID x := let '(Build_AttemptRecord a b c d e f _ h i j k l m n o p q s) := r in Build_AttemptRecord a b c d e f x h i j k l m n o p q s.
Definition set_at_AccountID x := let '(Build_AttemptRecord a b c d e f g _ i j k l m n o p q s) := r in Build_AttemptRecord a b c d e f g x i j k l m n o p q s.
Definition set_at_Endpoint x := let '(Build_AttemptRecord a b c d e f g h _ j k l m n o p q s) := r in Build_AttemptRecord a b c d e f g h x j k l m n o p q s.
Definition set_at_AdapterProfile x := let '(Build_AttemptRecord a b c d e f g h i _ k l m n o p q s) := r in Build_AttemptRecord a b c d e f g h i x k l m n o p q s.
Definition set_at_CustomerID x := let '(Build_AttemptRecord a b c d e f g h i j _ l m n o p q s) := r in Build_AttemptRecord a b c d e f g h i j x l m n o p q s.
Definition set_at_Operation x := let '(Build_AttemptRecord a b c d e f g h i j k _ m n o p q s) := r in Build_AttemptRecord a b c d e f g h i j k x m n o p q s.
Definition set_at_ExpectedResourceVersion x := let '(Build_AttemptRecord a b c d e f g h i j k l _ n o p q s) := r in Build_AttemptRecord a b c d e f g h i j k l x n o p q s.
Definition set_at_ObservationHandle x := let '(Build_AttemptRecord a b c d e f g h i j k l m _ o p q s) := r in Build_AttemptRecord a b c d e f g h i j k l m x o p q s.
Definition set_at_ClaimedAt x := let '(Build_AttemptRecord a b c d e f g h i j k l m n _ p q s) := r in Build_AttemptRecord a b c d e f g h i j k l m n x p q s.
Definition set_at_UpdatedAt x := let '(Build_AttemptRecord a b c d e f g h i j k l m n o _ q s) := r in Build_AttemptRecord a b c d e f g h i j k l m n o x q s.
Definition set_at_HTTPStatus x := let '(Build_AttemptRecord a b c d e f g h i j k l m n o p _ s) := r in Build_AttemptRecord a b c d e f g h i j k l m n o p x s.
Definition set_at_Detail x := let '(Build_AttemptRecord a b c d e f g h i j k l m n o p q _) := r in Build_AttemptRecord a b c d e f g h i j k l m n o p q x.
End Setters.

Definition attempt_struct : list (struct_field AttemptRecord) :=
  [on_field "version" at_Version (λ x r, set_at_Version r x) decode_string;
   on_field "attempt_id" at_AttemptID (λ x r, set_at_AttemptID r x) decode_string;
   on_field "state" at_State (λ x r, set_at_State r x) decode_string;
   on_field "intent_id" at_IntentID (λ x r, set_at_IntentID r x) decode_string;
   on_field "permit_digest" at_PermitDigest (λ x r, set_at_PermitDigest r x) decode_string;
   on_field "plan_digest" at_PlanDigest (λ x r, set_at_PlanDigest r x) decode_string;
   on_field "destination_id" at_DestinationID (λ x r, set_at_DestinationID r x) decode_string;
   on_field "account_id" at_AccountID (λ x r, set_at_AccountID r x) decode_string;
   on_field "endpoint" at_Endpoint (λ x r, set_at_Endpoint r x) decode_string;
   on_field "adapter_profile" at_AdapterProfile (λ x r, set_at_AdapterProfile r x) decode_string;
   on_field "customer_id" at_CustomerID (λ x r, set_at_CustomerID r x) decode_string;
   on_field "operation" at_Operation (λ x r, set_at_Operation r x) decode_string;
   on_field "expected_resource_version" at_ExpectedResourceVersion (λ x r, set_at_ExpectedResourceVersion r x) decode_string;
   on_field "observation_handle" at_ObservationHandle (λ x r, set_at_ObservationHandle r x) decode_string;
   on_field "claimed_at" at_ClaimedAt (λ x r, set_at_ClaimedAt r x) decode_time;
   on_field "updated_at" at_UpdatedAt (λ x r, set_at_UpdatedAt r x) decode_time;
   on_field "http_status" at_HTTPStatus (λ x r, set_at_HTTPStatus r x) decode_int;
   on_field "detail" at_Detail (λ x r, set_at_Detail r x) decode_string].

Definition decode_attempt : string → result AttemptRecord := Unmarshal attempt_struct zero_attempt.

(** * Checks *)

Definition MutationAttemptID (permitDigest planDigest : string) : result string :=
  let permitDigest := TrimSpace permitDigest in
  let planDigest := TrimSpace planDigest in
  if str_eqb permitDigest "" || str_eqb planDigest "" then Error (ErrNew "permit and plan digests are required for attempt identity")
  else Ok (sha256_digest (permitDigest +:+ nul +:+ planDigest)).

Definition validateAttemptRecord (r : AttemptRecord) : option error :=
  (guard_err (negb (str_eqb (at_Version r) AttemptRecordVersion)) (ErrNew ("unsupported CRM attempt record version " +:+ at_Version r)) ;;?
   guard_err (blank (at_AttemptID r)) (ErrNew "CRM attempt id is required") ;;?
   guard_err (blank (at_IntentID r)) (ErrNew "CRM attempt intent id is required") ;;?
   guard_err (blank (at_PermitDigest r)) (ErrNew "CRM attempt permit digest is required") ;;?
   guard_err (blank (at_PlanDigest r)) (ErrNew "CRM attempt plan digest is required") ;;?
   guard_err (blank (at_DestinationID r)) (ErrNew "CRM attempt destination id is required") ;;?
   guard_err (blank (at_AccountID r)) (ErrNew "CRM attempt account id is required") ;;?
   guard_err (blank (at_Endpoint r)) (ErrNew "CRM attempt endpoint is required") ;;?
   guard_err (blank (at_AdapterProfile r)) (ErrNew "CRM attempt adapter profile is required") ;;?
   guard_err (blank (at_CustomerID r)) (ErrNew "CRM attempt customer id is required") ;;?
   guard_err (blank (at_Operation r)) (ErrNew "CRM attempt operation is required") ;;?
   guard_err (blank (at_ExpectedResourceVersion r)) (ErrNew "CRM attempt expected resource version is required") ;;?
   guard_err (blank (at_ObservationHandle r)) (ErrNew "CRM attempt observation handle is required") ;;?
   guard_err (gt_IsZero (at_ClaimedAt r) || gt_IsZero (at_UpdatedAt r)) (ErrNew "CRM attempt timestamps are required"))%go.

Definition allowedAttemptTransition (from to : string) : bool :=
  if str_eqb from AttemptClaimed then str_eqb to AttemptBlocked || str_eqb to AttemptPossibleEffect || str_eqb to AttemptCompleted
  else if str_eqb from AttemptPossibleEffect then
    str_eqb to AttemptBlocked || str_eqb to AttemptAccepted || str_eqb to AttemptCompleted || str_eqb to AttemptRetiredUnknown
  else if str_eqb from AttemptAccepted then str_eqb to AttemptCompleted || str_eqb to AttemptRetiredUnknown
  else false.

Definition moved_attempt (to : string) (httpStatus : Z) (detail : string) (updated : time) (r : AttemptRecord) : AttemptRecord := {|
  at_Version := at_Version r; at_AttemptID := at_AttemptID r; at_State := to; at_IntentID := at_IntentID r; at_PermitDigest := at_PermitDigest r;
  at_PlanDigest := at_PlanDigest r; at_DestinationID := at_DestinationID r; at_AccountID := at_AccountID r; at_Endpoint := at_Endpoint r;
  at_AdapterProfile := at_AdapterProfile r; at_CustomerID := at_CustomerID r; at_Operation := at_Operation r;
  at_ExpectedResourceVersion := at_ExpectedResourceVersion r; at_ObservationHandle := at_ObservationHandle r; at_ClaimedAt := at_ClaimedAt r;
  at_UpdatedAt := utc updated; at_HTTPStatus := httpStatus; at_Detail := TrimSpace detail |}.

(** * The file store *)

Record FileAttemptStore : Type := { fs_dir : string }.

(** [path] *)
Definition attempt_path (s : FileAttemptStore) (attemptID : string) : result string :=
  match strip_prefix "sha256:" attemptID with
  | None => Error (ErrNew "CRM attempt id must be sha256")
  | Some hexPart =>
      if negb (String.length hexPart =? 64)%nat then Error (ErrNew "CRM attempt id has invalid length")
      else if negb (is_ok (hex_DecodeString hexPart)) then Error (ErrNew "CRM attempt id has invalid hex")
      else Ok (filepath_Join (fs_dir s) (hexPart +:+ ".json"))
  end.

Section Store.
Context {X : Type} `{!GoWorld X, !FileSystem X, !LinuxSystem X}.
Implicit Types s : FileAttemptStore.

Definition contextErr (c : context) : IO X (option error) := match c with Caller => ctxErr | Background => mret None end.

Definition NewFileAttemptStore (dir : string) : IO X (result FileAttemptStore) :=
  let dir := TrimSpace dir in
  if str_eqb dir "" then mret (Error (ErrNew "CRM attempt store directory is required"))
  else
    check (MkdirAll dir) (ErrWrap "create CRM attempt store") (
    check (ChmodPath dir) (ErrWrap "secure CRM attempt store") (
    mret (Ok {| fs_dir := dir |}))).

Definition syncAttemptDir (dir : string) : IO X (option error) :=
  r ← OpenFile dir ReadOnly;
  match r with Error err => mret (Some err) | Ok f => err ← Sync f; _ ← Close f; mret err end.

(** The error of a run. *)
Definition failed {A} (m : IO X (result A)) : IO X (option error) := r ← m; mret (match r with Ok _ => None | Error err => Some err end).

(** [Claim], under the mutex. *)
Definition claim s (ctx : context) (record : AttemptRecord) : IO X (result unit) :=
  check (contextErr ctx) unwrapped (
  match validateAttemptRecord record with
  | Some err => mret (Error err)
  | None =>
      if negb (str_eqb (at_State record) AttemptClaimed) then mret (Error (ErrDetail ErrAttemptTransition "new attempt must start CLAIMED"))
      else match attempt_path s (at_AttemptID record), marshal_attempt record with
      | Error err, _ => mret (Error err)
      | _, Error err => mret (Error (ErrWrap "encode CRM attempt" err))
      | Ok path, Ok payload =>
          r ← OpenFile path CreateExclusive;
          match r with
          | Error err => mret (Error (if os_IsExist err then ErrAttemptAlreadyClaimed else ErrWrap "claim CRM mutation attempt" err))
          | Ok f =>
              check_close f (Write f (payload +:+ nl)) (ErrWrap "write CRM mutation attempt") (
              check_close f (Sync f) (ErrWrap "sync CRM mutation attempt") (
              check (Close f) (ErrWrap "close CRM mutation attempt") (
              check (syncAttemptDir (fs_dir s)) unwrapped (mret (Ok tt)))))
          end
      end
  end).

Definition loadUnlocked s (attemptID : string) : IO X (result AttemptRecord) :=
  match attempt_path s attemptID with
  | Error err => mret (Error err)
  | Ok path =>
      r ← ReadFile path;
      mret (match r with
            | Error err => Error (if os_IsNotExist err then ErrAttemptNotFound else ErrWrap "read CRM mutation attempt" err)
            | Ok payload =>
                match decode_attempt payload with
                | Error err => Error (ErrWrap "decode CRM mutation attempt" err)
                | Ok record =>
                    match validateAttemptRecord record with
                    | Some err => Error err
                    | None => if negb (str_eqb (at_AttemptID record) attemptID) then Error (ErrDetail ErrAttemptTransition "attempt identity mismatch")
                              else Ok record
                    end
                end
            end)
  end.

(** The body after the temporary file exists, which is removed, under its name,
    when the body returns. *)
Definition replace_attempt (dir path payload : string) (f : file) : IO X (result unit) :=
  check_close f (Chmod f) unwrapped (
  check_close f (Write f (payload +:+ nl)) unwrapped (
  check_close f (Sync f) unwrapped (
  check (Close f) unwrapped (
  check (Rename (file_Name f) path) unwrapped (
  check (syncAttemptDir dir) unwrapped (mret (Ok tt))))))).

Definition writeAtomic s (record : AttemptRecord) : IO X (result unit) :=
  match attempt_path s (at_AttemptID record), marshal_attempt record with
  | Error err, _ => mret (Error err)
  | _, Error err => mret (Error (ErrWrap "encode CRM mutation attempt" err))
  | Ok path, Ok payload =>
      try (CreateTemp (fs_dir s) ".attempt-*") unwrapped (λ f,
      r ← replace_attempt (fs_dir s) path payload f; _ ← Remove (file_Name f); mret r)
  end.

(** [Transition], under the mutex. *)
Definition transition s (ctx : context) (attemptID from to : string) (httpStatus : Z) (detail : string) (at_ : time) : IO X (result AttemptRecord) :=
  check (contextErr ctx) unwrapped (
  if negb (allowedAttemptTransition from to) then mret (Error ErrAttemptTransition)
  else
    try (loadUnlocked s attemptID) unwrapped (λ record,
    if negb (str_eqb (at_State record) from)
    then mret (Error (ErrDetail ErrAttemptTransition ("state=" +:+ at_State record +:+ " want=" +:+ from)))
    else
      let record := moved_attempt to httpStatus detail at_ record in
      try (writeAtomic s record) unwrapped (λ _, mret (Ok record)))).

Definition load s (ctx : context) (attemptID : string) : IO X (result AttemptRecord) := check (contextErr ctx) unwrapped (loadUnlocked s attemptID).

(** The store, whose calls to the file system leave no trace of their own. *)
Definition untraced {A} (m : IO X A) (x : X) : A * X := let '(a, x', _) := m x in (a, x').

Definition file_store s : AttemptStore X := {|
  as_Claim ctx record := untraced (failed (claim s ctx record));
  as_Transition ctx id from to status detail at_ := untraced (transition s ctx id from to status detail at_);
  as_Load ctx id := untraced (load s ctx id) |}.
End Store.
