(* ===== verification/CrmExecutor.v ===== *)
(** * Execution of a change request

    Models [internal/eepcrm/executor.go] and [recovery.go]: the executor that turns
    a permit into one conditional PATCH of a customer, with its attempt claimed
    before and its outcome observed after, and the recovery of an attempt whose
    outcome is unknown, which observes only.

    The destination, the journal, the attempt store, the verifier and the clock are
    functions over a world, in which others act between two calls; every call is
    recorded, with its result.  [url.Parse] is a parameter. *)

From S2P Require Import Prelude Crypto Format GoTime Json Unmarshal Permit GovernedAction JournalEntry FileSystem StrictJson AnyValue EvidencePipeline CrmOutcome CrmAttempt.
From S2P Require Receipt.
Local Open Scope Z_scope.

Definition ErrMutationOutcomeUnknown : error := ErrNew "CRM mutation outcome is unknown".
Definition ErrPostconditionNotVerified : error := ErrNew "CRM intended postcondition not verified".
Definition ErrAttemptClosureState : error := ErrNew "CRM attempt is not eligible for closure reconciliation".
Definition ErrAttemptRetiredUnknown : error := ErrNew "CRM attempt was administratively retired UNKNOWN".

Definition headerDestinationID : string := "X-Aegis-Destination-ID".
Definition headerAccountID : string := "X-Aegis-Account-ID".

(** * URLs *)

(** A parsed URL with a host; the host as [String] writes it. *)
Record URL : Type := {
  u_Scheme : string; u_HasUser : bool; u_Host : string; u_Path : string; u_RawPath : string; u_ForceQuery : bool; u_RawQuery : string;
  u_Fragment : string }.

Definition with_Path (path : string) (u : URL) : URL := {|
  u_Scheme := u_Scheme u; u_HasUser := u_HasUser u; u_Host := u_Host u; u_Path := path; u_RawPath := u_RawPath u;
  u_ForceQuery := u_ForceQuery u; u_RawQuery := u_RawQuery u; u_Fragment := u_Fragment u |}.

Definition without_Query (u : URL) : URL := {|
  u_Scheme := u_Scheme u; u_HasUser := u_HasUser u; u_Host := u_Host u; u_Path := u_Path u; u_RawPath := u_RawPath u;
  u_ForceQuery := u_ForceQuery u; u_RawQuery := ""; u_Fragment := "" |}.

Fixpoint one_of (a : ascii) (s : string) : bool := match s with "" => false | String b s => Ascii.eqb a b || one_of a s end.

Definition alphanumeric (a : ascii) : bool := in_range 48 a 57 || in_range 65 a 90 || in_range 97 a 122.

(** [shouldEscape], of a path and of one of its segments. *)
Definition path_safe (a : ascii) : bool := alphanumeric a || one_of a "-_.~$&+,/:;=@".
Definition segment_safe (a : ascii) : bool := alphanumeric a || one_of a "-_.~$&+:=@".

Definition upper_hex (n : N) : ascii := upper (hex_digit n).

Fixpoint url_escape (safe : ascii → bool) (s : string) : string :=
  match s with
  | "" => ""
  | String a s =>
      if safe a then String a (url_escape safe s)
      else String "%" (String (upper_hex (N_of_ascii a / 16)) (String (upper_hex (N_of_ascii a mod 16)) (url_escape safe s)))
  end.

Definition url_PathEscape : string → string := url_escape segment_safe.

Fixpoint url_unescape (s : string) : option string :=
  match s with
  | "" => Some ""
  | String a s =>
      if Ascii.eqb a "%" then
        match s with
        | String h (String l s) =>
            x ← hex_value h; y ← hex_value l; t ← url_unescape s; Some (String (ascii_of_N (16 * x + y)) t)
        | _ => None
        end
      else t ← url_unescape s; Some (String a t)
  end.

(** [validEncoded] *)
Fixpoint valid_encoded (s : string) : bool :=
  match s with "" => true | String a s => (one_of a "!$&'()*+,;=:@[]%" || path_safe a) && valid_encoded s end.

Definition EscapedPath (u : URL) : string :=
  if negb (str_eqb (u_RawPath u) "") && valid_encoded (u_RawPath u) && bool_decide (url_unescape (u_RawPath u) = Some (u_Path u)) then u_RawPath u
  else if str_eqb (u_Path u) "*" then "*" else url_escape path_safe (u_Path u).

Definition url_String (u : URL) : string :=
  let path := EscapedPath u in
  u_Scheme u +:+ "://" +:+ u_Host u +:+ (if str_eqb path "" || rooted path then "" else "/") +:+ path +:+
  (if u_ForceQuery u || negb (str_eqb (u_RawQuery u) "") then "?" +:+ u_RawQuery u else "") +:+
  (if str_eqb (u_Fragment u) "" then "" else "#" +:+ u_Fragment u).

(** [strings.TrimSuffix(path, "/")] *)
Fixpoint trim_slash (s : string) : string :=
  match s with "" => "" | String a "" => if Ascii.eqb a "/" then "" else s | String a s => String a (trim_slash s) end.

(** [u.Hostname()]: the host without a port of digits, and without brackets. *)
Fixpoint before_last_colon (s : string) : option (string * string) :=
  match s with
  | "" => None
  | String a s =>
      match before_last_colon s with
      | Some (h, p) => Some (String a h, p)
      | None => if Ascii.eqb a ":" then Some ("", s) else None
      end
  end.

Definition url_Hostname (u : URL) : string :=
  let host := match before_last_colon (u_Host u) with
              | Some (h, port) => if all_digits port then h else u_Host u
              | None => u_Host u
              end in
  match host with
  | String a s =>
      match reverse (String.list_ascii_of_string s) with
      | c :: r => if Ascii.eqb a "[" && Ascii.eqb c "]" then String.string_of_list_ascii (reverse r) else host
      | [] => host
      end
  | "" => ""
  end.

Fixpoint to_lower (s : string) : string :=
  match s with "" => "" | String a s => String (if in_range 65 a 90 then ascii_of_N (N_of_ascii a + 32) else a) (to_lower s) end.

Definition isLoopbackHTTP (u : URL) : bool :=
  str_eqb (u_Scheme u) "http" &&
  (str_eqb (to_lower (url_Hostname u)) "localhost" || str_eqb (to_lower (url_Hostname u)) "127.0.0.1" || str_eqb (to_lower (url_Hostname u)) "::1").

(** * The world of the executor *)

Record http_request : Type := { hq_Method : string; hq_URL : string; hq_Header : list (string * string); hq_Body : string }.

(** The status, the headers that are read, and what a read of the body gives. *)
Record http_response : Type := {
  hr_StatusCode : Z; hr_ETag : string; hr_DestinationID : string; hr_AccountID : string; hr_Body : string * option error }.

(** [client.Do], of a client that follows no redirect. *)
Class HTTPClient (X : Type) : Type := { client_Do : http_request → X → result http_response * X }.

Inductive crm_event : Type :=
  | EvAuthority (e : authority_event)
  | EvClock (now : time)
  | EvHTTP (request : http_request) (r : result http_response)
  | EvAppend (event : Event) (r : result Entry)
  | EvClaim (record : AttemptRecord) (r : option error)
  | EvTransition (attemptID from to : string) (r : result AttemptRecord)
  | EvLoadAttempt (attemptID : string) (r : result AttemptRecord).

Record Executor (X : Type) : Type := {
  ex_baseURL : URL; ex_destinationID : string; ex_accountID : string; ex_adapterProfile : string;
  ex_permitVerifier : SignatureVerifier X; ex_journal : context → Event → X → result Entry * X; ex_attempts : AttemptStore X;
  ex_clock : X → time * X }.
Arguments ex_baseURL {X} _.
Arguments ex_destinationID {X} _.
Arguments ex_accountID {X} _.
Arguments ex_adapterProfile {X} _.
Arguments ex_permitVerifier {X} _.
Arguments ex_journal {X} _ _ _ _.
Arguments ex_attempts {X} _.
Arguments ex_clock {X} _ _.

Record DestinationConfig : Type := { dc_BaseURL : string; dc_DestinationID : string; dc_AccountID : string; dc_AdapterProfile : string }.

Record customerSnapshot : Type := { cs_State : data; cs_ResourceVersion : string; cs_DestinationID : string; cs_AccountID : string }.

(** [NewExecutor]: a nil client is the default one, and a nil clock the time. *)
Definition NewExecutor {X} `{!GoWorld X} (url_Parse : string → result URL) (destination : DestinationConfig)
    (permitVerifier : option (SignatureVerifier X)) (journalAppender : option (context → Event → X → result Entry * X))
    (attemptStore : option (AttemptStore X)) (clock : option (X → time * X)) : result (Executor X) :=
  let baseURL := TrimSpace (dc_BaseURL destination) in
  if str_eqb baseURL "" then Error (ErrNew "CRM base URL is required")
  else
    parsed ← wrapped "parse CRM base URL" (url_Parse baseURL);
    let destinationID := TrimSpace (dc_DestinationID destination) in
    let accountID := TrimSpace (dc_AccountID destination) in
    let adapterProfile := TrimSpace (dc_AdapterProfile destination) in
    if negb (str_eqb (u_Scheme parsed) "https") && negb (isLoopbackHTTP parsed)
    then Error (ErrNew "CRM base URL must use HTTPS except for loopback tests")
    else if str_eqb (u_Host parsed) "" then Error (ErrNew "CRM base URL host is required")
    else if u_HasUser parsed then Error (ErrNew "CRM base URL must not embed credentials")
    else if negb (str_eqb (u_RawQuery parsed) "") || negb (str_eqb (u_Fragment parsed) "")
    then Error (ErrNew "CRM base URL must not contain query or fragment")
    else if str_eqb destinationID "" then Error (ErrNew "CRM destination id is required")
    else if str_eqb accountID "" then Error (ErrNew "CRM account id is required")
    else if negb (str_eqb adapterProfile CRMAdapterProfileVersion) then Error (ErrNew ("unsupported CRM adapter profile " +:+ adapterProfile))
    else match permitVerifier, journalAppender, attemptStore with
    | None, _, _ => Error (ErrNew "permit verifier is required")
    | _, None, _ => Error (ErrNew "tamper-evident journal is required")
    | _, _, None => Error (ErrNew "durable CRM attempt store is required")
    | Some verifier, Some appender, Some store =>
        Ok {| ex_baseURL := with_Path (trim_slash (u_Path parsed)) parsed; ex_destinationID := destinationID; ex_accountID := accountID;
              ex_adapterProfile := adapterProfile; ex_permitVerifier := verifier; ex_journal := appender; ex_attempts := store;
              ex_clock := default time_Now clock |}
    end.

(** * Checks *)

Section Checks.
Context {X : Type}.
Implicit Types e : Executor X.

Definition customerURL e (customerID : string) : string :=
  let u := ex_baseURL e in
  url_String (without_Query (with_Path (trim_slash (u_Path u) +:+ "/customers/" +:+ url_PathEscape customerID) u)).

Definition validateExecutionBinding e (packet : Packet) (claims : PermitClaims) : result ExecutionBindingClaims :=
  match pc_ExecutionBinding claims, bc_ExecutionBinding (pk_Context packet) with
  | None, _ => Error (ErrNew "CRM execution permit is missing destination binding")
  | _, None => Error (ErrNew "CRM evidence packet is missing destination binding")
  | Some binding, Some _ =>
      if negb (str_eqb (eb_DestinationID binding) (ex_destinationID e)) then Error (ErrNew "CRM destination identity mismatch")
      else if negb (str_eqb (eb_AccountID binding) (ex_accountID e)) then Error (ErrNew "CRM account identity mismatch")
      else if negb (str_eqb (eb_Endpoint binding) (url_String (ex_baseURL e))) then Error (ErrNew "CRM endpoint binding mismatch")
      else if negb (str_eqb (eb_AdapterProfile binding) (ex_adapterProfile e)) then Error (ErrNew "CRM adapter profile mismatch")
      else if blank (eb_ExpectedResourceVersion binding) then Error (ErrNew "CRM expected resource version is required")
      else if negb (str_eqb (pc_ResourceVersion claims) (eb_ExpectedResourceVersion binding))
      then Error (ErrNew "CRM permit resource version mismatch")
      else Ok binding
  end.

Definition validateDestinationIdentity e (snapshot : customerSnapshot) : option error :=
  (guard_err (negb (str_eqb (cs_DestinationID snapshot) (ex_destinationID e))) (ErrNew "CRM destination response identity mismatch") ;;?
   guard_err (negb (str_eqb (cs_AccountID snapshot) (ex_accountID e))) (ErrNew "CRM destination response account mismatch"))%go.

Definition validateObservedCustomerTarget (state : data) (expectedCustomerID : string) : option error :=
  match default ∅ state !! "id" with
  | None => Some (ErrNew "CRM customer observation is missing id")
  | Some (AString customerID) =>
      if blank customerID then Some (ErrNew "CRM customer observation id is invalid")
      else guard_err (negb (str_eqb customerID expectedCustomerID))
             (ErrNew ("CRM customer observation target mismatch: got " +:+ customerID +:+ " want " +:+ expectedCustomerID))
  | Some _ => Some (ErrNew "CRM customer observation id is invalid")
  end.

Definition validateSnapshotBinding e (snapshot : customerSnapshot) (binding : ExecutionBindingClaims) (customerID : string) : option error :=
  (validateDestinationIdentity e snapshot ;;?
   validateObservedCustomerTarget (cs_State snapshot) customerID ;;?
   guard_err (blank (cs_ResourceVersion snapshot)) (ErrNew "CRM destination does not expose required conditional-write resource version") ;;?
   guard_err (negb (str_eqb (cs_ResourceVersion snapshot) (eb_ExpectedResourceVersion binding))) (ErrNew "CRM precondition is stale"))%go.

Definition permit_digest (permit : Permit) : result string := DigestPayload (v ← Receipt.permit_json permit; Ok (encode v)).

(** What identifies an attempt: the digests of its plan and permit, and its id. *)
Record attempt_identity : Type := { ai_PlanDigest : string; ai_PermitDigest : string; ai_AttemptID : string; ai_Binding : ExecutionBindingClaims }.

Definition identify_attempt (permit : Permit) (plan : CustomerUpdatePlan) (binding : ExecutionBindingClaims) (mismatch : string) : result attempt_identity :=
  planDigest ← DigestCustomerUpdatePlan plan;
  if negb (str_eqb (pc_PlanDigest (pm_Claims permit)) planDigest) then Error (ErrNew mismatch)
  else
    permitDigest ← permit_digest permit; attemptID ← MutationAttemptID permitDigest planDigest;
    Ok {| ai_PlanDigest := planDigest; ai_PermitDigest := permitDigest; ai_AttemptID := attemptID; ai_Binding := binding |}.

Definition supported_action (a : Action) : bool :=
  str_eqb (ac_Kind a) "crm.customer_update" && str_eqb (ac_Operation a) "update_customer" && str_eqb (ac_Tool a) "crm.http-json".

(** What [Execute] checks before it claims, once the permit is in force. *)
Definition screen_execution e (packet : Packet) (permit : Permit) (plan : CustomerUpdatePlan) : result attempt_identity :=
  let claims := pm_Claims permit in
  if negb (supported_action (pk_Action packet)) then Error (ErrNew "unsupported CRM EEP action")
  else if negb (str_eqb (tg_Type (pc_Target claims)) "customer") then Error (ErrNew "CRM permit target type must be customer")
  else if negb (str_eqb (TrimSpace (cp_CustomerID plan)) (tg_Name (pc_Target claims))) then Error (ErrNew "customer update plan target mismatch")
  else binding ← validateExecutionBinding e packet claims; identify_attempt permit plan binding "customer update plan digest mismatch".

(** The same for a recovery. *)
Definition screen_recovery e (packet : Packet) (permit : Permit) (plan : CustomerUpdatePlan) : result attempt_identity :=
  let claims := pm_Claims permit in
  if negb (supported_action (pk_Action packet)) then Error (ErrNew "unsupported CRM EEP recovery action")
  else if negb (str_eqb (tg_Type (pc_Target claims)) "customer") || negb (str_eqb (TrimSpace (cp_CustomerID plan)) (tg_Name (pc_Target claims)))
  then Error (ErrNew "CRM recovery target mismatch")
  else binding ← validateExecutionBinding e packet claims; identify_attempt permit plan binding "CRM recovery plan digest mismatch".

Definition attempt_record e (permit : Permit) (plan : CustomerUpdatePlan) (id : attempt_identity) (now : time) : AttemptRecord :=
  let binding := ai_Binding id in {|
  at_Version := AttemptRecordVersion; at_AttemptID := ai_AttemptID id; at_State := AttemptClaimed; at_IntentID := pc_IntentID (pm_Claims permit);
  at_PermitDigest := ai_PermitDigest id; at_PlanDigest := ai_PlanDigest id; at_DestinationID := eb_DestinationID binding;
  at_AccountID := eb_AccountID binding; at_Endpoint := eb_Endpoint binding; at_AdapterProfile := eb_AdapterProfile binding;
  at_CustomerID := cp_CustomerID plan; at_Operation := pc_Action (pm_Claims permit);
  at_ExpectedResourceVersion := eb_ExpectedResourceVersion binding; at_ObservationHandle := customerURL e (cp_CustomerID plan);
  at_ClaimedAt := utc now; at_UpdatedAt := utc now; at_HTTPStatus := 0; at_Detail := "" |}.

(** The events of an attempt. *)
Definition attempt_event (packet : Packet) (permit : Permit) (id : attempt_identity) (handle type_ target state verdict payload : string)
    (occurred : time) : Event :=
  Build_Event type_ (pc_IntentID (pm_Claims permit)) target "" [] (pc_EvidenceDigest (pm_Claims permit)) (it_Digest (pk_Integrity packet))
    (ai_PlanDigest id) (ai_AttemptID id) (eb_DestinationID (ai_Binding id)) (eb_AccountID (ai_Binding id)) handle state verdict payload (utc occurred).

Definition targetRef (destination account endpoint customer : string) : result string :=
  DigestPayload (marshal_any (AMap [("destination", AString destination); ("account", AString account); ("endpoint", AString endpoint);
                                    ("target_type", AString "customer"); ("customer", AString customer)])).
End Checks.

(** * Calls *)

Fixpoint limited (n : N) (s : string) : string :=
  match s with "" => "" | String a s => if (n =? 0)%N then "" else String a (limited (N.pred n) s) end.

(** [json.NewDecoder(io.LimitReader(body, 1<<20)).Decode(&state)]: the first value
    of the text; what is read of it after an object does not matter. *)
Definition decode_state (body : string * option error) : result data :=
  let text := skip_space (limited 1048576 body.1) in
  match parse_value (2 * String.length text + 2) max_depth text with
  | None => Error (match body.2 with Some err => err | None => if str_eqb text "" then ErrNew "EOF" else ErrSyntax end)
  | Some (v, rest) =>
      match v, rest, body.2 with
      | VObject _, _, _ => map_of v
      | _, "", Some err => Error err
      | _, _, _ => if ends_value v rest then map_of v else Error ErrSyntax
      end
  end.

Section Calls.
Context {X : Type} `{!GoWorld X, !HTTPClient X}.
Implicit Types e : Executor X.

Abbreviation RUN A := (M X crm_event A).

(** The events of a run, among those of the executor. *)
Definition lift {E A} (f : E → crm_event) (m : M X E A) : RUN A := λ x, let '(a, x', t) := m x in (a, x', f <$> t).

Definition clock e : RUN time := call EvClock (ex_clock e).
Definition Do (request : http_request) : RUN (result http_response) := call (EvHTTP request) (client_Do request).
Definition Append e (ctx : context) (event : Event) : RUN (result Entry) := call (EvAppend event) (ex_journal e ctx event).
Definition ClaimAttempt e (record : AttemptRecord) : RUN (option error) := call (EvClaim record) (as_Claim (ex_attempts e) Caller record).
Definition TransitionAttempt e (ctx : context) (attemptID from to : string) (status : Z) (detail : string) (at_ : time) : RUN (result AttemptRecord) :=
  call (EvTransition attemptID from to) (as_Transition (ex_attempts e) ctx attemptID from to status detail at_).
Definition LoadAttempt e (attemptID : string) : RUN (result AttemptRecord) :=
  call (EvLoadAttempt attemptID) (as_Load (ex_attempts e) Caller attemptID).
Definition CheckPermit e (permit : Permit) : RUN (option error) := lift EvAuthority (VerifyPermit (Some (ex_permitVerifier e)) permit).

Definition getCustomer e (customerID : string) : RUN (result customerSnapshot) :=
  r ← Do {| hq_Method := "GET"; hq_URL := customerURL e customerID; hq_Header := []; hq_Body := "" |};
  mret (match r with
        | Error err => Error err
        | Ok response =>
            if negb (hr_StatusCode response =? 200) then Error (ErrNew ("CRM GET returned HTTP " +:+ pretty (hr_StatusCode response)))
            else
              state ← wrapped "decode CRM customer" (decode_state (hr_Body response));
              Ok {| cs_State := state; cs_ResourceVersion := TrimSpace (hr_ETag response);
                    cs_DestinationID := TrimSpace (hr_DestinationID response); cs_AccountID := TrimSpace (hr_AccountID response) |}
        end).

Definition patch_request e (customerID body expectedResourceVersion : string) : http_request := {|
  hq_Method := "PATCH"; hq_URL := customerURL e customerID; hq_Body := body;
  hq_Header := [("Content-Type", "application/json"); ("If-Match", expectedResourceVersion); (headerDestinationID, ex_destinationID e);
                (headerAccountID, ex_accountID e)] |}.

Definition patchCustomer e (customerID : string) (patch : gmap string any) (expectedResourceVersion : string) : RUN (Z * option error) :=
  match marshal_map patch with
  | Error err => mret (0, Some err)
  | Ok body =>
      r ← Do (patch_request e customerID body expectedResourceVersion);
      mret (match r with
            | Error err => (0, Some err)
            | Ok response =>
                (hr_StatusCode response,
                 guard_err (negb (is_success (hr_StatusCode response))) (ErrNew ("CRM PATCH returned HTTP " +:+ pretty (hr_StatusCode response))))
            end)
  end.

Definition checkEffectBoundary e (permit : Permit) (plan : CustomerUpdatePlan) (before : customerSnapshot) : RUN (option error) :=
  let claims := pm_Claims permit in
  match pc_ExecutionBinding claims with
  | None => mret (Some (ErrNew "CRM execution permit is missing destination binding"))
  | Some binding =>
      match (digest ← DigestCustomerUpdatePlan plan;
             admittedTarget ← targetRef (eb_DestinationID binding) (eb_AccountID binding) (eb_Endpoint binding) (tg_Name (pc_Target claims));
             currentTarget ← targetRef (ex_destinationID e) (ex_accountID e) (url_String (ex_baseURL e)) (cp_CustomerID plan);
             Ok (digest, admittedTarget, currentTarget)) with
      | Error err => mret (Some err)
      | Ok (digest, admittedTarget, currentTarget) =>
          match CheckBinding {| bd_ActionRevision := pc_PlanDigest claims; bd_Target := admittedTarget; bd_Profile := eb_AdapterProfile binding |}
                  {| bd_ActionRevision := digest; bd_Target := currentTarget; bd_Profile := ex_adapterProfile e |} with
          | Some err => mret (Some (ErrWrap "CRM execution binding" err))
          | None =>
              now ← clock e;
              mret (match CheckValidity (pc_ValidUntil claims) now with
                    | Some err => Some (ErrWrap "CRM execution authority" err)
                    | None => validateSnapshotBinding e before binding (cp_CustomerID plan)
                    end)
          end
      end
  end.

(** [AuthorizationEventFromEvidenceBoundPermit] *)
Definition authorization_event e (permit : Permit) (occurredAt : time) : RUN (result Event) :=
  err ← CheckPermit e permit;
  mret (match err with
        | Some err => Error (ErrWrap "verify execution permit" err)
        | None =>
            let claims := pm_Claims permit in
            if str_eqb (pc_EvidencePacketDigest claims) "" then Error (ErrNew "execution permit is not bound to an evidence packet")
            else
              payloadDigest ← wrapped "digest execution permit" (permit_digest permit);
              Ok (Build_Event EventAuthorization (pc_IntentID claims) (target_path (pc_Target claims)) "" [] (pc_EvidenceDigest claims)
                    (pc_EvidencePacketDigest claims) (pc_PlanDigest claims) "" "" "" "" "" "" payloadDigest (utc occurredAt))
        end).

(** * Observation *)

Record postconditionObservation : Type := {
  po_Evaluation : option PostconditionEvaluation; po_AfterDigest : string; po_Status : string; po_Count : Z; po_Err : option error }.

Definition retainObservedPostcondition (evaluations : list PostconditionEvaluation) (snapshots : list customerSnapshot) (status : string)
    (err : error) : postconditionObservation :=
  match last evaluations, last snapshots with
  | Some evaluation, Some snapshot =>
      {| po_Evaluation := Some evaluation; po_AfterDigest := match DigestPayload (data_text (cs_State snapshot)) with Ok d => d | Error _ => "" end;
         po_Status := status; po_Count := Z.of_nat (length evaluations); po_Err := Some err |}
  | _, _ => {| po_Evaluation := None; po_AfterDigest := ""; po_Status := status; po_Count := Z.of_nat (length evaluations); po_Err := Some err |}
  end.

Definition unobserved (count : nat) (err : error) : postconditionObservation := {|
  po_Evaluation := None; po_AfterDigest := ""; po_Status := ObservationUnavailable; po_Count := Z.of_nat count; po_Err := Some err |}.

(** From three evaluations and snapshots, the last first. *)
Definition settle (evaluations : list PostconditionEvaluation) (snapshots : list customerSnapshot) : postconditionObservation :=
  match reverse evaluations, reverse snapshots with
  | evaluation :: previous :: _, snapshot :: _ =>
      match DigestPayload (data_text (cs_State snapshot)) with
      | Error err => unobserved (length evaluations) err
      | Ok afterDigest =>
          if negb (EquivalentPostconditionObservation previous evaluation) then
            {| po_Evaluation := Some evaluation; po_AfterDigest := afterDigest; po_Status := ObservationContradictory;
               po_Count := Z.of_nat (length evaluations); po_Err := Some (ErrNew "postcondition observations did not stabilize") |}
          else
            {| po_Evaluation := Some evaluation; po_AfterDigest := afterDigest; po_Status := ObservationStable;
               po_Count := Z.of_nat (length evaluations); po_Err := None |}
      end
  | _, _ => unobserved (length evaluations) (ErrNew "index out of range")
  end.

Fixpoint observe_reads e (plan : CustomerUpdatePlan) (reads : nat) (evaluations : list PostconditionEvaluation) (snapshots : list customerSnapshot)
    : RUN postconditionObservation :=
  match reads with
  | O => mret (settle evaluations snapshots)
  | S reads =>
      r ← getCustomer e (cp_CustomerID plan);
      match r with
      | Error err =>
          mret (retainObservedPostcondition evaluations snapshots ObservationUnavailable
                  (ErrWrap ("post-mutation read " +:+ pretty (S (length evaluations)) +:+ " failed") err))
      | Ok snapshot =>
          match validateDestinationIdentity e snapshot with
          | Some err =>
              mret (retainObservedPostcondition evaluations snapshots ObservationUnavailable
                      (ErrWrap "post-mutation destination binding failed" err))
          | None =>
              match validateObservedCustomerTarget (cs_State snapshot) (cp_CustomerID plan) with
              | Some err => mret (retainObservedPostcondition evaluations snapshots ObservationWrongTarget err)
              | None =>
                  match EvaluateCustomerUpdatePostcondition plan (cs_State snapshot) with
                  | Error err => mret (unobserved (S (length evaluations)) err)
                  | Ok evaluation => observe_reads e plan reads (evaluations ++ [evaluation]) (snapshots ++ [snapshot])
                  end
              end
          end
      end
  end.

Definition observationReads : nat := 3.

Definition observePostcondition e (plan : CustomerUpdatePlan) : RUN postconditionObservation := observe_reads e plan observationReads [] [].
End Calls.
Abbreviation RUN X A := (M X crm_event A).

(** * Execution *)

(** What [Execute] and the recoveries return: the evidence, where there is any,
    with the error. *)
Abbreviation outcome := (option OutcomeEvidence * option error)%type.
Abbreviation closure := (option ClosureEvidence * option error)%type.

Section Execution.
Context {X : Type} `{!GoWorld X, !HTTPClient X} (e : Executor X) (packet : Packet) (permit : Permit) (plan : CustomerUpdatePlan).

Definition fails {A} (err : error) : RUN X (option A * option error) := mret (None, Some err).

(** [v, err := m; if err != nil { return zero, wrap(err) }] *)
Definition must {A B} (m : RUN X (result A)) (wrap : error → error) (k : A → RUN X (option B * option error)) : RUN X (option B * option error) :=
  r ← m; match r with Error err => fails (wrap err) | Ok a => k a end.

Definition require {B} (m : RUN X (option error)) (wrap : error → error) (k : RUN X (option B * option error)) : RUN X (option B * option error) :=
  err ← m; match err with Some err => fails (wrap err) | None => k end.

Definition pure {A} (a : A) : RUN X A := mret a.

(** A transition at the current time. *)
Definition transition_now (ctx : context) (id : attempt_identity) (from to : string) (status : Z) (detail : string) : RUN X (result AttemptRecord) :=
  now ← clock e; TransitionAttempt e ctx (ai_AttemptID id) from to status detail now.

Definition handle : string := customerURL e (cp_CustomerID plan).

(** [newOutcomeEvidence] at the current time. *)
Definition outcome_now (id : attempt_identity) (beforeDigest afterDigest result acceptance observation : string) (count : Z)
    (evaluation : option PostconditionEvaluation) (status : Z) : RUN X (Prelude.result OutcomeEvidence) :=
  now ← clock e;
  mret (newOutcomeEvidence (pc_IntentID (pm_Claims permit)) (pc_Target (pm_Claims permit)) (it_Digest (pk_Integrity packet)) (ai_PermitDigest id)
          (ai_PlanDigest id) beforeDigest afterDigest result acceptance observation count evaluation status now).

Definition appendOutcomeEvent (ctx : context) (id : attempt_identity) (attemptState : string) (o : OutcomeEvidence) : RUN X (option error) :=
  r ← Append e ctx {|
    ev_Type := EventOutcome; ev_ActionID := pc_IntentID (pm_Claims permit); ev_Target := oe_Target o; ev_Decision := ""; ev_ReasonCodes := [];
    ev_EvidenceDigest := pc_EvidenceDigest (pm_Claims permit); ev_EvidencePacketDigest := it_Digest (pk_Integrity packet);
    ev_PlanDigest := oe_PlanDigest o; ev_AttemptID := ai_AttemptID id; ev_DestinationID := eb_DestinationID (ai_Binding id);
    ev_AccountID := eb_AccountID (ai_Binding id); ev_ObservationHandle := handle; ev_AttemptState := attemptState;
    ev_OutcomeVerdict := oe_Result o; ev_PayloadDigest := oe_IntegrityDigest o; ev_OccurredAt := oe_ObservedAt o |};
  mret (match r with Ok _ => None | Error err => Some err end).

Definition unknown_outcome (detail : string) : error := ErrDetail ErrMutationOutcomeUnknown detail.

(** The postcondition holds before the mutation: nothing is sent. *)
Definition finish_satisfied (id : attempt_identity) (beforeDigest : string) (precondition : PostconditionEvaluation) : RUN X outcome :=
  must (outcome_now id beforeDigest beforeDigest PostconditionAlreadySatisfied RequestNotDispatched ObservationPreMutation 1 (Some precondition) 0)
    unwrapped (λ o,
  err ← appendOutcomeEvent Caller id AttemptCompleted o;
  match err with
  | Some err => mret (Some o, Some (ErrWrap "already-satisfied outcome journal append failed" err))
  | None =>
      r ← transition_now Background id AttemptClaimed AttemptCompleted 0 (oe_Result o);
      mret (match r with
            | Error err => (Some o, Some (ErrWrap "already-satisfied attempt finalization failed" err))
            | Ok _ => (Some o, None)
            end)
  end).

(** The observation failed: the outcome is unknown. *)
Definition finish_unobserved (id : attempt_identity) (beforeDigest acceptance attemptState : string) (status : Z) (dispatchErr : option error)
    (observation : postconditionObservation) (observed : error) : RUN X outcome :=
  must (outcome_now id beforeDigest (po_AfterDigest observation) PostconditionUnknown acceptance (po_Status observation) (po_Count observation)
          (po_Evaluation observation) status) unwrapped (λ o,
  err ← appendOutcomeEvent Background id attemptState o;
  mret (Some o, Some (match err, dispatchErr with
    | Some err, _ => unknown_outcome ("observation failed and outcome journal append failed: " +:+ error_text err)
    | None, Some dispatch => unknown_outcome ("dispatch=" +:+ error_text dispatch +:+ "; observation=" +:+ error_text observed)
    | None, None => unknown_outcome ("accepted request observation=" +:+ error_text observed)
    end))).

(** The observation is stable. *)
Definition finish_observed (id : attempt_identity) (beforeDigest acceptance attemptState : string) (status : Z) (dispatchErr : option error)
    (observation : postconditionObservation) (evaluation : PostconditionEvaluation) : RUN X outcome :=
  let result := pe_Result evaluation in
  must (outcome_now id beforeDigest (po_AfterDigest observation) result acceptance (po_Status observation) (po_Count observation)
          (po_Evaluation observation) status) unwrapped (λ o,
  if str_eqb acceptance RequestAcceptanceUnknown && negb (str_eqb result PostconditionVerified) then
    err ← appendOutcomeEvent Background id AttemptPossibleEffect o;
    mret (Some o, Some (match err with
      | Some err => unknown_outcome ("unresolved dispatch and outcome journal append failed: " +:+ error_text err)
      | None => unknown_outcome ("dispatch=" +:+ (match dispatchErr with Some err => error_text err | None => "<nil>" end) +:+
                                 "; observed postcondition=" +:+ result)
      end))
  else
    err ← appendOutcomeEvent Caller id AttemptCompleted o;
    match err with
    | Some err => mret (Some o, Some (ErrWrap "postcondition outcome journal append failed" err))
    | None =>
        r ← transition_now Background id attemptState AttemptCompleted status (oe_Result o);
        mret (Some o, match r with
          | Error err => Some (ErrWrap "postcondition attempt finalization failed" err)
          | Ok _ => guard_err (negb (str_eqb result PostconditionVerified)) (ErrDetail ErrPostconditionNotVerified result)
          end)
    end).

(** From the answer to the request on. *)
Definition observe_outcome (id : attempt_identity) (beforeDigest acceptance attemptState : string) (status : Z) (dispatchErr : option error)
    : RUN X outcome :=
  observation ← observePostcondition e plan;
  match po_Err observation, po_Evaluation observation with
  | Some observed, _ => finish_unobserved id beforeDigest acceptance attemptState status dispatchErr observation observed
  | None, Some evaluation => finish_observed id beforeDigest acceptance attemptState status dispatchErr observation evaluation
  | None, None => fails (ErrNew "invalid memory address or nil pointer dereference")
  end.

Definition after_dispatch (id : attempt_identity) (beforeDigest : string) (status : Z) (dispatchErr : option error) : RUN X outcome :=
  match dispatchErr with
  | Some err =>
      if status =? 412 then
        r ← transition_now Background id AttemptPossibleEffect AttemptBlocked status "destination rejected stale precondition";
        match r with
        | Error err => fails (ErrWrap "CRM precondition failed and attempt finalization failed" err)
        | Ok _ => fails (ErrNew "CRM destination rejected stale precondition")
        end
      else observe_outcome id beforeDigest RequestAcceptanceUnknown AttemptPossibleEffect status dispatchErr
  | None =>
      must (transition_now Caller id AttemptPossibleEffect AttemptAccepted status "destination returned successful mutation response")
        (ErrWrap "persist accepted CRM effect") (λ _, observe_outcome id beforeDigest RequestAccepted AttemptAccepted status None)
  end.

(** The custody of the effect: its intent in the journal, its possibility in the
    attempt. *)
Definition retain_effect (id : attempt_identity) (event : Event) : RUN X (option error) :=
  r ← Append e Caller event;
  match r with
  | Error err => mret (Some (ErrWrap "journal dispatch intent before mutation" err))
  | Ok _ =>
      r ← transition_now Caller id AttemptClaimed AttemptPossibleEffect 0 "dispatch boundary entered";
      mret (match r with Error err => Some (ErrWrap "persist possible CRM effect before dispatch" err) | Ok _ => None end)
  end.

Definition dispatch_effect (id : attempt_identity) (before : customerSnapshot) (beforeDigest : string) : RUN X outcome :=
  now ← clock e;
  let event := attempt_event packet permit id handle EventExecution (target_path (pc_Target (pm_Claims permit))) AttemptPossibleEffect "" "" now in
  d ← Dispatch 0 (silent ctx_Err) (Some (checkEffectBoundary e permit plan before)) (Some (retain_effect id event))
        (Some (patchCustomer e (cp_CustomerID plan) (cp_Patch plan) (eb_ExpectedResourceVersion (ai_Binding id))));
  if negb (dr_BoundaryEntered d.1)
  then fails (match d.2 with Some err => ErrWrap "CRM effect boundary not entered" err | None => ErrNew "CRM effect boundary not entered" end)
  else after_dispatch id beforeDigest (dr_Value d.1) d.2.

(** From the claim and its event on. *)
Definition execute_claimed (id : attempt_identity) : RUN X outcome :=
  r ← getCustomer e (cp_CustomerID plan);
  match r with
  | Error err =>
      _ ← transition_now Background id AttemptClaimed AttemptBlocked 0 ("precondition read failed: " +:+ error_text err);
      fails (ErrWrap "read customer before mutation" err)
  | Ok before =>
      match validateSnapshotBinding e before (ai_Binding id) (cp_CustomerID plan) with
      | Some err => _ ← transition_now Background id AttemptClaimed AttemptBlocked 0 (error_text err); fails err
      | None =>
          must (pure (DigestPayload (data_text (cs_State before)))) unwrapped (λ beforeDigest,
          must (pure (EvaluateCustomerUpdatePostcondition plan (cs_State before))) (ErrWrap "evaluate pre-mutation postcondition") (λ precondition,
          if str_eqb (pe_Result precondition) PostconditionVerified then finish_satisfied id beforeDigest precondition
          else dispatch_effect id before beforeDigest))
      end
  end.

Definition claimed_event (id : attempt_identity) (event : Event) : Event :=
  Build_Event (ev_Type event) (ev_ActionID event) (ev_Target event) (ev_Decision event) (ev_ReasonCodes event) (ev_EvidenceDigest event)
    (ev_EvidencePacketDigest event) (ev_PlanDigest event) (ai_AttemptID id) (eb_DestinationID (ai_Binding id)) (eb_AccountID (ai_Binding id)) handle
    AttemptClaimed (ev_OutcomeVerdict event) (ev_PayloadDigest event) (ev_OccurredAt event).

Definition Execute : RUN X outcome :=
  require (pure (Verify packet)) (ErrWrap "verify evidence packet") (
  require (CheckPermit e permit) (ErrWrap "verify execution permit") (
  require (pure (VerifyPermitPacketBinding packet (pm_Claims permit))) (ErrWrap "verify permit/evidence binding") (
  now ← clock e;
  if bool_decide (CheckValidity (pc_ValidUntil (pm_Claims permit)) now ≠ None) then fails (ErrNew "execution permit expired")
  else
    must (pure (screen_execution e packet permit plan)) unwrapped (λ id,
    require (ClaimAttempt e (attempt_record e permit plan id now)) (ErrWrap "claim CRM mutation attempt") (
    must (authorization_event e permit now) unwrapped (λ event,
    must (Append e Caller (claimed_event id event)) (ErrWrap "journal authorization before mutation") (λ _,
    execute_claimed id))))))).

(** * Recovery *)

Definition acceptanceForAttemptState (state : string) : string := if str_eqb state AttemptAccepted then RequestAccepted else RequestAcceptanceUnknown.

(** [newClosureEvidence] at the current time. *)
Definition closure_now (record : AttemptRecord) (stateAfter disposition result acceptance observation : string) (count : Z)
    (evaluation : option PostconditionEvaluation) (residualCustody : bool) (detail : string) : RUN X (Prelude.result ClosureEvidence) :=
  now ← clock e;
  let evidence := {|
    ce_APIVersion := ClosureEvidenceVersion; ce_AttemptID := at_AttemptID record; ce_IntentID := at_IntentID record;
    ce_Target := "customer/" +:+ at_CustomerID record; ce_PermitDigest := at_PermitDigest record; ce_PlanDigest := at_PlanDigest record;
    ce_DestinationID := at_DestinationID record; ce_AccountID := at_AccountID record; ce_ObservationHandle := at_ObservationHandle record;
    ce_StateBefore := at_State record; ce_StateAfter := stateAfter; ce_Disposition := disposition; ce_Result := result;
    ce_RequestAcceptance := acceptance; ce_ObservationStatus := observation; ce_ObservationCount := count; ce_Postcondition := evaluation;
    ce_ResidualCustody := residualCustody; ce_NewMutationDispatched := false; ce_Detail := TrimSpace detail; ce_ObservedAt := utc now;
    ce_IntegrityDigest := "" |} in
  mret (match validateClosureEvidence evidence with
        | Some err => Error err
        | None => digest ← digestClosureEvidence evidence; Ok (with_ClosureDigest digest evidence)
        end).

Definition appendClosureEvent (ctx : context) (id : attempt_identity) (evidence : ClosureEvidence) : RUN X (option error) :=
  r ← Append e ctx {|
    ev_Type := EventOutcome; ev_ActionID := pc_IntentID (pm_Claims permit); ev_Target := ce_Target evidence; ev_Decision := ""; ev_ReasonCodes := [];
    ev_EvidenceDigest := pc_EvidenceDigest (pm_Claims permit); ev_EvidencePacketDigest := it_Digest (pk_Integrity packet);
    ev_PlanDigest := ce_PlanDigest evidence; ev_AttemptID := ai_AttemptID id; ev_DestinationID := eb_DestinationID (ai_Binding id);
    ev_AccountID := eb_AccountID (ai_Binding id); ev_ObservationHandle := ce_ObservationHandle evidence; ev_AttemptState := ce_StateAfter evidence;
    ev_OutcomeVerdict := ce_Result evidence; ev_PayloadDigest := ce_IntegrityDigest evidence; ev_OccurredAt := ce_ObservedAt evidence |};
  mret (match r with Ok _ => None | Error err => Some err end).

Definition record_matches (record : AttemptRecord) (id : attempt_identity) : bool :=
  let binding := ai_Binding id in
  str_eqb (at_IntentID record) (pc_IntentID (pm_Claims permit)) && str_eqb (at_PermitDigest record) (ai_PermitDigest id) &&
  str_eqb (at_PlanDigest record) (ai_PlanDigest id) && str_eqb (at_DestinationID record) (eb_DestinationID binding) &&
  str_eqb (at_AccountID record) (eb_AccountID binding) && str_eqb (at_Endpoint record) (eb_Endpoint binding) &&
  str_eqb (at_AdapterProfile record) (eb_AdapterProfile binding) && str_eqb (at_CustomerID record) (cp_CustomerID plan) &&
  str_eqb (at_Operation record) (pc_Action (pm_Claims permit)) &&
  str_eqb (at_ExpectedResourceVersion record) (eb_ExpectedResourceVersion binding) && str_eqb (at_ObservationHandle record) handle.

(** [loadRecoveryAttempt], and what goes on with the record. *)
Definition with_recovery_attempt (k : AttemptRecord → attempt_identity → RUN X closure) : RUN X closure :=
  require (pure (Verify packet)) (ErrWrap "verify recovery evidence packet") (
  require (CheckPermit e permit) (ErrWrap "verify recovery permit identity") (
  require (pure (VerifyPermitPacketBinding packet (pm_Claims permit))) (ErrWrap "verify recovery permit/evidence binding") (
  must (pure (screen_recovery e packet permit plan)) unwrapped (λ id,
  must (LoadAttempt e (ai_AttemptID id)) unwrapped (λ record,
  if negb (record_matches record id) then fails (ErrNew "CRM recovery attempt binding mismatch") else k record id))))).

Definition not_closable (state : string) : error := ErrDetail ErrAttemptClosureState ("state=" +:+ state).

Definition unresolved (state : string) : bool := str_eqb state AttemptPossibleEffect || str_eqb state AttemptAccepted.

(** The evidence of a pending observation is kept, and the custody with it. *)
Definition keep_pending (id : attempt_identity) (record : AttemptRecord) (result acceptance : string) (observation : postconditionObservation)
    (detail : string) (err : error) : RUN X closure :=
  must (closure_now record (at_State record) ClosureObservationPending result acceptance (po_Status observation) (po_Count observation)
          (po_Evaluation observation) true detail) unwrapped (λ evidence,
  appended ← appendClosureEvent Background id evidence;
  mret (Some evidence, Some (match appended with
    | Some err => unknown_outcome ("recovery observation journal append failed: " +:+ error_text err)
    | None => err
    end))).

Definition close_observed (id : attempt_identity) (record : AttemptRecord) (acceptance : string) (observation : postconditionObservation)
    (evaluation : PostconditionEvaluation) : RUN X closure :=
  let result := pe_Result evaluation in
  must (closure_now record AttemptCompleted ClosureObservedCompleted result acceptance (po_Status observation) (po_Count observation)
          (Some evaluation) false "stable observation closed the retained attempt without a new mutation") unwrapped (λ evidence,
  err ← appendClosureEvent Caller id evidence;
  match err with
  | Some err => mret (Some evidence, Some (ErrWrap "recovery closure journal append failed" err))
  | None =>
      r ← transition_now Background id (at_State record) AttemptCompleted (at_HTTPStatus record) result;
      mret (Some evidence, match r with
        | Error err => Some (ErrWrap "recovery attempt finalization failed" err)
        | Ok _ => guard_err (negb (str_eqb result PostconditionVerified)) (ErrDetail ErrPostconditionNotVerified result)
        end)
  end).

Definition ReconcileAttempt : RUN X closure := with_recovery_attempt (λ record id,
  if str_eqb (at_State record) AttemptRetiredUnknown then fails ErrAttemptRetiredUnknown
  else if negb (unresolved (at_State record)) then fails (not_closable (at_State record))
  else
    observation ← observePostcondition e plan;
    let acceptance := acceptanceForAttemptState (at_State record) in
    match po_Err observation, po_Evaluation observation with
    | Some err, _ =>
        keep_pending id record PostconditionUnknown acceptance observation ("observation remains unresolved: " +:+ error_text err)
          (unknown_outcome ("recovery observation=" +:+ error_text err))
    | None, None => fails (ErrNew "recovery observation is missing postcondition evaluation")
    | None, Some evaluation =>
        let result := pe_Result evaluation in
        if str_eqb (at_State record) AttemptPossibleEffect && negb (str_eqb result PostconditionVerified) then
          keep_pending id record result RequestAcceptanceUnknown observation "stable observation does not discharge ambiguous request acceptance"
            (unknown_outcome ("request acceptance UNKNOWN and observed postcondition=" +:+ result))
        else close_observed id record acceptance observation evaluation
    end).

Definition RetireAttemptUnknown (reason : string) : RUN X closure :=
  let reason := TrimSpace reason in
  if str_eqb reason "" then fails (ErrNew "UNKNOWN retirement reason is required")
  else with_recovery_attempt (λ record id,
    if str_eqb (at_State record) AttemptRetiredUnknown then fails ErrAttemptRetiredUnknown
    else if negb (unresolved (at_State record)) then fails (not_closable (at_State record))
    else
      must (closure_now record AttemptRetiredUnknown ClosureRetiredUnknown PostconditionUnknown (acceptanceForAttemptState (at_State record))
              ObservationUnavailable 0 None true reason) unwrapped (λ evidence,
      err ← appendClosureEvent Caller id evidence;
      match err with
      | Some err => mret (Some evidence, Some (ErrWrap "UNKNOWN retirement journal append failed" err))
      | None =>
          r ← transition_now Background id (at_State record) AttemptRetiredUnknown (at_HTTPStatus record) ("RETIRED_UNKNOWN: " +:+ reason);
          mret (Some evidence, match r with
            | Error err => Some (ErrWrap "UNKNOWN retirement persistence failed" err)
            | Ok _ => None
            end)
      end)).
End Execution.
