(* ===== verification/CrmLaws.v ===== *)
(** * One mutation, under custody

    What holds of the runs of [CrmExecutor.v]: a PATCH is sent only after its
    attempt is claimed, authorised and recorded as possible, under an authority in
    force and for a customer that was read ([Execute_patches]); a recovery sends
    none; an outcome is what was observed. *)

From S2P Require Import Prelude Crypto Format GoTime Json Base64 Unmarshal Permit GovernedAction JournalEntry FileSystem AnyValue EvidencePipeline CrmOutcome CrmAttempt CrmExecutor.
Local Open Scope Z_scope.

(** * Requests *)

Definition is_patch (ev : crm_event) : Prop := match ev with EvHTTP request _ => hq_Method request = "PATCH" | _ => False end.

#[export] Instance is_patch_dec ev : Decision (is_patch ev).
Proof. destruct ev; cbn; apply _. Defined.

Definition patches (t : list crm_event) : list crm_event := filter is_patch t.

Lemma patches_app t u : patches (t ++ u) = patches t ++ patches u.
Proof. apply filter_app. Qed.

(** A program that sends no PATCH. *)
Definition patchless {X A} (m : RUN X A) : Prop := emits m (λ _ t, patches t = []).

Lemma patchless_ret {X A} (a : A) : patchless (mret a : RUN X A).
Proof. by apply emits_ret. Qed.

Lemma patchless_bind {X A B} (m : RUN X A) (k : A → RUN X B) : patchless m → (∀ a, patchless (k a)) → patchless (m ≫= k).
Proof.
  intros Hm Hk. eapply emits_bind; [exact Hm|]. intros a t Ht. eapply emits_impl; [apply Hk|]. intros b u Hu. by rewrite patches_app, Ht, Hu.
Qed.

Lemma patchless_call {X A} (mk : A → crm_event) (f : X → A * X) : (∀ a, ¬ is_patch (mk a)) → patchless (call mk f).
Proof. intros H. apply emits_call. intros a. unfold patches. rewrite filter_cons_False; [done|apply H]. Qed.

Lemma patchless_silent {X A} (f : X → A * X) : patchless (silent f : RUN X A).
Proof. by intros x a x' t [_ ->]%silent_inv. Qed.

Lemma lift_inv {X E A} (f : E → crm_event) (m : M X E A) x a x' t : lift f m x = (a, x', t) → ∃ u, m x = (a, x', u) ∧ t = f <$> u.
Proof. unfold lift. destruct (m x) as [[b y] u]. intros [= <- <- <-]. eauto. Qed.

Lemma patchless_lift {X E A} (f : E → crm_event) (m : M X E A) : (∀ ev, ¬ is_patch (f ev)) → patchless (lift f m).
Proof.
  intros H x a x' t (u & _ & ->)%lift_inv. unfold patches. induction u as [|ev u IH]; [done|]. cbn [fmap list_fmap]. by rewrite filter_cons_False.
Qed.

Lemma patchless_must {X A B} (m : RUN X (result A)) wrap (k : A → RUN X (option B * option error)) :
  patchless m → (∀ a, patchless (k a)) → patchless (must m wrap k).
Proof. intros Hm Hk. apply patchless_bind; [done|]. intros [a|err]; [done|apply patchless_ret]. Qed.

Lemma patchless_require {X B} (m : RUN X (option error)) wrap (k : RUN X (option B * option error)) :
  patchless m → patchless k → patchless (require m wrap k).
Proof. intros Hm Hk. apply patchless_bind; [done|]. intros [err|]; [apply patchless_ret|done]. Qed.

Create HintDb crm discriminated.

Ltac patchless_step :=
  match goal with
  | |- ∀ _, _ => intros ?
  | |- patchless (match ?v with _ => _ end) => destruct v
  | |- patchless (let '(_, _) := ?p in _) => destruct p
  | |- patchless (mret _) => apply patchless_ret
  | |- patchless (fails _) => apply patchless_ret
  | |- patchless (pure _) => apply patchless_ret
  | |- patchless (must _ _ _) => apply patchless_must
  | |- patchless (require _ _ _) => apply patchless_require
  | |- patchless (call _ _) => apply patchless_call
  | |- patchless (silent _) => apply patchless_silent
  | |- patchless (lift _ _) => apply patchless_lift
  | |- patchless (clock _) => apply patchless_call
  | |- patchless (Append _ _ _) => apply patchless_call
  | |- patchless (TransitionAttempt _ _ _ _ _ _ _ _) => apply patchless_call
  | |- patchless (LoadAttempt _ _) => apply patchless_call
  | |- patchless (ClaimAttempt _ _) => apply patchless_call
  | |- patchless (CheckPermit _ _) => apply patchless_lift
  | |- ¬ is_patch _ => by intros ?
  | |- patchless _ => solve [eauto with crm nocore]
  | |- patchless (_ ≫= _) => apply patchless_bind
  end.
Ltac patchless_tac := repeat patchless_step.

Section Patchless.
Context {X : Type} `{!GoWorld X, !HTTPClient X} (e : Executor X) (packet : Packet) (permit : Permit) (plan : CustomerUpdatePlan).

Lemma patchless_get customerID : patchless (getCustomer e customerID).
Proof. unfold getCustomer, Do. apply patchless_bind; [by apply patchless_call; intros ? ?|]. intros ?. apply patchless_ret. Qed.

Lemma patchless_transition ctx id from to status detail : patchless (transition_now e ctx id from to status detail).
Proof. unfold transition_now. patchless_tac. Qed.

Lemma patchless_boundary before : patchless (checkEffectBoundary e permit plan before).
Proof. unfold checkEffectBoundary. patchless_tac. Qed.

Lemma patchless_reads reads evaluations snapshots : patchless (observe_reads e plan reads evaluations snapshots).
Proof.
  revert evaluations snapshots. induction reads as [|reads IH]; intros evaluations snapshots; cbn [observe_reads]; [apply patchless_ret|].
  apply patchless_bind; [apply patchless_get|]. intros [snapshot|err]; patchless_tac.
Qed.

Lemma patchless_observe : patchless (observePostcondition e plan).
Proof. apply patchless_reads. Qed.

Lemma patchless_outcome id beforeDigest afterDigest result acceptance observation count evaluation status :
  patchless (outcome_now e packet permit id beforeDigest afterDigest result acceptance observation count evaluation status).
Proof. unfold outcome_now. patchless_tac. Qed.

Lemma patchless_append_outcome ctx id state o : patchless (appendOutcomeEvent e packet permit plan ctx id state o).
Proof. unfold appendOutcomeEvent. patchless_tac. Qed.

Lemma patchless_append_closure ctx id evidence : patchless (appendClosureEvent e packet permit ctx id evidence).
Proof. unfold appendClosureEvent. patchless_tac. Qed.

Lemma patchless_closure record after disposition result acceptance observation count evaluation residual detail :
  patchless (closure_now e record after disposition result acceptance observation count evaluation residual detail).
Proof. unfold closure_now. patchless_tac. Qed.

Lemma patchless_authorization now : patchless (authorization_event e permit now).
Proof. unfold authorization_event. patchless_tac. Qed.

Lemma patchless_retain id event : patchless (retain_effect e id event).
Proof. unfold retain_effect. patchless_tac. apply patchless_transition. Qed.
End Patchless.

#[export] Hint Resolve patchless_get patchless_transition patchless_boundary patchless_observe patchless_outcome patchless_append_outcome
  patchless_append_closure patchless_closure patchless_authorization patchless_retain : crm.

Section After.
Context {X : Type} `{!GoWorld X, !HTTPClient X} (e : Executor X) (packet : Packet) (permit : Permit) (plan : CustomerUpdatePlan).

Lemma patchless_satisfied id beforeDigest precondition : patchless (finish_satisfied e packet permit plan id beforeDigest precondition).
Proof. unfold finish_satisfied. patchless_tac. Qed.

Lemma patchless_after id beforeDigest status err : patchless (after_dispatch e packet permit plan id beforeDigest status err).
Proof. unfold after_dispatch, observe_outcome, finish_unobserved, finish_observed. patchless_tac. Qed.

Lemma patchless_reconcile : patchless (ReconcileAttempt e packet permit plan).
Proof. unfold ReconcileAttempt, with_recovery_attempt, keep_pending, close_observed. patchless_tac. Qed.

Lemma patchless_retire reason : patchless (RetireAttemptUnknown e packet permit plan reason).
Proof. unfold RetireAttemptUnknown, with_recovery_attempt. patchless_tac. Qed.
End After.
#[export] Hint Resolve patchless_satisfied patchless_after : crm.

(** * The boundary *)

(** A dispatch that enters the boundary ran everything before it with success. *)
Lemma Dispatch_entered {W E T} (zero : T) (ctx check retain : M W E (option error)) effect w d w' t :
  Dispatch zero ctx (Some check) (Some retain) (Some effect) w = (d, w', t) → dr_BoundaryEntered d.1 = true →
  ∃ w1 w2 w3 w4 w5 w6 w7 w8 t1 t2 t3 t4 t5 t6 t7 t8 t9,
    ctx w = (None, w1, t1) ∧ check w1 = (None, w2, t2) ∧ ctx w2 = (None, w3, t3) ∧ retain w3 = (None, w4, t4) ∧ ctx w4 = (None, w5, t5) ∧
    check w5 = (None, w6, t6) ∧ ctx w6 = (None, w7, t7) ∧ ctx w7 = (None, w8, t8) ∧ effect w8 = ((dr_Value d.1, d.2), w', t9) ∧
    t = t1 ++ t2 ++ t3 ++ t4 ++ t5 ++ t6 ++ t7 ++ t8 ++ t9.
Proof.
  intros H Hb. destruct d as [res err]. unfold Dispatch, PrepareEffect in H. run_monad; try done.
  match goal with H : effect _ = (?v, _, _) |- _ => destruct v end.
  repeat eexists; try eassumption. by rewrite ?app_nil_r, <- ?app_assoc.
Qed.

(** One that does not has sent nothing, if nothing before it sends anything. *)
Lemma Dispatch_refused {X T} (zero : T) (ctx check retain : RUN X (option error)) effect x d x' t :
  patchless ctx → patchless check → patchless retain →
  Dispatch zero ctx (Some check) (Some retain) (Some effect) x = (d, x', t) → dr_BoundaryEntered d.1 = false → patches t = [].
Proof.
  intros Hx Hc Hr H Hb. destruct d as [res err]. unfold Dispatch, PrepareEffect in H. run_monad; try done;
    repeat match goal with
    | H : ctx _ = _ |- _ => apply Hx in H
    | H : check _ = _ |- _ => apply Hc in H
    | H : retain _ = _ |- _ => apply Hr in H
    end; rewrite ?patches_app;
    repeat match goal with H : patches _ = [] |- _ => rewrite H; clear H end; done.
Qed.

Lemma must_inv {X A B} (m : RUN X (result A)) wrap (k : A → RUN X (option B * option error)) x r x' t : must m wrap k x = (r, x', t) →
  (∃ err, m x = (Error err, x', t) ∧ r = (None, Some (wrap err))) ∨
  (∃ a x1 t1 t2, m x = (Ok a, x1, t1) ∧ k a x1 = (r, x', t2) ∧ t = t1 ++ t2).
Proof.
  intros ([a|err] & x1 & t1 & t2 & Hm & Hk & ->)%bind_inv; [right; eauto 10|left].
  apply ret_inv in Hk as (-> & -> & ->). exists err. by rewrite app_nil_r.
Qed.

Lemma require_inv {X B} (m : RUN X (option error)) wrap (k : RUN X (option B * option error)) x r x' t : require m wrap k x = (r, x', t) →
  (∃ err, m x = (Some err, x', t) ∧ r = (None, Some (wrap err))) ∨
  (∃ x1 t1 t2, m x = (None, x1, t1) ∧ k x1 = (r, x', t2) ∧ t = t1 ++ t2).
Proof.
  intros ([err|] & x1 & t1 & t2 & Hm & Hk & ->)%bind_inv; [left|right; eauto 10].
  apply ret_inv in Hk as (-> & -> & ->). exists err. by rewrite app_nil_r.
Qed.

(** What [getCustomer] read. *)
Definition snapshot_of (response : http_response) : result customerSnapshot :=
  if negb (hr_StatusCode response =? 200) then Error (ErrNew ("CRM GET returned HTTP " +:+ pretty (hr_StatusCode response)))
  else
    state ← wrapped "decode CRM customer" (decode_state (hr_Body response));
    Ok {| cs_State := state; cs_ResourceVersion := TrimSpace (hr_ETag response);
          cs_DestinationID := TrimSpace (hr_DestinationID response); cs_AccountID := TrimSpace (hr_AccountID response) |}.

Definition get_request {X} (e : Executor X) (customerID : string) : http_request :=
  {| hq_Method := "GET"; hq_URL := customerURL e customerID; hq_Header := []; hq_Body := "" |}.

Section Runs.
Context {X : Type} `{!GoWorld X, !HTTPClient X} (e : Executor X).

Lemma get_inv customerID x snapshot x' t : getCustomer e customerID x = (Ok snapshot, x', t) →
  ∃ response, t = [EvHTTP (get_request e customerID) (Ok response)] ∧ snapshot_of response = Ok snapshot.
Proof.
  intros ([response|err] & x1 & t1 & t2 & [_ ->]%call_inv & (Hr & -> & ->)%ret_inv & ->)%bind_inv; [|done].
  exists response. by rewrite app_nil_r.
Qed.

Lemma transition_inv ctx id from to status detail x record x' t : transition_now e ctx id from to status detail x = (Ok record, x', t) →
  ∃ now, t = [EvClock now; EvTransition (ai_AttemptID id) from to (Ok record)].
Proof. intros (now & x1 & t1 & t2 & [_ ->]%call_inv & [_ ->]%call_inv & ->)%bind_inv. by eexists. Qed.

(** What the boundary's check established. *)
Definition boundary_holds (permit : Permit) (plan : CustomerUpdatePlan) (before : customerSnapshot) (now : time) : Prop :=
  CheckValidity (pc_ValidUntil (pm_Claims permit)) now = None ∧
  ∃ binding, pc_ExecutionBinding (pm_Claims permit) = Some binding ∧ validateSnapshotBinding e before binding (cp_CustomerID plan) = None ∧
    DigestCustomerUpdatePlan plan = Ok (pc_PlanDigest (pm_Claims permit)).

Lemma boundary_inv permit plan before x x' t : checkEffectBoundary e permit plan before x = (None, x', t) →
  ∃ now, t = [EvClock now] ∧ boundary_holds permit plan before now.
Proof.
  unfold checkEffectBoundary, boundary_holds. destruct (pc_ExecutionBinding _) as [binding|]; [|by intros ([=] & _)%ret_inv].
  destruct (DigestCustomerUpdatePlan plan) as [digest|]; [|by intros ([=] & _)%ret_inv]. cbn -[targetRef CheckBinding].
  destruct (targetRef _ _ _ _) as [admitted|]; [|by intros ([=] & _)%ret_inv]. cbn -[targetRef CheckBinding].
  destruct (targetRef _ _ _ _) as [current|]; [|by intros ([=] & _)%ret_inv]. cbn -[targetRef CheckBinding].
  destruct (CheckBinding _ _) eqn:Hb; [by intros ([=] & _)%ret_inv|]. apply check_fields_None in Hb. cbn in Hb.
  apply Forall_cons in Hb as [[_ Hd] _]. cbn in Hd.
  intros (now & x1 & t1 & t2 & [_ ->]%call_inv & (Hr & -> & ->)%ret_inv & ->)%bind_inv. exists now. split; [done|].
  destruct (CheckValidity _ _); [done|]. split; [done|]. exists binding. by rewrite Hd.
Qed.

Lemma retain_inv id event x x' t : retain_effect e id event x = (None, x', t) →
  ∃ entry now record, t = [EvAppend event (Ok entry); EvClock now; EvTransition (ai_AttemptID id) AttemptClaimed AttemptPossibleEffect (Ok record)].
Proof.
  intros ([entry|err] & x1 & t1 & t2 & [_ ->]%call_inv & Hk & ->)%bind_inv; [|by apply ret_inv in Hk as ([=] & _)].
  apply bind_inv in Hk as ([record|err] & x2 & t3 & t4 & Ht & (Hr & -> & ->)%ret_inv & ->); [|done].
  apply transition_inv in Ht as [now ->]. exists entry, now, record. done.
Qed.

Lemma patch_inv customerID patch version x v x' t : patchCustomer e customerID patch version x = (v, x', t) →
  (t = [] ∧ ∃ err, v = (0, Some err)) ∨
  ∃ body r, marshal_map patch = Ok body ∧ t = [EvHTTP (patch_request e customerID body version) r] ∧
    v = match r with
        | Error err => (0, Some err)
        | Ok response => (hr_StatusCode response,
            guard_err (negb (is_success (hr_StatusCode response))) (ErrNew ("CRM PATCH returned HTTP " +:+ pretty (hr_StatusCode response))))
        end.
Proof.
  unfold patchCustomer. destruct (marshal_map patch) as [body|err].
  - intros (r & x1 & t1 & t2 & [_ ->]%call_inv & (-> & -> & ->)%ret_inv & ->)%bind_inv. right. exists body, r. split_and!; [done..|by destruct r].
  - intros (-> & -> & ->)%ret_inv. left. eauto.
Qed.

Lemma check_permit_inv permit x x' t : CheckPermit e permit x = (None, x', t) →
  ∃ keyID payload signature, t = [EvAuthority (EVerify keyID payload signature None)].
Proof.
  intros (u & H & ->)%lift_inv. revert H. unfold VerifyPermit. destruct (negb _); [by intros ([=] & _)%ret_inv|].
  destruct (_ || _); [by intros ([=] & _)%ret_inv|]. destruct (base64_decode _) as [signature|]; [|by intros ([=] & _)%ret_inv].
  destruct (canonicalPermitPayload _) as [payload|]; [|by intros ([=] & _)%ret_inv]. intros [_ ->]%call_inv. by do 3 eexists.
Qed.
End Runs.

(** * The trail of a mutation *)

Section Trail.
Context {X : Type} `{!GoWorld X, !HTTPClient X} (e : Executor X) (packet : Packet) (permit : Permit) (plan : CustomerUpdatePlan).

(** The attempt is claimed for a verified permit in force, and its authorization is
    in the journal. *)
Definition claimed_trail (id : attempt_identity) (pre : list crm_event) : Prop :=
  ∃ keyID payload signature now authorization entry,
    Verify packet = None ∧ VerifyPermitPacketBinding packet (pm_Claims permit) = None ∧ screen_execution e packet permit plan = Ok id ∧
    CheckValidity (pc_ValidUntil (pm_Claims permit)) now = None ∧ ev_Type authorization = EventAuthorization ∧
    ev_AttemptID authorization = ai_AttemptID id ∧ ev_AttemptState authorization = AttemptClaimed ∧
    [EvAuthority (EVerify keyID payload signature None); EvClock now; EvClaim (attempt_record e permit plan id now) None;
     EvAppend authorization (Ok entry)] `sublist_of` pre.

(** The customer was read, as the permit expects it and without what the plan asks
    for; the intent is in the journal, the attempt is possible, and the authority
    is in force after that. *)
Definition dispatch_trail (id : attempt_identity) (pre : list crm_event) (before : customerSnapshot) : Prop :=
  ∃ response evaluation intent entry record late,
    snapshot_of response = Ok before ∧ validateSnapshotBinding e before (ai_Binding id) (cp_CustomerID plan) = None ∧
    EvaluateCustomerUpdatePostcondition plan (cs_State before) = Ok evaluation ∧ pe_Result evaluation ≠ PostconditionVerified ∧
    ev_Type intent = EventExecution ∧ ev_AttemptID intent = ai_AttemptID id ∧ ev_AttemptState intent = AttemptPossibleEffect ∧
    boundary_holds e permit plan before late ∧
    [EvHTTP (get_request e (cp_CustomerID plan)) (Ok response); EvAppend intent (Ok entry);
     EvTransition (ai_AttemptID id) AttemptClaimed AttemptPossibleEffect (Ok record); EvClock late] `sublist_of` pre.

(** The request changes what the plan says, on the condition of the permit. *)
Definition plan_request (id : attempt_identity) (request : http_request) : Prop :=
  ∃ body, marshal_map (cp_Patch plan) = Ok body ∧
    request = patch_request e (cp_CustomerID plan) body (eb_ExpectedResourceVersion (ai_Binding id)).

(** A run that sends nothing, or one request after [Trail]. *)
Definition sends_once (Trail : list crm_event → Prop) (request_ok : http_request → Prop) (t : list crm_event) : Prop :=
  patches t = [] ∨ ∃ pre request r post, t = pre ++ EvHTTP request r :: post ∧ patches pre = [] ∧ patches post = [] ∧
    hq_Method request = "PATCH" ∧ request_ok request ∧ Trail pre.

Lemma sends_once_app (Trail Trail' : list crm_event → Prop) ok t1 t : patches t1 = [] → (∀ pre, Trail pre → Trail' (t1 ++ pre)) →
  sends_once Trail ok t → sends_once Trail' ok (t1 ++ t).
Proof.
  intros H1 HT [H|(pre & request & r & post & -> & Hpre & Hpost & Hm & Hok & Htr)]; [left; by rewrite patches_app, H1|right].
  exists (t1 ++ pre), request, r, post. rewrite <- app_assoc, patches_app, H1. split_and!; auto.
Qed.

Lemma dispatch_sends_once id before beforeDigest response evaluation x r x' t :
  snapshot_of response = Ok before → validateSnapshotBinding e before (ai_Binding id) (cp_CustomerID plan) = None →
  EvaluateCustomerUpdatePostcondition plan (cs_State before) = Ok evaluation → pe_Result evaluation ≠ PostconditionVerified →
  dispatch_effect e packet permit plan id before beforeDigest x = (r, x', t) →
  sends_once (λ pre, dispatch_trail id (EvHTTP (get_request e (cp_CustomerID plan)) (Ok response) :: pre) before) (plan_request id) t.
Proof.
  intros Hs Hb He Hr H. unfold dispatch_effect in H. apply bind_inv in H as (now & x1 & t1 & t2 & [_ ->]%call_inv & H & ->).
  cbv zeta in H. apply bind_inv in H as (d & x2 & t3 & t4 & Hd & H & ->). destruct (dr_BoundaryEntered d.1) eqn:Hin; cbn [negb] in H.
  2:{ apply Dispatch_refused in Hd; [|first [apply patchless_silent|apply patchless_boundary|apply patchless_retain]..|done].
      apply ret_inv in H as (_ & _ & ->). left. rewrite !patches_app, Hd. done. }
  apply Dispatch_entered in Hd; [|done].
  destruct Hd as (w1&w2&w3&w4&w5&w6&w7&w8&u1&u2&u3&u4&u5&u6&u7&u8&u9&[_ ->]%silent_inv&H2&[_ ->]%silent_inv&H4&[_ ->]%silent_inv&H6&[_ ->]%silent_inv&[_ ->]%silent_inv&H9&->).
  apply boundary_inv in H2 as (early & -> & _). apply retain_inv in H4 as (entry & at_ & record & ->). apply boundary_inv in H6 as (late & -> & Hlate).
  apply patchless_after in H. apply patch_inv in H9 as [[-> _]|(body & resp & Hbody & -> & _)]; cbn [app].
  - left. unfold patches in *. rewrite !filter_cons_False by (by intros ?). done.
  - right. eexists [_; _; _; _; _; _], _, _, t4. split_and!; [by cbn [app]|done|done|done|by exists body|].
    exists response, evaluation, (attempt_event packet permit id (handle e plan) EventExecution (target_path (pc_Target (pm_Claims permit)))
      AttemptPossibleEffect "" "" now), entry, record, late. split_and!; [done..|]. cbn [app]. repeat constructor.
Qed.

Lemma execute_sends_once id x r x' t : execute_claimed e packet permit plan id x = (r, x', t) →
  sends_once (λ pre, ∃ before, dispatch_trail id pre before) (plan_request id) t.
Proof.
  unfold execute_claimed. intros ([before|err] & x1 & t1 & t2 & Hg & H & ->)%bind_inv.
  2:{ apply patchless_get in Hg. left. rewrite patches_app, Hg. revert H. apply patchless_bind; [apply patchless_transition|patchless_tac]. }
  apply get_inv in Hg as (response & -> & Hs). destruct (validateSnapshotBinding _ _ _ _) eqn:Hb.
  { left. unfold patches. cbn [app]. rewrite filter_cons_False by (by intros ?). revert H. apply patchless_bind; [apply patchless_transition|patchless_tac]. }
  apply (sends_once_app (λ pre, ∃ before, dispatch_trail id (EvHTTP (get_request e (cp_CustomerID plan)) (Ok response) :: pre) before)); [done|done|].
  apply must_inv in H as [(err & (_ & _ & ->)%ret_inv & _)|(digest & x2 & t3 & t4 & (_ & -> & ->)%ret_inv & H & ->)]; [by left|].
  apply must_inv in H as [(err & (_ & _ & ->)%ret_inv & _)|(evaluation & x3 & t5 & t6 & (He & -> & ->)%ret_inv & H & ->)]; [by left|].
  destruct (str_eqb _ _) eqn:Hr; [left; by apply patchless_satisfied in H|]. apply str_eqb_neq in Hr.
  eapply dispatch_sends_once in H as [H|(pre & request & resp & post & -> & Hpre & Hpost & Hm & Hok & Htr)]; [by left| |done..].
  right. exists pre, request, resp, post. split_and!; [done..|]. by exists before.
Qed.

Lemma Execute_patches x r x' t : Execute e packet permit plan x = (r, x', t) →
  patches t = [] ∨ ∃ id, sends_once (λ pre, claimed_trail id pre ∧ ∃ before, dispatch_trail id pre before) (plan_request id) t ∧
    ∃ now, EvClaim (attempt_record e permit plan id now) None ∈ t.
Proof.
  unfold Execute. intros [(? & (_ & _ & ->)%ret_inv & _)|(x1 & t1 & t2 & (Hv & -> & ->)%ret_inv & H & ->)]%require_inv; [by left|].
  apply require_inv in H as [(? & H%patchless_lift & _)|(x2 & t3 & t4 & (keyID & payload & signature & ->)%check_permit_inv & H & ->)]; [by left|by intros ? ?|].
  apply require_inv in H as [(? & (_ & _ & ->)%ret_inv & _)|(x3 & t5 & t6 & (Hp & -> & ->)%ret_inv & H & ->)]; [by left|].
  apply bind_inv in H as (now & x4 & t7 & t8 & [_ ->]%call_inv & H & ->). case_bool_decide as Hvalid; [apply ret_inv in H as (_ & _ & ->); by left|].
  apply must_inv in H as [(? & (_ & _ & ->)%ret_inv & _)|(id & x5 & t9 & t10 & (Hid & -> & ->)%ret_inv & H & ->)]; [by left|].
  apply require_inv in H as [(? & [_ ->]%call_inv & _)|(x6 & t11 & t12 & [_ ->]%call_inv & H & ->)]; [by left|].
  apply must_inv in H as [(? & H & _)|(event & x7 & t13 & t14 & Hev & H & ->)].
  { left. apply patchless_authorization in H. cbn [app]. unfold patches. by rewrite !filter_cons_False by (by intros ?). }
  apply must_inv in H as [(? & [_ ->]%call_inv & _)|(entry & x8 & t15 & t16 & [_ ->]%call_inv & H & ->)].
  { left. apply patchless_authorization in Hev. cbn [app]. unfold patches in *. rewrite !filter_cons_False by (by intros ?). by rewrite filter_app, Hev. }
  right. exists id. split.
  2:{ exists now. rewrite !elem_of_app, !elem_of_cons. auto 10. }
  assert (ev_Type event = EventAuthorization) as Htype.
  { revert Hev. unfold authorization_event. intros (err & y & u1 & u2 & _ & (Ha & _ & _)%ret_inv & _)%bind_inv. destruct err; [done|].
    destruct (str_eqb _ ""); [done|]. destruct (permit_digest permit); [|done]. injection Ha as ->. done. }
  apply patchless_authorization in Hev. apply execute_sends_once in H. rewrite !(assoc_L app). eapply sends_once_app; [..|exact H].
  - unfold patches in *. cbn [app]. rewrite !filter_cons_False by (by intros ?). by rewrite filter_app, Hev.
  - intros pre (before & Htr). split.
    + exists keyID, payload, signature, now, (claimed_event e plan id event), entry. split_and!; [done|done|done| |exact Htype|done|done|].
      * destruct (CheckValidity _ now); [by destruct Hvalid|done].
      * cbn [app]. do 3 apply sublist_skip. rewrite <- app_assoc. apply sublist_inserts_l. cbn [app]. apply sublist_skip, sublist_nil_l.
    + exists before. destruct Htr as (response & evaluation & intent & entry' & record & late & ?&?&?&?&?&?&?&?& Hsub).
      exists response, evaluation, intent, entry', record, late. split_and!; [done..|]. by apply sublist_inserts_l.
Qed.
End Trail.
