(* ===== verification/CrmCustody.v ===== *)
(** * One mutation per attempt

    Among processes that share a directory of attempts: whatever they execute,
    reconcile and retire, a permit and its plan are sent at most once.  The rules:
    a record that exists stays, and an exclusive creation meets none. *)

From S2P Require Import Prelude Crypto Format GoTime Json Base64 Unmarshal Permit GovernedAction JournalEntry FileSystem KernelAbi Linux AnyValue EvidencePipeline CrmOutcome CrmAttempt CrmExecutor CrmLaws.
From S2P Require LifecycleLaws.
Local Open Scope Z_scope.

Abbreviation ends := LifecycleLaws.ends.

Section Rules.
Context {X : Type} (there : X → string → Prop).

(** The records stay. *)
Definition keeps (x x' : X) : Prop := ∀ path, ends ".json" path → there x path → there x' path.

#[export] Instance keeps_preorder : PreOrder keeps.
Proof. unfold keeps. split; [intros x path _; done|intros x y z H1 H2 path Hp Hx; auto]. Qed.
End Rules.

Class AttemptLaws (X : Type) `{!GoWorld X, !FileSystem X, !LinuxSystem X, !HTTPClient X} : Type := {
  there : X → string → Prop;
  ctx_Err_keeps x a x' : ctx_Err x = (a, x') → keeps there x x';
  client_Do_keeps request x a x' : client_Do request x = (a, x') → keeps there x x';
  ReadFile_keeps path x a x' : os_ReadFile path x = (a, x') → keeps there x x';
  Write_keeps f data x a x' : file_Write f data x = (a, x') → keeps there x x';
  Sync_keeps f x a x' : file_Sync f x = (a, x') → keeps there x x';
  Close_keeps f x a x' : file_Close f x = (a, x') → keeps there x x';
  Chmod_keeps f x a x' : file_Chmod f x = (a, x') → keeps there x x';
  (** an exclusive creation meets no record, and leaves one *)
  OpenFile_keeps path flags x a x' : os_OpenFile path flags x = (a, x') → keeps there x x' ∧
    ∀ f, a = Ok f → flags = CreateExclusive → ends ".json" path → ¬ there x path ∧ there x' path;
  (** a temporary file has its own kind of name *)
  CreateTemp_keeps dir x a x' : os_CreateTemp dir ".attempt-*" x = (a, x') → keeps there x x' ∧
    ∀ f, a = Ok f → ¬ ends ".json" (file_Name f);
  Rename_keeps from to x a x' : os_Rename from to x = (a, x') → ¬ ends ".json" from → keeps there x x';
  Remove_keeps path x a x' : os_Remove path x = (a, x') → ¬ ends ".json" path → keeps there x x' }.

(** * Paths *)

Lemma hex_no_slash s : is_ok (hex_DecodeString s) = true → all_chars (λ a, negb (Ascii.eqb a "/")) s = true.
Proof.
  assert (∀ a n, hex_value a = Some n → negb (Ascii.eqb a "/") = true) as Ha.
  { intros a n H. destruct (Ascii.eqb_spec a "/") as [->|]; [by vm_compute in H|done]. }
  remember (String.length s) as n eqn:Hn. revert s Hn. induction (lt_wf n) as [n _ IH]. intros s ->.
  destruct s as [|a [|b s]]; [done|cbn; by destruct (hex_value a)|]. cbn [hex_DecodeString].
  destruct (hex_value a) eqn:E1; [|done]. destruct (hex_value b) eqn:E2; [|done]. intros H. cbn [all_chars].
  rewrite (Ha _ _ E1), (Ha _ _ E2). cbn [andb]. eapply IH; [|done|]; [cbn; lia|]. cbn in H. by destruct (hex_DecodeString s).
Qed.

Lemma attempt_path_json s id path : fs_dir s ≠ "" → attempt_path s id = Ok path → ends ".json" path.
Proof.
  intros Hd. unfold attempt_path. destruct (strip_prefix _ _) as [h|]; [|done]. destruct (Nat.eqb_spec (String.length h) 64) as [Hl|]; [|done]. cbn [negb].
  destruct (is_ok (hex_DecodeString h)) eqn:Hh; [|done]. intros [= <-]. destruct (LifecycleLaws.join_name _ Hd) as [pre Hpre].
  exists (pre +:+ h). rewrite Hpre, string_app_assoc; [done|]. apply hex_no_slash in Hh.
  split_and!; try (intros E; apply (f_equal String.length) in E; rewrite string_length_app, Hl in E; cbn in E; lia).
  apply LifecycleLaws.path_parts_free. by rewrite all_chars_app, Hh.
Qed.

(** * The store *)

Section Store.
Context {X : Type} `{!GoWorld X, !FileSystem X, !LinuxSystem X, !HTTPClient X, !AttemptLaws X} (s : FileAttemptStore) (Hdir : fs_dir s ≠ "").

Abbreviation steadily := (respects (keeps there)).

Ltac keeps_step :=
  match goal with
  | |- ∀ _, _ => intros ?
  | |- respects _ (match ?v with _ => _ end) => destruct v eqn:?
  | |- respects _ (mret _) => apply respects_ret, _
  | |- respects _ (check _ _ _) => apply respects_check; [apply _|..]
  | |- respects _ (check_close _ _ _ _) => apply respects_check_close; [apply _|apply respects_call; by apply Close_keeps|..]
  | |- respects _ (try _ _ _) => apply respects_try; [apply _|..]
  | |- respects _ (failed _) => unfold failed
  | |- respects _ (contextErr _) => unfold contextErr
  | |- respects _ (syncAttemptDir _) => unfold syncAttemptDir
  | |- respects _ (Sync _) => apply respects_call; by apply Sync_keeps
  | |- respects _ (Close _) => apply respects_call; by apply Close_keeps
  | |- respects _ (Chmod _) => apply respects_call; by apply Chmod_keeps
  | |- respects _ (Write _ _) => apply respects_call; by apply Write_keeps
  | |- respects _ (ReadFile _) => apply respects_call; by apply ReadFile_keeps
  | |- respects _ (OpenFile _ _) => apply respects_call; intros ? ? ? [? _]%OpenFile_keeps; assumption
  | |- respects _ (Rename _ _) => apply respects_call; intros ? ? ? ?; by eapply Rename_keeps
  | |- respects _ (Remove _) => apply respects_call; intros ? ? ? ?; by eapply Remove_keeps
  | |- respects _ ctxErr => apply respects_silent; by apply ctx_Err_keeps
  | |- respects _ (_ ≫= _) => apply respects_bind; [apply _|..]
  end.
Ltac keeps_tac := repeat keeps_step.

Lemma load_keeps id : steadily (loadUnlocked s id).
Proof. unfold loadUnlocked. keeps_tac. Qed.

Lemma write_keeps record : steadily (writeAtomic s record).
Proof.
  unfold writeAtomic. destruct (attempt_path _ _) as [path|]; [|by apply respects_ret, _]. destruct (marshal_attempt record) as [payload|]; [|by apply respects_ret, _].
  intros x r x' t [(err & [Hc _]%call_inv & _)|(f & x1 & t1 & t2 & [Hc _]%call_inv & H & _)]%try_inv; apply CreateTemp_keeps in Hc as [Hk Hf]; [done|].
  specialize (Hf f eq_refl). etrans; [exact Hk|]. revert H. generalize r.
  match goal with |- ∀ r, ?m x1 = _ → _ => assert (Hm : steadily m); [|intros v Hv; by eapply Hm] end.
  unfold replace_attempt. keeps_tac.
Qed.

Lemma transition_keeps ctx id from to status detail at_ : steadily (transition s ctx id from to status detail at_).
Proof. unfold transition. keeps_tac; first [apply load_keeps|apply write_keeps]. Qed.

Lemma claim_keeps ctx record : steadily (claim s ctx record).
Proof. unfold claim. keeps_tac. Qed.

(** A claim that succeeds creates the record. *)
Lemma claim_creates ctx record x x' t : claim s ctx record x = (Ok tt, x', t) →
  ∃ path, attempt_path s (at_AttemptID record) = Ok path ∧ ¬ there x path ∧ there x' path.
Proof.
  unfold claim. intros [(? & _ & [=])|(x1 & t1 & t2 & H1 & H & _)]%check_inv.
  assert (keeps there x x1) as Hk by (revert H1; generalize (None : option error); intros ? Hc; revert Hc; destruct ctx;
    [by intros [?%ctx_Err_keeps _]%silent_inv|by intros (_ & -> & _)%ret_inv]).
  destruct (validateAttemptRecord record); [by apply ret_inv in H as ([=] & _)|]. destruct (negb _); [by apply ret_inv in H as ([=] & _)|].
  destruct (attempt_path _ _) as [path|] eqn:Hpath; [|by apply ret_inv in H as ([=] & _)]. destruct (marshal_attempt record) as [payload|]; [|by apply ret_inv in H as ([=] & _)].
  pose proof (attempt_path_json _ _ _ Hdir Hpath) as Hjson.
  apply bind_inv in H as ([f|err] & x2 & t3 & t4 & [Ho _]%call_inv & H & _); [|by apply ret_inv in H as ([=] & _)].
  apply OpenFile_keeps in Ho as [_ Ho]. destruct (Ho f eq_refl eq_refl Hjson) as [Hnone Hsome].
  exists path. split_and!; [done|by intros ?%Hk|].
  match type of H with ?m x2 = _ => assert (steadily m) as Hm by keeps_tac end. by apply Hm in H; apply H.
Qed.

(** Whether an attempt has its record. *)
Definition claimed (x : X) (id : string) : Prop := ∃ path, attempt_path s id = Ok path ∧ there x path.

Lemma claimed_keeps x x' id : keeps there x x' → claimed x id → claimed x' id.
Proof. intros Hk (path & Hp & Ht). exists path. split; [done|]. apply Hk; [by eapply attempt_path_json|done]. Qed.

Lemma untraced_inv {A} (m : IO X A) x a x' : untraced m x = (a, x') → ∃ t, m x = (a, x', t).
Proof. unfold untraced. destruct (m x) as [[b y] t]. intros [= <- <-]. by eexists. Qed.
End Store.

(** * The executor *)

Section Executor.
Context {X : Type} `{!GoWorld X, !FileSystem X, !LinuxSystem X, !HTTPClient X, !AttemptLaws X} (s : FileAttemptStore) (Hdir : fs_dir s ≠ "").

(** An executor of this directory, whose verifier, journal and clock leave it alone. *)
Record steady (e : Executor X) : Prop := {
  steady_store : ex_attempts e = file_store s;
  steady_verifier k p sig x a x' : sv_Verify (ex_permitVerifier e) k p sig x = (a, x') → keeps there x x';
  steady_journal ctx event x a x' : ex_journal e ctx event x = (a, x') → keeps there x x';
  steady_clock x a x' : ex_clock e x = (a, x') → keeps there x x' }.

(** A claim in the trace created its record, which stays. *)
Definition recorded (x x' : X) (t : list crm_event) : Prop :=
  keeps there x x' ∧ ∀ record, EvClaim record None ∈ t → ¬ claimed s x (at_AttemptID record) ∧ claimed s x' (at_AttemptID record).

Definition custodial {A} (m : RUN X A) : Prop := ∀ x a x' t, m x = (a, x', t) → recorded x x' t.

Lemma custodial_ret {A} (a : A) : custodial (mret a).
Proof. intros x b x' t (_ & -> & ->)%ret_inv. split; [done|]. by intros record ?%elem_of_nil. Qed.

Lemma custodial_bind {A B} (m : RUN X A) (k : A → RUN X B) : custodial m → (∀ a, custodial (k a)) → custodial (m ≫= k).
Proof.
  intros Hm Hk x b x' t (a & x1 & t1 & t2 & H1%Hm & H2%Hk & ->)%bind_inv. destruct H1 as [K1 C1], H2 as [K2 C2]. split; [by etrans|].
  intros record [Hin|Hin]%elem_of_app.
  - destruct (C1 _ Hin). split; [done|]. by eapply claimed_keeps.
  - destruct (C2 _ Hin) as [Hn Hc]. split; [|done]. by intros ?%(claimed_keeps _ Hdir _ _ _ K1).
Qed.

Lemma custodial_call {A} (mk : A → crm_event) (f : X → A * X) : (∀ a record, mk a ≠ EvClaim record None) →
  (∀ x a x', f x = (a, x') → keeps there x x') → custodial (call mk f).
Proof. intros Hmk Hf x a x' t [Hc ->]%call_inv. split; [by eapply Hf|]. intros record Hin%list_elem_of_singleton. by destruct (Hmk a record). Qed.

Lemma custodial_silent {A} (f : X → A * X) : (∀ x a x', f x = (a, x') → keeps there x x') → custodial (silent f).
Proof. intros Hf x a x' t [Hc ->]%silent_inv. split; [by eapply Hf|]. by intros record ?%elem_of_nil. Qed.

Lemma custodial_must {A B} (m : RUN X (result A)) wrap (k : A → RUN X (option B * option error)) :
  custodial m → (∀ a, custodial (k a)) → custodial (must m wrap k).
Proof. intros Hm Hk. apply custodial_bind; [done|]. intros [a|err]; [done|apply custodial_ret]. Qed.

Lemma custodial_require {B} (m : RUN X (option error)) wrap (k : RUN X (option B * option error)) :
  custodial m → custodial k → custodial (require m wrap k).
Proof. intros Hm Hk. apply custodial_bind; [done|]. intros [err|]; [apply custodial_ret|done]. Qed.

Context (e : Executor X) (He : steady e).

Lemma custodial_clock : custodial (clock e).
Proof. apply custodial_call; [done|]. apply (steady_clock e He). Qed.

Lemma custodial_append ctx event : custodial (Append e ctx event).
Proof. apply custodial_call; [done|]. apply (steady_journal e He). Qed.

Lemma custodial_transition ctx id from to status detail at_ : custodial (TransitionAttempt e ctx id from to status detail at_).
Proof.
  apply custodial_call; [done|]. intros x a x'. rewrite (steady_store e He). intros [t H]%untraced_inv. revert H. by apply transition_keeps.
Qed.

Lemma custodial_load id : custodial (LoadAttempt e id).
Proof.
  apply custodial_call; [done|]. intros x a x'. rewrite (steady_store e He). intros [t H]%untraced_inv. revert H.
  unfold load. apply respects_check; [apply _| |by apply load_keeps]. apply respects_silent, ctx_Err_keeps.
Qed.

Lemma custodial_claim record : custodial (ClaimAttempt e record).
Proof.
  intros x a x' t [Hc ->]%call_inv. rewrite (steady_store e He) in Hc. apply untraced_inv in Hc as [t Hc].
  apply bind_inv in Hc as (r & x1 & t1 & t2 & Hc & (Ha & -> & _)%ret_inv & _). split; [by apply claim_keeps in Hc|].
  intros r' [= <- E]%list_elem_of_singleton. destruct r as [[]|]; [|congruence]. apply (claim_creates _ Hdir) in Hc as (path & Hp & Hn & Hs).
  split; [|by exists path]. intros (path' & Hp' & Hs'). congruence.
Qed.

Lemma custodial_permit permit : custodial (CheckPermit e permit).
Proof.
  intros x a x' t (u & H & ->)%lift_inv. split.
  - revert H. unfold VerifyPermit. repeat (match goal with |- context [match ?v with _ => _ end] => destruct v end; try by intros (_ & -> & _)%ret_inv).
    intros [Hc _]%call_inv. by eapply steady_verifier.
  - intros record (ev & Hev & _)%list_elem_of_fmap. discriminate.
Qed.

Lemma custodial_do request : custodial (Do request).
Proof. apply custodial_call; [done|]. apply client_Do_keeps. Qed.
End Executor.

Create HintDb custody discriminated.
#[export] Hint Resolve custodial_clock custodial_append custodial_transition custodial_load custodial_claim custodial_permit custodial_do : custody.

Ltac custodial_step :=
  match goal with
  | |- ∀ _, _ => intros ?
  | |- custodial _ (match ?v with _ => _ end) => destruct v
  | |- custodial _ (mret _) => apply custodial_ret
  | |- custodial _ (fails _) => apply custodial_ret
  | |- custodial _ (pure _) => apply custodial_ret
  | |- custodial _ (must _ _ _) => apply custodial_must; [assumption|..]
  | |- custodial _ (require _ _ _) => apply custodial_require; [assumption|..]
  | |- custodial _ (silent ctx_Err) => apply custodial_silent, ctx_Err_keeps
  | |- custodial _ _ => solve [eauto with custody nocore]
  | |- custodial _ (_ ≫= _) => apply custodial_bind; [assumption|..]
  end.
Ltac custodial_tac := repeat custodial_step.

Section Operations.
Context {X : Type} `{!GoWorld X, !FileSystem X, !LinuxSystem X, !HTTPClient X, !AttemptLaws X} (s : FileAttemptStore) (Hdir : fs_dir s ≠ "").
Context (e : Executor X) (He : steady s e) (packet : Packet) (permit : Permit) (plan : CustomerUpdatePlan).

Lemma custodial_transition_now ctx id from to status detail : custodial s (transition_now e ctx id from to status detail).
Proof. unfold transition_now. custodial_tac. Qed.

Lemma custodial_get customerID : custodial s (getCustomer e customerID).
Proof. unfold getCustomer. custodial_tac. Qed.

Lemma custodial_reads reads evaluations snapshots : custodial s (observe_reads e plan reads evaluations snapshots).
Proof.
  revert evaluations snapshots. induction reads as [|reads IH]; intros evaluations snapshots; cbn [observe_reads]; [apply custodial_ret|].
  apply custodial_bind; [done|apply custodial_get|]. intros [snapshot|err]; custodial_tac.
Qed.

Lemma custodial_boundary before : custodial s (checkEffectBoundary e permit plan before).
Proof. unfold checkEffectBoundary. custodial_tac. Qed.

Lemma custodial_patch customerID patch version : custodial s (patchCustomer e customerID patch version).
Proof. unfold patchCustomer. custodial_tac. Qed.

Lemma custodial_dispatch zero check retain effect : custodial s check → custodial s retain → custodial s effect →
  custodial s (Dispatch (T:=Z) zero (silent ctx_Err) (Some check) (Some retain) (Some effect)).
Proof. intros Hc Hr Hf. unfold Dispatch, PrepareEffect. repeat first [assumption|custodial_step]. Qed.

Lemma custodial_execute : custodial s (Execute e packet permit plan).
Proof.
  unfold Execute, authorization_event, execute_claimed, finish_satisfied, dispatch_effect, after_dispatch, observe_outcome, observePostcondition,
    finish_unobserved, finish_observed, outcome_now, appendOutcomeEvent.
  repeat first [custodial_step | apply custodial_transition_now | apply custodial_get | apply custodial_reads
               | apply custodial_dispatch; [apply custodial_boundary|unfold retain_effect|apply custodial_patch]].
Qed.

Lemma custodial_recovery (k : AttemptRecord → attempt_identity → RUN X closure) : (∀ record id, custodial s (k record id)) →
  custodial s (with_recovery_attempt e packet permit plan k).
Proof. intros Hk. unfold with_recovery_attempt. repeat first [apply Hk|custodial_step]. Qed.

Lemma custodial_reconcile : custodial s (ReconcileAttempt e packet permit plan).
Proof.
  apply custodial_recovery. unfold observePostcondition, keep_pending, close_observed, closure_now, appendClosureEvent.
  repeat first [custodial_step | apply custodial_transition_now | apply custodial_reads].
Qed.

Lemma custodial_retire reason : custodial s (RetireAttemptUnknown e packet permit plan reason).
Proof.
  unfold RetireAttemptUnknown. cbv zeta. destruct (str_eqb _ _); [apply custodial_ret|]. apply custodial_recovery. unfold closure_now, appendClosureEvent.
  repeat first [custodial_step | apply custodial_transition_now].
Qed.
End Operations.

(** * Histories *)

Section Histories.
Context {X : Type} `{!GoWorld X, !FileSystem X, !LinuxSystem X, !HTTPClient X, !AttemptLaws X} (s : FileAttemptStore).

(** The operations of executors on a directory. *)
Inductive crm_op : Type :=
  | OpExecute (e : Executor X) (packet : Packet) (permit : Permit) (plan : CustomerUpdatePlan)
  | OpReconcile (e : Executor X) (packet : Packet) (permit : Permit) (plan : CustomerUpdatePlan)
  | OpRetire (e : Executor X) (packet : Packet) (permit : Permit) (plan : CustomerUpdatePlan) (reason : string).

Definition op_executor (o : crm_op) : Executor X :=
  match o with OpExecute e _ _ _ | OpReconcile e _ _ _ | OpRetire e _ _ _ _ => e end.

(** The attempt that an operation is about. *)
Definition op_attempt (o : crm_op) : option string :=
  match o with
  | OpExecute e packet permit plan | OpReconcile e packet permit plan | OpRetire e packet permit plan _ =>
      match screen_execution e packet permit plan with Ok id => Some (ai_AttemptID id) | Error _ => None end
  end.

Definition traced {A} (m : RUN X A) (x : X) : X * list crm_event := let '(_, x', t) := m x in (x', t).

Definition perform (o : crm_op) (x : X) : X * list crm_event :=
  match o with
  | OpExecute e packet permit plan => traced (Execute e packet permit plan) x
  | OpReconcile e packet permit plan => traced (ReconcileAttempt e packet permit plan) x
  | OpRetire e packet permit plan reason => traced (RetireAttemptUnknown e packet permit plan reason) x
  end.

(** [history x l x']: from [x] to [x'], with the operations [l] and their calls. *)
Inductive history : X → list (crm_op * list crm_event) → X → Prop :=
  | history_nil x : history x [] x
  | history_others x x1 l x' : keeps there x x1 → history x1 l x' → history x l x'
  | history_run x o t x1 l x' : steady s (op_executor o) → perform o x = (x1, t) → history x1 l x' → history x ((o, t) :: l) x'.

(** What was sent for an attempt. *)
Definition sent (id : string) (l : list (crm_op * list crm_event)) : list crm_event :=
  l ≫= λ p, if decide (op_attempt p.1 = Some id) then patches p.2 else [].

Context (Hdir : fs_dir s ≠ "").

Lemma traced_inv {A} (m : RUN X A) x x' t : traced m x = (x', t) → ∃ a, m x = (a, x', t).
Proof. unfold traced. destruct (m x) as [[a y] u]. intros [= <- <-]. by eexists. Qed.

Lemma perform_keeps o x x' t : steady s (op_executor o) → perform o x = (x', t) → keeps there x x'.
Proof.
  intros Hs. destruct o as [e packet permit plan|e packet permit plan|e packet permit plan reason]; intros [a H]%traced_inv; revert H; cbn in Hs.
  - intros H%(custodial_execute s Hdir); [apply H|done].
  - intros H%(custodial_reconcile s Hdir); [apply H|done].
  - intros H%(custodial_retire s Hdir); [apply H|done].
Qed.

(** An operation sends at most one request, for an attempt it claimed. *)
Lemma perform_sends o x x' t : steady s (op_executor o) → perform o x = (x', t) → patches t = [] ∨
  (length (patches t) = 1)%nat ∧ ∃ id, op_attempt o = Some id ∧ ¬ claimed s x id ∧ claimed s x' id.
Proof.
  intros Hs. destruct o as [e packet permit plan|e packet permit plan|e packet permit plan reason]; intros [a H]%traced_inv; cbn in Hs.
  2-3: left; first [by apply patchless_reconcile in H|by apply patchless_retire in H].
  pose proof (custodial_execute s Hdir e Hs packet permit plan _ _ _ _ H) as [_ Hr].
  apply Execute_patches in H as [?|(id & [?|(pre & request & r & post & -> & Hpre & Hpost & Hm & _ & (?&?&?&?&?&?&?&?& Hid &_) &_)] & now & Hc)]; [by left..|].
  right. split.
  - unfold patches in *. by rewrite filter_app, filter_cons_True, Hpre, Hpost.
  - exists (ai_AttemptID id). cbn [op_attempt]. rewrite Hid. split; [done|]. by apply (Hr _ Hc).
Qed.

Lemma sent_once id x l x' : history x l x' → (claimed s x id → sent id l = []) ∧ (length (sent id l) ≤ 1)%nat.
Proof.
  induction 1 as [x|x x1 l x' Hk _ [IH1 IH2]|x o t x1 l x' Hs Hrun _ [IH1 IH2]]; [split; [done|cbn; lia]| |].
  - split; [|done]. intros Hc. by eapply IH1, claimed_keeps.
  - pose proof (perform_keeps _ _ _ _ Hs Hrun) as Hk. unfold sent in *. cbn [mbind list_bind fst snd]. case_decide as Ho.
    + apply perform_sends in Hrun as [->|(Hlen & id' & Hid & Hn & Hc)]; [|rewrite Ho in Hid; injection Hid as <-|done].
      * split; [intros Hc; apply IH1; by eapply claimed_keeps|done].
      * rewrite (IH1 Hc), app_nil_r. split; [done|lia].
    + split; [intros Hc; apply IH1; by eapply claimed_keeps|done].
Qed.
End Histories.

(** C3: Whatever is executed, reconciled and retired over a directory of attempts,
    by however many executors, and whatever others do to it between and during
    those operations that keeps its records: at most one PATCH is sent for an
    attempt -- a permit and its plan -- and none where it was claimed before. *)
Theorem attempt_mutates_once {X} `{!GoWorld X, !FileSystem X, !LinuxSystem X, !HTTPClient X, !AttemptLaws X} s id x l x' :
  fs_dir s ≠ "" → history s x l x' → (length (sent id l) ≤ 1)%nat ∧ (claimed s x id → sent id l = []).
Proof. intros Hd H. destruct (sent_once s Hd id _ _ _ H). done. Qed.

(** C4: A request for a mutation is sent only for a verified permit, bound to the
    packet, whose attempt this run claimed and whose authorization is in the
    journal; after the customer was read, from the permit's destination and account
    at the permit's version and without the change already in place; after the
    intent is in the journal and the attempt is recorded as possible; with the
    authority in force after that.  It is the plan's change, on the condition of the
    permit's version, and the only one of the run. *)
Theorem mutation_under_custody {X} `{!GoWorld X, !HTTPClient X} (e : Executor X) packet permit plan x r x' t :
  Execute e packet permit plan x = (r, x', t) → patches t ≠ [] →
  ∃ id pre request answer post, t = pre ++ EvHTTP request answer :: post ∧ patches pre = [] ∧ patches post = [] ∧
    plan_request e plan id request ∧ claimed_trail e packet permit plan id pre ∧ ∃ before, dispatch_trail e permit plan id pre before.
Proof.
  intros [?|(id & [?|(pre & request & answer & post & ? & ? & ? & _ & ? & ? & ?)] & _)]%Execute_patches Hp; [done..|].
  exists id, pre, request, answer, post. done.
Qed.
