(* ===== verification/CrmEvidence.v ===== *)
(** * What the evidence of a change request says

    An evaluation is [VERIFIED] exactly when the customer has what the plan asks for
    ([evaluation_verified]); an outcome that is returned verifies; an execution that
    succeeds, and a recovery that closes an attempt, rest on what was read. *)

From S2P Require Import Prelude Crypto Format GoTime Json Base64 Unmarshal Permit GovernedAction JournalEntry FileSystem AnyValue EvidencePipeline CrmOutcome CrmAttempt CrmExecutor CrmLaws.
Local Open Scope Z_scope.

(** * Evaluations *)

(** The customer has every field of the patch, with the value's text. *)
Definition satisfied (patch state : gmap string any) : Prop :=
  ∀ key v, patch !! key = Some v → ∃ v' text, state !! key = Some v' ∧ marshal_any v = Ok text ∧ marshal_any v' = Ok text.

(** One field of an evaluation. *)
Definition field_holds (patch state : gmap string any) (key : string) : Prop :=
  ∃ v' text, state !! key = Some v' ∧ marshal_any (default ANil (patch !! key)) = Ok text ∧ marshal_any v' = Ok text.

Lemma wrapped_Ok {A} what (r : result A) a : wrapped what r = Ok a ↔ r = Ok a.
Proof. by destruct r. Qed.

Lemma bind_Ok {A B} (r : result A) (k : A → result B) b : r ≫= k = Ok b → ∃ a, r = Ok a ∧ k a = Ok b.
Proof. destruct r as [a|]; [|done]. intros H. by exists a. Qed.

Lemma evaluate_field_satisfied patch state key f : evaluate_field patch state key = Ok f →
  (fp_Satisfied f = true ↔ field_holds patch state key) ∧ fp_Path f = "/" +:+ escapeJSONPointerToken key ∧
  value_digest (default ANil (patch !! key)) = Ok (fp_ExpectedDigest f) ∧
  (fp_Satisfied f = true → fp_Present f = true ∧ fp_ObservedDigest f = fp_ExpectedDigest f).
Proof.
  unfold evaluate_field, field_holds. intros (expected & He%wrapped_Ok & (digest & Hd & H)%bind_Ok)%bind_Ok.
  destruct (state !! key) as [observed|].
  2:{ injection H as <-. cbn. split_and!; [|done..]. split; [done|]. by intros (? & ? & ? & _). }
  apply bind_Ok in H as (bytes & Hb%wrapped_Ok & (observedDigest & Ho & H)%bind_Ok). injection H as <-. cbn. split_and!; [|done..|].
  - rewrite str_eqb_eq. split; [intros ->; by exists observed, bytes|]. intros (v' & text & [= <-] & H1 & H2). congruence.
  - intros ->%str_eqb_eq. split; [done|]. unfold value_digest in *. cbn -[sha256_digest] in Hd, Ho. rewrite He in Hd. rewrite Hb in Ho. congruence.
Qed.

Lemma evaluate_fields_satisfied patch state keys fs : evaluate_fields patch state keys = Ok fs →
  Forall2 (λ key f, evaluate_field patch state key = Ok f) keys fs.
Proof.
  revert fs. induction keys as [|key keys IH]; intros fs; cbn [evaluate_fields]; [intros [= <-]; constructor|].
  intros (f & Hf & (fs' & Hfs & [= <-])%bind_Ok)%bind_Ok. constructor; [done|by apply IH].
Qed.

Lemma countb_all {A} (p : A → bool) l : countb p l = length l ↔ Forall (λ x, p x = true) l.
Proof.
  induction l as [|x l IH]; [split; [constructor|done]|]. cbn [countb length]. rewrite Forall_cons, <- IH.
  pose proof (countb_le_length p l). destruct (p x); [split; [intros; split; [done|lia]|intros []; lia]|]. split; [lia|by intros []].
Qed.

Lemma patch_keys_elem patch key : key ∈ patch_keys patch ↔ is_Some (patch !! key).
Proof.
  unfold patch_keys. rewrite elem_of_sort_strings, list_elem_of_fmap. split.
  - intros ([k v] & -> & H%elem_of_map_to_list). by eexists.
  - intros [v H]. exists (key, v). split; [done|by apply elem_of_map_to_list].
Qed.

(** An evaluation is of the fields of the patch, in order. *)
Lemma evaluate_inv plan state ev : EvaluateCustomerUpdatePostcondition plan state = Ok ev → ∃ m fs, state = Some m ∧ size (cp_Patch plan) ≠ 0%nat ∧
  Forall2 (λ key f, evaluate_field (cp_Patch plan) m key = Ok f) (patch_keys (cp_Patch plan)) fs ∧
  ev = {| pe_ProfileVersion := PostconditionProfileVersion; pe_Result := postcondition_result (matched fs) (Z.of_nat (length fs));
          pe_MatchedFields := matched fs; pe_TotalFields := Z.of_nat (length fs); pe_Fields := fs |}.
Proof.
  unfold EvaluateCustomerUpdatePostcondition. destruct (blank _); [done|]. case_bool_decide as Hs; [done|]. destruct state as [m|]; [|done].
  intros (fs & Hf%evaluate_fields_satisfied & [= <-])%bind_Ok. exists m, fs. apply Forall2_length in Hf as Hl. by rewrite Hl.
Qed.

(** [VERIFIED] exactly when the customer has what the plan asks for. *)
Lemma evaluation_verified plan m ev : EvaluateCustomerUpdatePostcondition plan (Some m) = Ok ev →
  pe_Result ev = PostconditionVerified ↔ satisfied (cp_Patch plan) m.
Proof.
  intros (m' & fs & [= <-] & _ & Hf & ->)%evaluate_inv. cbn [pe_Result].
  assert (postcondition_result (matched fs) (Z.of_nat (length fs)) = PostconditionVerified ↔ Forall (λ f, fp_Satisfied f = true) fs) as ->.
  { rewrite <- countb_all. unfold postcondition_result, matched. destruct (Z.eqb_spec (Z.of_nat (countb fp_Satisfied fs)) (Z.of_nat (length fs))); [split; [lia|done]|].
    split; [|lia]. by destruct (_ =? 0). }
  assert (Forall (λ f, fp_Satisfied f = true) fs ↔ Forall (field_holds (cp_Patch plan) m) (patch_keys (cp_Patch plan))) as ->.
  { induction Hf as [|key f keys fs Hk _ IH]; [split; constructor|]. rewrite !Forall_cons, IH. apply evaluate_field_satisfied in Hk as [-> _]. done. }
  rewrite Forall_forall. unfold satisfied, field_holds. split.
  - intros H key v Hv. destruct (H key) as (v' & text & H1 & H2 & H3); [apply patch_keys_elem; by eexists|]. rewrite Hv in H2. by exists v', text.
  - intros H key [v Hv]%patch_keys_elem. destruct (H key v Hv) as (v' & text & H1 & H2 & H3). exists v', text. by rewrite Hv.
Qed.

(** Evaluations that agree have one result. *)
Lemma equivalent_result plan m1 m2 e1 e2 : EvaluateCustomerUpdatePostcondition plan m1 = Ok e1 → EvaluateCustomerUpdatePostcondition plan m2 = Ok e2 →
  EquivalentPostconditionObservation e1 e2 = true → e1 = e2.
Proof.
  intros (? & f1 & _ & _ & _ & ->)%evaluate_inv (? & f2 & _ & _ & _ & ->)%evaluate_inv. unfold EquivalentPostconditionObservation. cbn.
  rewrite !andb_true_iff, bool_decide_eq_true. by intros [_ ->].
Qed.

(** ** Validity *)

(** The fields follow one another in the order of their paths. *)
Definition paths_sorted (paths : list string) : Prop := StronglySorted (λ p q, ¬ String.le q p) paths.

Lemma digest_text_nonempty t : sha256_digest t ≠ "".
Proof. apply str_eqb_neq, digest_nonempty. Qed.

Lemma value_digest_nonempty v d : value_digest v = Ok d → d ≠ "".
Proof. unfold value_digest, DigestPayload, digestJSON. rewrite wrapped_Ok. intros (t & _ & [= <-])%bind_Ok. apply digest_text_nonempty. Qed.

Lemma validate_fields_sorted patch state keys fs previous n : Forall2 (λ key f, evaluate_field patch state key = Ok f) keys fs →
  StronglySorted (λ p q, ¬ String.le q p) (previous :: (fp_Path <$> fs)) ∨ previous = "" ∧ paths_sorted (fp_Path <$> fs) →
  validate_fields fs previous n = Ok (n + matched fs).
Proof.
  intros Hf. revert previous n. induction Hf as [|key f keys fs Hk Hf IH]; intros previous n Hs; cbn [validate_fields]; [by rewrite Z.add_0_r|].
  apply evaluate_field_satisfied in Hk as (_ & Hpath & Hd%value_digest_nonempty & Hsat).
  rewrite (proj2 (str_eqb_neq (fp_Path f) _)), (proj2 (str_eqb_neq (fp_ExpectedDigest f) _)) by (first [done|by rewrite Hpath]). cbn [orb].
  assert (negb (str_eqb previous "") && bool_decide (String.le (fp_Path f) previous) = false) as ->.
  { destruct Hs as [Hs|[-> _]]; [|by rewrite str_eqb_refl]. apply andb_false_iff. right. apply bool_decide_eq_false.
    apply StronglySorted_inv in Hs as [_ Hs]. by apply Forall_cons in Hs as [? _]. }
  assert (∀ k, validate_fields fs (fp_Path f) k = Ok (k + matched fs)) as Hrest.
  { intros k. apply IH. left. destruct Hs as [Hs|[_ Hs]]; [by apply StronglySorted_inv in Hs as [? _]|exact Hs]. }
  unfold matched in *. cbn [countb]. destruct (fp_Satisfied f) eqn:E; [|apply Hrest].
  destruct (Hsat eq_refl) as [-> ->]. rewrite (proj2 (str_eqb_neq _ _) Hd), str_eqb_refl. cbn [negb orb]. rewrite Hrest. f_equal. lia.
Qed.

Lemma validate_fields_unsorted fs previous n k : validate_fields fs previous n = Ok k → previous ≠ "" →
  Sorted (λ p q, ¬ String.le q p) (previous :: (fp_Path <$> fs)).
Proof.
  revert previous n. induction fs as [|f fs IH]; intros previous n; cbn [validate_fields]; [constructor; constructor|].
  destruct (str_eqb (fp_Path f) "") eqn:E; [done|]. cbn [orb]. destruct (str_eqb (fp_ExpectedDigest f) ""); [done|]. intros H Hp.
  rewrite (proj2 (str_eqb_neq _ _) Hp) in H. cbn [negb andb] in H. case_bool_decide as Hle; [done|]. apply str_eqb_neq in E.
  constructor; [|by constructor]. destruct (fp_Satisfied f); [destruct (_ || _); [done|]|]; by eapply IH.
Qed.

Lemma not_le_trans p q r : ¬ String.le q p → ¬ String.le r q → ¬ String.le r p.
Proof. intros H1 H2 H3. apply H1. destruct (total String.le q r) as [Hqr|]; [|done]. by etrans. Qed.

(** Where the paths of a patch are sorted as its keys are, every evaluation is
    valid; elsewhere none is. *)
Definition plan_paths (plan : CustomerUpdatePlan) : list string := (λ key, "/" +:+ escapeJSONPointerToken key) <$> patch_keys (cp_Patch plan).

Lemma evaluation_valid plan m ev : EvaluateCustomerUpdatePostcondition plan m = Ok ev →
  ValidatePostconditionEvaluation ev = None ↔ paths_sorted (plan_paths plan).
Proof.
  intros (m' & fs & _ & Hsize & Hf & ->)%evaluate_inv. unfold plan_paths, paths_sorted.
  assert (fp_Path <$> fs = (λ key, "/" +:+ escapeJSONPointerToken key) <$> patch_keys (cp_Patch plan)) as <-.
  { clear Hsize. induction Hf as [|key f keys fs Hk _ IH]; [done|]. rewrite !fmap_cons, IH. by apply evaluate_field_satisfied in Hk as (_ & -> & _). }
  assert (length fs ≠ 0%nat) as Hlen.
  { rewrite <- (Forall2_length _ _ _ Hf). unfold patch_keys. rewrite sort_strings_perm, length_fmap, length_map_to_list. done. }
  unfold ValidatePostconditionEvaluation. cbn [pe_ProfileVersion pe_TotalFields pe_Fields pe_MatchedFields pe_Result]. rewrite str_eqb_refl. cbn [negb].
  destruct (Z.leb_spec (Z.of_nat (length fs)) 0); [lia|]. rewrite Z.eqb_refl. cbn [negb orb]. split.
  - destruct fs as [|f fs]; [done|]. cbn [validate_fields]. destruct (str_eqb (fp_Path f) "") eqn:E; [done|]. cbn [orb].
    destruct (str_eqb (fp_ExpectedDigest f) ""); [done|]. rewrite str_eqb_refl. cbn [negb andb]. intros Hv. apply str_eqb_neq in E.
    apply Sorted_StronglySorted; [intros p q r; apply not_le_trans|].
    destruct (fp_Satisfied f); [destruct (_ || _); [done|]|];
      destruct (validate_fields _ _ _) as [k|] eqn:Hv'; try done; by eapply validate_fields_unsorted.
  - intros Hs. rewrite (validate_fields_sorted _ _ _ _ _ _ Hf) by (by right). rewrite Z.add_0_l, Z.eqb_refl. cbn [negb].
    assert (matched fs ≤ Z.of_nat (length fs)) by (unfold matched; pose proof (countb_le_length fp_Satisfied fs); lia).
    assert (0 ≤ matched fs) by (unfold matched; lia). unfold postcondition_result.
    destruct (Z.eqb_spec (matched fs) (Z.of_nat (length fs))) as [_|]; [by rewrite str_eqb_refl|].
    destruct (Z.eqb_spec (matched fs) 0) as [E|]; [done|]. rewrite (proj2 (str_eqb_neq _ _)), str_eqb_refl by done.
    destruct (Z.leb_spec (matched fs) 0); [lia|]. by destruct (Z.leb_spec (Z.of_nat (length fs)) (matched fs)); [lia|].
Qed.

(** * Outcomes *)

Lemma newOutcome_verifies intent target packet permit planDigest before after result acceptance observation count evaluation status now o :
  newOutcomeEvidence intent target packet permit planDigest before after result acceptance observation count evaluation status now = Ok o →
  VerifyOutcome o = None ∧ oe_Result o = result ∧ oe_RequestAcceptance o = acceptance ∧ oe_AfterDigest o = after ∧ oe_Postcondition o = evaluation.
Proof.
  unfold newOutcomeEvidence. destruct (validateOutcomeSemantics _) eqn:Hv; [done|]. intros (digest & Hd & [= <-])%bind_Ok.
  split; [|done]. unfold VerifyOutcome. rewrite !orelse_None. split_and!.
  - done.
  - exact Hv.
  - apply guard_err_None, str_eqb_neq. unfold digestOutcome, DigestPayload, digestJSON in Hd. apply wrapped_Ok, bind_Ok in Hd as (t & _ & [= <-]).
    apply digest_text_nonempty.
  - change (digestOutcome (with_OutcomeDigest digest _)) with (digestOutcome (with_OutcomeDigest "" (with_OutcomeDigest digest
      {| oe_APIVersion := OutcomeVersion; oe_PostconditionProfile := PostconditionProfileVersion; oe_IntentID := intent;
         oe_Target := target_path target; oe_EvidencePacketDigest := packet; oe_PermitDigest := permit; oe_PlanDigest := planDigest;
         oe_BeforeDigest := before; oe_AfterDigest := after; oe_Result := result; oe_RequestAcceptance := acceptance;
         oe_ObservationStatus := observation; oe_ObservationCount := count; oe_Postcondition := evaluation; oe_HTTPStatus := status;
         oe_ObservedAt := utc now; oe_IntegrityDigest := "" |}))).
    match goal with |- match digestOutcome ?a with _ => _ end = _ => match type of Hd with digestOutcome ?b = _ => change (digestOutcome a) with (digestOutcome b) end end.
    rewrite Hd. apply guard_err_None. cbn [oe_IntegrityDigest with_OutcomeDigest]. by rewrite str_eqb_refl.
Qed.

Section Observation.
Context {X : Type} `{!GoWorld X, !HTTPClient X} (e : Executor X) (plan : CustomerUpdatePlan).

(** A read of the customer, by this destination. *)
Definition read_of (response : http_response) (snapshot : customerSnapshot) : Prop :=
  snapshot_of response = Ok snapshot ∧ validateDestinationIdentity e snapshot = None ∧
  validateObservedCustomerTarget (cs_State snapshot) (cp_CustomerID plan) = None.

Definition get_event (response : http_response) : crm_event := EvHTTP (get_request e (cp_CustomerID plan)) (Ok response).

Lemma observe_step reads evs sns x o x' t : observe_reads e plan (S reads) evs sns x = (o, x', t) → po_Err o = None →
  ∃ response snapshot ev x1 t1, t = get_event response :: t1 ∧ read_of response snapshot ∧
    EvaluateCustomerUpdatePostcondition plan (cs_State snapshot) = Ok ev ∧ observe_reads e plan reads (evs ++ [ev]) (sns ++ [snapshot]) x1 = (o, x', t1).
Proof.
  cbn [observe_reads]. intros ([snapshot|err] & x1 & t1 & t2 & Hg & H & ->)%bind_inv Ho.
  2:{ apply ret_inv in H as (-> & _ & _). revert Ho. unfold retainObservedPostcondition. by repeat case_match. }
  apply get_inv in Hg as (response & -> & Hs). destruct (validateDestinationIdentity e snapshot) eqn:Hd.
  { apply ret_inv in H as (-> & _ & _). revert Ho. unfold retainObservedPostcondition. by repeat case_match. }
  destruct (validateObservedCustomerTarget _ _) eqn:Ht.
  { apply ret_inv in H as (-> & _ & _). revert Ho. unfold retainObservedPostcondition. by repeat case_match. }
  destruct (EvaluateCustomerUpdatePostcondition _ _) as [ev|] eqn:He; [|by apply ret_inv in H as (-> & _ & _)].
  by exists response, snapshot, ev, x1, t2.
Qed.

(** Three reads, of which the last two agree. *)
Definition stable_reads (t : list crm_event) (ev : PostconditionEvaluation) (afterDigest : string) : Prop :=
  ∃ r1 r2 r3 s1 s2 s3, t = [get_event r1; get_event r2; get_event r3] ∧ read_of r1 s1 ∧ read_of r2 s2 ∧ read_of r3 s3 ∧
    EvaluateCustomerUpdatePostcondition plan (cs_State s2) = Ok ev ∧ EvaluateCustomerUpdatePostcondition plan (cs_State s3) = Ok ev ∧
    DigestPayload (data_text (cs_State s3)) = Ok afterDigest.

Lemma observe_stable x o x' t : observePostcondition e plan x = (o, x', t) → po_Err o = None →
  ∃ ev, po_Evaluation o = Some ev ∧ po_Status o = ObservationStable ∧ stable_reads t ev (po_AfterDigest o).
Proof.
  unfold observePostcondition, observationReads. intros H Ho.
  apply observe_step in H as (r1 & s1 & e1 & x1 & t1 & -> & H1 & _ & H); [|done].
  apply observe_step in H as (r2 & s2 & e2 & x2 & t2 & -> & H2 & E2 & H); [|done].
  apply observe_step in H as (r3 & s3 & e3 & x3 & t3 & -> & H3 & E3 & H); [|done].
  apply ret_inv in H as (-> & _ & ->). revert Ho. unfold settle. cbn [reverse rev_append app]. cbn -[data_text EquivalentPostconditionObservation].
  destruct (DigestPayload _) as [digest|] eqn:Hd; [|done]. destruct (EquivalentPostconditionObservation e2 e3) eqn:He; [|done]. intros _.
  pose proof (equivalent_result _ _ _ _ _ E2 E3 He) as ->. cbn. exists e3. split_and!; [done..|]. exists r1, r2, r3, s1, s2, s3. split_and!; done.
Qed.
End Observation.

(** * Success *)

Section Success.
Context {X : Type} `{!GoWorld X, !HTTPClient X} (e : Executor X) (packet : Packet) (permit : Permit) (plan : CustomerUpdatePlan).

(** The outcome is in the journal, and then the attempt is completed. *)
Definition concluded (o : OutcomeEvidence) (t : list crm_event) : Prop :=
  ∃ event entry id from record, ev_PayloadDigest event = oe_IntegrityDigest o ∧ ev_OutcomeVerdict event = oe_Result o ∧
    [EvAppend event (Ok entry); EvTransition id from AttemptCompleted (Ok record)] `sublist_of` t.

Lemma append_outcome_inv ctx id state o x x' t : appendOutcomeEvent e packet permit plan ctx id state o x = (None, x', t) →
  ∃ event entry, t = [EvAppend event (Ok entry)] ∧ ev_PayloadDigest event = oe_IntegrityDigest o ∧ ev_OutcomeVerdict event = oe_Result o.
Proof.
  intros ([entry|err] & x1 & t1 & t2 & [_ ->]%call_inv & (Hr & _ & ->)%ret_inv & ->)%bind_inv; [|done]. by eexists _, entry.
Qed.

Lemma outcome_now_inv id before after result acceptance observation count evaluation status x o x' t :
  outcome_now e packet permit id before after result acceptance observation count evaluation status x = (Ok o, x', t) →
  ∃ now, t = [EvClock now] ∧ VerifyOutcome o = None ∧ oe_Result o = result ∧ oe_AfterDigest o = after.
Proof.
  intros (now & x1 & t1 & t2 & [_ ->]%call_inv & (Hr & _ & ->)%ret_inv & ->)%bind_inv. symmetry in Hr.
  apply newOutcome_verifies in Hr as (Hv & Hres & _ & Ha & _). by exists now.
Qed.

Lemma concluded_step id ctx ctx' state o from status detail x1 x2 x3 t1 t2 record :
  appendOutcomeEvent e packet permit plan ctx id state o x1 = (None, x2, t1) →
  transition_now e ctx' id from AttemptCompleted status detail x2 = (Ok record, x3, t2) → concluded o (t1 ++ t2).
Proof.
  intros (event & entry & -> & Hd & Hv)%append_outcome_inv (now & ->)%transition_inv.
  exists event, entry, (ai_AttemptID id), from, record. split_and!; [done..|]. cbn [app]. repeat constructor.
Qed.

Lemma concluded_app o t1 t2 : concluded o t2 → concluded o (t1 ++ t2).
Proof.
  intros (event & entry & id & from & record & Hd & Hv & Hs). exists event, entry, id, from, record. split_and!; [done..|]. by apply sublist_inserts_l.
Qed.

Lemma satisfied_success id beforeDigest precondition x o x' t :
  finish_satisfied e packet permit plan id beforeDigest precondition x = ((Some o, None), x', t) →
  VerifyOutcome o = None ∧ oe_Result o = PostconditionAlreadySatisfied ∧ oe_AfterDigest o = beforeDigest ∧ concluded o t.
Proof.
  intros [(? & _ & [=])|(o' & x1 & t1 & t2 & (now & -> & Hv & Hr & Ha)%outcome_now_inv & H & ->)]%must_inv.
  apply bind_inv in H as ([err|] & x2 & t3 & t4 & H1 & H & ->); [by apply ret_inv in H as ([=] & _)|].
  apply bind_inv in H as ([record|err] & x3 & t5 & t6 & H2 & (Hres & -> & ->)%ret_inv & ->); [|done]. injection Hres as <-.
  split_and!; [done..|]. apply concluded_app. rewrite app_nil_r. by eapply concluded_step.
Qed.

Lemma observed_success id beforeDigest acceptance state status err observation evaluation x o x' t :
  finish_observed e packet permit plan id beforeDigest acceptance state status err observation evaluation x = ((Some o, None), x', t) →
  VerifyOutcome o = None ∧ oe_Result o = PostconditionVerified ∧ pe_Result evaluation = PostconditionVerified ∧
  oe_AfterDigest o = po_AfterDigest observation ∧ concluded o t.
Proof.
  intros [(? & _ & [=])|(o' & x1 & t1 & t2 & (now & -> & Hv & Hr & Ha)%outcome_now_inv & H & ->)]%must_inv.
  destruct (_ && _).
  { apply bind_inv in H as ([err'|] & x2 & t3 & t4 & _ & H & _); by apply ret_inv in H as ([=] & _). }
  apply bind_inv in H as ([err'|] & x2 & t3 & t4 & H1 & H & ->); [by apply ret_inv in H as ([=] & _)|].
  apply bind_inv in H as ([record|err'] & x3 & t5 & t6 & H2 & (Hres & -> & ->)%ret_inv & ->); [|done]. injection Hres as <- Hg. symmetry in Hg.
  apply guard_err_None, negb_false_iff, str_eqb_eq in Hg. rewrite Hr. split_and!; [done..|]. apply concluded_app. rewrite app_nil_r. by eapply concluded_step.
Qed.

(** The customer was read with what the plan asks for, and its digest. *)
Definition read_satisfied (response : http_response) (m : gmap string any) : Prop :=
  (∃ snapshot, read_of e plan response snapshot ∧ cs_State snapshot = Some m) ∧ satisfied (cp_Patch plan) m.

(** Success rests on the customer as it was read: before, or in the last two reads. *)
Definition success_observed (o : OutcomeEvidence) (t : list crm_event) : Prop :=
  ∃ response m, get_event e plan response ∈ t ∧ read_satisfied response m ∧ DigestPayload (data_text (Some m)) = Ok (oe_AfterDigest o) ∧
    (oe_Result o = PostconditionAlreadySatisfied ∧ patches t = [] ∨
     oe_Result o = PostconditionVerified ∧ ∃ earlier m', read_satisfied earlier m' ∧
       [get_event e plan earlier; get_event e plan response] `sublist_of` t).

Lemma success_observed_app o t1 t2 : patches t1 = [] → success_observed o t2 → success_observed o (t1 ++ t2).
Proof.
  intros H1 (response & m & Hin & Hr & Hd & H). exists response, m. split_and!; [set_solver|done|done|]. rewrite patches_app, H1.
  destruct H as [H|[Hv (earlier & m' & He & Hs)]]; [by left|right]. split; [done|]. exists earlier, m'. split; [done|]. by apply sublist_inserts_l.
Qed.

Lemma stable_satisfied ev digest t : stable_reads e plan t ev digest → pe_Result ev = PostconditionVerified →
  ∃ earlier m' response m, read_satisfied earlier m' ∧ read_satisfied response m ∧ DigestPayload (data_text (Some m)) = Ok digest ∧
    [get_event e plan earlier; get_event e plan response] `sublist_of` t.
Proof.
  intros (r1 & r2 & r3 & s1 & s2 & s3 & -> & _ & H2 & H3 & E2 & E3 & Hd) Hr.
  assert (∀ s, EvaluateCustomerUpdatePostcondition plan (cs_State s) = Ok ev → ∃ m, cs_State s = Some m ∧ satisfied (cp_Patch plan) m) as Hsat.
  { intros s He. pose proof (evaluate_inv _ _ _ He) as (m & _ & Hm & _). rewrite Hm in He. exists m. split; [done|]. by apply (evaluation_verified _ _ _ He). }
  destruct (Hsat _ E2) as (m2 & Hm2 & Hs2), (Hsat _ E3) as (m3 & Hm3 & Hs3). rewrite Hm3 in Hd.
  exists r2, m2, r3, m3. split_and!; [split; [by exists s2|done]|split; [by exists s3|done]|done|repeat constructor].
Qed.

Lemma execute_prefix x r x' t : Execute e packet permit plan x = (r, x', t) → r.1 = None ∨
  ∃ id x1 t1 t2, execute_claimed e packet permit plan id x1 = (r, x', t2) ∧ t = t1 ++ t2 ∧ patches t1 = [].
Proof.
  unfold Execute. intros [(? & _ & ->)|(x1 & t1 & t2 & (_ & -> & ->)%ret_inv & H & ->)]%require_inv; [by left|].
  apply require_inv in H as [(? & _ & ->)|(x2 & t3 & t4 & (keyID & payload & signature & ->)%check_permit_inv & H & ->)]; [by left|].
  apply require_inv in H as [(? & _ & ->)|(x3 & t5 & t6 & (_ & -> & ->)%ret_inv & H & ->)]; [by left|].
  apply bind_inv in H as (now & x4 & t7 & t8 & [_ ->]%call_inv & H & ->). case_bool_decide; [apply ret_inv in H as (-> & _ & _); by left|].
  apply must_inv in H as [(? & _ & ->)|(id & x5 & t9 & t10 & (_ & -> & ->)%ret_inv & H & ->)]; [by left|].
  apply require_inv in H as [(? & _ & ->)|(x6 & t11 & t12 & [_ ->]%call_inv & H & ->)]; [by left|].
  apply must_inv in H as [(? & _ & ->)|(event & x7 & t13 & t14 & Hev%patchless_authorization & H & ->)]; [by left|].
  apply must_inv in H as [(? & _ & ->)|(entry & x8 & t15 & t16 & [_ ->]%call_inv & H & ->)]; [by left|].
  right. exists id, x8. eexists _, t16. split; [done|]. rewrite !(assoc_L app). split; [done|].
  unfold patches in *. cbn [app]. rewrite !filter_cons_False by (by intros ?). by rewrite filter_app, Hev.
Qed.

Lemma dispatched_success id before beforeDigest x o x' t : dispatch_effect e packet permit plan id before beforeDigest x = ((Some o, None), x', t) →
  VerifyOutcome o = None ∧ concluded o t ∧ ∃ t1 t2 t3 ev, t = t1 ++ t2 ++ t3 ∧ oe_Result o = PostconditionVerified ∧
    pe_Result ev = PostconditionVerified ∧ stable_reads e plan t2 ev (oe_AfterDigest o).
Proof.
  intros (now & x1 & t1 & t2 & [_ ->]%call_inv & (d & x2 & t3 & t4 & _ & H & ->)%bind_inv & ->)%bind_inv.
  destruct (negb _); [by apply ret_inv in H as ([=] & _)|].
  assert (∃ acceptance state status err y t5 t6, observe_outcome e packet permit plan id beforeDigest acceptance state status err y = ((Some o, None), x', t6) ∧
    t4 = t5 ++ t6) as (acceptance & state & status & err & y & t5 & t6 & Ho & ->).
  { unfold after_dispatch in H. destruct d.2 as [err|].
    - destruct (_ =? 412); [|exists RequestAcceptanceUnknown, AttemptPossibleEffect, (dr_Value d.1), (Some err), x2, [], t4; done].
      apply bind_inv in H as ([record|err'] & y & t5 & t6 & _ & H & _); by apply ret_inv in H as ([=] & _).
    - apply must_inv in H as [(? & _ & [=])|(record & y & t5 & t6 & _ & H & ->)]. do 7 eexists. done. }
  apply bind_inv in Ho as (observation & x3 & t7 & t8 & Hobs & Ho & ->). destruct (po_Err observation) eqn:Herr.
  { apply must_inv in Ho as [(? & _ & [=])|(? & ? & ? & ? & _ & Ho & _)]. apply bind_inv in Ho as (? & ? & ? & ? & _ & Ho & _). by apply ret_inv in Ho as ([=] & _). }
  apply observe_stable in Hobs as (ev & Hev & _ & Hst); [|done]. rewrite Hev in Ho. apply observed_success in Ho as (Hv & Hr & Hr' & Ha & Hc).
  rewrite Ha. split_and!; [done| |].
  - by do 4 apply concluded_app.
  - eexists ([_] ++ t3 ++ t5), t7, t8, ev. split_and!; try done. by rewrite <- !app_assoc.
Qed.
End Success.


(** * Recovery *)

Lemma trim_left_head a l : space1 a = false → (N_of_ascii a < 128)%N → trim_left (a :: l) = a :: l.
Proof.
  intros Ha Hlow. unfold trim_left. cbn [trim_left_with]. rewrite Ha. destruct l as [|b [|c l]]; [done|..].
  all: assert (space2 a b = false) as -> by (unfold space2, byte_of; destruct (N.eqb_spec (N_of_ascii a) 0xC2); [lia|done]); try done.
  unfold space3, byte_of. destruct (N.eqb_spec (N_of_ascii a) 0xE1), (N.eqb_spec (N_of_ascii a) 0xE2), (N.eqb_spec (N_of_ascii a) 0xE3); try lia. done.
Qed.

(** A digest is not blank. *)
Lemma digest_not_blank t : blank (sha256_digest t) = false.
Proof.
  unfold blank. apply bool_decide_eq_false. unfold TrimSpace, sha256_digest.
  change (String.list_ascii_of_string ("sha256:" +:+ hex_encode (sha256 t)))
    with ("s"%char :: String.list_ascii_of_string ("ha256:" +:+ hex_encode (sha256 t))).
  rewrite trim_left_head by done. set (l := String.list_ascii_of_string _). intros H.
  assert (trim_right ("s"%char :: l) = []) as Hr by (destruct (trim_right _); [done|discriminate H]). unfold trim_right in Hr.
  apply (f_equal reverse) in Hr. rewrite reverse_involutive in Hr.
  assert (∀ k, trim_left_with (λ b a, space2 a b) (λ c b a, space3 a b c) (k ++ ["s"%char]) ≠ []) as Hne.
  { clear. intros k. remember (length k) as n eqn:Hn. revert k Hn. induction (lt_wf n) as [n _ IH]. intros k ->.
    destruct k as [|a k1]; [done|]. cbn [app trim_left_with]. destruct (space1 a); [eapply IH; [|done]; cbn; lia|].
    destruct k1 as [|b k2]; [cbn [app]; by change (space2 "s" a) with false|]. cbn [app]. destruct (space2 b a); [eapply IH; [|done]; cbn; lia|].
    destruct k2 as [|c k3]; [cbn [app]; by change (space3 "s" b a) with false|]. cbn [app]. destruct (space3 c b a); [eapply IH; [|done]; cbn; lia|done]. }
  rewrite reverse_cons in Hr. by apply Hne in Hr.
Qed.

(** The observation makes requests only. *)
Lemma observe_reads_events {X} `{!GoWorld X, !HTTPClient X} (e : Executor X) plan x o x' t : observePostcondition e plan x = (o, x', t) →
  Forall (λ ev, ∃ request r, ev = EvHTTP request r) t.
Proof.
  unfold observePostcondition. generalize observationReads ([] : list PostconditionEvaluation) ([] : list customerSnapshot). intros n.
  revert x t. induction n as [|n IH]; intros x t evs sns; cbn [observe_reads]; [intros (_ & _ & ->)%ret_inv; constructor|].
  intros (r & x1 & t1 & t2 & Hg & H & ->)%bind_inv. apply Forall_app. split.
  - apply bind_inv in Hg as (a & x2 & t3 & t4 & [_ ->]%call_inv & (_ & _ & ->)%ret_inv & ->). constructor; [by eexists _, a|constructor].
  - destruct r as [snapshot|]; [|apply ret_inv in H as (_ & _ & ->); constructor].
    repeat (case_match; [apply ret_inv in H as (_ & _ & ->); by constructor|]).
    destruct (EvaluateCustomerUpdatePostcondition _ _); [by eapply IH|apply ret_inv in H as (_ & _ & ->); constructor].
Qed.

Section Recovery.
Context {X : Type} `{!GoWorld X, !HTTPClient X} (e : Executor X) (packet : Packet) (permit : Permit) (plan : CustomerUpdatePlan).

Lemma closure_now_inv record after disposition result acceptance observation count evaluation residual detail x evidence x' t :
  closure_now e record after disposition result acceptance observation count evaluation residual detail x = (Ok evidence, x', t) →
  VerifyClosureEvidence evidence = None ∧ ∃ now, t = [EvClock now].
Proof.
  intros (now & x1 & t1 & t2 & [_ ->]%call_inv & (Hr & _ & ->)%ret_inv & ->)%bind_inv. split; [|by exists now]. revert Hr.
  destruct (validateClosureEvidence _) eqn:Hv; [done|]. intros (digest & Hd & Hev)%eq_sym%bind_Ok. injection Hev as <-.
  unfold VerifyClosureEvidence. rewrite !orelse_None. split_and!.
  - done.
  - exact Hv.
  - apply guard_err_None. unfold digestClosureEvidence, DigestPayload, digestJSON in Hd. apply wrapped_Ok, bind_Ok in Hd as (text & _ & [= <-]).
    apply digest_not_blank.
  - match goal with |- match digestClosureEvidence ?a with _ => _ end = _ =>
      match type of Hd with digestClosureEvidence ?b = _ => change (digestClosureEvidence a) with (digestClosureEvidence b) end end.
    rewrite Hd. apply guard_err_None. cbn [ce_IntegrityDigest with_ClosureDigest]. by rewrite str_eqb_refl.
Qed.

(** The evidence of a recovery verifies. *)
Definition verifies (r : closure) : Prop := ∀ evidence, r.1 = Some evidence → VerifyClosureEvidence evidence = None.

(** Why an attempt leaves its state: a stable observation, after an accepted request
    or of the plan itself, or its retirement. *)
Definition closes (from to : string) (t : list crm_event) : Prop :=
  to = AttemptCompleted ∧ (∃ ev digest u, stable_reads e plan u ev digest ∧ u `sublist_of` t ∧
    (from = AttemptAccepted ∨ from = AttemptPossibleEffect ∧ pe_Result ev = PostconditionVerified)) ∨
  to = AttemptRetiredUnknown ∧ unresolved from = true.

(** Every transition of the run is of the loaded record, and closes it. *)
Definition closing (loaded : AttemptRecord) (u t : list crm_event) : Prop :=
  ∀ id from to record, EvTransition id from to (Ok record) ∈ t → from = at_State loaded ∧ closes from to (u ++ t).

Lemma no_transition loaded u t : (∀ id from to record, EvTransition id from to (Ok record) ∉ t) → closing loaded u t.
Proof. intros H id from to record Hin. by destruct (H id from to record). Qed.

Lemma append_closure_inv ctx id evidence x err x' t : appendClosureEvent e packet permit ctx id evidence x = (err, x', t) →
  ∃ event r, t = [EvAppend event r].
Proof. intros (r & x1 & t1 & t2 & [_ ->]%call_inv & (_ & _ & ->)%ret_inv & ->)%bind_inv. by eexists _, r. Qed.

Lemma closure_now_trace record after disposition result acceptance observation count evaluation residual detail x r x' t :
  closure_now e record after disposition result acceptance observation count evaluation residual detail x = (r, x', t) → ∃ now, t = [EvClock now].
Proof. intros (now & x1 & t1 & t2 & [_ ->]%call_inv & (_ & _ & ->)%ret_inv & ->)%bind_inv. by exists now. Qed.

Lemma pending_run id record result acceptance observation detail err x r x' t loaded u :
  keep_pending e packet permit id record result acceptance observation detail err x = (r, x', t) → verifies r ∧ closing loaded u t.
Proof.
  intros [(err' & [now ->]%closure_now_trace & ->)|(evidence & x1 & t1 & t2 & [Hv [now ->]]%closure_now_inv & H & ->)]%must_inv.
  { split; [done|]. apply no_transition. set_solver. }
  apply bind_inv in H as (appended & x2 & t3 & t4 & (event & r' & ->)%append_closure_inv & (-> & _ & ->)%ret_inv & ->).
  split; [by intros ? [= <-]|]. apply no_transition. set_solver.
Qed.

(** An observation that closes an attempt, or its retirement, is journaled first. *)
Lemma conclude_run (m : RUN X (result ClosureEvidence)) id (loaded : AttemptRecord) to status detail (final : result AttemptRecord → option error) appendErr x r x' t u :
  (∀ y a y' v, m y = (a, y', v) → (∃ now, v = [EvClock now]) ∧ ∀ evidence, a = Ok evidence → VerifyClosureEvidence evidence = None) →
  closes (at_State loaded) to u →
  must m unwrapped (λ evidence,
    err ← appendClosureEvent e packet permit Caller id evidence;
    match err with
    | Some err => mret (Some evidence, Some (ErrWrap appendErr err))
    | None => r ← transition_now e Background id (at_State loaded) to status detail; mret (Some evidence, final r)
    end) x = (r, x', t) → verifies r ∧ closing loaded u t.
Proof.
  intros Hm Hc [(err & H & ->)|(evidence & x1 & t1 & t2 & H & Hk & ->)]%must_inv; apply Hm in H as [[now ->] Hv].
  { split; [done|]. apply no_transition. set_solver. }
  specialize (Hv _ eq_refl). apply bind_inv in Hk as (err & x2 & t3 & t4 & (event & r' & ->)%append_closure_inv & Hk & ->). destruct err as [err|].
  { apply ret_inv in Hk as (-> & _ & ->). split; [by intros ? [= <-]|]. apply no_transition. set_solver. }
  apply bind_inv in Hk as (r2 & x3 & t5 & t6 & Ht & (-> & _ & ->)%ret_inv & ->). split; [by intros ? [= <-]|].
  apply bind_inv in Ht as (at_ & x4 & t7 & t8 & [_ ->]%call_inv & [_ ->]%call_inv & ->).
  intros id' from to' record Hin. assert (from = at_State loaded ∧ to' = to) as [-> ->] by set_solver. split; [done|].
  destruct Hc as [[-> (ev & digest & v & Hs & Hsub & Hwhy)]|Hc]; [left|by right]. split; [done|]. exists ev, digest, v.
  split_and!; [done|by apply sublist_inserts_r|done].
Qed.

(** What a recovery does with the attempt it loaded. *)
Definition recovers (k : AttemptRecord → attempt_identity → RUN X closure) : Prop :=
  ∀ loaded id x r x' t, record_matches e permit plan loaded id = true → k loaded id x = (r, x', t) → verifies r ∧ closing loaded [] t.

Lemma reconcile_recovers : recovers (λ record id,
  if str_eqb (at_State record) AttemptRetiredUnknown then fails ErrAttemptRetiredUnknown
  else if negb (unresolved (at_State record)) then fails (not_closable (at_State record))
  else
    observation ← observePostcondition e plan;
    let acceptance := acceptanceForAttemptState (at_State record) in
    match po_Err observation, po_Evaluation observation with
    | Some err, _ =>
        keep_pending e packet permit id record PostconditionUnknown acceptance observation ("observation remains unresolved: " +:+ error_text err)
          (unknown_outcome ("recovery observation=" +:+ error_text err))
    | None, None => fails (ErrNew "recovery observation is missing postcondition evaluation")
    | None, Some evaluation =>
        let result := pe_Result evaluation in
        if str_eqb (at_State record) AttemptPossibleEffect && negb (str_eqb result PostconditionVerified) then
          keep_pending e packet permit id record result RequestAcceptanceUnknown observation "stable observation does not discharge ambiguous request acceptance"
            (unknown_outcome ("request acceptance UNKNOWN and observed postcondition=" +:+ result))
        else close_observed e packet permit id record acceptance observation evaluation
    end).
Proof.
  intros loaded id x r x' t _ H. assert (∀ err, (fails err : RUN X closure) x = (r, x', t) → verifies r ∧ closing loaded [] t) as Hfail.
  { intros err (-> & _ & ->)%ret_inv. split; [done|]. apply no_transition. intros *. apply not_elem_of_nil. }
  destruct (str_eqb _ AttemptRetiredUnknown); [by eapply Hfail|]. destruct (unresolved _) eqn:Hu; cbn [negb] in H; [|by eapply Hfail]. clear Hfail.
  apply bind_inv in H as (observation & x1 & t1 & t2 & Hobs & H & ->).
  assert (∀ id from to record, EvTransition id from to (Ok record) ∉ t1) as Hnone.
  { intros * Hin. apply observe_reads_events in Hobs. rewrite Forall_forall in Hobs. apply Hobs in Hin as (? & ? & [=]). }
  assert (verifies r ∧ closing loaded t1 t2) as [Hv Hc].
  { destruct (po_Err observation) eqn:Herr; [by eapply pending_run|]. destruct (po_Evaluation observation) as [ev|] eqn:Hev.
    2:{ apply ret_inv in H as (-> & _ & ->). split; [done|]. apply no_transition. intros *. apply not_elem_of_nil. }
    cbv zeta in H. destruct (_ && _) eqn:Hcond; [by eapply pending_run|].
    apply observe_stable in Hobs as (ev' & Hev' & _ & Hst); [|done]. assert (ev' = ev) as -> by congruence. unfold close_observed in H.
    eapply conclude_run; [..|exact H].
    - intros y a y' v Ha. split; [by eapply closure_now_trace|]. intros evidence ->. by apply closure_now_inv in Ha as [? _].
    - left. split; [done|]. exists ev, (po_AfterDigest observation), t1. split_and!; [done..|].
      unfold unresolved in Hu. apply orb_true_iff in Hu as [Hp|Ha]; [right|left; by apply str_eqb_eq]. rewrite Hp in Hcond.
      apply str_eqb_eq in Hp. split; [done|]. destruct (str_eqb (pe_Result ev) PostconditionVerified) eqn:Hres; [by apply str_eqb_eq|done]. }
  split; [done|]. intros id' from to record [Hin|Hin]%elem_of_app; [by apply Hnone in Hin|]. by apply Hc in Hin.
Qed.

Lemma retire_recovers reason : recovers (λ record id,
  if str_eqb (at_State record) AttemptRetiredUnknown then fails ErrAttemptRetiredUnknown
  else if negb (unresolved (at_State record)) then fails (not_closable (at_State record))
  else
    must (closure_now e record AttemptRetiredUnknown ClosureRetiredUnknown PostconditionUnknown (acceptanceForAttemptState (at_State record))
            ObservationUnavailable 0 None true reason) unwrapped (λ evidence,
    err ← appendClosureEvent e packet permit Caller id evidence;
    match err with
    | Some err => mret (Some evidence, Some (ErrWrap "UNKNOWN retirement journal append failed" err))
    | None =>
        r ← transition_now e Background id (at_State record) AttemptRetiredUnknown (at_HTTPStatus record) ("RETIRED_UNKNOWN: " +:+ reason);
        mret (Some evidence, match r with
          | Error err => Some (ErrWrap "UNKNOWN retirement persistence failed" err)
          | Ok _ => None
          end)
    end)).
Proof.
  intros loaded id x r x' t _ H. assert (∀ err, (fails err : RUN X closure) x = (r, x', t) → verifies r ∧ closing loaded [] t) as Hfail.
  { intros err (-> & _ & ->)%ret_inv. split; [done|]. apply no_transition. intros *. apply not_elem_of_nil. }
  destruct (str_eqb _ AttemptRetiredUnknown); [by eapply Hfail|]. destruct (unresolved _) eqn:Hu; cbn [negb] in H; [|by eapply Hfail].
  eapply conclude_run; [..|exact H].
  - intros y a y' v Ha. split; [by eapply closure_now_trace|]. intros evidence ->. by apply closure_now_inv in Ha as [? _].
  - by right.
Qed.

(** The run of a recovery is about the attempt it loaded. *)
Definition recovery_run (r : closure) (t : list crm_event) : Prop :=
  verifies r ∧ ∀ id from to record, EvTransition id from to (Ok record) ∈ t → ∃ loaded identity,
    EvLoadAttempt (ai_AttemptID identity) (Ok loaded) ∈ t ∧ record_matches e permit plan loaded identity = true ∧ from = at_State loaded ∧ closes from to t.

Lemma recovery_inv k x r x' t : recovers k → with_recovery_attempt e packet permit plan k x = (r, x', t) → recovery_run r t.
Proof.
  intros Hk. assert (∀ err u, (∀ id from to record, EvTransition id from to (Ok record) ∉ u) → recovery_run (None, Some err) u) as Hfail.
  { intros err u Hu. split; [done|]. intros * Hin. by apply Hu in Hin. }
  assert (∀ A id from to record (u : list crm_event) (f : A → crm_event) v, u = f <$> v → (∀ a, f a ≠ EvTransition id from to (Ok record)) →
    EvTransition id from to (Ok record) ∉ u) as Hlift.
  { intros A id from to record u f v -> Hf (a & Ha & _)%list_elem_of_fmap. by destruct (Hf a). }
  unfold with_recovery_attempt. intros [(? & (_ & _ & ->)%ret_inv & ->)|(x1 & t1 & t2 & (_ & -> & ->)%ret_inv & H & ->)]%require_inv.
  { apply Hfail. intros *. apply not_elem_of_nil. }
  apply require_inv in H as [(? & (u & _ & ->)%lift_inv & ->)|(x2 & t3 & t4 & (u & _ & ->)%lift_inv & H & ->)].
  { apply Hfail. intros *. by eapply Hlift. }
  apply require_inv in H as [(? & (_ & _ & ->)%ret_inv & ->)|(x3 & t5 & t6 & (_ & -> & ->)%ret_inv & H & ->)].
  { apply Hfail. intros *. cbn [app]. rewrite app_nil_r. by eapply Hlift. }
  apply must_inv in H as [(? & (_ & _ & ->)%ret_inv & ->)|(identity & x5 & t9 & t10 & (_ & -> & ->)%ret_inv & H & ->)].
  { apply Hfail. intros *. cbn [app]. rewrite app_nil_r. by eapply Hlift. }
  apply must_inv in H as [(? & [_ ->]%call_inv & ->)|(loaded & x6 & t11 & t12 & [_ ->]%call_inv & H & ->)].
  { apply Hfail. cbn [app]. intros * [Hin|Hin%list_elem_of_singleton]%elem_of_app; [by eapply Hlift in Hin|done]. }
  destruct (record_matches e permit plan loaded identity) eqn:Hm; cbn [negb] in H.
  2:{ apply ret_inv in H as (-> & _ & ->). apply Hfail. cbn [app]. intros * [Hin|Hin%list_elem_of_singleton]%elem_of_app; [by eapply Hlift in Hin|done]. }
  apply Hk in H as [Hv Hc]; [|done]. split; [done|]. cbn [app]. intros id from to record [Hin|[Hin|Hin]%elem_of_cons]%elem_of_app; [by eapply Hlift in Hin|done|].
  apply Hc in Hin as [-> Hcl]. exists loaded, identity. split_and!; [set_solver|done|done|].
  destruct Hcl as [[-> (ev & digest & v & Hs & Hsub & Hwhy)]|Hcl]; [left|by right]. split; [done|]. exists ev, digest, v.
  split_and!; [done|by apply sublist_inserts_l, sublist_cons|done].
Qed.
End Recovery.

