(* ===== verification/CrmExample.v ===== *)
(** * A change request at work

    The host of [HostMemory.v] keeps the rules of [CrmCustody.v].  Its destination
    has one customer, whose state and version are files beside the others, and
    which refuses every change while the host's processes fail.  On it a change is
    executed, executed again, left unresolved, reconciled and retired. *)

From stdpp Require Import stringmap.
From S2P Require Import Prelude Crypto Format Json Base64 Unmarshal GoTime Permit JournalEntry FileSystem KernelAbi Workload LifecycleText Linux HostMemory MemoryFS AnyValue EvidencePipeline CrmOutcome CrmAttempt CrmExecutor CrmLaws CrmCustody CrmEvidence.
From S2P Require LifecycleLaws.
Local Open Scope Z_scope.

(** * The destination *)

Definition customer_file : string := "/crm/customer".
Definition version_file : string := "/crm/version".

(** The patch in the place of what follows the id. *)
Definition patched (body : string) : string :=
  match body with String _ rest => "{" +:+ quoted "id" +:+ ":" +:+ quoted "c1" +:+ "," +:+ rest | "" => "" end.

Definition answer (status : Z) (h : host) : http_response := {|
  hr_StatusCode := status; hr_ETag := default "" (ho_files h !! version_file); hr_DestinationID := "crm-1"; hr_AccountID := "acct-1";
  hr_Body := (default "" (ho_files h !! customer_file), None) |}.

Definition host_Do (request : http_request) (h : host) : result http_response * host :=
  if str_eqb (hq_Method request) "PATCH" then
    if negb (ho_exit h =? 0) then (Ok (answer 500 h), h)
    else if bool_decide (("If-Match", default "" (ho_files h !! version_file)) ∈ hq_Header request)
    then (Ok (answer 200 h), set_host_files (<[customer_file := patched (hq_Body request)]> (<[version_file := "v2"]> (ho_files h))) h)
    else (Ok (answer 412 h), h)
  else (Ok (answer 200 h), h).

#[export] Instance host_client : HTTPClient host := {| client_Do := host_Do |}.

(** * The rules *)

Definition host_there (h : host) (path : string) : Prop := is_Some (ho_files h !! path).

Abbreviation unmoved := (keeps host_there).

Lemma nothing_keeps {A} (a a' : A) h h' : nothing a h = (a', h') → unmoved h h'.
Proof. intros [= _ <-]. reflexivity. Qed.

Lemma insert_keeps path data h : unmoved h (set_host_files (<[path := data]> (ho_files h)) h).
Proof.
  intros p _ Hp. unfold host_there in *. cbn. destruct (decide (p = path)) as [->|Hn]; [rewrite lookup_insert_eq; by eexists|by rewrite lookup_insert_ne].
Qed.

Lemma host_Do_keeps request h r h' : host_Do request h = (r, h') → unmoved h h'.
Proof.
  unfold host_Do. repeat case_match; intros [= _ <-]; try reflexivity. etrans; [apply (insert_keeps version_file "v2")|].
  exact (insert_keeps customer_file (patched (hq_Body request)) (set_host_files (<[version_file := "v2"]> (ho_files h)) h)).
Qed.

Lemma host_open_keeps path flags h r h' : host_open path flags h = (r, h') → unmoved h h' ∧
  ∀ f, r = Ok f → flags = CreateExclusive → ends ".json" path → ¬ host_there h path ∧ host_there h' path.
Proof.
  intros E. destruct flags; cbn in E; try (injection E as <- <-; split; [reflexivity|done]).
  destruct (ho_files h !! path) eqn:Hp; [injection E as <- <-; by split|]. destruct (decide _); injection E as <- <-; [by split|].
  split; [apply insert_keeps|]. intros f _ _ _. unfold host_there. cbn. rewrite Hp, lookup_insert_eq. split; [by intros []|by eexists].
Qed.

Lemma host_temp_keeps dir h r h' : host_temp dir ".attempt-*" h = (r, h') → unmoved h h' ∧ ∀ f, r = Ok f → ¬ ends ".json" (file_Name f).
Proof.
  unfold host_temp. set (path := dir +:+ _). cbv zeta.
  assert (¬ ends ".json" path) as Hn.
  { intros [b Hb]. apply (f_equal LifecycleLaws.last_char) in Hb. unfold path in Hb. by rewrite !string_app_assoc, !LifecycleLaws.last_char_app in Hb. }
  destruct (ho_files h !! path); [intros [= <- <-]; by split|]. destruct (decide _); intros [= <- <-]; [by split|]. split; [|by intros f [= <-]].
  intros p Hj Hp. by apply insert_keeps.
Qed.

Lemma host_write_keeps f data h r h' : host_write f data h = (r, h') → unmoved h h'.
Proof. unfold host_write. repeat case_match; intros [= _ <-]; try reflexivity. apply insert_keeps. Qed.

Lemma delete_keeps path h : ¬ ends ".json" path → unmoved h (set_host_files (delete path (ho_files h)) h).
Proof. intros Hn p Hj Hp. unfold host_there in *. cbn. by rewrite lookup_delete_ne by (intros ->; done). Qed.

Lemma host_rename_keeps from to h r h' : host_rename from to h = (r, h') → ¬ ends ".json" from → unmoved h h'.
Proof.
  unfold host_rename. intros E Hn. destruct (ho_files h !! from) as [data|]; injection E as _ <-; [|reflexivity]. etrans; [by apply (delete_keeps from)|].
  exact (insert_keeps to data (set_host_files (delete from (ho_files h)) h)).
Qed.

Lemma host_remove_keeps path h r h' : host_remove path h = (r, h') → ¬ ends ".json" path → unmoved h h'.
Proof. intros [= _ <-] Hn. by apply delete_keeps. Qed.

#[export] Instance host_attempts : AttemptLaws host.
Proof.
  refine {| there := host_there; client_Do_keeps := host_Do_keeps; OpenFile_keeps := host_open_keeps; CreateTemp_keeps := host_temp_keeps;
    Write_keeps := host_write_keeps; Rename_keeps := host_rename_keeps; Remove_keeps := host_remove_keeps |};
    intros; eapply nothing_keeps; match goal with E : ?f = _ |- _ => apply E end.
Defined.

(** * Runs *)

Definition sample_store : FileAttemptStore := {| fs_dir := "/attempts" |}.

Definition any_entry (event : Event) : Entry := Build_Entry 2 "j" 1 "" event "".

Definition sample_executor : Executor host := {|
  ex_baseURL := {| u_Scheme := "https"; u_HasUser := false; u_Host := "crm.example"; u_Path := "/api"; u_RawPath := ""; u_ForceQuery := false;
                   u_RawQuery := ""; u_Fragment := "" |};
  ex_destinationID := "crm-1"; ex_accountID := "acct-1"; ex_adapterProfile := CRMAdapterProfileVersion;
  ex_permitVerifier := {| sv_Verify := λ _ _ _ h, (None, h) |}; ex_journal := λ _ event h, (Ok (any_entry event), h);
  ex_attempts := file_store sample_store; ex_clock := λ h, (ho_clock h, h) |}.

Lemma sample_steady : steady sample_store sample_executor.
Proof. split; [done|..]; intros *; by intros [= _ <-]. Qed.

Definition sample_plan : CustomerUpdatePlan := {| cp_CustomerID := "c1"; cp_Patch := {[ "tier" := AString "gold"; "limit" := ANumber "500" ]} |}.

(** The permit of a plan. *)
Definition claims_for (plan : CustomerUpdatePlan) : PermitClaims := {|
  pc_IntentID := "intent-1"; pc_Kind := "crm.customer_update"; pc_Target := {| tg_Type := "customer"; tg_Name := "c1" |}; pc_Action := "update_customer";
  pc_ResourceVersion := "v1"; pc_EvidenceDigest := "e"; pc_EvidenceManifestDigest := ""; pc_EvidencePacketDigest := it_Digest (pk_Integrity sample_packet);
  pc_PlanDigest := match DigestCustomerUpdatePlan plan with Ok d => d | Error _ => "" end; pc_ApprovalRefs := [];
  pc_ExecutionBinding := Some {| eb_DestinationID := "crm-1"; eb_AccountID := "acct-1"; eb_Endpoint := "https://crm.example/api";
                                 eb_AdapterProfile := CRMAdapterProfileVersion; eb_ExpectedResourceVersion := "v1" |};
  pc_EBAContextProfile := ""; pc_EBATraceID := ""; pc_EBAAudience := ""; pc_EBANamespace := ""; pc_EBAAssumptionRefs := []; pc_EBAAuthorityRef := "";
  pc_CapabilityFence := None; pc_ValidUntil := 1000 |}.

Definition permit_for (plan : CustomerUpdatePlan) : Permit :=
  {| pm_APIVersion := PermitVersion; pm_KeyID := "k1"; pm_Claims := claims_for plan; pm_Signature := base64_encode "sig" |}.

Definition customer (fields : string) : string := "{" +:+ quoted "id" +:+ ":" +:+ quoted "c1" +:+ fields +:+ "}".

Definition crm_host (exit : Z) : host := {|
  ho_files := <[version_file := "v1"]> {[ customer_file := customer ("," +:+ quoted "tier" +:+ ":" +:+ quoted "silver") ]};
  ho_mine := ∅; ho_clock := 100; ho_boot := 0; ho_pid := 1; ho_exit := exit |}.

Definition run_plan (plan : CustomerUpdatePlan) (h : host) : outcome * host * list crm_event :=
  Execute sample_executor sample_packet (permit_for plan) plan h.

Definition ran : outcome * host * list crm_event := run_plan sample_plan (crm_host 0).

Strategy expand [sample_packet Compile].

(** What a trace shows of the attempt and of the requests. *)
Definition shown (ev : crm_event) : option string :=
  match ev with
  | EvHTTP request r => Some (hq_Method request +:+ " " +:+ hq_URL request)
  | EvClaim _ None => Some AttemptClaimed
  | EvTransition _ _ to (Ok _) => Some to
  | EvAppend event (Ok _) => Some (ev_Type event)
  | _ => None
  end.

Definition GET : string := "GET https://crm.example/api/customers/c1".
Definition PATCH : string := "PATCH https://crm.example/api/customers/c1".

Example run_shown : omap shown ran.2 =
  [AttemptClaimed; EventAuthorization; GET; EventExecution; AttemptPossibleEffect; PATCH; AttemptAccepted; GET; GET; GET; EventOutcome;
   AttemptCompleted] ∧ ran.1.1.2 = None.
Proof. vm_compute. split; reflexivity. Qed.

(** The same permit again: nothing is sent. *)
Example run_again : (run_plan sample_plan ran.1.2).1.1 = (None, Some (ErrWrap "claim CRM mutation attempt" ErrAttemptAlreadyClaimed)) ∧
  omap shown (run_plan sample_plan ran.1.2).2 = [].
Proof. vm_compute. split; reflexivity. Qed.

(** The destination has it already. *)
Definition gold : host :=
  set_host_files (<[customer_file := customer ("," +:+ quoted "tier" +:+ ":" +:+ quoted "gold" +:+ "," +:+ quoted "limit" +:+ ":5e2")]> (ho_files (crm_host 1)))
    (crm_host 1).

Example run_satisfied : omap shown (run_plan sample_plan gold).2 = [AttemptClaimed; EventAuthorization; GET; EventOutcome; AttemptCompleted] ∧
  oe_Result <$> (run_plan sample_plan gold).1.1.1 = Some PostconditionAlreadySatisfied.
Proof. vm_compute. split; reflexivity. Qed.

(** A destination that fails: the attempt stays, and is reconciled once the customer
    has the change. *)
Definition failed_run : outcome * host * list crm_event := run_plan sample_plan (crm_host 1).

Example failed_shown : omap shown failed_run.2 =
  [AttemptClaimed; EventAuthorization; GET; EventExecution; AttemptPossibleEffect; PATCH; GET; GET; GET; EventOutcome].
Proof. vm_compute. reflexivity. Qed.

Definition observed_host : host :=
  set_host_files (<[customer_file := default "" (ho_files gold !! customer_file)]> (ho_files failed_run.1.2)) failed_run.1.2.

Definition reconciled : closure * host * list crm_event :=
  ReconcileAttempt sample_executor sample_packet (permit_for sample_plan) sample_plan observed_host.

Definition retired : closure * host * list crm_event :=
  RetireAttemptUnknown sample_executor sample_packet (permit_for sample_plan) sample_plan " unreachable " failed_run.1.2.

Example reconciled_shown : omap shown reconciled.2 = [GET; GET; GET; EventOutcome; AttemptCompleted] ∧ reconciled.1.1.2 = None ∧
  omap shown retired.2 = [EventOutcome; AttemptRetiredUnknown].
Proof. vm_compute. split_and!; reflexivity. Qed.

(** ** Findings *)

(** The keys of the patch are sorted and their paths, in which a slash is escaped by
    a tilde, are not: the request is sent and accepted, and no outcome is recorded.
    Nor can a reconciliation close the attempt. *)
Definition slash_plan : CustomerUpdatePlan := {| cp_CustomerID := "c1"; cp_Patch := {[ "a/" := ANumber "1"; "a0" := ANumber "2" ]} |}.

Definition slash_run : outcome * host * list crm_event := run_plan slash_plan (crm_host 0).

Example slash_key_loses_outcome : slash_run.1.1 =
    (None, Some (ErrWrap "postcondition evidence invalid" (ErrNew "postcondition fields must be uniquely sorted"))) ∧
  omap shown slash_run.2 =
    [AttemptClaimed; EventAuthorization; GET; EventExecution; AttemptPossibleEffect; PATCH; AttemptAccepted; GET; GET; GET] ∧
  (ReconcileAttempt sample_executor sample_packet (permit_for slash_plan) slash_plan slash_run.1.2).1.1.1 = None.
Proof. vm_compute. split_and!; reflexivity. Qed.

(** The id of a customer is escaped, and what escapes it is escaped again. *)
Example customer_id_escaped_twice : customerURL sample_executor "a/b" = "https://crm.example/api/customers/a%252Fb".
Proof. vm_compute. reflexivity. Qed.

(** * Witnesses *)

Definition sample_ops : list crm_op :=
  [OpExecute sample_executor sample_packet (permit_for sample_plan) sample_plan; OpReconcile sample_executor sample_packet (permit_for sample_plan) sample_plan;
   OpExecute sample_executor sample_packet (permit_for sample_plan) sample_plan;
   OpRetire sample_executor sample_packet (permit_for sample_plan) sample_plan "lost"].

Fixpoint crm_run (ops : list crm_op) (h : host) : list (crm_op * list crm_event) * host :=
  match ops with
  | [] => ([], h)
  | o :: ops => let '(h1, t) := perform o h in let '(l, h') := crm_run ops h1 in ((o, t) :: l, h')
  end.

Lemma crm_run_history ops h : Forall (λ o, op_executor o = sample_executor) ops → history sample_store h (crm_run ops h).1 (crm_run ops h).2.
Proof.
  intros Ho. revert h. induction Ho as [|o ops He _ IH]; intros h; cbn [crm_run]; [constructor|].
  destruct (perform o h) as [h1 t] eqn:E. specialize (IH h1). destruct (crm_run ops h1) as [l h'].
  eapply history_run; [rewrite He; apply sample_steady|done|done].
Qed.

Definition sample_attempt : string := default "" (op_attempt (OpExecute sample_executor sample_packet (permit_for sample_plan) sample_plan)).

(** One request, in the first of the four operations. *)
Example sent_in_order : length <$> ((λ p, patches p.2) <$> (crm_run sample_ops (crm_host 1)).1) = [1; 0; 0; 0]%nat ∧
  length (sent sample_attempt (crm_run sample_ops (crm_host 1)).1) = 1%nat.
Proof. vm_compute. split; reflexivity. Qed.

Example attempt_mutates_once_witness :
  let l := (crm_run sample_ops (crm_host 1)).1 in
  (length (sent sample_attempt l) ≤ 1)%nat ∧ (claimed sample_store (crm_host 1) sample_attempt → sent sample_attempt l = []).
Proof.
  exact (attempt_mutates_once sample_store sample_attempt (crm_host 1) (crm_run sample_ops (crm_host 1)).1 (crm_run sample_ops (crm_host 1)).2
    ltac:(discriminate) (crm_run_history sample_ops (crm_host 1) ltac:(repeat constructor))).
Defined.

Lemma split_run {A B C} (x : A * B * C) : x = (x.1.1, x.1.2, x.2).
Proof. by destruct x as [[a b] c]. Qed.

Lemma not_empty {A} (l : list A) n : length l = S n → l ≠ [].
Proof. by destruct l. Qed.

Definition succeeded (r : outcome) : bool := match r with (Some _, None) => true | _ => false end.

Definition no_outcome : OutcomeEvidence := Build_OutcomeEvidence "" "" "" "" "" "" "" "" "" "" "" "" 0 None 0 (utc 0) "".

Lemma succeeded_is (r : outcome) : succeeded r = true → r = (Some (default no_outcome r.1), None).
Proof. by destruct r as [[o|] [err|]]. Qed.

Definition ran_outcome : OutcomeEvidence := default no_outcome ran.1.1.1.

Lemma ran_sent : length (patches ran.2) = 1%nat.
Proof. vm_compute. reflexivity. Qed.

Lemma ran_succeeded : succeeded ran.1.1 = true.
Proof. vm_compute. reflexivity. Qed.

Lemma ran_unfold : ran = Execute sample_executor sample_packet (permit_for sample_plan) sample_plan (crm_host 0).
Proof. unfold ran, run_plan. reflexivity. Qed.

Lemma reconciled_unfold : reconciled = ReconcileAttempt sample_executor sample_packet (permit_for sample_plan) sample_plan observed_host.
Proof. unfold reconciled. reflexivity. Qed.

Lemma ran_is : Execute sample_executor sample_packet (permit_for sample_plan) sample_plan (crm_host 0) = (ran.1.1, ran.1.2, ran.2).
Proof. exact (eq_trans (eq_sym ran_unfold) (split_run ran)). Qed.

Strategy opaque [ran reconciled observed_host crm_host run_plan Execute ReconcileAttempt].

Lemma outcome_is (r : outcome * host * list crm_event) : succeeded r.1.1 = true → r = ((Some (default no_outcome r.1.1.1), None), r.1.2, r.2).
Proof. intros H. rewrite <- (succeeded_is r.1.1 H). apply split_run. Qed.

Lemma ran_succeeds : Execute sample_executor sample_packet (permit_for sample_plan) sample_plan (crm_host 0) = ((Some ran_outcome, None), ran.1.2, ran.2).
Proof. unfold ran_outcome. exact (eq_trans (eq_sym ran_unfold) (outcome_is ran ran_succeeded)). Qed.

Lemma reconciled_is : ReconcileAttempt sample_executor sample_packet (permit_for sample_plan) sample_plan observed_host =
  (reconciled.1.1, reconciled.1.2, reconciled.2).
Proof. exact (eq_trans (eq_sym reconciled_unfold) (split_run reconciled)). Qed.

Strategy opaque [ran_outcome].

Example mutation_under_custody_witness :
  ∃ id pre request answer post, ran.2 = pre ++ EvHTTP request answer :: post ∧ patches pre = [] ∧ patches post = [] ∧
    plan_request sample_executor sample_plan id request ∧ claimed_trail sample_executor sample_packet (permit_for sample_plan) sample_plan id pre ∧
    ∃ before, dispatch_trail sample_executor (permit_for sample_plan) sample_plan id pre before.
Proof.
  exact (mutation_under_custody sample_executor sample_packet (permit_for sample_plan) sample_plan (crm_host 0) ran.1.1 ran.1.2 ran.2 ran_is (not_empty _ 0 ran_sent)).
Defined.


